(* ===== verification/_CoqProject ===== *)
-Q . S2P
Prelude.v
PyDict.v
OrderIds.v
RunChange.v
SessionClock.v
UploadBuffer.v
Acks.v
RecordingPolicy.v
IngestQueue.v
TelemetryWriter.v
Mission.v
LegTracker.v
StatusWrites.v
MessageQueue.v
InstantActions.v
Runs.v
MissionQueue.v
RobotStatus.v
OrderPolicy.v
Orders.v
Progress.v
OrderGate.v
Reports.v
StateMessage.v
Teleop.v
Lifecycle.v
BlockedNodes.v
Detectors.v
Idempotency.v
SceneMemory.v
ShortestPaths.v
TurnSearch.v
LatticePlan.v
ImportPlan.v
ImportApply.v
MapDelete.v
Reroute.v
MissionControl.v
MapSessions.v
RunPlacement.v
Coroutine.v
Orchestrator.v
SlamSave.v
RelocJobs.v
Deploy.v
Transfers.v
