(* ===== verification/Prelude.v ===== *)
(** * A verification of the fleet cloud server: dispatch, maps, routes and ingest

    The cloud server drives a fleet of robots. Its mission dispatcher (packages/controllers/mission)
    takes missions from the database, sends each robot VDA5050 orders over MQTT, and follows its state
    messages; the ingest services record what the robots report: the telemetry ingest
    (packages/telemetry_ingest) stores events, time series and latest values, and the graph builder
    (packages/services/graph_builder) receives recorded nodes with their uploads and acknowledges them.
    The API (packages/api) takes the operators' requests: missions, maps and the sessions through which robots use
    them, deletes, relocalization, new software; it drives the orchestrator service of each robot for these, and
    records what robots diagnose about themselves. The planner (packages/services/mission_planner)
    finds routes on the lattice of the scene graph (packages/scene_graph), and the migration (packages/migration)
    carries maps from one server to another.
    This library models the parts of these programs that keep state and make decisions, as Python
    definitions translated one by one into executable Rocq functions, and proves what makes them
    correct. Everything below is under src/.

    ** Files

    - [Prelude] (this file): results of calls that may raise, Python idioms, runs and reachability of
      step functions, the tactics and generic lemmas the other files share.
    - [PyDict]: Python dictionaries in insertion order, with their equations and invariant.

    The dispatcher (packages/controllers/mission):
    - [OrderIds]: order_ids.py, how order, node and action ids are built and read back.
    - [RunChange]: run_change.py, when a robot's messages mean that its process restarted, and when its
      coordinate frame changed.
    - [Mission]: cloud_common/objects/mission.py and behavior_tree.py, the validation of missions,
      reroutes and cancels, and the behaviour tree built from an accepted mission.
    - [LegTracker]: leg_tracker.py, the legs a run's node reports give.
    - [StatusWrites]: server.py, [_StatusRow] and the coroutines that write one database row.
    - [MessageQueue]: server.py, the newest-wins queues between the broker and a robot's message loop
      (Modules [BrokerQueue] and [RobotQueue]).
    - [InstantActions]: server.py, cancelOrders and the other instant actions until they are answered or
      given up, and what a resolved cancel means for the mission.
    - [Runs]: server.py, run ids, order revisions, adopted orders, churn and passes of one mission.
    - [MissionQueue]: server.py, the mission timeout (Module [Timeout]) and which row changes are new
      missions (Module [Finished]).
    - [RobotStatus]: server.py, the throttled writes of the robot row (Module [Throttle]) and the log of
      the message loop's exceptions (Module [LoopErrors]).
    - [OrderPolicy]: order_policy.py, the settings of orders and their limits (Module [Policy]);
      order_start.py, the first waypoint of an order (Module [Start]); factsheet_actions.py, the actions
      a robot lists (Module [Factsheet]).
    - [Orders]: vda5050_types.py and cloud_common/node_policy.py, the orders built from routes, moves and
      actions, and the record of their nodePolicy actions.
    - [Progress]: server.py, how a state message is read against the order sent, and which errors fail the
      mission.
    - [OrderGate]: server.py, [_send_order] with the gate on the robot's previous order, resends, adoption of
      an earlier revision, and states that report another order.
    - [Reports]: server.py, references to nodes (Module [NodeRefs]), skipped nodes and notes (Module
      [NodeReports]), blocked edges (Module [Blocked]).
    - [StateMessage]: server.py, [update_mission_state] as the composition of [Reports], [Progress] and the
      behaviour tree, and [_set_mission_state].
    - [Teleop]: server.py and cloud_common/objects/robot.py, the robot's state and teleoperation.
    - [Reroute]: server.py, [_apply_spec_edit], [_update_mission_from_api] and [_settle_route_rev], the edits and
      reroutes of a loaded mission.
    - [MissionControl]: server.py, the queue of a robot's controller and the start of missions
      ([_try_start_mission], [_retry_stalled_start], [_cancel_before_dispatch], [get_next_mission],
      [post_mission_completion], [_on_mission_change], [_on_robot_change]).
    - [Lifecycle]: lifecycle.py and [graceful_shutdown], the leader lock (Module [Leader]), the liveness file
      (Module [Heart]) and the time budget of the shutdown (Module [Shutdown]).

    Shared with the planner and the API:
    - [BlockedNodes]: packages/utils/blocked_nodes.py, the table of blocked graph nodes (Module [Table]), the
      blocking rule (Module [Rule]) and the path search around them (Module [Search]).
    - [Detectors]: packages/events/detectors.py (Module [Signals]) and packages/api/telemetry_detectors.py
      (Module [RobotEvents]), signals turned into events.
    - [Idempotency]: packages/api/idempotency.py, requests that run once per key.
    - [MapSessions]: packages/api/maps.py and packages/utils/map_sessions.py, the states of maps, the sessions of
      robots on them and where a session's placement comes from, with the writes of the dispatcher, the ingest and
      the deletes to the same rows. Its class [Geometry] stands for the floating-point formulas of poses and datums.
    - [RunPlacement]: map_sessions.py [run_continues] and server.py [_run_epoch_check], the run epochs of robots,
      beside the runs they stand for.
    - [MapDelete]: packages/api/map_delete.py with packages/services/graph_builder/scene_guard.py, the background
      delete of a map by several workers beside the scene worker; Module [Registry], which deletes are taken up.

    What the API has robots do (packages/api):
    - [Coroutine]: coroutines as trees of what they await, their runs against an environment, weakest preconditions
      with a guarantee per effect, and a rely-guarantee rule for tasks that run side by side ([pool_sound]).
    - [Orchestrator]: orchestrator_client.py, the calls to the service on the robot, their errors, and how a stored
      localization intent is put back. The service is not in the repository: the class [Orchestrator] has its operations
      and [Documented] what the code documents of it; Module [Toy] is a robot that meets it.
    - [SlamSave]: mapping_switch.py, slam_save_state.py, the proxied calls of orchestrator_proxy.py and what maps.py and
      robot_delete.py do with the robot: the mapping services switched on and off, and a SLAM map recorded, saved in the
      background or discarded.
    - [RelocJobs]: reloc_job.py, the background relocalization of a robot on a stored map and its rollback (for robots of
      the class [Intents], which [Toy] is), and the jobs of all robots (Module [Registry]).
    - [Deploy]: navstack_deploy.py and the versions of navstack_images.py, the deployment of an image to a robot by
      requests, jobs and cancels of several processes over one row.

    Routes (packages/scene_graph and packages/services/mission_planner):
    - [ShortestPaths]: the class [ShortestPaths] states what the searches rely on of scipy's Dijkstra, with an
      instance that computes it; the canonical walk along shortest paths.
    - [TurnSearch]: turn.py, the exact search with a cost per change of heading.
    - [LatticePlan]: lazy_plan.py, the cells and steps of the lattice, the corridor of charts and the search.

    Moving maps between servers (packages/migration):
    - [ImportPlan]: plan.py, which map an import writes to and under which name.
    - [ImportApply]: apply.py, stores.py and jobs.py, the writes of one map, cut short and resumed (Module [Maps]), and
      their undo (Module [Undo]).
    - [Transfers]: verify.py, the check before a move deletes the source (Module [Verify], whose class [Probe] is the
      protocol of that name, with the stores of [ImportApply] as instance); jobs.py and the upload of
      packages/api/data_transfer.py, the exports and imports a server works on, their coroutines and the files they
      spool (Module [Jobs]).

    The ingest (packages/telemetry_ingest):
    - [RecordingPolicy]: policy.py, which rows are recorded for which robot.
    - [IngestQueue]: queue.py and the counters of metrics.py, the bounded queue and the spill file.
    - [TelemetryWriter]: writer.py and tables.py, flushes, drains and shutdown.

    The graph builder (packages/services/graph_builder):
    - [SessionClock]: scene_clock.py, clock offsets of recording sessions.
    - [UploadBuffer]: upload_buffer.py, uploads that wait for their node.
    - [Acks]: acks.py, acknowledgements and high-water marks.
    - [SceneMemory]: scene_memory.py, the memory guard (Module [Guard]) and the marker around engine loads
      (Module [Loads]).

    ** How code is modelled

    The state of an object is a record, and each method a function from the state (and its arguments) to the new state
    and what it returns, sends or raises. A coroutine that awaits is cut at its awaits into steps, so that a theorem
    about every sequence of steps covers every interleaving ([StatusWrites], [TelemetryWriter], [RecordingPolicy],
    [Runs], [Idempotency], [Lifecycle], [MapDelete], [Transfers]). Where a coroutine is one long course of calls it is
    a program of [Coroutine] instead, whose effects are its awaits: a theorem about its runs lets the environment act
    between any two of them and cuts it short anywhere, and several programs beside each other are a [pool]
    ([SlamSave], [RelocJobs], [Deploy]). Mutable objects that are shared are kept in a store by identity
    ([MessageQueue]). What the environment decides is an argument of the step: the outcome of a database call, a
    transaction or a file operation (including a failure that was applied), the clock, a drawn uuid, the robot's
    message, and in [InstantActions] and [MissionControl] what the rest of the controller decides. Invariants are
    proved of every state [reachable] from the initial one. Fields called history in a record are written and never
    read by the operations; theorems use them to speak about the past (what was published, committed, resolved or
    lost).

    Times and coordinates are integers (milliseconds, seconds, micrometres as each file says), since the code only
    compares and subtracts them here; identifiers are strings and counters are natural numbers, as Python's do not
    overflow. Loops over data are structural ([passed_from] counts down from the number of waypoints, and the path
    search of [BlockedNodes] from the number of edges, which their theorems show is enough; [MissionControl.try_start]
    takes one turn more than missions wait, the canonical walk of [ShortestPaths] as many as the distance in units;
    the polling loops of [SlamSave], [RelocJobs] and [Deploy] as many as fit in the timeout, and a deployment drives
    its row at most once per phase, which [SlamSave.save_ends], [RelocJobs.job_outcome] and
    [Deploy.deployment_settles] show is enough), and loops that wait for the environment are steps; where a loop must
    end, a theorem bounds its steps ([TelemetryWriter.drain_delivers], [InstantActions.unanswered_action_given_up]).

    ** What is shown

    - Nothing is lost or reordered: [TelemetryWriter.event_conservation], [latest_update_survives] and
      [drain_delivers]; [IngestQueue.spill_file_fifo]; [StatusWrites.status_commits_ordered] and
      [newest_status_lands]; [RobotStatus.Throttle.trailing_write_stores_newest]; the two queues of
      [MessageQueue]; [UploadBuffer.buffered_upload_taken]; [Acks.complete_ack_sound], [bundle_completes] and
      [high_water_mark_monotone]; [Detectors.Signals.changes_replay_signal].
    - Missions and routes: the queue of a robot never stalls and a start that keeps failing fails its mission
      ([MissionControl.queue_never_stalls], [stalled_start_fails]), no first order leaves for a robot that was not
      ready, or was held, when its mission was taken up ([first_order_only_when_ready]), and a reroute is acted on
      once ([Reroute.reroute_acted_once]). The search of the planner returns the cheapest route, and among those the
      canonical one ([LatticePlan.lattice_search_exact]).
    - Maps: [MapSessions.sessions_consistent] (one open session per robot, one mapping session per map, the map's
      state says so), [start_rules] (when a session starts and which refusal it gets) and [start_placement_sound]; a
      placement belongs to the robot's current run, of robots whose runs were recorded
      ([RunPlacement.placed_in_current_run]); a deleted map's row goes last and every round ends
      ([MapDelete.row_removed_last], [round_ends], [MapSessions.delete_closing_succeeds]).
    - Robots: of the operations on sessions, saves and proxied calls only a discard, or a proxied call where the API
      knows of no recording, loses a recorded SLAM map ([SlamSave.recording_lost_only_by_discard]), the stored state
      is cleared only when the map is saved ([state_cleared_only_when_saved]), across restarts
      ([restart_keeps_state]), and a save ends ([save_ends]); a relocalization job ends in the state its course gives
      ([RelocJobs.job_outcome]), one per robot ([one_active_job]), and puts the robot back where a step refuses or it
      is cancelled ([job_restores_robot]); a cancelled deployment never switches the robot
      ([Deploy.cancelled_never_switched]), a finished one does not change ([final_row_kept]), a resumed one does not
      switch again before its step is stored as done ([switch_not_repeated]), and a job that is left alone brings its
      deployment to an end ([deployment_settles]).
    - Imports: names do not clash ([ImportPlan.plan_names_free]), an interrupted import ends as an uninterrupted one
      ([ImportApply.Maps.interrupted_import_resumes]), and undo restores what was there ([ImportApply.Undo.undo_restores]).
      The check before a move lists only what is there ([Transfers.Verify.verified_is_there]), and what an import has written
      ([imported_map_verifies]); where requests are orderly an apply has its import to itself
      ([Transfers.Jobs.applying_undisturbed]) and a busy job has its coroutine ([busy_job_driven]); under any steps a file in
      the spool belongs to a job or a coroutine, or is the bundle of an import that was lost ([spool_accounted]).
    - Orders and their ids: [Orders.route_order_chain], [OrderIds.order_ids_unique] and [reference_resolves];
      [Runs.new_revision_unused], across failed writes and restarts; [OrderGate.one_content_per_order_id] and
      [new_order_waits]; [Progress.route_progress_exact], which reads a report back to the waypoint its node
      was built from.
    - Exclusion and failover: [Idempotency.one_run_at_a_time], [replay_is_response] and
      [stored_answer_final]; two dispatchers lead at once for at most 25 s once the watch runs
      ([Lifecycle.Leader.leaders_overlap_bounded]);
      [Detectors.RobotEvents.failover_transparent]; [SceneMemory.Loads.crashed_map_not_reloaded].
    - Bounds: queues, buffers, caches and tables ([IngestQueue.queue_bounded],
      [UploadBuffer.upload_buffer_accounting], [Acks.ack_tables_bounded],
      [SessionClock.session_clock_bounded], [Reports.NodeReports.reports_distinct_bounded]), resends
      ([InstantActions.resends_bounded]) and order churn ([Runs.churn_bounded]).
    - Decisions are right: restarts ([RunChange]), passes ([Runs.passes_exact]), timeouts
      ([MissionQueue.Timeout]), cancels ([InstantActions.cancel_conservation], [stale_cancel_harmless]),
      orders the robot never adopts ([OrderGate.unadopted_order_fails]), state messages ([StateMessage]),
      errors ([Progress.own_errors_fail_mission]), blocks ([Reports.Blocked]), teleoperation
      ([Teleop.teleop_kept]), paths around blocked nodes ([BlockedNodes.Search.path_search_exact]),
      validation and reroutes ([Mission]), legs ([LegTracker]), recording levels ([RecordingPolicy]), order
      settings and listed actions ([OrderPolicy]), alarms and recoveries ([Detectors]).
    - Some theorems show behaviour the code does not intend: [Teleop.charging_ends_teleop],
      [Progress.stale_node_completes_next_route], [OrderGate.adopted_order_rebuilt],
      [Runs.adopted_prefix_survives_pass], [Reports.Blocked.second_reference_raises],
      [Lifecycle.Shutdown.shutdown_starves_lock_release], [Lifecycle.Leader.startup_unwatched],
      [IngestQueue.torn_append_loses_next], [RunPlacement.unrecorded_run_reused], [Idempotency.late_release_frees_key],
      [SceneMemory.Loads.marker_lost_by_other_load], [TelemetryWriter.drain_spins_on_unreadable_spill],
      [Mission.leaf_parent_accepted], [OrderPolicy.Factsheet.malformed_parameters_raise],
      [ImportPlan.newline_name_kept], [ImportApply.Maps.other_size_overwritten], [ImportApply.Undo.undo_of_partial_run],
      [ImportApply.Undo.repeat_undo_deletes_map], [MapDelete.late_delete_starts_no_round],
      [MapDelete.Registry.shared_bucket_not_skipped], [MapSessions.stale_placement_reused],
      [MapSessions.slam_map_set_by_start], [SlamSave.interrupted_finish_stuck],
      [RelocJobs.Example_job.unexpected_failure_not_rolled_back], [Deploy.Example_deploy.request_deletes_running],
      [Deploy.Example_deploy.nobody_drives], [Deploy.Example_deploy.rollback_sent_twice],
      [Transfers.Verify.sidecar_never_written], [Transfers.Verify.changed_node_verified],
      [Transfers.Jobs.Example_transfer.undo_beside_apply], [deleted_fetch_leaks], [failed_plan_leaks] and [restart_leaks].

    ** What is not modelled

    - In server.py: route frames, replanning, notify and charging hooks, the fleet recorder and the robot fields of a state
      message: mostly copies of fields into rows and requests to other services, or geometry.
    - Of the API: reads, the handlers of objects other than missions, maps and sessions, and main.py: checks of a request
      and one statement each. The views and texts of the mapping switch, the jobs and the deployments are left out where
      no decision reads them.
    - Floating-point code: the geometric rule of order_start.py, poses and datums (the class [MapSessions.Geometry]), the
      overlays and the ellipse of the planner, the smoothing of its routes, and the fusion of costmaps into the scene
      graph. Their results are arguments or class operations where modelled code uses them.
    - The archive format of bundles and what an export packs, calls relayed between servers and the automatic sync,
      the storage services, scripts and tools.
    - Third-party code (asyncio, the database and its driver, the MQTT client, py_trees, pydantic, scipy, the orchestrator)
      appears only through what the code relies on: locks exclude, statements are atomic, unbounded queues do not
      block, only composites have children, Dijkstra's distances are right, the orchestrator does what its client
      documents. *)

From stdpp Require Export prelude strings gmap.
From Stdlib Require Export ZArith Lia.

(** The notations of the development live in a scope of their own. *)
Declare Scope fleet_scope.
Delimit Scope fleet_scope with fleet.

(** ** Results

    A Python call that may raise returns [result E A]: [Ok] is a normal return and [Raise] an
    exception, whose type [E] names the exceptions the caller can see. *)
Inductive result (E A : Type) : Type :=
| Ok (a : A)
| Raise (e : E).
Arguments Ok {E A} a.
Arguments Raise {E A} e.

Definition rbind {E A B : Type} (c : result E A) (k : A -> result E B) : result E B :=
  match c with
  | Ok a => k a
  | Raise e => Raise e
  end.

Notation "'let!' x := c 'in' k" := (rbind c (fun x => k))
  (at level 10, x pattern, c at level 100, k at level 200) : fleet_scope.

(** [for x in l: acc = body(acc, x)] with a body that may raise. *)
Fixpoint rfold {E A B : Type} (f : B -> A -> result E B) (acc : B) (l : list A) : result E B :=
  match l with
  | [] => Ok acc
  | x :: l' => rbind (f acc x) (fun acc' => rfold f acc' l')
  end.

(** ** Python idioms *)

(** [x or y] on an optional string: both [None] and [""] are falsy. *)
Definition or_str (o : option string) (d : string) : string :=
  match o with
  | Some s => if bool_decide (s = ""%string) then d else s
  | None => d
  end.

(** [not run_id] on an optional string. *)
Definition falsy_str (o : option string) : bool :=
  match o with
  | None => true
  | Some s => bool_decide (s = ""%string)
  end.

(** [next((x for x in l if p(x)), None)]. *)
Fixpoint find_first {A : Type} (p : A -> bool) (l : list A) : option A :=
  match l with
  | [] => None
  | x :: l' => if p x then Some x else find_first p l'
  end.

(** [while len(l) > cap: l.pop_front()]. *)
Fixpoint evict {A : Type} (cap : nat) (l : list A) : list A :=
  match l with
  | [] => []
  | _ :: t => if bool_decide (length l <= cap) then l else evict cap t
  end.

(** [del l[:-cap]]: the last [cap] elements. *)
Definition keep_last {A : Type} (cap : nat) (l : list A) : list A := drop (length l - cap) l.

Definition sum_list_Z (l : list Z) : Z := foldr Z.add 0%Z l.

(** Running a step function over a sequence of events, collecting what each returns. *)
Fixpoint run {S E O : Type} (step : S -> E -> S * O) (s : S) (es : list E) : S * list O :=
  match es with
  | [] => (s, [])
  | e :: es' =>
      let (s1, o) := step s e in
      let (s2, os) := run step s1 es' in (s2, o :: os)
  end.

(** States reachable from [s0] by a step function: the least set closed under events. *)
Inductive reachable {S E : Type} (step : S -> E -> S) (s0 : S) : S -> Prop :=
| reach_init : reachable step s0 s0
| reach_step s e : reachable step s0 s -> reachable step s0 (step s e).

(** ** Tactics *)

(** Case analysis on every [if]/[match]/[decide] the goal is stuck on. *)
Ltac split_all :=
  repeat (case_match || case_bool_decide || case_decide); simplify_eq/=.

(** Turn boolean tests of hypotheses into the propositions they decide. *)
Ltac bprop :=
  repeat match goal with
  | H : _ && _ = true |- _ => apply andb_true_iff in H as [? ?]
  | H : _ || _ = false |- _ => apply orb_false_iff in H as [? ?]
  | H : negb _ = true |- _ => apply negb_true_iff in H
  | H : negb _ = false |- _ => apply negb_false_iff in H
  | H : bool_decide _ = true |- _ => apply bool_decide_eq_true in H
  | H : bool_decide _ = false |- _ => apply bool_decide_eq_false in H
  | H : (_ <? _)%Z = true |- _ => apply Z.ltb_lt in H
  | H : (_ <? _)%Z = false |- _ => apply Z.ltb_ge in H
  | H : (_ <=? _)%Z = true |- _ => apply Z.leb_le in H
  | H : (_ <=? _)%Z = false |- _ => apply Z.leb_gt in H
  | H : (_ =? _)%Z = true |- _ => apply Z.eqb_eq in H
  | H : (_ =? _)%Z = false |- _ => apply Z.eqb_neq in H
  end.

Ltac crush := split_all; bprop; simplify_eq/=; auto; try lia; try naive_solver.

Create HintDb fleet discriminated.
#[export] Hint Constructors reachable : fleet.

(** ** Generic lemmas *)

Lemma rbind_ok {E A B : Type} (c : result E A) (k : A -> result E B) b :
  rbind c k = Ok b <-> exists a, c = Ok a /\ k a = Ok b.
Proof. destruct c; simpl; split; [eauto|by intros (? & [= ->] & ?)|done|by intros (? & ? & ?)]. Qed.

Lemma rfold_app {E A B : Type} (f : B -> A -> result E B) acc l1 l2 :
  rfold f acc (l1 ++ l2) = rbind (rfold f acc l1) (fun acc' => rfold f acc' l2).
Proof.
  revert acc; induction l1 as [|x l1 IH]; intros acc; simpl; [done|].
  destruct (f acc x); simpl; auto.
Qed.

(** An invariant of [f] is an invariant of the loop. *)
Lemma rfold_inv {E A B : Type} (P : B -> Prop) (f : B -> A -> result E B) acc l b :
  P acc -> (forall b x b', x ∈ l -> P b -> f b x = Ok b' -> P b') -> rfold f acc l = Ok b -> P b.
Proof.
  revert acc; induction l as [|x l IH]; intros acc HP Hf; simpl.
  - by intros [= <-].
  - intros (b1 & H1 & H2)%rbind_ok. eapply IH; [| |done].
    + eapply Hf; eauto. by left.
    + intros ????; eapply Hf. by right.
Qed.

Lemma find_first_Some {A : Type} (p : A -> bool) l x :
  find_first p l = Some x -> x ∈ l /\ p x = true.
Proof.
  induction l as [|y l IH]; simpl; [done|].
  destruct (p y) eqn:E; [intros [= ->]; split; [left|done]|].
  intros [? ?]%IH; split; [by right|done].
Qed.

Lemma find_first_None {A : Type} (p : A -> bool) l :
  find_first p l = None <-> Forall (fun x => p x = false) l.
Proof.
  induction l as [|y l IH]; simpl; [split; [constructor|done]|].
  rewrite Forall_cons. destruct (p y) eqn:E; [split; [done|by intros [??]]|].
  rewrite IH. tauto.
Qed.

Lemma evict_drop {A : Type} cap (l : list A) : evict cap l = drop (length l - cap) l.
Proof.
  induction l as [|x t IH]; simpl; [done|]. case_bool_decide as H; simpl in *.
  - by replace (S (length t) - cap) with 0 by lia.
  - rewrite IH. by replace (S (length t) - cap) with (S (length t - cap)) by lia.
Qed.

Lemma evict_length {A : Type} cap (l : list A) : length (evict cap l) <= cap.
Proof. rewrite evict_drop, length_drop. lia. Qed.

Lemma evict_id {A : Type} cap (l : list A) : length l <= cap -> evict cap l = l.
Proof. intros. rewrite evict_drop. by replace (length l - cap) with 0 by lia. Qed.

Lemma evict_suffix {A : Type} cap (l : list A) : evict cap l `suffix_of` l.
Proof. rewrite evict_drop. exists (take (length l - cap) l). by rewrite take_drop. Qed.

Lemma keep_last_length {A : Type} cap (l : list A) : length (keep_last cap l) <= cap.
Proof. unfold keep_last. rewrite length_drop. lia. Qed.

Lemma keep_last_suffix {A : Type} cap (l : list A) : keep_last cap l `suffix_of` l.
Proof. unfold keep_last. exists (take (length l - cap) l). by rewrite take_drop. Qed.

Lemma sum_list_Z_app l1 l2 : sum_list_Z (l1 ++ l2) = (sum_list_Z l1 + sum_list_Z l2)%Z.
Proof. induction l1; simpl in *; lia. Qed.

Lemma sum_list_Z_nonneg l : Forall (fun z => (0 <= z)%Z) l -> (0 <= sum_list_Z l)%Z.
Proof. induction 1; simpl; lia. Qed.

Lemma run_app {S E O : Type} (step : S -> E -> S * O) s es1 es2 :
  run step s (es1 ++ es2) =
  let (s1, o1) := run step s es1 in let (s2, o2) := run step s1 es2 in (s2, o1 ++ o2).
Proof.
  revert s; induction es1 as [|e es1 IH]; intros s; simpl.
  - by destruct (run step s es2).
  - destruct (step s e) as [s1 o]. rewrite IH.
    destruct (run step s1 es1) as [s2 o2]. by destruct (run step s2 es2).
Qed.

Lemma run_length {S E O : Type} (step : S -> E -> S * O) s es : length (run step s es).2 = length es.
Proof.
  revert s. induction es as [|e es IH]; intros s; [done|]. cbn [run]. destruct (step s e) as [s1 o].
  specialize (IH s1). destruct (run step s1 es). cbn in *. by rewrite IH.
Qed.

(** An invariant of the state and the history holds along a run, and every output satisfies what it
    gives of the history up to and including its event. *)
Lemma run_history {S E O : Type} (step : S -> E -> S * O) (I : list E -> S -> Prop)
    (R : list E -> O -> Prop) :
  (forall h s e, I h s -> I (h ++ [e]) (step s e).1 /\ R (h ++ [e]) (step s e).2) ->
  forall es h s, I h s ->
    I (h ++ es) (run step s es).1
    /\ forall i o, (run step s es).2 !! i = Some o -> R (h ++ take (1 + i) es) o.
Proof.
  intros Hstep. induction es as [|e es IH]; intros h s Hi; simpl.
  - rewrite app_nil_r. split; [done|]. intros i o. by rewrite lookup_nil.
  - destruct (Hstep h s e Hi) as [H1 H2]. destruct (step s e) as [s1 o1]. simpl in *.
    destruct (IH (h ++ [e]) s1 H1) as [H3 H4]. destruct (run step s1 es) as [s2 os]. simpl in *.
    rewrite <-app_assoc in H3. split; [done|]. intros [|i] o Ho; simpl in Ho.
    + simplify_eq. by rewrite take_0.
    + specialize (H4 i o Ho). by rewrite <-app_assoc in H4.
Qed.

(** An invariant of the step function holds in every reachable state. *)
Lemma reachable_inv {S E : Type} (step : S -> E -> S) (P : S -> Prop) s0 s :
  P s0 -> (forall s e, P s -> P (step s e)) -> reachable step s0 s -> P s.
Proof. induction 3; auto. Qed.

Lemma reachable_foldl {S E : Type} (step : S -> E -> S) s0 es :
  reachable step s0 (foldl step s0 es).
Proof.
  cut (forall s, reachable step s0 s -> reachable step s0 (foldl step s es)).
  { intros H; apply H; constructor. }
  induction es as [|e es IH]; intros s Hs; simpl; [done|]. apply IH. by constructor.
Qed.

(** The last output of a run comes from a step out of a state of the invariant. *)
Lemma run_last_step {S E O : Type} (step : S -> E -> S * O) (I : S -> Prop) s es o :
  (forall s e, I s -> I (step s e).1) -> I s -> last (run step s es).2 = Some o ->
  exists s' e, I s' /\ step s' e = ((run step s es).1, o).
Proof.
  intros HI. revert s. induction es as [|e es IH]; intros s Hs Hl; [done|]. cbn [run] in *.
  specialize (HI s e Hs). destruct (step s e) as [s1 o1] eqn:E1. specialize (IH s1 HI).
  destruct es as [|e2 es]; [cbn in *; simplify_eq; eauto|].
  destruct (run step s1 (e2 :: es)) as [s2 os] eqn:E2. cbn [fst snd] in *. rewrite last_cons in Hl.
  destruct (last os) eqn:E3; simplify_eq; [by apply IH|].
  apply last_None in E3. subst os. cbn in E2. destruct (step s1 e2), (run step _ es). done.
Qed.
