(* ===== verification/PyDict.v ===== *)
(** * Python dictionaries

    A [dict] or [OrderedDict] is an association list in insertion order. [d[k] = v] keeps the
    position of a key that is already there and appends a new one, [move_to_end] and
    [popitem(last=False)] are the LRU operations the services use. The invariant [dict_wf] (keys
    are distinct) is preserved by every operation; the lookup equations need no invariant except
    where stated. *)

From S2P Require Import Prelude.

Section dict.
Context {K V : Type} `{!EqDecision K}.
Implicit Types (d : list (K * V)) (k : K) (v : V).

(** [d.get(k)] *)
Fixpoint dget d k : option V :=
  match d with
  | [] => None
  | (k', v) :: t => if bool_decide (k' = k) then Some v else dget t k
  end.

(** [k in d] *)
Definition dmem d k : bool := match dget d k with Some _ => true | None => false end.

(** [d[k] = v] *)
Fixpoint dset d k v : list (K * V) :=
  match d with
  | [] => [(k, v)]
  | (k', v') :: t => if bool_decide (k' = k) then (k', v) :: t else (k', v') :: dset t k v
  end.

(** [d.pop(k, None)] and [del d[k]] *)
Fixpoint ddel d k : list (K * V) :=
  match d with
  | [] => []
  | (k', v') :: t => if bool_decide (k' = k) then ddel t k else (k', v') :: ddel t k
  end.

(** [d.move_to_end(k)] on a key that is present (nothing otherwise; the callers only move keys
    they have just written or found). *)
Definition dmove_to_end d k : list (K * V) :=
  match dget d k with
  | Some v => ddel d k ++ [(k, v)]
  | None => d
  end.

(** [d.setdefault(k, v)]: the dictionary after it. *)
Definition dsetdefault d k v : list (K * V) :=
  match dget d k with
  | Some _ => d
  | None => dset d k v
  end.

(** [{k: f(k, v) for k, v in d.items()}] *)
Definition dmapv (f : V -> V) d : list (K * V) := (fun p => (p.1, f p.2)) <$> d.

(** [d.update(e)] and [{**d, **e}] *)
Definition dupdate d (e : list (K * V)) : list (K * V) :=
  foldl (fun acc p => dset acc p.1 p.2) d e.

Definition keys d : list K := d.*1.
Definition values d : list V := d.*2.

(** [sum(f(v) for v in d.values())] *)
Definition dsum (f : V -> Z) d : Z := sum_list_Z ((fun p => f p.2) <$> d).

Definition dict_wf d : Prop := NoDup (keys d).

(** ** Lookup equations *)

Lemma dget_dset_eq d k v : dget (dset d k v) k = Some v.
Proof.
  induction d as [|[k' v'] t IH]; simpl; [by rewrite bool_decide_true|].
  case_bool_decide as E; simpl; [by rewrite bool_decide_true|by rewrite bool_decide_false].
Qed.

Lemma dget_dset_ne d k k' v : k <> k' -> dget (dset d k v) k' = dget d k'.
Proof.
  intros Hne. induction d as [|[j w] t IH]; simpl; [by rewrite bool_decide_false|].
  case_bool_decide as E; simpl; subst; [by rewrite bool_decide_false|by rewrite IH].
Qed.

Lemma dget_dset d k k' v :
  dget (dset d k v) k' = if bool_decide (k = k') then Some v else dget d k'.
Proof. case_bool_decide as E; [subst; apply dget_dset_eq|by apply dget_dset_ne]. Qed.

Lemma dget_ddel_eq d k : dget (ddel d k) k = None.
Proof.
  induction d as [|[j w] t IH]; simpl; [done|].
  case_bool_decide as E; simpl; [done|by rewrite bool_decide_false].
Qed.

Lemma dget_ddel_ne d k k' : k <> k' -> dget (ddel d k) k' = dget d k'.
Proof.
  intros Hne. induction d as [|[j w] t IH]; simpl; [done|].
  case_bool_decide as E; simpl; subst; [by rewrite bool_decide_false|by rewrite IH].
Qed.

Lemma dget_ddel d k k' :
  dget (ddel d k) k' = if bool_decide (k = k') then None else dget d k'.
Proof. case_bool_decide as E; [subst; apply dget_ddel_eq|by apply dget_ddel_ne]. Qed.

Lemma dget_app d d' k :
  dget (d ++ d') k = match dget d k with Some v => Some v | None => dget d' k end.
Proof. induction d as [|[j w] t IH]; simpl; [done|]. by case_bool_decide. Qed.

Lemma dget_move_to_end d k k' : dget (dmove_to_end d k) k' = dget d k'.
Proof.
  unfold dmove_to_end. destruct (dget d k) as [v|] eqn:E; [|done].
  rewrite dget_app, dget_ddel; simpl. repeat case_bool_decide; simplify_eq; try done.
  by destruct (dget d k').
Qed.

Lemma dget_setdefault d k k' v :
  dget (dsetdefault d k v) k' =
  if bool_decide (k = k') then Some (default v (dget d k)) else dget d k'.
Proof.
  unfold dsetdefault. destruct (dget d k) as [w|] eqn:E; simpl.
  - case_bool_decide; [by subst|done].
  - by rewrite dget_dset.
Qed.

Lemma dget_mapv f d k : dget (dmapv f d) k = f <$> dget d k.
Proof. induction d as [|[j w] t IH]; simpl; [done|]. by case_bool_decide. Qed.

Lemma dget_update d e k :
  NoDup (keys e) ->
  dget (dupdate d e) k = match dget e k with Some v => Some v | None => dget d k end.
Proof.
  unfold dupdate. revert d. induction e as [|[j w] e IH]; intros d; simpl; [done|].
  intros [Hj He]%NoDup_cons. rewrite IH by done. rewrite dget_dset.
  case_bool_decide; subst; [|done]. destruct (dget e k) eqn:E; [|done].
  exfalso. apply Hj. clear -E. induction e as [|[i u] e IH]; simpl in *; [done|].
  case_bool_decide; subst; [left|right; auto].
Qed.

Lemma dget_Some_elem d k v : dget d k = Some v -> (k, v) ∈ d.
Proof.
  induction d as [|[j w] t IH]; simpl; [done|].
  case_bool_decide; [intros [= ->]; subst; left|intros; right; auto].
Qed.

Lemma dget_Some_key d k v : dget d k = Some v -> k ∈ keys d.
Proof. intros H%dget_Some_elem. apply list_elem_of_fmap. by exists (k, v). Qed.

Lemma dget_None d k : dget d k = None <-> k ∉ keys d.
Proof.
  induction d as [|[j w] t IH]; simpl; [by split; [intros _ ?%elem_of_nil|]|].
  rewrite not_elem_of_cons. case_bool_decide; naive_solver.
Qed.

Lemma dget_elem d k v : dict_wf d -> (k, v) ∈ d -> dget d k = Some v.
Proof.
  unfold dict_wf. induction d as [|[j w] t IH]; simpl; [by intros _ ?%elem_of_nil|].
  intros [Hj Ht]%NoDup_cons [[= -> ->]|Hin]%elem_of_cons; [by rewrite bool_decide_true|].
  rewrite bool_decide_false; [auto|]. intros ->. apply Hj.
  apply list_elem_of_fmap. by exists (k, v).
Qed.

(** ** Keys and the invariant *)

Lemma keys_dset d k v :
  keys (dset d k v) = if bool_decide (k ∈ keys d) then keys d else keys d ++ [k].
Proof.
  unfold keys in *. induction d as [|[j w] t IH]; csimpl; [done|].
  destruct (decide (j = k)) as [->|Hjk].
  - by rewrite !bool_decide_true by first [done|left].
  - rewrite (bool_decide_false (j = k)) by done. csimpl. rewrite IH.
    rewrite (bool_decide_ext (k ∈ j :: t.*1) (k ∈ t.*1)); [by case_bool_decide|].
    rewrite elem_of_cons. naive_solver.
Qed.

Lemma keys_ddel d k : keys (ddel d k) = filter (fun j => j <> k) (keys d).
Proof.
  induction d as [|[j w] t IH]; simpl; [done|].
  case_bool_decide as E; rewrite filter_cons; simpl.
  - by rewrite decide_False by naive_solver.
  - rewrite decide_True by done. by rewrite IH.
Qed.

Lemma keys_app d d' : keys (d ++ d') = keys d ++ keys d'.
Proof. apply fmap_app. Qed.

Lemma keys_mapv f d : keys (dmapv f d) = keys d.
Proof. unfold keys, dmapv. rewrite <- list_fmap_compose. by apply list_fmap_ext. Qed.

Lemma dict_wf_nil : dict_wf [].
Proof. constructor. Qed.

Lemma dict_wf_dset d k v : dict_wf d -> dict_wf (dset d k v).
Proof.
  unfold dict_wf. rewrite keys_dset. case_bool_decide; [done|].
  intros. apply NoDup_app; repeat split; [done| |apply NoDup_singleton].
  by intros ?? ->%list_elem_of_singleton.
Qed.

Lemma dict_wf_dupdate d e : dict_wf d -> dict_wf (dupdate d e).
Proof. unfold dupdate. revert d. induction e as [|p e IH]; simpl; auto using dict_wf_dset. Qed.

Lemma dict_wf_ddel d k : dict_wf d -> dict_wf (ddel d k).
Proof. unfold dict_wf. rewrite keys_ddel. apply NoDup_filter. Qed.

Lemma dict_wf_move_to_end d k : dict_wf d -> dict_wf (dmove_to_end d k).
Proof.
  intros Hd. unfold dmove_to_end. destruct (dget d k) as [v|] eqn:E; [|done].
  unfold dict_wf. rewrite keys_app, keys_ddel. apply NoDup_app; repeat split.
  - by apply NoDup_filter.
  - intros x Hx ->%list_elem_of_singleton. apply list_elem_of_filter in Hx. naive_solver.
  - apply NoDup_singleton.
Qed.

Lemma dict_wf_mapv f d : dict_wf d -> dict_wf (dmapv f d).
Proof. unfold dict_wf. by rewrite keys_mapv. Qed.

Lemma dict_wf_suffix d d' : d' `suffix_of` d -> dict_wf d -> dict_wf d'.
Proof. intros [u ->]. unfold dict_wf. rewrite keys_app. by intros (_ & _ & ?)%NoDup_app. Qed.

Lemma dict_wf_evict cap d : dict_wf d -> dict_wf (evict cap d).
Proof. apply dict_wf_suffix, evict_suffix. Qed.

Lemma dict_wf_filter (P : K * V -> Prop) `{!forall x, Decision (P x)} d :
  dict_wf d -> dict_wf (filter P d).
Proof.
  unfold dict_wf, keys. intros Hd. eapply sublist_NoDup; [exact Hd|].
  apply fmap_sublist, sublist_filter.
Qed.

(** ** Sums over the values *)

Lemma dsum_cons f p d : dsum f (p :: d) = (f p.2 + dsum f d)%Z.
Proof. done. Qed.

Lemma dsum_app f d d' : dsum f (d ++ d') = (dsum f d + dsum f d')%Z.
Proof. unfold dsum. by rewrite fmap_app, sum_list_Z_app. Qed.

Lemma dsum_nonneg f d : (forall v, 0 <= f v)%Z -> (0 <= dsum f d)%Z.
Proof. intros Hf. apply sum_list_Z_nonneg, Forall_fmap, Forall_true. intros; apply Hf. Qed.

(** The value of a key in a sum; a missing key counts 0. *)
Definition dval (f : V -> Z) d k : Z := match dget d k with Some v => f v | None => 0%Z end.

Lemma dsum_dset f d k v : dsum f (dset d k v) = (dsum f d - dval f d k + f v)%Z.
Proof.
  unfold dval. induction d as [|[j w] t IH]; simpl; [rewrite !dsum_cons; simpl; lia|].
  case_bool_decide; rewrite !dsum_cons; simpl; lia.
Qed.

Lemma ddel_not_elem d k : k ∉ keys d -> ddel d k = d.
Proof.
  induction d as [|[j w] t IH]; csimpl; [done|]. intros [Hj Ht]%not_elem_of_cons.
  rewrite bool_decide_false by done. by rewrite IH.
Qed.

Lemma dsum_ddel f d k : dict_wf d -> dsum f (ddel d k) = (dsum f d - dval f d k)%Z.
Proof.
  unfold dict_wf, dval. induction d as [|[j w] t IH]; csimpl; [intros; lia|].
  intros [Hj Ht]%NoDup_cons. case_bool_decide; subst; rewrite !dsum_cons; simpl.
  - rewrite ddel_not_elem by done. lia.
  - rewrite IH by done. lia.
Qed.

Lemma dset_not_nil d k v : dset d k v <> [].
Proof. destruct d as [|[j w] t]; simpl; [done|]. by case_bool_decide. Qed.

Lemma Forall_dset (P : K * V -> Prop) d k v :
  Forall P d -> P (k, v) -> Forall P (dset d k v).
Proof.
  intros Hd Hv. induction Hd as [|[j w] t Hj Ht IH]; simpl; [by constructor|].
  case_bool_decide; subst; by constructor.
Qed.

Lemma Forall_ddel (P : K * V -> Prop) d k : Forall P d -> Forall P (ddel d k).
Proof. induction 1 as [|[j w] t Hj Ht IH]; simpl; [done|]. case_bool_decide; auto. Qed.

Lemma Forall_dget (P : K * V -> Prop) d k v : Forall P d -> dget d k = Some v -> P (k, v).
Proof. rewrite Forall_forall. intros H E. apply H. by apply dget_Some_elem. Qed.

Lemma dset_new d k v : k ∉ keys d -> dset d k v = d ++ [(k, v)].
Proof.
  induction d as [|[j w] t IH]; csimpl; [done|]. intros [Hj Ht]%not_elem_of_cons.
  rewrite bool_decide_false by done. by rewrite IH.
Qed.

Lemma ddel_perm d k v : dict_wf d -> dget d k = Some v -> d ≡ₚ (k, v) :: ddel d k.
Proof.
  unfold dict_wf. induction d as [|[j w] t IH]; csimpl; [done|].
  intros [Hj Ht]%NoDup_cons. case_bool_decide; subst.
  - intros [= ->]. by rewrite ddel_not_elem.
  - intros Hk. rewrite (IH Ht Hk) at 1. apply Permutation_swap.
Qed.
End dict.

#[export] Hint Resolve dict_wf_nil dict_wf_dupdate dict_wf_dset dict_wf_ddel dict_wf_move_to_end dict_wf_mapv
  dict_wf_evict dict_wf_filter : fleet.
