(* ===== verification/OrderIds.v ===== *)
(** * VDA5050 ids (packages/controllers/mission/order_ids.py)

    The grammar of the order, node and action ids the dispatcher generates and reads back. The
    module's three regular expressions are matchers on strings; [search] is [re.search] (leftmost
    match) and [match_ref] is [re.match] with the lazy [.*?]. A character is an 8-bit code point,
    on which Python's [\d] is exactly [0-9], and [$] also matches before a final newline.

    What is shown: every id the dispatcher builds is read back exactly (order, node index, sequence,
    prefix), for any mission name whatever it contains; two orders of different runs, revisions,
    missions or tree nodes never share an id; and a reference to an order of a run (a node id, an
    action id, a nodePolicy action id) names that order. *)

From Stdlib Require Import Ascii DecimalString DecimalN.
From S2P Require Import Prelude.

Open Scope string_scope.

(** ** Matching primitives *)

Definition is_digit (c : ascii) : bool :=
  (bool_decide (48 <= N_of_ascii c) && bool_decide (N_of_ascii c <= 57))%N.

(** The longest run of digits at the start, and the rest: a greedy [\d*]. *)
Fixpoint span_digits (s : string) : string * string :=
  match s with
  | "" => ("", "")
  | String c t =>
      if is_digit c then let (d, r) := span_digits t in (String c d, r) else ("", s)
  end.

(** [\d+] *)
Definition some_digits (s : string) : option (string * string) :=
  let (d, r) := span_digits s in if bool_decide (d = "") then None else Some (d, r).

(** [$]: the end, or just before a final newline. *)
Definition at_end (s : string) : bool := bool_decide (s = "" \/ s = String "010" "").

(** [s[len(p):]] when [s.startswith(p)]. *)
Fixpoint strip (p s : string) : option string :=
  match p, s with
  | "", _ => Some s
  | String a p', String b s' => if bool_decide (a = b) then strip p' s' else None
  | String _ _, "" => None
  end.

(** [-x(\d+)]: a dash, the letter [x] and a number; the number and the rest. *)
Definition dash (x : ascii) (s : string) : option (string * string) :=
  strip (String "-" (String x "")) s ≫= some_digits.

(** [s[:-len(suf)]] when [s.endswith(suf)]. *)
Fixpoint strip_suffix (suf s : string) : option string :=
  if bool_decide (s = suf) then Some ""
  else match s with
       | "" => None
       | String c t => String c <$> strip_suffix suf t
       end.

(** [re.search]: the text before the leftmost match, and the groups of that match. *)
Fixpoint search {A : Type} (m : string -> option A) (s : string) : option (string * A) :=
  match m s with
  | Some a => Some ("", a)
  | None =>
      match s with
      | "" => None
      | String c t => match search m t with Some (p, a) => Some (String c p, a) | None => None end
      end
  end.

(** [str(n)] and [int(digits)] of a non-negative integer. *)
Definition str_N (n : N) : string := NilEmpty.string_of_uint (N.to_uint n).
Definition int_of_digits (d : string) : N :=
  match NilEmpty.uint_of_string d with Some u => N.of_uint u | None => 0%N end.

(** ** The three expressions *)

(** [_ORDER_SUFFIX = -n(\d+)$] *)
Definition order_suffix_at (s : string) : option string :=
  '(d, r) ← dash "n" s; if at_end r then Some d else None.

(** [_NODE_SUFFIX = -n(\d+)(?:-s(\d+))?$] *)
Definition node_suffix_at (s : string) : option (string * option string) :=
  '(d, r) ← dash "n" s;
  match dash "s" r with
  | Some (e, r') =>
      if at_end r' then Some (d, Some e) else if at_end r then Some (d, None) else None
  | None => if at_end r then Some (d, None) else None
  end.

Definition POLICY_SUFFIX : string := "-policy".

(** The part of [_REFERENCE = ^(.*?-n\d+)(?:-s\d+(?:-n\d+)?)?$] after the lazy [.*?]; the result
    is the [\d+] of the first group. *)
Definition ref_tail_at (s : string) : option string :=
  '(d, r) ← dash "n" s;
  if at_end r then Some d
  else
    '(_, r2) ← dash "s" r;
    if at_end r2 then Some d
    else '(_, r3) ← dash "n" r2; if at_end r3 then Some d else None.

(** [_REFERENCE.match]: group 1. [.] does not match a newline. *)
Fixpoint match_ref (s : string) : option string :=
  match ref_tail_at s with
  | Some d => Some ("-n" +:+ d)
  | None =>
      match s with
      | "" => None
      | String c t => if bool_decide (c = "010"%char) then None else String c <$> match_ref t
      end
  end.

(** ** The module's functions *)

Definition run_prefix (name : string) (run_id : option string) (order_rev : N) : string :=
  if falsy_str run_id then name
  else
    let prefix := name +:+ "-r" +:+ default "" run_id in
    if bool_decide (0 < order_rev)%N then prefix +:+ "v" +:+ str_N order_rev else prefix.

Definition order_id (prefix : string) (node_idx : N) : string := prefix +:+ "-n" +:+ str_N node_idx.

Definition node_id (prefix : string) (node_idx sequence : N) : string :=
  order_id prefix node_idx +:+ "-s" +:+ str_N sequence.

Definition node_action_id (node : string) (node_idx : N) : string :=
  node +:+ "-n" +:+ str_N node_idx.

Definition order_action_id (order : string) (node_idx : N) : string :=
  node_action_id (order +:+ "-s0") node_idx.

Definition order_of_node (node : string) : option string :=
  '(start, (d, _)) ← search node_suffix_at node; Some (start +:+ "-n" +:+ d).

Definition order_prefix (order : string) : option string := fst <$> search order_suffix_at order.

(** [None] is the [ValueError]. *)
Definition order_node_index (order : string) : option N :=
  (fun m => int_of_digits m.2) <$> search order_suffix_at order.

Definition is_order_of (prefix order : string) : bool :=
  bool_decide (order_prefix order = Some prefix).

Definition node_policy_action_id (node : string) : string := node +:+ POLICY_SUFFIX.

Definition node_of_reference (reference : string) : string :=
  default reference (strip_suffix POLICY_SUFFIX reference).

Definition node_index (node : string) : option N :=
  (fun m => int_of_digits m.2.1) <$> search node_suffix_at (node_of_reference node).

Definition node_sequence (node : string) : option N :=
  '(_, (_, e)) ← search node_suffix_at node; int_of_digits <$> e.

Definition is_node_of (prefix node : string) : bool :=
  match search node_suffix_at node with
  | Some (start, _) => bool_decide (start = prefix)
  | None => false
  end.

Definition order_of_reference (reference : string) : option string :=
  match_ref (node_of_reference reference).

(** [True]/[False] for an id of ours, [None] for anything else. *)
Definition is_reference_of (prefix reference : string) : option bool :=
  order ← order_of_reference reference; Some (bool_decide (order_prefix order = Some prefix)).

(** The run ids the dispatcher assigns: [uuid.uuid4().hex[:8]]. *)
Definition is_hex (c : ascii) : bool :=
  is_digit c || (bool_decide (97 <= N_of_ascii c) && bool_decide (N_of_ascii c <= 102))%N.

Fixpoint str_all (p : ascii -> bool) (s : string) : bool :=
  match s with "" => true | String c t => p c && str_all p t end.

Definition run_id_ok (r : string) : bool := negb (bool_decide (r = "")) && str_all is_hex r.
Definition no_char (c : ascii) (s : string) : bool := str_all (fun x => negb (bool_decide (x = c))) s.

(** ** Lemmas on the matchers *)

#[local] Arguments String.append : simpl nomatch.
#[local] Arguments dash : simpl never.

Lemma str_app_assoc (a b c : string) : (a +:+ b) +:+ c = a +:+ (b +:+ c).
Proof. induction a; simpl; congruence. Qed.

Lemma str_app_nil_r (a : string) : a +:+ "" = a.
Proof. induction a; simpl; congruence. Qed.

Lemma str_app_inv_l (p a b : string) : p +:+ a = p +:+ b -> a = b.
Proof. induction p; simpl; [done|]. intros [= ?]; auto. Qed.

Lemma str_length_app (a b : string) :
  String.length (a +:+ b) = String.length a + String.length b.
Proof. induction a; simpl; congruence. Qed.

Lemma str_all_app p a b : str_all p (a +:+ b) = str_all p a && str_all p b.
Proof. induction a as [|c a IH]; simpl; [done|]. by rewrite IH, andb_assoc. Qed.

Lemma str_all_impl (p q : ascii -> bool) s :
  (forall c, p c = true -> q c = true) -> str_all p s = true -> str_all q s = true.
Proof.
  intros Hpq. induction s as [|c s IH]; simpl; [done|].
  intros [? ?]%andb_true_iff. apply andb_true_iff; auto.
Qed.

Lemma strip_app p s : strip p (p +:+ s) = Some s.
Proof. induction p as [|c p IH]; simpl; [done|]. by rewrite bool_decide_true. Qed.

Lemma strip_Some p s r : strip p s = Some r -> s = p +:+ r.
Proof.
  revert s; induction p as [|a p IH]; intros [|b s]; simpl; try (by intros [= ->]); try done.
  case_bool_decide; [|done]. intros ?%IH. congruence.
Qed.

Lemma strip_suffix_app suf s : strip_suffix suf (s +:+ suf) = Some s.
Proof.
  induction s as [|c s IH].
  - change ("" +:+ suf) with suf. destruct suf; unfold strip_suffix; by case_bool_decide.
  - simpl. rewrite bool_decide_false, IH; [done|].
    intros E%(f_equal String.length). simpl in E. rewrite str_length_app in E. lia.
Qed.

Lemma span_digits_app d r :
  str_all is_digit d = true -> (forall c t, r = String c t -> is_digit c = false) ->
  span_digits (d +:+ r) = (d, r).
Proof.
  intros Hd Hr. induction d as [|c d IH]; simpl in *.
  - destruct r as [|c t]; simpl; [done|]. by rewrite (Hr c t).
  - apply andb_true_iff in Hd as [-> Hd]. by rewrite IH.
Qed.

Lemma some_digits_app d r :
  d <> "" -> str_all is_digit d = true -> (forall c t, r = String c t -> is_digit c = false) ->
  some_digits (d +:+ r) = Some (d, r).
Proof.
  intros ???. unfold some_digits. rewrite span_digits_app by done. by rewrite bool_decide_false.
Qed.

Lemma string_of_uint_digits u : str_all is_digit (NilEmpty.string_of_uint u) = true.
Proof. induction u; simpl; auto. Qed.

Lemma str_N_digits n : str_all is_digit (str_N n) = true.
Proof. apply string_of_uint_digits. Qed.

Lemma int_of_str_N n : int_of_digits (str_N n) = n.
Proof. unfold int_of_digits, str_N. by rewrite NilEmpty.usu, Unsigned.of_to. Qed.

Lemma str_N_inj n m : str_N n = str_N m -> n = m.
Proof. intros E. by rewrite <- (int_of_str_N n), E, int_of_str_N. Qed.

Lemma str_N_nonempty n : str_N n <> "".
Proof.
  intros E. assert (n = 0%N) as -> by (by rewrite <- (int_of_str_N n), E). discriminate.
Qed.

Lemma some_digits_str n r :
  (forall c t, r = String c t -> is_digit c = false) ->
  some_digits (str_N n +:+ r) = Some (str_N n, r).
Proof. apply some_digits_app; auto using str_N_nonempty, str_N_digits. Qed.

Lemma some_digits_str_end n : some_digits (str_N n) = Some (str_N n, "").
Proof. rewrite <- (str_app_nil_r (str_N n)) at 1. by apply some_digits_str. Qed.

Lemma dash_str x n r :
  (forall c t, r = String c t -> is_digit c = false) ->
  dash x (String "-" (String x "") +:+ str_N n +:+ r) = Some (str_N n, r).
Proof. intros. unfold dash. rewrite strip_app. by apply some_digits_str. Qed.

Lemma dash_str_end x n : dash x (String "-" (String x "") +:+ str_N n) = Some (str_N n, "").
Proof. unfold dash. rewrite strip_app. apply some_digits_str_end. Qed.

(** A dash followed by [c] is a barrier: whatever precedes it, a matcher that does not consume
    the dash leaves a rest that still contains it, and that rest is not the end. *)
Abbreviation barrier q c t := (q +:+ String "-" (String c t)).

Lemma at_end_barrier q c t : at_end (barrier q c t) = false.
Proof.
  apply bool_decide_false. intros [E|E]; apply (f_equal String.length) in E;
    rewrite str_length_app in E; simpl in E; lia.
Qed.

Lemma some_digits_barrier q c t d r :
  some_digits (barrier q c t) = Some (d, r) -> exists q', r = barrier q' c t.
Proof.
  unfold some_digits. destruct (span_digits _) as [d' r'] eqn:E. case_bool_decide; [done|].
  intros [= <- <-]. clear H. revert d' E. induction q as [|a q IH]; intros d'; simpl.
  - intros [= <- <-]. by exists "".
  - destruct (is_digit a); [|intros [= <- <-]; by exists (String a q)].
    destruct (span_digits _) as [d2 r2]. intros [= <- <-]. eauto.
Qed.

Lemma strip_barrier x q c t r :
  x <> "-"%char ->
  strip (String "-" (String x "")) (barrier q c t) = Some r ->
  (q = "" /\ c = x /\ r = t) \/ exists q', r = barrier q' c t.
Proof.
  intros Hx E%strip_Some. destruct q as [|a [|b q]]; simpl in E; simplify_eq/=; eauto.
Qed.

(** The step every matcher takes: a literal dash-letter, then digits. *)
Lemma dash_barrier x q c t d r :
  x <> "-"%char -> c <> x \/ q <> "" ->
  dash x (barrier q c t) = Some (d, r) ->
  exists q', r = barrier q' c t.
Proof.
  intros Hx Hne (s & [(-> & -> & ->)|(q' & ->)]%strip_barrier & H)%bind_Some; [naive_solver| |done].
  by apply some_digits_barrier in H.
Qed.

Lemma search_here {A : Type} (m : string -> option A) p t a :
  m t = Some a -> (forall c q p', p = p' +:+ String c q -> m (String c q +:+ t) = None) ->
  search m (p +:+ t) = Some (p, a).
Proof.
  intros Ht. induction p as [|c p IH]; intros Hp.
  - destruct t; simpl; by rewrite Ht.
  - change (search m (String c p +:+ t)) with
      (match m (String c p +:+ t) with
       | Some a => Some ("", a)
       | None => match search m (p +:+ t) with Some (p, a) => Some (String c p, a) | None => None end
       end).
    rewrite (Hp c p "") by done. rewrite IH; [done|].
    intros c' q p' ->. by apply (Hp c' q (String c p')).
Qed.

Lemma order_suffix_before a q t : order_suffix_at (String a q +:+ "-n" +:+ t) = None.
Proof.
  unfold order_suffix_at.
  destruct (dash "n" _) as [[d r]|] eqn:E; simpl; [|done].
  apply dash_barrier in E as [q' ->]; [|done|by right]. by rewrite at_end_barrier.
Qed.

Lemma node_suffix_before a q t : node_suffix_at (String a q +:+ "-n" +:+ t) = None.
Proof.
  unfold node_suffix_at.
  destruct (dash "n" _) as [[d r]|] eqn:E; simpl; [|done].
  apply dash_barrier in E as [q' ->]; [|done|by right].
  destruct (dash "s" _) as [[e r]|] eqn:E';
    rewrite !at_end_barrier; [|done].
  apply dash_barrier in E' as [q'' ->]; [|done|by left]. by rewrite at_end_barrier.
Qed.

Lemma search_order_id prefix idx :
  search order_suffix_at (order_id prefix idx) = Some (prefix, str_N idx).
Proof.
  unfold order_id. apply search_here; [|intros; apply order_suffix_before].
  unfold order_suffix_at. by rewrite dash_str_end.
Qed.

Lemma not_digit_dash x t c t' : String "-" (String x "") +:+ t = String c t' -> is_digit c = false.
Proof. by intros [= <- _]. Qed.

Lemma search_node_id prefix idx seq :
  search node_suffix_at (node_id prefix idx seq) = Some (prefix, (str_N idx, Some (str_N seq))).
Proof.
  unfold node_id, order_id. rewrite !str_app_assoc.
  apply search_here; [|intros; apply node_suffix_before].
  unfold node_suffix_at. rewrite dash_str by eauto using not_digit_dash. cbn [mbind option_bind].
  by rewrite (dash_str_end "s").
Qed.

Lemma search_node_order_id prefix idx :
  search node_suffix_at (order_id prefix idx) = Some (prefix, (str_N idx, None)).
Proof.
  unfold order_id. apply search_here; [|intros; apply node_suffix_before].
  unfold node_suffix_at. by rewrite dash_str_end.
Qed.

(** ** Run prefixes *)

Lemma no_char_app c a b : no_char c (a +:+ b) = no_char c a && no_char c b.
Proof. apply str_all_app. Qed.

Lemma no_char_cons c x s : no_char c (String x s) = negb (bool_decide (x = c)) && no_char c s.
Proof. done. Qed.

Lemma no_char_here c a b : no_char c (a +:+ String c b) = false.
Proof. rewrite no_char_app, no_char_cons, bool_decide_true by done. apply andb_false_r. Qed.

(** A string splits in one way at its last [c], and at its first [c]. *)
Lemma split_last c a1 b1 a2 b2 :
  no_char c b1 = true -> no_char c b2 = true ->
  a1 +:+ String c b1 = a2 +:+ String c b2 -> a1 = a2 /\ b1 = b2.
Proof.
  intros H1 H2. revert a2; induction a1 as [|x a1 IH]; intros [|y a2]; simpl; intros E;
    simplify_eq; auto.
  - by rewrite no_char_here in H1.
  - by rewrite no_char_here in H2.
  - by destruct (IH a2) as [-> ->].
Qed.

Lemma split_first c a1 b1 a2 b2 :
  no_char c a1 = true -> no_char c a2 = true ->
  a1 +:+ String c b1 = a2 +:+ String c b2 -> a1 = a2 /\ b1 = b2.
Proof.
  revert a2; induction a1 as [|x a1 IH]; intros [|y a2]; rewrite ?no_char_cons; simpl;
    intros H1 H2 E; simplify_eq; auto; bprop; try done.
  by destruct (IH a2) as [-> ->].
Qed.

Lemma hex_no_char c r : is_hex c = false -> run_id_ok r = true -> no_char c r = true.
Proof.
  unfold run_id_ok. intros Hc [_ Hr]%andb_true_iff. eapply str_all_impl; [|exact Hr].
  intros x Hx. apply negb_true_iff, bool_decide_false. by intros ->; rewrite Hc in Hx.
Qed.

Lemma digits_no_char c n : is_digit c = false -> no_char c (str_N n) = true.
Proof.
  intros Hc. eapply str_all_impl; [|apply str_N_digits].
  intros x Hx. apply negb_true_iff, bool_decide_false. by intros ->; rewrite Hc in Hx.
Qed.

Definition rev_tail (order_rev : N) : string :=
  if bool_decide (0 < order_rev)%N then String "v" (str_N order_rev) else "".

Lemma run_prefix_shape name r v :
  run_id_ok r = true -> run_prefix name (Some r) v = name +:+ "-r" +:+ r +:+ rev_tail v.
Proof.
  unfold run_id_ok, run_prefix, falsy_str, rev_tail. intros [Hr _]%andb_true_iff.
  apply negb_true_iff in Hr. rewrite Hr. change (default "" (Some r)) with r. clear Hr.
  case_bool_decide; by rewrite ?str_app_nil_r, ?str_app_assoc.
Qed.

Lemma rev_tail_no_char c v : is_digit c = false -> c <> "v"%char -> no_char c (rev_tail v) = true.
Proof.
  intros. unfold rev_tail. case_bool_decide; simpl; [|done].
  rewrite no_char_cons, bool_decide_false by done. by apply digits_no_char.
Qed.

Lemma rev_tail_inj r1 v1 r2 v2 :
  run_id_ok r1 = true -> run_id_ok r2 = true ->
  r1 +:+ rev_tail v1 = r2 +:+ rev_tail v2 -> r1 = r2 /\ v1 = v2.
Proof.
  intros H1 H2. pose proof (hex_no_char "v" r1 eq_refl H1) as N1.
  pose proof (hex_no_char "v" r2 eq_refl H2) as N2.
  unfold rev_tail. repeat case_bool_decide; rewrite ?str_app_nil_r; intros E.
  - apply split_first in E as [-> ?%str_N_inj]; auto.
  - by rewrite <- E, no_char_here in N2.
  - by rewrite E, no_char_here in N1.
  - split; [done|lia].
Qed.

Lemma run_prefix_inj n1 r1 v1 n2 r2 v2 :
  run_id_ok r1 = true -> run_id_ok r2 = true ->
  run_prefix n1 (Some r1) v1 = run_prefix n2 (Some r2) v2 -> n1 = n2 /\ r1 = r2 /\ v1 = v2.
Proof.
  intros H1 H2. rewrite !run_prefix_shape by done. intros E.
  apply split_last in E as [-> E].
  - simpl in E. injection E as E. apply rev_tail_inj in E; naive_solver.
  - simpl. by rewrite no_char_cons, no_char_app, hex_no_char, rev_tail_no_char.
  - simpl. by rewrite no_char_cons, no_char_app, hex_no_char, rev_tail_no_char.
Qed.

(** ** References *)

(** Nothing before a dash followed by a letter that is neither [n] nor [s] starts a reference. *)
Lemma ref_tail_barrier q c t :
  c <> "n"%char -> c <> "s"%char -> ref_tail_at (q +:+ String "-" (String c t)) = None.
Proof.
  intros Hn Hs. unfold ref_tail_at.
  destruct (dash "n" _) as [[d r]|] eqn:E1; [cbn [mbind option_bind]|done].
  apply dash_barrier in E1 as [q1 ->]; [|done|by left]. rewrite at_end_barrier.
  destruct (dash "s" _) as [[d2 r2]|] eqn:E2; [cbn [mbind option_bind]|done].
  apply dash_barrier in E2 as [q2 ->]; [|done|by left]. rewrite at_end_barrier.
  destruct (dash "n" _) as [[d3 r3]|] eqn:E3; [cbn [mbind option_bind]|done].
  apply dash_barrier in E3 as [q3 ->]; [|done|by left]. by rewrite at_end_barrier.
Qed.

Lemma ref_tail_no_dash c t : c <> "-"%char -> ref_tail_at (String c t) = None.
Proof. intros. unfold ref_tail_at, dash. simpl. by rewrite bool_decide_false. Qed.

Lemma match_ref_skip p t :
  no_char "010" p = true ->
  (forall c q p', p = p' +:+ String c q -> ref_tail_at (String c q +:+ t) = None) ->
  match_ref (p +:+ t) = (fun s => p +:+ s) <$> match_ref t.
Proof.
  induction p as [|c p IH]; intros Hnl Hp.
  - simpl. by destruct (match_ref t).
  - rewrite no_char_cons in Hnl. bprop.
    change (match_ref (String c p +:+ t)) with
      (match ref_tail_at (String c p +:+ t) with
       | Some d => Some ("-n" +:+ d)
       | None => if bool_decide (c = "010"%char) then None else String c <$> match_ref (p +:+ t)
       end).
    rewrite (Hp c p "") by done. rewrite bool_decide_false by done.
    rewrite IH; [by destruct (match_ref t)|done|].
    intros c' q p' ->. by apply (Hp c' q (String c p')).
Qed.

(** A run's prefix is skipped: group 1 starts after it. *)
Lemma match_ref_run name r v t :
  run_id_ok r = true -> no_char "010" name = true ->
  match_ref (run_prefix name (Some r) v +:+ t) =
  (fun s => run_prefix name (Some r) v +:+ s) <$> match_ref t.
Proof.
  intros Hr Hn. rewrite run_prefix_shape by done.
  assert (Hb : no_char "-" (r +:+ rev_tail v) = true).
  { by rewrite no_char_app, hex_no_char, rev_tail_no_char. }
  apply match_ref_skip.
  - by rewrite !no_char_app, Hn, (hex_no_char _ r), rev_tail_no_char.
  - intros c q p' E. destruct (decide (c = "-"%char)) as [->|]; [|by apply ref_tail_no_dash].
    cut (exists a, String "-" q = a +:+ "-r" +:+ r +:+ rev_tail v).
    { intros [a ->]. rewrite !str_app_assoc. by apply ref_tail_barrier. }
    clear -E Hb. revert p' E. induction name as [|x name IH]; intros [|y p'] E; simpl in E.
    + exists "". simpl. congruence.
    + injection E as E1 E2. exfalso. destruct p' as [|z p']; simpl in E2; [discriminate|].
      injection E2 as E2 E3. rewrite E3, no_char_here in Hb. discriminate.
    + exists (String x name). simpl. congruence.
    + injection E as <- E. eauto.
Qed.

Lemma match_ref_order idx : match_ref ("-n" +:+ str_N idx) = Some ("-n" +:+ str_N idx).
Proof.
  change (match_ref ("-n" +:+ str_N idx)) with
    (match ref_tail_at ("-n" +:+ str_N idx) with
     | Some d => Some ("-n" +:+ d)
     | None => String "-" <$> match_ref (String "n" (str_N idx))
     end).
  unfold ref_tail_at. by rewrite dash_str_end.
Qed.

Lemma strip_suffix_Some suf s p : strip_suffix suf s = Some p -> s = p +:+ suf.
Proof.
  revert p; induction s as [|c s IH]; intros p; simpl; case_bool_decide as E; try done.
  - by intros [= <-].
  - by intros [= <-].
  - intros (p' & H & ->)%fmap_Some. simpl. f_equal. auto.
Qed.

(** An id that ends in [-x{digits}] is not a nodePolicy reference. *)
Lemma node_of_reference_dash a x n :
  x <> "p"%char -> x <> "-"%char ->
  node_of_reference (a +:+ String "-" (String x (str_N n))) = a +:+ String "-" (String x (str_N n)).
Proof.
  intros Hx Hd. unfold node_of_reference. destruct (strip_suffix _ _) as [p|] eqn:E; [|done].
  exfalso. apply strip_suffix_Some, split_last in E as [_ E]; [naive_solver| |done].
  rewrite no_char_cons, bool_decide_false by done. simpl. by apply digits_no_char.
Qed.

Lemma node_of_reference_policy node : node_of_reference (node_policy_action_id node) = node.
Proof. unfold node_of_reference, node_policy_action_id. by rewrite strip_suffix_app. Qed.

Lemma node_of_reference_order prefix idx :
  node_of_reference (order_id prefix idx) = order_id prefix idx.
Proof. by apply node_of_reference_dash. Qed.

Lemma node_of_reference_node prefix idx seq :
  node_of_reference (node_id prefix idx seq) = node_id prefix idx seq.
Proof. by apply node_of_reference_dash. Qed.

Lemma node_of_reference_action prefix idx seq :
  node_of_reference (node_action_id (node_id prefix idx seq) idx) =
  node_action_id (node_id prefix idx seq) idx.
Proof. by apply node_of_reference_dash. Qed.

Lemma order_prefix_order_id prefix idx : order_prefix (order_id prefix idx) = Some prefix.
Proof. unfold order_prefix. by rewrite search_order_id. Qed.

Lemma order_node_index_order_id prefix idx : order_node_index (order_id prefix idx) = Some idx.
Proof. unfold order_node_index. rewrite search_order_id. simpl. by rewrite int_of_str_N. Qed.

Lemma is_node_of_node_id p prefix idx seq :
  is_node_of p (node_id prefix idx seq) = bool_decide (prefix = p).
Proof. unfold is_node_of. by rewrite search_node_id. Qed.

Lemma node_index_node_id prefix idx seq : node_index (node_id prefix idx seq) = Some idx.
Proof.
  unfold node_index. rewrite node_of_reference_node, search_node_id. simpl. by rewrite int_of_str_N.
Qed.

Lemma node_sequence_node_id prefix idx seq : node_sequence (node_id prefix idx seq) = Some seq.
Proof. unfold node_sequence. rewrite search_node_id. simpl. by rewrite int_of_str_N. Qed.

(** The tail of a reference after its run prefix. *)
Inductive ref_tail (idx : N) : string -> Prop :=
| tail_order : ref_tail idx ("-n" +:+ str_N idx)
| tail_node seq : ref_tail idx ("-n" +:+ str_N idx +:+ "-s" +:+ str_N seq)
| tail_action seq :
    ref_tail idx ("-n" +:+ str_N idx +:+ "-s" +:+ str_N seq +:+ "-n" +:+ str_N idx).

Lemma match_ref_tail idx t : ref_tail idx t -> match_ref t = Some ("-n" +:+ str_N idx).
Proof.
  intros Ht. cut (ref_tail_at t = Some (str_N idx)).
  { intros E. destruct t; cbn [match_ref]; by rewrite E. }
  unfold ref_tail_at. destruct Ht as [|seq|seq].
  - by rewrite dash_str_end.
  - rewrite dash_str by eauto using not_digit_dash. cbn [mbind option_bind].
    rewrite (dash_str_end "s"). cbn [mbind option_bind]. by case_match.
  - rewrite dash_str by eauto using not_digit_dash. cbn [mbind option_bind].
    rewrite (dash_str "s") by eauto using not_digit_dash. cbn [mbind option_bind].
    rewrite (dash_str_end "n"). cbn [mbind option_bind]. by repeat case_match.
Qed.

(** What a reference to an order of a run is: the order id, a node id, or the action id of a node,
    each possibly as a nodePolicy action id. *)
Inductive reference_to (prefix : string) (idx : N) : string -> Prop :=
| ref_order : reference_to prefix idx (order_id prefix idx)
| ref_node seq : reference_to prefix idx (node_id prefix idx seq)
| ref_node_action seq : reference_to prefix idx (node_action_id (node_id prefix idx seq) idx)
| ref_order_action : reference_to prefix idx (order_action_id (order_id prefix idx) idx)
| ref_policy seq : reference_to prefix idx (node_policy_action_id (node_id prefix idx seq)).

Lemma reference_to_tail prefix idx ref :
  reference_to prefix idx ref ->
  exists t, node_of_reference ref = prefix +:+ t /\ ref_tail idx t.
Proof.
  destruct 1 as [|seq|seq| |seq].
  - rewrite node_of_reference_order. eexists; split; [done|constructor].
  - rewrite node_of_reference_node. unfold node_id, order_id. rewrite !str_app_assoc.
    eexists; split; [done|constructor].
  - rewrite node_of_reference_action. unfold node_action_id, node_id, order_id.
    rewrite !str_app_assoc. eexists; split; [done|constructor].
  - change (order_action_id (order_id prefix idx) idx) with
      (node_action_id (node_id prefix idx 0) idx).
    rewrite node_of_reference_action. unfold node_action_id, node_id, order_id.
    rewrite !str_app_assoc. eexists; split; [done|apply (tail_action idx 0)].
  - rewrite node_of_reference_policy. unfold node_id, order_id. rewrite !str_app_assoc.
    eexists; split; [done|constructor].
Qed.

(** ** Properties *)

(** An order id is read back exactly: its prefix and mission-tree index are recovered for any
    prefix and index, and it is an order of that prefix only. *)
Theorem order_id_roundtrip (prefix : string) (idx : N) :
  order_prefix (order_id prefix idx) = Some prefix /\
  order_node_index (order_id prefix idx) = Some idx /\
  forall p, is_order_of p (order_id prefix idx) = bool_decide (prefix = p).
Proof.
  split_and!; [apply order_prefix_order_id|apply order_node_index_order_id|].
  intros p. unfold is_order_of. rewrite order_prefix_order_id. apply bool_decide_ext. naive_solver.
Qed.

(** A node id is read back exactly: the mission-tree index (also from the nodePolicy action
    id), the sequence and the order it belongs to are recovered, and the node belongs to exactly
    its own prefix, so a legacy prefix never claims the nodes of a run-qualified one. *)
Theorem node_id_roundtrip (prefix : string) (idx seq : N) :
  node_index (node_id prefix idx seq) = Some idx /\
  node_index (node_policy_action_id (node_id prefix idx seq)) = Some idx /\
  node_sequence (node_id prefix idx seq) = Some seq /\
  order_of_node (node_id prefix idx seq) = Some (order_id prefix idx) /\
  forall p, is_node_of p (node_id prefix idx seq) = bool_decide (prefix = p).
Proof.
  split_and!.
  - apply node_index_node_id.
  - unfold node_index. rewrite node_of_reference_policy, search_node_id. simpl.
    by rewrite int_of_str_N.
  - apply node_sequence_node_id.
  - unfold order_of_node. by rewrite search_node_id.
  - intros p. apply is_node_of_node_id.
Qed.

(** Order ids are never reused: two orders of dispatched runs (run ids as the dispatcher
    assigns them, any mission names) that carry the same id agree on the mission name, the run,
    the order revision and the mission-tree node. *)
Theorem order_ids_unique (n1 n2 r1 r2 : string) (v1 v2 i1 i2 : N) :
  run_id_ok r1 = true -> run_id_ok r2 = true ->
  order_id (run_prefix n1 (Some r1) v1) i1 = order_id (run_prefix n2 (Some r2) v2) i2 ->
  n1 = n2 /\ r1 = r2 /\ v1 = v2 /\ i1 = i2.
Proof.
  intros H1 H2 E.
  pose proof (f_equal order_node_index E) as Ei. rewrite !order_node_index_order_id in Ei.
  pose proof (f_equal order_prefix E) as Ep. rewrite !order_prefix_order_id in Ep.
  injection Ei as ->. injection Ep as Ep.
  apply run_prefix_inj in Ep as (-> & -> & ->); auto.
Qed.

Lemma order_ids_unique_witness :
  run_id_ok "12ab34cd" = true /\
  ("m-r1" = "m-r1" /\ "12ab34cd" = "12ab34cd" /\ 2%N = 2%N /\ 10%N = 10%N).
Proof.
  split; [reflexivity|]. apply (order_ids_unique "m-r1" "m-r1" "12ab34cd" "12ab34cd" 2 2 10 10);
    reflexivity.
Defined.

(** Every reference a robot error can carry for an order of a run (order id, node id, node or
    order action id, nodePolicy action id) resolves to that order, and is a reference of exactly
    that run prefix. *)
Theorem reference_resolves (name r : string) (v idx : N) (ref : string) :
  run_id_ok r = true -> no_char "010" name = true ->
  reference_to (run_prefix name (Some r) v) idx ref ->
  order_of_reference ref = Some (order_id (run_prefix name (Some r) v) idx) /\
  forall p, is_reference_of p ref = Some (bool_decide (run_prefix name (Some r) v = p)).
Proof.
  intros Hr Hn (t & Et & Ht)%reference_to_tail.
  assert (E : order_of_reference ref = Some (order_id (run_prefix name (Some r) v) idx)).
  { unfold order_of_reference. rewrite Et, match_ref_run by done.
    by rewrite (match_ref_tail idx t Ht). }
  split; [done|]. intros p. unfold is_reference_of. rewrite E. simpl.
  rewrite order_prefix_order_id. f_equal. apply bool_decide_ext. naive_solver.
Qed.

Lemma reference_resolves_witness :
  order_of_reference "pick-n3-s4-r12ab34cdv2-n1-s6-policy" = Some "pick-n3-s4-r12ab34cdv2-n1".
Proof.
  apply (reference_resolves "pick-n3-s4" "12ab34cd" 2 1 _ eq_refl eq_refl).
  apply (ref_policy (run_prefix "pick-n3-s4" (Some "12ab34cd") 2) 1 6).
Defined.
