(* ===== verification/RunChange.v ===== *)
(** * Robot restarts and frame changes (packages/controllers/mission/run_change.py)

    [RunChangeDetector] tells a new robot process from a network blip by the header ids of its
    [connection] and [state] messages; [FrameWatcher] debounces the frame witness check. Both are
    pure step functions. A header id is the value of [int(header_id)], [None] when that raises;
    clocks are integers in a fixed unit.

    What is shown: a single process never looks like a restart, also with interleaved topics and
    broker redeliveries; whatever was seen before, one process is reported at most once; a restart
    whose first two states are below the old counter is reported at the second one; and a frame
    change is only reported after enough matching verdicts over enough time. *)

From S2P Require Import Prelude.

Open Scope Z_scope.

(** ** RunChangeDetector *)

Definition ONLINE : string := "ONLINE".

Record RunChangeDetector := mkDetector {
  last_online_header : option Z;
  last_state_header : option Z;
  (** A state header below the last one, awaiting confirmation: (new id, the old last id). *)
  pending_state_drop : option (Z * Z);
}.

Definition new_detector : RunChangeDetector := mkDetector None None None.

Inductive run_evidence :=
| connection_online (connection_header_id last_connection_header_id : Z)
| state_header_reset (state_header_id last_state_header_id : Z).

Definition on_connection (d : RunChangeDetector) (state : string) (header_id : option Z)
    (retained : bool) : RunChangeDetector * option run_evidence :=
  if bool_decide (state <> ONLINE) then (d, None)
  else
    match header_id with
    | None => (d, None)
    | Some hid =>
        let last := last_online_header d in
        let d1 := mkDetector (Some hid) (last_state_header d) (pending_state_drop d) in
        match last with
        | None => (d1, None)
        | Some l =>
            if bool_decide (hid > l) || (retained && bool_decide (hid = l)) then (d1, None)
            else (mkDetector (Some hid) None None, Some (connection_online hid l))
        end
    end.

Definition on_state (d : RunChangeDetector) (header_id : option Z)
    : RunChangeDetector * option run_evidence :=
  match header_id with
  | None => (d, None)
  | Some hid =>
      match pending_state_drop d with
      | Some (first, old_last) =>
          if bool_decide (hid < old_last)
          then (mkDetector None (Some hid) None, Some (state_header_reset first old_last))
          else (mkDetector (last_online_header d) (Some (Z.max old_last hid)) None, None)
      | None =>
          match last_state_header d with
          | None => (mkDetector (last_online_header d) (Some hid) None, None)
          | Some last =>
              if bool_decide (hid >= last)
              then (mkDetector (last_online_header d) (Some hid) None, None)
              else (mkDetector (last_online_header d) (Some last) (Some (hid, last)), None)
          end
      end
  end.

(** The two topics as one stream of messages. *)
Inductive message :=
| Connection (state : string) (header_id : option Z) (retained : bool)
| State (header_id : option Z).

Definition on_message (d : RunChangeDetector) (m : message)
    : RunChangeDetector * option run_evidence :=
  match m with
  | Connection state header_id retained => on_connection d state header_id retained
  | State header_id => on_state d header_id
  end.

(** The messages one robot process can produce, given its last ONLINE and state header ids: state
    headers do not decrease, each ONLINE has a higher header id than the last (or is the same
    message again, from the broker's retained store); the last will and OFFLINE are free. *)
Fixpoint one_process (online state : option Z) (ms : list message) : Prop :=
  match ms with
  | [] => True
  | State None :: ms' => one_process online state ms'
  | State (Some h) :: ms' =>
      match state with Some l => l <= h | None => True end /\ one_process online (Some h) ms'
  | Connection st hid retained :: ms' =>
      if bool_decide (st <> ONLINE) then one_process online state ms'
      else
        match hid with
        | None => one_process online state ms'
        | Some h =>
            match online with
            | Some l => l < h \/ (retained = true /\ h = l)
            | None => True
            end /\ one_process (Some h) state ms'
        end
  end.

(** The detector's baselines come from this process (or are not known). *)
Definition consistent (online state : option Z) (d : RunChangeDetector) : Prop :=
  (last_online_header d = None \/ last_online_header d = online) /\
  (last_state_header d = None \/ last_state_header d = state) /\
  pending_state_drop d = None.

Definition evidence_count (os : list (option run_evidence)) : nat := length (omap id os).

(** ** FrameWatcher *)

Inductive verdict := unknown | match_ | mismatch.
#[export] Instance verdict_eq_dec : EqDecision verdict.
Proof. solve_decision. Defined.

Section frame.
Context {Sid Map : Type} `{!EqDecision Sid} `{!EqDecision Map}.

Record FrameWatcher := mkWatcher {
  confirm_s : Z;
  confirm_states : nat;
  key : option (Sid * Map * Map);
  first_seen : Z;            (** read only while [key] is set *)
  first_seen_at : option string;
  states : nat;
}.

Definition reset (w : FrameWatcher) : FrameWatcher :=
  mkWatcher (confirm_s w) (confirm_states w) None 0 None 0.

Record frame_evidence := mkFrameEvidence {
  expected_map_id : Map;
  observed_map_id : Map;
  evidence_first_seen_at : option string;
  evidence_states : nat;
}.

Definition on_verdict (w : FrameWatcher) (v : verdict) (session_id : Sid) (expected observed : Map)
    (now : Z) (wall : option string) : FrameWatcher * option frame_evidence :=
  match v with
  | unknown => (w, None)
  | match_ => (reset w, None)
  | mismatch =>
      let k := (session_id, expected, observed) in
      let w1 := if bool_decide (key w = Some k) then w
                else mkWatcher (confirm_s w) (confirm_states w) (Some k) now wall 0 in
      let w2 := mkWatcher (confirm_s w1) (confirm_states w1) (key w1) (first_seen w1)
                  (first_seen_at w1) (S (states w1)) in
      if bool_decide (states w2 < confirm_states w2)%nat
         || bool_decide (now - first_seen w2 < confirm_s w2)
      then (w2, None)
      else (reset w2, Some (mkFrameEvidence expected observed (first_seen_at w2) (states w2)))
  end.

(** One verdict fed to the watcher. *)
Record observation := mkObs {
  o_verdict : verdict; o_session : Sid; o_expected : Map; o_observed : Map;
  o_now : Z; o_wall : option string;
}.

Definition watch (w : FrameWatcher) (o : observation) : FrameWatcher * option frame_evidence :=
  on_verdict w (o_verdict o) (o_session o) (o_expected o) (o_observed o) (o_now o) (o_wall o).

Definition o_key (o : observation) : Sid * Map * Map := (o_session o, o_expected o, o_observed o).
Definition definitive (os : list observation) : list observation :=
  filter (fun o => o_verdict o <> unknown) os.
End frame.
Arguments FrameWatcher : clear implicits.
Arguments frame_evidence : clear implicits.
Arguments observation : clear implicits.

(** ** Lemmas *)

Lemma online_guard (retained : bool) h l :
  l < h \/ (retained = true /\ h = l) ->
  bool_decide (h > l) || (retained && bool_decide (h = l)) = true.
Proof.
  intros [?|[-> ->]]; [by rewrite bool_decide_true by lia|].
  by rewrite (bool_decide_true (l = l)), orb_true_r.
Qed.

(** A message of the process the baselines come from raises nothing. *)
Lemma on_message_consistent online state d m ms :
  consistent online state d -> one_process online state (m :: ms) ->
  exists online' state' d',
    on_message d m = (d', None) /\ consistent online' state' d' /\ one_process online' state' ms.
Proof.
  intros (Ho & Hs & Hp). destruct d as [lo ls pd]; simpl in *; subst pd.
  destruct m as [st hid retained|[h|]]; simpl.
  - unfold on_connection; simpl. case_bool_decide; [|destruct hid as [h|]].
    + intros. by exists online, state, (mkDetector lo ls None).
    + intros [Hb Hms]. exists (Some h), state, (mkDetector (Some h) ls None).
      split; [|by unfold consistent; simpl; auto]. destruct lo as [l|]; [|done].
      destruct Ho as [?|<-]; [done|]. by rewrite online_guard.
    + intros. by exists online, state, (mkDetector lo ls None).
  - unfold on_state; simpl. intros [Hb Hms].
    exists online, (Some h), (mkDetector lo (Some h) None).
    split; [|by unfold consistent; simpl; auto]. destruct ls as [l|]; [|done].
    destruct Hs as [?|<-]; [done|]. by rewrite bool_decide_true by lia.
  - intros. by exists online, state, (mkDetector lo ls None).
Qed.

Lemma run_consistent online state d ms :
  consistent online state d -> one_process online state ms ->
  Forall (fun o => o = None) (run on_message d ms).2.
Proof.
  revert online state d; induction ms as [|m ms IH]; intros online state d Hd Hms; simpl.
  - constructor.
  - destruct (on_message_consistent _ _ _ _ _ Hd Hms) as (o' & s' & d' & -> & Hd' & Hms').
    specialize (IH _ _ _ Hd' Hms'). destruct (run on_message d' ms); simpl in *. by constructor.
Qed.

Lemma evidence_count_none os : Forall (fun o => o = None) os -> evidence_count os = 0%nat.
Proof. induction 1 as [|o os -> _ IH]; done. Qed.

Lemma evidence_count_some e os : evidence_count (Some e :: os) = S (evidence_count os).
Proof. done. Qed.

(** After a report the baselines are those of the process that was reported. *)
Lemma on_message_evidence online state d m ms d' e :
  one_process online state (m :: ms) -> on_message d m = (d', Some e) ->
  exists online' state', consistent online' state' d' /\ one_process online' state' ms.
Proof.
  destruct d as [lo ls pd], m as [st hid retained|[h|]]; simpl; unfold on_connection, on_state; simpl.
  - case_bool_decide; [done|]. destruct hid as [h|]; [|done]. intros [_ Hms].
    destruct lo as [l|]; [|done]. case_match; [done|]. intros [= <- <-].
    exists (Some h), state. split; [|done]. unfold consistent; simpl; auto.
  - intros [_ Hms]. destruct pd as [[first old]|]; [|by repeat case_match].
    case_bool_decide; [|done]. intros [= <- <-].
    exists online, (Some h). split; [|done]. unfold consistent; simpl; auto.
  - done.
Qed.

Lemma one_process_tail online state m ms :
  one_process online state (m :: ms) -> exists online' state', one_process online' state' ms.
Proof.
  destruct m as [st [h|] retained|[h|]]; simpl; try case_bool_decide; intros; destruct_and?; eauto.
Qed.

(** ** Properties *)

(** No false restart. From baselines of the same process (or none), a process's interleaved
    connection and state messages never count as a new run, whatever last wills, OFFLINE messages,
    unreadable headers and retained redeliveries come in between. *)
Theorem same_process_no_run_change (online state : option Z) (d : RunChangeDetector)
    (ms : list message) :
  consistent online state d -> one_process online state ms ->
  Forall (fun o => o = None) (run on_message d ms).2.
Proof. apply run_consistent. Qed.

Lemma same_process_no_run_change_witness :
  Forall (fun o => o = None)
    (run on_message (mkDetector (Some 1) None None)
       [State (Some 7); Connection "CONNECTIONBROKEN" (Some 0) false; Connection ONLINE (Some 2) false;
        State (Some 8); Connection ONLINE (Some 2) true; State (Some 8)]).2.
Proof.
  apply (same_process_no_run_change (Some 1) None); [unfold consistent; simpl; auto|].
  simpl. split_and!; try done; lia || auto.
Defined.

(** One restart is one report. Whatever the detector saw before, the messages of one process
    are reported as a new run at most once, on either topic. *)
Theorem run_change_at_most_once (d : RunChangeDetector) (ms : list message) :
  one_process None None ms -> (evidence_count (run on_message d ms).2 <= 1)%nat.
Proof.
  cut (forall online state, one_process online state ms ->
         (evidence_count (run on_message d ms).2 <= 1)%nat); [by eauto|].
  revert d; induction ms as [|m ms IH]; intros d online state Hms; simpl; [by vm_compute; lia|].
  destruct (on_message d m) as [d' [e|]] eqn:E.
  - destruct (on_message_evidence _ _ _ _ _ _ _ Hms E) as (o' & s' & Hd' & Hms').
    pose proof (run_consistent _ _ _ _ Hd' Hms') as Hn.
    destruct (run on_message d' ms) as [d2 os]; simpl in *.
    apply evidence_count_none in Hn. rewrite evidence_count_some. lia.
  - destruct (one_process_tail _ _ _ _ Hms) as (o' & s' & Hms').
    specialize (IH d' _ _ Hms'). by destruct (run on_message d' ms).
Qed.

Lemma run_change_at_most_once_witness :
  le (evidence_count (run on_message (mkDetector (Some 3) (Some 40) None)
     [State (Some 0); Connection ONLINE (Some 1) false; State (Some 1); State (Some 2)]).2) 1.
Proof. apply run_change_at_most_once. simpl. split_and!; done. Defined.

(** A restart is detected. With a known state counter and no drop pending, a new process whose
    first two states are both below it is reported exactly at the second one, with the first new
    and the last old header id as evidence, and never again. *)
Theorem restart_detected (d : RunChangeDetector) (last h1 h2 : Z) (ms : list message) :
  pending_state_drop d = None -> last_state_header d = Some last ->
  h1 < last -> h2 < last -> one_process None None (State (Some h1) :: State (Some h2) :: ms) ->
  exists os, (run on_message d (State (Some h1) :: State (Some h2) :: ms)).2 =
    None :: Some (state_header_reset h1 last) :: os /\ Forall (fun o => o = None) os.
Proof.
  intros Hp Hl H1 H2 (_ & _ & Hms). destruct d as [lo ls pd]; simpl in *; subst.
  unfold on_state; simpl. rewrite bool_decide_false by lia; simpl.
  rewrite bool_decide_true by lia.
  assert (Hc : consistent None (Some h2) (mkDetector None (Some h2) None)) by (split_and!; auto).
  pose proof (run_consistent _ _ _ _ Hc Hms) as Hn.
  destruct (run on_message _ ms) as [d2 os]; simpl in *. eauto.
Qed.

Lemma restart_detected_witness :
  exists os, (run on_message (mkDetector (Some 5) (Some 900) None)
    [State (Some 0); State (Some 1); State (Some 2); Connection ONLINE (Some 1) false]).2 =
    None :: Some (state_header_reset 0 900) :: os /\ Forall (fun o => o = None) os.
Proof.
  apply (restart_detected (mkDetector (Some 5) (Some 900) None) 900 0 1); try done.
Defined.

(** A stray message is not a restart. One reordered or redelivered older state, followed by
    the old sequence going on, raises nothing and leaves the detector exactly as if the stray had
    not been delivered. *)
Theorem stray_state_ignored (d : RunChangeDetector) (last stray h : Z) :
  pending_state_drop d = None -> last_state_header d = Some last -> stray < last -> last <= h ->
  run on_message d [State (Some stray); State (Some h)] =
  ((on_state d (Some h)).1, [None; None]).
Proof.
  intros Hp Hl Hs Hh. destruct d as [lo ls pd]; simpl in *; subst.
  unfold on_state; simpl. rewrite bool_decide_false by lia. simpl.
  rewrite bool_decide_false by lia. rewrite bool_decide_true by lia. simpl.
  by rewrite Z.max_r by lia.
Qed.

Lemma stray_state_ignored_witness :
  run on_message (mkDetector (Some 5) (Some 41) None) [State (Some 39); State (Some 42)] =
  (mkDetector (Some 5) (Some 42) None, [None; None]).
Proof. apply (stray_state_ignored (mkDetector (Some 5) (Some 41) None) 41 39 42); done. Defined.

(** ** The frame watcher *)

Section frame_lemmas.
Context {Sid Map : Type} `{!EqDecision Sid} `{!EqDecision Map}.
Implicit Types (w : FrameWatcher Sid Map) (os : list (observation Sid Map)).

(** What the watcher remembers of a history: the definitive verdicts since the last reset are
    [states] mismatches with the same key, the first of them at [first_seen]. *)
Definition streak w os : Prop :=
  match key w with
  | None => states w = 0%nat
  | Some k =>
      exists pre o rest,
        os = pre ++ o :: rest /\ o_verdict o = mismatch /\
        first_seen w = o_now o /\ first_seen_at w = o_wall o /\
        states w = length (definitive (o :: rest)) /\
        Forall (fun x => o_verdict x = mismatch /\ o_key x = k) (definitive (o :: rest))
  end.

Lemma definitive_app os os' : definitive (os ++ os') = definitive os ++ definitive os'.
Proof. apply filter_app. Qed.

Lemma definitive_unknown (x : observation Sid Map) : o_verdict x = unknown -> definitive [x] = [].
Proof. intros E. unfold definitive. rewrite filter_cons, decide_False; [done|]. intros Hn. by apply Hn. Qed.

Lemma definitive_mismatch (x : observation Sid Map) : o_verdict x = mismatch -> definitive [x] = [x].
Proof. intros E. unfold definitive. rewrite filter_cons, decide_True; [done|]. by rewrite E. Qed.

Lemma streak_reset w os : streak (reset w) os.
Proof. done. Qed.

Lemma streak_unknown w os x : streak w os -> o_verdict x = unknown -> streak w (os ++ [x]).
Proof.
  intros Hw E. unfold streak in *. destruct (key w) as [k|]; [|done].
  destruct Hw as (pre & o & rest & -> & Hm & ? & ? & Hl & Hf).
  exists pre, o, (rest ++ [x]). rewrite app_comm_cons, definitive_app, definitive_unknown by done.
  rewrite app_nil_r. split_and!; auto. by rewrite <- app_assoc.
Qed.

(** The watcher just before it decides on a mismatch [x]. *)
Definition counted w (x : observation Sid Map) : FrameWatcher Sid Map :=
  let w1 := if bool_decide (key w = Some (o_key x)) then w
            else mkWatcher (confirm_s w) (confirm_states w) (Some (o_key x)) (o_now x) (o_wall x) 0 in
  mkWatcher (confirm_s w1) (confirm_states w1) (key w1) (first_seen w1) (first_seen_at w1)
    (S (states w1)).

Lemma counted_key w x : key (counted w x) = Some (o_key x).
Proof. unfold counted. by case_bool_decide. Qed.

Lemma counted_confirm w x :
  confirm_s (counted w x) = confirm_s w /\ confirm_states (counted w x) = confirm_states w.
Proof. unfold counted. by case_bool_decide. Qed.

Lemma streak_counted w os x :
  streak w os -> o_verdict x = mismatch -> streak (counted w x) (os ++ [x]).
Proof.
  intros Hw E. unfold streak. rewrite counted_key. unfold counted.
  case_bool_decide as Hk; simpl.
  - unfold streak in Hw. rewrite Hk in Hw.
    destruct Hw as (pre & o & rest & -> & Hm & ? & ? & Hl & Hf).
    exists pre, o, (rest ++ [x]). rewrite app_comm_cons, definitive_app, definitive_mismatch by done.
    rewrite length_app, Forall_app, Forall_singleton. simpl.
    split_and!; auto; [by rewrite <- app_assoc|lia].
  - exists os, x, []. rewrite definitive_mismatch by done. simpl.
    rewrite Forall_singleton. split_and!; auto.
Qed.

Lemma watch_counted w x :
  o_verdict x = mismatch ->
  watch w x =
  let w2 := counted w x in
  if bool_decide (states w2 < confirm_states w2)%nat
     || bool_decide (o_now x - first_seen w2 < confirm_s w2)
  then (w2, None)
  else (reset w2, Some (mkFrameEvidence (o_expected x) (o_observed x) (first_seen_at w2) (states w2))).
Proof. intros E. unfold watch, on_verdict. by rewrite E. Qed.

Lemma watch_streak w os x : streak w os -> streak (watch w x).1 (os ++ [x]).
Proof.
  intros Hw. destruct (o_verdict x) eqn:E.
  - unfold watch, on_verdict. rewrite E. by apply streak_unknown.
  - unfold watch, on_verdict. rewrite E. apply streak_reset.
  - rewrite watch_counted by done. cbv zeta. case_match; [by apply streak_counted|apply streak_reset].
Qed.

Lemma watch_all_streak w os os' :
  streak w os -> streak (run watch w os').1 (os ++ os').
Proof.
  revert w os; induction os' as [|x os' IH]; intros w os Hw; simpl; [by rewrite app_nil_r|].
  pose proof (watch_streak w os x Hw) as Hx. destruct (watch w x) as [w1 e]; simpl in *.
  specialize (IH _ _ Hx). destruct (run watch w1 os') as [w2 es]; simpl in *.
  by rewrite <- app_assoc in IH.
Qed.

Lemma watch_confirm w x :
  confirm_s (watch w x).1 = confirm_s w /\ confirm_states (watch w x).1 = confirm_states w.
Proof. unfold watch, on_verdict. by repeat case_match. Qed.

Lemma run_watch_confirm w os :
  confirm_s (run watch w os).1 = confirm_s w /\ confirm_states (run watch w os).1 = confirm_states w.
Proof.
  revert w; induction os as [|x os IH]; intros w; simpl; [done|].
  pose proof (watch_confirm w x) as [<- <-]. destruct (watch w x) as [w1 e]; simpl.
  specialize (IH w1). by destruct (run watch w1 os).
Qed.
End frame_lemmas.

(** A frame change is only reported when confirmed. If a watcher that starts fresh reports a
    mismatch after the verdicts [os] and [x], then the definitive verdicts of some suffix of that
    history are all mismatches of the same session and map pair, there are at least
    [confirm_states] of them spanning at least [confirm_s], and the report carries their number
    and the wall time of the first one. *)
Theorem frame_change_confirmed {Sid Map : Type} `{!EqDecision Sid} `{!EqDecision Map}
    (w : FrameWatcher Sid Map) (os : list (observation Sid Map)) (x : observation Sid Map)
    (e : frame_evidence Map) :
  key w = None -> states w = 0%nat -> (watch (run watch w os).1 x).2 = Some e ->
  exists pre o rest,
    os ++ [x] = pre ++ o :: rest /\
    Forall (fun y => o_verdict y = mismatch /\ o_key y = o_key x) (definitive (o :: rest)) /\
    (confirm_states w <= length (definitive (o :: rest)))%nat /\
    confirm_s w <= o_now x - o_now o /\
    e = mkFrameEvidence (o_expected x) (o_observed x) (o_wall o) (length (definitive (o :: rest))).
Proof.
  intros Hk Hs He. assert (Hw : streak w []) by (unfold streak; by rewrite Hk).
  apply (watch_all_streak _ _ os) in Hw. simpl in Hw.
  destruct (run_watch_confirm w os) as [Hc1 Hc2].
  remember (run watch w os).1 as w1. destruct (o_verdict x) eqn:E;
    [by unfold watch, on_verdict in He; rewrite E in He..|].
  rewrite watch_counted in He by done. cbv zeta in He.
  pose proof (streak_counted _ _ _ Hw E) as Hst. unfold streak in Hst. rewrite counted_key in Hst.
  destruct Hst as (pre & o & rest & Ho & _ & Hfs & Hfa & Hn & Hf).
  destruct (counted_confirm w1 x) as [Hq1 Hq2]. case_match eqn:Hg; [done|]. bprop. simplify_eq/=.
  exists pre, o, rest. rewrite Hn, Hfa. split_and!; auto; lia.
Qed.

Lemma frame_change_confirmed_witness :
  exists pre o rest,
    [mkObs mismatch 1 "a" "b" 0 (Some "t0"); mkObs unknown 1 "a" "" 5 None;
     mkObs mismatch 1 "a" "b" 20 None] ++ [mkObs mismatch 1 "a" "b" 31 None] = pre ++ o :: rest /\
    Forall (fun y => o_verdict y = mismatch /\ o_key y = (1, "a", "b")) (definitive (o :: rest)) /\
    (3 <= length (definitive (o :: rest)))%nat /\ 30 <= 31 - o_now o /\
    mkFrameEvidence "a" "b" (Some "t0") 3 =
    mkFrameEvidence "a" "b" (o_wall o) (length (definitive (o :: rest))).
Proof.
  apply (frame_change_confirmed (mkWatcher 30 3 None 0 None 0)
    [mkObs mismatch 1 "a" "b" 0 (Some "t0"); mkObs unknown 1 "a" "" 5 None;
     mkObs mismatch 1 "a" "b" 20 None]%string (mkObs mismatch 1 "a" "b" 31 None)%string
    (mkFrameEvidence "a" "b" (Some "t0") 3)%string); reflexivity.
Defined.
