(* ===== verification/SessionClock.v ===== *)
(** * Per-session clock offsets (packages/services/graph_builder/scene_clock.py)

    [SessionClock] estimates, per mapping session, the offset between a robot's stamps and the
    receipt times as the least delay seen. Times are integer milliseconds as in the source
    ([int(...)] of every input); the session table is the insertion-ordered dictionary of PyDict,
    least recently observed first.

    What is shown: the table stays within its bound and holds no session older than the time to
    live; the estimate is the exact minimum of the delays observed since the session entered the
    table; and a trusted corrected stamp is [stamp + offset], never after its receipt (the clamp of
    the source never has to act). *)

From S2P Require Import Prelude PyDict.

Open Scope Z_scope.

(** [_State] *)
Record ClockState := mkClockState {
  min_delay : option Z;
  n_obs : nat;
  last_pair : option (Z * Z);   (** last (stamp, receipt), to skip repeats *)
  last_receipt : Z;
}.

Definition new_clock_state : ClockState := mkClockState None 0 None 0.

Record SessionClock := mkClock {
  min_obs : nat;
  suspect_ms : Z;
  max_sessions : nat;
  ttl_ms : Z;
  sessions : list (string * ClockState);
  newest : Z;
}.

(** [__init__]: the bounds are at least 1. *)
Definition new_clock (min_obs : nat) (suspect_ms : Z) (max_sessions : nat) (ttl_ms : Z)
    : SessionClock :=
  mkClock (Nat.max 1 min_obs) suspect_ms (Nat.max 1 max_sessions) ttl_ms [] 0.

Definition set_sessions (c : SessionClock) (t : list (string * ClockState)) : SessionClock :=
  mkClock (min_obs c) (suspect_ms c) (max_sessions c) (ttl_ms c) t (newest c).

(** [_evict] *)
Definition evict_sessions (c : SessionClock) : SessionClock :=
  let t := evict (max_sessions c) (sessions c) in
  set_sessions c
    (if bool_decide (0 < ttl_ms c)
     then filter (fun p => ~ last_receipt p.2 < newest c - ttl_ms c) t
     else t).

(** The update of the session's own state in [observe]. *)
Definition observe_state (s : ClockState) (stamp receipt : Z) : ClockState :=
  let s1 :=
    if bool_decide (last_pair s = Some (stamp, receipt)) then s
    else
      let delay := receipt - stamp in
      mkClockState
        (match min_delay s with
         | None => Some delay
         | Some m => if bool_decide (delay < m) then Some delay else Some m
         end)
        (S (n_obs s)) (Some (stamp, receipt)) (last_receipt s) in
  mkClockState (min_delay s1) (n_obs s1) (last_pair s1) (Z.max (last_receipt s1) receipt).

(** [observe] *)
Definition observe (c : SessionClock) (session : string) (stamp receipt : Z) : SessionClock :=
  let state := default new_clock_state (dget (sessions c) session) in
  let t := match dget (sessions c) session with
           | None => dset (sessions c) session (observe_state state stamp receipt)
           | Some _ => dset (dmove_to_end (sessions c) session) session
                         (observe_state state stamp receipt)
           end in
  evict_sessions
    (mkClock (min_obs c) (suspect_ms c) (max_sessions c) (ttl_ms c) t (Z.max (newest c) receipt)).

(** [offset_ms] *)
Definition offset_ms (c : SessionClock) (session : string) : option Z :=
  s ← dget (sessions c) session;
  if bool_decide (n_obs s < min_obs c)%nat then None else min_delay s.

(** [suspect] *)
Definition suspect (c : SessionClock) (session : string) : bool :=
  match offset_ms c session with
  | Some o => bool_decide (suspect_ms c < Z.abs o)
  | None => false
  end.

(** [correct] *)
Definition correct (c : SessionClock) (session : string) (stamp receipt : Z)
    : SessionClock * (Z * bool) :=
  let c1 := observe c session stamp receipt in
  (c1, match offset_ms c1 session with
       | None => (receipt, false)
       | Some o => (Z.min (stamp + o) receipt, true)
       end).

(** [offsets] *)
Definition offsets (c : SessionClock) : list (string * Z) :=
  omap (fun p => if bool_decide (min_obs c <= n_obs p.2)%nat
                 then (fun m => (p.1, m)) <$> min_delay p.2 else None) (sessions c).

Definition clock_event : Type := string * Z * Z.
Definition clock_step (c : SessionClock) (e : clock_event) : SessionClock :=
  let '(session, stamp, receipt) := e in observe c session stamp receipt.

(** A history variable beside the clock: per session, the observations since it last entered the
    table (a session that was evicted starts again). *)
Definition clock_history : Type := string -> list (Z * Z).
Definition history_step (ch : SessionClock * clock_history) (e : clock_event)
    : SessionClock * clock_history :=
  let '(session, stamp, receipt) := e in
  (observe ch.1 session stamp receipt,
   fun x => if bool_decide (x = session)
            then (if dmem (sessions ch.1) x then ch.2 x else []) ++ [(stamp, receipt)]
            else ch.2 x).

Definition delay_of (p : Z * Z) : Z := p.2 - p.1.
Definition is_min_of (m : Z) (l : list (Z * Z)) : Prop :=
  (exists p, p ∈ l /\ m = delay_of p) /\ Forall (fun p => m <= delay_of p) l.

(** ** Lemmas *)

Definition clock_inv (c : SessionClock) : Prop :=
  dict_wf (sessions c) /\
  (length (sessions c) <= max_sessions c)%nat /\
  (0 < ttl_ms c -> Forall (fun p => newest c - ttl_ms c <= last_receipt p.2) (sessions c)).

Lemma evict_sessions_inv c : dict_wf (sessions c) -> clock_inv (evict_sessions c).
Proof.
  intros Hw. unfold clock_inv, evict_sessions; simpl. case_bool_decide as Ht; simpl.
  - split_and!.
    + auto with fleet.
    + etrans; [apply length_filter|apply evict_length].
    + intros _. rewrite Forall_forall. intros p [Hp _]%list_elem_of_filter. lia.
  - split_and!; [auto with fleet|apply evict_length|lia].
Qed.

Lemma observe_inv c session stamp receipt :
  dict_wf (sessions c) -> clock_inv (observe c session stamp receipt).
Proof.
  intros Hw. unfold observe. apply evict_sessions_inv; simpl. case_match; auto with fleet.
Qed.

Lemma dget_evict_sessions c session s :
  dict_wf (sessions c) -> dget (sessions (evict_sessions c)) session = Some s ->
  dget (sessions c) session = Some s.
Proof.
  intros Hw Hs%dget_Some_elem. apply dget_elem; [done|].
  destruct (evict_suffix (max_sessions c) (sessions c)) as [pre Epre].
  rewrite Epre. apply elem_of_app; right.
  unfold evict_sessions, set_sessions in Hs; simpl in Hs.
  case_bool_decide; [by apply list_elem_of_filter in Hs as [_ ?]|done].
Qed.

(** The state of a session after [observe]: the updated one for the observed session, the same
    for the others, unless evicted. *)
Lemma dget_observe c session stamp receipt x s :
  dict_wf (sessions c) -> dget (sessions (observe c session stamp receipt)) x = Some s ->
  if bool_decide (x = session)
  then s = observe_state (default new_clock_state (dget (sessions c) session)) stamp receipt
  else dget (sessions c) x = Some s.
Proof.
  intros Hw Hs. apply dget_evict_sessions in Hs; simpl in *; [|destruct (dget (sessions c) session); auto with fleet].
  destruct (decide (x = session)) as [->|Hx].
  - rewrite bool_decide_true by done. destruct (dget (sessions c) session);
      rewrite dget_dset_eq in Hs; by simplify_eq.
  - rewrite bool_decide_false by done. destruct (dget (sessions c) session);
      rewrite dget_dset_ne in Hs by done; [by rewrite dget_move_to_end in Hs|done].
Qed.

Lemma observe_state_min s stamp receipt l :
  (match min_delay s with
   | None => l = [] /\ last_pair s = None
   | Some m => is_min_of m l /\ forall p, last_pair s = Some p -> p ∈ l
   end) ->
  exists m, min_delay (observe_state s stamp receipt) = Some m /\ is_min_of m (l ++ [(stamp, receipt)]) /\
    forall p, last_pair (observe_state s stamp receipt) = Some p -> p ∈ l ++ [(stamp, receipt)].
Proof.
  assert (Hlast : (stamp, receipt) ∈ l ++ [(stamp, receipt)]).
  { apply elem_of_app; right; by apply list_elem_of_singleton. }
  unfold observe_state, is_min_of; simpl. intros Hs.
  case_bool_decide as Hp; simpl.
  - destruct (min_delay s) as [m|]; [|naive_solver]. destruct Hs as [[Hin Hall] Hl].
    exists m. split; [done|]. split; [split|].
    + destruct Hin as (p & Hp1 & ->). exists p. split; [|done]. apply elem_of_app; auto.
    + rewrite Forall_app, Forall_singleton. split; [done|].
      rewrite Forall_forall in Hall. by apply Hall, Hl.
    + intros p ?. apply elem_of_app; auto.
  - exists (match min_delay s with
       | Some m => if bool_decide (receipt - stamp < m) then receipt - stamp else m
       | None => receipt - stamp end).
    split; [by repeat case_match|]. split; [|by intros p [= <-]].
    rewrite Forall_app, Forall_singleton.
    destruct (min_delay s) as [m|]; [|destruct Hs as [-> _]; simpl in *; split_and!; eauto; done].
    destruct Hs as [[(p & Hin & ->) Hall] _]. case_bool_decide; unfold delay_of in *; simpl in *.
    + split_and!; [by exists (stamp, receipt)| |lia].
      eapply Forall_impl; [exact Hall|]. simpl. intros; lia.
    + split_and!; [|done|lia]. exists p. split; [apply elem_of_app; auto|done].
Qed.

(** The clock and its history agree. *)
Definition history_inv (ch : SessionClock * clock_history) : Prop :=
  clock_inv ch.1 /\
  forall x s, dget (sessions ch.1) x = Some s ->
    exists m, min_delay s = Some m /\ is_min_of m (ch.2 x) /\
      forall p, last_pair s = Some p -> p ∈ ch.2 x.

Lemma history_step_inv ch e : history_inv ch -> history_inv (history_step ch e).
Proof.
  destruct ch as [c h], e as [[session stamp] receipt]. intros [(Hw & _) Hh]; simpl in *.
  split; [by apply observe_inv|]. simpl. intros x s Hs.
  apply dget_observe in Hs; [|done]. case_bool_decide as Hx; [subst|by apply Hh].
  apply observe_state_min. unfold dmem. destruct (dget (sessions c) session) as [s|] eqn:E; simpl.
  - destruct (Hh _ _ E) as (m & -> & ? & ?). auto.
  - done.
Qed.

Lemma new_clock_inv a b c d : clock_inv (new_clock a b c d).
Proof. split_and!; simpl; auto with fleet; lia. Qed.

Lemma clock_step_inv c e : clock_inv c -> clock_inv (clock_step c e).
Proof. destruct e as [[session stamp] receipt]. intros [? _]. by apply observe_inv. Qed.

Lemma history_reachable_inv a b c d h0 ch :
  reachable history_step (new_clock a b c d, h0) ch -> history_inv ch.
Proof.
  apply reachable_inv; [split; [apply new_clock_inv|done]|].
  intros; by apply history_step_inv.
Qed.

Lemma offset_is_least_delay_aux a b m ttl h0 ch session :
  reachable history_step (new_clock a b m ttl, h0) ch ->
  match offset_ms ch.1 session with
  | Some o => is_min_of o (ch.2 session)
  | None => forall s, dget (sessions ch.1) session = Some s -> (n_obs s < min_obs ch.1)%nat
  end.
Proof.
  destruct ch as [c h]. intros [_ Hh]%history_reachable_inv. simpl in *. unfold offset_ms.
  destruct (dget (sessions c) session) as [s|] eqn:E; simpl; [|done].
  destruct (Hh _ _ E) as (mn & Hm & Hmin & _). case_bool_decide; [naive_solver|]. by rewrite Hm.
Qed.

(** ** Properties *)

(** The session table is bounded. In every state reached by observations the table has
    distinct sessions, at most [max_sessions] of them, and with a positive time to live none whose
    last receipt is older than that. *)
Theorem session_clock_bounded (a : nat) (b : Z) (m : nat) (ttl : Z) (c : SessionClock) :
  reachable clock_step (new_clock a b m ttl) c -> clock_inv c.
Proof. apply reachable_inv; [apply new_clock_inv|intros; by apply clock_step_inv]. Qed.

Lemma session_clock_bounded_witness :
  clock_inv (foldl clock_step (new_clock 3 300000 2 1000)
    [("a", 0, 10); ("b", 5, 20); ("c", 0, 30); ("a", 40, 2000)]%string).
Proof. apply (session_clock_bounded 3 300000 2 1000), reachable_foldl. Defined.

(** The offset is the least delay. Once [min_obs] observations are in, the offset of a session
    is exactly the minimum of [receipt - stamp] over the observations made since the session
    entered the table; before that there is none. *)
Theorem offset_is_least_delay (a : nat) (b : Z) (m : nat) (ttl : Z) (h0 : clock_history)
    (ch : SessionClock * clock_history) (session : string) :
  reachable history_step (new_clock a b m ttl, h0) ch ->
  match offset_ms ch.1 session with
  | Some o => is_min_of o (ch.2 session)
  | None => forall s, dget (sessions ch.1) session = Some s -> (n_obs s < min_obs ch.1)%nat
  end.
Proof. apply offset_is_least_delay_aux. Qed.

Lemma offset_is_least_delay_witness :
  is_min_of (-5) [(0, 10); (7, 2); (0, 3)].
Proof.
  exact (offset_is_least_delay 3 300000 8 1000 (fun _ => []) _ "a"
    (reachable_foldl history_step _ [("a", 0, 10); ("a", 7, 2); ("a", 0, 3)]%string)).
Defined.

(** A corrected stamp is never in the receipt's future. For a clock in a reachable state,
    [correct] returns the receipt itself while the offset is not trusted, and otherwise exactly
    [stamp + offset] with the offset after this observation, which is at most the receipt. *)
Theorem correct_stamp (a : nat) (b : Z) (m : nat) (ttl : Z) (c : SessionClock) (session : string)
    (stamp receipt : Z) :
  reachable clock_step (new_clock a b m ttl) c ->
  let '(c1, (v, trusted)) := correct c session stamp receipt in
  v <= receipt /\
  match offset_ms c1 session with
  | Some o => trusted = true /\ v = stamp + o
  | None => trusted = false /\ v = receipt
  end.
Proof.
  intros Hc. assert (exists h, reachable history_step (new_clock a b m ttl, fun _ => []) (c, h)) as [h Hr].
  { clear -Hc. induction Hc as [|c [[s st] rc] _ [h IH]]; [eexists; constructor|].
    eexists. exact (reach_step _ _ _ (s, st, rc) IH). }
  pose proof (reach_step _ _ _ (session, stamp, receipt) Hr) as Hr1.
  pose proof (offset_is_least_delay_aux _ _ _ _ _ _ session Hr1) as Ho.
  unfold correct. destruct (offset_ms _ session) as [o|]; [|split; [lia|done]].
  assert (o <= receipt - stamp).
  { destruct Ho as [_ Hall]. simpl in Hall. rewrite bool_decide_true in Hall by done.
    rewrite Forall_app, Forall_singleton in Hall. apply Hall. }
  rewrite Z.min_l by lia. split; [lia|done].
Qed.

Lemma correct_stamp_witness :
  let '(c1, (v, trusted)) :=
    correct (foldl clock_step (new_clock 2 300000 8 1000) [("a", 100, 90)]%string) "a" 110 130 in
  v <= 130 /\
  match offset_ms c1 "a" with
  | Some o => trusted = true /\ v = 110 + o
  | None => trusted = false /\ v = 130
  end.
Proof. apply (correct_stamp 2 300000 8 1000), reachable_foldl. Defined.
