(* ===== verification/UploadBuffer.v ===== *)
(** * Uploads waiting for their node (packages/services/graph_builder/upload_buffer.py)

    [NodeUploadBuffer] keeps images, depth images and costmap layers that arrive before their node,
    per node key and sub-key, within byte and entry caps; [NodeIdCache] is the LRU set of node ids
    known to exist. Both are locked in the source, so each operation is one atomic step; the clock
    is an argument of the operation (integer microseconds, the resolution of a Python datetime). An entry is the dictionary the
    service buffers, reduced to the fields the buffer reads: [data], [session_id], [run_id]. Log
    messages are left out, the log rate limiter's state is not.

    What is shown: the byte and entry counters are exact and the caps are never exceeded in any
    reachable state; a buffered upload is handed to its node by [take] whatever happens to other
    nodes in the meantime; and the id cache is bounded and only ever holds ids that were added. *)

From S2P Require Import Prelude PyDict.

Open Scope Z_scope.

Definition NodeKey : Type := string * Z.

Record entry := mkEntry {
  data : option string;        (** [None]: no [data], or not a string *)
  e_session_id : option string;
  e_run_id : option string;
}.

(** [_size] *)
Definition size_of (e : entry) : Z :=
  match data e with Some d => Z.of_nat (String.length d) | None => 0 end.

Definition subs_t : Type := list (string * (entry * Z)).

Record NodeUploadBuffer := mkBuffer {
  stat : Z;                              (** [stats[stat]] *)
  entries : list (NodeKey * subs_t);
  max_bytes : option Z;
  max_entries : option Z;
  bytes : Z;
  overflowed : nat;
  overflow_unlogged : nat;
  overflow_logged_at : option Z;
}.

Definition OVERFLOW_LOG_INTERVAL : Z := 60 * 1000000.

Definition new_buffer (max_bytes max_entries : option Z) : NodeUploadBuffer :=
  mkBuffer 0 [] max_bytes max_entries 0 0 0 None.

(** [_bytes_of] and [_count] *)
Definition bytes_of (subs : subs_t) : Z := dsum (fun v => size_of v.1) subs.
Definition len_Z (subs : subs_t) : Z := Z.of_nat (length subs).
Definition count (b : NodeUploadBuffer) : Z := dsum len_Z (entries b).

Definition set_entries (b : NodeUploadBuffer) (es : list (NodeKey * subs_t)) (stat' bytes' : Z)
    : NodeUploadBuffer :=
  mkBuffer stat' es (max_bytes b) (max_entries b) bytes' (overflowed b) (overflow_unlogged b)
    (overflow_logged_at b).

(** [__setitem__]: raw access, counts the bytes only. *)
Definition setitem (b : NodeUploadBuffer) (key : NodeKey) (value : subs_t) : NodeUploadBuffer :=
  set_entries b (dset (entries b) key value) (stat b)
    (bytes b - bytes_of (default [] (dget (entries b) key)) + bytes_of value).

(** [_overflow] *)
Definition overflow (b : NodeUploadBuffer) (now : Z) : NodeUploadBuffer :=
  let unlogged := S (overflow_unlogged b) in
  let due := match overflow_logged_at b with
             | None => true
             | Some last => bool_decide (now - last >= OVERFLOW_LOG_INTERVAL)
             end in
  mkBuffer (stat b) (entries b) (max_bytes b) (max_entries b) (bytes b) (S (overflowed b))
    (if due then 0%nat else unlogged) (if due then Some now else overflow_logged_at b).

Definition over_cap (cap : option Z) (n : Z) : bool :=
  match cap with Some c => bool_decide (n > c) | None => false end.

(** [put]; the boolean is its result. *)
Definition put (b : NodeUploadBuffer) (key : NodeKey) (sub : string) (e : entry) (now : Z)
    : NodeUploadBuffer * bool :=
  let subs := default [] (dget (entries b) key) in
  let old := dget subs sub in
  let freed := match old with Some (o, _) => size_of o | None => 0 end in
  let new_entries := match old with Some _ => 0 | None => 1 end in
  if over_cap (max_bytes b) (bytes b - freed + size_of e)
     || over_cap (max_entries b) (count b + new_entries)
  then (overflow b now, false)
  else
    (set_entries b (dset (entries b) key (dset subs sub (e, now)))
       (match old with Some _ => stat b | None => stat b + 1 end)
       (bytes b + (size_of e - freed)), true).

(** [put_unless]: what [target()] found, or whether the upload was buffered. *)
Inductive put_outcome (T : Type) := Found (t : T) | Buffered | Dropped.
Arguments Found {T} t.
Arguments Buffered {T}.
Arguments Dropped {T}.

Definition put_unless {T : Type} (b : NodeUploadBuffer) (key : NodeKey) (sub : string) (e : entry)
    (target : option T) (now : Z) : NodeUploadBuffer * put_outcome T :=
  match target with
  | Some t => (b, Found t)
  | None => let (b1, ok) := put b key sub e now in (b1, if ok then Buffered else Dropped)
  end.

(** The test [take] makes on each buffered entry. *)
Definition taken (now timeout : Z) (session_id run_id : option string) (p : entry * Z) : bool :=
  if bool_decide (now - p.2 > timeout) then false
  else if match session_id with
          | Some s => bool_decide (e_session_id p.1 <> Some s)
          | None => false
          end then false
  else negb (match run_id, e_run_id p.1 with
             | Some r, Some r' => bool_decide (r' <> r)
             | _, _ => false
             end).

(** [take] *)
Definition take (b : NodeUploadBuffer) (key : NodeKey) (timeout : Z)
    (session_id run_id : option string) (now : Z) : NodeUploadBuffer * list entry :=
  match dget (entries b) key with
  | None => (b, [])
  | Some subs =>
      (set_entries b (ddel (entries b) key) (stat b - len_Z subs)
         (bytes b - bytes_of subs),
       fst <$> filter (fun p => taken now timeout session_id run_id p = true) (snd <$> subs))
  end.

(** [pop] *)
Definition pop (b : NodeUploadBuffer) (key : NodeKey) : NodeUploadBuffer * nat :=
  let subs := default [] (dget (entries b) key) in
  (set_entries b (ddel (entries b) key) (stat b - len_Z subs)
     (bytes b - bytes_of subs), length subs).

(** The loop bodies of [clear_robot] and [cleanup]: what stays of one node's entries. *)
Definition clear_keep (keep : option (entry -> bool)) (subs : subs_t) : subs_t :=
  match keep with
  | Some k => filter (fun p => k p.2.1 = true) subs
  | None => []
  end.

Definition young (now max_age : Z) (subs : subs_t) : subs_t :=
  filter (fun p => ~ now - p.2.2 > max_age) subs.

(** [for key in list(self.entries)]: replace each node's entries by what [stay] keeps of them,
    dropping a node none of whose entries stays; how many entries went, their bytes, and how many
    nodes. *)
Fixpoint sweep (sel : NodeKey -> bool) (stay : subs_t -> subs_t) (es : list (NodeKey * subs_t))
    : list (NodeKey * subs_t) * (Z * Z * nat) :=
  match es with
  | [] => ([], (0, 0, 0%nat))
  | (k, subs) :: t =>
      let '(t', (gone, freed, cleared)) := sweep sel stay t in
      if sel k then
        let kept := stay subs in
        let gone' := gone + (len_Z subs - len_Z kept) in
        let freed' := freed + (bytes_of subs - bytes_of kept) in
        match kept with
        | [] => (t', (gone', freed', S cleared))
        | _ => ((k, kept) :: t', (gone', freed', cleared))
        end
      else ((k, subs) :: t', (gone, freed, cleared))
  end.

(** [clear_robot]: how many node keys were cleared. *)
Definition clear_robot (b : NodeUploadBuffer) (robot : string) (keep : option (entry -> bool))
    : NodeUploadBuffer * nat :=
  let '(es, (gone, freed, cleared)) :=
    sweep (fun k => bool_decide (k.1 = robot)) (clear_keep keep) (entries b) in
  (set_entries b es (stat b - gone) (bytes b - freed), cleared).

(** [cleanup]: how many entries were discarded. *)
Definition cleanup (b : NodeUploadBuffer) (max_age now : Z) : NodeUploadBuffer * Z :=
  let '(es, (gone, freed, _)) := sweep (fun _ => true) (young now max_age) (entries b) in
  (set_entries b es (stat b - gone) (bytes b - freed), gone).

(** The service's operations on one buffer. *)
Inductive buffer_op :=
| OpPut (key : NodeKey) (sub : string) (e : entry) (now : Z)
| OpTake (key : NodeKey) (timeout : Z) (session_id run_id : option string) (now : Z)
| OpPop (key : NodeKey)
| OpClear (robot : string) (keep : option (entry -> bool))
| OpCleanup (max_age now : Z).

Definition buffer_step (b : NodeUploadBuffer) (op : buffer_op) : NodeUploadBuffer :=
  match op with
  | OpPut key sub e now => (put b key sub e now).1
  | OpTake key timeout s r now => (take b key timeout s r now).1
  | OpPop key => (pop b key).1
  | OpClear robot keep => (clear_robot b robot keep).1
  | OpCleanup max_age now => (cleanup b max_age now).1
  end.

(** Operations that leave the entry buffered at time [at_] under [key] and [sub] alone: anything
    on other nodes or other sub-keys, clearing other robots (or keeping the entry), cleaning up
    with the entry not too old yet. *)
Definition spares (key : NodeKey) (sub : string) (e : entry) (at_ : Z) (op : buffer_op) : Prop :=
  match op with
  | OpPut k s _ _ => k <> key \/ s <> sub
  | OpTake k _ _ _ _ => k <> key
  | OpPop k => k <> key
  | OpClear robot keep =>
      robot <> key.1 \/ match keep with Some f => f e = true | None => False end
  | OpCleanup max_age now => now - at_ <= max_age
  end.

(** ** NodeIdCache *)

Record NodeIdCache := mkCache { max_size : nat; ids : list ((string * string) * unit) }.

(** [__contains__]: also refreshes the key. *)
Definition cache_contains (c : NodeIdCache) (key : string * string) : NodeIdCache * bool :=
  if dmem (ids c) key then (mkCache (max_size c) (dmove_to_end (ids c) key), true) else (c, false).

Definition cache_add (c : NodeIdCache) (key : string * string) : NodeIdCache :=
  mkCache (max_size c) (evict (max_size c) (dmove_to_end (dset (ids c) key tt) key)).

Definition cache_discard (c : NodeIdCache) (key : string * string) : NodeIdCache :=
  mkCache (max_size c) (ddel (ids c) key).

Inductive cache_op := CContains (k : string * string) | CAdd (k : string * string)
| CDiscard (k : string * string).

Definition cache_step (c : NodeIdCache) (op : cache_op) : NodeIdCache :=
  match op with
  | CContains k => (cache_contains c k).1
  | CAdd k => cache_add c k
  | CDiscard k => cache_discard c k
  end.

(** The ids added and not discarded since. *)
Definition known_step (known : gset (string * string)) (op : cache_op) : gset (string * string) :=
  match op with
  | CContains _ => known
  | CAdd k => {[k]} ∪ known
  | CDiscard k => known ∖ {[k]}
  end.

(** ** Lemmas *)

Definition within (cap : option Z) (n : Z) : Prop :=
  match cap with Some c => n <= Z.max c 0 | None => True end.

Lemma over_cap_within cap n : over_cap cap n = false -> within cap n.
Proof. destruct cap; simpl; [|done]. case_bool_decide; [done|]. lia. Qed.

Lemma within_le cap n m : within cap n -> m <= n -> within cap m.
Proof. destruct cap; simpl; lia. Qed.

(** The counters are exact and the caps hold. *)
Definition buffer_inv (b : NodeUploadBuffer) : Prop :=
  dict_wf (entries b) /\
  Forall (fun p => dict_wf p.2 /\ p.2 <> []) (entries b) /\
  bytes b = dsum bytes_of (entries b) /\
  stat b = count b /\
  within (max_bytes b) (bytes b) /\
  within (max_entries b) (count b).

Lemma size_of_nonneg e : 0 <= size_of e.
Proof. unfold size_of. case_match; lia. Qed.

Lemma bytes_of_nonneg subs : 0 <= bytes_of subs.
Proof. apply dsum_nonneg. intros; apply size_of_nonneg. Qed.

Lemma len_Z_nonneg subs : 0 <= len_Z subs.
Proof. unfold len_Z. lia. Qed.

Lemma length_dset_Z (subs : subs_t) sub v :
  len_Z (dset subs sub v) = len_Z subs + match dget subs sub with Some _ => 0 | None => 1 end.
Proof.
  unfold len_Z. induction subs as [|[k w] t IH]; simpl; [done|].
  case_bool_decide; simpl in *; lia.
Qed.

Lemma bytes_of_dset subs sub e now :
  bytes_of (dset subs sub (e, now)) =
  bytes_of subs - match dget subs sub with Some (o, _) => size_of o | None => 0 end + size_of e.
Proof.
  unfold bytes_of. rewrite dsum_dset. unfold dval. destruct (dget subs sub) as [[o t]|]; simpl; lia.
Qed.

Lemma dval_default (f : subs_t -> Z) (es : list (NodeKey * subs_t)) key :
  f [] = 0 -> dval f es key = f (default [] (dget es key)).
Proof. intros Hf. unfold dval. by destruct (dget es key). Qed.

Lemma put_inv b key sub e now : buffer_inv b -> buffer_inv (put b key sub e now).1.
Proof.
  intros (Hw & Hs & Hb & Hc & Hmb & Hme). unfold put. case_match eqn:Hg; [by split_and!|].
  apply orb_false_iff in Hg as [Hg1%over_cap_within Hg2%over_cap_within].
  assert (Hsub : dict_wf (default [] (dget (entries b) key))).
  { destruct (dget _ key) as [subs|] eqn:E; [|apply dict_wf_nil].
    by apply (Forall_dget _ _ _ _ Hs) in E as []. }
  unfold buffer_inv, count, set_entries; simpl in *. rewrite !dsum_dset.
  rewrite (dval_default len_Z), (dval_default bytes_of) by done.
  rewrite length_dset_Z, bytes_of_dset. unfold count in *.
  split_and!; auto with fleet.
  - apply Forall_dset; [done|]. split; [by apply dict_wf_dset|apply dset_not_nil].
  - destruct (dget _ sub) as [[o t]|]; lia.
  - destruct (dget _ sub) as [[o t]|]; lia.
  - eapply within_le; [exact Hg1|]. destruct (dget _ sub) as [[o t]|]; lia.
  - eapply within_le; [exact Hg2|]. destruct (dget _ sub) as [[o t]|]; lia.
Qed.

(** Removing a node's entries. *)
Lemma remove_inv b key :
  buffer_inv b ->
  buffer_inv (set_entries b (ddel (entries b) key)
    (stat b - len_Z (default [] (dget (entries b) key)))
    (bytes b - bytes_of (default [] (dget (entries b) key)))).
Proof.
  intros (Hw & Hs & Hb & Hc & Hmb & Hme). unfold buffer_inv, count in *; simpl.
  rewrite !dsum_ddel by done. rewrite (dval_default len_Z), (dval_default bytes_of) by done.
  pose proof (bytes_of_nonneg (default [] (dget (entries b) key))).
  pose proof (len_Z_nonneg (default [] (dget (entries b) key))).
  split_and!; auto with fleet; try lia; try (eapply within_le; [eassumption|lia]).
  by apply Forall_ddel.
Qed.

Lemma take_inv b key timeout s r now : buffer_inv b -> buffer_inv (take b key timeout s r now).1.
Proof.
  intros Hb. pose proof (remove_inv b key Hb) as Hr. unfold take.
  destruct (dget (entries b) key) as [subs|]; [exact Hr|done].
Qed.

Lemma pop_inv b key : buffer_inv b -> buffer_inv (pop b key).1.
Proof. apply remove_inv. Qed.

(** A [stay] that keeps a part of the entries. *)
Definition shrinks (stay : subs_t -> subs_t) : Prop :=
  forall subs, dict_wf subs ->
    dict_wf (stay subs) /\ len_Z (stay subs) <= len_Z subs /\ bytes_of (stay subs) <= bytes_of subs.

Lemma dsum_filter_le {V : Type} (f : V -> Z) (P : string * V -> Prop) `{!forall x, Decision (P x)} d :
  (forall v, 0 <= f v) -> dsum f (filter P d) <= dsum f d.
Proof.
  intros Hf. induction d as [|p d IH]; [done|]. rewrite filter_cons.
  case_decide; rewrite !dsum_cons; specialize (Hf p.2); lia.
Qed.

Lemma shrinks_filter (P : string * (entry * Z) -> Prop) `{!forall x, Decision (P x)} :
  shrinks (filter P).
Proof.
  intros subs Hw. split_and!; [by apply dict_wf_filter| |].
  - unfold len_Z. apply Nat2Z.inj_le, length_filter.
  - apply dsum_filter_le. intros; apply size_of_nonneg.
Qed.

Lemma shrinks_clear_keep keep : shrinks (clear_keep keep).
Proof.
  destruct keep as [k|]; [apply shrinks_filter|]. intros subs Hw. unfold clear_keep.
  pose proof (bytes_of_nonneg subs). pose proof (len_Z_nonneg subs). split_and!; auto with fleet.
Qed.

Lemma sweep_spec sel stay es es' gone freed cleared :
  shrinks stay -> dict_wf es -> Forall (fun p => dict_wf p.2 /\ p.2 <> []) es ->
  sweep sel stay es = (es', (gone, freed, cleared)) ->
  keys es' `sublist_of` keys es /\
  Forall (fun p => dict_wf p.2 /\ p.2 <> []) es' /\
  dsum len_Z es' = dsum len_Z es - gone /\
  dsum bytes_of es' = dsum bytes_of es - freed /\ 0 <= gone /\ 0 <= freed.
Proof.
  intros Hst. revert es' gone freed cleared.
  induction es as [|[k subs] t IH]; intros es' gone freed cleared; simpl.
  - intros _ _ [= <- <- <- <-]. by split_and!; auto.
  - unfold dict_wf; csimpl. intros [_ Hw]%NoDup_cons [[Hs Hne] Ht]%Forall_cons.
    destruct (sweep sel stay t) as [t' [[g f] c]] eqn:E.
    destruct (IH _ _ _ _ Hw Ht eq_refl) as (Hk & Hf & Hl & Hb & Hg & Hf').
    destruct (Hst subs Hs) as (Hw' & Hl' & Hb'). simpl in *.
    destruct (sel k); [destruct (stay subs) as [|x kept] eqn:Ek|]; intros [= <- <- <- <-];
      rewrite !dsum_cons; simpl; unfold len_Z in *; simpl in *.
    + change (bytes_of []) with 0 in *. split_and!; auto; try lia. by apply sublist_cons.
    + split_and!; auto; try lia; first [by apply sublist_skip|by constructor].
    + split_and!; auto; try lia; first [by apply sublist_skip|by constructor].
Qed.

Lemma sweep_inv b sel stay es gone freed cleared :
  shrinks stay -> buffer_inv b -> sweep sel stay (entries b) = (es, (gone, freed, cleared)) ->
  buffer_inv (set_entries b es (stat b - gone) (bytes b - freed)).
Proof.
  intros Hst (Hw & Hs & Hb & Hc & Hmb & Hme) E.
  destruct (sweep_spec _ _ _ _ _ _ _ Hst Hw Hs E) as (Hk & Hf & Hl & Hb' & Hg & Hf').
  unfold buffer_inv, count in *; simpl in *. rewrite Hl, Hb'.
  split_and!; auto; try lia; try (eapply within_le; [eassumption|lia]).
  eapply sublist_NoDup; eauto.
Qed.

Lemma buffer_step_inv b op : buffer_inv b -> buffer_inv (buffer_step b op).
Proof.
  destruct op as [key sub e now|key timeout s r now|key|robot keep|max_age now]; simpl; intros Hb.
  - by apply put_inv.
  - by apply take_inv.
  - by apply pop_inv.
  - unfold clear_robot. destruct (sweep _ _ _) as [es [[g f] c]] eqn:E. simpl.
    eapply sweep_inv; eauto using shrinks_clear_keep.
  - unfold cleanup. destruct (sweep _ _ _) as [es [[g f] c]] eqn:E. simpl.
    eapply sweep_inv; eauto. apply shrinks_filter.
Qed.

Lemma new_buffer_inv mb me : buffer_inv (new_buffer mb me).
Proof.
  unfold buffer_inv; simpl. change (count _) with 0.
  split_and!; auto with fleet; [by destruct mb; simpl; lia|by destruct me; simpl; lia].
Qed.

(** ** What stays buffered *)

(** The entry is buffered under [key] and [sub] since [at_]. *)
Definition holds (b : NodeUploadBuffer) (key : NodeKey) (sub : string) (e : entry) (at_ : Z) : Prop :=
  exists subs, dget (entries b) key = Some subs /\ dget subs sub = Some (e, at_).

Lemma put_holds b key sub e now : (put b key sub e now).2 = true -> holds (put b key sub e now).1 key sub e now.
Proof.
  unfold put. case_match; [done|]. intros _. eexists. simpl. split; apply dget_dset_eq.
Qed.

Lemma sweep_dget sel stay es key subs :
  dict_wf es -> dget es key = Some subs -> (sel key = true -> stay subs <> []) ->
  dget (sweep sel stay es).1 key = Some (if sel key then stay subs else subs).
Proof.
  induction es as [|[k s] t IH]; [done|]. unfold dict_wf in *; csimpl.
  intros [Hk Hw]%NoDup_cons. specialize (IH Hw).
  destruct (sweep sel stay t) as [t' [[g f] c]] eqn:E; simpl in *.
  case_bool_decide as Ekey; subst; intros Hd Hne; simplify_eq.
  - destruct (sel key); [|by simpl; rewrite bool_decide_true].
    destruct (stay subs) eqn:Es; [by destruct Hne|]. simpl. by rewrite bool_decide_true.
  - specialize (IH Hd Hne). destruct (sel k); [destruct (stay s)|]; simpl; try done;
      by rewrite bool_decide_false.
Qed.

Lemma dget_filter (P : string * (entry * Z) -> Prop) `{!forall x, Decision (P x)} subs sub v :
  dict_wf subs -> dget subs sub = Some v -> P (sub, v) -> dget (filter P subs) sub = Some v.
Proof.
  intros Hw Hd HP. apply dget_elem; [by apply dict_wf_filter|].
  apply list_elem_of_filter. split; [done|by apply dget_Some_elem].
Qed.

Lemma sweep_holds b sel (P : string * (entry * Z) -> Prop) `{!forall x, Decision (P x)} key sub e at_ es s y :
  buffer_inv b -> holds b key sub e at_ -> P (sub, (e, at_)) ->
  es = (sweep sel (filter P) (entries b)).1 -> holds (set_entries b es s y) key sub e at_.
Proof.
  intros (Hw & Hs & _) (subs & Hk & Hsub) HP ->.
  pose proof (Forall_dget _ _ _ _ Hs Hk) as [Hws _]. simpl in Hws.
  pose proof (dget_filter P _ _ _ Hws Hsub HP) as Hf.
  unfold holds; simpl. rewrite (sweep_dget _ _ _ _ subs); [|done|done|].
  - eexists; split; [done|]. by destruct (sel key).
  - intros _ E. by pose proof (eq_trans (f_equal (fun d => dget d sub) (eq_sym E)) Hf).
Qed.

Lemma put_other_holds b key sub e at_ k s e' now :
  k <> key \/ s <> sub -> holds b key sub e at_ -> holds (put b k s e' now).1 key sub e at_.
Proof.
  intros Hks (subs & Hk & Hsub). unfold put. case_match; simpl; [by exists subs|].
  unfold holds; simpl. rewrite dget_dset. case_bool_decide as E; [subst|by exists subs].
  rewrite Hk. simpl. eexists; split; [done|]. rewrite dget_dset_ne; [done|naive_solver].
Qed.

Lemma ddel_holds b key sub e at_ k s y :
  k <> key -> holds b key sub e at_ ->
  holds (set_entries b (ddel (entries b) k) s y) key sub e at_.
Proof. intros Hk (subs & H1 & H2). exists subs. simpl. by rewrite dget_ddel_ne. Qed.

Lemma buffer_step_holds b key sub e at_ op :
  buffer_inv b -> spares key sub e at_ op -> holds b key sub e at_ ->
  holds (buffer_step b op) key sub e at_.
Proof.
  intros Hb Hsp Hh. destruct op as [k s e' now|k timeout s r now|k|robot keep|max_age now]; simpl in *.
  - by apply put_other_holds.
  - unfold take. destruct (dget (entries b) k); [by apply ddel_holds|done].
  - by apply ddel_holds.
  - unfold clear_robot. destruct (sweep _ _ _) as [es [[g f] c]] eqn:E. simpl.
    destruct (decide (robot = key.1)) as [->|Hr].
    + destruct Hsp as [?|Hsp]; [done|]. destruct keep as [k|]; [|done].
      eapply (sweep_holds b _ (fun p => k p.2.1 = true)); eauto. unfold clear_keep in E. by rewrite E.
    + destruct Hh as (subs & H1 & H2). exists subs. split; [|done]. simpl.
      pose proof (sweep_dget (fun k => bool_decide (k.1 = robot)) (clear_keep keep) (entries b) key subs) as Hs.
      rewrite E in Hs. simpl in Hs. rewrite bool_decide_false in Hs by done.
      destruct Hb as [Hw _]. by apply Hs.
  - unfold cleanup. destruct (sweep _ _ _) as [es [[g f] c]] eqn:E. simpl.
    eapply (sweep_holds b _ (fun p => ~ now - p.2.2 > max_age)); eauto.
    unfold young in E. by rewrite E.
Qed.

Lemma steps_hold b key sub e at_ ops :
  buffer_inv b -> holds b key sub e at_ -> Forall (spares key sub e at_) ops ->
  holds (foldl buffer_step b ops) key sub e at_.
Proof.
  revert b; induction ops as [|op ops IH]; intros b Hb Hh Hs; simpl; [done|].
  apply Forall_cons in Hs as [Hs Hops].
  apply IH; auto using buffer_step_inv, buffer_step_holds.
Qed.

(** ** Properties *)

(** The buffer's accounting is exact and its caps hold. In every state reached by puts, takes,
    pops, clears and cleanups, [bytes] is the total size of what is buffered, the statistic is the
    number of buffered entries, every node kept has at least one entry, and neither the byte cap
    nor the entry cap is exceeded. *)
Theorem upload_buffer_accounting (mb me : option Z) (b : NodeUploadBuffer) :
  reachable buffer_step (new_buffer mb me) b -> buffer_inv b.
Proof. apply reachable_inv; [apply new_buffer_inv|intros; by apply buffer_step_inv]. Qed.

Lemma upload_buffer_accounting_witness :
  buffer_inv (foldl buffer_step (new_buffer (Some 8) (Some 2))
    [OpPut ("r", 1) "front" (mkEntry (Some "abcd") None None) 0;
     OpPut ("r", 1) "front" (mkEntry (Some "abcdef") None None) 1;
     OpPut ("r", 2) "front" (mkEntry (Some "abc") None None) 2;
     OpCleanup 10 20]%string).
Proof. apply (upload_buffer_accounting (Some 8) (Some 2)), reachable_foldl. Defined.

(** An upload that was buffered reaches its node. After a successful [put], whatever happens to
    other nodes and sub-keys, clears of other robots and cleanups that do not find it too old,
    [take] returns the entry (when it is within the timeout and of the node's session and run),
    and leaves nothing buffered for the node. *)
Theorem buffered_upload_taken (mb me : option Z) (b : NodeUploadBuffer) (key : NodeKey)
    (sub : string) (e : entry) (at_ : Z) (ops : list buffer_op) (timeout : Z)
    (session_id run_id : option string) (now : Z) :
  reachable buffer_step (new_buffer mb me) b ->
  (put b key sub e at_).2 = true -> Forall (spares key sub e at_) ops ->
  taken now timeout session_id run_id (e, at_) = true ->
  let b2 := foldl buffer_step (put b key sub e at_).1 ops in
  e ∈ (take b2 key timeout session_id run_id now).2 /\
  dget (entries (take b2 key timeout session_id run_id now).1) key = None.
Proof.
  intros Hr Hp Hs Ht b2. assert (Hb : buffer_inv b).
  { revert Hr. apply reachable_inv; [apply new_buffer_inv|intros; by apply buffer_step_inv]. }
  assert (Hh : holds b2 key sub e at_).
  { apply steps_hold; [by apply put_inv|by apply put_holds|done]. }
  destruct Hh as (subs & H1 & H2). unfold take. rewrite H1. simpl.
  split; [|apply dget_ddel_eq]. apply list_elem_of_fmap. exists (e, at_). split; [done|].
  apply list_elem_of_filter. split; [done|]. apply list_elem_of_fmap.
  exists (sub, (e, at_)). split; [done|]. by apply dget_Some_elem.
Qed.

Lemma buffered_upload_taken_witness :
  let e := mkEntry (Some "abcd") (Some "s1") None in
  e ∈ (take (foldl buffer_step (put (new_buffer None (Some 5)) ("r", 1) "front" e 0).1
        [OpPut ("r", 1) "rear" e 1; OpTake ("r", 2) 9 None None 2; OpClear "q" None; OpCleanup 5 3])
       ("r", 1) 10 (Some "s1") (Some "run7") 4).2%string /\
  dget (entries (take (foldl buffer_step (put (new_buffer None (Some 5)) ("r", 1) "front" e 0).1
        [OpPut ("r", 1) "rear" e 1; OpTake ("r", 2) 9 None None 2; OpClear "q" None; OpCleanup 5 3])
       ("r", 1) 10 (Some "s1") (Some "run7") 4).1) ("r", 1)%string = None.
Proof.
  intros e. apply (buffered_upload_taken None (Some 5) (new_buffer None (Some 5)) ("r", 1) "front" e 0
    [OpPut ("r", 1) "rear" e 1; OpTake ("r", 2) 9 None None 2; OpClear "q" None; OpCleanup 5 3]%string).
  - constructor.
  - reflexivity.
  - repeat constructor; simpl; naive_solver lia.
  - reflexivity.
Defined.

(** ** The id cache *)

Definition cache_pair_step (p : NodeIdCache * gset (string * string)) (op : cache_op)
    : NodeIdCache * gset (string * string) := (cache_step p.1 op, known_step p.2 op).

Definition cache_inv (p : NodeIdCache * gset (string * string)) : Prop :=
  dict_wf (ids p.1) /\ (length (ids p.1) <= max_size p.1)%nat /\
  forall k, k ∈ keys (ids p.1) -> k ∈ p.2.

Lemma elem_keys_dget {K V : Type} `{!EqDecision K} (d : list (K * V)) k :
  k ∈ keys d <-> is_Some (dget d k).
Proof.
  destruct (dget d k) as [v|] eqn:E.
  - split; [eauto|]. intros _. by eapply dget_Some_key.
  - apply dget_None in E. split; [done|]. by intros [? ?].
Qed.

Lemma length_ddel {K V : Type} `{!EqDecision K} (d : list (K * V)) k :
  (length (ddel d k) + (if dmem d k then 1 else 0) <= length d)%nat.
Proof.
  unfold dmem. induction d as [|[j w] t IH]; simpl; [lia|]. case_bool_decide; simpl; [|lia].
  subst. case_match; lia.
Qed.

Lemma length_move_to_end {K V : Type} `{!EqDecision K} (d : list (K * V)) k :
  (length (dmove_to_end d k) <= length d)%nat.
Proof.
  pose proof (length_ddel d k) as Hl. unfold dmem, dmove_to_end in *.
  destruct (dget d k); [|done]. rewrite length_app. simpl. lia.
Qed.

Lemma keys_evict_elem {K V : Type} cap (d : list (K * V)) k : k ∈ keys (evict cap d) -> k ∈ keys d.
Proof.
  destruct (evict_suffix cap d) as [pre Hpre]. rewrite Hpre at 2. rewrite keys_app.
  intros. apply elem_of_app; auto.
Qed.

Lemma cache_step_inv p op : cache_inv p -> cache_inv (cache_pair_step p op).
Proof.
  destruct p as [c known]. intros (Hw & Hl & Hk); simpl in *.
  destruct op as [k|k|k]; unfold cache_inv; simpl in *.
  - unfold cache_contains. destruct (dmem (ids c) k); [|by split_and!]; simpl. split_and!.
    + by apply dict_wf_move_to_end.
    + pose proof (length_move_to_end (ids c) k). lia.
    + intros x Hx%elem_keys_dget. rewrite dget_move_to_end in Hx. by apply Hk, elem_keys_dget.
  - split_and!; [by apply dict_wf_evict, dict_wf_move_to_end, dict_wf_dset|apply evict_length|].
    intros x Hx%keys_evict_elem. apply elem_keys_dget in Hx.
    rewrite dget_move_to_end, dget_dset in Hx. case_bool_decide; [set_solver|].
    apply elem_keys_dget, Hk in Hx. set_solver.
  - split_and!; [by apply dict_wf_ddel|pose proof (length_ddel (ids c) k); lia|].
    intros x Hx. rewrite keys_ddel in Hx. apply list_elem_of_filter in Hx as [? ?%Hk]. set_solver.
Qed.

(** The id cache has no false positives. Over any sequence of lookups, adds and discards
    starting from an empty cache, the cache never holds more than [max_size] ids, and a lookup
    that answers yes is for an id that was added and not discarded since. *)
Theorem node_id_cache_sound (size : nat) (p : NodeIdCache * gset (string * string))
    (key : string * string) :
  reachable cache_pair_step (mkCache size [], ∅) p ->
  (length (ids p.1) <= max_size p.1)%nat /\ ((cache_contains p.1 key).2 = true -> key ∈ p.2).
Proof.
  intros Hr. assert (Hi : cache_inv p).
  { revert Hr. apply reachable_inv; [|intros; by apply cache_step_inv].
    split_and!; [constructor|simpl; lia|]. intros k Hk. by apply elem_of_nil in Hk. }
  destruct Hi as (_ & Hl & Hk). split; [done|]. unfold cache_contains, dmem.
  destruct (dget (ids (p.1)) key) eqn:E; [|done]. intros _. by apply Hk, (dget_Some_key _ _ _ E).
Qed.

Lemma node_id_cache_sound_witness :
  (cache_contains (foldl cache_pair_step (mkCache 2 [], ∅)
     [CAdd ("m", "a"); CAdd ("m", "b"); CContains ("m", "a"); CAdd ("m", "c")]%string).1
     ("m", "a")%string).2 = true /\
  ("m", "a")%string ∈ (foldl cache_pair_step (mkCache 2 [], ∅)
     [CAdd ("m", "a"); CAdd ("m", "b"); CContains ("m", "a"); CAdd ("m", "c")]%string).2.
Proof.
  split; [reflexivity|].
  apply (node_id_cache_sound 2 _ ("m", "a")%string (reachable_foldl _ _ _)). reflexivity.
Defined.
