(* ===== verification/Acks.v ===== *)
(** * Acknowledgements to the robots (packages/services/graph_builder/acks.py)

    [AckManager] tells a robot which of its topomap uploads are durable: an ack per bundle (a node
    and the parts its manifest declares) and a retained high-water mark per robot.

    Modelling choices. Every event method runs under one lock and reads a clock: it is one function
    of the state and of the time [now] (seconds as integers of the clock's unit), returning the new
    state and the messages to publish in order; [send] hands them to MQTT with the return codes as an
    argument. A tracker key is the tuple of robot, run, node id and import session. A node id is an
    integer or another JSON scalar. The text of an ack body is its fields, and the sorted lists of
    parts are finite sets, so two bodies have the same text exactly when they are equal. The tracker
    limit is positive (with 0 the source fails on its own eviction). *)

From Stdlib Require Import Ascii.
From S2P Require Import Prelude PyDict.

(** ** Data *)

Abbreviation Part := (string * string)%type.

(** JSON values of a robot's payload. *)
#[universes(template)]
Inductive jv :=
| JvNull
| JvBool (b : bool)
| JvInt (z : Z)
| JvFloat (us : Z)                     (** a float, in millionths *)
| JvStr (s : string)
| JvList (l : list jv)
| JvObj (fields : list (string * jv)).

Fixpoint jget (fields : list (string * jv)) (k : string) : jv :=
  match fields with
  | [] => JvNull
  | (j, v) :: t => if bool_decide (j = k) then v else jget t k
  end.

Inductive node_ref := IdInt (n : Z) | IdOther (s : string).
#[export] Instance node_ref_eq_dec : EqDecision node_ref.
Proof. solve_decision. Defined.

Inductive Status := ACCEPTED | DUPLICATE | REJECTED.
#[export] Instance Status_eq_dec : EqDecision Status.
Proof. solve_decision. Defined.

Inductive Resend := RESEND_NONE | RESEND_PARTS | RESEND_NODE.
#[export] Instance Resend_eq_dec : EqDecision Resend.
Proof. solve_decision. Defined.

Definition KINDS : list string := ["image"; "depth"; "costmap"]%string.

Definition STORE_FAILED : string := "store_failed".
Definition TERMINAL_REASONS : list string :=
  ["no_session"; "map_deleting"; "map_missing"; "datum_changed"; "run_id_mismatch";
   "invalid_payload"; "session_unknown"; "source_mismatch"]%string.
Definition RETRYABLE_REASONS : list string :=
  ["session_paused"; "session_unplaced"; "lookup_failed"; "buffer_full"; STORE_FAILED;
   "session_busy"]%string.

Definition UNACCEPTED_TTL_FACTOR : Z := 2.
Definition RUNS_SEEN_CAP : nat := 8.
Definition MAX_TIMEOUT_ACKS : nat := 3.
Definition LAST_ACK_CAP : nat := 5000.
Definition ROBOT_CAP : nat := 10000.

(** [valid_topic_level] *)
Definition topic_char (c : ascii) : bool :=
  negb (bool_decide (c = "/"%char) || bool_decide (c = "+"%char) || bool_decide (c = "#"%char)
        || bool_decide (c = "000"%char)).
Fixpoint all_chars (p : ascii -> bool) (s : string) : bool :=
  match s with EmptyString => true | String c t => p c && all_chars p t end.
Definition valid_topic_level (name : string) : bool :=
  negb (bool_decide (name = ""%string)) && all_chars topic_char name.

(** [parse_parts] *)
Definition part_of (item : jv) : option Part :=
  match item with
  | JvObj fields =>
      match jget fields "kind", jget fields "sub" with
      | JvStr kind, JvStr sub =>
          if bool_decide (kind ∈ KINDS) && negb (bool_decide (sub = ""%string))
          then Some (kind, sub) else None
      | _, _ => None
      end
  | _ => None
  end.
Definition parse_parts (value : jv) : option (list Part) :=
  match value with
  | JvList items =>
      Some (foldl (fun parts item =>
                     match part_of item with
                     | Some p => if bool_decide (p ∈ parts) then parts else parts ++ [p]
                     | None => parts
                     end) [] items)
  | _ => None
  end.

(** The tracker key ([_key]): the last component is the import's session, [None] for a live upload. *)
Record key := mkKey { k_robot : string; k_run : option string; k_sid : node_ref; k_ns : option string }.
#[export] Instance key_eq_dec : EqDecision key.
Proof. solve_decision. Defined.

(** [_Entry] *)
Record Entry := mkEntry {
  declared : list Part;
  session_id : option string;
  status : option Status;
  stored : gset Part;
  missing : list (Part * string);
  since : Z;
  timeouts : nat;
}.

(** [_State]; [published_at = None] is minus infinity. *)
Record IState := mkIState {
  st_run : option string;
  highest : Z;
  dirty : bool;
  published_at : option Z;
}.

(** The body of an [ingest_ack] without its timestamp. *)
Record Ack := mkAck {
  a_key : key;
  a_status : option Status;            (** [None] is JSON null *)
  a_reason : option string;
  a_resend : Resend;
  a_stored : gset Part;
  a_missing : gset Part;
  a_complete : option bool;
  a_session : option string;
}.
#[export] Instance Ack_eq_dec : EqDecision Ack.
Proof. solve_decision. Defined.

Inductive out_msg :=
| MAck (a : Ack)
| MState (robot : string) (run_id : option string) (highest_complete_id : Z)
| MMode (robot : string) (register_map : option bool).

(** A [spool_state] as kept by [note_spool]. *)
Record Spool := mkSpool {
  sp_run : jv;
  sp_last : jv;
  sp_depth : jv;
  sp_hold : list (string * jv);
  sp_report : list (string * jv);
  sp_received_ms : Z;
}.

Record AckManager := mkAcks {
  part_timeout : Z;
  max_trackers : nat;
  state_min_interval : Z;
  ack_coalesce : Z;                                    (** [ACK_COALESCE_S] *)
  entries : list (key * Entry);                        (** least recently touched first *)
  last_ack : list (key * (Ack * Z));
  states : list (string * IState);
  runs : list (string * list (option string));
  spool : list (string * Spool);
  modes : list (string * option bool);
  stats : gmap string nat;
}.

(** [__init__]; the counters start at 0. *)
Definition new_acks (timeout : Z) (trackers : nat) (interval coalesce : Z) : AckManager :=
  mkAcks timeout trackers interval coalesce [] [] [] [] [] [] ∅.

Definition set_entries (m : AckManager) (e : list (key * Entry)) : AckManager :=
  mkAcks (part_timeout m) (max_trackers m) (state_min_interval m) (ack_coalesce m) e (last_ack m)
    (states m) (runs m) (spool m) (modes m) (stats m).
Definition set_last (m : AckManager) (l : list (key * (Ack * Z))) : AckManager :=
  mkAcks (part_timeout m) (max_trackers m) (state_min_interval m) (ack_coalesce m) (entries m) l
    (states m) (runs m) (spool m) (modes m) (stats m).
Definition set_states (m : AckManager) (s : list (string * IState)) : AckManager :=
  mkAcks (part_timeout m) (max_trackers m) (state_min_interval m) (ack_coalesce m) (entries m)
    (last_ack m) s (runs m) (spool m) (modes m) (stats m).
Definition set_runs (m : AckManager) (r : list (string * list (option string))) : AckManager :=
  mkAcks (part_timeout m) (max_trackers m) (state_min_interval m) (ack_coalesce m) (entries m)
    (last_ack m) (states m) r (spool m) (modes m) (stats m).
Definition set_spool (m : AckManager) (s : list (string * Spool)) : AckManager :=
  mkAcks (part_timeout m) (max_trackers m) (state_min_interval m) (ack_coalesce m) (entries m)
    (last_ack m) (states m) (runs m) s (modes m) (stats m).
Definition set_modes (m : AckManager) (d : list (string * option bool)) : AckManager :=
  mkAcks (part_timeout m) (max_trackers m) (state_min_interval m) (ack_coalesce m) (entries m)
    (last_ack m) (states m) (runs m) (spool m) d (stats m).
(** [self.stats[name] += n] *)
Definition count (m : AckManager) (name : string) (n : nat) : AckManager :=
  mkAcks (part_timeout m) (max_trackers m) (state_min_interval m) (ack_coalesce m) (entries m)
    (last_ack m) (states m) (runs m) (spool m) (modes m)
    (<[name := default 0 (stats m !! name) + n]> (stats m)).

(** ** Internals *)

(** [_evict] *)
Definition evict_trackers (m : AckManager) : AckManager :=
  count (set_entries m (evict (max_trackers m) (entries m))) "ack_trackers_evicted"
    (length (entries m) - max_trackers m).

(** [_cap] *)
Definition cap {A : Type} (table : list A) : list A := evict ROBOT_CAP table.

(** [_note_run] *)
Definition note_run (m : AckManager) (robot : string) (run_id : option string) : AckManager :=
  if negb (valid_topic_level robot) then m
  else
    let seen := default [] (dget (runs m) robot) in
    let seen' := if bool_decide (run_id ∈ seen) then seen else keep_last RUNS_SEEN_CAP (seen ++ [run_id]) in
    set_runs m (cap (dmove_to_end (dset (runs m) robot seen') robot)).

(** An identical ack of the bundle was sent less than [ACK_COALESCE_S] ago. *)
Definition coalesced (m : AckManager) (now : Z) (a : Ack) : bool :=
  match dget (last_ack m) (a_key a) with
  | Some (b, t) => bool_decide (b = a) && bool_decide (now - t < ack_coalesce m)%Z
  | None => false
  end.

(** [_ack] *)
Definition ack (m : AckManager) (now : Z) (a : Ack) : AckManager * list out_msg :=
  if negb (valid_topic_level (k_robot (a_key a))) then (count m "acks_invalid_robot" 1, [])
  else if coalesced m now a then (count m "acks_coalesced" 1, [])
  else (set_last m (evict LAST_ACK_CAP
                      (dmove_to_end (dset (last_ack m) (a_key a) (a, now)) (a_key a))), [MAck a]).

(** [_maybe_state] on the state of [robot]. *)
Definition maybe_state (m : AckManager) (now : Z) (robot : string) (s : IState)
    : IState * list out_msg :=
  let early := match published_at s with
               | None => false
               | Some t => bool_decide (now - t < state_min_interval m)%Z
               end in
  if negb (dirty s) || early then (s, [])
  else (mkIState (st_run s) (highest s) false (Some now), [MState robot (st_run s) (highest s)]).

(** The new high-water mark of [_complete]; [None] when it is not advanced. *)
Definition advance (s : option IState) (run_id : option string) (sid : Z) : option IState :=
  match s with
  | Some s =>
      if bool_decide (st_run s = run_id)
      then if bool_decide (highest s < sid)%Z
           then Some (mkIState (st_run s) sid true (published_at s)) else None
      else Some (mkIState run_id sid true None)
  | None => Some (mkIState run_id sid true None)
  end.

(** [latest and latest[-1] != run_id] *)
Definition superseded (m : AckManager) (robot : string) (run_id : option string) : bool :=
  match last (default [] (dget (runs m) robot)) with
  | Some latest => negb (bool_decide (latest = run_id))
  | None => false
  end.

(** [_complete] (the cap is a no-op on a table that did not grow). *)
Definition complete (m : AckManager) (now : Z) (k : key) : AckManager * list out_msg :=
  match k_ns k, k_sid k with
  | None, IdInt sid =>
      if negb (valid_topic_level (k_robot k)) || superseded m (k_robot k) (k_run k) then (m, [])
      else
        match advance (dget (states m) (k_robot k)) (k_run k) sid with
        | None => (m, [])
        | Some s =>
            let (s', out) := maybe_state m now (k_robot k) s in
            (set_states m (cap (dset (states m) (k_robot k) s')), out)
        end
  | _, _ => (m, [])
  end.

Definition first_terminal (miss : list (Part * string)) : option string :=
  find_first (fun r => bool_decide (r ∈ TERMINAL_REASONS)) (values miss).

Definition parts_set (l : list Part) : gset Part := list_to_set l.

(** [_final] *)
Definition final (m : AckManager) (now : Z) (k : key) (e : Entry) : AckManager * list out_msg :=
  match missing e with
  | [] =>
      let (m1, o1) := ack m now (mkAck k (status e) None RESEND_NONE
                                   (parts_set (declared e)) ∅ (Some true) (session_id e)) in
      let m2 := set_entries m1 (ddel (entries m1) k) in
      let (m3, o2) := complete m2 now k in
      (m3, o1 ++ o2)
  | (_, reason) :: _ =>
      match first_terminal (missing e) with
      | Some r =>
          let (m1, o1) := ack m now (mkAck k (Some REJECTED) (Some r) RESEND_NONE (stored e)
                                       (parts_set (keys (missing e))) (Some false) (session_id e)) in
          (set_entries m1 (ddel (entries m1) k), o1)
      | None =>
          let (m1, o1) := ack m now (mkAck k (status e) (Some reason) RESEND_PARTS
                                       (stored e) (parts_set (keys (missing e))) (Some false)
                                       (session_id e)) in
          (set_entries m1 (dset (entries m1) k
             (mkEntry (declared e) (session_id e) (status e) (stored e) [] now (timeouts e))), o1)
      end
  end.

Definition pending (e : Entry) : list Part := filter (fun p => p ∉ stored e) (declared e).

(** [_evaluate], on the entry as it was just changed. *)
Definition evaluate (m : AckManager) (now : Z) (k : key) (e : Entry) : AckManager * list out_msg :=
  if existsb (fun p => bool_decide (p ∉ stored e) && negb (dmem (missing e) p)) (declared e)
  then (m, [])
  else final m now k e.

(** ** Events *)

Definition mk_ack (k : key) (st : Status) (reason : option string) (rs : Resend)
    (sto mis : gset Part) (c : option bool) (session : option string) : Ack :=
  mkAck k (Some st) reason rs sto mis c session.

(** [begin] *)
Definition begin (m : AckManager) (now : Z) (k : key) (manifest : option (list Part))
    (session : option string) : AckManager :=
  match manifest with
  | None | Some [] => m
  | Some parts =>
      match dget (entries m) k with
      | None => evict_trackers (set_entries m (dset (entries m) k (mkEntry parts session None ∅ [] now 0)))
      | Some e =>
          set_entries m (dmove_to_end
            (dset (entries m) k
               (mkEntry parts session (status e) (stored e) (missing e) (since e) (timeouts e))) k)
      end
  end.

(** The tracker of an accepted node, created if it was not begun. *)
Definition accept_entry (m : AckManager) (now : Z) (k : key) (st : Status) (session : option string)
    (parts : list Part) (truth : gset Part) : AckManager * Entry :=
  let '(m1, e) := match dget (entries m) k with
                  | Some e => (m, e)
                  | None => let e := mkEntry parts session None ∅ [] 0 0 in
                            (evict_trackers (set_entries m (dset (entries m) k e)), e)
                  end in
  let e' := mkEntry parts session (Some st) (stored e ∪ truth) [] now (timeouts e) in
  (set_entries m1 (dmove_to_end (dset (entries m1) k e') k), e').

(** [node_ok]; [truth] is empty when the caller passes none. *)
Definition node_ok (m : AckManager) (now : Z) (k : key) (st : Status) (session : option string)
    (manifest : option (list Part)) (truth : gset Part) : AckManager * list out_msg :=
  let m0 := match k_ns k with None => note_run m (k_robot k) (k_run k) | Some _ => m end in
  match manifest with
  | None =>
      ack (set_entries m0 (ddel (entries m0) k)) now (mk_ack k st None RESEND_NONE ∅ ∅ None session)
  | Some [] =>
      let (m1, o1) := ack (set_entries m0 (ddel (entries m0) k)) now
                        (mk_ack k st None RESEND_NONE ∅ ∅ (Some true) session) in
      let (m2, o2) := complete m1 now k in
      (m2, o1 ++ o2)
  | Some parts =>
      let (m1, e) := accept_entry m0 now k st session parts truth in
      match pending e with
      | [] => final m1 now k e
      | _ =>
          ack m1 now (mk_ack k st None (if bool_decide (st = DUPLICATE) then RESEND_PARTS else RESEND_NONE)
                        (stored e) (parts_set (pending e)) (Some false) session)
      end
  end.

(** [node_failed] *)
Definition node_failed (m : AckManager) (now : Z) (k : key) (reason : string)
    (manifest : option (list Part)) (session : option string) : AckManager * list out_msg :=
  ack (set_entries m (ddel (entries m) k)) now
    (mk_ack k REJECTED (Some reason)
       (if bool_decide (reason ∈ RETRYABLE_REASONS) then RESEND_NODE else RESEND_NONE)
       ∅ (parts_set (default [] manifest)) (Some false) session).

(** [node_abandoned] *)
Definition node_abandoned (m : AckManager) (now : Z) (k : key) (manifest : option (list Part))
    (session : option string) : AckManager * list out_msg :=
  match dget (entries m) k with
  | Some e => match status e with
              | None => node_failed m now k STORE_FAILED manifest session
              | Some _ => (m, [])
              end
  | None => (m, [])
  end.

(** [part_stored] *)
Definition part_stored (m : AckManager) (now : Z) (k : key) (p : Part) : AckManager * list out_msg :=
  match dget (entries m) k with
  | None => (m, [])
  | Some e =>
      let e' := mkEntry (declared e) (session_id e) (status e) ({[p]} ∪ stored e)
                  (ddel (missing e) p) (since e) (timeouts e) in
      let m' := set_entries m (dset (entries m) k e') in
      match status e with Some _ => evaluate m' now k e' | None => (m', []) end
  end.

(** [part_rejected] *)
Definition part_rejected (m : AckManager) (now : Z) (k : key) (p : Part) (reason : string)
    (session : option string) : AckManager * list out_msg :=
  let alone := ack m now (mk_ack k REJECTED (Some reason)
                 (if bool_decide (reason ∈ RETRYABLE_REASONS) then RESEND_PARTS else RESEND_NONE)
                 ∅ {[p]} (Some false) session) in
  match dget (entries m) k with
  | None => alone
  | Some e =>
      if bool_decide (p ∈ stored e) then (m, [])
      else match status e with
           | Some _ =>
               if bool_decide (p ∈ declared e) then
                 let e' := mkEntry (declared e) (session_id e) (status e) (stored e)
                             (dset (missing e) p reason) (since e) (timeouts e) in
                 evaluate (set_entries m (dset (entries m) k e')) now k e'
               else alone
           | None => alone
           end
  end.

(** The loop body of [flush] over a copy of the trackers. *)
Definition flush_entry (now : Z) (acc : AckManager * list out_msg) (ke : key * Entry)
    : AckManager * list out_msg :=
  let (m, out) := acc in
  let (k, e) := ke in
  match status e with
  | None =>
      if bool_decide (part_timeout m * UNACCEPTED_TTL_FACTOR <= now - since e)%Z
      then (count (set_entries m (ddel (entries m) k)) "ack_trackers_evicted" 1, out)
      else (m, out)
  | Some st =>
      if bool_decide (now - since e < part_timeout m)%Z then (m, out)
      else
        let m1 := count m "ack_timeouts" 1 in
        let (m2, o) := match pending e with
                       | [] => (m1, [])
                       | _ => ack m1 now (mk_ack k st None RESEND_PARTS (stored e)
                                            (parts_set (pending e)) (Some false) (session_id e))
                       end in
        let e' := mkEntry (declared e) (session_id e) (status e) (stored e) [] now (S (timeouts e)) in
        if bool_decide (pending e = []) || bool_decide (MAX_TIMEOUT_ACKS <= S (timeouts e))
        then (set_entries m2 (ddel (entries m2) k), out ++ o)
        else (set_entries m2 (dset (entries m2) k e'), out ++ o)
  end.

(** The loop of [flush] over the states. *)
Definition flush_states (m : AckManager) (now : Z) : AckManager * list out_msg :=
  (set_states m ((fun p => (p.1, (maybe_state m now p.1 p.2).1)) <$> states m),
   concat ((fun p => (maybe_state m now p.1 p.2).2) <$> states m)).

(** [flush] *)
Definition flush (m : AckManager) (now : Z) : AckManager * list out_msg :=
  let (m1, o1) := foldl (flush_entry now) (m, []) (entries m) in
  let (m2, o2) := flush_states m1 now in
  (m2, o1 ++ o2).

(** [seed_state] of an integer id. *)
Definition seed_state (m : AckManager) (robot : string) (run_id : option string) (seeded : Z)
    : AckManager * bool :=
  if negb (valid_topic_level robot) then (m, false)
  else
    match dget (states m) robot with
    | None => (set_states m (cap (dset (states m) robot (mkIState run_id seeded false None))), true)
    | Some s =>
        if negb (bool_decide (st_run s = run_id)) then (m, false)
        else if bool_decide (highest s < seeded)%Z
        then (set_states m (dset (states m) robot
                (mkIState (st_run s) seeded (match published_at s with Some _ => true | None => false end)
                   (published_at s))), true)
        else if bool_decide (seeded < highest s)%Z
        then (set_states m (dset (states m) robot
                (mkIState (st_run s) (highest s) true (published_at s))), false)
        else (m, false)
    end.

(** *** ingest_mode *)

(** [_cap_modes]: the first entry that is not [False] goes first. *)
Fixpoint drop_not_false (d : list (string * option bool)) : option (list (string * option bool)) :=
  match d with
  | [] => None
  | (r, v) :: t =>
      if bool_decide (v = Some false) then cons (r, v) <$> drop_not_false t else Some t
  end.
Fixpoint cap_modes_loop (fuel cap : nat) (d : list (string * option bool))
    : list (string * option bool) :=
  match fuel with
  | 0 => d
  | S f =>
      if bool_decide (length d <= cap) then d
      else cap_modes_loop f cap (match drop_not_false d with Some d' => d' | None => tail d end)
  end.
Definition cap_modes_at (cap : nat) (d : list (string * option bool)) : list (string * option bool) :=
  cap_modes_loop (length d) cap d.
Definition cap_modes : list (string * option bool) -> list (string * option bool) :=
  cap_modes_at ROBOT_CAP.

(** [seed_mode] of a JSON object. *)
Definition seed_mode (m : AckManager) (robot : string) (register_map : jv) : AckManager :=
  if negb (valid_topic_level robot) || dmem (modes m) robot then m
  else set_modes m (cap_modes (dset (modes m) robot
         (match register_map with JvBool b => Some b | _ => None end))).

(** [note_mode] up to the publication: the previous value (or its absence) and the message. *)
Definition note_mode_begin (m : AckManager) (robot : string) (register_map : option bool)
    : AckManager * option (option (option bool) * out_msg) :=
  if negb (valid_topic_level robot) then (m, None)
  else
    match dget (modes m) robot, register_map with
    | None, None => (m, None)
    | prev, _ =>
        if bool_decide (prev = Some register_map) then (m, None)
        else (set_modes m (cap_modes (dmove_to_end (dset (modes m) robot register_map) robot)),
              Some (prev, MMode robot register_map))
    end.

(** [note_mode] after a publication MQTT did not accept. *)
Definition note_mode_rollback (m : AckManager) (robot : string) (register_map : option bool)
    (prev : option (option bool)) : AckManager :=
  if bool_decide (default None (dget (modes m) robot) = register_map)
  then match prev with
       | Some v => set_modes m (dset (modes m) robot v)
       | None => set_modes m (ddel (modes m) robot)
       end
  else m.

(** *** Publishing *)

Inductive rc := RcRaised | RcNone | Rc (code : Z).
Definition MQTT_ERR_NO_CONN : Z := 4.
Definition MQTT_ERR_QUEUE_SIZE : Z := 15.

(** One message of [_send]: its counter, and whether MQTT took it. *)
Definition send_one (m : AckManager) (msg : out_msg) (r : rc) : AckManager * bool :=
  match r with
  | RcRaised => (count m "acks_failed" 1, false)
  | RcNone => (count m "acks_dropped" 1, false)
  | Rc code =>
      if bool_decide (code = MQTT_ERR_QUEUE_SIZE) then (count m "acks_dropped" 1, false)
      else if bool_decide (code = 0%Z) || bool_decide (code = MQTT_ERR_NO_CONN)
      then (count m (match msg with
                     | MMode _ _ => "ingest_mode_published"
                     | MState _ _ _ => "ingest_state_published"
                     | MAck _ => "acks_sent"
                     end) 1, true)
      else (count m "acks_failed" 1, false)
  end.

(** [_send]: the return codes come from MQTT, one per message. *)
Fixpoint send (m : AckManager) (out : list out_msg) (rcs : list rc) : AckManager * list bool :=
  match out with
  | [] => (m, [])
  | msg :: rest =>
      let (m1, ok) := send_one m msg (default RcNone (head rcs)) in
      let (m2, oks) := send m1 rest (tail rcs) in
      (m2, ok :: oks)
  end.

(** [note_mode]: returns whether it published. *)
Definition note_mode (m : AckManager) (robot : string) (register_map : option bool) (r : rc)
    : AckManager * bool :=
  match note_mode_begin m robot register_map with
  | (m1, None) => (m1, false)
  | (m1, Some (prev, msg)) =>
      match send m1 [msg] [r] with
      | (m2, [true]) => (m2, true)
      | (m2, _) => (note_mode_rollback m2 robot register_map prev, false)
      end
  end.

(** [mode_robots] *)
Definition mode_robots (m : AckManager) : list string :=
  omap (fun p => match p.2 with Some _ => Some p.1 | None => None end) (modes m).

(** *** spool_state *)

Definition SPOOL_REPORT_MAX_FIELDS : nat := 12.
Definition SPOOL_REPORT_MAX_STR : nat := 120.
Definition SPOOL_HOLD_FIELDS : list string :=
  ["hold"; "leftovers"; "latched"; "latch_reason"; "last_progress_age_s"]%string.
Definition SPOOL_CONTRACT_FIELDS : list string :=
  ["run_id"; "last_spooled_id"; "depth"]%string ++ SPOOL_HOLD_FIELDS.

(** The value kept for a report field, if any. *)
Definition report_value (k : string) (v : jv) : option jv :=
  if bool_decide (k ∈ SPOOL_CONTRACT_FIELDS) || bool_decide (k = ""%string)
     || bool_decide (40 < String.length k)
  then None
  else match v with
       | JvStr s => Some (JvStr (String.substring 0 SPOOL_REPORT_MAX_STR s))
       | JvNull | JvBool _ | JvInt _ | JvFloat _ => Some v
       | JvList _ | JvObj _ => None
       end.

(** [_spool_report]; a payload is a JSON object, its keys are distinct. *)
Definition spool_report (payload : list (string * jv)) : list (string * jv) :=
  foldl (fun out p =>
           if bool_decide (SPOOL_REPORT_MAX_FIELDS <= length out) then out
           else match report_value p.1 p.2 with Some v => out ++ [(p.1, v)] | None => out end)
    [] payload.

Definition hold_scalar (v : jv) : bool :=
  match v with JvStr _ | JvInt _ | JvFloat _ | JvBool _ => true | _ => false end.
Definition spool_hold (payload : list (string * jv)) : list (string * jv) :=
  omap (fun k => if hold_scalar (jget payload k) then Some (k, jget payload k) else None)
    SPOOL_HOLD_FIELDS.

(** [note_spool] *)
Definition note_spool (m : AckManager) (robot : string) (payload : jv) (wall_ms : Z)
    : AckManager * bool :=
  match payload with
  | JvObj fields =>
      if negb (valid_topic_level robot) then (m, false)
      else
        let s := mkSpool (jget fields "run_id") (jget fields "last_spooled_id") (jget fields "depth")
                   (spool_hold fields) (spool_report fields) wall_ms in
        (set_spool m (cap (dmove_to_end (dset (spool m) robot s) robot)), true)
  | _ => (m, false)
  end.

(** The parts of [backlog] the Finish gate reads. *)
Record Backlog := mkBacklog {
  bl_run : jv;
  bl_known : bool;
  bl_pending : bool;
  bl_depth : option Z;
  bl_highest : option Z;
  bl_open_trackers : nat;
}.

Definition jv_run (r : option string) : jv := match r with Some s => JvStr s | None => JvNull end.

(** [x == y] on run ids, which are strings or null. *)
Definition same_run (a b : jv) : bool :=
  match a, b with
  | JvNull, JvNull => true
  | JvStr s, JvStr t => bool_decide (s = t)
  | _, _ => false
  end.

(** The run [backlog] is about when the caller names none. *)
Definition current_run (m : AckManager) (robot : string) : jv :=
  let seen := default [] (dget (runs m) robot) in
  let spool_run := match dget (spool m) robot with Some s => sp_run s | None => JvNull end in
  if negb (same_run spool_run JvNull) && negb (existsb (fun r => same_run spool_run (jv_run r)) seen)
  then spool_run
  else
    let run := match last seen with
               | Some r => jv_run r
               | None => match dget (states m) robot with Some s => jv_run (st_run s) | None => JvNull end
               end in
    if same_run run JvNull then spool_run else run.

(** [backlog] *)
Definition backlog (m : AckManager) (robot : string) (run_id : option string) : Backlog :=
  let run := match run_id with Some r => JvStr r | None => current_run m robot end in
  let depth := match dget (spool m) robot with
               | Some s => if same_run (sp_run s) run
                           then match sp_depth s with
                                | JvInt d => if bool_decide (0 <= d)%Z then Some d else None
                                | _ => None
                                end
                           else None
               | None => None
               end in
  mkBacklog run (match depth with Some _ => true | None => false end)
    (match depth with Some d => bool_decide (0 < d)%Z | None => false end)
    depth
    (match dget (states m) robot with
     | Some s => if same_run (jv_run (st_run s)) run then Some (highest s) else None
     | None => None
     end)
    (length (filter (fun p : key * Entry =>
       k_ns p.1 = None /\ k_robot p.1 = robot /\ same_run (jv_run (k_run p.1)) run = true) (entries m))).

(** *** Runs of the service *)

Inductive event :=
| Begin (k : key) (manifest : option (list Part)) (session : option string)
| NodeOk (k : key) (st : Status) (session : option string) (manifest : option (list Part))
    (truth : gset Part)
| NodeFailed (k : key) (reason : string) (manifest : option (list Part)) (session : option string)
| NodeAbandoned (k : key) (manifest : option (list Part)) (session : option string)
| PartStored (k : key) (p : Part)
| PartRejected (k : key) (p : Part) (reason : string) (session : option string)
| Flush
| SeedState (robot : string) (run_id : option string) (seeded : Z)
| NoteSpool (robot : string) (payload : jv) (wall_ms : Z).

Definition handle (m : AckManager) (te : Z * event) : AckManager * list out_msg :=
  let (now, e) := te in
  match e with
  | Begin k man s => (begin m now k man s, [])
  | NodeOk k st s man truth => node_ok m now k st s man truth
  | NodeFailed k r man s => node_failed m now k r man s
  | NodeAbandoned k man s => node_abandoned m now k man s
  | PartStored k p => part_stored m now k p
  | PartRejected k p r s => part_rejected m now k p r s
  | Flush => flush m now
  | SeedState robot run z => ((seed_state m robot run z).1, [])
  | NoteSpool robot payload ms => ((note_spool m robot payload ms).1, [])
  end.

(** ** Lemmas *)

(** *** What the internals leave alone *)

Lemma ack_same m now a :
  let m' := (ack m now a).1 in
  entries m' = entries m /\ states m' = states m /\ runs m' = runs m /\ spool m' = spool m
  /\ modes m' = modes m /\ part_timeout m' = part_timeout m /\ max_trackers m' = max_trackers m
  /\ state_min_interval m' = state_min_interval m /\ ack_coalesce m' = ack_coalesce m.
Proof.
  unfold ack. destruct (negb _); [done|]. by destruct (coalesced m now a).
Qed.

Lemma ack_out m now a msg : msg ∈ (ack m now a).2 -> msg = MAck a.
Proof.
  unfold ack. destruct (negb _); simpl; [by intros ?%elem_of_nil|].
  destruct (coalesced m now a); simpl; [by intros ?%elem_of_nil|].
  by intros ?%list_elem_of_singleton.
Qed.

Lemma complete_same m now k :
  let m' := (complete m now k).1 in
  entries m' = entries m /\ last_ack m' = last_ack m /\ runs m' = runs m /\ spool m' = spool m
  /\ modes m' = modes m /\ part_timeout m' = part_timeout m /\ max_trackers m' = max_trackers m
  /\ state_min_interval m' = state_min_interval m /\ ack_coalesce m' = ack_coalesce m.
Proof.
  unfold complete. destruct (k_ns k), (k_sid k); try done. destruct (_ || _); [done|].
  destruct (advance _ _ _) as [s|]; [|done]. by destruct (maybe_state m now (k_robot k) s).
Qed.

Lemma complete_out m now k msg : msg ∈ (complete m now k).2 -> exists r run h, msg = MState r run h.
Proof.
  unfold complete. destruct (k_ns k), (k_sid k); try (by intros ?%elem_of_nil).
  destruct (_ || _); [by intros ?%elem_of_nil|].
  destruct (advance _ _ _) as [s|]; [|by intros ?%elem_of_nil].
  unfold maybe_state. destruct (_ || _); simpl; [by intros ?%elem_of_nil|].
  intros ->%list_elem_of_singleton. eauto.
Qed.

Lemma note_run_same m robot run :
  let m' := note_run m robot run in
  entries m' = entries m /\ last_ack m' = last_ack m /\ states m' = states m /\ spool m' = spool m
  /\ modes m' = modes m /\ part_timeout m' = part_timeout m /\ max_trackers m' = max_trackers m
  /\ state_min_interval m' = state_min_interval m /\ ack_coalesce m' = ack_coalesce m.
Proof. unfold note_run. by destruct (negb _). Qed.

(** *** The trackers *)

(** A property of a tracker's manifest, stored parts and timeouts. *)
Abbreviation tracker_prop := (key -> list Part -> gset Part -> nat -> Prop).

Definition on_entry (Q : tracker_prop) (k : key) (e : Entry) : Prop :=
  Q k (declared e) (stored e) (timeouts e).

(** Every tracker satisfies [Q]. *)
Definition trackers (Q : tracker_prop) (m : AckManager) : Prop :=
  Forall (fun p => on_entry Q p.1 p.2) (entries m).

(** An ack says complete only for an empty manifest, or for one whose parts are all stored. *)
Definition sound_msg (Q : tracker_prop) (ev : event) (msg : out_msg) : Prop :=
  match msg with
  | MAck a =>
      a_complete a = Some true ->
      (a_stored a = ∅ /\ exists st s truth, ev = NodeOk (a_key a) st s (Some []) truth)
      \/ exists d sto to, Q (a_key a) d sto to /\ a_stored a = parts_set d /\ forall p, p ∈ d -> p ∈ sto
  | _ => True
  end.

(** What an event may do to a tracker. *)
Definition tracker_step (Q Q' : tracker_prop) (ev : event) : Prop :=
  (forall k d sto to, Q k d sto to -> Q' k d sto to) /\
  match ev with
  | Begin k (Some parts) _ =>
      Q' k parts ∅ 0 /\ forall d sto to, Q k d sto to -> Q' k parts sto to
  | NodeOk k _ _ (Some parts) truth =>
      Q' k parts ∅ 0 /\ Q' k parts truth 0 /\ forall d sto to, Q k d sto to -> Q' k parts (sto ∪ truth) to
  | PartStored k p => forall d sto to, Q k d sto to -> Q' k d ({[p]} ∪ sto) to
  | Flush => forall k d sto to, Q k d sto to -> S to < MAX_TIMEOUT_ACKS -> Q' k d sto (S to)
  | _ => True
  end.

Lemma Forall_move_to_end {V : Type} (R : key * V -> Prop) d k : Forall R d -> Forall R (dmove_to_end d k).
Proof.
  intros H. unfold dmove_to_end. destruct (dget d k) as [v|] eqn:E; [|done].
  apply Forall_app. split; [by apply Forall_ddel|]. constructor; [|constructor].
  apply (Forall_dget _ _ _ _ H E).
Qed.

Lemma Forall_evict {A : Type} (R : A -> Prop) n l : Forall R l -> Forall R (evict n l).
Proof.
  intros H. destruct (evict_suffix n l) as [l' Hl]. rewrite Hl, Forall_app in H. apply H.
Qed.

Section trackers.
Context (Q : tracker_prop).

Lemma trackers_mono (Q0 : tracker_prop) m :
  (forall k d sto to, Q0 k d sto to -> Q k d sto to) -> trackers Q0 m -> trackers Q m.
Proof. intros H Hm. eapply Forall_impl; [exact Hm|]. intros p. apply H. Qed.

Lemma trackers_get m k e : trackers Q m -> dget (entries m) k = Some e -> on_entry Q k e.
Proof. intros H E. apply (Forall_dget _ _ _ _ H E). Qed.

Lemma trackers_set m k e :
  trackers Q m -> on_entry Q k e -> trackers Q (set_entries m (dset (entries m) k e)).
Proof. intros H HQ. by apply Forall_dset. Qed.

Lemma trackers_del m k : trackers Q m -> trackers Q (set_entries m (ddel (entries m) k)).
Proof. intros H. by apply Forall_ddel. Qed.

Lemma trackers_ack m now a : trackers Q m -> trackers Q (ack m now a).1.
Proof. unfold trackers. by rewrite (proj1 (ack_same m now a)). Qed.

Lemma trackers_complete m now k : trackers Q m -> trackers Q (complete m now k).1.
Proof. unfold trackers. by rewrite (proj1 (complete_same m now k)). Qed.

(** An ack that does not say complete. *)
Lemma sound_partial ev m now a :
  a_complete a <> Some true -> Forall (sound_msg Q ev) (ack m now a).2.
Proof. intros Ha. apply Forall_forall. intros msg ->%ack_out Hc. by destruct (Ha Hc). Qed.

Lemma sound_states ev m now k : Forall (sound_msg Q ev) (complete m now k).2.
Proof. apply Forall_forall. intros msg (r & run & h & ->)%complete_out. done. Qed.

Lemma trackers_final ev m now k e :
  (forall p, p ∈ declared e -> p ∈ stored e \/ p ∈ keys (missing e)) ->
  trackers Q m -> on_entry Q k e ->
  trackers Q (final m now k e).1 /\ Forall (sound_msg Q ev) (final m now k e).2.
Proof.
  intros Hall Hm He. unfold final. destruct (missing e) as [|[p r] l] eqn:Em; [|destruct (first_terminal _)].
  - set (a := mkAck _ _ _ _ _ _ _ _). pose proof (trackers_ack m now a Hm) as H1.
    assert (Ho : Forall (sound_msg Q ev) (ack m now a).2).
    { apply Forall_forall. intros msg ->%ack_out. intros _. right.
      exists (declared e), (stored e), (timeouts e). split_and!; [done|done|].
      intros q Hq. destruct (Hall q Hq) as [|Hn]; [done|]. by apply elem_of_nil in Hn. }
    destruct (ack m now a) as [m1 o1]. simpl in *.
    pose proof (trackers_complete _ now k (trackers_del m1 k H1)) as H2.
    pose proof (sound_states ev (set_entries m1 (ddel (entries m1) k)) now k) as H3.
    destruct (complete _ _ _) as [m3 o3]. simpl in *. split; [done|]. by apply Forall_app.
  - set (a := mkAck _ _ _ _ _ _ _ _). pose proof (trackers_ack m now a Hm) as H1.
    assert (Ho : Forall (sound_msg Q ev) (ack m now a).2) by by apply sound_partial.
    destruct (ack m now a) as [m1 o1]. split; [by apply trackers_del|done].
  - set (a := mkAck _ _ _ _ _ _ _ _). pose proof (trackers_ack m now a Hm) as H1.
    assert (Ho : Forall (sound_msg Q ev) (ack m now a).2) by by apply sound_partial.
    destruct (ack m now a) as [m1 o1]. split; [by apply trackers_set|done].
Qed.

Lemma trackers_evaluate ev m now k e :
  trackers Q m -> on_entry Q k e ->
  trackers Q (evaluate m now k e).1 /\ Forall (sound_msg Q ev) (evaluate m now k e).2.
Proof.
  intros Hm He. unfold evaluate. destruct (existsb _ _) eqn:E; [by split|].
  apply trackers_final; [|done|done]. intros p Hp.
  destruct (decide (p ∈ stored e)); [auto|right].
  destruct (decide (p ∈ keys (missing e))) as [|Hn]; [done|]. exfalso.
  rewrite <-not_true_iff_false in E. apply E. apply existsb_exists. exists p.
  split; [by apply list_elem_of_In|]. rewrite bool_decide_true by done. unfold dmem.
  by rewrite (proj2 (dget_None _ _) Hn).
Qed.
End trackers.

Section handlers.
Context (Q Q' : tracker_prop).

Lemma trackers_begin m now k man ses :
  tracker_step Q Q' (Begin k man ses) -> trackers Q m -> trackers Q' (begin m now k man ses).
Proof.
  intros [Hmono Hev] Hm. pose proof (trackers_mono _ _ m Hmono Hm) as Hm'. unfold begin.
  destruct man as [[|p ps]|]; try done. destruct Hev as [Hnew Hold].
  destruct (dget (entries m) k) as [e|] eqn:E.
  - apply Forall_move_to_end, Forall_dset; [done|]. apply (Hold (declared e)).
    apply (trackers_get Q m k e Hm E).
  - apply Forall_evict, Forall_dset; done.
Qed.

Lemma trackers_accept m now k st ses parts truth :
  tracker_step Q Q' (NodeOk k st ses (Some parts) truth) -> trackers Q m ->
  let '(m1, e) := accept_entry m now k st ses parts truth in
  trackers Q' m1 /\ on_entry Q' k e /\ declared e = parts /\ missing e = [].
Proof.
  intros (Hmono & Hnil & Hnew & Hold) Hm. pose proof (trackers_mono _ _ m Hmono Hm) as Hm'.
  unfold accept_entry.
  destruct (dget (entries m) k) as [e|] eqn:E.
  - assert (on_entry Q' k (mkEntry parts ses (Some st) (stored e ∪ truth) [] now (timeouts e))).
    { apply (Hold (declared e)). apply (trackers_get Q m k e Hm E). }
    split_and!; try done. by apply Forall_move_to_end, Forall_dset.
  - assert (on_entry Q' k (mkEntry parts ses (Some st) (∅ ∪ truth) [] now 0)).
    { unfold on_entry. simpl. by rewrite (left_id_L ∅ (∪)). }
    split_and!; try done. apply Forall_move_to_end, Forall_dset; [|done].
    by apply Forall_evict, Forall_dset.
Qed.

Lemma pending_nil e p : pending e = [] -> p ∈ declared e -> p ∈ stored e.
Proof.
  intros H Hp. destruct (decide (p ∈ stored e)) as [|Hn]; [done|]. exfalso.
  assert (p ∈ pending e) as Hin by by apply list_elem_of_filter. rewrite H in Hin. by apply elem_of_nil in Hin.
Qed.

Lemma trackers_node_ok m now k st ses man truth :
  let ev := NodeOk k st ses man truth in
  tracker_step Q Q' ev -> trackers Q m ->
  trackers Q' (node_ok m now k st ses man truth).1
  /\ Forall (sound_msg Q' ev) (node_ok m now k st ses man truth).2.
Proof.
  intros ev Hstep Hm. unfold node_ok.
  set (m0 := match k_ns k with None => _ | Some _ => m end).
  assert (Hm0 : trackers Q m0).
  { unfold m0. destruct (k_ns k); [done|]. unfold trackers. by rewrite (proj1 (note_run_same _ _ _)). }
  pose proof (trackers_mono _ _ m0 (proj1 Hstep) Hm0) as Hm0'.
  pose proof (trackers_del Q' m0 k Hm0') as Hdel.
  destruct man as [[|p ps]|].
  - set (a := mk_ack _ _ _ _ _ _ _ _). set (md := set_entries m0 _) in *.
    pose proof (trackers_ack Q' md now a Hdel) as H1.
    assert (Ho : Forall (sound_msg Q' ev) (ack md now a).2).
    { apply Forall_forall. intros msg ->%ack_out _. left. split; [done|]. by exists st, ses, truth. }
    destruct (ack md now a) as [m1 o1]. simpl in *.
    pose proof (trackers_complete Q' m1 now k H1) as H2. pose proof (sound_states Q' ev m1 now k) as H3.
    destruct (complete m1 now k) as [m2 o2]. split; [done|]. by apply Forall_app.
  - pose proof (trackers_accept m0 now k st ses (p :: ps) truth Hstep Hm0) as H.
    destruct (accept_entry _ _ _ _ _ _ _) as [m1 e]. destruct H as (H1 & He & Hd & Hmi).
    destruct (pending e) as [|x l] eqn:Ep.
    + apply trackers_final; [|done|done]. intros q Hq. left. by eapply pending_nil.
    + split; [by apply trackers_ack|by apply sound_partial].
  - split; [by apply trackers_ack|by apply sound_partial].
Qed.

Lemma trackers_part_stored m now k p :
  let ev := PartStored k p in
  tracker_step Q Q' ev -> trackers Q m ->
  trackers Q' (part_stored m now k p).1 /\ Forall (sound_msg Q' ev) (part_stored m now k p).2.
Proof.
  intros ev [Hmono Hev] Hm. pose proof (trackers_mono _ _ m Hmono Hm) as Hm'. unfold part_stored.
  destruct (dget (entries m) k) as [e|] eqn:E; [|by split]. set (e' := mkEntry _ _ _ _ _ _ _).
  assert (He' : on_entry Q' k e') by (apply (Hev (declared e)), (trackers_get Q m k e Hm E)).
  pose proof (trackers_set Q' m k e' Hm' He') as Hs.
  destruct (status e); [by apply trackers_evaluate|by split].
Qed.

Lemma trackers_part_rejected m now k p r ses ev :
  (forall k d sto to, Q k d sto to -> Q' k d sto to) -> trackers Q m ->
  trackers Q' (part_rejected m now k p r ses).1 /\ Forall (sound_msg Q' ev) (part_rejected m now k p r ses).2.
Proof.
  intros Hmono Hm. pose proof (trackers_mono _ _ m Hmono Hm) as Hm'. unfold part_rejected.
  assert (Ha : forall a, a_complete a = Some false ->
            trackers Q' (ack m now a).1 /\ Forall (sound_msg Q' ev) (ack m now a).2).
  { intros a Ha. split; [by apply trackers_ack|apply sound_partial; by rewrite Ha]. }
  destruct (dget (entries m) k) as [e|] eqn:E; [|by apply Ha].
  case_bool_decide; [by split|]. destruct (status e); [|by apply Ha].
  case_bool_decide; [|by apply Ha]. apply trackers_evaluate; [apply trackers_set; [done|]|];
    apply Hmono, (trackers_get Q m k e Hm E).
Qed.

(** One tracker in [flush]; the copy [l] being walked satisfies [Q], what is kept [Q']. *)
Lemma trackers_flush_entry now ke acc :
  tracker_step Q Q' Flush -> on_entry Q ke.1 ke.2 ->
  trackers Q' acc.1 -> Forall (sound_msg Q' Flush) acc.2 ->
  trackers Q' (flush_entry now acc ke).1 /\ Forall (sound_msg Q' Flush) (flush_entry now acc ke).2.
Proof.
  intros [Hmono Hev] He Hm Ho. destruct acc as [m out], ke as [k e]. simpl in *. unfold flush_entry.
  destruct (status e) as [st|]; [|case_bool_decide; [split; [by apply trackers_del|done]|by split]].
  case_bool_decide; [by split|].
  set (m1 := count m "ack_timeouts" 1). assert (Hm1 : trackers Q' m1) by done.
  set (r := match pending e with [] => _ | _ => _ end).
  assert (Hr : trackers Q' r.1 /\ Forall (sound_msg Q' Flush) r.2).
  { unfold r. destruct (pending e); [by split|]. split; [by apply trackers_ack|by apply sound_partial]. }
  destruct r as [m2 o], Hr as [Hm2 Ho2]. simpl in *.
  assert (Forall (sound_msg Q' Flush) (out ++ o)) by by apply Forall_app.
  destruct (bool_decide (pending e = []) || bool_decide (MAX_TIMEOUT_ACKS <= S (timeouts e))) eqn:Ed.
  - split; [by apply trackers_del|done].
  - apply orb_false_iff in Ed as [_ Hto%bool_decide_eq_false].
    split; [|done]. apply trackers_set; [done|]. apply Hev; [done|]. simpl. lia.
Qed.

Lemma trackers_flush m now :
  tracker_step Q Q' Flush -> trackers Q m ->
  trackers Q' (flush m now).1 /\ Forall (sound_msg Q' Flush) (flush m now).2.
Proof.
  intros Hstep Hm. unfold flush.
  assert (H : forall l acc, Forall (fun p => on_entry Q p.1 p.2) l ->
    trackers Q' acc.1 -> Forall (sound_msg Q' Flush) acc.2 ->
    trackers Q' (foldl (flush_entry now) acc l).1
    /\ Forall (sound_msg Q' Flush) (foldl (flush_entry now) acc l).2).
  { induction l as [|ke l IH]; intros acc Hl Ha Ho; [by split|].
    apply Forall_cons in Hl as [Hke Hl]. simpl.
    destruct (trackers_flush_entry now ke acc Hstep Hke Ha Ho). by apply IH. }
  destruct (H (entries m) (m, []) Hm) as [H1 H2]; [|done|].
  { apply (trackers_mono _ _ m (proj1 Hstep) Hm). }
  destruct (foldl _ _ _) as [m1 o1]. simpl in *. split; [done|]. apply Forall_app. split; [done|].
  apply Forall_concat, Forall_fmap, Forall_forall. intros [r s] _. unfold compose. simpl.
  unfold maybe_state. destruct (_ || _); repeat constructor.
Qed.

Lemma trackers_handle m now ev :
  tracker_step Q Q' ev -> trackers Q m ->
  trackers Q' (handle m (now, ev)).1 /\ Forall (sound_msg Q' ev) (handle m (now, ev)).2.
Proof.
  intros Hstep Hm. pose proof (trackers_mono _ _ m (proj1 Hstep) Hm) as Hm'.
  assert (Hfail : forall k r man ses, trackers Q' (node_failed m now k r man ses).1
            /\ Forall (sound_msg Q' ev) (node_failed m now k r man ses).2).
  { intros. split; [by apply trackers_ack, trackers_del|by apply sound_partial]. }
  destruct ev as [k man ses|k st ses man truth|k r man ses|k man ses|k p|k p r ses| |robot run z|robot pl ms];
    simpl.
  - split; [by apply trackers_begin|done].
  - by apply trackers_node_ok.
  - apply Hfail.
  - unfold node_abandoned. destruct (dget (entries m) k) as [e|]; [|by split].
    destruct (status e); [by split|apply Hfail].
  - by apply trackers_part_stored.
  - apply trackers_part_rejected; [apply Hstep|done].
  - by apply trackers_flush.
  - split; [|done]. unfold seed_state. destruct (negb _); [done|].
    destruct (dget (states m) robot); [|done]. destruct (negb _); [done|]. by repeat case_bool_decide.
  - split; [|done]. unfold note_spool. destruct pl; try done. by destruct (negb _).
Qed.
End handlers.

(** ** Properties *)

(** *** Complete acks *)

Abbreviation history := (list (Z * event)).

(** The part was reported durable for the bundle. *)
Definition reported (h : history) (k : key) (p : Part) : Prop :=
  exists now, (now, PartStored k p) ∈ h
    \/ exists st s man truth, (now, NodeOk k st s man truth) ∈ h /\ p ∈ truth.

(** A receipt of the node declared this manifest. *)
Definition declared_for (h : history) (k : key) (d : list Part) : Prop :=
  exists now s, (now, Begin k (Some d) s) ∈ h
    \/ exists st truth, (now, NodeOk k st s (Some d) truth) ∈ h.

Lemma reported_app h h' k p : reported h k p -> reported (h ++ h') k p.
Proof. intros (now & H). exists now. setoid_rewrite elem_of_app. naive_solver. Qed.
Lemma declared_app h h' k d : declared_for h k d -> declared_for (h ++ h') k d.
Proof. intros (now & s & H). exists now, s. setoid_rewrite elem_of_app. naive_solver. Qed.

Definition history_ok (h : history) : tracker_prop :=
  fun k d sto _ => declared_for h k d /\ forall p, p ∈ sto -> reported h k p.

Lemma elem_of_snoc {A : Type} (l : list A) x : x ∈ l ++ [x].
Proof. apply elem_of_app. right. apply list_elem_of_here. Qed.

Lemma history_step h now ev : tracker_step (history_ok h) (history_ok (h ++ [(now, ev)])) ev.
Proof.
  assert (Hmono : forall k d sto to, history_ok h k d sto to -> history_ok (h ++ [(now, ev)]) k d sto to).
  { intros k d sto to [Hd Hs]. split; [by apply declared_app|]. intros p Hp. by apply reported_app, Hs. }
  split; [done|]. destruct ev as [k [parts|] ses|k st ses [parts|] truth| | |k p| | | |]; try done.
  - assert (Hd : declared_for (h ++ [(now, Begin k (Some parts) ses)]) k parts).
    { exists now, ses. left. apply elem_of_snoc. }
    split; [split; [done|set_solver]|]. intros d sto to Hq. split; [done|]. apply (Hmono _ _ _ _ Hq).
  - assert (Hd : declared_for (h ++ [(now, NodeOk k st ses (Some parts) truth)]) k parts).
    { exists now, ses. right. exists st, truth. apply elem_of_snoc. }
    assert (Ht : forall p, p ∈ truth -> reported (h ++ [(now, NodeOk k st ses (Some parts) truth)]) k p).
    { intros p Hp. exists now. right. exists st, ses, (Some parts), truth. split; [apply elem_of_snoc|done]. }
    split; [split; [done|set_solver]|]. split; [by split|]. intros d sto to Hq. split; [done|].
    intros p [Hp|Hp]%elem_of_union; [|auto]. by apply (Hmono _ _ _ _ Hq).
  - intros d sto to Hq. destruct (Hmono _ _ _ _ Hq) as [Hd Hs]. split; [done|].
    intros q [->%elem_of_singleton|Hq']%elem_of_union; [|auto]. exists now. left. apply elem_of_snoc.
  - intros k d sto to Hq _. apply (Hmono _ _ _ to Hq).
Qed.

(** C23: An ack says [complete] only when the bundle is durable: it lists exactly a manifest that was
    declared for that node, and every part of it had been reported stored (or found in storage) by
    then. *)
Theorem complete_ack_sound timeout max interval coalesce (es : history) i out a :
  (run handle (new_acks timeout max interval coalesce) es).2 !! i = Some out ->
  MAck a ∈ out -> a_complete a = Some true ->
  exists d, declared_for (take (1 + i) es) (a_key a) d /\ a_stored a = parts_set d
    /\ forall p, p ∈ d -> reported (take (1 + i) es) (a_key a) p.
Proof.
  intros Hout Ha Hc.
  destruct (run_history handle (fun h m => trackers (history_ok h) m)
    (fun h out => Forall (fun msg => exists ev, (exists now, (now, ev) ∈ h) /\ sound_msg (history_ok h) ev msg) out))
    with (es := es) (h := @nil (Z * event)) (s := new_acks timeout max interval coalesce) as [_ H].
  - intros h m [now ev] Hm. destruct (trackers_handle _ _ m now ev (history_step h now ev) Hm) as [H1 H2].
    split; [done|]. eapply Forall_impl; [exact H2|]. intros msg Hmsg. exists ev.
    split; [exists now; apply elem_of_snoc|done].
  - constructor.
  - specialize (H i out Hout). rewrite Forall_forall in H. destruct (H _ Ha) as (ev & [now Hev] & Hs).
    destruct (Hs Hc) as [[Hst (st & s & truth & ->)]|(d & sto & to & [Hd Hr] & Hst & Hsub)].
    + exists []. split_and!; [|by rewrite Hst|set_solver]. exists now, s. right. by exists st, truth.
    + exists d. auto.
Qed.

(** A tracker never outlives its last timeout ack: every tracker has had fewer than
    [MAX_TIMEOUT_ACKS] timeouts. *)
Theorem timeouts_bounded timeout max interval coalesce (es : history) k e :
  dget (entries (run handle (new_acks timeout max interval coalesce) es).1) k = Some e ->
  timeouts e < MAX_TIMEOUT_ACKS.
Proof.
  set (Q := (fun _ _ _ to => to < MAX_TIMEOUT_ACKS) : tracker_prop).
  assert (Hstep : forall ev, tracker_step Q Q ev).
  { intros ev. split; [done|]. unfold Q. destruct ev as [k' [|] ?|k' ? ? [|] ?| | |? ?| | | |]; try done;
      vm_compute; auto with lia. }
  destruct (run_history handle (fun (_ : history) m => trackers Q m) (fun _ _ => True)) with
    (es := es) (h := @nil (Z * event)) (s := new_acks timeout max interval coalesce) as [H _].
  - intros h m [now ev] Hm. split; [|done]. by apply (trackers_handle Q Q).
  - constructor.
  - apply (trackers_get Q _ _ _ H).
Qed.

(** *** A bundle completes whatever the order of its parts *)

Lemma dget_evict_end {V : Type} n (d : list (key * V)) k v :
  0 < n -> dget (evict n (dmove_to_end (dset d k v) k)) k = Some v.
Proof.
  intros Hn. unfold dmove_to_end. rewrite dget_dset_eq, evict_drop.
  set (d' := ddel (dset d k v) k). rewrite length_app. simpl.
  rewrite drop_app_le by lia. rewrite dget_app.
  assert (Hd : dget d' k = None) by apply dget_ddel_eq.
  assert (Hdrop : forall j, dget (drop j d') k = None).
  { intros j. apply dget_None. apply dget_None in Hd. intros Hin. apply Hd. unfold keys in *.
    rewrite fmap_drop in Hin. by apply (subseteq_drop j). }
  rewrite Hdrop. simpl. by rewrite bool_decide_true.
Qed.

(** The state between the first ack of a bundle and its last part. *)
Definition open_bundle (m : AckManager) (k : key) (st : Status) (parts : list Part) (sto : gset Part)
    : Prop :=
  (exists ses t n, dget (entries m) k = Some (mkEntry parts ses (Some st) sto [] t n))
  /\ (exists a t, dget (last_ack m) k = Some (a, t) /\ a_complete a = Some false).

(** A part that is not the last one. *)
Lemma part_stored_open m now k st parts sto p q :
  open_bundle m k st parts sto -> q ∈ parts -> q ∉ {[p]} ∪ sto ->
  exists m', part_stored m now k p = (m', []) /\ open_bundle m' k st parts ({[p]} ∪ sto).
Proof.
  intros [(ses & t & n & E) Hl] Hq Hn. unfold part_stored. rewrite E. simpl. unfold evaluate. simpl.
  rewrite (proj2 (existsb_exists _ parts)).
  2: { exists q. split; [by apply list_elem_of_In|]. by rewrite bool_decide_true. }
  eexists. split; [done|]. split; [|done]. simpl. rewrite dget_dset_eq. eauto.
Qed.

(** The last part. *)
Lemma part_stored_last m now k st parts sto p :
  open_bundle m k st parts sto -> valid_topic_level (k_robot k) = true ->
  (forall q, q ∈ parts -> q ∈ {[p]} ∪ sto) ->
  exists m' ses out, part_stored m now k p
    = (m', MAck (mkAck k (Some st) None RESEND_NONE (parts_set parts) ∅ (Some true) ses) :: out)
    /\ dget (entries m') k = None.
Proof.
  intros [(ses & t & n & E) (a & ta & El & Ha)] Hv Hall. unfold part_stored. rewrite E. simpl.
  unfold evaluate. simpl. destruct (existsb _ parts) eqn:Ex.
  { apply existsb_exists in Ex as (q & Hq%list_elem_of_In & Hb).
    rewrite bool_decide_false in Hb by (specialize (Hall q Hq); tauto). done. }
  unfold final, ack. simpl. rewrite Hv. simpl.
  set (c := mkAck _ _ _ _ _ _ _ _).
  replace (coalesced _ now c) with false.
  2: { unfold coalesced. simpl. rewrite El. rewrite bool_decide_false; [done|]. intros ->. done. }
  simpl. set (m1 := set_entries _ _).
  pose proof (proj1 (complete_same m1 now k)) as He. simpl in He.
  destruct (complete m1 now k) as [m2 o2]. simpl in He.
  exists m2, ses, o2. split; [done|]. rewrite He. unfold m1. simpl. apply dget_ddel_eq.
Qed.

Lemma open_bundle_completes k st parts l m sto :
  valid_topic_level (k_robot k) = true -> open_bundle m k st parts sto ->
  NoDup l.*2 -> l <> [] -> (forall p, p ∈ l.*2 <-> p ∈ parts /\ p ∉ sto) ->
  exists ses out,
    (run handle m ((fun tp : Z * Part => (tp.1, PartStored k tp.2)) <$> l)).2
    = replicate (length l - 1) []
      ++ [MAck (mkAck k (Some st) None RESEND_NONE (parts_set parts) ∅ (Some true) ses) :: out]
    /\ dget (entries (run handle m ((fun tp : Z * Part => (tp.1, PartStored k tp.2)) <$> l)).1) k = None.
Proof.
  intros Hv. revert m sto. induction l as [|[t p] l IH]; intros m sto Ho Hnd Hne Hl; [done|].
  apply NoDup_cons in Hnd as [Hp Hnd]. cbn [fmap list_fmap fst snd] in *.
  destruct l as [|[t2 p2] l].
  - destruct (part_stored_last m t k st parts sto p) as (m' & ses & out & E & Hd); [done|done| |].
    { intros q Hq. destruct (decide (q ∈ sto)); [set_solver|].
      assert (q ∈ [p]) as ->%list_elem_of_singleton by (by apply Hl). set_solver. }
    exists ses, out. cbn [run handle list_fmap]. rewrite E. simpl. done.
  - assert (Hp2 : p2 ∈ parts /\ p2 ∉ sto) by (apply Hl; right; left).
    destruct (part_stored_open m t k st parts sto p p2) as (m' & E & Ho'); [done|apply Hp2| |].
    { rewrite not_elem_of_union, not_elem_of_singleton. split; [|apply Hp2]. intros ->. apply Hp. left. }
    destruct (IH m' ({[p]} ∪ sto) Ho' Hnd) as (ses & out & Hrun & Hd); [done| |].
    { intros q. split.
      - intros Hq. destruct (proj1 (Hl q)) as [? ?]; [by right|]. split; [done|].
        rewrite not_elem_of_union, not_elem_of_singleton. split; [|done]. intros ->. done.
      - intros [Hq1 Hq2]. assert (q ∈ p :: p2 :: l.*2) as H by (apply Hl; set_solver).
        apply elem_of_cons in H as [->|H]; [set_solver|done]. }
    exists ses, out. change (run handle m _) with
      (let (s1, o) := part_stored m t k p in
       let (s2, os) := run handle s1 ((fun tp : Z * Part => (tp.1, PartStored k tp.2)) <$> (t2, p2) :: l) in
       (s2, o :: os)).
    rewrite E. destruct (run handle m' _) as [s2 os]. simpl in *. rewrite Hrun.
    rewrite Nat.sub_0_r. done.
Qed.

(** The parts of a bundle known to be stored. *)
Definition known_parts (m : AckManager) (k : key) : gset Part :=
  match dget (entries m) k with Some e => stored e | None => ∅ end.

(** Once a node is accepted, its bundle completes in whatever order its parts arrive: storing the
    parts still missing, each once, in any order and at any times, sends nothing until the last one,
    which sends the complete ack listing the whole manifest, and then the tracker is gone. *)
Theorem bundle_completes m now k st ses parts truth (l : list (Z * Part)) :
  0 < max_trackers m -> valid_topic_level (k_robot k) = true -> parts <> [] ->
  NoDup l.*2 -> l <> [] -> (forall p, p ∈ l.*2 <-> p ∈ parts /\ p ∉ known_parts m k ∪ truth) ->
  let m1 := (node_ok m now k st ses (Some parts) truth).1 in
  exists ses' out,
    (run handle m1 ((fun tp : Z * Part => (tp.1, PartStored k tp.2)) <$> l)).2
    = replicate (length l - 1) []
      ++ [MAck (mkAck k (Some st) None RESEND_NONE (parts_set parts) ∅ (Some true) ses') :: out]
    /\ dget (entries (run handle m1 ((fun tp : Z * Part => (tp.1, PartStored k tp.2)) <$> l)).1) k = None.
Proof.
  intros Hmax Hv Hne Hnd Hl Hin m1.
  apply (open_bundle_completes k st parts l m1 (known_parts m k ∪ truth)); try done.
  unfold m1, node_ok. set (m0 := match k_ns k with None => _ | Some _ => m end).
  assert (Hm0 : entries m0 = entries m /\ max_trackers m0 = max_trackers m).
  { unfold m0. destruct (k_ns k); [done|]. split; apply (note_run_same m (k_robot k) (k_run k)). }
  destruct Hm0 as [He0 Hmx0]. destruct parts as [|x parts]; [done|]. set (ps := x :: parts) in *.
  destruct (accept_entry m0 now k st ses ps truth) as [m2 e] eqn:Ea.
  assert (Hacc : dget (entries m2) k = Some e /\ stored e = known_parts m k ∪ truth
            /\ exists n, e = mkEntry ps ses (Some st) (stored e) [] now n).
  { unfold accept_entry in Ea. unfold known_parts. rewrite He0 in Ea.
    destruct (dget (entries m) k) as [e0|]; injection Ea as <- <-; simpl;
      rewrite dget_move_to_end, dget_dset_eq; eauto. }
  destruct Hacc as (Hg & Hs & n & Heq).
  destruct l as [|[t p] l]; [done|].
  assert (Hp : p ∈ pending e).
  { apply list_elem_of_filter. rewrite Hs, Heq. simpl. destruct (proj1 (Hin p)) as [? ?]; [left|auto]. }
  destruct (pending e) as [|y ys] eqn:Ep; [by apply elem_of_nil in Hp|]. rewrite <-Ep.
  set (a := mk_ack _ _ _ _ _ _ _ _). split.
  - rewrite (proj1 (ack_same m2 now a)), Hg, Heq, Hs. eauto.
  - unfold ack. simpl. rewrite Hv. simpl. destruct (coalesced m2 now a) eqn:Ec.
    + unfold coalesced in Ec. simpl in Ec. destruct (dget (last_ack m2) k) as [[b tb]|] eqn:El; [|done].
      apply andb_true_iff in Ec as [Hb%bool_decide_eq_true _]. exists b, tb. split; [done|]. by rewrite Hb.
    + exists a, now. split; [|done]. simpl. apply dget_evict_end. unfold LAST_ACK_CAP. lia.
Qed.

(** *** Bounds *)

(** A table with distinct keys and at most [n] of them. *)
Definition tbl_ok {K V : Type} (n : nat) (d : list (K * V)) : Prop := dict_wf d /\ length d <= n.

Section tables.
Context {K V : Type} `{EqDecision K}.
Implicit Types (d : list (K * V)) (k : K) (v : V) (n : nat).

Lemma length_keys d : length (keys d) = length d.
Proof. apply length_fmap. Qed.

Lemma tbl_nil n : tbl_ok n (@nil (K * V)).
Proof. split; [apply dict_wf_nil|simpl; lia]. Qed.

Lemma tbl_evict n d : dict_wf d -> tbl_ok n (evict n d).
Proof. intros Hd. split; [by apply dict_wf_evict|apply evict_length]. Qed.

Lemma tbl_set n d k v : k ∈ keys d -> tbl_ok n d -> tbl_ok n (dset d k v).
Proof.
  intros Hk [Hd Hn]. split; [by apply dict_wf_dset|].
  rewrite <-length_keys, keys_dset, bool_decide_true, length_keys; done.
Qed.

Lemma tbl_del n d k : tbl_ok n d -> tbl_ok n (ddel d k).
Proof.
  intros [Hd Hn]. split; [by apply dict_wf_ddel|].
  rewrite <-length_keys, keys_ddel. etransitivity; [apply length_filter|]. by rewrite length_keys.
Qed.

Lemma tbl_move_to_end n d k : tbl_ok n d -> tbl_ok n (dmove_to_end d k).
Proof.
  intros [Hd Hn]. split; [by apply dict_wf_move_to_end|]. unfold dmove_to_end.
  destruct (dget d k) as [v|] eqn:E; [|done]. rewrite length_app. simpl.
  assert (length (ddel d k) < length d); [|lia].
  rewrite <-!length_keys, keys_ddel. apply (length_filter_lt _ _ k); [by eapply dget_Some_key|naive_solver].
Qed.

Lemma tbl_set_end n d k v : 0 < n -> dict_wf d -> tbl_ok n (evict n (dmove_to_end (dset d k v) k)).
Proof. intros. apply tbl_evict. auto with fleet. Qed.
End tables.

(** The tables of the manager stay within their caps. *)
Definition acks_ok (m : AckManager) : Prop :=
  tbl_ok (max_trackers m) (entries m) /\ tbl_ok LAST_ACK_CAP (last_ack m)
  /\ tbl_ok ROBOT_CAP (states m) /\ tbl_ok ROBOT_CAP (spool m)
  /\ tbl_ok ROBOT_CAP (runs m) /\ Forall (fun p => length p.2 <= RUNS_SEEN_CAP) (runs m).

Lemma keys_evict_last {V : Type} n (d : list (key * V)) k v :
  0 < n -> dget d k = None -> k ∈ keys (evict n (dset d k v)).
Proof.
  intros Hn Hk. rewrite evict_drop. unfold keys. rewrite fmap_drop. fold (keys (dset d k v)).
  rewrite keys_dset, bool_decide_false by (by apply dget_None).
  rewrite drop_app_le.
  - apply elem_of_snoc.
  - rewrite <-length_keys, keys_dset, bool_decide_false by (by apply dget_None).
    rewrite length_app. simpl. lia.
Qed.

Lemma ok_ack m now a : acks_ok m -> acks_ok (ack m now a).1.
Proof.
  intros Hm. unfold ack. destruct (negb _); [done|]. destruct (coalesced m now a); [done|].
  destruct Hm as (He & [Hl _] & Hr). split; [done|]. split; [|done]. simpl.
  apply tbl_evict. auto with fleet.
Qed.

Lemma ok_complete m now k : acks_ok m -> acks_ok (complete m now k).1.
Proof.
  intros Hm. unfold complete. destruct (k_ns k), (k_sid k); try done. destruct (_ || _); [done|].
  destruct (advance _ _ _) as [s|]; [|done]. destruct (maybe_state m now (k_robot k) s) as [s' out].
  destruct Hm as (He & Hl & [Hs _] & Hr). split_and!; try done; try apply Hr. simpl.
  apply tbl_evict. auto with fleet.
Qed.

Lemma ok_note_run m robot run : acks_ok m -> acks_ok (note_run m robot run).
Proof.
  intros Hm. unfold note_run. destruct (negb _); [done|].
  destruct Hm as (He & Hl & Hs & Hsp & [Hr _] & Hf). split_and!; try done; simpl.
  - apply tbl_evict. auto with fleet.
  - apply Forall_evict. unfold dmove_to_end. rewrite dget_dset_eq. apply Forall_app.
    assert (Hseen : length (if bool_decide (run ∈ default [] (dget (runs m) robot))
                            then default [] (dget (runs m) robot)
                            else keep_last RUNS_SEEN_CAP (default [] (dget (runs m) robot) ++ [run]))
                    <= RUNS_SEEN_CAP).
    { case_bool_decide; [|apply keep_last_length].
      destruct (dget (runs m) robot) as [seen|] eqn:E; simpl; [|lia].
      apply (Forall_dget _ _ _ _ Hf E). }
    split; [apply Forall_ddel, Forall_dset; done|]. by constructor.
Qed.

Lemma ok_entries m e : acks_ok m -> tbl_ok (max_trackers m) e -> acks_ok (set_entries m e).
Proof. intros (_ & H) He. by split. Qed.

Lemma ok_final m now k e : acks_ok m -> k ∈ keys (entries m) -> acks_ok (final m now k e).1.
Proof.
  intros Hm Hk. unfold final. destruct (missing e) as [|[p r] l]; [|destruct (first_terminal _)];
    match goal with |- context [ack m now ?a] =>
      pose proof (ok_ack m now a Hm) as H1; pose proof (ack_same m now a) as H2;
      destruct (ack m now a) as [m1 o1] end; simpl in H1, H2; destruct H2 as (Ee & _).
  - assert (H3 : acks_ok (set_entries m1 (ddel (entries m1) k))) by (apply ok_entries; [done|]; apply tbl_del, H1).
    pose proof (ok_complete _ now k H3) as H4. by destruct (complete _ _ _).
  - apply ok_entries; [done|]. apply tbl_del, H1.
  - apply ok_entries; [done|]. apply tbl_set; [by rewrite Ee|apply H1].
Qed.

Lemma ok_evaluate m now k e : acks_ok m -> k ∈ keys (entries m) -> acks_ok (evaluate m now k e).1.
Proof. intros. unfold evaluate. destruct (existsb _ _); [done|]. by apply ok_final. Qed.

Lemma keys_dset_here {V : Type} (d : list (key * V)) k v : k ∈ keys (dset d k v).
Proof. eapply dget_Some_key. apply dget_dset_eq. Qed.

Lemma ok_begin m now k man ses : acks_ok m -> acks_ok (begin m now k man ses).
Proof.
  intros Hm. unfold begin. destruct man as [[|p ps]|]; try done.
  destruct (dget (entries m) k) as [e|] eqn:E.
  - apply ok_entries; [done|]. apply tbl_move_to_end, tbl_set; [by eapply dget_Some_key|apply Hm].
  - destruct Hm as ([He _] & Hr). split; [|done]. simpl. apply tbl_evict. auto with fleet.
Qed.

Lemma ok_accept m now k st ses parts truth :
  0 < max_trackers m -> acks_ok m ->
  let m1 := (accept_entry m now k st ses parts truth).1 in acks_ok m1 /\ k ∈ keys (entries m1).
Proof.
  intros Hpos Hm. unfold accept_entry. destruct (dget (entries m) k) as [e|] eqn:E; simpl.
  - split.
    + apply ok_entries; [done|]. apply tbl_move_to_end, tbl_set; [by eapply dget_Some_key|apply Hm].
    + eapply dget_Some_key. rewrite dget_move_to_end. apply dget_dset_eq.
  - split.
    + destruct Hm as ([He _] & Hr). split; [|done]. simpl.
      apply tbl_move_to_end, tbl_set; [by apply keys_evict_last|]. apply tbl_evict. auto with fleet.
    + eapply dget_Some_key. rewrite dget_move_to_end. apply dget_dset_eq.
Qed.

Lemma ok_node_ok m now k st ses man truth :
  0 < max_trackers m -> acks_ok m -> acks_ok (node_ok m now k st ses man truth).1.
Proof.
  intros Hpos Hm. unfold node_ok. set (m0 := match k_ns k with None => _ | Some _ => m end).
  assert (Hm0 : acks_ok m0 /\ 0 < max_trackers m0).
  { unfold m0. destruct (k_ns k); [done|]. split; [by apply ok_note_run|].
    destruct (note_run_same m (k_robot k) (k_run k)) as (_&_&_&_&_&_&->&_). done. }
  destruct Hm0 as [Hm0 Hpos0].
  assert (Hdel : acks_ok (set_entries m0 (ddel (entries m0) k)))
    by (apply ok_entries; [done|]; apply tbl_del, Hm0).
  destruct man as [[|p ps]|]; [..|by apply ok_ack].
  - match goal with |- context [ack ?x now ?a] => pose proof (ok_ack x now a Hdel) as H1;
      destruct (ack x now a) as [m1 o1] end.
    pose proof (ok_complete m1 now k H1) as H2. by destruct (complete m1 now k).
  - destruct (ok_accept m0 now k st ses (p :: ps) truth Hpos0 Hm0) as [H1 H2].
    destruct (accept_entry _ _ _ _ _ _ _) as [m1 e]. simpl in *.
    destruct (pending e); [by apply ok_final|by apply ok_ack].
Qed.

(** What [flush] leaves of a tracker. *)
Definition flush_result (timeout now : Z) (e : Entry) : option Entry :=
  match status e with
  | None => if bool_decide (timeout * UNACCEPTED_TTL_FACTOR <= now - since e)%Z then None else Some e
  | Some _ =>
      if bool_decide (now - since e < timeout)%Z then Some e
      else if bool_decide (pending e = []) || bool_decide (MAX_TIMEOUT_ACKS <= S (timeouts e)) then None
      else Some (mkEntry (declared e) (session_id e) (status e) (stored e) [] now (S (timeouts e)))
  end.

Lemma flush_entry_spec now acc k e :
  let m := acc.1 in
  let m' := (flush_entry now acc (k, e)).1 in
  (dget (entries m) k = Some e -> dget (entries m') k = flush_result (part_timeout m) now e)
  /\ (forall k', k' <> k -> dget (entries m') k' = dget (entries m) k')
  /\ part_timeout m' = part_timeout m
  /\ (acks_ok m -> k ∈ keys (entries m) -> acks_ok m').
Proof.
  destruct acc as [m out]. unfold flush_entry, flush_result. simpl.
  destruct (status e) as [st|]; simpl.
  2: { case_bool_decide; [|done]. simpl. split_and!; [|..|done|].
       - intros _. apply dget_ddel_eq.
       - intros k' Hk'. by apply dget_ddel_ne.
       - intros Hm _. apply (ok_entries (count m _ _)); [done|]. apply tbl_del, Hm. }
  case_bool_decide; [done|].
  set (m1 := count m "ack_timeouts" 1).
  set (r := match pending e with [] => _ | _ => _ end).
  assert (Hr : entries r.1 = entries m /\ part_timeout r.1 = part_timeout m /\ (acks_ok m -> acks_ok r.1)).
  { unfold r. destruct (pending e); [done|].
    match goal with |- context [ack m1 now ?a] => pose proof (ack_same m1 now a) as H1;
      pose proof (ok_ack m1 now a) as H2 end. destruct H1 as (?&?&?&?&?&?&?). split_and!; try done. }
  destruct r as [m2 o]. simpl in Hr. destruct Hr as (Ee & Et & Hok).
  destruct (_ || _); simpl; rewrite Ee; split_and!; try done.
  - intros _. apply dget_ddel_eq.
  - intros k' Hk'. by apply dget_ddel_ne.
  - intros Hm _. apply ok_entries; [auto|]. rewrite <-Ee. apply tbl_del. by apply Hok.
  - intros _. apply dget_dset_eq.
  - intros k' Hk'. by apply dget_dset_ne.
  - intros Hm Hk. apply ok_entries; [auto|]. apply tbl_set; [done|]. rewrite <-Ee. by apply Hok.
Qed.

Lemma flush_loop_spec now l acc :
  dict_wf l -> (forall k e, (k, e) ∈ l -> dget (entries acc.1) k = Some e) -> acks_ok acc.1 ->
  let m' := (foldl (flush_entry now) acc l).1 in
  acks_ok m' /\ part_timeout m' = part_timeout acc.1
  /\ forall k, dget (entries m') k = match dget l k with
                                    | Some e => flush_result (part_timeout acc.1) now e
                                    | None => dget (entries acc.1) k
                                    end.
Proof.
  revert acc. induction l as [|[k e] l IH]; intros acc Hwf Hl Hok; [done|].
  apply NoDup_cons in Hwf as [Hk Hwf].
  destruct (flush_entry_spec now acc k e) as (Hself & Hother & Ht & Hok').
  assert (Hget : dget (entries acc.1) k = Some e) by (apply Hl; left).
  set (acc' := flush_entry now acc (k, e)) in *.
  destruct (IH acc') as (H1 & H2 & H3); [done| |by apply Hok', (dget_Some_key _ _ e)|].
  { intros k' e' Hin. assert (k' <> k).
    { intros ->. apply Hk. apply list_elem_of_fmap. by exists (k, e'). }
    rewrite Hother by done. apply Hl. by right. }
  cbn [foldl]. fold acc'. split_and!; [done|by rewrite H2|]. intros k'. rewrite H3, Ht. simpl.
  case_bool_decide as E; subst.
  - rewrite (proj2 (dget_None l k')) by done. auto.
  - by rewrite (Hother k') by congruence.
Qed.

Lemma flush_spec m now :
  acks_ok m ->
  acks_ok (flush m now).1 /\ part_timeout (flush m now).1 = part_timeout m
  /\ forall k, dget (entries (flush m now).1) k = dget (entries m) k ≫= flush_result (part_timeout m) now.
Proof.
  intros Hm. destruct (flush_loop_spec now (entries m) (m, [])) as (H1 & H2 & H3); [apply Hm| |done|].
  { intros k e Hin. apply dget_elem; [apply Hm|done]. }
  unfold flush. destruct (foldl _ _ _) as [m1 o1]. simpl in *. split_and!.
  - destruct H1 as (? & ? & [Hs Hl] & ?). split_and!; try done; try naive_solver. simpl.
    split; [|by rewrite length_fmap]. unfold dict_wf, keys in *. by rewrite <-list_fmap_compose.
  - done.
  - intros k. rewrite H3. by destruct (dget (entries m) k).
Qed.

Lemma ok_handle m te : 0 < max_trackers m -> acks_ok m -> acks_ok (handle m te).1.
Proof.
  intros Hpos Hm. destruct te as [now ev].
  assert (Hdel : forall k, acks_ok (set_entries m (ddel (entries m) k)))
    by (intros k; apply ok_entries; [done|]; apply tbl_del, Hm).
  destruct ev as [k man ses|k st ses man truth|k r man ses|k man ses|k p|k p r ses| |robot run z|robot pl ms];
    simpl.
  - by apply ok_begin.
  - by apply ok_node_ok.
  - by apply ok_ack.
  - unfold node_abandoned. destruct (dget (entries m) k) as [e|]; [|done].
    destruct (status e); [done|by apply ok_ack].
  - unfold part_stored. destruct (dget (entries m) k) as [e|] eqn:E; [|done].
    match goal with |- context [set_entries m (dset (entries m) k ?x)] =>
      assert (Hs : acks_ok (set_entries m (dset (entries m) k x))) end.
    { apply ok_entries; [done|]. apply tbl_set; [by eapply dget_Some_key|apply Hm]. }
    destruct (status e); [apply ok_evaluate; [done|apply keys_dset_here]|done].
  - unfold part_rejected. destruct (dget (entries m) k) as [e|] eqn:E; [|by apply ok_ack].
    case_bool_decide; [done|]. destruct (status e); [|by apply ok_ack].
    case_bool_decide; [|by apply ok_ack]. apply ok_evaluate; [|apply keys_dset_here].
    apply ok_entries; [done|]. apply tbl_set; [by eapply dget_Some_key|apply Hm].
  - by apply flush_spec.
  - unfold seed_state. destruct (negb _); [done|]. destruct Hm as (He & Hl & [Hs Hn] & Hr).
    destruct (dget (states m) robot) as [s|] eqn:E; [destruct (negb _); [done|]|].
    + assert (robot ∈ keys (states m)) by by eapply dget_Some_key.
      repeat case_bool_decide; split_and!; try done; try apply Hr; by apply tbl_set.
    + split_and!; try done; try apply Hr. apply tbl_evict. auto with fleet.
  - unfold note_spool. destruct pl; try done. destruct (negb _); [done|].
    destruct Hm as (He & Hl & Hs & [Hsp _] & Hr). split_and!; try done; try apply Hr.
    apply tbl_evict. auto with fleet.
Qed.

(** *** The high-water mark *)

Lemma dget_evict {K V : Type} `{EqDecision K} n (d : list (K * V)) k v :
  dict_wf d -> dget (evict n d) k = Some v -> dget d k = Some v.
Proof.
  intros Hd Hg. apply dget_elem; [done|]. apply dget_Some_elem in Hg.
  destruct (evict_suffix n d) as [l Hl]. rewrite Hl. apply elem_of_app. by right.
Qed.

(** From one state of the mark to the next: never back within a run, and to another run only if no
    later run was accepted. *)
Definition mark_step (m m' : AckManager) : Prop :=
  forall robot s s', dget (states m) robot = Some s -> dget (states m') robot = Some s' ->
    if bool_decide (st_run s' = st_run s) then (highest s <= highest s')%Z
    else superseded m' robot (st_run s') = false.

Lemma mark_same m m' : states m' = states m -> mark_step m m'.
Proof.
  intros E robot s s' H H'. rewrite E, H in H'. simplify_eq. rewrite bool_decide_true by done. lia.
Qed.

Lemma maybe_state_value m now robot s :
  st_run (maybe_state m now robot s).1 = st_run s /\ highest (maybe_state m now robot s).1 = highest s.
Proof. unfold maybe_state. by destruct (_ || _). Qed.

Lemma mark_complete m m1 now k :
  dict_wf (states m) -> states m1 = states m -> mark_step m (complete m1 now k).1.
Proof.
  intros Hwf Es. unfold complete. destruct (k_ns k); [by apply mark_same|].
  destruct (k_sid k) as [sid|]; [|by apply mark_same].
  destruct (negb _ || superseded m1 (k_robot k) (k_run k)) eqn:Eg; [by apply mark_same|].
  apply orb_false_iff in Eg as [_ Hsup].
  destruct (advance (dget (states m1) (k_robot k)) (k_run k) sid) as [s1|] eqn:Ea; [|by apply mark_same].
  destruct (maybe_state_value m1 now (k_robot k) s1) as [Hr Hh].
  destruct (maybe_state m1 now (k_robot k) s1) as [s2 out]. simpl in *.
  intros robot s s' H H'. simpl in H'. apply dget_evict in H'; [|rewrite Es; auto with fleet].
  rewrite dget_dset in H'. case_bool_decide as Hk.
  - subst robot. simplify_eq. rewrite Es, H in Ea. unfold advance in Ea. rewrite Hr, Hh.
    case_bool_decide as Erun; simplify_eq.
    + case_bool_decide; [|done]. simplify_eq. simpl. rewrite bool_decide_true by done. lia.
    + simpl. rewrite bool_decide_false by done. done.
  - rewrite Es, H in H'. simplify_eq. rewrite bool_decide_true by done. lia.
Qed.

Lemma mark_ack m m1 now a : states m1 = states m -> mark_step m (ack m1 now a).1.
Proof. intros E. apply mark_same. by destruct (ack_same m1 now a) as (_ & -> & _). Qed.

Lemma mark_final m m1 now k e :
  dict_wf (states m) -> states m1 = states m -> mark_step m (final m1 now k e).1.
Proof.
  intros Hwf E. unfold final. destruct (missing e) as [|[p r] l]; [|destruct (first_terminal _)];
    match goal with |- context [ack m1 now ?a] => destruct (ack_same m1 now a) as (_ & Es & _);
      destruct (ack m1 now a) as [m2 o2] end; simpl in Es.
  - pose proof (mark_complete m (set_entries m2 (ddel (entries m2) k)) now k Hwf) as H.
    destruct (complete _ now k) as [m3 o3]. simpl in *. apply H. by rewrite Es.
  - apply mark_same. simpl. by rewrite Es.
  - apply mark_same. simpl. by rewrite Es.
Qed.

Lemma mark_evaluate m m1 now k e :
  dict_wf (states m) -> states m1 = states m -> mark_step m (evaluate m1 now k e).1.
Proof. intros. unfold evaluate. destruct (existsb _ _); [by apply mark_same|by apply mark_final]. Qed.

Lemma mark_node_ok m now k st ses man truth :
  dict_wf (states m) -> mark_step m (node_ok m now k st ses man truth).1.
Proof.
  intros Hwf. unfold node_ok. set (m0 := match k_ns k with None => _ | Some _ => m end).
  assert (Es : states m0 = states m).
  { unfold m0. destruct (k_ns k); [done|].
    by destruct (note_run_same m (k_robot k) (k_run k)) as (_ & _ & -> & _). }
  destruct man as [[|p ps]|]; [..|by apply mark_ack].
  - match goal with |- context [ack ?x now ?a] => destruct (ack_same x now a) as (_ & E1 & _);
      destruct (ack x now a) as [m1 o1] end. simpl in E1.
    pose proof (mark_complete m m1 now k Hwf) as H. destruct (complete m1 now k). apply H. by rewrite E1.
  - assert (E1 : states (accept_entry m0 now k st ses (p :: ps) truth).1 = states m).
    { unfold accept_entry. by destruct (dget (entries m0) k). }
    destruct (accept_entry _ _ _ _ _ _ _) as [m1 e]. simpl in E1.
    destruct (pending e); [by apply mark_final|by apply mark_ack].
Qed.

Lemma flush_loop_states now l acc : states (foldl (flush_entry now) acc l).1 = states acc.1.
Proof.
  revert acc. induction l as [|[k e] l IH]; intros acc; [done|]. cbn [foldl]. rewrite IH. clear IH.
  destruct acc as [m out]. unfold flush_entry. destruct (status e); [|by case_bool_decide].
  case_bool_decide; [done|]. destruct (pending e) as [|x xs].
  - by destruct (_ || _).
  - match goal with |- context [ack ?x now ?a] => destruct (ack_same x now a) as (_ & E & _);
      destruct (ack x now a) as [m2 o2] end. simpl in E. destruct (_ || _); exact E.
Qed.

Lemma dget_fmap_snd {V : Type} (f : string -> V -> V) (d : list (string * V)) k :
  dget ((fun p => (p.1, f p.1 p.2)) <$> d) k = f k <$> dget d k.
Proof.
  induction d as [|[j v] d IH]; csimpl; [done|]. case_bool_decide; subst; [done|apply IH].
Qed.

Lemma mark_flush m now : mark_step m (flush m now).1.
Proof.
  unfold flush. pose proof (flush_loop_states now (entries m) (m, [])) as E.
  destruct (foldl _ _ _) as [m1 o1]. simpl in *. intros robot s s' H H'. simpl in H'.
  rewrite (dget_fmap_snd (fun r s => (maybe_state m1 now r s).1)), E, H in H'. simplify_eq/=.
  destruct (maybe_state_value m1 now robot s) as [-> ->]. rewrite bool_decide_true by done. lia.
Qed.

Lemma mark_seed m robot run z :
  dict_wf (states m) -> mark_step m (seed_state m robot run z).1.
Proof.
  intros Hwf.
  unfold seed_state. destruct (negb _); [by apply mark_same|].
  intros r s s' H H'. destruct (dget (states m) robot) as [s0|] eqn:E.
  - assert (Hcase : s' = s \/ (st_run s' = st_run s /\ (highest s <= highest s')%Z)).
    { destruct (negb _); simpl in H'; [left; congruence|].
      destruct (bool_decide_reflect (highest s0 < z)%Z);
        [|destruct (bool_decide_reflect (z < highest s0)%Z)]; simpl in H';
        [..|left; congruence]; rewrite dget_dset in H';
        (destruct (bool_decide_reflect (robot = r)); [|left; congruence]); subst; simplify_eq; right; simpl;
        split; try done; lia. }
    destruct Hcase as [->|[-> ?]]; rewrite bool_decide_true by done; lia.
  - simpl in H'. destruct (decide (robot = r)) as [->|Hne]; [congruence|].
    apply dget_evict in H'; [|auto with fleet]. rewrite dget_dset_ne in H' by done.
    rewrite H in H'. simplify_eq. rewrite bool_decide_true by done. lia.
Qed.

Lemma mark_handle m te : acks_ok m -> mark_step m (handle m te).1.
Proof.
  intros (_ & _ & [Hwf _] & _). destruct te as [now ev].
  destruct ev as [k man ses|k st ses man truth|k r man ses|k man ses|k p|k p r ses| |robot run z|robot pl ms];
    simpl.
  - apply mark_same. unfold begin. destruct man as [[|p ps]|]; try done. by destruct (dget (entries m) k).
  - by apply mark_node_ok.
  - by apply mark_ack.
  - unfold node_abandoned. destruct (dget (entries m) k) as [e|]; [|by apply mark_same].
    destruct (status e); [by apply mark_same|by apply mark_ack].
  - unfold part_stored. destruct (dget (entries m) k) as [e|]; [|by apply mark_same].
    destruct (status e); [by apply mark_evaluate|by apply mark_same].
  - unfold part_rejected. destruct (dget (entries m) k) as [e|]; [|by apply mark_ack].
    case_bool_decide; [by apply mark_same|]. destruct (status e); [|by apply mark_ack].
    case_bool_decide; [by apply mark_evaluate|by apply mark_ack].
  - apply mark_flush.
  - by apply mark_seed.
  - apply mark_same. unfold note_spool. destruct pl; try done. by destruct (negb _).
Qed.

(** *** The configuration does not change *)

Definition config (m : AckManager) : Z * nat := (part_timeout m, max_trackers m).

Lemma config_ack m now a : config (ack m now a).1 = config m.
Proof. unfold config. by destruct (ack_same m now a) as (_&_&_&_&_&->&->&_). Qed.
Lemma config_complete m now k : config (complete m now k).1 = config m.
Proof. unfold config. by destruct (complete_same m now k) as (_&_&_&_&_&->&->&_). Qed.
Lemma config_final m now k e : config (final m now k e).1 = config m.
Proof.
  unfold final. destruct (missing e) as [|[p r] l]; [|destruct (first_terminal _)];
    match goal with |- context [ack m now ?a] => pose proof (config_ack m now a) as H;
      destruct (ack m now a) as [m1 o1] end; simpl in H; [|done|done].
  pose proof (config_complete (set_entries m1 (ddel (entries m1) k)) now k) as H2.
  destruct (complete _ now k). simpl in *. by rewrite H2.
Qed.
Lemma config_evaluate m now k e : config (evaluate m now k e).1 = config m.
Proof. unfold evaluate. destruct (existsb _ _); [done|apply config_final]. Qed.

Lemma config_flush m now : config (flush m now).1 = config m.
Proof.
  assert (H : forall l acc, config (foldl (flush_entry now) acc l).1 = config acc.1).
  { induction l as [|[k e] l IH]; intros acc; [done|]. cbn [foldl]. rewrite IH. clear IH.
    destruct acc as [m0 out]. unfold flush_entry. destruct (status e); [|by case_bool_decide].
    case_bool_decide; [done|]. destruct (pending e) as [|x xs]; [by destruct (_ || _)|].
    match goal with |- context [ack ?x now ?a] => pose proof (config_ack x now a) as E;
      destruct (ack x now a) as [m2 o2] end. simpl in E. destruct (_ || _); exact E. }
  specialize (H (entries m) (m, [])). unfold flush. by destruct (foldl _ _ _).
Qed.

Lemma config_handle m te : config (handle m te).1 = config m.
Proof.
  destruct te as [now ev].
  destruct ev as [k man ses|k st ses man truth|k r man ses|k man ses|k p|k p r ses| |robot run z|robot pl ms];
    simpl.
  - unfold begin. destruct man as [[|p ps]|]; try done. by destruct (dget (entries m) k).
  - unfold node_ok. set (m0 := match k_ns k with None => _ | Some _ => m end).
    assert (E0 : config m0 = config m).
    { unfold m0. destruct (k_ns k); [done|]. unfold config.
      by destruct (note_run_same m (k_robot k) (k_run k)) as (_&_&_&_&_&->&->&_). }
    destruct man as [[|p ps]|]; [..|by rewrite config_ack].
    + match goal with |- context [ack ?x now ?a] => pose proof (config_ack x now a) as E1;
        destruct (ack x now a) as [m1 o1] end. simpl in E1.
      pose proof (config_complete m1 now k) as E2. destruct (complete m1 now k). simpl in *.
      by rewrite E2, E1.
    + assert (E1 : config (accept_entry m0 now k st ses (p :: ps) truth).1 = config m).
      { unfold accept_entry. by destruct (dget (entries m0) k). }
      destruct (accept_entry _ _ _ _ _ _ _) as [m1 e]. simpl in E1.
      destruct (pending e); [by rewrite config_final|by rewrite config_ack].
  - exact (config_ack (set_entries m (ddel (entries m) k)) now _).
  - unfold node_abandoned. destruct (dget (entries m) k) as [e|]; [|done]. destruct (status e); [done|].
    exact (config_ack (set_entries m (ddel (entries m) k)) now _).
  - unfold part_stored. destruct (dget (entries m) k) as [e|]; [|done].
    destruct (status e); [by rewrite config_evaluate|done].
  - unfold part_rejected. destruct (dget (entries m) k) as [e|]; [|by rewrite config_ack].
    case_bool_decide; [done|]. destruct (status e); [|by rewrite config_ack].
    case_bool_decide; [by rewrite config_evaluate|by rewrite config_ack].
  - apply config_flush.
  - unfold seed_state. destruct (negb _); [done|]. destruct (dget (states m) robot); [|done].
    destruct (negb _); [done|]. by repeat case_bool_decide.
  - unfold note_spool. destruct pl; try done. by destruct (negb _).
Qed.

Lemma reachable_ok timeout max interval coalesce es :
  0 < max ->
  let m := (run handle (new_acks timeout max interval coalesce) es).1 in
  acks_ok m /\ config m = (timeout, max).
Proof.
  intros Hpos.
  destruct (run_history handle (fun (_ : history) m => acks_ok m /\ config m = (timeout, max)) (fun _ _ => True))
    with (es := es) (h := @nil (Z * event)) (s := new_acks timeout max interval coalesce) as [H _]; [| |done].
  - intros h m te [Hm Hc]. split; [|done]. rewrite config_handle. split; [|done].
    apply ok_handle; [|done]. unfold config in Hc. simplify_eq/=. lia.
  - split; [|done]. split_and!; try apply tbl_nil. constructor.
Qed.

(** Every table of the manager is bounded whatever the robots send: at most [max_trackers] open
    bundles, and the fixed caps on remembered acks, high-water marks, spool states, robots and runs
    per robot; keys are never duplicated. *)
Theorem ack_tables_bounded timeout max interval coalesce (es : history) :
  0 < max ->
  let m := (run handle (new_acks timeout max interval coalesce) es).1 in
  tbl_ok max (entries m) /\ tbl_ok LAST_ACK_CAP (last_ack m) /\ tbl_ok ROBOT_CAP (states m)
  /\ tbl_ok ROBOT_CAP (spool m) /\ tbl_ok ROBOT_CAP (runs m)
  /\ Forall (fun p => length p.2 <= RUNS_SEEN_CAP) (runs m).
Proof.
  intros Hpos. destruct (reachable_ok timeout max interval coalesce es Hpos) as [Hm Hc].
  unfold config in Hc. cbv zeta in *. destruct Hm as (He & H). split; [|done].
  injection Hc as _ Hc. by rewrite <-Hc at 1.
Qed.

(** The high-water mark a robot reads on [ingest_state] never moves back within a run, and it
    moves to another run only when that run is the one most recently accepted: a late bundle of a
    superseded run never touches it. *)
Theorem high_water_mark_monotone timeout max interval coalesce (es : history) te robot s s' :
  0 < max ->
  let m := (run handle (new_acks timeout max interval coalesce) es).1 in
  let m' := (handle m te).1 in
  dget (states m) robot = Some s -> dget (states m') robot = Some s' ->
  (st_run s' = st_run s -> (highest s <= highest s')%Z)
  /\ (st_run s' <> st_run s -> superseded m' robot (st_run s') = false).
Proof.
  intros Hpos m m' H H'. destruct (reachable_ok timeout max interval coalesce es Hpos) as [Hm _].
  pose proof (mark_handle m te Hm robot s s' H H') as Hs. fold m' in Hs.
  split; intros E; [by rewrite bool_decide_true in Hs|by rewrite bool_decide_false in Hs].
Qed.

(** A timeout of an accepted bundle. *)
Lemma flush_late timeout now e st :
  status e = Some st -> (timeout <= now - since e)%Z ->
  flush_result timeout now e = None
  \/ exists e', flush_result timeout now e = Some e' /\ status e' = Some st /\ since e' = now
       /\ timeouts e' = S (timeouts e) /\ timeouts e' < MAX_TIMEOUT_ACKS.
Proof.
  intros Est Hlate. unfold flush_result. rewrite Est, bool_decide_false by lia.
  destruct (_ || _) eqn:E; [auto|right]. apply orb_false_iff in E as [_ E%bool_decide_eq_false].
  eexists. split_and!; try done. simpl. lia.
Qed.

(** A tracker whose bundle gets no more news is not kept: the third flush spaced by the part
    timeout (the first after the unaccepted limit) at the latest removes it. *)
Theorem tracker_expires timeout max interval coalesce (es : history) k e t1 t2 t3 :
  0 < max -> (0 <= timeout)%Z ->
  let m := (run handle (new_acks timeout max interval coalesce) es).1 in
  dget (entries m) k = Some e ->
  (since e + timeout * UNACCEPTED_TTL_FACTOR <= t1)%Z -> (t1 + timeout <= t2)%Z ->
  (t2 + timeout <= t3)%Z ->
  dget (entries (flush (flush (flush m t1).1 t2).1 t3).1) k = None.
Proof.
  intros Hpos Ht m He H1 H2 H3. destruct (reachable_ok timeout max interval coalesce es Hpos) as [Hm Hc].
  fold m in Hm, Hc. injection Hc as Hc _.
  destruct (flush_spec m t1 Hm) as (Hm1 & Hc1 & Hl1).
  destruct (flush_spec _ t2 Hm1) as (Hm2 & Hc2 & Hl2).
  destruct (flush_spec _ t3 Hm2) as (_ & _ & Hl3).
  rewrite Hl3, Hl2, Hl1, He, Hc2, Hc1, Hc. cbn [mbind option_bind].
  destruct (status e) as [st|] eqn:Est.
  2: { unfold flush_result at 3. rewrite Est. by rewrite bool_decide_true by lia. }
  unfold UNACCEPTED_TTL_FACTOR in H1.
  destruct (flush_late timeout t1 e st Est) as [->|(e1 & -> & E1 & S1 & N1 & _)]; [lia|done|].
  cbn [mbind option_bind].
  destruct (flush_late timeout t2 e1 st E1) as [->|(e2 & -> & E2 & S2 & N2 & _)]; [lia|done|].
  cbn [mbind option_bind].
  destruct (flush_late timeout t3 e2 st E2) as [->|(e3 & _ & _ & _ & N3 & L3)]; [lia|done|].
  unfold MAX_TIMEOUT_ACKS in *. lia.
Qed.

(** *** ingest_mode *)

Lemma drop_not_false_spec d d' :
  drop_not_false d = Some d' ->
  length d = S (length d') /\ (forall r, (r, Some false) ∈ d -> (r, Some false) ∈ d').
Proof.
  revert d'. induction d as [|[r v] d IH]; intros d'; simpl; [done|]. case_bool_decide as Hv.
  - destruct (drop_not_false d) as [d1|]; simpl; [|done]. intros [= <-].
    destruct (IH d1 eq_refl) as [Hlen Hin]. split; [simpl; lia|].
    intros r' [[= -> ->]|H]%elem_of_cons; [left|right; auto].
  - intros [= <-]. split; [done|]. intros r' [[= <- <-]|H]%elem_of_cons; done.
Qed.

Lemma drop_not_false_None d : drop_not_false d = None -> Forall (fun p => p.2 = Some false) d.
Proof.
  induction d as [|[r v] d IH]; simpl; [constructor|]. case_bool_decide; [|done].
  destruct (drop_not_false d); [done|]. constructor; auto.
Qed.

Lemma cap_modes_loop_spec fuel n d :
  length d <= fuel ->
  length (cap_modes_loop fuel n d) <= n
  /\ (Forall (fun p => p.2 = Some false) (cap_modes_loop fuel n d)
      \/ forall r, (r, Some false) ∈ d -> (r, Some false) ∈ cap_modes_loop fuel n d).
Proof.
  revert d. induction fuel as [|fuel IH]; intros d Hf; simpl.
  - split; [lia|auto].
  - case_bool_decide; [auto|]. destruct (drop_not_false d) as [d'|] eqn:E.
    + apply drop_not_false_spec in E as [Hlen Hin]. destruct (IH d') as [H1 H2]; [lia|].
      split; [done|]. destruct H2 as [H2|H2]; auto.
    + apply drop_not_false_None in E. destruct d as [|p d]; [simpl in *; lia|]. simpl in Hf.
      apply Forall_cons in E as [_ E]. destruct (IH d) as [H1 H2]; [lia|]. split; [done|]. left.
      clear -E. simpl. revert d E. induction fuel as [|fuel IH]; intros d E; simpl; [done|].
      case_bool_decide; [done|]. destruct (drop_not_false d) as [d'|] eqn:Ed.
      * apply IH. clear -E Ed. revert d' Ed. induction E as [|[r v] d Hv E IH]; simpl; [done|].
        simpl in Hv. subst. rewrite bool_decide_true by done. intros d'.
        destruct (drop_not_false d) as [d1|]; [|done]. intros [= <-]. constructor; [done|auto].
      * apply IH. by destruct E.
Qed.

(** The table of published modes is bounded, and a robot whose last published value is [false] is
    forgotten only if every robot left has [false]: a stale retained [false] is never caused by
    evicting another robot's unknown or [true]. *)
Theorem cap_modes_keeps_false cap d r :
  (r, Some false) ∈ d -> (r, Some false) ∉ cap_modes_at cap d ->
  length (cap_modes_at cap d) <= cap /\ Forall (fun p => p.2 = Some false) (cap_modes_at cap d).
Proof.
  intros Hin Hout. destruct (cap_modes_loop_spec (length d) cap d) as [H1 [H2|H2]]; [lia|done|].
  destruct Hout. by apply H2.
Qed.

(** [note_mode] remembers only what MQTT took: below the cap, after a publication that was taken
    the remembered value is the new one, after one that was not it is what it was before, and nothing
    is published when the value is the remembered one (or is unknown for an unknown robot). *)
Theorem note_mode_remembers m robot v r m' published :
  length (modes m) < ROBOT_CAP -> valid_topic_level robot = true ->
  note_mode m robot v r = (m', published) ->
  (published = true -> dget (modes m') robot = Some v /\ dget (modes m) robot <> Some v)
  /\ (published = false -> dget (modes m') robot = dget (modes m) robot)
  /\ (dget (modes m) robot = Some v -> published = false /\ m' = m).
Proof.
  intros Hlen Hv. unfold note_mode, note_mode_begin. rewrite Hv. simpl.
  assert (Hcap : cap_modes (dmove_to_end (dset (modes m) robot v) robot)
                 = dmove_to_end (dset (modes m) robot v) robot).
  { assert (Hl : length (dmove_to_end (dset (modes m) robot v) robot) <= ROBOT_CAP).
    { unfold dmove_to_end. rewrite dget_dset_eq, length_app. simpl.
      assert (length (ddel (dset (modes m) robot v) robot) <= length (modes m)); [|lia].
      rewrite <-!length_keys, keys_ddel, keys_dset.
      case_bool_decide; [apply length_filter|].
      rewrite filter_app, filter_cons_False by naive_solver. rewrite app_nil_r. apply length_filter. }
    unfold cap_modes, cap_modes_at. destruct (length (dmove_to_end _ _)) eqn:En; [done|]. simpl.
    by rewrite bool_decide_true by lia. }
  set (sent := set_modes m (cap_modes (dmove_to_end (dset (modes m) robot v) robot))).
  assert (Hsent : dget (modes sent) robot = Some v).
  { unfold sent. simpl. by rewrite Hcap, dget_move_to_end, dget_dset_eq. }
  assert (Hgo : forall prev, dget (modes m) robot = prev -> prev <> Some v ->
    (match send sent [MMode robot v] [r] with
     | (m2, [true]) => (m2, true)
     | (m2, _) => (note_mode_rollback m2 robot v prev, false)
     end) = (m', published) ->
    (published = true -> dget (modes m') robot = Some v /\ dget (modes m) robot <> Some v)
    /\ (published = false -> dget (modes m') robot = dget (modes m) robot)
    /\ (dget (modes m) robot = Some v -> published = false /\ m' = m)).
  { intros prev Hprev Hne.
    change (send sent [MMode robot v] [r])
      with (let (m1, ok) := send_one sent (MMode robot v) r in (m1, [ok])).
    assert (Hm2 : modes (send_one sent (MMode robot v) r).1 = modes sent).
    { unfold send_one. destruct r; [done|done|]. repeat case_bool_decide; done. }
    destruct (send_one sent (MMode robot v) r) as [m2 []]; cbn [fst] in Hm2; intros E; injection E as <- <-.
    - rewrite Hm2. split_and!; [by rewrite Hprev|done|congruence].
    - split_and!; [done| |congruence]. intros _. unfold note_mode_rollback.
      rewrite Hm2, Hsent. simpl. rewrite bool_decide_true by done.
      destruct prev as [pv|]; simpl; rewrite Hprev; [apply dget_dset_eq|apply dget_ddel_eq]. }
  destruct (dget (modes m) robot) as [pv|] eqn:Eprev.
  - destruct (decide (pv = v)) as [->|Hpv].
    + rewrite bool_decide_true by done. intros [= <- <-]. by rewrite Eprev.
    + rewrite bool_decide_false by congruence. apply Hgo; congruence.
  - destruct v as [b|].
    + apply (Hgo None); done.
    + intros E. injection E as <- <-. by rewrite Eprev.
Qed.

(** *** Witnesses *)

Definition sample_key : key := mkKey "carter" (Some "run-1"%string) (IdInt 7) None.
Definition sample_parts : list Part := [("image", "front"); ("depth", "front")]%string.
Definition sample_history : history :=
  [(0, Begin sample_key (Some sample_parts) None);
   (1, PartStored sample_key ("image", "front")%string);
   (2, NodeOk sample_key ACCEPTED None (Some sample_parts) ∅);
   (3, PartStored sample_key ("depth", "front")%string)]%Z.

Lemma complete_ack_sound_witness :
  exists a out, (run handle (new_acks 120 100 1 1) sample_history).2 !! 3 = Some (MAck a :: out)
    /\ exists d, declared_for sample_history (a_key a) d /\ a_stored a = parts_set d
       /\ forall p, p ∈ d -> reported sample_history (a_key a) p.
Proof.
  exists (mkAck sample_key (Some ACCEPTED) None RESEND_NONE (parts_set sample_parts) ∅ (Some true) None),
    [MState "carter" (Some "run-1"%string) 7].
  assert (H : (run handle (new_acks 120 100 1 1) sample_history).2 !! 3
    = Some (MAck (mkAck sample_key (Some ACCEPTED) None RESEND_NONE (parts_set sample_parts) ∅ (Some true) None)
              :: [MState "carter" (Some "run-1"%string) 7%Z])) by (vm_compute; reflexivity).
  split; [exact H|].
  exact (complete_ack_sound 120 100 1 1 sample_history 3 _ _ H (list_elem_of_here _ _) eq_refl).
Defined.

Lemma timeouts_bounded_witness :
  exists e, dget (entries (run handle (new_acks 120 100 1 1) (take 3 sample_history)).1) sample_key = Some e
    /\ timeouts e < MAX_TIMEOUT_ACKS.
Proof.
  destruct (dget (entries (run handle (new_acks 120 100 1 1) (take 3 sample_history)).1) sample_key)
    as [e|] eqn:E; [|vm_compute in E; discriminate].
  exists e. split; [reflexivity|]. exact (timeouts_bounded 120 100 1 1 (take 3 sample_history) sample_key e E).
Defined.

Lemma bundle_completes_witness :
  let m1 := (node_ok (new_acks 120 100 1 1) 0 sample_key ACCEPTED None (Some sample_parts) ∅).1 in
  dget (entries (run handle m1
    ((fun tp : Z * Part => (tp.1, PartStored sample_key tp.2)) <$>
       [(1%Z, ("depth", "front")%string); (2%Z, ("image", "front")%string)])).1) sample_key = None.
Proof.
  destruct (bundle_completes (new_acks 120 100 1 1) 0 sample_key ACCEPTED None sample_parts ∅
    [(1%Z, ("depth", "front")%string); (2%Z, ("image", "front")%string)]) as (ses & out & _ & H).
  - simpl. lia.
  - reflexivity.
  - discriminate.
  - apply (bool_decide_unpack (NoDup _)). vm_compute. exact I.
  - discriminate.
  - intros p. unfold known_parts. simpl. rewrite !elem_of_cons, elem_of_nil. set_solver.
  - exact H.
Defined.

Lemma ack_tables_bounded_witness :
  tbl_ok 1 (entries (run handle (new_acks 120 1 1 1) sample_history).1).
Proof. apply (ack_tables_bounded 120 1 1 1 sample_history). lia. Defined.

Lemma high_water_mark_monotone_witness :
  let m := (run handle (new_acks 120 100 1 1) sample_history).1 in
  let te := (9%Z, NodeOk (mkKey "carter" (Some "run-1"%string) (IdInt 5) None) ACCEPTED None (Some []) ∅) in
  exists s s', dget (states m) "carter"%string = Some s /\ dget (states (handle m te).1) "carter"%string = Some s'
    /\ (highest s <= highest s')%Z.
Proof.
  intros m te. exists (mkIState (Some "run-1"%string) 7 false (Some 3%Z)),
    (mkIState (Some "run-1"%string) 7 false (Some 3%Z)).
  assert (H1 : dget (states m) "carter"%string = Some (mkIState (Some "run-1"%string) 7 false (Some 3%Z)))
    by (vm_compute; reflexivity).
  assert (H2 : dget (states (handle m te).1) "carter"%string
               = Some (mkIState (Some "run-1"%string) 7 false (Some 3%Z))) by (vm_compute; reflexivity).
  split; [exact H1|]. split; [exact H2|].
  apply (high_water_mark_monotone 120 100 1 1 sample_history te "carter" _ _ ltac:(lia) H1 H2). reflexivity.
Defined.

Lemma tracker_expires_witness :
  let m := (run handle (new_acks 120 100 1 1) (take 3 sample_history)).1 in
  dget (entries (flush (flush (flush m 300).1 500).1 700).1) sample_key = None.
Proof.
  intros m. destruct (dget (entries m) sample_key) as [e|] eqn:E; [|vm_compute in E; discriminate].
  assert (Hs : (since e = 2)%Z) by (vm_compute in E; injection E as <-; reflexivity).
  apply (tracker_expires 120 100 1 1 (take 3 sample_history) sample_key e); unfold UNACCEPTED_TTL_FACTOR;
    first [exact E|lia].
Defined.

Lemma cap_modes_keeps_false_witness :
  Forall (fun p => p.2 = Some false) (cap_modes_at 1 [("a", Some false); ("b", Some false)]%string).
Proof.
  apply (cap_modes_keeps_false 1 [("a", Some false); ("b", Some false)]%string "a").
  - left.
  - apply (bool_decide_unpack (_ ∉ _)). vm_compute. exact I.
Defined.

Lemma note_mode_remembers_witness :
  dget (modes (note_mode (new_acks 120 1 1 1) "carter" (Some false) (Rc 0)).1) "carter"%string
  = Some (Some false).
Proof.
  destruct (note_mode_remembers (new_acks 120 1 1 1) "carter" (Some false) (Rc 0) _ _
              ltac:(apply Nat.ltb_lt; vm_compute; reflexivity) eq_refl eq_refl) as (H & _).
  apply H. reflexivity.
Defined.
