(* ===== verification/RecordingPolicy.v ===== *)
(** * Recording levels (packages/telemetry_ingest/policy.py, tables.py)

    [RecordingPolicy] answers, from memory, at which level a robot's telemetry is recorded. The
    dictionaries of the source are finite maps (their order is never observable here); the level
    of a robot is cached per robot name, [None] standing for fleet-level rows. A refresh is split
    at its [await]: [refresh_begin] captures the generation, [refresh_end] installs what the loader
    returned, and the other operations may run in between. A NOTIFY payload is its [json.loads]
    value, [None] when that raises.

    What is shown: the cache is invisible (in every reachable state the level answered is the one
    resolved from the current sources and the open run); a refresh leaves the policy fresh exactly
    when nothing changed while it was in flight; a higher level records everything a lower one
    does, and the level-change event is recorded at every level. *)

From S2P Require Import Prelude.

(** ** Tables *)

Definition EVENTS_TABLE : string := "fleet_events".
Definition ROBOT_STATE_TABLE : string := "robot_state_ts".
Definition DIAGNOSTICS_TABLE : string := "diagnostics_ts".
Definition LATEST_TABLE : string := "robot_latest".
Definition LEGS_TABLE : string := "run_legs".
Definition TRACK_TABLE : string := "robot_track_ts".

(** The keys of [TIMESERIES_COLUMNS]. *)
Definition timeseries_tables : list string := [ROBOT_STATE_TABLE; DIAGNOSTICS_TABLE; TRACK_TABLE].

(** ** Levels *)

Inductive RecordingLevel := FULL | TRACK | EVENTS_ONLY | OFF.
#[export] Instance RecordingLevel_eq_dec : EqDecision RecordingLevel.
Proof. solve_decision. Defined.

Definition LEVEL_RANK (l : RecordingLevel) : nat :=
  match l with OFF => 0 | EVENTS_ONLY => 1 | TRACK => 2 | FULL => 3 end.

Definition DEFAULT_LEVEL : RecordingLevel := EVENTS_ONLY.

Definition TELEMETRY_RECORDING_CHANGED : string := "TELEMETRY.RECORDING_CHANGED".
Definition ALWAYS_RECORDED_CODES : list string := [TELEMETRY_RECORDING_CHANGED].

Definition parse_level (value : option string) : option RecordingLevel :=
  v ← value;
  if bool_decide (v = "full"%string) then Some FULL
  else if bool_decide (v = "track"%string) then Some TRACK
  else if bool_decide (v = "events_only"%string) then Some EVENTS_ONLY
  else if bool_decide (v = "off"%string) then Some OFF
  else None.

Fixpoint first_level (values : list (option string)) : RecordingLevel :=
  match values with
  | [] => DEFAULT_LEVEL
  | v :: rest => match parse_level v with Some l => l | None => first_level rest end
  end.

(** [resolve] *)
Definition resolve (robot_level site_level global_level mission_level next_run_level : option string)
    : RecordingLevel :=
  first_level [next_run_level; mission_level; robot_level; site_level; global_level].

(** [allows]; the exception is the [ValueError] for an unknown table. *)
Definition allows (level : RecordingLevel) (table : string) (code : option string)
    : result string bool :=
  let at_least l := Ok (bool_decide (LEVEL_RANK l <= LEVEL_RANK level)) in
  if bool_decide (table = LATEST_TABLE) then Ok true
  else if bool_decide (table = LEGS_TABLE) then at_least EVENTS_ONLY
  else if bool_decide (table = EVENTS_TABLE) then
    match code with
    | Some c => if bool_decide (c ∈ ALWAYS_RECORDED_CODES) then Ok true else at_least EVENTS_ONLY
    | None => at_least EVENTS_ONLY
    end
  else if bool_decide (table = TRACK_TABLE) then at_least TRACK
  else if bool_decide (table ∈ timeseries_tables) then at_least FULL
  else Raise "unknown table"%string.

(** ** Sources and the policy *)

Record PolicySources := mkSources {
  robot_levels : gmap string (option string);
  site_levels : gmap string (option string);
  robot_sites : gmap string (option string);
  global_level : option string;
}.

Definition no_sources : PolicySources := mkSources ∅ ∅ ∅ None.

Record RecordingPolicy := mkPolicy {
  sources : PolicySources;
  cache : gmap (option string) RecordingLevel;
  run_levels : gmap string RecordingLevel;
  stale : bool;
  loaded : bool;
  generation : nat;
}.

(** [__init__], without or with initial sources. *)
Definition new_policy (init : option PolicySources) : RecordingPolicy :=
  match init with
  | None => mkPolicy no_sources ∅ ∅ true false 0
  | Some s => mkPolicy s ∅ ∅ false true 0
  end.

(** [d.get(k)] on a dictionary whose values may be [None]. *)
Definition get_flat (m : gmap string (option string)) (k : string) : option string := mjoin (m !! k).

(** [inherited_level] *)
Definition inherited_level (src : PolicySources) (robot_name : option string)
    (mission_level next_run_level : option string) : RecordingLevel :=
  match robot_name with
  | None => resolve None None (global_level src) mission_level next_run_level
  | Some r =>
      let site_level := s ← get_flat (robot_sites src) r; get_flat (site_levels src) s in
      resolve (get_flat (robot_levels src) r) site_level (global_level src) mission_level next_run_level
  end.

Definition run_level (p : RecordingPolicy) (robot_name : option string) : option RecordingLevel :=
  r ← robot_name; run_levels p !! r.

(** [level_for]: also fills the cache. *)
Definition level_for (p : RecordingPolicy) (robot_name : option string)
    : RecordingPolicy * RecordingLevel :=
  match run_level p robot_name with
  | Some l => (p, l)
  | None =>
      match cache p !! robot_name with
      | Some l => (p, l)
      | None =>
          let l := inherited_level (sources p) robot_name None None in
          (mkPolicy (sources p) (<[robot_name := l]> (cache p)) (run_levels p) (stale p) (loaded p)
             (generation p), l)
      end
  end.

(** [RecordingPolicy.allows] *)
Definition policy_allows (p : RecordingPolicy) (table : string) (robot_name : option string)
    (code : option string) : RecordingPolicy * result string bool :=
  let (p1, l) := level_for p robot_name in (p1, allows l table code).

(** [site_for] *)
Definition site_for (p : RecordingPolicy) (robot_name : option string) : option string :=
  r ← robot_name; get_flat (robot_sites (sources p)) r.

(** [set_run_level] *)
Definition set_run_level (p : RecordingPolicy) (robot_name : string) (level : option RecordingLevel)
    : RecordingPolicy :=
  mkPolicy (sources p) (cache p)
    (match level with
     | None => delete robot_name (run_levels p)
     | Some l => <[robot_name := l]> (run_levels p)
     end) (stale p) (loaded p) (generation p).

(** [invalidate] *)
Definition invalidate (p : RecordingPolicy) : RecordingPolicy :=
  mkPolicy (sources p) (cache p) (run_levels p) true (loaded p) (S (generation p)).

(** [_set], after the sources were written; the boolean is its result. *)
Definition set_sources (p : RecordingPolicy) (src : PolicySources) (changed : bool)
    : RecordingPolicy * bool :=
  (mkPolicy src ∅ (run_levels p) (stale p) (loaded p)
     (if changed then S (generation p) else generation p), changed).

Definition differs (m : gmap string (option string)) (k : string) (v : option string) : bool :=
  bool_decide (m !! k <> Some v).

Definition set_robot_level (p : RecordingPolicy) (robot_name : string) (value : option string)
    : RecordingPolicy * bool :=
  let s := sources p in
  set_sources p (mkSources (<[robot_name := value]> (robot_levels s)) (site_levels s) (robot_sites s)
    (global_level s)) (differs (robot_levels s) robot_name value).

Definition forget_robot (p : RecordingPolicy) (robot_name : string) : RecordingPolicy * bool :=
  let s := sources p in
  let changed := bool_decide (is_Some (robot_levels s !! robot_name))
                 || bool_decide (is_Some (robot_sites s !! robot_name)) in
  set_sources (set_run_level p robot_name None)
    (mkSources (delete robot_name (robot_levels s)) (site_levels s)
       (delete robot_name (robot_sites s)) (global_level s)) changed.

Definition set_robot_site (p : RecordingPolicy) (robot_name : string) (site_id : option string)
    : RecordingPolicy * bool :=
  let s := sources p in
  set_sources p (mkSources (robot_levels s) (site_levels s) (<[robot_name := site_id]> (robot_sites s))
    (global_level s)) (differs (robot_sites s) robot_name site_id).

Definition set_site_level (p : RecordingPolicy) (site_id : string) (value : option string)
    : RecordingPolicy * bool :=
  let s := sources p in
  set_sources p (mkSources (robot_levels s) (<[site_id := value]> (site_levels s)) (robot_sites s)
    (global_level s)) (differs (site_levels s) site_id value).

Definition forget_site (p : RecordingPolicy) (site_id : string) : RecordingPolicy * bool :=
  let s := sources p in
  set_sources p (mkSources (robot_levels s) (delete site_id (site_levels s)) (robot_sites s)
    (global_level s)) (bool_decide (is_Some (site_levels s !! site_id))).

Definition set_global_level (p : RecordingPolicy) (value : option string) : RecordingPolicy * bool :=
  let s := sources p in
  set_sources p (mkSources (robot_levels s) (site_levels s) (robot_sites s) value)
    (bool_decide (global_level s <> value)).

(** ** Whole objects *)

Definition GLOBAL_SETTINGS_NAME : string := "global".

(** A robot, site or settings object, reduced to what the policy reads. *)
Record api_object := mkApiObject {
  obj_name : string;
  obj_lifecycle : string;
  obj_level : option string;
}.

Definition is_deleted (o : api_object) : bool := bool_decide (obj_lifecycle o = "DELETED"%string).

Definition apply_robot_object (p : RecordingPolicy) (o : api_object) : RecordingPolicy * bool :=
  if is_deleted o then forget_robot p (obj_name o)
  else set_robot_level p (obj_name o) (obj_level o).

Definition apply_settings_object (p : RecordingPolicy) (o : api_object) : RecordingPolicy * bool :=
  if bool_decide (obj_name o <> GLOBAL_SETTINGS_NAME) then (p, false)
  else set_global_level p (if is_deleted o then None else obj_level o).

Definition apply_site_object (p : RecordingPolicy) (o : api_object) : RecordingPolicy * bool :=
  if is_deleted o then forget_site p (obj_name o)
  else set_site_level p (obj_name o) (obj_level o).

(** JSON values, as [json.loads] builds them. *)
Inductive json := JNull | JStr (s : string) | JOther | JObj (fields : list (string * json)).

Fixpoint jfield (fields : list (string * json)) (k : string) : option json :=
  match fields with
  | [] => None
  | (k', v) :: t => if bool_decide (k' = k) then Some v else jfield t k
  end.

(** [assignment_payload] *)
Definition assignment_payload (robot_name : string) (site_id : option string) : json :=
  JObj [("robot_name"%string, JStr robot_name);
        ("site_id"%string, match site_id with Some s => JStr s | None => JNull end)].

(** [parse_assignment_payload]; [None] is the [ValueError]. *)
Definition parse_assignment_payload (payload : option json) : option (string * option string) :=
  match payload with
  | Some (JObj fields) =>
      robot_name ← jfield fields "robot_name"; site_id ← jfield fields "site_id";
      match robot_name, site_id with
      | JStr r, JNull => if bool_decide (r = ""%string) then None else Some (r, None)
      | JStr r, JStr s => if bool_decide (r = ""%string) then None else Some (r, Some s)
      | _, _ => None
      end
  | _ => None
  end.

Definition apply_assignment_payload (p : RecordingPolicy) (payload : option json)
    : RecordingPolicy * bool :=
  match parse_assignment_payload payload with
  | None => (invalidate p, false)
  | Some (r, site) => set_robot_site p r site
  end.

(** [replace_sources] *)
Definition replace_sources (p : RecordingPolicy) (src : PolicySources) : RecordingPolicy :=
  mkPolicy src ∅ (run_levels p) false true (generation p).

(** [refresh], up to and after its [await]; [None] is a load that raised. *)
Definition refresh_begin (p : RecordingPolicy) : nat := generation p.

Definition refresh_end (p : RecordingPolicy) (began : nat) (load : option PolicySources)
    : RecordingPolicy * bool :=
  match load with
  | None => (p, false)
  | Some src =>
      let p1 := replace_sources p src in
      (mkPolicy (sources p1) (cache p1) (run_levels p1) (bool_decide (began <> generation p1))
         (loaded p1) (generation p1), true)
  end.

(** Everything a host does to the policy. *)
Inductive policy_op :=
| PLevelFor (r : option string)
| PSetRunLevel (r : string) (l : option RecordingLevel)
| PInvalidate
| PRobot (o : api_object)
| PSettings (o : api_object)
| PSite (o : api_object)
| PAssignment (payload : option json)
| PRefreshEnd (began : nat) (load : option PolicySources).

(** The new policy, and whether the operation bumps the generation (a changed value or an
    invalidation). *)
Definition policy_step (p : RecordingPolicy) (op : policy_op) : RecordingPolicy :=
  match op with
  | PLevelFor r => (level_for p r).1
  | PSetRunLevel r l => set_run_level p r l
  | PInvalidate => invalidate p
  | PRobot o => (apply_robot_object p o).1
  | PSettings o => (apply_settings_object p o).1
  | PSite o => (apply_site_object p o).1
  | PAssignment payload => (apply_assignment_payload p payload).1
  | PRefreshEnd began load => (refresh_end p began load).1
  end.

(** The operation changes what the sources say, or marks them unknown. *)
Definition op_changes (p : RecordingPolicy) (op : policy_op) : bool :=
  match op with
  | PLevelFor _ | PSetRunLevel _ _ | PRefreshEnd _ _ => false
  | PInvalidate => true
  | PRobot o => (apply_robot_object p o).2
  | PSettings o => (apply_settings_object p o).2
  | PSite o => (apply_site_object p o).2
  | PAssignment payload =>
      match parse_assignment_payload payload with
      | None => true
      | Some _ => (apply_assignment_payload p payload).2
      end
  end.

Fixpoint any_changes (p : RecordingPolicy) (ops : list policy_op) : bool :=
  match ops with
  | [] => false
  | op :: rest => op_changes p op || any_changes (policy_step p op) rest
  end.

(** What [level_for] is meant to answer: the open run's level, else the sources'. *)
Definition spec_level (p : RecordingPolicy) (r : option string) : RecordingLevel :=
  match run_level p r with
  | Some l => l
  | None => inherited_level (sources p) r None None
  end.

(** ** Lemmas *)

Definition cache_coherent (p : RecordingPolicy) : Prop :=
  forall r l, cache p !! r = Some l -> l = inherited_level (sources p) r None None.

Lemma level_for_spec p r : cache_coherent p -> (level_for p r).2 = spec_level p r.
Proof.
  intros Hc. unfold level_for, spec_level. destruct (run_level p r); [done|].
  destruct (cache p !! r) eqn:E; simpl; [by apply Hc|done].
Qed.

Lemma level_for_coherent p r : cache_coherent p -> cache_coherent (level_for p r).1.
Proof.
  intros Hc. unfold level_for. destruct (run_level p r); [done|].
  destruct (cache p !! r) eqn:E; [done|]. intros r' l. simpl.
  rewrite lookup_insert. case_decide; subst; [by intros [= <-]|apply Hc].
Qed.

Lemma set_sources_coherent p src changed : cache_coherent (set_sources p src changed).1.
Proof. intros r l. simpl. by rewrite lookup_empty. Qed.

Lemma policy_step_coherent p op : cache_coherent p -> cache_coherent (policy_step p op).
Proof.
  intros Hc. destruct op as [r|r l| |o|o|o|payload|began load]; simpl; try done.
  - by apply level_for_coherent.
  - unfold apply_robot_object. case_match; apply set_sources_coherent.
  - unfold apply_settings_object. case_match; [done|apply set_sources_coherent].
  - unfold apply_site_object. case_match; apply set_sources_coherent.
  - unfold apply_assignment_payload. repeat case_match; [apply set_sources_coherent|done].
  - unfold refresh_end. destruct load; [|done]. intros r l. simpl. by rewrite lookup_empty.
Qed.

Lemma new_policy_coherent init : cache_coherent (new_policy init).
Proof. intros r l. destruct init; simpl; by rewrite lookup_empty. Qed.

(** Only a change moves the generation, and only forward. *)
Lemma policy_step_generation p op :
  generation (policy_step p op) = (if op_changes p op then S (generation p) else generation p).
Proof.
  destruct op as [r|r l| |o|o|o|payload|began load]; simpl; try done.
  - unfold level_for. by repeat case_match.
  - unfold apply_robot_object. by case_match.
  - unfold apply_settings_object. by case_match.
  - unfold apply_site_object. by case_match.
  - unfold apply_assignment_payload. by destruct (parse_assignment_payload payload) as [[r site]|].
  - unfold refresh_end. by destruct load.
Qed.

Lemma steps_generation p ops :
  generation p <= generation (foldl policy_step p ops) /\
  (generation (foldl policy_step p ops) = generation p <-> any_changes p ops = false).
Proof.
  revert p; induction ops as [|op ops IH]; intros p; simpl; [done|].
  destruct (IH (policy_step p op)) as [Hle Heq]. rewrite policy_step_generation in *.
  destruct (op_changes p op); simpl; [split; [lia|]; split; [lia|done]|]. auto.
Qed.

(** ** Properties *)

(** The cache is invisible. In every state the hosts' handlers, refreshes and lookups can
    reach, the level answered for a robot (or for fleet rows) is the open run's level if one is
    set, and otherwise the one resolved from the sources as they are now. *)
Theorem policy_cache_transparent (init : option PolicySources) (p : RecordingPolicy)
    (robot_name : option string) :
  reachable policy_step (new_policy init) p -> (level_for p robot_name).2 = spec_level p robot_name.
Proof.
  intros Hr. apply level_for_spec. revert Hr.
  apply reachable_inv; [apply new_policy_coherent|intros; by apply policy_step_coherent].
Qed.

Lemma policy_cache_transparent_witness :
  (level_for (foldl policy_step (new_policy None)
     [PRobot (mkApiObject "r1" "ALIVE" (Some "track")); PLevelFor (Some "r1");
      PRobot (mkApiObject "r1" "DELETED" None)]%string) (Some "r1"%string)).2 = EVENTS_ONLY.
Proof.
  exact (policy_cache_transparent None _ (Some "r1"%string) (reachable_foldl _ _ _)).
Defined.

(** No change is lost to a refresh in flight. Whatever runs between the start and the end of a
    successful refresh, the policy is stale afterwards exactly when one of those operations
    changed a source or invalidated the policy. *)
Theorem refresh_keeps_changes (p : RecordingPolicy) (ops : list policy_op) (src : PolicySources) :
  stale (refresh_end (foldl policy_step p ops) (refresh_begin p) (Some src)).1 = any_changes p ops.
Proof.
  destruct (steps_generation p ops) as [_ Hg]. unfold refresh_begin. simpl.
  destruct (any_changes p ops).
  - apply bool_decide_true. intros E. symmetry in E. apply Hg in E. done.
  - apply bool_decide_false. intros E. apply E. symmetry. by apply Hg.
Qed.

(** The levels form a ladder. A row stored at one level is stored at every higher one; at the
    lowest level only [robot_latest] and the level-change event are stored; the level-change event
    is stored at every level; and the answer is an error exactly for unknown tables. *)
Theorem recording_ladder (table : string) (code : option string) :
  (forall l1 l2, LEVEL_RANK l1 <= LEVEL_RANK l2 ->
     allows l1 table code = Ok true -> allows l2 table code = Ok true) /\
  (allows OFF table code = Ok true ->
     table = LATEST_TABLE \/ (table = EVENTS_TABLE /\ code = Some TELEMETRY_RECORDING_CHANGED)) /\
  (forall l, allows l EVENTS_TABLE (Some TELEMETRY_RECORDING_CHANGED) = Ok true) /\
  (forall l e, allows l table code = Raise e ->
     table ∉ [LATEST_TABLE; LEGS_TABLE; EVENTS_TABLE] ++ timeseries_tables).
Proof.
  split_and!.
  - intros l1 l2 Hle. unfold allows. cbv zeta.
    destruct l1, l2; simpl in Hle; try lia; repeat case_match; try done; vm_compute; congruence.
  - unfold allows. cbv zeta. repeat case_match; bprop; subst; auto; try (by vm_compute).
    intros _. right. split; [done|]. set_solver.
  - by intros [].
  - intros l e. unfold allows. repeat case_match; try done. bprop. set_solver.
Qed.

(** Site assignments survive the NOTIFY channel, and an unreadable payload loses nothing: the
    payload the API sends is read back as sent (any robot name but the empty one), and a payload
    that cannot be read marks the policy stale and changes no level. *)
Theorem assignment_notify_roundtrip (p : RecordingPolicy) (robot : string) (site : option string)
    (payload : option json) :
  (robot = ""%string \/
   parse_assignment_payload (Some (assignment_payload robot site)) = Some (robot, site)) /\
  (parse_assignment_payload payload = None ->
     stale (apply_assignment_payload p payload).1 = true /\
     forall r, spec_level (apply_assignment_payload p payload).1 r = spec_level p r).
Proof.
  split.
  - destruct (decide (robot = ""%string)) as [|Hr]; [by left|right].
    unfold assignment_payload. simpl.
    destruct site; simpl; by rewrite bool_decide_false.
  - intros E. unfold apply_assignment_payload. by rewrite E.
Qed.

Lemma assignment_notify_roundtrip_witness :
  parse_assignment_payload (Some (JObj [("robot_name", JStr "")]))%string = None /\
  stale (apply_assignment_payload (new_policy (Some no_sources))
    (Some (JObj [("robot_name", JStr "")]))%string).1 = true.
Proof.
  split; [reflexivity|].
  apply (assignment_notify_roundtrip (new_policy (Some no_sources)) "r" None
    (Some (JObj [("robot_name", JStr "")]))%string). reflexivity.
Defined.
