(* ===== verification/IngestQueue.v ===== *)
(** * The ingest queue and the spill file (packages/telemetry_ingest/queue.py, metrics.py)

    Hosts put rows into a bounded queue; what does not fit is dropped and counted (time series) or
    appended to the spill file (events); updates of [robot_latest] are merged into a pending map.
    Every method runs on the event loop without awaiting, so it is one step of the model.

    Modelling choices. A spill line is its JSON object ([Garbage] when [json.loads] raises), in
    which the texts [isoformat()] and [str(uuid)] produce are the constructors [CIso] and [CUuid]
    (Python reads both back). A datetime is its wall time in microseconds and its UTC offset. A file
    operation that may raise [OSError] takes a boolean saying whether it succeeds, and the wall
    clock is an argument. A write that fails leaves its file as it was, except in [append_torn]. The recording level is checked through the interface [RecordingGate]. *)

From S2P Require Import Prelude PyDict RecordingPolicy.

(** ** Metrics *)

Record FlushStats := mkFlushStats {
  flushes : nat;
  flush_failures : nat;
  flush_duration_last : Z;
  flush_duration_total : Z;
  flush_duration_max : Z;
  last_flush_at : option Z;
  last_flush_ok_at : option Z;
}.

Record Metrics := mkMetrics {
  rows_written : gmap string nat;
  rows_dropped : gmap (string * string) nat;   (** table and reason *)
  rows_skipped : gmap string nat;
  events_spilled : nat;
  events_replayed : nat;
  events_rejected : nat;
  events_lost : nat;
  spill_corrupt_lines : nat;
  queue_depth : nat;
  queue_depth_max : nat;
  flush_stats : FlushStats;
}.

Definition no_metrics : Metrics := 
  mkMetrics ∅ ∅ ∅ 0 0 0 0 0 0 0 (mkFlushStats 0 0 0 0 0 None None).

(** [counter[k] += n], not touched for [n = 0]. *)
Definition bump {K : Type} `{Countable K} (m : gmap K nat) (k : K) (n : nat) : gmap K nat :=
  if bool_decide (n = 0) then m else <[k := default 0 (m !! k) + n]> m.

Definition written (m : Metrics) (table : string) (n : nat) : Metrics :=
  mkMetrics (bump (rows_written m) table n) (rows_dropped m) (rows_skipped m) (events_spilled m)
    (events_replayed m) (events_rejected m) (events_lost m) (spill_corrupt_lines m) (queue_depth m)
    (queue_depth_max m) (flush_stats m).

Definition dropped (m : Metrics) (table reason : string) (n : nat) : Metrics :=
  mkMetrics (rows_written m) (bump (rows_dropped m) (table, reason) n) (rows_skipped m)
    (events_spilled m) (events_replayed m) (events_rejected m) (events_lost m)
    (spill_corrupt_lines m) (queue_depth m) (queue_depth_max m) (flush_stats m).

Definition skipped (m : Metrics) (table : string) (n : nat) : Metrics :=
  mkMetrics (rows_written m) (rows_dropped m) (bump (rows_skipped m) table n) (events_spilled m)
    (events_replayed m) (events_rejected m) (events_lost m) (spill_corrupt_lines m) (queue_depth m)
    (queue_depth_max m) (flush_stats m).

Definition set_queue_depth (m : Metrics) (depth : nat) : Metrics :=
  mkMetrics (rows_written m) (rows_dropped m) (rows_skipped m) (events_spilled m)
    (events_replayed m) (events_rejected m) (events_lost m) (spill_corrupt_lines m) depth
    (Nat.max depth (queue_depth_max m)) (flush_stats m).

(** The plain counters: [events_spilled += a] and so on. *)
Definition add_counters (m : Metrics) (spilled replayed rejected lost corrupt : nat) : Metrics :=
  mkMetrics (rows_written m) (rows_dropped m) (rows_skipped m) (events_spilled m + spilled)
    (events_replayed m + replayed) (events_rejected m + rejected) (events_lost m + lost)
    (spill_corrupt_lines m + corrupt) (queue_depth m) (queue_depth_max m) (flush_stats m).

(** [flush_finished], as the writer calls it (with the wall clock). *)
Definition flush_finished (m : Metrics) (duration : Z) (failed : bool) (at_ : Z) : Metrics :=
  let f := flush_stats m in
  mkMetrics (rows_written m) (rows_dropped m) (rows_skipped m) (events_spilled m)
    (events_replayed m) (events_rejected m) (events_lost m) (spill_corrupt_lines m) (queue_depth m)
    (queue_depth_max m)
    (mkFlushStats (S (flushes f)) (if failed then S (flush_failures f) else flush_failures f)
       duration (flush_duration_total f + duration)%Z (Z.max duration (flush_duration_max f))
       (Some at_) (if failed then last_flush_ok_at f else Some at_)).

(** ** Rows *)

(** A value of a spilled JSON object. *)
Inductive cell := CIso (t : Z) | CUuid (u : N) | CJson (j : json).

(** A [fleet_events] row as [build_row] makes it. *)
Record event_row := mkEventRow {
  ev_ts : Z;                 (** UTC, microseconds *)
  ev_id : N;
  ev_robot_name : cell;
  ev_run_id : option N;
  ev_site_id : cell;
  ev_code : cell;
  ev_severity : cell;
  ev_sw_version : cell;
  ev_payload : cell;
  ev_source : cell;
}.

Inductive spill_line := Blank | Garbage | Obj (fields : list (string * cell)).

(** [encode_event] (the keys sorted, as [json.dumps] writes them). *)
Definition encode_event (row : event_row) : spill_line :=
  Obj [("code", ev_code row); ("event_id", CUuid (ev_id row)); ("payload", ev_payload row);
       ("robot_name", ev_robot_name row);
       ("run_id", match ev_run_id row with Some u => CUuid u | None => CJson JNull end);
       ("severity", ev_severity row); ("site_id", ev_site_id row); ("source", ev_source row);
       ("sw_version", ev_sw_version row); ("ts", CIso (ev_ts row))]%string.

(** [decode_event]; [None] is the [ValueError], [KeyError] or [TypeError] of a corrupt line. *)
Definition decode_event (line : spill_line) : option event_row :=
  match line with
  | Blank | Garbage => None
  | Obj d =>
      ts ← dget d "ts"%string; eid ← dget d "event_id"%string; robot ← dget d "robot_name"%string;
      run ← dget d "run_id"%string; site ← dget d "site_id"%string; code ← dget d "code"%string;
      sev ← dget d "severity"%string; sw ← dget d "sw_version"%string;
      payload ← dget d "payload"%string; source ← dget d "source"%string;
      match ts, eid, run with
      | CIso t, CUuid u, CJson JNull => Some (mkEventRow t u robot None site code sev sw payload source)
      | CIso t, CUuid u, CUuid r => Some (mkEventRow t u robot (Some r) site code sev sw payload source)
      | _, _, _ => None
      end
  end.

(** Python values of a time-series or [robot_latest] row. *)
Inductive pyval :=
| VNone
| VStr (s : string)
| VUuid (u : N)
| VTime (wall : Z) (tz : option Z)   (** a datetime: wall time and UTC offset, microseconds *)
| VOther (tag : nat).                (** numbers, booleans, JSON objects: passed through *)

(** [ids.normalize_ts]; [None] is the [TypeError]. *)
Definition normalize_ts (v : pyval) : option pyval :=
  match v with
  | VTime wall None => Some (VTime wall (Some 0%Z))
  | VTime wall (Some off) => Some (VTime (wall - off) (Some 0%Z))
  | _ => None
  end.

Section uuid.
(** [uuid.UUID(text)]: the number, or [None] for the [ValueError]. *)
Context (parse_uuid : string -> option N).

(** [uuid.UUID(str(v))] *)
Definition to_uuid (v : pyval) : option pyval :=
  match v with
  | VUuid u => Some (VUuid u)
  | VStr s => VUuid <$> parse_uuid s
  | _ => None
  end.

(** [if values.get(k) is not None: values[k] = f(values[k])] *)
Definition coerce (f : pyval -> option pyval) (d : list (string * pyval)) (k : string)
    : option (list (string * pyval)) :=
  match dget d k with
  | None | Some VNone => Some d
  | Some v => v' ← f v; Some (dset d k v')
  end.

(** The conversions of [_put_timeseries] and of [put_latest]. *)
Definition coerce_series (row : list (string * pyval)) : option (list (string * pyval)) :=
  d1 ← coerce normalize_ts row "ts"%string;
  d2 ← coerce to_uuid d1 "run_id"%string;
  d3 ← coerce to_uuid d2 "map_session_id"%string;
  coerce to_uuid d3 "run_epoch"%string.
Definition coerce_latest (fields : list (string * pyval)) : option (list (string * pyval)) :=
  d1 ← coerce to_uuid fields "active_run_id"%string;
  coerce normalize_ts d1 "last_seen"%string.
End uuid.

(** ** The spill file *)

Record SpillFile := mkSpill {
  lines : list spill_line;           (** the file; [[]] when it does not exist *)
  has_data : bool;
  pending_lines : nat;
  pending_since : option Z;
  rejected_lines : list spill_line;  (** the [.rejected] file *)
}.

(** [__init__] and [_repair] on the file found (a partial last line counts as a line). *)
Definition open_spill (found : list spill_line) (mtime : Z) (rejected : list spill_line) : SpillFile :=
  match found with
  | [] => mkSpill [] false 0 None rejected
  | _ => mkSpill found true (length found) (Some mtime) rejected
  end.

Definition set_empty (f : SpillFile) : SpillFile :=
  mkSpill (lines f) false 0 None (rejected_lines f).

(** [append], when the file can be written. *)
Definition append (f : SpillFile) (m : Metrics) (rows : list event_row) (wall : Z)
    : SpillFile * Metrics :=
  match rows with
  | [] => (f, m)
  | _ =>
      let since := if has_data f then match pending_since f with Some t => Some t | None => Some wall end
                   else Some wall in
      (mkSpill (lines f ++ (encode_event <$> rows)) true (pending_lines f + length rows) since
         (rejected_lines f),
       add_counters m (length rows) 0 0 0 0)
  end.

(** An [append] that raises after part of its text was written (a full disk): the first [n] lines, then the next one
    without its end, which is no JSON. Nothing is counted, and only the next start repairs the file. *)
Definition append_torn (f : SpillFile) (rows : list event_row) (n : nat) : SpillFile :=
  mkSpill (lines f ++ (encode_event <$> take n rows) ++ [Garbage]) (has_data f) (pending_lines f) (pending_since f)
    (rejected_lines f).
(** The next [append] goes on in that line: its first row makes it longer. *)
Definition append_glued (f : SpillFile) (m : Metrics) (rows : list event_row) (wall : Z) : SpillFile * Metrics :=
  let '(f', m') := append f m rows wall in
  (mkSpill (lines f ++ (encode_event <$> tail rows)) (has_data f') (pending_lines f') (pending_since f') (rejected_lines f'), m').

(** [reject]: counted whether or not the rejected file can be written. *)
Definition reject (f : SpillFile) (m : Metrics) (rows : list event_row) (io_ok : bool)
    : SpillFile * Metrics :=
  (mkSpill (lines f) (has_data f) (pending_lines f) (pending_since f)
     (if io_ok then rejected_lines f ++ (encode_event <$> rows) else rejected_lines f),
   add_counters m 0 0 (length rows) 0 0).

(** The loop of [read]: decoded rows, lines consumed, corrupt lines. *)
Fixpoint read_lines (limit : nat) (ls : list spill_line) : list event_row * nat * nat :=
  match limit, ls with
  | 0, _ => ([], 0, 0)
  | _, [] => ([], 0, 0)
  | S l', line :: t =>
      match line with
      | Blank => let '(rows, n, c) := read_lines limit t in (rows, S n, c)
      | _ =>
          match decode_event line with
          | Some r => let '(rows, n, c) := read_lines l' t in (r :: rows, S n, c)
          | None => let '(rows, n, c) := read_lines limit t in (rows, S n, S c)
          end
      end
  end.

(** [read] *)
Definition read (f : SpillFile) (m : Metrics) (limit : nat)
    : SpillFile * Metrics * (list event_row * nat) :=
  let '(rows, n, c) := read_lines limit (lines f) in
  (if bool_decide (lines f = []) then set_empty f else f, add_counters m 0 0 0 0 c, (rows, n)).

Definition is_blank (l : spill_line) : bool := match l with Blank => true | _ => false end.

(** [consume] *)
Definition consume (f : SpillFile) (n_lines : nat) : SpillFile :=
  if bool_decide (n_lines = 0) then f
  else
    let remaining := drop n_lines (lines f) in
    if forallb is_blank remaining
    then mkSpill [] false 0 None (rejected_lines f)
    else mkSpill remaining true (length remaining) (pending_since f) (rejected_lines f).

(** ** The queue *)

(** What the queue asks of a recording policy: may a row be stored? The lookup may update the
    policy (its cache) and may raise. *)
Class RecordingGate (P : Type) :=
  gate_allows : P -> string -> option string -> option string -> P * result string bool.

(** [policy is None]: everything is recorded. *)
#[export] Instance no_gate : RecordingGate unit := fun p _ _ _ => (p, Ok true).
#[export] Instance policy_gate : RecordingGate RecordingPolicy :=
  fun p table robot code => policy_allows p table robot code.

Inductive item := IEvent (row : event_row) | ISeries (table : string) (values : list pyval).

Inductive put_result := QUEUED | SKIPPED | DROPPED | SPILLED | LOST | MERGED.
#[export] Instance put_result_eq_dec : EqDecision put_result.
Proof. solve_decision. Defined.

(** [TIMESERIES_COLUMNS] *)
Definition ROBOT_STATE_COLUMNS : list string :=
  ["ts"; "robot_name"; "run_id"; "x"; "y"; "yaw"; "map_id"; "battery"; "state"; "order_id";
   "last_node"; "driving"]%string.
Definition DIAGNOSTICS_COLUMNS : list string :=
  ["ts"; "robot_name"; "cpu"; "gpu"; "ram"; "temp_max"; "power_w"; "nodes_down"; "gnss_fix";
   "gnss_sats"; "gnss_h_acc_m"; "gnss_corr_age_s"]%string.
Definition TRACK_COLUMNS : list string :=
  ["ts"; "robot_name"; "run_id"; "leg_seq"; "x"; "y"; "theta"; "speed"; "omega"; "map_id"; "x_map";
   "y_map"; "theta_map"; "map_session_id"; "run_epoch"]%string.
Definition timeseries_columns (table : string) : option (list string) :=
  if bool_decide (table = ROBOT_STATE_TABLE) then Some ROBOT_STATE_COLUMNS
  else if bool_decide (table = DIAGNOSTICS_TABLE) then Some DIAGNOSTICS_COLUMNS
  else if bool_decide (table = TRACK_TABLE) then Some TRACK_COLUMNS
  else None.

(** [LATEST_OWNED_COLUMNS] *)
Inductive Source := DISPATCH | API.
Definition LATEST_OWNED_COLUMNS (s : Source) : list string :=
  match s with
  | DISPATCH => ["state_msg"; "active_run_id"; "site_id"; "sw_version"; "last_seen"]%string
  | API => ["diagnostics"; "nav_supervisor"]%string
  end.

Section queue.
Context {P : Type} `{!RecordingGate P} (parse_uuid : string -> option N).

Record IngestQueue := mkQueue {
  source : Source;
  capacity : nat;
  queue : list item;
  latest : list (string * list (string * pyval));
  spill : SpillFile;
  metrics : Metrics;
  policy : P;
}.

(** [__init__]; the exception is the [ValueError] of an unbounded queue. *)
Definition new_queue (src : Source) (sp : SpillFile) (maxsize : nat) (pol : P)
    : result string IngestQueue :=
  if bool_decide (maxsize = 0) then Raise "maxsize must be positive"%string
  else Ok (mkQueue src maxsize [] [] sp no_metrics pol).

Definition set_queue (q : IngestQueue) (items : list item) (m : Metrics) : IngestQueue :=
  mkQueue (source q) (capacity q) items (latest q) (spill q) m (policy q).
Definition set_spill (q : IngestQueue) (f : SpillFile) (m : Metrics) : IngestQueue :=
  mkQueue (source q) (capacity q) (queue q) (latest q) f m (policy q).
Definition set_latest (q : IngestQueue) (l : list (string * list (string * pyval))) : IngestQueue :=
  mkQueue (source q) (capacity q) (queue q) l (spill q) (metrics q) (policy q).

(** [_allowed] *)
Definition allowed (q : IngestQueue) (table : string) (robot code : option string)
    : IngestQueue * result string bool :=
  let (p1, r) := gate_allows (policy q) table robot code in
  let q1 := mkQueue (source q) (capacity q) (queue q) (latest q) (spill q) (metrics q) p1 in
  match r with
  | Ok false => (set_queue q1 (queue q1) (skipped (metrics q1) table 1), Ok false)
  | _ => (q1, r)
  end.

(** [self._queue.put_nowait] and [_depth]; [None] is [QueueFull]. *)
Definition put_nowait (q : IngestQueue) (i : item) : option IngestQueue :=
  if bool_decide (length (queue q) < capacity q)
  then Some (set_queue q (queue q ++ [i]) (set_queue_depth (metrics q) (S (length (queue q)))))
  else None.

(** [spill_events]: never raises; rows that cannot be written are counted as lost. A write that fails leaves the
    file as it was; what happens when part of the text was written is [torn_append_loses_next]. *)
Definition spill_events (q : IngestQueue) (rows : list event_row) (io_ok : bool) (wall : Z)
    : IngestQueue :=
  match rows with
  | [] => q
  | _ =>
      if io_ok
      then let (f, m) := append (spill q) (metrics q) rows wall in set_spill q f m
      else set_spill q (spill q) (add_counters (metrics q) 0 0 0 (length rows) 0)
  end.

(** [_spill_one] *)
Definition spill_one (q : IngestQueue) (row : event_row) (io_ok : bool) (wall : Z)
    : IngestQueue * put_result :=
  (spill_events q [row] io_ok wall, if io_ok then SPILLED else LOST).

Definition cell_str (c : cell) : option string :=
  match c with CJson (JStr s) => Some s | _ => None end.

(** [put_event] of a prebuilt row. *)
Definition put_event (q : IngestQueue) (row : event_row) (io_ok : bool) (wall : Z)
    : IngestQueue * result string put_result :=
  match allowed q EVENTS_TABLE (cell_str (ev_robot_name row)) (cell_str (ev_code row)) with
  | (q1, Raise e) => (q1, Raise e)
  | (q1, Ok false) => (q1, Ok SKIPPED)
  | (q1, Ok true) =>
      match put_nowait q1 (IEvent row) with
      | Some q2 => (q2, Ok QUEUED)
      | None => let (q2, r) := spill_one q1 row io_ok wall in (q2, Ok r)
      end
  end.

(** [_put_timeseries] ([put_state], [put_diagnostics] and [put_track] name the table); a
    [robot_name] is text or [None]. *)
Definition put_timeseries (q : IngestQueue) (table : string) (row : list (string * pyval))
    : IngestQueue * result string put_result :=
  match timeseries_columns table with
  | None => (q, Raise "KeyError"%string)
  | Some columns =>
      if existsb (fun k => bool_decide (k ∉ columns)) (keys row) then (q, Raise "unknown columns"%string)
      else
        match dget row "ts"%string, dget row "robot_name"%string with
        | (None | Some VNone), _ => (q, Raise "rows need ts and robot_name"%string)
        | Some _, Some (VStr robot) =>
            if bool_decide (robot = ""%string) then (q, Raise "rows need ts and robot_name"%string)
            else
              match allowed q table (Some robot) None with
              | (q1, Raise e) => (q1, Raise e)
              | (q1, Ok false) => (q1, Ok SKIPPED)
              | (q1, Ok true) =>
                  match coerce_series parse_uuid row with
                  | None => (q1, Raise "bad ts or uuid"%string)
                  | Some values =>
                      match put_nowait q1
                              (ISeries table ((fun c => default VNone (dget values c)) <$> columns)) with
                      | Some q2 => (q2, Ok QUEUED)
                      | None =>
                          (set_queue q1 (queue q1) (dropped (metrics q1) table "queue_full" 1), Ok DROPPED)
                      end
                  end
              end
        | Some _, _ => (q, Raise "rows need ts and robot_name"%string)
        end
  end.

(** [put_latest] *)
Definition put_latest (q : IngestQueue) (robot_name : string) (fields : list (string * pyval))
    : IngestQueue * result string put_result :=
  if bool_decide (robot_name = ""%string) then (q, Raise "robot_name is required"%string)
  else if bool_decide (fields = []) then (q, Raise "put_latest needs at least one column"%string)
  else if existsb (fun k => bool_decide (k ∉ LATEST_OWNED_COLUMNS (source q))) (keys fields)
  then (q, Raise "foreign columns"%string)
  else
    match coerce_latest parse_uuid fields with
    | None => (q, Raise "bad ts or uuid"%string)
    | Some fields' =>
        (set_latest q (dset (latest q) robot_name
           (dupdate (default [] (dget (latest q) robot_name)) fields')), Ok MERGED)
    end.

(** [drain] *)
Definition drain (q : IngestQueue) (limit : nat) : IngestQueue * list item :=
  let rest := drop limit (queue q) in
  (set_queue q rest (set_queue_depth (metrics q) (length rest)), take limit (queue q)).

(** [take_latest] *)
Definition take_latest (q : IngestQueue) : IngestQueue * list (string * list (string * pyval)) :=
  (set_latest q [], latest q).

(** [restore_latest]: [{**fields, **newer}] per robot. *)
Definition restore_latest (q : IngestQueue) (failed : list (string * list (string * pyval)))
    : IngestQueue :=
  set_latest q
    (foldl (fun l p => dset l p.1 (dupdate p.2 (default [] (dget l p.1)))) (latest q) failed).

Definition item_events (items : list item) : list event_row :=
  omap (fun i => match i with IEvent r => Some r | ISeries _ _ => None end) items.
Definition item_series (items : list item) : list (string * list pyval) :=
  omap (fun i => match i with ISeries t v => Some (t, v) | IEvent _ => None end) items.

(** [spill_queued] *)
Definition spill_queued (q : IngestQueue) (io_ok : bool) (wall : Z) : IngestQueue * nat :=
  let (q1, items) := drain q (length (queue q)) in
  let m := foldl (fun m p => dropped m p.1 "shutdown" 1) (metrics q1) (item_series items) in
  (spill_events (set_queue q1 (queue q1) m) (item_events items) io_ok wall,
   length (item_events items)).

(** Calls made by the hosts and by the writer. *)
Inductive queue_op :=
| OpEvent (row : event_row) (io_ok : bool) (wall : Z)
| OpTimeseries (table : string) (row : list (string * pyval))
| OpLatest (robot : string) (fields : list (string * pyval))
| OpDrain (limit : nat)
| OpTakeLatest
| OpRestoreLatest (failed : list (string * list (string * pyval)))
| OpSpillEvents (rows : list event_row) (io_ok : bool) (wall : Z)
| OpSpillQueued (io_ok : bool) (wall : Z).

Definition queue_step (q : IngestQueue) (o : queue_op) : IngestQueue :=
  match o with
  | OpEvent row io w => (put_event q row io w).1
  | OpTimeseries t row => (put_timeseries q t row).1
  | OpLatest robot fields => (put_latest q robot fields).1
  | OpDrain limit => (drain q limit).1
  | OpTakeLatest => (take_latest q).1
  | OpRestoreLatest failed => restore_latest q failed
  | OpSpillEvents rows io w => spill_events q rows io w
  | OpSpillQueued io w => (spill_queued q io w).1
  end.

(** The bound of the queue and what the depth metrics report. *)
Definition queue_ok (q : IngestQueue) : Prop :=
  length (queue q) <= capacity q /\ queue_depth (metrics q) = length (queue q)
  /\ length (queue q) <= queue_depth_max (metrics q) <= capacity q.

(** The value pending for a column of [robot_latest]. *)
Definition pending_latest (q : IngestQueue) (robot column : string) : option pyval :=
  d ← dget (latest q) robot; dget d column.

(** Dicts have unique keys. *)
Definition latest_wf (q : IngestQueue) : Prop :=
  dict_wf (latest q) /\ Forall (fun p => dict_wf p.2) (latest q).

(** Updates of several robots, one call each. *)
Definition put_latests (q : IngestQueue) (puts : list (string * list (string * pyval)))
    : IngestQueue :=
  foldl (fun q p => (put_latest q p.1 p.2).1) q puts.

(** *** Lemmas *)

Lemma bump_lookup {K : Type} `{Countable K} (m : gmap K nat) k n :
  default 0 (bump m k n !! k) = default 0 (m !! k) + n.
Proof. unfold bump. case_bool_decide; subst; [lia|]. by rewrite lookup_insert_eq. Qed.

Lemma metrics_dropped_fold l m r :
  let m' := foldl (fun m p => dropped m p.1 r 1) m (l : list (string * list pyval)) in
  queue_depth m' = queue_depth m /\ queue_depth_max m' = queue_depth_max m
  /\ events_spilled m' = events_spilled m /\ events_lost m' = events_lost m.
Proof. revert m. induction l as [|x l IH]; intros m; simpl; [auto|]. apply (IH (dropped m x.1 r 1)). Qed.

Lemma allowed_spec q table robot code q1 r :
  allowed q table robot code = (q1, r) ->
  queue q1 = queue q /\ latest q1 = latest q /\ spill q1 = spill q /\ capacity q1 = capacity q
  /\ source q1 = source q
  /\ queue_depth (metrics q1) = queue_depth (metrics q)
  /\ queue_depth_max (metrics q1) = queue_depth_max (metrics q)
  /\ events_lost (metrics q1) = events_lost (metrics q)
  /\ events_spilled (metrics q1) = events_spilled (metrics q)
  /\ r = (gate_allows (policy q) table robot code).2.
Proof.
  unfold allowed. destruct (gate_allows _ _ _ _) as [p1 [[]|]]; intros [= <- <-]; simpl; auto 12.
Qed.

Lemma queue_ok_same q q1 :
  queue q1 = queue q -> capacity q1 = capacity q ->
  queue_depth (metrics q1) = queue_depth (metrics q) ->
  queue_depth_max (metrics q1) = queue_depth_max (metrics q) -> queue_ok q -> queue_ok q1.
Proof. unfold queue_ok. intros -> -> -> ->. auto. Qed.

Lemma queue_ok_put q i q2 : queue_ok q -> put_nowait q i = Some q2 -> queue_ok q2.
Proof.
  unfold put_nowait, queue_ok. case_bool_decide; [|done]. intros Hq [= <-]. simpl.
  rewrite length_app. simpl. lia.
Qed.

Lemma queue_ok_drain q limit : queue_ok q -> queue_ok (drain q limit).1.
Proof. unfold drain, queue_ok. simpl. rewrite length_drop. lia. Qed.

Lemma spill_events_same q rows io w :
  let q1 := spill_events q rows io w in
  queue q1 = queue q /\ capacity q1 = capacity q /\ latest q1 = latest q /\ source q1 = source q
  /\ queue_depth (metrics q1) = queue_depth (metrics q)
  /\ queue_depth_max (metrics q1) = queue_depth_max (metrics q).
Proof. unfold spill_events, append. by destruct rows, io. Qed.

Lemma queue_ok_spill q rows io w : queue_ok q -> queue_ok (spill_events q rows io w).
Proof. destruct (spill_events_same q rows io w) as (?&?&?&?&?&?). by apply queue_ok_same. Qed.

Lemma queue_ok_allowed q table robot code :
  queue_ok q -> queue_ok (allowed q table robot code).1.
Proof.
  destruct (allowed q table robot code) as [q1 r] eqn:E.
  apply allowed_spec in E as (?&?&?&?&?&?&?&?). by apply queue_ok_same.
Qed.

Lemma queue_ok_timeseries q table row : queue_ok q -> queue_ok (put_timeseries q table row).1.
Proof.
  intros Hq. unfold put_timeseries.
  destruct (timeseries_columns table) as [columns|]; [|done]. destruct (existsb _ _); [done|].
  destruct (dget row "ts") as [[]|], (dget row "robot_name") as [[]|]; try done;
    (case_bool_decide; [done|]);
    (match goal with
     | |- context [allowed q table ?r None] => pose proof (queue_ok_allowed q table r None Hq) as Ha
     end);
    destruct (allowed q table _ None) as [q1 [[]|]]; simpl in *; try done;
    (destruct (coerce_series parse_uuid row); [|done]);
    (destruct (put_nowait q1 _) as [q2|] eqn:E2; simpl; [by eapply queue_ok_put|done]).
Qed.

Lemma queue_ok_step q o : queue_ok q -> queue_ok (queue_step q o).
Proof.
  intros Hq. destruct o; simpl; try done.
  - unfold put_event.
    pose proof (queue_ok_allowed q EVENTS_TABLE (cell_str (ev_robot_name row))
                  (cell_str (ev_code row)) Hq) as Ha.
    destruct (allowed q _ _ _) as [q1 [[]|]]; simpl in *; try done.
    destruct (put_nowait q1 _) as [q2|] eqn:E2; [by eapply queue_ok_put|].
    exact (queue_ok_spill q1 [row] io_ok wall Ha).
  - by apply queue_ok_timeseries.
  - unfold put_latest. do 2 (case_bool_decide; [done|]). destruct (existsb _ _); [done|].
    by destruct (coerce_latest parse_uuid fields).
  - by apply queue_ok_drain.
  - by apply queue_ok_spill.
  - apply queue_ok_spill.
    pose proof (queue_ok_drain q (length (queue q)) Hq) as Hd.
    eapply queue_ok_same, Hd; [done|done|..]; simpl;
      apply (metrics_dropped_fold (item_series (take (length (queue q)) (queue q)))).
Qed.

Lemma new_queue_ok src sp n pol q : new_queue src sp n pol = Ok q -> queue_ok q.
Proof. unfold new_queue. case_bool_decide; [done|]. intros [= <-]. unfold queue_ok. simpl. lia. Qed.

Lemma dget_restore (failed l : list (string * list (string * pyval))) robot :
  dict_wf failed ->
  dget (foldl (fun l p => dset l p.1 (dupdate p.2 (default [] (dget l p.1)))) l failed) robot
  = match dget failed robot with
    | Some fields => Some (dupdate fields (default [] (dget l robot)))
    | None => dget l robot
    end.
Proof.
  revert l. induction failed as [|[r f] t IH]; intros l Hwf; simpl; [done|].
  apply NoDup_cons in Hwf as [Hr Ht]. rewrite IH by done. rewrite dget_dset.
  case_bool_decide; subst; [|done]. by rewrite (proj2 (dget_None t robot)).
Qed.

Lemma latest_wf_inner q robot : latest_wf q -> dict_wf (default [] (dget (latest q) robot)).
Proof.
  intros [_ Hf]. destruct (dget (latest q) robot) as [d|] eqn:E; simpl; [|apply dict_wf_nil].
  apply (Forall_dget _ _ _ _ Hf E).
Qed.

Lemma coerce_wf f d k d' : coerce f d k = Some d' -> dict_wf d -> dict_wf d'.
Proof.
  unfold coerce. destruct (dget d k) as [[]|]; try (by intros [= <-]);
    (destruct (f _) as [v|]; [|done]); intros [= <-]; auto with fleet.
Qed.

Lemma coerce_latest_wf d d' : coerce_latest parse_uuid d = Some d' -> dict_wf d -> dict_wf d'.
Proof.
  unfold coerce_latest. destruct (coerce (to_uuid parse_uuid) d "active_run_id") as [d1|] eqn:E1;
    [|done]. intros E2 Hd. eauto using coerce_wf.
Qed.

(** What a successful [put_latest] merges; [None] when the call raises. *)
Definition merged_fields (src : Source) (robot : string) (fields : list (string * pyval))
    : option (list (string * pyval)) :=
  if bool_decide (robot = ""%string) || bool_decide (fields = [])
     || existsb (fun k => bool_decide (k ∉ LATEST_OWNED_COLUMNS src)) (keys fields)
  then None else coerce_latest parse_uuid fields.

Lemma put_latest_eq q robot fields :
  (put_latest q robot fields).1
  = match merged_fields (source q) robot fields with
    | None => q
    | Some d => set_latest q (dset (latest q) robot (dupdate (default [] (dget (latest q) robot)) d))
    end.
Proof.
  unfold put_latest, merged_fields. case_bool_decide; [done|]. case_bool_decide; [done|]. simpl.
  destruct (existsb _ _); [done|]. by destruct (coerce_latest parse_uuid fields).
Qed.

Lemma merged_fields_wf src robot fields d :
  merged_fields src robot fields = Some d -> dict_wf fields -> dict_wf d.
Proof. unfold merged_fields. destruct (_ || _); [done|]. apply coerce_latest_wf. Qed.

Lemma latest_wf_put q robot fields : latest_wf q -> latest_wf (put_latest q robot fields).1.
Proof.
  intros Hq. rewrite put_latest_eq. destruct (merged_fields _ _ _) as [d|]; [|done].
  pose proof (latest_wf_inner q robot Hq). destruct Hq as [Hw Hf].
  split; simpl; [by apply dict_wf_dset|]. apply Forall_dset; [done|]. by apply dict_wf_dupdate.
Qed.

Lemma pending_put q robot fields r c :
  dict_wf fields ->
  pending_latest (put_latest q robot fields).1 r c
  = match merged_fields (source q) robot fields with
    | Some d => if bool_decide (robot = r)
                then match dget d c with Some v => Some v | None => pending_latest q r c end
                else pending_latest q r c
    | None => pending_latest q r c
    end.
Proof.
  intros Hf. rewrite put_latest_eq. destruct (merged_fields _ _ _) as [d|] eqn:E; [|done].
  unfold pending_latest. simpl. rewrite dget_dset. case_bool_decide; [|done]. subst. cbn [mbind option_bind].
  rewrite dget_update by (by eapply merged_fields_wf). destruct (dget d c); [done|].
  by destruct (dget (latest q) r).
Qed.

Lemma pending_restore q failed r c :
  latest_wf q -> dict_wf failed ->
  pending_latest (restore_latest q failed) r c
  = match pending_latest q r c with
    | Some v => Some v
    | None => d ← dget failed r; dget d c
    end.
Proof.
  intros Hq Hf. unfold pending_latest, restore_latest. simpl. rewrite dget_restore by done.
  pose proof (latest_wf_inner q r Hq) as Hi.
  destruct (dget failed r) as [d|]; cbn [mbind option_bind].
  - rewrite dget_update by done. by destruct (dget (latest q) r).
  - destruct (dget (latest q) r) as [e|]; cbn [mbind option_bind]; [by destruct (dget e c)|done].
Qed.

Lemma source_put q robot fields : source (put_latest q robot fields).1 = source q.
Proof. rewrite put_latest_eq. by destruct (merged_fields _ _ _). Qed.

Lemma put_latests_under q q' puts r c base :
  source q' = source q -> Forall (fun p => dict_wf p.2) puts ->
  pending_latest q r c = match pending_latest q' r c with Some v => Some v | None => base end ->
  pending_latest (put_latests q puts) r c
  = match pending_latest (put_latests q' puts) r c with Some v => Some v | None => base end.
Proof.
  revert q q'. induction puts as [|[robot fields] puts IH]; intros q q' Hs Hp Hq; [done|].
  apply Forall_cons in Hp as [Hf Hp]. apply IH; [by rewrite !source_put|done|].
  cbn [fst snd] in *. rewrite !pending_put, Hs, Hq by done.
  destruct (merged_fields _ _ _) as [d|]; [|done]. case_bool_decide; [|done]. by destruct (dget d c).
Qed.

Lemma latest_wf_puts q puts : latest_wf q -> latest_wf (put_latests q puts).
Proof. revert q. induction puts as [|p puts IH]; intros q Hq; [done|]. by apply IH, latest_wf_put. Qed.

Lemma put_event_spec (q : IngestQueue) row io_ok wall q' r :
  put_event q row io_ok wall = (q', r) ->
  let gate := (gate_allows (policy q) EVENTS_TABLE (cell_str (ev_robot_name row))
                 (cell_str (ev_code row))).2 in
  latest q' = latest q /\ events_rejected (metrics q') = events_rejected (metrics q) /\
  match r with
  | Ok QUEUED => gate = Ok true /\ length (queue q) < capacity q
      /\ queue q' = queue q ++ [IEvent row] /\ spill q' = spill q
      /\ events_lost (metrics q') = events_lost (metrics q)
  | Ok SPILLED => gate = Ok true /\ capacity q <= length (queue q) /\ io_ok = true
      /\ queue q' = queue q /\ lines (spill q') = lines (spill q) ++ [encode_event row]
      /\ rejected_lines (spill q') = rejected_lines (spill q)
      /\ has_data (spill q') = true /\ events_lost (metrics q') = events_lost (metrics q)
      /\ events_spilled (metrics q') = events_spilled (metrics q) + 1
  | Ok LOST => gate = Ok true /\ capacity q <= length (queue q) /\ io_ok = false
      /\ queue q' = queue q /\ spill q' = spill q
      /\ events_lost (metrics q') = events_lost (metrics q) + 1
  | Ok SKIPPED => gate = Ok false /\ queue q' = queue q /\ spill q' = spill q
      /\ events_lost (metrics q') = events_lost (metrics q)
  | Ok DROPPED | Ok MERGED => False
  | Raise e => gate = Raise e /\ queue q' = queue q /\ spill q' = spill q
      /\ events_lost (metrics q') = events_lost (metrics q)
  end.
Proof.
  unfold put_event, allowed.
  destruct (gate_allows _ _ _ _) as [p1 [[]|e]]; simpl; try (by intros [= <- <-]; auto 8).
  unfold put_nowait. simpl. case_bool_decide; [intros [= <- <-]; simpl; auto 10|].
  destruct io_ok; intros [= <- <-]; simpl; split_and!; auto with lia.
Qed.
End queue.
Arguments IngestQueue : clear implicits.

(** *** The spill file *)

Lemma decode_encode row : decode_event (encode_event row) = Some row.
Proof. destruct row as [ts id robot [run|] site code sev sw payload src]; reflexivity. Qed.

(** One iteration of the loop of [read]. *)
Lemma read_lines_cons limit l ls :
  read_lines (S limit) (l :: ls)
  = match decode_event l with
    | Some r => let '(rows, n, c) := read_lines limit ls in (r :: rows, S n, c)
    | None => let '(rows, n, c) := read_lines (S limit) ls in
              (rows, S n, if is_blank l then c else S c)
    end.
Proof. by destruct l. Qed.

Lemma read_lines_encoded limit rows :
  read_lines limit (encode_event <$> rows) = (take limit rows, Nat.min limit (length rows), 0).
Proof.
  revert limit. induction rows as [|r rows IH]; intros [|limit]; try done.
  rewrite fmap_cons, read_lines_cons, decode_encode, IH. done.
Qed.

Lemma forallb_is_blank_encoded rows : forallb is_blank (encode_event <$> rows) = bool_decide (rows = []).
Proof. by destruct rows. Qed.

(** Rows that can be read back from the file. *)
Definition spilled_rows (f : SpillFile) : list event_row := omap decode_event (lines f).

Lemma consume_lines f n :
  lines (consume f n) = drop n (lines f)
  \/ lines (consume f n) = [] /\ forallb is_blank (drop n (lines f)) = true.
Proof.
  unfold consume. case_bool_decide; [subst; by left|].
  destruct (forallb is_blank (drop n (lines f))) eqn:E; [by right|by left].
Qed.

Lemma omap_blank ls : forallb is_blank ls = true -> omap decode_event ls = [].
Proof. induction ls as [|[]]; simpl; auto; done. Qed.

Lemma consume_spilled f n : spilled_rows (consume f n) = omap decode_event (drop n (lines f)).
Proof.
  unfold spilled_rows. destruct (consume_lines f n) as [->|[-> Hb]]; [done|].
  by rewrite (omap_blank _ Hb).
Qed.

Lemma read_lines_decode limit ls rows n c :
  read_lines limit ls = (rows, n, c) -> rows = omap decode_event (take n ls) /\ n <= length ls.
Proof.
  revert limit rows n c. induction ls as [|l ls IH]; intros limit rows n c; simpl.
  { destruct limit; intros [= <- <- <-]; auto. }
  destruct limit as [|limit]; [intros [= <- <- <-]; simpl; auto with lia|].
  change (read_lines (S limit) (l :: ls) = (rows, n, c) ->
          rows = omap decode_event (take n (l :: ls)) /\ n <= S (length ls)).
  rewrite read_lines_cons. destruct (decode_event l) as [r|] eqn:Ed.
  - destruct (read_lines limit ls) as [[rs k] c'] eqn:E. intros [= <- <- <-].
    apply IH in E as [-> ?]. csimpl. rewrite Ed. auto with lia.
  - destruct (read_lines (S limit) ls) as [[rs k] c'] eqn:E. intros [= <- <- <-].
    apply IH in E as [-> ?]. csimpl. rewrite Ed. auto with lia.
Qed.

(** ** Properties *)

Section properties.
Context {P : Type} `{!RecordingGate P} (parse_uuid : string -> option N).

(** The queue stays within the capacity given at construction, whatever the hosts put and the
    writer drains, restores or spills; [queue_depth] is the true depth and [queue_depth_max], which
    is at least that, never exceeds the capacity. *)
Theorem queue_bounded src sp maxsize (pol : P) q0 q :
  new_queue src sp maxsize pol = Ok q0 ->
  reachable (queue_step parse_uuid) q0 q ->
  queue_ok q /\ capacity q = maxsize.
Proof.
  intros H0 Hr.
  assert (Hc : capacity q = capacity q0).
  { induction Hr as [|q o Hr IH]; [done|]. rewrite <-IH. clear.
    destruct o; simpl; try done.
    - unfold put_event. destruct (allowed q _ _ _) as [q1 [[]|]] eqn:E;
        apply allowed_spec in E as (?&?&?&?&?); try done.
      unfold put_nowait. case_bool_decide; [done|]. by destruct io_ok.
    - unfold put_timeseries. destruct (timeseries_columns table); [|done].
      destruct (existsb _ _); [done|].
      destruct (dget row "ts") as [[]|], (dget row "robot_name") as [[]|]; try done;
        (case_bool_decide; [done|]);
        (destruct (allowed q _ _ _) as [q1 [[]|]] eqn:E; apply allowed_spec in E as (?&?&?&?&?); try done);
        (destruct (coerce_series parse_uuid row); [|done]);
        unfold put_nowait; by case_bool_decide.
    - unfold put_latest. do 2 (case_bool_decide; [done|]). destruct (existsb _ _); [done|].
      by destruct (coerce_latest parse_uuid fields).
    - apply (spill_events_same q rows io_ok wall).
    - by rewrite (proj1 (proj2 (spill_events_same _ _ io_ok wall))). }
  split.
  - eapply reachable_inv; [by eapply new_queue_ok|apply queue_ok_step|done].
  - rewrite Hc. unfold new_queue in H0. case_bool_decide; [done|]. by simplify_eq/=.
Qed.

(** Every outcome of [put_event]: a queued event is the last item of a queue that had room; a
    spilled one is the last line of the spill file and the queue was full; a lost one is counted
    and changes neither; one the recording level excludes changes neither; no other outcome exists,
    and an exception is the policy's own. *)
Theorem put_event_outcomes (q : IngestQueue P) row io_ok wall q' r :
  put_event q row io_ok wall = (q', r) ->
  let gate := (gate_allows (policy q) EVENTS_TABLE (cell_str (ev_robot_name row))
                 (cell_str (ev_code row))).2 in
  latest q' = latest q /\ events_rejected (metrics q') = events_rejected (metrics q) /\
  match r with
  | Ok QUEUED => gate = Ok true /\ length (queue q) < capacity q
      /\ queue q' = queue q ++ [IEvent row] /\ spill q' = spill q
      /\ events_lost (metrics q') = events_lost (metrics q)
  | Ok SPILLED => gate = Ok true /\ capacity q <= length (queue q) /\ io_ok = true
      /\ queue q' = queue q /\ lines (spill q') = lines (spill q) ++ [encode_event row]
      /\ rejected_lines (spill q') = rejected_lines (spill q)
      /\ has_data (spill q') = true /\ events_lost (metrics q') = events_lost (metrics q)
      /\ events_spilled (metrics q') = events_spilled (metrics q) + 1
  | Ok LOST => gate = Ok true /\ capacity q <= length (queue q) /\ io_ok = false
      /\ queue q' = queue q /\ spill q' = spill q
      /\ events_lost (metrics q') = events_lost (metrics q) + 1
  | Ok SKIPPED => gate = Ok false /\ queue q' = queue q /\ spill q' = spill q
      /\ events_lost (metrics q') = events_lost (metrics q)
  | Ok DROPPED | Ok MERGED => False
  | Raise e => gate = Raise e /\ queue q' = queue q /\ spill q' = spill q
      /\ events_lost (metrics q') = events_lost (metrics q)
  end.
Proof. apply put_event_spec. Qed.

(** Handing back [robot_latest] updates whose write failed is transparent: taking the pending
    map, merging any later updates and then restoring what was taken leaves every column of every
    robot with the value it would have had if nothing had been taken. *)
Theorem restore_latest_transparent (q : IngestQueue P) puts robot column :
  latest_wf q -> Forall (fun p => dict_wf p.2) puts ->
  pending_latest (restore_latest (put_latests parse_uuid (take_latest q).1 puts) (take_latest q).2)
    robot column
  = pending_latest (put_latests parse_uuid q puts) robot column.
Proof.
  intros Hq Hp. rewrite pending_restore; [|by apply latest_wf_puts; split; [apply dict_wf_nil|]|apply Hq].
  symmetry. by apply put_latests_under.
Qed.
End properties.

Lemma omap_decode_encode (rows : list event_row) : omap decode_event (encode_event <$> rows) = rows.
Proof.
  induction rows as [|x l IH]; [done|]. cbn [fmap list_fmap omap list_omap].
  by rewrite decode_encode, IH.
Qed.

(** After an append that failed in the middle of a line the next event that is spilled is counted and reported as
    written, and is lost: it continues the torn line, and no read of the file returns it. *)
Theorem torn_append_loses_next f m rows n row wall f2 m2 :
  append_glued (append_torn f rows n) m [row] wall = (f2, m2) ->
  omap decode_event (lines f2) = omap decode_event (lines f) ++ take n rows /\ events_spilled m2 = events_spilled m + 1
  /\ has_data f2 = true.
Proof.
  unfold append_glued, append, append_torn. intros [= <- <-]. cbn. rewrite app_nil_r, !omap_app. cbn.
  rewrite app_nil_r, omap_decode_encode. auto.
Qed.

(** The spill file is a first-in first-out store of rows: [read] returns the oldest [limit] rows
    as they were appended, and consuming the lines it reports, whatever was appended in between,
    leaves exactly the rows not read, in order; the file is empty only when nothing is left. *)
Theorem spill_file_fifo f m old limit new wall f1 m1 rows n :
  lines f = encode_event <$> old ->
  read f m limit = (f1, m1, (rows, n)) ->
  let f2 := consume (append f1 m1 new wall).1 n in
  rows = take limit old /\ lines f2 = encode_event <$> (drop limit old ++ new)
  /\ spill_corrupt_lines m1 = spill_corrupt_lines m
  /\ (n <> 0 -> has_data f2 = bool_decide (drop limit old ++ new <> [])).
Proof.
  intros Hl. unfold read. rewrite Hl, read_lines_encoded. intros [= <- <- <- <-].
  set (f1 := if bool_decide _ then set_empty f else f).
  assert (Hf1 : lines f1 = encode_event <$> old) by (unfold f1; by case_bool_decide).
  assert (Happ : lines (append f1 (add_counters m 0 0 0 0 0) new wall).1 = encode_event <$> (old ++ new)).
  { unfold append. destruct new; simpl; [by rewrite app_nil_r|]. by rewrite Hf1, fmap_app. }
  assert (Hdrop : drop (Nat.min limit (length old)) (old ++ new) = drop limit old ++ new).
  { rewrite drop_app_le by lia. f_equal. destruct (decide (limit <= length old)).
    - by rewrite Nat.min_l.
    - rewrite Nat.min_r by lia. by rewrite !drop_ge by lia. }
  simpl. unfold consume. rewrite Happ, <-fmap_drop, Hdrop, forallb_is_blank_encoded.
  split; [done|]. case_bool_decide as Hn.
  - rewrite Happ. rewrite <-Hdrop, Hn, drop_0. split; [done|]. split; [simpl; lia|done].
  - split; [|split]; [|simpl; lia|intros _].
    + by case_bool_decide as E; [rewrite E|].
    + by case_bool_decide as E; [rewrite E|rewrite bool_decide_true].
Qed.

(** *** Witnesses *)

Definition sample_row (n : N) : event_row :=
  mkEventRow 1000 n (CJson (JStr "carter")) (Some 7%N) (CJson JNull) (CJson (JStr "ROBOT_ONLINE"))
    (CJson (JStr "info")) (CJson JNull) (CJson JNull) (CJson (JStr "dispatch")).
Definition no_spill : SpillFile := open_spill [] 0 [].

Lemma queue_bounded_witness :
  queue_ok (queue_step (fun _ => None) (mkQueue DISPATCH 2 [] [] no_spill no_metrics tt)
              (OpEvent (sample_row 1) true 0)).
Proof.
  eapply (queue_bounded (fun _ => None) DISPATCH no_spill 2 tt); [reflexivity|].
  econstructor. constructor.
Defined.

Lemma put_event_outcomes_witness :
  lines (spill (put_event (mkQueue DISPATCH 0 [] [] no_spill no_metrics tt) (sample_row 1) true 0).1)
  = [encode_event (sample_row 1)].
Proof.
  pose proof (put_event_outcomes (mkQueue DISPATCH 0 [] [] no_spill no_metrics tt) (sample_row 1)
                true 0 _ _ eq_refl) as H.
  apply H.
Defined.

Lemma restore_latest_transparent_witness :
  let q := mkQueue DISPATCH 9 [] [("carter", [("site_id", VStr "a"); ("sw_version", VStr "1")])]%string
             no_spill no_metrics tt in
  pending_latest
    (restore_latest (put_latests (fun _ => None) (take_latest q).1
                       [("carter", [("site_id", VStr "b")])]%string) (take_latest q).2)
    "carter" "site_id" = Some (VStr "b").
Proof.
  intros q. rewrite (restore_latest_transparent (fun _ => None) q).
  - reflexivity.
  - split; simpl; repeat constructor; set_solver.
  - repeat constructor; set_solver.
Defined.

Lemma spill_file_fifo_witness :
  let f := (append no_spill no_metrics [sample_row 1; sample_row 2] 5).1 in
  lines (consume (append f no_metrics [sample_row 3] 6).1 1)
  = encode_event <$> [sample_row 2; sample_row 3].
Proof.
  intros f.
  apply (spill_file_fifo f no_metrics [sample_row 1; sample_row 2] 1 [sample_row 3] 6 f no_metrics
           [sample_row 1] 1); reflexivity.
Defined.
