(* ===== verification/TelemetryWriter.v ===== *)
(** * The background writer (packages/telemetry_ingest/writer.py)

    One task per host drains the ingest queue and the spill file into the database. A flush awaits
    the database several times, and the hosts keep putting rows meanwhile; the model is a step
    function on a [World] in which each stretch of code between two awaits is one action, so every
    interleaving of a flush with the hosts is a sequence of actions. An action that is not enabled
    in a phase leaves the world as it is.

    The database is a parameter of the run: every transaction action carries its outcome
    ([tx_outcome]); a broken connection or a cancellation may have committed or not. File operations
    that may raise [OSError] carry a boolean. [fleet_events] is a map keyed by its unique constraint
    (event id, ts), written with ON CONFLICT DO NOTHING; [robot_latest] is upserted by column.
    [w_accepted] and [w_lost] are history variables: the events the hosts were told are recorded,
    and those a failing disk made the process drop. *)

From S2P Require Import Prelude PyDict RecordingPolicy IngestQueue.

(** ** Batches *)

Abbreviation fields_t := (list (string * pyval)).

(** [_Batch] *)
Record Batch := mkBatch {
  b_events : list event_row;
  b_timeseries : list (string * list (list pyval));
  b_latest : list (string * fields_t);
  b_replay : list event_row;
  b_replay_lines : nat;
  b_failed : bool;
}.

Definition no_batch : Batch := mkBatch [] [] [] [] 0 false.

(** [_Batch.empty] *)
Definition batch_empty (b : Batch) : bool :=
  bool_decide (b_events b = []) && bool_decide (length (b_timeseries b) = 0)
  && bool_decide (length (b_latest b) = 0) && bool_decide (b_replay_lines b = 0).

Definition fail_batch (b : Batch) : Batch :=
  mkBatch (b_events b) (b_timeseries b) (b_latest b) (b_replay b) (b_replay_lines b) true.

(** [timeseries.setdefault(table, []).append(row)] over the drained items. *)
Definition group_series (items : list item) : list (string * list (list pyval)) :=
  foldl (fun d p => dset d p.1 (default [] (dget d p.1) ++ [p.2])) [] (item_series items).

(** What became of a transaction. *)
Inductive tx_outcome :=
| Committed
| Refused                        (** an exception on a healthy connection: rolled back *)
| Broken (committed : bool)      (** an exception, and the connection is broken or closed *)
| Cancelled (committed : bool).  (** [CancelledError] *)

Definition tx_commits (o : tx_outcome) : bool :=
  match o with Committed => true | Refused => false | Broken c | Cancelled c => c end.

(** Where [flush_once] is suspended. *)
Inductive phase :=
| Idle
| Connecting
| EventsOut                                          (** the executemany transaction *)
| OneByOne (todo rejected : list event_row)          (** [_write_events_one_by_one] *)
| SeriesOut (tables : list string)                   (** [_write_timeseries]: tables to do *)
| LatestOut
| Settling.

(** The unique key of [fleet_events]. *)
Definition event_key (r : event_row) : N * Z := (ev_id r, ev_ts r).

(** INSERT ... ON CONFLICT DO NOTHING *)
Definition insert_event (db : gmap (N * Z) event_row) (r : event_row) : gmap (N * Z) event_row :=
  match db !! event_key r with Some _ => db | None => <[event_key r := r]> db end.
Definition insert_events (db : gmap (N * Z) event_row) (rows : list event_row)
    : gmap (N * Z) event_row := foldl insert_event db rows.

(** The upsert of [robot_latest]: only the columns passed are touched. *)
Definition upsert_latest (db : list (string * fields_t)) (latest : list (string * fields_t))
    : list (string * fields_t) :=
  foldl (fun db p => dset db p.1 (dupdate (default [] (dget db p.1)) p.2)) db latest.

Definition TRACK_LEGACY_COLUMNS : nat := 10.

Section writer.
Context {P : Type} `{!RecordingGate P} (parse_uuid : string -> option N).

Record World := mkWorld {
  w_q : IngestQueue P;
  w_phase : phase;
  w_batch : Batch;
  w_started : Z;
  w_last_flush : option Z;
  w_db : gmap (N * Z) event_row;
  w_copied : list (string * list pyval);          (** time-series rows committed *)
  w_latest_db : list (string * fields_t);         (** [robot_latest] *)
  w_accepted : list event_row;
  w_lost : list event_row;
}.

(** [TelemetryWriter.__init__]: a fresh world around a queue; the rows found in the spill file count
    as accepted (by an earlier process). *)
Definition new_world (q : IngestQueue P) : World :=
  mkWorld q Idle no_batch 0 None ∅ [] [] (spilled_rows (spill q)) [].

Record Config := mkConfig { batch_size : nat; flush_interval : Z; replay_limit : nat }.
Context (cfg : Config).

Definition with_q (w : World) (q : IngestQueue P) : World :=
  mkWorld q (w_phase w) (w_batch w) (w_started w) (w_last_flush w) (w_db w) (w_copied w)
    (w_latest_db w) (w_accepted w) (w_lost w).
Definition with_phase (w : World) (p : phase) (b : Batch) : World :=
  mkWorld (w_q w) p b (w_started w) (w_last_flush w) (w_db w) (w_copied w) (w_latest_db w)
    (w_accepted w) (w_lost w).
Definition with_db (w : World) (db : gmap (N * Z) event_row) : World :=
  mkWorld (w_q w) (w_phase w) (w_batch w) (w_started w) (w_last_flush w) db (w_copied w)
    (w_latest_db w) (w_accepted w) (w_lost w).
Definition with_history (w : World) (accepted lost : list event_row) : World :=
  mkWorld (w_q w) (w_phase w) (w_batch w) (w_started w) (w_last_flush w) (w_db w) (w_copied w)
    (w_latest_db w) (w_accepted w ++ accepted) (w_lost w ++ lost).
Definition with_metrics (w : World) (m : Metrics) : World :=
  with_q w (set_queue (w_q w) (queue (w_q w)) m).

(** What a host calls between two steps of the writer. *)
Inductive host_op :=
| HEvent (row : event_row) (io_ok : bool) (wall : Z)
| HSeries (table : string) (row : fields_t)
| HLatest (robot : string) (fields : fields_t).

Definition host_step (w : World) (o : host_op) : World :=
  match o with
  | HEvent row io wall =>
      let (q, r) := put_event (w_q w) row io wall in
      match r with
      | Ok QUEUED | Ok SPILLED => with_history (with_q w q) [row] []
      | Ok LOST => with_history (with_q w q) [row] [row]
      | _ => with_q w q
      end
  | HSeries table row => with_q w (put_timeseries parse_uuid (w_q w) table row).1
  | HLatest robot fields => with_q w (put_latest parse_uuid (w_q w) robot fields).1
  end.

(** [_drain]'s condition, and the "work waiting" of [due]. *)
Definition work_waiting (w : World) : bool :=
  negb (bool_decide (length (queue (w_q w)) = 0)) || negb (bool_decide (length (latest (w_q w)) = 0))
  || has_data (spill (w_q w)).

(** [due] *)
Definition due (w : World) (now : Z) : bool :=
  if bool_decide (batch_size cfg <= length (queue (w_q w))) then true
  else if negb (work_waiting w) then false
  else match w_last_flush w with
       | None => true
       | Some t => bool_decide (flush_interval cfg <= now - t)%Z
       end.

(** [self._spill.pending] and the read of the replay prefix; [read_ok = false] is the [OSError]. *)
Definition read_replay (q : IngestQueue P) (read_ok : bool)
    : IngestQueue P * (list event_row * nat) :=
  if has_data (spill q) && read_ok
  then let '(f, m, r) := read (spill q) (metrics q) (replay_limit cfg) in (set_spill q f m, r)
  else (q, ([], 0)).

(** [flush_once] up to its first await. *)
Definition flush_begin (w : World) (read_ok : bool) (now : Z) : World :=
  let (q1, replay) := read_replay (w_q w) read_ok in
  let (q2, items) := drain q1 (batch_size cfg) in
  let (q3, taken_latest) := take_latest q2 in
  let b := mkBatch (item_events items) (group_series items) taken_latest replay.1 replay.2 false in
  if batch_empty b then with_q w q3
  else mkWorld q3 Connecting b now (Some now) (w_db w) (w_copied w) (w_latest_db w) (w_accepted w)
         (w_lost w).

(** An exception reaches [flush_once]: [batch.failed = True], then the [finally]. *)
Definition flush_raises (w : World) : World := with_phase w Settling (fail_batch (w_batch w)).

Definition begin_series (w : World) (b : Batch) : World :=
  with_phase w (SeriesOut (keys (b_timeseries b))) b.

(** [_write_events] after its transactions: count, consume the replayed prefix ([consume_ok = false]
    is an [OSError], which leaves the file as it was), clear. *)
Definition events_written (w : World) (rejected : nat) (consume_ok : bool) : World :=
  let b := w_batch w in
  let rows := b_replay b ++ b_events b in
  let w1 := with_metrics w (written (metrics (w_q w)) EVENTS_TABLE (length rows - rejected)) in
  let done := mkBatch [] (b_timeseries b) (b_latest b) [] 0 (b_failed b) in
  if bool_decide (b_replay_lines b = 0) then begin_series w1 done
  else if consume_ok
  then begin_series
         (with_q w1 (set_spill (w_q w1) (consume (spill (w_q w1)) (b_replay_lines b))
                       (add_counters (metrics (w_q w1)) 0 (length (b_replay b)) 0 0 0))) done
  else flush_raises w1.

(** [_write_events] up to the transaction: nothing to write, or the executemany. *)
Definition connected (w : World) (consume_ok : bool) : World :=
  let b := w_batch w in
  match b_replay b ++ b_events b with
  | [] =>
      if bool_decide (b_replay_lines b = 0) then begin_series w b
      else if consume_ok
      then begin_series
             (with_q w (set_spill (w_q w) (consume (spill (w_q w)) (b_replay_lines b))
                          (metrics (w_q w))))
             (mkBatch (b_events b) (b_timeseries b) (b_latest b) (b_replay b) 0 (b_failed b))
      else flush_raises w
  | _ => with_phase w EventsOut b
  end.

(** The executemany transaction of [_write_events]. *)
Definition write_events (w : World) (o : tx_outcome) (consume_ok : bool) : World :=
  let b := w_batch w in
  let rows := b_replay b ++ b_events b in
  let w1 := if tx_commits o then with_db w (insert_events (w_db w) rows) else w in
  match o with
  | Committed => events_written w1 0 consume_ok
  | Refused => with_phase w1 (OneByOne rows []) b
  | Broken _ => begin_series w1 (fail_batch b)
  | Cancelled _ => flush_raises w1
  end.

(** One iteration of [_write_events_one_by_one], and, when no row is left, its end and the end of
    [_write_events] ([reject_ok]: the rejected file can be written). *)
Definition write_row (w : World) (todo rejected : list event_row) (o : tx_outcome)
    (reject_ok consume_ok : bool) : World :=
  match todo with
  | [] =>
      match rejected with
      | [] => events_written w 0 consume_ok
      | _ =>
          let (f, m) := reject (spill (w_q w)) (metrics (w_q w)) rejected reject_ok in
          let w1 := with_q w (set_spill (w_q w) f m) in
          events_written (if reject_ok then w1 else with_history w1 [] rejected)
            (length rejected) consume_ok
      end
  | row :: rest =>
      let w1 := if tx_commits o then with_db w (insert_event (w_db w) row) else w in
      match o with
      | Committed => with_phase w1 (OneByOne rest rejected) (w_batch w)
      | Refused => with_phase w1 (OneByOne rest (rejected ++ [row])) (w_batch w)
      | Broken _ => begin_series w1 (fail_batch (w_batch w))
      | Cancelled _ => flush_raises w1
      end
  end.

(** A COPY; for the track table the first attempt may fail with [UndefinedColumn], and the legacy
    columns are then copied. *)
Inductive copy_outcome := Copy (o : tx_outcome) | UndefinedColumn (legacy : tx_outcome).

Definition with_copied (w : World) (rows : list (string * list pyval)) : World :=
  mkWorld (w_q w) (w_phase w) (w_batch w) (w_started w) (w_last_flush w) (w_db w)
    (w_copied w ++ rows) (w_latest_db w) (w_accepted w) (w_lost w).

Definition copy_rows (w : World) (table : string) (rows : list (list pyval)) (o : copy_outcome)
    : World * tx_outcome :=
  match o with
  | Copy t => (if tx_commits t then with_copied w (pair table <$> rows) else w, t)
  | UndefinedColumn t =>
      if bool_decide (table = TRACK_TABLE)
      then (if tx_commits t
            then with_copied w (pair table <$> (take TRACK_LEGACY_COLUMNS <$> rows)) else w, t)
      else (w, Refused)
  end.

(** One iteration of the loop of [_write_timeseries]. *)
Definition write_table (w : World) (tables : list string) (o : copy_outcome) : World :=
  let b := w_batch w in
  match tables with
  | [] => if bool_decide (length (b_latest b) = 0) then with_phase w Settling b
          else with_phase w LatestOut b
  | table :: rest =>
      let rows := default [] (dget (b_timeseries b) table) in
      let (w1, t) := copy_rows w table rows o in
      match t with
      | Committed =>
          with_phase (with_metrics w1 (written (metrics (w_q w1)) table (length rows)))
            (SeriesOut rest)
            (mkBatch (b_events b) (ddel (b_timeseries b) table) (b_latest b) (b_replay b)
               (b_replay_lines b) (b_failed b))
      | Refused | Broken _ => with_phase w1 (SeriesOut rest) (fail_batch b)
      | Cancelled _ => flush_raises w1
      end
  end.

(** [_write_latest]; robots are distinct, so the grouping by column set does not change the rows. *)
Definition write_latest (w : World) (o : tx_outcome) : World :=
  let b := w_batch w in
  let w1 := if tx_commits o
            then mkWorld (w_q w) (w_phase w) b (w_started w) (w_last_flush w) (w_db w) (w_copied w)
                   (upsert_latest (w_latest_db w) (b_latest b)) (w_accepted w) (w_lost w)
            else w in
  let cleared f := mkBatch (b_events b) (b_timeseries b) [] (b_replay b) (b_replay_lines b) f in
  match o with
  | Committed =>
      with_phase (with_metrics w1 (written (metrics (w_q w)) LATEST_TABLE (length (b_latest b))))
        Settling (cleared (b_failed b))
  | Refused =>
      with_phase
        (with_metrics w1 (dropped (metrics (w_q w)) LATEST_TABLE "write_failed" (length (b_latest b))))
        Settling (cleared true)
  | Broken _ | Cancelled _ => flush_raises w1
  end.

(** [_settle] and [flush_finished] *)
Definition settle (w : World) (io_ok : bool) (now wall : Z) : World :=
  let b := w_batch w in
  let q1 := spill_events (w_q w) (b_events b) io_ok wall in
  let m2 := foldl (fun m p => dropped m p.1 "write_failed" (length p.2)) (metrics q1) (b_timeseries b) in
  let q2 := restore_latest (set_queue q1 (queue q1) m2) (b_latest b) in
  let q3 := set_queue q2 (queue q2) (flush_finished (metrics q2) (now - w_started w) (b_failed b) wall) in
  let w1 := with_phase (with_q w q3) Idle no_batch in
  if io_ok then w1 else with_history w1 [] (b_events b).

Inductive action :=
| Host (o : host_op)
| FlushBegin (read_ok : bool) (now : Z)
| ConnectFailed
| Connected (consume_ok : bool)
| WriteEvents (o : tx_outcome) (consume_ok : bool)
| WriteRow (o : tx_outcome) (reject_ok consume_ok : bool)
| WriteTable (o : copy_outcome)
| WriteLatest (o : tx_outcome)
| Settle (io_ok : bool) (now wall : Z)
| SpillQueued (io_ok : bool) (wall : Z).     (** the end of [stop] *)

Definition step (w : World) (a : action) : World :=
  match a, w_phase w with
  | Host o, _ => host_step w o
  | FlushBegin read_ok now, Idle => flush_begin w read_ok now
  | ConnectFailed, Connecting => flush_raises w
  | Connected c, Connecting => connected w c
  | WriteEvents o c, EventsOut => write_events w o c
  | WriteRow o r c, OneByOne todo rejected => write_row w todo rejected o r c
  | WriteTable o, SeriesOut tables => write_table w tables o
  | WriteLatest o, LatestOut => write_latest w o
  | Settle io now wall, Settling => settle w io now wall
  | SpillQueued io wall, Idle =>
      let (q, n) := spill_queued (w_q w) io wall in
      let w1 := with_q w q in
      if io then w1 else with_history w1 [] (item_events (queue (w_q w)))
  | _, _ => w
  end.

(** ** Specification *)

(** Where an accepted event is. *)
Definition located (w : World) (r : event_row) : Prop :=
  IEvent r ∈ queue (w_q w) \/ r ∈ b_events (w_batch w) \/ r ∈ spilled_rows (spill (w_q w))
  \/ is_Some (w_db w !! event_key r) \/ encode_event r ∈ rejected_lines (spill (w_q w))
  \/ r ∈ w_lost w.

(** The rows the flush still has to write one by one, the refused ones and the committed ones. *)
Definition phase_ok (w : World) : Prop :=
  match w_phase w with
  | Idle => w_batch w = no_batch
  | OneByOne todo rejected =>
      forall r, r ∈ b_replay (w_batch w) ++ b_events (w_batch w) ->
        r ∈ todo \/ r ∈ rejected \/ is_Some (w_db w !! event_key r)
  | _ => True
  end.

(** The replayed rows are the front of the spill file. *)
Definition replay_ok (w : World) : Prop :=
  b_replay (w_batch w) = omap decode_event (take (b_replay_lines (w_batch w)) (lines (spill (w_q w))))
  /\ b_replay_lines (w_batch w) <= length (lines (spill (w_q w))).

Definition counted_loss (w : World) : Prop :=
  length (w_lost w) <= events_lost (metrics (w_q w)) + events_rejected (metrics (w_q w)).

Definition writer_inv (w : World) : Prop :=
  phase_ok w /\ replay_ok w /\ counted_loss w
  /\ has_data (spill (w_q w)) = negb (bool_decide (length (lines (spill (w_q w))) = 0))
  /\ (forall r, r ∈ w_accepted w -> located w r).

(** ** Lemmas *)

Lemma insert_event_lookup db r k :
  insert_event db r !! k
  = match db !! k with Some v => Some v | None => if bool_decide (k = event_key r) then Some r else None end.
Proof.
  unfold insert_event. destruct (db !! event_key r) eqn:E.
  - destruct (db !! k) eqn:Ek; [done|]. case_bool_decide; [congruence|done].
  - case_bool_decide as Hk.
    + subst. by rewrite E, lookup_insert_eq.
    + rewrite lookup_insert_ne by done. by destruct (db !! k).
Qed.

Lemma insert_events_mono db rows k : is_Some (db !! k) -> is_Some (insert_events db rows !! k).
Proof.
  revert db. induction rows as [|r rows IH]; intros db [v Hv]; simpl; [by exists v|].
  apply IH. rewrite insert_event_lookup, Hv. by exists v.
Qed.

Lemma insert_events_in db rows r : r ∈ rows -> is_Some (insert_events db rows !! event_key r).
Proof.
  revert db. induction rows as [|x rows IH]; intros db Hr; [by apply elem_of_nil in Hr|].
  apply elem_of_cons in Hr as [->|Hr]; simpl; [|by apply IH].
  apply insert_events_mono. rewrite insert_event_lookup.
  destruct (db !! event_key x); [by eexists|]. by rewrite bool_decide_true.
Qed.

Lemma item_events_in items r : IEvent r ∈ items <-> r ∈ item_events items.
Proof.
  unfold item_events. rewrite list_elem_of_omap. split.
  - intros H. by exists (IEvent r).
  - intros ([x|] & Hx & [= <-]). done.
Qed.

Lemma spilled_append f m rows wall :
  spilled_rows (append f m rows wall).1 = spilled_rows f ++ rows.
Proof.
  unfold append, spilled_rows. destruct rows as [|r rows]; [by rewrite app_nil_r|].
  cbn [fst lines]. by rewrite omap_app, omap_decode_encode.
Qed.

Lemma lines_append f m rows wall :
  lines (append f m rows wall).1 = lines f ++ (encode_event <$> rows)
  /\ rejected_lines (append f m rows wall).1 = rejected_lines f.
Proof. unfold append. destruct rows; [by rewrite app_nil_r|done]. Qed.

Lemma spilled_split f n r :
  r ∈ spilled_rows f ->
  r ∈ omap decode_event (take n (lines f)) \/ r ∈ omap decode_event (drop n (lines f)).
Proof.
  unfold spilled_rows. rewrite <-(take_drop n (lines f)) at 1. rewrite omap_app. apply elem_of_app.
Qed.

(** Appending to the spill file keeps the replayed prefix. *)
Lemma replay_ok_append (w w' : World) ext :
  w_batch w' = w_batch w -> lines (spill (w_q w')) = lines (spill (w_q w)) ++ ext ->
  replay_ok w -> replay_ok w'.
Proof.
  unfold replay_ok. intros -> -> [Hr Hn]. rewrite take_app_le by done. rewrite length_app.
  split; [done|lia].
Qed.

(** The effect of a [put_*] on what the invariant is about. *)
Lemma inv_frame (w w' : World) ext acc :
  writer_inv w ->
  w_phase w' = w_phase w -> w_batch w' = w_batch w -> w_db w' = w_db w ->
  lines (spill (w_q w')) = lines (spill (w_q w)) ++ ext ->
  has_data (spill (w_q w')) = negb (bool_decide (length (lines (spill (w_q w'))) = 0)) ->
  counted_loss w' ->
  w_accepted w' = w_accepted w ++ acc ->
  (forall r, located w r -> located w' r) -> (forall r, r ∈ acc -> located w' r) ->
  writer_inv w'.
Proof.
  intros (Hp & Hr & Hc & Hd & Hl) Ep Eb Edb El Ed Hc' Ea Hmove Hacc. split_and!; try done.
  - unfold phase_ok in *. by rewrite Ep, Eb, Edb.
  - by apply (replay_ok_append w w' ext).
  - rewrite Ea. intros r [Hin|Hin]%elem_of_app; auto.
Qed.

Lemma inv_no_spill (w w' : World) :
  writer_inv w ->
  w_phase w' = w_phase w -> w_batch w' = w_batch w -> w_db w' = w_db w ->
  spill (w_q w') = spill (w_q w) -> counted_loss w' ->
  w_accepted w' = w_accepted w -> w_lost w' = w_lost w ->
  (forall r, IEvent r ∈ queue (w_q w) -> IEvent r ∈ queue (w_q w')) -> writer_inv w'.
Proof.
  intros Hi Ep Eb Edb Es Hc Ea El Hq. eapply (inv_frame w w' [] []); try done.
  - by rewrite Es, app_nil_r.
  - rewrite Es. apply Hi.
  - by rewrite Ea, app_nil_r.
  - intros r. unfold located. rewrite Eb, Edb, Es, El. naive_solver.
  - intros r Hr. by apply elem_of_nil in Hr.
Qed.

Lemma put_timeseries_frame (q : IngestQueue P) table row :
  let q' := (put_timeseries parse_uuid q table row).1 in
  spill q' = spill q /\ latest q' = latest q /\ source q' = source q
  /\ events_lost (metrics q') = events_lost (metrics q)
  /\ events_rejected (metrics q') = events_rejected (metrics q)
  /\ (forall r, IEvent r ∈ queue q -> IEvent r ∈ queue q').
Proof.
  assert (Ha : forall robot, let q1 := (allowed q table robot None).1 in
    queue q1 = queue q /\ spill q1 = spill q /\ latest q1 = latest q /\ source q1 = source q
    /\ events_lost (metrics q1) = events_lost (metrics q)
    /\ events_rejected (metrics q1) = events_rejected (metrics q)).
  { intros robot. unfold allowed. by destruct (gate_allows _ _ _ _) as [p1 [[]|]]. }
  unfold put_timeseries. destruct (timeseries_columns table) as [columns|]; [|done].
  destruct (existsb _ _); [done|].
  destruct (dget row "ts") as [[]|], (dget row "robot_name") as [[]|]; try done;
    (case_bool_decide; [done|]);
    (match goal with |- context [allowed q table ?r None] => specialize (Ha r) end);
    (destruct (allowed q table _ None) as [q1 [[]|]]; simpl in Ha; destruct Ha as (<-&<-&<-&<-&<-&<-);
       [|done|done]);
    (destruct (coerce_series parse_uuid row); [|done]);
    unfold put_nowait; (case_bool_decide; [|done]); simpl; split_and!; try done;
    intros; apply elem_of_app; by left.
Qed.

Lemma put_latest_frame (q : IngestQueue P) robot fields :
  let q' := (put_latest parse_uuid q robot fields).1 in
  spill q' = spill q /\ queue q' = queue q /\ metrics q' = metrics q.
Proof. simpl. rewrite put_latest_eq. by destruct (merged_fields _ _ _). Qed.

Lemma inv_put_event w row io wall :
  writer_inv w -> writer_inv (host_step w (HEvent row io wall)).
Proof.
  intros Hi. pose proof Hi as (_ & _ & Hc & Hd & _). unfold counted_loss in Hc. simpl.
  destruct (put_event (w_q w) row io wall) as [q r] eqn:E. apply put_event_spec in E as [El H].
  destruct H as [Hrej H]. destruct r as [[]|e]; simpl in H.
  - destruct H as (_ & _ & Hq & Hs & Hm). eapply (inv_frame w _ [] [row]); try done; simpl.
    + by rewrite Hs, app_nil_r.
    + by rewrite Hs.
    + unfold counted_loss. simpl. rewrite app_nil_r, Hm, Hrej. lia.
    + intros x. unfold located. simpl. rewrite Hq, Hs, app_nil_r, elem_of_app. tauto.
    + intros x Hx. unfold located. simpl. rewrite Hq, elem_of_app, list_elem_of_singleton.
      apply list_elem_of_singleton in Hx as ->. tauto.
  - destruct H as (_ & Hq & Hs & Hm). apply (inv_no_spill w); try done; simpl; [|by rewrite Hq].
    unfold counted_loss. simpl. rewrite Hm, Hrej. lia.
  - done.
  - destruct H as (_ & _ & _ & Hq & Hl & Hrl & Hh & Hm & _).
    eapply (inv_frame w _ [encode_event row] [row]); try done; simpl.
    + rewrite Hh, Hl, length_app. simpl. by rewrite bool_decide_false by lia.
    + unfold counted_loss. simpl. rewrite app_nil_r, Hm, Hrej. lia.
    + intros x. unfold located, spilled_rows. simpl. rewrite Hq, Hl, Hrl, omap_app, app_nil_r, elem_of_app.
      tauto.
    + intros x ->%list_elem_of_singleton. unfold located, spilled_rows. simpl.
      rewrite Hl, omap_app, elem_of_app. do 2 right. left. right. cbn [omap list_omap].
      rewrite decode_encode. apply list_elem_of_here.
  - destruct H as (_ & _ & _ & Hq & Hs & Hm). eapply (inv_frame w _ [] [row]); try done; simpl.
    + by rewrite Hs, app_nil_r.
    + by rewrite Hs.
    + unfold counted_loss. simpl. rewrite length_app, Hm, Hrej. simpl. lia.
    + intros x. unfold located. simpl. rewrite Hq, Hs, elem_of_app. tauto.
    + intros x Hx. unfold located. simpl. rewrite elem_of_app. tauto.
  - done.
  - destruct H as (_ & Hq & Hs & Hm). apply (inv_no_spill w); try done; simpl; [|by rewrite Hq].
    unfold counted_loss. simpl. rewrite Hm, Hrej. lia.
Qed.

Lemma inv_host w o : writer_inv w -> writer_inv (host_step w o).
Proof.
  intros Hi. destruct o as [row io wall|table row|robot fields]; [by apply inv_put_event|..].
  - pose proof Hi as (_ & _ & Hc & _ & _). simpl.
    destruct (put_timeseries_frame (w_q w) table row) as (Hs & _ & _ & Hm & Hr & Hq).
    apply (inv_no_spill w); try done. unfold counted_loss in *. simpl. lia.
  - pose proof Hi as (_ & _ & Hc & _ & _). simpl.
    destruct (put_latest_frame (w_q w) robot fields) as (Hs & Hq & Hm).
    apply (inv_no_spill w); try done; simpl; [|by rewrite Hq].
    unfold counted_loss in *. simpl. by rewrite Hm.
Qed.

Definition plain_phase (p : phase) : Prop :=
  match p with Idle | OneByOne _ _ => False | _ => True end.

(** A step of the flush that touches neither the queue, the spill file nor the events. *)
Lemma inv_plain (w w' : World) :
  writer_inv w -> plain_phase (w_phase w') ->
  b_events (w_batch w') = b_events (w_batch w) -> b_replay (w_batch w') = b_replay (w_batch w) ->
  b_replay_lines (w_batch w') = b_replay_lines (w_batch w) ->
  queue (w_q w') = queue (w_q w) -> spill (w_q w') = spill (w_q w) ->
  events_lost (metrics (w_q w')) = events_lost (metrics (w_q w)) ->
  events_rejected (metrics (w_q w')) = events_rejected (metrics (w_q w)) ->
  (forall k, is_Some (w_db w !! k) -> is_Some (w_db w' !! k)) ->
  w_accepted w' = w_accepted w -> w_lost w' = w_lost w -> writer_inv w'.
Proof.
  intros (Hp & Hr & Hc & Hd & Hl) Hph Ee Er En Eq Es Elo Ere Hdb Ea Elost. split_and!.
  - unfold phase_ok. by destruct (w_phase w').
  - unfold replay_ok in *. by rewrite Er, En, Es.
  - unfold counted_loss in *. by rewrite Elost, Elo, Ere.
  - by rewrite Es.
  - rewrite Ea. intros r Hin. specialize (Hl r Hin). unfold located in *.
    rewrite Ee, Eq, Es, Elost. naive_solver.
Qed.

Lemma inv_raises w : writer_inv w -> writer_inv (flush_raises w).
Proof. intros Hi. by apply (inv_plain w). Qed.

Lemma inv_begin w read_ok now :
  w_phase w = Idle -> writer_inv w -> writer_inv (flush_begin w read_ok now).
Proof.
  intros Hidle (Hp & Hr & Hc & Hd & Hl). unfold phase_ok in Hp. rewrite Hidle in Hp.
  unfold flush_begin.
  destruct (read_replay (w_q w) read_ok) as [q1 [replay n]] eqn:Er.
  assert (Hrd : queue q1 = queue (w_q w) /\ lines (spill q1) = lines (spill (w_q w))
    /\ rejected_lines (spill q1) = rejected_lines (spill (w_q w))
    /\ has_data (spill q1) = has_data (spill (w_q w))
    /\ events_lost (metrics q1) = events_lost (metrics (w_q w))
    /\ events_rejected (metrics q1) = events_rejected (metrics (w_q w))
    /\ replay = omap decode_event (take n (lines (spill (w_q w))))
    /\ n <= length (lines (spill (w_q w)))).
  { unfold read_replay in Er. destruct (has_data (spill (w_q w)) && read_ok) eqn:Eb.
    - assert (Hne : lines (spill (w_q w)) <> []).
      { intros E. rewrite Hd, E in Eb. done. }
      unfold read in Er. rewrite bool_decide_false in Er by done.
      destruct (read_lines _ _) as [[rows k] c] eqn:El.
      apply read_lines_decode in El as [-> Hk]. simplify_eq/=. split_and!; auto with lia.
    - simplify_eq/=. split_and!; auto with lia. }
  destruct Hrd as (Eq & El & Erej & Eh & Elo & Ere & Hrep & Hn).
  assert (Hloc : forall r, r ∈ w_accepted w ->
    r ∈ item_events (take (batch_size cfg) (queue q1)) \/ IEvent r ∈ drop (batch_size cfg) (queue q1)
    \/ r ∈ spilled_rows (spill q1) \/ is_Some (w_db w !! event_key r)
    \/ encode_event r ∈ rejected_lines (spill q1) \/ r ∈ w_lost w).
  { intros r Hin. destruct (Hl r Hin) as [H|[H|H]].
    - rewrite <-Eq, <-(take_drop (batch_size cfg) (queue q1)) in H.
      apply elem_of_app in H as [H|H]; [left; by apply item_events_in|auto].
    - rewrite Hp in H. by apply elem_of_nil in H.
    - unfold spilled_rows in *. rewrite El, Erej. auto. }
  unfold drain, take_latest. simpl.
  set (b := mkBatch _ _ _ _ _ _). destruct (batch_empty b) eqn:Ebe.
  - unfold batch_empty in Ebe. simpl in Ebe. bprop.
    split_and!; simpl.
    + unfold phase_ok. simpl. by rewrite Hidle.
    + unfold replay_ok. simpl. rewrite Hp. simpl. auto with lia.
    + unfold counted_loss in *. simpl. lia.
    + by rewrite Eh, Hd, El.
    + intros r Hin. unfold located. simpl. destruct (Hloc r Hin) as [Hx|]; [|tauto].
      match goal with H : item_events _ = [] |- _ => rewrite H in Hx end. by apply elem_of_nil in Hx.
  - split_and!; simpl; [done| | | |].
    + unfold replay_ok. simpl. rewrite El. auto.
    + unfold counted_loss in *. simpl. lia.
    + by rewrite Eh, Hd, El.
    + intros r Hin. unfold located. simpl. specialize (Hloc r Hin). tauto.
Qed.

Lemma consume_rejected f n : rejected_lines (consume f n) = rejected_lines f.
Proof. unfold consume. case_bool_decide; [done|]. by destruct (forallb _ _). Qed.

Lemma consume_length f n : length (lines (consume f n)) <= length (lines f) - n.
Proof. destruct (consume_lines f n) as [->|[-> _]]; [by rewrite length_drop|simpl; lia]. Qed.

(** [has_data] after a [consume]. *)
Lemma consume_has_data f n :
  has_data f = negb (bool_decide (length (lines f) = 0)) ->
  has_data (consume f n) = negb (bool_decide (length (lines (consume f n)) = 0)).
Proof.
  intros Hd. unfold consume. destruct (decide (n = 0)); [by rewrite bool_decide_true|].
  rewrite bool_decide_false by done. destruct (forallb is_blank _) eqn:Eb; [done|]. simpl.
  by destruct (drop n (lines f)).
Qed.

Local Ltac split_inv := refine (conj _ (conj _ (conj _ (conj _ _)))).

(** The end of [_write_events]: every row of the batch is in the database, rejected or lost. *)
Lemma inv_events_written w rejected c :
  writer_inv w ->
  (forall r, r ∈ b_replay (w_batch w) ++ b_events (w_batch w) ->
     is_Some (w_db w !! event_key r) \/ encode_event r ∈ rejected_lines (spill (w_q w))
     \/ r ∈ w_lost w) ->
  writer_inv (events_written w rejected c).
Proof.
  intros (Hp & Hr & Hc & Hd & Hl) Hrows. unfold events_written. set (b := w_batch w) in *.
  assert (Hrep := proj1 Hr). fold b in Hrep.
  destruct (decide (b_replay_lines b = 0)) as [Hn|Hn];
    [rewrite bool_decide_true by done|rewrite bool_decide_false by done; destruct c].
  - split_inv; simpl; [done|split; simpl; [done|lia]|done|done|].
    intros r Hin. specialize (Hl r Hin). unfold located in *. simpl. destruct Hl as [?|[H|?]]; auto.
    destruct (Hrows r) as [?|[?|?]]; auto 8. apply elem_of_app. auto.
  - split_inv; simpl; [done|split; simpl; [done|lia]|..].
    + unfold counted_loss in *. simpl. lia.
    + by apply consume_has_data.
    + intros r Hin. specialize (Hl r Hin). unfold located in *. simpl.
      rewrite consume_spilled, consume_rejected.
      destruct Hl as [?|[H|[H|?]]]; auto.
      * destruct (Hrows r) as [?|[?|?]]; auto 8. apply elem_of_app. auto.
      * destruct (spilled_split _ (b_replay_lines b) r H) as [H'|H']; [|auto].
        destruct (Hrows r) as [?|[?|?]]; auto 8. apply elem_of_app. left. by rewrite Hrep.
  - by apply (inv_plain w).
Qed.

Lemma inv_connected w c : w_phase w = Connecting -> writer_inv w -> writer_inv (connected w c).
Proof.
  intros Hph Hi. unfold connected. destruct (b_replay (w_batch w) ++ b_events (w_batch w)) eqn:Er.
  2: by apply (inv_plain w).
  apply app_eq_nil in Er as [Er Ee].
  destruct (decide (b_replay_lines (w_batch w) = 0)) as [Hn|Hn];
    [rewrite bool_decide_true by done|rewrite bool_decide_false by done; destruct c].
  - by apply (inv_plain w).
  - destruct Hi as (Hp & Hr & Hc & Hd & Hl).
    split_inv; simpl; [done|split; simpl; [by rewrite Er|lia]|done|by apply consume_has_data|].
    intros r Hin. specialize (Hl r Hin). unfold located in *. simpl.
    rewrite consume_spilled, consume_rejected. destruct Hl as [?|[H|[H|?]]]; auto.
    destruct (spilled_split _ (b_replay_lines (w_batch w)) r H) as [H'|H']; [|auto].
    destruct Hr as [Hr _]. rewrite <-Hr, Er in H'. by apply elem_of_nil in H'.
  - by apply inv_raises.
Qed.

Lemma inv_write_events w o c : w_phase w = EventsOut -> writer_inv w -> writer_inv (write_events w o c).
Proof.
  intros Hph Hi. unfold write_events.
  set (w1 := if tx_commits o then _ else w).
  assert (Hw1 : writer_inv w1).
  { unfold w1. destruct (tx_commits o); [|done]. apply (inv_plain w); try done; simpl.
    - by rewrite Hph.
    - intros k. apply insert_events_mono. }
  assert (Hb : w_batch w1 = w_batch w) by (unfold w1; by destruct (tx_commits o)).
  destruct o as [| |[]|[]]; simpl; try (by apply inv_raises); try (rewrite <-Hb; by apply (inv_plain w1)).
  - apply inv_events_written; [done|]. intros r Hin. left. by apply insert_events_in.
  - destruct Hi as (Hp & Hr & Hc & Hd & Hl). split_inv; simpl; [|done..].
    intros r Hin. auto.
Qed.

(** The end of the loop of [_write_events_one_by_one]. *)
Lemma inv_rows_done w rejected o rok c :
  w_phase w = OneByOne [] rejected -> writer_inv w ->
  writer_inv (write_row w [] rejected o rok c).
Proof.
  intros Hph Hi. pose proof Hi as (Hp & Hr & Hc & Hd & Hl). unfold phase_ok in Hp. rewrite Hph in Hp.
  unfold write_row.
  destruct rejected as [|x rejected].
  { apply inv_events_written; [done|]. intros r Hin. left.
    destruct (Hp r Hin) as [H|[H|?]]; [by apply elem_of_nil in H|by apply elem_of_nil in H|done]. }
  unfold reject. cbn [fst snd]. set (rs := x :: rejected) in *.
  assert (Hout : forall r, r ∈ b_replay (w_batch w) ++ b_events (w_batch w) ->
            is_Some (w_db w !! event_key r) \/ r ∈ rs).
  { intros r Hin. destruct (Hp r Hin) as [H|[H|?]]; [by apply elem_of_nil in H|auto|auto]. }
  destruct rok; apply inv_events_written.
  - split_inv; simpl; try done.
    + unfold phase_ok. simpl. by rewrite Hph.
    + unfold counted_loss in *. simpl. lia.
    + intros r Hin. specialize (Hl r Hin). unfold located, spilled_rows in *. simpl.
      rewrite elem_of_app. tauto.
  - intros r Hin. simpl. destruct (Hout r Hin) as [|Hrs]; [auto|]. right. left. apply elem_of_app.
    right. exact (list_elem_of_fmap_2 encode_event rs r Hrs).
  - split_inv; simpl; try done.
    + unfold phase_ok. simpl. by rewrite Hph.
    + unfold counted_loss in *. simpl. rewrite length_app. simpl in *. lia.
    + rewrite app_nil_r. intros r Hin. specialize (Hl r Hin). unfold located, spilled_rows in *. simpl.
      rewrite elem_of_app. tauto.
  - intros r Hin. simpl. destruct (Hout r Hin); [auto|]. right. right. apply elem_of_app. auto.
Qed.

(** One row of the loop. *)
Lemma inv_write_one w row rest rejected o rok c :
  w_phase w = OneByOne (row :: rest) rejected -> writer_inv w ->
  writer_inv (write_row w (row :: rest) rejected o rok c).
Proof.
  intros Hph Hi. pose proof Hi as (Hp & Hr & Hc & Hd & Hl). unfold phase_ok in Hp. rewrite Hph in Hp.
  unfold write_row.
  set (w1 := if tx_commits o then _ else w).
  assert (Hdb : forall k, is_Some (w_db w !! k) -> is_Some (w_db w1 !! k)).
  { intros k [v Hv]. unfold w1. destruct (tx_commits o); simpl; [|by exists v].
    rewrite insert_event_lookup, Hv. by exists v. }
  assert (Hrow : o = Committed -> is_Some (w_db w1 !! event_key row)).
  { intros ->. simpl. rewrite insert_event_lookup.
    destruct (w_db w !! event_key row); [by eexists|]. by rewrite bool_decide_true. }
  assert (Hsame : w_q w1 = w_q w /\ w_batch w1 = w_batch w /\ w_accepted w1 = w_accepted w
            /\ w_lost w1 = w_lost w) by (unfold w1; by destruct (tx_commits o)).
  destruct Hsame as (Eq & Eb & Ea & El).
  assert (Hone : forall rej', (forall r, r ∈ rejected -> r ∈ rej') ->
            (is_Some (w_db w1 !! event_key row) \/ row ∈ rej') ->
            writer_inv (with_phase w1 (OneByOne rest rej') (w_batch w))).
  { intros rej' Hsub Hr'. split_inv; simpl; try (by rewrite ?Eq).
    - intros r Hin. simpl in *. destruct (Hp r Hin) as [[->|?]%elem_of_cons|[?|?]]; naive_solver.
    - unfold replay_ok. simpl. by rewrite Eq.
    - unfold counted_loss in *. simpl. by rewrite Eq, El.
    - rewrite Ea. intros r Hin. specialize (Hl r Hin). unfold located in *. simpl. rewrite Eq, El.
      naive_solver. }
  destruct o as [| |cm|cm].
  - apply Hone; auto.
  - apply Hone; [|right]; intros; apply elem_of_app; [by left|right]. apply list_elem_of_here.
  - by apply (inv_plain w); simpl; rewrite ?Eq, ?Eb, ?Ea, ?El.
  - by apply (inv_plain w); simpl; rewrite ?Eq, ?Eb, ?Ea, ?El.
Qed.

Lemma inv_write_table w tables o :
  w_phase w = SeriesOut tables -> writer_inv w -> writer_inv (write_table w tables o).
Proof.
  intros Hph Hi. unfold write_table. destruct tables as [|table rest].
  - by case_bool_decide; apply (inv_plain w).
  - destruct (copy_rows w table _ o) as [w1 t] eqn:E.
    assert (Hw1 : w_q w1 = w_q w /\ w_batch w1 = w_batch w /\ w_db w1 = w_db w
              /\ w_accepted w1 = w_accepted w /\ w_lost w1 = w_lost w).
    { unfold copy_rows in E.
      destruct o as [t'|t']; [|destruct (bool_decide (table = TRACK_TABLE))];
        try destruct (tx_commits t'); by simplify_eq/=. }
    destruct Hw1 as (Eq & Eb & Edb & Ea & El).
    destruct t; apply (inv_plain w); simpl; rewrite ?Eq, ?Eb, ?Edb, ?Ea, ?El; done.
Qed.

Lemma inv_write_latest w o : w_phase w = LatestOut -> writer_inv w -> writer_inv (write_latest w o).
Proof.
  intros Hph Hi. unfold write_latest.
  destruct o as [| |[]|[]]; apply (inv_plain w); simpl; done.
Qed.

Lemma dropped_fold_loss {A : Type} (f : A -> string) (g : A -> nat) r l m :
  let m' := foldl (fun m p => dropped m (f p) r (g p)) m l in
  events_lost m' = events_lost m /\ events_rejected m' = events_rejected m.
Proof. revert m. induction l as [|x l IH]; intros m; [done|]. apply (IH (dropped m (f x) r (g x))). Qed.

(** What [spill_events] does to the spill file and to the loss counter. *)
Lemma spill_events_effect (q : IngestQueue P) rows io wall :
  let q1 := spill_events q rows io wall in
  lines (spill q1) = lines (spill q) ++ (if io then encode_event <$> rows else [])
  /\ spilled_rows (spill q1) = spilled_rows (spill q) ++ (if io then rows else [])
  /\ rejected_lines (spill q1) = rejected_lines (spill q)
  /\ events_rejected (metrics q1) = events_rejected (metrics q)
  /\ events_lost (metrics q1) = events_lost (metrics q) + (if io then 0 else length rows)
  /\ (has_data (spill q) = negb (bool_decide (length (lines (spill q)) = 0)) ->
      has_data (spill q1) = negb (bool_decide (length (lines (spill q1)) = 0))).
Proof.
  unfold spill_events. destruct rows as [|r rows]; simpl.
  { destruct io; rewrite !app_nil_r; auto 8 with lia. }
  destruct io; simpl; [|rewrite !app_nil_r; auto 8].
  pose proof (spilled_append (spill q) (metrics q) (r :: rows) wall) as Hs. unfold spilled_rows in *.
  simpl in *. split_and!; try done; try lia. intros _. rewrite length_app. simpl.
  by rewrite bool_decide_false by lia.
Qed.

Lemma inv_settle w io now wall : w_phase w = Settling -> writer_inv w -> writer_inv (settle w io now wall).
Proof.
  intros Hph (Hp & Hr & Hc & Hd & Hl). unfold settle.
  pose proof (spill_events_effect (w_q w) (b_events (w_batch w)) io wall) as H. simpl in H.
  pose proof (proj1 (spill_events_same (w_q w) (b_events (w_batch w)) io wall)) as Hq. simpl in Hq.
  set (q1 := spill_events (w_q w) (b_events (w_batch w)) io wall) in *.
  destruct H as (Eli & Esp & Erj & Ere & Elo & Ehd).
  destruct (dropped_fold_loss fst (fun p : string * list (list pyval) => length p.2) "write_failed"
              (b_timeseries (w_batch w)) (metrics q1)) as [Hlo Hre].
  destruct io; (split_inv; [done|split; simpl; [done|lia]|..|simpl]); try (simpl; by auto).
  - unfold counted_loss in *. simpl in *. lia.
  - intros r Hin. specialize (Hl r Hin). unfold located in *. simpl.
    rewrite Hq, Esp, Erj, elem_of_app. tauto.
  - unfold counted_loss in *. simpl in *. rewrite length_app. lia.
  - rewrite app_nil_r. intros r Hin. specialize (Hl r Hin). unfold located in *. simpl.
    rewrite Hq, Esp, Erj, !elem_of_app. tauto.
Qed.

Lemma inv_spill_queued w io wall :
  w_phase w = Idle -> writer_inv w -> writer_inv (step w (SpillQueued io wall)).
Proof.
  intros Hph (Hp & Hr & Hc & Hd & Hl). unfold step. rewrite Hph. unfold spill_queued, drain.
  rewrite firstn_all, drop_all. cbn [fst snd].
  set (q0 := set_queue _ _ _). set (ev := item_events (queue (w_q w))).
  assert (Hq0 : spill q0 = spill (w_q w) /\ queue q0 = []
    /\ events_lost (metrics q0) = events_lost (metrics (w_q w))
    /\ events_rejected (metrics q0) = events_rejected (metrics (w_q w))).
  { unfold q0. simpl. split_and!; try done;
      apply (dropped_fold_loss fst (fun _ : string * list pyval => 1) "shutdown"
               (item_series (queue (w_q w))) (set_queue_depth (metrics (w_q w)) 0)). }
  destruct Hq0 as (Es0 & Eq0 & El0 & Er0).
  pose proof (spill_events_effect q0 ev io wall) as H. cbv zeta in H.
  pose proof (proj1 (spill_events_same q0 ev io wall)) as Hq. cbv zeta in Hq.
  set (q1 := spill_events q0 ev io wall) in *. rewrite Es0, El0, Er0 in H.
  destruct H as (Eli & Esp & Erj & Ere & Elo & Ehd).
  assert (Hout : forall r, IEvent r ∈ queue (w_q w) -> r ∈ ev) by (intros r; apply item_events_in).
  destruct io; eapply (inv_frame w _ _ []); try done; simpl; rewrite ?app_nil_r; auto;
    try (intros r Hin; by apply elem_of_nil in Hin).
  - unfold counted_loss in *. simpl. lia.
  - intros r. unfold located. simpl. rewrite Hq, Eq0, Esp, Erj, elem_of_app. naive_solver.
  - unfold counted_loss in *. simpl. rewrite length_app. lia.
  - intros r. unfold located. simpl. rewrite Hq, Eq0, Esp, Erj, !elem_of_app. naive_solver.
Qed.

Lemma writer_inv_step w a : writer_inv w -> writer_inv (step w a).
Proof.
  intros Hi. destruct a; try (by apply inv_host); try (by destruct (w_phase w) eqn:E; simpl; rewrite E);
    destruct (w_phase w) eqn:E; unfold step; rewrite ?E; try done.
  - by apply inv_begin.
  - by apply inv_raises.
  - by apply inv_connected.
  - by apply inv_write_events.
  - destruct todo; [by apply inv_rows_done|by apply inv_write_one].
  - by apply inv_write_table.
  - by apply inv_write_latest.
  - by apply inv_settle.
  - pose proof (inv_spill_queued w io_ok wall E Hi) as H. unfold step in H. by rewrite E in H.
Qed.

(** ** Draining with a healthy database *)

(** What happens next when no operation fails ([t]: the clock). *)
Definition healthy (t : Z) (w : World) : action :=
  match w_phase w with
  | Idle => FlushBegin true t
  | Connecting => Connected true
  | EventsOut => WriteEvents Committed true
  | OneByOne _ _ => WriteRow Committed true true
  | SeriesOut _ => WriteTable (Copy Committed)
  | LatestOut => WriteLatest Committed
  | Settling => Settle true t t
  end.

Fixpoint healthy_steps (t : Z) (n : nat) (w : World) : World :=
  match n with 0 => w | S n' => healthy_steps t n' (step w (healthy t w)) end.

(** What is left to write: the queue, the pending updates, and the lines not being replayed. *)
Definition backlog (w : World) : nat :=
  length (queue (w_q w)) + length (latest (w_q w))
  + (length (lines (spill (w_q w))) - b_replay_lines (w_batch w)).

Definition phase_weight (w : World) : nat :=
  match w_phase w with
  | Idle | OneByOne _ _ => 0
  | Connecting => 7 + length (b_timeseries (w_batch w))
  | EventsOut => 6 + length (b_timeseries (w_batch w))
  | SeriesOut tables => 3 + length tables
  | LatestOut => 2
  | Settling => 1
  end.

Definition flush_measure (w : World) : nat := 10 * backlog w + phase_weight w.

(** The phases of a flush in which nothing failed. *)
Definition flush_path (w : World) : Prop :=
  let b := w_batch w in
  match w_phase w with
  | Idle => b = no_batch
  | Connecting | EventsOut => True
  | OneByOne _ _ => False
  | SeriesOut _ | LatestOut => b_events b = [] /\ b_replay_lines b = 0
  | Settling => b_events b = [] /\ b_latest b = [] /\ b_replay_lines b = 0
  end.

Lemma dset_length {V : Type} (d : list (string * V)) k v : length (dset d k v) <= S (length d).
Proof. induction d as [|[j u] d IH]; simpl; [lia|]. case_bool_decide; simpl; lia. Qed.

Lemma group_series_length items :
  length (group_series items) <= length (item_series items)
  /\ (item_series items <> [] -> group_series items <> []).
Proof.
  unfold group_series. set (f := fun d p => _).
  assert (H : forall l d, length (foldl f d l) <= length d + length l /\ (d <> [] -> foldl f d l <> [])).
  { induction l as [|p l IH]; intros d; simpl; [auto with lia|]. destruct (IH (f d p)) as [H1 H2].
    assert (length (f d p) <= S (length d)) by apply dset_length.
    split; [lia|]. intros _. apply H2. apply dset_not_nil. }
  split; [apply (H (item_series items) [])|]. intros Hne.
  destruct (item_series items) as [|p l]; [done|]. simpl. apply H. apply dset_not_nil.
Qed.

Lemma items_split items :
  length (item_series items) <= length items
  /\ (items <> [] -> item_events items <> [] \/ item_series items <> []).
Proof.
  split.
  - unfold item_series. induction items as [|[r|t v] l IH]; csimpl; lia.
  - destruct items as [|[r|t v] l]; [done|left|right]; done.
Qed.

Lemma read_lines_progress limit ls : 0 < limit -> ls <> [] -> 0 < (read_lines limit ls).1.2.
Proof.
  intros Hl Hne. destruct limit as [|limit]; [lia|]. destruct ls as [|l ls]; [done|].
  rewrite read_lines_cons. destruct (decode_event l).
  - destruct (read_lines limit ls) as [[rows n] c]. simpl. lia.
  - destruct (read_lines (S limit) ls) as [[rows n] c]. simpl. lia.
Qed.

Lemma read_replay_progress w :
  writer_inv w -> 0 < replay_limit cfg -> has_data (spill (w_q w)) = true ->
  exists q1 replay n, read_replay (w_q w) true = (q1, (replay, n)) /\ 0 < n <= length (lines (spill (w_q w)))
    /\ queue q1 = queue (w_q w) /\ latest q1 = latest (w_q w)
    /\ lines (spill q1) = lines (spill (w_q w)).
Proof.
  intros (_ & _ & _ & Hd & _) Hl Hh. unfold read_replay. rewrite Hh. simpl. unfold read.
  assert (Hne : lines (spill (w_q w)) <> []) by (intros E; rewrite Hh, E in Hd; done).
  pose proof (read_lines_progress _ _ Hl Hne) as Hp.
  destruct (read_lines _ _) as [[rows n] c] eqn:El. apply read_lines_decode in El as [_ Hn].
  rewrite bool_decide_false by done. eexists _, _, _. split; [done|]. simpl in *. auto.
Qed.

(** Starting a flush when work is waiting. *)
Lemma healthy_begin t w :
  0 < batch_size cfg -> 0 < replay_limit cfg -> writer_inv w ->
  w_phase w = Idle -> work_waiting w = true ->
  let w' := flush_begin w true t in
  w_phase w' = Connecting /\ flush_measure w' < flush_measure w.
Proof.
  intros Hbs Hrl Hi Hph Hwork. unfold flush_begin.
  assert (Hno : w_batch w = no_batch) by (destruct Hi as [Hp _]; unfold phase_ok in Hp; by rewrite Hph in Hp).
  set (take_q := take (batch_size cfg) (queue (w_q w))).
  assert (Hread : exists q1 replay n, read_replay (w_q w) true = (q1, (replay, n))
    /\ n <= length (lines (spill (w_q w))) /\ queue q1 = queue (w_q w) /\ latest q1 = latest (w_q w)
    /\ lines (spill q1) = lines (spill (w_q w)) /\ (has_data (spill (w_q w)) = true -> 0 < n)).
  { destruct (has_data (spill (w_q w))) eqn:Eh.
    - destruct (read_replay_progress w Hi Hrl Eh) as (q1 & replay & n & -> & Hn & ?).
      exists q1, replay, n. naive_solver lia.
    - exists (w_q w), [], 0. unfold read_replay. rewrite Eh. simpl. split_and!; try done; lia. }
  destruct Hread as (q1 & replay & n & -> & Hn & Eq & El & Els & Hpos).
  unfold drain, take_latest. cbn [fst snd latest set_queue set_latest]. rewrite Eq. fold take_q.
  destruct (items_split take_q) as [Hser Hitems]. destruct (group_series_length take_q) as [Hgl Hgne].
  assert (Hlen : length take_q = Nat.min (batch_size cfg) (length (queue (w_q w)))) by apply length_take.
  assert (Hsome : 0 < length take_q \/ 0 < length (latest (w_q w)) \/ 0 < n).
  { unfold work_waiting in Hwork. rewrite !orb_true_iff, !negb_true_iff, !bool_decide_eq_false in Hwork.
    destruct Hwork as [[?|?]|?]; [left; lia|right; left; lia|auto]. }
  assert (Hb : batch_empty (mkBatch (item_events take_q) (group_series take_q) (latest q1) replay n false)
               = false).
  { unfold batch_empty. simpl. rewrite !andb_false_iff, !bool_decide_eq_false, El.
    destruct Hsome as [Hs|[Hs|Hs]].
    - assert (take_q <> []) as Hne by (intros E; rewrite E in Hs; simpl in Hs; lia).
      destruct (Hitems Hne) as [H|H]; [auto|]. left. left. right.
      specialize (Hgne H). by destruct (group_series take_q).
    - left. right. lia.
    - right. lia. }
  rewrite Hb. split; [done|]. unfold flush_measure, backlog, phase_weight. simpl.
  rewrite Hph, Hno, Els, length_drop. simpl. lia.
Qed.

(** Every other step of a flush in which nothing fails. *)
Lemma healthy_progress t w :
  writer_inv w -> flush_path w -> w_phase w <> Idle ->
  let w' := step w (healthy t w) in
  flush_path w' /\ flush_measure w' < flush_measure w /\ w_accepted w' = w_accepted w.
Proof.
  intros Hi Hf Hph. pose proof Hi as (_ & [Hrep Hn] & _). unfold step, healthy.
  unfold flush_path in Hf. unfold flush_measure, backlog, phase_weight.
  destruct (w_phase w) as [| | |todo rej|[|table rest]| |] eqn:Ep; try done.
  - unfold connected. destruct (_ ++ _) as [|r rs] eqn:Er.
    + apply app_eq_nil in Er as [Er Ee]. unfold flush_path.
      destruct (decide (b_replay_lines (w_batch w) = 0)) as [Hz|Hz];
        [rewrite bool_decide_true by done|rewrite bool_decide_false by done]; simpl;
        unfold keys; rewrite length_fmap.
      * split_and!; try done. lia.
      * pose proof (consume_length (spill (w_q w)) (b_replay_lines (w_batch w))).
        split_and!; try done. lia.
    + unfold flush_path. simpl. split_and!; try done. lia.
  - unfold write_events, events_written, flush_path. simpl.
    destruct (decide (b_replay_lines (w_batch w) = 0)) as [Hz|Hz];
      [rewrite bool_decide_true by done|rewrite bool_decide_false by done]; simpl;
      unfold keys; rewrite length_fmap; split_and!; try done; [lia|].
    pose proof (consume_length (spill (w_q w)) (b_replay_lines (w_batch w))). lia.
  - destruct Hf as [He Hz]. unfold write_table, flush_path.
    destruct (b_latest (w_batch w)) eqn:El; simpl; rewrite ?El; split_and!; try done; lia.
  - destruct Hf as [He Hz]. unfold write_table, flush_path. simpl. split_and!; try done. lia.
  - destruct Hf as [He Hz]. unfold write_latest, flush_path. simpl. split_and!; try done. lia.
  - destruct Hf as (He & El & Hz). unfold settle, flush_path. simpl. rewrite He, El. simpl.
    split_and!; try done. lia.
Qed.

Lemma healthy_drains t w :
  0 < batch_size cfg -> 0 < replay_limit cfg -> writer_inv w -> flush_path w ->
  exists n, n <= flush_measure w /\
    let w' := healthy_steps t n w in
    w_phase w' = Idle /\ work_waiting w' = false /\ writer_inv w' /\ w_accepted w' = w_accepted w.
Proof.
  intros Hbs Hrl. remember (flush_measure w) as k eqn:Ek. revert w Ek.
  induction (lt_wf k) as [k _ IH]. intros w Ek Hi Hf.
  assert (Hstep : flush_path (step w (healthy t w)) /\ flush_measure (step w (healthy t w)) < k
            /\ w_accepted (step w (healthy t w)) = w_accepted w ->
          exists n, n <= k /\ let w' := healthy_steps t n w in
            w_phase w' = Idle /\ work_waiting w' = false /\ writer_inv w' /\ w_accepted w' = w_accepted w).
  { intros (Hp & Hlt & Ha).
    destruct (IH _ Hlt (step w (healthy t w)) eq_refl) as (n & Hn & H); [by apply writer_inv_step|done|].
    exists (S n). split; [lia|]. simpl in *. by rewrite <-Ha. }
  destruct (w_phase w) eqn:Ep; try (apply Hstep; rewrite Ek; by apply healthy_progress; rewrite ?Ep).
  destruct (work_waiting w) eqn:Ew; [|by exists 0; split; [lia|]].
  apply Hstep. unfold step, healthy. rewrite Ep.
  destruct (healthy_begin t w Hbs Hrl Hi Ep Ew) as [H1 H2]. cbv zeta in H1, H2.
  split_and!; [unfold flush_path; by rewrite H1|lia|].
  unfold flush_begin. destruct (read_replay (w_q w) true) as [q1 [replay n]]. simpl.
  by destruct (batch_empty _).
Qed.

(** ** [robot_latest] *)

Definition column_of (d : list (string * fields_t)) (robot column : string) : option pyval :=
  f ← dget d robot; dget f column.

(** The value of a column: pending, else being written, else stored. *)
Definition latest_view (w : World) (robot column : string) : option pyval :=
  match column_of (latest (w_q w)) robot column with
  | Some v => Some v
  | None =>
      match column_of (b_latest (w_batch w)) robot column with
      | Some v => Some v
      | None => column_of (w_latest_db w) robot column
      end
  end.

Definition fields_ok (src : Source) (d : fields_t) : Prop :=
  dict_wf d /\ forall c, c ∈ keys d -> c ∈ LATEST_OWNED_COLUMNS src.
Definition updates_ok (src : Source) (l : list (string * fields_t)) : Prop :=
  dict_wf l /\ Forall (fun p => fields_ok src p.2) l.

Definition latest_inv (w : World) : Prop :=
  let src := source (w_q w) in
  updates_ok src (latest (w_q w)) /\ updates_ok src (b_latest (w_batch w))
  /\ updates_ok src (w_latest_db w).

Lemma keys_dupdate (d e : fields_t) c : c ∈ keys (dupdate d e) -> c ∈ keys d \/ c ∈ keys e.
Proof.
  unfold dupdate. revert d. induction e as [|p e IH]; intros d H; simpl in *; [auto|].
  apply IH in H as [H|H]; [|by right; right]. rewrite keys_dset in H.
  destruct (bool_decide (p.1 ∈ keys d)) eqn:E; [auto|]. apply elem_of_app in H as [H|H]; [auto|].
  apply list_elem_of_singleton in H as ->. right. left.
Qed.

Lemma fields_ok_dupdate src d e : fields_ok src d -> fields_ok src e -> fields_ok src (dupdate d e).
Proof.
  intros [Hd Hd'] [He He']. split; [by apply dict_wf_dupdate|]. intros c [H|H]%keys_dupdate; auto.
Qed.

Lemma updates_ok_get src l robot : updates_ok src l -> fields_ok src (default [] (dget l robot)).
Proof.
  intros [_ Hf]. destruct (dget l robot) as [d|] eqn:E; simpl.
  - apply (Forall_dget _ _ _ _ Hf E).
  - split; [apply dict_wf_nil|]. intros c Hc. by apply elem_of_nil in Hc.
Qed.

Lemma updates_ok_set src l robot d : updates_ok src l -> fields_ok src d -> updates_ok src (dset l robot d).
Proof. intros [Hl Hf] Hd. split; [by apply dict_wf_dset|by apply Forall_dset]. Qed.

Lemma updates_ok_upsert src db l : updates_ok src db -> updates_ok src l -> updates_ok src (upsert_latest db l).
Proof.
  unfold upsert_latest. intros Hdb [_ Hl]. revert db Hdb. induction Hl as [|p l Hp Hl IH]; intros db Hdb; [done|].
  apply IH. apply updates_ok_set; [done|]. apply fields_ok_dupdate; [by apply updates_ok_get|done].
Qed.

Lemma updates_ok_restore src q failed :
  updates_ok src (latest q) -> updates_ok src failed -> updates_ok src (latest (@restore_latest P q failed)).
Proof.
  unfold restore_latest. simpl. intros Hq [_ Hl]. revert Hq. generalize (latest q).
  induction Hl as [|p l Hp Hl IH]; intros db Hdb; [done|].
  apply IH. apply updates_ok_set; [done|]. apply fields_ok_dupdate; [done|by apply updates_ok_get].
Qed.

Lemma column_upsert src db l robot c :
  updates_ok src l ->
  column_of (upsert_latest db l) robot c
  = match column_of l robot c with Some v => Some v | None => column_of db robot c end.
Proof.
  intros [Hwf Hf]. unfold upsert_latest, column_of. revert db.
  induction l as [|[r f] l IH]; intros db; [done|]. apply NoDup_cons in Hwf as [Hr Hwf].
  apply Forall_cons in Hf as [[Hfw _] Hf]. simpl. rewrite IH by done. clear IH. rewrite dget_dset.
  case_bool_decide; subst.
  - rewrite (proj2 (dget_None l robot)) by done. cbn [mbind option_bind].
    rewrite dget_update by done. destruct (dget f c); [done|]. by destruct (dget db robot).
  - done.
Qed.

Lemma coerce_keys f d k (d' : fields_t) : coerce f d k = Some d' -> keys d' = keys d.
Proof.
  unfold coerce. destruct (dget d k) as [v|] eqn:E; [|by intros [= <-]].
  assert (Hk : k ∈ keys d) by by eapply dget_Some_key.
  destruct v; try (by intros [= <-]); (destruct (f _); [|done]); intros [= <-];
    rewrite keys_dset; by rewrite bool_decide_true.
Qed.

Lemma merged_fields_keys src robot fields d c :
  merged_fields parse_uuid src robot fields = Some d -> c ∈ keys d -> c ∈ LATEST_OWNED_COLUMNS src.
Proof.
  unfold merged_fields. destruct (_ || _) eqn:E; [done|].
  apply orb_false_iff in E as [_ E]. unfold coerce_latest.
  destruct (coerce (to_uuid parse_uuid) fields "active_run_id") as [d1|] eqn:E1; [|done].
  intros E2%coerce_keys. apply coerce_keys in E1. rewrite E2, E1. intros Hc.
  destruct (decide (c ∈ LATEST_OWNED_COLUMNS src)); [done|]. exfalso.
  rewrite <-not_true_iff_false in E. apply E. apply existsb_exists. exists c.
  split; [by apply list_elem_of_In|by rewrite bool_decide_true].
Qed.

Lemma latest_inv_host w o : latest_inv w -> latest_inv (host_step w o).
Proof.
  intros (Hq & Hb & Hdb). destruct o as [row io wall|table row|robot fields].
  - simpl. destruct (put_event (w_q w) row io wall) as [q r] eqn:E.
    assert (Hs : source q = source (w_q w) /\ latest q = latest (w_q w)).
    { split; [|by apply put_event_spec in E as [? _]].
      revert E. unfold put_event. destruct (allowed _ _ _ _) as [q1 [[]|]] eqn:Ea;
        apply allowed_spec in Ea as (_&_&_&_&<-&_); try (by intros [= <- <-]).
      unfold put_nowait. case_bool_decide; [by intros [= <- <-]|]. by destruct io; intros [= <- <-]. }
    destruct Hs as [Es El]. unfold latest_inv.
    destruct r as [[]|]; simpl; by rewrite Es, El.
  - destruct (put_timeseries_frame (w_q w) table row) as (_ & El & Es & _). unfold latest_inv. simpl.
    by rewrite El, Es.
  - unfold latest_inv. simpl. rewrite put_latest_eq. destruct (merged_fields _ _ _ _) as [d|] eqn:E; [|done].
    simpl. split_and!; try apply Hb; try apply Hdb; apply updates_ok_set; try done;
      pose proof (updates_ok_get _ _ robot Hq) as [Hw Hk];
      (split; [by apply dict_wf_dupdate|]); intros c [Hc|Hc]%keys_dupdate; auto;
      by eapply merged_fields_keys.
Qed.

Lemma updates_ok_nil src : updates_ok src [].
Proof. split; [apply dict_wf_nil|constructor]. Qed.

Definition same_latest (w w' : World) : Prop :=
  source (w_q w') = source (w_q w) /\ latest (w_q w') = latest (w_q w)
  /\ b_latest (w_batch w') = b_latest (w_batch w) /\ w_latest_db w' = w_latest_db w.

Lemma latest_frame (w w' : World) :
  same_latest w w' ->
  (latest_inv w -> latest_inv w') /\ (forall r c, latest_view w' r c = latest_view w r c).
Proof. unfold latest_inv, latest_view. intros (-> & -> & -> & ->). auto. Qed.

Lemma same_events_written w n c : same_latest w (events_written w n c).
Proof. unfold events_written. case_bool_decide; [done|]. by destruct c. Qed.

Lemma read_replay_latest q ok :
  source (read_replay q ok).1 = source q /\ latest (read_replay q ok).1 = latest q.
Proof.
  unfold read_replay. destruct (has_data (spill q) && ok); [|done]. unfold read.
  by destruct (read_lines _ _) as [[rows n] c].
Qed.

(** The actions that leave [robot_latest] alone. *)
Lemma quiet_latest w a :
  match a with
  | Host _ | FlushBegin _ _ | WriteLatest _ | Settle _ _ _ => True
  | _ => same_latest w (step w a)
  end.
Proof.
  destruct a as [| | |c|o c|o rok c|o| | |io wall]; try done; unfold step;
    destruct (w_phase w) as [| | |todo rej|tbl| |]; try done.
  - unfold connected. destruct (_ ++ _); [|done]. case_bool_decide; [done|]. by destruct c.
  - unfold write_events. destruct o as [| |[]|[]]; try done.
    apply (same_events_written (with_db w _) 0 c).
  - unfold write_row. destruct todo as [|row rest]; [|by destruct o as [| |[]|[]]].
    destruct rej as [|x rej]; [apply same_events_written|]. unfold reject. cbn [fst snd].
    destruct rok; exact (same_events_written _ _ c).
  - unfold write_table. destruct tbl as [|table rest]; [by case_bool_decide|].
    unfold copy_rows. destruct o as [o|o]; [|destruct (bool_decide (table = TRACK_TABLE))];
      try done; by destruct o as [| |[]|[]].
  - unfold spill_queued, drain. simpl.
    match goal with |- context [spill_events ?q ?r ?i ?wl] =>
      destruct (spill_events_same q r i wl) as (_&_&El&Es&_) end.
    destruct io; unfold same_latest; simpl; rewrite ?El, ?Es; done.
Qed.

Lemma settle_latest w io now wall :
  latest_inv w ->
  let w' := settle w io now wall in
  latest_inv w' /\ forall r c, latest_view w' r c = latest_view w r c.
Proof.
  intros (Hq & Hb & Hdb). unfold settle.
  destruct (spill_events_same (w_q w) (b_events (w_batch w)) io wall) as (_&_&El&Es&_).
  set (q1 := spill_events (w_q w) (b_events (w_batch w)) io wall) in *.
  set (m2 := foldl _ _ _). set (q2 := set_queue q1 (queue q1) m2).
  assert (Hlw : latest_wf q2).
  { unfold latest_wf, q2. simpl. rewrite El. destruct Hq as [Hw Hf]. split; [done|].
    eapply Forall_impl; [exact Hf|]. by intros ? []. }
  assert (Hr : forall r c, column_of (latest (restore_latest q2 (b_latest (w_batch w)))) r c
               = match column_of (latest (w_q w)) r c with
                 | Some v => Some v | None => column_of (b_latest (w_batch w)) r c end).
  { intros r c. pose proof (pending_restore q2 (b_latest (w_batch w)) r c Hlw (proj1 Hb)) as H.
    unfold pending_latest in H. change (latest q2) with (latest q1) in H. rewrite El in H. exact H. }
  assert (Hok : updates_ok (source (w_q w)) (latest (restore_latest q2 (b_latest (w_batch w))))).
  { apply updates_ok_restore; [|done]. unfold q2. simpl. by rewrite El. }
  destruct io; unfold latest_inv, latest_view; simpl; rewrite ?Es;
    (split; [split_and!; try done; apply updates_ok_nil|]);
    intros r c; specialize (Hr r c); simpl in Hr; rewrite Hr;
    by destruct (column_of (latest (w_q w)) r c).
Qed.

Lemma write_latest_latest w o :
  latest_inv w ->
  let w' := write_latest w o in
  latest_inv w' /\ (o <> Refused -> forall r c, latest_view w' r c = latest_view w r c).
Proof.
  intros (Hq & Hb & Hdb). pose proof (updates_ok_upsert _ _ _ Hdb Hb) as Hup.
  unfold write_latest, latest_inv, latest_view.
  destruct o as [| |[]|[]]; simpl; (split; [split_and!; try done; apply updates_ok_nil|]); try done;
    intros _ r c; rewrite ?(column_upsert _ _ _ r c Hb);
    destruct (column_of (latest (w_q w)) r c), (column_of (b_latest (w_batch w)) r c); done.
Qed.

Lemma begin_latest w ok now :
  w_batch w = no_batch -> latest_inv w ->
  let w' := flush_begin w ok now in
  latest_inv w' /\ forall r c, latest_view w' r c = latest_view w r c.
Proof.
  intros Hno (Hq & Hb & Hdb). unfold flush_begin. destruct (read_replay_latest (w_q w) ok) as [Es El].
  destruct (read_replay (w_q w) ok) as [q1 [replay n]]. simpl in Es, El.
  unfold drain, take_latest. cbn [fst snd]. destruct (batch_empty _) eqn:Ee;
    unfold latest_inv, latest_view; simpl; rewrite Es, ?El, ?Hno.
  - split; [split_and!; try done; apply updates_ok_nil|]. intros r c.
    unfold batch_empty in Ee. simpl in Ee. rewrite !andb_true_iff, !bool_decide_eq_true in Ee.
    destruct Ee as [[_ Ee] _]. rewrite El in Ee. apply length_zero_iff_nil in Ee. by rewrite Ee.
  - split; [split_and!; try done; apply updates_ok_nil|]. intros r c. simpl.
    by destruct (column_of (latest (w_q w)) r c).
Qed.

Lemma latest_inv_step w a : writer_inv w -> latest_inv w -> latest_inv (step w a).
Proof.
  intros [Hp _] Hl. pose proof (quiet_latest w a) as Hquiet.
  destruct a; try (by apply (latest_frame _ _ Hquiet)); unfold step; [by apply latest_inv_host|..];
    destruct (w_phase w) eqn:E; try done.
  - apply begin_latest; [|done]. unfold phase_ok in Hp. by rewrite E in Hp.
  - by apply write_latest_latest.
  - by apply settle_latest.
Qed.
End writer.
Arguments World : clear implicits.

(** ** Properties *)

Section properties.
Context {P : Type} `{!RecordingGate P} (parse_uuid : string -> option N) (cfg : Config).

Lemma inv_init src found mtime rejected maxsize (pol : P) q0 :
  new_queue src (open_spill found mtime rejected) maxsize pol = Ok q0 ->
  writer_inv (new_world q0) /\ latest_inv (new_world q0).
Proof.
  unfold new_queue. case_bool_decide; [done|]. intros [= <-].
  split; [|split_and!; apply updates_ok_nil].
  refine (conj _ (conj _ (conj _ (conj _ _)))); try done.
  - split; simpl; [done|lia].
  - unfold counted_loss. simpl. lia.
  - by destruct found.
  - intros r Hr. unfold located. simpl in *. auto.
Qed.

Lemma reachable_writer_inv src found mtime rejected maxsize (pol : P) q0 w :
  new_queue src (open_spill found mtime rejected) maxsize pol = Ok q0 ->
  reachable (step parse_uuid cfg) (new_world q0) w -> writer_inv w /\ latest_inv w.
Proof.
  intros H0 Hr. eapply (reachable_inv (step parse_uuid cfg) (fun w => writer_inv w /\ latest_inv w));
    [by eapply inv_init| |exact Hr].
  intros w1 a [Hi Hl]. split; [by apply writer_inv_step|by apply latest_inv_step].
Qed.


(** C40: [_drain] finishes when nothing fails: from any state in which no flush is running, at most ten
    steps per queued row, pending update and spilled line lead to a state with nothing waiting, in
    which every event accepted so far is in the database, in the rejected file or counted as lost. *)
Theorem drain_delivers src found mtime rejected maxsize (pol : P) q0 w t :
  0 < batch_size cfg -> 0 < replay_limit cfg ->
  new_queue src (open_spill found mtime rejected) maxsize pol = Ok q0 ->
  reachable (step parse_uuid cfg) (new_world q0) w -> w_phase w = Idle ->
  exists n, n <= 10 * backlog w /\
    let w' := healthy_steps parse_uuid cfg t n w in
    w_phase w' = Idle /\ work_waiting w' = false
    /\ forall r, r ∈ w_accepted w ->
         is_Some (w_db w' !! event_key r) \/ encode_event r ∈ rejected_lines (spill (w_q w'))
         \/ r ∈ w_lost w'.
Proof.
  intros Hbs Hrl H0 Hr Hph. destruct (reachable_writer_inv _ _ _ _ _ _ _ _ H0 Hr) as [Hi _].
  assert (Hf : flush_path w).
  { destruct Hi as [Hp _]. unfold flush_path, phase_ok in *. by rewrite Hph in *. }
  destruct (healthy_drains parse_uuid cfg t w Hbs Hrl Hi Hf) as (n & Hn & Hid & Hw & Hi' & Ha).
  exists n. split; [unfold flush_measure, phase_weight in Hn; rewrite Hph in Hn; lia|].
  set (w' := healthy_steps parse_uuid cfg t n w) in *. cbv zeta. split_and!; [done|done|].
  rewrite <-Ha. destruct Hi' as (Hp & _ & _ & Hd & Hl). intros r Hin.
  unfold phase_ok in Hp. rewrite Hid in Hp. unfold work_waiting in Hw.
  rewrite !orb_false_iff, !negb_false_iff, !bool_decide_eq_true in Hw. destruct Hw as [[Hq _] Hh].
  rewrite Hh in Hd. symmetry in Hd. apply negb_false_iff, bool_decide_eq_true, length_zero_iff_nil in Hd.
  apply length_zero_iff_nil in Hq. destruct (Hl r Hin) as [H|[H|[H|H]]]; [..|done].
  - rewrite Hq in H. by apply elem_of_nil in H.
  - rewrite Hp in H. by apply elem_of_nil in H.
  - unfold spilled_rows in H. rewrite Hd in H. by apply elem_of_nil in H.
Qed.

(** Updates of [robot_latest] survive failed flushes: the current value of a column (pending, being
    written or stored) changes only when a host merges a new value for it, or when the database
    refuses the update. A broken connection, a cancellation, a failed settle of the events or a
    shutdown never changes it. *)
Theorem latest_update_survives src found mtime rejected maxsize (pol : P) q0 w a robot column :
  new_queue src (open_spill found mtime rejected) maxsize pol = Ok q0 ->
  reachable (step parse_uuid cfg) (new_world q0) w ->
  a <> WriteLatest Refused ->
  (forall r fields, a = Host (HLatest r fields) -> dict_wf fields) ->
  latest_view (step parse_uuid cfg w a) robot column
  = match a with
    | Host (HLatest r fields) =>
        match merged_fields parse_uuid (source (w_q w)) r fields with
        | Some d => if bool_decide (r = robot)
                    then match dget d column with Some v => Some v | None => latest_view w robot column end
                    else latest_view w robot column
        | None => latest_view w robot column
        end
    | _ => latest_view w robot column
    end.
Proof.
  intros H0 Hr Hne Hwf. destruct (reachable_writer_inv _ _ _ _ _ _ _ _ H0 Hr) as [[Hp _] Hl].
  pose proof (quiet_latest parse_uuid cfg w a) as Hquiet.
  destruct a as [o| | | | | | |o'|io now wall|]; try (by apply (latest_frame _ _ Hquiet)).
  - destruct o as [row io wall|table row|r fields].
    + unfold step, host_step. destruct (put_event (w_q w) row io wall) as [q res] eqn:E.
      apply put_event_spec in E as [El _]. by destruct res as [[]|]; unfold latest_view; simpl; rewrite El.
    + destruct (put_timeseries_frame parse_uuid (w_q w) table row) as (_ & El & _).
      unfold latest_view. simpl. by rewrite El.
    + specialize (Hwf r fields eq_refl).
      pose proof (pending_put parse_uuid (w_q w) r fields robot column Hwf) as H.
      unfold latest_view, pending_latest, column_of in *. unfold step, host_step. cbn [w_q with_q w_batch w_latest_db].
      rewrite H. destruct (merged_fields _ _ _ _) as [d|]; [|done]. case_bool_decide; [|done].
      by destruct (dget d column).
  - unfold step. destruct (w_phase w) eqn:E; try done. apply begin_latest; [|done].
    unfold phase_ok in Hp. by rewrite E in Hp.
  - unfold step. destruct (w_phase w); try done. apply write_latest_latest; [done|congruence].
  - unfold step. destruct (w_phase w); try done. by apply settle_latest.
Qed.

(** A host only ever writes its own columns of [robot_latest]: every stored or pending column is
    one [LATEST_OWNED_COLUMNS] gives its source. *)
Theorem latest_columns_owned src found mtime rejected maxsize (pol : P) q0 w robot fields column v :
  new_queue src (open_spill found mtime rejected) maxsize pol = Ok q0 ->
  reachable (step parse_uuid cfg) (new_world q0) w ->
  dget (w_latest_db w) robot = Some fields \/ dget (latest (w_q w)) robot = Some fields ->
  dget fields column = Some v -> column ∈ LATEST_OWNED_COLUMNS (source (w_q w)).
Proof.
  intros H0 Hr Hg Hc. destruct (reachable_writer_inv _ _ _ _ _ _ _ _ H0 Hr) as [_ (Hq & _ & Hdb)].
  apply dget_Some_key in Hc. destruct Hg as [Hg|Hg].
  - destruct (updates_ok_get _ _ robot Hdb) as [_ H]. rewrite Hg in H. auto.
  - destruct (updates_ok_get _ _ robot Hq) as [_ H]. rewrite Hg in H. auto.
Qed.

(** When the spill file holds lines but cannot be read and nothing else waits, [flush_once] returns
    at once, without awaiting, and [_drain]'s condition still holds: the loop of [_drain] never ends
    and never yields, so the timeout of [stop] cannot interrupt it. *)
Theorem drain_spins_on_unreadable_spill (w : World P) t n :
  w_phase w = Idle -> queue (w_q w) = [] -> latest (w_q w) = [] -> has_data (spill (w_q w)) = true ->
  let w' := Nat.iter n (fun w => step parse_uuid cfg w (FlushBegin false t)) w in
  w_phase w' = Idle /\ work_waiting w' = true /\ w_last_flush w' = w_last_flush w.
Proof.
  intros Hph Hq Hl Hh. cbv zeta.
  assert (H : let w' := Nat.iter n (fun w => step parse_uuid cfg w (FlushBegin false t)) w in
     w_phase w' = Idle /\ queue (w_q w') = [] /\ latest (w_q w') = []
     /\ has_data (spill (w_q w')) = true /\ w_last_flush w' = w_last_flush w).
  { induction n as [|n IH]; [done|]. simpl. destruct IH as (Ep & Eq & El & Eh & Ef).
    set (w1 := Nat.iter n _ w) in *. unfold step. rewrite Ep. unfold flush_begin, read_replay.
    rewrite Eh. cbn [andb]. unfold drain, take_latest. cbn [fst snd]. rewrite Eq, take_nil, drop_nil.
    cbn [latest set_queue set_latest]. rewrite El. simpl. auto. }
  destruct H as (Ep & Eq & El & Eh & Ef). split_and!; [done| |done].
  unfold work_waiting. rewrite Eh. apply orb_true_r.
Qed.
End properties.

(** *** Witnesses *)

Definition sample_cfg : Config := mkConfig 500 1000000 5000.
Definition sample_q0 : IngestQueue unit := mkQueue DISPATCH 2 [] [] no_spill no_metrics tt.

(** An event is put, a flush starts, and the connection breaks after the commit. *)
Definition sample_trace : list action :=
  [Host (HEvent (sample_row 1) true 0); Host (HLatest "carter" [("site_id", VStr "lab")]%string);
   FlushBegin true 1; Connected true; WriteEvents (Broken true) true].
Definition sample_world : World unit :=
  foldl (step (fun _ => None) sample_cfg) (new_world sample_q0) sample_trace.


Lemma drain_delivers_witness :
  let w := step (fun _ => None) sample_cfg (new_world sample_q0) (Host (HEvent (sample_row 1) true 0)) in
  exists n, n <= 10 /\
    let w' := healthy_steps (fun _ => None) sample_cfg 0 n w in
    w_phase w' = Idle /\ work_waiting w' = false
    /\ forall r, r ∈ [sample_row 1] ->
         is_Some (w_db w' !! event_key r) \/ encode_event r ∈ rejected_lines (spill (w_q w'))
         \/ r ∈ w_lost w'.
Proof.
  intros w.
  apply (drain_delivers (fun _ => None) sample_cfg DISPATCH [] 0 [] 2 tt sample_q0 w 0).
  - vm_compute. lia.
  - vm_compute. lia.
  - reflexivity.
  - econstructor. constructor.
  - reflexivity.
Defined.

Lemma latest_update_survives_witness :
  latest_view (step (fun _ => None) sample_cfg sample_world (WriteTable (Copy (Broken false))))
    "carter" "site_id" = Some (VStr "lab").
Proof.
  rewrite (latest_update_survives (fun _ => None) sample_cfg DISPATCH [] 0 [] 2 tt sample_q0).
  - reflexivity.
  - reflexivity.
  - apply reachable_foldl.
  - discriminate.
  - discriminate.
Defined.

Lemma latest_columns_owned_witness :
  "site_id"%string ∈ LATEST_OWNED_COLUMNS
    (source (w_q (step (fun _ => None) sample_cfg (new_world sample_q0)
       (Host (HLatest "carter" [("site_id", VStr "lab")]%string))))).
Proof.
  apply (latest_columns_owned (fun _ => None) sample_cfg DISPATCH [] 0 [] 2 tt sample_q0 _ "carter"
           [("site_id", VStr "lab")]%string "site_id" (VStr "lab")).
  - reflexivity.
  - econstructor. constructor.
  - right. reflexivity.
  - reflexivity.
Defined.

Lemma drain_spins_on_unreadable_spill_witness :
  work_waiting (Nat.iter 3 (fun w => step (fun _ => None) sample_cfg w (FlushBegin false 0))
    (new_world (mkQueue DISPATCH 2 [] [] (open_spill [Garbage] 0 []) no_metrics tt))) = true.
Proof.
  apply (drain_spins_on_unreadable_spill (fun _ => None) sample_cfg
           (new_world (mkQueue DISPATCH 2 [] [] (open_spill [Garbage] 0 []) no_metrics tt)) 0 3);
    reflexivity.
Defined.
