(* ===== verification/Mission.v ===== *)
(** * Missions (cloud_common/objects/mission.py, packages/controllers/mission/behavior_tree.py)

    The mission object: its specification with the validators that run when it is parsed, the status
    it starts with, the two methods the API calls on it ([cancel], [update]), and the construction of
    the behaviour tree the dispatcher runs.

    Modelling choices. A coordinate is an integer number of micrometres and a duration an integer
    number of microseconds (rounding of floats is not modelled). The validators are the source's;
    the parsing of the JSON types around them is pydantic's. py_trees is third-party code: the tree
    is modelled as the nodes the source adds to it, and the ticking is not modelled here. *)

From S2P Require Import Prelude PyDict OrderIds.

Local Open Scope fleet_scope.
Local Open Scope list_scope.

(** ** Data *)

Inductive MissionNodeType := SELECTOR | SEQUENCE | ROUTE | MOVE | ACTION | NOTIFY | CONSTANT.
#[export] Instance MissionNodeType_eq_dec : EqDecision MissionNodeType.
Proof. solve_decision. Defined.

Inductive MissionStateV1 := PENDING | RUNNING | COMPLETED | CANCELED | FAILED.
#[export] Instance MissionStateV1_eq_dec : EqDecision MissionStateV1.
Proof. solve_decision. Defined.

(** [MissionStateV1.done] *)
Definition done_state (s : MissionStateV1) : bool :=
  bool_decide (s = COMPLETED \/ s = FAILED \/ s = CANCELED).

Definition MAX_WAIT_SECONDS : Z := 3600000000.     (** microseconds *)
Definition WAIT_ACTION_TYPE : string := "wait".
Definition TRAJECTORY_END_TOL : Z := 20000.        (** micrometres *)

(** A value of [action_parameters]. *)
Inductive param := PNumber (us : Z) | PBool (b : bool) | POther.

Record MissionActionNode := mkAction {
  action_type : string;
  action_parameters : list (string * param);
}.

Record Pose2D := mkPose { x : Z; y : Z; theta : Z; map_id : string }.

(** A trajectory leg; [points] holds at least two pairs ([_points_are_pairs]). *)
Record TrajectoryLeg := mkLeg { from_index : Z; to_index : Z; points : list (Z * Z) }.

Record MissionRouteNode := mkRoute {
  waypoints : list Pose2D;
  trajectory : option (list TrajectoryLeg);
}.

Record MissionMoveNode := mkMove { distance : option Z; rotation : option Z }.

(** [MissionNodeV1]: one optional field per node type. *)
Record MissionNode := mkNode {
  name : option string;
  parent : string;
  route : option MissionRouteNode;
  move : option MissionMoveNode;
  action : option MissionActionNode;
  notify : option string;
  selector : bool;            (** [selector is not None] *)
  sequence : bool;
  constant : option bool;
}.

(** ** Validators of the parts *)

(** [_validate_wait_action] *)
Definition validate_wait_action (a : MissionActionNode) : result string MissionActionNode :=
  if negb (bool_decide (action_type a = WAIT_ACTION_TYPE)) then Ok a
  else match dget (action_parameters a) "seconds" with
       | Some (PNumber us) =>
           if bool_decide (0 < us <= MAX_WAIT_SECONDS)%Z then Ok a
           else Raise "must wait between 0 and 3600 seconds"%string
       | _ => Raise "needs a numeric action_parameters.seconds"%string
       end.

(** [validate_mission_move_node_type] *)
Definition validate_move (m : MissionMoveNode) : result string MissionMoveNode :=
  match distance m, rotation m with
  | Some _, None | None, Some _ => Ok m
  | _, _ => Raise "Exactly one of the following must be set"%string
  end.

(** [_points_are_pairs] (pairs by construction). *)
Definition validate_leg (l : TrajectoryLeg) : result string TrajectoryLeg :=
  if bool_decide (length (points l) < 2) then Raise "a trajectory leg needs >= 2 [x, y] points"%string
  else Ok l.

Definition near (p : Z * Z) (w : Pose2D) : bool :=
  bool_decide (Z.abs (p.1 - x w) <= TRAJECTORY_END_TOL)%Z
  && bool_decide (Z.abs (p.2 - y w) <= TRAJECTORY_END_TOL)%Z.

(** A leg is kept when its index pair is in range and its ends are at its waypoints. *)
Definition leg_fits (ws : list Pose2D) (l : TrajectoryLeg) : bool :=
  bool_decide (0 <= from_index l)%Z && bool_decide (from_index l < to_index l)%Z
  && bool_decide (to_index l < Z.of_nat (length ws))%Z
  && match ws !! Z.to_nat (from_index l), ws !! Z.to_nat (to_index l), head (points l), last (points l) with
     | Some a, Some b, Some first, Some last => near first a && near last b
     | _, _, _, _ => false
     end.

(** [_drop_stale_trajectory]; [kept or None]. *)
Definition drop_stale_trajectory (r : MissionRouteNode) : MissionRouteNode :=
  match trajectory r with
  | None | Some [] => mkRoute (waypoints r) None
  | Some legs =>
      match List.filter (leg_fits (waypoints r)) legs with
      | [] => mkRoute (waypoints r) None
      | kept => mkRoute (waypoints r) (Some kept)
      end
  end.

(** [MissionRouteNodeV1]: [_validate_at_least_one_waypoint], then [_drop_stale_trajectory]. *)
Definition validate_route (r : MissionRouteNode) : result string MissionRouteNode :=
  if bool_decide (length (waypoints r) < 1) then Raise "Number of waypoints must be >= 1"%string
  else Ok (drop_stale_trajectory r).

(** [set_types] of [validate_mission_node_type], in the order of [MissionNodeType]. *)
Definition set_types (n : MissionNode) : list MissionNodeType :=
  (if selector n then [SELECTOR] else []) ++ (if sequence n then [SEQUENCE] else [])
  ++ (match route n with Some _ => [ROUTE] | None => [] end)
  ++ (match move n with Some _ => [MOVE] | None => [] end)
  ++ (match action n with Some _ => [ACTION] | None => [] end)
  ++ (match notify n with Some _ => [NOTIFY] | None => [] end)
  ++ (match constant n with Some _ => [CONSTANT] | None => [] end).

Definition validate_node_type (n : MissionNode) : result string MissionNode :=
  if bool_decide (length (set_types n) = 1) then Ok n
  else Raise "Exactly one of the following must be set"%string.

(** [MissionNodeV1.type] *)
Definition node_type (n : MissionNode) : option MissionNodeType := head (set_types n).

(** ** The mission tree *)

Definition set_name (n : MissionNode) (s : string) : MissionNode :=
  mkNode (Some s) (parent n) (route n) (move n) (action n) (notify n) (selector n) (sequence n)
    (constant n).
Definition set_route (n : MissionNode) (r : MissionRouteNode) : MissionNode :=
  mkNode (name n) (parent n) (Some r) (move n) (action n) (notify n) (selector n) (sequence n)
    (constant n).

(** The loop of [_validate_at_least_one_node] from index [i] with the names seen so far. *)
Fixpoint validate_nodes (i : nat) (name_set : list string) (l : list MissionNode)
    : result string (list MissionNode) :=
  match l with
  | [] => Ok []
  | n :: rest =>
      let nm := match name n with Some s => s | None => str_N (N.of_nat i) end in
      if bool_decide (nm ∈ name_set) then Raise "MissionNode name is repeated"%string
      else if negb (bool_decide (parent n ∈ name_set))
      then Raise "has parent which does not appear before it in the mission_tree"%string
      else let! rest' := validate_nodes (S i) (name_set ++ [nm]) rest in Ok (set_name n nm :: rest')
  end.

(** [_validate_at_least_one_node] *)
Definition validate_tree (value : list MissionNode) : result string (list MissionNode) :=
  match value with
  | [] => Raise "Number of nodes must be >= 1"%string
  | _ => validate_nodes 0 ["root"%string] value
  end.

(** [_validate_repeat] *)
Definition validate_repeat (value : Z) : result string Z :=
  if bool_decide (value < 0)%Z then Raise "repeat must be >= 0 (0 repeats until cancelled)"%string
  else Ok value.

(** ** The mission object *)

Record MissionNodeStatus := mkNodeStatus { n_state : MissionStateV1; error_msg : option string }.
Definition new_node_status : MissionNodeStatus := mkNodeStatus PENDING None.

(** The parts of [MissionObjectV1] its methods read and write. *)
Record Mission := mkMission {
  mission_tree : list MissionNode;
  needs_canceled : bool;
  route_rev : Z;
  planned_path : option (list string);
  m_state : MissionStateV1;
  node_status : list (string * MissionNodeStatus);
}.

Definition node_names (l : list MissionNode) : list string := omap name l.

(** [MissionObjectV1.__init__]: a status for the root and for every named node. *)
Definition init_node_status (m : Mission) : Mission :=
  mkMission (mission_tree m) (needs_canceled m) (route_rev m) (planned_path m) (m_state m)
    (foldl (fun d n => if dmem d n then d else dset d n new_node_status) (node_status m)
       ("root"%string :: node_names (mission_tree m))).

(** [cancel] *)
Definition cancel (m : Mission) : Mission * result string unit :=
  if done_state (m_state m)
  then (m, Raise (if bool_decide (m_state m = CANCELED) then "is already canceled"%string
                  else "Completed mission can't be canceled"%string))
  else (mkMission (mission_tree m) true (route_rev m) (planned_path m) (m_state m) (node_status m), Ok tt).

(** The checks of [update] on one entry. *)
Definition check_update (m : Mission) (node_name : string) : result string unit :=
  match find_first (fun n => bool_decide (name n = Some node_name)) (mission_tree m) with
  | None => Raise "does not exist in mission"%string
  | Some n =>
      match dget (node_status m) node_name with
      | None => if bool_decide (m_state m = RUNNING) then Raise "KeyError"%string
                else if bool_decide (node_type n = Some ROUTE) then Ok tt
                else Raise "is not a route node and cannot be rerouted"%string
      | Some st =>
          if bool_decide (m_state m = RUNNING) && done_state (n_state st)
          then Raise "is finished"%string
          else if bool_decide (node_type n = Some ROUTE) then Ok tt
          else Raise "is not a route node and cannot be rerouted"%string
      end
  end.

(** The parsing of the new routes (a [MissionRouteNodeV1] each). *)
Definition parse_routes (updates : list (string * MissionRouteNode))
    : result string (list (string * MissionRouteNode)) :=
  rfold (fun (acc : list (string * MissionRouteNode)) p =>
           let! r := validate_route p.2 in Ok (acc ++ [(p.1, r)])%list) [] updates.

(** [for node in self.mission_tree: if node.name == node_name: node.route = route] *)
Definition apply_update (tree : list MissionNode) (u : string * MissionRouteNode) : list MissionNode :=
  (fun n => if bool_decide (name n = Some u.1) then set_route n u.2 else n) <$> tree.

(** [update]; the updates are a dict. *)
Definition update (m : Mission) (update_nodes : list (string * MissionRouteNode))
    : Mission * result string (list (string * MissionRouteNode)) :=
  if done_state (m_state m) then (m, Raise "Mission is finished"%string)
  else match parse_routes update_nodes with
       | Raise e => (m, Raise e)
       | Ok routes =>
           match rfold (fun _ u => check_update m u.1) tt routes with
           | Raise e => (m, Raise e)
           | Ok _ =>
               (mkMission (foldl apply_update (mission_tree m) routes) (needs_canceled m)
                  (route_rev m + 1) None (m_state m) (node_status m), Ok routes)
           end
       end.

(** [MissionSentOrderV1.node_policy_summary] on the recorded nodes (reason, skippable). *)
Definition policy_reasons (nodes : list (string * bool)) : list (string * Z) :=
  foldl (fun d n => dset d n.1 (default 0%Z (dget d n.1) + 1)%Z) [] nodes.
Definition policy_skippable (nodes : list (string * bool)) : nat :=
  length (List.filter snd nodes).

(** ** The behaviour tree *)

(** py_trees' statuses. *)
Inductive tree_status := T_SUCCESS | T_FAILURE | T_RUNNING | T_INVALID.

Definition tree2mission_state (t : tree_status) : MissionStateV1 :=
  match t with
  | T_SUCCESS => COMPLETED | T_FAILURE => FAILED | T_RUNNING => RUNNING | T_INVALID => PENDING
  end.
Definition mission2tree_state (s : MissionStateV1) : tree_status :=
  match s with
  | COMPLETED => T_SUCCESS | RUNNING => T_RUNNING | PENDING => T_INVALID
  | CANCELED | FAILED => T_FAILURE
  end.

(** [MissionLeafNode.update]: a pending order counts as running. *)
Definition leaf_update (s : MissionStateV1) : tree_status :=
  match s with PENDING => T_RUNNING | _ => mission2tree_state s end.

Inductive bt_kind := KRoot | KSelector | KSequence | KLeaf | KConstant.

(** A node of the tree with its children in the order they were added. *)
#[universes(template)]
Inductive bt := BT (bt_name : string) (kind : bt_kind) (idx : Z) (st : tree_status) (children : list bt).

(** The nodes of a tree ([iterate]). *)
Fixpoint bt_names (t : bt) : list string :=
  match t with BT n _ _ _ cs => n :: concat (bt_names <$> cs) end.

(** The nodes that can hold children: [add_child] is a method of py_trees' composites (the root, the
    selectors and the sequences), a plain behaviour has none. *)
Definition composite (k : bt_kind) : bool :=
  match k with KRoot | KSelector | KSequence => true | KLeaf | KConstant => false end.
Fixpoint bt_composites (t : bt) : list string :=
  match t with BT n k _ _ cs => (if composite k then [n] else []) ++ concat (bt_composites <$> cs) end.

(** Add a child under the nodes with the given name (the names of a mission's nodes are distinct). *)
Fixpoint add_child (t : bt) (p : string) (c : bt) : bt :=
  match t with
  | BT n k i s cs =>
      let cs' := (fun ch => add_child ch p c) <$> cs in
      BT n k i s (if bool_decide (n = p) then cs' ++ [c] else cs')
  end.

(** The node made for a mission node; [None] when none is made. *)
Definition make_node (n : MissionNode) (nm : string) (i : nat) (s : tree_status) : option bt :=
  match node_type n with
  | Some SELECTOR => Some (BT nm KSelector (Z.of_nat i) s [])
  | Some SEQUENCE => Some (BT nm KSequence (Z.of_nat i) s [])
  | Some (ROUTE | ACTION | NOTIFY | MOVE) => Some (BT nm KLeaf (Z.of_nat i) s [])
  | Some CONSTANT =>
      match constant n with
      | Some true => Some (BT nm KConstant (Z.of_nat i) T_SUCCESS [])
      | Some false => Some (BT nm KConstant (Z.of_nat i) T_FAILURE [])
      | None => None
      end
  | None => None
  end.

(** The loop of [create_behavior_tree]: the tree, and [false] when a parent does not exist. *)
Fixpoint build (m : Mission) (i : nat) (l : list MissionNode) (t : bt) : result string (bt * bool) :=
  match l with
  | [] => Ok (t, true)
  | n :: rest =>
      let nm := match name n with Some s => s | None => "None"%string end in
      match dget (node_status m) nm with
      | None => Raise "KeyError"%string
      | Some st =>
          if bool_decide (parent n ∈ bt_names t)
          then match make_node n nm i (mission2tree_state (n_state st)) with
               | Some c =>
                   if bool_decide (parent n ∈ bt_composites t)
                   then build m (S i) rest (add_child t (parent n) c)
                   else Raise "AttributeError"%string
               | None => build m (S i) rest t
               end
          else Ok (t, false)
      end
  end.

(** [create_behavior_tree] *)
Definition create_behavior_tree (m : Mission) : result string (bt * bool) :=
  build m 0 (mission_tree m) (BT "root" KRoot 0 T_INVALID []).

(** [post_tick]: control and constant nodes report their state. *)
Fixpoint post_tick (t : bt) (d : list (string * MissionNodeStatus)) : list (string * MissionNodeStatus) :=
  match t with
  | BT n k _ s cs =>
      let d' := match k with
                | KRoot | KLeaf => d
                | _ => dset d n (mkNodeStatus (tree2mission_state s)
                                   (match dget d n with Some o => error_msg o | None => None end))
                end in
      foldl (fun acc c => post_tick c acc) d' cs
  end.

(** ** Specification *)

(** A tree the dispatcher can run: distinct names, none of them [root], parents before children. *)
Definition tree_ok (l : list MissionNode) : Prop :=
  l <> [] /\ Forall (fun n => name n <> None) l /\ NoDup ("root"%string :: node_names l)
  /\ forall i n, l !! i = Some n -> parent n ∈ "root"%string :: node_names (take i l).

(** The tree with the default names of unnamed nodes filled in. *)
Definition default_name (i : nat) (n : MissionNode) : MissionNode :=
  set_name n (match name n with Some s => s | None => str_N (N.of_nat i) end).
Definition default_names (l : list MissionNode) : list MissionNode := imap default_name l.

(** The chain of parents from a node name up to the root, at most [fuel] links. *)
Fixpoint path_to_root (fuel : nat) (l : list MissionNode) (nm : string) : option (list string) :=
  if bool_decide (nm = "root"%string) then Some []
  else match fuel with
       | 0 => None
       | S f =>
           n ← find_first (fun n => bool_decide (name n = Some nm)) l;
           cons nm <$> path_to_root f l (parent n)
       end.

(** ** Lemmas *)

Lemma node_names_app l1 l2 : node_names (l1 ++ l2) = node_names l1 ++ node_names l2.
Proof. apply omap_app. Qed.

Lemma name_default i n : name (default_name i n) <> None.
Proof. done. Qed.

Lemma validate_nodes_iff i seen l l' :
  NoDup seen ->
  validate_nodes i seen l = Ok l' <->
  l' = imap (fun j n => default_name (i + j) n) l
  /\ NoDup (seen ++ node_names l')
  /\ forall j n, l' !! j = Some n -> parent n ∈ seen ++ node_names (take j l').
Proof.
  revert i seen l'. induction l as [|n l IH]; intros i seen l' Hseen; simpl.
  { split; [intros [= <-]; rewrite app_nil_r; by split_and!|by intros [-> _]]. }
  replace (imap ((fun j n => default_name (i + j) n) ∘ S) l)
    with (imap (fun j n => default_name (S i + j) n) l)
    by (apply imap_ext; intros; unfold compose; f_equal; lia).
  rewrite Nat.add_0_r. set (nm := match name n with Some s => s | None => _ end).
  change (default_name i n) with (set_name n nm).
  set (L := imap (fun j n => default_name (S i + j) n) l) in *.
  destruct (bool_decide_reflect (nm ∈ seen)) as [Hin|Hnm].
  { split; [done|]. intros (-> & Hnd & _). change (node_names (set_name n nm :: L)) with (nm :: node_names L) in Hnd.
    apply NoDup_app in Hnd as (_ & Hd & _). destruct (Hd nm Hin). left. }
  destruct (bool_decide_reflect (parent n ∈ seen)) as [Hp|Hp]; simpl.
  2: { split; [done|]. intros (-> & _ & Hpar). destruct Hp.
       specialize (Hpar 0 _ eq_refl). simpl in Hpar. by rewrite app_nil_r in Hpar. }
  assert (Hnd' : NoDup (seen ++ [nm])).
  { apply NoDup_app. split_and!; [done| |apply NoDup_singleton].
    intros z Hz ->%list_elem_of_singleton. done. }
  assert (Hcons : forall r j, seen ++ node_names (take (S j) (set_name n nm :: r))
                              = (seen ++ [nm]) ++ node_names (take j r)).
  { intros r j. by rewrite <-app_assoc. }
  assert (Hall : forall r, seen ++ node_names (set_name n nm :: r) = (seen ++ [nm]) ++ node_names r).
  { intros r. by rewrite <-app_assoc. }
  specialize (IH (S i) (seen ++ [nm])). destruct (validate_nodes (S i) (seen ++ [nm]) l) as [rest|e]; simpl.
  - destruct (proj1 (IH rest Hnd') eq_refl) as (-> & Hnd & Hpar). split.
    + intros [= <-]. split; [done|]. rewrite Hall. split; [done|].
      intros [|j] n' Hj; simpl in Hj; [simplify_eq; simpl; by rewrite app_nil_r|]. rewrite Hcons. auto.
    + intros [-> _]. done.
  - split; [done|]. intros (-> & Hnd & Hpar). rewrite Hall in Hnd.
    assert (Hbad : Raise e = Ok L); [|done]. apply IH; [done|]. split_and!; [done|done|].
    intros j n' Hj. rewrite <-Hcons. by apply (Hpar (S j)).
Qed.

Lemma validate_tree_iff l l' : validate_tree l = Ok l' <-> l' = default_names l /\ tree_ok l'.
Proof.
  unfold tree_ok. assert (Hnames : Forall (fun n => name n <> None) (default_names l)).
  { unfold default_names. apply Forall_forall. intros n Hn. apply elem_of_lookup_imap in Hn as (i & x & -> & _).
    apply name_default. }
  destruct l as [|n l].
  { split; [done|]. by intros [-> [? _]]. }
  unfold validate_tree. rewrite (validate_nodes_iff 0 ["root"%string]) by apply NoDup_singleton.
  split.
  - intros (-> & Hnd & Hp). split_and!; done.
  - intros (-> & _ & _ & Hnd & Hp). split_and!; done.
Qed.

(** *** Names and positions *)

Lemma node_names_lookup l i n nm : l !! i = Some n -> name n = Some nm -> nm ∈ node_names l.
Proof. intros Hi Hn. apply list_elem_of_omap. exists n. split; [by eapply list_elem_of_lookup_2|done]. Qed.

Lemma find_named l i n nm :
  NoDup (node_names l) -> l !! i = Some n -> name n = Some nm ->
  find_first (fun n => bool_decide (name n = Some nm)) l = Some n.
Proof.
  revert i. induction l as [|m l IH]; intros i Hnd Hi Hn; [done|]. simpl.
  destruct i as [|i]; simpl in Hi; [simplify_eq; by rewrite bool_decide_true|].
  rewrite bool_decide_false.
  - apply (IH i); [|done|done]. unfold node_names in Hnd. csimpl in Hnd.
    destruct (name m); [by apply NoDup_cons in Hnd as [_ ?]|done].
  - intros Hm. unfold node_names in Hnd. csimpl in Hnd. rewrite Hm in Hnd.
    apply NoDup_cons in Hnd as [Hnot _]. apply Hnot. by eapply node_names_lookup.
Qed.

Lemma path_exists l i n nm fuel :
  tree_ok l -> l !! i = Some n -> name n = Some nm -> i < fuel ->
  is_Some (path_to_root fuel l nm).
Proof.
  intros (_ & Hnames & Hnd & Hpar). apply NoDup_cons in Hnd as [_ Hnd].
  revert n nm fuel. induction (lt_wf i) as [i _ IH]. intros n nm fuel Hi Hn Hf.
  destruct fuel as [|fuel]; [lia|]. simpl. case_bool_decide; [by eexists|].
  rewrite (find_named l i n nm Hnd Hi Hn). cbn [mbind option_bind].
  assert (Hp : is_Some (path_to_root fuel l (parent n))); [|destruct Hp as [p ->]; by eexists].
  specialize (Hpar i n Hi). apply elem_of_cons in Hpar as [->|Hpar].
  - destruct fuel; simpl; by eexists.
  - unfold node_names in Hpar. apply list_elem_of_omap in Hpar as (m & Hm & Hnm).
    apply list_elem_of_lookup_1 in Hm as [j Hj].
    assert (j < i) by (apply lookup_lt_Some in Hj; rewrite length_take in Hj; lia).
    rewrite lookup_take_lt in Hj by done. apply (IH j) with (n := m); [done|done|done|lia].
Qed.

(** *** Building the tree *)

Section bt_ind.
Context (R : bt -> Prop) (H : forall n k i s cs, Forall R cs -> R (BT n k i s cs)).
Fixpoint bt_rect' (t : bt) : R t :=
  match t with
  | BT n k i s cs =>
      H n k i s cs ((fix go l : Forall R l :=
        match l with [] => Forall_nil_2 R | c :: l' => Forall_cons_2 R c l' (bt_rect' c) (go l') end) cs)
  end.
End bt_ind.

Lemma add_child_absent t p c : p ∉ bt_names t -> bt_names (add_child t p c) = bt_names t.
Proof.
  induction t as [n k i s cs IH] using bt_rect'. simpl. rewrite not_elem_of_cons. intros [Hn Hcs].
  rewrite bool_decide_false by done. f_equal. rewrite <-list_fmap_compose.
  induction IH as [|ch cs Hch _ IH2]; [done|]. simpl in *. rewrite not_elem_of_app in Hcs.
  rewrite Hch by naive_solver. f_equal. naive_solver.
Qed.

Lemma add_children_absent (cs : list bt) p c :
  p ∉ concat (bt_names <$> cs) ->
  concat (bt_names <$> ((fun ch => add_child ch p c) <$> cs)) = concat (bt_names <$> cs).
Proof.
  induction cs as [|ch cs IH]; csimpl; [done|]. rewrite not_elem_of_app. intros [H1 H2].
  by rewrite add_child_absent, IH.
Qed.

Lemma add_child_names t p c :
  NoDup (bt_names t) -> p ∈ bt_names t -> bt_names (add_child t p c) ≡ₚ bt_names t ++ bt_names c.
Proof.
  induction t as [n k i s cs IH] using bt_rect'. simpl. intros [Hn Hcs]%NoDup_cons Hp.
  case_bool_decide as E.
  - subst. rewrite fmap_app, concat_app, (add_children_absent cs p c Hn). simpl. by rewrite app_nil_r.
  - apply elem_of_cons in Hp as [->|Hp]; [done|]. simpl. constructor. clear Hn E.
    induction IH as [|ch cs Hch _ IH2]; csimpl in *; [by apply elem_of_nil in Hp|].
    apply NoDup_app in Hcs as (Hnd1 & Hdis & Hnd2). apply elem_of_app in Hp as [Hp|Hp].
    + rewrite (Hch Hnd1 Hp), (add_children_absent cs p c (Hdis p Hp)).
      rewrite <-!app_assoc. apply Permutation_app_head, Permutation_app_comm.
    + rewrite add_child_absent by (intros Hch'; by apply (Hdis p)).
      rewrite (IH2 Hnd2 Hp). by rewrite app_assoc.
Qed.

Lemma add_child_composites t p c x :
  (x ∈ bt_composites t -> x ∈ bt_composites (add_child t p c))
  /\ (p ∈ bt_names t -> x ∈ bt_composites c -> x ∈ bt_composites (add_child t p c)).
Proof.
  induction t as [n k i s cs IH] using bt_rect'. simpl.
  assert (Hcs : (x ∈ concat (bt_composites <$> cs) ->
                 x ∈ concat (bt_composites <$> ((fun ch => add_child ch p c) <$> cs)))
    /\ (p ∈ concat (bt_names <$> cs) -> x ∈ bt_composites c ->
        x ∈ concat (bt_composites <$> ((fun ch => add_child ch p c) <$> cs)))).
  { induction IH as [|ch cs [H1 H2] _ [IH1 IH2]]; csimpl.
    - split; [done|]. by intros ?%elem_of_nil.
    - rewrite !elem_of_app. naive_solver. }
  destruct Hcs as [Hc1 Hc2].
  assert (Hmono : x ∈ concat (bt_composites <$> ((fun ch => add_child ch p c) <$> cs)) ->
    x ∈ concat (bt_composites <$> (if bool_decide (n = p) then ((fun ch => add_child ch p c) <$> cs) ++ [c]
                                  else (fun ch => add_child ch p c) <$> cs))).
  { destruct (bool_decide _); [|done]. rewrite fmap_app, concat_app, elem_of_app. auto. }
  split.
  - rewrite !elem_of_app. naive_solver.
  - intros Hp Hx. apply elem_of_app. right. apply elem_of_cons in Hp as [->|Hp]; [|auto].
    rewrite bool_decide_true by done. rewrite fmap_app, concat_app, elem_of_app. right.
    csimpl. by rewrite app_nil_r.
Qed.

(** The names of the selectors and sequences of a mission tree. *)
Definition control_names (l : list MissionNode) : list string :=
  omap (fun n => match node_type n with Some SELECTOR | Some SEQUENCE => name n | _ => None end) l.

Lemma make_node_some n nm i s :
  validate_node_type n = Ok n -> exists c, make_node n nm i s = Some c /\ bt_names c = [nm]
    /\ (node_type n = Some SELECTOR \/ node_type n = Some SEQUENCE -> bt_composites c = [nm]).
Proof.
  unfold validate_node_type. case_bool_decide as E; [|done]. intros _. revert E.
  unfold make_node, node_type, set_types.
  destruct (selector n), (sequence n), (route n), (move n), (action n), (notify n), (constant n) as [[]|];
    simpl; intros E; try lia; eexists; (split; [done|split; [done|]]); intros [?|?]; done.
Qed.

Lemma build_ok m i l t :
  Forall (fun n => validate_node_type n = Ok n) l ->
  Forall (fun n => exists nm, name n = Some nm /\ is_Some (dget (node_status m) nm)) l ->
  NoDup (bt_names t ++ node_names l) ->
  (forall j n, l !! j = Some n -> parent n ∈ bt_names t ++ node_names (take j l)) ->
  (forall j n, l !! j = Some n -> parent n ∈ bt_composites t ++ control_names (take j l)) ->
  exists t', build m i l t = Ok (t', true) /\ bt_names t' ≡ₚ bt_names t ++ node_names l.
Proof.
  revert i t. induction l as [|n l IH]; intros i t Hty Hst Hnd Hpar Hctl.
  { exists t. split; [done|]. by rewrite app_nil_r. }
  apply Forall_cons in Hty as [Hty Htyl]. apply Forall_cons in Hst as [(nm & Hnm & [st Hst]) Hstl].
  assert (Hnn : node_names (n :: l) = nm :: node_names l) by (unfold node_names; csimpl; by rewrite Hnm).
  rewrite Hnn in *. simpl. rewrite Hnm, Hst.
  assert (Hp : parent n ∈ bt_names t) by (specialize (Hpar 0 n eq_refl); by rewrite app_nil_r in Hpar).
  rewrite bool_decide_true by done.
  destruct (make_node_some n nm i (mission2tree_state (n_state st)) Hty) as (c & -> & Hc & Hcc).
  assert (Hpc : parent n ∈ bt_composites t) by (specialize (Hctl 0 n eq_refl); by rewrite app_nil_r in Hctl).
  rewrite bool_decide_true by done.
  assert (Hndt : NoDup (bt_names t)) by by apply NoDup_app in Hnd as [? _].
  pose proof (add_child_names t (parent n) c Hndt Hp) as Hadd. rewrite Hc in Hadd.
  destruct (IH (S i) (add_child t (parent n) c)) as (t' & Hb & Ht'); [done|done| | | |].
  - rewrite Hadd. by rewrite <-app_assoc.
  - intros j n' Hj. specialize (Hpar (S j) n' Hj). rewrite Hadd, <-app_assoc.
    assert (E : node_names (take (S j) (n :: l)) = nm :: node_names (take j l))
      by (unfold node_names; csimpl; by rewrite Hnm).
    by rewrite E in Hpar.
  - intros j n' Hj. specialize (Hctl (S j) n' Hj). apply elem_of_app in Hctl as [Hin|Hin]; apply elem_of_app.
    { left. by apply (proj1 (add_child_composites t (parent n) c _)). }
    unfold control_names in Hin. csimpl in Hin. fold (control_names (take j l)) in Hin.
    assert (parent n' ∈ control_names (take j l)
            \/ parent n' = nm /\ (node_type n = Some SELECTOR \/ node_type n = Some SEQUENCE)) as [?|[-> Hk]].
    { rewrite Hnm in Hin. destruct (node_type n) as [[]|]; auto; apply elem_of_cons in Hin as [?|?]; auto. }
    + by right.
    + left. apply (proj2 (add_child_composites t (parent n) c _)); [done|]. rewrite Hcc by done. by left.
  - exists t'. split; [done|]. rewrite Ht', Hadd. by rewrite <-app_assoc.
Qed.

(** *** The node statuses *)

Lemma init_status_fold (names : list string) (d : list (string * MissionNodeStatus)) (nm : string) :
  let d' := foldl (fun d n => if dmem d n then d else dset d n new_node_status) d names in
  (nm ∈ names -> is_Some (dget d' nm)) /\ (forall st, dget d nm = Some st -> dget d' nm = Some st)
  /\ (nm ∉ names -> dget d' nm = dget d nm)
  /\ (dget d nm = None -> nm ∈ names -> dget d' nm = Some new_node_status).
Proof.
  revert d. induction names as [|a names IH]; intros d; simpl.
  { split_and!; try done; [by intros ?%elem_of_nil|by intros _ ?%elem_of_nil]. }
  set (d1 := if dmem d a then d else dset d a new_node_status).
  assert (H1 : is_Some (dget d1 a)).
  { unfold d1, dmem. destruct (dget d a) as [v|] eqn:E; [by rewrite E|]. rewrite dget_dset_eq. by eexists. }
  assert (H2 : forall st, dget d nm = Some st -> dget d1 nm = Some st).
  { intros st E. unfold d1, dmem. destruct (dget d a) eqn:Ea; [done|].
    rewrite dget_dset_ne; [done|]. intros ->. congruence. }
  assert (H3 : nm <> a -> dget d1 nm = dget d nm).
  { intros Hne. unfold d1. destruct (dmem d a); [done|]. by rewrite dget_dset_ne. }
  assert (H4 : dget d a = None -> dget d1 a = Some new_node_status).
  { intros E. unfold d1, dmem. rewrite E. apply dget_dset_eq. }
  destruct (IH d1) as (I1 & I2 & I3 & I4). split_and!.
  - intros [->|Hin]%elem_of_cons; [|auto]. destruct H1 as [v Hv]. exists v. auto.
  - auto.
  - intros [Hne Hin]%not_elem_of_cons. rewrite I3 by done. auto.
  - intros E [->|Hin]%elem_of_cons; [auto|]. destruct (decide (nm = a)) as [->|Hne]; [auto|].
    apply I4; [|done]. by rewrite H3.
Qed.

(** *** Updates *)

Lemma apply_updates_lookup tree routes i n :
  NoDup (keys routes) -> tree !! i = Some n ->
  foldl apply_update tree routes !! i
  = Some (match name n with
          | Some nm => match dget routes nm with Some r => set_route n r | None => n end
          | None => n
          end).
Proof.
  revert tree n. induction routes as [|[k r] routes IH]; intros tree n Hnd Hi.
  { simpl. by destruct (name n). }
  apply NoDup_cons in Hnd as [Hk Hnd]. cbn [foldl fst snd].
  assert (Hi' : apply_update tree (k, r) !! i
                = Some (if bool_decide (name n = Some k) then set_route n r else n)).
  { unfold apply_update. by rewrite list_lookup_fmap, Hi. }
  rewrite (IH _ _ Hnd Hi'). simpl. case_bool_decide as E.
  - simpl. rewrite E, bool_decide_true by done. by rewrite (proj2 (dget_None routes k) Hk).
  - destruct (name n) as [nm|]; [|done]. by rewrite bool_decide_false by congruence.
Qed.

Lemma apply_updates_length tree routes : length (foldl apply_update tree routes) = length tree.
Proof.
  revert tree. induction routes as [|u routes IH]; intros tree; [done|]. simpl. rewrite IH.
  apply length_fmap.
Qed.

Lemma parse_routes_spec updates routes :
  parse_routes updates = Ok routes ->
  keys routes = keys updates
  /\ forall nm r, dget routes nm = Some r -> exists r0, dget updates nm = Some r0 /\ validate_route r0 = Ok r.
Proof.
  unfold parse_routes.
  assert (H : forall acc, rfold (fun (acc : list (string * MissionRouteNode)) p =>
      let! r := validate_route p.2 in Ok (acc ++ [(p.1, r)])) acc updates = Ok routes ->
    exists suffix, routes = acc ++ suffix /\ keys suffix = keys updates
      /\ forall nm r, dget suffix nm = Some r -> exists r0, dget updates nm = Some r0 /\ validate_route r0 = Ok r).
  { induction updates as [|[k r0] updates IH]; intros acc; simpl.
    - intros [= <-]. exists []. by rewrite app_nil_r.
    - destruct (validate_route r0) as [r|e] eqn:Er; simpl; [|done].
      intros (suffix & -> & Hk & Hg)%IH. exists ((k, r) :: suffix). rewrite <-app_assoc.
      split; [done|]. split; [csimpl; by rewrite <-Hk|]. intros nm r'. simpl. case_bool_decide; [|apply Hg].
      intros [= <-]. eauto. }
  intros (suffix & -> & Hk & Hg)%(H []). done.
Qed.

Lemma rfold_unit {A : Type} (f : A -> result string unit) l u :
  rfold (fun _ x => f x) u l = Ok tt -> Forall (fun x => f x = Ok tt) l.
Proof.
  revert u. induction l as [|a l IH]; intros u; simpl; [constructor|].
  destruct (f a) as [[]|e] eqn:E; simpl; [|done]. intros H%IH. by constructor.
Qed.

(** ** Properties *)

(** Parsing accepts exactly the well-formed mission trees: [mission_tree] is accepted
    if and only if, once unnamed nodes have got their index as a name, it is not empty, its names are
    distinct and different from [root], and every parent is [root] or an earlier node; and the
    accepted tree is the given one with those names. *)
Theorem validate_tree_exact l l' : validate_tree l = Ok l' <-> l' = default_names l /\ tree_ok l'.
Proof. apply validate_tree_iff. Qed.

(** An accepted mission tree has no cycles: from every node the parents lead to the root in at most
    as many steps as the tree has nodes. *)
Theorem validated_tree_acyclic l l' i n nm :
  validate_tree l = Ok l' -> l' !! i = Some n -> name n = Some nm ->
  is_Some (path_to_root (length l') l' nm).
Proof.
  intros [-> Hok]%validate_tree_iff Hi Hn.
  apply (path_exists _ i n); [done|done|done|]. by eapply lookup_lt_Some.
Qed.

(** The dispatcher can build the behaviour tree of a mission that was accepted and whose parents are
    the root, selectors and sequences: no status is missing, no parent is missing, nothing raises, and
    the tree holds the root and every mission node exactly once. *)
Theorem behavior_tree_built m l tree :
  validate_tree l = Ok tree -> Forall (fun n => validate_node_type n = Ok n) l ->
  mission_tree m = tree ->
  (forall i n, tree !! i = Some n -> parent n ∈ "root"%string :: control_names (take i tree)) ->
  exists t, create_behavior_tree (init_node_status m) = Ok (t, true)
    /\ bt_names t ≡ₚ "root"%string :: node_names tree.
Proof.
  intros [-> Hok]%validate_tree_iff Hty Hm Hctl. destruct Hok as (_ & Hnames & Hnd & Hpar).
  unfold create_behavior_tree. cbn [mission_tree init_node_status]. rewrite Hm.
  destruct (build_ok (init_node_status m) 0 (default_names l) (BT "root" KRoot 0 T_INVALID []))
    as (t & Hb & Ht); [| |done|done|done|by exists t].
  - unfold default_names. apply Forall_lookup. intros i n. rewrite list_lookup_imap.
    destruct (l !! i) as [n0|] eqn:Ei; [|done]. intros [= <-].
    pose proof (Forall_lookup_1 _ _ _ _ Hty Ei) as H. unfold validate_node_type in *.
    change (set_types (default_name i n0)) with (set_types n0). by case_bool_decide.
  - apply Forall_lookup. intros i n Hi. pose proof (Forall_lookup_1 _ _ _ _ Hnames Hi) as Hn.
    destruct (name n) as [nm|] eqn:En; [|done]. exists nm. split; [done|].
    apply init_status_fold. rewrite Hm. right. by eapply node_names_lookup.
Qed.

(** Loading a mission gives every named node and the root a status, keeps the statuses already
    stored, and new ones start PENDING. *)
Theorem node_status_initialised m nm :
  nm ∈ "root"%string :: node_names (mission_tree m) ->
  dget (node_status (init_node_status m)) nm = Some (default new_node_status (dget (node_status m) nm)).
Proof.
  intros Hin. destruct (init_status_fold ("root"%string :: node_names (mission_tree m)) (node_status m) nm)
    as (_ & H2 & _ & H4). cbn [node_status init_node_status].
  destruct (dget (node_status m) nm) as [st|] eqn:E; simpl in *; [by apply H2|by apply H4].
Qed.

(** A reroute is all or nothing. If [update] raises, the mission is unchanged. If it succeeds, the
    mission was not done, every named node exists, is a route node and, on a running mission, is not
    finished; the tree keeps its nodes and their order, exactly the named nodes get the new routes,
    [route_rev] is one higher and the stale planned path is gone. *)
Theorem update_all_or_nothing m updates m' r :
  update m updates = (m', r) -> dict_wf updates ->
  match r with
  | Raise _ => m' = m
  | Ok routes =>
      done_state (m_state m) = false
      /\ keys routes = keys updates
      /\ Forall (fun u => check_update m u.1 = Ok tt) routes
      /\ route_rev m' = (route_rev m + 1)%Z /\ planned_path m' = None
      /\ m_state m' = m_state m /\ node_status m' = node_status m /\ needs_canceled m' = needs_canceled m
      /\ length (mission_tree m') = length (mission_tree m)
      /\ forall i n, mission_tree m !! i = Some n ->
           mission_tree m' !! i
           = Some (match name n with
                   | Some nm => match dget routes nm with Some rt => set_route n rt | None => n end
                   | None => n
                   end)
  end.
Proof.
  unfold update. destruct (done_state (m_state m)) eqn:Ed; [by intros [= <- <-]|].
  destruct (parse_routes updates) as [routes|e] eqn:Ep; [|by intros [= <- <-]].
  destruct (rfold _ tt routes) as [[]|e] eqn:Ec; [|by intros [= <- <-]].
  intros [= <- <-] Hwf. apply parse_routes_spec in Ep as [Hk _]. apply rfold_unit in Ec.
  split_and!; try done; simpl.
  - apply apply_updates_length.
  - intros i n Hi. apply apply_updates_lookup; [|done]. by rewrite Hk.
Qed.

(** Loading a route keeps exactly the trajectory legs that still fit its waypoints, in order, never
    rejects the route for a stale one, and loading the result again changes nothing. *)
Theorem trajectory_refreshed r r' :
  validate_route r = Ok r' ->
  waypoints r' = waypoints r
  /\ default [] (trajectory r') = List.filter (leg_fits (waypoints r)) (default [] (trajectory r))
  /\ validate_route r' = Ok r'.
Proof.
  unfold validate_route. case_bool_decide as Hw; [done|]. intros [= <-].
  assert (Hfilter : forall l, List.filter (leg_fits (waypoints r)) (List.filter (leg_fits (waypoints r)) l)
                              = List.filter (leg_fits (waypoints r)) l).
  { induction l as [|a l IH]; simpl; [done|]. destruct (leg_fits (waypoints r) a) eqn:E; simpl; [|done].
    by rewrite E, IH. }
  unfold drop_stale_trajectory. destruct (trajectory r) as [[|leg legs]|] eqn:Et.
  - simpl. by rewrite bool_decide_false.
  - destruct (List.filter (leg_fits (waypoints r)) (leg :: legs)) as [|a l] eqn:Ef; cbn [default trajectory waypoints].
    + by rewrite bool_decide_false.
    + rewrite bool_decide_false by done. split_and!; [done|done|].
      pose proof (Hfilter (leg :: legs)) as H. rewrite Ef in H. by rewrite H.
  - simpl. by rewrite bool_decide_false.
Qed.

(** A node's mission state survives the trip through the behaviour tree, except that a cancelled
    node is read back as failed; a leaf waiting for its order to be acknowledged counts as running. *)
Theorem node_state_roundtrip s :
  tree2mission_state (mission2tree_state s) = (if bool_decide (s = CANCELED) then FAILED else s)
  /\ tree2mission_state (leaf_update s)
     = match s with PENDING => RUNNING | CANCELED => FAILED | _ => s end.
Proof. by destruct s. Qed.

(** [cancel] raises exactly on a mission that is done, and otherwise only sets the cancel request. *)
Theorem cancel_exact m :
  (done_state (m_state m) = true <-> exists e, (cancel m).2 = Raise e)
  /\ (done_state (m_state m) = true -> (cancel m).1 = m)
  /\ (done_state (m_state m) = false ->
       (cancel m).2 = Ok tt /\ needs_canceled (cancel m).1 = true /\ m_state (cancel m).1 = m_state m
       /\ mission_tree (cancel m).1 = mission_tree m).
Proof. unfold cancel. destruct (done_state (m_state m)); simpl; naive_solver. Qed.

(** The validator does not look at the type of a parent: a mission with a node under a leaf is
    accepted, and then building its behaviour tree raises, since only composites can hold children. *)
Theorem leaf_parent_accepted a b pose nodes :
  a <> b -> a <> "root"%string -> b <> "root"%string ->
  let leaf := mkNode (Some a) "root" (Some (mkRoute [pose] None)) None None None false false None in
  let child := mkNode (Some b) a None None None None false false (Some true) in
  validate_tree [leaf; child] = Ok [leaf; child]
  /\ create_behavior_tree (init_node_status (mkMission [leaf; child] false 0 None PENDING nodes))
     = Raise "AttributeError"%string.
Proof.
  intros Hab Ha Hb leaf child. split.
  - apply validate_tree_iff. split; [done|]. split_and!; [done|by repeat constructor|..].
    + cbn. rewrite !NoDup_cons, !not_elem_of_cons. split_and!; try done; try apply not_elem_of_nil; try congruence.
      constructor.
    + intros [|[|i]] n; cbn; [intros [= <-]; left|intros [= <-]; right; left|done].
  - set (m := mkMission [leaf; child] false 0 None PENDING nodes).
    assert (Hst : forall nm, nm ∈ [a; b] -> is_Some (dget (node_status (init_node_status m)) nm)).
    { intros nm Hnm. apply init_status_fold. simpl. set_solver. }
    destruct (Hst a) as [sa Ea]; [left|]. destruct (Hst b) as [sb Eb]; [right; left|].
    unfold create_behavior_tree. cbn [mission_tree init_node_status m build name leaf child].
    rewrite Ea, Eb. rewrite bool_decide_true by left. cbn. rewrite bool_decide_true by left.
    rewrite bool_decide_true by (right; left). by rewrite bool_decide_false by set_solver.
Qed.

(** *** Witnesses *)

Definition sample_pose : Pose2D := mkPose 1000000 2000000 0 "lab".
Definition sample_route : MissionRouteNode :=
  mkRoute [sample_pose; mkPose 3000000 2000000 0 "lab"]
    (Some [mkLeg 0 1 [(1000000, 2000000); (3000000, 2000000)]; mkLeg 1 2 [(0, 0); (0, 0)]])%Z.
Definition sample_tree : list MissionNode :=
  [mkNode (Some "legs"%string) "root" None None None None false true None;
   mkNode None "legs" (Some sample_route) None None None false false None].
Definition sample_mission : Mission := mkMission (default_names sample_tree) false 0 None PENDING [].

Lemma validated_tree_acyclic_witness : is_Some (path_to_root 2 (default_names sample_tree) "1").
Proof.
  apply (validated_tree_acyclic sample_tree (default_names sample_tree) 1
           (default_name 1 (mkNode None "legs" (Some sample_route) None None None false false None)));
    reflexivity.
Defined.

Lemma behavior_tree_built_witness :
  exists t, create_behavior_tree (init_node_status sample_mission) = Ok (t, true)
    /\ bt_names t ≡ₚ ["root"; "legs"; "1"]%string.
Proof.
  apply (behavior_tree_built sample_mission sample_tree (default_names sample_tree)); [reflexivity| |reflexivity|].
  - repeat constructor.
  - intros [|[|i]] n; [intros [= <-]; left|intros [= <-]; right; left|done].
Defined.

Lemma node_status_initialised_witness :
  dget (node_status (init_node_status sample_mission)) "1"%string = Some new_node_status.
Proof. apply (node_status_initialised sample_mission "1"). vm_compute. right. right. left. Defined.

Lemma update_all_or_nothing_witness :
  route_rev (update (init_node_status sample_mission) [("1"%string, mkRoute [sample_pose] None)]).1 = 1%Z.
Proof.
  pose proof (update_all_or_nothing (init_node_status sample_mission) [("1"%string, mkRoute [sample_pose] None)]
    _ _ eq_refl (NoDup_singleton _)) as H. apply H.
Defined.

Lemma trajectory_refreshed_witness :
  exists r', validate_route sample_route = Ok r' /\ validate_route r' = Ok r'.
Proof.
  exists (mkRoute (waypoints sample_route) (Some [mkLeg 0 1 [(1000000, 2000000); (3000000, 2000000)]])%Z).
  split; [reflexivity|]. apply (trajectory_refreshed sample_route). reflexivity.
Defined.

Lemma cancel_exact_witness : (cancel sample_mission).2 = Ok tt.
Proof. apply (cancel_exact sample_mission). reflexivity. Defined.

Lemma leaf_parent_accepted_witness :
  let leaf := mkNode (Some "a"%string) "root" (Some (mkRoute [sample_pose] None)) None None None false false None in
  let child := mkNode (Some "b"%string) "a" None None None None false false (Some true) in
  validate_tree [leaf; child] = Ok [leaf; child]
  /\ create_behavior_tree (init_node_status (mkMission [leaf; child] false 0 None PENDING []))
     = Raise "AttributeError"%string.
Proof. apply (leaf_parent_accepted "a" "b" sample_pose []); discriminate. Defined.
