(* ===== verification/LegTracker.v ===== *)
(** * Legs of a run (packages/controllers/mission/leg_tracker.py)

    A leg is a move from one reached node to the next, detected from the state messages of one run.
    The node ids are those of [OrderIds], the missions those of [Mission].

    Modelling choices. Times are integers (milliseconds). The distances and the expected duration of
    a leg are floating-point functions of its two poses and are not modelled: a leg carries the pair
    of poses they are computed from. *)

From S2P Require Import Prelude PyDict OrderIds Mission.

Local Open Scope list_scope.

(** [MAX_INTERVAL_S] *)
Definition MAX_INTERVAL : Z := 30000.

(** [Reach] *)
Record Reach := mkReach {
  vda_node : string;
  seq : N;
  node_idx : N;
  ts : Z;
  received : Z;
  r_order_rev : N;
  pose : option Pose2D;
  wp : option N;
  topomap : option string;
  stopped : Z;
  virtual : bool;
}.

(** [Leg]; [l_ends] is what [straight_m], [planned_m] and [expected_s] are computed from. *)
Record Leg := mkLegRow {
  l_seq : nat;
  l_pass : N;
  l_order_rev : N;
  from_vda_node : string;
  to_vda_node : string;
  from_topomap : option string;
  to_topomap : option string;
  l_map_id : option string;
  started_at : Z;
  ended_at : Z;
  received_started_at : Z;
  received_ended_at : Z;
  duration : Z;
  l_stopped : Z;
  l_ends : option (Pose2D * Pose2D);
}.

(** What [observe] reads of the mission and of its status. *)
Record RunView := mkRunView {
  v_name : string;
  v_run_id : option string;
  v_order_rev : N;
  v_passes : N;
  v_tree : list MissionNode;
  v_planned : option (list string);
}.

Record StateMessage := mkState {
  lastNodeId : option string;
  orderId : option string;
  driving : option bool;
}.

(** [route_table] *)
Fixpoint route_rows (idx : N) (offset : nat) (l : list MissionNode)
    : list (N * (nat * list Pose2D)) * nat :=
  match l with
  | [] => ([], offset)
  | n :: rest =>
      match route n with
      | Some r =>
          let (rows, total) := route_rows (idx + 1) (offset + length (waypoints r)) rest in
          ((idx, (offset, waypoints r)) :: rows, total)
      | None => route_rows (idx + 1) offset rest
      end
  end.
Definition route_table (v : RunView) : list (N * (nat * list Pose2D)) * option (list string) :=
  let (rows, total) := route_rows 0 0 (v_tree v) in
  let planned := default [] (v_planned v) in
  (rows, if negb (bool_decide (planned = [])) && bool_decide (length planned = total)
         then Some planned else None).

Record LegTracker := mkTracker {
  n_legs : nat;
  pass_index : option N;
  anchor : option Reach;
  last_node : option string;
  prev : option (Z * bool);      (** stamp and driving flag of the previous message *)
}.

Definition new_tracker : LegTracker := mkTracker 0 None None None None.

(** [current_seq] *)
Definition current_seq (t : LegTracker) : option nat :=
  match anchor t with Some _ => Some (S (n_legs t)) | None => None end.

(** [_reset] *)
Definition reset_tracker (t : LegTracker) (pass : N) : LegTracker :=
  mkTracker (n_legs t) (Some pass) None None None.

Definition set_anchor (t : LegTracker) (a : option Reach) : LegTracker :=
  mkTracker (n_legs t) (pass_index t) a (last_node t) (prev t).

(** The time not driving since the previous message, on the open leg. *)
Definition add_stopped (t : LegTracker) (now : Z) : option Reach :=
  match prev t, anchor t with
  | Some (before, was_driving), Some a =>
      if bool_decide (0 < now - before)%Z && negb was_driving
      then Some (mkReach (vda_node a) (seq a) (node_idx a) (ts a) (received a) (r_order_rev a) (pose a)
                   (wp a) (topomap a) (stopped a + Z.min (now - before) MAX_INTERVAL) (virtual a))
      else Some a
  | _, a => a
  end.

(** [_leg] *)
Definition make_leg (t : LegTracker) (start end_ : Reach) (map : option string) : LegTracker * Leg :=
  let d := Z.max 0 (ts end_ - ts start) in
  let n := S (n_legs t) in
  (mkTracker n (pass_index t) (anchor t) (last_node t) (prev t),
   mkLegRow n (default 0%N (pass_index t)) (r_order_rev end_) (vda_node start) (vda_node end_)
     (topomap start) (topomap end_) map (ts start) (ts end_) (received start) (received end_) d
     (Z.min (stopped start) d)
     (match pose start, pose end_ with Some a, Some b => Some (a, b) | _, _ => None end)).

(** [x or None] on text *)
Definition some_text (s : string) : option string := if bool_decide (s = ""%string) then None else Some s.

(** A node of the order beyond its base node was reached. *)
Definition reach_waypoint (t : LegTracker) (v : RunView) (nid : string) (idx sq : N)
    (row : nat * list Pose2D) (planned : option (list string)) (now recv : Z)
    (default_map : option string) : LegTracker * list Leg :=
  let '(offset, ws) := row in
  let w := (Z.of_N (sq / 2) - 1)%Z in
  match (if bool_decide (0 <= w)%Z then ws !! Z.to_nat w else None) with
  | None => (t, [])
  | Some p =>
      let r := mkReach nid sq idx now recv (v_order_rev v) (Some p) (Some (Z.to_N w))
                 (planned ≫= (fun l => l !! (offset + Z.to_nat w))) 0 false in
      let t' := set_anchor t (Some r) in
      match anchor t with
      | None => (t', [])
      | Some a =>
          let (t'', leg) := make_leg t' a r
            (match some_text (default "" default_map) with Some m => Some m | None => some_text (map_id p) end) in
          (t'', [leg])
      end
  end.

(** The base node (sequence 0) of an order. *)
Definition reach_base (t : LegTracker) (v : RunView) (nid : string) (idx : N) (now recv : Z)
    : LegTracker :=
  match anchor t with
  | None => set_anchor t (Some (mkReach nid 0 idx now recv (v_order_rev v) None None None 0 false))
  | Some a =>
      if virtual a
      then set_anchor t (Some (mkReach nid 0 idx now recv (v_order_rev v) None None None 0 false))
      else if bool_decide (node_idx a = idx) then t
      else set_anchor t (Some (mkReach (vda_node a) (seq a) idx now recv (r_order_rev a) (pose a)
                                 (wp a) (topomap a) 0 (virtual a)))
  end.

(** The first part of [observe]: a new pass starts from scratch, and the time not driving since the
    previous message is added to the open leg. *)
Definition entered (t : LegTracker) (v : RunView) (m : StateMessage) (now : Z) : LegTracker :=
  let t0 := if bool_decide (pass_index t = Some (v_passes v)) then t else reset_tracker t (v_passes v) in
  mkTracker (n_legs t0) (pass_index t0) (add_stopped t0 now) (last_node t0)
    (Some (now, default true (driving m))).

(** [observe] *)
Definition observe (t : LegTracker) (v : RunView) (m : StateMessage) (now recv : Z)
    (default_map : option string) : LegTracker * list Leg :=
  let prefix := run_prefix (v_name v) (v_run_id v) (v_order_rev v) in
  let t1 := entered t v m now in
  let nid := default ""%string (lastNodeId m) in
  let (table, planned) := route_table v in
  if negb (is_node_of prefix nid) then
    let oid := default ""%string (orderId m) in
    match anchor t1 with
    | None =>
        if is_order_of prefix oid then
          match order_node_index oid with
          | Some idx =>
              if dmem table idx
              then (set_anchor t1 (Some (mkReach (node_id prefix idx 0) 0 idx now recv (v_order_rev v)
                                           None None None 0 true)), [])
              else (t1, [])
          | None => (t1, [])
          end
        else (t1, [])
    | Some _ => (t1, [])
    end
  else if bool_decide (last_node t1 = Some nid) then (t1, [])
  else
    let t2 := mkTracker (n_legs t1) (pass_index t1) (anchor t1) (Some nid) (prev t1) in
    match node_index nid ≫= (fun idx => dget table idx ≫= (fun row => Some (idx, row))) with
    | None => (set_anchor t2 None, [])
    | Some (idx, row) =>
        match node_sequence nid with
        | None => (t2, [])
        | Some sq =>
            if bool_decide (sq = 0%N) then (reach_base t2 v nid idx now recv, [])
            else reach_waypoint t2 v nid idx sq row planned now recv default_map
        end
    end.

(** The messages of a run. *)
Record obs := mkObs { o_view : RunView; o_msg : StateMessage; o_ts : Z; o_recv : Z; o_map : option string }.
Definition obs_step (t : LegTracker) (o : obs) : LegTracker * list Leg :=
  observe t (o_view o) (o_msg o) (o_ts o) (o_recv o) (o_map o).

(** ** Specification *)

Definition prefix_of (v : RunView) : string := run_prefix (v_name v) (v_run_id v) (v_order_rev v).

(** Every leg starts where the one before it ended; [p] is the end of the leg before the first. *)
Fixpoint chained (p : option string) (legs : list Leg) : Prop :=
  match legs with
  | [] => True
  | l :: rest =>
      match p with Some n => from_vda_node l = n | None => True end /\ chained (Some (to_vda_node l)) rest
  end.

(** The message reports no node of this order, or a route node of the tree. *)
Definition on_route (v : RunView) (m : StateMessage) : Prop :=
  is_node_of (prefix_of v) (default ""%string (lastNodeId m)) = true ->
  exists idx row, node_index (default ""%string (lastNodeId m)) = Some idx
    /\ dget (route_table v).1 idx = Some row.

Definition leg_ok (l : Leg) : Prop :=
  duration l = Z.max 0 (ended_at l - started_at l) /\ (0 <= l_stopped l <= duration l)%Z
  /\ exists s, node_sequence (to_vda_node l) = Some s /\ s <> 0%N.

Definition stopped_ok (t : LegTracker) : Prop :=
  match anchor t with Some a => (0 <= stopped a)%Z | None => True end.

(** ** Lemmas *)

Lemma add_stopped_spec t now :
  match anchor t, add_stopped t now with
  | None, None => True
  | Some a, Some a' => vda_node a' = vda_node a /\ virtual a' = virtual a /\ node_idx a' = node_idx a
      /\ ts a' = ts a /\ pose a' = pose a /\ topomap a' = topomap a /\ received a' = received a
      /\ (stopped a <= stopped a')%Z
  | _, _ => False
  end.
Proof.
  unfold add_stopped. destruct (prev t) as [[b d]|], (anchor t) as [a|]; try done.
  destruct (bool_decide _ && _) eqn:E; simpl; [|auto 10 with lia].
  apply andb_true_iff in E as [E%bool_decide_eq_true _]. unfold MAX_INTERVAL. split_and!; try done. lia.
Qed.

(** The three things [observe] can do. *)
Lemma observe_cases t v m now recv dm :
  let t1 := entered t v m now in
  let nid := default ""%string (lastNodeId m) in
  (exists t', observe t v m now recv dm = (t', []) /\ n_legs t' = n_legs t1 /\ pass_index t' = pass_index t1
     /\ ((anchor t' = anchor t1)
         \/ (anchor t1 = None /\ exists a, anchor t' = Some a /\ stopped a = 0%Z)
         \/ (is_node_of (prefix_of v) nid = true /\ anchor t' = None
             /\ (node_index nid ≫= (fun idx => dget (route_table v).1 idx)) = None)
         \/ (exists a a', anchor t1 = Some a /\ anchor t' = Some a' /\ stopped a' = 0%Z
               /\ (virtual a = false -> vda_node a' = vda_node a /\ virtual a' = false))))
  \/ (exists a r map sq, anchor t1 = Some a /\ node_sequence nid = Some sq /\ sq <> 0%N
        /\ vda_node r = nid /\ virtual r = false /\ stopped r = 0%Z
        /\ exists t2, observe t v m now recv dm
             = ((make_leg t2 a r map).1, [(make_leg t2 a r map).2])
           /\ n_legs t2 = n_legs t1 /\ pass_index t2 = pass_index t1 /\ anchor t2 = Some r).
Proof.
  intros t1 nid. unfold observe. fold (prefix_of v). fold nid. fold t1. cbv zeta. clearbody t1 nid.
  destruct (route_table v) as [table planned] eqn:Et. simpl.
  destruct (is_node_of (prefix_of v) nid) eqn:En; simpl.
  2: { left. destruct (anchor t1) as [a|] eqn:Ea; [eexists; split; [done|]; auto 10|].
       destruct (is_order_of _ _); [|eexists; split; [done|]; auto 10].
       destruct (order_node_index _) as [idx|]; [|eexists; split; [done|]; auto 10].
       destruct (dmem table idx); (eexists; split; [done|]); simpl; split_and!; try done; [|auto].
       right. left. split; [done|]. eexists. done. }
  case_bool_decide; [left; eexists; split; [done|]; auto 10|].
  destruct (node_index nid) as [idx|] eqn:Ei; cbn [mbind option_bind].
  2: { left. eexists. split; [done|]. simpl. split_and!; try done. auto 10. }
  destruct (dget table idx) as [row|] eqn:Er; cbn [mbind option_bind].
  2: { left. eexists. split; [done|]. simpl. split_and!; try done. auto 10. }
  destruct (node_sequence nid) as [sq|] eqn:Es; [|left; eexists; split; [done|]; simpl; auto 10].
  case_bool_decide as Hsq.
  - left. eexists. split; [done|]. unfold reach_base. simpl.
    destruct (anchor t1) as [a|] eqn:Ea; simpl.
    + destruct (virtual a) eqn:Ev; [|case_bool_decide]; simpl; (split; [done|]); (split; [done|]).
      * do 3 right. exists a. eexists. split_and!; try done. congruence.
      * by left.
      * do 3 right. exists a. eexists. done.
    + split_and!; try done. right. left. split; [done|]. eexists. done.
  - unfold reach_waypoint. destruct row as [offset ws].
    destruct (if bool_decide _ then _ else None) as [p|]; [|left; eexists; split; [done|]; simpl; auto 10].
    cbn [anchor]. destruct (anchor t1) as [a|] eqn:Ea.
    + right. match goal with |- context [make_leg ?t2 a ?r ?map] => exists a, r, map, sq;
        (split_and!; try done); exists t2 end. done.
    + left. eexists. split; [done|]. simpl. split_and!; try done. right. left. split; [done|]. eexists. done.
Qed.

Lemma entered_same t v m now :
  n_legs (entered t v m now) = n_legs t /\ pass_index (entered t v m now) = Some (v_passes v)
  /\ (stopped_ok t -> stopped_ok (entered t v m now)).
Proof.
  unfold entered. simpl. destruct (bool_decide_reflect (pass_index t = Some (v_passes v))) as [E|E]; simpl.
  - split_and!; try done. unfold stopped_ok. simpl. pose proof (add_stopped_spec t now) as H.
    destruct (anchor t), (add_stopped t now); try done. intros. destruct H as (_&_&_&_&_&_&_&?). lia.
  - split_and!; done.
Qed.

Lemma make_leg_ok t a r map sq :
  (0 <= stopped a)%Z -> node_sequence (vda_node r) = Some sq -> sq <> 0%N ->
  leg_ok (make_leg t a r map).2.
Proof. intros Hs Hn Hz. unfold leg_ok, make_leg. simpl. split_and!; [done|lia|lia|eauto]. Qed.

(** One message: the legs it completes are well formed and take the next number. *)
Lemma observe_legs t o :
  stopped_ok t ->
  let '(t', legs) := obs_step t o in
  stopped_ok t' /\ Forall leg_ok legs /\ l_seq <$> legs = List.seq (S (n_legs t)) (length legs)
  /\ n_legs t' = n_legs t + length legs.
Proof.
  intros Hs. unfold obs_step. destruct (entered_same t (o_view o) (o_msg o) (o_ts o)) as (Hn & Hp & Hst).
  specialize (Hst Hs).
  destruct (observe_cases t (o_view o) (o_msg o) (o_ts o) (o_recv o) (o_map o))
    as [(t' & -> & Hn' & _ & Ha)|(a & r & map & sq & Ha & Hsq & Hz & Hv & _ & Hr & t2 & -> & Hn2 & _ & Ha2)].
  - split_and!; [|constructor|done|simpl; lia]. unfold stopped_ok in *.
    destruct Ha as [->|[(_ & a & -> & ->)|[(_ & -> & _)|(a & a' & _ & -> & -> & _)]]]; try done; lia.
  - unfold stopped_ok in Hst. rewrite Ha in Hst. split_and!.
    + unfold stopped_ok, make_leg. simpl. rewrite Ha2. lia.
    + constructor; [|constructor]. by apply (make_leg_ok t2 a r map sq); rewrite ?Hv.
    + simpl. rewrite Hn2, Hn. done.
    + simpl. lia.
Qed.

Lemma run_legs_spec es t :
  stopped_ok t ->
  let legs := concat (run obs_step t es).2 in
  Forall leg_ok legs /\ l_seq <$> legs = List.seq (S (n_legs t)) (length legs)
  /\ n_legs (run obs_step t es).1 = n_legs t + length legs.
Proof.
  revert t. induction es as [|o es IH]; intros t Ht; simpl; [by auto with lia|].
  pose proof (observe_legs t o Ht) as H. destruct (obs_step t o) as [t1 legs]. destruct H as (Ht1 & Hok & Hs & Hn).
  destruct (IH t1 Ht1) as (Hok2 & Hs2 & Hn2). destruct (run obs_step t1 es) as [t2 out]. simpl in *.
  split_and!.
  - by apply Forall_app.
  - rewrite fmap_app, Hs, Hs2, length_app, Hn, List.seq_app. done.
  - rewrite Hn2, Hn, length_app. lia.
Qed.

(** *** Chaining *)

(** The end of the last leg is where the open leg starts. *)
Definition anchored (p : option string) (t : LegTracker) : Prop :=
  match p with
  | Some n => exists a, anchor t = Some a /\ vda_node a = n /\ virtual a = false
  | None => True
  end.

Lemma entered_anchored p t v m now :
  pass_index t = Some (v_passes v) -> anchored p t -> anchored p (entered t v m now).
Proof.
  intros Hp. destruct p as [n|]; [|done]. intros (a & Ha & Hv & Hvi). unfold entered.
  rewrite bool_decide_true by done. simpl. pose proof (add_stopped_spec t now) as H. rewrite Ha in H.
  destruct (add_stopped t now) as [a'|] eqn:E; [|done]. destruct H as (H1 & H2 & _).
  exists a'. simpl. split_and!; [done|congruence|congruence].
Qed.

Lemma observe_chained p t v m now recv dm :
  (p <> None -> pass_index t = Some (v_passes v)) -> on_route v m -> anchored p t ->
  let '(t', legs) := observe t v m now recv dm in
  pass_index t' = Some (v_passes v)
  /\ match legs with
     | [] => anchored p t'
     | [l] => match p with Some n => from_vda_node l = n | None => True end
              /\ anchored (Some (to_vda_node l)) t'
     | _ => False
     end.
Proof.
  intros Hp Hroute Ht. destruct (entered_same t v m now) as (_ & Hpass & _).
  assert (He : anchored p (entered t v m now)).
  { destruct p as [n|]; [|done]. apply entered_anchored; [by apply Hp|done]. }
  destruct (observe_cases t v m now recv dm)
    as [(t' & -> & _ & Hp' & Ha)|(a & r & map & sq & Ha & Hsq & Hz & Hv & Hvi & _ & t2 & -> & _ & Hp2 & Ha2)].
  - split; [by rewrite Hp'|]. destruct p as [n|]; [|done]. destruct He as (a & Hea & Hva & Hvia).
    destruct Ha as [Ha|[(Hnone & _)|[(Hnode & _ & Hbad)|(a1 & a' & Ha1 & Ha' & _ & Hkeep)]]].
    + exists a. by rewrite Ha.
    + congruence.
    + destruct (Hroute Hnode) as (idx & row & Hi & Hr). rewrite Hi in Hbad. simpl in Hbad. congruence.
    + rewrite Hea in Ha1. simplify_eq. destruct (Hkeep Hvia) as [H1 H2]. by exists a'.
  - split; [unfold make_leg; simpl; by rewrite Hp2|]. split.
    + destruct p as [n|]; [|done]. destruct He as (a0 & Hea & Hva & _). simpl. congruence.
    + exists r. simpl. by rewrite Ha2.
Qed.

Lemma run_chained es p t v :
  (p <> None -> pass_index t = Some (v_passes v)) -> anchored p t ->
  Forall (fun o => o_view o = v /\ on_route v (o_msg o)) es ->
  chained p (concat (run obs_step t es).2).
Proof.
  revert p t. induction es as [|o es IH]; intros p t Hp Ht Hes; [done|].
  apply Forall_cons in Hes as [[Ho Hr] Hes]. simpl. unfold obs_step at 1. rewrite Ho.
  pose proof (observe_chained p t v (o_msg o) (o_ts o) (o_recv o) (o_map o) Hp Hr Ht) as H.
  destruct (observe t v (o_msg o) (o_ts o) (o_recv o) (o_map o)) as [t1 legs]. destruct H as [Hp1 H].
  destruct legs as [|l [|? ?]]; [..|done].
  - specialize (IH p t1 (fun _ => Hp1) H Hes). by destruct (run obs_step t1 es).
  - destruct H as [Hf Ha]. specialize (IH _ t1 (fun _ => Hp1) Ha Hes).
    destruct (run obs_step t1 es). simpl in *. by split.
Qed.

(** *** A whole route *)

Definition waypoint_msg (v : RunView) (idx : N) (k : nat) : StateMessage :=
  mkState (Some (node_id (prefix_of v) idx (2 * N.of_nat k + 2))) None (Some true).

(** The next waypoint of the route is reached while a leg is open. *)
Lemma observe_next_waypoint t v m nid idx sq offset ws planned k p now recv dm a :
  pass_index t = Some (v_passes v) -> lastNodeId m = Some nid ->
  is_node_of (prefix_of v) nid = true -> node_index nid = Some idx -> node_sequence nid = Some sq ->
  sq = (2 * N.of_nat k + 2)%N -> route_table v = (planned) -> dget planned.1 idx = Some (offset, ws) ->
  ws !! k = Some p -> anchor t = Some a -> last_node t <> Some nid ->
  exists t' l, observe t v m now recv dm = (t', [l])
    /\ from_vda_node l = vda_node a /\ to_vda_node l = nid
    /\ pass_index t' = Some (v_passes v) /\ last_node t' = Some nid
    /\ exists a', anchor t' = Some a' /\ vda_node a' = nid.
Proof.
  intros Hpass Hm Hof Hidx Hseq Hsq Htab Hrow Hk Ha Hlast. unfold observe.
  fold (prefix_of v). rewrite Hm, Htab. destruct planned as [table pl]. simpl in Hrow. cbn [default from_option id].
  rewrite Hof. cbn [negb]. unfold entered. rewrite (bool_decide_true (pass_index t = _)) by done.
  cbn [last_node]. rewrite (bool_decide_false (last_node t = _)) by done.
  rewrite Hidx. cbn [mbind option_bind]. rewrite Hrow. cbn [mbind option_bind]. rewrite Hseq.
  rewrite bool_decide_false by lia. unfold reach_waypoint.
  replace (Z.of_N (sq / 2) - 1)%Z with (Z.of_nat k).
  2: { subst sq. replace (2 * N.of_nat k + 2)%N with ((N.of_nat k + 1) * 2)%N by lia.
       rewrite N.div_mul by done. lia. }
  rewrite bool_decide_true by lia. rewrite Nat2Z.id, Hk. cbn [anchor n_legs pass_index prev].
  pose proof (add_stopped_spec t now) as Hst. rewrite Ha in Hst.
  destruct (add_stopped t now) as [a'|]; [|done]. destruct Hst as [Hv _].
  unfold make_leg. cbn [anchor n_legs pass_index prev last_node set_anchor].
  eexists _, _. split; [reflexivity|]. simpl. split_and!; try done. eauto.
Qed.

(** The messages reporting waypoints [k], [k+1], ... of a route, one each. *)
Definition route_obs (v : RunView) (idx : N) (k : nat) (times : list (Z * Z)) : list obs :=
  imap (fun i t => mkObs v (waypoint_msg v idx (k + i)) t.1 t.2 None) times.

Definition waypoint_id (v : RunView) (idx : N) (k : nat) : string :=
  node_id (prefix_of v) idx (2 * N.of_nat k + 2).

Lemma waypoint_id_inj v idx j k : waypoint_id v idx j = waypoint_id v idx k -> j = k.
Proof.
  intros H. apply (f_equal node_sequence) in H. unfold waypoint_id in H.
  rewrite !node_sequence_node_id in H. simplify_eq. lia.
Qed.

Lemma run_route times t v idx offset ws k a :
  pass_index t = Some (v_passes v) -> dget (route_table v).1 idx = Some (offset, ws) ->
  k + length times <= length ws -> anchor t = Some a ->
  (forall j, k <= j -> last_node t <> Some (waypoint_id v idx j)) ->
  let legs := concat (run obs_step t (route_obs v idx k times)).2 in
  to_vda_node <$> legs = waypoint_id v idx <$> List.seq k (length times)
  /\ chained (Some (vda_node a)) legs.
Proof.
  revert t k a. induction times as [|[now recv] times IH]; intros t k a Hpass Hrow Hlen Ha Hlast; [done|].
  unfold route_obs. simpl in Hlen. rewrite imap_cons. cbn [run obs_step o_view o_msg o_ts o_recv o_map fst snd].
  rewrite Nat.add_0_r.
  destruct (lookup_lt_is_Some_2 ws k) as [p Hp]; [lia|].
  destruct (observe_next_waypoint t v (waypoint_msg v idx k) (waypoint_id v idx k) idx
    (2 * N.of_nat k + 2) offset ws (route_table v) k p now recv None a)
    as (t1 & l & Hobs & Hf & Hto & Hp1 & Hl1 & a1 & Ha1 & Hv1); try done.
  { unfold waypoint_id. rewrite is_node_of_node_id. by apply bool_decide_true. }
  { apply node_index_node_id. }
  { apply node_sequence_node_id. }
  { apply Hlast. lia. }
  change (obs_step t (mkObs v (waypoint_msg v idx k) now recv None) = (t1, [l])) in Hobs. rewrite Hobs.
  replace (imap _ times) with (route_obs v idx (S k) times).
  2: { unfold route_obs. apply imap_ext. intros. unfold compose. simpl. by rewrite Nat.add_succ_r. }
  destruct (IH t1 (S k) a1 Hp1 Hrow) as [H1 H2]; [lia|done| |].
  { intros j Hj. rewrite Hl1. intros [= E]. apply waypoint_id_inj in E. lia. }
  destruct (run obs_step t1 (route_obs v idx (S k) times)) as [t2 out]. cbn [snd] in *.
  change (concat ([l] :: out)) with (l :: concat out). rewrite fmap_cons, H1, Hto. split; [done|].
  split; [done|]. by rewrite Hto, <-Hv1.
Qed.

(** ** Properties *)

(** The legs of a run are numbered 1, 2, 3, ... without gaps, whatever the messages; each ends on a
    node beyond the base node of its order, its duration is the time between its two stamps (0 if the
    robot's clock went back), and the time counted as stopped is between 0 and that duration. *)
Theorem legs_well_formed (es : list obs) :
  let legs := concat (run obs_step new_tracker es).2 in
  l_seq <$> legs = List.seq 1 (length legs) /\ Forall leg_ok legs
  /\ n_legs (run obs_step new_tracker es).1 = length legs.
Proof.
  destruct (run_legs_spec es new_tracker I) as (H1 & H2 & H3). by split_and!.
Qed.

(** As long as the robot reports route nodes of one revision of the run's orders, with resent base
    nodes, repeated reports and new route nodes of the tree in any order, every leg starts at the node
    where the leg before it ended. *)
Theorem legs_chained v (es : list obs) :
  Forall (fun o => o_view o = v /\ on_route v (o_msg o)) es ->
  chained None (concat (run obs_step new_tracker es).2).
Proof. intros Hes. apply (run_chained es None new_tracker v); done. Qed.

(** Driving a route gives one leg per waypoint: when the robot reports the base node of an order and
    then each of the first [n] waypoints of its route in turn, the tracker yields exactly [n] legs,
    ending at those waypoints in order, the first starting at the base node and each later one where
    the one before ended. *)
Theorem route_gives_legs v idx offset ws t0 r0 (times : list (Z * Z)) :
  dget (route_table v).1 idx = Some (offset, ws) -> length times <= length ws ->
  let base := mkObs v (mkState (Some (node_id (prefix_of v) idx 0)) None (Some true)) t0 r0 None in
  let legs := concat (run obs_step new_tracker (base :: route_obs v idx 0 times)).2 in
  to_vda_node <$> legs = waypoint_id v idx <$> List.seq 0 (length times)
  /\ chained (Some (node_id (prefix_of v) idx 0)) legs.
Proof.
  intros Hrow Hlen. cbv zeta. cbn [run]. unfold obs_step at 1 3. cbn [o_view o_msg o_ts o_recv o_map].
  set (m := mkState (Some (node_id (prefix_of v) idx 0)) None (Some true)).
  assert (Hobs : observe new_tracker v m t0 r0 None
    = (mkTracker 0 (Some (v_passes v))
         (Some (mkReach (node_id (prefix_of v) idx 0) 0 idx t0 r0 (v_order_rev v) None None None 0 false))
         (Some (node_id (prefix_of v) idx 0)) (Some (t0, true)), [])).
  { unfold observe. fold (prefix_of v). cbn [lastNodeId m default from_option id].
    rewrite is_node_of_node_id, (bool_decide_true (prefix_of v = prefix_of v)) by done.
    destruct (route_table v) as [table planned]. simpl in Hrow. cbn [negb].
    unfold entered, new_tracker. simpl. rewrite node_index_node_id. cbn [mbind option_bind]. rewrite Hrow.
    cbn [mbind option_bind]. by rewrite node_sequence_node_id. }
  rewrite Hobs. set (t1 := mkTracker _ _ _ _ _).
  destruct (run_route times t1 v idx offset ws 0
    (mkReach (node_id (prefix_of v) idx 0) 0 idx t0 r0 (v_order_rev v) None None None 0 false))
    as [H1 H2]; [done|done|lia|done| |].
  { intros j _ [= E]. apply (f_equal node_sequence) in E. unfold waypoint_id in E.
    rewrite !node_sequence_node_id in E. simplify_eq. lia. }
  destruct (run obs_step t1 _) as [t2 out]. cbn [snd] in *. done.
Qed.

(** *** Witnesses *)

Definition sample_view : RunView :=
  mkRunView "inspect" (Some "ab12"%string) 0 0 (default_names sample_tree) None.
Definition sample_obs : list obs :=
  mkObs sample_view (mkState (Some (node_id (prefix_of sample_view) 1 0)) None (Some true)) 0 0 None
    :: route_obs sample_view 1 0 [(1000, 1000); (2500, 2500)]%Z.

Lemma legs_chained_witness : chained None (concat (run obs_step new_tracker sample_obs).2).
Proof.
  apply (legs_chained sample_view).
  repeat (constructor; [split; [reflexivity|]; intros _; eexists _, _; split; reflexivity|]). constructor.
Defined.

Lemma route_gives_legs_witness :
  to_vda_node <$> concat (run obs_step new_tracker sample_obs).2
  = waypoint_id sample_view 1 <$> List.seq 0 2.
Proof.
  assert (Hrow : dget (route_table sample_view).1 1%N = Some (0, waypoints sample_route)) by reflexivity.
  assert (Hlen : length [(1000, 1000); (2500, 2500)]%Z <= length (waypoints sample_route)) by (simpl; lia).
  exact (proj1 (route_gives_legs sample_view 1 0 (waypoints sample_route) 0 0
                  [(1000, 1000); (2500, 2500)]%Z Hrow Hlen)).
Defined.
