(* ===== verification/StatusWrites.v ===== *)
(** * Status writes of one database row (packages/controllers/mission/server.py)

    The dispatcher stores a status either with an awaited write ([_write_status]) or with a queued one
    ([_queue_status_write], drained by [_status_write_loop]). All writes of a row go through one lock.
    This file models one [_StatusRow] with every coroutine that touches it: the drain loop and any
    number of awaited writers, interleaved at their awaits (taking the lock, the database call, the
    back-off). An action that is not enabled leaves the row as it is.

    A request is its sequence number. The database's answer is part of the action; a failure may have
    been applied or not. [committed] lists the requests whose write succeeded, in order; [excused] are
    the requests whose failure was reported: an awaited write that raised to its caller, or a queued
    one given up (row gone, not a database failure, shutdown, cancellation). *)

From S2P Require Import Prelude.
From stdpp Require Import sorting.

(** Where the drain loop is; the request it took from [pending] is in its hand. *)
Inductive loop_phase :=
| LoopTop                      (** at [while row.pending is not None] *)
| LoopLocking (seq : nat)      (** at [async with row.lock] *)
| LoopWriting (seq : nat)      (** in [update_status] *)
| LoopSleeping.                (** in the back-off *)

Inductive writer_phase := WLocking | WWriting.

Record StatusRow := mkRow {
  locked : bool;
  pending : option nat;
  req_seq : nat;                        (** [seq] *)
  written_seq : nat;
  task : option loop_phase;
  users : nat;
  writers : list (nat * writer_phase);  (** awaited writes *)
  alive : bool;
  committed : list nat;
  excused : list nat;
}.

(** [_StatusRow.__init__] *)
Definition new_row : StatusRow := mkRow false None 0 0 None 0 [] true [] [].

(** [_status_row] counts one more user, [_status_row_release] one less. *)
Definition set_users (r : StatusRow) (u : nat) : StatusRow :=
  mkRow (locked r) (pending r) (req_seq r) (written_seq r) (task r) u (writers r) (alive r)
    (committed r) (excused r).
Definition status_row (r : StatusRow) : StatusRow := set_users r (S (users r)).
Definition status_row_release (r : StatusRow) : StatusRow := set_users r (users r - 1).

Definition set_task (r : StatusRow) (lk : bool) (p : option nat) (t : option loop_phase) : StatusRow :=
  mkRow lk p (req_seq r) (written_seq r) t (users r) (writers r) (alive r) (committed r) (excused r).
(** The loop's [finally]: no task any more, its user released. *)
Definition end_task (r : StatusRow) (lk : bool) (p : option nat) : StatusRow :=
  status_row_release (set_task r lk p None).
Definition commit (r : StatusRow) (s : nat) : StatusRow :=
  mkRow (locked r) (pending r) (req_seq r) (Nat.max (written_seq r) s) (task r) (users r) (writers r)
    (alive r) (committed r ++ [s]) (excused r).
Definition excuse (r : StatusRow) (l : list nat) : StatusRow :=
  mkRow (locked r) (pending r) (req_seq r) (written_seq r) (task r) (users r) (writers r) (alive r)
    (committed r) (excused r ++ l).
Definition set_writers (r : StatusRow) (lk : bool) (w : list (nat * writer_phase)) : StatusRow :=
  mkRow lk (pending r) (req_seq r) (written_seq r) (task r) (users r) w (alive r) (committed r)
    (excused r).
(** An awaited writer returns: it leaves, releasing the lock and its user. *)
Definition end_writer (r : StatusRow) (i : nat) : StatusRow :=
  status_row_release (set_writers r false (delete i (writers r))).

(** What the database answered. *)
Inductive write_outcome :=
| WOk
| WGone                (** HTTP 404 or 400 *)
| WTransient           (** one of [STATUS_WRITE_TRANSIENT_ERRORS] *)
| WBug                 (** any other exception *)
| WCancelled.
#[export] Instance write_outcome_eq_dec : EqDecision write_outcome.
Proof. solve_decision. Defined.

(** [_queue_status_write] *)
Definition queue_write (r : StatusRow) : StatusRow :=
  if negb (alive r) then r
  else
    let r := status_row r in
    let s := S (req_seq r) in
    let r' := mkRow (locked r) (Some s) s (written_seq r) (task r) (users r) (writers r) (alive r)
                (committed r) (excused r) in
    match task r with
    | Some _ => status_row_release r'
    | None => set_task r' (locked r') (pending r') (Some LoopTop)
    end.

(** [_write_status] up to the lock. *)
Definition write_status (r : StatusRow) : StatusRow :=
  let r := status_row r in
  let s := S (req_seq r) in
  mkRow (locked r) (pending r) s (written_seq r) (task r) (users r) (writers r ++ [(s, WLocking)])
    (alive r) (committed r) (excused r).

(** An awaited writer gets the lock: it returns if a newer request has landed. *)
Definition writer_locks (r : StatusRow) (i : nat) : StatusRow :=
  match writers r !! i with
  | Some (s, WLocking) =>
      if locked r then r
      else if bool_decide (s < written_seq r) then end_writer r i
      else set_writers r true (<[i := (s, WWriting)]> (writers r))
  | _ => r
  end.

(** Its [update_status] returns or raises to the caller. *)
Definition writer_done (r : StatusRow) (i : nat) (o : write_outcome) : StatusRow :=
  match writers r !! i with
  | Some (s, WWriting) =>
      let r' := end_writer r i in
      match o with WOk => commit r' s | _ => excuse r' [s] end
  | _ => r
  end.

(** The loop reads [pending]; when there is none it ends. *)
Definition loop_top (r : StatusRow) : StatusRow :=
  match pending r with
  | Some s => set_task r (locked r) None (Some (LoopLocking s))
  | None => end_task r (locked r) None
  end.

(** The loop gets the lock: a stale request is skipped. *)
Definition loop_locks (r : StatusRow) (s : nat) : StatusRow :=
  if locked r then r
  else if bool_decide (s < written_seq r) then set_task r false (pending r) (Some LoopTop)
  else set_task r true (pending r) (Some (LoopWriting s)).

(** [update_status] of the loop returns. *)
Definition loop_done (r : StatusRow) (s : nat) (o : write_outcome) : StatusRow :=
  match o with
  | WOk => commit (set_task r false (pending r) (Some LoopTop)) s
  | WCancelled => excuse (end_task r false (pending r)) (s :: option_list (pending r))
  | WGone => excuse (end_task r false None) (s :: option_list (pending r))
  | WBug => excuse (set_task r false (pending r) (Some LoopTop)) [s]
  | WTransient =>
      let p := match pending r with Some p => Some p | None => Some s end in
      if alive r then set_task r false p (Some LoopSleeping)
      else excuse (end_task r false None) (s :: option_list (pending r))
  end.

(** The task is cancelled while it waits for the lock, sleeps or is about to start. *)
Definition loop_cancelled (r : StatusRow) (held : list nat) : StatusRow :=
  excuse (end_task r (locked r) (pending r)) (held ++ option_list (pending r)).

(** [shutdown]: [_alive] becomes false. *)
Definition shut_down (r : StatusRow) : StatusRow :=
  mkRow (locked r) (pending r) (req_seq r) (written_seq r) (task r) (users r) (writers r) false
    (committed r) (excused r).

Inductive row_action :=
| QueueWrite | WriteStatus
| WriterLocks (i : nat) | WriterDone (i : nat) (o : write_outcome)
| LoopStep                          (** from the top, from the lock, or after the back-off *)
| LoopDone (o : write_outcome)
| LoopCancelled
| ShutDown.

Definition row_step (r : StatusRow) (a : row_action) : StatusRow :=
  match a with
  | QueueWrite => queue_write r
  | WriteStatus => write_status r
  | WriterLocks i => writer_locks r i
  | WriterDone i o => writer_done r i o
  | LoopStep =>
      match task r with
      | Some LoopTop => loop_top r
      | Some (LoopLocking s) => loop_locks r s
      | Some LoopSleeping => set_task r (locked r) (pending r) (Some LoopTop)
      | _ => r
      end
  | LoopDone o => match task r with Some (LoopWriting s) => loop_done r s o | _ => r end
  | LoopCancelled =>
      match task r with
      | Some (LoopLocking s) => loop_cancelled r [s]
      | Some LoopTop | Some LoopSleeping => loop_cancelled r []
      | _ => r
      end
  | ShutDown => shut_down r
  end.

(** ** Invariant *)

(** The request the loop took from [pending]. *)
Definition in_hand (t : option loop_phase) : list nat :=
  match t with Some (LoopLocking s) | Some (LoopWriting s) => [s] | _ => [] end.

(** Requests somebody still works on. *)
Definition live (r : StatusRow) : list nat :=
  (if task r then option_list (pending r) else []) ++ in_hand (task r) ++ (writers r).*1.

(** Requests inside [update_status]. *)
Definition writing (w : list (nat * writer_phase)) : list nat :=
  omap (fun x => match x.2 with WWriting => Some x.1 | WLocking => None end) w.
Definition in_flight (r : StatusRow) : list nat :=
  match task r with Some (LoopWriting s) => [s] | _ => [] end ++ writing (writers r).

Definition settled (r : StatusRow) : bool :=
  match task r, writers r with None, [] => true | _, _ => false end.

Record row_ok (r : StatusRow) : Prop := {
  ok_lock : length (in_flight r) = if locked r then 1 else 0;
  ok_users : users r = length (writers r) + (if task r then 1 else 0);
  ok_nodup : NoDup (live r);
  ok_live : Forall (fun s => 0 < s <= req_seq r /\ s <> written_seq r) (live r);
  ok_flight : Forall (fun s => written_seq r <= s) (in_flight r);
  ok_written : written_seq r = 0 \/ written_seq r ∈ committed r;
  ok_committed : Forall (fun s => s <= written_seq r) (committed r);
  ok_req : written_seq r <= req_seq r;
  ok_sorted : StronglySorted lt (committed r);
  ok_excused : Forall (fun s => s <= req_seq r) (excused r);
  ok_pending : forall p s, task r <> None -> pending r = Some p -> s ∈ in_hand (task r) -> s < p;
  ok_cover : forall s, 0 < s <= req_seq r ->
    s <= written_seq r \/ exists s', s <= s' /\ (s' ∈ live r \/ s' ∈ excused r);
}.

Lemma writing_perm w w' : w ≡ₚ w' -> writing w ≡ₚ writing w'.
Proof. intros H. unfold writing. by rewrite H. Qed.

(** [pending] is newer than the request in hand. *)
Definition newer_pending (r : StatusRow) : Prop :=
  forall p s, task r <> None -> pending r = Some p -> s ∈ in_hand (task r) -> s < p.

(** A new request, the newest of all, possibly in place of one that waited. *)
Lemma row_ok_new r r' l :
  row_ok r -> live r' ≡ₚ S (req_seq r) :: l -> l ⊆+ live r ->
  in_flight r' = in_flight r -> locked r' = locked r ->
  users r' = length (writers r') + (if task r' then 1 else 0) ->
  req_seq r' = S (req_seq r) -> written_seq r' = written_seq r ->
  committed r' = committed r -> excused r' = excused r -> newer_pending r' -> row_ok r'.
Proof.
  intros [] Hl Hsub Hf Hk Hu Hq Hw Hc He Hp.
  assert (Hin : forall s, s ∈ l -> s ∈ live r) by (intros s Hs; by eapply elem_of_submseteq).
  rewrite Forall_forall in ok_live0.
  constructor; rewrite ?Hf, ?Hk, ?Hq, ?Hw, ?Hc, ?He; auto.
  - rewrite Hl. apply NoDup_cons; split.
    + intros H%Hin%ok_live0. lia.
    + apply submseteq_Permutation in Hsub as [k Hk']. rewrite Hk' in ok_nodup0.
      by apply NoDup_app in ok_nodup0 as [? _].
  - rewrite Hl. apply Forall_cons; split; [lia|]. apply Forall_forall.
    intros s H%Hin%ok_live0. lia.
  - eapply Forall_impl; [done|]. simpl. lia.
  - intros s Hs. right. exists (S (req_seq r)). split; [lia|]. left. rewrite Hl. by left.
Qed.

(** A request changes hands, is found stale, superseded or given up; nothing is committed. *)
Lemma row_ok_move r r' l :
  row_ok r -> live r' ⊆+ live r ->
  (forall s, s ∈ live r ->
     s <= written_seq r \/ exists s', s <= s' /\ (s' ∈ live r' \/ s' ∈ l)) ->
  Forall (fun s => s <= req_seq r) l ->
  Forall (fun s => written_seq r <= s) (in_flight r') ->
  length (in_flight r') = (if locked r' then 1 else 0) ->
  users r' = length (writers r') + (if task r' then 1 else 0) ->
  req_seq r' = req_seq r -> written_seq r' = written_seq r ->
  committed r' = committed r -> excused r' = excused r ++ l -> newer_pending r' -> row_ok r'.
Proof.
  intros [] Hsub Hcov Hl Hf Hk Hu Hq Hw Hc He Hp.
  constructor; rewrite ?Hq, ?Hw, ?Hc, ?He; auto.
  - apply submseteq_Permutation in Hsub as [k Hk']. rewrite Hk' in ok_nodup0.
    by apply NoDup_app in ok_nodup0 as [? _].
  - rewrite Forall_forall in *. intros s Hs. apply ok_live0. by eapply elem_of_submseteq.
  - by apply Forall_app.
  - intros s Hs. destruct (ok_cover0 s Hs) as [?|(s' & Hle & [Hs'|Hs'])]; [by left| |].
    + destruct (Hcov s' Hs') as [?|(s2 & ? & Hs2)]; [left; lia|].
      right. exists s2. split; [lia|]. rewrite elem_of_app. tauto.
    + right. exists s'. split; [done|]. rewrite elem_of_app. tauto.
Qed.

(** The write in flight lands. *)
Lemma row_ok_commit r r' s :
  row_ok r -> in_flight r = [s] -> live r ≡ₚ s :: live r' -> in_flight r' = [] -> locked r' = false ->
  users r' = length (writers r') + (if task r' then 1 else 0) ->
  req_seq r' = req_seq r -> written_seq r' = Nat.max (written_seq r) s ->
  committed r' = committed r ++ [s] -> excused r' = excused r -> newer_pending r' -> row_ok r'.
Proof.
  intros [] Hfl Hl Hf Hk Hu Hq Hw Hc He Hp.
  rewrite Hfl, Forall_singleton in ok_flight0.
  rewrite Hl in ok_live0, ok_nodup0. apply Forall_cons in ok_live0 as [Hs Hlive].
  apply NoDup_cons in ok_nodup0 as [Hnot Hnd].
  assert (Hmax : Nat.max (written_seq r) s = s) by lia. rewrite Hmax in Hw.
  constructor; rewrite ?Hf, ?Hk, ?Hq, ?Hw, ?Hc, ?He; auto; try lia.
  - rewrite Forall_forall in *. intros x Hx. specialize (Hlive x Hx).
    split; [lia|]. by intros ->.
  - right. apply elem_of_app. right. by apply list_elem_of_singleton.
  - apply Forall_app; split; [|by apply Forall_singleton].
    eapply Forall_impl; [done|]. simpl. lia.
  - apply StronglySorted_app_2; [|done|repeat constructor].
    rewrite Forall_forall in ok_committed0. intros x y Hx Hy%list_elem_of_singleton.
    specialize (ok_committed0 x Hx). lia.
  - intros x Hx. destruct (ok_cover0 x Hx) as [?|(s' & Hle & [Hs'|Hs'])]; [left; lia| |].
    + rewrite Hl in Hs'. apply elem_of_cons in Hs' as [->|Hs']; [by left|].
      right. exists s'. auto.
    + right. exists s'. auto.
Qed.

(** One awaited writer among the others. *)
Lemma live_writer r i s ph :
  writers r !! i = Some (s, ph) -> live r ≡ₚ s :: live (set_writers r false (delete i (writers r))).
Proof.
  intros Hi. unfold live; simpl. rewrite (delete_Permutation _ _ _ Hi) at 1. simpl.
  rewrite !app_assoc. symmetry. apply Permutation_middle.
Qed.

Lemma in_flight_writer r i s ph :
  writers r !! i = Some (s, ph) ->
  in_flight r ≡ₚ match ph with WWriting => [s] | WLocking => [] end
                ++ in_flight (set_writers r false (delete i (writers r))).
Proof.
  intros Hi. unfold in_flight; simpl.
  rewrite (writing_perm _ _ (delete_Permutation _ _ _ Hi)). destruct ph; [done|].
  simpl. symmetry. apply Permutation_middle.
Qed.

Lemma insert_perm_delete {A : Type} (l : list A) i x y :
  l !! i = Some x -> <[i := y]> l ≡ₚ y :: delete i l.
Proof.
  intros Hi. assert (i < length l) by eauto using lookup_lt_Some.
  rewrite insert_take_drop, delete_take_drop by done. symmetry. apply Permutation_middle.
Qed.

Lemma in_flight_unlocked r : row_ok r -> locked r = false -> in_flight r = [].
Proof. intros [] H. rewrite H in ok_lock0. by apply nil_length_inv. Qed.

Lemma in_flight_one r s : row_ok r -> s ∈ in_flight r -> in_flight r = [s] /\ locked r = true.
Proof.
  intros [] Hs. destruct (locked r); [|apply nil_length_inv in ok_lock0; rewrite ok_lock0 in Hs;
    by apply not_elem_of_nil in Hs].
  destruct (in_flight r) as [|x [|]]; [by apply not_elem_of_nil in Hs| |done].
  apply list_elem_of_singleton in Hs as ->. done.
Qed.

Lemma delete_length_lookup {A : Type} (l : list A) i x :
  l !! i = Some x -> length l = S (length (delete i l)).
Proof. intros H. by rewrite (delete_Permutation _ _ _ H) at 1. Qed.

Lemma newer_pending_same r r' :
  row_ok r -> task r' = task r -> pending r' = pending r -> newer_pending r'.
Proof. intros [] Ht Hp p s. rewrite Ht, Hp. apply ok_pending0. Qed.

Lemma queue_write_ok r : row_ok r -> row_ok (queue_write r).
Proof.
  intros Hr. unfold queue_write. destruct (alive r); [|done]. simpl.
  destruct (task r) as [t|] eqn:Ht.
  - eapply (row_ok_new r _ (in_hand (Some t) ++ (writers r).*1)); [done|..]; simpl; try done.
    + unfold live; rewrite Ht. by apply submseteq_inserts_l.
    + unfold in_flight; simpl. by rewrite Ht.
    + pose proof (ok_users r Hr) as H. rewrite Ht in H. lia.
    + intros p s _ [= <-] Hs. destruct Hr. rewrite Forall_forall in ok_live0.
      cut (s ∈ live r); [intros H%ok_live0; lia|].
      unfold live. rewrite Ht. set_solver.
  - eapply (row_ok_new r _ (writers r).*1); simpl; auto.
    + unfold live; rewrite Ht. done.
    + unfold in_flight; simpl. by rewrite Ht.
    + pose proof (ok_users r Hr) as H. rewrite Ht in H. lia.
    + intros p s _ _ Hs. by apply not_elem_of_nil in Hs.
Qed.

Lemma write_status_ok r : row_ok r -> row_ok (write_status r).
Proof.
  intros Hr. eapply (row_ok_new r _ (live r)); simpl; auto.
  - unfold live; simpl. rewrite fmap_app; simpl.
    by rewrite !app_assoc, (Permutation_app_comm _ [_]).
  - unfold in_flight, writing; simpl. by rewrite omap_app, app_nil_r.
  - rewrite length_app. simpl. destruct Hr. lia.
  - by eapply newer_pending_same.
Qed.

Lemma writer_locks_ok r i : row_ok r -> row_ok (writer_locks r i).
Proof.
  intros Hr. unfold writer_locks. destruct (writers r !! i) as [[s []]|] eqn:Hi; [|done..].
  destruct (locked r) eqn:Hk; [done|]. pose proof (in_flight_unlocked r Hr Hk) as Hf.
  pose proof (live_writer r i s _ Hi) as Hl. pose proof (in_flight_writer r i s _ Hi) as Hf'.
  rewrite Hf in Hf'. apply Permutation_nil_l in Hf'. simpl in Hf'.
  destruct (decide (s < written_seq r)) as [Hlt|Hge].
  - rewrite bool_decide_true by done. eapply (row_ok_move r _ []); simpl; auto.
    + rewrite Hl. by apply submseteq_cons.
    + intros x Hx. rewrite Hl in Hx. apply elem_of_cons in Hx as [->|Hx]; [left; lia|eauto].
    + change (in_flight (end_writer r i)) with (in_flight (set_writers r false (delete i (writers r)))).
      by rewrite <-Hf'.
    + change (in_flight (end_writer r i)) with (in_flight (set_writers r false (delete i (writers r)))).
      by rewrite <-Hf'.
    + rewrite (ok_users r Hr), (delete_length_lookup _ _ _ Hi). destruct (task r); lia.
    + by rewrite app_nil_r.
    + by eapply newer_pending_same.
  - rewrite bool_decide_false by done. pose proof (insert_perm_delete _ _ _ (s, WWriting) Hi) as Hins.
    assert (Hfl : in_flight (set_writers r true (<[i:=(s, WWriting)]> (writers r))) = [s]).
    { apply Permutation_singleton_r. unfold in_flight; simpl.
      rewrite (writing_perm _ _ Hins). simpl. rewrite <-Permutation_middle.
      unfold in_flight in Hf'; simpl in Hf'. unfold writing in Hf' |- *; simpl. by rewrite <-Hf'. }
    assert (Hlv : live (set_writers r true (<[i:=(s, WWriting)]> (writers r))) ≡ₚ live r).
    { rewrite Hl. unfold live; simpl. rewrite Hins. simpl.
      rewrite !app_assoc. symmetry. apply Permutation_middle. }
    eapply (row_ok_move r _ []); rewrite ?Hfl; simpl; auto.
    + by rewrite Hlv.
    + intros x Hx. right. exists x. split; [done|]. left. by rewrite Hlv.
    + apply Forall_singleton. lia.
    + rewrite length_insert. apply Hr.
    + by rewrite app_nil_r.
    + by eapply newer_pending_same.
Qed.

Lemma writer_done_ok r i o : row_ok r -> row_ok (writer_done r i o).
Proof.
  intros Hr. unfold writer_done. destruct (writers r !! i) as [[s []]|] eqn:Hi; [done| |done].
  pose proof (live_writer r i s _ Hi) as Hl. pose proof (in_flight_writer r i s _ Hi) as Hf.
  destruct (in_flight_one r s Hr) as [H1 Hk]. { rewrite Hf. by left. }
  rewrite H1 in Hf. simpl in Hf. apply Permutation_cons_inv, Permutation_nil_l in Hf.
  pose proof (delete_length_lookup _ _ _ Hi) as Hlen. pose proof (ok_users r Hr) as Hu.
  assert (Hs : s <= req_seq r).
  { pose proof (ok_live r Hr) as H. rewrite Hl in H. apply Forall_cons in H. lia. }
  destruct (decide (o = WOk)) as [->|Ho].
  - eapply (row_ok_commit r _ s); simpl; auto; [|by eapply newer_pending_same].
    destruct (task r); lia.
  - assert (row_ok (excuse (end_writer r i) [s])); [|by destruct o].
    eapply (row_ok_move r _ [s]); simpl; auto.
    + rewrite Hl. by apply submseteq_cons.
    + intros x Hx. rewrite Hl in Hx. right. exists x. split; [done|].
      apply elem_of_cons in Hx as [->|Hx]; [right; by left|by left].
    + change (in_flight _) with (in_flight (set_writers r false (delete i (writers r)))).
      by rewrite <-Hf.
    + change (in_flight _) with (in_flight (set_writers r false (delete i (writers r)))).
      by rewrite <-Hf.
    + destruct (task r); lia.
    + by eapply newer_pending_same.
Qed.

(** A live request was requested, and has not landed. *)
Lemma live_bounds r s : row_ok r -> s ∈ live r -> 0 < s <= req_seq r /\ s <> written_seq r.
Proof. intros []. rewrite Forall_forall in ok_live0. apply ok_live0. Qed.

(** The loop's task ends, giving up what it held and what waited. *)
Lemma end_task_ok r (lk : bool) p l :
  row_ok r -> task r <> None ->
  (forall s : nat, s ∈ option_list (pending r) ++ in_hand (task r) -> s ∈ l \/ s <= written_seq r) ->
  (forall s : nat, s ∈ l -> s ∈ live r) ->
  length (writing (writers r)) = (if lk then 1 else 0) ->
  row_ok (excuse (end_task r lk p) l).
Proof.
  intros Hr Ht Hall Hl Hk. pose proof (ok_users r Hr) as Hu. destruct (task r) as [t|] eqn:E; [|done].
  eapply (row_ok_move r _ l); simpl; auto.
  - unfold live; simpl. rewrite E, app_assoc. by apply submseteq_inserts_l.
  - intros s Hs. unfold live in Hs; rewrite E, app_assoc in Hs.
    apply elem_of_app in Hs as [[?|?]%Hall|Hs]; [right; exists s; auto|by left|].
    right. exists s. auto.
  - apply Forall_forall. intros s Hs%Hl. by apply (live_bounds r s Hr).
  - apply Forall_forall. intros s Hs. pose proof (ok_flight r Hr) as H. rewrite Forall_forall in H.
    apply H. unfold in_flight. apply elem_of_app. by right.
  - lia.
  - intros q s []. done.
Qed.

(** While the loop is not writing, the awaited writers hold the lock or nobody does. *)
Lemma writing_count r :
  row_ok r -> (forall s : nat, task r <> Some (LoopWriting s)) ->
  length (writing (writers r)) = if locked r then 1 else 0.
Proof.
  intros Hr Ht. rewrite <-(ok_lock r Hr). unfold in_flight.
  destruct (task r) as [[]|]; try done. by destruct (Ht seq).
Qed.

Lemma writing_none r s : row_ok r -> task r = Some (LoopWriting s) -> writing (writers r) = [].
Proof.
  intros Hr Ht. destruct (in_flight_one r s Hr) as [H _]; unfold in_flight in *; rewrite Ht in *.
  - by left.
  - by injection H.
Qed.

(** The loop goes on with another phase, nothing committed. *)
Lemma set_task_ok r (lk : bool) p t l :
  row_ok r -> task r <> None ->
  option_list p ++ in_hand (Some t) ⊆+ option_list (pending r) ++ in_hand (task r) ->
  (forall s : nat, s ∈ option_list (pending r) ++ in_hand (task r) ->
     s <= written_seq r \/ exists s', s <= s' /\ s' ∈ option_list p ++ in_hand (Some t) ++ l) ->
  (forall s : nat, s ∈ l -> s ∈ live r) ->
  (forall s : nat, t = LoopWriting s -> written_seq r <= s) ->
  length (in_flight (set_task r lk p (Some t))) = (if lk then 1 else 0) ->
  newer_pending (set_task r lk p (Some t)) ->
  row_ok (excuse (set_task r lk p (Some t)) l).
Proof.
  intros Hr Ht Hsub Hall Hl Hw Hk Hp. pose proof (ok_users r Hr) as Hu.
  destruct (task r) as [t0|] eqn:E; [|done].
  eapply (row_ok_move r _ l); simpl; auto.
  - unfold live; cbn [task set_task excuse pending writers]. rewrite E, !app_assoc.
    by apply submseteq_app.
  - intros s Hs. unfold live in Hs; rewrite E, app_assoc in Hs.
    apply elem_of_app in Hs as [[?|(s' & ? & Hs')]%Hall|Hs]; [by left| |].
    + right. exists s'. split; [done|]. unfold live; cbn [task set_task excuse pending writers].
      set_solver.
    + right. exists s. split; [done|]. left. unfold live; cbn [task set_task excuse pending writers].
      set_solver.
  - apply Forall_forall. intros s Hs%Hl. by apply (live_bounds r s Hr).
  - unfold in_flight; cbn [task set_task excuse writers]. apply Forall_app; split.
    + destruct t; try constructor; [by apply Hw|constructor].
    + apply Forall_forall. intros s Hs. pose proof (ok_flight r Hr) as H. rewrite Forall_forall in H.
      apply H. unfold in_flight. apply elem_of_app. by right.
Qed.

Lemma excuse_nil r : excuse r [] = r.
Proof. destruct r. unfold excuse; simpl. by rewrite app_nil_r. Qed.

Lemma in_flight_not_writing r lk p t :
  row_ok r -> task r <> None -> (forall s, task r <> Some (LoopWriting s)) ->
  (forall s, t <> LoopWriting s) ->
  length (in_flight (set_task r lk p (Some t))) = if locked r then 1 else 0.
Proof.
  intros Hr _ Ht Hn. rewrite <-(writing_count r Hr Ht). unfold in_flight; simpl.
  destruct t; try done. by destruct (Hn seq).
Qed.

Lemma loop_top_ok r : row_ok r -> task r = Some LoopTop -> row_ok (loop_top r).
Proof.
  intros Hr Ht. unfold loop_top. destruct (pending r) as [s|] eqn:Hp.
  - rewrite <-(excuse_nil (set_task _ _ _ _)). apply set_task_ok; rewrite ?Hp, ?Ht; simpl; try done.
    + intros x Hx. right. exists x. auto.
    + intros x Hx. by apply not_elem_of_nil in Hx.
    + apply in_flight_not_writing; by rewrite ?Ht.
  - rewrite <-(excuse_nil (end_task _ _ _)). apply end_task_ok; rewrite ?Hp, ?Ht; simpl; try done.
    + intros x Hx. by apply not_elem_of_nil in Hx.
    + intros x Hx. by apply not_elem_of_nil in Hx.
    + apply writing_count; [done|by rewrite Ht].
Qed.

Lemma loop_locks_ok r s : row_ok r -> task r = Some (LoopLocking s) -> row_ok (loop_locks r s).
Proof.
  intros Hr Ht. unfold loop_locks. destruct (locked r) eqn:Hk; [done|].
  destruct (decide (s < written_seq r)) as [Hlt|Hge].
  - rewrite bool_decide_true by done. rewrite <-(excuse_nil (set_task _ _ _ _)).
    apply set_task_ok; rewrite ?Ht; simpl; try done.
    + apply submseteq_app; [done|]. apply submseteq_nil_l.
    + intros x [Hx|Hx%list_elem_of_singleton]%elem_of_app; [right; exists x|left; subst; lia].
      split; [done|]. by apply elem_of_app; left.
    + intros x Hx. by apply not_elem_of_nil in Hx.
    + rewrite in_flight_not_writing by (by rewrite ?Ht). by rewrite Hk.
    + intros p x _ _ Hx. by apply not_elem_of_nil in Hx.
  - rewrite bool_decide_false by done. rewrite <-(excuse_nil (set_task _ _ _ _)).
    apply set_task_ok; rewrite ?Ht; simpl; try done.
    + intros x Hx. right. exists x. auto.
    + intros x Hx. by apply not_elem_of_nil in Hx.
    + intros x [= ->]. lia.
    + unfold in_flight; simpl. f_equal. rewrite writing_count, Hk; [done..|by rewrite Ht].
    + intros p x _ Hp Hx. eapply (ok_pending r Hr); rewrite ?Ht; done.
Qed.

Lemma loop_done_ok r s o : row_ok r -> task r = Some (LoopWriting s) -> row_ok (loop_done r s o).
Proof.
  intros Hr Ht. pose proof (writing_none r s Hr Ht) as Hw.
  assert (Hall : forall x, x ∈ s :: option_list (pending r) -> x ∈ live r).
  { intros x Hx. unfold live. rewrite Ht. set_solver. }
  assert (Hend : forall p, row_ok (excuse (end_task r false p) (s :: option_list (pending r)))).
  { intros p. apply end_task_ok; rewrite ?Ht, ?Hw; simpl; try done. set_solver. }
  destruct o; simpl; [|done|..|done].
  - eapply (row_ok_commit r _ s); simpl; try done.
    + unfold in_flight. by rewrite Ht, Hw.
    + unfold live; simpl. rewrite Ht. simpl. symmetry. apply Permutation_middle.
    + rewrite (ok_users r Hr), Ht. done.
    + intros p x _ _ Hx. by apply not_elem_of_nil in Hx.
  - destruct (alive r); [|done]. rewrite <-(excuse_nil (set_task _ _ _ _)).
    apply set_task_ok; rewrite ?Ht; simpl; try done.
    + destruct (pending r); simpl; repeat constructor.
    + intros x Hx. right. destruct (pending r) as [q|] eqn:Hp; simpl in *.
      * exists q. split; [|by left].
        apply elem_of_cons in Hx as [->|Hx%list_elem_of_singleton]; [done|]. subst.
        apply Nat.lt_le_incl. eapply (ok_pending r Hr); rewrite ?Ht; [done..|by left].
      * exists x. auto.
    + intros x Hx. by apply not_elem_of_nil in Hx.
    + unfold in_flight; simpl. by rewrite Hw.
    + intros p x _ _ Hx. by apply not_elem_of_nil in Hx.
  - apply set_task_ok; rewrite ?Ht; simpl; try done.
    + apply submseteq_app; [done|]. apply submseteq_nil_l.
    + intros x Hx. right. exists x. auto.
    + intros x Hx. apply Hall. set_solver.
    + unfold in_flight; simpl. by rewrite Hw.
    + intros p x _ _ Hx. by apply not_elem_of_nil in Hx.
Qed.

Lemma loop_cancelled_ok r l :
  row_ok r -> task r <> None -> (forall s, task r <> Some (LoopWriting s)) -> l = in_hand (task r) ->
  row_ok (loop_cancelled r l).
Proof.
  intros Hr Ht Hn ->. apply end_task_ok; auto using writing_count.
  - intros s Hs. left. set_solver.
  - intros s Hs. unfold live. destruct (task r); [set_solver|done].
Qed.

Lemma row_step_ok r a : row_ok r -> row_ok (row_step r a).
Proof.
  intros Hr. destruct a; simpl.
  - by apply queue_write_ok.
  - by apply write_status_ok.
  - by apply writer_locks_ok.
  - by apply writer_done_ok.
  - destruct (task r) as [[]|] eqn:Ht; try done; [by apply loop_top_ok|by apply loop_locks_ok|].
    rewrite <-(excuse_nil (set_task _ _ _ _)). apply set_task_ok; rewrite ?Ht; simpl; try done.
    + intros x Hx. right. exists x. auto.
    + intros x Hx. by apply not_elem_of_nil in Hx.
    + apply in_flight_not_writing; by rewrite ?Ht.
    + intros p x _ _ Hx. by apply not_elem_of_nil in Hx.
  - destruct (task r) as [[]|] eqn:Ht; try done. by apply loop_done_ok.
  - destruct (task r) as [[]|] eqn:Ht; try done; apply loop_cancelled_ok; by rewrite ?Ht.
  - destruct Hr. by constructor.
Qed.

Lemma row_ok_reachable r : reachable row_step new_row r -> row_ok r.
Proof.
  apply reachable_inv; [|by auto using row_step_ok].
  constructor; simpl; auto using StronglySorted, NoDup_nil_2; try done; intros; lia.
Qed.

(** The writes of a row that land, land in the order they were requested: an older status never
    overwrites a newer one, however the awaited and the queued writes interleave, fail, are cancelled
    or overlap shutdown. *)
Theorem status_commits_ordered r :
  reachable row_step new_row r -> StronglySorted lt (committed r).
Proof. intros Hr. apply (row_ok_reachable r Hr). Qed.

(** C28: no update is lost: when nobody works on the row any more, the newest status requested has
    landed, or its failure was reported. *)
Theorem newest_status_lands r :
  reachable row_step new_row r -> settled r = true -> 0 < req_seq r ->
  req_seq r ∈ committed r \/ req_seq r ∈ excused r.
Proof.
  intros Hr%row_ok_reachable Hs Hq. unfold settled in Hs.
  destruct (task r) eqn:Ht, (writers r) eqn:Hw; try done.
  destruct (ok_cover r Hr (req_seq r)) as [Hle|(s & Hle & [Hl|He])]; [lia|..].
  - left. destruct (ok_written r Hr); [lia|]. by replace (req_seq r) with (written_seq r)
      by (pose proof (ok_req r Hr); lia).
  - unfold live in Hl. rewrite Ht, Hw in Hl. by apply not_elem_of_nil in Hl.
  - right. pose proof (ok_excused r Hr) as H. rewrite Forall_forall in H. specialize (H s He).
    by replace (req_seq r) with s by lia.
Qed.

(** At most one write of a row is in flight, and then the lock is held; the row's user count is
    the number of coroutines using it, so its entry is dropped (count 0) only when it is settled. *)
Theorem status_row_exclusive r :
  reachable row_step new_row r ->
  length (in_flight r) = (if locked r then 1 else 0) /\ (users r = 0 <-> settled r = true).
Proof.
  intros Hr%row_ok_reachable. split; [apply Hr|]. rewrite (ok_users r Hr). unfold settled.
  destruct (task r), (writers r); simpl; split; intros; try done; lia.
Qed.

(** A queued write fails once while an awaited one is made; the awaited write lands first and the
    retry is found stale. *)
Definition row_trace : list row_action :=
  [QueueWrite; LoopStep; LoopStep; WriteStatus; LoopDone WTransient; WriterLocks 0; WriterDone 0 WOk;
   LoopStep; LoopStep; LoopStep; LoopStep; QueueWrite; LoopStep; LoopStep; LoopDone WOk; LoopStep].

Lemma status_commits_ordered_witness :
  committed (foldl row_step new_row row_trace) = [2; 3]
  /\ StronglySorted lt (committed (foldl row_step new_row row_trace)).
Proof. split; [vm_compute; reflexivity|]. apply status_commits_ordered, reachable_foldl. Defined.

Lemma newest_status_lands_witness :
  let r := foldl row_step new_row row_trace in
  req_seq r = 3 /\ (req_seq r ∈ committed r \/ req_seq r ∈ excused r).
Proof.
  split; [vm_compute; reflexivity|].
  apply newest_status_lands; [apply reachable_foldl|vm_compute; reflexivity|].
  apply Nat.ltb_lt. vm_compute. reflexivity.
Defined.

Lemma status_row_exclusive_witness :
  let r := foldl row_step new_row (take 3 row_trace) in
  in_flight r = [1]
  /\ (length (in_flight r) = (if locked r then 1 else 0) /\ (users r = 0 <-> settled r = true)).
Proof. split; [vm_compute; reflexivity|]. apply status_row_exclusive, reachable_foldl. Defined.
