(* ===== verification/MessageQueue.v ===== *)
(** * Newest-wins message queues (packages/controllers/mission/server.py)

    Robot states are cumulative, so a consumer that is behind handles the newest one only. Two queues
    do this with a shared mutable [_StateSlot] that both the queue and the producer's bookkeeping
    point to:
    - [Robot.send_message] and the head of [Robot.run]: one robot's message loop ([RobotQueue]);
    - [RobotServer._enqueue_now] and the head of [RobotServer._handle_mqtt_messages]: the broker's
      queue, shared by all robots ([BrokerQueue]).
    Slots live in a store by identity, as the objects do: [is] compares identities, and an assignment
    to [slot.msg] is seen through the queue. Both producers run on the event loop without awaiting
    (the queues are unbounded), so each operation is one step. *)

From S2P Require Import Prelude.

Lemma filter_keep1 {A : Type} (P : A -> Prop) `{!forall x, Decision (P x)} m :
  P m -> filter P [m] = [m].
Proof. intros. by rewrite filter_cons_True. Qed.

Lemma filter_drop1 {A : Type} (P : A -> Prop) `{!forall x, Decision (P x)} m :
  ~ P m -> filter P [m] = [].
Proof. intros. by rewrite filter_cons_False. Qed.

Lemma filter_ext_in {A : Type} (P Q : A -> Prop) `{!forall x, Decision (P x), !forall x, Decision (Q x)}
    (l : list A) : (forall x, x ∈ l -> P x <-> Q x) -> filter P l = filter Q l.
Proof.
  induction l as [|x l IH]; intros Hi; [done|].
  assert (filter P l = filter Q l) as E. { apply IH. intros y Hy. apply Hi. by right. }
  destruct (decide (P x)).
  - rewrite !filter_cons_True by (try rewrite <-Hi by left; done). by rewrite E.
  - rewrite !filter_cons_False by (try rewrite <-Hi by left; done). by rewrite E.
Qed.

(** No two neighbours satisfy [p]. *)
Fixpoint spaced {A : Type} (p : A -> bool) (l : list A) : bool :=
  match l with
  | x :: ((y :: _) as t) => negb (p x && p y) && spaced p t
  | _ => true
  end.

Lemma spaced_cons {A : Type} (p : A -> bool) x l : spaced p (x :: l) = true -> spaced p l = true.
Proof. destruct l; [done|]. simpl. by intros [_ ?]%andb_true_iff. Qed.

Lemma spaced_snoc {A : Type} (p : A -> bool) l x :
  spaced p l = true -> (forall y, last l = Some y -> p y = true -> p x = false) ->
  spaced p (l ++ [x]) = true.
Proof.
  induction l as [|y l IH]; intros Hl Hx; [done|]. destruct l as [|z l].
  - simpl. destruct (p y) eqn:E; [|done]. by rewrite (Hx y).
  - assert (spaced p ((z :: l) ++ [x]) = true) as H.
    { apply IH; [by eapply spaced_cons|]. intros w Hw. apply Hx. by rewrite last_cons, Hw. }
    simpl in *. apply andb_true_iff in Hl as [-> _]. done.
Qed.

Lemma spaced_app_l {A : Type} (p : A -> bool) l x : spaced p (l ++ [x]) = true -> spaced p l = true.
Proof.
  induction l as [|y l IH]; intros H; [done|]. destruct l as [|z l]; [done|].
  simpl in *. apply andb_true_iff in H as [-> H]. by apply IH.
Qed.

Lemma spaced_length {A : Type} (p : A -> bool) l :
  spaced p l = true ->
  length l <= 2 * length (filter (fun x => p x = false) l)
              + match l with x :: _ => if p x then 1 else 0 | [] => 0 end.
Proof.
  induction l as [|x l IH]; intros H; [done|]. specialize (IH (spaced_cons p x l H)).
  destruct (p x) eqn:E.
  - rewrite filter_cons_False by congruence. destruct l as [|y l]; simpl in *; [lia|].
    rewrite E in H. destruct (p y); simpl in *; [done|lia].
  - rewrite filter_cons_True by done. destruct l as [|y l]; simpl in *; [lia|].
    destruct (p y); lia.
Qed.

(** ** One robot's message loop *)

Module RobotQueue.

(** What [send_message] distinguishes: a VDA5050 state, or anything else. *)
Inductive message := State (payload : nat) | Other (payload : nat).
#[export] Instance message_eq_dec : EqDecision message.
Proof. solve_decision. Defined.

Definition is_state (m : message) : bool := match m with State _ => true | Other _ => false end.

Inductive item := Slot (id : nat) | Msg (m : message).

Record queue := mkQueue {
  items : list item;                    (** [_messages] *)
  slots : gmap nat (option message);    (** [_StateSlot.msg] of every slot made *)
  fresh_id : nat;
  state_slot : option nat;
  queue_tail : option nat;
  states_coalesced : nat;
}.

Definition empty_queue : queue := mkQueue [] ∅ 0 None None 0.

Definition new_slot (q : queue) (m : message) (store : gmap nat (option message)) (n : nat) : queue :=
  let i := fresh_id q in
  mkQueue (items q ++ [Slot i]) (<[i := Some m]> store) (S i) (Some i) (Some i) n.

Definition send_message (q : queue) (m : message) : queue :=
  if is_state m then
    match state_slot q with
    | Some slot =>
        let n := S (states_coalesced q) in
        if bool_decide (queue_tail q = Some slot) then
          mkQueue (items q) (<[slot := Some m]> (slots q)) (fresh_id q) (state_slot q) (queue_tail q) n
        else new_slot q m (<[slot := None]> (slots q)) n
    | None => new_slot q m (slots q) (states_coalesced q)
    end
  else mkQueue (items q ++ [Msg m]) (slots q) (fresh_id q) (state_slot q) None (states_coalesced q).

(** What one turn of the loop does with the message it gets. *)
Inductive turn := Blocked | Skipped | Handled (m : message).

Definition forget (slot : nat) (o : option nat) : option nat :=
  if bool_decide (o = Some slot) then None else o.

Definition run_turn (q : queue) : queue * turn :=
  match items q with
  | [] => (q, Blocked)
  | Msg m :: l =>
      (mkQueue l (slots q) (fresh_id q) (state_slot q) (queue_tail q) (states_coalesced q), Handled m)
  | Slot i :: l =>
      (mkQueue l (slots q) (fresh_id q) (forget i (state_slot q)) (forget i (queue_tail q))
         (states_coalesced q),
       match slots q !! i with Some (Some m) => Handled m | _ => Skipped end)
  end.

(** *** The contract: a list of messages in which a state replaces the one before it *)

Definition spec_send (l : list message) (m : message) : list message :=
  if is_state m then filter (fun x => is_state x = false) l ++ [m] else l ++ [m].

(** What the queue stands for: its messages, the emptied slots left out. *)
Definition content (store : gmap nat (option message)) (x : item) : option message :=
  match x with Slot i => mjoin (store !! i) | Msg m => Some m end.
Definition abs (q : queue) : list message := omap (content (slots q)) (items q).

(** *** Invariant *)

Definition slot_ids (l : list item) : list nat :=
  omap (fun x => match x with Slot i => Some i | Msg _ => None end) l.

Record queue_ok (q : queue) : Prop := {
  ok_ids : NoDup (slot_ids (items q));
  ok_fresh : Forall (fun i => i < fresh_id q) (slot_ids (items q));
  ok_msgs : Forall (fun x => match x with Msg m => is_state m = false | Slot _ => True end) (items q);
  ok_full : forall i, state_slot q = Some i ->
    i ∈ slot_ids (items q) /\ exists p, slots q !! i = Some (Some (State p));
  ok_emptied : forall i, i ∈ slot_ids (items q) -> state_slot q <> Some i ->
    slots q !! i = Some None;
  ok_tail : forall i, last (items q) = Some (Slot i) <-> queue_tail q = Some i;
  ok_tail_open : forall i, queue_tail q = Some i -> state_slot q = Some i;
}.

(** The queue's messages that are not states. *)
Definition others (l : list item) : list message :=
  omap (fun x => match x with Msg m => Some m | Slot _ => None end) l.

Definition is_slot (x : item) : bool := match x with Slot _ => true | Msg _ => false end.

Lemma slot_ids_app l1 l2 : slot_ids (l1 ++ l2) = slot_ids l1 ++ slot_ids l2.
Proof. apply omap_app. Qed.

Lemma content_emptied store l :
  (forall i, i ∈ slot_ids l -> mjoin (store !! i) = None) -> omap (content store) l = others l.
Proof.
  induction l as [|[i|m] l IH]; intros H; [done| |]; unfold others; cbn.
  - rewrite (H i) by left. apply IH. intros j Hj. apply H. by right.
  - f_equal. apply IH. intros j Hj. by apply H.
Qed.

Lemma filter_others q :
  queue_ok q -> filter (fun x => is_state x = false) (abs q) = others (items q).
Proof.
  intros []. unfold abs.
  assert (Hs : forall i, i ∈ slot_ids (items q) ->
    forall m, mjoin (slots q !! i) = Some m -> is_state m = true).
  { intros i Hi m Hm. destruct (decide (state_slot q = Some i)) as [E|E].
    - destruct (ok_full0 i E) as (_ & p & Hp). rewrite Hp in Hm. by simplify_eq/=.
    - rewrite (ok_emptied0 i Hi E) in Hm. done. }
  clear -Hs ok_msgs0. induction (items q) as [|[i|m] l IH]; [done| |]; unfold others; cbn.
  - apply Forall_cons in ok_msgs0 as [_ Hl].
    assert (filter (fun x => is_state x = false) (omap (content (slots q)) l) = others l) as IH'.
    { apply IH; [done|]. intros j Hj. apply Hs. by right. }
    destruct (mjoin (slots q !! i)) as [m|] eqn:E; [|done].
    change (filter (fun x => is_state x = false) (m :: omap (content (slots q)) l) = others l).
    rewrite filter_cons_False; [done|]. by rewrite (Hs i ltac:(by left) m E).
  - apply Forall_cons in ok_msgs0 as [Hm Hl].
    change (filter (fun x => is_state x = false) (m :: omap (content (slots q)) l) = m :: others l).
    rewrite filter_cons_True by done. f_equal. by apply IH.
Qed.

Lemma last_slot q i : last (items q) = Some (Slot i) -> exists l, items q = l ++ [Slot i].
Proof. intros [l Hl]%last_Some. eauto. Qed.

(** When the open slot is not the queue's last item, no slot is. *)
Lemma no_last_slot q :
  queue_ok q -> (forall s, state_slot q = Some s -> queue_tail q <> Some s) ->
  queue_tail q = None /\ forall i, last (items q) <> Some (Slot i).
Proof.
  intros [] H. assert (queue_tail q = None) as Hn.
  { destruct (queue_tail q) as [i|] eqn:E; [|done]. by destruct (H i (ok_tail_open0 i eq_refl)). }
  split; [done|]. intros i Hi%ok_tail0. congruence.
Qed.

(** A new slot at the end, every older one emptied. *)
Lemma new_slot_ok q m store n :
  queue_ok q -> is_state m = true ->
  (forall i, i ∈ slot_ids (items q) -> store !! i = Some None) ->
  queue_ok (new_slot q m store n) /\ abs (new_slot q m store n) = others (items q) ++ [m].
Proof.
  intros [] Hm Hst. destruct m as [p|]; [|done]. rewrite Forall_forall in ok_fresh0.
  split; [constructor|]; simpl.
  - rewrite slot_ids_app. apply NoDup_app. split_and!; [done| |by apply NoDup_singleton].
    intros i Hi%ok_fresh0 ->%list_elem_of_singleton. lia.
  - rewrite slot_ids_app. apply Forall_app; split; [|by repeat constructor].
    apply Forall_forall. intros i Hi%ok_fresh0. lia.
  - apply Forall_app; split; [done|by repeat constructor].
  - intros i [= <-]. rewrite slot_ids_app, lookup_insert_eq. split; [|eauto].
    apply elem_of_app. right. by left.
  - intros i Hi Hne. rewrite slot_ids_app in Hi. apply elem_of_app in Hi as [Hi|Hi].
    + rewrite lookup_insert_ne; [by apply Hst|]. apply ok_fresh0 in Hi. lia.
    + apply list_elem_of_singleton in Hi as ->. done.
  - intros i. rewrite last_snoc. naive_solver.
  - done.
  - unfold abs; simpl. rewrite omap_app, content_emptied; cbn.
    + by rewrite lookup_insert_eq.
    + intros i Hi. rewrite lookup_insert_ne; [by rewrite Hst|].
      apply ok_fresh0 in Hi. lia.
Qed.

Lemma send_message_ok q m :
  queue_ok q -> queue_ok (send_message q m) /\ abs (send_message q m) = spec_send (abs q) m.
Proof.
  intros Hq. unfold send_message, spec_send. destruct (is_state m) eqn:Hm.
  - rewrite filter_others by done. destruct (state_slot q) as [s|] eqn:Hs.
    + destruct (decide (queue_tail q = Some s)) as [Ht|Ht].
      * rewrite bool_decide_true by done. destruct Hq.
        destruct (last_slot q s) as [l Hl]; [by apply ok_tail0|].
        destruct m as [p|]; [|done]. split.
        -- constructor; simpl; auto.
           ++ intros i [= <-]. rewrite lookup_insert_eq. split; [|eauto].
              by apply ok_full0.
           ++ intros i Hi Hne. rewrite lookup_insert_ne by congruence.
              apply ok_emptied0; congruence.
           ++ intros i Hi. apply ok_tail_open0 in Hi. congruence.
        -- unfold abs; simpl. rewrite Hl in *. rewrite omap_app, content_emptied.
           ++ unfold others. rewrite omap_app. cbn. by rewrite lookup_insert_eq, app_nil_r.
           ++ rewrite slot_ids_app in *. apply NoDup_app in ok_ids0 as (_ & Hd & _).
              intros i Hi. rewrite lookup_insert_ne.
              ** rewrite ok_emptied0; [done|apply elem_of_app; by left|].
                 rewrite Hs. intros [= ->]. apply (Hd i Hi). by left.
              ** intros ->. apply (Hd i Hi). by left.
      * rewrite bool_decide_false by done. apply new_slot_ok; [done..|].
        intros i Hi. destruct (decide (s = i)) as [->|Hne]; [by rewrite lookup_insert_eq|].
        rewrite lookup_insert_ne by done. apply (ok_emptied q Hq i Hi). congruence.
    + apply new_slot_ok; [done..|]. intros i Hi. apply (ok_emptied q Hq i Hi). congruence.
  - destruct Hq. split; [constructor|]; simpl; rewrite ?slot_ids_app, ?app_nil_r; auto.
    + apply Forall_app; split; [done|by repeat constructor].
    + intros i. rewrite last_snoc. done.
    + done.
    + unfold abs; simpl. by rewrite omap_app.
Qed.

(** A turn hands over the oldest message, or steps over an emptied slot. *)
Lemma run_turn_ok q :
  queue_ok q ->
  queue_ok (run_turn q).1
  /\ match (run_turn q).2 with
     | Blocked => items q = [] /\ abs q = [] /\ (run_turn q).1 = q
     | Skipped => abs q = abs (run_turn q).1
     | Handled m => abs q = m :: abs (run_turn q).1
     end.
Proof.
  intros Hq. unfold run_turn. destruct (items q) as [|[i|m] l] eqn:Hl; simpl.
  - split; [done|]. unfold abs. by rewrite Hl.
  - assert (Hni : i ∉ slot_ids l).
    { destruct Hq. rewrite Hl in ok_ids0. by apply NoDup_cons in ok_ids0 as [? _]. }
    split.
    + destruct Hq. rewrite Hl in *. constructor; simpl in *.
      * by apply NoDup_cons in ok_ids0 as [_ ?].
      * by apply Forall_cons in ok_fresh0 as [_ ?].
      * by apply Forall_cons in ok_msgs0 as [_ ?].
      * intros j. unfold forget. destruct (decide (state_slot q = Some i)) as [E|E].
        -- by rewrite bool_decide_true.
        -- rewrite bool_decide_false by done. intros [Hin ?]%ok_full0. split; [|done].
           apply elem_of_cons in Hin as [->|?]; [|done].
           exfalso. apply E. destruct (decide (state_slot q = Some i)) as [|N]; [done|].
           destruct H as [p Hp]. rewrite (ok_emptied0 i) in Hp; [done|by left|done].
      * intros j Hj Hne. apply ok_emptied0; [by right|]. intros E. apply Hne.
        unfold forget. rewrite bool_decide_false; [done|]. rewrite E. intros [= ->]. done.
      * intros j. unfold forget. destruct (decide (queue_tail q = Some i)) as [E|E].
        -- rewrite bool_decide_true by done. split; [|done].
           intros Hj. apply ok_tail0 in E. rewrite last_cons, Hj in E. simplify_eq.
           apply last_Some in Hj as [l' ->]. destruct Hni. rewrite slot_ids_app.
           apply elem_of_app. right. by left.
        -- rewrite bool_decide_false by done. rewrite <-ok_tail0, last_cons.
           destruct (last l) eqn:El; [done|]. split; [done|]. intros [= ->].
           destruct E. apply ok_tail0. by rewrite last_cons, El.
      * intros j. unfold forget. destruct (decide (queue_tail q = Some i)) as [E|E].
        -- by rewrite bool_decide_true.
        -- rewrite bool_decide_false by done. intros Hj. rewrite bool_decide_false.
           ++ by apply ok_tail_open0.
           ++ rewrite (ok_tail_open0 j Hj). intros [= ->]. done.
    + unfold abs; simpl. rewrite Hl. cbn. destruct (slots q !! i) as [[m|]|]; done.
  - split.
    + destruct Hq. rewrite Hl in *. constructor; simpl in *; auto.
      * by apply Forall_cons in ok_msgs0 as [_ ?].
      * intros i. rewrite <-ok_tail0, last_cons. by destruct (last l).
    + unfold abs; simpl. by rewrite Hl.
Qed.

(** *** Traces: any interleaving of sends and turns *)

Inductive action := Send (m : message) | Turn.

(** The queue and the messages handled so far. *)
Definition step (s : queue * list message) (a : action) : queue * list message :=
  match a with
  | Send m => (send_message s.1 m, s.2)
  | Turn => let (q, t) := run_turn s.1 in (q, s.2 ++ match t with Handled m => [m] | _ => [] end)
  end.
Definition exec (es : list action) : queue * list message := foldl step (empty_queue, []) es.
Definition sent (es : list action) : list message :=
  omap (fun a => match a with Send m => Some m | Turn => None end) es.

Definition newest_state (l : list message) : option message :=
  last (filter (fun m => is_state m = true) l).
Definition not_states (l : list message) : list message := filter (fun m => is_state m = false) l.

Lemma empty_queue_ok : queue_ok empty_queue.
Proof.
  constructor; simpl; auto using NoDup_nil_2, Forall_nil_2; try done.
  intros i Hi. by apply not_elem_of_nil in Hi.
Qed.

Lemma exec_snoc es a : exec (es ++ [a]) = step (exec es) a.
Proof. unfold exec. by rewrite foldl_app. Qed.

Lemma sent_snoc es a : sent (es ++ [a]) = sent es ++ match a with Send m => [m] | Turn => [] end.
Proof. unfold sent. rewrite omap_app. by destruct a. Qed.

Lemma exec_ok es : queue_ok (exec es).1.
Proof.
  induction es as [|a es IH] using rev_ind; [apply empty_queue_ok|].
  rewrite exec_snoc. destruct a; simpl; [by apply send_message_ok|].
  pose proof (run_turn_ok _ IH) as [H _]. by destruct (run_turn _).
Qed.

Lemma turn_total q h :
  queue_ok q -> (step (q, h) Turn).2 ++ abs (step (q, h) Turn).1 = h ++ abs q.
Proof.
  intros [_ H]%run_turn_ok. simpl. destruct (run_turn q) as [q' []]; simpl in *.
  - destruct H as (_ & _ & ->). by rewrite app_nil_r.
  - by rewrite H, app_nil_r.
  - by rewrite H, <-app_assoc.
Qed.

Lemma spec_send_facts h l m :
  h ++ spec_send l m `sublist_of` (h ++ l) ++ [m]
  /\ not_states (h ++ spec_send l m) = not_states ((h ++ l) ++ [m])
  /\ (is_state m = true -> newest_state (h ++ spec_send l m) = Some m).
Proof.
  unfold spec_send, not_states, newest_state. destruct (is_state m) eqn:Hm.
  - rewrite <-app_assoc. split_and!.
    + apply sublist_app; [done|]. apply sublist_app; [apply sublist_filter|done].
    + rewrite !filter_app. do 2 f_equal. by apply list_filter_filter_l.
    + intros _. rewrite !filter_app, (filter_keep1 _ m) by done.
      by rewrite !app_assoc, last_snoc.
  - by rewrite <-app_assoc.
Qed.

Lemma exec_total es :
  let all := (exec es).2 ++ abs (exec es).1 in
  all `sublist_of` sent es /\ not_states all = not_states (sent es)
  /\ newest_state all = newest_state (sent es).
Proof.
  induction es as [|a es IH] using rev_ind; [done|].
  pose proof (exec_ok es) as Hok. rewrite exec_snoc, sent_snoc. simpl in IH |- *.
  destruct (exec es) as [q h]. simpl in *. destruct IH as (IH1 & IH2 & IH3). destruct a as [m|].
  - destruct (spec_send_facts h (abs q) m) as (H1 & H2 & H3). simpl.
    destruct (send_message_ok q m Hok) as [_ ->]. split_and!.
    + etrans; [done|]. by apply sublist_app.
    + rewrite H2. unfold not_states in *. rewrite filter_app, IH2. by rewrite filter_app.
    + destruct (is_state m) eqn:Hm; unfold newest_state in *.
      * rewrite H3 by done. rewrite filter_app, (filter_keep1 _ m) by done. by rewrite last_snoc.
      * unfold spec_send. rewrite Hm, app_assoc, filter_app, (filter_app _ (sent es)).
        rewrite (filter_drop1 _ m) by by rewrite Hm. by rewrite !app_nil_r.
  - rewrite turn_total by done. by rewrite app_nil_r.
Qed.

Lemma exec_spaced es : spaced is_slot (items (exec es).1) = true.
Proof.
  induction es as [|a es IH] using rev_ind; [done|]. pose proof (exec_ok es) as Hok.
  rewrite exec_snoc. destruct (exec es) as [q h]. simpl in *. destruct a as [m|]; simpl.
  - assert (Hnew : (forall s, state_slot q = Some s -> queue_tail q <> Some s) ->
      spaced is_slot (items q ++ [Slot (fresh_id q)]) = true).
    { intros H%no_last_slot; [|done]. apply spaced_snoc; [done|]. intros [i|] Hi; [|done].
      by destruct H as [_ []%(fun H => H i Hi)]. }
    unfold send_message. destruct (is_state m); [|by apply spaced_snoc].
    destruct (state_slot q) as [s|] eqn:Hs; [|by apply Hnew].
    destruct (decide (queue_tail q = Some s)) as [Ht|Ht]; [by rewrite bool_decide_true|].
    rewrite bool_decide_false by done. apply Hnew. congruence.
  - unfold run_turn. destruct (items q) as [|[] l] eqn:E; simpl; [by rewrite E|..];
      by eapply spaced_cons.
Qed.

Lemma others_length l : length (others l) = length (filter (fun x => is_slot x = false) l).
Proof.
  induction l as [|[i|m] l IH]; [done|..].
  - rewrite filter_cons_False by done. exact IH.
  - rewrite filter_cons_True by done. simpl. by rewrite <-IH.
Qed.

Definition turns (n : nat) (s : queue * list message) : queue * list message :=
  foldl step s (replicate n Turn).

Lemma turns_drain n q h :
  queue_ok q -> length (items q) <= n -> (turns n (q, h)).2 = h ++ abs q.
Proof.
  revert q h. induction n as [|n IH]; intros q h Hok Hn; unfold turns in *; simpl.
  - destruct (items q) eqn:E; [|simpl in Hn; lia]. unfold abs. by rewrite E, app_nil_r.
  - pose proof (turn_total q h Hok) as Ht. pose proof (run_turn_ok q Hok) as [Hok' _].
    assert (Hlen : length (items (run_turn q).1) <= n).
    { unfold run_turn. destruct (items q) as [|[] l] eqn:E; simpl in *; rewrite ?E; simpl; lia. }
    simpl in Ht. destruct (run_turn q) as [q' t]. simpl in *. rewrite IH by done. done.
Qed.

(** C31: whatever the interleaving of sends and turns, once the loop has caught up it has handled the
    messages in the order they were sent, every message that is not a state exactly once, and as the
    last state the newest one sent: only states that a newer one followed were left out. *)
Theorem loop_handles_newest es n :
  length (items (exec es).1) <= n ->
  let handled := (turns n (exec es)).2 in
  handled `sublist_of` sent es /\ not_states handled = not_states (sent es)
  /\ newest_state handled = newest_state (sent es).
Proof.
  intros Hn. pose proof (exec_total es) as H. pose proof (exec_ok es) as Hok.
  destruct (exec es) as [q h]. simpl in *. by rewrite turns_drain.
Qed.

(** States cannot make the robot's queue grow: it never holds more than one entry per message
    that is not a state, plus one, besides those messages. *)
Theorem loop_queue_bounded es :
  let q := (exec es).1 in length (items q) <= 2 * length (others (items q)) + 1.
Proof.
  simpl. pose proof (spaced_length _ _ (exec_spaced es)) as H. rewrite others_length.
  destruct (items _) as [|x l]; [lia|]. destruct (is_slot x); lia.
Qed.

Lemma loop_handles_newest_witness :
  let es := [Send (State 1); Send (State 2); Send (Other 3); Send (State 4); Turn; Send (State 5)] in
  (turns 3 (exec es)).2 = [Other 3; State 5]
  /\ ((turns 3 (exec es)).2 `sublist_of` sent es
      /\ not_states (turns 3 (exec es)).2 = not_states (sent es)
      /\ newest_state (turns 3 (exec es)).2 = newest_state (sent es)).
Proof.
  split; [vm_compute; reflexivity|]. apply loop_handles_newest. apply Nat.leb_le. vm_compute. reflexivity.
Defined.

End RobotQueue.

(** ** The broker's queue *)

Module BrokerQueue.

(** A message of robot [name]: its state, or anything else. *)
Record message := mkMessage { name : string; is_state : bool; payload : nat }.
#[export] Instance message_eq_dec : EqDecision message.
Proof. solve_decision. Defined.

Inductive item := Slot (id : nat) | Msg (m : message).

Record queue := mkQueue {
  items : list item;                (** [_mqtt_messages] *)
  slots : gmap nat message;         (** [_StateSlot.msg] *)
  fresh_id : nat;
  state_slots : gmap string nat;    (** [_state_slots] *)
}.

Definition empty_queue : queue := mkQueue [] ∅ 0 ∅.

(** [_enqueue_now] on [_mqtt_messages], whose messages all carry a name. *)
Definition enqueue_now (q : queue) (m : message) : queue :=
  if is_state m then
    match state_slots q !! name m with
    | Some i => mkQueue (items q) (<[i := m]> (slots q)) (fresh_id q) (state_slots q)
    | None =>
        let i := fresh_id q in
        mkQueue (items q ++ [Slot i]) (<[i := m]> (slots q)) (S i) (<[name m := i]> (state_slots q))
    end
  else mkQueue (items q ++ [Msg m]) (slots q) (fresh_id q) (delete (name m) (state_slots q)).

(** The message [_handle_mqtt_messages] takes. *)
Definition get_message (q : queue) : queue * option message :=
  match items q with
  | [] => (q, None)
  | Msg m :: l => (mkQueue l (slots q) (fresh_id q) (state_slots q), Some m)
  | Slot i :: l =>
      let m := slots q !! i in
      let open := match m with
                  | Some m => if bool_decide (state_slots q !! name m = Some i)
                              then delete (name m) (state_slots q) else state_slots q
                  | None => state_slots q
                  end in
      (mkQueue l (slots q) (fresh_id q) open, m)
  end.

(** *** The contract, robot by robot: a state replaces the one right before it *)

Definition spec_enqueue (l : list message) (m : message) : list message :=
  if is_state m then
    match last l with
    | Some x => if is_state x then removelast l ++ [m] else l ++ [m]
    | None => [m]
    end
  else l ++ [m].

Definition content (store : gmap nat message) (x : item) : option message :=
  match x with Slot i => store !! i | Msg m => Some m end.
Definition abs (q : queue) : list message := omap (content (slots q)) (items q).
Definition of_robot (n : string) (l : list message) : list message := filter (fun m => name m = n) l.

Definition slot_ids (l : list item) : list nat :=
  omap (fun x => match x with Slot i => Some i | Msg _ => None end) l.

Definition name_of (store : gmap nat message) (x : item) : option string := name <$> content store x.

(** The items of robot [n], oldest first. *)
Definition robot_items (n : string) (q : queue) : list item :=
  filter (fun x => name_of (slots q) x = Some n) (items q).

(** A robot has a slot open exactly when its newest item is a slot. *)
Record queue_ok (q : queue) : Prop := {
  ok_ids : NoDup (slot_ids (items q));
  ok_fresh : forall i, i ∈ slot_ids (items q) -> i < fresh_id q;
  ok_slots : forall i, i ∈ slot_ids (items q) -> exists m, slots q !! i = Some m /\ is_state m = true;
  ok_msgs : forall m, Msg m ∈ items q -> is_state m = false;
  ok_open : forall n i, state_slots q !! n = Some i <-> last (robot_items n q) = Some (Slot i);
}.

Lemma slot_ids_elem l i : i ∈ slot_ids l <-> Slot i ∈ l.
Proof.
  unfold slot_ids. rewrite list_elem_of_omap. split.
  - by intros ([j|m] & H & [= ->]).
  - intros H. by exists (Slot i).
Qed.

Lemma omap_content_cons store x l :
  omap (content store) (x :: l) =
  match content store x with Some m => m :: omap (content store) l | None => omap (content store) l end.
Proof. done. Qed.

Lemma of_robot_items n q : of_robot n (abs q) = omap (content (slots q)) (robot_items n q).
Proof.
  unfold of_robot, abs, robot_items.
  induction (items q) as [|x l IH]; [done|]. rewrite omap_content_cons.
  destruct (content (slots q) x) as [m|] eqn:E; [destruct (decide (name m = n)) as [Hn|Hn]|].
  - rewrite filter_cons_True, (filter_cons_True _ x) by (unfold name_of; rewrite ?E; simpl; congruence).
    rewrite omap_content_cons, E. by f_equal.
  - rewrite filter_cons_False, (filter_cons_False _ x) by (unfold name_of; rewrite ?E; simpl; congruence).
    done.
  - by rewrite (filter_cons_False _ x) by (unfold name_of; by rewrite E).
Qed.

(** The items of a robot, when the queue grows, or the store changes without changing names. *)
Lemma robot_items_snoc n q x store fr op :
  (forall y, y ∈ items q -> name_of store y = name_of (slots q) y) ->
  robot_items n (mkQueue (items q ++ [x]) store fr op) =
  robot_items n q ++ if decide (name_of store x = Some n) then [x] else [].
Proof.
  intros H. unfold robot_items; simpl. rewrite filter_app. f_equal.
  apply filter_ext_in. intros y Hy. by rewrite H.
Qed.

(** A state of the robot whose newest item is [Slot i] takes that slot. *)
Lemma replace_names q i m m0 y :
  slots q !! i = Some m0 -> name m0 = name m ->
  name_of (<[i := m]> (slots q)) y = name_of (slots q) y.
Proof.
  intros Hi Hn. destruct y as [j|]; [|done]. unfold name_of; simpl.
  destruct (decide (i = j)) as [->|Hne]; [|by rewrite lookup_insert_ne].
  rewrite lookup_insert_eq, Hi. simpl. by f_equal.
Qed.

Lemma fresh_names q m y :
  queue_ok q -> y ∈ items q -> name_of (<[fresh_id q := m]> (slots q)) y = name_of (slots q) y.
Proof.
  intros Hq Hy. destruct y as [j|]; [|done]. unfold name_of; simpl.
  rewrite lookup_insert_ne; [done|]. apply slot_ids_elem, (ok_fresh q Hq) in Hy. lia.
Qed.

Lemma robot_items_name n q x : x ∈ robot_items n q -> x ∈ items q /\ name_of (slots q) x = Some n.
Proof. unfold robot_items. rewrite list_elem_of_filter. tauto. Qed.

Lemma enqueue_now_ok q m : queue_ok q -> queue_ok (enqueue_now q m).
Proof.
  intros Hq. pose proof Hq as []. unfold enqueue_now. destruct (is_state m) eqn:Hm.
  - destruct (state_slots q !! name m) as [i|] eqn:Hi.
    + assert (exists m0, slots q !! i = Some m0 /\ name m0 = name m) as (m0 & H0 & Hn0).
      { apply ok_open0 in Hi. apply last_Some_elem_of, robot_items_name in Hi as [_ Hi].
        unfold name_of in Hi; simpl in Hi. destruct (slots q !! i); [|done]. simplify_eq/=. eauto. }
      constructor; simpl; auto.
      * intros j Hj. destruct (decide (i = j)) as [->|?].
        -- rewrite lookup_insert_eq. eauto.
        -- rewrite lookup_insert_ne by done. auto.
      * intros n j. rewrite ok_open0. unfold robot_items; cbn [slots items].
        rewrite (filter_ext_in (fun x => name_of (<[i:=m]> (slots q)) x = Some n)
                   (fun x => name_of (slots q) x = Some n)); [done|].
        intros y _. by rewrite (replace_names q i m m0).
    + constructor; simpl.
      * unfold slot_ids. rewrite omap_app. apply NoDup_app.
        split_and!; [done| |by apply NoDup_singleton].
        intros j Hj%ok_fresh0 ->%list_elem_of_singleton. lia.
      * unfold slot_ids. rewrite omap_app. intros j [Hj%ok_fresh0|Hj]%elem_of_app; [lia|].
        apply list_elem_of_singleton in Hj as ->. lia.
      * unfold slot_ids. rewrite omap_app. intros j [Hj|Hj]%elem_of_app.
        -- rewrite lookup_insert_ne; [auto|]. apply ok_fresh0 in Hj. lia.
        -- apply list_elem_of_singleton in Hj as ->. rewrite lookup_insert_eq. eauto.
      * intros m' [?|H]%elem_of_app; [auto|]. by apply list_elem_of_singleton in H.
      * intros n j. rewrite robot_items_snoc by (intros; by apply fresh_names).
        unfold name_of; simpl. rewrite lookup_insert_eq; simpl.
        destruct (decide (name m = n)) as [<-|Hne].
        -- rewrite decide_True by done. rewrite lookup_insert_eq, last_snoc. naive_solver.
        -- rewrite decide_False by congruence. rewrite lookup_insert_ne, app_nil_r by done. done.
  - constructor; simpl.
    + unfold slot_ids. by rewrite omap_app, app_nil_r.
    + unfold slot_ids. by rewrite omap_app, app_nil_r.
    + unfold slot_ids. by rewrite omap_app, app_nil_r.
    + intros m' [?|H]%elem_of_app; [auto|]. by apply list_elem_of_singleton in H as [= ->].
    + intros n j. rewrite robot_items_snoc by done. unfold name_of; simpl.
      destruct (decide (name m = n)) as [<-|Hne].
      * rewrite decide_True by done. rewrite lookup_delete_eq, last_snoc. done.
      * rewrite decide_False by congruence. rewrite lookup_delete_ne, app_nil_r by done. done.
Qed.

Lemma omap_content_ext store store' (l : list item) :
  (forall y, y ∈ l -> content store' y = content store y) ->
  omap (content store') l = omap (content store) l.
Proof.
  induction l as [|x l IH]; intros H; [done|]. rewrite !omap_content_cons, H by left.
  rewrite IH; [done|]. intros y Hy. apply H. by right.
Qed.

Lemma filter_slot_nodup (P : item -> Prop) `{!forall x, Decision (P x)} l l' i :
  NoDup (slot_ids l) -> filter P l = l' ++ [Slot i] -> Slot i ∉ l'.
Proof.
  intros Hnd Hl. assert (NoDup (slot_ids (filter P l))) as Hf.
  { clear Hl. induction l as [|x l IH]; [done|].
    assert (NoDup (slot_ids l)) as Hl by (destruct x; [by apply NoDup_cons in Hnd as [_ ?]|done]).
    destruct (decide (P x)); [rewrite filter_cons_True by done|rewrite filter_cons_False by done; auto].
    destruct x as [j|]; [|by apply IH]. apply NoDup_cons in Hnd as [Hj _].
    apply NoDup_cons; split; [|by apply IH]. change (j ∉ slot_ids (filter P l)).
    rewrite slot_ids_elem in Hj |- *. rewrite list_elem_of_filter. tauto. }
  rewrite Hl in Hf. unfold slot_ids in Hf. rewrite omap_app in Hf.
  apply NoDup_app in Hf as (_ & Hf & _).
  intros Hi%slot_ids_elem. apply (Hf i Hi). by left.
Qed.

(** The robot's newest item, when its newest message is a state, is a slot. *)
Lemma newest_is_slot n q x :
  queue_ok q -> last (of_robot n (abs q)) = Some x -> is_state x = true ->
  exists l i, robot_items n q = l ++ [Slot i] /\ slots q !! i = Some x
    /\ of_robot n (abs q) = omap (content (slots q)) l ++ [x].
Proof.
  intros [] Hx Hs. rewrite of_robot_items in *.
  destruct (robot_items n q) as [|y l _] eqn:E using rev_ind; [done|].
  assert (y ∈ robot_items n q) as [Hy Hn]%robot_items_name by (rewrite E; set_solver).
  rewrite omap_app in *. unfold name_of in Hn.
  destruct y as [i|m]; simpl in *.
  - destruct (slots q !! i) as [m|] eqn:Hi; [|done]. rewrite last_snoc in Hx. simplify_eq. eauto.
  - rewrite last_snoc in Hx. simplify_eq. rewrite (ok_msgs0 x Hy) in Hs. done.
Qed.

Lemma enqueue_refines q m n :
  queue_ok q ->
  of_robot n (abs (enqueue_now q m)) =
  if decide (name m = n) then spec_enqueue (of_robot n (abs q)) m else of_robot n (abs q).
Proof.
  intros Hq. rewrite of_robot_items. unfold enqueue_now. destruct (is_state m) eqn:Hm.
  - destruct (state_slots q !! name m) as [i|] eqn:Hi.
    + apply (ok_open q Hq), last_Some in Hi as [l Hl].
      assert (Slot i ∈ robot_items (name m) q) as [Hin Hnm]%robot_items_name by (rewrite Hl; set_solver).
      unfold name_of in Hnm; simpl in Hnm. destruct (slots q !! i) as [m0|] eqn:H0; [|done].
      simpl in Hnm. injection Hnm as Hnm.
      destruct (ok_slots q Hq i) as (m0' & H0' & Hs0); [by apply slot_ids_elem|].
      rewrite H0 in H0'. injection H0' as <-.
      assert (robot_items n (mkQueue (items q) (<[i:=m]> (slots q)) (fresh_id q) (state_slots q))
              = robot_items n q) as ->.
      { apply filter_ext_in. intros y _. simpl. by rewrite (replace_names q i m m0). }
      simpl. assert (Hext : forall l' : list item, Slot i ∉ l' ->
        omap (content (<[i:=m]> (slots q))) l' = omap (content (slots q)) l').
      { intros l' Hl'. apply omap_content_ext. intros [j|] Hj; [|done]. simpl.
        rewrite lookup_insert_ne; [done|]. intros ->. done. }
      destruct (decide (name m = n)) as [<-|Hne].
      * rewrite of_robot_items, Hl, !omap_app, Hext by (eapply filter_slot_nodup; [apply Hq|done]).
        rewrite !omap_content_cons; simpl. rewrite H0, lookup_insert_eq. simpl.
        unfold spec_enqueue. by rewrite Hm, last_snoc, Hs0, removelast_last.
      * rewrite of_robot_items. apply Hext. intros [_ H]%robot_items_name.
        unfold name_of in H; simpl in H. rewrite H0 in H. simpl in H. congruence.
    + assert (Hnm : name_of (<[fresh_id q := m]> (slots q)) (Slot (fresh_id q)) = Some (name m)).
      { unfold name_of; simpl. by rewrite lookup_insert_eq. }
      rewrite robot_items_snoc by (intros; by apply fresh_names). cbn [slots]. rewrite omap_app.
      rewrite (omap_content_ext (slots q)); [rewrite <-of_robot_items|].
      2:{ intros [j|] [Hj _]%robot_items_name; [|done]. simpl. apply slot_ids_elem in Hj.
          rewrite lookup_insert_ne; [done|]. apply (ok_fresh q Hq) in Hj. lia. }
      destruct (decide (name_of _ _ = Some n)) as [E|E]; rewrite Hnm in E.
      * injection E as <-. rewrite decide_True by done. rewrite omap_content_cons; simpl.
        rewrite lookup_insert_eq. unfold spec_enqueue. rewrite Hm. destruct (last _) as [x|] eqn:Hx.
        -- destruct (is_state x) eqn:Hs; [|done].
           destruct (newest_is_slot _ _ _ Hq Hx Hs) as (l & i & Hl & _).
           assert (state_slots q !! name m = Some i); [|congruence].
           apply (ok_open q Hq). by rewrite Hl, last_snoc.
        -- by apply last_None in Hx as ->.
      * rewrite decide_False by congruence. by rewrite app_nil_r.
  - rewrite robot_items_snoc by done. cbn [slots]. rewrite omap_app, <-of_robot_items.
    unfold spec_enqueue. rewrite Hm. destruct (decide (name_of _ _ = Some n)) as [E|E].
    + injection E as <-. by rewrite decide_True.
    + rewrite decide_False by (intros H; apply E; unfold name_of; simpl; by rewrite H).
      by rewrite app_nil_r.
Qed.

(** Taking a message: the oldest in the queue. *)
Lemma get_message_ok q :
  queue_ok q ->
  queue_ok (get_message q).1 /\ abs q = option_list (get_message q).2 ++ abs (get_message q).1
  /\ length (items (get_message q).1) = pred (length (items q)).
Proof.
  intros Hq. pose proof Hq as []. unfold get_message, abs.
  destruct (items q) as [|x l] eqn:Hl; [simpl; by rewrite Hl|].
  assert (Hri : forall n fr op, robot_items n q =
    (if decide (name_of (slots q) x = Some n) then [x] else [])
    ++ robot_items n (mkQueue l (slots q) fr op)).
  { intros n fr op. unfold robot_items. rewrite Hl. simpl. rewrite filter_cons.
    by destruct (decide _). }
  assert (Hlast : forall n fr op i, x <> Slot i ->
    last (robot_items n q) = Some (Slot i) <->
    last (robot_items n (mkQueue l (slots q) fr op)) = Some (Slot i)).
  { intros n fr op i Hx. rewrite (Hri n fr op). destruct (decide _) as [E|E]; [|done].
    simpl. rewrite last_cons. destruct (last _); [done|]. split; [|done]. intros [= ->]. done. }
  destruct x as [i|m]; simpl.
  - destruct (ok_slots0 i) as (m & Hm & Hs); [by left|]. rewrite Hm.
    apply NoDup_cons in ok_ids0 as [Hni Hnd]. split_and!; [|done..].
    assert (Hnone : forall n fr op, last (robot_items n (mkQueue l (slots q) fr op)) <> Some (Slot i)).
    { intros n fr op H%last_Some_elem_of. apply robot_items_name in H as [H _].
      by apply slot_ids_elem in H. }
    constructor; simpl; auto.
    + intros j Hj. apply ok_fresh0. by right.
    + intros j Hj. apply ok_slots0. by right.
    + intros m' Hm'. apply ok_msgs0. by right.
    + intros n j. destruct (decide (i = j)) as [<-|Hij].
      * split; [|by intros []%Hnone]. intros H. exfalso.
        destruct (decide (state_slots q !! name m = Some i)) as [E|E].
        -- rewrite bool_decide_true in H by done. destruct (decide (name m = n)) as [<-|Hne].
           ++ by rewrite lookup_delete_eq in H.
           ++ rewrite lookup_delete_ne in H by done. apply ok_open0, last_Some_elem_of in H.
              apply robot_items_name in H as [_ H]. unfold name_of in H; simpl in H.
              rewrite Hm in H. simpl in H. congruence.
        -- rewrite bool_decide_false in H by done.
           pose proof H as H'. apply ok_open0, last_Some_elem_of, robot_items_name in H' as [_ H'].
           unfold name_of in H'; simpl in H'. rewrite Hm in H'. simpl in H'. congruence.
      * rewrite <-Hlast, <-ok_open0 by congruence.
        destruct (decide (state_slots q !! name m = Some i)) as [E|E];
          [|by rewrite bool_decide_false].
        rewrite bool_decide_true by done. destruct (decide (name m = n)) as [<-|Hne].
        -- rewrite lookup_delete_eq, E. split; [done|congruence].
        -- by rewrite lookup_delete_ne.
  - split_and!; [|done..]. constructor; simpl; auto.
    + intros m' Hm'. apply ok_msgs0. by right.
    + intros n j. by rewrite <-Hlast, <-ok_open0.
Qed.

(** *** Traces *)

Inductive action := Enqueue (m : message) | Get.

Definition step (s : queue * list message) (a : action) : queue * list message :=
  match a with
  | Enqueue m => (enqueue_now s.1 m, s.2)
  | Get => let (q, o) := get_message s.1 in (q, s.2 ++ option_list o)
  end.
Definition exec (es : list action) : queue * list message := foldl step (empty_queue, []) es.
Definition received (es : list action) : list message :=
  omap (fun a => match a with Enqueue m => Some m | Get => None end) es.
Definition gets (n : nat) (s : queue * list message) : queue * list message :=
  foldl step s (replicate n Get).

Definition newest_state (l : list message) : option message :=
  last (filter (fun m => is_state m = true) l).
Definition not_states (l : list message) : list message := filter (fun m => is_state m = false) l.

Lemma broker_exec_snoc es a : exec (es ++ [a]) = step (exec es) a.
Proof. unfold exec. by rewrite foldl_app. Qed.

Lemma broker_exec_ok es : queue_ok (exec es).1.
Proof.
  induction es as [|a es IH] using rev_ind.
  - constructor; simpl; auto using NoDup_nil_2; try (intros ? H; by apply not_elem_of_nil in H).
    intros n i. rewrite lookup_empty. done.
  - rewrite broker_exec_snoc. destruct a; simpl; [by apply enqueue_now_ok|].
    pose proof (get_message_ok _ IH) as [H _]. by destruct (get_message _).
Qed.

Lemma get_total q h : queue_ok q -> (step (q, h) Get).2 ++ abs (step (q, h) Get).1 = h ++ abs q.
Proof.
  intros (_ & H & _)%get_message_ok. simpl. destruct (get_message q) as [q' o]. simpl in *.
  by rewrite H, <-app_assoc.
Qed.

Lemma spec_enqueue_facts h l m :
  h ++ spec_enqueue l m `sublist_of` (h ++ l) ++ [m]
  /\ not_states (h ++ spec_enqueue l m) = not_states ((h ++ l) ++ [m])
  /\ (is_state m = true -> newest_state (h ++ spec_enqueue l m) = Some m).
Proof.
  assert (Hlast : forall k, is_state m = true -> newest_state (k ++ [m]) = Some m).
  { intros k Hm. unfold newest_state. rewrite filter_app, (filter_keep1 _ m) by done.
    by rewrite last_snoc. }
  unfold spec_enqueue. destruct (is_state m) eqn:Hm; [|by rewrite <-app_assoc].
  destruct (last l) as [x|] eqn:Hx; [destruct (is_state x) eqn:Hs|].
  - apply last_Some in Hx as [k ->]. rewrite removelast_last, !app_assoc. split_and!; auto.
    + apply sublist_app; [|done]. by apply sublist_inserts_r.
    + unfold not_states. rewrite !filter_app. rewrite (filter_drop1 _ x) by congruence.
      by rewrite app_nil_r.
  - rewrite app_assoc. split_and!; auto.
  - apply last_None in Hx as ->. rewrite app_nil_r. split_and!; auto.
Qed.

(** Robot by robot: what was handled, and what waits. *)
Lemma broker_exec_total n es :
  let all := of_robot n ((exec es).2 ++ abs (exec es).1) in
  all `sublist_of` of_robot n (received es)
  /\ not_states all = not_states (of_robot n (received es))
  /\ newest_state all = newest_state (of_robot n (received es)).
Proof.
  induction es as [|a es IH] using rev_ind; [done|]. pose proof (broker_exec_ok es) as Hok.
  rewrite broker_exec_snoc. unfold received in *. rewrite omap_app. simpl in IH |- *.
  destruct (exec es) as [q h]. simpl in Hok, IH. destruct a as [m|].
  - simpl. unfold of_robot in IH |- *. rewrite filter_app in IH. rewrite filter_app.
    fold (of_robot n (abs q)) in IH. fold (of_robot n (abs (enqueue_now q m))).
    rewrite (enqueue_refines q m n Hok), (filter_app _ (omap _ es)).
    destruct (decide (name m = n)) as [Hn|Hn];
      [|by rewrite (filter_drop1 _ m), app_nil_r by done].
    rewrite (filter_keep1 _ m) by done. destruct IH as (IH1 & IH2 & IH3).
    match goal with |- context [?H ++ spec_enqueue ?L m] =>
      destruct (spec_enqueue_facts H L m) as (H1 & H2 & H3) end. split_and!.
    + etrans; [done|]. by apply sublist_app.
    + rewrite H2. unfold not_states in *. rewrite filter_app, IH2. by rewrite filter_app.
    + destruct (is_state m) eqn:Hm; unfold newest_state in *.
      * rewrite H3 by done. rewrite filter_app, (filter_keep1 _ m) by done. by rewrite last_snoc.
      * unfold spec_enqueue. rewrite Hm, app_assoc, !(filter_app _ _ [m]).
        by rewrite !(filter_drop1 _ m), !app_nil_r by congruence.
  - rewrite get_total by done. by rewrite app_nil_r.
Qed.

Lemma gets_drain n q h :
  queue_ok q -> length (items q) <= n -> (gets n (q, h)).2 = h ++ abs q.
Proof.
  revert q h. induction n as [|n IH]; intros q h Hok Hn; unfold gets in *; simpl.
  - destruct (items q) eqn:E; [|simpl in Hn; lia]. unfold abs. by rewrite E, app_nil_r.
  - pose proof (get_total q h Hok) as Ht. pose proof (get_message_ok q Hok) as (Hok' & _ & Hlen).
    simpl in Ht. destruct (get_message q) as [q' o]. simpl in *. rewrite IH; [done..|lia].
Qed.

Lemma broker_exec_spaced n es : spaced is_state (of_robot n (abs (exec es).1)) = true.
Proof.
  induction es as [|a es IH] using rev_ind; [done|]. pose proof (broker_exec_ok es) as Hok.
  rewrite broker_exec_snoc. destruct (exec es) as [q h]. simpl in *. destruct a as [m|]; simpl.
  - rewrite enqueue_refines by done. destruct (decide _); [|done]. unfold spec_enqueue.
    destruct (is_state m) eqn:Hm; [|by apply spaced_snoc].
    destruct (last _) as [x|] eqn:Hx; [destruct (is_state x) eqn:Hs|].
    + apply last_Some in Hx as [k Hk]. rewrite Hk in *. rewrite removelast_last.
      apply spaced_snoc; [by eapply spaced_app_l|]. intros y Hy Hs'.
      apply last_Some in Hy as [k' ->]. clear -IH Hs Hs'.
      exfalso. rewrite <-app_assoc in IH. simpl in IH. induction k' as [|z k' IHk].
      * simpl in IH. by rewrite Hs, Hs' in IH.
      * apply spaced_cons in IH. by apply IHk.
    + apply spaced_snoc; [done|]. intros y Hy. congruence.
    + done.
  - pose proof (get_message_ok q Hok) as (_ & H & _). destruct (get_message q) as [q' [x|]]; simpl in *;
      rewrite H in IH; [|done].
    unfold of_robot in IH. simpl in IH. rewrite filter_cons in IH. destruct (decide _); [|done].
    by eapply spaced_cons.
Qed.

(** The broker's queue keeps each robot's messages in order while states of other robots pass: once
    the consumer has caught up it has handled, of every robot, its messages in the order received,
    every one that is not a state, and as its last state the newest one received. *)
Theorem broker_handles_newest es k n :
  length (items (exec es).1) <= k ->
  let handled := of_robot n (gets k (exec es)).2 in
  handled `sublist_of` of_robot n (received es)
  /\ not_states handled = not_states (of_robot n (received es))
  /\ newest_state handled = newest_state (of_robot n (received es)).
Proof.
  intros Hk. pose proof (broker_exec_total n es) as H. pose proof (broker_exec_ok es) as Hok.
  destruct (exec es) as [q h]. simpl in *. by rewrite gets_drain.
Qed.

(** While the consumer is behind, a robot's states take at most one entry for every other message
    of that robot in the queue, plus one. *)
Theorem broker_queue_bounded es n :
  let l := of_robot n (abs (exec es).1) in length l <= 2 * length (not_states l) + 1.
Proof.
  simpl. pose proof (spaced_length _ _ (broker_exec_spaced n es)) as H. unfold not_states.
  destruct (of_robot _ _) as [|x l]; [simpl; lia|]. destruct (is_state x); lia.
Qed.

Lemma broker_handles_newest_witness :
  let st n p := Enqueue (mkMessage n true p) in
  let es := [st "a" 1; st "b" 2; st "a" 3; Enqueue (mkMessage "a" false 4); st "a" 5; st "a" 6]%string in
  (gets 4 (exec es)).2 = [mkMessage "a" true 3; mkMessage "b" true 2; mkMessage "a" false 4;
                          mkMessage "a" true 6]%string
  /\ (let handled := of_robot "a" (gets 4 (exec es)).2 in
      handled `sublist_of` of_robot "a" (received es)
      /\ not_states handled = not_states (of_robot "a" (received es))
      /\ newest_state handled = newest_state (of_robot "a" (received es))).
Proof.
  split; [vm_compute; reflexivity|]. apply broker_handles_newest. apply Nat.leb_le. vm_compute. reflexivity.
Defined.

End BrokerQueue.
