(* ===== verification/InstantActions.v ===== *)
(** * Instant actions and cancelOrders (packages/controllers/mission/server.py)

    The dispatcher tracks every instant action it sends until the robot reports it FINISHED or FAILED
    or it is given up, resends it meanwhile with a back-off, and remembers what each cancelOrder was
    for ([CancelPurpose]) and in which run. [Tracker] is that part of [Robot]'s state; the part other
    components own (the current mission, what the robot last reported, whether an order went out) is
    [View], an argument of each operation, so that the theorems hold whatever it does in between.
    Times are milliseconds of the monotonic clock. [resend_log], [cancels_sent] and [cancels_resolved]
    are history, which no operation reads. *)

From S2P Require Import Prelude PyDict OrderIds.
Local Open Scope string_scope.
Local Open Scope list_scope.

Inductive CancelPurpose := MISSION | REPLACE | STOP | CLEAR.
#[export] Instance CancelPurpose_eq_dec : EqDecision CancelPurpose.
Proof. solve_decision. Defined.

(** What a cancelOrder needs the robot to be reporting. *)
Inductive ours_check := OURS_RUN | OURS_SENT | OURS_DISPATCHER | OURS_ANY.

Inductive action_type := CANCEL_ORDER | FACTSHEET_REQUEST | START_TELEOP | STOP_TELEOP.
#[export] Instance action_type_eq_dec : EqDecision action_type.
Proof. solve_decision. Defined.

Inductive action_status := FINISHED | FAILED | OTHER_STATUS.

Record action_state := mkActionState {
  as_instant : bool;                (** its type is one of [_INSTANT_ACTION_TYPES] *)
  as_id : string;
  as_status : action_status;
  as_no_order : bool;               (** its result is "noOrderToCancel" *)
}.

Record state_message := mkStateMessage {
  msg_order_id : string;
  lists_order : bool;               (** [nodeStates or edgeStates] *)
  no_order_error : bool;            (** an error of type noOrderToCancel *)
  action_states : list action_state;
}.

Record MissionView := mkMissionView {
  mv_name : string;
  mv_run_id : option string;
  mv_order_rev : N;
  mv_needs_canceled : bool;
  mv_done : bool;
}.

Record View := mkView {
  current_mission : option MissionView;
  adopted_prefix : option string;
  sent_order : bool;                (** [_sent_order is not None] *)
  robot_executing : bool;
  robot_order_id : option string;
}.

Record Tracker := mkTracker {
  current_instant_actions : list (string * action_type);
  instant_action_resends : list (string * nat);
  instant_action_resent_at : list (string * Z);
  cancel_purposes : list (string * (CancelPurpose * option string));
  resolved_cancels : list (CancelPurpose * option string * bool);
  released_order_ids : gset string;
  header_id : N;                    (** the next headerId of the instantActions topic *)
  published : list (N * string);    (** headerId and action of every message sent *)
  resend_log : list (string * list Z);
  cancels_sent : list string;
  cancels_resolved : list string;
}.

(** ** Header ids *)

Definition HEADER_ID_EPOCH : Z := 1767225600.
Definition HEADER_ID_RATE : Z := 4.
Definition HEADER_ID_MAX : Z := 2 ^ 32 - 1.

(** [initial_header_id], of a time in milliseconds since the Unix epoch. *)
Definition initial_header_id (now_ms : Z) : Z :=
  Z.min (Z.max (Z.quot ((now_ms - HEADER_ID_EPOCH * 1000) * HEADER_ID_RATE) 1000) 0) HEADER_ID_MAX.

Definition new_tracker (header : N) : Tracker := mkTracker [] [] [] [] [] ∅ header [] [] [] [].

(** ** What the robot runs *)

(** [_run_key] *)
Definition run_key (v : View) : option string :=
  (fun m => mv_name m +:+ "|" +:+ default "None" (mv_run_id m)) <$> current_mission v.

(** [_order_prefix] *)
Definition current_prefix (v : View) (m : MissionView) : string :=
  default (run_prefix (mv_name m) (mv_run_id m) (mv_order_rev m)) (adopted_prefix v).

(** [_is_order_of_run] *)
Definition is_order_of_run (m : MissionView) (order : option string) : bool :=
  match order with
  | None => false
  | Some o =>
      negb (bool_decide (o = ""))
      && match order_prefix o with
         | None => false
         | Some p =>
             existsb (fun rev => bool_decide (p = run_prefix (mv_name m) (mv_run_id m) (N.of_nat rev)))
               (seq 0 (S (N.to_nat (mv_order_rev m))))
         end
  end.

Definition robot_runs_our_order (v : View) : bool :=
  match current_mission v with
  | Some m => robot_executing v && is_order_of_run m (robot_order_id v)
  | None => false
  end.

Definition robot_runs_dispatcher_order (v : View) : bool :=
  robot_executing v
  && match robot_order_id v with
     | Some o => match order_prefix o with Some _ => true | None => false end
     | None => false
     end.

Definition robot_may_hold_our_order (v : View) : bool :=
  robot_runs_our_order v
  || match current_mission v with Some _ => sent_order v && negb (robot_executing v) | None => false end.

Section tracker.
Context (process_tag : string) (MAX_INSTANT_ACTION_RESENDS : nat).

Definition STOP_CANCEL_MAX_RESENDS : nat := 6.
Definition INSTANT_ACTION_RESEND_BASE : Z := 1000.
Definition INSTANT_ACTION_RESEND_MAX : Z := 8000.

(** ** Sending *)

(** [_action_id]: the id carries the headerId its message will have. *)
Definition action_id (t : Tracker) (stem : string) : string :=
  stem +:+ "-" +:+ process_tag +:+ "-n" +:+ str_N (header_id t).

(** [_send_instant_action], with [_next_header_id]. *)
Definition send_instant_action (t : Tracker) (id : string) : Tracker :=
  mkTracker (current_instant_actions t) (instant_action_resends t) (instant_action_resent_at t)
    (cancel_purposes t) (resolved_cancels t) (released_order_ids t) (header_id t + 1)%N
    (published t ++ [(header_id t, id)]) (resend_log t) (cancels_sent t) (cancels_resolved t).

(** An action that is not a cancelOrder (factsheetRequest, startTeleop, stopTeleop), as
    [_on_robot_change] sends it. *)
Definition send_other (t : Tracker) (stem : string) (ty : action_type) : Tracker :=
  let id := action_id t stem in
  let t := send_instant_action t id in
  mkTracker (dset (current_instant_actions t) id ty) (instant_action_resends t)
    (instant_action_resent_at t) (cancel_purposes t) (resolved_cancels t) (released_order_ids t)
    (header_id t) (published t) (resend_log t) (cancels_sent t) (cancels_resolved t).

(** [_has_outstanding_cancel] *)
Definition has_outstanding_cancel (t : Tracker) (v : View) (current_run_only : bool) : bool :=
  existsb (fun p => bool_decide (p.2 = CANCEL_ORDER)
                    && (negb current_run_only
                        || bool_decide (match dget (cancel_purposes t) p.1 with
                                        | Some (_, r) => r | None => None end = run_key v)))
    (current_instant_actions t).

(** [_send_cancel_order], whose purpose its caller always gives *)
Definition send_cancel_order (t : Tracker) (v : View) (id : string) (purpose : CancelPurpose) : Tracker :=
  let t := send_instant_action t id in
  mkTracker (dset (current_instant_actions t) id CANCEL_ORDER) (instant_action_resends t)
    (instant_action_resent_at t) (dset (cancel_purposes t) id (purpose, run_key v))
    (resolved_cancels t) (released_order_ids t) (header_id t) (published t) (resend_log t)
    (cancels_sent t ++ [id]) (cancels_resolved t).

(** [_cancel_order]: the state after it and whether it was sent. *)
Definition cancel_order (t : Tracker) (v : View) (purpose : CancelPurpose) (tag : string)
    (ours : ours_check) (current_run_only : bool) : Tracker * bool :=
  if has_outstanding_cancel t v current_run_only then (t, false)
  else if match ours with
          | OURS_RUN => negb (robot_runs_our_order v)
          | OURS_SENT => negb (robot_may_hold_our_order v)
          | OURS_DISPATCHER => negb (robot_runs_dispatcher_order v)
          | OURS_ANY => false
          end then (t, false)
  else
    let stem := match current_mission v with
                | None => tag +:+ "-cancel"
                | Some m => current_prefix v m +:+ "-" +:+ tag +:+ "-cancel"
                end in
    (send_cancel_order t v (action_id t stem) purpose, true).

(** [_stop_our_order] *)
Definition stop_our_order (t : Tracker) (v : View) (why : string) : Tracker :=
  (cancel_order t v STOP why OURS_RUN false).1.

(** The cancel of [_handle_force_cancel]. *)
Definition force_cancel (t : Tracker) (v : View) : Tracker * bool :=
  let on_mission :=
    match current_mission v with
    | None => false
    | Some m => match robot_order_id v with
                | Some o => is_order_of (current_prefix v m) o
                | None => sent_order v
                end
    end in
  cancel_order t v (if on_mission then STOP else CLEAR) "force" OURS_ANY false.

(** ** Answers *)

(** [_current_instant_actions.pop] with [_forget_instant_action_resends]. *)
Definition pop_action (t : Tracker) (id : string) : Tracker :=
  mkTracker (ddel (current_instant_actions t) id) (ddel (instant_action_resends t) id)
    (ddel (instant_action_resent_at t) id) (cancel_purposes t) (resolved_cancels t)
    (released_order_ids t) (header_id t) (published t) (resend_log t) (cancels_sent t)
    (cancels_resolved t).

(** [_cancel_resolved] *)
Definition cancel_resolved (t : Tracker) (v : View) (id : string) (ty : action_type) (abandoned : bool)
    : Tracker :=
  if negb (bool_decide (ty = CANCEL_ORDER)) then t
  else
    let (purpose, r) := default (STOP, None) (dget (cancel_purposes t) id) in
    let released := match robot_order_id v with
                    | Some o => if abandoned && robot_executing v then {[o]} ∪ released_order_ids t
                                else released_order_ids t
                    | None => released_order_ids t
                    end in
    mkTracker (current_instant_actions t) (instant_action_resends t) (instant_action_resent_at t)
      (ddel (cancel_purposes t) id) (resolved_cancels t ++ [(purpose, r, abandoned)]) released
      (header_id t) (published t) (resend_log t) (cancels_sent t) (cancels_resolved t ++ [id]).

(** [_failed_cancel_leaves_our_order] *)
Definition failed_cancel_leaves_our_order (t : Tracker) (v : View) (id : string) (ty : action_type)
    (s : action_state) (msg : state_message) : bool :=
  if negb (bool_decide (ty = CANCEL_ORDER)) || negb (lists_order msg) then false
  else if as_no_order s || no_order_error msg then false
  else
    let (purpose, r) := default (STOP, None) (dget (cancel_purposes t) id) in
    if bool_decide (purpose = CLEAR) then true
    else match current_mission v with
         | None => false
         | Some m => bool_decide (r = run_key v) && is_order_of_run m (Some (msg_order_id msg))
         end.

(** One action state of [handle_instant_action]'s first loop; [updated] are the ids the robot reports
    and [finished] the actions it has finished (a refused cancelOrder counts). *)
Definition on_action_state (v : View) (msg : state_message)
    (acc : Tracker * list string * list action_type) (s : action_state)
    : Tracker * list string * list action_type :=
  let '(t, updated, finished) := acc in
  if negb (as_instant s) then acc
  else match dget (current_instant_actions t) (as_id s) with
       | None => acc
       | Some ty =>
           match as_status s with
           | FINISHED =>
               (cancel_resolved (pop_action t (as_id s)) v (as_id s) ty false,
                updated ++ [as_id s], finished ++ [ty])
           | FAILED =>
               if failed_cancel_leaves_our_order t v (as_id s) ty s msg then (t, updated, finished)
               else (cancel_resolved (pop_action t (as_id s)) v (as_id s) ty false,
                     updated ++ [as_id s],
                     if bool_decide (ty = CANCEL_ORDER) then finished ++ [ty] else finished)
           | OTHER_STATUS => (t, updated ++ [as_id s], finished)
           end
       end.

Definition resend_interval (resends : nat) : Z :=
  Z.min (INSTANT_ACTION_RESEND_BASE * 2 ^ Z.of_nat (resends - 1)) INSTANT_ACTION_RESEND_MAX.

Definition resend_limit (t : Tracker) (id : string) : nat :=
  match dget (cancel_purposes t) id with
  | Some (STOP, _) => Nat.min MAX_INSTANT_ACTION_RESENDS STOP_CANCEL_MAX_RESENDS
  | _ => MAX_INSTANT_ACTION_RESENDS
  end.

(** One action of the second loop. *)
Definition resend_one (now : Z) (updated : list string) (acc : Tracker * list string) (id : string)
    : Tracker * list string :=
  let '(t, gave_up) := acc in
  if bool_decide (id ∈ updated) then acc
  else
    let resends := default 0 (dget (instant_action_resends t) id) in
    if match dget (instant_action_resent_at t) id with
       | Some at_ => bool_decide (now - at_ < resend_interval resends)%Z
       | None => false
       end then acc
    else
      let attempts := S resends in
      if bool_decide (resend_limit t id < attempts) then (t, gave_up ++ [id])
      else
        let t' := mkTracker (current_instant_actions t) (dset (instant_action_resends t) id attempts)
                    (dset (instant_action_resent_at t) id now) (cancel_purposes t) (resolved_cancels t)
                    (released_order_ids t) (header_id t) (published t)
                    (dset (resend_log t) id (now :: default [] (dget (resend_log t) id)))
                    (cancels_sent t) (cancels_resolved t) in
        (send_instant_action t' id, gave_up).

(** One action of the third loop: given up. *)
Definition abandon (v : View) (t : Tracker) (id : string) : Tracker :=
  match dget (current_instant_actions t) id with
  | Some ty => cancel_resolved (pop_action t id) v id ty true
  | None => pop_action t id
  end.

Definition handle_instant_action (t : Tracker) (v : View) (msg : state_message) (now : Z)
    : Tracker * list action_type :=
  let '(t1, updated, finished) := foldl (on_action_state v msg) (t, [], []) (rev (action_states msg)) in
  let '(t2, gave_up) := foldl (resend_one now updated) (t1, []) (keys (current_instant_actions t1)) in
  (foldl (abandon v) t2 gave_up, finished).

(** The part of [_reset_resend_budgets] that concerns instant actions. *)
Definition reset_resend_budgets (t : Tracker) : Tracker :=
  mkTracker (current_instant_actions t) [] [] (cancel_purposes t) (resolved_cancels t)
    (released_order_ids t) (header_id t) (published t) [] (cancels_sent t) (cancels_resolved t).

(** [_act_on_resolved_cancels] takes the queue of resolved cancels. *)
Definition take_resolved (t : Tracker) : Tracker :=
  mkTracker (current_instant_actions t) (instant_action_resends t) (instant_action_resent_at t)
    (cancel_purposes t) [] (released_order_ids t) (header_id t) (published t) (resend_log t)
    (cancels_sent t) (cancels_resolved t).

(** What it does with them. *)
Inductive cancel_effect :=
| NoEffect
| EndCanceled (failure_reason : option string)
| EndFailed (failure_reason : string)
| NewRevision.                      (** [_pending_send = NEW_REVISION]; the loop goes on *)

Definition unconfirmed (v : View) : string :=
  "The robot never confirmed the cancelOrder"
  +:+ (if robot_runs_our_order v
       then "; it still reports its order " +:+ default "None" (robot_order_id v) else "").

Definition cancel_effect_of (v : View) (m : MissionView) (msg : state_message)
    (c : CancelPurpose * option string * bool) : cancel_effect :=
  let '(purpose, r, abandoned) := c in
  if mv_done m || negb (bool_decide (r = run_key v)) then NoEffect
  else if mv_needs_canceled m || bool_decide (purpose = MISSION) then
    EndCanceled (if abandoned then Some (unconfirmed v) else None)
  else match purpose with
       | CLEAR => NoEffect
       | STOP => EndCanceled (Some "The robot's order was cancelled by an operator force cancel")
       | _ => if abandoned && lists_order msg
              then EndFailed "The robot never confirmed the cancelOrder; the new order was not sent"
              else NewRevision
       end.

(** The first ending wins; [pending] says whether a new revision is owed. *)
Fixpoint act_on_resolved_cancels (v : View) (msg : state_message) (pending : bool)
    (l : list (CancelPurpose * option string * bool)) : bool * option cancel_effect :=
  match l, current_mission v with
  | c :: l', Some m =>
      match cancel_effect_of v m msg c with
      | NoEffect => act_on_resolved_cancels v msg pending l'
      | NewRevision => act_on_resolved_cancels v msg true l'
      | e => (pending, Some e)
      end
  | _, _ => (pending, None)
  end.

Inductive action :=
| CancelOrder (v : View) (purpose : CancelPurpose) (tag : string) (ours : ours_check) (cro : bool)
| ForceCancel (v : View)
| SendOther (stem : string) (ty : action_type)
| Handle (v : View) (msg : state_message) (now : Z)
| ResetBudgets
| TakeResolved.

Definition step (t : Tracker) (a : action) : Tracker :=
  match a with
  | CancelOrder v p tag ours cro => (cancel_order t v p tag ours cro).1
  | ForceCancel v => (force_cancel t v).1
  | SendOther stem ty => if bool_decide (ty = CANCEL_ORDER) then t else send_other t stem ty
  | Handle v msg now => (handle_instant_action t v msg now).1
  | ResetBudgets => reset_resend_budgets t
  | TakeResolved => take_resolved t
  end.

(** ** Invariant *)

Definition outstanding_cancels (t : Tracker) : list string :=
  keys (filter (fun p => p.2 = CANCEL_ORDER) (current_instant_actions t)).

(** Every id this process makes: its stem, the tag and the headerId of its first message. *)
Definition issued (h : N) (id : string) : Prop :=
  exists stem n, id = order_id (stem +:+ "-" +:+ process_tag) n /\ (n < h)%N.

(** The times of an action's resends, newest first, keep the back-off. *)
Fixpoint spaced_times (l : list Z) : Prop :=
  match l with
  | a :: ((b :: _) as t) => (resend_interval (length t) <= a - b)%Z /\ spaced_times t
  | _ => True
  end.

(** The resend counters of one action agree with its log. *)
Definition budget_ok (t : Tracker) (k : string) : Prop :=
  match dget (instant_action_resends t) k with
  | Some n => k ∈ keys (current_instant_actions t)
      /\ exists a l, dget (resend_log t) k = Some (a :: l) /\ length (a :: l) = n
         /\ dget (instant_action_resent_at t) k = Some a
  | None => dget (instant_action_resent_at t) k = None
      /\ (k ∈ keys (current_instant_actions t) -> dget (resend_log t) k = None)
  end.

Record tracker_ok (t : Tracker) : Prop := {
  ok_current : dict_wf (current_instant_actions t);
  ok_purposes : dict_wf (cancel_purposes t);
  ok_cancels : forall k, k ∈ keys (cancel_purposes t) <->
    dget (current_instant_actions t) k = Some CANCEL_ORDER;
  ok_runs : NoDup (values (cancel_purposes t)).*2;
  ok_issued_current : Forall (issued (header_id t)) (keys (current_instant_actions t));
  ok_issued_sent : Forall (issued (header_id t)) (cancels_sent t);
  ok_issued_log : Forall (issued (header_id t)) (keys (resend_log t));
  ok_budget : forall k, budget_ok t k;
  ok_log : forall k l, dget (resend_log t) k = Some l ->
    length l <= MAX_INSTANT_ACTION_RESENDS /\ spaced_times l;
  ok_sent : cancels_sent t ≡ₚ keys (cancel_purposes t) ++ cancels_resolved t;
  ok_nodup : NoDup (cancels_sent t);
}.

Lemma action_id_order t stem : action_id t stem = order_id (stem +:+ "-" +:+ process_tag) (header_id t).
Proof. unfold action_id, order_id. by rewrite !str_app_assoc. Qed.

Lemma issued_mono h h' id : (h <= h')%N -> issued h id -> issued h' id.
Proof. intros Hh (stem & n & -> & Hn). exists stem, n. split; [done|lia]. Qed.

(** An id not issued before. *)
Lemma action_id_fresh t stem l : Forall (issued (header_id t)) l -> action_id t stem ∉ l.
Proof.
  rewrite Forall_forall. intros H Hin%H. destruct Hin as (stem' & n & Heq & Hn).
  rewrite action_id_order in Heq. apply (f_equal order_node_index) in Heq.
  rewrite !order_node_index_order_id in Heq. injection Heq. lia.
Qed.

Lemma action_id_issued t stem : issued (header_id t + 1)%N (action_id t stem).
Proof. rewrite action_id_order. exists stem, (header_id t). split; [done|lia]. Qed.

Lemma has_outstanding_any t v :
  tracker_ok t -> has_outstanding_cancel t v false = false -> cancel_purposes t = [].
Proof.
  intros [] H. destruct (cancel_purposes t) as [|[k q] d] eqn:E; [done|]. exfalso.
  destruct (ok_cancels0 k) as [Hk _]. specialize (Hk ltac:(by left)). apply dget_Some_elem in Hk.
  apply not_true_iff_false in H. apply H, existsb_exists. exists (k, CANCEL_ORDER).
  split; [by apply list_elem_of_In|]. done.
Qed.

(** No cancel of the current run is outstanding. *)
Lemma has_outstanding_run t v :
  tracker_ok t -> has_outstanding_cancel t v true = false -> run_key v ∉ (values (cancel_purposes t)).*2.
Proof.
  intros Ht H Hin. pose proof Ht as []. apply list_elem_of_fmap in Hin as ([p r] & Hr & Hin).
  apply list_elem_of_fmap in Hin as ([k q] & Hq & Hin). simpl in *. subst.
  apply not_true_iff_false in H. apply H, existsb_exists. exists (k, CANCEL_ORDER). split.
  - apply list_elem_of_In, dget_Some_elem, ok_cancels0. unfold keys. by apply (list_elem_of_fmap_2 fst) in Hin.
  - simpl. rewrite (dget_elem _ k (p, run_key v)) by done. by apply bool_decide_eq_true.
Qed.

(** A new action joins; the other maps are untouched. *)
Lemma budget_ok_ext t t' k :
  budget_ok t k -> dget (instant_action_resends t') k = dget (instant_action_resends t) k ->
  dget (instant_action_resent_at t') k = dget (instant_action_resent_at t) k ->
  dget (resend_log t') k = dget (resend_log t) k ->
  (k ∈ keys (current_instant_actions t') <-> k ∈ keys (current_instant_actions t)) -> budget_ok t' k.
Proof.
  unfold budget_ok. intros H -> -> -> Hk. destruct (dget (instant_action_resends t) k); naive_solver.
Qed.

Lemma budget_ok_new t t' k :
  tracker_ok t -> k ∉ keys (current_instant_actions t) -> k ∉ keys (resend_log t) ->
  instant_action_resends t' = instant_action_resends t ->
  instant_action_resent_at t' = instant_action_resent_at t -> resend_log t' = resend_log t ->
  budget_ok t' k.
Proof.
  intros Ht Hk Hl E1 E2 E3. pose proof (ok_budget t Ht k) as H. unfold budget_ok in *.
  rewrite E1, E2, E3. destruct (dget (instant_action_resends t) k); [by destruct H|].
  split; [apply H|]. intros _. by apply dget_None.
Qed.

Lemma send_other_ok t stem ty : tracker_ok t -> ty <> CANCEL_ORDER -> tracker_ok (send_other t stem ty).
Proof.
  intros Ht Hty. pose proof Ht as []. unfold send_other.
  set (id := action_id t stem).
  assert (Hid : id ∉ keys (current_instant_actions t)) by by apply action_id_fresh.
  assert (Hlog : id ∉ keys (resend_log t)) by by apply action_id_fresh.
  assert (Hmono : forall l, Forall (issued (header_id t)) l -> Forall (issued (header_id t + 1)%N) l).
  { intros l Hl. eapply Forall_impl; [done|]. intros x. apply issued_mono. lia. }
  assert (Hkeys : keys (dset (current_instant_actions t) id ty) = keys (current_instant_actions t) ++ [id]).
  { rewrite keys_dset. by rewrite bool_decide_false. }
  constructor; cbn -[keys]; auto with fleet.
  - intros k. rewrite ok_cancels0, dget_dset. destruct (decide (id = k)) as [<-|Hne].
    + rewrite bool_decide_true by done. apply dget_None in Hid. rewrite Hid. naive_solver.
    + by rewrite bool_decide_false.
  - rewrite Hkeys. apply Forall_app; split; [auto|]. apply Forall_singleton, action_id_issued.
  - intros k. destruct (decide (k = id)) as [->|Hne]; [by apply (budget_ok_new t)|].
    apply (budget_ok_ext t); auto. cbn -[keys]. rewrite Hkeys, elem_of_app, list_elem_of_singleton. tauto.
Qed.

Lemma send_cancel_order_ok t v stem purpose :
  tracker_ok t -> run_key v ∉ (values (cancel_purposes t)).*2 ->
  tracker_ok (send_cancel_order t v (action_id t stem) purpose).
Proof.
  intros Ht Hrun. pose proof Ht as []. unfold send_cancel_order.
  set (id := action_id t stem).
  assert (Hid : id ∉ keys (current_instant_actions t)) by by apply action_id_fresh.
  assert (Hlog : id ∉ keys (resend_log t)) by by apply action_id_fresh.
  assert (Hsent : id ∉ cancels_sent t) by by apply action_id_fresh.
  assert (Hpur : id ∉ keys (cancel_purposes t)).
  { rewrite ok_cancels0. apply dget_None in Hid. by rewrite Hid. }
  assert (Hmono : forall l, Forall (issued (header_id t)) l -> Forall (issued (header_id t + 1)%N) l).
  { intros l Hl. eapply Forall_impl; [done|]. intros x. apply issued_mono. lia. }
  assert (Hkeys : keys (dset (current_instant_actions t) id CANCEL_ORDER)
                  = keys (current_instant_actions t) ++ [id]).
  { rewrite keys_dset. by rewrite bool_decide_false. }
  constructor; cbn -[keys]; auto with fleet.
  - intros k. rewrite keys_dset, bool_decide_false, dget_dset by done.
    rewrite elem_of_app, ok_cancels0, list_elem_of_singleton. destruct (decide (id = k)) as [<-|Hne].
    + rewrite bool_decide_true by done. tauto.
    + rewrite bool_decide_false by done. naive_solver.
  - rewrite dset_new by done. unfold values. rewrite !fmap_app. simpl.
    apply NoDup_app. split_and!; [done| |apply NoDup_singleton].
    intros r Hr ->%list_elem_of_singleton. done.
  - rewrite Hkeys. apply Forall_app; split; [auto|]. apply Forall_singleton, action_id_issued.
  - apply Forall_app; split; [auto|]. apply Forall_singleton, action_id_issued.
  - intros k. destruct (decide (k = id)) as [->|Hne]; [by apply (budget_ok_new t)|].
    apply (budget_ok_ext t); auto. cbn -[keys]. rewrite Hkeys, elem_of_app, list_elem_of_singleton. tauto.
  - rewrite keys_dset, bool_decide_false by done. rewrite ok_sent0.
    rewrite <-!app_assoc. apply Permutation_app_head, Permutation_app_comm.
  - apply NoDup_app. split_and!; [done| |apply NoDup_singleton].
    intros x Hx ->%list_elem_of_singleton. done.
Qed.

(** An outstanding action is answered or given up. *)
Lemma resolve_ok t v id ty ab :
  tracker_ok t -> dget (current_instant_actions t) id = Some ty ->
  tracker_ok (cancel_resolved (pop_action t id) v id ty ab).
Proof.
  intros Ht Hty. pose proof Ht as [].
  assert (Hb : forall k, budget_ok (pop_action t id) k).
  { intros k. specialize (ok_budget0 k). unfold budget_ok in *. simpl. rewrite !dget_ddel, keys_ddel.
    destruct (decide (id = k)) as [<-|Hne].
    - rewrite !bool_decide_true by done. split; [done|]. by intros [? _]%list_elem_of_filter.
    - rewrite !bool_decide_false by done.
      destruct (dget (instant_action_resends t) k); rewrite list_elem_of_filter; naive_solver. }
  assert (Hi : Forall (issued (header_id t)) (keys (ddel (current_instant_actions t) id))).
  { rewrite keys_ddel. rewrite Forall_forall in *. intros k [_ Hk]%list_elem_of_filter. auto. }
  unfold cancel_resolved. destruct (decide (ty = CANCEL_ORDER)) as [->|Hne].
  - rewrite bool_decide_true by done. simpl.
    destruct (dget (cancel_purposes t) id) as [[p r]|] eqn:Hp.
    2:{ apply dget_None in Hp. by destruct Hp; apply ok_cancels0. }
    pose proof (ddel_perm _ _ _ ok_purposes0 Hp) as Hperm.
    simpl. constructor; simpl; auto with fleet.
    + intros k. rewrite keys_ddel, list_elem_of_filter, ok_cancels0, dget_ddel.
      destruct (decide (id = k)) as [<-|?]; [rewrite bool_decide_true by done|rewrite bool_decide_false by done];
        naive_solver.
    + unfold values in *. rewrite Hperm in ok_runs0. by apply NoDup_cons in ok_runs0 as [_ ?].
    + rewrite ok_sent0. unfold keys. rewrite Hperm at 1. simpl. rewrite Permutation_middle.
      by rewrite (Permutation_app_comm _ [id]).
  - rewrite bool_decide_false by done. simpl. constructor; simpl; auto with fleet.
    intros k. rewrite ok_cancels0, dget_ddel.
    destruct (decide (id = k)) as [<-|?]; [rewrite bool_decide_true by done; naive_solver|].
    by rewrite bool_decide_false.
Qed.

Lemma resend_limit_le t id : resend_limit t id <= MAX_INSTANT_ACTION_RESENDS.
Proof. unfold resend_limit. destruct (dget _ _) as [[[] ?]|]; lia. Qed.

(** A resend adds its time to the action's log, which keeps the back-off and the budget. *)
Lemma resend_one_ok now updated t g id :
  tracker_ok t -> id ∈ keys (current_instant_actions t) ->
  tracker_ok (resend_one now updated (t, g) id).1
  /\ current_instant_actions (resend_one now updated (t, g) id).1 = current_instant_actions t.
Proof.
  intros Ht Hid. unfold resend_one.
  destruct (bool_decide_reflect (id ∈ updated)) as [|_]; [done|].
  destruct (match dget (instant_action_resent_at t) id with Some _ => _ | None => _ end) eqn:Hdue; [done|].
  destruct (bool_decide_reflect (resend_limit t id < S (default 0 (dget (instant_action_resends t) id))))
    as [|Hlim]; [done|]. split; [|done]. pose proof Ht as [].
  pose proof (resend_limit_le t id) as Hle.
  assert (Hnew : exists l, dget (resend_log t) id = l
    /\ length (default [] l) = default 0 (dget (instant_action_resends t) id)
    /\ spaced_times (now :: default [] l)).
  { specialize (ok_budget0 id). unfold budget_ok in ok_budget0.
    destruct (dget (instant_action_resends t) id) as [n|].
    - destruct ok_budget0 as (_ & a & l & Hl & Hlen & Hat). exists (Some (a :: l)).
      rewrite Hat in Hdue. apply bool_decide_eq_false in Hdue. split_and!; [done..|].
      simpl in Hdue |- *. simpl in Hlen. rewrite Hlen. split; [lia|]. by apply (ok_log0 id (a :: l)).
    - destruct ok_budget0 as [_ Hl]. exists None. by rewrite Hl. }
  destruct Hnew as (lo & Hlo & Hlen & Hsp).
  assert (Hmono : forall l, Forall (issued (header_id t)) l -> Forall (issued (header_id t + 1)%N) l).
  { intros l Hl. eapply Forall_impl; [done|]. intros x. apply issued_mono. lia. }
  constructor; cbn -[keys]; auto with fleet.
  - rewrite keys_dset. destruct (bool_decide _); [by auto|]. apply Forall_app; split; [by auto|].
    apply Forall_singleton. apply issued_mono with (header_id t); [lia|].
    rewrite Forall_forall in ok_issued_current0. auto.
  - intros k. destruct (decide (id = k)) as [<-|Hne].
    + unfold budget_ok. cbn -[keys]. rewrite !dget_dset_eq. split; [done|].
      exists now, (default [] (dget (resend_log t) id)). rewrite Hlo. split_and!; [done| |done].
      simpl. by rewrite Hlen.
    + apply (budget_ok_ext t); cbn -[keys]; auto; by rewrite dget_dset_ne.
  - intros k l. destruct (decide (id = k)) as [<-|Hne].
    + rewrite dget_dset_eq. intros [= <-]. rewrite Hlo. split; [|done]. simpl. lia.
    + rewrite dget_dset_ne by done. apply ok_log0.
Qed.

Lemma resend_all_ok now updated l t g :
  tracker_ok t -> l ⊆ keys (current_instant_actions t) ->
  tracker_ok (foldl (resend_one now updated) (t, g) l).1
  /\ current_instant_actions (foldl (resend_one now updated) (t, g) l).1 = current_instant_actions t.
Proof.
  revert t g. induction l as [|id l IH]; intros t g Ht Hl; [done|]. cbn [foldl].
  destruct (resend_one_ok now updated t g id Ht) as [Ht' E]; [apply Hl; by left|].
  destruct (resend_one now updated (t, g) id) as [t' g']. cbn [fst] in *.
  destruct (IH t' g' Ht') as [H1 H2]; [rewrite E; set_solver|].
  split; [done|]. etrans; [exact H2|done].
Qed.

Lemma abandon_ok v t id : tracker_ok t -> tracker_ok (abandon v t id).
Proof.
  intros Ht. unfold abandon. destruct (dget _ id) eqn:E; [by apply resolve_ok|].
  apply dget_None in E. pose proof Ht as []. pose proof (ok_budget0 id) as Hb. unfold budget_ok in Hb.
  destruct (dget (instant_action_resends t) id) eqn:Er; [by destruct Hb|].
  apply dget_None in Er. destruct Hb as [Ha%dget_None _].
  unfold pop_action. rewrite !ddel_not_elem by done. by destruct t.
Qed.

Lemma on_action_state_ok v msg acc s :
  tracker_ok acc.1.1 -> tracker_ok (on_action_state v msg acc s).1.1.
Proof.
  destruct acc as [[t u] f]. intros Ht. simpl in Ht. unfold on_action_state.
  destruct (as_instant s); [|done]. simpl. destruct (dget _ (as_id s)) as [ty|] eqn:E; [|done].
  destruct (as_status s); simpl; [by apply resolve_ok| |done].
  destruct (failed_cancel_leaves_our_order _ _ _ _ _ _); [done|]. by apply resolve_ok.
Qed.

Lemma foldl_inv {A B : Type} (P : B -> Prop) (f : B -> A -> B) l b :
  P b -> (forall b x, P b -> P (f b x)) -> P (foldl f b l).
Proof. revert b. induction l; simpl; auto. Qed.

Lemma handle_instant_action_ok t v msg now :
  tracker_ok t -> tracker_ok (handle_instant_action t v msg now).1.
Proof.
  intros Ht. unfold handle_instant_action.
  pose proof (foldl_inv (fun acc => tracker_ok acc.1.1) (on_action_state v msg)
    (rev (action_states msg)) (t, [], []) Ht (on_action_state_ok v msg)) as H1.
  destruct (foldl (on_action_state v msg) _ _) as [[t1 u] f]. simpl in H1.
  destruct (resend_all_ok now u (keys (current_instant_actions t1)) t1 [] H1) as [H2 _]; [done|].
  destruct (foldl (resend_one now u) _ _) as [t2 g]. simpl in *.
  apply foldl_inv; [done|]. intros. by apply abandon_ok.
Qed.

Lemma cancel_order_ok t v p tag ours cro :
  tracker_ok t -> tracker_ok (cancel_order t v p tag ours cro).1.
Proof.
  intros Ht. unfold cancel_order. destruct (has_outstanding_cancel t v cro) eqn:H; [done|].
  destruct (match ours with OURS_RUN => _ | _ => _ end); [done|]. simpl.
  apply send_cancel_order_ok; [done|]. destruct cro.
  - by apply has_outstanding_run.
  - rewrite (has_outstanding_any t v Ht H). apply not_elem_of_nil.
Qed.

Lemma tracker_step_ok t a : tracker_ok t -> tracker_ok (step t a).
Proof.
  intros Ht. destruct a; simpl.
  - by apply cancel_order_ok.
  - by apply cancel_order_ok.
  - destruct (bool_decide_reflect (ty = CANCEL_ORDER)); [done|]. by apply send_other_ok.
  - by apply handle_instant_action_ok.
  - destruct Ht. constructor; simpl; auto; done.
  - destruct Ht. by constructor.
Qed.

Lemma tracker_ok_reachable h t : reachable step (new_tracker h) t -> tracker_ok t.
Proof.
  apply reachable_inv; [|by auto using tracker_step_ok].
  constructor; simpl; auto using dict_wf_nil, NoDup_nil_2; try done.
  intros k. split; [by intros H%not_elem_of_nil|done].
Qed.

Lemma outstanding_perm t : tracker_ok t -> outstanding_cancels t ≡ₚ keys (cancel_purposes t).
Proof.
  intros []. apply NoDup_Permutation; [|done|].
  - unfold outstanding_cancels. by apply (dict_wf_filter (fun p => p.2 = CANCEL_ORDER)).
  - intros k. rewrite ok_cancels0. unfold outstanding_cancels, keys. rewrite list_elem_of_fmap. split.
    + intros ([k' ty] & -> & [Hty Hin]%list_elem_of_filter). simpl in *. subst. by apply dget_elem.
    + intros Hk%dget_Some_elem. exists (k, CANCEL_ORDER). by rewrite list_elem_of_filter.
Qed.

(** ** One action through a state message that does not mention it *)

(** Everything the tracker holds about action [k]. *)
Definition about (t : Tracker) (k : string) :=
  (dget (current_instant_actions t) k, dget (instant_action_resends t) k,
   dget (instant_action_resent_at t) k, dget (cancel_purposes t) k).

Definition silent (k : string) (msg : state_message) : bool :=
  forallb (fun s => negb (bool_decide (as_id s = k))) (action_states msg).

Lemma about_resolve t v id ty ab k :
  id <> k -> about (cancel_resolved (pop_action t id) v id ty ab) k = about t k.
Proof.
  intros Hne. unfold cancel_resolved. destruct (bool_decide _); simpl.
  - destruct (default _ _). unfold about; simpl. by rewrite !dget_ddel_ne.
  - unfold about; simpl. by rewrite !dget_ddel_ne.
Qed.

Lemma about_abandon v t id k : id <> k -> about (abandon v t id) k = about t k.
Proof.
  intros Hne. unfold abandon. destruct (dget _ id); [by apply about_resolve|].
  unfold about; simpl. by rewrite !dget_ddel_ne.
Qed.

Lemma abandon_gone v t id : dget (current_instant_actions (abandon v t id)) id = None.
Proof.
  unfold abandon. destruct (dget (current_instant_actions t) id); [|apply dget_ddel_eq].
  unfold cancel_resolved. destruct (bool_decide _); simpl; [|apply dget_ddel_eq].
  destruct (default _ _). apply dget_ddel_eq.
Qed.

Lemma about_action_states v msg k l acc :
  forallb (fun s => negb (bool_decide (as_id s = k))) l = true -> k ∉ acc.1.2 ->
  about (foldl (on_action_state v msg) acc l).1.1 k = about acc.1.1 k
  /\ k ∉ (foldl (on_action_state v msg) acc l).1.2.
Proof.
  revert acc. induction l as [|s l IH]; intros [[t u] f] Hl Hu; [done|].
  simpl in Hl. apply andb_true_iff in Hl as [Hs Hl]. apply negb_true_iff, bool_decide_eq_false in Hs.
  cbn [foldl]. assert (Hstep : about (on_action_state v msg (t, u, f) s).1.1 k = about t k
    /\ k ∉ (on_action_state v msg (t, u, f) s).1.2).
  { unfold on_action_state. destruct (as_instant s); [|done]. simpl.
    destruct (dget _ _); [|done]. assert (Hu' : k ∉ u ++ [as_id s]) by set_solver.
    destruct (as_status s); simpl; [by rewrite about_resolve| |done].
    destruct (failed_cancel_leaves_our_order _ _ _ _ _ _); [done|]. simpl. by rewrite about_resolve. }
  destruct Hstep as [H1 H2]. destruct (IH _ Hl H2) as [H3 H4]. by rewrite H3, H1.
Qed.

Lemma about_resend_other now updated t g id k :
  id <> k -> about (resend_one now updated (t, g) id).1 k = about t k
    /\ (k ∈ (resend_one now updated (t, g) id).2 <-> k ∈ g).
Proof.
  intros Hne. unfold resend_one. destruct (bool_decide (id ∈ updated)); [done|].
  destruct (match dget _ _ with Some _ => _ | None => _ end); [done|].
  destruct (bool_decide (_ < _)).
  - split; [done|]. simpl. rewrite elem_of_app, list_elem_of_singleton. naive_solver.
  - split; [|done]. unfold about; simpl. by rewrite !dget_dset_ne.
Qed.

(** The action's own turn: it is resent now, or given up. *)
Definition resent_or_given_up (now : Z) (n : nat) (k : string) (acc : Tracker * list string) : Prop :=
  (dget (instant_action_resends acc.1) k = Some (S n) /\ S n <= MAX_INSTANT_ACTION_RESENDS
   /\ dget (instant_action_resent_at acc.1) k = Some now /\ k ∉ acc.2)
  \/ k ∈ acc.2.

Lemma resend_self now updated t g k :
  k ∉ updated -> k ∉ g ->
  (forall a, dget (instant_action_resent_at t) k = Some a -> INSTANT_ACTION_RESEND_MAX <= now - a)%Z ->
  resent_or_given_up now (default 0 (dget (instant_action_resends t) k)) k (resend_one now updated (t, g) k).
Proof.
  intros Hu Hg Hat. unfold resend_one. rewrite bool_decide_false by done.
  assert (Hdue : match dget (instant_action_resent_at t) k with
    | Some a => bool_decide (now - a < resend_interval (default 0%nat (dget (instant_action_resends t) k)))%Z
    | None => false end = false).
  { destruct (dget (instant_action_resent_at t) k) as [a|]; [|done]. specialize (Hat a eq_refl).
    apply bool_decide_eq_false. unfold resend_interval. lia. }
  rewrite Hdue. destruct (bool_decide_reflect (resend_limit t k < S (default 0 (dget (instant_action_resends t) k))))
    as [|Hlim].
  - right. simpl. set_solver.
  - left. simpl. rewrite !dget_dset_eq. pose proof (resend_limit_le t k). split_and!; auto; lia.
Qed.

Lemma resend_all_self now updated l t g k :
  NoDup l -> k ∈ l -> k ∉ updated -> k ∉ g ->
  (forall a, dget (instant_action_resent_at t) k = Some a -> INSTANT_ACTION_RESEND_MAX <= now - a)%Z ->
  resent_or_given_up now (default 0 (dget (instant_action_resends t) k)) k
    (foldl (resend_one now updated) (t, g) l).
Proof.
  assert (Hafter : forall l acc n, k ∉ l -> resent_or_given_up now n k acc ->
    resent_or_given_up now n k (foldl (resend_one now updated) acc l)).
  { clear. induction l as [|id l IH]; intros [t g] n Hk H; [done|]. cbn [foldl].
    apply not_elem_of_cons in Hk as [Hne Hk]. apply IH; [done|].
    destruct (about_resend_other now updated t g id k) as [Ha Hg]; [done|].
    destruct (resend_one now updated (t, g) id) as [t' g']. cbn [fst snd] in *.
    unfold about in Ha. injection Ha as _ H1 H2 _. unfold resent_or_given_up in *. cbn [fst snd] in *.
    by rewrite Hg, H1, H2. }
  revert t g. induction l as [|id l IH]; intros t g Hnd Hk Hu Hg Hat; [by apply not_elem_of_nil in Hk|].
  apply NoDup_cons in Hnd as [Hni Hnd]. cbn [foldl]. destruct (decide (id = k)) as [->|Hne].
  - apply Hafter; [done|]. by apply resend_self.
  - apply elem_of_cons in Hk as [?|Hk]; [done|].
    destruct (about_resend_other now updated t g id k Hne) as [Ha Hg'].
    destruct (resend_one now updated (t, g) id) as [t' g']. cbn [fst snd] in *.
    unfold about in Ha. injection Ha as _ Hr Hat' _. rewrite <-Hr. apply IH; auto.
    + by rewrite Hg'.
    + by rewrite Hat'.
Qed.

Lemma abandon_all_gone v l t k : k ∈ l -> dget (current_instant_actions (foldl (abandon v) t l)) k = None.
Proof.
  assert (Hstay : forall l t, dget (current_instant_actions t) k = None ->
    dget (current_instant_actions (foldl (abandon v) t l)) k = None).
  { clear. induction l as [|id l IH]; intros t Hk; [done|]. apply IH.
    destruct (decide (id = k)) as [->|Hne]; [apply abandon_gone|].
    pose proof (about_abandon v t id k Hne) as H. unfold about in H. by injection H as -> _ _ _. }
  revert t. induction l as [|id l IH]; intros t Hk; [by apply not_elem_of_nil in Hk|]. cbn [foldl].
  destruct (decide (id = k)) as [->|Hne]; [apply Hstay, abandon_gone|].
  apply elem_of_cons in Hk as [?|Hk]; [done|]. by apply IH.
Qed.

Lemma abandon_all_other v l t k : k ∉ l -> about (foldl (abandon v) t l) k = about t k.
Proof.
  revert t. induction l as [|id l IH]; intros t Hk; [done|]. apply not_elem_of_cons in Hk as [Hne Hk].
  cbn [foldl]. rewrite IH by done. by apply about_abandon.
Qed.

(** An outstanding action the message does not mention, whose last resend is long past. *)
Lemma handle_silent t v msg now k :
  tracker_ok t -> silent k msg = true ->
  (forall a, dget (instant_action_resent_at t) k = Some a -> INSTANT_ACTION_RESEND_MAX <= now - a)%Z ->
  let t' := (handle_instant_action t v msg now).1 in
  dget (current_instant_actions t') k = None
  \/ (dget (current_instant_actions t) k <> None
      /\ dget (instant_action_resends t') k = Some (S (default 0 (dget (instant_action_resends t) k)))
      /\ S (default 0 (dget (instant_action_resends t) k)) <= MAX_INSTANT_ACTION_RESENDS
      /\ dget (instant_action_resent_at t') k = Some now).
Proof.
  intros Ht Hs Hat. unfold handle_instant_action.
  pose proof (foldl_inv (fun acc => tracker_ok acc.1.1) (on_action_state v msg)
    (rev (action_states msg)) (t, [], []) Ht (on_action_state_ok v msg)) as H1.
  destruct (about_action_states v msg k (rev (action_states msg)) (t, [], [])) as [Ha Hu].
  { unfold silent in Hs. rewrite forallb_forall in *. intros s Hin%in_rev. auto. }
  { apply not_elem_of_nil. }
  destruct (foldl (on_action_state v msg) _ _) as [[t1 u] f]. cbn [fst snd] in *.
  unfold about in Ha. injection Ha as Hc Hr Ht1 _. rewrite <-Hr, <-Ht1 in *.
  destruct (decide (k ∈ keys (current_instant_actions t1))) as [Hk|Hk].
  - pose proof (resend_all_self now u (keys (current_instant_actions t1)) t1 [] k) as H2.
    specialize (H2 (ok_current t1 H1) Hk Hu (not_elem_of_nil k) Hat).
    destruct (foldl (resend_one now u) _ _) as [t2 g]. unfold resent_or_given_up in H2.
    cbn [fst snd] in *. destruct H2 as [(E1 & E2 & E3 & Hg)|Hg]; [right|left; by apply abandon_all_gone].
    pose proof (abandon_all_other v g t2 k Hg) as E. unfold about in E. injection E as _ -> -> _.
    split; [|done]. rewrite <-Hc. rewrite dget_None. by intros H.
  - left. destruct (resend_all_ok now u (keys (current_instant_actions t1)) t1 [] H1) as [_ E]; [done|].
    destruct (foldl (resend_one now u) _ _) as [t2 g]. cbn [fst] in *.
    destruct (decide (k ∈ g)) as [Hg|Hg]; [by apply abandon_all_gone|].
    pose proof (abandon_all_other v g t2 k Hg) as E'. unfold about in E'. injection E' as -> _ _ _.
    rewrite E. by apply dget_None.
Qed.

(** A run of state messages that never mention [k], each at least the largest back-off after the last. *)
Fixpoint silent_run (k : string) (last : option Z) (hs : list (View * state_message * Z)) : Prop :=
  match hs with
  | [] => True
  | (_, msg, now) :: hs' =>
      silent k msg = true
      /\ (forall a, last = Some a -> INSTANT_ACTION_RESEND_MAX <= now - a)%Z
      /\ silent_run k (Some now) hs'
  end.

Definition handle_all (t : Tracker) (hs : list (View * state_message * Z)) : Tracker :=
  foldl (fun t h => (handle_instant_action t h.1.1 h.1.2 h.2).1) t hs.

Lemma silent_gone k last hs t :
  tracker_ok t -> silent_run k last hs -> dget (current_instant_actions t) k = None ->
  dget (current_instant_actions (handle_all t hs)) k = None.
Proof.
  revert last t. induction hs as [|[[v msg] now] hs IH]; intros last t Ht Hs Hk; [done|].
  destruct Hs as (Hs & _ & Hrest). cbn [handle_all foldl fst snd]. eapply IH; [|done|].
  - by apply handle_instant_action_ok.
  - assert (Hn : dget (instant_action_resent_at t) k = None).
    { pose proof (ok_budget t Ht k) as Hb. unfold budget_ok in Hb.
      destruct (dget (instant_action_resends t) k); [|apply Hb].
      destruct Hb as [Hb _]. by apply dget_None in Hk. }
    by destruct (handle_silent t v msg now k Ht Hs) as [?|(? & _)]; [rewrite Hn; done|..].
Qed.

Lemma silent_abandoned k hs t :
  tracker_ok t -> silent_run k (dget (instant_action_resent_at t) k) hs ->
  MAX_INSTANT_ACTION_RESENDS - default 0 (dget (instant_action_resends t) k) < length hs ->
  dget (current_instant_actions (handle_all t hs)) k = None.
Proof.
  revert t. induction hs as [|[[v msg] now] hs IH]; intros t Ht Hs Hlen; [simpl in Hlen; lia|].
  destruct Hs as (Hs & Hat & Hrest). cbn [handle_all foldl fst snd].
  pose proof (handle_instant_action_ok t v msg now Ht) as Ht'.
  destruct (handle_silent t v msg now k Ht Hs Hat) as [Hk|(_ & Hr & Hle & Hn)].
  - by eapply silent_gone.
  - apply IH; [done|by rewrite Hn|]. rewrite Hr. simpl in *. lia.
Qed.

(** C19: every cancelOrder has an id of its own and is either outstanding or was resolved, exactly
    once, whatever the robot reports and however often orders are cancelled, resent or given up; and
    no run of a mission ever has two of them outstanding. *)
Theorem cancel_conservation h t :
  reachable step (new_tracker h) t ->
  NoDup (cancels_sent t) /\ cancels_sent t ≡ₚ outstanding_cancels t ++ cancels_resolved t
  /\ outstanding_cancels t ≡ₚ keys (cancel_purposes t) /\ NoDup (values (cancel_purposes t)).*2.
Proof.
  intros Ht%tracker_ok_reachable. pose proof (outstanding_perm t Ht) as Hp. destruct Ht.
  split_and!; [done| |done|done]. by rewrite Hp.
Qed.

(** Since the last reset of the budgets an instant action is resent at most
    [MAX_INSTANT_ACTION_RESENDS] times, and each resend waits at least the exponential back-off of
    the number of resends before it, whatever the rate of the robot's state messages. *)
Theorem resends_bounded h t k l :
  reachable step (new_tracker h) t -> dget (resend_log t) k = Some l ->
  length l <= MAX_INSTANT_ACTION_RESENDS /\ spaced_times l.
Proof. intros Ht%tracker_ok_reachable. by apply (ok_log t Ht). Qed.

(** An instant action the robot never mentions does not stay outstanding: after one state message
    more than its remaining budget, each at least the largest back-off after the one before, it has
    been given up (so it no longer holds back the next cancelOrder). *)
Theorem unanswered_action_given_up h t k hs :
  reachable step (new_tracker h) t ->
  silent_run k (dget (instant_action_resent_at t) k) hs ->
  MAX_INSTANT_ACTION_RESENDS - default 0 (dget (instant_action_resends t) k) < length hs ->
  k ∉ keys (current_instant_actions (handle_all t hs)).
Proof. intros Ht%tracker_ok_reachable Hs Hlen. apply dget_None. by apply silent_abandoned. Qed.

End tracker.

Definition same_run (v : View) (c : CancelPurpose * option string * bool) : Prop := c.1.2 = run_key v.
#[export] Instance same_run_dec v c : Decision (same_run v c).
Proof. unfold same_run. apply _. Defined.

(** A cancelOrder sent in another run (an earlier pass, a mission that timed out) never ends the
    current mission nor asks for a new revision of its order: leaving those out of the resolved ones
    changes nothing. *)
Theorem stale_cancel_harmless v msg pending l :
  act_on_resolved_cancels v msg pending l = act_on_resolved_cancels v msg pending (filter (same_run v) l).
Proof.
  revert pending. induction l as [|[[p r] ab] l IH]; intros pending; [done|].
  destruct (decide (same_run v (p, r, ab))) as [Hr|Hr].
  - rewrite filter_cons_True by done. cbn [act_on_resolved_cancels].
    destruct (current_mission v) as [m|]; [|done]. destruct (cancel_effect_of v m msg (p, r, ab)); auto.
  - rewrite filter_cons_False by done. rewrite <-IH. unfold same_run in Hr; simpl in Hr.
    destruct (current_mission v) as [m|] eqn:Em; simpl; rewrite Em.
    + rewrite (bool_decide_false (r = run_key v)) by done. by rewrite orb_true_r.
    + destruct l; [done|]. simpl. by rewrite Em.
Qed.

(** A restarted dispatcher's header ids continue above the earlier process's: if that one sent
    fewer than [HEADER_ID_RATE] messages per second on the topic between the two starts, every header
    id it used is below the new process's first, as long as the clock's value fits. *)
Theorem restart_header_ids start1 start2 (sent : Z) :
  (HEADER_ID_EPOCH * 1000 <= start1)%Z -> (0 <= sent)%Z ->
  (1000 * sent < HEADER_ID_RATE * (start2 - start1))%Z ->
  (initial_header_id start2 < HEADER_ID_MAX)%Z ->
  (initial_header_id start1 + (sent - 1) < initial_header_id start2)%Z.
Proof.
  unfold initial_header_id, HEADER_ID_RATE, HEADER_ID_EPOCH, HEADER_ID_MAX. intros H1 H2 H3 H4.
  set (a := ((start1 - 1767225600 * 1000) * 4)%Z) in *.
  set (b := ((start2 - 1767225600 * 1000) * 4)%Z) in *.
  assert (0 <= a)%Z by (unfold a; lia). assert (Hab : (a + 1000 * sent < b)%Z) by (unfold a, b; lia).
  rewrite !Z.quot_div_nonneg in * by lia.
  pose proof (Z.div_mod a 1000). pose proof (Z.mod_pos_bound a 1000).
  pose proof (Z.div_mod b 1000). pose proof (Z.mod_pos_bound b 1000). lia.
Qed.

(** A robot that never answers: a stop cancel is sent, resent twice and given up. *)
Definition quiet_view : View :=
  mkView (Some (mkMissionView "patrol" (Some "0a1b2c3d") 0 false false)) None true true
    (Some (order_id (run_prefix "patrol" (Some "0a1b2c3d") 0) 0)).
Definition quiet_message : state_message := mkStateMessage "" true false [].
Definition quiet_actions : list action :=
  [CancelOrder quiet_view STOP "timeout" OURS_SENT false; CancelOrder quiet_view STOP "churn" OURS_RUN false;
   Handle quiet_view quiet_message 1000; Handle quiet_view quiet_message 1500;
   Handle quiet_view quiet_message 2000].
Definition quiet_tracker : Tracker := foldl (step "ab12" 2) (new_tracker 7) quiet_actions.
Definition quiet_cancel : string := action_id "ab12" (new_tracker 7) "patrol-r0a1b2c3d-timeout-cancel".

Lemma cancel_conservation_witness :
  (cancels_sent quiet_tracker = [quiet_cancel] /\ outstanding_cancels quiet_tracker = [quiet_cancel])
  /\ (NoDup (cancels_sent quiet_tracker)
      /\ cancels_sent quiet_tracker ≡ₚ outstanding_cancels quiet_tracker ++ cancels_resolved quiet_tracker
      /\ outstanding_cancels quiet_tracker ≡ₚ keys (cancel_purposes quiet_tracker)
      /\ NoDup (values (cancel_purposes quiet_tracker)).*2).
Proof.
  split; [split; vm_compute; reflexivity|].
  apply (cancel_conservation "ab12" 2 7), reachable_foldl.
Defined.

Lemma resends_bounded_witness :
  dget (resend_log quiet_tracker) quiet_cancel = Some [2000; 1000]%Z
  /\ (length [2000; 1000]%Z <= 2 /\ spaced_times [2000; 1000]%Z).
Proof.
  assert (H : dget (resend_log quiet_tracker) quiet_cancel = Some [2000; 1000]%Z)
    by (vm_compute; reflexivity).
  split; [exact H|]. exact (resends_bounded "ab12" 2 7 quiet_tracker _ _ (reachable_foldl _ _ _) H).
Defined.

Lemma unanswered_action_given_up_witness :
  quiet_cancel ∉ keys (current_instant_actions
    (handle_all 2 quiet_tracker [(quiet_view, quiet_message, 10000%Z)])).
Proof.
  apply (unanswered_action_given_up "ab12" 2 7); [apply reachable_foldl| |].
  - replace (dget (instant_action_resent_at quiet_tracker) quiet_cancel) with (Some 2000%Z)
      by (vm_compute; reflexivity).
    simpl. split_and!; [reflexivity| |exact I].
    intros a Ha. injection Ha as <-. unfold INSTANT_ACTION_RESEND_MAX. lia.
  - apply Nat.ltb_lt. vm_compute. reflexivity.
Defined.

Lemma restart_header_ids_witness :
  (initial_header_id 1767225610000 + (30 - 1) < initial_header_id 1767225620000)%Z.
Proof.
  apply restart_header_ids; unfold HEADER_ID_RATE, HEADER_ID_EPOCH; try lia.
  vm_compute. reflexivity.
Defined.
