(* ===== verification/Runs.v ===== *)
(** * Runs, passes and order revisions of a mission (packages/controllers/mission/server.py)

    A mission runs one or more passes ([repeat]); each pass is a run with its own run id, and an order
    that replaces one the robot has seen goes out as a new revision of the run. The ids of an order
    come from the mission's name, the run id and the revision ([OrderIds.run_prefix]), so both are
    stored before an order that carries them is sent. [Run] is the part of [Robot]'s state about the
    current mission that decides this: the status in memory and the one in the database, which differ
    while a write is under way and after a crash. A write either lands, or raises having been applied
    or not. [published], [ids_drawn], [bumps] and [faults] are history, which no operation reads.
    [_order_revisions] holds seconds of the monotonic clock, here as integers. *)

From S2P Require Import Prelude PyDict OrderIds Mission.
Local Open Scope string_scope.
Local Open Scope list_scope.

(** The fields of [MissionStatusV1] a pass resets (those that only report a block, a hold, skipped
    nodes, notes and the offset summary are [reports]). *)
Record Status := mkStatus {
  st_state : MissionStateV1;
  node_status : list (string * MissionStateV1);
  run_id : option string;
  order_rev : N;
  passes_completed : nat;
  started : bool;                   (** [start_timestamp is not None] *)
  ended : bool;                     (** [end_timestamp is not None] *)
  failure_reason : option string;
  failure_category : option string;
  sent_order : option string;       (** the order id of [status.sent_order] *)
  reports : list string;
}.

Inductive write_result := Stored | Failed (applied : bool).

Record Run := mkRun {
  mem : Status;                     (** [_current_mission.status] *)
  db : Status;
  current : bool;                   (** it is [_current_mission] *)
  needs_canceled : bool;
  alive : bool;                     (** its lifecycle is ALIVE *)
  adopted : option (option string * N);   (** the run and revision whose prefix is [_adopted_prefix] *)
  order_revisions : list Z;
  published : list (option string * N);   (** run and revision of every order sent *)
  ids_drawn : list string;          (** run ids drawn with [uuid4] *)
  bumps : list (Z * bool);          (** times of [_bump_order_rev] since [_order_revisions] was cleared,
                                        and whether there was a new revision *)
  faults : bool;                    (** a write of a pass failed, or the process died between passes *)
}.

Definition ORDER_CHURN_MAX_REVISIONS : nat := 5.
Definition ORDER_CHURN_WINDOW_S : Z := 60.

Section run.
Context (name : string) (repeat : nat).

Definition set_status (r : Run) (m d : Status) : Run :=
  mkRun m d (current r) (needs_canceled r) (alive r) (adopted r) (order_revisions r) (published r)
    (ids_drawn r) (bumps r) (faults r).

(** The database after a write of [s]. *)
Definition write_db (old s : Status) (w : write_result) : Status :=
  match w with Stored | Failed true => s | Failed false => old end.

Definition with_run (s : Status) (i : option string) (rev : N) : Status :=
  mkStatus (st_state s) (node_status s) i rev (passes_completed s) (started s) (ended s)
    (failure_reason s) (failure_category s) (sent_order s) (reports s).

Definition draw (r : Run) (u : string) : Run :=
  mkRun (mem r) (db r) (current r) (needs_canceled r) (alive r) (adopted r) (order_revisions r)
    (published r) (ids_drawn r ++ [u]) (bumps r) (faults r).

(** [_assign_run_id], with the id it draws. *)
Definition assign_run_id (r : Run) (u : string) (w : write_result) : Run * bool :=
  let s := mem r in
  if bool_decide (run_id s <> None) || started s then (r, true)
  else
    let r := draw r u in
    let s' := with_run s (Some u) (order_rev s) in
    match w with
    | Stored => (set_status r s' s', true)
    | Failed _ => (set_status r s (write_db (db r) s' w), false)
    end.

(** [_set_failure_category]: the first one set wins. *)
Definition set_failure_category (s : Status) (c : string) : Status :=
  mkStatus (st_state s) (node_status s) (run_id s) (order_rev s) (passes_completed s) (started s)
    (ended s) (failure_reason s) (Some (default c (failure_category s))) (sent_order s) (reports s).

(** [_set_mission_state]: the state of the mission, of its root and of the nodes not done, and the
    timestamps. (The telemetry it pushes and the robot's own state are not part of the mission's
    status; the write it queues is [StatusStored] below.) *)
Definition set_mission_state (s : Status) (st : MissionStateV1) : Status :=
  if bool_decide (st = st_state s) then s
  else
    let s := if bool_decide (st = CANCELED) then set_failure_category s "CANCELED" else s in
    let nodes := dset (node_status s) "root" st in
    let nodes := if done_state st then dmapv (fun x => if done_state x then x else st) nodes else nodes in
    mkStatus st nodes (run_id s) (order_rev s) (passes_completed s)
      (started s || bool_decide (st = RUNNING)) (ended s || done_state st) (failure_reason s)
      (failure_category s) (sent_order s) (reports s).

Definition set_failure (s : Status) (why : string) : Status :=
  mkStatus (st_state s) (node_status s) (run_id s) (order_rev s) (passes_completed s) (started s)
    (ended s) (Some why) (failure_category s) (sent_order s) (reports s).

(** [while revisions and now - revisions[0] > WINDOW: revisions.popleft()] *)
Fixpoint expire (now : Z) (l : list Z) : list Z :=
  match l with
  | t :: l' => if bool_decide (now - t > ORDER_CHURN_WINDOW_S)%Z then expire now l' else l
  | [] => []
  end.

Definition set_revisions (r : Run) (ad : option (option string * N)) (l : list Z) (bs : list (Z * bool)) : Run :=
  mkRun (mem r) (db r) (current r) (needs_canceled r) (alive r) ad l (published r) (ids_drawn r) bs
    (faults r).

(** [_stop_order_churn]; the owed send it drops and the event it records are not modelled. *)
Definition stop_order_churn (r : Run) : Run :=
  set_status r
    (set_mission_state (set_failure (mem r) "stopped re-issuing it (order churn)") FAILED) (db r).

(** [_bump_order_rev]: whether there is a new revision. (The cancelOrder of a churning mission is
    [InstantActions.stop_our_order].) *)
Definition bump_order_rev (r : Run) (now : Z) (u : string) (w : write_result) : Run * bool :=
  let kept := expire now (order_revisions r) in
  if bool_decide (ORDER_CHURN_MAX_REVISIONS <= length kept) then
    (stop_order_churn (set_revisions r (adopted r) kept (bumps r ++ [(now, false)])), false)
  else
    let s := mem r in
    let legacy := bool_decide (run_id s = None) in
    let r := if legacy then draw r u else r in
    let s' := if legacy then with_run s (Some u) (order_rev s)
              else with_run s (run_id s) (order_rev s + 1)%N in
    match w with
    | Stored => (set_revisions (set_status r s' s') None (kept ++ [now]) (bumps r ++ [(now, true)]), true)
    | Failed _ =>
        (set_revisions (set_status r s (write_db (db r) s' w)) None kept (bumps r ++ [(now, false)]), false)
    end.

(** The run and revision orders go out under ([_order_prefix]). *)
Definition order_run (r : Run) : option string * N :=
  default (run_id (mem r), order_rev (mem r)) (adopted r).
Definition prefix_of (x : option string * N) : string := run_prefix name x.1 x.2.

(** [set_mission_node_state], of a node of the mission *)
Definition set_mission_node_state (s : Status) (node : string) (st : MissionStateV1) : Status :=
  mkStatus (st_state s)
    (match dget (node_status s) node with Some _ => dset (node_status s) node st | None => node_status s end)
    (run_id s) (order_rev s) (passes_completed s) (started s) (ended s) (failure_reason s) (failure_category s) (sent_order s)
    (reports s).

Definition with_sent_order (s : Status) (o : option string) : Status :=
  mkStatus (st_state s) (node_status s) (run_id s) (order_rev s) (passes_completed s) (started s)
    (ended s) (failure_reason s) (failure_category s) o (reports s).

(** [_send_order] of a node that needs a new order: what it is built from is stored first
    ([_persist_sent_order]), then it is published. It is called once the mission has its run id
    ([_try_start_mission]), or is a legacy one. *)
Definition send_order (r : Run) (node : string) (idx : N) (w : write_result) : Run :=
  let s := mem r in
  if done_state (st_state s) || needs_canceled r || (bool_decide (run_id s = None) && negb (started s))
  then r
  else
    let s' := with_sent_order s (Some (order_id (prefix_of (order_run r)) idx)) in
    match w with
    | Stored =>
        let r' := set_status r (set_mission_node_state s' node RUNNING) s' in
        mkRun (mem r') (db r') (current r') (needs_canceled r') (alive r') (adopted r')
          (order_revisions r') (published r' ++ [order_run r]) (ids_drawn r') (bumps r') (faults r')
    | Failed _ => set_status r s (write_db (db r) s' w)
    end.

(** [_try_adopt_running_order] follows an earlier revision of this run; a failed write is ignored. *)
Definition adopt (r : Run) (rev idx : N) (w : write_result) : Run :=
  if bool_decide (rev <= order_rev (mem r))%N && negb (needs_canceled r) then
    let r := set_revisions r (Some (run_id (mem r), rev)) (order_revisions r) (bumps r) in
    let s' := with_sent_order (mem r) (Some (order_id (prefix_of (order_run r)) idx)) in
    set_status r s' (write_db (db r) s' w)
  else r.

(** ** Passes *)

Definition will_run_another_pass (r : Run) : bool :=
  current r && bool_decide (st_state (mem r) = COMPLETED) && negb (needs_canceled r) && alive r
  && (bool_decide (repeat = 0) || bool_decide (passes_completed (mem r) + 1 < repeat)).

(** The status of the next pass. *)
Definition next_status (s : Status) (u : string) : Status :=
  mkStatus PENDING ((fun p => (p.1, PENDING)) <$> node_status s) (Some u) 0 (S (passes_completed s))
    (started s) false None None None [].

(** [_start_next_pass]: whether the pass was started. [tree_ok]: its behaviour tree could be built. The
    counters of the robot's reports it also clears are not part of [Run]; [_adopted_prefix] is, and it
    is not cleared. The first order of the pass is a [send_order] of its own. *)
Definition start_next_pass (r : Run) (u : string) (w : write_result) (tree_ok : bool) : Run * bool :=
  let r := draw r u in
  let s' := next_status (mem r) u in
  match w with
  | Failed _ =>
      let r := set_status r (mem r) (write_db (db r) s' w) in
      (mkRun (mem r) (db r) (current r) (needs_canceled r) (alive r) (adopted r) (order_revisions r)
         (published r) (ids_drawn r) (bumps r) true, false)
  | Stored =>
      let r := set_revisions (set_status r s' s') (adopted r) [] [] in
      if tree_ok then (r, true)
      else (set_status r (set_mission_state (set_failure (mem r) "the behavior tree is not valid") FAILED)
              (db r), false)
  end.

Definition finish_pass (s : Status) : Status :=
  mkStatus (st_state s) (node_status s) (run_id s) (order_rev s) (S (passes_completed s)) (started s)
    (ended s) (failure_reason s) (failure_category s) (sent_order s) (reports s).

Definition leave (r : Run) : Run :=
  mkRun (mem r) (db r) false (needs_canceled r) (alive r) (adopted r) (order_revisions r) (published r)
    (ids_drawn r) (bumps r) (faults r).

(** [get_next_mission], of the mission that has just ended, up to where it picks another one; chaining
    [then_run] and recording do not touch the mission. *)
Definition get_next_mission (r : Run) (u : string) (w w2 : write_result) (tree_ok : bool) : Run :=
  if negb (current r) || negb (done_state (st_state (mem r))) then r
  else if bool_decide (st_state (mem r) = COMPLETED) && negb (needs_canceled r) && alive r then
    let '(r, again) := if will_run_another_pass r then start_next_pass r u w tree_ok else (r, false) in
    if again then r
    else if bool_decide (st_state (mem r) = COMPLETED) then
      let s := finish_pass (mem r) in leave (set_status r s (write_db (db r) s w2))
    else leave r
  else leave r.

(** ** Histories *)

(** A mission that has not run, or (legacy) one started before run ids existed. *)
Definition new_run (nodes : list (string * MissionStateV1)) (legacy : bool) : Run :=
  let s := mkStatus (if legacy then RUNNING else PENDING) nodes None 0 0 legacy false None None None [] in
  mkRun s s true false true None [] [] [] [] false.

(** The process dies and another one resumes the mission from its row; a finished one is not resumed. *)
Definition restart (r : Run) : Run :=
  mkRun (db r) (db r) (negb (done_state (st_state (db r)))) (needs_canceled r) (alive r) None [] (published r)
    (ids_drawn r) [] (faults r || done_state (st_state (db r))).

Definition set_flags (r : Run) (cancel al : bool) : Run :=
  mkRun (mem r) (db r) (current r) cancel al (adopted r) (order_revisions r) (published r) (ids_drawn r)
    (bumps r) (faults r).

Inductive action :=
| Assign (u : string) (w : write_result)
| Bump (now : Z) (u : string) (w : write_result)
| Send (node : string) (idx : N) (w : write_result)
| Adopt (rev idx : N) (w : write_result)
| SetState (st : MissionStateV1)    (** the robot's reports, through the behaviour tree *)
| StatusStored                      (** a queued status write lands *)
| RequestCancel
| Delete
| NextMission (u : string) (w w2 : write_result) (tree_ok : bool)
| Restart.

(** Run ids are drawn anew, and the monotonic clock does not go back. *)
Definition drawable (r : Run) (u : string) : bool := bool_decide (u ∉ ids_drawn r) && run_id_ok u.
Definition clock_ok (r : Run) (now : Z) : bool := forallb (fun t => bool_decide (t.1 <= now)%Z) (bumps r).

Definition step (r : Run) (a : action) : Run :=
  if negb (current r) then r
  else match a with
  | Assign u w => if drawable r u then (assign_run_id r u w).1 else r
  | Bump now u w => if drawable r u && clock_ok r now then (bump_order_rev r now u w).1 else r
  | Send node idx w => send_order r node idx w
  | Adopt rev idx w => adopt r rev idx w
  | SetState st => if done_state (st_state (mem r)) then r else set_status r (set_mission_state (mem r) st) (db r)
  | StatusStored => set_status r (mem r) (mem r)
  | RequestCancel => set_flags r true (alive r)
  | Delete => set_flags r (needs_canceled r) false
  | NextMission u w w2 ok => if drawable r u then get_next_mission r u w w2 ok else r
  | Restart => restart r
  end.

(** ** Invariant *)

Definition key (s : Status) : option string * N := (run_id s, order_rev s).

(** [pub]: the runs and revisions the robot may have seen; [m] and [d]: those of the status in memory
    and in the database. Both know the newest revision of their run, the database is not behind, and
    every run id in use was drawn. *)
Record keys_ok (pub : list (option string * N)) (ids : list string) (m d : option string * N) : Prop := {
  ok_mem : forall x, x ∈ pub -> x.1 = m.1 -> (x.2 <= m.2)%N;
  ok_db : forall x, x ∈ pub -> x.1 = d.1 -> (x.2 <= d.2)%N;
  ok_stored : m.1 = d.1 -> (m.2 <= d.2)%N;
  ok_drawn : forall x u, x ∈ m :: d :: pub -> x.1 = Some u -> u ∈ ids;
  ok_hex : Forall (fun u => run_id_ok u = true) ids;
}.

Definition seen (r : Run) : list (option string * N) := option_list (adopted r) ++ published r.
Definition run_ok (r : Run) : Prop := keys_ok (seen r) (ids_drawn r) (key (mem r)) (key (db r)).

Lemma keys_ok_store pub ids m d : keys_ok pub ids m d -> keys_ok pub ids m m.
Proof. intros []. constructor; auto; try done. intros x u Hx. apply ok_drawn0. set_solver. Qed.

Lemma keys_ok_restart pub pub' ids m d : keys_ok pub ids m d -> pub' ⊆ pub -> keys_ok pub' ids d d.
Proof. intros [] H. constructor; auto; try done. intros x u Hx. apply ok_drawn0. set_solver. Qed.

(** An order goes out, or an older one is adopted. *)
Lemma keys_ok_seen pub pub' ids m d v :
  keys_ok pub ids m d -> (v <= m.2)%N -> pub' ⊆ m :: (m.1, v) :: pub -> keys_ok pub' ids m d.
Proof.
  intros [] Hv H. constructor; auto.
  - intros x [->|[->|Hx]%elem_of_cons]%H%elem_of_cons ?; simpl; [lia..|auto].
  - intros x [->|[->|Hx]%elem_of_cons]%H%elem_of_cons Hd; [auto| |auto]. simpl in *.
    specialize (ok_stored0 Hd). lia.
  - intros x u Hx Hu. assert (x ∈ m :: d :: pub \/ x = (m.1, v)) as [?| ->] by set_solver.
    + by apply (ok_drawn0 x).
    + apply (ok_drawn0 m); [by left|done].
Qed.

Lemma keys_ok_bump pub ids m d :
  keys_ok pub ids m d ->
  keys_ok pub ids (m.1, m.2 + 1)%N (m.1, m.2 + 1)%N /\ keys_ok pub ids m (m.1, m.2 + 1)%N.
Proof.
  intros []. assert (Hn : forall x, x ∈ pub -> x.1 = m.1 -> (x.2 <= m.2 + 1)%N).
  { intros x Hx Hm. specialize (ok_mem0 x Hx Hm). lia. }
  split; constructor; simpl; auto; try lia.
  - intros x u [->|[->|Hx]%elem_of_cons]%elem_of_cons; simpl; [apply (ok_drawn0 m); by left..|].
    apply ok_drawn0. set_solver.
  - intros x u [->|[->|Hx]%elem_of_cons]%elem_of_cons; simpl; [apply (ok_drawn0 m); by left..|].
    apply ok_drawn0. set_solver.
Qed.

(** A run under a new id. *)
Lemma keys_ok_new pub ids m d u v :
  keys_ok pub ids m d -> u ∉ ids -> run_id_ok u = true ->
  keys_ok pub (ids ++ [u]) (Some u, v) (Some u, v) /\ keys_ok pub (ids ++ [u]) m (Some u, v)
  /\ keys_ok pub (ids ++ [u]) m d.
Proof.
  intros [] Hu Hh.
  assert (Hne : forall x, x ∈ m :: d :: pub -> x.1 <> Some u) by (intros x Hx E; apply Hu; eauto).
  assert (Hids : Forall (fun u => run_id_ok u = true) (ids ++ [u])).
  { apply Forall_app. by rewrite Forall_singleton. }
  assert (Hd : forall x w, x ∈ m :: d :: pub \/ x = (Some u, v) -> x.1 = Some w -> w ∈ ids ++ [u]).
  { intros x w [Hx| ->] E; [|set_solver]. apply elem_of_app. left. eauto. }
  split_and!; constructor; simpl; auto; try done.
  - intros x Hx E. destruct (Hne x); [set_solver|done].
  - intros x Hx E. destruct (Hne x); [set_solver|done].
  - intros x w Hx. apply Hd. set_solver.
  - intros x Hx E. destruct (Hne x); [set_solver|done].
  - intros E. destruct (Hne m); [by left|done].
  - intros x w Hx. apply Hd. set_solver.
  - intros x w Hx. apply Hd. set_solver.
Qed.

Lemma key_set_mission_state s st : key (set_mission_state s st) = key s.
Proof. unfold set_mission_state. destruct (bool_decide (st = st_state s)); [done|]. by destruct (bool_decide _). Qed.

Lemma drawable_spec r u : drawable r u = true -> u ∉ ids_drawn r /\ run_id_ok u = true.
Proof. unfold drawable. by intros [?%bool_decide_eq_true ?]%andb_true_iff. Qed.

(** The keys a write leaves in the database. *)
Lemma key_write_db old s w :
  key (write_db old s w) = key s \/ key (write_db old s w) = key old.
Proof. destruct w as [|[]]; simpl; auto. Qed.

Lemma assign_run_id_ok r u w : run_ok r -> drawable r u = true -> run_ok (assign_run_id r u w).1.
Proof.
  intros Hr [Hu Hh]%drawable_spec. unfold assign_run_id. destruct (_ || _); [done|].
  destruct (keys_ok_new _ _ _ _ u (order_rev (mem r)) Hr Hu Hh) as (H1 & H2 & H3).
  destruct w as [|[]]; simpl; [exact H1|exact H2|exact H3].
Qed.

Lemma seen_no_adopt r l bs : seen (set_revisions r None l bs) ⊆ seen r.
Proof. unfold seen. simpl. set_solver. Qed.

Lemma keys_ok_less pub pub' ids m d : keys_ok pub ids m d -> pub' ⊆ pub -> keys_ok pub' ids m d.
Proof. intros H Hs. apply (keys_ok_seen pub pub' ids m d m.2); [done|lia|set_solver]. Qed.

Lemma bump_order_rev_ok r now u w : run_ok r -> drawable r u = true -> run_ok (bump_order_rev r now u w).1.
Proof.
  intros Hr [Hu Hh]%drawable_spec. unfold bump_order_rev.
  destruct (bool_decide (ORDER_CHURN_MAX_REVISIONS <= _)).
  - unfold stop_order_churn, run_ok, seen. simpl. rewrite key_set_mission_state. exact Hr.
  - pose proof (keys_ok_less _ (published r) _ _ _ Hr ltac:(unfold seen; set_solver)) as Hr'.
    destruct (bool_decide (run_id _ = None)) eqn:E.
    + destruct (keys_ok_new _ _ _ _ u (order_rev (mem r)) Hr' Hu Hh) as (H1 & H2 & H3).
      destruct w as [|[]]; simpl; [exact H1|exact H2|exact H3].
    + destruct (keys_ok_bump _ _ _ _ Hr') as (H1 & H2).
      destruct w as [|[]]; simpl; [exact H1|exact H2|exact Hr'].
Qed.

Lemma send_order_ok r node idx w : run_ok r -> run_ok (send_order r node idx w).
Proof.
  intros Hr. unfold send_order. destruct (_ || _); [done|].
  destruct w as [|[]]; simpl; [|exact (keys_ok_store _ _ _ _ Hr)|exact Hr].
  apply (keys_ok_seen (seen r) _ _ _ _ (order_rev (mem r))); [exact (keys_ok_store _ _ _ _ Hr)|simpl; lia|].
  unfold seen, order_run. simpl. destruct (adopted r); simpl; set_solver.
Qed.

Lemma adopt_ok r rev idx w : run_ok r -> run_ok (adopt r rev idx w).
Proof.
  intros Hr. unfold adopt. destruct (bool_decide_reflect (rev <= order_rev (mem r))%N) as [Hrev|]; [|done].
  destruct (needs_canceled r); [done|]. simpl.
  assert (Hm : keys_ok (seen (set_revisions r (Some (run_id (mem r), rev)) (order_revisions r) (bumps r)))
    (ids_drawn r) (key (mem r)) (key (db r))).
  { apply (keys_ok_seen (seen r) _ _ _ _ rev); [done..|]. unfold seen. simpl. set_solver. }
  destruct w as [|[]]; [exact (keys_ok_store _ _ _ _ Hm)..|exact Hm].
Qed.

Lemma get_next_mission_ok r u w w2 ok :
  run_ok r -> drawable r u = true -> run_ok (get_next_mission r u w w2 ok).
Proof.
  intros Hr [Hu Hh]%drawable_spec. unfold get_next_mission. destruct (_ || _); [done|].
  destruct (_ && _ && _); [|exact Hr].
  destruct (keys_ok_new _ _ _ _ u 0 Hr Hu Hh) as (H1 & H2 & H3).
  assert (Hp : run_ok (if will_run_another_pass r then start_next_pass r u w ok else (r, false)).1).
  { destruct (will_run_another_pass r); [|done]. unfold start_next_pass.
    destruct w as [|[]]; simpl; [|exact H2|exact H3]. destruct ok; [exact H1|]. simpl.
    unfold run_ok, seen. simpl. rewrite key_set_mission_state. exact H1. }
  destruct (if will_run_another_pass r then _ else _) as [r' []]; [exact Hp|].
  destruct (bool_decide _); [|exact Hp]. simpl.
  destruct w2 as [|[]]; [exact (keys_ok_store _ _ _ _ Hp)..|exact Hp].
Qed.

Lemma run_step_ok r a : run_ok r -> run_ok (step r a).
Proof.
  intros Hr. unfold step. destruct (current r); [|done]. simpl. destruct a.
  - destruct (drawable r u) eqn:?; [by apply assign_run_id_ok|done].
  - destruct (drawable r u) eqn:?; [|done]. destruct (clock_ok r now); [by apply bump_order_rev_ok|done].
  - by apply send_order_ok.
  - by apply adopt_ok.
  - destruct (done_state _); [done|]. unfold run_ok, seen. simpl. rewrite key_set_mission_state. exact Hr.
  - exact (keys_ok_store _ _ _ _ Hr).
  - exact Hr.
  - exact Hr.
  - destruct (drawable r u) eqn:?; [by apply get_next_mission_ok|done].
  - eapply keys_ok_restart; [exact Hr|]. unfold seen. simpl. set_solver.
Qed.

Lemma run_ok_reachable nodes legacy r : reachable step (new_run nodes legacy) r -> run_ok r.
Proof.
  apply reachable_inv; [|by auto using run_step_ok]. constructor; simpl; try done.
  - intros x Hx. by apply not_elem_of_nil in Hx.
  - intros x Hx. by apply not_elem_of_nil in Hx.
  - intros x u Hx Hu. assert (x.1 = None) by set_solver. congruence.
Qed.

(** ** Churn *)

Definition revision_times (r : Run) : list Z := (filter (fun b => b.2 = true) (bumps r)).*1.
Definition in_window (t : Z) (x : Z) : Prop := (t <= x <= t + ORDER_CHURN_WINDOW_S)%Z.
#[local] Instance in_window_dec t x : Decision (in_window t x).
Proof. unfold in_window. apply _. Defined.

Record churn_ok (r : Run) : Prop := {
  ok_kept : exists old, revision_times r = old ++ order_revisions r
    /\ forall x, x ∈ old -> exists b, b ∈ bumps r /\ (b.1 - x > ORDER_CHURN_WINDOW_S)%Z;
  ok_window : forall t, length (filter (in_window t) (revision_times r)) <= ORDER_CHURN_MAX_REVISIONS;
}.

Lemma expire_split now l :
  exists old, l = old ++ expire now l /\ Forall (fun x => now - x > ORDER_CHURN_WINDOW_S)%Z old.
Proof.
  induction l as [|t l (old & IH & Ho)]; [by exists []|]. simpl.
  destruct (bool_decide_reflect (now - t > ORDER_CHURN_WINDOW_S)%Z); [|by exists []].
  exists (t :: old). simpl. by rewrite <-IH, Forall_cons.
Qed.

Lemma churn_ok_ext r r' :
  churn_ok r -> bumps r' = bumps r -> order_revisions r' = order_revisions r -> churn_ok r'.
Proof. intros [] Hb Ho. constructor; unfold revision_times in *; rewrite ?Hb, ?Ho; auto. Qed.

Lemma churn_ok_clear r : bumps r = [] -> order_revisions r = [] -> churn_ok r.
Proof.
  intros Hb Ho. constructor; unfold revision_times; rewrite Hb, ?Ho; simpl; [|intros; lia].
  exists []. split; [done|]. intros x Hx. by apply not_elem_of_nil in Hx.
Qed.

Lemma revision_times_snoc r r' now b :
  bumps r' = bumps r ++ [(now, b)] ->
  revision_times r' = revision_times r ++ if b then [now] else [].
Proof. intros Hb. unfold revision_times. rewrite Hb, filter_app, fmap_app. by destruct b. Qed.

Lemma filter_none {A : Type} (P : A -> Prop) `{!forall x, Decision (P x)} l :
  (forall x, x ∈ l -> ~ P x) -> filter P l = [].
Proof.
  induction l as [|x l IH]; intros Hn; [done|]. rewrite filter_cons_False by (apply Hn; left).
  apply IH. intros y Hy. apply Hn. by right.
Qed.

(** An attempt at [now]: the revisions still in the window of [now] are all kept. *)
Lemma churn_ok_attempt r r' now (b : bool) :
  churn_ok r -> clock_ok r now = true -> bumps r' = bumps r ++ [(now, b)] ->
  order_revisions r' = expire now (order_revisions r) ++ (if b then [now] else []) ->
  (b = true -> length (expire now (order_revisions r)) < ORDER_CHURN_MAX_REVISIONS) ->
  churn_ok r'.
Proof.
  intros [(old & Hold & Hx) Hw] Hc Hb Ho Hlen.
  destruct (expire_split now (order_revisions r)) as (dr & Hdr & Hgone). rewrite Forall_forall in Hgone.
  pose proof (revision_times_snoc r r' now b Hb) as Ht.
  assert (Hall : forall x, x ∈ old ++ dr -> (now - x > ORDER_CHURN_WINDOW_S)%Z).
  { intros x [Hin|Hin]%elem_of_app; [|auto]. destruct (Hx x Hin) as (y & Hy & Hgt).
    unfold clock_ok in Hc. rewrite forallb_forall in Hc.
    specialize (Hc y ltac:(by apply list_elem_of_In)). apply bool_decide_eq_true in Hc. lia. }
  constructor.
  - exists (old ++ dr). rewrite Ht, Hold, Ho, Hdr at 1. rewrite <-!app_assoc. split; [done|].
    intros x Hin%Hall. exists (now, b). rewrite Hb. split; [set_solver|done].
  - intros t. rewrite Ht. destruct b; [|rewrite app_nil_r; apply Hw]. rewrite filter_app, length_app.
    destruct (decide (in_window t now)) as [Hin|Hout].
    + rewrite Hold, Hdr, app_assoc, filter_app, length_app.
      assert (filter (in_window t) (old ++ dr) = []) as ->.
      { apply filter_none. intros x Hx'%Hall. unfold in_window in *. lia. }
      pose proof (length_filter (in_window t) (expire now (order_revisions r))).
      rewrite filter_cons_True by done. simpl. specialize (Hlen eq_refl). lia.
    + rewrite (filter_cons_False _ now []) by done. simpl. rewrite Nat.add_0_r. apply Hw.
Qed.

Lemma bump_churn_ok r now u w :
  churn_ok r -> clock_ok r now = true -> churn_ok (bump_order_rev r now u w).1.
Proof.
  intros Hr Hc. unfold bump_order_rev.
  destruct (bool_decide_reflect (ORDER_CHURN_MAX_REVISIONS <= length (expire now (order_revisions r)))) as [|Hlt].
  - eapply churn_ok_attempt; [done..| |done]. simpl. by rewrite app_nil_r.
  - destruct (bool_decide (run_id _ = None)), w; simpl;
      (eapply (churn_ok_attempt r _ now true); [done..|intros; lia])
      || (eapply (churn_ok_attempt r _ now false); [done..| |done]; simpl; by rewrite app_nil_r).
Qed.

Lemma step_churn_ok r a : churn_ok r -> churn_ok (step r a).
Proof.
  intros Hr. unfold step. destruct (current r); [|done]. simpl. destruct a.
  - destruct (drawable r u); [|done]. unfold assign_run_id. destruct (_ || _); [done|].
    by destruct w; eapply churn_ok_ext.
  - destruct (drawable r u); [|done]. destruct (clock_ok r now) eqn:?; [by apply bump_churn_ok|done].
  - unfold send_order. destruct (_ || _); [done|]. by destruct w; eapply churn_ok_ext.
  - unfold adopt. destruct (_ && _); [|done]. by eapply churn_ok_ext.
  - destruct (done_state _); [done|]. by eapply churn_ok_ext.
  - by eapply churn_ok_ext.
  - by eapply churn_ok_ext.
  - by eapply churn_ok_ext.
  - destruct (drawable r u); [|done]. unfold get_next_mission. destruct (_ || _); [done|].
    destruct (_ && _ && _); [|by eapply churn_ok_ext].
    assert (Hp : churn_ok (if will_run_another_pass r then start_next_pass r u w tree_ok else (r, false)).1).
    { destruct (will_run_another_pass r); [|done]. unfold start_next_pass.
      destruct w; [|by eapply churn_ok_ext]. by destruct tree_ok; apply churn_ok_clear. }
    destruct (if will_run_another_pass r then _ else _) as [r' []]; [done|].
    by destruct (bool_decide _); eapply churn_ok_ext.
  - by apply churn_ok_clear.
Qed.

Lemma churn_ok_reachable nodes legacy r : reachable step (new_run nodes legacy) r -> churn_ok r.
Proof. apply reachable_inv; [by apply churn_ok_clear|by auto using step_churn_ok]. Qed.

(** ** Passes *)

Record passes_ok (r : Run) : Prop := {
  ok_running : repeat <> 0 -> current r = true ->
    S (passes_completed (mem r)) <= repeat /\ S (passes_completed (db r)) <= repeat;
  ok_bound : repeat <> 0 -> passes_completed (mem r) <= repeat;
  ok_ended : current r = false -> st_state (mem r) = COMPLETED -> needs_canceled r = false ->
    alive r = true -> faults r = false -> repeat <> 0 /\ passes_completed (mem r) = repeat;
}.

(** A step that neither ends the mission nor starts a pass. *)
Lemma passes_ok_ext r r' :
  passes_ok r -> current r = true -> current r' = true ->
  passes_completed (mem r') = passes_completed (mem r) ->
  passes_completed (db r') = passes_completed (db r)
    \/ passes_completed (db r') = passes_completed (mem r) -> passes_ok r'.
Proof.
  intros [] Hc Hc' Hm Hd. constructor; [| |congruence].
  - intros Hn _. destruct (ok_running0 Hn Hc). rewrite Hm. destruct Hd as [->| ->]; auto.
  - intros Hn. rewrite Hm. auto.
Qed.

Lemma passes_set_mission_state s st : passes_completed (set_mission_state s st) = passes_completed s.
Proof. unfold set_mission_state. destruct (bool_decide (st = st_state s)); [done|]. by destruct (bool_decide _). Qed.

(** A mission that ends without a further pass being due. *)
Lemma passes_ok_leave r m d (Hr : passes_ok r) (Hc : current r = true) :
  passes_completed m <= S (passes_completed (mem r)) ->
  (st_state m = COMPLETED -> needs_canceled r = false -> alive r = true -> faults r = false ->
     repeat <> 0 /\ passes_completed m = repeat) ->
  passes_ok (leave (set_status r m d)).
Proof.
  intros Hle He. destruct Hr. constructor; simpl; [done| |auto].
  intros Hn. destruct (ok_running0 Hn Hc). lia.
Qed.

Lemma get_next_mission_passes r u w w2 ok :
  passes_ok r -> current r = true -> passes_ok (get_next_mission r u w w2 ok).
Proof.
  intros Hr Hc. unfold get_next_mission. rewrite Hc. simpl.
  destruct (done_state _); [|done]. simpl. unfold will_run_another_pass. rewrite Hc. simpl.
  destruct (bool_decide_reflect (st_state (mem r) = COMPLETED)) as [Hst|Hst].
  2:{ simpl. replace r with (set_status r (mem r) (db r)) at 1 by by destruct r.
      apply passes_ok_leave; [done..|lia|]. done. }
  destruct (needs_canceled r) eqn:Hn.
  { simpl. replace r with (set_status r (mem r) (db r)) at 1 by by destruct r.
    apply passes_ok_leave; [done..|lia|]. congruence. }
  destruct (alive r) eqn:Ha.
  2:{ simpl. replace r with (set_status r (mem r) (db r)) at 1 by by destruct r.
      apply passes_ok_leave; [done..|lia|]. congruence. }
  simpl. destruct (bool_decide_reflect (repeat = 0)) as [H0|H0]; simpl;
    [|destruct (bool_decide_reflect (passes_completed (mem r) + 1 < repeat)) as [Hlt|Hge]].
  all: pose proof Hr as [].
  - (* endless *) unfold start_next_pass. destruct w as [|ap]; simpl.
    + destruct ok; constructor; simpl; congruence || done.
    + rewrite bool_decide_true by done. constructor; simpl; done.
  - unfold start_next_pass. destruct w as [|ap]; simpl.
    + destruct ok; simpl; [constructor; simpl; [intros; lia..|congruence]|].
      constructor; simpl; [done|intros; lia|done].
    + rewrite bool_decide_true by done. constructor; simpl; [done|intros; lia|done].
  - rewrite bool_decide_true by done. apply passes_ok_leave; simpl; [done..|].
    intros. destruct (ok_running0 H0 Hc). split; [done|]. lia.
Qed.

Lemma step_passes_ok r a : passes_ok r -> passes_ok (step r a).
Proof.
  intros Hr. unfold step. destruct (current r) eqn:Hc; [|done]. simpl. destruct a.
  - destruct (drawable r u); [|done]. unfold assign_run_id. destruct (_ || _); [done|].
    destruct w as [|[]]; by eapply passes_ok_ext; eauto.
  - destruct (drawable r u); [|done]. destruct (clock_ok r now); [|done]. simpl. unfold bump_order_rev.
    destruct (bool_decide (_ <= _)).
    + eapply passes_ok_ext; eauto. simpl. by rewrite passes_set_mission_state.
    + destruct (bool_decide _), w as [|[]]; simpl; by eapply passes_ok_ext; eauto.
  - unfold send_order. destruct (_ || _); [done|]. destruct w as [|[]]; by eapply passes_ok_ext; eauto.
  - unfold adopt. destruct (_ && _); [|done]. destruct w as [|[]]; by eapply passes_ok_ext; eauto.
  - destruct (done_state _); [done|]. eapply passes_ok_ext; eauto. simpl. apply passes_set_mission_state.
  - by eapply passes_ok_ext; eauto.
  - by eapply passes_ok_ext; eauto.
  - by eapply passes_ok_ext; eauto.
  - destruct (drawable r u); [|done]. by apply get_next_mission_passes.
  - destruct Hr. constructor; simpl.
    + intros Hn _. by destruct (ok_running0 Hn Hc).
    + intros Hn. destruct (ok_running0 Hn Hc). lia.
    + intros Hd. apply negb_false_iff in Hd. rewrite Hd, orb_true_r. done.
Qed.

Lemma passes_ok_reachable nodes legacy r : reachable step (new_run nodes legacy) r -> passes_ok r.
Proof.
  apply reachable_inv; [|by auto using step_passes_ok]. constructor; simpl; [intros; lia..|done].
Qed.

(** C2: an order id is never used for a second order: a new revision of a run carries a run and
    revision no order was published under, before or after any restart, so none of its orders has the
    id of an order the robot may have seen. *)
Theorem new_revision_unused nodes legacy r now u w r' :
  reachable step (new_run nodes legacy) r -> drawable r u = true ->
  bump_order_rev r now u w = (r', true) ->
  order_run r' = key (mem r') /\ order_run r' ∉ published r'
  /\ forall x v i j, (Some x, v) ∈ published r' ->
       order_id (run_prefix name (Some x) v) i <> order_id (prefix_of (order_run r')) j.
Proof.
  intros Hr%run_ok_reachable Hd Hb.
  pose proof (bump_order_rev_ok r now u w Hr Hd) as Hr'. apply drawable_spec in Hd as [Hu Hh].
  assert (Hnew : order_run r' = key (mem r') /\ order_run r' ∉ published r' /\ exists y, run_id (mem r') = Some y).
  { unfold bump_order_rev in Hb. destruct (bool_decide (ORDER_CHURN_MAX_REVISIONS <= _)); [done|].
    destruct (bool_decide_reflect (run_id (mem r) = None)) as [E|E], w; simplify_eq/=;
      (split; [done|split; [|eauto]]); unfold order_run; simpl.
    - intros Hin. apply Hu. apply (ok_drawn _ _ _ _ Hr (Some u, order_rev (mem r))); [|done].
      unfold seen. set_solver.
    - intros Hin. assert (order_rev (mem r) + 1 <= order_rev (mem r))%N; [|lia].
      apply (ok_mem _ _ _ _ Hr (run_id (mem r), order_rev (mem r) + 1)%N); [unfold seen; set_solver|done].
    - destruct (run_id (mem r)); [eauto|done]. }
  destruct Hnew as (H1 & H2 & y & Hy). rewrite Hb in Hr'. split_and!; [done..|].
  intros x v i j Hin E. apply H2. apply (f_equal order_prefix) in E.
  rewrite !order_prefix_order_id in E. injection E as E. unfold prefix_of in E. rewrite H1 in E |- *.
  unfold key in *. simpl in E. rewrite Hy in E |- *.
  assert (Hok : forall z, z ∈ ids_drawn r' -> run_id_ok z = true).
  { apply Forall_forall, Hr'. }
  apply run_prefix_inj in E as (_ & -> & ->); [done|..]; apply Hok.
  - apply (ok_drawn _ _ _ _ Hr' (Some x, v)); [|done]. unfold seen. simpl. set_solver.
  - apply (ok_drawn _ _ _ _ Hr' (key (mem r'))); [by left|done].
Qed.

(** Order churn is stopped: within any [ORDER_CHURN_WINDOW_S] a run gets at most
    [ORDER_CHURN_MAX_REVISIONS] new revisions (counted since the pass or the process began). *)
Theorem churn_bounded nodes legacy r t :
  reachable step (new_run nodes legacy) r ->
  length (filter (in_window t) (revision_times r)) <= ORDER_CHURN_MAX_REVISIONS.
Proof. intros Hr%churn_ok_reachable. apply Hr. Qed.

(** A mission that ends completed, not cancelled or deleted, with its passes stored and no crash
    between two of them, has run exactly [repeat] passes; one with [repeat = 0] never ends so; and no
    history makes a mission run more passes than asked for. *)
Theorem passes_exact nodes legacy r :
  reachable step (new_run nodes legacy) r ->
  (repeat <> 0 -> passes_completed (mem r) <= repeat)
  /\ (current r = false -> st_state (mem r) = COMPLETED -> needs_canceled r = false -> alive r = true ->
      faults r = false -> repeat <> 0 /\ passes_completed (mem r) = repeat).
Proof. intros Hr%passes_ok_reachable. split; apply Hr. Qed.

End run.

(** A pass that starts while an earlier revision is being followed reuses that revision's order
    ids: [_start_next_pass] gives the pass a new run id but keeps [_adopted_prefix], so its orders go
    out under a run and revision already published for the previous pass. *)
Theorem adopted_prefix_survives_pass r u idx :
  reachable (step "patrol" 2) (new_run [("root", PENDING); ("n0", PENDING)] false) r ->
  current r = true -> st_state (mem r) = COMPLETED -> needs_canceled r = false -> alive r = true ->
  passes_completed (mem r) = 0 -> adopted r = Some (Some "0000000a", 0%N) ->
  let r' := send_order "patrol" (get_next_mission 2 r u Stored Stored true) "n0" idx Stored in
  run_id (mem r') = Some u /\ last (published r') = Some (Some "0000000a", 0%N)
  /\ sent_order (mem r') = Some (order_id (run_prefix "patrol" (Some "0000000a") 0) idx).
Proof.
  intros _ Hc Hs Hn Ha Hp Had. unfold get_next_mission, will_run_another_pass.
  rewrite Hc, Hs, Hn, Ha, Hp. simpl. unfold send_order, order_run. simpl. rewrite Hn, Had. simpl.
  split_and!; [done|by rewrite last_snoc|done].
Qed.

(** A pass is sent, revised, followed at its first revision and completed. *)
Definition patrol : Run := new_run [("root", PENDING); ("n0", PENDING)] false.
Definition patrol_pass : list action :=
  [Assign "0000000a" Stored; Send "n0" 0 Stored; SetState RUNNING; Bump 100 "0000000b" (Failed true);
   Restart; Bump 101 "0000000b" Stored; Send "n0" 0 Stored; Adopt 0 0 Stored].
Definition patrol_after (es : list action) : Run := foldl (step "patrol" 2) patrol es.

Lemma adopted_prefix_survives_pass_witness :
  let r := patrol_after (patrol_pass ++ [SetState COMPLETED]) in
  let r' := send_order "patrol" (get_next_mission 2 r "0000000c" Stored Stored true) "n0" 0 Stored in
  (Some "0000000a", 0%N) ∈ published r
  /\ (run_id (mem r') = Some "0000000c" /\ last (published r') = Some (Some "0000000a", 0%N)
      /\ sent_order (mem r') = Some (order_id (run_prefix "patrol" (Some "0000000a") 0) 0)).
Proof.
  split; [vm_compute; left|].
  apply adopted_prefix_survives_pass; [apply reachable_foldl|vm_compute; reflexivity..].
Defined.

Lemma new_revision_unused_witness :
  let r := patrol_after patrol_pass in
  let r' := (bump_order_rev r 130 "0000000c" Stored).1 in
  order_run r' = (Some "0000000a", 3%N)
  /\ (order_run r' = key (mem r') /\ order_run r' ∉ published r'
      /\ forall x v i j, (Some x, v) ∈ published r' ->
           order_id (run_prefix "patrol" (Some x) v) i <> order_id (prefix_of "patrol" (order_run r')) j).
Proof.
  split; [vm_compute; reflexivity|].
  apply (new_revision_unused "patrol" 2 [("root", PENDING); ("n0", PENDING)] false
           (patrol_after patrol_pass) 130 "0000000c" Stored);
    [apply reachable_foldl|vm_compute; reflexivity|vm_compute; reflexivity].
Defined.

Lemma churn_bounded_witness :
  let r := patrol_after
    ([Assign "0000000a" Stored; Send "n0" 0 Stored; SetState RUNNING]
     ++ ((fun t => Bump t "0000000b" Stored) <$> [1; 2; 3; 4; 5; 6]%Z)) in
  st_state (mem r) = FAILED
  /\ length (filter (in_window 0) (revision_times r)) <= ORDER_CHURN_MAX_REVISIONS.
Proof.
  split; [vm_compute; reflexivity|].
  apply (churn_bounded "patrol" 2 [("root", PENDING); ("n0", PENDING)] false), reachable_foldl.
Defined.

Lemma passes_exact_witness :
  let pass u := [Send "n0" 0 Stored; SetState RUNNING; SetState COMPLETED; NextMission u Stored Stored true] in
  let r := patrol_after (Assign "0000000a" Stored :: pass "0000000b" ++ pass "0000000c") in
  passes_completed (mem r) = 2
  /\ ((2 <> 0 -> passes_completed (mem r) <= 2)
      /\ (current r = false -> st_state (mem r) = COMPLETED -> needs_canceled r = false ->
          alive r = true -> faults r = false -> 2 <> 0 /\ passes_completed (mem r) = 2)).
Proof.
  split; [vm_compute; reflexivity|].
  apply (passes_exact "patrol" 2 [("root", PENDING); ("n0", PENDING)] false), reachable_foldl.
Defined.
