(* ===== verification/MissionQueue.v ===== *)
(** * Mission timeout and re-queue suppression (packages/controllers/mission/server.py)

    [Timeout]: the timeout watchdog of the current mission, which does not run while the robot is
    offline. A timer is a task that sleeps for its budget and then posts [MissionTimeoutElapsed] with
    its token (mission, budget, start); the message is handled later, when the timer may have been
    replaced. Times are milliseconds of the monotonic clock. [total] and [spent] are history: the
    mission's timeout and the time its timers have run.

    [Finished]: which changes of mission rows [_on_mission_change] queues as new missions, given the
    names this controller has finished. *)

From S2P Require Import Prelude PyDict Mission.
Local Open Scope string_scope.
Local Open Scope list_scope.

Module Timeout.

(** What the handlers read of the current mission. *)
Record MissionView := mkMissionView {
  name : string;
  timeout : option Z;
  needs_canceled : bool;
  state : MissionStateV1;
  blocked : bool;
}.

Record Timer := mkTimer {
  timeout_budget : option (string * Z * Z);   (** [_timeout_budget] *)
  timeout_paused : option (string * Z);       (** [_timeout_paused] *)
  timer_task : bool;                          (** [_mission_timeout_task is not None] *)
  total : Z;
  spent : Z;
}.

Definition new_timer : Timer := mkTimer None None false 0 0.

(** [_remaining_timeout_s], of a mission started at [started] *)
Definition remaining_timeout (m : MissionView) (started : option Z) (now : Z) : option Z :=
  match started, timeout m with
  | Some s, Some t => Some (Z.max (t - (now - s)) 0)
  | _, _ => None
  end.

Definition cancel_mission_timeout (t : Timer) : Timer := mkTimer None None false (total t) (spent t).

(** [_arm_mission_timeout]; a timer that is not the rest of a paused one starts a new count. *)
Definition arm_mission_timeout (t : Timer) (m : option MissionView) (remaining : option Z) (rest : bool)
    (now : Z) : Timer :=
  let t := cancel_mission_timeout t in
  match m with
  | None => t
  | Some m =>
      match timeout m with
      | None => t
      | Some whole =>
          let budget := default whole remaining in
          mkTimer (Some (name m, budget, now)) None true
            (if rest then total t else budget) (if rest then spent t else 0)
      end
  end.

(** [_pause_mission_timeout]; [pause_offline] is the policy's switch. *)
Definition pause_mission_timeout (t : Timer) (m : option MissionView) (pause_offline : bool) (now : Z)
    : Timer :=
  match timeout_budget t with
  | Some (n, budget, started) =>
      if negb pause_offline || negb (timer_task t) then t
      else if match m with Some m => needs_canceled m | None => false end then t
      else
        let remaining := Z.max (budget - (now - started)) 0 in
        mkTimer None (Some (n, remaining)) false (total t) (spent t + (now - started))
  | None => t
  end.

(** [_resume_mission_timeout] *)
Definition resume_mission_timeout (t : Timer) (m : option MissionView) (now : Z) : Timer :=
  let paused := timeout_paused t in
  let t := mkTimer (timeout_budget t) None (timer_task t) (total t) (spent t) in
  match paused, m with
  | Some (n, remaining), Some m' =>
      if negb (bool_decide (n = name m')) || done_state (state m') || blocked m' then t
      else arm_mission_timeout t m (Some remaining) true now
  | _, _ => t
  end.

(** [_on_mission_timeout_elapsed]: whether [_fail_mission_on_timeout] is called. *)
Definition on_mission_timeout_elapsed (t : Timer) (token : string * Z * Z) : bool :=
  bool_decide (timeout_budget t = Some token).

(** How [_fail_mission_on_timeout] ends the mission; [deleted] is [delete_pending_mission]'s answer. *)
Inductive timeout_end := KeepsRunning | EndsCanceled | EndsTimedOut.

Definition fail_mission_on_timeout (m : option MissionView) (has_robot : bool) (n : string)
    (deleted : bool) : timeout_end :=
  match m with
  | Some m =>
      if has_robot && bool_decide (n = name m) && bool_decide (state m = RUNNING) && negb (blocked m) then
        if deleted || needs_canceled m then EndsCanceled else EndsTimedOut
      else KeepsRunning
  | None => KeepsRunning
  end.

Inductive action :=
| Arm (m : option MissionView) (remaining : option Z) (now : Z)   (** dispatch, resume after a restart, next pass *)
| CancelTimer                                                     (** blocked, mission over *)
| Pause (m : option MissionView) (pause_offline : bool) (now : Z)
| Resume (m : option MissionView) (now : Z).

Definition step (t : Timer) (a : action) : Timer :=
  match a with
  | Arm m rem now => arm_mission_timeout t m rem false now
  | CancelTimer => cancel_mission_timeout t
  | Pause m po now => pause_mission_timeout t m po now
  | Resume m now => resume_mission_timeout t m now
  end.

(** What is left of a timer, and the time spent, make up the whole timeout. *)
Record timer_ok (t : Timer) : Prop := {
  ok_budget : forall n b s, timeout_budget t = Some (n, b, s) -> (total t <= b + spent t)%Z;
  ok_paused : forall n b, timeout_paused t = Some (n, b) -> (total t <= b + spent t)%Z;
  ok_one : timeout_budget t = None \/ timeout_paused t = None;
}.

Lemma arm_ok t m rem rest now :
  (rest = true -> forall b, rem = Some b -> total t <= b + spent t)%Z -> (rest = true -> rem <> None) ->
  timer_ok (arm_mission_timeout t m rem rest now).
Proof.
  intros Hr Hn. unfold arm_mission_timeout. destruct m as [m|]; [|by constructor; simpl; auto].
  destruct (timeout m) as [w|]; [|by constructor; simpl; auto].
  constructor; simpl; [|done|by right]. intros n b s [= <- <- <-]. destruct rest; [|simpl; lia].
  destruct rem as [b|]; [by apply Hr|by destruct (Hn eq_refl)].
Qed.

Lemma timer_step_ok t a : timer_ok t -> timer_ok (step t a).
Proof.
  intros Ht. pose proof Ht as []. destruct a; simpl.
  - by apply arm_ok.
  - constructor; simpl; auto; done.
  - unfold pause_mission_timeout. destruct (timeout_budget t) as [[[n b] s]|] eqn:E; [|done].
    destruct (_ || _); [done|]. destruct (match m with Some _ => _ | None => _ end); [done|].
    constructor; simpl; [done| |by left]. intros n' b' [= <- <-]. specialize (ok_budget0 n b s eq_refl). lia.
  - unfold resume_mission_timeout.
    assert (H : timer_ok (mkTimer (timeout_budget t) None (timer_task t) (total t) (spent t))).
    { constructor; simpl; auto; done. }
    destruct (timeout_paused t) as [[n b]|] eqn:E; [|done]. destruct m as [m|]; [|done].
    destruct (_ || _); [done|]. apply arm_ok; [|done]. simpl. intros _ b' [= <-]. by apply (ok_paused0 n).
Qed.

Lemma timer_ok_reachable t : reachable step new_timer t -> timer_ok t.
Proof.
  apply reachable_inv; [|by auto using timer_step_ok]. constructor; simpl; auto; done.
Qed.

(** A mission times out only on a timer that is still the running one (not one paused, replaced or
    cancelled since), and only when the timers have run for the mission's whole timeout: the time the
    robot was offline does not count, however often it came and went. A mission that is blocked, done
    or not the current one is never ended. *)
Theorem timeout_counts_online_time t n b s now m has_robot deleted :
  reachable step new_timer t -> on_mission_timeout_elapsed t (n, b, s) = true ->
  (s + b <= now)%Z ->
  fail_mission_on_timeout m has_robot n deleted <> KeepsRunning ->
  (total t <= spent t + (now - s))%Z /\ timeout_paused t = None
  /\ exists m', m = Some m' /\ name m' = n /\ state m' = RUNNING /\ blocked m' = false.
Proof.
  intros Ht%timer_ok_reachable Hb%bool_decide_eq_true Hnow Hf. destruct Ht.
  specialize (ok_budget0 n b s Hb). split_and!; [lia|by destruct ok_one0; [congruence|]|].
  unfold fail_mission_on_timeout in Hf. destruct m as [m|]; [|done]. exists m.
  destruct has_robot; [|done]. simpl in Hf.
  destruct (bool_decide_reflect (n = name m)); [|done].
  destruct (bool_decide_reflect (state m = RUNNING)); [|done]. by destruct (blocked m).
Qed.

Definition slow_mission : MissionView := mkMissionView "m" (Some 10000%Z) false RUNNING false.

Lemma timeout_counts_online_time_witness :
  let t := foldl step new_timer [Arm (Some slow_mission) None 0; Pause (Some slow_mission) true 4000;
                                 Resume (Some slow_mission) 90000]%Z in
  timeout_budget t = Some ("m", 6000, 90000)%Z
  /\ ((total t <= spent t + (96000 - 90000))%Z /\ timeout_paused t = None
      /\ exists m', Some slow_mission = Some m' /\ name m' = "m" /\ state m' = RUNNING /\ blocked m' = false).
Proof.
  split; [vm_compute; reflexivity|].
  apply (timeout_counts_online_time _ "m" 6000 90000 96000 (Some slow_mission) true false);
    [apply reachable_foldl|vm_compute; reflexivity|lia|vm_compute; discriminate].
Defined.

End Timeout.

Module Finished.

(** A mission row as the watcher delivers it. *)
Record Row := mkRow {
  row_name : string;
  row_alive : bool;                 (** its lifecycle is ALIVE *)
  row_state : MissionStateV1;
  row_started : bool;               (** [start_timestamp is not None] *)
}.

Record Queue := mkQueue {
  missions : list (string * Row);   (** [_missions] *)
  finished : list (string * unit);  (** [_finished_missions] *)
}.

Section finished.
Context (MAX_FINISHED_MISSIONS_TRACKED : nat).

(** [_remember_finished] *)
Definition remember_finished (f : list (string * unit)) (n : string) : list (string * unit) :=
  evict MAX_FINISHED_MISSIONS_TRACKED (dmove_to_end (dset f n ()) n).

(** [get_next_mission] lets go of the mission it has finished. *)
Definition finish (q : Queue) (n : string) : Queue :=
  mkQueue (ddel (missions q) n) (remember_finished (finished q) n).

Inductive verdict := Forgotten | AlreadyQueued | Finished | Terminal | Queued.

(** [_on_mission_change] up to the queueing of a new mission. *)
Definition on_mission_change (q : Queue) (m : Row) : Queue * verdict :=
  if negb (row_alive m) && negb (dmem (missions q) (row_name m)) then
    (mkQueue (missions q) (ddel (finished q) (row_name m)), Forgotten)
  else if dmem (missions q) (row_name m) then (q, AlreadyQueued)
  else
    let looks_freshly_created := bool_decide (row_state m = PENDING) && negb (row_started m) in
    let f := if looks_freshly_created then ddel (finished q) (row_name m) else finished q in
    let q := mkQueue (missions q) f in
    if dmem f (row_name m) then (q, Finished)
    else if done_state (row_state m) then (q, Terminal)
    else
      let ms := dset (missions q) (row_name m) m in
      (mkQueue (if row_started m
                then (row_name m, m) :: ddel ms (row_name m)      (** [move_to_end(last=False)] *)
                else ms) f, Queued).

(** What happens to one name after it was finished: other missions finish, rows arrive. *)
Inductive event := Finish (n : string) | Change (m : Row).
Definition step (q : Queue) (e : event) : Queue :=
  match e with Finish n => finish q n | Change m => (on_mission_change q m).1 end.

(** An event that can end the memory of [n]: a delete, or a mission created anew under its name. *)
Definition forgets (n : string) (e : event) : bool :=
  match e with
  | Change m => bool_decide (row_name m = n)
                && (negb (row_alive m) || bool_decide (row_state m = PENDING) && negb (row_started m))
  | Finish m => false
  end.

Definition finishes (n : string) (e : event) : bool :=
  match e with Finish m => negb (bool_decide (m = n)) | _ => false end.

(** [n] is remembered, not queued, and followed by at most [k] names. *)
Definition remembered (k : nat) (n : string) (q : Queue) : Prop :=
  dget (missions q) n = None
  /\ exists f1 f2, finished q = f1 ++ (n, ()) :: f2 /\ n ∉ keys f1 /\ length f2 <= k.

Lemma ddel_app {V : Type} (d1 d2 : list (string * V)) n : ddel (d1 ++ d2) n = ddel d1 n ++ ddel d2 n.
Proof. induction d1 as [|[j w] d IH]; simpl; [done|]. case_bool_decide; [done|]. by rewrite IH. Qed.

Lemma ddel_length_le {V : Type} (d : list (string * V)) n : length (ddel d n) <= length d.
Proof. induction d as [|[j w] d IH]; simpl; [lia|]. case_bool_decide; simpl; lia. Qed.

Lemma remembered_ddel k n q m ms :
  remembered k n q -> m <> n -> dget ms n = None -> remembered k n (mkQueue ms (ddel (finished q) m)).
Proof.
  intros (_ & f1 & f2 & Hf & Hn & Hk) Hne Hms. split; [done|]. simpl.
  exists (ddel f1 m), (ddel f2 m). rewrite Hf, ddel_app. simpl. rewrite bool_decide_false by done.
  split_and!; [done| |].
  - rewrite keys_ddel. by intros [_ ?]%list_elem_of_filter.
  - pose proof (ddel_length_le f2 m). lia.
Qed.

Lemma remember_finished_shape f n :
  remember_finished f n = evict MAX_FINISHED_MISSIONS_TRACKED (ddel f n ++ [(n, ())]).
Proof.
  unfold remember_finished, dmove_to_end. rewrite dget_dset_eq. f_equal. f_equal.
  induction f as [|[j []] f IH]; simpl.
  - by rewrite bool_decide_true.
  - case_bool_decide as E; simpl; [subst; by rewrite bool_decide_true|].
    rewrite bool_decide_false by done. by rewrite IH.
Qed.

Lemma remembered_finish k n q m :
  remembered k n q -> m <> n -> S k < MAX_FINISHED_MISSIONS_TRACKED -> remembered (S k) n (finish q m).
Proof.
  intros (Hm & f1 & f2 & Hf & Hn & Hk) Hne Hmax. split; [simpl; by rewrite dget_ddel_ne|]. simpl.
  rewrite remember_finished_shape, evict_drop, Hf, ddel_app. simpl. rewrite bool_decide_false by done.
  set (g1 := ddel f1 m). set (g2 := ddel f2 m ++ [(m, ())]).
  assert (Hg : length g2 <= S k).
  { unfold g2. rewrite length_app. simpl. pose proof (ddel_length_le f2 m). lia. }
  replace ((g1 ++ (n, ()) :: ddel f2 m) ++ [(m, ())]) with (g1 ++ (n, ()) :: g2)
    by (unfold g2; rewrite <-app_assoc; done).
  rewrite length_app. simpl.
  exists (drop (length g1 + S (length g2) - MAX_FINISHED_MISSIONS_TRACKED) g1), g2.
  split_and!; [by rewrite drop_app_le by lia| |done].
  intros Hin. apply Hn. unfold keys in *. apply list_elem_of_fmap in Hin as (y & -> & Hy).
  apply (subseteq_drop _ g1) in Hy. unfold g1 in Hy.
  assert (y.1 ∈ keys (ddel f1 m)) as Hk' by (by apply list_elem_of_fmap_2).
  rewrite keys_ddel in Hk'. by apply list_elem_of_filter in Hk' as [_ ?].
Qed.

Lemma remembered_self n q : 0 < MAX_FINISHED_MISSIONS_TRACKED -> remembered 0 n (finish q n).
Proof.
  intros Hmax. split; [apply dget_ddel_eq|]. simpl. rewrite remember_finished_shape, evict_drop.
  rewrite length_app. simpl.
  exists (drop (length (ddel (finished q) n) + 1 - MAX_FINISHED_MISSIONS_TRACKED) (ddel (finished q) n)), [].
  split_and!; [by rewrite drop_app_le by lia| |simpl; lia].
  intros Hin. unfold keys in Hin. apply list_elem_of_fmap in Hin as (y & -> & Hy).
  apply (subseteq_drop _ (ddel (finished q) y.1)) in Hy.
  assert (y.1 ∈ keys (ddel (finished q) y.1)) as Hk by (by apply list_elem_of_fmap_2).
  rewrite keys_ddel in Hk. by apply list_elem_of_filter in Hk as [? _].
Qed.

Lemma remembered_mem k n q : remembered k n q -> dmem (finished q) n = true.
Proof.
  intros (_ & f1 & f2 & -> & Hn & _). unfold dmem. rewrite dget_app. simpl.
  apply dget_None in Hn as ->. by rewrite bool_decide_true.
Qed.

(** A row of a remembered name that does not end its memory. *)
Lemma remembered_echo k n q m :
  remembered k n q -> row_name m = n -> forgets n (Change m) = false ->
  on_mission_change q m = (q, Finished).
Proof.
  intros Hr Hm Hf. pose proof (remembered_mem k n q Hr) as Hmem. destruct Hr as [Hq _].
  unfold forgets in Hf. rewrite bool_decide_true in Hf by done. simpl in Hf.
  apply orb_false_iff in Hf as [Ha Hp]. unfold on_mission_change. rewrite Ha. simpl.
  unfold dmem at 1. rewrite Hm, Hq, Hp, Hmem. by destruct q.
Qed.

Lemma remembered_change k n q m :
  remembered k n q -> forgets n (Change m) = false -> remembered k n (on_mission_change q m).1.
Proof.
  intros Hr Hf. destruct (decide (row_name m = n)) as [Hm|Hne].
  { by rewrite (remembered_echo k n q m). }
  pose proof Hr as [Hq _]. unfold on_mission_change.
  destruct (negb (row_alive m) && _); [by apply remembered_ddel|].
  destruct (dmem (missions q) (row_name m)); [done|].
  assert (Hfin : forall ms, dget ms n = None ->
    remembered k n (mkQueue ms (if bool_decide (row_state m = PENDING) && negb (row_started m)
                                then ddel (finished q) (row_name m) else finished q))).
  { intros ms Hms. destruct (_ && _); [by apply remembered_ddel|]. destruct Hr as [_ Hr]. by split. }
  destruct (dmem _ (row_name m)); [by apply Hfin|].
  destruct (done_state _); [by apply Hfin|]. cbn [fst missions]. apply Hfin.
  assert (dget (dset (missions q) (row_name m) m) n = None) by by rewrite dget_dset_ne.
  destruct (row_started m); [|done]. simpl. rewrite bool_decide_false by done. by rewrite dget_ddel_ne.
Qed.

Lemma remembered_run n es k q :
  remembered k n q -> forallb (fun e => negb (forgets n e)) es = true ->
  k + length (filter (fun e => finishes n e = true) es) < MAX_FINISHED_MISSIONS_TRACKED ->
  exists k', remembered k' n (foldl step q es).
Proof.
  revert k q. induction es as [|e es IH]; intros k q Hr Hf Hk; [eauto|]. simpl in Hf.
  apply andb_true_iff in Hf as [He Hf]. apply negb_true_iff in He. cbn [foldl].
  destruct e as [m|m].
  - destruct (decide (m = n)) as [->|Hne].
    + rewrite filter_cons_False in Hk by (simpl; by rewrite bool_decide_true).
      eapply (IH 0); [apply remembered_self; lia|done|lia].
    + rewrite filter_cons_True in Hk by (simpl; by rewrite bool_decide_false). simpl in Hk.
      eapply (IH (S k)); [apply remembered_finish; [done..|lia]|done|lia].
  - rewrite filter_cons_False in Hk by done. eapply IH; [by apply remembered_change|done..].
Qed.

(** A finished mission is not dispatched again: until its row is deleted or created anew (PENDING,
    never started), or [MAX_FINISHED_MISSIONS_TRACKED] other missions have finished after it, every
    change of its row is ignored as an echo, whatever state it reports. *)
Theorem finished_not_requeued n q es m :
  forallb (fun e => negb (forgets n e)) es = true ->
  length (filter (fun e => finishes n e = true) es) < MAX_FINISHED_MISSIONS_TRACKED ->
  row_name m = n -> forgets n (Change m) = false ->
  (on_mission_change (foldl step (finish q n) es) m).2 = Finished.
Proof.
  intros Hf Hk Hm Hnf. destruct (remembered_run n es 0 (finish q n)) as [k Hr]; [|done|done|].
  - apply remembered_self. lia.
  - by rewrite (remembered_echo k n).
Qed.

(** A mission created anew is never mistaken for a finished one: a live PENDING row that was never
    started is queued, whatever this controller has finished, unless a mission of that name still is. *)
Theorem fresh_mission_queued q m :
  row_alive m = true -> row_state m = PENDING -> row_started m = false ->
  dmem (missions q) (row_name m) = false ->
  (on_mission_change q m).2 = Queued
  /\ dget (missions (on_mission_change q m).1) (row_name m) = Some m.
Proof.
  intros Ha Hs Hst Hq. unfold on_mission_change. rewrite Ha, Hq, Hs, Hst. simpl.
  unfold dmem. rewrite dget_ddel_eq. simpl. by rewrite dget_dset_eq.
Qed.

End finished.

Lemma finished_not_requeued_witness :
  let echo := mkRow "a" true RUNNING true in
  let q := foldl (step 2) (finish 2 (mkQueue [("a", echo)] []) "a")
             [Finish "b"; Change echo; Change (mkRow "c" true PENDING false)] in
  keys (missions q) = ["c"] /\ (on_mission_change q echo).2 = Finished.
Proof.
  split; [vm_compute; reflexivity|].
  apply (finished_not_requeued 2 "a"); [reflexivity| |reflexivity|reflexivity].
  apply Nat.ltb_lt. vm_compute. reflexivity.
Defined.

Lemma fresh_mission_queued_witness :
  let m := mkRow "a" true PENDING false in
  let q := finish 2 (mkQueue [] []) "a" in
  dmem (finished q) "a" = true
  /\ ((on_mission_change q m).2 = Queued /\ dget (missions (on_mission_change q m).1) (row_name m) = Some m).
Proof.
  split; [vm_compute; reflexivity|]. apply fresh_mission_queued; vm_compute; reflexivity.
Defined.

End Finished.
