(* ===== verification/RobotStatus.v ===== *)
(** * Throttled writes of the robot row, and the loop's error log (packages/controllers/mission/server.py)

    [Throttle]: after every state message the robot row is written off the state loop: at once when a
    discrete field changed, otherwise at most every [ROBOT_STATUS_MIN_WRITE_S], with a trailing timer
    ([_store_robot_status], [_write_robot_status], [_robot_trailing_write]). Other parts of the
    controller write the row too; every such request forgets the signature written. The status is its
    signature and its continuous fields; times are milliseconds. [requests] is history: the write
    requests made, each with the status it had (a queued write stores the status it finds later, which
    is at least as new) and whether the throttle made it.

    [LoopErrors]: [_log_loop_error], which keeps a handler that fails on every message from logging at
    the state rate. *)

From S2P Require Import Prelude PyDict.
Local Open Scope list_scope.

Module Throttle.

Record status := mkStatus { signature : nat; continuous : nat }.

Record request := mkRequest { at_ : Z; what : status; throttled : bool }.

Record RobotRow := mkRow {
  current : status;
  written_sig : option nat;           (** [_robot_written_sig] *)
  written_at : option Z;              (** [_robot_written_at]; [None] is minus infinity *)
  write_timer : option Z;             (** when [_robot_write_timer] is due *)
  alive : bool;
  deleted : bool;
  requests : list request;
}.

Section throttle.
Context (ROBOT_STATUS_MIN_WRITE : Z).

Definition new_row (s : status) : RobotRow := mkRow s None None None true false [].

(** [_queue_status_write] of the robot row. *)
Definition queue_status_write (r : RobotRow) (now : Z) (by_throttle : bool) : RobotRow :=
  if negb (alive r) then r
  else mkRow (current r) None (written_at r) (write_timer r) (alive r) (deleted r)
         (requests r ++ [mkRequest now (current r) by_throttle]).

(** [_write_robot_status] *)
Definition write_robot_status (r : RobotRow) (now : Z) : RobotRow :=
  let r := queue_status_write (mkRow (current r) (written_sig r) (written_at r) None (alive r) (deleted r)
                                 (requests r)) now true in
  mkRow (current r) (Some (signature (current r))) (Some now) (write_timer r) (alive r) (deleted r)
    (requests r).

(** [_store_robot_status] *)
Definition store_robot_status (r : RobotRow) (now : Z) : RobotRow :=
  let due := match written_at r with
             | Some t => bool_decide (ROBOT_STATUS_MIN_WRITE <= now - t)%Z
             | None => true
             end in
  if negb (bool_decide (Some (signature (current r)) = written_sig r)) || due then write_robot_status r now
  else match write_timer r, written_at r with
       | None, Some t =>
           if alive r
           then mkRow (current r) (written_sig r) (written_at r)
                  (Some (now + (ROBOT_STATUS_MIN_WRITE - (now - t)))%Z) (alive r) (deleted r) (requests r)
           else r
       | _, _ => r
       end.

(** [_robot_trailing_write] *)
Definition robot_trailing_write (r : RobotRow) (now : Z) : RobotRow :=
  let r := mkRow (current r) (written_sig r) (written_at r) None (alive r) (deleted r) (requests r) in
  if alive r && negb (deleted r) then write_robot_status r now else r.

(** A state message updates the status in place and stores it. *)
Definition on_state (r : RobotRow) (s : status) (now : Z) : RobotRow :=
  store_robot_status (mkRow s (written_sig r) (written_at r) (write_timer r) (alive r) (deleted r)
                        (requests r)) now.

(** [shutdown] cancels the timer. *)
Definition shut_down (r : RobotRow) : RobotRow :=
  mkRow (current r) (written_sig r) (written_at r) None false (deleted r) (requests r).

Inductive action :=
| OnState (s : status) (now : Z)
| OtherWrite (s : status) (now : Z)   (** another part of the controller changes and writes the row *)
| TimerFires (now : Z)
| Delete
| ShutDown.

Definition step (r : RobotRow) (a : action) : RobotRow :=
  match a with
  | OnState s now => on_state r s now
  | OtherWrite s now =>
      queue_status_write (mkRow s (written_sig r) (written_at r) (write_timer r) (alive r) (deleted r)
                            (requests r)) now false
  | TimerFires now =>
      match write_timer r with
      | Some due => if bool_decide (due <= now)%Z then robot_trailing_write r now else r
      | None => r
      end
  | Delete => mkRow (current r) (written_sig r) (written_at r) (write_timer r) (alive r) true (requests r)
  | ShutDown => shut_down r
  end.

(** Two neighbouring requests of the throttle with the same signature keep the distance. *)
Definition spaced_pair (a b : request) : Prop :=
  throttled a = true -> throttled b = true -> signature (what a) = signature (what b) ->
  (ROBOT_STATUS_MIN_WRITE <= at_ b - at_ a)%Z.
Fixpoint spaced_requests (l : list request) : Prop :=
  match l with
  | a :: ((b :: _) as t) => spaced_pair a b /\ spaced_requests t
  | _ => True
  end.

Record row_ok (r : RobotRow) : Prop := {
  ok_stored : alive r = true -> deleted r = false -> requests r <> [] ->
    (what <$> last (requests r)) = Some (current r) \/ is_Some (write_timer r);
  ok_timer : forall d, write_timer r = Some d ->
    exists t, written_at r = Some t /\ d = (t + ROBOT_STATUS_MIN_WRITE)%Z;
  ok_throttled : forall q, alive r = true -> last (requests r) = Some q -> throttled q = true ->
    written_at r = Some (at_ q) /\ written_sig r = Some (signature (what q));
  ok_first : alive r = true -> requests r = [] -> written_sig r = None;
  ok_other : forall q, alive r = true -> last (requests r) = Some q -> throttled q = false ->
    written_sig r = None;
  ok_spaced : spaced_requests (requests r);
}.

Lemma spaced_requests_snoc l q :
  spaced_requests l -> (forall p, last l = Some p -> spaced_pair p q) -> spaced_requests (l ++ [q]).
Proof.
  induction l as [|a l IH]; intros Hl Hq; [done|]. destruct l as [|b l].
  - simpl. split; [|done]. by apply Hq.
  - simpl in *. destruct Hl as [Hab Hl]. split; [done|]. apply IH; [done|]. intros p Hp. by apply Hq.
Qed.

(** The throttle writes: the signature changed, or long enough has passed. *)
Lemma write_robot_status_ok r now :
  (forall q, alive r = true -> last (requests r) = Some q -> throttled q = true ->
     signature (what q) = signature (current r) -> (ROBOT_STATUS_MIN_WRITE <= now - at_ q)%Z) ->
  spaced_requests (requests r) -> row_ok (write_robot_status r now).
Proof.
  intros Hd Hs. unfold write_robot_status, queue_status_write. simpl.
  destruct (alive r) eqn:Ha; simpl; constructor; simpl; try congruence; try done.
  - intros _ _ _. left. by rewrite last_snoc.
  - intros q _. rewrite last_snoc. by intros [= <-].
  - intros _ H. by destruct (requests r).
  - intros q _. rewrite last_snoc. by intros [= <-].
  - apply spaced_requests_snoc; [done|]. intros p Hp Ht _ Hsig. by apply Hd.
Qed.

Lemma on_state_ok r s now : row_ok r -> row_ok (on_state r s now).
Proof.
  intros []. unfold on_state, store_robot_status. cbn [current written_sig written_at write_timer alive].
  destruct (bool_decide_reflect (Some (signature s) = written_sig r)) as [Hsig|Hsig]; simpl.
  - destruct (written_at r) as [t|] eqn:Ht.
    + destruct (bool_decide_reflect (ROBOT_STATUS_MIN_WRITE <= now - t)%Z) as [Hdue|Hdue]; simpl.
      * apply write_robot_status_ok; [|done]. simpl. intros q Ha Hq Htr _.
        destruct (ok_throttled0 q Ha Hq Htr) as [E _]. injection E as <-. lia.
      * assert (Hkeep : forall tm, (alive r = true -> is_Some tm) ->
          (forall d, tm = Some d -> exists t', Some t = Some t' /\ d = (t' + ROBOT_STATUS_MIN_WRITE)%Z) ->
          row_ok (mkRow s (written_sig r) (Some t) tm (alive r) (deleted r) (requests r))).
        { intros tm H1 H2. constructor; simpl; auto. }
        destruct (write_timer r) as [d|] eqn:Hw; simpl.
        { apply Hkeep; [eauto|]. intros d' [= <-]. auto. }
        destruct (alive r) eqn:Ha; [|apply Hkeep; done].
        apply Hkeep; [eauto|]. intros d [= <-]. exists t. split; [done|]. lia.
    + apply write_robot_status_ok; [|done]. simpl. intros q Ha Hq Htr _.
      by destruct (ok_throttled0 q Ha Hq Htr).
  - apply write_robot_status_ok; [|done]. simpl. intros q Ha Hq Htr Hsame.
    destruct (ok_throttled0 q Ha Hq Htr) as [_ E]. rewrite E, Hsame in Hsig. done.
Qed.

Lemma throttle_step_ok r a : row_ok r -> row_ok (step r a).
Proof.
  intros Hr. pose proof Hr as []. destruct a; simpl.
  - by apply on_state_ok.
  - unfold queue_status_write. simpl. destruct (alive r) eqn:Ha; simpl; constructor; simpl; try congruence; auto.
    + intros _ _ _. left. by rewrite last_snoc.
    + intros q _. rewrite last_snoc. by intros [= <-].
    + apply spaced_requests_snoc; [done|]. intros p Hp _ Ht. done.
  - destruct (write_timer r) as [d|] eqn:Hw; [|done].
    destruct (bool_decide_reflect (d <= now)%Z) as [Hdue|]; [|done]. unfold robot_trailing_write. simpl.
    destruct (alive r) eqn:Ha; simpl.
    2:{ constructor; simpl; try congruence; auto. }
    destruct (deleted r) eqn:Hdel; simpl.
    { constructor; simpl; try congruence; auto. }
    apply write_robot_status_ok; [|done]. simpl. intros q _ Hq Htr _.
    destruct (ok_throttled0 q eq_refl Hq Htr) as [E _]. destruct (ok_timer0 d eq_refl) as (t & Et & ->).
    rewrite E in Et. injection Et as <-. lia.
  - constructor; simpl; auto. congruence.
  - constructor; simpl; try congruence; auto.
Qed.

Lemma throttle_reachable_ok s r : reachable step (new_row s) r -> row_ok r.
Proof. apply reachable_inv; [constructor; simpl; done|by auto using throttle_step_ok]. Qed.

(** The newest robot status is never left unwritten: while the controller runs, either the last write
    requested had the current status, or the trailing timer is armed and due no later than the minimum
    interval after that write; when it fires the current status is written. *)
Theorem trailing_write_stores_newest s r :
  reachable step (new_row s) r -> alive r = true -> deleted r = false -> requests r <> [] ->
  (what <$> last (requests r)) = Some (current r)
  \/ exists t, written_at r = Some t /\ write_timer r = Some (t + ROBOT_STATUS_MIN_WRITE)%Z
     /\ forall now, (t + ROBOT_STATUS_MIN_WRITE <= now)%Z ->
          (what <$> last (requests (step r (TimerFires now)))) = Some (current r).
Proof.
  intros Hr%throttle_reachable_ok Ha Hd Hq. destruct (ok_stored r Hr Ha Hd Hq) as [?|[d Hw]]; [by left|].
  right. destruct (ok_timer r Hr d Hw) as (t & Ht & ->). exists t. split_and!; [done..|].
  intros now Hnow. simpl. rewrite Hw, bool_decide_true by done. unfold robot_trailing_write. simpl.
  rewrite Ha, Hd. simpl. unfold write_robot_status, queue_status_write. simpl.
  by rewrite last_snoc.
Qed.

(** States alone do not flood the database: two successive writes of the throttle with the same
    discrete fields are at least the minimum interval apart. *)
Theorem throttle_spaced s r : reachable step (new_row s) r -> spaced_requests (requests r).
Proof. intros Hr%throttle_reachable_ok. apply Hr. Qed.

End throttle.

Lemma trailing_write_stores_newest_witness :
  let r := foldl (step 1000) (new_row (mkStatus 0 0)) [OnState (mkStatus 1 5) 0; OnState (mkStatus 1 6) 400]%Z in
  write_timer r = Some 1000%Z
  /\ ((what <$> last (requests r)) = Some (current r)
      \/ exists t, written_at r = Some t /\ write_timer r = Some (t + 1000)%Z
         /\ forall now, (t + 1000 <= now)%Z ->
              (what <$> last (requests (step 1000 r (TimerFires now)))) = Some (current r)).
Proof.
  split; [vm_compute; reflexivity|].
  apply (trailing_write_stores_newest 1000 (mkStatus 0 0)); [apply reachable_foldl|vm_compute; reflexivity..|].
  vm_compute. discriminate.
Defined.

Lemma throttle_spaced_witness :
  let r := foldl (step 1000) (new_row (mkStatus 0 0))
    [OnState (mkStatus 1 5) 0; OnState (mkStatus 1 6) 400; OnState (mkStatus 2 6) 500;
     OnState (mkStatus 2 7) 600; TimerFires 1500]%Z in
  (at_ <$> requests r) = [0; 500; 1500]%Z /\ spaced_requests 1000 (requests r).
Proof.
  split; [vm_compute; reflexivity|]. apply (throttle_spaced 1000 (mkStatus 0 0)), reachable_foldl.
Defined.

End Throttle.

(** ** The error log of the message loop *)

Module LoopErrors.

(** What [_log_loop_error] writes. *)
Inductive log_line := First (kind : string) | Repeated (kind : string) (n : nat).

Section errors.
Context (SUMMARY_INTERVAL : Z) (MAX_KINDS : nat).

(** [_loop_errors]: per kind, how often it was seen since it was last logged, and when that was. *)
Definition loop_errors := list (string * (nat * Z)).

(** [min(errors, key=lambda k: errors[k][1])]: the first of the least recently logged. *)
Fixpoint oldest (d : loop_errors) : option (string * Z) :=
  match d with
  | [] => None
  | (k, (_, t)) :: d' =>
      match oldest d' with
      | Some (k', t') => if bool_decide (t <= t')%Z then Some (k, t) else Some (k', t')
      | None => Some (k, t)
      end
  end.

Definition log_loop_error (d : loop_errors) (kind : string) (now : Z) : loop_errors * list log_line :=
  match dget d kind with
  | None =>
      let d := if bool_decide (MAX_KINDS <= length d)
               then match oldest d with Some (k, _) => ddel d k | None => d end
               else d in
      (dset d kind (0, now), [First kind])
  | Some (n, t) =>
      if bool_decide (SUMMARY_INTERVAL <= now - t)%Z
      then (dset d kind (0, now), [Repeated kind (S n)])
      else (dset d kind (S n, t), [])
  end.

Definition step (d : loop_errors) (e : string * Z) : loop_errors := (log_loop_error d e.1 e.2).1.

Lemma oldest_in d : d <> [] -> exists k t, oldest d = Some (k, t) /\ k ∈ keys d.
Proof.
  induction d as [|[k [n t]] d IH]; [done|]. intros _. simpl. destruct d as [|p d].
  - exists k, t. split; [done|left].
  - destruct IH as (k' & t' & -> & Hk); [done|]. case_bool_decide; eexists _, _; split; try done; [left|by right].
Qed.

Lemma length_keys_eq (d : loop_errors) : length (keys d) = length d.
Proof. apply length_fmap. Qed.

Lemma ddel_key_length (d : loop_errors) k : dict_wf d -> k ∈ keys d -> S (length (ddel d k)) = length d.
Proof.
  intros Hd Hk. destruct (dget d k) as [v|] eqn:E; [|by apply dget_None in E].
  by rewrite (ddel_perm d k v Hd E) at 2.
Qed.

Lemma errors_ok d : 0 < MAX_KINDS -> reachable step [] d -> dict_wf d /\ length d <= MAX_KINDS.
Proof.
  intros Hmax. apply (reachable_inv step (fun d => dict_wf d /\ length d <= MAX_KINDS));
    [split; [apply dict_wf_nil|simpl; lia]|].
  intros d' [kind now] [Hd Hl]. unfold step, log_loop_error. simpl.
  destruct (dget d' kind) as [[n t]|] eqn:E.
  - assert (forall v, length (dset d' kind v) = length d') as Hlen.
    { intros v. rewrite <-!length_keys_eq, keys_dset, bool_decide_true; [done|by eapply dget_Some_key]. }
    destruct (bool_decide _); simpl; (split; [by apply dict_wf_dset|by rewrite Hlen]).
  - simpl. split; [destruct (bool_decide _), (oldest d') as [[]|]; auto with fleet|].
    set (d1 := if bool_decide (MAX_KINDS <= length d')
               then match oldest d' with Some (k, _) => ddel d' k | None => d' end else d').
    assert (length d1 < MAX_KINDS) as H1.
    { unfold d1. case_bool_decide as Hge; [|lia].
      destruct (oldest_in d') as (k & t & -> & Hk); [by intros ->; simpl in *; lia|].
      pose proof (ddel_key_length d' k Hd Hk). lia. }
    rewrite <-length_keys_eq, keys_dset. case_bool_decide; rewrite ?length_app, length_keys_eq; simpl; lia.
Qed.

(** A handler that fails on every message does not log at its rate, and the first failure of a kind is
    always logged: a kind that is tracked is logged again only after the summary interval, with the
    number of times it was seen since; any other is logged at once; and the table stays bounded. *)
Theorem loop_error_log d kind now :
  0 < MAX_KINDS -> reachable step [] d ->
  length (log_loop_error d kind now).1 <= MAX_KINDS
  /\ match dget d kind with
     | None => (log_loop_error d kind now).2 = [First kind]
     | Some (n, t) =>
         (log_loop_error d kind now).2 = [] /\ (now - t < SUMMARY_INTERVAL)%Z
           /\ dget (log_loop_error d kind now).1 kind = Some (S n, t)
         \/ (log_loop_error d kind now).2 = [Repeated kind (S n)] /\ (SUMMARY_INTERVAL <= now - t)%Z
     end.
Proof.
  intros Hmax Hr. split.
  - apply (errors_ok (step d (kind, now)) Hmax). by constructor.
  - unfold log_loop_error. destruct (dget d kind) as [[n t]|]; [|done].
    case_bool_decide; simpl; [by right|]. left. split_and!; [done|lia|apply dget_dset_eq].
Qed.

End errors.

Lemma loop_error_log_witness :
  let d := foldl (step 60 2) [] [("a", 0); ("a", 1); ("b", 2)]%string%Z in
  length (log_loop_error 60 2 d "c" 3).1 <= 2 /\ (log_loop_error 60 2 d "c" 3).2 = [First "c"].
Proof.
  pose proof (loop_error_log 60 2 (foldl (step 60 2) [] [("a", 0); ("a", 1); ("b", 2)]%string%Z) "c" 3) as H.
  apply H; [lia|apply reachable_foldl].
Defined.

End LoopErrors.
