(* ===== verification/OrderPolicy.v ===== *)
(** * Order settings, order start and factsheet actions (packages/controllers/mission)

    [Policy]: order_policy.py, the settings read from the environment and the limits on what goes to the
    robot. A float is a finite number in units of 10^-12, an infinity or a NaN; the parsing of a numeral
    ([float(text)]) is an argument. [Start]: the loop of order_start.py, of any rule for a passed
    waypoint. [Factsheet]: factsheet_actions.py, the actions a factsheet lists. *)

From S2P Require Import Prelude PyDict.
From Stdlib Require Import Ascii.
Local Open Scope string_scope.
Local Open Scope list_scope.

Module Policy.

Inductive float := Fin (z : Z) | Inf (negative : bool) | NaN.

Definition unit_ : Z := 10 ^ 12.
Definition isfinite (f : float) : bool := match f with Fin _ => true | _ => false end.
(** [f < 0], [f > 0] and [f == 0] *)
Definition negative (f : float) : bool := match f with Fin z => bool_decide (z < 0)%Z | Inf n => n | NaN => false end.
Definition positive (f : float) : bool :=
  match f with Fin z => bool_decide (0 < z)%Z | Inf n => negb n | NaN => false end.
Definition is_zero (f : float) : bool := match f with Fin z => bool_decide (z = 0)%Z | _ => false end.

Definition NODE_POLICY_MAX_WAIT_CAP_S : Z := 120 * unit_.
Definition NODE_POLICY_MAX_WAIT_DEFAULT_S : Z := 10 * unit_.
Definition NODE_POLICY_CORRIDOR_CAP_M : Z := 15 * 10 ^ 11.

(** [text.strip().lower()], of ASCII text *)
Definition is_space (c : ascii) : bool :=
  let n := nat_of_ascii c in bool_decide (n = 32 \/ 9 <= n <= 13 \/ 28 <= n <= 31).
Fixpoint lstrip (s : string) : string :=
  match s with String c t => if is_space c then lstrip t else s | "" => "" end.
Fixpoint rstrip (s : string) : string :=
  match s with
  | "" => ""
  | String c t => match rstrip t with "" => if is_space c then "" else String c "" | t' => String c t' end
  end.
Definition lower_ascii (c : ascii) : ascii :=
  let n := nat_of_ascii c in if bool_decide (65 <= n <= 90) then ascii_of_nat (n + 32) else c.
Fixpoint lower (s : string) : string :=
  match s with "" => "" | String c t => String (lower_ascii c) (lower t) end.
Definition norm (s : string) : string := lower (rstrip (lstrip s)).

Definition TRUE_WORDS : list string := ["1"; "true"; "yes"; "on"].
Definition FALSE_WORDS : list string := ["0"; "false"; "no"; "off"].

Definition ALL_MODES : list string := ["off"; "factsheet"; "on"].
Definition FACTSHEET : string := "factsheet".

(** [_bool] *)
Definition env_bool (raw : option string) (default : bool) : bool :=
  match raw with
  | None => default
  | Some r =>
      if bool_decide (norm r ∈ TRUE_WORDS) then true
      else if bool_decide (norm r ∈ FALSE_WORDS) then false else default
  end.

(** The argument of a validator: a number, or something [float] refuses. *)
Inductive pyval := Number (f : float) | NotANumber.

(** [clamp_max_wait_s] *)
Definition clamp_max_wait_s (v : pyval) : Z :=
  match v with
  | Number (Fin z) => if bool_decide (z < 0)%Z then NODE_POLICY_MAX_WAIT_DEFAULT_S
                      else Z.min z NODE_POLICY_MAX_WAIT_CAP_S
  | _ => NODE_POLICY_MAX_WAIT_DEFAULT_S
  end.

(** [clamp_corridor_m] *)
Definition clamp_corridor_m (v : pyval) : option Z :=
  match v with
  | Number (Fin z) => Some (Z.min (Z.max z 0) NODE_POLICY_CORRIDOR_CAP_M)
  | _ => None
  end.

(** [_known_node_policy_mode] *)
Definition known_node_policy_mode (v : string) : string :=
  if bool_decide (norm v ∈ ALL_MODES) then norm v else FACTSHEET.

Record OrderPolicy := mkPolicy {
  deviation_xy_pass_m : Z;
  deviation_xy_final_m : Z;
  deviation_xy_start_m : Z;
  deviation_theta_pass_rad : Z;
  deviation_theta_final_rad : Z;
  deviation_zero_is_unset : bool;
  deviation_xy_legacy_default_m : option Z;
  node_policy_mode : string;
  node_policy_max_wait_s : Z;
  node_policy_skip_enabled : bool;
  timeout_pause_offline : bool;
  blocked_node_exclusion_min : Z;
  cancel_min_dwell_s : Z;
}.

Definition defaults : OrderPolicy :=
  mkPolicy (35 * 10 ^ 10) (35 * 10 ^ 10) (35 * 10 ^ 10) (31416 * 10 ^ 8) (785 * 10 ^ 9) true
    (Some (10 ^ 11)%Z) FACTSHEET NODE_POLICY_MAX_WAIT_DEFAULT_S true true (10 * unit_) (2 * unit_).

(** [deviation_xy] *)
Definition deviation_xy (p : OrderPolicy) (value : option float) (final : bool) : float :=
  let value := match value, deviation_xy_legacy_default_m p with
               | Some (Fin v), Some l => if bool_decide (Z.abs (v - l) < 1000)%Z then None else value
               | _, _ => value
               end in
  let otherwise := Fin (if final then deviation_xy_final_m p else deviation_xy_pass_m p) in
  match value with
  | Some v => if positive v || is_zero v && negb (deviation_zero_is_unset p) then v else otherwise
  | None => otherwise
  end.

(** [deviation_theta] *)
Definition deviation_theta (p : OrderPolicy) (value : option float) (final : bool) : float :=
  let otherwise := Fin (if final then deviation_theta_final_rad p else deviation_theta_pass_rad p) in
  match value with
  | Some v => if positive v || is_zero v && negb (deviation_zero_is_unset p) then v else otherwise
  | None => otherwise
  end.

Section env.
Context (float_of : string -> option float) (getenv : string -> option string).

(** [_float] *)
Definition env_float (name : string) (default : Z) : Z :=
  match getenv name with
  | None => default
  | Some raw =>
      match match float_of raw with Some f => f | None => NaN end with
      | Fin z => if bool_decide (z < 0)%Z then default else z
      | _ => default
      end
  end.

(** [_optional_float], whose default is a number here *)
Definition env_optional_float (name : string) (default : Z) : option Z :=
  match getenv name with
  | None => Some default
  | Some raw => if bool_decide (norm raw ∈ [""; "none"; "off"]) then None else Some (env_float name default)
  end.

Definition from_env : OrderPolicy :=
  mkPolicy (env_float "ROUTE_DEVIATION_XY_PASS_M" (deviation_xy_pass_m defaults))
    (env_float "ROUTE_DEVIATION_XY_FINAL_M" (deviation_xy_final_m defaults))
    (env_float "ROUTE_START_DEVIATION_XY_M" (deviation_xy_start_m defaults))
    (env_float "ROUTE_DEVIATION_THETA_PASS_RAD" (deviation_theta_pass_rad defaults))
    (env_float "ROUTE_DEVIATION_THETA_FINAL_RAD" (deviation_theta_final_rad defaults))
    (env_bool (getenv "ROUTE_DEVIATION_ZERO_IS_UNSET") (deviation_zero_is_unset defaults))
    (env_optional_float "ROUTE_DEVIATION_XY_LEGACY_DEFAULT_M" (10 ^ 11))
    (known_node_policy_mode (default (node_policy_mode defaults) (getenv "VDA5050_NODE_POLICY_MODE")))
    (clamp_max_wait_s (Number (Fin (env_float "NODE_POLICY_MAX_WAIT_S" (node_policy_max_wait_s defaults)))))
    (env_bool (getenv "NODE_POLICY_SKIP_ENABLED") (node_policy_skip_enabled defaults))
    (env_bool (getenv "MISSION_TIMEOUT_PAUSE_OFFLINE") (timeout_pause_offline defaults))
    (env_float "BLOCKED_NODE_EXCLUSION_MIN" (blocked_node_exclusion_min defaults))
    (env_float "ORDER_CANCEL_MIN_DWELL_S" (cancel_min_dwell_s defaults)).

Lemma env_float_nonneg name d : (0 <= d)%Z -> (0 <= env_float name d)%Z.
Proof.
  intros Hd. unfold env_float. destruct (getenv name) as [raw|]; [|done].
  destruct (match float_of raw with Some f => f | None => NaN end); [|done..]. case_bool_decide; lia.
Qed.

(** A setting that holds for every field of the policy. *)
Record policy_ok (p : OrderPolicy) : Prop := {
  ok_deviations : Forall (fun z => 0 <= z)%Z
    [deviation_xy_pass_m p; deviation_xy_final_m p; deviation_xy_start_m p; deviation_theta_pass_rad p;
     deviation_theta_final_rad p; blocked_node_exclusion_min p; cancel_min_dwell_s p];
  ok_wait : (0 <= node_policy_max_wait_s p <= NODE_POLICY_MAX_WAIT_CAP_S)%Z;
  ok_mode : node_policy_mode p ∈ ALL_MODES;
}.

Lemma clamp_max_wait_bounds v : (0 <= clamp_max_wait_s v <= NODE_POLICY_MAX_WAIT_CAP_S)%Z.
Proof.
  unfold clamp_max_wait_s, NODE_POLICY_MAX_WAIT_CAP_S, NODE_POLICY_MAX_WAIT_DEFAULT_S, unit_.
  destruct v as [[z| |]|]; try lia. case_bool_decide; lia.
Qed.

Lemma known_mode v : known_node_policy_mode v ∈ ALL_MODES.
Proof. unfold known_node_policy_mode. case_bool_decide; [done|]. right. left. Qed.

(** No environment breaks the order settings: whatever the variables hold, the policy read at import
    has finite, non-negative deviations and delays, a wait the robot accepts and a known mode; and the
    deviation sent for a node is a positive value its waypoint asked for, a zero it may ask for, or the
    policy's. *)
Theorem order_policy_safe value final :
  policy_ok from_env
  /\ (negative (deviation_xy from_env value final) = false
      /\ (deviation_xy from_env value final = Fin (if final then deviation_xy_final_m from_env
                                                  else deviation_xy_pass_m from_env)
          \/ value = Some (deviation_xy from_env value final))).
Proof.
  assert (Hok : policy_ok from_env).
  { constructor; [|apply clamp_max_wait_bounds|apply known_mode].
    repeat (apply Forall_cons; split); [apply env_float_nonneg; vm_compute; discriminate..|constructor]. }
  split; [done|]. destruct Hok as [Hd _ _]. rewrite !Forall_cons in Hd.
  destruct Hd as (H1 & H2 & _).
  assert (Hn : negative (Fin (if final then deviation_xy_final_m from_env else deviation_xy_pass_m from_env)) = false).
  { by destruct final; apply bool_decide_eq_false, Z.le_ngt. }
  unfold deviation_xy.
  set (value' := match value, deviation_xy_legacy_default_m from_env with
               | Some (Fin v), Some l => if bool_decide (Z.abs (v - l) < 1000)%Z then None else value
               | _, _ => value end).
  assert (Hv : value' = None \/ value' = value).
  { unfold value'. destruct value as [[]|], (deviation_xy_legacy_default_m from_env); auto. case_bool_decide; auto. }
  clearbody value'. destruct value' as [v|]; [|auto]. destruct Hv as [|Hv]; [done|].
  destruct (positive v || is_zero v && negb (deviation_zero_is_unset from_env)) eqn:E; [|auto].
  split; [|by right; rewrite Hv]. destruct v as [z|n|]; simpl in *; [|by destruct n|done].
  apply bool_decide_eq_false. apply orb_true_iff in E as [E%bool_decide_eq_true|[E _]%andb_true_iff]; [lia|].
  apply bool_decide_eq_true in E. lia.
Qed.

End env.

(** A corridor that is sent is one the robot accepts, sending it again changes nothing, and nothing is
    sent for an unknown one. *)
Theorem corridor_clamped v c :
  clamp_corridor_m v = Some c ->
  (0 <= c <= NODE_POLICY_CORRIDOR_CAP_M)%Z /\ clamp_corridor_m (Number (Fin c)) = Some c.
Proof.
  unfold clamp_corridor_m, NODE_POLICY_CORRIDOR_CAP_M. destruct v as [[z| |]|]; try done.
  intros [= <-]. split; [lia|]. f_equal. lia.
Qed.

Lemma corridor_clamped_witness :
  (0 <= NODE_POLICY_CORRIDOR_CAP_M <= NODE_POLICY_CORRIDOR_CAP_M)%Z
  /\ clamp_corridor_m (Number (Fin NODE_POLICY_CORRIDOR_CAP_M)) = Some NODE_POLICY_CORRIDOR_CAP_M.
Proof. apply (corridor_clamped (Number (Fin (2 * unit_)))). reflexivity. Defined.

End Policy.

(** ** Where an order starts *)

Module Start.

Section start.
Context (is_passed : nat -> bool).

(** [passed_prefix]: the loop from [j], for an order of [n] waypoints. *)
Fixpoint passed_from (fuel j n : nat) : nat :=
  match fuel with
  | 0 => j
  | S fuel => if bool_decide (j < n - 1) && is_passed j then passed_from fuel (S j) n else j
  end.
Definition passed_prefix (n : nat) (start : Z) : nat := passed_from n (Z.to_nat (Z.max start 0)) n.

Lemma passed_from_spec fuel j n :
  n <= fuel + j -> 
  let r := passed_from fuel j n in
  j <= r /\ (j < n -> r < n) /\ (forall i, j <= i < r -> is_passed i = true)
  /\ (r < n - 1 -> is_passed r = false).
Proof.
  revert j. induction fuel as [|fuel IH]; intros j Hf; simpl.
  - split_and!; [lia..| |lia]. intros i Hi. lia.
  - destruct (bool_decide_reflect (j < n - 1)) as [Hj|Hj]; simpl.
    + destruct (is_passed j) eqn:E; [|split_and!; auto; intros; lia].
      destruct (IH (S j)) as (H1 & H2 & H3 & H4); [lia|]. split_and!; [lia|lia| |done].
      intros i Hi. destruct (decide (i = j)) as [->|]; [done|]. apply H3. lia.
    + split_and!; [lia..| |]; intros; lia.
Qed.

(** An order starts at the first waypoint, from [start] on, the robot has not passed: every one before
    it is passed, it is not (unless it is the last one, which always stays), and it exists. *)
Theorem passed_prefix_first n start :
  (0 <= start < Z.of_nat n)%Z ->
  let r := passed_prefix n start in
  Z.to_nat start <= r < n
  /\ (forall i, Z.to_nat start <= i < r -> is_passed i = true)
  /\ (r < n - 1 -> is_passed r = false).
Proof.
  intros Hs. unfold passed_prefix. rewrite Z.max_l by lia.
  destruct (passed_from_spec n (Z.to_nat start) n) as (H1 & H2 & H3 & H4); [lia|].
  split_and!; auto. apply H2. lia.
Qed.

End start.

Lemma passed_prefix_first_witness :
  let is_passed i := bool_decide (i < 2) in
  passed_prefix is_passed 4 0 = 2
  /\ (let r := passed_prefix is_passed 4 0 in
      Z.to_nat 0 <= r < 4 /\ (forall i, Z.to_nat 0 <= i < r -> is_passed i = true)
      /\ (r < 4 - 1 -> is_passed r = false)).
Proof. split; [vm_compute; reflexivity|]. apply passed_prefix_first. lia. Defined.

End Start.

(** ** The actions a factsheet lists *)

Module Factsheet.

(** A JSON value as pydantic hands it over in an unmodelled section. *)
Inductive json :=
| JNull
| JBool (b : bool)
| JNum (f : Policy.float)
| JStr (s : string)
| JList (l : list json)
| JDict (d : list (string * json)).

(** [bool(v)] *)
Definition truthy (v : json) : bool :=
  match v with
  | JNull => false
  | JBool b => b
  | JNum f => negb (Policy.is_zero f)
  | JStr s => bool_decide (s <> "")
  | JList l => match l with [] => false | _ => true end
  | JDict d => match d with [] => false | _ => true end
  end.

(** [x.get(k)] of an object *)
Definition get (d : list (string * json)) (k : string) : json := default JNull (dget d k).

Record CustomActionParameterV1 := mkParam { key : string; value : string }.

Record CustomActionV1 := mkAction {
  action_type : string;
  action_id : string;
  action_description : string;
  action_parameters : list CustomActionParameterV1;
  blocking_type : string;
  icon_hint : option string;
}.

(** [VDA5050ActionParameter] and [VDA5050ActionDefinition] *)
Record ActionParameter := mkActionParameter { pkey : string; pvalue : json }.
Record ActionDefinition := mkDefinition {
  actionType : string;
  actionDescription : string;
  actionParameters : list ActionParameter;
  blockingType : string;
  iconHint : option string;
}.

(** What [listed_actions] reads of a factsheet: the fields of [protocolFeatures], if it has one, and
    [actions]. *)
Record Factsheet := mkFactsheet {
  protocolFeatures : option (list (string * json));
  actions : option (list ActionDefinition);
}.

Inductive exn := TypeError.

Section actions.
(** [str(v)] of a value *)
Context (py_str : json -> string).

(** [_agv_actions] *)
Definition agv_actions (m : Factsheet) : option (list json) :=
  match protocolFeatures m with
  | None => None
  | Some f => match get f "agvActions" with JList l => Some l | _ => None end
  end.

(** [for p in v]: the items of a value, an object's being its keys *)
Definition iter (v : json) : result exn (list json) :=
  match v with
  | JList l => Ok l
  | JStr s => Ok ((fun c => JStr (String c "")) <$> String.list_ascii_of_string s)
  | JDict d => Ok (JStr <$> keys d)
  | JNull | JBool _ | JNum _ => Raise TypeError
  end.

(** [v or other] *)
Definition py_or (v other : json) : json := if truthy v then v else other.

(** The item of the comprehension over [actionParameters] *)
Definition param_of (p : json) : option CustomActionParameterV1 :=
  match p with
  | JDict d => match get d "key" with JNull => None | k => Some (mkParam (py_str k) "") end
  | _ => None
  end.

(** [_from_agv_action] *)
Definition from_agv_action (entry : json) : result exn (option CustomActionV1) :=
  match entry with
  | JDict d =>
      match get d "actionType" with
      | JStr t =>
          if bool_decide (t = "") then Ok None else
          let blocking := match get d "blockingTypes" with JList (JStr b :: _) => b | _ => "HARD" end in
          rbind (iter (py_or (get d "actionParameters") (JList []))) (fun ps =>
            Ok (Some (mkAction t "" (py_str (py_or (get d "actionDescription") (JStr "")))
                        (omap param_of ps) blocking None)))
      | _ => Ok None
      end
  | _ => Ok None
  end.

(** [_from_top_level] *)
Definition from_top_level (a : ActionDefinition) : CustomActionV1 :=
  mkAction (actionType a) "" (actionDescription a)
    ((fun p => mkParam (pkey p) (match pvalue p with JNull => "" | v => py_str v end)) <$> actionParameters a)
    (blockingType a) (iconHint a).

(** One iteration of the loop over [agvActions] *)
Definition merge_entry (merged : list (string * CustomActionV1)) (entry : json)
    : result exn (list (string * CustomActionV1)) :=
  rbind (from_agv_action entry) (fun action =>
    Ok (match action with
        | Some a => if dmem merged (action_type a) then merged else dset merged (action_type a) a
        | None => merged
        end)).

(** The comprehension over [actions] *)
Definition merge_top (top : list ActionDefinition) : list (string * CustomActionV1) :=
  foldl (fun acc a => dset acc (actionType a) (from_top_level a)) [] top.

(** [listed_actions] *)
Definition listed_actions (m : Factsheet)
    : result exn (option (list CustomActionV1) * option nat * option nat) :=
  let top := actions m in
  let agv := agv_actions m in
  match top, agv with
  | None, None => Ok (None, None, None)
  | _, _ =>
      rbind (rfold merge_entry (merge_top (default [] top)) (default [] agv)) (fun merged =>
        Ok (Some (values merged), length <$> top, length <$> agv))
  end.

(** *** The reference: what is listed of one type *)

Definition of_type (t : string) (a : CustomActionV1) : bool := bool_decide (action_type a = t).

(** The entries of [agvActions] that are read *)
Definition agv_read (l : list json) : list CustomActionV1 :=
  omap (fun e => match from_agv_action e with Ok a => a | Raise _ => None end) l.

(** The last top-level entry of the type, or else the first one of [agvActions] *)
Definition pick (top : list ActionDefinition) (agv : list json) (t : string) : option CustomActionV1 :=
  match find_first (of_type t) (reverse (from_top_level <$> top)) with
  | Some a => Some a
  | None => find_first (of_type t) (agv_read agv)
  end.

(** The dictionary has each action under its own type. *)
Definition typed (d : list (string * CustomActionV1)) : Prop :=
  dict_wf d /\ Forall (fun p => action_type p.2 = p.1) d.

Lemma typed_dset d a : typed d -> typed (dset d (action_type a) a).
Proof. intros [Hw Hf]. split; [by apply dict_wf_dset|]. by apply Forall_dset. Qed.

Lemma typed_find d t : typed d -> find_first (of_type t) (values d) = dget d t.
Proof.
  intros [_ Hf]. induction Hf as [|[k a] d Hk _ IH]; [done|]. simpl in *. unfold of_type at 1.
  rewrite Hk. by case_bool_decide.
Qed.

Lemma typed_types d : typed d -> NoDup (action_type <$> values d).
Proof.
  intros [Hw Hf]. unfold dict_wf, keys in Hw. replace (action_type <$> values d) with (d.*1); [done|].
  clear Hw. induction Hf as [|[k a] d Hk _ IH]; [done|]. unfold values in *. simpl in Hk. rewrite !fmap_cons.
  f_equal; [done|apply IH].
Qed.

Lemma merge_top_spec top :
  typed (merge_top top)
  /\ forall t, dget (merge_top top) t = find_first (of_type t) (reverse (from_top_level <$> top)).
Proof.
  unfold merge_top. induction top as [|a top [Ht Hg]] using rev_ind.
  { split; [|done]. split; [apply dict_wf_nil|constructor]. }
  rewrite foldl_app, fmap_app, reverse_app. simpl. split.
  - exact (typed_dset _ (from_top_level a) Ht).
  - intros t. rewrite dget_dset, Hg. unfold of_type at 2. simpl.
    destruct (decide (actionType a = t)) as [->|Hne]; [by rewrite bool_decide_true|].
    by rewrite bool_decide_false by done.
Qed.

Lemma find_first_or_app {A} (p : A -> bool) l l' :
  find_first p (l ++ l') = match find_first p l with Some x => Some x | None => find_first p l' end.
Proof. induction l as [|x l IH]; simpl; [done|]. by destruct (p x). Qed.

Lemma merge_agv_spec l d d' :
  typed d -> rfold merge_entry d l = Ok d' ->
  typed d'
  /\ forall t, dget d' t = match dget d t with Some a => Some a | None => find_first (of_type t) (agv_read l) end.
Proof.
  revert d. induction l as [|e l IH]; simpl; intros d Ht Hr.
  { simplify_eq. split; [done|]. intros t. by destruct (dget d' t). }
  unfold merge_entry in Hr at 1. destruct (from_agv_action e) as [[a|]|] eqn:E; simpl in Hr; [| |done].
  - unfold dmem in Hr. destruct (dget d (action_type a)) as [b|] eqn:Ed.
    + destruct (IH _ Ht Hr) as [Ht' Hg]. split; [done|]. intros t. rewrite Hg.
      destruct (dget d t) as [c|] eqn:Edt; [done|]. simpl. destruct (of_type t a) eqn:Eo; [|done].
      apply bool_decide_eq_true in Eo. congruence.
    + destruct (IH _ (typed_dset _ a Ht) Hr) as [Ht' Hg]. split; [done|]. intros t.
      rewrite Hg, dget_dset. simpl.
      destruct (of_type t a) eqn:Eo; unfold of_type in Eo; bprop; crush.
  - exact (IH _ Ht Hr).
Qed.

(** The actions of a factsheet are its two lists merged by type: no type is listed twice, and what is
    listed of a type is what the two lists have of it, a top-level entry winning over one of
    agvActions (the last of the top-level ones, the first of agvActions). Nothing is returned, so that
    the stored list is kept, exactly when the factsheet has neither list. *)
Theorem listed_actions_merged m r n_top n_agv :
  listed_actions m = Ok (r, n_top, n_agv) ->
  n_top = length <$> actions m /\ n_agv = length <$> agv_actions m
  /\ (r = None <-> actions m = None /\ agv_actions m = None)
  /\ forall listed, r = Some listed ->
     NoDup (action_type <$> listed)
     /\ forall t, find_first (of_type t) listed = pick (default [] (actions m)) (default [] (agv_actions m)) t.
Proof.
  unfold listed_actions. intros Hl.
  assert (H : (actions m = None /\ agv_actions m = None /\ r = None /\ n_top = None /\ n_agv = None)
    \/ (~ (actions m = None /\ agv_actions m = None)
        /\ exists d, rfold merge_entry (merge_top (default [] (actions m))) (default [] (agv_actions m)) = Ok d
           /\ r = Some (values d) /\ n_top = length <$> actions m /\ n_agv = length <$> agv_actions m)).
  { destruct (rfold _ _ _) as [d|] eqn:E; simpl in Hl;
      destruct (actions m), (agv_actions m); simplify_eq; try (by left); right; split; naive_solver. }
  clear Hl. destruct H as [(-> & -> & -> & -> & ->)|(Hn & d & Hd & -> & -> & ->)]; [by split_and!|].
  split_and!; [done..|by split|]. intros listed [= <-].
  destruct (merge_top_spec (default [] (actions m))) as [Ht Hg].
  destruct (merge_agv_spec _ _ _ Ht Hd) as [Ht' Hg']. split; [by apply typed_types|].
  intros t. by rewrite typed_find, Hg', Hg.
Qed.

End actions.

Definition plain_str (v : json) : string := match v with JStr s => s | _ => "?" end.

Definition sheet : Factsheet :=
  mkFactsheet
    (Some [("agvActions", JList [JStr "junk"; JDict [("actionType", JStr "nodePolicy")];
                                 JDict [("actionType", JStr "dock"); ("actionDescription", JStr "agv")]])])
    (Some [mkDefinition "dock" "top" [] "SOFT" None]).

Lemma listed_actions_merged_witness :
  exists listed,
    listed_actions plain_str sheet = Ok (Some listed, Some 1, Some 3)
    /\ action_type <$> listed = ["dock"; "nodePolicy"]
    /\ (forall listed', Some listed = Some listed' ->
         NoDup (action_type <$> listed')
         /\ forall t, find_first (of_type t) listed'
                      = pick plain_str (default [] (actions sheet)) (default [] (agv_actions sheet)) t).
Proof.
  eexists. split; [reflexivity|]. split; [reflexivity|].
  apply (listed_actions_merged plain_str sheet _ (Some 1) (Some 3)). reflexivity.
Defined.

(** A malformed entry of agvActions is not always skipped: one whose actionParameters is a number (or
    true) makes the whole call raise TypeError, whatever else the factsheet lists. *)
Theorem malformed_parameters_raise (py_str : json -> string) top pre post d t z :
  get d "actionType" = JStr t -> t <> "" -> get d "actionParameters" = JNum (Policy.Fin z) -> z <> 0%Z ->
  Forall (fun e => from_agv_action py_str e <> Raise TypeError) pre ->
  listed_actions py_str (mkFactsheet (Some [("agvActions", JList (pre ++ JDict d :: post))]) top) = Raise TypeError.
Proof.
  intros Ht Hne Hp Hz Hpre.
  assert (Hbad : from_agv_action py_str (JDict d) = Raise TypeError).
  { simpl. rewrite Ht, bool_decide_false, Hp by done. unfold py_or. simpl. by rewrite bool_decide_false. }
  assert (Hf : forall acc, rfold (merge_entry py_str) acc (pre ++ JDict d :: post) = Raise TypeError).
  { clear -Hbad Hpre. induction Hpre as [|e pre He _ IH]; intros acc; simpl.
    - unfold merge_entry at 1. by rewrite Hbad.
    - unfold merge_entry at 1. destruct (from_agv_action py_str e) as [|[]]; [apply IH|done]. }
  unfold listed_actions. simpl. destruct top; simpl; by rewrite Hf.
Qed.

Lemma malformed_parameters_raise_witness :
  listed_actions plain_str
    (mkFactsheet (Some [("agvActions", JList ([JDict [("actionType", JStr "nodePolicy")]]
        ++ JDict [("actionType", JStr "dock"); ("actionParameters", JNum (Policy.Fin 1))] :: []))]) None)
  = Raise TypeError.
Proof.
  apply (malformed_parameters_raise plain_str None _ _ _ "dock" 1%Z); [reflexivity|discriminate|reflexivity|lia|].
  repeat constructor. discriminate.
Defined.

End Factsheet.
