(* ===== verification/Orders.v ===== *)
(** * VDA5050 orders (vda5050_types.py, cloud_common/node_policy.py)

    How a mission node becomes an order: its nodes with even sequence ids, the edges between them with
    odd ones, their ids ([OrderIds]), the allowed deviations ([OrderPolicy.Policy]) and the nodePolicy
    actions; and the record of those actions the dispatcher keeps ([describe_node_policies]).

    Coordinates are of any type with the arithmetic [from_move] uses; settings and limits are the
    numbers of [OrderPolicy]. What is shown: every order the dispatcher can build passes the validators
    of the message and is a chain (its edges join neighbouring nodes, ids and sequence ids are those the
    reports of the robot are read by); no node is skippable unless its waypoint asks for it, skipping is
    enabled and the corridor sent is usable, and never the last; the record says what was sent. *)

From S2P Require Import Prelude PyDict OrderIds OrderPolicy.
Local Open Scope string_scope.
Local Open Scope list_scope.
Import Policy.

(** ** Data *)

(** [config.NODE_POLICY_SKIP_MIN_CORRIDOR_M] by default (metres, in units of [Policy.unit_]). *)
Definition NODE_POLICY_SKIP_MIN_CORRIDOR : Z := 10 ^ 11.
Definition NODE_POLICY_ACTION_TYPE : string := "nodePolicy".

Inductive BlockingType := B_NONE | B_SOFT | B_HARD.

(** The values the dispatcher puts into action parameters. *)
Inductive pvalue := VBool (b : bool) | VNum (z : Z) | VText (s : option string).

Record Action := mkAction {
  actionType : string;
  actionId : string;
  blockingType : BlockingType;
  actionParameters : list (string * pvalue);
}.

(** [param_dict] *)
Definition param_dict (a : Action) : list (string * pvalue) := dupdate [] (actionParameters a).

(** [skip_allowed], with [config]'s threshold *)
Definition skip_allowed (threshold : Z) (corridor : option float) : bool :=
  match corridor with
  | Some (Fin c) => bool_decide (Z.max 0 threshold < c)%Z
  | _ => false
  end.

(** [float(v)] of an optional number: [None] is refused. *)
Definition as_number (o : option float) : pyval := match o with Some f => Number f | None => NotANumber end.

Section orders.
Context (num : Type) (add mul : num -> num -> num) (cos sin : num -> num) (nonzero : num -> bool).
Context (threshold : Z).

(** [common.Pose2D] *)
Record Pose := mkPose {
  x : num; y : num; theta : num;
  map_id : string;
  allowedDeviationXY : option float;
  allowedDeviationTheta : option float;
  graph_node : option string;           (** [node_id] *)
  skippable : option bool;
  max_wait_s : option float;
  corridor_width_m : option float;
  origin : option string;
}.

Record NodePosition := mkPosition {
  n_x : num; n_y : num; n_theta : num; mapId : string; deviationXY : float; deviationTheta : float;
}.

Record Node := mkNode {
  nodeId : string;
  sequenceId : N;
  nodePosition : NodePosition;
  n_actions : list Action;
}.

Record Edge := mkEdge { edgeId : string; e_sequenceId : N; startNodeId : string; endNodeId : string }.

Record Order := mkOrder { orderId : string; orderUpdateId : N; nodes : list Node; edges : list Edge }.

(** The robot's pose, all an order reads of the robot. *)
Record RobotPose := mkRobotPose { r_x : num; r_y : num; r_theta : num }.

(** [MissionMoveNodeV1] *)
Record Move := mkMove { distance : option num; rotation : option num }.

(** ** Actions *)

(** [VDA5050Action.from_mission_action], of parameters already turned into texts *)
Definition from_mission_action (atype : string) (params : list (string * option string)) (node : string)
    (mission_node_id : N) : Action :=
  mkAction atype (node_action_id node mission_node_id) B_HARD ((fun p => (p.1, VText p.2)) <$> params).

(** [VDA5050Action.node_policy] *)
Definition node_policy (node : string) (max_wait : option float) (skip : bool) (corridor_width : option float)
    (last : bool) : Action :=
  let corridor := if last then None else clamp_corridor_m (as_number corridor_width) in
  mkAction NODE_POLICY_ACTION_TYPE (node_policy_action_id node) B_NONE
    ([("skippable", VBool (skip && skip_allowed threshold (Fin <$> corridor)));
      ("maxWaitS", VNum (clamp_max_wait_s (as_number max_wait)))]
     ++ match corridor with Some c => [("corridorWidth", VNum c)] | None => [] end).

(** [waypoint_node_policy] *)
Definition waypoint_node_policy (node : string) (w : Pose) (p : OrderPolicy) (last : bool) : Action :=
  node_policy node
    (match max_wait_s w with None => Some (Fin (node_policy_max_wait_s p)) | m => m end)
    (node_policy_skip_enabled p && default false (skippable w)) (corridor_width_m w) last.

(** ** Nodes and edges *)

(** [VDA5050Node.from_pose2d] *)
Definition from_pose2d (w : Pose) (prefix : string) (seq idx : N) (final : bool) (p : OrderPolicy) : Node :=
  mkNode (node_id prefix idx seq) seq
    (mkPosition (x w) (y w) (theta w) (map_id w) (deviation_xy p (allowedDeviationXY w) final)
       (deviation_theta p (allowedDeviationTheta w) final)) [].

(** [VDA5050Node.from_robot], sequence 0 *)
Definition from_robot (r : RobotPose) (prefix : string) (idx : N) (final : bool) (p : OrderPolicy)
    (order_map : string) : Node :=
  mkNode (node_id prefix idx 0) 0
    (mkPosition (r_x r) (r_y r) (r_theta r) order_map
       (Fin (if final then deviation_xy_final_m p else deviation_xy_start_m p))
       (Fin (if final then deviation_theta_final_rad p else deviation_theta_pass_rad p))) [].

(** [if move.distance: ... elif move.rotation: ...] *)
Definition truthy_num (o : option num) : option num :=
  match o with Some v => if nonzero v then Some v else None | None => None end.

(** [VDA5050Node.from_move] *)
Definition node_from_move (r : RobotPose) (m : Move) (prefix : string) (idx seq : N) (p : OrderPolicy) : Node :=
  let '(nx, ny, nt) :=
    match truthy_num (distance m), truthy_num (rotation m) with
    | Some d, _ => (add (r_x r) (mul d (cos (r_theta r))), add (r_y r) (mul d (sin (r_theta r))), r_theta r)
    | None, Some t => (r_x r, r_y r, add (r_theta r) t)
    | None, None => (r_x r, r_y r, r_theta r)
    end in
  mkNode (node_id prefix idx seq) seq
    (mkPosition nx ny nt "" (Fin (deviation_xy_final_m p)) (Fin (deviation_theta_final_rad p))) [].

(** [VDA5050Edge.from_mission_order] *)
Definition from_mission_order (prefix : string) (seq idx : N) : Edge :=
  mkEdge (order_id prefix idx +:+ "-e" +:+ str_N seq) seq
    (node_id prefix idx (seq - 1)) (node_id prefix idx (seq + 1)).

(** ** Orders *)

(** The constructor [VDA5050Order(...)] with its validators. *)
Definition make_order (oid : string) (ns : list Node) (es : list Edge) : result string Order :=
  if bool_decide (length ns < 1) then Raise "Number of nodes must be >= 1"
  else if bool_decide (length es = length ns - 1) then Ok (mkOrder oid 0 ns es)
  else Raise "There must be exactly one less edge than nodes".

Definition with_action (n : Node) (a : Action) : Node :=
  mkNode (nodeId n) (sequenceId n) (nodePosition n) (n_actions n ++ [a]).

(** The node of waypoint [j] of a route with last index [last] *)
Definition route_node (prefix : string) (idx : N) (p : OrderPolicy) (policy_on : bool) (last j : nat) (w : Pose)
    : Node :=
  let node := from_pose2d w prefix (N.of_nat j * 2 + 2) idx (bool_decide (j = last)) p in
  if policy_on then with_action node (waypoint_node_policy (nodeId node) w p (bool_decide (j = last))) else node.

(** [next((w.map_id for w in route.waypoints if w.map_id), "")] *)
Definition order_map_id (ws : list Pose) : string :=
  match find_first (fun w => negb (bool_decide (map_id w = ""))) ws with Some w => map_id w | None => "" end.

(** [VDA5050Order.from_route] *)
Definition from_route (ws : list Pose) (r : RobotPose) (prefix : string) (idx : N) (policy_on : bool)
    (p : OrderPolicy) : result string Order :=
  make_order (order_id prefix idx)
    (from_robot r prefix idx false p (order_map_id ws)
       :: imap (route_node prefix idx p policy_on (length ws - 1)) ws)
    ((fun e => from_mission_order prefix (N.of_nat e * 2 + 1) idx) <$> seq 0 (length ws)).

(** [VDA5050Order.from_move] *)
Definition from_move (m : Move) (r : RobotPose) (prefix : string) (idx : N) (p : OrderPolicy) : result string Order :=
  make_order (order_id prefix idx) [from_robot r prefix idx false p ""; node_from_move r m prefix idx 2 p]
    [from_mission_order prefix 1 idx].

(** [VDA5050Order.from_action] *)
Definition from_action (atype : string) (params : list (string * option string)) (r : RobotPose)
    (prefix : string) (idx : N) (p : OrderPolicy) : result string Order :=
  let start := from_robot r prefix idx true p "" in
  make_order (order_id prefix idx)
    [with_action start (from_mission_action atype params (nodeId start) idx)] [].

(** ** The record of the nodePolicy actions sent *)

Record NodePolicyEntry := mkEntry {
  e_seq : N; waypoint_index : nat; e_skippable : bool; e_corridor : option Z; e_max_wait : option Z;
  reason : string;
}.

Definition num_param (d : list (string * pvalue)) (k : string) : option Z :=
  match dget d k with Some (VNum z) => Some z | _ => None end.
Definition true_param (d : list (string * pvalue)) (k : string) : bool :=
  match dget d k with
  | Some (VBool b) => b
  | Some (VNum z) => negb (bool_decide (z = 0%Z))
  | Some (VText t) => negb (falsy_str t)
  | None => false
  end.

(** The entry of one node, [None] for a node without the action *)
Definition describe_node (n : Node) (w : Pose) (p : OrderPolicy) (offset j count : nat) : option NodePolicyEntry :=
  match find_first (fun a => bool_decide (actionType a = NODE_POLICY_ACTION_TYPE)) (n_actions n) with
  | None => None
  | Some a =>
      let params := param_dict a in
      let corridor := num_param params "corridorWidth" in
      let skip := true_param params "skippable" in
      let asked := default false (skippable w) in
      let why :=
        if bool_decide (j = count - 1) then "structural_last"
        else if skip then "ok"
        else if bool_decide (corridor = Some 0%Z) then "narrow"
        else if bool_decide (is_Some corridor) && asked && node_policy_skip_enabled p
                && negb (skip_allowed threshold (Fin <$> corridor)) then "corridor_below_margin"
        else if bool_decide (corridor = None) then "unknown:no_corridor"
        else if negb (bool_decide (origin w = Some "planned")) then "operator"
        else if asked && negb (node_policy_skip_enabled p) then "skip_disabled"
        else "gate_only" in
      Some (mkEntry (sequenceId n) (offset + j) skip corridor (num_param params "maxWaitS") why)
  end.

(** [describe_node_policies]: the loop from index [j] *)
Fixpoint describe_from (ns : list Node) (ws : list Pose) (p : OrderPolicy) (offset j count : nat)
    : list NodePolicyEntry :=
  match ns, ws with
  | n :: ns, w :: ws =>
      match describe_node n w p offset j count with
      | Some e => e :: describe_from ns ws p offset (S j) count
      | None => describe_from ns ws p offset (S j) count
      end
  | _, _ => []
  end.
Definition describe_node_policies (o : Order) (ws : list Pose) (p : OrderPolicy) (offset : nat)
    : list NodePolicyEntry :=
  describe_from (tail (nodes o)) ws p offset 0 (length ws).

(** ** Proofs *)

Lemma imap_lookup_Some {A B} (f : nat -> A -> B) l i b :
  imap f l !! i = Some b <-> exists a, l !! i = Some a /\ b = f i a.
Proof. rewrite list_lookup_imap, fmap_Some. naive_solver. Qed.

Lemma from_route_Ok ws r prefix idx on p :
  from_route ws r prefix idx on p =
  Ok (mkOrder (order_id prefix idx) 0
        (from_robot r prefix idx false p (order_map_id ws)
           :: imap (route_node prefix idx p on (length ws - 1)) ws)
        ((fun e => from_mission_order prefix (N.of_nat e * 2 + 1) idx) <$> seq 0 (length ws))).
Proof.
  unfold from_route, make_order. rewrite bool_decide_false by (simpl; lia).
  rewrite bool_decide_true; [done|]. rewrite length_fmap, length_seq. simpl. rewrite length_imap. lia.
Qed.

Lemma route_node_ids prefix idx p on last j w :
  nodeId (route_node prefix idx p on last j w) = node_id prefix idx (N.of_nat j * 2 + 2)
  /\ sequenceId (route_node prefix idx p on last j w) = (N.of_nat j * 2 + 2)%N.
Proof. unfold route_node. by destruct on. Qed.

Lemma order_node_ids ws r prefix idx on p o i n :
  from_route ws r prefix idx on p = Ok o -> nodes o !! i = Some n ->
  sequenceId n = (2 * N.of_nat i)%N /\ nodeId n = node_id prefix idx (2 * N.of_nat i).
Proof.
  rewrite from_route_Ok. intros [= <-]. simpl. destruct i as [|j]; simpl.
  - by intros [= <-].
  - intros (w & _ & ->)%imap_lookup_Some. destruct (route_node_ids prefix idx p on (length ws - 1) j w) as [-> ->].
    replace (N.of_nat j * 2 + 2)%N with (2 * N.of_nat (S j))%N by lia. done.
Qed.

Lemma node_id_inj prefix idx a b : node_id prefix idx a = node_id prefix idx b -> a = b.
Proof. intros E%(f_equal node_sequence). rewrite !node_sequence_node_id in E. congruence. Qed.

(** C38: Every route makes an order: the validators of the message accept it, its nodes are numbered 0, 2, 4
    and so on under distinct ids, one per waypoint after the start node, and its edges join neighbouring
    nodes in order, numbered between them. *)
Theorem route_order_chain ws r prefix idx on p :
  exists o, from_route ws r prefix idx on p = Ok o
  /\ orderId o = order_id prefix idx
  /\ length (nodes o) = S (length ws) /\ length (edges o) = length ws
  /\ (forall i n, nodes o !! i = Some n ->
        sequenceId n = (2 * N.of_nat i)%N /\ nodeId n = node_id prefix idx (2 * N.of_nat i))
  /\ (forall e d, edges o !! e = Some d ->
        exists a b, nodes o !! e = Some a /\ nodes o !! S e = Some b
          /\ startNodeId d = nodeId a /\ endNodeId d = nodeId b /\ e_sequenceId d = (sequenceId a + 1)%N)
  /\ NoDup (nodeId <$> nodes o).
Proof.
  pose proof (from_route_Ok ws r prefix idx on p) as E. eexists. split; [exact E|].
  assert (Hids := fun i n => order_node_ids _ _ _ _ _ _ _ i n E).
  set (o := mkOrder _ _ _ _) in *.
  assert (Hlen : length (nodes o) = S (length ws)) by (simpl; by rewrite length_imap).
  split_and!; [done|done|simpl; by rewrite length_fmap, length_seq|done| |].
  - intros e d Hd. simpl in Hd. apply list_lookup_fmap_Some in Hd as (k & -> & Hk).
    apply lookup_seq in Hk as [-> Hk]. simpl.
    destruct (lookup_lt_is_Some_2 (nodes o) e) as [a Ha]; [lia|].
    destruct (lookup_lt_is_Some_2 (nodes o) (S e)) as [b Hb]; [lia|].
    exists a, b. destruct (Hids _ _ Ha) as [Hsa ->], (Hids _ _ Hb) as [_ ->]. rewrite Hsa.
    split_and!; [done|done| | |lia]; f_equal; lia.
  - apply NoDup_alt. intros i j v (a & -> & Ha)%list_lookup_fmap_Some (b & Eb & Hb)%list_lookup_fmap_Some.
    rewrite (proj2 (Hids _ _ Ha)), (proj2 (Hids _ _ Hb)) in Eb. apply node_id_inj in Eb. lia.
Qed.

Lemma num_param_dset d k k' v :
  num_param (dset d k v) k' = if bool_decide (k = k') then match v with VNum z => Some z | _ => None end
                              else num_param d k'.
Proof. unfold num_param. rewrite dget_dset. by case_bool_decide. Qed.

(** What one nodePolicy action says. *)
Lemma node_policy_params node m skip c last :
  let a := node_policy node m skip c last in
  let corridor := if last then None else clamp_corridor_m (as_number c) in
  num_param (param_dict a) "maxWaitS" = Some (clamp_max_wait_s (as_number m))
  /\ num_param (param_dict a) "corridorWidth" = corridor
  /\ true_param (param_dict a) "skippable" = skip && skip_allowed threshold (Fin <$> corridor).
Proof. unfold node_policy, param_dict. simpl. by destruct (if last then None else _). Qed.

Lemma clamp_corridor_bounds v c : clamp_corridor_m v = Some c -> (0 <= c <= NODE_POLICY_CORRIDOR_CAP_M)%Z.
Proof.
  unfold clamp_corridor_m, NODE_POLICY_CORRIDOR_CAP_M. destruct v as [[z| |]|]; try done.
  intros [= <-]. lia.
Qed.

(** The robot is never told it may skip a node it must not: a node of a route order carries at most its
    own nodePolicy action, with a hold time and a corridor the robot accepts; it is skippable only if its
    waypoint asks for it, skipping is enabled and the corridor sent is above the threshold; the start node
    carries none, and the last node is never skippable and has no corridor. *)
Theorem skippable_nodes_usable ws r prefix idx on p o i n a :
  from_route ws r prefix idx on p = Ok o -> nodes o !! i = Some n -> a ∈ n_actions n ->
  on = true /\ n_actions n = [a]
  /\ exists j w, i = S j /\ ws !! j = Some w
     /\ actionType a = NODE_POLICY_ACTION_TYPE /\ actionId a = node_policy_action_id (nodeId n)
     /\ (exists m, num_param (param_dict a) "maxWaitS" = Some m /\ (0 <= m <= NODE_POLICY_MAX_WAIT_CAP_S)%Z)
     /\ (forall c, num_param (param_dict a) "corridorWidth" = Some c ->
          (0 <= c <= NODE_POLICY_CORRIDOR_CAP_M)%Z /\ S j < length ws)
     /\ (true_param (param_dict a) "skippable" = true ->
          S j < length ws /\ skippable w = Some true /\ node_policy_skip_enabled p = true
          /\ exists c, num_param (param_dict a) "corridorWidth" = Some c /\ (Z.max 0 threshold < c)%Z).
Proof.
  rewrite from_route_Ok. intros [= <-]. destruct i as [|j]; simpl; [by intros [= <-] ?%not_elem_of_nil|].
  intros (w & Hw & ->)%imap_lookup_Some Ha. unfold route_node in *. destruct on; [|by apply not_elem_of_nil in Ha].
  simpl in *. apply list_elem_of_singleton in Ha as ->. split_and!; [done|done|].
  exists j, w. pose proof (lookup_lt_Some _ _ _ Hw) as Hj.
  destruct (node_policy_params (node_id prefix idx (N.of_nat j * 2 + 2))
    (match max_wait_s w with None => Some (Fin (node_policy_max_wait_s p)) | m => m end)
    (node_policy_skip_enabled p && default false (skippable w)) (corridor_width_m w)
    (bool_decide (j = length ws - 1))) as (H1 & H2 & H3).
  unfold waypoint_node_policy. rewrite H1, H2, H3. clear H1 H2 H3.
  split_and!; [done..|eexists; split; [done|apply clamp_max_wait_bounds]| |].
  - intros c. case_bool_decide; [done|]. intros ?%clamp_corridor_bounds. split; [done|lia].
  - intros [[-> Hs]%andb_true_iff Hc]%andb_true_iff. case_bool_decide; [done|].
    split; [lia|]. destruct (skippable w) as [[]|]; try done. split_and!; [done..|].
    destruct (clamp_corridor_m _) as [c|]; [|done]. exists c. simpl in Hc. by apply bool_decide_eq_true in Hc.
Qed.

Lemma find_policy prefix idx p last j w :
  find_first (fun a => bool_decide (actionType a = NODE_POLICY_ACTION_TYPE))
    (n_actions (route_node prefix idx p true last j w))
  = Some (waypoint_node_policy (node_id prefix idx (N.of_nat j * 2 + 2)) w p (bool_decide (j = last))).
Proof. reflexivity. Qed.

Lemma describe_from_lookup on ws prefix idx p last offset count j k :
  on = true ->
  describe_from (imap (fun i => route_node prefix idx p on last (j + i)) ws) ws p offset j count !! k =
  (fun w => let n := route_node prefix idx p on last (j + k) w in
            default (mkEntry 0 0 false None None "") (describe_node n w p offset (j + k) count)) <$> ws !! k.
Proof.
  intros ->. revert j k. induction ws as [|w ws IH]; intros j k; [by rewrite !lookup_nil|].
  rewrite imap_cons. cbn [describe_from].
  assert (E : is_Some (describe_node (route_node prefix idx p true last (j + 0) w) w p offset j count)).
  { unfold describe_node. rewrite find_policy. eauto. }
  destruct E as [e E]. rewrite E. destruct k as [|k].
  - rewrite Nat.add_0_r in E |- *. cbn [lookup list_lookup fmap option_fmap option_map]. by rewrite E.
  - cbn [lookup list_lookup].
    rewrite (imap_ext _ (fun i => route_node prefix idx p true last (S j + i))) by (intros; unfold compose; f_equal; lia).
    rewrite IH. by replace (S j + k) with (j + S k) by lia.
Qed.

(** The record of a sent order says what went out: one entry per waypoint, at its index in the stored
    route, with the corridor, hold time and skippable flag of the action its node carries; and its reason
    is ok exactly when the node is skippable. *)
Theorem described_policies_sent ws r prefix idx p o offset :
  from_route ws r prefix idx true p = Ok o ->
  length (describe_node_policies o ws p offset) = length ws
  /\ forall j e, describe_node_policies o ws p offset !! j = Some e ->
     exists n a, nodes o !! S j = Some n /\ n_actions n = [a]
       /\ waypoint_index e = offset + j /\ e_seq e = sequenceId n
       /\ e_skippable e = true_param (param_dict a) "skippable"
       /\ e_corridor e = num_param (param_dict a) "corridorWidth"
       /\ e_max_wait e = num_param (param_dict a) "maxWaitS"
       /\ (reason e = "ok" <-> e_skippable e = true).
Proof.
  intros Ho. pose proof Ho as Ho'. rewrite from_route_Ok in Ho'. injection Ho' as Eo.
  assert (Hl : forall j, describe_node_policies o ws p offset !! j =
    (fun w => default (mkEntry 0 0 false None None "")
       (describe_node (route_node prefix idx p true (length ws - 1) j w) w p offset j (length ws))) <$> ws !! j).
  { intros j. unfold describe_node_policies. rewrite <- Eo. simpl.
    rewrite (imap_ext _ (fun i => route_node prefix idx p true (length ws - 1) (0 + i))) by done.
    by rewrite describe_from_lookup. }
  split.
  { apply Nat.le_antisymm; apply Nat.nlt_ge; intros Hlt.
    - apply lookup_lt_is_Some_2 in Hlt as [e He]. rewrite Hl in He. apply fmap_Some in He as (w & Hw & _).
      apply lookup_lt_Some in Hw. lia.
    - apply lookup_lt_is_Some_2 in Hlt as [w Hw].
      assert (He := Hl (length (describe_node_policies o ws p offset))). rewrite Hw in He.
      rewrite lookup_ge_None_2 in He; done. }
  intros j e He. rewrite Hl in He. apply fmap_Some in He as (w & Hw & ->).
  set (n := route_node prefix idx p true (length ws - 1) j w).
  assert (Hn : nodes o !! S j = Some n) by (rewrite <- Eo; simpl; apply imap_lookup_Some; eauto).
  assert (Hact : exists a, n_actions n = [a]) by (eexists; reflexivity). destruct Hact as [a Ha].
  exists n, a. destruct (skippable_nodes_usable _ _ _ _ _ _ _ _ _ a Ho Hn) as (_ & _ & j' & w' & [= <-] & _ & Ht & _ & _ & _ & Hs);
    [rewrite Ha; by left|].
  unfold describe_node. assert (Hf := find_policy prefix idx p (length ws - 1) j w). fold n in Hf.
  rewrite Hf. rewrite Ha in Hf. simpl in Hf. rewrite Ht, bool_decide_true in Hf by done.
  injection Hf as <-. cbn [default].
  split_and!; [done..|].
  destruct (bool_decide_reflect (j = length ws - 1)) as [->|Hj].
  - split; [done|]. intros Hk. apply Hs in Hk as [Hk _]. apply lookup_lt_Some in Hw. lia.
  - destruct (true_param (param_dict a) "skippable"); [done|]. split; [|done].
    repeat case_match; done.
Qed.

End orders.

(** ** Witnesses: a route of three waypoints, the middle one with room to be skipped *)

Definition wp (skip : option bool) (corridor : option float) : Pose Z :=
  mkPose Z 0%Z 0%Z 0%Z "hall" None None None skip None corridor (Some "planned").
Definition sample_waypoints : list (Pose Z) :=
  [wp None None; wp (Some true) (Some (Fin unit_)); wp (Some true) (Some (Fin unit_))].
Definition sample_order : Order Z :=
  match from_route Z NODE_POLICY_SKIP_MIN_CORRIDOR sample_waypoints (mkRobotPose Z 0%Z 0%Z 0%Z) "m-r1" 0%N true defaults with
  | Ok o => o
  | Raise _ => mkOrder Z "" 0%N [] []
  end.
Definition sample_policy_action (i : nat) : Action :=
  default (mkAction "" "" B_HARD []) (head (default [] (n_actions Z <$> nodes Z sample_order !! i))).

Lemma skippable_nodes_usable_witness :
  (true_param (param_dict (sample_policy_action 2)) "skippable" = true)
  /\ exists j w, 2 = S j /\ sample_waypoints !! j = Some w
     /\ (true_param (param_dict (sample_policy_action 2)) "skippable" = true -> S j < 3 /\ skippable Z w = Some true).
Proof.
  split; [vm_compute; reflexivity|].
  destruct (skippable_nodes_usable Z NODE_POLICY_SKIP_MIN_CORRIDOR sample_waypoints (mkRobotPose Z 0%Z 0%Z 0%Z) "m-r1" 0%N true defaults
    sample_order 2 (default (mkNode Z "" 0%N (mkPosition Z 0%Z 0%Z 0%Z "" NaN NaN) []) (nodes Z sample_order !! 2)) (sample_policy_action 2))
    as (_ & _ & j & w & Hj & Hw & _ & _ & _ & _ & Hs); [vm_compute; reflexivity|vm_compute; reflexivity|vm_compute; left|].
  exists j, w. split; [exact Hj|]. split; [exact Hw|]. intros H. destruct (Hs H) as (? & ? & _). split; assumption.
Defined.

Lemma described_policies_sent_witness :
  reason <$> describe_node_policies Z NODE_POLICY_SKIP_MIN_CORRIDOR sample_order sample_waypoints defaults 4
    = ["unknown:no_corridor"; "ok"; "structural_last"]
  /\ length (describe_node_policies Z NODE_POLICY_SKIP_MIN_CORRIDOR sample_order sample_waypoints defaults 4) = 3.
Proof.
  split; [vm_compute; reflexivity|].
  apply (described_policies_sent Z NODE_POLICY_SKIP_MIN_CORRIDOR sample_waypoints (mkRobotPose Z 0%Z 0%Z 0%Z) "m-r1" 0%N defaults).
  vm_compute. reflexivity.
Defined.
