(* ===== verification/Progress.v ===== *)
(** * Progress of an order and the errors that fail it (packages/controllers/mission/server.py)

    How the controller reads a robot's state message against the order it sent: which node the robot
    reached, which waypoint of the stored route that is, when the mission node is complete
    ([update_mission_node_state], [_complete_order_node], [_order_finished_on_robot]), and which of the
    reported errors fail the mission ([get_mission_errors], [_track_stale_fatal], [_order_rejection]).

    [Ctl] is the part of the controller and of the mission status these methods read and write; the
    prefix of the ids ([_order_prefix], see [Runs]) is an argument, the digest of a route too. Every name
    of the mission tree is a key of [node_status] ([Mission.init_node_status]), so that dictionary is
    updated without a KeyError. [writes] counts the status writes queued ([StatusWrites]). *)

From Stdlib Require Import Ascii.
From S2P Require Import Prelude PyDict OrderIds OrderPolicy Orders Mission.
Local Open Scope string_scope.
Local Open Scope list_scope.

(** ** Messages *)

Inductive ActionStatus := WAITING | INITIALIZING | A_RUNNING | PAUSED | FINISHED | A_FAILED.
#[export] Instance ActionStatus_eq_dec : EqDecision ActionStatus.
Proof. solve_decision. Defined.

Record ActionState := mkActionState {
  as_id : string; as_type : string; as_status : ActionStatus; resultDescription : string;
}.

Inductive ErrorLevel := WARNING | FATAL.
#[export] Instance ErrorLevel_eq_dec : EqDecision ErrorLevel.
Proof. solve_decision. Defined.

Record Error := mkError {
  errorType : option string;
  errorReferences : list (string * string);
  errorDescription : string;
  errorLevel : ErrorLevel;
}.

Record State := mkState {
  s_orderId : string;
  lastNodeId : string;
  lastNodeSequenceId : Z;
  executing : bool;                    (** [nodeStates or edgeStates] *)
  actionStates : list ActionState;
  errors : list Error;
}.

(** [MissionSentOrderV1], as far as progress needs it *)
Record SentOrder := mkSent { so_order_id : string; route_digest : option string; waypoint_offset : nat }.

Record Ctl := mkCtl {
  tree : list MissionNode;
  node_status : list (string * MissionNodeStatus);
  task_status : list (string * Z);
  sent_order : option SentOrder;
  last_node_seq_id : Z;
  stale_fatal_types : list (option string);
  failure_reason : option string;
  failure_category : option string;
  robot_teleop : option bool;          (** whether the robot's state is TELEOP, if it is known *)
  writes : nat;
}.

Definition set_nodes (c : Ctl) (d : list (string * MissionNodeStatus)) : Ctl :=
  mkCtl (tree c) d (task_status c) (sent_order c) (last_node_seq_id c) (stale_fatal_types c) (failure_reason c)
    (failure_category c) (robot_teleop c) (writes c).

(** ** Errors *)

Definition NODE_SKIPPED : string := "nodeSkipped".
Definition ADVISORY_ERROR_TYPES : list (option string) := [Some NODE_SKIPPED].
Definition ORDER_REJECTION_ERROR_TYPES : list (option string) :=
  [Some "orderError"; Some "orderUpdateError"; Some "validationError"; Some "noRouteError"; Some "orderNotAccepted"].
Definition NODE_REFERENCE_KEYS : list string := ["node_id"; "nodeId"; "action_id"; "actionId"].
Definition ORDER_REFERENCE_KEYS : list string := NODE_REFERENCE_KEYS ++ ["order_id"; "orderId"].

Definition advisory (e : Error) : bool := bool_decide (errorType e ∈ ADVISORY_ERROR_TYPES).
Definition fatal (e : Error) : bool := bool_decide (errorLevel e = FATAL).
Definition names_node (e : Error) : bool :=
  existsb (fun r => bool_decide (r.1 ∈ NODE_REFERENCE_KEYS)) (errorReferences e).

(** [_unreferenced_fatal_types] *)
Definition unreferenced_fatal_types (m : State) : list (option string) :=
  errorType <$> List.filter (fun e => fatal e && negb (advisory e) && negb (names_node e)) (errors m).

(** [_is_foreign_error] *)
Definition is_foreign_error (prefix : string) (e : Error) : bool :=
  let verdicts := omap (fun r => if bool_decide (r.1 ∈ ORDER_REFERENCE_KEYS) then is_reference_of prefix r.2 else None)
                    (errorReferences e) in
  match verdicts with [] => false | _ => negb (existsb id verdicts) end.

(** [_track_stale_fatal] *)
Definition track_stale_fatal (prefix : string) (stale : list (option string)) (m : State) : list (option string) :=
  let present := unreferenced_fatal_types m in
  if is_order_of prefix (s_orderId m)
  then List.filter (fun t => bool_decide (t ∈ present)) stale
  else present.

(** Whether an error fails the mission: the three [continue]s of [get_mission_errors] *)
Definition counted (prefix : string) (stale : list (option string)) (e : Error) : bool :=
  fatal e && negb (advisory e)
  && negb (bool_decide (errorType e ∈ stale) && negb (names_node e))
  && negb (is_foreign_error prefix e).

(** The error message a reference puts on a node *)
Definition note_reference (prefix : string) (t : list MissionNode) (description : string)
    (d : list (string * MissionNodeStatus)) (r : string * string) : list (string * MissionNodeStatus) :=
  if bool_decide (r.1 ∈ NODE_REFERENCE_KEYS) then
    match node_index r.2 with
    | None => d
    | Some i =>
        if bool_decide (is_reference_of prefix r.2 = Some false) then d
        else match t !! N.to_nat i with
             | Some node =>
                 let nm := default "" (name node) in
                 match dget d nm with
                 | Some s => dset d nm (mkNodeStatus (n_state s) (Some description))
                 | None => d
                 end
             | None => d
             end
    end
  else d.

(** [_set_failure_category]: the first one set wins *)
Definition first_category (old : option string) (new : string) : option string :=
  match old with None => Some new | c => c end.

(** [get_mission_errors] *)
Definition get_mission_errors (prefix : string) (c : Ctl) (m : State) : Ctl * bool :=
  let own := List.filter (counted prefix (stale_fatal_types c)) (errors m) in
  match own with
  | [] => (c, false)
  | _ =>
      let d := foldl (fun d e => foldl (note_reference prefix (tree c) (errorDescription e)) d (errorReferences e))
                 (node_status c) own in
      (mkCtl (tree c) d (task_status c) (sent_order c) (last_node_seq_id c) (stale_fatal_types c)
         (Some (String.concat (String "010"%char "") (errorDescription <$> own)))
         (first_category (failure_category c) "ROBOT_APP") (robot_teleop c) (writes c), true)
  end.

(** [_order_rejection], for the orderId the controller waits for, if any *)
Definition order_rejection (prefix : string) (pending : option string) (m : State) : list Error :=
  let ours v := match pending with
                | Some p => bool_decide (order_of_reference v = Some p)
                | None => bool_decide (is_reference_of prefix v = Some true)
                end in
  List.filter
    (fun e => negb (advisory e) && (fatal e || bool_decide (errorType e ∈ ORDER_REJECTION_ERROR_TYPES))
              && existsb (fun r => bool_decide (r.1 ∈ ORDER_REFERENCE_KEYS) && ours r.2) (errorReferences e))
    (errors m).

(** ** The record of the order last built *)

(** [_sent_order_record] *)
Definition sent_order_record (c : Ctl) (oid : string) : option SentOrder :=
  match sent_order c with
  | Some r => if bool_decide (oid <> "" /\ so_order_id r = oid) then Some r else None
  | None => None
  end.

(** [_waypoint_offset] *)
Definition offset_of (c : Ctl) (oid : string) : nat :=
  match sent_order_record c oid with Some r => waypoint_offset r | None => 0 end.

Section progress.
Context (digest : MissionRouteNode -> string).

(** [_order_route_is_current] *)
Definition order_route_is_current (c : Ctl) (oid : string) (node : MissionNode) : bool :=
  match sent_order_record c oid, route node with
  | Some (mkSent _ (Some g) _), Some r => bool_decide (g = digest r)
  | _, _ => true
  end.

(** [_note_replaced_route], for a node that is the current leaf with order [current] *)
Definition note_replaced_route (c : Ctl) (current : string) (node : MissionNode) : Ctl :=
  match sent_order_record c current, route node with
  | None, Some r =>
      mkCtl (tree c) (node_status c) (task_status c) (Some (mkSent current (Some (digest r)) 0)) (last_node_seq_id c)
        (stale_fatal_types c) (failure_reason c) (failure_category c) (robot_teleop c) (writes c)
  | _, _ => c
  end.

(** ** Reading progress *)

(** Whether the robot's last node is one of this run and revision, and its sequence id: the id wins over
    [lastNodeSequenceId] where they disagree *)
Definition reached_in_run (prefix : string) (m : State) : bool := is_node_of prefix (lastNodeId m).
Definition last_seq (prefix : string) (m : State) : Z :=
  let seq := if reached_in_run prefix m then lastNodeSequenceId m else 0%Z in
  match node_sequence (lastNodeId m) with
  | Some s => if reached_in_run prefix m && negb (bool_decide (Z.of_N s = seq)) then Z.of_N s else seq
  | None => seq
  end.

Fixpoint rstrip_dots (s : string) : string :=
  match s with
  | "" => ""
  | String ch t => match rstrip_dots t with
                   | "" => if bool_decide (ch = "."%char) then "" else String ch ""
                   | t' => String ch t'
                   end
  end.

(** [_is_node_skipped_action] *)
Definition is_node_skipped_action (a : ActionState) : bool :=
  bool_decide (as_status a = A_FAILED)
  && bool_decide (rstrip_dots (Policy.norm (resultDescription a)) = "node skipped").

Definition INSTANT_ACTION_TYPES : list string := ["cancelOrder"; "factsheetRequest"; "startTeleop"; "stopTeleop"].
Definition NON_NODE_ACTION_TYPES : list string := INSTANT_ACTION_TYPES ++ [NODE_POLICY_ACTION_TYPE].
Definition PAUSE_ORDER : string := "pause_order".

(** [_order_action_state] *)
Definition order_action_state (m : State) (idx : N) : option ActionState :=
  match find_first (fun a => bool_decide (as_id a = order_action_id (s_orderId m) idx)) (actionStates m) with
  | Some a => Some a
  | None => find_first (fun a => negb (bool_decide (as_type a ∈ NON_NODE_ACTION_TYPES))) (actionStates m)
  end.

(** The number of waypoints, [route.size] *)
Definition size (r : MissionRouteNode) : nat := length (waypoints r).

Definition record_waypoint (c : Ctl) (nm : string) (idx : Z) : Ctl :=
  mkCtl (tree c) (node_status c) (dset (task_status c) nm idx) (sent_order c) (last_node_seq_id c)
    (stale_fatal_types c) (failure_reason c) (failure_category c) (robot_teleop c) (S (writes c)).

Definition set_teleop (c : Ctl) : Ctl :=
  mkCtl (tree c) (node_status c) (task_status c) (sent_order c) (last_node_seq_id c)
    (stale_fatal_types c) (failure_reason c) (failure_category c) (Some true) (S (writes c)).

Definition set_last_seq (c : Ctl) (q : Z) : Ctl :=
  mkCtl (tree c) (node_status c) (task_status c) (sent_order c) q
    (stale_fatal_types c) (failure_reason c) (failure_category c) (robot_teleop c) (writes c).

(** The route branch of [update_mission_node_state]: [seq] is the sequence id reached, [next] that of the
    node the robot is now on its way to *)
Definition route_progress (c : Ctl) (m : State) (node : MissionNode) (r : MissionRouteNode) (nm : string)
    (seq next : Z) (st : MissionStateV1) : Ctl * MissionStateV1 :=
  let offset := Z.of_nat (offset_of c (s_orderId m)) in
  let idx := (offset + seq / 2 - 1)%Z in
  let current := order_route_is_current c (s_orderId m) node in
  let c' := if current && bool_decide (last_node_seq_id c < seq)%Z && bool_decide (offset <= idx)%Z
               && bool_decide (idx < Z.of_nat (size r))%Z
            then record_waypoint c nm idx else c in
  (c', if current && bool_decide (next = (Z.of_nat (size r) - offset) * 2 + 2)%Z then COMPLETED else st).

(** The action branch *)
Definition action_progress (c : Ctl) (m : State) (idx : N) (st : MissionStateV1) : Ctl * MissionStateV1 :=
  match order_action_state m idx with
  | None => (c, st)
  | Some a =>
      match as_status a with
      | FINISHED => (c, COMPLETED)
      | A_FAILED => (c, if is_node_skipped_action a then COMPLETED else FAILED)
      | _ =>
          if bool_decide (as_type a = PAUSE_ORDER) && bool_decide (robot_teleop c = Some false)
          then (set_teleop c, st) else (c, st)
      end
  end.

(** [set_mission_node_state] *)
Definition set_node_state (c : Ctl) (nm : string) (st : MissionStateV1) : Ctl :=
  match dget (node_status c) nm with
  | Some s => if bool_decide (n_state s = st) then c
              else set_nodes c (dset (node_status c) nm (mkNodeStatus st (error_msg s)))
  | None => c
  end.

Inductive exn := ValueError | IndexError.

Definition node_state_of (c : Ctl) (nm : string) : MissionStateV1 :=
  match dget (node_status c) nm with Some s => n_state s | None => PENDING end.

(** [update_mission_node_state] *)
Definition update_mission_node_state (prefix : string) (c : Ctl) (m : State) : result exn (Ctl * MissionStateV1) :=
  match order_node_index (s_orderId m) with
  | None => Raise ValueError
  | Some idx =>
      match tree c !! N.to_nat idx with
      | None => Raise IndexError
      | Some node =>
          let nm := default "" (name node) in
          let seq := last_seq prefix m in
          let next := if reached_in_run prefix m then (seq + 2)%Z else 0%Z in
          let st := node_state_of c nm in
          let '(c1, st1) :=
            match node_type node, route node, move node with
            | Some ROUTE, Some r, _ => route_progress c m node r nm seq next st
            | Some MOVE, _, Some _ => (c, if bool_decide (next = 4)%Z then COMPLETED else st)
            | Some ACTION, _, _ => action_progress c m idx st
            | _, _, _ => (c, st)
            end in
          let '(c2, failed) := get_mission_errors prefix (set_last_seq c1 seq) m in
          let st2 := if failed then FAILED else st1 in
          Ok (set_node_state c2 nm st2, st2)
      end
  end.

(** [_leaf_node_count] *)
Definition is_leaf (n : MissionNode) : bool :=
  bool_decide (node_type n ∈ [Some ROUTE; Some MOVE; Some ACTION; Some NOTIFY; Some CONSTANT]).
Definition leaf_node_count (t : list MissionNode) : nat := length (List.filter is_leaf t).

(** [_complete_order_node]; the [bool] is whether the behaviour tree is to be updated *)
Definition complete_order_node (prefix : string) (c : Ctl) (m : State) : Ctl * bool :=
  match order_node_index (s_orderId m) with
  | None => (c, false)
  | Some idx =>
      match tree c !! N.to_nat idx with
      | None => (c, false)
      | Some node =>
          if bool_decide (1 < leaf_node_count (tree c))
             && bool_decide (node_type node ∈ [Some ROUTE; Some MOVE])
             && negb (is_node_of prefix (lastNodeId m))
          then (c, false)
          else if bool_decide (node_type node = Some ROUTE) && negb (order_route_is_current c (s_orderId m) node)
          then (c, false)
          else (set_node_state c (default "" (name node)) COMPLETED, true)
      end
  end.

(** [_order_finished_on_robot], for the current leaf node, if there is one *)
Definition order_finished_on_robot (prefix : string) (c : Ctl) (leaf : option MissionNode) (m : State) : bool :=
  match leaf with
  | None => true
  | Some node =>
      if negb (bool_decide (node_type node ∈ [Some ROUTE; Some MOVE])) then true
      else if negb (is_node_of prefix (lastNodeId m)) then false
      else
        let seq := match node_sequence (lastNodeId m) with Some s => Z.of_N s | None => lastNodeSequenceId m end in
        if bool_decide (node_type node = Some MOVE) then bool_decide (seq = 2)%Z
        else match route node with
             | Some r => bool_decide (seq = (Z.of_nat (size r) - Z.of_nat (offset_of c (s_orderId m))) * 2)%Z
             | None => false
             end
  end.

(** [_robot_near_end_of_order], for the current leaf node and its orderId *)
Definition robot_near_end_of_order (prefix : string) (c : Ctl) (leaf : option MissionNode) (current : string)
    (m : State) : bool :=
  match leaf with
  | None => false
  | Some node =>
      if negb (bool_decide (node_type node ∈ [Some ROUTE; Some MOVE])) then false
      else if bool_decide (s_orderId m = current) && order_finished_on_robot prefix c leaf m then true
      else if negb (is_node_of prefix (lastNodeId m)) then false
      else
        let seq := match node_sequence (lastNodeId m) with Some s => Z.of_N s | None => lastNodeSequenceId m end in
        let final := if bool_decide (node_type node = Some MOVE) then 2%Z
                     else match route node with
                          | Some r => ((Z.of_nat (size r) - Z.of_nat (offset_of c current)) * 2)%Z
                          | None => 0%Z
                          end in
        bool_decide (final - 2 <= seq)%Z && bool_decide (0 < seq)%Z
  end.

(** [_reached_waypoints] *)
Definition reached_waypoints (c : Ctl) (leaf : option MissionNode) : Z :=
  match leaf with
  | None => 0
  | Some node => match dget (task_status c) (default "" (name node)) with None => 0 | Some i => (i + 1)%Z end
  end.

(** ** Proofs: which node the robot has reached *)

Lemma last_seq_node prefix m idx seq :
  lastNodeId m = node_id prefix idx seq ->
  reached_in_run prefix m = true /\ last_seq prefix m = Z.of_N seq.
Proof.
  intros E. unfold last_seq, reached_in_run. rewrite E, is_node_of_node_id, node_sequence_node_id.
  rewrite bool_decide_true by done. split; [done|]. simpl. by case_bool_decide.
Qed.

Lemma last_seq_foreign prefix m :
  is_node_of prefix (lastNodeId m) = false -> reached_in_run prefix m = false /\ last_seq prefix m = 0%Z.
Proof. intros E. unfold last_seq, reached_in_run. rewrite E. simpl. by destruct (node_sequence _). Qed.

Lemma no_own_errors prefix c m :
  List.filter (counted prefix (stale_fatal_types c)) (errors m) = [] -> get_mission_errors prefix c m = (c, false).
Proof. intros E. unfold get_mission_errors. by rewrite E. Qed.

Lemma set_node_state_of c nm st s :
  dget (node_status c) nm = Some s -> node_state_of (set_node_state c nm st) nm = st.
Proof.
  intros E. unfold set_node_state, node_state_of. rewrite E. case_bool_decide as H; simpl; [by rewrite E|].
  by rewrite dget_dset_eq.
Qed.

Lemma set_node_state_fields c nm st :
  task_status (set_node_state c nm st) = task_status c
  /\ last_node_seq_id (set_node_state c nm st) = last_node_seq_id c
  /\ sent_order (set_node_state c nm st) = sent_order c.
Proof. unfold set_node_state. destruct (dget _ _); [case_bool_decide|]; done. Qed.

(** A route node whose order is under way: the order is the one recorded, built from the route the node
    has now, from waypoint [off] on. *)
Record on_route (prefix : string) (c : Ctl) (m : State) (idx : N) (node : MissionNode) (r : MissionRouteNode)
    (nm : string) (st : MissionStateV1) (off : nat) : Prop := {
  at_node : tree c !! N.to_nat idx = Some node;
  at_type : node_type node = Some ROUTE;
  at_route : route node = Some r;
  at_name : name node = Some nm;
  at_state : exists msg, dget (node_status c) nm = Some (mkNodeStatus st msg);
  at_order : s_orderId m = order_id prefix idx;
  at_offset : offset_of c (s_orderId m) = off;
  at_current : order_route_is_current c (s_orderId m) node = true;
  at_size : off < size r;
  at_errors : List.filter (counted prefix (stale_fatal_types c)) (errors m) = [];
}.

Lemma update_route prefix c m idx node r nm st off :
  on_route prefix c m idx node r nm st off ->
  let seq := last_seq prefix m in
  let next := if reached_in_run prefix m then (seq + 2)%Z else 0%Z in
  let '(c1, st1) := route_progress c m node r nm seq next st in
  update_mission_node_state prefix c m = Ok (set_node_state (set_last_seq c1 seq) nm st1, st1).
Proof.
  intros [Hn Ht Hr Hnm (msg & Hs) Ho Hoff Hc _ He] seq next. unfold update_mission_node_state.
  rewrite Ho, order_node_index_order_id, Hn, Ht, Hr, Hnm. change (default "" (Some nm)) with nm. fold seq. fold next.
  assert (Hst : node_state_of c nm = st) by (unfold node_state_of; by rewrite Hs). rewrite Hst.
  destruct (route_progress c m node r nm seq next st) as [c1 st1] eqn:E.
  rewrite no_own_errors; [done|].
  assert (Hst1 : stale_fatal_types c1 = stale_fatal_types c).
  { unfold route_progress in E. injection E as <- _. by destruct (_ && _). }
  simpl. by rewrite Hst1.
Qed.

(** C33: Progress is read exactly: while the robot reports it is on the order sent, a report of node [i] of
    that order (whatever its lastNodeSequenceId says) records waypoint [off + i - 1] of the stored route
    when it is new progress, completes the mission node exactly when [i] is the last node of the order,
    and leaves its state alone before. *)
Theorem route_progress_exact (num : Type) (threshold : Z) ws rp on p o prefix c m idx node r nm st off i n :
  on_route prefix c m idx node r nm st off ->
  Orders.from_route num threshold ws rp prefix idx on p = Ok o -> length ws + off = size r ->
  Orders.nodes num o !! i = Some n -> lastNodeId m = Orders.nodeId num n ->
  exists c', let st' := if bool_decide (i = length ws) then COMPLETED else st in
    update_mission_node_state prefix c m = Ok (c', st')
    /\ node_state_of c' nm = st'
    /\ task_status c' = (if bool_decide (last_node_seq_id c < 2 * Z.of_nat i)%Z && bool_decide (0 < i)
                         then dset (task_status c) nm (Z.of_nat (off + i) - 1)%Z else task_status c)
    /\ last_node_seq_id c' = (2 * Z.of_nat i)%Z.
Proof.
  intros Hon Ho Hlen Hi Hlast. destruct (order_node_ids num threshold ws rp prefix idx on p o i n Ho Hi) as [_ Hid].
  assert (Hlt : i <= length ws).
  { destruct (route_order_chain num threshold ws rp prefix idx on p) as (o' & Ho' & _ & Hl & _).
    rewrite Ho in Ho'. injection Ho' as <-. apply lookup_lt_Some in Hi. lia. }
  rewrite Hid in Hlast. destruct (last_seq_node prefix m idx _ Hlast) as [Hr Hs].
  pose proof (update_route _ _ _ _ _ _ _ _ _ Hon) as Hu. rewrite Hr, Hs in Hu.
  destruct Hon as [Hn Ht Hro Hnm (msg & Hst) Hor Hoff Hc Hsz He].
  unfold route_progress in Hu. rewrite Hoff, Hc in Hu. cbn [andb] in Hu.
  replace (Z.of_N (2 * N.of_nat i)) with (2 * Z.of_nat i)%Z in Hu by lia.
  replace (2 * Z.of_nat i / 2)%Z with (Z.of_nat i) in Hu by (rewrite Z.mul_comm, Z.div_mul; lia).
  assert (E1 : bool_decide (2 * Z.of_nat i + 2 = (Z.of_nat (size r) - Z.of_nat off) * 2 + 2)%Z
               = bool_decide (i = length ws)) by (apply bool_decide_ext; lia).
  assert (E2 : bool_decide (Z.of_nat off <= Z.of_nat off + Z.of_nat i - 1)%Z = bool_decide (0 < i))
    by (apply bool_decide_ext; lia).
  assert (E3 : bool_decide (Z.of_nat off + Z.of_nat i - 1 < Z.of_nat (size r))%Z = true)
    by (apply bool_decide_eq_true; lia).
  rewrite E1, E2, E3, andb_true_r in Hu. rewrite Hu. eexists. split; [reflexivity|].
  destruct (bool_decide (last_node_seq_id c < 2 * Z.of_nat i)%Z && bool_decide (0 < i));
    (split; [eapply set_node_state_of; exact Hst|]);
    destruct (set_node_state_fields (set_last_seq c (2 * Z.of_nat i)) nm
                (if bool_decide (i = length ws) then COMPLETED else st)) as (E4 & E5 & _).
  - split; [|by rewrite (proj1 (proj2 (set_node_state_fields _ _ _)))].
    rewrite (proj1 (set_node_state_fields _ _ _)). simpl. f_equal. lia.
  - done.
Qed.

(** A node of another run, revision or mission is not progress: while the robot still reports one, no
    waypoint is recorded and neither a route nor a move completes. *)
Theorem foreign_node_no_progress prefix c m idx node r nm st off :
  on_route prefix c m idx node r nm st off -> is_node_of prefix (lastNodeId m) = false -> (0 <= last_node_seq_id c)%Z ->
  exists c', update_mission_node_state prefix c m = Ok (c', st)
    /\ node_state_of c' nm = st /\ task_status c' = task_status c /\ last_node_seq_id c' = 0%Z.
Proof.
  intros Hon Hf Hpos. destruct (last_seq_foreign prefix m Hf) as [Hr Hs].
  pose proof (update_route _ _ _ _ _ _ _ _ _ Hon) as Hu. rewrite Hr, Hs in Hu.
  destruct Hon as [_ _ _ _ (msg & Hst) _ Hoff Hc Hsz _]. unfold route_progress in Hu.
  rewrite Hoff, Hc in Hu. cbn [andb] in Hu. rewrite bool_decide_false in Hu by lia. cbn [andb] in Hu.
  rewrite bool_decide_false in Hu by lia. rewrite Hu. eexists. split; [reflexivity|].
  split; [eapply set_node_state_of; exact Hst|].
  destruct (set_node_state_fields (set_last_seq c 0) nm st) as (E4 & E5 & _). by rewrite E4, E5.
Qed.

(** The two readings of a finished order agree: a robot holding the current route order is taken for
    having finished it on a resume exactly when its state message completes the node. *)
Theorem finished_iff_completed prefix c m idx node r nm st off :
  on_route prefix c m idx node r nm st off -> st <> COMPLETED ->
  order_finished_on_robot prefix c (Some node) m = true
  <-> exists c', update_mission_node_state prefix c m = Ok (c', COMPLETED).
Proof.
  intros Hon Hst. pose proof (update_route _ _ _ _ _ _ _ _ _ Hon) as Hu.
  destruct Hon as [_ Ht Hro _ _ Ho Hoff Hc Hsz _]. unfold order_finished_on_robot.
  rewrite Ht, Hro. rewrite !bool_decide_true, bool_decide_false by (done || set_solver). cbn [negb].
  unfold route_progress in Hu. rewrite Hoff, Hc in Hu. cbn [andb] in Hu. rewrite Hu. clear Hu.
  rewrite Hoff. unfold last_seq, reached_in_run. destruct (is_node_of prefix (lastNodeId m)); cbn [negb andb].
  - set (q := match node_sequence (lastNodeId m) with Some s => Z.of_N s | None => lastNodeSequenceId m end).
    replace (match node_sequence (lastNodeId m) with
             | Some s => if negb (bool_decide (Z.of_N s = lastNodeSequenceId m)) then Z.of_N s else lastNodeSequenceId m
             | None => lastNodeSequenceId m end) with q
      by (unfold q; destruct (node_sequence _); [case_bool_decide|]; done).
    rewrite bool_decide_eq_true, (bool_decide_ext (q + 2 = _)%Z (q = (Z.of_nat (size r) - Z.of_nat off) * 2)%Z) by lia.
    split; [intros E; rewrite (bool_decide_true _ E); eauto|].
    intros (c' & [= _ E]). by destruct (bool_decide_reflect (q = (Z.of_nat (size r) - Z.of_nat off) * 2)%Z).
  - rewrite (bool_decide_false (0 = _)%Z) by lia. split; [done|]. by intros (c' & [= _ E]).
Qed.

(** Progress on a route a reroute has replaced does not count: neither a waypoint nor the node. *)
Theorem replaced_route_no_progress prefix c m idx node r nm st msg :
  tree c !! N.to_nat idx = Some node -> node_type node = Some ROUTE -> route node = Some r -> name node = Some nm ->
  dget (node_status c) nm = Some (mkNodeStatus st msg) -> s_orderId m = order_id prefix idx ->
  order_route_is_current c (s_orderId m) node = false ->
  List.filter (counted prefix (stale_fatal_types c)) (errors m) = [] ->
  (exists c', update_mission_node_state prefix c m = Ok (c', st)
    /\ node_state_of c' nm = st /\ task_status c' = task_status c)
  /\ complete_order_node prefix c m = (c, false).
Proof.
  intros Hn Ht Hr Hnm Hs Ho Hc He. split.
  - unfold update_mission_node_state. rewrite Ho, order_node_index_order_id, Hn, Ht, Hr, Hnm. change (default "" (Some nm)) with nm.
    unfold route_progress. rewrite Hc. cbn [andb]. rewrite no_own_errors by done.
    unfold node_state_of at 1 2. rewrite Hs. cbn [n_state]. eexists. split; [reflexivity|].
    split; [eapply set_node_state_of; exact Hs|]. by rewrite (proj1 (set_node_state_fields _ _ _)).
  - unfold complete_order_node. rewrite Ho, order_node_index_order_id, Hn, Ht. rewrite <- Ho, Hc.
    destruct (_ && negb _); [done|]. by rewrite bool_decide_true.
Qed.

(** A node of this run counts whichever order of the run it belongs to: right after the order of a route
    with as many waypoints as the previous node's is accepted, the last node of the previous order
    completes it, before the robot has moved. *)
Theorem stale_node_completes_next_route prefix c m idx node r nm st before :
  on_route prefix c m idx node r nm st 0 -> before <> idx ->
  lastNodeId m = node_id prefix before (2 * N.of_nat (size r)) ->
  exists c', update_mission_node_state prefix c m = Ok (c', COMPLETED) /\ node_state_of c' nm = COMPLETED.
Proof.
  intros Hon Hne Hlast. destruct (last_seq_node prefix m before _ Hlast) as [Hr Hs].
  pose proof (update_route _ _ _ _ _ _ _ _ _ Hon) as Hu. rewrite Hr, Hs in Hu.
  destruct Hon as [_ _ _ _ (msg & Hst) _ Hoff Hc Hsz _]. unfold route_progress in Hu.
  rewrite Hoff, Hc in Hu. cbn [andb] in Hu. rewrite (bool_decide_true (_ = _)%Z) in Hu by lia.
  rewrite Hu. eexists. split; [reflexivity|].
  destruct (_ && _); (eapply set_node_state_of; exact Hst).
Qed.

End progress.

(** ** Proofs: which errors fail the mission *)

Lemma get_mission_errors_true prefix c m :
  (get_mission_errors prefix c m).2 = true
  <-> exists e, e ∈ errors m /\ counted prefix (stale_fatal_types c) e = true.
Proof.
  unfold get_mission_errors. destruct (List.filter _ (errors m)) as [|e l] eqn:E; simpl.
  - split; [done|]. intros (e & He & Hc).
    assert (e ∈ List.filter (counted prefix (stale_fatal_types c)) (errors m)) as H
      by (apply list_elem_of_In, filter_In; split; [by apply list_elem_of_In|done]).
    rewrite E in H. by apply not_elem_of_nil in H.
  - split; [|done]. intros _. exists e.
    assert (In e (List.filter (counted prefix (stale_fatal_types c)) (errors m))) as H by (rewrite E; by left).
    apply filter_In in H as [H ?]. split; [by apply list_elem_of_In|done].
Qed.

Lemma not_foreign prefix e k v :
  (k, v) ∈ errorReferences e -> k ∈ ORDER_REFERENCE_KEYS -> is_reference_of prefix v = Some true ->
  is_foreign_error prefix e = false.
Proof.
  intros Hin Hk Hv. unfold is_foreign_error.
  assert (Ht : true ∈ omap (fun r : string * string => if bool_decide (r.1 ∈ ORDER_REFERENCE_KEYS)
                                     then is_reference_of prefix r.2 else None) (errorReferences e)).
  { apply list_elem_of_omap. exists (k, v). simpl. by rewrite bool_decide_true. }
  destruct (omap _ _) as [|b l] eqn:E; [done|]. apply negb_false_iff, existsb_exists. exists true.
  split; [by apply list_elem_of_In|done].
Qed.

Lemma all_foreign prefix e k v :
  (k, v) ∈ errorReferences e -> k ∈ ORDER_REFERENCE_KEYS -> is_reference_of prefix v = Some false ->
  (forall k' v', (k', v') ∈ errorReferences e -> k' ∈ ORDER_REFERENCE_KEYS -> is_reference_of prefix v' <> Some true) ->
  is_foreign_error prefix e = true.
Proof.
  intros Hin Hk Hv Hall. unfold is_foreign_error.
  set (f := fun r : string * string => if bool_decide (r.1 ∈ ORDER_REFERENCE_KEYS) then is_reference_of prefix r.2 else None).
  assert (Ht : false ∈ omap f (errorReferences e)).
  { apply list_elem_of_omap. exists (k, v). unfold f. simpl. by rewrite bool_decide_true. }
  assert (Hn : true ∉ omap f (errorReferences e)).
  { intros ([k' v'] & Hin' & Hf)%list_elem_of_omap. unfold f in Hf. simpl in Hf.
    case_bool_decide as Hk'; [|done]. by eapply Hall. }
  destruct (omap f _) as [|b l] eqn:E; [by apply not_elem_of_nil in Ht|]. apply negb_true_iff.
  apply not_true_iff_false. intros (b' & Hb & Ei)%existsb_exists. destruct b'; [|done].
  apply Hn. by apply list_elem_of_In.
Qed.

(** The reason a message with own errors gives: the description of each of them *)
Definition own_errors (prefix : string) (c : Ctl) (m : State) : list Error := List.filter (counted prefix (stale_fatal_types c)) (errors m).
Definition own_reason (prefix : string) (c : Ctl) (m : State) : option string :=
  Some (String.concat (String "010"%char "") (errorDescription <$> own_errors prefix c m)).

Lemma get_mission_errors_reason prefix c m :
  (get_mission_errors prefix c m).2 = true ->
  failure_reason (get_mission_errors prefix c m).1 = own_reason prefix c m
  /\ failure_category (get_mission_errors prefix c m).1 = first_category (failure_category c) "ROBOT_APP".
Proof. unfold get_mission_errors, own_reason, own_errors. by destruct (List.filter _ (errors m)). Qed.
Lemma set_node_state_reason c nm st : failure_reason (set_node_state c nm st) = failure_reason c.
Proof. unfold set_node_state. destruct (dget _ _); [case_bool_decide|]; done. Qed.
Lemma progress_stale digest c m node r nm seq next st : stale_fatal_types (route_progress digest c m node r nm seq next st).1 = stale_fatal_types c.
Proof. unfold route_progress. cbv zeta. by destruct (_ && _ && _ && _). Qed.
Lemma action_stale c m idx st : stale_fatal_types (action_progress c m idx st).1 = stale_fatal_types c.
Proof.
  unfold action_progress. destruct (order_action_state m idx) as [a|]; [|done]. destruct (as_status a); try done; by destruct (_ && _).
Qed.
(** A message with own errors fails the mission node it is about, with those errors as the reason. *)
Lemma own_errors_fail_node digest prefix c m c' st :
  (get_mission_errors prefix c m).2 = true -> update_mission_node_state digest prefix c m = Ok (c', st) ->
  st = FAILED /\ failure_reason c' = own_reason prefix c m.
Proof.
  intros (e & He & Hc)%get_mission_errors_true. unfold update_mission_node_state.
  destruct (order_node_index (s_orderId m)) as [idx|]; [|done]. destruct (tree c !! N.to_nat idx) as [node|]; [|done].
  cbv zeta. match goal with |- (let '(c1, st1) := ?p in _) = _ -> _ => set (step1 := p) end.
  assert (Hs : stale_fatal_types step1.1 = stale_fatal_types c).
  { unfold step1. destruct (node_type node) as [[]|]; try done; [destruct (route node); [apply progress_stale|done]|by destruct (move node)|apply action_stale]. }
  destruct step1 as [c1 st1]. cbn in Hs. pose proof (proj2 (get_mission_errors_true prefix (set_last_seq c1 (last_seq prefix m)) m)) as Ht.
  specialize (Ht (ex_intro _ e (conj He (eq_trans (f_equal (fun l => counted prefix l e) Hs) Hc)))). pose proof (get_mission_errors_reason _ _ _ Ht) as [Hr _].
  destruct (get_mission_errors prefix _ m) as [c2 failed]. cbn in Ht, Hr. subst failed. intros [= <- <-]. rewrite set_node_state_reason, Hr.
  unfold own_reason, own_errors. cbn [set_last_seq stale_fatal_types]. by rewrite Hs.
Qed.

Lemma counted_fails prefix c m e : e ∈ errors m -> counted prefix (stale_fatal_types c) e = true ->
  e ∈ own_errors prefix c m
  /\ (let '(c', failed) := get_mission_errors prefix c m in
      failed = true /\ failure_reason c' = own_reason prefix c m /\ is_Some (failure_category c'))
  /\ (forall digest c' st, update_mission_node_state digest prefix c m = Ok (c', st) ->
      st = FAILED /\ failure_reason c' = own_reason prefix c m).
Proof.
  intros He Hc. assert (Ht : (get_mission_errors prefix c m).2 = true) by (apply get_mission_errors_true; by exists e). split_and!.
  - apply list_elem_of_In, filter_In. split; [by apply list_elem_of_In|done].
  - pose proof (get_mission_errors_reason prefix c m Ht) as [H1 H2]. destruct (get_mission_errors prefix c m) as [c' f]. cbn in *.
    split_and!; [done|done|]. rewrite H2. unfold first_category. by destruct (failure_category c).
  - intros digest c' st. by apply own_errors_fail_node.
Qed.


(** ** Proofs: errors from before the order *)

Lemma track_stale_accepted prefix stale m t :
  is_order_of prefix (s_orderId m) = true ->
  t ∈ track_stale_fatal prefix stale m <-> t ∈ stale /\ t ∈ unreferenced_fatal_types m.
Proof.
  intros E. unfold track_stale_fatal. rewrite E, list_elem_of_In, filter_In, <- list_elem_of_In.
  by rewrite bool_decide_eq_true.
Qed.

(** An unreferenced FATAL is stale exactly as long as it has been there since before the order was
    accepted: after any messages on the order, an error type is ignored if and only if the last message
    before it and every message since reported it. Once gone for one message, it fails the mission. *)
Theorem stale_fatal_exact prefix stale before accepted t :
  is_order_of prefix (s_orderId before) = false ->
  Forall (fun m => is_order_of prefix (s_orderId m) = true) accepted ->
  t ∈ foldl (track_stale_fatal prefix) stale (before :: accepted)
  <-> Forall (fun m => t ∈ unreferenced_fatal_types m) (before :: accepted).
Proof.
  intros Hb Ha. simpl. replace (track_stale_fatal prefix stale before) with (unreferenced_fatal_types before)
    by (unfold track_stale_fatal; by rewrite Hb).
  rewrite Forall_cons. generalize (unreferenced_fatal_types before) as s.
  induction Ha as [|m l Hm _ IH]; intros s; simpl; [by rewrite Forall_nil; tauto|].
  rewrite IH, track_stale_accepted by done. rewrite Forall_cons. tauto.
Qed.

(** ** Witnesses: the second route of a mission of two routes with two waypoints each *)

Definition two_points : MissionRouteNode := mkRoute [sample_pose; sample_pose] None.
Definition route_named (nm : string) : MissionNode := mkNode (Some nm) "root" (Some two_points) None None None false false None.
Definition two_routes (last : Z) (sent : SentOrder) : Ctl :=
  mkCtl [route_named "a"; route_named "b"] [("a", mkNodeStatus COMPLETED None); ("b", mkNodeStatus RUNNING None)] []
    (Some sent) last [] None None None 0.
Definition a_digest (r : MissionRouteNode) : string := "d".
Definition report (order last : string) : State := mkState order last 99 true [] [].
Definition sent_b : SentOrder := mkSent "m-r1-n1" (Some "d") 0.

Lemma on_route_b last m :
  s_orderId m = "m-r1-n1" -> errors m = [] ->
  on_route a_digest "m-r1" (two_routes last sent_b) m 1 (route_named "b") two_points "b" RUNNING 0.
Proof.
  intros Ho He. constructor; try (rewrite Ho || rewrite He); try reflexivity; [eexists; reflexivity|vm_compute; lia].
Qed.

Lemma route_progress_exact_witness :
  exists c', update_mission_node_state a_digest "m-r1" (two_routes 0 sent_b) (report "m-r1-n1" "m-r1-n1-s4") = Ok (c', COMPLETED)
    /\ task_status c' = [("b", 1%Z)].
Proof.
  set (wps := [wp None None; wp None None]).
  destruct (Orders.from_route Z 0 wps (Orders.mkRobotPose Z 0%Z 0%Z 0%Z) "m-r1" 1 true Policy.defaults) as [o|] eqn:E;
    [|vm_compute in E; discriminate].
  destruct (route_progress_exact a_digest Z 0 wps (Orders.mkRobotPose Z 0%Z 0%Z 0%Z) true Policy.defaults o "m-r1"
    (two_routes 0 sent_b) (report "m-r1-n1" "m-r1-n1-s4") 1 (route_named "b") two_points "b" RUNNING 0 2
    (default (Orders.mkNode Z "" 0%N (Orders.mkPosition Z 0%Z 0%Z 0%Z "" Policy.NaN Policy.NaN) []) (Orders.nodes Z o !! 2)))
    as (c' & H1 & _ & H2 & _);
    [apply on_route_b; reflexivity|exact E|reflexivity|vm_compute in E; injection E as <-; reflexivity
    |vm_compute in E; injection E as <-; reflexivity|].
  exists c'. split; [exact H1|exact H2].
Defined.

Lemma foreign_node_no_progress_witness :
  exists c', update_mission_node_state a_digest "m-r1" (two_routes 0 sent_b) (report "m-r1-n1" "m-r0-n1-s4") = Ok (c', RUNNING)
    /\ task_status c' = [].
Proof.
  destruct (foreign_node_no_progress a_digest "m-r1" (two_routes 0 sent_b) (report "m-r1-n1" "m-r0-n1-s4") 1
    (route_named "b") two_points "b" RUNNING 0) as (c' & H1 & _ & H2 & _);
    [apply on_route_b; reflexivity|vm_compute; reflexivity|vm_compute; discriminate|].
  exists c'. split; assumption.
Defined.

Lemma finished_iff_completed_witness :
  exists c', update_mission_node_state a_digest "m-r1" (two_routes 2 sent_b) (report "m-r1-n1" "m-r1-n1-s4") = Ok (c', COMPLETED).
Proof.
  apply (finished_iff_completed a_digest "m-r1" (two_routes 2 sent_b) (report "m-r1-n1" "m-r1-n1-s4") 1
    (route_named "b") two_points "b" RUNNING 0); [apply on_route_b; reflexivity|discriminate|vm_compute; reflexivity].
Defined.

Lemma replaced_route_no_progress_witness :
  complete_order_node a_digest "m-r1" (two_routes 0 (mkSent "m-r1-n1" (Some "old") 0)) (report "m-r1-n1" "m-r1-n1-s4")
  = (two_routes 0 (mkSent "m-r1-n1" (Some "old") 0), false).
Proof.
  apply (replaced_route_no_progress a_digest "m-r1" (two_routes 0 (mkSent "m-r1-n1" (Some "old") 0))
    (report "m-r1-n1" "m-r1-n1-s4") 1 (route_named "b") two_points "b" RUNNING None); reflexivity.
Defined.

Lemma stale_node_completes_next_route_witness :
  exists c', update_mission_node_state a_digest "m-r1" (two_routes 4 sent_b) (report "m-r1-n1" "m-r1-n0-s4") = Ok (c', COMPLETED)
    /\ node_state_of c' "b" = COMPLETED.
Proof.
  apply (stale_node_completes_next_route a_digest "m-r1" (two_routes 4 sent_b) (report "m-r1-n1" "m-r1-n0-s4") 1
    (route_named "b") two_points "b" RUNNING 0); [apply on_route_b; reflexivity|discriminate|reflexivity].
Defined.

Definition own_error : Error := mkError (Some "driveError") [("nodeId", "m-r1-n1-s2")] "wheel" FATAL.


Definition bare_fatal : Error := mkError (Some "estop") [] "pressed" FATAL.

Lemma stale_fatal_exact_witness :
  Some "estop" ∈ foldl (track_stale_fatal "m-r1") []
    [mkState "old" "" 0 false [] [bare_fatal]; mkState "m-r1-n1" "" 0 true [] [bare_fatal]].
Proof.
  apply (stale_fatal_exact "m-r1" [] (mkState "old" "" 0 false [] [bare_fatal]) [mkState "m-r1-n1" "" 0 true [] [bare_fatal]]);
    [reflexivity|repeat constructor|repeat constructor].
Defined.
