(* ===== verification/OrderGate.v ===== *)
(** * Sending orders (packages/controllers/mission/server.py)

    When the order of the current mission node goes out: [_send_order] with its guards, the gate that
    holds a new order back while the robot is on a previous one ([_robot_still_on_previous_order],
    [_wait_for_previous_order]), sends that are owed ([_flush_pending_send]), new revisions as the sender
    sees them ([_bump_order_rev]; its stored side and its churn limit are in [Runs]), and what the
    controller does with a robot that does not report the order ([_on_client_message]: resends with
    back-off, adoption, rejection, giving up).

    [Sender] is the part of the controller these methods share, for one run of one mission. The content
    of an order is a number drawn when the order is built (see [Orders] for the content itself), so that
    two builds differ. The outcome of building an order, of the writes and of the churn limit, whether
    the robot is near the end of its order ([Progress.robot_near_end_of_order]) and what it rejects
    ([Progress.order_rejection]) are arguments. Times are milliseconds. [published] and [left] are
    history: the orders published, and the leaves of the tree left behind. *)

From S2P Require Import Prelude PyDict OrderIds.
Local Open Scope string_scope.
Local Open Scope list_scope.

Definition MAX_ORDER_MISMATCHES : nat := 40.
Definition ORDER_RESEND_BASE : Z := 1000.
Definition ORDER_RESEND_MAX : Z := 8000.
Definition ORDER_MAX_RESENDS : nat := 3.
Definition ORDER_GIVE_UP_MIN : Z := 10000.
Definition ORDER_CLEAR_DWELL : Z := 10000.

Inductive Owed := SEND_NODE | NEW_REVISION.
#[export] Instance Owed_eq_dec : EqDecision Owed.
Proof. solve_decision. Defined.

(** What the current leaf is: a node the robot gets an order for, or one the dispatcher runs itself. *)
Inductive leaf_kind := RobotLeaf | WaitLeaf | NotifyLeaf.

Record Sender := mkSender {
  order_rev : N;
  adopted : option N;                   (** the revision of [_adopted_prefix] *)
  leaf : option (leaf_kind * N);
  local_work : bool;                    (** a wait or a notify of the leaf is running *)
  sent : option (string * nat);         (** [_sent_order]: its id and content *)
  resends : nat;
  sent_at : Z;
  first_sent_at : Z;
  gate_since : option Z;
  pending : option Owed;
  dead : list string;
  released : list string;
  robot_order : string;
  executing : bool;
  driving : bool;
  unknown_content : option string;
  mismatches : nat;
  cancel_out : bool;                    (** a cancelOrder is outstanding *)
  ended : bool;
  canceling : bool;
  robot_ok : bool;                      (** the robot is known and not deleted *)
  published : list (string * nat);
  left : list N;
}.

(** Updates of one field *)
Definition set_pending (s : Sender) (p : option Owed) : Sender :=
  mkSender (order_rev s) (adopted s) (leaf s) (local_work s) (sent s) (resends s) (sent_at s) (first_sent_at s) (gate_since s)
    p (dead s) (released s) (robot_order s) (executing s) (driving s) (unknown_content s) (mismatches s) (cancel_out s)
    (ended s) (canceling s) (robot_ok s) (published s) (left s).
Definition set_gate (s : Sender) (g : option Z) : Sender :=
  mkSender (order_rev s) (adopted s) (leaf s) (local_work s) (sent s) (resends s) (sent_at s) (first_sent_at s) g
    (pending s) (dead s) (released s) (robot_order s) (executing s) (driving s) (unknown_content s) (mismatches s) (cancel_out s)
    (ended s) (canceling s) (robot_ok s) (published s) (left s).
Definition set_cancel (s : Sender) (b : bool) : Sender :=
  mkSender (order_rev s) (adopted s) (leaf s) (local_work s) (sent s) (resends s) (sent_at s) (first_sent_at s) (gate_since s)
    (pending s) (dead s) (released s) (robot_order s) (executing s) (driving s) (unknown_content s) (mismatches s) b
    (ended s) (canceling s) (robot_ok s) (published s) (left s).
Definition set_mismatches (s : Sender) (n : nat) : Sender :=
  mkSender (order_rev s) (adopted s) (leaf s) (local_work s) (sent s) (resends s) (sent_at s) (first_sent_at s) (gate_since s)
    (pending s) (dead s) (released s) (robot_order s) (executing s) (driving s) (unknown_content s) n (cancel_out s)
    (ended s) (canceling s) (robot_ok s) (published s) (left s).
Definition set_ended (s : Sender) : Sender :=
  mkSender (order_rev s) (adopted s) (leaf s) (local_work s) (sent s) (resends s) (sent_at s) (first_sent_at s) (gate_since s)
    (pending s) (dead s) (released s) (robot_order s) (executing s) (driving s) (unknown_content s) 0 (cancel_out s)
    true (canceling s) (robot_ok s) (published s) (left s).
Definition set_local (s : Sender) : Sender :=
  mkSender (order_rev s) (adopted s) (leaf s) true (sent s) (resends s) (sent_at s) (first_sent_at s) (gate_since s)
    (pending s) (dead s) (released s) (robot_order s) (executing s) (driving s) (unknown_content s) (mismatches s) (cancel_out s)
    (ended s) (canceling s) (robot_ok s) (published s) (left s).
Definition set_revision (s : Sender) (rev : N) (rel : list string) (u : option string) : Sender :=
  mkSender rev None (leaf s) (local_work s) (sent s) (resends s) (sent_at s) (first_sent_at s) (gate_since s)
    (pending s) (dead s) rel (robot_order s) (executing s) (driving s) u (mismatches s) (cancel_out s)
    (ended s) (canceling s) (robot_ok s) (published s) (left s).
Definition release_order (s : Sender) : Sender :=
  mkSender (order_rev s) (adopted s) (leaf s) (local_work s) (sent s) (resends s) (sent_at s) (first_sent_at s) (gate_since s)
    (pending s) (dead s) (robot_order s :: released s) (robot_order s) (executing s) (driving s) (unknown_content s)
    (mismatches s) (cancel_out s) (ended s) (canceling s) (robot_ok s) (published s) (left s).
(** Publish order [oid] with content [k] at [now] *)
Definition publish (s : Sender) (oid : string) (k n : nat) (now first : Z) : Sender :=
  mkSender (order_rev s) (adopted s) (leaf s) (local_work s) (Some (oid, k)) n now first (gate_since s)
    (pending s) (dead s) (released s) (robot_order s) (executing s) (driving s) (unknown_content s) (mismatches s) (cancel_out s)
    (ended s) (canceling s) (robot_ok s) (published s ++ [(oid, k)]) (left s).

Definition or_owed (p : option Owed) (o : Owed) : option Owed := match p with None => Some o | _ => p end.

Section sender.
Context (name run_id : string).

Definition order_of (rev idx : N) : string := order_id (run_prefix name (Some run_id) rev) idx.

(** [_order_prefix] and [_current_order_id] *)
Definition prefix (s : Sender) : string := run_prefix name (Some run_id) (default (order_rev s) (adopted s)).
Definition current_order_id (s : Sender) : option string := (fun l => order_id (prefix s) l.2) <$> leaf s.

(** [_is_order_of_run], [_robot_runs_our_order], [_robot_runs_dispatcher_order] *)
Definition is_order_of_run (s : Sender) (oid : string) : bool :=
  negb (bool_decide (oid = ""))
  && match order_prefix oid with
     | None => false
     | Some p => existsb (fun v => bool_decide (p = run_prefix name (Some run_id) (N.of_nat v)))
                   (seq 0 (S (N.to_nat (order_rev s))))
     end.
Definition robot_runs_our_order (s : Sender) : bool := executing s && is_order_of_run s (robot_order s).
Definition robot_runs_dispatcher_order (s : Sender) : bool :=
  executing s && match order_prefix (robot_order s) with Some _ => true | None => false end.

(** [_robot_still_on_previous_order] *)
Definition robot_still_on_previous_order (s : Sender) (oid : string) : bool :=
  robot_runs_dispatcher_order s && negb (bool_decide (robot_order s = oid))
  && negb (bool_decide (robot_order s ∈ dead s)) && negb (bool_decide (robot_order s ∈ released s)).

(** [_wait_for_previous_order]; the clearing cancel has [OURS_DISPATCHER] *)
Definition wait_for_previous_order (s : Sender) (now : Z) : Sender :=
  let s := set_pending s (or_owed (pending s) SEND_NODE) in
  match gate_since s with
  | None => set_gate s (Some now)
  | Some t =>
      if driving s then set_gate s (Some now)
      else if bool_decide (now - t < ORDER_CLEAR_DWELL)%Z then s
      else if negb (cancel_out s) && robot_runs_dispatcher_order s then set_gate (set_cancel s true) (Some now)
      else s
  end.

(** The outcome of [_bump_order_rev]: a new revision, no write, or too many revisions *)
Inductive bump := Bumped | NotStored | Churn.

(** [_bump_order_rev] *)
Definition bump_order_rev (s : Sender) (b : bump) : Sender * bool :=
  match b with
  | Churn => (set_cancel (set_ended (set_pending s None)) (cancel_out s || robot_runs_our_order s), false)
  | NotStored => (set_revision s (order_rev s) (released s) (unknown_content s), false)
  | Bumped =>
      (set_revision s (order_rev s + 1) (option_list (current_order_id s) ++ robot_order s :: released s) None, true)
  end.

(** What the rest of the controller answers to a send *)
Record answers := mkAnswers { a_bump : bump; a_built : option nat; a_stored : bool }.

(** The end of [_send_order], once the revision is settled *)
Definition send_current (s : Sender) (oid : string) (now : Z) (a : answers) : Sender :=
  match sent s with
  | Some (o, k) =>
      if bool_decide (o = oid) then
        if bool_decide (oid ∈ dead s) then set_pending s (Some NEW_REVISION)
        else publish s oid k (S (resends s)) now (first_sent_at s)
      else if robot_still_on_previous_order s oid then wait_for_previous_order s now
      else
        let s := set_gate s None in
        match a_built a with
        | None => s
        | Some k' => if a_stored a then publish s oid k' 0 now now else set_pending s (or_owed (pending s) SEND_NODE)
        end
  | None =>
      if robot_still_on_previous_order s oid then wait_for_previous_order s now
      else
        let s := set_gate s None in
        match a_built a with
        | None => s
        | Some k' => if a_stored a then publish s oid k' 0 now now else set_pending s (or_owed (pending s) SEND_NODE)
        end
  end.

(** [_send_order] *)
Definition send_order (s : Sender) (now : Z) (a : answers) : Sender :=
  if negb (robot_ok s) || ended s || canceling s then s
  else if cancel_out s then set_pending s (or_owed (pending s) SEND_NODE)
  else match leaf s with
       | None => s
       | Some (WaitLeaf, _) | Some (NotifyLeaf, _) => set_local s
       | Some (RobotLeaf, idx) =>
           let '(s, go) := if bool_decide (current_order_id s = unknown_content s)
                           then bump_order_rev s (a_bump a) else (s, true) in
           if go then send_current s (order_id (prefix s) idx) now a
           else if ended s then s else set_pending s (or_owed (pending s) SEND_NODE)
       end.

(** [_flush_pending_send]; a mission that ended for churn is left ([post_mission_completion]) *)
Definition flush_pending_send (s : Sender) (now : Z) (b : bump) (a : answers) : Sender :=
  let kind := pending s in
  let s := set_pending s None in
  match kind with
  | Some NEW_REVISION =>
      let '(s, ok) := bump_order_rev s b in
      if ok then send_order s now a else if ended s then s else set_pending s kind
  | _ => send_order s now a
  end.

(** [_resend_due] *)
Definition resend_interval (n : nat) : Z := Z.min (ORDER_RESEND_BASE * 2 ^ Z.of_nat n) ORDER_RESEND_MAX.
Definition resend_due (s : Sender) (now : Z) : bool := bool_decide (resend_interval (resends s) <= now - sent_at s)%Z.

(** [_try_adopt_running_order], of an earlier revision whose record matches the node's route *)
Definition adopt (s : Sender) (rev idx : N) : Sender :=
  let oid := order_of rev idx in
  mkSender (order_rev s) (Some rev) (leaf s) (local_work s) None 0 (sent_at s) (first_sent_at s) (gate_since s)
    None (List.filter (fun o => negb (bool_decide (o = oid))) (dead s))
    (List.filter (fun o => negb (bool_decide (o = oid))) (released s)) (robot_order s) (executing s) (driving s)
    (unknown_content s) 0 (cancel_out s) (ended s) (canceling s) (robot_ok s) (published s) (left s).
Definition adoptable (s : Sender) (rev : N) (known : bool) : bool :=
  match leaf s with
  | Some (_, idx) =>
      known && executing s && negb (canceling s) && negb (cancel_out s) && bool_decide (rev <= order_rev s)%N
      && bool_decide (robot_order s = order_of rev idx) && negb (bool_decide (current_order_id s = Some (order_of rev idx)))
      && negb (bool_decide (robot_order s ∈ dead s))
  | None => false
  end.

(** What a state message that does not report our order says besides *)
Record mismatch := mkMismatch {
  m_adopt : option (N * bool);          (** the revision the robot executes, and whether its record matches *)
  m_rejected : bool;                    (** it rejects the order we wait for ([_order_rejection]) *)
  m_near_end : bool;                    (** [_robot_near_end_of_order] *)
}.

(** The part of [_on_client_message] for a state that does not report our order *)
Definition on_mismatch (s : Sender) (now : Z) (m : mismatch) (a : answers) : Sender :=
  if cancel_out s then s
  else match match m_adopt m with Some (rev, k) => if adoptable s rev k then Some rev else None | None => None end with
  | Some rev => match leaf s with Some (_, idx) => adopt s rev idx | None => s end
  | None =>
      if m_rejected m && executing s && is_order_of_run s (robot_order s) && negb (canceling s) then
        let s := set_mismatches s 0 in
        if robot_runs_dispatcher_order s then set_cancel s true else set_pending s (Some NEW_REVISION)
      else if m_rejected m then set_ended s
      else
        let s := set_mismatches s (S (mismatches s)) in
        if bool_decide (MAX_ORDER_MISMATCHES <= mismatches s) && bool_decide (ORDER_GIVE_UP_MIN <= now - sent_at s)%Z
        then set_cancel (set_ended s) (robot_runs_our_order s)
        else if resend_due s now && bool_decide (resends s < ORDER_MAX_RESENDS) && negb (m_near_end m)
        then send_order s now a
        else s
  end.

(** The head of [_on_client_message] *)
Definition observe (s : Sender) (oid : string) (exec drive : bool) : Sender :=
  mkSender (order_rev s) (adopted s) (leaf s) (local_work s) (sent s) (resends s) (sent_at s) (first_sent_at s) (gate_since s)
    (pending s) (dead s) (if exec then released s else []) oid exec drive (unknown_content s) (mismatches s) (cancel_out s)
    (ended s) (canceling s) (robot_ok s) (published s) (left s).

(** [_reset_resend_budgets] *)
Definition reset_budget (s : Sender) : Sender :=
  mkSender (order_rev s) (adopted s) (leaf s) (local_work s) (sent s) 0 0 (first_sent_at s) (gate_since s)
    (pending s) (dead s) (released s) (robot_order s) (executing s) (driving s) (unknown_content s) (mismatches s) (cancel_out s)
    (ended s) (canceling s) (robot_ok s) (published s) (left s).

(** The robot reports the current order failed or cancelled ([update_mission_state]) *)
Definition order_dropped (s : Sender) : Sender :=
  mkSender (order_rev s) (adopted s) (leaf s) (local_work s) (sent s) (resends s) (sent_at s) (first_sent_at s) (gate_since s)
    (Some NEW_REVISION) (robot_order s :: dead s) (released s) (robot_order s) (executing s) (driving s) (unknown_content s)
    (mismatches s) (cancel_out s) (ended s) (canceling s) (robot_ok s) (published s) (left s).

(** The behaviour tree moves to another leaf of the pass *)
Definition advance (s : Sender) (k : leaf_kind) (idx : N) : Sender :=
  mkSender (order_rev s) (adopted s) (Some (k, idx)) false (sent s) (resends s) (sent_at s) (first_sent_at s) (gate_since s)
    (pending s) (dead s) (released s) (robot_order s) (executing s) (driving s) (unknown_content s) (mismatches s) (cancel_out s)
    (ended s) (canceling s) (robot_ok s) (published s) (option_list (snd <$> leaf s) ++ left s).

(** A restarted dispatcher resumes the mission ([_try_start_mission]): it knows the revision and the leaf,
    and not what went out under the current id *)
Definition resume (s : Sender) : Sender :=
  let s' := mkSender (order_rev s) None (leaf s) false None 0 0 0 None None [] [] "" false false None 0 false
              (ended s) (canceling s) (robot_ok s) (published s) (left s) in
  mkSender (order_rev s) None (leaf s) false None 0 0 0 None None [] [] "" false false (current_order_id s') 0 false
    (ended s) (canceling s) (robot_ok s) (published s) (left s).

Inductive action :=
| Observe (oid : string) (exec drive : bool)
| Send (now : Z) (a : answers)
| Flush (now : Z) (b : bump) (a : answers)
| Mismatch (now : Z) (m : mismatch) (a : answers)
| CancelSent
| CancelResolved (abandoned replace : bool)
| Dropped
| Advance (k : leaf_kind) (idx : N)
| ResetBudget
| Resume
| CancelMission
| EndMission.

(** The content of a build is a number not drawn before; a pass does not come back to a leaf. *)
Definition fresh_content (s : Sender) (a : answers) : bool :=
  match a_built a with Some k => bool_decide (Forall (fun p => p.2 <> k) (published s)) | None => true end.
Definition fresh_leaf (s : Sender) (idx : N) : bool :=
  bool_decide (idx ∉ left s) && negb (bool_decide (snd <$> leaf s = Some idx)).

Definition step (s : Sender) (x : action) : Sender :=
  match x with
  | Observe oid e d => observe s oid e d
  | Send now a => if fresh_content s a then send_order s now a else s
  | Flush now b a => if fresh_content s a && bool_decide (is_Some (pending s)) && negb (cancel_out s)
                     then flush_pending_send s now b a else s
  | Mismatch now m a => if fresh_content s a then on_mismatch s now m a else s
  | CancelSent => set_cancel s true
  | CancelResolved abandoned replace =>
      let s := set_cancel s false in
      let s := if abandoned && executing s
               then release_order s else s in
      if replace then set_pending s (Some NEW_REVISION) else s
  | Dropped => order_dropped s
  | Advance k idx => if fresh_leaf s idx then advance s k idx else s
  | ResetBudget => reset_budget s
  | Resume => resume s
  | CancelMission =>
      mkSender (order_rev s) (adopted s) (leaf s) (local_work s) (sent s) (resends s) (sent_at s) (first_sent_at s) (gate_since s)
        (pending s) (dead s) (released s) (robot_order s) (executing s) (driving s) (unknown_content s) (mismatches s)
        (cancel_out s) (ended s) true (robot_ok s) (published s) (left s)
  | EndMission => set_ended s
  end.

Definition new_sender (k : leaf_kind) (idx : N) : Sender :=
  mkSender 0 None (Some (k, idx)) false None 0 0 0 None None [] [] "" false false None 0 false false false true [] [].

(** ** One content per order id *)

Hypothesis run_ok : run_id_ok run_id = true.

Lemma order_of_inj v v' i i' : order_of v i = order_of v' i' -> v = v' /\ i = i'.
Proof.
  intros E. unfold order_of in E. pose proof (f_equal order_node_index E) as Ei. pose proof (f_equal order_prefix E) as Ep.
  rewrite !order_node_index_order_id in Ei. rewrite !order_prefix_order_id in Ep. injection Ei as ->. injection Ep as Ep.
  by apply run_prefix_inj in Ep as (_ & _ & ->).
Qed.

(** Where a published order stands: of an earlier revision, of a leaf left behind, or the current one,
    which is then the order last sent or one known to have gone out. *)
Definition accounted (s : Sender) (o : string) (k : nat) : Prop :=
  exists v i, o = order_of v i
    /\ ((v < order_rev s)%N
        \/ v = order_rev s
           /\ (i ∈ left s \/ snd <$> leaf s = Some i /\ (sent s = Some (o, k) \/ unknown_content s = Some o))).

Definition sender_ok (s : Sender) : Prop :=
  adopted s = None
  /\ (forall i, snd <$> leaf s = Some i -> i ∉ left s)
  /\ (forall o k, sent s = Some (o, k) -> (o, k) ∈ published s)
  /\ (forall o k, (o, k) ∈ published s -> accounted s o k)
  /\ (forall o k k', (o, k) ∈ published s -> (o, k') ∈ published s -> k = k').

(** Two states that agree on what [sender_ok] reads *)
Lemma sender_ok_bump s rel u : sender_ok s -> sender_ok (set_revision s (order_rev s + 1) rel u).
Proof.
  intros (Ha & Hl & Hs & Hp & Hf). split_and!; [done|exact Hl|exact Hs| |exact Hf].
  intros o k (v & i & -> & Hv)%Hp. exists v, i. split; [done|]. left. simpl. destruct Hv as [?|[-> _]]; lia.
Qed.

Lemma sender_ok_resend s o k n now first :
  sender_ok s -> sent s = Some (o, k) -> sender_ok (publish s o k n now first).
Proof.
  intros (Ha & Hl & Hs & Hp & Hf) Hk. pose proof (Hs o k Hk) as Hin.
  assert (Hsub : forall x, x ∈ published s ++ [(o, k)] -> x ∈ published s) by (intros x; set_solver).
  split_and!; [done|exact Hl| | |]; simpl.
  - intros ?? [= <- <-]. set_solver.
  - intros o' k' H%Hsub. destruct (Hp _ _ H) as (v & i & -> & Hv). exists v, i. split; [done|]. simpl.
    rewrite <- Hk. exact Hv.
  - intros ??? H1%Hsub H2%Hsub. eauto.
Qed.

Lemma sender_ok_new s idx kd k now :
  sender_ok s -> leaf s = Some (kd, idx) -> current_order_id s <> unknown_content s ->
  (forall o k, sent s = Some (o, k) -> o <> order_of (order_rev s) idx) ->
  sender_ok (publish s (order_of (order_rev s) idx) k 0 now now).
Proof.
  intros (Ha & Hl & Hs & Hp & Hf) Hleaf Hu Hne.
  assert (Hcur : current_order_id s = Some (order_of (order_rev s) idx)).
  { unfold current_order_id, prefix. by rewrite Ha, Hleaf. }
  assert (Hnew : forall k', (order_of (order_rev s) idx, k') ∉ published s).
  { intros k' (v & i & E & Hv)%Hp. apply order_of_inj in E as [<- <-]. destruct Hv as [?|[_ [Hin|[_ [H|H]]]]]; [lia| | |].
    - eapply Hl; [|exact Hin]. by rewrite Hleaf.
    - by eapply Hne.
    - by rewrite Hcur, H in Hu. }
  split_and!; [done|exact Hl| | |]; simpl.
  - intros ?? [= <- <-]. set_solver.
  - intros o' k' [H|[= -> ->]%list_elem_of_singleton]%elem_of_app.
    + destruct (Hp _ _ H) as (v & i & -> & Hv). exists v, i. split; [done|]. simpl.
      destruct Hv as [?|[-> [?|[Hi [E|?]]]]]; [by left|by right; split; [|left]| |by right; split; [|right; split; [|right]]].
      exfalso. rewrite Hleaf in Hi. injection Hi as <-. by apply (Hnew k').
    + exists (order_rev s), idx. split; [done|]. right. split; [done|]. right. simpl. rewrite Hleaf. split; [done|by left].
  - intros o k1 k2 [H1|[= -> ->]%list_elem_of_singleton]%elem_of_app [H2|E]%elem_of_app.
    + eauto.
    + apply list_elem_of_singleton in E as [= -> ->]. by apply Hnew in H1.
    + by apply Hnew in H2.
    + by apply list_elem_of_singleton in E as [= ->].
Qed.

Lemma sender_ok_wait s now : sender_ok s -> sender_ok (wait_for_previous_order s now).
Proof.
  intros H. unfold wait_for_previous_order. simpl. destruct (gate_since s); [|exact H].
  destruct (driving s); [exact H|]. case_bool_decide; [exact H|]. destruct (_ && _); exact H.
Qed.

Lemma sender_ok_send_current s kd idx now a :
  sender_ok s -> leaf s = Some (kd, idx) -> current_order_id s <> unknown_content s ->
  sender_ok (send_current s (order_id (prefix s) idx) now a).
Proof.
  intros H Hleaf Hu. pose proof H as (Ha & _). unfold prefix. rewrite Ha. simpl.
  change (order_id (run_prefix name (Some run_id) (order_rev s)) idx) with (order_of (order_rev s) idx).
  assert (Hnew : (forall o k, sent s = Some (o, k) -> o <> order_of (order_rev s) idx) ->
    sender_ok (if robot_still_on_previous_order s (order_of (order_rev s) idx) then wait_for_previous_order s now
      else let s := set_gate s None in
        match a_built a with
        | None => s
        | Some k' => if a_stored a then publish s (order_of (order_rev s) idx) k' 0 now now
                     else set_pending s (or_owed (pending s) SEND_NODE)
        end)).
  { intros Hne. destruct (robot_still_on_previous_order _ _); [by apply sender_ok_wait|].
    destruct (a_built a) as [k'|]; [|exact H]. destruct (a_stored a); [|exact H].
    by apply (sender_ok_new (set_gate s None) idx kd). }
  unfold send_current. destruct (sent s) as [[o k]|] eqn:Es; [|apply Hnew; naive_solver].
  case_bool_decide as Eo; [|apply Hnew; naive_solver]. subst o.
  case_bool_decide; [exact H|]. by apply sender_ok_resend.
Qed.

Lemma sender_ok_bumped s b : sender_ok s -> sender_ok (bump_order_rev s b).1.
Proof.
  intros H. destruct b; simpl; [by apply sender_ok_bump| |exact H].
  destruct H as (Ha & H). split; [done|exact H].
Qed.

Lemma sender_ok_send s now a : sender_ok s -> sender_ok (send_order s now a).
Proof.
  intros H. unfold send_order. destruct (_ || _); [exact H|]. destruct (cancel_out s); [exact H|].
  destruct (leaf s) as [[[] idx]|] eqn:El; try exact H.
  destruct (bool_decide_reflect (current_order_id s = unknown_content s)) as [E|E]; [|by eapply sender_ok_send_current].
  pose proof (sender_ok_bumped s (a_bump a) H) as Hb. destruct (a_bump a) eqn:Ea; simpl in *.
  - eapply sender_ok_send_current; [exact Hb|exact El|]. unfold current_order_id. simpl. by rewrite El.
  - destruct (ended s); exact Hb.
  - exact Hb.
Qed.

Lemma sender_ok_flush s now b a : sender_ok s -> sender_ok (flush_pending_send s now b a).
Proof.
  intros H. unfold flush_pending_send. destruct (pending s) as [[]|]; try by apply sender_ok_send.
  pose proof (sender_ok_bumped (set_pending s None) b H) as Hb.
  destruct (bump_order_rev (set_pending s None) b) as [s1 ok]. simpl in Hb. destruct ok; [by apply sender_ok_send|].
  destruct (ended s1); exact Hb.
Qed.

Definition no_adoption (x : action) : Prop :=
  match x with Mismatch _ m _ => m_adopt m = None | _ => True end.

Lemma sender_ok_step s x : no_adoption x -> sender_ok s -> sender_ok (step s x).
Proof.
  intros Hx H. destruct x as [| | |now m a| | | | | | | |]; simpl in *; try exact H.
  - destruct (fresh_content s a); [by apply sender_ok_send|exact H].
  - destruct (_ && _); [by apply sender_ok_flush|exact H].
  - destruct (fresh_content s a); [|exact H]. unfold on_mismatch. destruct (cancel_out s); [exact H|]. rewrite Hx.
    destruct (_ && negb (canceling s)); [by destruct (robot_runs_dispatcher_order _)|].
    destruct (m_rejected m); [exact H|]. destruct (_ && bool_decide _); [exact H|].
    destruct (_ && negb _); [by apply sender_ok_send|exact H].
  - destruct (abandoned && executing s), replace; exact H.
  - destruct (fresh_leaf s idx) eqn:E; [|exact H]. unfold fresh_leaf in E. bprop.
    destruct H as (Ha & Hl & Hs & Hp & Hf). split_and!; [done| |exact Hs| |exact Hf]; simpl.
    + intros i [= <-] [Hi|?]%elem_of_app; [|done]. destruct (snd <$> leaf s) as [j|]; simpl in Hi; set_solver.
    + intros o c (v & i & -> & Hv)%Hp. exists v, i. split; [done|]. simpl.
      destruct Hv as [?|[-> [?|[Hi _]]]]; [by left| |]; right; (split; [done|]); left; [|rewrite Hi; simpl]; set_solver.
  - destruct H as (Ha & Hl & Hs & Hp & Hf). split_and!; [done|exact Hl|done| |exact Hf]. simpl.
    intros o k (v & i & -> & Hv)%Hp. exists v, i. split; [done|]. simpl.
    destruct Hv as [?|[-> [?|[Hi _]]]]; [by left|by right; split; [|left]|]. right. split; [done|]. right.
    split; [done|]. right. destruct (leaf s) as [[kd i']|]; [|done]. by injection Hi as ->.
Qed.

(** C3: No order id ever names two orders: whatever the robot reports, whatever fails, and across restarts,
    all orders published under one id in a run have the same content, as long as no earlier revision is
    adopted. A resend is the same order; anything else goes out under an id not used before. *)
Theorem one_content_per_order_id k idx xs o c1 c2 :
  Forall no_adoption xs ->
  let s := foldl step (new_sender k idx) xs in
  (o, c1) ∈ published s -> (o, c2) ∈ published s -> c1 = c2.
Proof.
  intros Hxs s. assert (H : sender_ok s).
  { subst s. assert (H0 : sender_ok (new_sender k idx)).
    { split_and!; [done|intros ? _ ?%not_elem_of_nil; done|done|intros ?? ?%not_elem_of_nil; done|].
      intros ??? ?%not_elem_of_nil; done. }
    revert H0. generalize (new_sender k idx). induction Hxs as [|x xs Hx _ IH]; intros s H0; simpl; [done|].
    apply IH. by apply sender_ok_step. }
  destruct H as (_ & _ & _ & _ & Hf). apply Hf.
Qed.

(** ** The gate *)

(** A new order never overtakes: what goes out that is not a resend goes out only to a known robot, for a
    mission that is neither over nor being cancelled, with no cancelOrder in flight, and only when the
    robot is not on another order of a dispatcher, unless that one is dead, was released, or is left
    behind by moving to a new revision. *)
Theorem new_order_waits s now a o k :
  published (send_order s now a) = published s ++ [(o, k)] -> sent s <> Some (o, k) ->
  robot_ok s = true /\ ended s = false /\ canceling s = false /\ cancel_out s = false
  /\ exists idx, leaf s = Some (RobotLeaf, idx)
     /\ (o = order_id (prefix s) idx
          /\ (executing s = true -> is_Some (order_prefix (robot_order s)) ->
              robot_order s = o \/ robot_order s ∈ dead s \/ robot_order s ∈ released s)
         \/ current_order_id s = unknown_content s /\ o = order_of (order_rev s + 1) idx).
Proof.
  unfold send_order. intros Hp Hs.
  assert (Hnil : forall x : string * nat, published s <> published s ++ [x]).
  { intros x E. apply (f_equal length) in E. rewrite length_app in E. simpl in E. lia. }
  destruct (robot_ok s), (ended s), (canceling s); simpl in Hp; try by apply Hnil in Hp.
  destruct (cancel_out s); [by apply Hnil in Hp|].
  destruct (leaf s) as [[[] idx]|] eqn:El; try by apply Hnil in Hp. split_and!; [done..|]. exists idx. split; [done|].
  assert (Hcur : forall s' oid, published s' = published s -> sent s' = sent s ->
    published (send_current s' oid now a) = published s ++ [(o, k)] ->
    o = oid /\ robot_still_on_previous_order s' oid = false).
  { intros s' oid Ep Es Hsc. unfold send_current in Hsc. rewrite Es in Hsc.
    assert (Hnew : published (if robot_still_on_previous_order s' oid then wait_for_previous_order s' now
      else let s' := set_gate s' None in
        match a_built a with
        | None => s'
        | Some k' => if a_stored a then publish s' oid k' 0 now now else set_pending s' (or_owed (pending s') SEND_NODE)
        end) = published s ++ [(o, k)] -> o = oid /\ robot_still_on_previous_order s' oid = false).
    { destruct (robot_still_on_previous_order s' oid) eqn:Er.
      - assert (Hw : published (wait_for_previous_order s' now) = published s').
        { unfold wait_for_previous_order. simpl. repeat case_match; done. }
        rewrite Hw, Ep. by intros ?%Hnil.
      - destruct (a_built a); [|simpl; rewrite Ep; by intros ?%Hnil].
        destruct (a_stored a); simpl; rewrite Ep; [|by intros ?%Hnil]. intros E%app_inv_head. by injection E as ->. }
    destruct (sent s) as [[o' k']|]; [|by apply Hnew]. case_bool_decide; [|by apply Hnew]. subst o'.
    case_bool_decide; simpl in Hsc; rewrite Ep in Hsc; [by apply Hnil in Hsc|].
    apply app_inv_head in Hsc. by injection Hsc as -> ->. }
  destruct (bool_decide_reflect (current_order_id s = unknown_content s)) as [E|E].
  - destruct (a_bump a); simpl in Hp; [|destruct (ended s); by apply Hnil in Hp|by apply Hnil in Hp].
    apply Hcur in Hp as [-> _]; [|done..]. right. split; [done|]. unfold prefix. by simpl.
  - apply Hcur in Hp as [-> Hr]; [|done..]. left. split; [done|]. intros He [p Hpre].
    unfold robot_still_on_previous_order, robot_runs_dispatcher_order in Hr. rewrite He, Hpre in Hr. simpl in Hr.
    apply andb_false_iff in Hr as [Hr|Hr]; [|right; right; by apply negb_false_iff, bool_decide_eq_true in Hr].
    apply andb_false_iff in Hr as [Hr|Hr]; apply negb_false_iff, bool_decide_eq_true in Hr; auto.
Qed.

(** An order held back by the gate is not held for ever: at the next state message it goes out if the
    robot has finished, and if the robot has not driven for the dwell time the order in its way is
    cancelled, the send staying owed. *)
Theorem held_order_moves s now b a idx t k :
  robot_ok s = true -> ended s = false -> canceling s = false -> cancel_out s = false ->
  leaf s = Some (RobotLeaf, idx) -> current_order_id s <> unknown_content s ->
  pending s = Some SEND_NODE -> (fst <$> sent s) <> current_order_id s -> gate_since s = Some t ->
  (executing s = false -> a_built a = Some k -> a_stored a = true ->
   let s' := flush_pending_send s now b a in
   sent s' = Some (order_id (prefix s) idx, k) /\ pending s' = None /\ gate_since s' = None
   /\ published s' = published s ++ [(order_id (prefix s) idx, k)])
  /\ (robot_still_on_previous_order s (order_id (prefix s) idx) = true -> driving s = false ->
      (ORDER_CLEAR_DWELL <= now - t)%Z ->
      let s' := flush_pending_send s now b a in
      cancel_out s' = true /\ pending s' = Some SEND_NODE /\ published s' = published s).
Proof.
  intros H1 H2 H3 H4 Hl Hu Hp Hs Hg.
  assert (Hflush : flush_pending_send s now b a =
    send_current (set_pending s None) (order_id (prefix s) idx) now a).
  { unfold flush_pending_send. rewrite Hp. unfold send_order. simpl. rewrite H1, H2, H3, H4, Hl. simpl.
    by rewrite bool_decide_false. }
  assert (Hne : forall o k', sent s = Some (o, k') -> o <> order_id (prefix s) idx).
  { intros o k' E ->. apply Hs. unfold current_order_id. by rewrite E, Hl. }
  rewrite Hflush. unfold send_current.
  change (robot_still_on_previous_order (set_pending s None)) with (robot_still_on_previous_order s).
  change (sent (set_pending s None)) with (sent s). split.
  - intros He Hb Hst. rewrite Hb, Hst.
    assert (Hr : robot_still_on_previous_order s (order_id (prefix s) idx) = false).
    { unfold robot_still_on_previous_order, robot_runs_dispatcher_order. by rewrite He. }
    rewrite Hr. destruct (sent s) as [[o k']|]; [|done]. by rewrite bool_decide_false by eauto.
  - intros Hr Hd Hdw. rewrite Hr. pose proof Hr as Hdisp. unfold robot_still_on_previous_order in Hdisp.
    apply andb_true_iff in Hdisp as [[[Hdisp _]%andb_true_iff _]%andb_true_iff _].
    assert (Hw : wait_for_previous_order (set_pending s None) now
      = set_gate (set_cancel (set_pending (set_pending s None) (Some SEND_NODE)) true) (Some now)).
    { unfold wait_for_previous_order. simpl. rewrite Hg, Hd, bool_decide_false by lia. rewrite H4.
      change (robot_runs_dispatcher_order (set_pending (set_pending s None) (Some SEND_NODE)))
        with (robot_runs_dispatcher_order s). by rewrite Hdisp. }
    rewrite Hw. destruct (sent s) as [[o k']|] eqn:Es; [|done]. by rewrite bool_decide_false by eauto.
Qed.

(** ** Giving up *)

(** One state message that does not report our order, adopts nothing and rejects nothing *)
Record unadopted := mkUnadopted { u_order : string; u_exec : bool; u_drive : bool; u_now : Z; u_answers : answers }.
Definition no_news : mismatch := mkMismatch None false false.
Definition ignore (s : Sender) (e : unadopted) : Sender :=
  on_mismatch (observe s (u_order e) (u_exec e) (u_drive e)) (u_now e) no_news (u_answers e).

(** The order [oid] was sent and nothing is in its way. *)
Definition waiting (s : Sender) (idx : N) (k : nat) : Prop :=
  robot_ok s = true /\ ended s = false /\ canceling s = false /\ cancel_out s = false
  /\ leaf s = Some (RobotLeaf, idx) /\ sent s = Some (order_id (prefix s) idx, k)
  /\ order_id (prefix s) idx ∉ dead s /\ current_order_id s <> unknown_content s.

(** The messages come in order, never more than [gap] apart. *)
Fixpoint steady (gap p : Z) (es : list unadopted) : Prop :=
  match es with
  | [] => True
  | e :: es => (p <= u_now e <= p + gap)%Z /\ steady gap (u_now e) es
  end.

(** When resend number [n] is due at the latest, of an order sent at 0 *)
Definition schedule (n : nat) : Z := match n with 0 => 0 | 1 => 1000 | 2 => 3000 | _ => 7000 end.

Definition last_time (p : Z) (es : list unadopted) : Z := default p (u_now <$> last es).

Lemma ignore_cases s idx k e :
  waiting s idx k ->
  let due := bool_decide (resend_interval (resends s) <= u_now e - sent_at s)%Z && bool_decide (resends s < ORDER_MAX_RESENDS) in
  ended (ignore s e) = true
    /\ (MAX_ORDER_MISMATCHES <= S (mismatches s)) /\ (ORDER_GIVE_UP_MIN <= u_now e - sent_at s)%Z
    /\ published (ignore s e) = published s
  \/ waiting (ignore s e) idx k /\ mismatches (ignore s e) = S (mismatches s)
    /\ (S (mismatches s) < MAX_ORDER_MISMATCHES \/ (u_now e - sent_at s < ORDER_GIVE_UP_MIN)%Z)
    /\ prefix (ignore s e) = prefix s
    /\ (due = true /\ resends (ignore s e) = S (resends s) /\ sent_at (ignore s e) = u_now e
          /\ published (ignore s e) = published s ++ [(order_id (prefix s) idx, k)]
        \/ due = false /\ resends (ignore s e) = resends s /\ sent_at (ignore s e) = sent_at s
          /\ published (ignore s e) = published s).
Proof.
  intros (H1 & H2 & H3 & H4 & Hl & Hs & Hd & Hu) due. unfold ignore, on_mismatch. simpl. rewrite H4.
  set (s1 := set_mismatches (observe s (u_order e) (u_exec e) (u_drive e)) (S (mismatches s))).
  destruct (bool_decide_reflect (MAX_ORDER_MISMATCHES <= S (mismatches s))) as [Hm|Hm];
    destruct (bool_decide_reflect (ORDER_GIVE_UP_MIN <= u_now e - sent_at s)%Z) as [Ht|Ht]; simpl.
  { left. done. }
  all: right.
  all: assert (Hlate : S (mismatches s) < MAX_ORDER_MISMATCHES \/ (u_now e - sent_at s < ORDER_GIVE_UP_MIN)%Z) by lia.
  all: unfold resend_due; change (resends s1) with (resends s); change (sent_at s1) with (sent_at s); rewrite andb_true_r;
    fold due; destruct due eqn:Edue.
  all: try (split_and!; [split_and!; done|done|exact Hlate|done|right; done]).
  all: assert (Hsend : send_order s1 (u_now e) (u_answers e) =
      publish s1 (order_id (prefix s) idx) k (S (resends s)) (u_now e) (first_sent_at s))
      by (unfold send_order, s1; simpl; rewrite H1, H2, H3, H4, Hl; simpl;
          rewrite bool_decide_false by exact Hu; unfold send_current; simpl; rewrite Hs;
          change (prefix (set_mismatches _ _)) with (prefix s); rewrite bool_decide_true by done;
          by rewrite bool_decide_false).
  all: rewrite Hsend; split_and!; [split_and!; done|done|exact Hlate|done|left; done].
Qed.

Lemma ignore_ended s e : ended s = true -> ended (ignore s e) = true.
Proof.
  intros H. unfold ignore, on_mismatch. simpl. destruct (cancel_out s); [done|].
  destruct (bool_decide _ && bool_decide _); [done|]. destruct (resend_due _ _ && _ && _); [|done].
  unfold send_order. simpl. rewrite H. by rewrite orb_true_r.
Qed.

Lemma waiting_run gap t0 idx k es : forall s p,
  (0 <= gap)%Z -> waiting s idx k -> resends s <= 3 ->
  (sent_at s <= t0 + schedule (resends s) + Z.of_nat (resends s) * gap)%Z ->
  (resends s = 3 \/ (p < sent_at s + resend_interval (resends s))%Z) -> steady gap p es ->
  let s' := foldl ignore s es in
  ended s' = true
  \/ waiting s' idx k /\ mismatches s' = mismatches s + length es
     /\ (es = [] \/ mismatches s' < MAX_ORDER_MISMATCHES
         \/ (last_time p es < t0 + schedule 3 + 3 * gap + ORDER_GIVE_UP_MIN)%Z).
Proof.
  induction es as [|e es IH]; intros s p Hg Hw Hr Hsa Hdue Hst; simpl.
  { right. split_and!; [done|lia|by left]. }
  destruct Hst as [Hnow Hst].
  destruct (ignore_cases s idx k e Hw) as [(He & _)|(Hw' & Hm' & Hlate & Hpre & Hd)].
  { left. clear -He. revert He. generalize (ignore s e). induction es as [|e' es IH]; intros s' He; simpl; [done|].
    apply IH. by apply ignore_ended. }
  assert (Hstep : resends (ignore s e) <= 3
    /\ (sent_at (ignore s e) <= t0 + schedule (resends (ignore s e)) + Z.of_nat (resends (ignore s e)) * gap)%Z
    /\ (resends (ignore s e) = 3 \/ (u_now e < sent_at (ignore s e) + resend_interval (resends (ignore s e)))%Z)).
  { unfold ORDER_MAX_RESENDS in Hd.
    destruct Hd as [(Hdue' & -> & -> & _)|(Hdue' & -> & -> & _)].
    - apply andb_true_iff in Hdue' as [H1%bool_decide_eq_true H2%bool_decide_eq_true].
      destruct Hdue as [?|Hdue]; [lia|]. destruct (resends s) as [|[|[|]]]; simpl in *; [..|lia];
        unfold resend_interval, ORDER_RESEND_BASE, ORDER_RESEND_MAX in *; simpl in *; lia.
    - split_and!; [done|done|]. apply andb_false_iff in Hdue' as [H1%bool_decide_eq_false|H1%bool_decide_eq_false]; lia. }
  destruct Hstep as (Hr' & Hsa' & Hdue2).
  destruct (IH (ignore s e) (u_now e) Hg Hw' Hr' Hsa' Hdue2 Hst) as [?|(Hw2 & Hm2 & Hend)]; [by left|]. right.
  split_and!; [done|lia|]. right. destruct es as [|e' es].
  - simpl in *. unfold last_time. simpl. destruct Hlate as [?|?]; [left; lia|right].
    destruct (resends s) as [|[|[|[|]]]]; simpl in *; lia.
  - destruct Hend as [?|[?|?]]; [done|by left|]. right. unfold last_time in *.
    rewrite last_cons_cons. destruct (last (e' :: es)) eqn:El; [done|]. by apply last_None in El.
Qed.

(** An order the robot never takes fails the mission: while it goes on reporting something else, at least
    every [gap], the mission ends once MAX_ORDER_MISMATCHES state messages came and the whole resend
    schedule, its delays and the last answer time have passed. *)
Theorem unadopted_order_fails s idx k gap es :
  waiting s idx k -> resends s = 0 -> mismatches s = 0 -> (0 <= gap)%Z -> steady gap (sent_at s) es ->
  MAX_ORDER_MISMATCHES <= length es ->
  (sent_at s + 7000 + 3 * gap + ORDER_GIVE_UP_MIN <= last_time (sent_at s) es)%Z ->
  ended (foldl ignore s es) = true.
Proof.
  intros Hw Hr Hm Hg Hst Hlen Hlast.
  destruct (waiting_run gap (sent_at s) idx k es s (sent_at s)) as [?|(_ & Hm' & Hend)]; try done.
  - rewrite Hr. lia.
  - rewrite Hr. simpl. lia.
  - right. rewrite Hr. vm_compute resend_interval. lia.
  - exfalso. destruct Hend as [->|[?|?]]; [unfold MAX_ORDER_MISMATCHES in Hlen; simpl in Hlen; lia|lia|].
    simpl schedule in *. lia.
Qed.

End sender.

(** ** Adoption, and witnesses *)

Definition asked (k : nat) : answers := mkAnswers Bumped (Some k) true.

Definition adopting : list action :=
  [Send 0 (asked 1); Observe "m-r1-n0" true false; CancelResolved false true; Flush 20000 Bumped (asked 2);
   Mismatch 21000 (mkMismatch (Some (0%N, true)) false false) (asked 3);
   Observe "" false false; Mismatch 60000 no_news (asked 3)].

Lemma adopting_published :
  published (foldl (step "m" "1") (new_sender RobotLeaf 0) adopting) = [("m-r1-n0", 1); ("m-r1v1-n0", 2); ("m-r1-n0", 3)].
Proof. vm_compute. reflexivity. Qed.

(** An adopted revision is sent again under its id with other content: the robot goes back to the first
    revision, which is adopted, and then drops it; the order built for it anew is another one. *)
Theorem adopted_order_rebuilt :
  exists xs o c1 c2, let s := foldl (step "m" "1") (new_sender RobotLeaf 0) xs in
    (o, c1) ∈ published s /\ (o, c2) ∈ published s /\ c1 <> c2.
Proof.
  exists adopting, "m-r1-n0", 1, 3. cbv zeta. rewrite adopting_published. split_and!; [left|right; right; left|done].
Qed.

Lemma one_content_per_order_id_witness :
  let xs := [Send 0 (asked 1); Send 2000 (asked 2); Observe "m-r1-n0" true false; CancelResolved false true;
             Flush 20000 Bumped (asked 3); Resume; Send 30000 (asked 4)] in
  published (foldl (step "m" "1") (new_sender RobotLeaf 0) xs)
    = [("m-r1-n0", 1); ("m-r1-n0", 1); ("m-r1v1-n0", 3); ("m-r1v2-n0", 4)]
  /\ (forall c1 c2, let s := foldl (step "m" "1") (new_sender RobotLeaf 0) xs in
       ("m-r1-n0", c1) ∈ published s -> ("m-r1-n0", c2) ∈ published s -> c1 = c2).
Proof.
  split; [vm_compute; reflexivity|]. intros c1 c2.
  apply (one_content_per_order_id "m" "1" eq_refl RobotLeaf 0). repeat constructor.
Defined.

Definition idle_sender : Sender := foldl (step "m" "1") (new_sender RobotLeaf 0) [].

Lemma new_order_waits_witness :
  exists idx, leaf idle_sender = Some (RobotLeaf, idx)
    /\ published (send_order "m" "1" idle_sender 0 (asked 1)) = published idle_sender ++ [("m-r1-n0", 1)].
Proof.
  destruct (new_order_waits "m" "1" idle_sender 0 (asked 1) "m-r1-n0" 1) as (_ & _ & _ & _ & idx & H & _);
    [vm_compute; reflexivity|discriminate|].
  exists idx. split; [exact H|vm_compute; reflexivity].
Defined.

(** The first leaf is done and the robot still lists its order when the next is due. *)
Definition held_sender : Sender :=
  foldl (step "m" "1") (new_sender RobotLeaf 0)
    [Send 0 (asked 1); Observe "m-r1-n0" true false; Advance RobotLeaf 1; Send 5000 (asked 2)].

Lemma held_order_moves_witness :
  cancel_out (flush_pending_send "m" "1" held_sender 20000 Bumped (asked 3)) = true.
Proof.
  apply (held_order_moves "m" "1" held_sender 20000 Bumped (asked 3) 1 5000 3);
    first [reflexivity|vm_compute; reflexivity|vm_compute; discriminate].
Defined.

Definition stubborn : list unadopted :=
  (fun i => mkUnadopted "own-order" true true (Z.of_nat (S i) * 1000) (asked 9)) <$> seq 0 40.
Definition sent_sender : Sender := foldl (step "m" "1") (new_sender RobotLeaf 0) [Send 0 (asked 1)].

Lemma unadopted_order_fails_witness : ended (foldl (ignore "m" "1") sent_sender stubborn) = true.
Proof.
  apply (unadopted_order_fails "m" "1" sent_sender 0 1 1000).
  - split_and!; try reflexivity; [vm_compute; intros H; inversion H|vm_compute; discriminate].
  - reflexivity.
  - reflexivity.
  - lia.
  - vm_compute. repeat split; discriminate.
  - apply Nat.leb_le. reflexivity.
  - vm_compute. discriminate.
Defined.
