(* ===== verification/Reports.v ===== *)
(** * What a robot reports about single nodes (packages/controllers/mission/server.py)

    [NodeRefs]: the references of an error ([_error_ref_details]) and the waypoint a node id names
    ([_resolve_node_ref]). [NodeReports]: the skipped nodes and the notes kept on a mission
    ([_process_node_reports], [_drop_node_reports]); a note is a shared object, in the list of the mission
    status and in the controller's memory of what it has seen, so notes live in a heap. The offsets of
    notes and their summary (floating point) are left out. [Blocked]: a blocked edge
    ([_handle_edge_blocked], [_clear_block]).

    The parsing of a number is an argument, and so is whether an order is one of the current run
    ([OrderGate.is_order_of_run]). *)

From Stdlib Require Import Ascii.
From S2P Require Import Prelude PyDict OrderIds OrderPolicy Mission Progress.
Local Open Scope string_scope.
Local Open Scope list_scope.

Module NodeRefs.

Definition REF_ALIASES : list (string * list string) :=
  [("nodeSequenceId", ["nodeSequenceId"; "node_sequence_id"]); ("blockReason", ["blockReason"; "block_reason"]);
   ("heldS", ["heldS"; "held_s"]); ("skipRefused", ["skipRefused"; "skip_refused"])].

Section details.
Context (float_of : string -> option Policy.float).

(** [_to_float] of a text: a finite number that is not negative *)
Definition to_float (v : option string) : option Z :=
  match v with
  | None => None
  | Some t => match float_of (Policy.rstrip (Policy.lstrip t)) with
              | Some (Policy.Fin z) => if bool_decide (0 <= z)%Z then Some z else None
              | _ => None
              end
  end.
(** [_to_int] *)
Definition to_int (v : option string) : option Z :=
  match to_float v with
  | Some z => if bool_decide (z mod Policy.unit_ = 0)%Z then Some (z / Policy.unit_)%Z else None
  | None => None
  end.
(** [_to_bool] *)
Definition to_bool (v : option string) : option bool :=
  let text := match v with Some t => Policy.norm t | None => "" end in
  if bool_decide (text ∈ ["true"; "1"; "yes"]) then Some true
  else if bool_decide (text ∈ ["false"; "0"; "no"]) then Some false else None.

(** The first value of each name, whichever of its keys carries it *)
Definition collect (raw : list (string * string)) (r : string * string) : list (string * string) :=
  foldl (fun raw a => if bool_decide (r.1 ∈ a.2) && negb (dmem raw a.1) then dset raw a.1 r.2 else raw)
    raw REF_ALIASES.

Record details := mkDetails {
  d_sequence : option Z; d_reason : option string; d_held : option Z; d_refused : option bool;
}.

(** [_error_ref_details] *)
Definition error_ref_details (refs : list (string * string)) : details :=
  let raw := foldl collect [] refs in
  let reason := match dget raw "blockReason" with Some t => Policy.rstrip (Policy.lstrip t) | None => "" end in
  mkDetails (to_int (dget raw "nodeSequenceId")) (if bool_decide (reason = "") then None else Some reason)
    (to_float (dget raw "heldS")) (to_bool (dget raw "skipRefused")).

End details.

(** What a node id names in the current run *)
Record NodeRef := mkRef {
  r_node : string; r_order : string; r_mission_node : option string; r_waypoint : option nat; r_graph : option string;
}.

Section resolve.
Context (digest : MissionRouteNode -> string) (graph_node : Pose2D -> option string) (of_run : string -> bool).
Context (planned_path : list string).

(** [_resolve_node_ref] *)
Definition resolve_node_ref (c : Ctl) (reference : string) : option NodeRef :=
  let nid := node_of_reference reference in
  match order_of_node nid with
  | None => None
  | Some oid =>
      if negb (of_run oid) then None
      else
        let bare := mkRef nid oid None None None in
        match node_index nid ≫= (fun i => tree c !! N.to_nat i) with
        | None => Some bare
        | Some node =>
            if bool_decide (is_Some (route node)) && negb (order_route_is_current digest c oid node) then None
            else
              let named := mkRef nid oid (Some (default "" (name node))) None None in
              match node_sequence nid, route node, sent_order_record c oid with
              | Some seq, Some r, Some _ =>
                  if bool_decide (seq < 2)%N then Some named
                  else
                    let index := offset_of c oid + N.to_nat (seq / 2) - 1 in
                    match waypoints r !! index with
                    | None => Some named
                    | Some w =>
                        let routes := List.filter (fun n => bool_decide (is_Some (route n))) (tree c) in
                        let g := match graph_node w with
                                 | Some g => Some g
                                 | None => if bool_decide (length routes = 1) then planned_path !! index else None
                                 end in
                        Some (mkRef nid oid (Some (default "" (name node))) (Some index) g)
                    end
              | _, _, _ => Some named
              end
        end
  end.

(** A node of the order sent is resolved to the waypoint the order put there: node [i + 1] of an order
    built from waypoint [off] on names waypoint [off + i] of the route. *)
Theorem reference_names_waypoint c prefix idx node r nm off i w :
  of_run (order_id prefix idx) = true -> tree c !! N.to_nat idx = Some node -> route node = Some r -> name node = Some nm ->
  sent_order c = Some (mkSent (order_id prefix idx) (Some (digest r)) off) -> order_id prefix idx <> "" ->
  waypoints r !! (off + i) = Some w ->
  let nid := node_id prefix idx (2 * N.of_nat (S i)) in
  exists g, resolve_node_ref c nid = Some (mkRef nid (order_id prefix idx) (Some nm) (Some (off + i)) g)
    /\ resolve_node_ref c (node_policy_action_id nid) = resolve_node_ref c nid
    /\ (forall x, graph_node w = Some x -> g = Some x).
Proof.
  intros Hof Hn Hr Hnm Hs Hne Hw nid.
  assert (E1 : node_of_reference nid = nid) by apply node_of_reference_node.
  assert (E2 : order_of_node nid = Some (order_id prefix idx)).
  { unfold order_of_node, nid. by rewrite search_node_id. }
  assert (E3 : node_index nid = Some idx) by apply node_index_node_id.
  assert (E4 : node_sequence nid = Some (2 * N.of_nat (S i))%N) by apply node_sequence_node_id.
  assert (Hrec : sent_order_record c (order_id prefix idx) = Some (mkSent (order_id prefix idx) (Some (digest r)) off)).
  { unfold sent_order_record. rewrite Hs. by rewrite bool_decide_true. }
  assert (Hcur : order_route_is_current digest c (order_id prefix idx) node = true).
  { unfold order_route_is_current. rewrite Hrec, Hr. by apply bool_decide_eq_true. }
  assert (Hoff : offset_of c (order_id prefix idx) + N.to_nat (2 * N.of_nat (S i) / 2) - 1 = off + i).
  { unfold offset_of. rewrite Hrec. simpl waypoint_offset. rewrite N.mul_comm, N.div_mul by done. lia. }
  eexists. unfold resolve_node_ref. rewrite node_of_reference_policy, E1, E2, Hof. cbn [negb].
  rewrite E3. cbn [mbind option_bind]. rewrite Hn, Hcur. cbn [negb]. rewrite andb_false_r, E4, Hr, Hrec, Hnm.
  rewrite bool_decide_false by lia. rewrite Hoff, Hw. split_and!; [reflexivity|done|]. by intros x ->.
Qed.

End resolve.

Lemma reference_names_waypoint_witness :
  let c := mkCtl [route_named "a"] [] [] (Some (mkSent "m-r1-n0" (Some "d") 1)) 0 [] None None None 0 in
  exists g, resolve_node_ref a_digest (fun _ => Some "g7") (fun _ => true) [] c "m-r1-n0-s2"
    = Some (mkRef "m-r1-n0-s2" "m-r1-n0" (Some "a") (Some 1) g) /\ g = Some "g7".
Proof.
  destruct (reference_names_waypoint a_digest (fun _ => Some "g7") (fun _ => true) []
    (mkCtl [route_named "a"] [] [] (Some (mkSent "m-r1-n0" (Some "d") 1)) 0 [] None None None 0) "m-r1" 0 (route_named "a")
    two_points "a" 1 0 sample_pose) as (g & H1 & _ & H2); try reflexivity; [discriminate|].
  exists g. split; [exact H1|]. apply (H2 "g7"). reflexivity.
Defined.

End NodeRefs.

(** ** Skipped nodes and notes *)

Module NodeReports.
Import NodeRefs.

Definition MISSION_NODE_NOTES_MAX : nat := 50.
Definition MISSION_SKIPPED_NODES_MAX : nat := 100.

Record Info := mkInfo { infoType : string; infoReferences : list (string * string); infoDescription : string }.

Record SkippedNode := mkSkipped {
  s_ref : NodeRef; s_description : string; s_first_seen : Z; s_sequence : option Z; s_refused : option bool;
}.
Record Note := mkNote { n_ref : NodeRef; n_type : string; n_description : string; n_first_seen : Z; n_last_seen : Z }.

(** The keys of [_node_reports_seen] *)
Inductive seen_key := KSkip (node : string) (seq : option Z) | KNote (node info : string).
#[export] Instance seen_key_eq_dec : EqDecision seen_key.
Proof. solve_decision. Defined.

Record Reports := mkReports {
  skipped_nodes : list SkippedNode;
  node_notes : list nat;                   (** newest first, by identity *)
  heap : list Note;
  seen : list (seen_key * option nat);
  report_writes : nat;
}.

Section process.
Context (resolve : string -> option NodeRef) (float_of : string -> option Policy.float).

Definition set_seen (s : Reports) (k : seen_key) (v : option nat) : Reports :=
  mkReports (skipped_nodes s) (node_notes s) (heap s) (dset (seen s) k v) (report_writes s).

(** One node reference of a nodeSkipped error *)
Definition same_skip (ref : NodeRef) (seq : option Z) (k : SkippedNode) : bool :=
  bool_decide (r_node (s_ref k) = r_node ref) && bool_decide (r_order (s_ref k) = r_order ref)
  && match seq, s_sequence k with Some a, Some b => bool_decide (b = a) | _, _ => true end.

Definition skip_one (now : Z) (acc : Reports * bool) (x : Error * string) : Reports * bool :=
  let '(s, changed) := acc in
  let '(error, reference) := x in
  let d := error_ref_details float_of (errorReferences error) in
  let key := KSkip (node_of_reference reference) (d_sequence d) in
  if dmem (seen s) key then (s, changed)
  else match resolve reference with
       | None => (s, changed)
       | Some ref =>
           let s := set_seen s key None in
           if existsb (same_skip ref (d_sequence d)) (skipped_nodes s) then (s, changed)
           else (mkReports
                   (keep_last MISSION_SKIPPED_NODES_MAX
                      (skipped_nodes s ++ [mkSkipped ref (errorDescription error) now (d_sequence d) (d_refused d)]))
                   (node_notes s) (heap s) (seen s) (report_writes s), true)
       end.

(** The node references of the nodeSkipped errors of a message, in order *)
Definition skip_reports (es : list Error) : list (Error * string) :=
  flat_map (fun e => if bool_decide (errorType e = Some NODE_SKIPPED)
                     then (fun r => (e, r.2)) <$> List.filter (fun r => bool_decide (r.1 ∈ ["nodeId"; "node_id"])) (errorReferences e)
                     else []) es.

Definition touch (h : list Note) (i : nat) (now : Z) : list Note :=
  match h !! i with
  | Some n => <[i := mkNote (n_ref n) (n_type n) (n_description n) (n_first_seen n) now]> h
  | None => h
  end.

(** The notes of the list that match, the newest first *)
Definition same_note (h : list Note) (ref : NodeRef) (info : string) (i : nat) : bool :=
  match h !! i with
  | Some n => bool_decide (r_node (n_ref n) = r_node ref) && bool_decide (r_order (n_ref n) = r_order ref)
              && bool_decide (n_type n = info)
  | None => false
  end.

(** One information with a node reference *)
Definition note_one (now : Z) (acc : Reports * bool) (x : Info * string) : Reports * bool :=
  let '(s, changed) := acc in
  let '(info, reference) := x in
  let key := KNote (node_of_reference reference) (infoType info) in
  match dget (seen s) key with
  | Some None => (s, changed)
  | Some (Some i) => (mkReports (skipped_nodes s) (node_notes s) (touch (heap s) i now) (seen s) (report_writes s), changed)
  | None =>
      match resolve reference with
      | None => (s, changed)
      | Some ref =>
          match find_first (same_note (heap s) ref (infoType info)) (node_notes s) with
          | Some i =>
              (mkReports (skipped_nodes s) (node_notes s) (touch (heap s) i now) (dset (seen s) key (Some i)) (report_writes s),
               changed)
          | None =>
              let i := length (heap s) in
              (mkReports (skipped_nodes s) (take MISSION_NODE_NOTES_MAX (i :: node_notes s))
                 (heap s ++ [mkNote ref (infoType info) (infoDescription info) now now])
                 (dset (seen s) key (Some i)) (report_writes s), true)
          end
      end
  end.

(** The informations with a node reference *)
Definition note_reports (infos : list Info) : list (Info * string) :=
  omap (fun i => if bool_decide (infoType i = "missionStatus") then None
                 else
                   let refs := dupdate [] (infoReferences i) in
                   let r := or_str (dget refs "nodeId") (default "" (dget refs "node_id")) in
                   if bool_decide (r = "") then None else Some (i, r)) infos.

(** [_process_node_reports] *)
Definition process_node_reports (s : Reports) (es : list Error) (infos : list Info) (now : Z) : Reports :=
  let '(s, changed) := foldl (note_one now) (foldl (skip_one now) (s, false) (skip_reports es)) (note_reports infos) in
  if changed then mkReports (skipped_nodes s) (node_notes s) (heap s) (seen s) (S (report_writes s)) else s.

(** [_drop_node_reports] *)
Definition drop_node_reports (s : Reports) (mission_node : string) : Reports :=
  mkReports (List.filter (fun k => negb (bool_decide (r_mission_node (s_ref k) = Some mission_node))) (skipped_nodes s))
    (List.filter (fun i => match heap s !! i with
                           | Some n => negb (bool_decide (r_mission_node (n_ref n) = Some mission_node))
                           | None => true
                           end) (node_notes s))
    (heap s) (seen s) (report_writes s).

End process.

(** *** Invariant *)

Definition note_key (h : list Note) (i : nat) : option (string * string * string) :=
  (fun n => (r_node (n_ref n), r_order (n_ref n), n_type n)) <$> h !! i.

Definition reports_ok (s : Reports) : Prop :=
  length (skipped_nodes s) <= MISSION_SKIPPED_NODES_MAX
  /\ length (node_notes s) <= MISSION_NODE_NOTES_MAX
  /\ ForallOrdPairs (fun a b => same_skip (s_ref b) (s_sequence b) a = false) (skipped_nodes s)
  /\ Forall (fun i => i < length (heap s)) (node_notes s)
  /\ NoDup (note_key (heap s) <$> node_notes s).

Lemma ForallOrdPairs_snoc {A} (R : A -> A -> Prop) l x :
  ForallOrdPairs R l -> Forall (fun a => R a x) l -> ForallOrdPairs R (l ++ [x]).
Proof.
  induction 1 as [|a l Ha Hl IH]; intros Hx; simpl; [repeat constructor|].
  apply Forall_cons in Hx as [Hax Hx]. constructor; [|by apply IH].
  apply Forall_app. split; [done|by constructor].
Qed.

Lemma Forall_sublist {A} (P : A -> Prop) l l' : l' `sublist_of` l -> Forall P l -> Forall P l'.
Proof. induction 1 as [|x l l' H IH|x l l' H IH]; intros Hl; [done| |]; apply Forall_cons in Hl as [? ?]; auto. Qed.

Lemma ForallOrdPairs_sublist {A} (R : A -> A -> Prop) l l' :
  l' `sublist_of` l -> ForallOrdPairs R l -> ForallOrdPairs R l'.
Proof.
  induction 1 as [|x l l' H IH|x l l' H IH]; intros Hl; [done| |]; inversion Hl; subst; auto.
  constructor; [|auto]. eapply Forall_sublist; eauto.
Qed.

Lemma fmap_sublist {A B} (f : A -> B) l l' : l' `sublist_of` l -> f <$> l' `sublist_of` f <$> l.
Proof. induction 1; simpl; by constructor. Qed.

Lemma filter_sublist {A} (p : A -> bool) l : List.filter p l `sublist_of` l.
Proof. induction l as [|x l IH]; simpl; [constructor|]. destruct (p x); by constructor. Qed.

Lemma touch_key h i now j : note_key (touch h i now) j = note_key h j.
Proof.
  unfold note_key, touch. destruct (h !! i) as [n|] eqn:E; [|done].
  destruct (decide (i = j)) as [<-|Hne]; [|by rewrite list_lookup_insert_ne].
  rewrite list_lookup_insert_eq by (by eapply lookup_lt_Some). by rewrite E.
Qed.

Lemma touch_length h i now : length (touch h i now) = length h.
Proof. unfold touch. destruct (h !! i); [apply length_insert|done]. Qed.

Lemma reports_ok_touch s i now d :
  reports_ok s -> reports_ok (mkReports (skipped_nodes s) (node_notes s) (touch (heap s) i now) d (report_writes s)).
Proof.
  intros (H1 & H2 & H3 & H4 & H5). split_and!; try done; simpl; [by rewrite touch_length|].
  erewrite list_fmap_ext; [exact H5|]. intros ???. apply touch_key.
Qed.

Lemma reports_ok_skip resolve float_of now acc x :
  reports_ok acc.1 -> reports_ok (skip_one resolve float_of now acc x).1.
Proof.
  destruct acc as [s ch], x as [e r]. intros (H1 & H2 & H3 & H4 & H5). simpl in *.
  destruct (dmem _ _); [by split_and!|]. destruct (resolve r) as [ref|]; [|by split_and!].
  destruct (existsb _ _) eqn:E; [by split_and!|]. split_and!; simpl; [apply keep_last_length|done| |done|done].
  eapply ForallOrdPairs_sublist; [apply sublist_drop|].
  apply ForallOrdPairs_snoc; [done|]. simpl. apply Forall_forall. intros a Ha.
  destruct (same_skip _ _ a) eqn:Es; [|done].
  assert (existsb (same_skip ref (d_sequence (error_ref_details float_of (errorReferences e)))) (skipped_nodes s) = true) as Ht
    by (apply existsb_exists; exists a; split; [by apply list_elem_of_In|done]).
  exfalso. exact (eq_true_false_abs _ Ht E).
Qed.

Lemma reports_ok_note resolve now acc x :
  reports_ok acc.1 -> reports_ok (note_one resolve now acc x).1.
Proof.
  destruct acc as [s ch], x as [info r]. intros H. cbn -[take MISSION_NODE_NOTES_MAX] in *.
  destruct (dget (seen s) _) as [[i|]|]; [by apply reports_ok_touch|done|].
  destruct (resolve r) as [ref|]; [|done].
  destruct (find_first _ _) as [i|] eqn:E; [by apply reports_ok_touch|].
  destruct H as (H1 & H2 & H3 & H4 & H5). apply find_first_None in E.
  split_and!; cbn [fst skipped_nodes node_notes heap]; try done.
  - rewrite length_take. lia.
  - apply Forall_take. constructor; [rewrite length_app; simpl; lia|].
    eapply Forall_impl; [exact H4|]. simpl. intros j Hj. rewrite length_app. lia.
  - assert (Hk : note_key (heap s ++ [mkNote ref (infoType info) (infoDescription info) now now]) <$> node_notes s
                 = note_key (heap s) <$> node_notes s).
    { apply list_fmap_ext. intros k j Hj. unfold note_key. rewrite lookup_app_l; [done|].
      by eapply (proj1 (Forall_lookup _ _) H4). }
    rewrite fmap_take, fmap_cons. eapply sublist_NoDup; [|apply sublist_take]. rewrite Hk. constructor; [|done].
    intros (j & Hj & Hin)%list_elem_of_fmap. rewrite Forall_forall in E, H4. specialize (E j Hin). specialize (H4 j Hin).
    unfold note_key in Hj at 1. rewrite lookup_app_r, Nat.sub_diag in Hj by lia. simpl in Hj.
    unfold note_key, same_note in *. destruct (heap s !! j) as [n|]; [|done]. simpl in Hj. injection Hj as ???.
    by rewrite !bool_decide_true in E by congruence.
Qed.

Lemma foldl_fst_inv {A B C} (P : A -> Prop) (f : A * B -> C -> A * B) l acc :
  (forall acc x, P acc.1 -> P (f acc x).1) -> P acc.1 -> P (foldl f acc l).1.
Proof. intros Hf. revert acc. induction l as [|x l IH]; intros acc H; simpl; [done|]. apply IH, Hf, H. Qed.

(** What can happen to the reports of a mission: a state message (the references it can resolve depend on
    the controller then), a reroute of a node, and a restart, which forgets what was seen. *)
Inductive event :=
| Message (resolve : string -> option NodeRef) (es : list Error) (infos : list Info) (now : Z)
| Reroute (mission_node : string)
| Restart.

Definition step (float_of : string -> option Policy.float) (s : Reports) (e : event) : Reports :=
  match e with
  | Message resolve es infos now => process_node_reports resolve float_of s es infos now
  | Reroute nm => drop_node_reports s nm
  | Restart => mkReports (skipped_nodes s) (node_notes s) (heap s) [] (report_writes s)
  end.

Lemma reports_ok_step float_of s e : reports_ok s -> reports_ok (step float_of s e).
Proof.
  intros H. destruct e as [resolve es infos now|nm|]; simpl; [| |exact H].
  - unfold process_node_reports.
    pose proof (foldl_fst_inv reports_ok (note_one resolve now) (note_reports infos)
      (foldl (skip_one resolve float_of now) (s, false) (skip_reports es)) (reports_ok_note resolve now)) as Hn.
    destruct (foldl (note_one resolve now) _ _) as [s' ch]. simpl in Hn.
    assert (Hs : reports_ok s') by (apply Hn, foldl_fst_inv; [apply reports_ok_skip|done]).
    by destruct ch.
  - destruct H as (H1 & H2 & H3 & H4 & H5). split_and!; simpl.
    + etrans; [apply sublist_length, filter_sublist|done].
    + etrans; [apply sublist_length, filter_sublist|done].
    + eapply ForallOrdPairs_sublist; [apply filter_sublist|done].
    + eapply Forall_sublist; [apply filter_sublist|done].
    + eapply sublist_NoDup; [done|apply fmap_sublist, filter_sublist].
Qed.

Definition no_reports : Reports := mkReports [] [] [] [] 0.

(** Whatever the robot reports, and however often, each report is kept once and the lists stay bounded:
    no two kept skips name the same node of the same order and sequence, and no two kept notes the same
    node, order and kind. *)
Theorem reports_distinct_bounded float_of s :
  reachable (step float_of) no_reports s ->
  length (skipped_nodes s) <= MISSION_SKIPPED_NODES_MAX /\ length (node_notes s) <= MISSION_NODE_NOTES_MAX
  /\ ForallOrdPairs (fun a b => same_skip (s_ref b) (s_sequence b) a = false) (skipped_nodes s)
  /\ NoDup (note_key (heap s) <$> node_notes s).
Proof.
  intros H. apply (reachable_inv _ reports_ok) in H as (H1 & H2 & H3 & _ & H5); [done| |].
  - split_and!; simpl; try constructor; unfold MISSION_SKIPPED_NODES_MAX, MISSION_NODE_NOTES_MAX; lia.
  - intros. by apply reports_ok_step.
Qed.

(** *** The same report again *)

Section again.
Context (resolve : string -> option NodeRef) (float_of : string -> option Policy.float).

Definition skip_key (x : Error * string) : seen_key :=
  KSkip (node_of_reference x.2) (d_sequence (error_ref_details float_of (errorReferences x.1))).
Definition note_seen_key (x : Info * string) : seen_key := KNote (node_of_reference x.2) (infoType x.1).

(** A report that changes nothing any more: remembered, or not resolvable *)
Definition settled (s : Reports) (k : seen_key) (reference : string) : Prop :=
  is_Some (dget (seen s) k) \/ resolve reference = None.

Lemma settled_skip s ch now x :
  settled s (skip_key x) x.2 -> skip_one resolve float_of now (s, ch) x = (s, ch).
Proof.
  destruct x as [e r]. intros [[v Hv]|Hr]; simpl; unfold dmem.
  - change (KSkip _ _) with (skip_key (e, r)). by rewrite Hv.
  - destruct (dget _ _); [done|]. simpl in Hr. by rewrite Hr.
Qed.

(** The reports as the client sees them, but for when notes were last seen *)
Definition view (s : Reports) : list SkippedNode * list nat * list (option (string * string * string)) :=
  (skipped_nodes s, node_notes s, note_key (heap s) <$> seq 0 (length (heap s))).

Lemma settled_note s ch now x :
  settled s (note_seen_key x) x.2 ->
  let s' := (note_one resolve now (s, ch) x).1 in
  view s' = view s /\ seen s' = seen s /\ (note_one resolve now (s, ch) x).2 = ch.
Proof.
  destruct x as [info r]. intros H. simpl. change (KNote _ _) with (note_seen_key (info, r)).
  destruct (dget (seen s) (note_seen_key (info, r))) as [[i|]|] eqn:E; [|done|].
  - unfold view. simpl. split; [|done]. f_equal. rewrite touch_length. apply list_fmap_ext. intros. apply touch_key.
  - destruct H as [[v Hv]|Hr]; [congruence|]. simpl in Hr. by rewrite Hr.
Qed.

Lemma skip_settles s ch now x : settled (skip_one resolve float_of now (s, ch) x).1 (skip_key x) x.2.
Proof.
  destruct x as [e r]. unfold settled. simpl. change (KSkip _ _) with (skip_key (e, r)). unfold dmem.
  destruct (dget (seen s) (skip_key (e, r))) eqn:E; [left; simpl; by rewrite E|].
  destruct (resolve r) eqn:Er; [|by right]. left.
  destruct (existsb _ _); simpl; rewrite dget_dset_eq; eauto.
Qed.

Lemma note_settles s ch now x : settled (note_one resolve now (s, ch) x).1 (note_seen_key x) x.2.
Proof.
  destruct x as [info r]. unfold settled. simpl. change (KNote _ _) with (note_seen_key (info, r)).
  destruct (dget (seen s) (note_seen_key (info, r))) as [[i|]|] eqn:E; simpl; [left; by rewrite E..|].
  destruct (resolve r) eqn:Er; [|by right]. left. destruct (find_first _ _); simpl; rewrite dget_dset_eq; eauto.
Qed.

Lemma settled_mono s s' k r : (forall k, is_Some (dget (seen s) k) -> is_Some (dget (seen s') k)) -> settled s k r -> settled s' k r.
Proof. intros H [?|?]; [left; by apply H|by right]. Qed.

Lemma seen_skip s ch now x k : is_Some (dget (seen s) k) -> is_Some (dget (seen (skip_one resolve float_of now (s, ch) x).1) k).
Proof.
  destruct x as [e r]. simpl. destruct (dmem _ _); [done|]. destruct (resolve r); [|done].
  intros H. destruct (existsb _ _); simpl; rewrite dget_dset; case_bool_decide; eauto.
Qed.

Lemma seen_note s ch now x k : is_Some (dget (seen s) k) -> is_Some (dget (seen (note_one resolve now (s, ch) x).1) k).
Proof.
  destruct x as [info r]. simpl. destruct (dget (seen s) (KNote _ _)) as [[|]|]; [done..|].
  destruct (resolve r); [|done]. intros H. destruct (find_first _ _); simpl; rewrite dget_dset; case_bool_decide; eauto.
Qed.

(** After a pass over a list, every report of the list is settled, and what was settled stays so. *)
Lemma pass_settles {X} (f : Reports * bool -> X -> Reports * bool) (key : X -> seen_key) (ref : X -> string) l acc :
  (forall acc x, settled (f acc x).1 (key x) (ref x)) ->
  (forall acc x k, is_Some (dget (seen acc.1) k) -> is_Some (dget (seen (f acc x).1) k)) ->
  Forall (fun x => settled (foldl f acc l).1 (key x) (ref x)) l
  /\ (forall k, is_Some (dget (seen acc.1) k) -> is_Some (dget (seen (foldl f acc l).1) k)).
Proof.
  intros Hs Hm. revert acc. induction l as [|x l IH]; intros acc; simpl; [split; [constructor|done]|].
  destruct (IH (f acc x)) as [H1 H2]. split; [|intros k Hk; by apply H2, Hm].
  constructor; [|done]. eapply settled_mono; [exact H2|apply Hs].
Qed.

Lemma settled_skips s ch now l :
  Forall (fun x => settled s (skip_key x) x.2) l -> foldl (skip_one resolve float_of now) (s, ch) l = (s, ch).
Proof. induction 1 as [|x l Hx _ IH]; cbn [foldl]; [done|]. rewrite settled_skip by done. exact IH. Qed.

Lemma settled_notes now l : forall s ch,
  Forall (fun x => settled s (note_seen_key x) x.2) l ->
  let r := foldl (note_one resolve now) (s, ch) l in view r.1 = view s /\ seen r.1 = seen s /\ r.2 = ch.
Proof.
  induction l as [|x l IH]; intros s ch H; cbn [foldl]; [done|]. apply Forall_cons in H as [Hx Hl].
  destruct (settled_note s ch now x Hx) as (Hv & Hs & Hc).
  destruct (note_one resolve now (s, ch) x) as [s1 ch1]. simpl in *. subst ch1.
  destruct (IH s1 ch) as (Hv' & Hs' & Hc').
  { eapply Forall_impl; [exact Hl|]. intros y. apply settled_mono. intros k. by rewrite Hs. }
  split_and!; congruence.
Qed.

(** A report repeated in the next state message changes nothing the client sees and writes nothing; only
    the time a note was last seen moves. *)
Theorem repeated_reports_quiet s es infos now now' :
  let s1 := process_node_reports resolve float_of s es infos now in
  let s2 := process_node_reports resolve float_of s1 es infos now' in
  view s2 = view s1 /\ seen s2 = seen s1 /\ report_writes s2 = report_writes s1.
Proof.
  intros s1 s2.
  assert (Hset : Forall (fun x => settled s1 (skip_key x) x.2) (skip_reports es)
                 /\ Forall (fun x => settled s1 (note_seen_key x) x.2) (note_reports infos)).
  { subst s1. unfold process_node_reports.
    destruct (pass_settles (skip_one resolve float_of now) skip_key snd (skip_reports es) (s, false)) as [Ha _];
      [intros []; apply skip_settles|intros [] ??; apply seen_skip|].
    destruct (pass_settles (note_one resolve now) note_seen_key snd (note_reports infos)
      (foldl (skip_one resolve float_of now) (s, false) (skip_reports es))) as [Hb Hm];
      [intros []; apply note_settles|intros [] ??; apply seen_note|].
    destruct (foldl (note_one resolve now) _ _) as [s' ch]. simpl in *. split.
    - eapply Forall_impl; [exact Ha|]. intros x Hx. destruct ch; (eapply settled_mono; [|exact Hx]); exact Hm.
    - destruct ch; exact Hb. }
  destruct Hset as [Ha Hb]. clearbody s1.
  destruct (settled_notes now' (note_reports infos) s1 false Hb) as (Hv & Hs & Hc).
  assert (Hw : report_writes (foldl (note_one resolve now') (s1, false) (note_reports infos)).1 = report_writes s1).
  { clear. generalize false. generalize s1. induction (note_reports infos) as [|x l IH]; intros s b; cbn [foldl]; [done|].
    destruct (note_one resolve now' (s, b) x) as [s' b'] eqn:E. rewrite IH. destruct x as [info r]. simpl in E.
    repeat case_match; by simplify_eq. }
  assert (E : s2 = (foldl (note_one resolve now') (s1, false) (note_reports infos)).1).
  { unfold s2, process_node_reports. rewrite settled_skips by done.
    destruct (foldl (note_one resolve now') _ _) as [s' ch]. simpl in Hc. by rewrite Hc. }
  rewrite E. done.
Qed.

End again.

(** Witness: a message with one skipped node and one note, twice *)
Definition sample_reports : Reports :=
  let m := Message (fun r => Some (mkRef r "m-r1-n0" (Some "a") None None))
             [mkError (Some NODE_SKIPPED) [("nodeId", "m-r1-n0-s2")] "box" WARNING]
             [mkInfo "nodeMoved" [("nodeId", "m-r1-n0-s4")] "moved"] in
  foldl (step (fun _ => None)) no_reports [m 1%Z; m 2%Z].

Lemma reports_distinct_bounded_witness :
  length (skipped_nodes sample_reports) = 1 /\ length (node_notes sample_reports) = 1
  /\ NoDup (note_key (heap sample_reports) <$> node_notes sample_reports).
Proof.
  split; [reflexivity|]. split; [reflexivity|].
  apply (reports_distinct_bounded (fun _ => None)). apply reachable_foldl.
Defined.

End NodeReports.

(** ** A blocked edge *)

Module Blocked.
Import NodeRefs.

Inductive robot_state := IDLE | ON_TASK | TELEOP | OTHER_STATE.
#[export] Instance robot_state_eq_dec : EqDecision robot_state.
Proof. solve_decision. Defined.

Inductive block_event := EdgeBlocked (node edge : option string) | Rerouted (node edge : option string).

Record Block := mkBlock {
  blocked : bool;
  b_node : option string;
  b_edge : option string;
  b_waypoint : option Z;
  b_reason : option string;
  b_code : option string;
  b_held : option Z;
  b_sequence : option Z;
  b_refused : option bool;
}.
Definition no_block : Block := mkBlock false None None None None None None None None.

Record BState := mkB {
  block : Block;
  b_nodes : list (string * MissionNodeStatus);
  blocked_order_id : option string;
  robot : robot_state;
  timer_armed : bool;
  b_events : list block_event;
  excluded : list string;              (** references handed to [_exclude_blocked_node] *)
  b_writes : nat;
}.

(** [_set_robot_state_unless_teleop] *)
Definition set_robot_state_unless_teleop (r st : robot_state) : robot_state := if bool_decide (r = TELEOP) then r else st.

Definition set_error (d : list (string * MissionNodeStatus)) (nm : option string) (msg : option string)
    : list (string * MissionNodeStatus) :=
  match nm with
  | Some n => match dget d n with Some s => dset d n (mkNodeStatus (n_state s) msg) | None => d end
  | None => d
  end.

(** [_clear_block] of the current mission *)
Definition clear_block (s : BState) : BState :=
  if negb (blocked (block s)) then s
  else mkB no_block (set_error (b_nodes s) (b_node (block s)) None) None
         (set_robot_state_unless_teleop (robot s) ON_TASK) true
         (b_events s ++ [Rerouted (b_node (block s)) (b_edge (block s))]) (excluded s) (S (b_writes s)).

(** [_edge_blocked_error] *)
Definition edge_blocked_error (es : list Error) : option Error :=
  find_first (fun e => bool_decide (errorType e = Some "edgeBlocked")) es.

Inductive exn := TypeError | IndexError.

Section blocked.
Context (digest : MissionRouteNode -> string) (float_of : string -> option Policy.float).

Definition route_current (c : Ctl) (oid : option string) (node : MissionNode) : bool :=
  match oid with Some o => order_route_is_current digest c o node | None => true end.

(** What the references name: the edge, the mission node and the waypoint *)
Record Target := mkTarget { t_edge : option string; t_node : option string; t_waypoint : option Z }.

(** One reference of the loop of [_handle_edge_blocked]; [mission_tree[node_idx]] raises for an index that
    is None or out of range *)
Definition target_ref (c : Ctl) (t : Target) (r : string * string) : result exn Target :=
  if bool_decide (r.1 ∈ ["edgeId"; "edge_id"]) then Ok (mkTarget (Some r.2) (t_node t) (t_waypoint t))
  else if bool_decide (r.1 ∈ ["nodeId"; "node_id"]) then
    let idx := node_index r.2 in
    let nm := match idx ≫= (fun i => tree c !! N.to_nat i) with Some n => Some (default "" (name n)) | None => t_node t end in
    let oid := order_of_node r.2 in
    rbind (match nm with
           | None => Ok None
           | Some _ => match idx with
                       | None => Raise TypeError
                       | Some i => match tree c !! N.to_nat i with Some n => Ok (Some n) | None => Raise IndexError end
                       end
           end) (fun route_node =>
      Ok (mkTarget (t_edge t) nm
            (match node_sequence r.2 with
             | Some q => if match route_node with None => true | Some n => route_current c oid n end
                         then Some (Z.of_N (q / 2) - 1 + Z.of_nat (match oid with Some o => offset_of c o | None => 0 end))%Z
                         else t_waypoint t
             | None => t_waypoint t
             end)))
  else Ok t.

Definition target_of (c : Ctl) (e : Error) : result exn Target := rfold (target_ref c) (mkTarget None None None) (errorReferences e).

(** [_handle_edge_blocked]; the [bool] is what it returns *)
Definition handle_edge_blocked (c : Ctl) (s : BState) (m : State) : result exn (BState * bool) :=
  match edge_blocked_error (errors m) with
  | None => Ok (clear_block s, false)
  | Some e =>
      rbind (target_of c e) (fun t =>
        let d := error_ref_details float_of (errorReferences e) in
        let b := block s in
        if blocked b && bool_decide (b_node b = t_node t) && bool_decide (b_edge b = t_edge t) then
          let important := negb (bool_decide (b_code b = d_reason d)) || negb (bool_decide (b_refused b = d_refused d)) in
          Ok (mkB (mkBlock true (b_node b) (b_edge b) (b_waypoint b) (b_reason b) (d_reason d) (d_held d) (d_sequence d)
                     (d_refused d)) (b_nodes s) (Some (s_orderId m)) (robot s) (timer_armed s) (b_events s) (excluded s)
                (if important then S (b_writes s) else b_writes s), true)
        else
          Ok (mkB (mkBlock true (t_node t) (t_edge t) (t_waypoint t) (Some (errorDescription e)) (d_reason d) (d_held d)
                     (d_sequence d) (d_refused d))
                (set_error (b_nodes s) (t_node t) (Some (errorDescription e))) (Some (s_orderId m))
                (set_robot_state_unless_teleop (robot s) IDLE) false
                (b_events s ++ [EdgeBlocked (t_node t) (t_edge t)])
                (excluded s ++ option_list (snd <$> find_first (fun r => bool_decide (r.1 ∈ ["nodeId"; "node_id"])) (errorReferences e)))
                (S (b_writes s)), true))
  end.

(** The block fields agree with the flag, and a blocked mission has no timer running. *)
Definition block_ok (s : BState) : Prop :=
  (blocked (block s) = false -> block s = no_block) /\ (blocked (block s) = true -> timer_armed s = false).

Lemma block_ok_handle c s m s' r : block_ok s -> handle_edge_blocked c s m = Ok (s', r) -> block_ok s'.
Proof.
  intros [H1 H2]. unfold handle_edge_blocked. destruct (edge_blocked_error (errors m)) as [e|].
  - intros (t & _ & Hk)%rbind_ok. destruct (_ && _) eqn:E; simplify_eq; split; simpl; try done.
    intros _. apply H2. bprop. done.
  - intros [= <- <-]. unfold clear_block. destruct (blocked (block s)) eqn:E; [by split|]. split; simpl; [auto|]. rewrite E. done.
Qed.

Definition run (c : Ctl) (s : BState) (ms : list State) : result exn BState :=
  rfold (fun s m => rbind (handle_edge_blocked c s m) (fun p => Ok p.1)) s ms.

(** The same block reported over and over is acted on once: however many state messages repeat it, one
    event is recorded, the node is excluded from new routes once, and the mission stays blocked, its timer
    stopped, until a message without it, which clears every field and arms the timer again. *)
Theorem block_acted_once c s ms m e t :
  block_ok s -> blocked (block s) = false -> ms <> [] ->
  Forall (fun m => exists e, edge_blocked_error (errors m) = Some e /\ target_of c e = Ok t) ms ->
  edge_blocked_error (errors m) = None -> head ms ≫= (fun m => edge_blocked_error (errors m)) = Some e ->
  exists s1, run c s ms = Ok s1
    /\ blocked (block s1) = true /\ b_node (block s1) = t_node t /\ b_edge (block s1) = t_edge t
    /\ timer_armed s1 = false /\ b_events s1 = b_events s ++ [EdgeBlocked (t_node t) (t_edge t)]
    /\ excluded s1 = excluded s ++ option_list (snd <$> find_first (fun r => bool_decide (r.1 ∈ ["nodeId"; "node_id"])) (errorReferences e))
    /\ exists s2, handle_edge_blocked c s1 m = Ok (s2, false) /\ block s2 = no_block /\ timer_armed s2 = true
       /\ b_events s2 = b_events s1 ++ [Rerouted (t_node t) (t_edge t)].
Proof.
  intros Hok Hb Hne Hms Hm Hhead. destruct ms as [|m0 ms]; [done|]. clear Hne. simpl in Hhead.
  apply Forall_cons in Hms as [(e0 & He0 & Ht0) Hms]. assert (e0 = e) as -> by congruence.
  assert (H0 : exists s0, handle_edge_blocked c s m0 = Ok (s0, true)
    /\ blocked (block s0) = true /\ b_node (block s0) = t_node t /\ b_edge (block s0) = t_edge t /\ timer_armed s0 = false
    /\ b_events s0 = b_events s ++ [EdgeBlocked (t_node t) (t_edge t)]
    /\ excluded s0 = excluded s ++ option_list (snd <$> find_first (fun r => bool_decide (r.1 ∈ ["nodeId"; "node_id"])) (errorReferences e))).
  { unfold handle_edge_blocked. rewrite He0, Ht0. simpl. rewrite Hb. simpl. eexists. split; [reflexivity|]. by split_and!. }
  destruct H0 as (s0 & Hs0 & Hb0 & Hn0 & Hg0 & Htm0 & Hev0 & Hex0).
  assert (Hrun : forall s0, blocked (block s0) = true -> b_node (block s0) = t_node t -> b_edge (block s0) = t_edge t ->
    exists s1, run c s0 ms = Ok s1 /\ blocked (block s1) = true /\ b_node (block s1) = t_node t
      /\ b_edge (block s1) = t_edge t /\ timer_armed s1 = timer_armed s0 /\ b_events s1 = b_events s0 /\ excluded s1 = excluded s0).
  { clear -Hms. induction Hms as [|m' ms (e' & He' & Ht') _ IH]; intros s0 H1 H2 H3; [by exists s0|].
    unfold run. simpl. unfold handle_edge_blocked at 1. rewrite He', Ht'. simpl. rewrite H1, H2, H3, !bool_decide_true by done.
    simpl. match goal with |- context [rfold _ ?x ms] => destruct (IH x) as (s1 & Hr & Ho) end; [done..|].
    exists s1. by split. }
  destruct (Hrun s0 Hb0 Hn0 Hg0) as (s1 & Hr & H1 & H2 & H3 & H4 & H5 & H6).
  exists s1. split; [unfold run; simpl; by rewrite Hs0|]. split_and!; [done..|congruence|congruence|congruence|].
  unfold handle_edge_blocked. rewrite Hm. eexists. split; [reflexivity|]. unfold clear_block. rewrite H1. simpl. by rewrite H2, H3.
Qed.

(** A second node reference that is not one of ours is not tolerated: after a reference that names a node
    of the mission, an unreadable one makes the handling of the message raise TypeError. *)
Theorem second_reference_raises c s m e v i n v' rest :
  edge_blocked_error (errors m) = Some e -> errorReferences e = ("nodeId", v) :: ("nodeId", v') :: rest ->
  node_index v = Some i -> tree c !! N.to_nat i = Some n -> node_index v' = None ->
  handle_edge_blocked c s m = Raise TypeError.
Proof.
  intros He Hr Hv Hn Hv'. unfold handle_edge_blocked, target_of. rewrite He, Hr. cbn [rfold].
  unfold target_ref at 1. cbn [fst snd]. rewrite bool_decide_false, bool_decide_true by set_solver.
  rewrite Hv. cbn [mbind option_bind]. rewrite Hn. cbn [rbind]. unfold target_ref at 1. cbn [fst snd].
  rewrite bool_decide_false, bool_decide_true by set_solver. rewrite Hv'. done.
Qed.

(** Handling block reports keeps the block fields consistent: with no block recorded they are all empty,
    and a blocked mission's timer never runs. *)
Theorem block_fields_consistent c s ms s' : block_ok s -> run c s ms = Ok s' -> block_ok s'.
Proof.
  intros H. apply (rfold_inv block_ok); [done|]. intros b x b' _ Hb (p & Hp & [= <-])%rbind_ok.
  destruct p. by eapply block_ok_handle.
Qed.

End blocked.

(** ** Witnesses *)

Definition blocked_msg : State :=
  mkState "m-r1-n0" "" 0 false [] [mkError (Some "edgeBlocked") [("nodeId", "m-r1-n0-s2"); ("edgeId", "e1")] "box" WARNING].
Definition clear_msg : State := mkState "m-r1-n0" "" 0 false [] [].
Definition one_route : Ctl :=
  mkCtl [route_named "a"] [("a", mkNodeStatus RUNNING None)] [] (Some (mkSent "m-r1-n0" (Some "d") 0)) 0 [] None None None 0.
Definition driving : BState := mkB no_block [("a", mkNodeStatus RUNNING None)] None ON_TASK true [] [] 0.
Definition no_floats (t : string) : option Policy.float := None.

Lemma block_acted_once_witness :
  exists s1, run a_digest no_floats one_route driving [blocked_msg; blocked_msg; blocked_msg] = Ok s1
    /\ b_events s1 = [EdgeBlocked (Some "a") (Some "e1")] /\ excluded s1 = ["m-r1-n0-s2"].
Proof.
  destruct (block_acted_once a_digest no_floats one_route driving [blocked_msg; blocked_msg; blocked_msg] clear_msg
    (mkError (Some "edgeBlocked") [("nodeId", "m-r1-n0-s2"); ("edgeId", "e1")] "box" WARNING)
    (mkTarget (Some "e1") (Some "a") (Some 0%Z))) as (s1 & H1 & _ & _ & _ & _ & H5 & H6 & _).
  - split; [reflexivity|discriminate].
  - reflexivity.
  - discriminate.
  - repeat constructor; eexists; (split; vm_compute; reflexivity).
  - reflexivity.
  - reflexivity.
  - exists s1. split; [exact H1|]. split; [exact H5|exact H6].
Defined.

Lemma second_reference_raises_witness :
  handle_edge_blocked a_digest no_floats one_route driving
    (mkState "m-r1-n0" "" 0 false [] [mkError (Some "edgeBlocked") [("nodeId", "m-r1-n0-s2"); ("nodeId", "own")] "box" WARNING])
  = Raise TypeError.
Proof.
  eapply (second_reference_raises a_digest no_floats one_route driving _ _ "m-r1-n0-s2" 0%N (route_named "a") "own" []);
    vm_compute; reflexivity.
Defined.

Lemma block_fields_consistent_witness :
  exists s', run a_digest no_floats one_route driving [blocked_msg; clear_msg] = Ok s' /\ block_ok s'.
Proof.
  destruct (run a_digest no_floats one_route driving [blocked_msg; clear_msg]) as [s'|] eqn:E; [|vm_compute in E; discriminate].
  exists s'. split; [reflexivity|].
  apply (block_fields_consistent a_digest no_floats one_route driving [blocked_msg; clear_msg]); [|exact E].
  split; [reflexivity|discriminate].
Defined.

End Blocked.
