(* ===== verification/StateMessage.v ===== *)
(** * What a state message does to the current mission (packages/controllers/mission/server.py)

    [update_mission_state] as a whole: the node reports ([Reports.NodeReports]), the robot's missionStatus
    ("completed", "failed", "canceled"), the blocked edge ([Reports.Blocked]), the progress of the order
    ([Progress]) and the behaviour tree, with [_set_mission_state], which every end of a mission goes through.
    The parts work on the same status, so the state here holds it once and hands each part its view. The tick
    of the behaviour tree is py_trees': an argument that reads and writes node states. What the rest of the
    controller knows (teleoperation, cancels in flight, the current order id) is a record of the message.

    What is shown: a mission that ends has no node left running and keeps its first cause; a message with a
    blocked edge never advances or ends the mission, and a cancel report ends it only when the operator asked;
    otherwise at most one new revision is owed, and none while a teleoperator holds the robot, a block is known
    or a cancel is in flight; and a failed report ends it. *)

From S2P Require Import Prelude PyDict OrderIds OrderPolicy Mission Progress OrderGate Reports.
Local Open Scope string_scope.
Local Open Scope list_scope.
Import NodeRefs NodeReports Blocked.

Record M := mkM {
  ctl : Ctl;                              (** the mission's tree, node states, task progress, errors *)
  m_state : MissionStateV1;
  m_blk : BState;                         (** the block; its node states and robot state are views of [ctl] and [m_robot] *)
  reports : Reports;
  m_robot : robot_state;
  start_ts : option Z;
  end_ts : option Z;
  needs_canceled : bool;
  dead_orders : list string;              (** [_dead_order_ids] *)
  pending : option Owed;                  (** [_pending_send] *)
  deferred_cancel : bool;                 (** [_deferred_replace_cancel] *)
  m_writes : nat;
}.

(** What the handler reads elsewhere *)
Record Env := mkEnv {
  teleop_hold : bool;
  outstanding_cancel : bool;
  env_order : option string;              (** [_current_order_id] *)
  young_order : bool;                     (** the order was first sent within CANCELED_LEFTOVER_GRACE_S *)
  driving : bool;
  cancel_finished : bool;                 (** a cancelOrder is among the finished instant actions *)
  now : Z;
}.

Definition with_ctl (s : M) (c : Ctl) : M :=
  mkM c (m_state s) (m_blk s) (reports s) (m_robot s) (start_ts s) (end_ts s) (needs_canceled s) (dead_orders s) (pending s)
    (deferred_cancel s) (m_writes s).
Definition with_robot (s : M) (r : robot_state) : M :=
  mkM (ctl s) (m_state s) (m_blk s) (reports s) r (start_ts s) (end_ts s) (needs_canceled s) (dead_orders s) (pending s)
    (deferred_cancel s) (m_writes s).
Definition kill_order (s : M) (oid : string) : M :=
  mkM (ctl s) (m_state s) (m_blk s) (reports s) (m_robot s) (start_ts s) (end_ts s) (needs_canceled s) (dead_orders s ++ [oid])
    (pending s) (deferred_cancel s) (m_writes s).
Definition owe (s : M) (o : Owed) : M :=
  mkM (ctl s) (m_state s) (m_blk s) (reports s) (m_robot s) (start_ts s) (end_ts s) (needs_canceled s) (dead_orders s)
    (Some o) (deferred_cancel s) (m_writes s).
Definition write (s : M) : M :=
  mkM (ctl s) (m_state s) (m_blk s) (reports s) (m_robot s) (start_ts s) (end_ts s) (needs_canceled s) (dead_orders s)
    (pending s) (deferred_cancel s) (S (m_writes s)).

(** [_set_failure_category]: the first one set wins *)
Definition set_category (c : Ctl) (cat : string) : Ctl :=
  mkCtl (tree c) (node_status c) (task_status c) (sent_order c) (last_node_seq_id c) (stale_fatal_types c) (failure_reason c)
    (first_category (failure_category c) cat) (robot_teleop c) (writes c).

(** The node states of a mission that ends: the root's is the mission's, the ones not done become it *)
Definition end_node (st : MissionStateV1) (n : MissionNodeStatus) : MissionNodeStatus :=
  if done_state (n_state n) then n else mkNodeStatus st (error_msg n).
Definition set_root (d : list (string * MissionNodeStatus)) (st : MissionStateV1) : list (string * MissionNodeStatus) :=
  match dget d "root" with Some n => dset d "root" (mkNodeStatus st (error_msg n)) | None => d end.

(** [_set_mission_state]; the [bool] is what it returns *)
Definition set_mission_state (s : M) (st : MissionStateV1) (t : Z) : M * bool :=
  if bool_decide (st = m_state s) then (s, false)
  else
    let c := if bool_decide (st = CANCELED) then set_category (ctl s) "CANCELED" else ctl s in
    let d := set_root (node_status c) st in
    let d := if done_state st then (fun p => (p.1, end_node st p.2)) <$> d else d in
    let first := bool_decide (st = RUNNING) && bool_decide (start_ts s = None) in
    (mkM (set_nodes c d) st (m_blk s) (reports s)
       (if first then set_robot_state_unless_teleop (m_robot s) ON_TASK else m_robot s)
       (if first then Some t else start_ts s) (if done_state st then Some t else end_ts s)
       (needs_canceled s) (dead_orders s) (pending s) (if done_state st then false else deferred_cancel s) (S (m_writes s)), true).

Section handler.
Context (digest : MissionRouteNode -> string) (float_of : string -> option Policy.float).
Context (resolve : Ctl -> string -> option NodeRef).
(** The behaviour tree: the node states after its tick, and the state of its root *)
Context (tick : list (string * MissionNodeStatus) -> list (string * MissionNodeStatus) * MissionStateV1).
Context (prefix : string).

(** [update_mission_from_behavior_tree] *)
Definition update_mission_from_behavior_tree (s : M) (t : Z) : M :=
  let old := snd <$> node_status (ctl s) in
  let '(d, st) := tick (node_status (ctl s)) in
  let '(s', updated) := set_mission_state (with_ctl s (set_nodes (ctl s) d)) st t in
  if negb updated && negb (bool_decide (n_state <$> old = n_state <$> (snd <$> node_status (ctl s')))) then write s' else s'.

(** The view [_handle_edge_blocked] and [_clear_block] have of the status, and the status after it *)
Definition view (s : M) : BState :=
  mkB (block (m_blk s)) (node_status (ctl s)) (blocked_order_id (m_blk s)) (m_robot s) (timer_armed (m_blk s)) (b_events (m_blk s))
    (excluded (m_blk s)) (b_writes (m_blk s)).
Definition from_view (s : M) (b : BState) : M :=
  mkM (set_nodes (ctl s) (b_nodes b)) (m_state s) b (reports s) (robot b) (start_ts s) (end_ts s) (needs_canceled s)
    (dead_orders s) (pending s) (deferred_cancel s) (m_writes s).

Definition edge_blocked (s : M) (m : State) : result string (M * bool) :=
  match handle_edge_blocked digest float_of (ctl s) (view s) m with
  | Ok (b, r) => Ok (from_view s b, r)
  | Raise _ => Raise "mission_tree index"
  end.

(** [update_mission_node_state] on the shared status *)
Definition node_progress (s : M) (m : State) : result string M :=
  let c := ctl s in
  let c := mkCtl (tree c) (node_status c) (task_status c) (sent_order c) (last_node_seq_id c) (stale_fatal_types c)
             (failure_reason c) (failure_category c) (Some (bool_decide (m_robot s = TELEOP))) (writes c) in
  match update_mission_node_state digest prefix c m with
  | Ok (c', _) => Ok (with_robot (with_ctl s c') (if bool_decide (robot_teleop c' = Some true) then TELEOP else m_robot s))
  | Raise _ => Raise "order id"
  end.

(** The missionStatus of the information array *)
Definition mission_status (infos : list Info) : option string :=
  infoDescription <$> find_first (fun i => bool_decide (infoType i = "missionStatus")) infos.

(** What it says *)
Inductive status_report := ReportsCompleted | ReportsFailed | ReportsCanceled | ReportsOther.
Definition read_status (st : option string) : status_report :=
  if bool_decide (st = Some "completed") then ReportsCompleted
  else if bool_decide (st = Some "failed") then ReportsFailed
  else if bool_decide (st = Some "canceled") then ReportsCanceled
  else ReportsOther.

Definition with_reports (s : M) (m : State) (infos : list Info) (t : Z) : M :=
  mkM (ctl s) (m_state s) (m_blk s) (process_node_reports (resolve (ctl s)) float_of (reports s) (errors m) infos t) (m_robot s)
    (start_ts s) (end_ts s) (needs_canceled s) (dead_orders s) (pending s) (deferred_cancel s) (m_writes s).

(** The robot reports "failed" *)
Definition on_failed (s : M) (m : State) (e : Env) : M :=
  let '(c, _) := get_mission_errors prefix (ctl s) m in
  let s := with_ctl s c in
  let s := if bool_decide (s_orderId m = "") then s else kill_order s (s_orderId m) in
  (set_mission_state (with_ctl s (set_category (ctl s) "ROBOT_APP")) FAILED (now e)).1.

(** The robot reports "canceled" *)
Definition on_canceled (s : M) (m : State) (e : Env) : result string M :=
  if teleop_hold e && negb (needs_canceled s) then Ok s
  else if needs_canceled s then Ok (set_mission_state s CANCELED (now e)).1
  else match edge_blocked_error (errors m) with
       | Some _ => rbind (edge_blocked s m) (fun p => Ok p.1)
       | None =>
           if blocked (block (m_blk s)) then
             if negb (bool_decide (blocked_order_id (m_blk s) = None))
                && negb (bool_decide (Some (s_orderId m) = blocked_order_id (m_blk s)))
                && bool_decide (Some (s_orderId m) = env_order e)
             then Ok (from_view s (clear_block (view s))) else Ok s
           else if Progress.executing m && (driving e || young_order e) then Ok s
           else if negb (outstanding_cancel e) && bool_decide (pending s = None) && bool_decide (Some (s_orderId m) = env_order e)
           then Ok (owe (kill_order s (s_orderId m)) NEW_REVISION)
           else Ok s
       end.

(** [update_mission_state] *)
Definition update_mission_state (s : M) (m : State) (infos : list Info) (e : Env) : result string M :=
  let s := with_reports s m infos (now e) in
  match read_status (mission_status infos) with
  | ReportsCompleted =>
      let '(c, tree_moves) := complete_order_node digest prefix (ctl s) m in
      let s := with_ctl s c in
      Ok (if tree_moves then update_mission_from_behavior_tree s (now e) else s)
  | ReportsFailed => Ok (on_failed s m e)
  | ReportsCanceled => on_canceled s m e
  | ReportsOther =>
      rbind (if cancel_finished e then Ok (s, false) else edge_blocked s m) (fun p =>
        if p.2 then Ok p.1
        else rbind (node_progress p.1 m) (fun s => Ok (update_mission_from_behavior_tree s (now e))))
  end.

(** ** Ends *)

Lemma end_node_done st n : done_state st = true -> done_state (n_state (end_node st n)) = true.
Proof. intros H. unfold end_node. by destruct (done_state (n_state n)) eqn:E; cbn. Qed.

(** Whatever ends a mission ends its nodes. *)
Definition ended_ok (s : M) : Prop :=
  done_state (m_state s) = true ->
  Forall (fun p => done_state (n_state p.2) = true) (node_status (ctl s)) /\ is_Some (end_ts s) /\ deferred_cancel s = false.

Lemma set_mission_state_ended s st t : ended_ok s -> ended_ok (set_mission_state s st t).1.
Proof.
  intros Hs. unfold set_mission_state. case_bool_decide as Heq; [done|]. unfold ended_ok. cbn. intros Hd. rewrite Hd.
  split; [|by split; [eexists|]]. apply Forall_fmap, Forall_true. intros p. cbn. by apply end_node_done.
Qed.

Lemma set_mission_state_category s st t cat :
  failure_category (ctl s) = Some cat -> failure_category (ctl (set_mission_state s st t).1) = Some cat.
Proof.
  intros H. unfold set_mission_state. case_bool_decide; [done|]. cbn. case_bool_decide; cbn; rewrite ?H; done.
Qed.

Lemma tree_update_ended s t : done_state (m_state s) = false -> ended_ok (update_mission_from_behavior_tree s t).
Proof.
  intros Hn. unfold update_mission_from_behavior_tree. destruct (tick (node_status (ctl s))) as [d st].
  assert (ended_ok (with_ctl s (set_nodes (ctl s) d))) as H0 by (intros Hd; cbn in Hd; congruence).
  pose proof (set_mission_state_ended (with_ctl s (set_nodes (ctl s) d)) st t H0) as H.
  destruct (set_mission_state _ st t) as [s' u]. by destruct (_ && _).
Qed.

(** ** Blocks *)

Definition same_node_states (s s' : M) : Prop :=
  forall nm, n_state <$> dget (node_status (ctl s')) nm = n_state <$> dget (node_status (ctl s)) nm.

Lemma set_error_states d nm msg k : n_state <$> dget (set_error d nm msg) k = n_state <$> dget d k.
Proof.
  unfold set_error. destruct nm as [n|]; [|done]. destruct (dget d n) as [x|] eqn:E; [|done].
  destruct (decide (k = n)) as [->|Hne]; [rewrite dget_dset_eq, E; done | by rewrite dget_dset_ne].
Qed.

(** A message with a blocked edge: the block is recorded, and nothing else moves. *)
Lemma edge_blocked_effect s m err s' r :
  edge_blocked_error (errors m) = Some err -> edge_blocked s m = Ok (s', r) ->
  r = true /\ m_state s' = m_state s /\ same_node_states s s' /\ task_status (ctl s') = task_status (ctl s)
  /\ pending s' = pending s /\ needs_canceled s' = needs_canceled s /\ blocked (block (m_blk s')) = true
  /\ end_ts s' = end_ts s /\ deferred_cancel s' = deferred_cancel s.
Proof.
  intros He Hs. unfold edge_blocked, handle_edge_blocked in Hs. rewrite He in Hs.
  destruct (target_of digest (ctl s) err) as [t|]; [|done]. cbn [rbind] in Hs.
  destruct (blocked (block (view s)) && _ && _) eqn:Hb; simplify_eq; cbn; split_and!; try done; intros nm; cbn; auto using set_error_states.
Qed.

End handler.

(** ** Properties *)

(** Whatever a state message does to a mission that was not over, if the mission is over after it then no
    node is left unfinished, its end is stamped and no deferred cancel of a reroute is left. *)
Theorem ended_mission_has_no_running_node digest float_of resolve tick prefix (s s' : M) (m : State) (infos : list Info) (e : Env) :
  done_state (m_state s) = false ->
  update_mission_state digest float_of resolve tick prefix s m infos e = Ok s' ->
  done_state (m_state s') = true ->
  Forall (fun p => done_state (n_state p.2) = true) (node_status (ctl s')) /\ is_Some (end_ts s') /\ deferred_cancel s' = false.
Proof.
  intros Hn Hu. change (ended_ok s'). revert Hu. unfold update_mission_state.
  set (s0 := with_reports _ _ _ _ _ _). assert (H0 : done_state (m_state s0) = false) by exact Hn.
  assert (Hsame : forall x : M, m_state x = m_state s0 -> ended_ok x) by (intros x Hx Hd; congruence).
  assert (Hset : forall x st t, m_state x = m_state s0 -> ended_ok (set_mission_state x st t).1) by (intros; apply set_mission_state_ended; auto).
  assert (Hblk : forall x b, edge_blocked digest float_of s0 m = Ok (x, b) -> m_state x = m_state s0).
  { intros x b. unfold edge_blocked. by destruct (handle_edge_blocked _ _ _ _ _) as [[]|]; intros; simplify_eq. }
  destruct (read_status (mission_status infos)).
  - destruct (complete_order_node _ _ _ _) as [c []]; intros [= <-]; [by apply tree_update_ended | by apply Hsame].
  - intros [= <-]. unfold on_failed. destruct (get_mission_errors _ _ _) as [c f]. case_bool_decide; by apply Hset.
  - unfold on_canceled. intros Hu.
    repeat (case_match; simplify_eq; auto).
    apply rbind_ok in Hu as ([x b] & Hx & [= <-]). apply Hsame. by eapply Hblk.
  - intros (p & Hp & Hr)%rbind_ok. assert (m_state p.1 = m_state s0) as Hm.
    { destruct (cancel_finished e); [by simplify_eq|]. destruct p. by eapply Hblk. }
    destruct p.2; [simplify_eq; auto|]. apply rbind_ok in Hr as (q & Hq & [= <-]).
    apply tree_update_ended. unfold node_progress in Hq. destruct (update_mission_node_state _ _ _ _) as [[]|]; simplify_eq. cbn. congruence.
Qed.

(** A state message that reports a blocked edge, and none of the ends of an order or cancel, neither advances
    nor ends the mission: no node state, no waypoint progress and no send changes, and the block is recorded. *)
Theorem blocked_mission_waits digest float_of resolve tick prefix (s s' : M) (m : State) (infos : list Info) (e : Env) (err : Error) :
  read_status (mission_status infos) = ReportsOther -> cancel_finished e = false -> edge_blocked_error (errors m) = Some err ->
  update_mission_state digest float_of resolve tick prefix s m infos e = Ok s' ->
  m_state s' = m_state s /\ same_node_states s s' /\ task_status (ctl s') = task_status (ctl s) /\ pending s' = pending s
  /\ blocked (block (m_blk s')) = true.
Proof.
  intros Hr Hc He Hu. unfold update_mission_state in Hu. rewrite Hr, Hc in Hu. apply rbind_ok in Hu as ([x b] & Hx & Hu).
  destruct (edge_blocked_effect _ _ _ _ _ _ _ He Hx) as (Hb & H1 & H2 & H3 & H4 & _ & H5 & _). cbn in Hu. rewrite Hb in Hu.
  simplify_eq. auto.
Qed.

(** When the robot reports its order canceled, a mission the operator cancels ends CANCELED; any other goes on
    in its state, and a new revision of its order is owed exactly when the report is about the current order, no
    teleoperator holds the robot, no block is known or reported, no cancel is in flight, nothing is owed yet, and
    the robot is not still driving or executing an order just sent. *)
Theorem canceled_report_exact digest float_of resolve tick prefix (s s' : M) (m : State) (infos : list Info) (e : Env) :
  read_status (mission_status infos) = ReportsCanceled ->
  update_mission_state digest float_of resolve tick prefix s m infos e = Ok s' ->
  if needs_canceled s then m_state s' = CANCELED
  else m_state s' = m_state s
    /\ pending s' = (if negb (teleop_hold e) && bool_decide (edge_blocked_error (errors m) = None) && negb (blocked (block (m_blk s)))
                        && negb (Progress.executing m && (driving e || young_order e)) && negb (outstanding_cancel e)
                        && bool_decide (pending s = None) && bool_decide (Some (s_orderId m) = env_order e)
                     then Some NEW_REVISION else pending s).
Proof.
  intros Hr Hu. unfold update_mission_state in Hu. rewrite Hr in Hu. unfold on_canceled in Hu. cbn -[edge_blocked view from_view] in Hu.
  destruct (needs_canceled s) eqn:Hn; cbn -[edge_blocked view from_view] in Hu.
  - rewrite andb_false_r in Hu. simplify_eq. unfold set_mission_state. case_bool_decide as Hs; cbn in *; auto.
  - rewrite andb_true_r in Hu. destruct (teleop_hold e); [simplify_eq; auto|]. cbn [negb andb].
    destruct (edge_blocked_error (errors m)) as [err|] eqn:He.
    + apply rbind_ok in Hu as ([x b] & Hx & [= <-]).
      destruct (edge_blocked_effect _ _ _ _ _ _ _ He Hx) as (_ & H1 & _ & _ & H4 & _). cbn in *. auto.
    + rewrite bool_decide_eq_true_2 by done. cbn [andb]. destruct (blocked (block (m_blk s))); [case_match; simplify_eq; done|]. cbn [negb andb].
      destruct (Progress.executing m && (driving e || young_order e)); [simplify_eq; done|]. cbn [negb andb].
      destruct (negb (outstanding_cancel e) && _ && _); simplify_eq; done.
Qed.

(** ** Witnesses *)

Definition sample_env : Env := mkEnv false false (Some "m-r1-n0") false false false 9.
Definition running_mission : M :=
  mkM (mkCtl [route_named "a"] [("root", mkNodeStatus RUNNING None); ("a", mkNodeStatus RUNNING None)] []
         (Some (mkSent "m-r1-n0" (Some "d") 0)) 0 [] None None None 0)
      RUNNING (mkB no_block [] None ON_TASK true [] [] 0) no_reports ON_TASK (Some 0%Z) None false [] None false 0.
Definition tick_done (d : list (string * MissionNodeStatus)) : list (string * MissionNodeStatus) * MissionStateV1 := (d, RUNNING).
Definition says (st : string) : list Info := [mkInfo "missionStatus" [] st].
Definition handle (s : M) (m : State) (infos : list Info) : result string M :=
  update_mission_state a_digest no_floats (fun _ _ => None) tick_done "m-r1" s m infos sample_env.

Definition after (s : M) (m : State) (infos : list Info) : M := match handle s m infos with Ok s' => s' | Raise _ => s end.

Lemma ended_mission_has_no_running_node_witness :
  exists s', handle running_mission clear_msg (says "failed") = Ok s'
    /\ Forall (fun p => done_state (n_state p.2) = true) (node_status (ctl s')).
Proof.
  exists (after running_mission clear_msg (says "failed")). split; [reflexivity|].
  apply (ended_mission_has_no_running_node a_digest no_floats (fun _ _ => None) tick_done "m-r1" running_mission (after running_mission clear_msg (says "failed")) clear_msg (says "failed") sample_env);
    reflexivity.
Defined.

Lemma blocked_mission_waits_witness :
  exists s', handle running_mission blocked_msg [] = Ok s' /\ m_state s' = RUNNING /\ blocked (block (m_blk s')) = true.
Proof.
  exists (after running_mission blocked_msg []). split; [reflexivity|].
  edestruct (blocked_mission_waits a_digest no_floats (fun _ _ => None) tick_done "m-r1" running_mission (after running_mission blocked_msg []) blocked_msg [] sample_env)
    as (H1 & _ & _ & _ & H2); [reflexivity..|]. split; [exact H1 | exact H2].
Defined.

Lemma canceled_report_exact_witness :
  exists s', handle running_mission clear_msg (says "canceled") = Ok s' /\ m_state s' = RUNNING /\ pending s' = Some NEW_REVISION.
Proof.
  exists (after running_mission clear_msg (says "canceled")). split; [reflexivity|].
  edestruct (canceled_report_exact a_digest no_floats (fun _ _ => None) tick_done "m-r1" running_mission (after running_mission clear_msg (says "canceled")) clear_msg (says "canceled") sample_env)
    as (H1 & H2); [reflexivity..|]. split; [exact H1 | exact H2].
Defined.
