(* ===== verification/Teleop.v ===== *)
(** * The robot's state and teleoperation (packages/controllers/mission/server.py, cloud_common/objects/robot.py)

    Every way the dispatcher changes a robot's state: the battery of a state message, finished instant
    actions, an order paused for teleoperation, a mission that starts, blocks, resumes or ends, and the repair
    of a stale state; and the way a teleoperation request of the API reaches the robot: [teleop] sets
    [switch_teleop] on the row, and [_on_robot_change] sends startTeleop or stopTeleop when the row and the
    state disagree. The outstanding teleop actions are kept by type; their resends and answers are
    [InstantActions].

    What is shown: a teleoperated robot stays so through missions that start and end, until it has finished a
    stopTeleop, unless it reports that it charges; a request to stop teleoperation is sent to it; and how a
    robot that charges while teleoperated is lost. *)

From S2P Require Import Prelude.
Local Open Scope list_scope.

(** [RobotStateV1] *)
Inductive RobotStateV1 := IDLE | ON_TASK | CHARGING | MAP_DEPLOYMENT | TELEOP.
#[export] Instance RobotStateV1_eq_dec : EqDecision RobotStateV1.
Proof. solve_decision. Defined.

Definition running (s : RobotStateV1) : bool := match s with ON_TASK | MAP_DEPLOYMENT | CHARGING => true | _ => false end.
Definition can_switch_teleop (s : RobotStateV1) : bool :=
  match s with IDLE | ON_TASK | MAP_DEPLOYMENT | TELEOP => true | CHARGING => false end.

Inductive teleop_action := START_TELEOP | STOP_TELEOP.
#[export] Instance teleop_action_eq_dec : EqDecision teleop_action.
Proof. solve_decision. Defined.

Record Robot := mkRobot {
  state : RobotStateV1;
  switch_teleop : bool;                       (** the row's *)
  outstanding : list teleop_action;           (** [_current_instant_actions], the teleop ones *)
  current : bool;                             (** there is a current mission *)
  queued : bool;                              (** there are missions waiting *)
  sent : list teleop_action;                  (** history *)
}.

Definition set_state (r : Robot) (s : RobotStateV1) : Robot :=
  mkRobot s (switch_teleop r) (outstanding r) (current r) (queued r) (sent r).

(** [_set_robot_state_unless_teleop], [_set_robot_idle_after_mission] *)
Definition set_state_unless_teleop (r : Robot) (s : RobotStateV1) : Robot :=
  if bool_decide (state r = TELEOP) then r else set_state r s.
Definition set_idle_after_mission (r : Robot) : Robot := set_state_unless_teleop r IDLE.

(** The battery of a state message, in [_on_client_message] *)
Definition on_battery (r : Robot) (charging : bool) : Robot :=
  if charging && negb (running (state r)) then set_state r CHARGING
  else if bool_decide (state r = CHARGING) && negb charging then set_state r IDLE
  else r.

(** [update_robot_state], on the teleop actions among the finished ones *)
Definition update_robot_state (r : Robot) (finished : list teleop_action) : Robot :=
  foldl (fun r a => match a with
                    | START_TELEOP => set_state r TELEOP
                    | STOP_TELEOP => set_state r (if current r then ON_TASK else IDLE)
                    end) r finished.

(** [_reconcile_stale_state], past its grace period or not *)
Definition reconcile_stale_state (r : Robot) (grace_over : bool) : Robot :=
  if current r || queued r then r
  else if negb (bool_decide (state r = ON_TASK) || bool_decide (state r = MAP_DEPLOYMENT)) then r
  else if grace_over then set_state r IDLE else r.

(** [RobotObjectV1.teleop] on the stored row: refused, or the new [switch_teleop] *)
Definition teleop (s : RobotStateV1) (start : bool) : result string bool :=
  if can_switch_teleop s then Ok start else Raise "request cannot be satisfied"%string.

(** The teleop part of [_on_robot_change]: the row brings its [switch_teleop], the status stays the controller's *)
Definition on_robot_change (r : Robot) (switch : bool) : Robot :=
  let wanted := if switch then START_TELEOP else STOP_TELEOP in
  if bool_decide (switch = negb (bool_decide (state r = TELEOP))) && negb (bool_decide (wanted ∈ outstanding r))
  then mkRobot (state r) switch (outstanding r ++ [wanted]) (current r) (queued r) (sent r ++ [wanted])
  else mkRobot (state r) switch (outstanding r) (current r) (queued r) (sent r).

Inductive event :=
| Battery (charging : bool)
| Finished (actions : list teleop_action)     (** answered by the robot: no longer outstanding *)
| Abandoned (a : teleop_action)
| PauseOrder                                  (** a pause_order action runs ([action_progress]) *)
| MissionRuns                                 (** [_set_mission_state] to RUNNING for the first time, or a block cleared *)
| MissionBlocked
| MissionEnds (another_pass next : bool)      (** [post_mission_completion]: whether another pass or a queued mission follows *)
| Queue (waiting : bool)
| Reconcile (grace_over : bool)
| Row (switch : bool).

Definition step (r : Robot) (e : event) : Robot :=
  match e with
  | Battery c => on_battery r c
  | Finished l =>
      let r := update_robot_state r l in
      mkRobot (state r) (switch_teleop r) (List.filter (fun a => negb (bool_decide (a ∈ l))) (outstanding r)) (current r) (queued r) (sent r)
  | Abandoned a => mkRobot (state r) (switch_teleop r) (List.filter (fun b => negb (bool_decide (b = a))) (outstanding r)) (current r) (queued r) (sent r)
  | PauseOrder => set_state r TELEOP
  | MissionRuns => let r := set_state_unless_teleop r ON_TASK in mkRobot (state r) (switch_teleop r) (outstanding r) true (queued r) (sent r)
  | MissionBlocked => set_state_unless_teleop r IDLE
  | MissionEnds another next =>
      let r := if another then r else set_idle_after_mission r in
      mkRobot (state r) (switch_teleop r) (outstanding r) (another || next) (queued r) (sent r)
  | Queue w => mkRobot (state r) (switch_teleop r) (outstanding r) (current r) w (sent r)
  | Reconcile g => reconcile_stale_state r g
  | Row s => on_robot_change r s
  end.

(** Events that may end teleoperation *)
Definition keeps_teleop (e : event) : Prop :=
  match e with Battery c => c = false | Finished l => STOP_TELEOP ∉ l | _ => True end.

Lemma keeps_teleop_step r e : state r = TELEOP -> keeps_teleop e -> state (step r e) = TELEOP.
Proof.
  intros Hs He. destruct e as [c|l|a| | | |[] next|w|g|sw]; cbn in *; try done.
  - subst c. unfold on_battery. by rewrite Hs.
  - revert r Hs. induction l as [|a l IH]; intros r Hs; [done|]. cbn. destruct a; [apply IH; [set_solver|done]|set_solver].
  - unfold set_state_unless_teleop. by rewrite bool_decide_eq_true_2.
  - unfold set_state_unless_teleop. by rewrite bool_decide_eq_true_2.
  - unfold set_idle_after_mission, set_state_unless_teleop. by rewrite bool_decide_eq_true_2.
  - unfold reconcile_stale_state. rewrite Hs. by destruct (current r || queued r).
  - unfold on_robot_change. by case_match.
Qed.

(** A robot under teleoperation stays so whatever missions start, block, resume and end, until it finishes a
    stopTeleop, as long as it does not report that it charges. *)
Theorem teleop_kept (r : Robot) (es : list event) :
  state r = TELEOP -> Forall keeps_teleop es -> state (foldl step r es) = TELEOP.
Proof.
  intros Hs He. revert r Hs. induction He as [|e es He _ IH]; intros r Hs; [done|]. cbn. apply IH. by apply keeps_teleop_step.
Qed.

Definition teleoperated : Robot := mkRobot TELEOP true [] true false [].

Lemma teleop_kept_witness :
  state (foldl step teleoperated [MissionEnds false false; Battery false; Reconcile true; MissionRuns; Row true]) = TELEOP.
Proof. apply teleop_kept; [reflexivity | repeat constructor]. Defined.

(** A request to stop teleoperation is accepted for a robot known to be under teleoperation, and once its
    row arrives a stopTeleop is outstanding; when the robot has finished it, it is back on its task or idle. *)
Theorem stop_request_reaches_robot (r : Robot) :
  state r = TELEOP ->
  teleop (state r) false = Ok false
  /\ STOP_TELEOP ∈ outstanding (on_robot_change r false)
  /\ (STOP_TELEOP ∉ outstanding r -> sent (on_robot_change r false) = sent r ++ [STOP_TELEOP])
  /\ state (step (on_robot_change r false) (Finished [STOP_TELEOP])) = (if current r then ON_TASK else IDLE).
Proof.
  intros Hs. unfold on_robot_change. rewrite (bool_decide_eq_true_2 (state r = TELEOP)) by done. split; [by rewrite Hs|].
  destruct (decide (STOP_TELEOP ∈ outstanding r)) as [Hin|Hout].
  - rewrite (bool_decide_eq_true_2 (STOP_TELEOP ∈ _)) by done. cbn. split_and!; auto. done.
  - rewrite (bool_decide_eq_false_2 (STOP_TELEOP ∈ _)) by done. cbn. split_and!; auto. set_solver.
Qed.

Lemma stop_request_reaches_robot_witness : STOP_TELEOP ∈ outstanding (on_robot_change teleoperated false).
Proof. apply (stop_request_reaches_robot teleoperated). reflexivity. Defined.

(** A teleoperated robot that reports charging leaves TELEOP although no teleop action was finished: while it
    charges a request to stop teleoperation is refused, and after it the robot counts as idle, so that a stop
    request is accepted and no stopTeleop is ever sent. *)
Theorem charging_ends_teleop (r : Robot) :
  state r = TELEOP ->
  state (step r (Battery true)) = CHARGING
  /\ teleop (state (step r (Battery true))) false = Raise "request cannot be satisfied"%string
  /\ state (foldl step r [Battery true; Battery false]) = IDLE
  /\ teleop (state (foldl step r [Battery true; Battery false])) false = Ok false
  /\ sent (foldl step r [Battery true; Battery false; Row false]) = sent r.
Proof. intros Hs. destruct r as [s sw o m q l]. cbn in Hs. subst s. done. Qed.

Lemma charging_ends_teleop_witness :
  state (step teleoperated (Battery true)) = CHARGING /\ sent (foldl step teleoperated [Battery true; Battery false; Row false]) = [].
Proof. destruct (charging_ends_teleop teleoperated eq_refl) as (H1 & _ & _ & _ & H2). split; [exact H1 | exact H2]. Defined.
