(* ===== verification/Lifecycle.v ===== *)
(** * The dispatcher process (packages/controllers/mission/lifecycle.py, RobotServer.graceful_shutdown)

    The single-instance lock (Module [Leader]): any number of dispatcher processes, the sessions they hold on
    the database and the advisory lock, which the database gives to at most one session and takes back when
    that session ends. The liveness file (Module [Heart]). The steps of the shutdown with their time limits
    (Module [Shutdown]). Times are milliseconds.

    What is shown: of two processes that lead at the same time one has lost its session, and once it is in its
    watch loop it stops leading within 25 s (a ping under way, the sleep and the next ping) of the other getting
    the lock; before that, while it is still starting up, nothing checks its session; the liveness
    file is not touched once the database has been silent for its maximum age; and whether the time limits of
    the shutdown leave each step its turn. *)

From S2P Require Import Prelude.
Local Open Scope list_scope.

Module Leader.

Definition LEADER_PING : Z := 5000.
Definition LEADER_PING_TIMEOUT : Z := 10000.

(** Where the loop of [watch] is: in [asyncio.sleep], or in the [wait_for] of its query, sent at some time,
    which the database may have answered already *)
Inductive activity := Sleeping (since : Z) | Pinging (sent : Z) (answered : bool).

Record Watch := mkWatch { began : Z; doing : activity }.

Inductive stage :=
| Acquiring                                   (** in [acquire] *)
| Leading (acquired : Z) (watch : option Watch)
      (** [acquire] returned: [_run] is starting up ([None]), then in the [gather] that [watch] is part of *)
| Stopping                                    (** [graceful_shutdown] has begun *)
| Exited.

Record Proc := mkProc { conn : option nat; at_stage : stage }.

Record System := mkSystem {
  holder : option nat;                        (** the session that has the lock *)
  alive : gset nat;                           (** sessions of the database *)
  fresh : nat;
  procs : list Proc;
  now : Z;
}.

Definition set_proc (s : System) (i : nat) (p : Proc) : System :=
  mkSystem (holder s) (alive s) (fresh s) (<[i := p]> (procs s)) (now s).

(** The end of a session, which releases its lock *)
Definition end_session (s : System) (c : nat) : System :=
  mkSystem (if bool_decide (holder s = Some c) then None else holder s) (alive s ∖ {[c]}) (fresh s) (procs s) (now s).

(** [_close]: errors are swallowed; then the session lives on until the database notices *)
Definition close (s : System) (c : nat) (ok : bool) : System := if ok then end_session s c else s.

(** How an attempt goes: no connection, an error of the query (before or after it ran), or an answer *)
Inductive attempt := NoConnection | QueryFails (ran closed : bool) | Answered (closed : bool).

(** [pg_try_advisory_lock] by a session *)
Definition try_advisory (s : System) (c : nat) : System * bool :=
  if bool_decide (holder s = None) then (mkSystem (Some c) (alive s) (fresh s) (procs s) (now s), true) else (s, false).

(** [_try_lock], in the loop of [acquire] *)
Definition try_lock (s : System) (i : nat) (a : attempt) : System :=
  match a with
  | NoConnection => s
  | _ =>
      let c := fresh s in
      let s := mkSystem (holder s) (alive s ∪ {[c]}) (S c) (procs s) (now s) in
      match a with
      | QueryFails ran closed => close (if ran then (try_advisory s c).1 else s) c closed
      | Answered closed =>
          let '(s', got) := try_advisory s c in
          if got then set_proc s' i (mkProc (Some c) (Leading (now s) None)) else close s' c closed
      | NoConnection => s
      end
  end.

(** The steps of a leader's [watch] *)
Inductive watch_event :=
| Gather                                      (** [_run] gets to its [gather]: [watch] begins with a sleep *)
| Wake                                        (** the sleep is over: the query is sent *)
| Answer                                      (** the database answers the query, if it still has the session *)
| Return                                      (** the answer arrives: the loop sleeps again *)
| PingFails.                                  (** an error or the timeout: [LeaderLockLost] *)

Inductive watch_result := Goes (w : option Watch) | LeaderLockLost.

Definition watch (t : Z) (has_session : bool) (e : watch_event) (w : option Watch) : watch_result :=
  match e, w with
  | Gather, None => Goes (Some (mkWatch t (Sleeping t)))
  | Wake, Some (mkWatch b (Sleeping since)) =>
      Goes (Some (mkWatch b (if (since + LEADER_PING <=? t)%Z then Pinging t false else Sleeping since)))
  | Answer, Some (mkWatch b (Pinging sent false)) => Goes (Some (mkWatch b (Pinging sent has_session)))
  | Return, Some (mkWatch b (Pinging sent true)) => Goes (Some (mkWatch b (Sleeping t)))
  | PingFails, Some (mkWatch _ (Pinging _ _)) => LeaderLockLost
  | _, _ => Goes w
  end.

(** Whether a process that waits may still be waiting at a time: a sleep ends after [LEADER_PING], the query is
    given up after [LEADER_PING_TIMEOUT], and the task goes on at most [late] after that (a busy event loop, a
    query that takes its time to be cancelled). Nothing bounds the steps of [_run] before the [gather]. *)
Definition in_time (late t : Z) (p : Proc) : bool :=
  match at_stage p with
  | Leading _ (Some (mkWatch _ (Sleeping since))) => (t <=? since + LEADER_PING + late)%Z
  | Leading _ (Some (mkWatch _ (Pinging sent _))) => (t <=? sent + LEADER_PING_TIMEOUT + late)%Z
  | _ => true
  end.

Inductive event :=
| Start
| Attempt (i : nat) (a : attempt)
| Watching (i : nat) (e : watch_event)
| Terminate (i : nat)                         (** a signal, or another task failed *)
| Release (i : nat) (closed : bool)           (** [release], the last step of the shutdown; then the process exits *)
| SessionEnds (c : nat)
| Tick (t : Z).                               (** time passes, no further than the waits under way last *)

Definition step (late : Z) (s : System) (e : event) : System :=
  match e with
  | Start => mkSystem (holder s) (alive s) (fresh s) (procs s ++ [mkProc None Acquiring]) (now s)
  | Tick t =>
      if forallb (in_time late t) (procs s) then mkSystem (holder s) (alive s) (fresh s) (procs s) (Z.max t (now s)) else s
  | SessionEnds c => end_session s c
  | Attempt i a => match procs s !! i with Some (mkProc _ Acquiring) => try_lock s i a | _ => s end
  | Watching i e =>
      match procs s !! i with
      | Some (mkProc (Some c) (Leading a w)) =>
          match watch (now s) (bool_decide (c ∈ alive s)) e w with
          | Goes w => set_proc s i (mkProc (Some c) (Leading a w))
          | LeaderLockLost => set_proc s i (mkProc (Some c) Stopping)
          end
      | _ => s
      end
  | Terminate i =>
      match procs s !! i with
      | Some (mkProc c Exited) => s
      | Some (mkProc c _) => set_proc s i (mkProc c Stopping)
      | None => s
      end
  | Release i closed =>
      match procs s !! i with
      | Some (mkProc c Stopping) =>
          let s := set_proc s i (mkProc None Exited) in
          match c with Some c => close s c closed | None => s end
      | _ => s
      end
  end.

Definition empty : System := mkSystem None ∅ 0 [] 0.

(** A process that leads, with its session, when it got the lock and its watch *)
Definition leads (s : System) (i c : nat) (acquired : Z) (w : option Watch) : Prop :=
  procs s !! i = Some (mkProc (Some c) (Leading acquired w)).

Section Overlap.
Context (late : Z) (late_nonneg : (0 <= late)%Z).

(** The wait under way began before [t] and may last until [t]. *)
Definition fine (t : Z) (w : option Watch) : Prop :=
  match w with
  | None => True
  | Some (mkWatch _ (Sleeping since)) => (since <= t <= since + LEADER_PING + late)%Z
  | Some (mkWatch _ (Pinging sent _)) => (sent <= t <= sent + LEADER_PING_TIMEOUT + late)%Z
  end.

(** What a leader may be waiting for whose session was gone at [t]: an answer only to a query from before,
    then one sleep, then a query that is not answered. *)
Definition stale (t : Z) (w : option Watch) : Prop :=
  match w with
  | None => True
  | Some (mkWatch b (Sleeping since)) => (since <= Z.max t b + LEADER_PING_TIMEOUT + late)%Z
  | Some (mkWatch b (Pinging sent true)) => (sent <= Z.max t b)%Z
  | Some (mkWatch b (Pinging sent false)) => (sent <= Z.max t b + LEADER_PING_TIMEOUT + LEADER_PING + 2 * late)%Z
  end.

Ltac waits := unfold fine, stale, LEADER_PING, LEADER_PING_TIMEOUT in *; try lia.

Lemma fine_stale t w : fine t w -> stale t w.
Proof. destruct w as [[b [since|sent []]]|]; waits. Qed.

Lemma watch_fine t has e w w' : fine t w -> watch t has e w = Goes w' -> fine t w'.
Proof.
  intros Hf Hw. destruct e, w as [[b [since|sent []]]|]; cbn in Hw; simplify_eq; waits.
  destruct (since + 5000 <=? t)%Z; waits.
Qed.

Lemma watch_stale t t' e w w' : fine t w -> stale t' w -> watch t false e w = Goes w' -> stale t' w'.
Proof.
  intros Hf Hs Hw. destruct e, w as [[b [since|sent []]]|]; cbn in Hw; simplify_eq; waits.
  destruct (since + 5000 <=? t)%Z; waits.
Qed.

(** A leader whose session is alive has the lock; one of two leaders has lost its session, and had lost it when
    the other got the lock. *)
Definition lock_ok (s : System) : Prop :=
  (forall c, holder s = Some c -> c ∈ alive s) /\ (forall c, c ∈ alive s -> c < fresh s)
  /\ (forall i c a w, leads s i c a w -> (c ∈ alive s -> holder s = Some c) /\ c < fresh s /\ fine (now s) w)
  /\ (forall i j ci cj ai aj wi wj, i <> j -> leads s i ci ai wi -> leads s j cj aj wj ->
        ci <> cj /\ ((ci ∉ alive s /\ stale aj wi) \/ (cj ∉ alive s /\ stale ai wj))).

Lemma set_proc_leads s i p j c a w :
  leads (set_proc s i p) j c a w -> (j = i /\ p = mkProc (Some c) (Leading a w)) \/ (j <> i /\ leads s j c a w).
Proof.
  unfold leads, set_proc. cbn. destruct (decide (j = i)) as [->|Hne].
  - intros H. apply list_lookup_insert_Some in H as [(_ & -> & _)|[? _]]; [auto | done].
  - rewrite list_lookup_insert_ne by auto. auto.
Qed.

Lemma lock_ok_end s c : lock_ok s -> lock_ok (end_session s c).
Proof.
  intros (H1 & H2 & H3 & H4). unfold lock_ok, leads. cbn. split_and!.
  - intros d Hd. case_bool_decide; [done|]. assert (d <> c) by congruence. specialize (H1 d Hd). set_solver.
  - intros d Hd. apply H2. set_solver.
  - intros i d a w Hl. destruct (H3 i d a w Hl) as (A & B & C). split_and!; auto. intros Hd.
    rewrite A by set_solver. rewrite bool_decide_eq_false_2; [done|]. set_solver.
  - intros i j ci cj ai aj wi wj Hij Hi Hj. destruct (H4 i j ci cj ai aj wi wj Hij Hi Hj) as [Hc [[]|[]]]; split; auto;
      [left|right]; split; auto; set_solver.
Qed.

Lemma lock_ok_close s c ok : lock_ok s -> lock_ok (close s c ok).
Proof. destruct ok; [apply lock_ok_end | done]. Qed.

(** A change that adds no leader keeps it. *)
Lemma lock_ok_fewer s s' :
  holder s' = holder s -> alive s' = alive s -> fresh s' = fresh s ->
  (forall i c a w, leads s' i c a w -> leads s i c a w /\ (fine (now s) w -> fine (now s') w)) -> lock_ok s -> lock_ok s'.
Proof.
  intros Eh Ea Ef Hsub (H1 & H2 & H3 & H4). unfold lock_ok. rewrite Eh, Ea, Ef. split_and!; auto.
  - intros i c a w Hl. apply Hsub in Hl as [Hl Hf]. destruct (H3 i c a w Hl) as (A & B & C). auto.
  - intros i j ci cj ai aj wi wj Hij Hi%Hsub Hj%Hsub. destruct Hi, Hj. eauto.
Qed.

Lemma lock_ok_drop s i c st : (forall a w, st <> Leading a w) -> lock_ok s -> lock_ok (set_proc s i (mkProc c st)).
Proof.
  intros Hst. apply lock_ok_fewer; auto. intros j c' a w Hl. apply set_proc_leads in Hl as [[_ [=]]|[_ Hl]]; [|auto].
  naive_solver.
Qed.

Lemma lock_ok_connect s :
  lock_ok s -> lock_ok (mkSystem (holder s) (alive s ∪ {[fresh s]}) (S (fresh s)) (procs s) (now s)).
Proof.
  intros (H1 & H2 & H3 & H4). unfold lock_ok, leads. cbn. split_and!.
  - intros c Hc. specialize (H1 c Hc). set_solver.
  - intros c Hc. assert (c ∈ alive s \/ c = fresh s) as [Hc'| ->] by set_solver; [specialize (H2 c Hc')|]; lia.
  - intros i c a w Hl. destruct (H3 i c a w Hl) as (A & B & C). split_and!; auto. intros Hc. apply A.
    assert (c <> fresh s) by lia. set_solver.
  - intros i j ci cj ai aj wi wj Hij Hi Hj. destruct (H3 i _ _ _ Hi) as (_ & Bi & _), (H3 j _ _ _ Hj) as (_ & Bj & _).
    assert (ci <> fresh s) by lia. assert (cj <> fresh s) by lia.
    destruct (H4 i j ci cj ai aj wi wj Hij Hi Hj) as [Hc [[]|[]]]; split; auto; [left|right]; split; auto; set_solver.
Qed.

(** When nobody holds the lock, no leader's session is alive; a session that gets it then is the only one. *)
Lemma lock_ok_grant s c :
  lock_ok s -> holder s = None -> c ∈ alive s -> (forall i c' a w, leads s i c' a w -> c' <> c) ->
  lock_ok (mkSystem (Some c) (alive s) (fresh s) (procs s) (now s)).
Proof.
  intros (H1 & H2 & H3 & H4) Hn Hc Hne. unfold lock_ok, leads. cbn. split_and!; auto.
  - intros d [= <-]. done.
  - intros i d a w Hl. destruct (H3 i d a w Hl) as (A & B & C). split_and!; auto.
    intros Hd. rewrite (A Hd) in Hn. done.
Qed.

Lemma lock_ok_lead s c i :
  lock_ok s -> holder s = Some c -> (forall j c' a w, leads s j c' a w -> c' <> c) ->
  lock_ok (set_proc s i (mkProc (Some c) (Leading (now s) None))).
Proof.
  intros (H1 & H2 & H3 & H4) Hc Hne.
  assert (forall j c' a w, leads s j c' a w -> c' ∉ alive s /\ stale (now s) w) as Hdead.
  { intros j c' a w Hl. destruct (H3 j c' a w Hl) as (A & B & C). split; [|by apply fine_stale]. intros Hin.
    specialize (A Hin). specialize (Hne j c' a w Hl). congruence. }
  split_and!; auto.
  - intros j c' a w Hl. apply set_proc_leads in Hl as [[-> [= <- <- <-]]|[_ Hl]]; [|by apply (H3 j c' a w)].
    cbn. split_and!; auto.
  - intros j1 j2 c1 c2 a1 a2 w1 w2 Hij Hl1 Hl2.
    apply set_proc_leads in Hl1 as [[-> [= <- <- <-]]|[_ Hl1]], Hl2 as [[-> [= <- <- <-]]|[_ Hl2]]; [done| | |by apply (H4 j1 j2)].
    + destruct (Hdead j2 c2 a2 w2 Hl2). split; [intros ->; by eapply (Hne j2)|]. auto.
    + destruct (Hdead j1 c1 a1 w1 Hl1). split; [by eapply (Hne j1)|]. auto.
Qed.

Lemma lock_ok_attempt s i a : lock_ok s -> lock_ok (try_lock s i a).
Proof.
  intros H. unfold try_lock. destruct a as [|ran closed|closed]; [done| |];
    pose proof (lock_ok_connect s H) as Hc; set (s1 := mkSystem _ _ _ _ _) in *;
    assert (forall j c' a w, leads s1 j c' a w -> c' <> fresh s) as Hne;
    try (intros j c' a w Hl; destruct H as (_ & _ & H3 & _); specialize (H3 j c' a w Hl); lia).
  - apply lock_ok_close. destruct ran; [|done]. unfold try_advisory. case_bool_decide; [|done].
    apply lock_ok_grant; auto. cbn. set_solver.
  - unfold try_advisory. case_bool_decide; [|by apply lock_ok_close].
    apply (lock_ok_lead (mkSystem (Some (fresh s)) (alive s1) (fresh s1) (procs s1) (now s1))); auto.
    apply lock_ok_grant; auto. cbn. set_solver.
Qed.

(** A step of the watch: on a session that is gone the wait it goes on to is still one of a stale leader. *)
Lemma lock_ok_watch s i c a w w' e :
  lock_ok s -> leads s i c a w -> watch (now s) (bool_decide (c ∈ alive s)) e w = Goes w' ->
  lock_ok (set_proc s i (mkProc (Some c) (Leading a w'))).
Proof.
  intros (H1 & H2 & H3 & H4) Hl Hw. destruct (H3 i c a w Hl) as (A & B & C).
  assert (forall t, c ∉ alive s -> stale t w -> stale t w') as Hst.
  { intros t Hc Hs. rewrite bool_decide_eq_false_2 in Hw by done. by eapply watch_stale. }
  split_and!; auto.
  - intros j c' a' v Hj. apply set_proc_leads in Hj as [[-> [= <- <- <-]]|[_ Hj]]; [|by apply (H3 j c' a' v)].
    cbn. split_and!; eauto using watch_fine.
  - intros j1 j2 c1 c2 a1 a2 w1 w2 Hij Hl1 Hl2.
    apply set_proc_leads in Hl1 as [[-> [= <- <- <-]]|[_ Hl1]], Hl2 as [[-> [= <- <- <-]]|[_ Hl2]]; [done| | |by apply (H4 j1 j2)].
    + destruct (H4 i j2 c c2 a a2 w w2 Hij Hl Hl2) as [? [[]|[]]]; eauto 6.
    + destruct (H4 j1 i c1 c a1 a w1 w Hij Hl1 Hl) as [? [[]|[]]]; eauto 6.
Qed.

Lemma lock_ok_tick s t :
  forallb (in_time late t) (procs s) = true -> lock_ok s ->
  lock_ok (mkSystem (holder s) (alive s) (fresh s) (procs s) (Z.max t (now s))).
Proof.
  intros Ht. apply lock_ok_fewer; auto. intros i c a w Hl. split; [done|]. cbn.
  rewrite forallb_forall in Ht. assert (in_time late t (mkProc (Some c) (Leading a w)) = true) as Hp.
  { apply Ht, list_elem_of_In. by eapply list_elem_of_lookup_2. }
  destruct w as [[b [since|sent an]]|]; cbn in *; [| |done]; apply Z.leb_le in Hp; lia.
Qed.

Lemma lock_ok_step s e : lock_ok s -> lock_ok (step late s e).
Proof.
  intros H. destruct e as [|i a|i e|i|i closed|c|t]; cbn [step].
  - apply (lock_ok_fewer s); auto. unfold leads. cbn. intros i c a w Hl.
    apply lookup_app_Some in Hl as [Hl|[_ Hl]]; [auto|]. apply list_lookup_singleton_Some in Hl as [_ Hl]. done.
  - destruct (procs s !! i) as [[c []]|]; auto using lock_ok_attempt.
  - destruct (procs s !! i) as [[[c|] []]|] eqn:E; auto.
    destruct (watch _ _ _ _) eqn:Hw; [by eapply lock_ok_watch | by apply lock_ok_drop].
  - destruct (procs s !! i) as [[c []]|]; auto; by apply lock_ok_drop.
  - destruct (procs s !! i) as [[c []]|]; auto.
    assert (lock_ok (set_proc s i (mkProc None Exited))) by by apply lock_ok_drop.
    destruct c; auto using lock_ok_close.
  - by apply lock_ok_end.
  - destruct (forallb _ _) eqn:Ht; [by apply lock_ok_tick | done].
Qed.

Lemma reachable_lock_ok s : reachable (step late) empty s -> lock_ok s.
Proof.
  intros Hr. apply (reachable_inv _ lock_ok _ _) in Hr; [done| |auto using lock_ok_step].
  split_and!; unfold leads; cbn; intros; try done; set_solver.
Qed.

(** A leader that waits at [now s] for what a stale one may wait for, waits no longer than this. *)
Lemma stale_bounded t t' b d :
  fine t (Some (mkWatch b d)) -> stale t' (Some (mkWatch b d)) -> (t <= Z.max t' b + 25000 + 3 * late)%Z.
Proof. destruct d as [since|sent []]; waits. Qed.

End Overlap.

(** A leader without its session, at most 25 s (and three times the lateness of its event loop) after the lock
    went to another at [t] and its own watch loop began. *)
Definition superseded (late : Z) (s : System) (c : nat) (w : option Watch) (t : Z) : Prop :=
  c ∉ alive s /\ match w with Some w => (now s <= Z.max t (began w) + 25000 + 3 * late)%Z | None => True end.

(** C35: of two dispatchers that lead at the same time one has lost its database session, and if its watch loop
    runs it is at most 25 s, plus three times what a wait may end late, since the other got the lock or, where
    that is later, since the loop began: the ping it waits for, the sleep and the ping that fails. This holds
    whatever connections fail and processes start, stop and die. A dispatcher that is still between [acquire] and
    the [gather] of [_run] has no such bound. *)
Theorem leaders_overlap_bounded (late : Z) (s : System) (i j ci cj : nat) (ai aj : Z) (wi wj : option Watch) :
  (0 <= late)%Z -> reachable (step late) empty s -> i <> j -> leads s i ci ai wi -> leads s j cj aj wj ->
  superseded late s ci wi aj \/ superseded late s cj wj ai.
Proof.
  intros Hlate (_ & _ & H3 & H4)%reachable_lock_ok Hij Hi Hj; [|done].
  destruct (H3 i _ _ _ Hi) as (_ & _ & Fi), (H3 j _ _ _ Hj) as (_ & _ & Fj).
  destruct (H4 i j ci cj ai aj wi wj Hij Hi Hj) as [_ [[Hd Hs]|[Hd Hs]]]; [left|right]; (split; [done|]);
    [destruct wi as [[]|] | destruct wj as [[]|]]; eauto using stale_bounded.
Qed.

(** Two dispatchers; the first loses its session as the answer to its ping is on the way, the second gets the
    lock, and the first leads for the whole bound. *)
Definition handover : list event :=
  [Start; Start; Attempt 0 (Answered true); Attempt 1 (Answered true); Watching 0 Gather; Tick 5000;
   Watching 0 Wake; Watching 0 Answer; SessionEnds 0; Attempt 1 (Answered true); Tick 15000; Watching 0 Return;
   Tick 20000; Watching 0 Wake; Watching 0 Answer; Tick 30000].

Lemma leaders_overlap_bounded_witness :
  let s := foldl (step 0) empty handover in
  now s = 30000%Z /\ leads s 0 0 0 (Some (mkWatch 0 (Pinging 20000 false))) /\ leads s 1 2 5000 None
  /\ superseded 0 s 0 (Some (mkWatch 0 (Pinging 20000 false))) 5000.
Proof.
  intros s. split; [reflexivity|]. split; [reflexivity|]. split; [reflexivity|].
  destruct (leaders_overlap_bounded 0 s 0 1 0 2 0 5000 (Some (mkWatch 0 (Pinging 20000 false))) None) as [H|[H _]];
    [lia | apply reachable_foldl | done | reflexivity | reflexivity | exact H |].
  exfalso. apply H. vm_compute. reflexivity.
Defined.

(** The bound is reached, not passed: no time passes in that state until the first stops leading. *)
Example handover_ends : step 0 (foldl (step 0) empty handover) (Tick 30001) = foldl (step 0) empty handover.
Proof. vm_compute. reflexivity. Qed.

(** A dispatcher that takes long to start up leads without the lock for as long: nothing pings its session. *)
Example startup_unwatched :
  let s := foldl (step 0) empty [Start; Start; Attempt 0 (Answered true); SessionEnds 0; Attempt 1 (Answered true); Tick 600000] in
  leads s 0 0 0 None /\ leads s 1 1 0 None /\ holder s = Some 1 /\ now s = 600000%Z.
Proof. vm_compute. auto. Qed.

End Leader.

Module Heart.

Definition HEARTBEAT_DB_OK_MAX_AGE : Z := 15000.

(** [beat]: when the check of the database ended and whether it answered, when the age is read, whether MQTT
    is connected (or its check raised), and whether the file could be touched *)
Record beat := mkBeat { checked_at : Z; db_answers : bool; read_at : Z; mqtt_connected : bool; touched : bool }.

Definition do_beat (db_ok_at : option Z) (b : beat) : option Z * bool :=
  let db_ok_at := if db_answers b then Some (checked_at b) else db_ok_at in
  let db_ok := match db_ok_at with Some t => bool_decide (read_at b - t <= HEARTBEAT_DB_OK_MAX_AGE)%Z | None => false end in
  (db_ok_at, db_ok && mqtt_connected b && touched b).

(** A beat that touches the liveness file had MQTT connected and an answer of the database at most the
    maximum age before, in this beat or an earlier one. *)
Theorem touch_means_alive (bs : list beat) (n : nat) :
  (run do_beat None bs).2 !! n = Some true ->
  exists b, bs !! n = Some b /\ mqtt_connected b = true
    /\ exists m b', m <= n /\ bs !! m = Some b' /\ db_answers b' = true /\ (read_at b - checked_at b' <= HEARTBEAT_DB_OK_MAX_AGE)%Z.
Proof.
  intros H.
  pose (I := fun (h : list beat) (o : option Z) =>
    forall t, o = Some t -> exists m b', h !! m = Some b' /\ db_answers b' = true /\ checked_at b' = t).
  pose (R := fun (h : list beat) (ok : bool) => ok = true -> exists h0 b, h = h0 ++ [b] /\ mqtt_connected b = true
    /\ exists m b', h !! m = Some b' /\ db_answers b' = true /\ (read_at b - checked_at b' <= HEARTBEAT_DB_OK_MAX_AGE)%Z).
  assert (forall h s e, I h s -> I (h ++ [e]) (do_beat s e).1 /\ R (h ++ [e]) (do_beat s e).2) as Hstep.
  { intros h s e Hi. assert (I (h ++ [e]) (do_beat s e).1) as Hi'.
    { intros t Ht. cbn in Ht. destruct (db_answers e) eqn:Hdb.
      - simplify_eq. exists (length h), e. rewrite lookup_app_r, Nat.sub_diag by lia. auto.
      - destruct (Hi t Ht) as (m & b' & Hm & ?). exists m, b'. split; [|done]. by apply lookup_app_l_Some. }
    split; [done|]. unfold R, do_beat. cbn. intros Ho. bprop. exists h, e. split; [done|]. split; [done|].
    destruct (if db_answers e then _ else _) as [t|] eqn:Ht; [|done]. bprop.
    destruct (Hi' t) as (m & b' & Hm & Hd & <-); [exact Ht|]. eauto. }
  destruct (run_history do_beat I R Hstep bs [] None) as [_ HR]; [intros ? [=]|].
  specialize (HR n true H eq_refl) as (h0 & b & Hb & Hq & m & b' & Hm & Hd & Ha). cbn in Hb, Hm.
  assert (n < length bs) as Hn by (apply lookup_lt_Some in H; by rewrite run_length in H).
  assert (bs !! n = Some b) as Hbn.
  { assert (length h0 = n) as <-.
    { apply (f_equal length) in Hb. rewrite length_take, length_app in Hb. cbn [length] in Hb. lia. }
    apply (f_equal (fun l => l !! length h0)) in Hb. rewrite lookup_app_r, Nat.sub_diag in Hb by lia.
    rewrite lookup_take_lt in Hb by lia. exact Hb. }
  exists b. split; [done|]. split; [done|]. exists m, b'.
  apply lookup_take_Some in Hm as [Hm Hlt]. split; [lia|]. auto.
Qed.

Lemma touch_means_alive_witness :
  exists b, [mkBeat 0 true 0 true true; mkBeat 5000 false 10000 true true] !! 1 = Some b /\ mqtt_connected b = true.
Proof.
  destruct (touch_means_alive [mkBeat 0 true 0 true true; mkBeat 5000 false 10000 true true] 1) as (b & H1 & H2 & _);
    [reflexivity|]. eauto.
Defined.

End Heart.

Module Shutdown.

(** A step of [graceful_shutdown]: a plain call, which nothing interrupts, or an awaited one with its limit *)
Inductive limit := Plain | Awaited (bound : Z).


(** The defaults of config.py, in milliseconds *)
Definition SHUTDOWN_MQTT : Z := 1500.
Definition STATUS_WRITE_FLUSH : Z := 3000.
Definition SHUTDOWN_ROBOTS : Z := STATUS_WRITE_FLUSH + 1000.
Definition SHUTDOWN_RECORDER_DRAIN : Z := 2500.
Definition SHUTDOWN_RECORDER_STOP : Z := 2000.
Definition SHUTDOWN_POOL_CLOSE : Z := 1500.
Definition SHUTDOWN_LOCK : Z := 1000.
Definition SHUTDOWN_TIMEOUT : Z := 13000.

Inductive what := MqttDisconnect | RobotsShutdown | RecorderDrain | RecorderStop | RecorderPoolClose | DatabaseClose | LockRelease.

(** [steps] in [graceful_shutdown]; MqttClient.disconnect is not a coroutine, so its limit does not apply *)
Definition steps (mqtt recorder : bool) : list (what * limit) :=
  (if mqtt then [(MqttDisconnect, Plain)] else [])
  ++ [(RobotsShutdown, Awaited SHUTDOWN_ROBOTS)]
  ++ (if recorder then [(RecorderDrain, Awaited (SHUTDOWN_RECORDER_DRAIN + 500)); (RecorderStop, Awaited SHUTDOWN_RECORDER_STOP);
                        (RecorderPoolClose, Awaited SHUTDOWN_POOL_CLOSE)] else [])
  ++ [(DatabaseClose, Awaited SHUTDOWN_POOL_CLOSE); (LockRelease, Awaited SHUTDOWN_LOCK)].

(** How long a step that would need [d] takes ([_shutdown_step]) *)
Definition taken (l : limit) (d : Z) : Z := match l with Plain => d | Awaited b => Z.min d b end.

(** The steps that are begun and the ones that are finished (or run into their own limit) before the overall
    limit cancels the rest, when step [w] would need [d w] *)
Fixpoint run_steps (d : what -> Z) (total spent : Z) (ss : list (what * limit)) : list what * list what :=
  match ss with
  | [] => ([], [])
  | (w, l) :: ss =>
      let t := (spent + taken l (d w))%Z in
      if bool_decide (t < total)%Z then let '(b, f) := run_steps d total t ss in (w :: b, w :: f)
      else ([w], [])
  end.

Definition budget (d : what -> Z) (ss : list (what * limit)) : Z := sum_list_Z (map (fun p => taken p.2 (d p.1)) ss).

Lemma run_steps_all d total spent ss :
  (forall w, (0 <= d w)%Z) -> Forall (fun p => match p.2 with Awaited b => (0 <= b)%Z | Plain => True end) ss ->
  (spent + budget d ss < total)%Z -> run_steps d total spent ss = (map fst ss, map fst ss).
Proof.
  intros Hd. revert spent. induction ss as [|[w l] ss IH]; intros spent Hb Ht; [done|]. cbn in Ht |- *.
  apply Forall_cons in Hb as [Hl Hb]. cbn in Hl.
  assert (0 <= budget d ss)%Z as Hn.
  { apply sum_list_Z_nonneg. apply Forall_map. apply (Forall_impl _ _ _ Hb). intros [w' l'] Hl'. cbn in *.
    specialize (Hd w'). destruct l'; cbn; lia. }
  unfold budget, sum_list_Z in *. rewrite bool_decide_eq_true_2 by lia. rewrite IH; auto. lia.
Qed.

(** Without a recorder every step of the shutdown gets its turn and its whole limit, however slow the
    others are, when the MQTT client is closed within its limit. *)
Theorem shutdown_without_recorder (d : what -> Z) :
  (forall w, (0 <= d w)%Z) -> (d MqttDisconnect <= SHUTDOWN_MQTT)%Z ->
  run_steps d SHUTDOWN_TIMEOUT 0 (steps true false)
  = ([MqttDisconnect; RobotsShutdown; DatabaseClose; LockRelease], [MqttDisconnect; RobotsShutdown; DatabaseClose; LockRelease]).
Proof.
  intros Hd Hm. apply (run_steps_all d SHUTDOWN_TIMEOUT 0 (steps true false)); [done| |].
  { repeat (apply Forall_cons; split; [first [exact I | vm_compute; discriminate]|]). apply Forall_nil_2. }
  unfold budget, sum_list_Z. cbn [steps map app foldr fst snd taken].
  unfold SHUTDOWN_MQTT, SHUTDOWN_ROBOTS, STATUS_WRITE_FLUSH, SHUTDOWN_POOL_CLOSE, SHUTDOWN_LOCK, SHUTDOWN_TIMEOUT in *. lia.
Qed.

Lemma shutdown_without_recorder_witness :
  run_steps (fun w => match w with MqttDisconnect => 100%Z | _ => 60000%Z end) SHUTDOWN_TIMEOUT 0 (steps true false)
  = ([MqttDisconnect; RobotsShutdown; DatabaseClose; LockRelease], [MqttDisconnect; RobotsShutdown; DatabaseClose; LockRelease]).
Proof. apply shutdown_without_recorder; [intros []; lia | unfold SHUTDOWN_MQTT; lia]. Defined.

(** With a recorder the limits of the steps add up to more than the overall limit: when the steps before it
    are slow, each within its own limit, the closing of the database is cut short and the leader lock is never
    released. *)
Theorem shutdown_starves_lock_release :
  let d := fun w => match w with MqttDisconnect => SHUTDOWN_MQTT | _ => 60000%Z end in
  run_steps d SHUTDOWN_TIMEOUT 0 (steps true true)
  = ([MqttDisconnect; RobotsShutdown; RecorderDrain; RecorderStop; RecorderPoolClose; DatabaseClose],
     [MqttDisconnect; RobotsShutdown; RecorderDrain; RecorderStop; RecorderPoolClose]).
Proof. reflexivity. Qed.

End Shutdown.
