(* ===== verification/BlockedNodes.v ===== *)
(** * Blocked graph nodes (packages/utils/blocked_nodes.py)

    The table of graph nodes robots reported blocked, as its SQL statements change and read it (Module
    [Table]), the rule by which a row blocks a point of a route, in its two forms (Module [Rule]), and the
    search for a path around what is blocked (Module [Search]). Coordinates are integers (micrometres), so
    that a distance is compared by its square; times are seconds. Reading the position out of a synthetic id,
    and which legs cross an obstacle, are arguments.

    What is shown: a block never ends earlier because of a further report, and a stored robot pose always
    belongs to the waypoint stored with it; the planner's set of excluded nodes is the API's row rule; and the
    path search ends, finds a path exactly when there is one, and finds one of fewest hops. *)

From S2P Require Import Prelude.
From Stdlib Require Import Sorted.
Local Open Scope string_scope.
Local Open Scope list_scope.

Module Table.

(** What a report says: [upsert_params] less the key *)
Record Report := mkReport {
  edge_from : option string; edge_to : option string; source : string; robot_name : option string;
  mission_name : option string; vda_node_id : option string; reason : option string;
  x : option Z; y : option Z; robot_x : option Z; robot_y : option Z;
}.

Record Row := mkRow { said : Report; created_at : Z; expires_at : Z }.

Notation table := (gmap (string * string) Row).   (** by map and graph node *)

Definition SOURCES : list string := ["edgeBlocked"; "nodeBlocked"; "operator"].

(** [upsert_params]: refuses an unknown source *)
Definition upsert_params (r : Report) (expires_in : Z) : result string (Report * Z) :=
  if bool_decide (source r ∈ SOURCES) then Ok (r, expires_in) else Raise "unknown source".

(** [_NEW_POSE] and [_KEEP_OLD_POSE] *)
Definition new_pose (r : Report) : bool := bool_decide (is_Some (robot_x r)) && bool_decide (is_Some (robot_y r)).
Definition keep_old_pose (old : Row) (r : Report) (now : Z) : bool :=
  bool_decide (now < expires_at old)%Z && new_pose (said old)
  && bool_decide (is_Some (x (said old))) && bool_decide (is_Some (y (said old))) && negb (new_pose r).

(** [UPSERT_SQL] on the row of its key *)
Definition upsert_row (old : option Row) (r : Report) (secs now : Z) : Row :=
  match old with
  | None => mkRow r now (now + secs)
  | Some o =>
      let keep := keep_old_pose o r now in
      mkRow (mkReport (edge_from r) (edge_to r) (source r) (robot_name r) (mission_name r) (vda_node_id r) (reason r)
               (if keep then x (said o) else x r) (if keep then y (said o) else y r)
               (if keep then robot_x (said o) else if new_pose r then robot_x r else None)
               (if keep then robot_y (said o) else if new_pose r then robot_y r else None))
            (if bool_decide (expires_at o <= now)%Z then now else created_at o)
            (Z.max (expires_at o) (now + secs))
  end.
Definition upsert (t : table) (k : string * string) (r : Report) (secs now : Z) : table :=
  <[k := upsert_row (t !! k) r secs now]> t.

(** [DELETE_SQL], with what it returns; [PURGE_SQL]; [ACTIVE_FOR_MAP_SQL] as the set of its rows *)
Definition delete_row (t : table) (k : string * string) (now : Z) : table * option bool :=
  (delete k t, (fun r => bool_decide (now < expires_at r)%Z) <$> t !! k).
Definition PURGE_AFTER : Z := 86400.
Definition purge (t : table) (now : Z) : table := filter (fun p => ~ (expires_at p.2 < now - PURGE_AFTER)%Z) t.
Definition active_for_map (t : table) (map : string) (now : Z) : table :=
  filter (fun p => p.1.1 = map /\ (now < expires_at p.2)%Z) t.

(** [purge_expired]: whether it runs now, and [_last_purge] after it *)
Definition PURGE_EVERY : Z := 3600.
Definition purge_due (last : option Z) (now : Z) : bool * option Z :=
  match last with
  | Some l => if bool_decide (now - l < PURGE_EVERY)%Z then (false, last) else (true, Some now)
  | None => (true, Some now)
  end.

Inductive event := Report_ (k : string * string) (r : Report) (secs now : Z) | Purge (now : Z) | Clear (k : string * string) (now : Z).
Definition step (t : table) (e : event) : table :=
  match e with
  | Report_ k r secs now => upsert t k r secs now
  | Purge now => purge t now
  | Clear k now => (delete_row t k now).1
  end.

(** The reports made on a node *)
Definition reports (k : string * string) (es : list event) : list Report :=
  omap (fun e => match e with Report_ k' r _ _ => if decide (k' = k) then Some r else None | _ => None end) es.

(** The positions of a row are those of one report, all four or the waypoint alone. *)
Definition of_one_report (w : Row) (rs : list Report) : Prop :=
  exists r, r ∈ rs /\ x (said w) = x r /\ y (said w) = y r
    /\ ((robot_x (said w) = robot_x r /\ robot_y (said w) = robot_y r) \/ (robot_x (said w) = None /\ robot_y (said w) = None)).

Lemma of_one_report_more w rs r : of_one_report w rs -> of_one_report w (rs ++ [r]).
Proof. intros (r0 & Hin & H). exists r0. split; [apply elem_of_app; auto | done]. Qed.

Lemma upsert_of_one o r secs now rs :
  (forall w, o = Some w -> of_one_report w rs) -> of_one_report (upsert_row o r secs now) (rs ++ [r]).
Proof.
  intros Ho. assert (r ∈ rs ++ [r]) by (apply elem_of_app; right; apply list_elem_of_singleton; done).
  unfold upsert_row. destruct o as [w|]; [|exists r; cbn; auto 10]. destruct (keep_old_pose w r now) eqn:K.
  - destruct (Ho w eq_refl) as (r0 & Hin & Hx & Hy & Hp). exists r0. cbn. split; [apply elem_of_app; auto|]. auto 10.
  - exists r. cbn. destruct (new_pose r); auto 10.
Qed.

(** Every row of a table that began empty is made of the reports on its node. *)
Lemma rows_of_one es k w :
  foldl step ∅ es !! k = Some w -> of_one_report w (reports k es).
Proof.
  revert w. induction es as [|e es IH] using rev_ind; intros w; [cbn [foldl]; by rewrite lookup_empty|].
  rewrite foldl_app. cbn. unfold reports. rewrite omap_app. fold (reports k es). destruct e as [k' r secs now|now|k' now]; cbn.
  - unfold upsert. destruct (decide (k' = k)) as [->|Hne].
    + rewrite lookup_insert_eq. intros [= <-]. apply upsert_of_one. auto.
    + rewrite lookup_insert_ne by done. rewrite app_nil_r. auto.
  - rewrite app_nil_r. intros H. apply map_lookup_filter_Some in H as [H _]. auto.
  - rewrite app_nil_r. intros H. apply lookup_delete_Some in H as [_ H]. auto.
Qed.

(** Whatever the sequence of reports, clears and purges, a row stores the waypoint of one report, and a
    robot pose only together with the waypoint it was reported with. *)
Theorem pose_belongs_to_waypoint (es : list event) (k : string * string) (w : Row) :
  foldl step ∅ es !! k = Some w ->
  exists r, r ∈ reports k es /\ x (said w) = x r /\ y (said w) = y r
    /\ ((robot_x (said w) = robot_x r /\ robot_y (said w) = robot_y r) \/ (robot_x (said w) = None /\ robot_y (said w) = None)).
Proof. apply rows_of_one. Qed.

Definition at_point (px py : Z) (pose : option (Z * Z)) : Report :=
  mkReport None None "edgeBlocked" None None None None (Some px) (Some py) (fst <$> pose) (snd <$> pose).

Lemma pose_belongs_to_waypoint_witness :
  exists w, foldl step ∅ [Report_ ("m", "n1") (at_point 1 2 (Some (0, 0))) 600 0; Report_ ("m", "n1") (at_point 3 4 None) 600 10]%Z
              !! ("m", "n1") = Some w
    /\ exists r, r ∈ [at_point 1 2 (Some (0, 0)); at_point 3 4 None]%Z /\ x (said w) = x r.
Proof.
  eexists. split; [reflexivity|].
  destruct (pose_belongs_to_waypoint [Report_ ("m", "n1") (at_point 1 2 (Some (0, 0))) 600 0; Report_ ("m", "n1") (at_point 3 4 None) 600 10]%Z
              ("m", "n1") _ eq_refl) as (r & Hr & Hx & _).
  exists r. split; [exact Hr | exact Hx].
Defined.

(** A further report never ends a block earlier, keeps the time it began while it is active and starts it
    anew when it had expired, and does not take away the robot pose of an active block. *)
Theorem report_extends_block (o : Row) (r : Report) (secs now : Z) :
  let w := upsert_row (Some o) r secs now in
  (expires_at o <= expires_at w)%Z /\ (now + secs <= expires_at w)%Z
  /\ created_at w = (if bool_decide (now < expires_at o)%Z then created_at o else now)
  /\ ((now < expires_at o)%Z -> new_pose (said o) = true -> is_Some (x (said o)) -> is_Some (y (said o)) ->
      new_pose (said w) = true /\ (new_pose r = false -> x (said w) = x (said o) /\ y (said w) = y (said o)
                                   /\ robot_x (said w) = robot_x (said o) /\ robot_y (said w) = robot_y (said o))).
Proof.
  cbn. split_and!; try lia.
  - repeat case_bool_decide; auto; lia.
  - intros Ha Hp Hx Hy. unfold keep_old_pose. rewrite Hp, !bool_decide_eq_true_2 by done. cbn. destruct (new_pose r) eqn:Hn.
    + split; [|done]. unfold new_pose in *. by cbn.
    + split; [|done]. unfold new_pose in *. by cbn.
Qed.

End Table.

Module Rule.
Import Table.

Section rule.
Context (position_of : string -> option (Z * Z)).   (** [position_of] on a graph node id *)

(** [math.hypot(a - b) <= radius] *)
Definition within (radius : Z) (a b : Z * Z) : bool :=
  bool_decide (0 <= radius)%Z && bool_decide ((a.1 - b.1) * (a.1 - b.1) + (a.2 - b.2) * (a.2 - b.2) <= radius * radius)%Z.

(** [row_blocks]: the row of [gid], with the waypoint it was reported at, and a point of a route *)
Definition row_blocks (radius : Z) (row : string * (option Z * option Z)) (node_id : option string) (xy : option (Z * Z)) : bool :=
  let '(gid, (rx, ry)) := row in
  match position_of gid with
  | Some pos => match xy with Some p => within radius p pos | None => false end
  | None =>
      match node_id with
      | Some n => bool_decide (n = gid)
      | None => match rx, ry with
                | Some a, Some b => match xy with Some p => within radius p (a, b) | None => false end
                | _, _ => false
                end
      end
  end.

(** [excluded_node_ids], for nodes with their ids and positions *)
Definition discs (rows : list (string * (option Z * option Z))) : list (Z * Z) := omap (fun r => position_of r.1) rows.
Definition excluded_node_ids (radius : Z) (rows : list (string * (option Z * option Z))) (nodes : option (list (string * option (Z * Z))))
    : gset string :=
  list_to_set (List.map fst (List.filter (fun r => bool_decide (position_of r.1 = None)) rows))
  ∪ match discs rows, nodes with
    | _ :: _, Some ns => list_to_set (List.map fst (List.filter (fun n =>
        match n.2 with Some p => existsb (within radius p) (discs rows) | None => false end) ns))
    | _, _ => ∅
    end.

(** [rows_hit] without a polyline: the rows that block any of the points *)
Definition rows_hit (radius : Z) (rows : list (string * (option Z * option Z))) (points : list (option string * option (Z * Z)))
    : list (string * (option Z * option Z)) :=
  List.filter (fun r => existsb (fun p => row_blocks radius r p.1 p.2) points) rows.

Lemma existsb_discs radius rows p :
  existsb (within radius p) (discs rows) = true <->
  exists r pos, r ∈ rows /\ position_of r.1 = Some pos /\ within radius p pos = true.
Proof.
  unfold discs. rewrite existsb_exists. setoid_rewrite <-list_elem_of_In. setoid_rewrite list_elem_of_omap. split.
  - intros (pos & (r & Hr & Hp) & Hw). eauto 6.
  - intros (r & pos & Hr & Hp & Hw). eauto 6.
Qed.

Lemma elem_of_filter_map {A B : Type} `{Countable B} (f : A -> B) (p : A -> bool) (l : list A) (b : B) :
  b ∈ (list_to_set (List.map f (List.filter p l)) : gset B) <-> exists a, a ∈ l /\ p a = true /\ b = f a.
Proof.
  rewrite elem_of_list_to_set. rewrite list_elem_of_In, in_map_iff. setoid_rewrite filter_In. setoid_rewrite <-list_elem_of_In.
  naive_solver.
Qed.
End rule.

(** The set of graph nodes the planner keeps out is the rule the API judges a route by: a node of the graph
    is in it exactly when one of the rows blocks that node at its position. *)
Theorem excluded_is_row_rule (position_of : string -> option (Z * Z)) (radius : Z) (rows : list (string * (option Z * option Z)))
    (nodes : list (string * option (Z * Z))) (n : string) (xy : option (Z * Z)) :
  NoDup nodes.*1 -> (n, xy) ∈ nodes ->
  n ∈ excluded_node_ids position_of radius rows (Some nodes)
  <-> exists r, r ∈ rows /\ row_blocks position_of radius r (Some n) xy = true.
Proof.
  intros Hnd Hin. unfold excluded_node_ids. rewrite elem_of_union, elem_of_filter_map.
  assert (n ∈ (match discs position_of rows, Some nodes with
               | _ :: _, Some ns => list_to_set (List.map fst (List.filter (fun n =>
                   match n.2 with Some p => existsb (within radius p) (discs position_of rows) | None => false end) ns))
               | _, _ => ∅
               end : gset string)
          <-> exists p r pos, xy = Some p /\ r ∈ rows /\ position_of r.1 = Some pos /\ within radius p pos = true) as ->.
  { transitivity (exists p, xy = Some p /\ existsb (within radius p) (discs position_of rows) = true).
    - destruct (discs position_of rows) as [|d ds] eqn:Hd.
      + split; [intros H; set_solver | intros (p & _ & H); done].
      + rewrite elem_of_filter_map. split.
        * intros ([n' xy'] & Hin' & Hp & ->). cbn in *. destruct (list_elem_of_lookup_1 _ _ Hin) as [i Hi].
          destruct (list_elem_of_lookup_1 _ _ Hin') as [j Hj].
          assert (i = j) as ->.
          { apply (NoDup_lookup nodes.*1 i j n'); auto; rewrite list_lookup_fmap, ?Hi, ?Hj; done. }
          simplify_eq. destruct xy as [p|]; [eauto | done].
        * intros (p & -> & Hp). exists (n, Some p). done.
    - setoid_rewrite existsb_discs. naive_solver. }
  split.
  - intros [([gid [rx ry]] & Hr & Hb & ->)|(p & [gid [rx ry]] & pos & -> & Hr & Hpos & Hw)].
    + exists (gid, (rx, ry)). split; [done|]. cbn in *. bprop. rewrite Hb. by apply bool_decide_eq_true.
    + exists (gid, (rx, ry)). split; [done|]. cbn in *. by rewrite Hpos.
  - intros ([gid [rx ry]] & Hr & Hb). cbn in Hb. destruct (position_of gid) as [pos|] eqn:Hpos.
    + destruct xy as [p|]; [|done]. right. exists p, (gid, (rx, ry)), pos. done.
    + bprop. subst n. left. exists (gid, (rx, ry)). split; [done|]. split; [by apply bool_decide_eq_true | done].
Qed.

Lemma excluded_is_row_rule_witness :
  let pos := fun g => if bool_decide (g = "@0,0") then Some (0, 0)%Z else None in
  "a" ∈ excluded_node_ids pos 500 [("@0,0", (None, None)); ("b", (None, None))] (Some [("a", Some (300, 400)%Z); ("c", Some (9, 900)%Z)]).
Proof.
  intros pos. apply (excluded_is_row_rule pos 500 _ _ "a" (Some (300, 400)%Z)).
  - repeat constructor; set_solver.
  - set_solver.
  - exists ("@0,0", (None, None)). split; [set_solver | reflexivity].
Defined.

End Rule.

Module Search.

Section search.
Context (edges : list (string * string)) (edge_blocked : string -> string -> bool).
Context (start finish : string) (excluded : gset string).

(** [adjacency.get(node, [])] *)
Definition adjacency (node : string) : list string :=
  List.map snd (List.filter (fun e => bool_decide (e.1 = node) && negb (edge_blocked e.1 e.2)) edges).

(** The inner loop: the neighbours of [node] not seen yet are remembered and queued *)
Definition visit (node : string) (acc : gmap string (option string) * list string) (nxt : string)
    : gmap string (option string) * list string :=
  let '(previous, queue) := acc in
  if bool_decide (previous !! nxt = None) && bool_decide (nxt ∉ excluded)
  then (<[nxt := Some node]> previous, queue ++ [nxt]) else acc.

(** The path to [node], walked back over [previous]; a path has no more hops than there are edges *)
Fixpoint walk_back (previous : gmap string (option string)) (fuel : nat) (node : string) (path : list string) : list string :=
  match fuel with
  | 0 => path
  | S fuel => match previous !! node with
              | Some (Some p) => walk_back previous fuel p (p :: path)
              | _ => path
              end
  end.

(** The outer loop; a node is queued once, so one turn per edge and two more are enough *)
Fixpoint search (fuel : nat) (previous : gmap string (option string)) (queue : list string) : option (list string) :=
  match fuel with
  | 0 => None
  | S fuel =>
      match queue with
      | [] => None
      | node :: queue =>
          if bool_decide (node = finish) then Some (walk_back previous (length edges + 1) node [node])
          else let '(previous, queue) := foldl (visit node) (previous, queue) (adjacency node) in search fuel previous queue
      end
  end.

(** [shortest_path_avoiding] *)
Definition shortest_path_avoiding : option (list string) :=
  if bool_decide (finish ∈ excluded) && negb (bool_decide (finish = start)) then None
  else search (length edges + 2) {[start := None]} [start].

(** A path along allowed edges, from [a], past its first node through no excluded one *)
Fixpoint path_from (a : string) (p : list string) : Prop :=
  match p with [] => True | b :: p => b ∈ adjacency a /\ b ∉ excluded /\ path_from b p end.
Definition valid (p : list string) : Prop :=
  match p with [] => False | a :: p => a = start /\ path_from a p /\ last (a :: p) = Some finish end.

(** ** Invariant

    The remembered nodes are the ones expanded ([expanded]) and the ones queued; [d] is the number of hops to
    each, the expanded ones at most [m] and the queued ones [m] or one more. [seen u] are the neighbours of an
    expanded node that have been looked at. *)
Record good (previous : gmap string (option string)) (expanded queue : list string) (d : string -> nat) (m : nat)
    (seen : string -> list string) : Prop := {
  g_nodup : NoDup (expanded ++ queue);
  g_dom : forall v, previous !! v = None <-> v ∉ expanded ++ queue;
  g_start : previous !! start = Some None;
  g_start_d : d start = 0;
  g_prev : forall v, v ∈ expanded ++ queue -> v <> start ->
    exists u, previous !! v = Some (Some u) /\ u ∈ expanded /\ v ∈ adjacency u /\ v ∉ excluded /\ d v = S (d u);
  g_closed : forall u v, u ∈ expanded -> v ∈ seen u -> v ∉ excluded -> v ∈ expanded ++ queue /\ d v <= S (d u);
  g_sorted : StronglySorted (fun a b => d a <= d b) queue;
  g_expanded : forall u, u ∈ expanded -> d u <= m;
  g_queue : forall v, v ∈ queue -> m <= d v <= S m;
  g_deep : forall v, v ∈ expanded ++ queue -> d v <= length expanded;
}.

Lemma good_in previous expanded queue d m seen v u :
  good previous expanded queue d m seen -> previous !! v = Some u -> v ∈ expanded ++ queue.
Proof.
  intros G Hv. destruct (decide (v ∈ expanded ++ queue)) as [|Hn]; [done|].
  apply (g_dom _ _ _ _ _ _ G) in Hn. congruence.
Qed.

(** Walking back gives a path of [d v] hops. *)
Lemma walk_back_path previous expanded queue d m seen :
  good previous expanded queue d m seen -> forall fuel v tail,
  v ∈ expanded ++ queue -> d v <= fuel -> path_from v tail ->
  exists q, walk_back previous fuel v (v :: tail) = start :: q /\ path_from start q
    /\ last (start :: q) = last (v :: tail) /\ length q = d v + length tail.
Proof.
  intros G fuel. induction fuel as [|fuel IH]; intros v tail Hv Hd Ht.
  - destruct (decide (v = start)) as [->|Hs]; [exists tail; cbn; rewrite (g_start_d _ _ _ _ _ _ G); auto|].
    destruct (g_prev _ _ _ _ _ _ G v Hv Hs) as (u & _ & _ & _ & _ & Hdv). lia.
  - cbn. destruct (decide (v = start)) as [->|Hs].
    + rewrite (g_start _ _ _ _ _ _ G). exists tail. rewrite (g_start_d _ _ _ _ _ _ G). auto.
    + destruct (g_prev _ _ _ _ _ _ G v Hv Hs) as (u & -> & Hu & Ha & He & Hdv).
      destruct (IH u (v :: tail)) as (q & -> & Hq & Hl & Hlen); [apply elem_of_app; auto|lia|done|].
      exists q. split; [done|]. split; [done|]. split; [by rewrite Hl, last_cons_cons|]. cbn in Hlen. lia.
Qed.

Lemma sorted_snoc (d : string -> nat) q v :
  StronglySorted (fun a b => d a <= d b) q -> (forall u, u ∈ q -> d u <= d v) ->
  StronglySorted (fun a b => d a <= d b) (q ++ [v]).
Proof.
  induction q as [|a q IH]; intros Hs Hv; cbn; [repeat constructor|].
  apply StronglySorted_inv in Hs as [Hs Ha]. constructor.
  - apply IH; [done|]. intros u Hu. apply Hv. set_solver.
  - apply Forall_app. split; [done|]. repeat constructor. apply Hv. set_solver.
Qed.

Lemma sorted_ext (d d' : string -> nat) q :
  (forall v, v ∈ q -> d' v = d v) -> StronglySorted (fun a b => d a <= d b) q ->
  StronglySorted (fun a b => d' a <= d' b) q.
Proof.
  intros He Hs. induction Hs as [|a q Hs IH Ha]; constructor.
  - apply IH. intros v Hv. apply He. set_solver.
  - rewrite Forall_forall in *. intros b Hb. rewrite !He by set_solver. auto.
Qed.

(** One neighbour of the node [cur] being expanded, whose distance is the current one *)
Lemma good_visit previous expanded queue d seen cur nxt :
  good previous expanded queue d (d cur) seen -> cur ∈ expanded -> nxt ∈ adjacency cur -> d cur < length expanded ->
  exists d', let '(previous', queue') := visit cur (previous, queue) nxt in
    good previous' expanded queue' d' (d' cur) (fun u => if decide (u = cur) then seen u ++ [nxt] else seen u)
    /\ d' cur = d cur.
Proof.
  intros G Hc Hn Hdeep. unfold visit. destruct (bool_decide (previous !! nxt = None) && bool_decide (nxt ∉ excluded)) eqn:Hb.
  - apply andb_true_iff in Hb as [Hnew Hex]. bprop.
    assert (Hout : nxt ∉ expanded ++ queue) by (by apply (g_dom _ _ _ _ _ _ G)).
    assert (Hns : nxt <> start) by (intros ->; rewrite (g_start _ _ _ _ _ _ G) in Hnew; done).
    exists (fun z => if decide (z = nxt) then S (d cur) else d z).
    assert (Hkeep : forall z, z ∈ expanded ++ queue -> (if decide (z = nxt) then S (d cur) else d z) = d z).
    { intros z Hz. rewrite decide_False; [done|]. intros ->. done. }
    rewrite (Hkeep cur) by (apply elem_of_app; auto). split; [|done]. split.
    + rewrite app_assoc. apply NoDup_app. split; [apply (g_nodup _ _ _ _ _ _ G)|]. split; [set_solver | apply NoDup_singleton].
    + intros v. rewrite app_assoc. destruct (decide (v = nxt)) as [->|Hv].
      * rewrite lookup_insert_eq. set_solver.
      * rewrite lookup_insert_ne by done. rewrite (g_dom _ _ _ _ _ _ G). set_solver.
    + rewrite lookup_insert_ne by done. apply (g_start _ _ _ _ _ _ G).
    + rewrite decide_False by auto. apply (g_start_d _ _ _ _ _ _ G).
    + intros v Hv Hs. rewrite app_assoc in Hv. destruct (decide (v = nxt)) as [->|Hvn].
      * exists cur. rewrite lookup_insert_eq, (Hkeep cur) by (apply elem_of_app; auto). auto.
      * assert (Hv' : v ∈ expanded ++ queue) by set_solver. destruct (g_prev _ _ _ _ _ _ G v Hv' Hs) as (u & Hp & Hu & H1 & H2 & H3).
        exists u. rewrite lookup_insert_ne by done. rewrite (Hkeep u) by (apply elem_of_app; auto). auto.
    + intros u v Hu Hv Hve. rewrite app_assoc, (Hkeep u) by (apply elem_of_app; auto).
      destruct (decide (v = nxt)) as [->|Hvn].
      * destruct (decide (u = cur)) as [->|Huc]; [split; [set_solver|lia]|].
        destruct (g_closed _ _ _ _ _ _ G u nxt Hu Hv Hve) as [? _]. done.
      * assert (v ∈ seen u) as Hv' by (destruct (decide (u = cur)); set_solver).
        destruct (g_closed _ _ _ _ _ _ G u v Hu Hv' Hve) as [H1 H2]. split; [set_solver | done].
    + apply sorted_snoc.
      * apply (sorted_ext d); [|apply (g_sorted _ _ _ _ _ _ G)]. intros v Hv. apply Hkeep. apply elem_of_app; auto.
      * intros u Hu. rewrite (Hkeep u), decide_True by (done || apply elem_of_app; auto).
        destruct (g_queue _ _ _ _ _ _ G u Hu). lia.
    + intros u Hu. rewrite (Hkeep u) by (apply elem_of_app; auto). by apply (g_expanded _ _ _ _ _ _ G).
    + intros v Hv. apply elem_of_app in Hv as [Hv|Hv].
      * rewrite (Hkeep v) by (apply elem_of_app; auto). by apply (g_queue _ _ _ _ _ _ G).
      * apply list_elem_of_singleton in Hv as ->. rewrite decide_True by done. lia.
    + intros v Hv. rewrite app_assoc in Hv. destruct (decide (v = nxt)) as [->|Hvn]; [lia|].
      apply (g_deep _ _ _ _ _ _ G). set_solver.
  - exists d. split; [|done]. destruct G. split; auto.
    intros u v Hu Hv Hve. destruct (decide (u = cur)) as [->|Huc]; [|by apply g_closed0].
    apply elem_of_app in Hv as [Hv|Hv]; [by apply g_closed0|]. apply list_elem_of_singleton in Hv as ->.
    assert (Hin : nxt ∈ expanded ++ queue).
    { destruct (decide (nxt ∈ expanded ++ queue)) as [|Hno]; [done|]. apply g_dom0 in Hno.
      rewrite !bool_decide_eq_true_2 in Hb by done. done. }
    split; [done|]. apply elem_of_app in Hin as [Hin|Hin]; [specialize (g_expanded0 nxt Hin); lia|].
    specialize (g_queue0 nxt Hin). lia.
Qed.

(** All the neighbours *)
Lemma good_visits l previous expanded queue d seen cur :
  good previous expanded queue d (d cur) seen -> cur ∈ expanded -> (forall v, v ∈ l -> v ∈ adjacency cur) -> d cur < length expanded ->
  exists d', let '(previous', queue') := foldl (visit cur) (previous, queue) l in
    good previous' expanded queue' d' (d' cur) (fun u => if decide (u = cur) then seen u ++ l else seen u).
Proof.
  revert previous queue d seen. induction l as [|x l IH]; intros previous queue d seen G Hc Hl Hdeep.
  - exists d. cbn. destruct G. split; auto. intros u v Hu Hv. rewrite app_nil_r in Hv. apply g_closed0; auto. by destruct (decide _).
  - destruct (good_visit previous expanded queue d seen cur x G Hc) as (d1 & H1); [apply Hl; set_solver | done |].
    cbn [foldl]. destruct (visit cur (previous, queue) x) as [p1 q1]. destruct H1 as [G1 E1].
    destruct (IH p1 q1 d1 _ G1 Hc) as (d2 & H2); [intros; apply Hl; set_solver | lia |].
    exists d2. destruct (foldl (visit cur) (p1, q1) l) as [p2 q2]. destruct H2. split; auto.
    intros u v Hu Hv. apply g_closed0; auto. destruct (decide (u = cur)); [|done]. by rewrite <-app_assoc.
Qed.

(** Leaving the expanded nodes means passing a queued one, no further than the walk. *)
Lemma walk_escapes previous expanded queue d m q : forall a,
  good previous expanded queue d m adjacency -> a ∈ expanded -> path_from a q ->
  (forall v, v ∈ q -> v ∈ expanded) \/ exists v, v ∈ queue /\ d v <= d a + length q.
Proof.
  induction q as [|b q IH]; intros a G Ha Hp; [left; set_solver|]. destruct Hp as (Hadj & Hex & Hp).
  destruct (g_closed _ _ _ _ _ _ G a b Ha Hadj Hex) as [Hin Hd]. apply elem_of_app in Hin as [Hin|Hin].
  - destruct (IH b G Hin Hp) as [Hall|(v & Hv & Hdv)]; [left; set_solver|]. right. exists v. cbn. split; [done|lia].
  - right. exists b. cbn. split; [done|lia].
Qed.

Lemma remembered_bound previous expanded queue d m seen :
  good previous expanded queue d m seen -> length (expanded ++ queue) <= S (length edges).
Proof.
  intros G. replace (S (length edges)) with (length (start :: List.map snd edges)) by (cbn; by rewrite length_map).
  apply submseteq_length, NoDup_submseteq; [apply (g_nodup _ _ _ _ _ _ G)|]. intros v Hv.
  destruct (decide (v = start)) as [->|Hs]; [set_solver|].
  destruct (g_prev _ _ _ _ _ _ G v Hv Hs) as (u & _ & _ & Ha & _). apply elem_of_cons. right.
  unfold adjacency in Ha. rewrite list_elem_of_In, in_map_iff in Ha |- *. destruct Ha as (e & <- & He).
  apply filter_In in He as [He _]. eauto.
Qed.

(** The node at the head of the queue is expanded. *)
Lemma good_expand previous expanded node queue d m :
  good previous expanded (node :: queue) d m adjacency ->
  exists d', let '(previous', queue') := foldl (visit node) (previous, queue) (adjacency node) in
    exists m', good previous' (expanded ++ [node]) queue' d' m' adjacency.
Proof.
  intros G. destruct (good_visits (adjacency node) previous (expanded ++ [node]) queue d (fun u => if decide (u = node) then [] else adjacency u) node)
    as (d' & H).
  - assert (Hassoc : (expanded ++ [node]) ++ queue = expanded ++ node :: queue) by (by rewrite <-app_assoc).
    assert (Hm : m <= d node <= S m) by (apply (g_queue _ _ _ _ _ _ G); set_solver).
    pose proof (StronglySorted_inv (g_sorted _ _ _ _ _ _ G)) as [Hsort Hmin]. rewrite Forall_forall in Hmin. split.
    + rewrite Hassoc. apply (g_nodup _ _ _ _ _ _ G).
    + intros v. rewrite Hassoc. apply (g_dom _ _ _ _ _ _ G).
    + apply (g_start _ _ _ _ _ _ G).
    + apply (g_start_d _ _ _ _ _ _ G).
    + intros v Hv Hs. rewrite Hassoc in Hv. destruct (g_prev _ _ _ _ _ _ G v Hv Hs) as (u & H1 & H2 & H3).
      exists u. split; [done|]. split; [apply elem_of_app; auto | done].
    + intros u v Hu Hv Hve. rewrite Hassoc. destruct (decide (u = node)) as [->|Hne]; [set_solver|].
      apply (g_closed _ _ _ _ _ _ G); auto. set_solver.
    + done.
    + intros u Hu. apply elem_of_app in Hu as [Hu|Hu]; [pose proof (g_expanded _ _ _ _ _ _ G u Hu); lia|].
      apply list_elem_of_singleton in Hu as ->. done.
    + intros v Hv. specialize (Hmin v Hv). pose proof (g_queue _ _ _ _ _ _ G v) as Hq. specialize (Hq ltac:(set_solver)). lia.
    + intros v Hv. rewrite Hassoc in Hv. pose proof (g_deep _ _ _ _ _ _ G v Hv). rewrite length_app. cbn. lia.
  - set_solver.
  - done.
  - rewrite length_app. cbn. pose proof (g_deep _ _ _ _ _ _ G node ltac:(set_solver)). lia.
  - exists d'. destruct (foldl (visit node) (previous, queue) (adjacency node)) as [p' q']. exists (d' node). destruct H. split; auto.
    intros u v Hu Hv. apply g_closed0; auto. by destruct (decide (u = node)) as [->|].
Qed.

Definition answer_ok (o : option (list string)) : Prop :=
  match o with
  | Some p => valid p /\ forall q, valid q -> length p <= length q
  | None => forall q, ~ valid q
  end.

Lemma search_ok fuel : forall previous expanded queue d m,
  good previous expanded queue d m adjacency -> finish ∉ expanded -> length edges + 2 <= fuel + length expanded ->
  answer_ok (search fuel previous queue).
Proof.
  induction fuel as [|fuel IH]; intros previous expanded queue d m G Hf Hfuel.
  { pose proof (remembered_bound _ _ _ _ _ _ G) as Hb. rewrite length_app in Hb. lia. }
  assert (Hst : start ∈ expanded ++ queue) by (eapply good_in; [exact G | apply (g_start _ _ _ _ _ _ G)]).
  cbn [search]. destruct queue as [|node queue].
  - intros [|a q] Hv; [done|]. destruct Hv as (-> & Hp & Hl). rewrite app_nil_r in Hst.
    destruct (walk_escapes _ _ _ _ _ q start G Hst Hp) as [Hall|(v & Hv & _)]; [|set_solver].
    apply last_Some_elem_of in Hl. apply elem_of_cons in Hl as [->|Hl]; auto.
  - case_bool_decide as Hn; [subst node|].
    + pose proof (remembered_bound _ _ _ _ _ _ G) as Hb. rewrite length_app in Hb. cbn in Hb.
      assert (Hin : finish ∈ expanded ++ finish :: queue) by set_solver.
      pose proof (g_deep _ _ _ _ _ _ G finish Hin) as Hdeep.
      destruct (walk_back_path _ _ _ _ _ _ G (length edges + 1) finish [] Hin) as (r & -> & Hr & Hl & Hlen); [lia|done|].
      split; [done|]. intros [|a q] Hv; [done|]. destruct Hv as (-> & Hp & Hlq). cbn in Hlen |- *.
      assert (Hmin : forall v, v ∈ finish :: queue -> d finish <= d v).
      { intros v Hv. pose proof (StronglySorted_inv (g_sorted _ _ _ _ _ _ G)) as [_ Hm]. rewrite Forall_forall in Hm.
        apply elem_of_cons in Hv as [->|Hv]; [done | auto]. }
      apply elem_of_app in Hst as [Hst|Hst]; [|specialize (Hmin start Hst); rewrite (g_start_d _ _ _ _ _ _ G) in Hmin; lia].
      destruct (walk_escapes _ _ _ _ _ q start G Hst Hp) as [Hall|(v & Hv & Hd)].
      * apply last_Some_elem_of in Hlq. apply elem_of_cons in Hlq as [->|Hlq]; [done|]. by apply Hall in Hlq.
      * specialize (Hmin v Hv). rewrite (g_start_d _ _ _ _ _ _ G) in Hd. lia.
    + destruct (good_expand _ _ _ _ _ _ G) as (d' & H). destruct (foldl (visit node) (previous, queue) (adjacency node)) as [p' q'].
      destruct H as (m' & G'). apply (IH p' (expanded ++ [node]) q' d' m' G'); [set_solver|]. rewrite length_app. cbn. lia.
Qed.

Lemma good_init : good {[start := None]} [] [start] (fun _ => 0) 0 adjacency.
Proof.
  split; cbn.
  - apply NoDup_singleton.
  - intros v. rewrite lookup_singleton_None. set_solver.
  - apply lookup_singleton_eq.
  - done.
  - intros v Hv Hs. set_solver.
  - set_solver.
  - repeat constructor.
  - set_solver.
  - lia.
  - lia.
Qed.

End search.

(** C12: the search around what is blocked returns a path exactly when there is one along the allowed edges that
    passes no excluded node after its first, and the path it returns has the fewest hops of all. *)
Theorem path_search_exact (edges : list (string * string)) (edge_blocked : string -> string -> bool) (start finish : string)
    (excluded : gset string) :
  match shortest_path_avoiding edges edge_blocked start finish excluded with
  | Some p => valid edges edge_blocked start finish excluded p
              /\ forall q, valid edges edge_blocked start finish excluded q -> length p <= length q
  | None => forall q, ~ valid edges edge_blocked start finish excluded q
  end.
Proof.
  unfold shortest_path_avoiding. destruct (bool_decide (finish ∈ excluded) && negb (bool_decide (finish = start))) eqn:Hb.
  - bprop. intros [|a q] Hv; [done|]. destruct Hv as (-> & Hp & Hl).
    assert (forall a q, path_from edges edge_blocked excluded a q -> forall v, v ∈ q -> v ∉ excluded) as Hout.
    { intros a r. revert a. induction r as [|b r IH]; intros a Hr v Hv; [set_solver|]. destruct Hr as (_ & Hb & Hr).
      apply elem_of_cons in Hv as [->|Hv]; [done | by eapply IH]. }
    apply last_Some_elem_of in Hl. apply elem_of_cons in Hl as [->|Hl]; [done|]. by apply (Hout start q Hp) in Hl.
  - apply (search_ok edges edge_blocked start finish excluded (length edges + 2) _ [] [start] (fun _ => 0) 0); [apply good_init|set_solver|cbn; lia].
Qed.

End Search.
