(* ===== verification/Detectors.v ===== *)
(** * Change detectors (packages/events/detectors.py, packages/api/telemetry_detectors.py)

    The detectors that turn sampled signals into events: value and set differences, the two-threshold alarm
    and the heartbeat watchdog (Module [Signals]), and the two per-robot detectors of the API built from them,
    whose state is stored with the robot's latest row and read back by the next writer (Module [RobotEvents]).
    Numbers and times are integers (a fixed small unit, and microseconds); a number that is not finite is kept
    apart. A JSON object is the list of its members. [isoformat] and [fromisoformat] are arguments, used only
    through the round trip the library documents.

    What is shown: the changes a detector emits replay the signal it saw; the alarm is on exactly when the
    last sample outside the dead band says so; losses and restorations of the heartbeat alternate, and a
    restoration follows a gap longer than the timeout; and a detector seeded from what its predecessor stored
    goes on exactly as the predecessor would have. *)

From S2P Require Import Prelude.
From stdpp Require Import sorting.
Local Open Scope string_scope.
Local Open Scope list_scope.
Local Open Scope fleet_scope.

Module Signals.

(** ** Differences *)

Section state_diff.
Context {A : Type} `{EqDecision A}.

Record Change := mkChange { old : A; new : A }.

(** [StateDiff], whose state is the previous value if any, and [update] *)
Definition StateDiff : Type := option A.
Definition state_update (s : StateDiff) (v : A) : StateDiff * option Change :=
  (Some v, match s with
           | None => None
           | Some o => if decide (o = v) then None else Some (mkChange o v)
           end).

(** What a change says, to somebody who knows the value before it *)
Definition state_apply (v : A) (c : Change) : option A := if decide (v = old c) then Some (new c) else None.
End state_diff.
Arguments Change : clear implicits.
Arguments StateDiff : clear implicits.

Section set_diff.
Context {A : Type} `{Countable A}.

Record SetChange := mkSetChange { added : gset A; removed : gset A }.

(** [SetDiff] and [update] *)
Definition SetDiff : Type := option (gset A).
Definition set_update (s : SetDiff) (v : gset A) : SetDiff * option SetChange :=
  (Some v, match s with
           | None => None
           | Some o => if decide (o = v) then None else Some (mkSetChange (v ∖ o) (o ∖ v))
           end).

Definition set_apply (v : gset A) (c : SetChange) : option (gset A) :=
  if decide (added c ## v /\ removed c ⊆ v) then Some ((v ∪ added c) ∖ removed c) else None.
End set_diff.
Arguments SetChange A {_ _} : assert.
Arguments SetDiff A {_ _} : assert.

(** What a log of changes promises: the detector knows the last sample, its first is a silent baseline, and a
    change is emitted exactly when the sample differs and leads from the one to the other. *)
Class ChangeLog {S V C : Type} (update : S -> V -> S * option C) (known : S -> option V) (apply : V -> C -> option V) := {
  log_known : forall s v, known (update s v).1 = Some v;
  log_baseline : forall s v, known s = None -> (update s v).2 = None;
  log_change : forall s v o, known s = Some o ->
    match (update s v).2 with None => o = v | Some c => o <> v /\ apply o c = Some v end;
}.

Fixpoint replay {V C : Type} (apply : V -> C -> option V) (v : V) (cs : list C) : option V :=
  match cs with [] => Some v | c :: cs => w ← apply v c; replay apply w cs end.

#[export] Instance state_diff_log {A : Type} `{EqDecision A} : ChangeLog (@state_update A _) (fun s => s) state_apply.
Proof.
  split; cbn; auto; intros; simplify_eq.
  - done.
  - case_decide; [done|]. split; [done|]. unfold state_apply. cbn. by rewrite decide_True.
Qed.

#[export] Instance set_diff_log {A : Type} `{Countable A} : ChangeLog (@set_update A _ _) (fun s => s) set_apply.
Proof.
  split; cbn; auto; intros; simplify_eq.
  - done.
  - case_decide; [done|]. split; [done|]. unfold set_apply. cbn. rewrite decide_True by set_solver.
    f_equal. apply leibniz_equiv. intros x. destruct (decide (x ∈ o)), (decide (x ∈ v)); set_solver.
Qed.

Section logs.
Context {S V C : Type} {update : S -> V -> S * option C} {known : S -> option V} {apply : V -> C -> option V}
        `{!ChangeLog update known apply}.

Lemma replay_known s o vs :
  known s = Some o -> replay apply o (omap id (run update s vs).2) = Some (default o (last vs)).
Proof.
  revert s o. induction vs as [|v vs IH]; intros s o Ho; [done|]. cbn [run].
  pose proof (log_known s v) as Hk. pose proof (log_change s v o Ho) as Hc.
  destruct (update s v) as [s1 c]; cbn in *. specialize (IH s1 v Hk). destruct (run update s1 vs) as [s2 cs]. cbn in *.
  assert (default o (last (v :: vs)) = default v (last vs)) as -> by (rewrite last_cons; by destruct (last vs)).
  destruct c as [c|]; cbn.
  - destruct Hc as [_ ->]. exact IH.
  - by subst o.
Qed.

(** From a detector that knows nothing, the changes of a stream of samples lead from the first to the last. *)
Lemma replay_unknown s v vs :
  known s = None -> replay apply v (omap id (run update s (v :: vs)).2) = Some (default v (last vs)).
Proof.
  intros Hn. cbn [run]. pose proof (log_known s v) as Hk. pose proof (log_baseline s v Hn) as Hb.
  destruct (update s v) as [s1 c]; cbn in *. subst c. pose proof (replay_known s1 v vs Hk) as H.
  destruct (run update s1 vs). exact H.
Qed.
End logs.

(** ** The two-threshold alarm *)

Inductive Direction := ABOVE | BELOW.
Inductive Transition := ENTERED | EXITED.

Record Hysteresis := mkHysteresis { enter : Z; exit : Z; direction : Direction; active : option bool }.

(** [Hysteresis.__init__] *)
Definition new_hysteresis (enter exit : Z) (d : Direction) (active : option bool) : result string Hysteresis :=
  match d with
  | ABOVE => if bool_decide (exit < enter)%Z then Ok (mkHysteresis enter exit d active) else Raise "ABOVE hysteresis needs exit < enter"
  | BELOW => if bool_decide (exit > enter)%Z then Ok (mkHysteresis enter exit d active) else Raise "BELOW hysteresis needs exit > enter"
  end.

(** [_entering] and [_exiting] *)
Definition entering (h : Hysteresis) (v : Z) : bool :=
  match direction h with ABOVE => bool_decide (enter h <= v)%Z | BELOW => bool_decide (v <= enter h)%Z end.
Definition exiting (h : Hysteresis) (v : Z) : bool :=
  match direction h with ABOVE => bool_decide (v <= exit h)%Z | BELOW => bool_decide (exit h <= v)%Z end.

Definition set_active (h : Hysteresis) (b : bool) : Hysteresis := mkHysteresis (enter h) (exit h) (direction h) (Some b).

(** [Hysteresis.update] *)
Definition hysteresis_update (h : Hysteresis) (value : option Z) : Hysteresis * option Transition :=
  match value with
  | None => (h, None)
  | Some v =>
      match active h with
      | None => (set_active h (entering h v), None)
      | Some a =>
          if negb a && entering h v then (set_active h true, Some ENTERED)
          else if a && exiting h v then (set_active h false, Some EXITED)
          else (h, None)
      end
  end.

(** The thresholds are as [__init__] demands. *)
Definition well_formed (h : Hysteresis) : Prop :=
  match direction h with ABOVE => (exit h < enter h)%Z | BELOW => (exit h > enter h)%Z end.

Lemma new_hysteresis_ok enter exit d active h :
  new_hysteresis enter exit d active = Ok h -> well_formed h /\ h = mkHysteresis enter exit d active.
Proof. unfold new_hysteresis, well_formed. destruct d; case_bool_decide; intros; simplify_eq/=; auto. Qed.

Lemma not_both h v : well_formed h -> entering h v = true -> exiting h v = false.
Proof. unfold well_formed, entering, exiting. destruct (direction h); intros; bprop; apply bool_decide_eq_false; lia. Qed.

(** What the last sample outside the dead band says *)
Definition verdict (h : Hysteresis) (samples : list (option Z)) : option bool :=
  entering h <$> find_first (fun v => entering h v || exiting h v) (reverse (omap id samples)).

Lemma update_thresholds h v :
  (forall w, entering (hysteresis_update h v).1 w = entering h w) /\ (forall w, exiting (hysteresis_update h v).1 w = exiting h w)
  /\ (well_formed h -> well_formed (hysteresis_update h v).1).
Proof. unfold hysteresis_update. destruct v as [v|]; [|done]. repeat case_match; done. Qed.

Lemma update_known h b v :
  well_formed h -> active h = Some b ->
  active (hysteresis_update h v).1 = Some (default b (verdict h [v]))
  /\ (hysteresis_update h v).2 = (if decide (default b (verdict h [v]) = b) then None else Some (if b then EXITED else ENTERED)).
Proof.
  intros Hw Hb. unfold hysteresis_update, verdict. destruct v as [v|]; cbn; [|by rewrite Hb, decide_True].
  rewrite Hb. destruct (entering h v) eqn:E, (exiting h v) eqn:X, b; cbn; rewrite ?E; cbn; auto.
  rewrite (not_both h v Hw E) in X. done.
Qed.

Lemma find_first_app {A : Type} (p : A -> bool) l1 l2 :
  find_first p (l1 ++ l2) = match find_first p l1 with Some x => Some x | None => find_first p l2 end.
Proof. induction l1 as [|x l1 IH]; [done|]. cbn. by destruct (p x). Qed.

Lemma verdict_app h xs ys : verdict h (xs ++ ys) = match verdict h ys with Some b => Some b | None => verdict h xs end.
Proof.
  unfold verdict. rewrite omap_app, reverse_app, find_first_app. by destruct (find_first _ (reverse (omap id ys))).
Qed.

Lemma verdict_ext h h' xs :
  (forall w, entering h' w = entering h w) -> (forall w, exiting h' w = exiting h w) -> verdict h' xs = verdict h xs.
Proof.
  intros E X. unfold verdict. induction (reverse (omap id xs)) as [|x l IH]; [done|]. cbn. rewrite E, X.
  destruct (_ || _); [by cbn; rewrite E | exact IH].
Qed.

Lemma alarm_known h b xs :
  well_formed h -> active h = Some b -> active (run hysteresis_update h xs).1 = Some (default b (verdict h xs)).
Proof.
  revert h b. induction xs as [|x xs IH]; intros h b Hw Hb; [done|]. cbn [run].
  destruct (update_thresholds h x) as (E & X & W). pose proof (update_known h b x Hw Hb) as [Ha _].
  destruct (hysteresis_update h x) as [h1 o]; cbn [fst snd] in *. specialize (IH h1 _ (W Hw) Ha).
  destruct (run hysteresis_update h1 xs); cbn [fst snd] in *. rewrite IH, (verdict_ext h h1 xs E X).
  change (x :: xs) with ([x] ++ xs). rewrite (verdict_app h [x] xs). by destruct (verdict h xs).
Qed.

(** ** The heartbeat watchdog *)

Record Lost := mkLost { lost_last_seen : Z }.
Record Restored := mkRestored { restored_last_seen : Z; gap : Z }.
Record Timeout := mkTimeout { timeout : Z; last_seen : option Z; lost : bool }.

(** [Timeout.__init__] *)
Definition new_timeout (timeout : Z) (last_seen : option Z) (lost : bool) : result string Timeout :=
  if bool_decide (timeout <= 0)%Z then Raise "timeout_s must be positive" else Ok (mkTimeout timeout last_seen lost).

(** [seen] and [check] *)
Definition seen (t : Timeout) (ts : Z) : Timeout * option Restored :=
  match last_seen t with
  | Some p =>
      if bool_decide (ts <= p)%Z then (t, None)
      else (mkTimeout (timeout t) (Some ts) false, if lost t then Some (mkRestored p (ts - p)) else None)
  | None => (mkTimeout (timeout t) (Some ts) false, if lost t then Some (mkRestored ts 0) else None)
  end.
Definition check (t : Timeout) (now : Z) : Timeout * option Lost :=
  match last_seen t with
  | None => (t, None)
  | Some p =>
      if lost t then (t, None)
      else if bool_decide (now - p > timeout t)%Z then (mkTimeout (timeout t) (Some p) true, Some (mkLost p))
      else (t, None)
  end.

Inductive beat := Seen (ts : Z) | Check (now : Z).
Definition beat_time (b : beat) : Z := match b with Seen t | Check t => t end.
Definition beat_step (t : Timeout) (b : beat) : Timeout * option (Lost + Restored) :=
  match b with
  | Seen ts => let '(t', o) := seen t ts in (t', inr <$> o)
  | Check now => let '(t', o) := check t now in (t', inl <$> o)
  end.

(** The reports of a watchdog that starts (not) lost: losses and restorations in turn, a restoration naming
    the message of the loss before it, after a gap longer than the timeout *)
Fixpoint alternating (limit : Z) (since : option Z) (os : list (Lost + Restored)) : Prop :=
  match os with
  | [] => True
  | inl l :: os => since = None /\ alternating limit (Some (lost_last_seen l)) os
  | inr r :: os => since = Some (restored_last_seen r) /\ (gap r > limit)%Z /\ alternating limit None os
  end.

(** Times do not go back along the calls. *)
Fixpoint ordered (t : Z) (bs : list beat) : Prop :=
  match bs with [] => True | b :: bs => (t <= beat_time b)%Z /\ ordered (beat_time b) bs end.

(** A watchdog is lost only after a check that came too late for its last message. *)
Definition late (t : Timeout) (now : Z) : Prop :=
  match last_seen t with
  | Some p => (p <= now)%Z /\ (lost t = true -> (now - p > timeout t)%Z)
  | None => lost t = false
  end.

Lemma beats_alternate bs t now :
  late t now -> ordered now bs ->
  alternating (timeout t) (if lost t then last_seen t else None) (omap id (run beat_step t bs).2).
Proof.
  revert t now. induction bs as [|b bs IH]; intros t now Hl Ho; [by destruct (lost t)|]. destruct Ho as [Hb Ho].
  cbn [run]. destruct t as [limit p l]. unfold late in Hl. cbn in Hl.
  assert (forall t' o, beat_step (mkTimeout limit p l) b = (t', o) -> timeout t' = limit -> late t' (beat_time b) ->
            match o with
            | None => (if lost t' then last_seen t' else None) = (if l then p else None)
            | Some (inl x) => l = false /\ lost t' = true /\ last_seen t' = Some (lost_last_seen x)
            | Some (inr x) => l = true /\ lost t' = false /\ p = Some (restored_last_seen x) /\ (gap x > limit)%Z
            end ->
            alternating limit (if l then p else None) (omap id (run beat_step (mkTimeout limit p l) (b :: bs)).2)) as Hgo.
  { intros t' o Hs Hlim Hl' Hc. cbn [run]. rewrite Hs. specialize (IH t' _ Hl' Ho). rewrite Hlim in IH.
    destruct (run beat_step t' bs) as [t2 os]. cbn in *. destruct o as [[x|x]|]; cbn.
    - destruct Hc as (-> & H1 & H2). rewrite H1, H2 in IH. done.
    - destruct Hc as (-> & H1 & H2 & H3). rewrite H1 in IH. done.
    - by rewrite Hc in IH. }
  cbn [run] in Hgo. destruct b as [ts|c]; cbn in Hb, Ho; cbn [beat_step] in *; unfold seen, check, late in *; cbn in *.
  - destruct p as [p|]; [case_bool_decide|]; cbn in *; (eapply Hgo; [done|done| |]); cbn.
    + destruct Hl as [? Hl]. split; [lia|]. intros ->. specialize (Hl eq_refl). lia.
    + done.
    + split; [lia|done].
    + destruct l; cbn; [|done]. destruct Hl as [? Hl]. specialize (Hl eq_refl). repeat split; auto. lia.
    + split; [lia|done].
    + subst l. done.
  - destruct p as [p|]; [destruct l; [|case_bool_decide]|]; cbn in *; (eapply Hgo; [done|done| |]); cbn; auto;
      destruct Hl as [? Hl]; try (split; [lia|]); auto; intros; try (specialize (Hl eq_refl)); lia.
Qed.

(** The changes a detector of a value or of a set emits lose nothing: replayed from the first sample they
    lead, each from the value before it, to the last sample. *)
Theorem changes_replay_signal {A : Type} `{Countable A} (v : A) (vs : list A) (w : gset A) (ws : list (gset A)) :
  replay state_apply v (omap id (run state_update None (v :: vs)).2) = Some (default v (last vs))
  /\ replay set_apply w (omap id (run set_update None (w :: ws)).2) = Some (default w (last ws)).
Proof. split; by apply replay_unknown. Qed.

(** A two-threshold alarm that was built and has seen a sample is on exactly when the last sample outside
    its dead band was on the alarm's side, or, before any such sample, when it was seeded on. *)
Theorem alarm_is_last_verdict (lo hi : Z) (d : Direction) (seed : option bool) (h : Hysteresis) (v : Z) (vs : list (option Z)) :
  new_hysteresis lo hi d seed = Ok h ->
  active (run hysteresis_update h (Some v :: vs)).1 = Some (default (default false seed) (verdict h (Some v :: vs))).
Proof.
  intros Hn. apply new_hysteresis_ok in Hn as [Hw Hh]. destruct seed as [b|]; cbn [default].
  - apply alarm_known; [done | by rewrite Hh].
  - cbn [run]. unfold hysteresis_update at 1. assert (active h = None) as -> by (by rewrite Hh).
    pose proof (alarm_known (set_active h (entering h v)) (entering h v) vs Hw eq_refl) as H.
    destruct (run hysteresis_update (set_active h (entering h v)) vs) as [h2 os]. cbn [fst] in *. rewrite H.
    change (Some v :: vs) with ([Some v] ++ vs). rewrite (verdict_app h [Some v] vs), (verdict_ext h) by done.
    destruct (verdict h vs); [done|]. unfold verdict. cbn. destruct (entering h v) eqn:E; cbn; [by rewrite E|].
    destruct (exiting h v); cbn; [by rewrite E | done].
Qed.

Lemma alarm_is_last_verdict_witness :
  active (run hysteresis_update (mkHysteresis 85 78 ABOVE None) [Some 90; Some 80; None; Some 79]%Z).1 = Some true.
Proof. rewrite (alarm_is_last_verdict 85 78 ABOVE None _ 90 [Some 80; None; Some 79]%Z); reflexivity. Defined.

(** A watchdog with a timeout that starts with nothing seen, called with times that do not go back,
    reports losses and restorations in turn, and each restoration after a gap longer than the timeout. *)
Theorem heartbeat_alternates (limit start : Z) (t : Timeout) (bs : list beat) :
  new_timeout limit None false = Ok t -> ordered start bs ->
  alternating limit None (omap id (run beat_step t bs).2).
Proof.
  unfold new_timeout. case_bool_decide; intros; simplify_eq.
  apply (beats_alternate bs (mkTimeout limit None false) start); done.
Qed.

Lemma heartbeat_alternates_witness :
  alternating 30 None (omap id (run beat_step (mkTimeout 30 None false) [Seen 0; Check 31; Check 40; Seen 45; Check 90]%Z).2)
  /\ length (omap id (run beat_step (mkTimeout 30 None false) [Seen 0; Check 31; Check 40; Seen 45; Check 90]%Z).2) = 3.
Proof.
  split; [|reflexivity].
  apply (heartbeat_alternates 30 0); [reflexivity | cbn; lia].
Defined.

End Signals.

Module RobotEvents.
Import Signals.

(** ** JSON *)

Inductive json :=
| JNull
| JBool (b : bool)
| JNum (z : option Z)                       (** [None]: not finite *)
| JStr (s : string)
| JList (l : list json)
| JObj (members : list (string * json)).

(** [d.get(k)] on a mapping; keys of a parsed object are distinct *)
Definition get (members : list (string * json)) (k : string) : json :=
  match find_first (fun p => bool_decide (p.1 = k)) members with Some p => p.2 | None => JNull end.
Definition has (members : list (string * json)) (k : string) : bool := bool_decide (k ∈ members.*1).

Definition truthy (v : json) : bool :=
  match v with
  | JNull => false | JBool b => b | JNum z => bool_decide (z <> Some 0%Z) | JStr s => bool_decide (s <> "")
  | JList l => match l with [] => false | _ => true end
  | JObj m => match m with [] => false | _ => true end
  end.

(** [_number], [_values] *)
Definition number (v : json) : option Z := match v with JNum z => z | _ => None end.
Definition values (diagnostics : list (string * json)) (collector : string) : option (list (string * json)) :=
  match get diagnostics collector with
  | JObj block => match get block "values" with JObj (x :: vs) => Some (x :: vs) | _ => None end
  | _ => None
  end.

Definition ROS_HEALTH_SOURCES : list string := ["esp32"; "gps"; "sati_pose"].
Definition JTOP_TEMPERATURES : list (string * string) := [("cpu", "cpu_temp_c"); ("gpu", "gpu_temp_c"); ("soc", "soc_temp_c")].

Section detectors.
Context (min_valid_temp : Z).               (** [_MIN_VALID_TEMP_C] in the unit of numbers *)
Context (iso : Z -> string) (parse : string -> option Z).

(** [hottest] *)
Definition hottest (diagnostics : list (string * json)) : option (Z * string) :=
  match values diagnostics "jtop" with
  | None => None
  | Some jtop =>
      foldl (fun best p =>
        match number (get jtop p.2) with
        | None => best
        | Some temp =>
            if bool_decide (temp < min_valid_temp)%Z then best
            else match best with
                 | None => Some (temp, p.1)
                 | Some (b, _) => if bool_decide (b < temp)%Z then Some (temp, p.1) else best
                 end
        end) None JTOP_TEMPERATURES
  end.

(** [stale_sources], [down_topics] *)
Definition stale_sources (diagnostics : list (string * json)) : option (gset string) :=
  match values diagnostics "ros_health" with
  | None => None
  | Some ros =>
      match List.filter (fun s => has ros (s +:+ "_stale")) ROS_HEALTH_SOURCES with
      | [] => None
      | known => Some (list_to_set (List.filter (fun s => match get ros (s +:+ "_stale") with JBool true => true | _ => false end) known))
      end
  end.
Definition topic_down (entry : json) : bool :=
  match entry with JObj m => negb (truthy (get m "exists")) || negb (truthy (get m "publishing")) | _ => true end.
Definition down_topics (diagnostics : list (string * json)) : option (gset string) :=
  match values diagnostics "topic_availability" with
  | None => None
  | Some topics => Some (list_to_set (map fst (List.filter (fun p => topic_down p.2) topics)))
  end.

(** [sorted] on strings, [_sorted], [_frozen] *)
Definition string_le (a b : string) : Prop := Is_true (String.leb a b).
#[local] Instance string_le_dec : RelDecision string_le := fun a b => _.
Definition sorted_set (s : gset string) : list string := merge_sort string_le (elements s).
Definition as_json_list (o : option (gset string)) : json :=
  match o with Some s => JList (map JStr (sorted_set s)) | None => JNull end.
Definition as_string (v : json) : option string := match v with JStr s => Some s | _ => None end.
Definition frozen (v : json) : option (gset string) :=
  match v with
  | JList l => if forallb (fun x => bool_decide (is_Some (as_string x))) l then Some (list_to_set (omap as_string l)) else None
  | _ => None
  end.

(** ** Diagnostics *)

Inductive ecode := THERMAL_HIGH | THERMAL_OK | NODE_DOWN | NODE_UP | RECOVERY_ENTERED | RECOVERY_EXITED | GOAL_BLOCKED.
Record Event := mkEvent { code : ecode; ts : Z; payload : list (string * json) }.

Record DiagnosticsDetector := mkDiagnostics {
  thermal : Hysteresis;
  sources : SetDiff string;
  topics : SetDiff string;
  sources_known : option (gset string);
  topics_known : option (gset string);
}.

(** [DiagnosticsDetector.__init__] *)
Definition new_diagnostics (high ok : Z) (thermal_high : option bool) (sources_down topics_down : option (gset string))
    : result string DiagnosticsDetector :=
  let! h := new_hysteresis high ok ABOVE thermal_high in
  Ok (mkDiagnostics h sources_down topics_down sources_down topics_down).

(** [from_latest] *)
Definition diagnostics_from_latest (high ok : Z) (latest : json) : result string DiagnosticsDetector :=
  match latest with
  | JObj m =>
      match get m "detectors" with
      | JObj state =>
          new_diagnostics high ok (match get state "thermal_high" with JBool b => Some b | _ => None end)
            (frozen (get state "sources_down")) (frozen (get state "topics_down"))
      | _ => new_diagnostics high ok None None None
      end
  | _ => new_diagnostics high ok None None None
  end.

(** [_node_events] *)
Definition node_events (t : Z) (diff : SetDiff string) (members : option (gset string)) : SetDiff string * list Event :=
  match members with
  | None => (diff, [])
  | Some m =>
      let '(diff', change) := set_update diff m in
      (diff', match change with
              | None => []
              | Some c => map (fun n => mkEvent NODE_DOWN t [("node", JStr n)]) (sorted_set (added c))
                          ++ map (fun n => mkEvent NODE_UP t [("node", JStr n)]) (sorted_set (removed c))
              end)
  end.

Record Metrics := mkMetrics {
  cpu : option Z; gpu : option Z; ram : option Z; temp_max : option Z;
  power_mw : option Z;                      (** [power_w] in milliwatts *)
  nodes_down : option nat;
}.

Definition json_num (o : option Z) : json := match o with Some z => JNum (Some z) | None => JNull end.
Definition json_bool (o : option bool) : json := match o with Some b => JBool b | None => JNull end.
Definition json_str (o : option string) : json := match o with Some s => JStr s | None => JNull end.

(** The [detectors] entry of robot_latest.diagnostics *)
Definition diagnostics_state (d : DiagnosticsDetector) : json :=
  JObj [("thermal_high", json_bool (active (thermal d))); ("sources_down", as_json_list (sources_known d));
        ("topics_down", as_json_list (topics_known d))].

Definition thermal_event (d : DiagnosticsDetector) (t : Z) (hot : option (Z * string)) (tr : option Transition) : list Event :=
  let temp := json_num (fst <$> hot) in let sensor := json_str (snd <$> hot) in
  match tr with
  | Some ENTERED => [mkEvent THERMAL_HIGH t [("temp_c", temp); ("threshold_c", JNum (Some (enter (thermal d)))); ("sensor", sensor)]]
  | Some EXITED => [mkEvent THERMAL_OK t [("temp_c", temp); ("threshold_c", JNum (Some (exit (thermal d)))); ("sensor", sensor)]]
  | None => []
  end.

(** The metrics of the row *)
Definition metrics_of (diagnostics : list (string * json)) (temp : option Z) (src tps : option (gset string)) : Metrics :=
  let host := default [] (values diagnostics "host_stats") in
  let jtop := default [] (values diagnostics "jtop") in
  mkMetrics (number (get host "cpu_percent")) (number (get jtop "gpu_percent")) (number (get host "ram_percent")) temp
    (number (get jtop "power_total_mw"))
    (match src, tps with None, None => None | _, _ => Some (size (default ∅ src ∪ default ∅ tps)) end).

(** The same with the hottest sensor, in robot_latest *)
Definition metrics_json (m : Metrics) (sensor : option string) : json :=
  JObj [("cpu", json_num (cpu m)); ("gpu", json_num (gpu m)); ("ram", json_num (ram m)); ("temp_max", json_num (temp_max m));
        ("power_w", json_num (power_mw m)); ("nodes_down", json_num (Z.of_nat <$> nodes_down m)); ("temp_sensor", json_str sensor)].

Record DiagnosticsResult := mkResult { events : list Event; row : Metrics; latest : json }.

(** [DiagnosticsDetector.update] *)
Definition diagnostics_update (d : DiagnosticsDetector) (x : Z * list (string * json)) : DiagnosticsDetector * DiagnosticsResult :=
  let '(t, diagnostics) := x in
  let hot := hottest diagnostics in
  let '(h, tr) := hysteresis_update (thermal d) (fst <$> hot) in
  let src := stale_sources diagnostics in
  let tps := down_topics diagnostics in
  let '(s1, e1) := node_events t (sources d) src in
  let '(s2, e2) := node_events t (topics d) tps in
  let d' := mkDiagnostics h s1 s2 (match src with Some _ => src | None => sources_known d end)
              (match tps with Some _ => tps | None => topics_known d end) in
  let m := metrics_of diagnostics (fst <$> hot) src tps in
  (d', mkResult (thermal_event d t hot tr ++ e1 ++ e2) m
         (JObj [("ts", JStr (iso t));
                ("metrics", metrics_json m (snd <$> hot));
                ("levels", JObj (omap (fun p => match p.2 with JObj b => Some (p.1, get b "level") | _ => None end) diagnostics));
                ("diagnostics", JObj (List.filter (fun p => negb (bool_decide (p.1 = "topic_listing"))) diagnostics));
                ("detectors", diagnostics_state d')])).

(** ** The navigation supervisor *)

Definition STATE_RECOVER : string := "RECOVER".

Record NavDetector := mkNav {
  nav_state : StateDiff string;
  nav_blocked : StateDiff bool;
  recover_since : option Z;
  recover_cause : option string;
}.

(** [NavSupervisorDetector.from_latest]; with an unreadable value it is the detector that knows nothing *)
Definition nav_from_latest (latest : json) : NavDetector :=
  match latest with
  | JObj m =>
      match get m "detectors" with
      | JObj state =>
          mkNav (as_string (get state "state"))
                (match get state "blocked" with JBool b => Some b | _ => None end)
                (match get state "recover_since" with JStr s => parse s | _ => None end)
                (as_string (get state "recover_cause"))
      | _ => mkNav None None None None
      end
  | _ => mkNav None None None None
  end.

Definition nav_state_json (d : NavDetector) : json :=
  JObj [("state", json_str (nav_state d)); ("recover_since", json_str (iso <$> recover_since d));
        ("recover_cause", json_str (recover_cause d)); ("blocked", json_bool (nav_blocked d))].

(** [str] of a JSON value that is not null, and [_blocked_detail], are arguments. *)
Context (str_of : json -> string) (blocked_detail : list (string * json) -> string).

(** [a or b] on an optional string *)
Definition or_cause (a b : option string) : option string := if falsy_str a then b else a.

(** [NavSupervisorDetector.update] *)
Definition nav_update (d : NavDetector) (x : Z * json) : NavDetector * (list Event * json) :=
  let '(t, supervisor) := x in
  let p := match supervisor with JObj m => m | _ => [] end in
  let cause := match get p "last_drive_cause" with JNull => None | v => Some (str_of v) end in
  let '(d1, e1) :=
    match get p "state" with
    | JStr st =>
        let '(s', change) := state_update (nav_state d) st in
        match change with
        | Some c =>
            if bool_decide (new c = STATE_RECOVER) then
              (mkNav s' (nav_blocked d) (Some t) cause, [mkEvent RECOVERY_ENTERED t [("cause", json_str cause)]])
            else if bool_decide (old c = STATE_RECOVER) then
              let duration := match recover_since d with
                              | Some r => if bool_decide (r <= t)%Z then Some (t - r)%Z else None
                              | None => None
                              end in
              (mkNav s' (nav_blocked d) None None,
               [mkEvent RECOVERY_EXITED t [("cause", json_str (or_cause (recover_cause d) cause)); ("duration_s", json_num duration)]])
            else (mkNav s' (nav_blocked d) (recover_since d) (recover_cause d), [])
        | None => (mkNav s' (nav_blocked d) (recover_since d) (recover_cause d), [])
        end
    | _ => (d, [])
    end in
  let '(d2, e2) :=
    match get p "blocked_pending" with
    | JBool b =>
        let '(s', change) := state_update (nav_blocked d1) b in
        (mkNav (nav_state d1) s' (recover_since d1) (recover_cause d1),
         match change with
         | Some c => if bool_decide (new c = true)
                     then [mkEvent GOAL_BLOCKED t [("cause", JStr (or_str cause "UNATTRIBUTED")); ("detail", JStr (blocked_detail p))]]
                     else []
         | None => []
         end)
    | _ => (d1, [])
    end in
  (d2, (e1 ++ e2, JObj [("ts", JStr (iso t)); ("supervisor", JObj p); ("detectors", nav_state_json d2)])).

(** ** Failover *)

Lemma sorted_set_back (s : gset string) : list_to_set (sorted_set s) = s.
Proof.
  apply leibniz_equiv. intros x. unfold sorted_set. rewrite elem_of_list_to_set, merge_sort_Permutation, elem_of_elements. done.
Qed.

Lemma frozen_back (o : option (gset string)) : frozen (as_json_list o) = o.
Proof.
  destruct o as [s|]; [|done]. cbn.
  assert (forallb (fun x => bool_decide (is_Some (as_string x))) (map JStr (sorted_set s)) = true) as ->.
  { apply forallb_forall. intros x Hx. apply in_map_iff in Hx as (y & <- & _). apply bool_decide_eq_true. cbn. eauto. }
  assert (omap as_string (map JStr (sorted_set s)) = sorted_set s) as ->.
  { induction (sorted_set s) as [|x l IH]; [done|]. cbn. by rewrite IH. }
  by rewrite sorted_set_back.
Qed.

(** What holds of a detector with these thresholds: what it stores is what it knows. *)
Definition consistent (high ok : Z) (d : DiagnosticsDetector) : Prop :=
  (ok < high)%Z /\ sources d = sources_known d /\ topics d = topics_known d
  /\ enter (thermal d) = high /\ exit (thermal d) = ok /\ direction (thermal d) = ABOVE.

Lemma node_events_known t diff m : (node_events t diff m).1 = match m with Some _ => m | None => diff end.
Proof. by destruct m. Qed.

Lemma hysteresis_fixed h v :
  enter (hysteresis_update h v).1 = enter h /\ exit (hysteresis_update h v).1 = exit h
  /\ direction (hysteresis_update h v).1 = direction h.
Proof. unfold hysteresis_update. repeat case_match; done. Qed.

Lemma update_consistent high ok d x : consistent high ok d -> consistent high ok (diagnostics_update d x).1.
Proof.
  intros (Ho & Hs & Ht & He & Hx & Hd). destruct x as [t g]. unfold diagnostics_update.
  pose proof (hysteresis_fixed (thermal d) (fst <$> hottest g)) as (F1 & F2 & F3).
  pose proof (node_events_known t (sources d) (stale_sources g)) as N1.
  pose proof (node_events_known t (topics d) (down_topics g)) as N2.
  destruct (hysteresis_update _ _), (node_events t (sources d) _), (node_events t (topics d) _). cbn in *.
  unfold consistent. cbn. subst. rewrite F1, F2, F3, Hs, Ht. done.
Qed.

Lemma stored_state high ok d a b c e :
  diagnostics_from_latest high ok (JObj [("ts", a); ("metrics", b); ("levels", c); ("diagnostics", e); ("detectors", diagnostics_state d)])
  = new_diagnostics high ok (active (thermal d)) (sources_known d) (topics_known d).
Proof.
  transitivity (new_diagnostics high ok (active (thermal d)) (frozen (as_json_list (sources_known d)))
                  (frozen (as_json_list (topics_known d)))); [|by rewrite !frozen_back].
  unfold diagnostics_from_latest, diagnostics_state. destruct (active (thermal d)) as [[]|]; reflexivity.
Qed.

Lemma update_latest high ok d x :
  consistent high ok d -> diagnostics_from_latest high ok (latest (diagnostics_update d x).2) = Ok (diagnostics_update d x).1.
Proof.
  intros Hc. pose proof (update_consistent high ok d x Hc) as (Ho & Hs & Ht & He & Hx & Hd). destruct x as [t g].
  unfold diagnostics_update in *. destruct (hysteresis_update _ _) as [h tr], (node_events t (sources d) _), (node_events t (topics d) _).
  cbn [fst snd latest] in *. rewrite stored_state. cbn in *. unfold new_diagnostics, new_hysteresis. rewrite bool_decide_eq_true_2 by lia. cbn.
  subst. destruct h as [en ex di ac]; cbn in *. subst di. by destruct ac.
Qed.

Lemma from_latest_consistent high ok l d : diagnostics_from_latest high ok l = Ok d -> consistent high ok d.
Proof.
  unfold diagnostics_from_latest, new_diagnostics, new_hysteresis, consistent.
  repeat case_match; cbn; intros; simplify_eq/=; bprop; auto 10.
Qed.

Section nav.
Context (iso_parse : forall t, parse (iso t) = Some t).

Lemma nav_latest d x : nav_from_latest (nav_update d x).2.2 = (nav_update d x).1.
Proof.
  assert (forall d t p, nav_from_latest (JObj [("ts", JStr (iso t)); ("supervisor", JObj p); ("detectors", nav_state_json d)]) = d) as H.
  { intros [st bl since cause] t p. transitivity (mkNav (as_string (json_str st)) (match json_bool bl with JBool b => Some b | _ => None end)
        (match json_str (iso <$> since) with JStr s => parse s | _ => None end) (as_string (json_str cause))); [reflexivity|].
    destruct st, bl, since, cause; cbn; rewrite ?iso_parse; done. }
  destruct x as [t s]. unfold nav_update. repeat case_match; cbn [fst snd]; apply H.
Qed.
End nav.

(** ** Recoveries *)

(** The recovery events of a stream, given the recovery it starts in: entries and exits in turn, each exit
    with the duration since its entry (when the clock did not go back) and the cause of the entry *)
Definition recovery (e : Event) : bool := match code e with RECOVERY_ENTERED | RECOVERY_EXITED => true | _ => false end.
Fixpoint paired (since : option (Z * option string)) (es : list Event) : Prop :=
  match es with
  | [] => True
  | e :: es =>
      match code e, since with
      | RECOVERY_ENTERED, None => exists cause, payload e = [("cause", json_str cause)] /\ paired (Some (ts e, cause)) es
      | RECOVERY_EXITED, Some (t0, c0) =>
          (exists cause, payload e = [("cause", json_str (or_cause c0 cause));
                                      ("duration_s", json_num (if bool_decide (t0 <= ts e)%Z then Some (ts e - t0)%Z else None))])
          /\ paired None es
      | _, _ => False
      end
  end.

(** The recovery a detector is in, for one that has seen its start *)
Definition in_recovery (d : NavDetector) (since : option (Z * option string)) : Prop :=
  match since with
  | None => exists st, nav_state d = Some st /\ st <> STATE_RECOVER
  | Some (t, c) => nav_state d = Some STATE_RECOVER /\ recover_since d = Some t /\ recover_cause d = c
  end.

(** One update gives at most one recovery event, and it is the one [paired] expects. *)
Lemma nav_step_paired d x since :
  in_recovery d since ->
  exists since', in_recovery (nav_update d x).1 since'
    /\ forall es, paired since' es -> paired since (List.filter recovery (nav_update d x).2.1 ++ es).
Proof.
  intros Hd. destruct x as [t sup]. unfold nav_update.
  set (p := match sup with JObj m => m | _ => [] end).
  set (cause := match get p "last_drive_cause" with JNull => None | v => Some (str_of v) end).
  match goal with |- context [let '(d1, e1) := ?E in _] => set (first := E) end.
  assert (exists since', in_recovery first.1 since' /\ forall es, paired since' es -> paired since (List.filter recovery first.2 ++ es)) as H1.
  { subst first. destruct (get p "state") as [| | |st| |]; try (exists since; by split; [|intros; cbn]).
    unfold state_update. destruct since as [[t0 c0]|]; cbn in Hd.
    - destruct Hd as (Hs & Hr & Hc). rewrite Hs. case_decide as Hst.
      + subst st. exists (Some (t0, c0)). done.
      + cbn. rewrite bool_decide_eq_false_2 by done. rewrite bool_decide_eq_true_2 by done. exists None. split; [cbn; eauto|].
        intros es He. rewrite Hr, Hc. cbn. split; [|done]. exists cause. done.
    - destruct Hd as (s0 & Hs & Hne). rewrite Hs. case_decide as Hst.
      + subst st. exists None. split; [cbn; eauto | done].
      + cbn. case_bool_decide as Hn; [subst st|rewrite bool_decide_eq_false_2 by done].
        * exists (Some (t, cause)). split; [done|]. intros es He. cbn. exists cause. done.
        * exists None. split; [cbn; eauto | done]. }
  clearbody first. destruct first as [d1 e1]; cbn in H1. destruct H1 as (since' & Hd1 & He1). exists since'.
  destruct (get p "blocked_pending") as [|b| | | |]; cbn; rewrite ?app_nil_r; auto.
  split.
  - unfold in_recovery in *. by destruct since' as [[]|].
  - intros es He. rewrite List.filter_app, <-app_assoc. apply He1. unfold state_update. repeat case_match; done.
Qed.

Lemma nav_run_paired xs d since :
  in_recovery d since -> paired since (List.filter recovery (concat (map fst (run nav_update d xs).2))).
Proof.
  revert d since. induction xs as [|x xs IH]; intros d since Hd; [done|]. cbn [run].
  destruct (nav_step_paired d x since Hd) as (since' & Hd' & He). destruct (nav_update d x) as [d' [es l]]; cbn [fst snd] in *.
  specialize (IH d' since' Hd'). destruct (run nav_update d' xs) as [d2 os]. cbn [fst snd map concat] in *.
  rewrite List.filter_app. by apply He.
Qed.

End detectors.

(** C36: a detector seeded from what its predecessor stored with its last update goes on exactly as the
    predecessor would have: the same events, rows and stored values for every stream of later messages. *)
Theorem failover_transparent (min_temp high ok : Z) (iso : Z -> string) (parse : string -> option Z)
    (str_of : json -> string) (detail : list (string * json) -> string)
    (l : json) (d : DiagnosticsDetector) (xs : list (Z * list (string * json))) (r : DiagnosticsResult)
    (n : NavDetector) (ns : list (Z * json)) (q : list Event * json) :
  (forall t, parse (iso t) = Some t) ->
  diagnostics_from_latest high ok l = Ok d -> last (run (diagnostics_update min_temp iso) d xs).2 = Some r ->
  last (run (nav_update iso str_of detail) n ns).2 = Some q ->
  (exists d', diagnostics_from_latest high ok (latest r) = Ok d'
     /\ forall ys, run (diagnostics_update min_temp iso) d' ys
                   = run (diagnostics_update min_temp iso) (run (diagnostics_update min_temp iso) d xs).1 ys)
  /\ (forall ys, run (nav_update iso str_of detail) (nav_from_latest parse q.2) ys
                 = run (nav_update iso str_of detail) (run (nav_update iso str_of detail) n ns).1 ys).
Proof.
  intros Hp Hd Hr Hq. split.
  - exists (run (diagnostics_update min_temp iso) d xs).1. split; [|done]. apply from_latest_consistent in Hd.
    destruct (run_last_step _ (consistent high ok) d xs r (update_consistent min_temp iso high ok) Hd Hr) as (d' & x & Hc & Hs).
    pose proof (update_latest min_temp iso high ok d' x Hc) as H. by rewrite Hs in H.
  - intros ys. destruct (run_last_step _ (fun _ => True) n ns q (fun _ _ _ => I) I Hq) as (n' & x & _ & Hs).
    pose proof (nav_latest iso parse str_of detail Hp n' x) as H. rewrite Hs in H. cbn in H. by rewrite H.
Qed.

(** From a detector that last saw another state, every stream of supervisor messages gives recoveries as
    entry and exit in turn, each exit with the duration since its own entry and the cause of that entry. *)
Theorem recoveries_paired (iso : Z -> string) (str_of : json -> string) (detail : list (string * json) -> string)
    (n : NavDetector) (st : string) (xs : list (Z * json)) :
  nav_state n = Some st -> st <> STATE_RECOVER ->
  paired None (List.filter recovery (concat (map fst (run (nav_update iso str_of detail) n xs).2))).
Proof. intros Hs Hne. apply nav_run_paired. cbn. eauto. Qed.

Definition nav_message (st : string) : json := JObj [("state", JStr st); ("last_drive_cause", JStr "stuck")].
Definition diag_message (temp : Z) : list (string * json) :=
  [("jtop", JObj [("level", JNum (Some 0%Z)); ("values", JObj [("cpu_temp_c", JNum (Some temp))])]);
   ("ros_health", JObj [("values", JObj [("gps_stale", JBool true)])])].

(** A concrete pair of conversions *)
Fixpoint marks (n : nat) : string := match n with 0 => "" | S n => "x" +:+ marks n end.
Definition sample_iso (t : Z) : string := (if bool_decide (t < 0)%Z then "-" else "+") +:+ marks (Z.abs_nat t).
Definition sample_parse (s : string) : option Z :=
  match s with
  | String c s => Some (if bool_decide (String c EmptyString = "-") then - Z.of_nat (String.length s) else Z.of_nat (String.length s))%Z
  | EmptyString => None
  end.

Lemma sample_round_trip t : sample_parse (sample_iso t) = Some t.
Proof.
  assert (forall n, String.length (marks n) = n) as Hm.
  { induction n as [|n IH]; [done|]. exact (f_equal S IH). }
  unfold sample_iso. case_bool_decide.
  - change (Some (- Z.of_nat (String.length (marks (Z.abs_nat t))))%Z = Some t). rewrite Hm. f_equal. lia.
  - change (Some (Z.of_nat (String.length (marks (Z.abs_nat t)))) = Some t). rewrite Hm. f_equal. lia.
Qed.

Lemma failover_transparent_witness :
  let up := diagnostics_update (-100) sample_iso in
  let nav := nav_update sample_iso (fun _ => "stuck") (fun _ => "") in
  let d := mkDiagnostics (mkHysteresis 85 78 ABOVE None) None None None None in
  exists r q d', last (run up d [(1, diag_message 70); (2, diag_message 90)]%Z).2 = Some r
    /\ last (run nav (mkNav None None None None) [(5, nav_message "DRIVE"); (6, nav_message "RECOVER")]%Z).2 = Some q
    /\ diagnostics_from_latest 85 78 (latest r) = Ok d'
    /\ run nav (nav_from_latest sample_parse q.2) [(9, nav_message "DRIVE")]%Z
       = run nav (run nav (mkNav None None None None) [(5, nav_message "DRIVE"); (6, nav_message "RECOVER")]%Z).1 [(9, nav_message "DRIVE")]%Z.
Proof.
  intros up nav d. do 2 eexists.
  destruct (failover_transparent (-100) 85 78 sample_iso sample_parse (fun _ => "stuck") (fun _ => "") JNull d
              [(1, diag_message 70); (2, diag_message 90)]%Z _ (mkNav None None None None)
              [(5, nav_message "DRIVE"); (6, nav_message "RECOVER")]%Z _ sample_round_trip eq_refl eq_refl eq_refl) as [(d' & H1 & _) H2].
  exists d'. split; [reflexivity|]. split; [reflexivity|]. split; [exact H1 | apply H2].
Defined.

Lemma recoveries_paired_witness :
  let es := List.filter recovery (concat (map fst (run (nav_update (fun _ => "") (fun _ => "stuck") (fun _ => ""))
              (mkNav (Some "DRIVE") None None None)
              [(5, nav_message "RECOVER"); (6, nav_message "RECOVER"); (9, nav_message "DRIVE")]%Z).2)) in
  paired None es /\ length es = 2.
Proof.
  intros es. split; [|vm_compute; reflexivity].
  apply (recoveries_paired _ _ _ _ "DRIVE"); [reflexivity | discriminate].
Defined.

End RobotEvents.
