(* ===== verification/Idempotency.v ===== *)
(** * Idempotency keys of the API (packages/api/idempotency.py)

    The middleware that runs a side-effecting route once per key. The table [idempotency_keys] is a finite
    map (the actor is always the empty one); each of its SQL statements is an atomic step on it, a request
    is the coroutine of [__call__] and [_run] cut at its awaits, and any number of requests of any number
    of workers interleave. A statement can fail, with or without having been applied, and a worker can die.
    [now()] is the time of the transaction and never goes back. The hash of a request is an argument of the
    model, and so is starlette's matching of a path against a route template. Times are seconds; [ran] and
    [answers] are history: the runs of routes with what they answered.

    What is shown: what a request is replayed is what a run of the same key and the same request answered;
    a stored answer is final until it expires; two requests with one key never run at the same time while
    runs end within their lease; and what a run that outlives its lease can do. *)

From S2P Require Import Prelude.
Local Open Scope string_scope.
Local Open Scope list_scope.

Notation rkey := (string * string)%type.      (** the key and the route *)
Notation reply := (nat * nat)%type.           (** a status and a JSON body *)

Record Row := mkRow {
  request_hash : string;
  response : option reply;                    (** [completed_at] is set exactly when there is one *)
  created_at : Z;
}.
Notation table := (gmap (string * string) Row).

Definition MAX_KEY_LENGTH : nat := 255.
Definition LONG_LEASE_ROUTES : list string := ["POST /api/v1/maps/{map_id}/sessions"].
Definition GUARDED_ROUTES : list (string * string) :=
  [("POST", "/api/v1/missions"); ("POST", "/api/v1/missions/{mission_name}/cancel"); ("POST", "/api/v1/navigate");
   ("POST", "/api/v1/navigate/waypoints"); ("POST", "/api/v1/robots/{robot_name}/actions");
   ("POST", "/api/v1/robots/{robot_name}/cancel-order"); ("POST", "/api/v1/map/load"); ("DELETE", "/api/v1/maps/{map_id}");
   ("POST", "/api/v1/maps"); ("POST", "/api/v1/maps/{map_id}/sessions"); ("DELETE", "/api/v1/missions/{mission_name}");
   ("POST", "/api/v1/runs/archive")].

Section store.
Context (ttl lease long_lease : Z).

(** [lease_for] *)
Definition lease_for (route : string) : Z := if bool_decide (route ∈ LONG_LEASE_ROUTES) then long_lease else lease.

(** ** The statements *)

(** Whether [CLAIM_SQL] overwrites a row *)
Definition takes_over (now : Z) (k : rkey) (h : string) (r : Row) : bool :=
  bool_decide (created_at r < now - ttl)%Z
  || (bool_decide (response r = None) && bool_decide (request_hash r = h) && bool_decide (created_at r < now - lease_for k.2)%Z).

(** [CLAIM_SQL]: the table after it and whether it returned a row *)
Definition claim_sql (t : table) (now : Z) (k : rkey) (h : string) : table * bool :=
  match t !! k with
  | None => (<[k := mkRow h None now]> t, true)
  | Some r => if takes_over now k h r then (<[k := mkRow h None now]> t, true) else (t, false)
  end.

(** [COMPLETE_SQL] and [RELEASE_SQL], which touch only an unfinished row of this request *)
Definition complete_sql (t : table) (k : rkey) (h : string) (a : reply) : table :=
  match t !! k with
  | Some r => if bool_decide (request_hash r = h) && bool_decide (response r = None)
              then <[k := mkRow h (Some a) (created_at r)]> t else t
  | None => t
  end.
Definition release_sql (t : table) (k : rkey) (h : string) : table :=
  match t !! k with
  | Some r => if bool_decide (request_hash r = h) && bool_decide (response r = None) then delete k t else t
  | None => t
  end.

(** [PURGE_SQL] *)
Definition purge_sql (t : table) (now : Z) : table := filter (fun p => ~ (created_at p.2 < now - ttl)%Z) t.

(** ** Requests *)

Inductive outcome :=
| Replayed (a : reply)
| Mismatch                                   (** 422 *)
| InProgress                                 (** 409 *)
| Unavailable                                (** 503 *)
| Answered (a : option reply)                (** the route ran: its response, if it had a stored one *)
| Died.

Inductive phase :=
| Claiming (pass : nat)
| Looking (pass : nat)
| Running (since : Z)
| Completing (since : Z) (a : reply)
| Releasing (since : Z) (a : option reply)
| Done (o : outcome).

Record Req := mkReq { q_key : rkey; q_hash : string; q_phase : phase }.

Record System := mkSystem {
  rows : table;
  reqs : list Req;
  clock : Z;
  ran : list (nat * rkey);                   (** the requests whose route was run, and their key *)
  answers : list (rkey * string * reply);    (** what runs answered *)
}.

(** How [self.app] ended: an exception, or a response with its status (if one was sent), whether it is JSON,
    and its body if it parses *)
Inductive app_end := Raised | Responded (status : option nat) (json : bool) (body : option nat).

(** What [_run] does then: the answer to store, if any *)
Definition to_store (e : app_end) : option reply :=
  match e with
  | Responded (Some status) true (Some body) => if bool_decide (status < 500) then Some (status, body) else None
  | _ => None
  end.

(** A statement is executed, fails without effect, or fails after it was applied. *)
Inductive db := DbOk | DbFailed (applied : bool).

(** The [for _ in range(2)] of [claim]: after pass [n] *)
Definition next_pass (n : nat) : phase := if bool_decide (n < 1) then Claiming (S n) else Done InProgress.

(** The reading of a row found by [LOOKUP_SQL] *)
Definition read_row (r : Row) (h : string) : outcome :=
  if negb (bool_decide (request_hash r = h)) then Mismatch
  else match response r with None => InProgress | Some a => Replayed a end.

Definition set_req (s : System) (t : table) (i : nat) (q : Req) (p : phase) : System :=
  mkSystem t (<[i := mkReq (q_key q) (q_hash q) p]> (reqs s)) (clock s) (ran s) (answers s).

Inductive event :=
| Arrive (k : rkey) (h : string)
| Claim (i : nat) (d : db)
| Lookup (i : nat) (d : db)
| RouteEnds (i : nat) (e : app_end)
| Store (i : nat) (d : db)                   (** [complete], in [_run] *)
| Release (i : nat) (d : db)
| Purge
| Die (i : nat)
| Tick (now : Z).

Definition applied (d : db) : bool := match d with DbOk => true | DbFailed a => a end.

Definition step (s : System) (e : event) : System :=
  match e with
  | Arrive k h => mkSystem (rows s) (reqs s ++ [mkReq k h (Claiming 0)]) (clock s) (ran s) (answers s)
  | Tick now => mkSystem (rows s) (reqs s) (Z.max now (clock s)) (ran s) (answers s)
  | Purge => mkSystem (purge_sql (rows s) (clock s)) (reqs s) (clock s) (ran s) (answers s)
  | Claim i d =>
      match reqs s !! i with
      | Some (mkReq k h (Claiming n) as q) =>
          let '(t, got) := claim_sql (rows s) (clock s) k h in
          match d with
          | DbOk =>
              if got then
                let s' := set_req s t i q (Running (clock s)) in
                mkSystem (rows s') (reqs s') (clock s') (ran s ++ [(i, k)]) (answers s')
              else set_req s t i q (Looking n)
          | DbFailed a => set_req s (if a then t else rows s) i q (Done Unavailable)
          end
      | _ => s
      end
  | Lookup i d =>
      match reqs s !! i with
      | Some (mkReq k h (Looking n) as q) =>
          match d with
          | DbOk => match rows s !! k with
                    | None => set_req s (rows s) i q (next_pass n)
                    | Some r => set_req s (rows s) i q (Done (read_row r h))
                    end
          | DbFailed _ => set_req s (rows s) i q (Done Unavailable)
          end
      | _ => s
      end
  | RouteEnds i e =>
      match reqs s !! i with
      | Some (mkReq k h (Running since) as q) =>
          match to_store e with
          | Some a =>
              let s' := set_req s (rows s) i q (Completing since a) in
              mkSystem (rows s') (reqs s') (clock s') (ran s') (answers s' ++ [(k, h, a)])
          | None => set_req s (rows s) i q (Releasing since None)
          end
      | _ => s
      end
  | Store i d =>
      match reqs s !! i with
      | Some (mkReq k h (Completing since a) as q) =>
          let t := if applied d then complete_sql (rows s) k h a else rows s in
          match d with
          | DbOk => set_req s t i q (Done (Answered (Some a)))
          | DbFailed _ => set_req s t i q (Releasing since (Some a))
          end
      | _ => s
      end
  | Release i d =>
      match reqs s !! i with
      | Some (mkReq k h (Releasing since a) as q) =>
          set_req s (if applied d then release_sql (rows s) k h else rows s) i q (Done (Answered a))
      | _ => s
      end
  | Die i =>
      match reqs s !! i with
      | Some q => match q_phase q with Done _ => s | _ => set_req s (rows s) i q (Done Died) end
      | None => s
      end
  end.

Definition new_system : System := mkSystem ∅ [] 0 [] [].

(** ** The middleware's entry *)

Inductive entry := PassThrough | BadKey | Disconnected | NoStore | Keyed (k : rkey).

(** [match] *)
Definition match_route (matches : string -> string -> bool) (method path : string) : option string :=
  match find_first (fun r => bool_decide (r.1 = method) && matches r.2 path) GUARDED_ROUTES with
  | Some r => Some (method +:+ " " +:+ r.2)
  | None => None
  end.

(** [__call__] up to the claim: the value of the Idempotency-Key header (decoded and stripped by [strip]), if
    any, the body, if the client stayed, and whether the store is up *)
Definition enter (matches : string -> string -> bool) (strip : string -> string) (http : bool) (method path : string)
    (header : option string) (body : option string) (store_up : bool) : entry :=
  if negb http then PassThrough
  else match header with
       | None => PassThrough
       | Some raw =>
           if bool_decide (raw = "") then PassThrough
           else match match_route matches method path with
                | None => PassThrough
                | Some route =>
                    let key := strip raw in
                    if bool_decide (key = "") || bool_decide (MAX_KEY_LENGTH < String.length key) then BadKey
                    else match body with
                         | None => Disconnected
                         | Some _ => if store_up then Keyed (key, route) else NoStore
                         end
                end
       end.

(** [_maybe_purge]: whether it purges, and [_last_purge] after it *)
Definition maybe_purge (interval : Z) (last : option Z) (now : Z) : bool * option Z :=
  match last with
  | Some l => if bool_decide (now - l < interval)%Z then (false, last) else (true, Some now)
  | None => (true, Some now)
  end.

(** ** Reading a step *)

(** Every step of a request is one replacement of it. *)
Lemma set_req_lookup s t i q p j :
  reqs (set_req s t i q p) !! j = if bool_decide (i = j) then (if bool_decide (i < length (reqs s)) then Some (mkReq (q_key q) (q_hash q) p) else None) else reqs s !! j.
Proof.
  unfold set_req; cbn. case_bool_decide; subst.
  - case_bool_decide.
    + apply list_lookup_insert_eq; lia.
    + apply lookup_ge_None_2. rewrite length_insert. lia.
  - apply list_lookup_insert_ne; auto.
Qed.

Lemma set_req_split s t i q p j q' :
  reqs (set_req s t i q p) !! j = Some q' ->
  (j = i /\ q' = mkReq (q_key q) (q_hash q) p) \/ (j <> i /\ reqs s !! j = Some q').
Proof. rewrite set_req_lookup. repeat case_bool_decide; intros; simplify_eq; auto. Qed.

(** What a statement leaves in the table: a stored answer is never changed, only removed or added. *)
Lemma claim_stored t now k h k' r :
  (claim_sql t now k h).1 !! k' = Some r -> is_Some (response r) -> t !! k' = Some r.
Proof.
  unfold claim_sql. destruct (decide (k = k')) as [->|].
  - destruct (t !! k') eqn:E; [destruct (takes_over _ _ _ _)|]; cbn; rewrite ?lookup_insert_eq; intros Hk [? Hr];
      simplify_eq/=; congruence.
  - destruct (t !! k); [destruct (takes_over _ _ _ _)|]; cbn; rewrite ?lookup_insert_ne; auto.
Qed.

Lemma complete_stored t k h a k' r :
  complete_sql t k h a !! k' = Some r ->
  t !! k' = Some r \/ (k' = k /\ request_hash r = h /\ response r = Some a).
Proof.
  unfold complete_sql. destruct (t !! k); [destruct (_ && _)|]; auto. intros Hk.
  destruct (decide (k = k')) as [->|].
  - rewrite lookup_insert_eq in Hk. simplify_eq/=. auto.
  - rewrite lookup_insert_ne in Hk by done. auto.
Qed.

Lemma release_stored t k h k' r : release_sql t k h !! k' = Some r -> t !! k' = Some r.
Proof. unfold release_sql. destruct (t !! k); [destruct (_ && _)|]; auto. intros H. by apply lookup_delete_Some in H as [_ ?]. Qed.

Lemma purge_stored t now k r : purge_sql t now !! k = Some r -> t !! k = Some r.
Proof. unfold purge_sql. intros H. by apply map_lookup_filter_Some in H as [? _]. Qed.

(** Case analysis on a step: which request it moves, and in which phase that was *)
Ltac step_cases s e :=
  destruct e as [k h|i d|i d|i e|i d|i d| |i|now]; cbn [step];
  try (destruct (reqs s !! i) as [[k h []]|] eqn:Hi; cbn [q_phase]; auto).

(** ** Replays *)

Definition backed (s : System) (q : Req) : Prop :=
  match q_phase q with
  | Completing _ a | Done (Replayed a) => (q_key q, q_hash q, a) ∈ answers s
  | _ => True
  end.

Definition answered (s : System) : Prop :=
  (forall k r a, rows s !! k = Some r -> response r = Some a -> (k, request_hash r, a) ∈ answers s)
  /\ (forall i q, reqs s !! i = Some q -> backed s q).

(** A step of one request keeps it, when its new phase and the new table are backed. *)
Lemma answered_set s t i q p :
  answered s -> backed s (mkReq (q_key q) (q_hash q) p) ->
  (forall k r a, t !! k = Some r -> response r = Some a ->
     rows s !! k = Some r \/ (k, request_hash r, a) ∈ answers s) ->
  answered (set_req s t i q p).
Proof.
  intros [H1 H2] Hp Ht. split.
  - intros k r a Hr Ha. destruct (Ht k r a Hr Ha); eauto.
  - intros j q' Hq. apply set_req_split in Hq as [[-> ->]|[_ Hq]]; [exact Hp | exact (H2 _ _ Hq)].
Qed.

Lemma answered_more s x : answered s -> answered (mkSystem (rows s) (reqs s) (clock s) x.1 (answers s ++ x.2)).
Proof.
  intros [H1 H2]. split; cbn.
  - intros. apply elem_of_app. eauto.
  - intros j q Hq. specialize (H2 j q Hq). unfold backed in *. cbn.
    destruct (q_phase q) as [| | | | |[]]; auto; apply elem_of_app; auto.
Qed.

Lemma backed_read s k r h :
  answered s -> rows s !! k = Some r -> backed s (mkReq k h (Done (read_row r h))).
Proof.
  intros [H1 _] Hr. unfold read_row, backed. cbn. split_all; bprop; auto.
Qed.

Lemma answered_step s e : answered s -> answered (step s e).
Proof.
  intros Ha. step_cases s e.
  - destruct Ha as [H1 H2]. split; [exact H1|]. intros i q Hq. cbn in Hq.
    apply lookup_app_Some in Hq as [Hq|[_ Hq]]; [exact (H2 i q Hq)|].
    apply list_lookup_singleton_Some in Hq as [_ <-]. exact I.
  - pose proof (claim_stored (rows s) (clock s) k h) as Hc. destruct (claim_sql _ _ _ _) as [t got]; cbn in Hc.
    assert (forall p, backed s (mkReq k h p) -> answered (set_req s t i (mkReq k h (Claiming pass)) p)) as Hset.
    { intros p Hp. apply answered_set; eauto. }
    destruct d as [|[]]; [destruct got| |].
    + pose proof (answered_more _ (ran s ++ [(i, k)], []) (Hset (Running (clock s)) I)) as H. cbn in H. by rewrite app_nil_r in H.
    + by apply Hset.
    + by apply Hset.
    + apply answered_set; auto; exact I.
  - destruct d; [destruct (rows s !! k) eqn:Hr|]; apply answered_set; auto; try exact I.
    + exact (backed_read s k _ h Ha Hr).
    + unfold next_pass, backed. cbn. by split_all.
  - destruct (to_store e) as [a|]; [|apply answered_set; auto; exact I].
    apply (answered_more s (ran s, [(k, h, a)])) in Ha. cbn in Ha.
    apply (answered_set _ (rows s) i (mkReq k h (Running since)) (Completing since a)) in Ha; [exact Ha| |auto].
    unfold backed. cbn. apply elem_of_app. right. by apply list_elem_of_singleton.
  - assert (Hk : (k, h, a) ∈ answers s) by exact (proj2 Ha _ _ Hi).
    assert (forall k' r b, (if applied d then complete_sql (rows s) k h a else rows s) !! k' = Some r -> response r = Some b ->
              rows s !! k' = Some r \/ (k', request_hash r, b) ∈ answers s) as Ht.
    { intros k' r b Hr Hb. destruct (applied d); [|by left].
      apply complete_stored in Hr as [?|(-> & <- & ?)]; [by left | right; simplify_eq; exact Hk]. }
    destruct d; apply answered_set; auto; exact I.
  - apply answered_set; auto; try exact I. intros k' r b Hr Hb. left. destruct (applied d); eauto using release_stored.
  - split; [|exact (proj2 Ha)]. cbn. intros k r a Hr. apply purge_stored in Hr. exact (proj1 Ha k r a Hr).
  - apply answered_set; auto; exact I.
  - apply answered_set; auto; exact I.
  - apply answered_set; auto; exact I.
  - apply answered_set; auto; exact I.
  - apply answered_set; auto; exact I.
  - exact Ha.
Qed.

(** ** Stored answers *)

(** The runs of a key *)
Definition runs_of (k : rkey) (s : System) : list (nat * rkey) := filter (fun p => p.2 = k) (ran s).

Lemma clock_step s e : (clock s <= clock (step s e))%Z.
Proof. step_cases s e; cbn; split_all; lia. Qed.

Lemma clock_run s es : (clock s <= clock (foldl step s es))%Z.
Proof.
  revert s. induction es as [|e es IH]; intros s; cbn; [lia|].
  pose proof (clock_step s e). specialize (IH (step s e)). lia.
Qed.

Lemma not_taken_over now k h r :
  is_Some (response r) -> (now <= created_at r + ttl)%Z -> takes_over now k h r = false.
Proof.
  intros [a Ha] Hn. unfold takes_over. rewrite Ha. repeat (rewrite bool_decide_eq_false_2 by (done || lia)). done.
Qed.

(** No statement touches a stored answer that has not expired, and no claim of its key succeeds. *)
Lemma stored_claim t now k h k' r :
  t !! k = Some r -> is_Some (response r) -> (now <= created_at r + ttl)%Z ->
  (claim_sql t now k' h).1 !! k = Some r /\ ((claim_sql t now k' h).2 = true -> k' <> k).
Proof.
  intros Hr Ha Hn. unfold claim_sql. destruct (decide (k' = k)) as [->|].
  - rewrite Hr, not_taken_over by done. done.
  - split; [|done]. destruct (t !! k'); [destruct (takes_over _ _ _ _)|]; cbn; by rewrite ?lookup_insert_ne.
Qed.

Lemma stored_complete t k h k' r a :
  t !! k = Some r -> is_Some (response r) -> complete_sql t k' h a !! k = Some r.
Proof.
  intros Hr [b Hb]. unfold complete_sql. destruct (decide (k' = k)) as [->|].
  - rewrite Hr, Hb, andb_false_r. done.
  - destruct (t !! k'); [destruct (_ && _)|]; by rewrite ?lookup_insert_ne.
Qed.

Lemma stored_release t k h k' r :
  t !! k = Some r -> is_Some (response r) -> release_sql t k' h !! k = Some r.
Proof.
  intros Hr [b Hb]. unfold release_sql. destruct (decide (k' = k)) as [->|].
  - rewrite Hr, Hb, andb_false_r. done.
  - destruct (t !! k'); [destruct (_ && _)|]; by rewrite ?lookup_delete_ne.
Qed.

Lemma stored_step s e k r :
  rows s !! k = Some r -> is_Some (response r) -> (clock (step s e) <= created_at r + ttl)%Z ->
  rows (step s e) !! k = Some r /\ runs_of k (step s e) = runs_of k s.
Proof.
  intros Hr Ha Hn. assert (Hc : (clock s <= created_at r + ttl)%Z) by (pose proof (clock_step s e); lia).
  clear Hn. unfold runs_of.
  destruct e as [k' h|i d|i d|i e|i d|i d| |i|now]; cbn [step];
    try (destruct (reqs s !! i) as [[k' h []]|]; cbn [q_phase]; auto).
  - done.
  - destruct (stored_claim (rows s) (clock s) k h k' r Hr Ha Hc) as [H1 H2].
    destruct (claim_sql _ _ _ _) as [t got]; cbn in H1, H2.
    destruct d as [|[]]; [destruct got| |]; cbn; auto. split; [done|].
    rewrite filter_app, filter_cons_False, filter_nil, app_nil_r; [done|]. cbn. auto.
  - destruct d; [destruct (rows s !! k')|]; auto.
  - destruct (to_store e); auto.
  - destruct d as [|[]]; cbn; auto using stored_complete.
  - destruct d as [|[]]; cbn; auto using stored_release.
  - cbn. split; [|done]. apply map_lookup_filter_Some. split; [done|]. cbn. lia.
  - done.
Qed.

Lemma stored_run s es k r :
  rows s !! k = Some r -> is_Some (response r) -> (clock (foldl step s es) <= created_at r + ttl)%Z ->
  rows (foldl step s es) !! k = Some r /\ runs_of k (foldl step s es) = runs_of k s.
Proof.
  revert s. induction es as [|e es IH]; intros s Hr Ha Hn; cbn in *; [done|].
  destruct (stored_step s e k r Hr Ha) as [H1 H2].
  { pose proof (clock_run (step s e) es). lia. }
  destruct (IH (step s e) H1 Ha Hn) as [H3 H4]. split; [done | congruence].
Qed.

(** ** One run at a time *)

(** When the run of a request that has claimed its key, and is not over, began *)
Definition active_since (q : Req) : option Z :=
  match q_phase q with Running t | Completing t _ | Releasing t _ => Some t | _ => None end.

(** Every run is still within the lease of its route. *)
Definition timely (s : System) : Prop :=
  forall i q t, reqs s !! i = Some q -> active_since q = Some t -> (clock s <= t + lease_for (q_key q).2)%Z.

(** The states reached by steps in which no run outlives its lease *)
Inductive timely_reachable : System -> Prop :=
| timely_new : timely_reachable new_system
| timely_step s e : timely_reachable s -> timely (step s e) -> timely_reachable (step s e).

(** The row of a run is its own: unfinished, or with an answer stored by a statement reported as failed. *)
Definition owns (s : System) (q : Req) (t : Z) : Prop :=
  exists a, rows s !! q_key q = Some (mkRow (q_hash q) a t)
            /\ match q_phase q with Releasing _ _ => True | _ => a = None end.

Definition exclusive (s : System) : Prop :=
  (forall i q t, reqs s !! i = Some q -> active_since q = Some t -> owns s q t)
  /\ (forall i j q q', reqs s !! i = Some q -> reqs s !! j = Some q' -> is_Some (active_since q) ->
        is_Some (active_since q') -> q_key q = q_key q' -> i = j).

Definition idle (s : System) (k : rkey) : Prop :=
  forall j q, reqs s !! j = Some q -> q_key q = k -> active_since q = None.

Lemma exclusive_set s t i q p :
  exclusive s -> reqs s !! i = Some q ->
  (forall k, k <> q_key q -> t !! k = rows s !! k) ->
  (forall t0, active_since (mkReq (q_key q) (q_hash q) p) = Some t0 ->
     owns (set_req s t i q p) (mkReq (q_key q) (q_hash q) p) t0) ->
  is_Some (active_since q) \/ idle s (q_key q)
  \/ (active_since (mkReq (q_key q) (q_hash q) p) = None /\ t !! q_key q = rows s !! q_key q) ->
  exclusive (set_req s t i q p).
Proof.
  intros [H1 H2] Hi Ht Hown Hc.
  assert (forall j q', j <> i -> reqs s !! j = Some q' -> is_Some (active_since q') -> q_key q' = q_key q ->
            active_since (mkReq (q_key q) (q_hash q) p) = None /\ t !! q_key q = rows s !! q_key q) as Hother.
  { intros j q' Hji Hj Ha Hk. destruct Hc as [Hq|[Hid|?]]; [| |done].
    - destruct Hji. exact (H2 j i q' q Hj Hi Ha Hq Hk).
    - rewrite (Hid j q' Hj Hk) in Ha. by destruct Ha. }
  split.
  - intros j q' t0 Hj Ha. apply set_req_split in Hj as [[-> ->]|[Hji Hj]]; [by apply Hown|].
    destruct (H1 j q' t0 Hj Ha) as (a & Hr & Hp). exists a. split; [|done]. cbn.
    destruct (decide (q_key q' = q_key q)) as [Hk|Hk]; [|by rewrite Ht].
    destruct (Hother j q' Hji Hj) as [_ Hrow]; auto. by rewrite Hk, Hrow, <-Hk.
  - intros j1 j2 q1 q2 Hj1 Hj2 Ha1 Ha2 Hk.
    apply set_req_split in Hj1 as [[-> ->]|[Hn1 Hj1]], Hj2 as [[-> ->]|[Hn2 Hj2]]; [done| | |eauto]; cbn in Hk.
    + destruct (Hother j2 q2 Hn2 Hj2) as [Hp _]; auto. rewrite Hp in Ha1. by destruct Ha1.
    + destruct (Hother j1 q1 Hn1 Hj1) as [Hp _]; auto. rewrite Hp in Ha2. by destruct Ha2.
Qed.

Section leases.
Context (leases_short : forall route, (lease_for route <= ttl)%Z).

(** A claim succeeds only on a key nobody runs. *)
Lemma claim_idle s k h :
  exclusive s -> timely s -> (claim_sql (rows s) (clock s) k h).2 = true -> idle s k.
Proof.
  intros [H1 _] Ht Hc j q Hj <-. destruct (active_since q) as [t|] eqn:Ha; [|done]. exfalso.
  destruct (H1 j q t Hj Ha) as (a & Hr & _). specialize (Ht j q t Hj Ha).
  pose proof (leases_short (q_key q).2). unfold claim_sql in Hc. rewrite Hr in Hc.
  unfold takes_over in Hc. cbn in Hc. rewrite !(bool_decide_eq_false_2 (t < _)%Z) in Hc by lia.
  by rewrite andb_false_r in Hc.
Qed.

Lemma claim_table t now k h :
  (forall k', k' <> k -> (claim_sql t now k h).1 !! k' = t !! k')
  /\ ((claim_sql t now k h).2 = true -> (claim_sql t now k h).1 !! k = Some (mkRow h None now))
  /\ ((claim_sql t now k h).2 = false -> (claim_sql t now k h).1 = t).
Proof.
  unfold claim_sql. destruct (t !! k); [destruct (takes_over _ _ _ _)|]; cbn; split_and!; auto; try done;
    try (intros; by rewrite lookup_insert_ne); intros; apply lookup_insert_eq.
Qed.

Lemma complete_table t k h a k' : k' <> k -> complete_sql t k h a !! k' = t !! k'.
Proof. intros. unfold complete_sql. destruct (t !! k); [destruct (_ && _)|]; auto. by rewrite lookup_insert_ne. Qed.

Lemma release_table t k h k' : k' <> k -> release_sql t k h !! k' = t !! k'.
Proof. intros. unfold release_sql. destruct (t !! k); [destruct (_ && _)|]; auto. by rewrite lookup_delete_ne. Qed.

Lemma exclusive_same s s' : rows s' = rows s -> reqs s' = reqs s -> exclusive s -> exclusive s'.
Proof. intros Hr Hq [H1 H2]. unfold exclusive, owns. rewrite Hr, Hq. done. Qed.

Lemma exclusive_arrive s k h : exclusive s -> exclusive (step s (Arrive k h)).
Proof.
  intros [H1 H2].
  assert (forall j q, reqs (step s (Arrive k h)) !! j = Some q -> is_Some (active_since q) -> reqs s !! j = Some q) as Hold.
  { cbn. intros j q Hj Ha. apply lookup_app_Some in Hj as [Hj|[_ Hj]]; [done|].
    apply list_lookup_singleton_Some in Hj as [_ <-]. by destruct Ha. }
  split; [intros i q t Hi Ha; eapply (H1 i q t); eauto|].
  intros i j q q' Hi Hj Ha Ha'. eapply H2; eauto.
Qed.

Lemma exclusive_purge s : exclusive s -> timely s -> exclusive (step s Purge).
Proof.
  intros [H1 H2] Ht. split; [|exact H2]. intros i q t Hi Ha. destruct (H1 i q t Hi Ha) as (a & Hr & Hp).
  exists a. split; [|done]. cbn. apply map_lookup_filter_Some. split; [done|]. cbn.
  specialize (Ht i q t Hi Ha). pose proof (leases_short (q_key q).2). lia.
Qed.

Lemma exclusive_claim s i d : exclusive s -> timely s -> exclusive (step s (Claim i d)).
Proof.
  intros He Ht. cbn [step]. destruct (reqs s !! i) as [[k h []]|] eqn:Hi; auto.
  pose proof (claim_idle s k h He Ht) as Hid. destruct (claim_table (rows s) (clock s) k h) as (T1 & T2 & T3).
  destruct (claim_sql _ _ _ _) as [t got]; cbn in *.
  assert (got = true -> exclusive (set_req s t i (mkReq k h (Claiming pass)) (Running (clock s)))) as Hrun.
  { intros Hg. apply exclusive_set; auto. cbn. intros t0 [= <-]. exists None. cbn. auto. }
  assert (forall p, active_since (mkReq k h p) = None -> exclusive (set_req s t i (mkReq k h (Claiming pass)) p)) as Hoff.
  { intros p Hp. apply exclusive_set; auto; cbn; [by rewrite Hp|]. destruct got; [auto|]. rewrite T3; auto. }
  destruct d as [|[]]; [destruct got| |].
  - eapply exclusive_same; [..|exact (Hrun eq_refl)]; done.
  - by apply Hoff.
  - by apply Hoff.
  - apply exclusive_set; auto. cbn. done.
Qed.

Lemma exclusive_step s e : exclusive s -> timely s -> exclusive (step s e).
Proof.
  intros He Ht. pose proof He as [H1 _]. destruct e as [k h|i d|i d|i e|i d|i d| |i|now];
    auto using exclusive_arrive, exclusive_purge, exclusive_claim; cbn [step];
    try (destruct (reqs s !! i) as [[k h []]|] eqn:Hi; cbn [q_phase]; auto).
  all: try (apply exclusive_set; [auto..|done|cbn; auto]).
  - destruct d; [destruct (rows s !! k)|]; apply exclusive_set; auto; cbn; try done; auto;
      unfold next_pass; by case_bool_decide; auto.
  - destruct (H1 i _ since Hi eq_refl) as (a & Hr & Ha). cbn in Hr, Ha. subst a.
    destruct (to_store e) as [a|]; [eapply exclusive_same; [..|apply (exclusive_set s (rows s) i (mkReq k h (Running since)) (Completing since a))]|apply exclusive_set]; auto; cbn; eauto;
      intros t0 [= <-]; exists None; cbn; auto.
  - destruct (H1 i _ since Hi eq_refl) as (b & Hr & Hb). cbn in Hr, Hb. subst b.
    destruct d as [|ap]; cbn; apply exclusive_set; cbn; eauto; try (intros; by rewrite complete_table); try done.
    + intros k' Hk'. destruct ap; [by rewrite complete_table | done].
    + intros t0 [= <-]. exists (if ap then Some a else None). split; [|done]. cbn. destruct ap; [|done].
      unfold complete_sql. rewrite Hr. cbn. rewrite bool_decide_eq_true_2 by done. apply lookup_insert_eq.
  - intros k' Hk'. destruct (applied d); [by rewrite release_table | done].
Qed.

Lemma timely_exclusive s : timely_reachable s -> exclusive s /\ timely s.
Proof.
  induction 1 as [|s e _ [He Ht] Hn].
  - by split; [split|]; intros ?; intros; cbn in *.
  - auto using exclusive_step.
Qed.

End leases.

End store.

(** ** Properties *)

(** Whatever the interleaving of requests, failed statements and dead workers, a stored answer that is
    replayed to a request was the answer of a run of the same route under the same key for the same request. *)
Theorem replay_is_response (ttl lease long_lease : Z) (s : System) (i : nat) (q : Req) (a : reply) :
  reachable (step ttl lease long_lease) new_system s ->
  reqs s !! i = Some q -> q_phase q = Done (Replayed a) ->
  (q_key q, q_hash q, a) ∈ answers s.
Proof.
  intros Hs Hi Hp. assert (answered s) as [_ H].
  { apply (reachable_inv _ answered _ _) in Hs; [done| |auto using answered_step].
    split; intros ?; intros; cbn in *; done. }
  specialize (H i q Hi). unfold backed in H. by rewrite Hp in H.
Qed.

(** Requests of one key: the first runs and is answered, the second is replayed *)
Definition demo_key : string * string := ("k", "POST /api/v1/missions").
Definition demo_replay : list event :=
  [Arrive demo_key "h"; Claim 0 DbOk; RouteEnds 0 (Responded (Some 201) true (Some 7)); Store 0 DbOk;
   Tick 5; Arrive demo_key "h"; Claim 1 DbOk; Lookup 1 DbOk].

Lemma replay_is_response_witness :
  (demo_key, "h", (201, 7)) ∈ answers (foldl (step 100 10 20) new_system demo_replay).
Proof.
  apply (replay_is_response 100 10 20 (foldl (step 100 10 20) new_system demo_replay) 1
           (mkReq demo_key "h" (Done (Replayed (201, 7)))) (201, 7)).
  - apply reachable_foldl.
  - vm_compute. reflexivity.
  - reflexivity.
Defined.

(** Once an answer is stored, until it expires, no interleaving of requests changes or removes it and the
    route is not run again under its key. *)
Theorem stored_answer_final (ttl lease long_lease : Z) (s : System) (es : list event) (k : rkey) (r : Row) :
  rows s !! k = Some r -> is_Some (response r) ->
  (clock (foldl (step ttl lease long_lease) s es) <= created_at r + ttl)%Z ->
  rows (foldl (step ttl lease long_lease) s es) !! k = Some r
  /\ runs_of k (foldl (step ttl lease long_lease) s es) = runs_of k s.
Proof. apply stored_run. Qed.

Lemma stored_answer_final_witness :
  let s := foldl (step 100 10 20) new_system (take 4 demo_replay) in
  let s' := foldl (step 100 10 20) s [Tick 50; Arrive demo_key "h"; Purge; Claim 1 DbOk] in
  rows s' !! demo_key = Some (mkRow "h" (Some (201, 7)) 0) /\ runs_of demo_key s' = runs_of demo_key s.
Proof.
  intros s s'. apply (stored_answer_final 100 10 20 s _ demo_key (mkRow "h" (Some (201, 7)) 0)).
  - vm_compute. reflexivity.
  - by exists (201, 7).
  - vm_compute. intros [=].
Defined.

(** C21: While no run outlives the lease of its route, and leases are no longer than the lifetime of a key,
    at most one request of a key is between its claim and the end of its run, whatever else fails. *)
Theorem one_run_at_a_time (ttl lease long_lease : Z) (s : System) (i j : nat) (q q' : Req) :
  (forall route, (lease_for lease long_lease route <= ttl)%Z) ->
  timely_reachable ttl lease long_lease s ->
  reqs s !! i = Some q -> reqs s !! j = Some q' -> q_key q = q_key q' ->
  is_Some (active_since q) -> is_Some (active_since q') -> i = j.
Proof.
  intros Hl Hs Hi Hj Hk Ha Ha'. destruct (timely_exclusive ttl lease long_lease Hl s Hs) as [[_ H] _].
  exact (H i j q q' Hi Hj Ha Ha' Hk).
Qed.

Lemma one_run_at_a_time_witness :
  exists s, timely_reachable 100 10 20 s
    /\ (forall i q, reqs s !! i = Some q -> q_key q = demo_key -> is_Some (active_since q) -> i = 0).
Proof.
  exists (step 100 10 20 (step 100 10 20 new_system (Arrive demo_key "h")) (Claim 0 DbOk)).
  assert (Hs : timely_reachable 100 10 20 (step 100 10 20 (step 100 10 20 new_system (Arrive demo_key "h")) (Claim 0 DbOk))).
  { repeat (apply timely_step; [|intros [|i] q t Hi Ha; vm_compute in Hi; simplify_eq; vm_compute in Ha; simplify_eq; vm_compute; done]).
    apply timely_new. }
  split; [exact Hs|]. intros i q Hi Hk Ha.
  apply (one_run_at_a_time 100 10 20 _ i 0 q (mkReq demo_key "h" (Running 0))) in Hi; auto.
  - intros route. unfold lease_for. case_bool_decide; lia.
Defined.

(** A run that outlives its lease and then fails deletes the row of the request that took its key over: a
    third request with the same key then runs the route while the second is still running it within its own lease. *)
Theorem late_release_frees_key :
  let s := foldl (step 100 10 20) new_system
    [Arrive demo_key "h"; Claim 0 DbOk; Tick 11; Arrive demo_key "h"; Claim 1 DbOk;
     RouteEnds 0 (Responded (Some 502) true (Some 0)); Release 0 DbOk; Tick 12; Arrive demo_key "h"; Claim 2 DbOk] in
  reqs s !! 1 = Some (mkReq demo_key "h" (Running 11)) /\ reqs s !! 2 = Some (mkReq demo_key "h" (Running 12))
  /\ (clock s <= 11 + lease_for 10 20 demo_key.2)%Z /\ length (runs_of demo_key s) = 3.
Proof. vm_compute. repeat split; intros [=]. Qed.
