(* ===== verification/SceneMemory.v ===== *)
(** * Memory safety of the scene worker (packages/services/graph_builder/scene_memory.py)

    The guard that pauses the worker while the container is short of memory (Module [Guard]), and the marker
    file with the gate around engine loads that keeps a map whose load killed the process from being loaded
    again at once (Module [Loads]), for any number of maps loaded by the threads of successive processes. A
    fraction of the limit is kept in thousandths and compared by cross multiplication. Reading the cgroup
    files is the environment's: their numbers are arguments. Times are milliseconds. *)

From S2P Require Import Prelude.
Local Open Scope string_scope.
Local Open Scope list_scope.

Module Guard.

Record MemoryGuard := mkGuard {
  high : Z;                                  (** thousandths *)
  low : Z;
  sample : Z;
  paused : bool;
  since : option Z;
  sampled_at : option Z;
  transitions : nat;
}.

Inductive hook := OnHigh | OnLow.

(** [MemoryGuard.__init__] *)
Definition new_guard (high low sample : Z) : MemoryGuard := mkGuard high (Z.min low high) sample false None None 0.

Definition enabled (g : MemoryGuard) : bool := bool_decide (0 < high g <= 1000)%Z.

(** [check]: at a time, with the cgroup's current usage and limit. What it returns is [paused] after it, when
    the guard is enabled; the hook it runs is returned too. *)
Definition check (g : MemoryGuard) (x : Z * option Z * option Z) : MemoryGuard * option hook :=
  let '(t, cur, lim) := x in
  if negb (enabled g) then (g, None)
  else if match sampled_at g with Some s => bool_decide (t - s < sample g)%Z | None => false end then (g, None)
  else
    let g := mkGuard (high g) (low g) (sample g) (paused g) (since g) (Some t) (transitions g) in
    match cur, lim with
    | Some cur, Some lim =>
        if bool_decide (lim = 0)%Z then (g, None)
        else if negb (paused g) && bool_decide (high g * lim <= cur * 1000)%Z then
          (mkGuard (high g) (low g) (sample g) true (Some t) (sampled_at g) (S (transitions g)), Some OnHigh)
        else if paused g && bool_decide (cur * 1000 < low g * lim)%Z then
          (mkGuard (high g) (low g) (sample g) false (since g) (sampled_at g) (S (transitions g)), Some OnLow)
        else (g, None)
    | _, _ => (g, None)
    end.

(** The hooks in turn, the first of them [next] *)
Fixpoint in_turn (next : hook) (hs : list hook) : Prop :=
  match hs with [] => True | h :: hs => h = next /\ in_turn (match next with OnHigh => OnLow | OnLow => OnHigh end) hs end.

Definition next_hook (g : MemoryGuard) : hook := if paused g then OnLow else OnHigh.

Lemma check_hook g x :
  match (check g x).2 with
  | Some h => h = next_hook g /\ paused (check g x).1 = negb (paused g) /\ transitions (check g x).1 = S (transitions g)
  | None => paused (check g x).1 = paused g /\ transitions (check g x).1 = transitions g
  end.
Proof. destruct x as [[t cur] lim]. unfold check, next_hook. split_all; bprop; auto. Qed.

Lemma checks_in_turn xs g :
  in_turn (next_hook g) (omap id (run check g xs).2)
  /\ transitions (run check g xs).1 = transitions g + length (omap id (run check g xs).2)
  /\ paused (run check g xs).1 = (if Nat.even (length (omap id (run check g xs).2)) then paused g else negb (paused g)).
Proof.
  revert g. induction xs as [|x xs IH]; intros g; [cbn; auto|]. cbn [run]. pose proof (check_hook g x) as H.
  destruct (check g x) as [g1 o]; cbn [fst snd] in H. destruct (IH g1) as (I1 & I2 & I3).
  destruct (run check g1 xs) as [g2 os]; cbn [fst snd] in *. destruct o as [h|]; cbn [omap list_omap id length in_turn].
  - destruct H as (-> & Hp & Ht). rewrite I2, I3, Ht, Hp. split; [|split; [cbn; lia|]].
    + split; [done|]. unfold next_hook in *. rewrite Hp in I1. by destruct (paused g).
    + rewrite Nat.even_succ, <-Nat.negb_even. destruct (Nat.even _), (paused g); done.
  - destruct H as (Hp & Ht). unfold next_hook in *. rewrite Hp in *. rewrite I2, I3, Ht. done.
Qed.

(** Relief hooks run in turn, the first one on a high, every one is a transition that is counted, and the
    guard is paused exactly while the last of them was the one for high memory. *)
Theorem guard_hooks_in_turn (hi lo sample : Z) (xs : list (Z * option Z * option Z)) :
  let '(g, os) := run check (new_guard hi lo sample) xs in
  let hooks := omap id os in
  in_turn OnHigh hooks /\ transitions g = length hooks /\ paused g = Nat.odd (length hooks).
Proof.
  pose proof (checks_in_turn xs (new_guard hi lo sample)) as (H1 & H2 & H3).
  destruct (run check (new_guard hi lo sample) xs) as [g os]; cbn in *. split; [done|]. split; [done|].
  rewrite H3, <-Nat.negb_even. by destruct (Nat.even _).
Qed.

End Guard.

Module Loads.

(** The marker of the running process and the file it keeps *)
Record Marker := mkMarker {
  live : gmap string Z;                      (** loads in flight in this process *)
  dead : gmap string Z;                      (** loads a previous process died in *)
  file : gmap string Z;                      (** the maps of the marker file; empty when there is none *)
}.

Section marker.
Context (cooldown : Z).

(** [LoadMarker.__init__] in a process that finds this file *)
Definition start (file : gmap string Z) : Marker := mkMarker ∅ file file.

(** [_write]; it may fail, which leaves the file as it was *)
Definition write (m : Marker) (ok : bool) : Marker := mkMarker (live m) (dead m) (if ok then live m else file m).

(** [blocked_for] *)
Definition blocked_for (m : Marker) (map : string) (now : Z) : Marker * Z :=
  match dead m !! map with
  | None => (m, 0%Z)
  | Some ts =>
      let remaining := (cooldown - (now - ts))%Z in
      if bool_decide (remaining <= 0)%Z then (mkMarker (live m) (delete map (dead m)) (file m), 0%Z) else (m, remaining)
  end.

(** [begin], [clear] *)
Definition begin (m : Marker) (map : string) (now : Z) (ok : bool) : Marker :=
  write (mkMarker (<[map := now]> (live m)) (dead m) (file m)) ok.
Definition clear (m : Marker) (map : string) (ok : bool) : Marker :=
  write (mkMarker (delete map (live m)) (delete map (dead m)) (file m)) ok.

(** [LoadGate.refusal], with the guard's verdict: why a load is refused, and when to try again *)
Inductive refused := Cooldown | MemoryHigh.
Definition refusal (m : Marker) (map : string) (now retry : Z) (guard_paused : bool) : Marker * option (refused * Z) :=
  let '(m, remaining) := blocked_for m map now in
  if bool_decide (0 < remaining)%Z then (m, Some (Cooldown, Z.max retry (Z.min remaining 60000)))
  else if guard_paused then (m, Some (MemoryHigh, retry))
  else (m, None).

(** The loads of the workers' [_ensure_engine]: a load that the gate lets through is in flight until it
    returns or raises ([gate.done]), or the process dies and another one starts. *)
Inductive event :=
| TryLoad (map : string) (now : Z) (guard_paused ok : bool)
| LoadEnds (map : string) (ok : bool)
| Restart.

Definition step (m : Marker) (e : event) : Marker :=
  match e with
  | TryLoad map now p ok =>
      let '(m, r) := refusal m map now 10000 p in
      match r with Some _ => m | None => begin m map now ok end
  | LoadEnds map ok => if bool_decide (is_Some (live m !! map)) then clear m map ok else m
  | Restart => start (file m)
  end.

Definition before (t : Z) (e : event) : Prop := match e with TryLoad _ now _ _ => (now < t)%Z | _ => True end.
Definition same_process (e : event) : Prop := e <> Restart.

(** A map that is blocked and not being loaded stays so until its cooldown is over. *)
Lemma blocked_step m map ts e :
  dead m !! map = Some ts -> live m !! map = None -> same_process e -> before (ts + cooldown) e ->
  dead (step m e) !! map = Some ts /\ live (step m e) !! map = None.
Proof.
  intros Hd Hl Hp Hb. destruct e as [map' now p ok|map' ok|]; [| |done]; cbn in *.
  - unfold refusal, blocked_for. destruct (decide (map' = map)) as [->|Hne].
    + rewrite Hd, bool_decide_eq_false_2 by lia. by rewrite bool_decide_eq_true_2 by lia.
    + assert (forall m', dead m' !! map = Some ts -> live m' !! map = None ->
                dead (if p then m' else begin m' map' now ok) !! map = Some ts
                /\ live (if p then m' else begin m' map' now ok) !! map = None) as Hgo.
      { intros m' H1 H2. destruct p; [done|]. unfold begin. cbn. by rewrite lookup_insert_ne. }
      destruct (dead m !! map') as [ts'|] eqn:E; cbn; [|specialize (Hgo m Hd Hl); by destruct p].
      case_bool_decide; cbn.
      * specialize (Hgo (mkMarker (live m) (delete map' (dead m)) (file m))). cbn in Hgo.
        rewrite lookup_delete_ne in Hgo by done. specialize (Hgo Hd Hl). by destruct p.
      * by rewrite bool_decide_eq_true_2 by lia.
  - case_bool_decide as Hin; [|done]. destruct (decide (map' = map)) as [->|Hne].
    + rewrite Hl in Hin. by destruct Hin.
    + cbn. by rewrite !lookup_delete_ne.
Qed.

Lemma blocked_run es m map ts :
  dead m !! map = Some ts -> live m !! map = None -> Forall same_process es -> Forall (before (ts + cooldown)) es ->
  live (foldl step m es) !! map = None.
Proof.
  revert m. induction es as [|e es IH]; intros m Hd Hl Hp Hb; [done|].
  apply Forall_cons in Hp as [Hp Hp'], Hb as [Hb Hb'].
  destruct (blocked_step m map ts e Hd Hl Hp Hb) as [H1 H2]. by apply IH.
Qed.

End marker.

(** The file lists the loads in flight, as long as it could be written. *)
Definition written (e : event) : Prop := match e with TryLoad _ _ _ ok | LoadEnds _ ok => ok = true | Restart => True end.

Lemma file_live cooldown m map ts e :
  (live m !! map = Some ts -> file m !! map = Some ts) -> written e ->
  live (step cooldown m e) !! map = Some ts -> file (step cooldown m e) !! map = Some ts.
Proof.
  intros Hf Hw. destruct e as [map' now p ok|map' ok|]; cbn in *; subst.
  - unfold refusal, blocked_for. repeat case_match; simplify_eq; cbn; auto.
  - case_bool_decide; cbn; auto.
  - by rewrite lookup_empty.
Qed.

Lemma file_live_run cooldown es m map ts :
  (live m !! map = Some ts -> file m !! map = Some ts) -> Forall written es ->
  live (foldl (step cooldown) m es) !! map = Some ts -> file (foldl (step cooldown) m es) !! map = Some ts.
Proof. revert m. induction es as [|e es IH]; intros m Hf Hw; [done|]. apply Forall_cons in Hw as [Hw Hw'].
  intros Hl. apply IH in Hl; auto. intros; eapply file_live; eauto. Qed.

(** When the process dies while a map is loading, and the marker file could be written, the next process
    does not begin a load of that map before the cooldown since that load began is over, whatever other maps it
    loads. *)
Theorem crashed_map_not_reloaded (cooldown : Z) (map : string) (ts : Z) (es fs : list event) :
  Forall written es -> live (foldl (step cooldown) (start ∅) es) !! map = Some ts ->
  Forall same_process fs -> Forall (before (ts + cooldown)) fs ->
  live (foldl (step cooldown) (step cooldown (foldl (step cooldown) (start ∅) es) Restart) fs) !! map = None.
Proof.
  intros Hw Hl Hp Hb. apply (blocked_run cooldown fs _ map ts); auto.
  apply file_live_run in Hl; auto.
Qed.

Lemma crashed_map_not_reloaded_witness :
  live (foldl (step 600000) (step 600000 (foldl (step 600000) (start ∅) [TryLoad "a" 0 false true]) Restart)
          [TryLoad "b" 1000 false true; TryLoad "a" 2000 false true; LoadEnds "b" true; TryLoad "a" 3000 false true]) !! "a" = None.
Proof.
  apply (crashed_map_not_reloaded 600000 "a" 0); [repeat constructor | reflexivity | repeat constructor; discriminate | ].
  repeat constructor.
Defined.

(** The marker of a map whose load killed the process is lost when the next process loads another map,
    since the file is rewritten with the loads in flight only: after one more restart the map is loaded again
    although its cooldown is not over. *)
Theorem marker_lost_by_other_load :
  let s := foldl (step 600000) (start ∅)
    [TryLoad "a" 0 false true; Restart; TryLoad "a" 1000 false true; TryLoad "b" 2000 false true; LoadEnds "b" true;
     Restart; TryLoad "a" 3000 false true] in
  live s !! "a" = Some 3000%Z.
Proof. reflexivity. Qed.

End Loads.
