(* ===== verification/ShortestPaths.v ===== *)
(** * Shortest paths and the canonical walk

    The route searches of the scene graph (packages/scene_graph/turn.py, packages/scene_graph/engine.py,
    packages/services/mission_planner/lazy_plan.py) run scipy's Dijkstra from the goal and then walk from the
    start, at every step to the smallest cell among the neighbours on a shortest path. This file holds what they
    share: the interface [ShortestPaths] states what the searches rely on of Dijkstra, with an instance that
    computes it, and the section [Walk] proves that the walk ends, is optimal and is the lexicographically
    smallest of the optimal paths, for any graph whose steps cost at least one unit. *)

From S2P Require Import Prelude.

Local Open Scope Z_scope.

(** ** Walks along arcs *)

Section Arcs.
Context {A : Type} (arcs : list (A * A * Z)).

Inductive walk : A -> A -> Z -> Prop :=
| walk_here a : walk a a 0
| walk_arc a b c w d : (a, b, w) ∈ arcs -> walk b c d -> walk a c (w + d).

(** The same with the nodes after the first one *)
Inductive trail : A -> list A -> Z -> Prop :=
| trail_here a : trail a [] 0
| trail_arc a b w p d : (a, b, w) ∈ arcs -> trail b p d -> trail a (b :: p) (w + d).

Definition is_distance (sources : list A) (v : A) (d : Z) : Prop :=
  (exists s, s ∈ sources /\ walk s v d) /\ forall s c, s ∈ sources -> walk s v c -> d <= c.

Definition costs_at_least (k : Z) : Prop := Forall (fun a => k <= a.2) arcs.

End Arcs.

(** A limit is given in half units: the code passes an integer plus a half. *)
Definition within_limit (limit : option Z) (d : Z) : Prop :=
  match limit with None => True | Some l => 2 * d <= l end.
#[export] Instance within_limit_dec limit d : Decision (within_limit limit d).
Proof. destruct limit; unfold within_limit; apply _. Defined.

(** [scipy.sparse.csgraph.dijkstra]: the distance of every node from the nearest source, infinite ([None])
    where there is no path or beyond the limit. Matrix entries given twice would be added up, so every arc is
    given once. *)
Class ShortestPaths := {
  dijkstra : forall {A : Type} `{EqDecision A}, list (A * A * Z) -> list A -> option Z -> A -> option Z;
  dijkstra_spec : forall {A : Type} `{EqDecision A} (arcs : list (A * A * Z)) sources limit v d,
    costs_at_least arcs 1 -> NoDup arcs.*1 ->
    dijkstra arcs sources limit v = Some d <-> is_distance arcs sources v d /\ within_limit limit d
}.

Section Facts.
Context {A : Type} `{EqDecision A} (arcs : list (A * A * Z)).

Lemma walk_app a b c d e : walk arcs a b d -> walk arcs b c e -> walk arcs a c (d + e).
Proof. induction 1 as [|a b c' w d Ha Hw IH]; intros; [done|]. rewrite <-Z.add_assoc. econstructor; eauto. Qed.

Lemma walk_one a b w : (a, b, w) ∈ arcs -> walk arcs a b w.
Proof. intros H. rewrite <-(Z.add_0_r w). econstructor; [done|constructor]. Qed.

Lemma walk_nonneg a b d k : costs_at_least arcs k -> 0 <= k -> walk arcs a b d -> 0 <= d.
Proof.
  intros Hk H0. induction 1 as [|a b c w d Ha _ IH]; [lia|].
  unfold costs_at_least in Hk. rewrite Forall_forall in Hk. apply Hk in Ha. cbn in Ha. lia.
Qed.

End Facts.

Section Trails.
Context {A : Type} `{EqDecision A} (arcs : list (A * A * Z)).

Lemma walk_reverse (arcs' : list (A * A * Z)) :
  (forall a b w, (a, b, w) ∈ arcs -> (b, a, w) ∈ arcs') -> forall a b d, walk arcs a b d -> walk arcs' b a d.
Proof.
  intros Hr a b d. induction 1 as [|a b c w d Ha _ IH]; [constructor|].
  rewrite Z.add_comm. eapply walk_app; [done|]. apply walk_one. auto.
Qed.

Lemma distance_unique sources v d e : is_distance arcs sources v d -> is_distance arcs sources v e -> d = e.
Proof. intros [(s & Hs & Hw) H1] [(s' & Hs' & Hw') H2]. specialize (H1 _ _ Hs' Hw'). specialize (H2 _ _ Hs Hw). lia. Qed.

Lemma last_cons_default (p : list A) a b : List.last (b :: p) a = List.last p b.
Proof. revert a b. induction p as [|c p IH]; intros a b; [done|]. transitivity (List.last p c); [exact (IH a c) | symmetry; exact (IH b c)]. Qed.

Lemma trail_walk a p d : trail arcs a p d -> walk arcs a (List.last p a) d.
Proof. induction 1 as [|a b w p d Ha Ht IH]; [constructor|]. rewrite last_cons_default. by econstructor. Qed.

(** The part of a trail after one of its nodes *)
Lemma trail_from a p d x : costs_at_least arcs 0 -> trail arcs a p d -> x ∈ p ->
  exists p' d', trail arcs x p' d' /\ List.last p' x = List.last p a /\ d' <= d /\ suffix (x :: p') p.
Proof.
  intros H0. induction 1 as [|a b w p d Ha Ht IH]; intros Hx; [set_solver|].
  unfold costs_at_least in H0. rewrite Forall_forall in H0. pose proof (H0 _ Ha) as Hw. cbn in Hw.
  rewrite last_cons_default. destruct (decide (x ∈ p)) as [Hp|Hp].
  - destruct (IH Hp) as (p' & d' & ? & ? & ? & ?). exists p', d'. repeat split; [done|done|lia|]. by apply suffix_cons_r.
  - assert (x = b) as -> by set_solver. exists p, d. repeat split; [done|lia|]. done.
Qed.

(** A walk without detours: no node twice *)
Lemma walk_simple a b d : costs_at_least arcs 0 -> walk arcs a b d ->
  exists p d', trail arcs a p d' /\ List.last p a = b /\ d' <= d /\ NoDup (a :: p).
Proof.
  intros H0. induction 1 as [a|a b c w d Ha _ (p & d' & Ht & Hl & Hd & Hn)].
  { exists [], 0. repeat split; [constructor|lia|]. apply NoDup_singleton. }
  pose proof H0 as H1. unfold costs_at_least in H1. rewrite Forall_forall in H1. pose proof (H1 _ Ha) as Hw. cbn in Hw.
  destruct (decide (a ∈ b :: p)) as [Hin|Hout].
  - destruct (trail_from a (b :: p) (w + d') a H0) as (q & e & Hq & Hlq & Heq & Hsuf); [by constructor|done|].
    exists q, e. rewrite last_cons_default in Hlq. repeat split; [done|by rewrite Hlq|lia|].
    destruct Hsuf as (k & Hk). rewrite Hk in Hn. apply NoDup_app in Hn. tauto.
  - exists (b :: p), (w + d'). rewrite last_cons_default. repeat split; [by constructor|done|lia|]. by constructor.
Qed.

Lemma trail_targets a p d : trail arcs a p d -> p ⊆ (fun x => x.1.2) <$> arcs.
Proof.
  induction 1 as [|a b w p d Ha _ IH]; [set_solver|]. intros x Hx. apply elem_of_cons in Hx as [->|Hx]; [|by apply IH].
  apply list_elem_of_fmap. by exists (a, b, w).
Qed.

Lemma trail_short a p d : trail arcs a p d -> NoDup (a :: p) -> (length p <= length arcs)%nat.
Proof.
  intros Ht [_ Hn]%NoDup_cons. rewrite <-(length_fmap (fun x => x.1.2) arcs).
  apply submseteq_length, NoDup_submseteq; [done|]. intros x Hx. by eapply trail_targets.
Qed.

End Trails.

(** ** An instance: Bellman and Ford's rounds over a table *)
Module Rounds.
Section rounds.
Context {A : Type} `{EqDecision A} (arcs : list (A * A * Z)) (sources : list A).

(** The table keeps a distance per node found. *)
Fixpoint table_get (t : list (A * Z)) (v : A) : option Z :=
  match t with [] => None | (u, d) :: t => if decide (u = v) then Some d else table_get t v end.

Fixpoint table_put (t : list (A * Z)) (v : A) (d : Z) : list (A * Z) :=
  match t with [] => [(v, d)] | (u, e) :: t => if decide (u = v) then (u, d) :: t else (u, e) :: table_put t v d end.

Definition relax (t : list (A * Z)) (a : A * A * Z) : list (A * Z) :=
  match table_get t a.1.1 with
  | None => t
  | Some d => match table_get t a.1.2 with
              | Some e => if decide (d + a.2 < e) then table_put t a.1.2 (d + a.2) else t
              | None => table_put t a.1.2 (d + a.2)
              end
  end.

Definition round (t : list (A * Z)) : list (A * Z) := foldl relax t arcs.
Definition initial : list (A * Z) := (fun s => (s, 0)) <$> sources.
Definition distances : list (A * Z) := Nat.iter (length arcs) round initial.
Definition limited (limit : option Z) : A -> option Z :=
  let t := distances in
  fun v => match table_get t v with Some d => if decide (within_limit limit d) then Some d else None | None => None end.

Lemma table_get_put t v d u : table_get (table_put t v d) u = if decide (v = u) then Some d else table_get t u.
Proof.
  induction t as [|[x e] t IH]; cbn; [done|]. destruct (decide (x = v)) as [->|Hx]; cbn.
  - by destruct (decide (v = u)).
  - rewrite IH. destruct (decide (x = u)) as [->|], (decide (v = u)); congruence.
Qed.

(** Every entry is the cost of a walk from a source. *)
Definition sound (t : list (A * Z)) : Prop :=
  forall v d, table_get t v = Some d -> exists s, s ∈ sources /\ walk arcs s v d.

Lemma relax_sound t a : a ∈ arcs -> sound t -> sound (relax t a).
Proof.
  destruct a as [[u v] w]. intros Ha Hs x d. unfold relax. cbn [fst snd]. destruct (table_get t u) as [du|] eqn:Hu; [|by apply Hs].
  assert (Hput : forall x d, table_get (table_put t v (du + w)) x = Some d -> exists s, s ∈ sources /\ walk arcs s x d).
  { intros y e. rewrite table_get_put. destruct (decide (v = y)) as [<-|]; [|by apply Hs]. intros [= <-].
    destruct (Hs u du Hu) as (s & Hin & Hw). exists s. split; [done|]. eapply walk_app; [done|by apply walk_one]. }
  destruct (table_get t v); [destruct (decide _); [apply Hput | apply Hs] | apply Hput].
Qed.

(** Entries only improve, and one arc relaxed leaves its target no further than over its source. *)
Definition better (t t' : list (A * Z)) : Prop :=
  forall v d, table_get t v = Some d -> exists d', table_get t' v = Some d' /\ d' <= d.

#[global] Instance better_preorder : PreOrder better.
Proof.
  split; [intros t v d H; exists d; split; [done|lia]|]. intros t1 t2 t3 H12 H23 v d H.
  destruct (H12 v d H) as (d2 & H2 & ?). destruct (H23 v d2 H2) as (d3 & H3 & ?). exists d3. split; [done|lia].
Qed.

Lemma relax_better t a : better t (relax t a).
Proof.
  destruct a as [[u v] w]. unfold relax. cbn [fst snd]. intros x d Hx. destruct (table_get t u) as [du|] eqn:Hu; [|exists d; split; [done|lia]].
  destruct (table_get t v) as [dv|] eqn:Hv; [destruct (decide _)|]; rewrite ?table_get_put; try (exists d; split; [done|lia]).
  - destruct (decide (v = x)) as [<-|]; [|exists d; split; [done|lia]]. exists (du + w). split; [done|]. simplify_eq. lia.
  - destruct (decide (v = x)) as [<-|]; [congruence|exists d; split; [done|lia]].
Qed.

Lemma relax_arc t u v w d : table_get t u = Some d -> exists e, table_get (relax t (u, v, w)) v = Some e /\ e <= d + w.
Proof.
  intros Hu. unfold relax. cbn [fst snd]. rewrite Hu. destruct (table_get t v) as [dv|] eqn:Hv; [destruct (decide _)|].
  - exists (d + w). rewrite table_get_put, decide_True by done. split; [done|lia].
  - exists dv. split; [done|lia].
  - exists (d + w). rewrite table_get_put, decide_True by done. split; [done|lia].
Qed.

Lemma relaxes_better l t : better t (foldl relax t l).
Proof. revert t. induction l as [|a l IH]; intros t; cbn; [done|]. etrans; [apply relax_better | apply IH]. Qed.

Lemma round_arc t u v w d : (u, v, w) ∈ arcs -> table_get t u = Some d -> exists e, table_get (round t) v = Some e /\ e <= d + w.
Proof.
  intros (l1 & l2 & Heq)%list_elem_of_split Hu. unfold round. rewrite Heq, foldl_app. cbn.
  destruct (relaxes_better l1 t u d Hu) as (d' & Hd' & ?). destruct (relax_arc _ u v w d' Hd') as (e & He & ?).
  destruct (relaxes_better l2 _ v e He) as (e' & He' & ?). exists e'. split; [done|lia].
Qed.

Lemma relaxes_sound l t : (forall a, a ∈ l -> a ∈ arcs) -> sound t -> sound (foldl relax t l).
Proof.
  revert t. induction l as [|a l IH]; intros t Hl Hs; cbn; [done|].
  apply IH; [set_solver|]. apply relax_sound; [set_solver|done].
Qed.

Lemma round_sound t : sound t -> sound (round t).
Proof. by apply relaxes_sound. Qed.

Lemma initial_get v d : table_get initial v = Some d <-> v ∈ sources /\ d = 0.
Proof.
  unfold initial. induction sources as [|s l IH]; cbn; [split; [done|set_solver]|].
  destruct (decide (s = v)) as [->|]; [|rewrite IH; set_solver]. split; [intros [= <-]; set_solver | by intros [_ ->]].
Qed.

(** After as many rounds as a trail has arcs, its end is no further than its cost. *)
Lemma rounds_trail k s p d : s ∈ sources -> trail arcs s p d -> (length p <= k)%nat ->
  exists e, table_get (Nat.iter k round initial) (List.last p s) = Some e /\ e <= d.
Proof.
  intros Hs Ht. revert k. cut (forall k0 e0, table_get (Nat.iter k0 round initial) s = Some e0 -> forall k, (k0 + length p <= k)%nat ->
    exists e, table_get (Nat.iter k round initial) (List.last p s) = Some e /\ e <= e0 + d).
  { intros H k Hk. destruct (H 0%nat 0 (proj2 (initial_get s 0) (conj Hs eq_refl)) k Hk) as (e & ? & ?). exists e. split; [done|lia]. }
  clear Hs. induction Ht as [a|a b w p d Ha Ht IH]; intros k0 e0 He k Hk; cbn in Hk.
  - cbn. assert (Hm : forall j, exists e, table_get (Nat.iter (j + k0) round initial) a = Some e /\ e <= e0).
    { intros j. induction j as [|j (e & Hj & Hle)]; [exists e0; split; [done|lia]|]. cbn.
      destruct (relaxes_better arcs _ a e Hj) as (e' & ? & ?). exists e'. split; [done|lia]. }
    destruct (Hm (k - k0)%nat) as (e & H1 & H2). exists e. replace (k - k0 + k0)%nat with k in H1 by lia. split; [done|lia].
  - rewrite last_cons_default. destruct (round_arc _ a b w e0 Ha He) as (e1 & H1 & ?).
    destruct (IH (S k0) e1 H1 k) as (e & ? & ?); [lia|]. exists e. split; [done|lia].
Qed.

Lemma distances_exact v d : costs_at_least arcs 0 ->
  table_get distances v = Some d <-> is_distance arcs sources v d.
Proof.
  intros H0. assert (Hsound : sound distances).
  { unfold distances. generalize (length arcs). intros n. induction n as [|n IH]; cbn; [|by apply round_sound].
    intros x e [Hx ->]%initial_get. exists x. split; [done|constructor]. }
  assert (Hbest : forall s c, s ∈ sources -> walk arcs s v c -> exists e, table_get distances v = Some e /\ e <= c).
  { intros s c Hs Hw. destruct (walk_simple arcs s v c H0 Hw) as (p & c' & Ht & <- & Hc & Hn).
    destruct (rounds_trail (length arcs) s p c' Hs Ht) as (e & He & ?); [by eapply trail_short|]. exists e. split; [done|lia]. }
  split.
  - intros Hd. split; [by apply Hsound|]. intros s c Hs Hw. destruct (Hbest s c Hs Hw) as (e & He & ?). simplify_eq. lia.
  - intros [(s & Hs & Hw) Hmin]. destruct (Hbest s d Hs Hw) as (e & He & ?). destruct (Hsound v e He) as (s' & Hs' & Hw').
    specialize (Hmin s' e Hs' Hw'). by replace d with e by lia.
Qed.

Lemma distance_exists s v c : costs_at_least arcs 0 -> s ∈ sources -> walk arcs s v c ->
  exists d, is_distance arcs sources v d /\ d <= c.
Proof.
  intros H0 Hs Hw. destruct (walk_simple arcs s v c H0 Hw) as (p & c' & Ht & <- & Hc & Hn).
  destruct (rounds_trail (length arcs) s p c' Hs Ht) as (e & He & ?); [by eapply trail_short|].
  exists e. split; [by apply distances_exact|lia].
Qed.

Lemma limited_exact limit v d : costs_at_least arcs 0 ->
  limited limit v = Some d <-> is_distance arcs sources v d /\ within_limit limit d.
Proof.
  intros H0. unfold limited. cbv zeta. destruct (table_get distances v) as [e|] eqn:He.
  - assert (Hd := proj1 (distances_exact v e H0) He). destruct (decide (within_limit limit e)) as [Hl|Hl]; split.
    + intros [= <-]. done.
    + intros [Hd' _]. by rewrite (distance_unique arcs sources v d e Hd' Hd).
    + done.
    + intros [Hd' Hl']. by rewrite (distance_unique arcs sources v d e Hd' Hd) in Hl'.
  - split; [done|]. intros [Hd _]. apply distances_exact in Hd; [congruence|done].
Qed.

End rounds.
End Rounds.

Lemma costs_weaken {A : Type} (arcs : list (A * A * Z)) k j : j <= k -> costs_at_least arcs k -> costs_at_least arcs j.
Proof. intros Hj Hk. eapply Forall_impl; [exact Hk|]. cbn. intros x ?. lia. Qed.

Definition rounds_shortest_paths : ShortestPaths.
Proof.
  refine {| dijkstra := fun A _ arcs sources limit => Rounds.limited arcs sources limit |}.
  intros A ? arcs sources limit v d Hc _. apply Rounds.limited_exact. by eapply costs_weaken; [|exact Hc].
Defined.

(** ** The canonical walk

    States [S] with their steps; [label] is the cell a step leads to, and a walk is written as the cells after
    the first. [pick] chooses the next state. *)

Fixpoint lex_le (p q : list nat) : Prop :=
  match p, q with
  | [], _ => True
  | _ :: _, [] => False
  | a :: p, b :: q => (a < b)%nat \/ a = b /\ lex_le p q
  end.

Lemma lex_le_antisym p : forall q, lex_le p q -> lex_le q p -> p = q.
Proof.
  induction p as [|a p IH]; intros [|b q]; cbn; try done. intros [?|[-> H1]] [?|[? H2]]; try lia. f_equal. auto.
Qed.

Section Walk.
Context {S : Type} (steps : S -> list (Z * S)) (goal : S -> bool) (label : S -> nat).

(** [p] leads from [s] to a goal at cost [c]. *)
Inductive completes : S -> list nat -> Z -> Prop :=
| completes_here s : goal s = true -> completes s [] 0
| completes_step s w s' p c : (w, s') ∈ steps s -> completes s' p c -> completes s (label s' :: p) (w + c).

Definition is_min (s : S) (d : Z) : Prop := (exists p, completes s p d) /\ forall p c, completes s p c -> d <= c.

Context (D : S -> option Z) (pick : S -> option S).

(** A step on a shortest path: [val == D[cur]] *)
Definition tight (s : S) (x : Z * S) : bool :=
  bool_decide ((fun d => x.1 + d) <$> D x.2 = D s).

Fixpoint canonical (fuel : nat) (s : S) : option (list nat) :=
  if goal s then Some []
  else match fuel with
       | O => None
       | Datatypes.S fuel => match pick s with
                             | None => None
                             | Some s' => cons (label s') <$> canonical fuel s'
                             end
       end.

Hypothesis steps_cost : forall s w s', (w, s') ∈ steps s -> 1 <= w.
Hypothesis labels_differ : forall s x y, x ∈ steps s -> y ∈ steps s -> label x.2 = label y.2 -> x = y.
Hypothesis D_exact : forall s d, D s = Some d -> is_min s d.
(** A limited search misses only what lies beyond the limit. *)
Hypothesis D_closed : forall s d w s' d', D s = Some d -> (w, s') ∈ steps s -> is_min s' d' -> w + d' <= d -> D s' = Some d'.
Hypothesis pick_smallest : forall s x, goal s = false -> x ∈ steps s -> tight s x = true -> is_Some (D s) ->
  exists y, y ∈ steps s /\ tight s y = true /\ pick s = Some y.2 /\ (label y.2 <= label x.2)%nat.

Lemma completes_nonneg s p c : completes s p c -> 0 <= c.
Proof. induction 1 as [|s w s' p c Hs _ IH]; [lia|]. apply steps_cost in Hs. lia. Qed.

Lemma min_tail s w s' p c d : (w, s') ∈ steps s -> completes s' p c -> is_min s d -> w + c = d -> is_min s' c.
Proof.
  intros Hs Hc [_ Hmin] Hd. split; [by exists p|]. intros q e He. specialize (Hmin _ _ (completes_step _ _ _ _ _ Hs He)). lia.
Qed.

(** The first step of an optimal completion is tight. *)
Lemma optimal_step s d q : goal s = false -> D s = Some d -> completes s q d ->
  exists w s' q', q = label s' :: q' /\ (w, s') ∈ steps s /\ completes s' q' (d - w) /\ D s' = Some (d - w)
    /\ tight s (w, s') = true.
Proof.
  intros Hg Hd Hq. pose proof (D_exact s d Hd) as Hmin. inversion Hq as [|? w s' q' c Hs Hc]; subst; [congruence|].
  exists w, s', q'. replace (w + c - w) with c by lia.
  assert (HD : D s' = Some c) by (eapply D_closed; [exact Hd|exact Hs|by eapply min_tail|lia]).
  repeat split; try done. unfold tight. cbn. by rewrite HD, Hd, bool_decide_eq_true_2.
Qed.

(** The walk ends at a goal at the least cost, along the lexicographically least cells; as much fuel as the
    cost is enough, since a step costs at least one. *)
Theorem canonical_walk fuel : forall s d, D s = Some d -> d <= Z.of_nat fuel ->
  exists p, canonical fuel s = Some p /\ completes s p d /\ forall q, completes s q d -> lex_le p q.
Proof.
  induction fuel as [|fuel IH]; intros s d Hd Hf; destruct (D_exact s d Hd) as [(p0 & Hp0) Hmin]; cbn; destruct (goal s) eqn:Hg.
  1,3: assert (d = 0) as -> by (specialize (Hmin [] 0 (completes_here s Hg)); apply completes_nonneg in Hp0; lia);
       exists []; split; [done|]; split; [by constructor|done].
  - destruct (optimal_step s d p0 Hg Hd Hp0) as (w & s' & q & _ & Hs & Hq & _). apply steps_cost in Hs. apply completes_nonneg in Hq. lia.
  - destruct (optimal_step s d p0 Hg Hd Hp0) as (w & s' & q & _ & Hs & _ & _ & Ht).
    destruct (pick_smallest s (w, s') Hg Hs Ht ltac:(by eexists)) as ([w1 s1] & Hs1 & Ht1 & Hpick & _).
    unfold tight in Ht1. bprop. cbn in *. rewrite Hd in Ht1. destruct (D s1) as [d1|] eqn:Hd1; cbn in Ht1; [|done]. simplify_eq/=.
    pose proof (steps_cost _ _ _ Hs1). destruct (IH s1 d1 Hd1) as (p1 & Hp1 & Hc1 & Hl1); [lia|].
    exists (label s1 :: p1). rewrite Hpick, Hp1. split; [done|]. split; [by econstructor|]. intros r Hr.
    destruct (optimal_step s _ r Hg Hd Hr) as (w2 & s2 & r' & -> & Hs2 & Hr' & Hd2 & Ht2).
    destruct (pick_smallest s (w2, s2) Hg Hs2 Ht2 ltac:(by eexists)) as ([w3 s3] & _ & _ & Hpick' & Hle).
    rewrite Hpick in Hpick'. simplify_eq. cbn in *. destruct (decide (label s3 = label s2)) as [He|]; [right|left; lia].
    split; [done|]. pose proof (labels_differ s _ _ Hs1 Hs2 He). simplify_eq. apply Hl1. by replace d1 with (w2 + d1 - w2) by lia.
Qed.

End Walk.

(** ** Distances from the goal are distances to the goal *)

Section ToGoal.
Context {S : Type} (steps : S -> list (Z * S)) (goal : S -> bool) (label : S -> nat).
Context (arcs : list (S * S * Z)) (goals : list S).
Hypothesis arcs_reverse : forall s w s', (w, s') ∈ steps s <-> (s', s, w) ∈ arcs.
Hypothesis goals_exact : forall s, goal s = true <-> s ∈ goals.

Lemma completes_walk s p c : completes steps goal label s p c -> exists t, t ∈ goals /\ walk arcs t s c.
Proof.
  induction 1 as [s Hg|s w s' p c Hs _ (t & Ht & Hw)]; [exists s; split; [by apply goals_exact|constructor]|].
  exists t. split; [done|]. rewrite Z.add_comm. eapply walk_app; [done|]. apply walk_one. by apply arcs_reverse.
Qed.

Lemma walk_completes t s c : goal t = true -> walk arcs t s c -> exists p, completes steps goal label s p c.
Proof.
  intros Hg Hw. cut (forall p d, completes steps goal label t p d -> exists q, completes steps goal label s q (c + d)).
  { intros H. destruct (H [] 0) as (q & Hq); [by constructor|]. exists q. by rewrite Z.add_0_r in Hq. }
  clear Hg. induction Hw as [a|a b s w d Ha _ IH]; intros p e Hp; [exists p; done|].
  apply arcs_reverse in Ha. destruct (IH _ _ (completes_step _ _ _ _ _ _ _ _ Ha Hp)) as (q & Hq). exists q.
  by replace (w + d + e) with (d + (w + e)) by lia.
Qed.

Lemma distance_is_min s d : is_distance arcs goals s d <-> is_min steps goal label s d.
Proof.
  split.
  - intros [(t & Ht & Hw) Hmin]. split; [by eapply walk_completes; [apply goals_exact|]|].
    intros p c Hc. destruct (completes_walk s p c Hc) as (t' & Ht' & Hw'). by eapply Hmin.
  - intros [(p & Hp) Hmin]. split; [by eapply completes_walk|].
    intros t c Ht Hw. apply goals_exact in Ht. destruct (walk_completes t s c Ht Hw) as (q & Hq). by eapply Hmin.
Qed.

Lemma min_exists `{EqDecision S} s p c : costs_at_least arcs 0 -> completes steps goal label s p c ->
  exists d, is_min steps goal label s d /\ d <= c.
Proof.
  intros H0 (t & Ht & Hw)%completes_walk. destruct (Rounds.distance_exists arcs goals t s c H0 Ht Hw) as (d & Hd & Hle).
  exists d. split; [by apply distance_is_min|done].
Qed.

(** What a limited Dijkstra from the goals gives the walk *)
Lemma dijkstra_to_goal `{EqDecision S} `{ShortestPaths} limit :
  costs_at_least arcs 1 -> NoDup arcs.*1 ->
  let D := dijkstra arcs goals limit in
  (forall s d, D s = Some d -> is_min steps goal label s d)
  /\ (forall s d w s' d', D s = Some d -> (w, s') ∈ steps s -> is_min steps goal label s' d' -> w + d' <= d -> D s' = Some d')
  /\ (forall s d, is_min steps goal label s d -> within_limit limit d -> D s = Some d).
Proof.
  intros Hc Hn D. assert (HD : forall s d, D s = Some d <-> is_min steps goal label s d /\ within_limit limit d).
  { intros s d. unfold D. rewrite dijkstra_spec by done. by rewrite distance_is_min. }
  split; [intros s d Hd; by apply HD|]. split; [|intros; by apply HD].
  intros s d w s' d' Hd Hs Hm Hle. apply HD in Hd as [_ Hl]. apply HD. split; [done|].
  apply arcs_reverse in Hs. unfold costs_at_least in Hc. rewrite Forall_forall in Hc. apply Hc in Hs. cbn in Hs.
  destruct limit as [l|]; cbn in *; [lia|done].
Qed.

End ToGoal.
