(* ===== verification/TurnSearch.v ===== *)
(** * The turn-cost search on the lattice

    packages/scene_graph/turn.py: the exact search for the cheapest route when every change of heading costs, as
    the engine and the planner's lazy reader share it. Costs are integers, as the code keeps them (in floats that
    hold them exactly). Dijkstra's algorithm is scipy's ([ShortestPaths]). States of the expanded graph are pairs
    of a cell and its incoming heading, where the code packs them into one index (and renumbers the selected
    cells in order); the slices of the sorted edge arrays are the edges out of a cell. *)

From S2P Require Import Prelude ShortestPaths.
From Stdlib Require Import QArith Qround.

Local Open Scope Z_scope.

(** ** Headings and weights *)

(** The eight headings, counter-clockwise in steps of pi / 4 from +x, as the indices 0..7 of the code *)
Inductive Heading : Set := East | NorthEast | North | NorthWest | West | SouthWest | South | SouthEast.
#[export] Instance Heading_eq_dec : EqDecision Heading.
Proof. solve_decision. Defined.

Definition index (h : Heading) : Z :=
  match h with East => 0 | NorthEast => 1 | North => 2 | NorthWest => 3 | West => 4 | SouthWest => 5 | South => 6 | SouthEast => 7 end.
(** [np.arange(8)] *)
Definition all_headings : list Heading := [East; NorthEast; North; NorthWest; West; SouthWest; South; SouthEast].

(** [(H + 4) % 8] *)
Definition opposite (h : Heading) : Heading :=
  match h with East => West | NorthEast => SouthWest | North => South | NorthWest => SouthEast | West => East | SouthWest => NorthEast | South => North | SouthEast => NorthWest end.

(** [_HEAD]: the heading of a lattice step ([-1], here [None], for what is not a step) *)
Definition heading (dy dx : Z) : option Heading :=
  match dy, dx with
  | 0, 1 => Some East | 1, 1 => Some NorthEast | 1, 0 => Some North | 1, -1 => Some NorthWest
  | 0, -1 => Some West | -1, -1 => Some SouthWest | -1, 0 => Some South | -1, 1 => Some SouthEast
  | _, _ => None
  end.

(** [STEPS]: the change of heading in multiples of pi / 4 *)
Definition STEPS (a b : Heading) : Z := Z.min ((index a - index b) mod 8) ((index b - index a) mod 8).

(** [api.turn_weight], for the price [turn * steps * (pi / 4) / 1e-4] of a change *)
Definition turn_weight (price : Z -> Q) (steps : Z) : Z := Z.max (Qceiling (price steps - (1 # 1000000))) 0.
(** [api.edge_weight] *)
Definition edge_weight (len_units deficit_sum rate : Q) : Z :=
  Z.max (Qceiling (len_units * (1 + rate * deficit_sum / 2) - (1 # 1000000))) 1.

(** [table]: the turn cost of an incoming and an outgoing heading *)
Definition table (price : Z -> Q) (hin hout : Heading) : Z := turn_weight price (STEPS hin hout).

Lemma table_nonneg price a b : 0 <= table price a b.
Proof. unfold table, turn_weight. lia. Qed.

Lemma opposite_heading dy dx h : heading dy dx = Some h -> heading (- dy) (- dx) = Some (opposite h).
Proof.
  unfold heading. destruct dy as [|[| |]|[| |]], dx as [|[| |]|[| |]]; cbn; intros [= <-]; done.
Qed.

(** ** The graph *)

Record edge := Edge { e_src : nat; e_dst : nat; e_w : Z; e_h : Heading }.
#[export] Instance edge_eq_dec : EqDecision edge.
Proof. solve_decision. Defined.

Definition reversed (e : edge) : edge := Edge (e_dst e) (e_src e) (e_w e) (opposite (e_h e)).

(** [Graph.__init__]: every edge in both directions *)
Record Graph := { g_n : nat; g_ys : list Z; g_xs : list Z; g_edges : list edge }.
Definition make_graph (n : nat) (es : list edge) (ys xs : list Z) : Graph :=
  {| g_n := n; g_ys := ys; g_xs := xs; g_edges := es ++ map reversed es |}.

Definition y_of (g : Graph) (c : nat) : Z := default 0 (g_ys g !! c).
Definition x_of (g : Graph) (c : nat) : Z := default 0 (g_xs g !! c).

(** The heading of the step between two cells *)
Definition step_heading (g : Graph) (u v : nat) : option Heading := heading (y_of g v - y_of g u) (x_of g v - x_of g u).

(** [path_turn]: the turn cost of the cells of a path *)
Fixpoint path_headings (g : Graph) (u : nat) (p : list nat) : list (option Heading) :=
  match p with [] => [] | v :: p => step_heading g u v :: path_headings g v p end.
Fixpoint turn_sum (tab : Heading -> Heading -> Z) (hs : list (option Heading)) : Z :=
  match hs with
  | Some a :: ((Some b :: _) as hs') => tab a b + turn_sum tab hs'
  | _ :: hs' => turn_sum tab hs'
  | [] => 0
  end.
Definition path_turn (g : Graph) (tab : Heading -> Heading -> Z) (p : list nat) : Z :=
  match p with [] => 0 | u :: p => turn_sum tab (path_headings g u p) end.

(** The linear keys of cells, and [near]: the cells within [band] steps of one of the given ones *)
Definition OFF : Z := Z.shiftl 1 20.
Definition KW : Z := Z.shiftl 1 21.
Definition cell_key (y x : Z) : Z := (y + OFF) * KW + (x + OFF).
Definition BAND : nat := 3.
Definition around (band : nat) : list Z := (fun i => Z.of_nat i - Z.of_nat band) <$> seq 0 (2 * band + 1).
Definition band_keys (g : Graph) (path : list nat) (band : nat) : list Z :=
  c ← path; dy ← around band; (fun dx => cell_key (y_of g c + dy) (x_of g c + dx)) <$> around band.
Definition near (g : Graph) (path : list nat) (band : nat) (c : nat) : bool :=
  bool_decide (cell_key (y_of g c) (x_of g c) ∈ band_keys g path band).

(** [np.argmin]: the first of the smallest *)
Fixpoint argmin {X : Type} (key : X -> Z) (l : list X) : option X :=
  match l with
  | [] => None
  | x :: l => match argmin key l with
              | Some y => if decide (key y < key x) then Some y else Some x
              | None => Some x
              end
  end.

(** [val.min()], infinity being [None] *)
Definition min_cost (l : list (option Z)) : option Z :=
  foldr (fun a b => match a, b with Some x, Some y => Some (Z.min x y) | Some x, None => Some x | None, b => b end) None l.

(** [np.iinfo(np.int64).max] *)
Definition INT64_MAX : Z := 2 ^ 63 - 1.

Section search.
Context `{ShortestPaths} (g : Graph) (tab : Heading -> Heading -> Z).

(** The symmetric matrix of the plain weights *)
Definition plain : list (nat * nat * Z) := (fun e => (e_src e, e_dst e, e_w e)) <$> g_edges g.

(** The edges between selected cells, and those out of one *)
Definition chosen (sel : nat -> bool) : list edge := List.filter (fun e => sel (e_src e) && sel (e_dst e)) (g_edges g).
Definition out (es : list edge) (u : nat) : list edge := List.filter (fun e => bool_decide (e_src e = u)) es.

(** The transposed expanded graph *)
Definition expanded_arcs (es : list edge) : list ((nat * Heading) * (nat * Heading) * Z) :=
  e ← es; (fun hin => ((e_dst e, e_h e), (e_src e, hin), e_w e + tab hin (e_h e))) <$> all_headings.

(** [np.where(val == best, v, max)] over the edges out of a cell, and its [argmin] *)
Definition tight_key (val : edge -> option Z) (best : option Z) (e : edge) : Z :=
  if bool_decide (val e = best) then Z.of_nat (e_dst e) else INT64_MAX.
Definition next_state (es : list edge) (D : nat * Heading -> option Z) (s : nat * Heading) : option (nat * Heading) :=
  (fun e => (e_dst e, e_h e)) <$>
  argmin (tight_key (fun e => (fun d => e_w e + tab s.2 (e_h e) + d) <$> D (e_dst e, e_h e)) (D s)) (out es s.1).

(** [Graph.expanded]; [Raise] stands for what would be an exception or an endless loop *)
Definition expanded (sel : nat -> bool) (src dst : nat) (limit : option Z) : result unit (option (Z * list nat)) :=
  if bool_decide (src = dst) then Ok (Some (0, [src]))
  else
    let es := chosen sel in
    let D := dijkstra (expanded_arcs es) ((fun h => (dst, h)) <$> all_headings) limit in
    let val e := (fun d => e_w e + d) <$> D (e_dst e, e_h e) in
    match min_cost (val <$> out es src) with
    | None => Ok None
    | Some cost =>
        match argmin (tight_key val (Some cost)) (out es src) with
        | None => Raise ()
        | Some e =>
            match canonical (fun s => bool_decide (s.1 = dst)) fst (next_state es D) (Z.to_nat cost) (e_dst e, e_h e) with
            | None => Raise ()
            | Some p => Ok (Some (cost, src :: e_dst e :: p))
            end
        end
    end.

(** [Graph.incumbent] *)
Definition incumbent (src dst : nat) (p0 : list nat) (cost0 : Z) : result unit (Z * list nat) :=
  let j0 := cost0 + path_turn g tab p0 in
  if bool_decide (j0 = cost0) then Ok (j0, p0)
  else match expanded (near g p0 BAND) src dst (Some (2 * j0 + 1)) with
       | Raise x => Raise x
       | Ok (Some (c, p)) => if decide (c < j0) then Ok (c, p) else Ok (j0, p0)
       | Ok None => Ok (j0, p0)
       end.

(** [Graph.restricted]: [d_t] are the plain distances to the goal, when the caller has them *)
Definition on_cheap_route (src dst : nat) (j_inc : Z) (d_t : option (nat -> option Z)) (c : nat) : bool :=
  let lim := Some (2 * j_inc + 1) in
  let d_s := dijkstra plain [src] lim in
  let d_t := match d_t with Some d => d | None => dijkstra plain [dst] lim end in
  match d_s c, d_t c with Some a, Some b => bool_decide (a + b <= j_inc) | _, _ => false end.
Definition restricted (src dst : nat) (j_inc : Z) (d_t : option (nat -> option Z)) : result unit (option (Z * list nat)) :=
  expanded (on_cheap_route src dst j_inc d_t) src dst (Some (2 * j_inc + 1)).

(** [route] *)
Definition route (src dst : nat) (p0 : list nat) (cost0 : Z) (d_t : option (nat -> option Z)) : result unit (Z * list nat) :=
  match incumbent src dst p0 cost0 with
  | Raise x => Raise x
  | Ok (j_inc, p_inc) =>
      if bool_decide (j_inc = cost0) && bool_decide (p_inc = p0) then Ok (j_inc, p_inc)
      else match restricted src dst j_inc d_t with
           | Raise x => Raise x
           | Ok (Some got) => Ok got
           | Ok None => Ok (j_inc, p_inc)
           end
  end.

(** ** The plain search of the planner

    [lazy_plan.PlanGraph._search] and [engine.ChartGraph.route] on the same graph: one Dijkstra from the goal and
    the canonical walk. *)
Definition plain_steps (u : nat) : list (Z * nat) := (fun e => (e_w e, e_dst e)) <$> out (g_edges g) u.
(** [nb[(data + dist[nb]) == dist[u]].min()]: the minimum of no neighbour raises *)
Definition next_plain (D : nat -> option Z) (u : nat) : option nat :=
  Z.to_nat <$> (min_cost ((fun x => Some (Z.of_nat x.2)) <$> List.filter (tight D u) (plain_steps u))).
Definition plain_path (src dst : nat) (limit : option Z) : result unit (option (Z * list nat)) :=
  let D := dijkstra plain [dst] limit in
  match D src with
  | None => Ok None
  | Some cost =>
      match canonical (fun u => bool_decide (u = dst)) id (next_plain D) (Z.to_nat cost) src with
      | None => Raise ()
      | Some p => Ok (Some (cost, src :: p))
      end
  end.

(** The ["full"] branch: the plain optimum first, then the turn-cost search *)
Definition full_search (src dst : nat) : result unit (option (Z * list nat)) :=
  match plain_path src dst None with
  | Raise x => Raise x
  | Ok None => Ok None
  | Ok (Some (cost0, p0)) =>
      match route src dst p0 cost0 (Some (dijkstra plain [dst] None)) with
      | Raise x => Raise x
      | Ok got => Ok (Some got)
      end
  end.

End search.

(** ** What a route is

    [leads sel u p t c]: the cells [p] after [u], all of them selected, lead along edges to [t] at the plain cost [c]. *)
Inductive leads (g : Graph) (sel : nat -> bool) : nat -> list nat -> nat -> Z -> Prop :=
| leads_here u : sel u = true -> leads g sel u [] u 0
| leads_edge e p t c : e ∈ g_edges g -> sel (e_src e) = true -> leads g sel (e_dst e) p t c ->
    leads g sel (e_src e) (e_dst e :: p) t (e_w e + c).

Definition everywhere (c : nat) : bool := true.

(** The path and cost of a cheapest route among the selected cells, the lexicographically least of its cost *)
Definition cheapest (g : Graph) (tab : Heading -> Heading -> Z) (sel : nat -> bool) (src dst : nat) (J : Z) (p : list nat) : Prop :=
  (exists q c, p = src :: q /\ leads g sel src q dst c /\ J = c + path_turn g tab p)
  /\ forall q c, leads g sel src q dst c ->
       J <= c + path_turn g tab (src :: q) /\ (J = c + path_turn g tab (src :: q) -> lex_le p (src :: q)).

(** A lattice graph: edges both ways and once, between its cells, of cost at least one, with the heading of their step *)
Record lattice_graph (g : Graph) : Prop := {
  lg_both : forall e, e ∈ g_edges g -> reversed e ∈ g_edges g;
  lg_cells : forall e, e ∈ g_edges g -> (e_src e < g_n g)%nat;
  lg_cost : forall e, e ∈ g_edges g -> 1 <= e_w e;
  lg_heading : forall e, e ∈ g_edges g -> step_heading g (e_src e) (e_dst e) = Some (e_h e);
  lg_once : NoDup ((fun e => (e_src e, e_dst e)) <$> g_edges g);
  lg_size : Z.of_nat (g_n g) <= INT64_MAX;
}.

(** *** Shared lemmas *)

Lemma argmin_spec {X : Type} (key : X -> Z) l :
  match argmin key l with
  | Some y => y ∈ l /\ forall x, x ∈ l -> key y <= key x
  | None => l = []
  end.
Proof.
  induction l as [|x l IH]; cbn; [done|]. destruct (argmin key l) as [y|].
  - destruct IH as [Hy Hmin]. destruct (decide (key y < key x)); (split; [set_solver|]); intros z [->|Hz]%elem_of_cons; try lia.
    + by apply Hmin.
    + specialize (Hmin z Hz). lia.
  - subst l. split; [set_solver|]. intros z Hz. apply list_elem_of_singleton in Hz as ->. lia.
Qed.

Lemma min_cost_spec l :
  match min_cost l with
  | Some m => Some m ∈ l /\ forall x, Some x ∈ l -> m <= x
  | None => forall x, Some x ∉ l
  end.
Proof.
  induction l as [|a l IH]; cbn; [set_solver|]. fold (min_cost l). destruct a as [a|], (min_cost l) as [m|].
  - destruct IH as [Hm Hmin]. split.
    + destruct (Z.min_spec a m) as [[? ->]|[? ->]]; set_solver.
    + intros x [[= ->]|Hx]%elem_of_cons; [lia|]. specialize (Hmin x Hx). lia.
  - split; [set_solver|]. intros x [[= ->]|Hx]%elem_of_cons; [lia|]. by apply IH in Hx.
  - destruct IH as [Hm Hmin]. split; [set_solver|]. intros x [?|Hx]%elem_of_cons; [done|]. by apply Hmin.
  - intros x [?|Hx]%elem_of_cons; [done|]. by apply IH in Hx.
Qed.

Lemma elem_of_filter' {X : Type} (P : X -> bool) x l : x ∈ List.filter P l <-> x ∈ l /\ P x = true.
Proof. rewrite !list_elem_of_In. apply List.filter_In. Qed.

Section correct.
Context `{ShortestPaths} (g : Graph) (tab : Heading -> Heading -> Z).
Hypothesis wf : lattice_graph g.
Hypothesis tab_nonneg : forall a b, 0 <= tab a b.

Lemma elem_out es u e : e ∈ out es u <-> e ∈ es /\ e_src e = u.
Proof. unfold out. rewrite elem_of_filter'. by rewrite bool_decide_eq_true. Qed.

Lemma elem_chosen sel e : e ∈ chosen g sel <-> e ∈ g_edges g /\ sel (e_src e) = true /\ sel (e_dst e) = true.
Proof. unfold chosen. rewrite elem_of_filter'. by rewrite andb_true_iff. Qed.

Lemma edge_unique e e' : e ∈ g_edges g -> e' ∈ g_edges g -> e_src e = e_src e' -> e_dst e = e_dst e' -> e = e'.
Proof.
  intros He He' Hs Hd. pose proof (lg_once g wf) as Hn. apply list_elem_of_lookup in He as (i & Hi). apply list_elem_of_lookup in He' as (j & Hj).
  assert (i = j) as ->; [|congruence].
  apply (NoDup_lookup _ i j (e_src e, e_dst e) Hn); rewrite list_lookup_fmap; [by rewrite Hi | by rewrite Hj, Hs, Hd].
Qed.

Lemma leads_weaken sel sel' u p t c : (forall x, x ∈ u :: p -> sel' x = true) -> leads g sel u p t c -> leads g sel' u p t c.
Proof.
  intros Hs Hl. induction Hl as [u Hu|e p t c He Hu Hl IH]; constructor; auto.
  - apply Hs. set_solver.
  - apply Hs. set_solver.
  - apply IH. intros x Hx. apply Hs. set_solver.
Qed.

Lemma leads_sel sel u p t c x : leads g sel u p t c -> x ∈ u :: p -> sel x = true.
Proof. induction 1 as [u Hu|e p t c He Hu Hl IH]; intros [->|Hx]%elem_of_cons; auto; set_solver. Qed.

Lemma leads_everywhere sel u p t c : leads g sel u p t c -> leads g everywhere u p t c.
Proof. by apply leads_weaken. Qed.

Lemma leads_dst_sel sel u p t c : leads g sel u p t c -> sel t = true.
Proof. induction 1; auto. Qed.

Lemma turn_sum_nonneg hs : 0 <= turn_sum tab hs.
Proof.
  induction hs as [|[a|] hs IH]; cbn; [lia| |done]. destruct hs as [|[b|] hs]; cbn in *; try lia. pose proof (tab_nonneg a b). lia.
Qed.

Lemma path_turn_nonneg p : 0 <= path_turn g tab p.
Proof. destruct p; cbn; [lia|]. apply turn_sum_nonneg. Qed.

Lemma path_turn_edge e p : e ∈ g_edges g ->
  path_turn g tab (e_src e :: e_dst e :: p) = turn_sum tab (Some (e_h e) :: path_headings g (e_dst e) p).
Proof. intros He. unfold path_turn, path_headings at 1. by rewrite (lg_heading g wf e He). Qed.

(** *** The expanded graph *)

Definition expanded_steps (es : list edge) (s : nat * Heading) : list (Z * (nat * Heading)) :=
  (fun e => (e_w e + tab s.2 (e_h e), (e_dst e, e_h e))) <$> out es s.1.

Section chosen_edges.
Context (sel : nat -> bool) (dst : nat).
Hypothesis sel_dst : sel dst = true.
Notation es := (chosen g sel).
Notation goal := (fun s : nat * Heading => bool_decide (s.1 = dst)).
Notation goals := ((fun h => (dst, h)) <$> all_headings).

Lemma elem_all_headings h : h ∈ all_headings.
Proof. destruct h; cbn; set_solver. Qed.

Lemma expanded_reverse s w s' : (w, s') ∈ expanded_steps es s <-> (s', s, w) ∈ expanded_arcs tab es.
Proof.
  destruct s as [u hin]. unfold expanded_steps, expanded_arcs. rewrite list_elem_of_fmap, list_elem_of_bind. cbn [fst snd]. split.
  - intros (e & [= -> ->] & [He <-]%elem_out). exists e. split; [|done]. apply list_elem_of_fmap. exists hin. split; [done|apply elem_all_headings].
  - intros (e & (h & [= -> -> -> ->] & _)%list_elem_of_fmap & He). exists e. split; [done|]. by apply elem_out.
Qed.

Lemma goals_exact s : goal s = true <-> s ∈ goals.
Proof.
  destruct s as [c h]. cbn [fst]. rewrite bool_decide_eq_true, list_elem_of_fmap. split.
  - intros ->. exists h. split; [done|apply elem_all_headings].
  - by intros (h' & [= -> ->] & _).
Qed.

Lemma expanded_costs : costs_at_least (expanded_arcs tab es) 1.
Proof.
  apply Forall_forall. intros [[s' s] w] Hin. apply expanded_reverse in Hin. unfold expanded_steps in Hin.
  apply list_elem_of_fmap in Hin as (e & [= -> ->] & [[He _]%elem_chosen _]%elem_out). cbn.
  pose proof (lg_cost g wf e He). pose proof (tab_nonneg s.2 (e_h e)). lia.
Qed.

Lemma chosen_once : NoDup ((fun e => (e_src e, e_dst e)) <$> es).
Proof.
  pose proof (lg_once g wf) as Hn. unfold chosen. induction (g_edges g) as [|e l IH]; cbn in *; [constructor|].
  apply NoDup_cons in Hn as [Hni Hn]. destruct (sel (e_src e) && sel (e_dst e)); [|by apply IH]. cbn. constructor; [|by apply IH].
  contradict Hni. apply list_elem_of_fmap in Hni as (x & Hx & [Hin _]%elem_of_filter'). apply list_elem_of_fmap. by exists x.
Qed.

Lemma expanded_once : NoDup (expanded_arcs tab es).*1.
Proof.
  pose proof chosen_once as Hn. unfold expanded_arcs. induction es as [|e l IH]; [constructor|].
  rewrite fmap_cons in Hn. apply NoDup_cons in Hn as [Hni Hn]. rewrite bind_cons, fmap_app. apply NoDup_app. split; [|split; [|by apply IH]].
  - rewrite <-list_fmap_compose. apply NoDup_fmap_2; [intros a b; cbn; congruence|]. cbn. repeat constructor; set_solver.
  - intros [s' s] Hin Hin'. apply Hni. apply list_elem_of_fmap in Hin as ([[? ?] ?] & [= -> ->] & (h & [= -> -> _] & _)%list_elem_of_fmap).
    apply list_elem_of_fmap in Hin' as ([[? ?] ?] & [= <- <-] & (x & (h' & [= -> _ -> _ _] & _)%list_elem_of_fmap & Hx)%list_elem_of_bind).
    apply list_elem_of_fmap. by exists x.
Qed.

(** A completion of a state is a route from its cell, with the turns from its heading. *)
Lemma completes_leads s p c : sel s.1 = true ->
  completes (expanded_steps es) goal fst s p c <->
  exists c1, leads g sel s.1 p dst c1 /\ c = c1 + turn_sum tab (Some s.2 :: path_headings g s.1 p).
Proof.
  intros Hs. split.
  - intros Hc. revert Hs. induction Hc as [s Hg|s w s' p c Hst Hc IH]; intros Hs.
    + bprop. exists 0. cbn. rewrite Hg. split; [by constructor|lia].
    + unfold expanded_steps in Hst. apply list_elem_of_fmap in Hst as (e & [= -> ->] & [(He & Hs1 & Hs2)%elem_chosen Hsrc]%elem_out).
      cbn [fst snd] in *. destruct (IH Hs2) as (c1 & Hl & ->). exists (e_w e + c1). rewrite <-Hsrc. split; [by constructor|].
      cbn [path_headings]. rewrite (lg_heading g wf e He). cbn. lia.
  - intros (c1 & Hl & ->). destruct s as [u h]. cbn [fst snd] in *. clear Hs. revert h.
    remember dst as t eqn:Ht. induction Hl as [u Hu|e p t c He Hu Hl IH]; intros h.
    + cbn. constructor. by apply bool_decide_eq_true.
    + cbn [path_headings]. rewrite (lg_heading g wf e He).
      replace (e_w e + c + turn_sum tab (Some h :: Some (e_h e) :: path_headings g (e_dst e) p))
        with ((e_w e + tab h (e_h e)) + (c + turn_sum tab (Some (e_h e) :: path_headings g (e_dst e) p))) by (cbn; lia).
      apply (completes_step (expanded_steps es) (fun s => bool_decide (s.1 = t)) fst (e_src e, h) _ (e_dst e, e_h e)); [|by apply IH].
      unfold expanded_steps. apply list_elem_of_fmap. exists e. split; [done|]. apply elem_out. split; [|done].
      apply elem_chosen. split; [done|]. split; [done|]. eapply leads_sel; [exact Hl|]. set_solver.
Qed.

(** What the distances give the walk *)
Section walking.
Context (limit : option Z).
Notation D := (dijkstra (expanded_arcs tab es) goals limit).

Lemma D_facts :
  (forall s d, D s = Some d -> is_min (expanded_steps es) goal fst s d)
  /\ (forall s d w s' d', D s = Some d -> (w, s') ∈ expanded_steps es s -> is_min (expanded_steps es) goal fst s' d' -> w + d' <= d -> D s' = Some d')
  /\ (forall s d, is_min (expanded_steps es) goal fst s d -> within_limit limit d -> D s = Some d).
Proof. apply dijkstra_to_goal; [apply expanded_reverse | apply goals_exact | apply expanded_costs | apply expanded_once]. Qed.

Lemma tight_key_small val best e e' u : e ∈ out es u -> e' ∈ out es u -> val e' = best ->
  tight_key val best e <= tight_key val best e' -> val e = best /\ (e_dst e <= e_dst e')%nat.
Proof.
  intros _ [[He' _]%elem_chosen _]%elem_out Hv. unfold tight_key. rewrite (bool_decide_eq_true_2 _ Hv).
  apply (lg_both g wf) in He'. pose proof (lg_cells g wf _ He') as Hn. cbn in Hn. pose proof (lg_size g wf).
  case_bool_decide as Hb; intros Hle; [split; [done|lia]|lia].
Qed.

Lemma next_smallest s x : x ∈ expanded_steps es s -> tight D s x = true ->
  exists y, y ∈ expanded_steps es s /\ tight D s y = true /\ next_state tab es D s = Some y.2 /\ (fst y.2 <= fst x.2)%nat.
Proof.
  unfold expanded_steps. intros (e & -> & He)%list_elem_of_fmap Ht. unfold tight in Ht. bprop. cbn in Ht. unfold next_state.
  set (val := fun e => (fun d => e_w e + tab s.2 (e_h e) + d) <$> D (e_dst e, e_h e)).
  pose proof (argmin_spec (tight_key val (D s)) (out es s.1)) as Hm. destruct (argmin _ _) as [e'|]; [|rewrite Hm in He; set_solver].
  destruct Hm as [He' Hmin]. destruct (tight_key_small val (D s) e' e s.1 He' He Ht (Hmin e He)) as [Hv Hle].
  exists (e_w e' + tab s.2 (e_h e'), (e_dst e', e_h e')). split; [apply list_elem_of_fmap; by exists e'|].
  split; [by apply bool_decide_eq_true|]. split; done.
Qed.

Lemma steps_labels s x y : x ∈ expanded_steps es s -> y ∈ expanded_steps es s -> fst x.2 = fst y.2 -> x = y.
Proof.
  unfold expanded_steps. intros (e & -> & [[He _]%elem_chosen Hs]%elem_out)%list_elem_of_fmap.
  intros (e' & -> & [[He' _]%elem_chosen Hs']%elem_out)%list_elem_of_fmap. cbn. intros Hd.
  by rewrite (edge_unique e e') by congruence.
Qed.

Lemma expanded_steps_cost s w s' : (w, s') ∈ expanded_steps es s -> 1 <= w.
Proof.
  intros Hs%expanded_reverse. pose proof expanded_costs as Hc. unfold costs_at_least in Hc. rewrite Forall_forall in Hc.
  by apply Hc in Hs.
Qed.

Lemma walk_from fuel s d : D s = Some d -> d <= Z.of_nat fuel ->
  exists p, canonical goal fst (next_state tab es D) fuel s = Some p
    /\ completes (expanded_steps es) goal fst s p d /\ forall q, completes (expanded_steps es) goal fst s q d -> lex_le p q.
Proof.
  destruct D_facts as (Hexact & Hclosed & _). intros Hd Hf.
  apply (canonical_walk (expanded_steps es) goal fst D (next_state tab es D)); try done.
  - apply expanded_steps_cost.
  - apply steps_labels.
  - intros s0 x _ Hx Ht _. by apply next_smallest.
Qed.

(** A route over the edge [e] and then [q], seen from the state after [e] *)
Lemma route_completes e q c : e ∈ es -> leads g sel (e_dst e) q dst c ->
  completes (expanded_steps es) goal fst (e_dst e, e_h e) q (c + path_turn g tab (e_src e :: e_dst e :: q)).
Proof.
  intros (He & _ & Hs)%elem_chosen Hl. apply completes_leads; [done|]. exists c. split; [done|]. by rewrite path_turn_edge.
Qed.

Lemma completes_route e q d : e ∈ es -> completes (expanded_steps es) goal fst (e_dst e, e_h e) q d ->
  exists c, leads g sel (e_src e) (e_dst e :: q) dst (e_w e + c)
    /\ e_w e + d = e_w e + c + path_turn g tab (e_src e :: e_dst e :: q).
Proof.
  intros (He & Hs1 & Hs2)%elem_chosen Hc. apply completes_leads in Hc as (c & Hl & ->); [|done]. exists c.
  split; [by constructor|]. rewrite path_turn_edge by done. cbn [fst snd]. lia.
Qed.

(** The value of an edge out of the start is the cost of the best route over it. *)
Lemma edge_value e q c T : e ∈ es -> leads g sel (e_dst e) q dst c ->
  e_w e + c + path_turn g tab (e_src e :: e_dst e :: q) <= T -> within_limit limit T ->
  exists d, D (e_dst e, e_h e) = Some d /\ e_w e + d <= e_w e + c + path_turn g tab (e_src e :: e_dst e :: q).
Proof.
  intros He Hl HT Hlim. pose proof (route_completes e q c He Hl) as Hc. destruct D_facts as (_ & _ & Hfind).
  destruct (min_exists (expanded_steps es) goal fst (expanded_arcs tab es) goals expanded_reverse goals_exact _ _ _
    (costs_weaken _ 1 0 ltac:(lia) expanded_costs) Hc) as (d & Hd & Hle).
  exists d. split; [|lia]. apply Hfind; [done|]. apply elem_chosen in He as [He _]. pose proof (lg_cost g wf e He).
  destruct limit as [l|]; cbn in *; [lia|done].
Qed.
End walking.

(** [expanded] finds the cheapest route among the selected cells when there is one within the limit. *)
Lemma expanded_cheapest src limit q0 c0 : src <> dst ->
  leads g sel src q0 dst c0 -> within_limit limit (c0 + path_turn g tab (src :: q0)) ->
  exists J p, expanded g tab sel src dst limit = Ok (Some (J, p)) /\ cheapest g tab sel src dst J p
    /\ J <= c0 + path_turn g tab (src :: q0).
Proof.
  intros Hne Hl0 Hlim. set (T := c0 + path_turn g tab (src :: q0)) in *. unfold expanded. rewrite bool_decide_eq_false_2 by done. cbv zeta.
  set (D := dijkstra _ _ limit). set (val := fun e => (fun d => e_w e + d) <$> D (e_dst e, e_h e)).
  assert (Hval : forall q c, leads g sel src q dst c -> c + path_turn g tab (src :: q) <= T ->
    exists e q' d, q = e_dst e :: q' /\ e ∈ out es src /\ val e = Some (e_w e + d) /\ e_w e + d <= c + path_turn g tab (src :: q)
      /\ completes (expanded_steps es) goal fst (e_dst e, e_h e) q' (c + path_turn g tab (src :: q) - e_w e)).
  { intros q c Hl Hle. inversion Hl as [|e q' ? c' He Hs Hl']; subst; [done|].
    assert (Hin : e ∈ es) by (apply elem_chosen; repeat split; try done; eapply leads_sel; [exact Hl'|set_solver]).
    destruct (edge_value limit e q' c' T Hin Hl' Hle Hlim) as (d & Hd & Hdle). exists e, q', d. split; [done|].
    split; [by apply elem_out|]. split; [unfold val, D; by rewrite Hd|]. split; [done|].
    replace (e_w e + c' + _ - e_w e) with (c' + path_turn g tab (e_src e :: e_dst e :: q')) by lia. by apply route_completes. }
  destruct (Hval q0 c0 Hl0 ltac:(unfold T; lia)) as (e0 & q0' & d0 & -> & He0 & Hv0 & Hd0 & _).
  pose proof (min_cost_spec (val <$> out es src)) as Hmin. destruct (min_cost _) as [cost|].
  2: { exfalso. apply (Hmin (e_w e0 + d0)). apply list_elem_of_fmap. by exists e0. }
  destruct Hmin as [(e1 & Hv1 & He1)%list_elem_of_fmap Hmin].
  assert (Hcost : cost <= T).
  { specialize (Hmin (e_w e0 + d0)). unfold T. etrans; [apply Hmin | exact Hd0]. apply list_elem_of_fmap. by exists e0. }
  pose proof (argmin_spec (tight_key val (Some cost)) (out es src)) as Ha. destruct (argmin _ _) as [e|]; [|rewrite Ha in He1; set_solver].
  destruct Ha as [He Ha]. destruct (tight_key_small val (Some cost) e e1 src He He1 (eq_sym Hv1) (Ha e1 He1)) as [Hv _].
  assert (Hd : D (e_dst e, e_h e) = Some (cost - e_w e)).
  { unfold val in Hv. destruct (D (e_dst e, e_h e)) as [d|]; cbn in Hv; [|done]. f_equal. injection Hv. lia. }
  apply elem_out in He as [He Hsrc]. pose proof (proj1 (proj1 (elem_chosen sel e) He)) as Heg. pose proof (lg_cost g wf e Heg).
  destruct (walk_from limit (Z.to_nat cost) _ _ Hd ltac:(lia)) as (p & Hwalk & Hp & Hlex). fold D in Hwalk. rewrite Hwalk.
  exists cost, (src :: e_dst e :: p). split; [done|]. destruct (completes_route e p _ He Hp) as (c & Hl & Htot).
  split; [|done]. rewrite Hsrc in *. split; [exists (e_dst e :: p), (e_w e + c); repeat split; [done|lia]|].
  intros q c' Hl'. destruct (Z_le_gt_dec (c' + path_turn g tab (src :: q)) T) as [Hle|Hgt]; [|lia].
  destruct (Hval q c' Hl' Hle) as (e2 & q2 & d2 & -> & He2 & Hv2 & Hd2 & Hc2).
  assert (Hge : cost <= e_w e2 + d2) by (apply Hmin, list_elem_of_fmap; by exists e2).
  split; [lia|]. intros HJ. assert (e_w e2 + d2 = cost) as Heq by lia.
  destruct (tight_key_small val (Some cost) e e2 src) as [_ Hle2]; [by apply elem_out|done|congruence|by apply Ha|].
  cbn. right. split; [done|]. destruct (decide (e_dst e = e_dst e2)) as [Hsame|]; [right|left; lia]. split; [done|].
  apply elem_out in He2 as [[He2 _]%elem_chosen Hs2]. assert (e = e2) as <- by (apply edge_unique; congruence).
  apply Hlex. by rewrite <-HJ in Hc2.
Qed.

End chosen_edges.

(** *** The plain graph *)

Lemma plain_reverse u w v : (w, v) ∈ plain_steps g u <-> (v, u, w) ∈ plain g.
Proof.
  unfold plain_steps, plain. rewrite !list_elem_of_fmap. split.
  - intros (e & [= -> ->] & [He <-]%elem_out). exists (reversed e). split; [done|]. by apply (lg_both g wf).
  - intros (e & [= -> -> ->] & He). exists (reversed e). split; [done|]. apply elem_out. split; [by apply (lg_both g wf)|done].
Qed.

Lemma plain_costs : costs_at_least (plain g) 1.
Proof. apply Forall_forall. intros x (e & -> & He)%list_elem_of_fmap. by apply (lg_cost g wf). Qed.

Lemma plain_once : NoDup (plain g).*1.
Proof. unfold plain. rewrite <-list_fmap_compose. apply (lg_once g wf). Qed.

Lemma plain_completes dst u p c :
  completes (plain_steps g) (fun u => bool_decide (u = dst)) id u p c <-> leads g everywhere u p dst c.
Proof.
  split.
  - induction 1 as [u Hg|u w v p c Hs _ IH]; [bprop; subst; by constructor|].
    unfold plain_steps in Hs. apply list_elem_of_fmap in Hs as (e & [= -> ->] & [He <-]%elem_out). by constructor.
  - induction 1 as [u Hu|e p t c He _ _ IH]; [constructor; by apply bool_decide_eq_true|].
    apply (completes_step (plain_steps g) (fun u => bool_decide (u = t)) id (e_src e) _ (e_dst e)); [|done].
    unfold plain_steps. apply list_elem_of_fmap. exists e. split; [done|]. by apply elem_out.
Qed.

Lemma plain_labels u x y : x ∈ plain_steps g u -> y ∈ plain_steps g u -> id x.2 = id y.2 -> x = y.
Proof.
  unfold plain_steps. intros (e & -> & [He Hs]%elem_out)%list_elem_of_fmap (e' & -> & [He' Hs']%elem_out)%list_elem_of_fmap.
  cbn. intros Hd. by rewrite (edge_unique e e') by congruence.
Qed.

Lemma next_plain_smallest D u x : x ∈ plain_steps g u -> tight D u x = true ->
  exists y, y ∈ plain_steps g u /\ tight D u y = true /\ next_plain g D u = Some y.2 /\ (id y.2 <= id x.2)%nat.
Proof.
  intros Hx Ht. unfold next_plain. pose proof (min_cost_spec ((fun x => Some (Z.of_nat x.2)) <$> List.filter (tight D u) (plain_steps g u))) as Hm.
  assert (Hin : Some (Z.of_nat x.2) ∈ (fun x => Some (Z.of_nat x.2)) <$> List.filter (tight D u) (plain_steps g u)).
  { apply list_elem_of_fmap. exists x. split; [done|]. by apply elem_of_filter'. }
  destruct (min_cost _) as [m|]; [|by apply Hm in Hin]. destruct Hm as [(y & [= ->] & [Hy Hty]%elem_of_filter')%list_elem_of_fmap Hmin].
  exists y. split; [done|]. split; [done|]. split; [cbn; by rewrite Nat2Z.id|]. specialize (Hmin _ Hin). cbn. lia.
Qed.

Lemma path_turn_free p : path_turn g (fun _ _ => 0) p = 0.
Proof.
  destruct p as [|u p]; cbn; [done|]. induction (path_headings g u p) as [|[a|] hs IH]; cbn; [done| |done].
  destruct hs as [|[b|] hs]; cbn in *; lia.
Qed.

(** The plain search finds the canonical shortest route exactly when there is one. *)
Lemma plain_path_cheapest src dst :
  match plain_path g src dst None with
  | Ok (Some (J, p)) => cheapest g (fun _ _ => 0) everywhere src dst J p
  | Ok None => forall q c, ~ leads g everywhere src q dst c
  | Raise _ => False
  end.
Proof.
  unfold plain_path. set (goal := fun u : nat => bool_decide (u = dst)).
  assert (Hgoal : forall u, goal u = true <-> u ∈ [dst]).
  { intros u. unfold goal. rewrite bool_decide_eq_true. set_solver. }
  destruct (dijkstra_to_goal (plain_steps g) goal id (plain g) [dst] plain_reverse Hgoal None plain_costs plain_once) as (Hexact & Hclosed & Hfind).
  destruct (dijkstra (plain g) [dst] None src) as [cost|] eqn:Hsrc.
  - assert (Hsteps : forall s w s', (w, s') ∈ plain_steps g s -> 1 <= w).
    { intros s w s' Hs%plain_reverse. pose proof plain_costs as Hc. unfold costs_at_least in Hc. rewrite Forall_forall in Hc. by apply Hc in Hs. }
    destruct (Hexact _ _ Hsrc) as [(p0 & Hp0) Hmin]. pose proof (completes_nonneg _ _ _ Hsteps _ _ _ Hp0).
    destruct (canonical_walk (plain_steps g) goal id (dijkstra (plain g) [dst] None) (next_plain g (dijkstra (plain g) [dst] None))
      Hsteps plain_labels Hexact Hclosed ltac:(intros; by apply next_plain_smallest) (Z.to_nat cost) src cost Hsrc ltac:(lia)) as (p & -> & Hp & Hlex).
    split; [exists p, cost; rewrite path_turn_free; repeat split; [by apply plain_completes|lia]|].
    intros q c Hq. rewrite path_turn_free, Z.add_0_r. apply plain_completes in Hq. split; [by eapply Hmin|]. intros ->. cbn. right. auto.
  - intros q c Hq. apply plain_completes in Hq.
    destruct (min_exists (plain_steps g) goal id (plain g) [dst] plain_reverse Hgoal _ _ _ (costs_weaken _ 1 0 ltac:(lia) plain_costs) Hq) as (d & Hd & _).
    apply Hfind in Hd; [congruence|done].
Qed.


(** *** The restriction to cheap cells *)

Lemma leads_walk sel u q t c : leads g sel u q t c -> walk (plain g) u t c.
Proof.
  induction 1 as [u _|e q t c He _ _ IH]; [constructor|]. eapply walk_arc; [|done].
  unfold plain. apply list_elem_of_fmap. by exists e.
Qed.

(** A route splits at each of its cells. *)
Lemma leads_split sel u q t c x : leads g sel u q t c -> x ∈ u :: q ->
  exists c1 c2, walk (plain g) u x c1 /\ walk (plain g) x t c2 /\ c1 + c2 = c.
Proof.
  intros Hl. induction Hl as [u Hu|e q t c He Hs Hl IH]; intros Hx.
  - assert (x = u) as -> by set_solver. exists 0, 0. repeat split; constructor.
  - apply elem_of_cons in Hx as [->|Hx].
    + exists 0, (e_w e + c). split; [constructor|]. split; [|lia]. eapply leads_walk, leads_edge; done.
    + destruct (IH Hx) as (c1 & c2 & H1 & H2 & <-). exists (e_w e + c1), c2. split; [|split; [done|lia]].
      eapply walk_arc; [|done]. unfold plain. apply list_elem_of_fmap. by exists e.
Qed.

(** The distances the caller may pass *)
Definition distances_to (dst : nat) (d_t : option (nat -> option Z)) : Prop :=
  match d_t with None => True | Some f => forall x d, f x = Some d <-> is_distance (plain g) [dst] x d end.

Lemma plain_symmetric a b d : walk (plain g) a b d -> walk (plain g) b a d.
Proof.
  apply walk_reverse. intros x y w (e & [= -> -> ->] & He)%list_elem_of_fmap. apply list_elem_of_fmap.
  exists (reversed e). split; [done|]. by apply (lg_both g wf).
Qed.

Lemma distance_within src x c j : walk (plain g) src x c -> c <= j ->
  exists d, dijkstra (plain g) [src] (Some (2 * j + 1)) x = Some d /\ d <= c.
Proof.
  intros Hw Hj. destruct (Rounds.distance_exists (plain g) [src] src x c (costs_weaken _ 1 0 ltac:(lia) plain_costs) ltac:(set_solver) Hw) as (d & Hd & Hle).
  exists d. split; [|done]. apply dijkstra_spec; [apply plain_costs | apply plain_once |]. split; [done|]. cbn. lia.
Qed.

Lemma cheap_cells src dst j d_t q c x : distances_to dst d_t -> leads g everywhere src q dst c -> c <= j ->
  x ∈ src :: q -> on_cheap_route g src dst j d_t x = true.
Proof.
  intros Hdt Hl Hj Hx. destruct (leads_split _ _ _ _ _ _ Hl Hx) as (c1 & c2 & H1 & H2%plain_symmetric & Hc).
  pose proof (walk_nonneg _ _ _ _ 1 plain_costs ltac:(lia) H1). pose proof (walk_nonneg _ _ _ _ 1 plain_costs ltac:(lia) H2).
  destruct (distance_within src x c1 j H1 ltac:(lia)) as (a & Ha & Hac). unfold on_cheap_route. rewrite Ha.
  assert (exists b, match d_t with Some d => d | None => dijkstra (plain g) [dst] (Some (2 * j + 1)) end x = Some b /\ b <= c2) as (b & -> & Hb).
  { destruct d_t as [f|]; [|by apply distance_within; [|lia]].
    destruct (Rounds.distance_exists (plain g) [dst] dst x c2 (costs_weaken _ 1 0 ltac:(lia) plain_costs) ltac:(set_solver) H2) as (d & Hd & Hle).
    exists d. split; [by apply Hdt|done]. }
  apply bool_decide_eq_true. lia.
Qed.

Lemma restricted_cheapest src dst j d_t q0 c0 : src <> dst -> distances_to dst d_t ->
  leads g everywhere src q0 dst c0 -> c0 + path_turn g tab (src :: q0) = j ->
  exists J p, restricted g tab src dst j d_t = Ok (Some (J, p)) /\ cheapest g tab everywhere src dst J p.
Proof.
  intros Hne Hdt Hl0 Hj. unfold restricted. set (E := on_cheap_route g src dst j d_t).
  assert (HE : forall q c, leads g everywhere src q dst c -> c + path_turn g tab (src :: q) <= j -> leads g E src q dst c).
  { intros q c Hl Hle. eapply leads_weaken; [|exact Hl]. intros x Hx. pose proof (path_turn_nonneg (src :: q)).
    eapply cheap_cells; [done|exact Hl|lia|done]. }
  pose proof (HE q0 c0 Hl0 ltac:(lia)) as HlE.
  destruct (expanded_cheapest E dst (leads_dst_sel _ _ _ _ _ HlE) src (Some (2 * j + 1)) q0 c0 Hne HlE ltac:(unfold within_limit; lia)) as (J & p & -> & [Hp Hmin] & HJ).
  exists J, p. split; [done|]. split.
  - destruct Hp as (q & c & -> & Hq & HJq). exists q, c. repeat split; try done. by eapply leads_everywhere.
  - intros q c Hq. destruct (Z_le_gt_dec (c + path_turn g tab (src :: q)) j) as [Hle|]; [by apply Hmin, HE|lia].
Qed.

(** A route of the graph that is no worse than the plain optimum with its turns *)
Lemma incumbent_route src dst q0 cost0 : src <> dst -> leads g everywhere src q0 dst cost0 ->
  exists J q c, incumbent g tab src dst (src :: q0) cost0 = Ok (J, src :: q) /\ leads g everywhere src q dst c
    /\ J = c + path_turn g tab (src :: q).
Proof.
  intros Hne Hl. unfold incumbent. case_bool_decide as Hj; [exists (cost0 + path_turn g tab (src :: q0)), q0, cost0; done|].
  set (near' := near g (src :: q0) BAND).
  assert (Hnear : leads g near' src q0 dst cost0).
  { eapply leads_weaken; [|exact Hl]. intros x Hx. unfold near', near. apply bool_decide_eq_true.
    unfold band_keys. apply list_elem_of_bind. exists x. split; [|done]. apply list_elem_of_bind. exists 0. split; [|vm_compute; set_solver].
    apply list_elem_of_fmap. exists 0. rewrite !Z.add_0_r. split; [done|vm_compute; set_solver]. }
  destruct (expanded_cheapest near' dst (leads_dst_sel _ _ _ _ _ Hnear) src (Some (2 * (cost0 + path_turn g tab (src :: q0)) + 1)) q0 cost0 Hne Hnear
    ltac:(unfold within_limit; lia)) as (J & p & -> & [(q & c & -> & Hq & HJ) _] & _).
  destruct (decide _).
  - exists J, q, c. repeat split; try done. by eapply leads_everywhere.
  - by exists (cost0 + path_turn g tab (src :: q0)), q0, cost0.
Qed.

Lemma route_cheapest src dst p0 cost0 d_t : distances_to dst d_t ->
  cheapest g (fun _ _ => 0) everywhere src dst cost0 p0 ->
  exists J p, route g tab src dst p0 cost0 d_t = Ok (J, p) /\ cheapest g tab everywhere src dst J p.
Proof.
  intros Hdt [(q0 & c0 & -> & Hl0 & Hc0) Hmin0]. rewrite path_turn_free, Z.add_0_r in Hc0. subst c0. unfold route.
  destruct (decide (path_turn g tab (src :: q0) = 0)) as [Hz|Hz].
  - assert (Hinc : incumbent g tab src dst (src :: q0) cost0 = Ok (cost0, src :: q0)).
    { unfold incumbent. rewrite Hz, Z.add_0_r. by rewrite bool_decide_eq_true_2. }
    rewrite Hinc, !bool_decide_eq_true_2 by done. cbn [andb]. exists cost0, (src :: q0). split; [done|].
    split; [exists q0, cost0; rewrite Hz; repeat split; [done|lia]|]. intros q c Hq. destruct (Hmin0 q c Hq) as [Hle Hlex].
    rewrite path_turn_free, Z.add_0_r in *. pose proof (path_turn_nonneg (src :: q)). split; [lia|]. intros. apply Hlex. lia.
  - assert (Hne : src <> dst).
    { intros ->. destruct (Hmin0 [] 0) as [Hle _]; [by constructor|]. rewrite path_turn_free in Hle.
      destruct q0 as [|v q0]; [done|]. inversion Hl0 as [|e ? ? ? He _ Hl1]; subst. pose proof (lg_cost g wf e He).
      apply leads_walk in Hl1. pose proof (walk_nonneg _ _ _ _ 1 plain_costs ltac:(lia) Hl1). lia. }
    destruct (incumbent_route src dst q0 cost0 Hne Hl0) as (J & q & c & Hinc & Hq & HJ). rewrite Hinc.
    destruct (bool_decide (J = cost0) && bool_decide (src :: q = src :: q0)) eqn:Hb.
    { apply andb_true_iff in Hb as [Hb1 Hb2]. bprop. simplify_eq. exfalso. 
      unfold incumbent in Hinc. pose proof (leads_walk _ _ _ _ _ Hq). destruct (Hmin0 _ _ Hq) as [Hle _]. rewrite path_turn_free in Hle.
      pose proof (path_turn_nonneg (src :: q0)). lia. }
    destruct (restricted_cheapest src dst J d_t q c Hne Hdt Hq (eq_sym HJ)) as (J' & p' & -> & Hbest). by exists J', p'.
Qed.

(** The whole search: the canonical cheapest route, or none exactly when the goal cannot be reached *)
Lemma full_search_cheapest src dst :
  match full_search g tab src dst with
  | Ok (Some (J, p)) => cheapest g tab everywhere src dst J p
  | Ok None => forall q c, ~ leads g everywhere src q dst c
  | Raise _ => False
  end.
Proof.
  unfold full_search. pose proof (plain_path_cheapest src dst) as Hp. destruct (plain_path g src dst None) as [[[cost0 p0]|]|]; [|done|done].
  destruct (route_cheapest src dst p0 cost0 (Some (dijkstra (plain g) [dst] None))) as (J & p & -> & Hbest); [|done|done].
  intros x d. rewrite dijkstra_spec by apply plain_costs || apply plain_once. cbn. tauto.
Qed.

End correct.
