(* ===== verification/LatticePlan.v ===== *)
(** * The planner's lattice search

    packages/services/mission_planner/lazy_plan.py, [PlanGraph._cells] and [PlanGraph._search]: the cells of the
    stored tiles, the graph of their 8-neighbour steps (a diagonal needs both orthogonal cells navigable), and the
    canonical cheapest route on it, without turn costs ([TurnSearch.plain_path]) and with them (the ["full"] search,
    [TurnSearch.full_search]). Lengths, prices and rates are rationals where the code has floats; which cells an
    overlay or a bound leaves out is the argument [alive]. The corridor of charts ([_rings]) is modelled, the
    ellipse that widens it under an overlay is floating-point geometry and is not. *)

From S2P Require Import Prelude ShortestPaths TurnSearch.
From stdpp Require Import sorting.
From Stdlib Require Import QArith Qround.

Local Open Scope Z_scope.

(** ** Cells of the tiles *)

Record cell := Cell { c_y : Z; c_x : Z; c_chart : Z }.
#[export] Instance cell_eq_dec : EqDecision cell.
Proof. solve_decision. Defined.

Definition TILE_L : Z := 64.
Definition key (c : cell) : Z := cell_key (c_y c) (c_x c).

Definition key_le (a b : cell) : Prop := key a <= key b.
#[export] Instance key_le_dec : RelDecision key_le.
Proof. intros a b. unfold key_le. apply _. Defined.
#[export] Instance key_le_total : Total key_le.
Proof. intros a b. unfold key_le. lia. Qed.
#[export] Instance key_le_trans : Transitive key_le.
Proof. intros a b c. unfold key_le. lia. Qed.

(** [lut[np.minimum(o, len(lut) - 1)]] *)
Definition chart_of (lut : list Z) (o : Z) : Z := default (-1) (lut !! Z.to_nat (Z.min o (Z.of_nat (length lut) - 1))).

(** The owned cells of a tile, row by row; [own] is [None] for a tile without an owner plane *)
Definition tile_cells (lut : list Z) (own : Z * Z -> option (Z -> Z -> Z)) (t : Z * Z) : list cell :=
  match own t with
  | None => []
  | Some o =>
      iy ← Z.of_nat <$> seq 0 64; ix ← Z.of_nat <$> seq 0 64;
      if decide (0 < o iy ix) then [Cell (iy + t.2 * TILE_L) (ix + t.1 * TILE_L) (chart_of lut (o iy ix))] else []
  end.

(** [_cells]: every owned cell, ascending by key *)
Definition cells (lut : list Z) (own : Z * Z -> option (Z -> Z -> Z)) (tiles : list (Z * Z)) : list cell :=
  merge_sort key_le (tiles ≫= tile_cells lut own).

(** ** The corridor of charts *)

(** [_rings]: the charts of the path and those within [hops] links of it *)
Fixpoint rings (adj : nat -> list nat) (hops : nat) (keep ring : gset nat) : gset nat :=
  match hops with
  | O => keep
  | S hops => let nxt := list_to_set (elements ring ≫= adj) in rings adj hops (keep ∪ nxt) (nxt ∖ keep)
  end.
Definition corridor (adj : nat -> list nat) (path : list nat) (hops : nat) : gset nat :=
  rings adj hops (list_to_set path) (list_to_set path).

(** All charts within [hops] links, taking the neighbours of every chart kept at each hop *)
Fixpoint ball (adj : nat -> list nat) (hops : nat) (keep : gset nat) : gset nat :=
  match hops with O => keep | S hops => ball adj hops (keep ∪ list_to_set (elements keep ≫= adj)) end.

Lemma rings_ball adj hops : forall keep ring, ring ⊆ keep ->
  (forall c, c ∈ keep -> c ∉ ring -> forall d, d ∈ adj c -> d ∈ keep) -> rings adj hops keep ring = ball adj hops keep.
Proof.
  induction hops as [|hops IH]; intros keep ring Hsub Hdone; cbn; [done|].
  assert (Hsame : keep ∪ list_to_set (elements ring ≫= adj) = keep ∪ list_to_set (elements keep ≫= adj)).
  { apply set_eq. intros d. rewrite !elem_of_union, !elem_of_list_to_set, !list_elem_of_bind. setoid_rewrite elem_of_elements. split.
    - intros [?|(c & Hd & Hc)]; [by left|]. right. exists c. set_solver.
    - intros [?|(c & Hd & Hc)]; [by left|]. destruct (decide (c ∈ ring)); [right; by exists c|left; eauto]. }
  rewrite <-Hsame. apply IH; [set_solver|]. intros c Hc Hnr d Hd. rewrite elem_of_union in *.
  destruct (decide (c ∈ keep)) as [Hk|Hk]; [|set_solver]. destruct (decide (c ∈ ring)) as [Hr|Hr]; [|left; by eapply Hdone].
  right. apply elem_of_list_to_set, list_elem_of_bind. exists c. split; [done|]. by apply elem_of_elements.
Qed.

(** The corridor is every chart within the given number of links of the path. *)
Lemma corridor_is_ball adj path hops : corridor adj path hops = ball adj hops (list_to_set path).
Proof. apply rings_ball; set_solver. Qed.

(** ** The graph *)

(** [weights.edge_costs] *)
Definition edge_costs (units deficit_sum rate : Q) : Z :=
  if Qeq_bool rate 0 then Z.max (Qceiling (units - (1 # 1000000))) 1 else edge_weight units deficit_sum rate.

Section plane.
Context (plane : list cell) (keep : Z -> bool) (alive : Z -> Z -> bool).
(** The length of a straight and of a diagonal step in cost units, the price of a cell, and the rate *)
Context (len_units : bool -> Q) (price : cell -> Q) (rate : Q).

(** [member]: a cell of a chart to search, not blocked *)
Definition member (c : cell) : bool := keep (c_chart c) && (0 <=? c_chart c) && alive (c_y c) (c_x c).

(** [at]: the position of a key in the plane *)
Definition position (k : Z) : option nat := fst <$> list_find (fun c => key c = k) plane.

(** [np.cumsum(member) - 1]: the number of a member among the members *)
Definition node (i : nat) : nat := pred (length (List.filter member (take (S i) plane))).
(** [np.nonzero(member)] *)
Definition members : list nat := List.filter (fun i => match plane !! i with Some c => member c | None => false end) (seq 0 (length plane)).
Definition nodes : list cell := List.filter member plane.

Definition directions : list (Z * Z) := [(0, 1); (1, 0); (1, 1); (1, -1)].
Definition diagonal (d : Z * Z) : bool := negb (bool_decide (d.1 = 0)) && negb (bool_decide (d.2 = 0)).

Definition step_cost (d : Z * Z) (a b : cell) : Z := edge_costs (len_units (diagonal d)) (price a + price b) rate.

(** The edge from the member at [i] in direction [d] *)
Definition edge_at (d : Z * Z) (i : nat) : option edge :=
  match plane !! i with
  | None => None
  | Some a =>
      match position (key a + d.1 * KW + d.2) with
      | None => None
      | Some q =>
          match plane !! q with
          | None => None
          | Some b =>
              if member b && (negb (diagonal d)
                   || bool_decide (is_Some (position (key a + d.2))) && bool_decide (is_Some (position (key a + d.1 * KW))))
              then (fun h => Edge (node i) (node q) (step_cost d a b) h) <$> heading d.1 d.2
              else None
          end
      end
  end.
Definition edges : list edge := d ← directions; omap (edge_at d) members.

Definition graph : Graph := make_graph (length members) edges (c_y <$> nodes) (c_x <$> nodes).

(** [find]: the node of a cell *)
Definition find (y x : Z) : option nat :=
  match position (cell_key y x) with
  | None => None
  | Some i => match plane !! i with Some c => if member c then Some (node i) else None | None => None end
  end.

(** [rows]: the cells of a path of nodes *)
Definition rows (p : list nat) : list cell := omap (fun n => nodes !! n) p.

(** [_search] without and with turn costs: the cost and the cells *)
Definition search `{ShortestPaths} (turn : option (Z -> Q)) (src dst : Z * Z) : result unit (option (Z * list cell)) :=
  match find src.1 src.2, find dst.1 dst.2 with
  | Some s, Some d =>
      match (match turn with None => plain_path graph s d None | Some t => full_search graph (table t) s d end) with
      | Raise x => Raise x
      | Ok None => Ok None
      | Ok (Some (cost, p)) => Ok (Some (cost, rows p))
      end
  | _, _ => Ok None
  end.

End plane.

(** ** Sorted planes *)

Definition key_lt (a b : cell) : Prop := key a < key b.

(** Columns a step away from the sides of the key range: then the keys of neighbours never wrap into another row. *)
Definition in_range (c : cell) : Prop := - OFF < c_x c < OFF - 1.

Record sorted_plane (plane : list cell) : Prop := {
  sp_sorted : StronglySorted key_lt plane;
  sp_range : Forall in_range plane;
  sp_size : Z.of_nat (length plane) <= INT64_MAX;
}.

Lemma cell_key_step y x y' x' : - OFF <= x < OFF -> - OFF <= x' < OFF -> cell_key y x = cell_key y' x' <-> y = y' /\ x = x'.
Proof. unfold cell_key. change OFF with 1048576. change KW with 2097152. lia. Qed.

Lemma sorted_lookup l i j a b : StronglySorted key_lt l -> l !! i = Some a -> l !! j = Some b -> (i < j)%nat -> key a < key b.
Proof.
  intros Hs. revert i j. induction Hs as [|x l Hs IH Hx]; intros [|i] [|j] Ha Hb Hij; try done; try lia; cbn in *.
  - simplify_eq. rewrite Forall_forall in Hx. apply Hx. by eapply list_elem_of_lookup_2.
  - eapply IH; [exact Ha|exact Hb|lia].
Qed.

Lemma sorted_index l i j a b : StronglySorted key_lt l -> l !! i = Some a -> l !! j = Some b -> ((i < j)%nat <-> key a < key b).
Proof.
  intros Hs Ha Hb. split; [by eapply sorted_lookup|]. intros Hk. destruct (Nat.lt_trichotomy i j) as [?|[->|Hji]]; [done|simplify_eq; lia|].
  pose proof (sorted_lookup l j i b a Hs Hb Ha Hji). lia.
Qed.

Lemma sorted_key_inj l a b : StronglySorted key_lt l -> a ∈ l -> b ∈ l -> key a = key b -> a = b.
Proof.
  intros Hs (i & Hi)%list_elem_of_lookup (j & Hj)%list_elem_of_lookup Hk.
  destruct (Nat.lt_trichotomy i j) as [H|[->|H]]; [|congruence|].
  - pose proof (sorted_lookup l i j a b Hs Hi Hj H). lia.
  - pose proof (sorted_lookup l j i b a Hs Hj Hi H). lia.
Qed.

Lemma sorted_filter (f : cell -> bool) l : StronglySorted key_lt l -> StronglySorted key_lt (List.filter f l).
Proof.
  induction 1 as [|x l Hs IH Hx]; cbn; [constructor|]. destruct (f x); [|done]. constructor; [done|].
  rewrite Forall_forall in *. intros y [Hy _]%elem_of_filter'. auto.
Qed.

Lemma fmap_bind_inside {A B C : Type} (f : B -> C) (g : A -> list B) (l : list A) : f <$> (l ≫= g) = l ≫= (fun x => f <$> g x).
Proof. induction l as [|x l IH]; [done|]. rewrite !bind_cons, fmap_app. by f_equal. Qed.

(** [NoDup] of the results of a partial map *)
Lemma NoDup_omap_fmap {A B C : Type} (f : A -> option B) (g : B -> C) (l : list A) :
  NoDup l -> (forall x y a b, x ∈ l -> y ∈ l -> f x = Some a -> f y = Some b -> g a = g b -> x = y) -> NoDup (g <$> omap f l).
Proof.
  induction 1 as [|x l Hx Hn IH]; intros Hf; cbn; [constructor|]. assert (IH' := IH ltac:(intros; eapply Hf; try done; set_solver)).
  destruct (f x) as [a|] eqn:Ha; [|done]. cbn. constructor; [|done]. intros (b & Hb & (y & Hy & Hfy)%list_elem_of_omap)%list_elem_of_fmap.
  assert (x = y) as -> by (eapply Hf; [set_solver|set_solver|exact Ha|exact Hfy|done]). done.
Qed.

(** ** Routes on the lattice

    What the search is for, on the cells themselves: a step to one of the eight neighbours, both of them members;
    a diagonal step passes between two navigable cells. *)
Section routes.
Context (plane : list cell) (keep : Z -> bool) (alive : Z -> Z -> bool).
Context (len_units : bool -> Q) (price : cell -> Q) (rate : Q).

Definition navigable (y x : Z) : Prop := exists c, c ∈ plane /\ c_y c = y /\ c_x c = x.

Definition joined (a b : cell) : Prop :=
  a ∈ plane /\ b ∈ plane /\ member keep alive a = true /\ member keep alive b = true
  /\ is_Some (heading (c_y b - c_y a) (c_x b - c_x a))
  /\ (c_y a <> c_y b -> c_x a <> c_x b -> navigable (c_y a) (c_x b) /\ navigable (c_y b) (c_x a)).

Definition link_cost (a b : cell) : Z := step_cost len_units price rate (c_y b - c_y a, c_x b - c_x a) a b.

(** [lattice_route a p b c]: the cells [p] after [a] lead to [b], their steps costing [c] *)
Inductive lattice_route : cell -> list cell -> cell -> Z -> Prop :=
| route_here a : a ∈ plane -> member keep alive a = true -> lattice_route a [] a 0
| route_step a b p t c : joined a b -> lattice_route b p t c -> lattice_route a (b :: p) t (link_cost a b + c).

(** The turns of a route *)
Fixpoint cell_headings (a : cell) (p : list cell) : list (option Heading) :=
  match p with [] => [] | b :: p => heading (c_y b - c_y a) (c_x b - c_x a) :: cell_headings b p end.
Definition route_turn (tab : Heading -> Heading -> Z) (p : list cell) : Z :=
  match p with [] => 0 | a :: p => turn_sum tab (cell_headings a p) end.

(** Routes compared cell by cell in row-major order *)
Fixpoint cells_le (p q : list cell) : Prop :=
  match p, q with
  | [], _ => True
  | _ :: _, [] => False
  | a :: p, b :: q => key a < key b \/ a = b /\ cells_le p q
  end.

(** The cheapest route and, of those, the first in row-major order *)
Definition best_route (tab : Heading -> Heading -> Z) (a b : cell) (J : Z) (p : list cell) : Prop :=
  (exists q c, p = a :: q /\ lattice_route a q b c /\ J = c + route_turn tab p)
  /\ forall q c, lattice_route a q b c ->
       J <= c + route_turn tab (a :: q) /\ (J = c + route_turn tab (a :: q) -> cells_le p (a :: q)).
End routes.

Section correct.
Context (plane : list cell) (keep : Z -> bool) (alive : Z -> Z -> bool).
Context (len_units : bool -> Q) (price : cell -> Q) (rate : Q).
Hypothesis ok : sorted_plane plane.

Notation member := (member keep alive).
Notation nodes := (nodes plane keep alive).
Notation node := (node plane keep alive).
Notation members := (members plane keep alive).
Notation graph := (graph plane keep alive len_units price rate).

(** *** Numbers of members *)

Lemma node_spec i a : plane !! i = Some a -> member a = true -> nodes !! node i = Some a.
Proof.
  intros Hi Hm. unfold nodes, LatticePlan.nodes, node, LatticePlan.node. rewrite (take_S_r _ _ _ Hi), List.filter_app, length_app. cbn. rewrite Hm. cbn.
  rewrite <-(take_drop_middle plane i a Hi) at 2. rewrite List.filter_app. cbn. rewrite Hm.
  rewrite lookup_app_r by lia. by replace (pred (length (List.filter member (take i plane)) + 1) - _)%nat with 0%nat by lia.
Qed.

Lemma elem_members i : i ∈ members <-> exists a, plane !! i = Some a /\ member a = true.
Proof.
  unfold members, LatticePlan.members. rewrite elem_of_filter', elem_of_seq. split.
  - intros [_ H]. destruct (plane !! i) as [a|]; [by exists a|done].
  - intros (a & Ha & Hm). rewrite Ha. split; [|done]. apply lookup_lt_Some in Ha. lia.
Qed.

Lemma members_length : length members = length nodes.
Proof.
  unfold members, LatticePlan.members, nodes, LatticePlan.nodes. set (f := LatticePlan.member keep alive). clearbody f. clear ok.
  cut (forall l k, length (List.filter (fun i => match (repeat (Cell 0 0 0) k ++ l) !! i with Some c => f c | None => false end) (seq k (length l)))
    = length (List.filter f l)); [intros H; apply (H plane 0%nat)|].
  induction l as [|a l IH]; intros k; cbn; [done|]. rewrite lookup_app_r by (rewrite repeat_length; lia). rewrite repeat_length, Nat.sub_diag. cbn.
  specialize (IH (S k)). 
  assert (Hext : List.filter (fun i => match (repeat (Cell 0 0 0) k ++ a :: l) !! i with Some c => f c | None => false end) (seq (S k) (length l))
    = List.filter (fun i => match (repeat (Cell 0 0 0) (S k) ++ l) !! i with Some c => f c | None => false end) (seq (S k) (length l))).
  { apply List.filter_ext_in. intros i [Hi _]%List.in_seq. rewrite !lookup_app_r by (rewrite repeat_length; lia). rewrite !repeat_length.
    replace (i - k)%nat with (S (i - S k)) by lia. done. }
  destruct (f a); cbn; rewrite Hext, IH; done.
Qed.

Lemma nodes_sorted : StronglySorted key_lt nodes.
Proof. apply sorted_filter, (sp_sorted _ ok). Qed.

Lemma nodes_member n a : nodes !! n = Some a -> a ∈ plane /\ member a = true.
Proof. intros H%list_elem_of_lookup_2. by apply elem_of_filter' in H. Qed.

Lemma nodes_inj n m a : nodes !! n = Some a -> nodes !! m = Some a -> n = m.
Proof.
  intros Hn Hm. destruct (Nat.lt_trichotomy n m) as [H|[?|H]]; [|done|].
  - pose proof (sorted_lookup _ _ _ _ _ nodes_sorted Hn Hm H). lia.
  - pose proof (sorted_lookup _ _ _ _ _ nodes_sorted Hm Hn H). lia.
Qed.

Lemma member_node a : a ∈ plane -> member a = true -> exists i, plane !! i = Some a /\ i ∈ members /\ nodes !! node i = Some a.
Proof.
  intros (i & Hi)%list_elem_of_lookup Hm. exists i. split; [done|]. split; [apply elem_members; eauto|]. by apply node_spec.
Qed.

Lemma plane_range a : a ∈ plane -> in_range a.
Proof. intros Ha. pose proof (sp_range _ ok) as Hr. rewrite Forall_forall in Hr. auto. Qed.

(** A key in the plane is found at its cell. *)
Lemma position_spec k i : position plane k = Some i -> exists a, plane !! i = Some a /\ key a = k.
Proof.
  unfold position. destruct (list_find _ plane) as [[j a]|] eqn:Hf; cbn; [|done]. intros [= <-].
  apply list_find_Some in Hf as (? & ? & _). by exists a.
Qed.

Lemma position_found a : a ∈ plane -> exists i, position plane (key a) = Some i /\ plane !! i = Some a.
Proof.
  intros Ha. unfold position. destruct (list_find_elem_of (fun c => key c = key a) plane a Ha eq_refl) as ([i b] & Hf). rewrite Hf.
  exists i. split; [done|]. apply list_find_Some in Hf as (Hi & Hk & _). rewrite Hi. f_equal.
  eapply sorted_key_inj; [apply (sp_sorted _ ok)| |done|done]. by eapply list_elem_of_lookup_2.
Qed.


(** *** Edges are the joined pairs *)

Lemma edge_costs_sym units x y r : edge_costs units (x + y) r = edge_costs units (y + x) r.
Proof.
  unfold edge_costs, edge_weight. destruct (Qeq_bool r 0); [done|]. f_equal. apply Qceiling_comp. by rewrite (Qplus_comm x y).
Qed.

Lemma edge_costs_pos units x r : 1 <= edge_costs units x r.
Proof. unfold edge_costs, edge_weight. destruct (Qeq_bool r 0); lia. Qed.

Notation joined := (joined plane keep alive).
Notation link_cost := (link_cost len_units price rate).

Lemma key_shift a b d : a ∈ plane -> b ∈ plane -> - 1 <= d.2 <= 1 ->
  key b = key a + d.1 * KW + d.2 <-> c_y b - c_y a = d.1 /\ c_x b - c_x a = d.2.
Proof.
  intros Ha%plane_range Hb%plane_range Hd. unfold in_range in *. unfold key. 
  replace (cell_key (c_y a) (c_x a) + d.1 * KW + d.2) with (cell_key (c_y a + d.1) (c_x a + d.2)) by (unfold cell_key; lia).
  rewrite cell_key_step by lia. lia.
Qed.

Lemma position_navigable a y x : a ∈ plane -> - OFF <= x < OFF -> is_Some (position plane (cell_key y x)) <-> navigable plane y x.
Proof.
  intros _ Hx. split.
  - intros (i & Hi). apply position_spec in Hi as (b & Hb & Hk). apply list_elem_of_lookup_2 in Hb. exists b. split; [done|].
    pose proof (plane_range b Hb) as Hr. unfold in_range in Hr. unfold key in Hk. apply cell_key_step in Hk; [done|lia|done].
  - intros (b & Hb & <- & <-). destruct (position_found b Hb) as (i & Hi & _). by exists i.
Qed.

Definition base_direction (d : Z * Z) : Prop := d ∈ directions.

Lemma direction_heading d : d ∈ directions -> is_Some (heading d.1 d.2) /\ - 1 <= d.2 <= 1.
Proof. unfold directions. set_unfold. intros [->|[->|[->|[->|[]]]]]; cbn; split; try lia; eauto. Qed.

Lemma diagonal_spec d : diagonal d = true <-> d.1 <> 0 /\ d.2 <> 0.
Proof. unfold diagonal. rewrite andb_true_iff, !negb_true_iff, !bool_decide_eq_false. done. Qed.

(** An edge of the code joins the member at [i] to its neighbour in direction [d]. *)
Lemma edge_at_spec d i a e : d ∈ directions -> plane !! i = Some a -> member a = true ->
  edge_at plane keep alive len_units price rate d i = Some e <->
  exists b, joined a b /\ c_y b - c_y a = d.1 /\ c_x b - c_x a = d.2
    /\ e_src e = node i /\ nodes !! e_dst e = Some b /\ e_w e = link_cost a b /\ heading d.1 d.2 = Some (e_h e).
Proof.
  intros Hd Hi Hm. pose proof (direction_heading d Hd) as [[h Hh] Hrange]. assert (Ha : a ∈ plane) by (by eapply list_elem_of_lookup_2).
  pose proof (plane_range a Ha) as Hra. unfold in_range in Hra.
  assert (Hdiag : forall b, c_y b - c_y a = d.1 -> c_x b - c_x a = d.2 ->
    negb (diagonal d) || bool_decide (is_Some (position plane (key a + d.2))) && bool_decide (is_Some (position plane (key a + d.1 * KW))) = true
    <-> (c_y a <> c_y b -> c_x a <> c_x b -> navigable plane (c_y a) (c_x b) /\ navigable plane (c_y b) (c_x a))).
  { intros b Hy Hx. replace (key a + d.2) with (cell_key (c_y a) (c_x b)) by (unfold key, cell_key; lia).
    replace (key a + d.1 * KW) with (cell_key (c_y b) (c_x a)) by (unfold key, cell_key; lia).
    rewrite orb_true_iff, andb_true_iff, !bool_decide_eq_true, negb_true_iff, !(position_navigable a) by (done || lia).
    destruct (diagonal d) eqn:E; [apply diagonal_spec in E; split; [intros [?|?]; done|intros H; right; apply H; lia]|].
    split; [|by left]. intros _ H1 H2. exfalso. apply not_true_iff_false in E. apply E, diagonal_spec. lia. }
  unfold edge_at. rewrite Hi. split.
  - intros He. destruct (position plane (key a + d.1 * KW + d.2)) as [q|] eqn:Hq; [|done]. apply position_spec in Hq as (b & Hb & Hk). rewrite Hb in He.
    assert (Hbp : b ∈ plane) by (by eapply list_elem_of_lookup_2). apply key_shift in Hk as [Hy Hx]; [|done|done|done].
    destruct (member b && _) eqn:Hc; [|done]. apply andb_true_iff in Hc as [Hmb Hc]. rewrite Hh in He. cbn in He. injection He as <-. cbn.
    exists b. pose proof (proj1 (Hdiag b Hy Hx) Hc) as Hnav. split; [|split; [done|split; [done|split; [done|]]]].
    + split; [done|]. split; [done|]. split; [done|]. split; [done|]. split; [|done]. rewrite Hy, Hx. by eexists.
    + split; [by apply node_spec|]. split; [|done]. unfold LatticePlan.link_cost. rewrite Hy, Hx. by destruct d.
  - intros (b & (_ & Hbp & _ & Hmb & _ & Hc) & Hy & Hx & Hsrc & Hdst & Hw & He).
    assert (Hk : key b = key a + d.1 * KW + d.2) by (by apply key_shift). rewrite <-Hk.
    destruct (position_found b Hbp) as (q & -> & Hq). rewrite Hq, Hmb. rewrite (proj2 (Hdiag b Hy Hx) Hc). cbn [andb]. rewrite He. cbn.
    destruct e as [es ed ew eh]. cbn in *. subst es. f_equal. f_equal; [|by rewrite Hw; unfold LatticePlan.link_cost; rewrite Hy, Hx; destruct d].
    eapply nodes_inj; [by apply node_spec|done].
Qed.


Lemma heading_back (y y' x x' : Z) h : heading (y' - y) (x' - x) = Some h -> heading (y - y') (x - x') = Some (opposite h).
Proof. intros Hh%opposite_heading. replace (y - y') with (- (y' - y)) by lia. by replace (x - x') with (- (x' - x)) by lia. Qed.

Lemma joined_sym a b : joined a b -> joined b a.
Proof.
  intros (Ha & Hb & Hma & Hmb & (h & Hh) & Hn). split; [done|]. split; [done|]. split; [done|]. split; [done|]. split.
  - exists (opposite h). by apply heading_back.
  - intros Hy Hx. destruct (Hn ltac:(congruence) ltac:(congruence)). done.
Qed.

Lemma link_cost_sym a b : link_cost a b = link_cost b a.
Proof.
  unfold LatticePlan.link_cost, step_cost. rewrite edge_costs_sym. f_equal. f_equal. unfold diagonal. cbn.
  f_equal; f_equal; apply bool_decide_ext; lia.
Qed.

Lemma opposite_involutive h : opposite (opposite h) = h.
Proof. by destruct h. Qed.

(** Every step is in one of the four directions, or its reverse is. *)
Lemma base_or_reverse dy dx h : heading dy dx = Some h -> (dy, dx) ∈ directions \/ (- dy, - dx) ∈ directions.
Proof.
  unfold heading, directions. destruct dy as [|[| |]|[| |]], dx as [|[| |]|[| |]]; intros [= <-]; cbn; set_solver.
Qed.

Definition links (e : edge) (a b : cell) : Prop :=
  nodes !! e_src e = Some a /\ nodes !! e_dst e = Some b /\ joined a b /\ e_w e = link_cost a b
  /\ heading (c_y b - c_y a) (c_x b - c_x a) = Some (e_h e).

Lemma links_reversed e a b : links e a b -> links (reversed e) b a.
Proof.
  intros (Hs & Hd & Hj & Hw & Hh). split; [done|]. split; [done|]. split; [by apply joined_sym|]. split; [by rewrite link_cost_sym|].
  by apply heading_back.
Qed.

Notation edges := (edges plane keep alive len_units price rate).

Lemma base_edges e : e ∈ edges <-> exists a b, links e a b /\ (c_y b - c_y a, c_x b - c_x a) ∈ directions.
Proof.
  unfold LatticePlan.edges. rewrite list_elem_of_bind. split.
  - intros (d & (i & Hi & He)%list_elem_of_omap & Hd). apply elem_members in Hi as (a & Ha & Hm).
    apply (edge_at_spec d i a e Hd Ha Hm) in He as (b & Hj & Hy & Hx & Hs & Hdst & Hw & Hh). exists a, b.
    split; [|by rewrite Hy, Hx; destruct d]. split; [rewrite Hs; by apply node_spec|]. split; [done|]. split; [done|]. split; [done|]. by rewrite Hy, Hx.
  - intros (a & b & (Hs & Hdst & Hj & Hw & Hh) & Hd). set (d := (c_y b - c_y a, c_x b - c_x a)) in *. exists d. split; [|done].
    destruct (nodes_member _ _ Hs) as [Ha Hm]. destruct (member_node a Ha Hm) as (i & Hi & Him & Hn).
    apply list_elem_of_omap. exists i. split; [done|]. apply (edge_at_spec d i a e Hd Hi Hm). exists b.
    split; [done|]. split; [done|]. split; [done|]. split; [by eapply nodes_inj|]. done.
Qed.

Lemma reversed_involutive e : reversed (reversed e) = e.
Proof. destruct e. unfold reversed. cbn. by rewrite opposite_involutive. Qed.

Lemma graph_edges e : e ∈ g_edges graph <-> exists a b, links e a b.
Proof.
  cbn. rewrite elem_of_app, list_elem_of_fmap. split.
  - intros [He|(e' & -> & He)]; apply base_edges in He as (a & b & Hl & _); [by exists a, b|]. exists b, a. by apply links_reversed.
  - intros (a & b & Hl). pose proof Hl as (_ & _ & _ & _ & Hh). destruct (base_or_reverse _ _ _ Hh) as [Hd|Hd].
    + left. apply base_edges. by exists a, b.
    + right. exists (reversed e). split; [by rewrite reversed_involutive|]. apply base_edges. exists b, a. split; [by apply links_reversed|].
      replace (c_y a - c_y b) with (- (c_y b - c_y a)) by lia. by replace (c_x a - c_x b) with (- (c_x b - c_x a)) by lia.
Qed.

Lemma links_unique e e' a b : links e a b -> e_src e = e_src e' -> e_dst e = e_dst e' -> forall a' b', links e' a' b' -> a' = a /\ b' = b.
Proof. intros (H1 & H2 & _) Hs Hd a' b' (H1' & H2' & _). rewrite <-Hs in H1'. rewrite <-Hd in H2'. split; congruence. Qed.


(** No pair of nodes is joined twice. *)
Lemma base_pairs_once : NoDup ((fun e => (e_src e, e_dst e)) <$> edges).
Proof.
  unfold LatticePlan.edges. assert (Hend : forall d i e, d ∈ directions -> i ∈ members -> edge_at plane keep alive len_units price rate d i = Some e ->
    exists a b, plane !! i = Some a /\ nodes !! e_src e = Some a /\ nodes !! e_dst e = Some b /\ d = (c_y b - c_y a, c_x b - c_x a)).
  { intros d i e Hd (a & Ha & Hm)%elem_members He. apply (edge_at_spec d i a e Hd Ha Hm) in He as (b & _ & Hy & Hx & Hs & Hdst & _).
    exists a, b. rewrite Hs, Hy, Hx. split; [done|]. split; [by apply node_spec|]. split; [done|]. by destruct d. }
  assert (Hmn : NoDup members) by (apply NoDup_ListNoDup, List.NoDup_filter, List.seq_NoDup).
  rewrite fmap_bind_inside. apply NoDup_bind.
  - intros d d' p Hd Hd' (e & -> & (i & Hi & He)%list_elem_of_omap)%list_elem_of_fmap (e' & [= Hs Ht] & (j & Hj & He')%list_elem_of_omap)%list_elem_of_fmap.
    destruct (Hend d i e Hd Hi He) as (a & b & _ & H1 & H2 & ->). destruct (Hend d' j e' Hd' Hj He') as (a' & b' & _ & H1' & H2' & ->).
    rewrite Hs in H1. rewrite Ht in H2. congruence.
  - intros d Hd. apply NoDup_omap_fmap; [done|]. intros i j e e' Hi Hj He He' [= Hs Ht].
    destruct (Hend d i e Hd Hi He) as (a & b & Ha & H1 & H2 & _). destruct (Hend d j e' Hd Hj He') as (a' & b' & Ha' & H1' & H2' & _).
    rewrite Hs in H1. assert (a = a') as <- by congruence.
    destruct (Nat.lt_trichotomy i j) as [Hlt|[?|Hlt]]; [|done|]; exfalso.
    + pose proof (sorted_lookup _ _ _ _ _ (sp_sorted _ ok) Ha Ha' Hlt). lia.
    + pose proof (sorted_lookup _ _ _ _ _ (sp_sorted _ ok) Ha' Ha Hlt). lia.
  - unfold directions. apply (bool_decide_unpack _). by vm_compute.
Qed.

Lemma direction_not_reversed d : d ∈ directions -> (- d.1, - d.2) ∉ directions.
Proof. unfold directions. set_unfold. intros [->|[->|[->|[->|[]]]]]; cbn; naive_solver. Qed.

Lemma pairs_once : NoDup ((fun e => (e_src e, e_dst e)) <$> g_edges graph).
Proof.
  cbn. rewrite fmap_app. apply NoDup_app. split; [apply base_pairs_once|]. split.
  - intros p (e & -> & (a & b & He & Hd)%base_edges)%list_elem_of_fmap (r & [= Hs Ht] & (e' & -> & (a' & b' & He' & Hd')%base_edges)%list_elem_of_fmap)%list_elem_of_fmap.
    destruct (links_unique e (reversed e') a b He Hs Ht b' a' (links_reversed _ _ _ He')) as [-> ->].
    apply direction_not_reversed in Hd. apply Hd. cbn.
    replace (- (c_y b - c_y a)) with (c_y a - c_y b) by lia. by replace (- (c_x b - c_x a)) with (c_x a - c_x b) by lia.
  - rewrite <-list_fmap_compose. apply (NoDup_fmap_1 (fun p : nat * nat => (p.2, p.1))). rewrite <-list_fmap_compose. apply base_pairs_once.
Qed.

Lemma y_of_node n a : nodes !! n = Some a -> y_of graph n = c_y a /\ x_of graph n = c_x a.
Proof. intros Hn. unfold y_of, x_of. cbn. by rewrite !list_lookup_fmap, Hn. Qed.

Lemma graph_lattice : lattice_graph graph.
Proof.
  split.
  - intros e (a & b & He)%graph_edges. apply graph_edges. exists b, a. by apply links_reversed.
  - intros e (a & b & Hs & _)%graph_edges. apply lookup_lt_Some in Hs. cbn. by rewrite members_length.
  - intros e (a & b & _ & _ & _ & -> & _)%graph_edges. apply edge_costs_pos.
  - intros e (a & b & Hs & Hd & _ & _ & Hh)%graph_edges. unfold step_heading.
    destruct (y_of_node _ _ Hs) as [-> ->]. by destruct (y_of_node _ _ Hd) as [-> ->].
  - apply pairs_once.
  - cbn. rewrite members_length. unfold LatticePlan.nodes. pose proof (List.filter_length_le member plane). pose proof (sp_size _ ok). lia.
Qed.

(** *** From nodes to cells *)

Definition at_node (n : nat) (a : cell) : Prop := nodes !! n = Some a.

Lemma leads_route n q t c : leads graph everywhere n q t c -> forall a, at_node n a ->
  exists p b, Forall2 at_node q p /\ at_node t b /\ lattice_route plane keep alive len_units price rate a p b c.
Proof.
  induction 1 as [n _|e q t c He _ Hl IH]; intros a Ha.
  - exists [], a. split; [constructor|]. split; [done|]. destruct (nodes_member _ _ Ha). by constructor.
  - apply graph_edges in He as (a' & b & Hs & Hd & Hj & Hw & _). assert (a' = a) as -> by (unfold at_node in Ha; congruence).
    destruct (IH b Hd) as (p & b' & Hp & Hb & Hr). exists (b :: p), b'. split; [by constructor|]. split; [done|]. rewrite Hw. by constructor.
Qed.

Lemma route_leads a p b c : lattice_route plane keep alive len_units price rate a p b c -> forall n, at_node n a ->
  exists q t, Forall2 at_node q p /\ at_node t b /\ leads graph everywhere n q t c.
Proof.
  induction 1 as [a Ha Hm|a b p t c Hj Hr IH]; intros n Hn.
  - exists [], n. split; [constructor|]. split; [done|]. by constructor.
  - pose proof Hj as (_ & Hb & _ & Hmb & (h & Hh) & _). destruct (member_node b Hb Hmb) as (i & _ & _ & Hi).
    destruct (IH _ Hi) as (q & t' & Hq & Ht & Hl). exists (node i :: q), t'. split; [by constructor|]. split; [done|].
    change n with (e_src (Edge n (node i) (link_cost a b) h)). change (node i) with (e_dst (Edge n (node i) (link_cost a b) h)) at 2.
    change (link_cost a b) with (e_w (Edge n (node i) (link_cost a b) h)) at 3. constructor; [|done|done].
    apply graph_edges. exists a, b. done.
Qed.

Lemma headings_cells n q a p : at_node n a -> Forall2 at_node q p -> path_headings graph n q = cell_headings a p.
Proof.
  intros Hn Hq. revert n a Hn. induction Hq as [|m b q p Hm _ IH]; intros n a Hn; cbn; [done|]. rewrite (IH m b Hm). f_equal.
  unfold step_heading. destruct (y_of_node _ _ Hn) as [-> ->]. by destruct (y_of_node _ _ Hm) as [-> ->].
Qed.

Lemma turn_cells tab n q a p : at_node n a -> Forall2 at_node q p -> path_turn graph tab (n :: q) = route_turn tab (a :: p).
Proof. intros Hn Hq. cbn. by rewrite (headings_cells n q a p). Qed.

Lemma lex_cells q p q' p' : Forall2 at_node q p -> Forall2 at_node q' p' -> lex_le q q' -> cells_le p p'.
Proof.
  intros Hq. revert q' p'. induction Hq as [|n a q p Hn _ IH]; intros q' p' Hq' Hle; [done|].
  destruct Hq' as [|m b q' p' Hm Hq']; cbn in *; [done|]. destruct Hle as [Hlt|[-> Hle]].
  - left. by eapply (sorted_index nodes n m); [apply nodes_sorted| | |].
  - right. split; [unfold at_node in *; congruence|]. by eapply IH.
Qed.

Lemma rows_cells q p : Forall2 at_node q p -> rows plane keep alive q = p.
Proof. induction 1 as [|n a q p Hn _ IH]; cbn; [done|]. unfold at_node in Hn. unfold rows in *. cbn. rewrite Hn. by f_equal. Qed.

(** The cheapest path of nodes is the best route of cells. *)
Lemma cheapest_route tab s d a b J p : at_node s a -> at_node d b -> cheapest graph tab everywhere s d J p ->
  best_route plane keep alive len_units price rate tab a b J (rows plane keep alive p).
Proof.
  intros Hs Hd [(q & c & -> & Hl & HJ) Hmin]. destruct (leads_route _ _ _ _ Hl a Hs) as (pc & b' & Hq & Hb' & Hr).
  assert (b' = b) as -> by (unfold at_node in *; congruence). rewrite (rows_cells (s :: q) (a :: pc)) by (by constructor). split.
  - exists pc, c. split; [done|]. split; [done|]. by rewrite HJ, (turn_cells tab s q a pc).
  - intros pc' c' Hr'. destruct (route_leads _ _ _ _ Hr' s Hs) as (q' & t & Hq' & Ht & Hl').
    assert (t = d) as -> by (by eapply nodes_inj). destruct (Hmin q' c' Hl') as [Hle Hlex]. rewrite <-(turn_cells tab s q' a pc') by done.
    split; [done|]. intros He. eapply (lex_cells (s :: q) _ (s :: q')); [by constructor|by constructor|by apply Hlex].
Qed.

(** [find] finds the members. *)
Lemma find_spec y x n : - OFF <= x < OFF -> find plane keep alive y x = Some n <-> exists a, at_node n a /\ c_y a = y /\ c_x a = x.
Proof.
  intros Hx. unfold LatticePlan.find. split.
  - destruct (position plane (cell_key y x)) as [i|] eqn:Hi; [|done]. apply position_spec in Hi as (a & Ha & Hk). rewrite Ha.
    destruct (LatticePlan.member keep alive a) eqn:Hm; [|done]. intros [= <-]. exists a. split; [by apply node_spec|].
    pose proof (plane_range a (list_elem_of_lookup_2 _ _ _ Ha)) as Hr. unfold in_range in Hr. unfold key in Hk. apply cell_key_step in Hk; [done|lia|done].
  - intros (a & Ha & <- & <-). destruct (nodes_member _ _ Ha) as [Hap Hm]. destruct (position_found a Hap) as (i & Hi & Hpi).
    unfold key in Hi. rewrite Hi, Hpi, Hm. f_equal. eapply nodes_inj; [by apply node_spec|done].
Qed.

End correct.

(** ** The cells of the tiles are a sorted plane *)

Definition tile_in_range (t : Z * Z) : Prop := - 16384 < t.1 < 16383.

Lemma elem_tile_cells lut own t c : c ∈ tile_cells lut own t ->
  c_y c / TILE_L = t.2 /\ c_x c / TILE_L = t.1.
Proof.
  unfold tile_cells. destruct (own t) as [o|]; [|set_solver].
  intros (iy & (ix & Hc & Hix)%list_elem_of_bind & Hiy)%list_elem_of_bind.
  apply list_elem_of_fmap in Hix as (i & -> & [_ Hi]%elem_of_seq). apply list_elem_of_fmap in Hiy as (j & -> & [_ Hj]%elem_of_seq).
  destruct (decide _); [|set_solver]. apply list_elem_of_singleton in Hc as ->. cbn [c_y c_x].
  unfold TILE_L. split; rewrite Z.div_add, Z.div_small; (done || lia).
Qed.

Lemma tile_cells_once lut own t : tile_in_range t -> NoDup (key <$> tile_cells lut own t).
Proof.
  intros Ht. unfold tile_in_range in Ht. unfold tile_cells. destruct (own t) as [o|]; [|constructor]. rewrite fmap_bind_inside.
  assert (Hkey : forall iy ix c, 0 <= ix < 64 -> c ∈ (if decide (0 < o iy ix) then [Cell (iy + t.2 * TILE_L) (ix + t.1 * TILE_L) (chart_of lut (o iy ix))] else []) ->
    key c = cell_key (iy + t.2 * TILE_L) (ix + t.1 * TILE_L)).
  { intros iy ix c _. destruct (decide _); [|set_solver]. by intros ->%list_elem_of_singleton. }
  assert (Hseq : forall j, j ∈ Z.of_nat <$> seq 0 64 -> 0 <= j < 64).
  { intros j (i & -> & [_ Hi]%elem_of_seq)%list_elem_of_fmap. lia. }
  assert (Hinj : forall y x y' x', 0 <= x < 64 -> 0 <= x' < 64 ->
    cell_key (y + t.2 * TILE_L) (x + t.1 * TILE_L) = cell_key (y' + t.2 * TILE_L) (x' + t.1 * TILE_L) -> y = y' /\ x = x').
  { intros y x y' x' Hx Hx'. unfold TILE_L. rewrite cell_key_step; change OFF with 1048576; lia. }
  assert (Hn : NoDup (Z.of_nat <$> seq 0 64)) by (apply NoDup_fmap_2; [apply _|apply NoDup_seq]).
  apply NoDup_bind; [| |done].
  - intros y y' k Hy Hy' (c & -> & (x & Hc & Hx)%list_elem_of_bind)%list_elem_of_fmap (c' & Hk & (x' & Hc' & Hx')%list_elem_of_bind)%list_elem_of_fmap.
    rewrite (Hkey y x c), (Hkey y' x' c') in Hk by auto. by apply Hinj in Hk as [? _]; auto.
  - intros y Hy. rewrite fmap_bind_inside. apply NoDup_bind; [| |done].
    + intros x x' k Hx Hx' (c & -> & Hc)%list_elem_of_fmap (c' & Hk & Hc')%list_elem_of_fmap.
      rewrite (Hkey y x c), (Hkey y x' c') in Hk by auto. by apply Hinj in Hk as [_ ?]; auto.
    + intros x Hx. destruct (decide _); cbn; [apply NoDup_singleton|constructor].
Qed.

Lemma strictly_sorted l : StronglySorted key_le l -> NoDup (key <$> l) -> StronglySorted key_lt l.
Proof.
  induction 1 as [|a l Hs IH Ha]; intros Hn; cbn in Hn; [constructor|]. apply NoDup_cons in Hn as [Hni Hn]. constructor; [auto|].
  rewrite Forall_forall in *. intros b Hb. specialize (Ha b Hb). unfold key_le, key_lt in *. destruct (decide (key a = key b)) as [He|]; [|lia].
  exfalso. apply Hni. rewrite He. apply list_elem_of_fmap. by exists b.
Qed.

Lemma tile_cells_length lut own t : (length (tile_cells lut own t) <= 4096)%nat.
Proof.
  unfold tile_cells. destruct (own t) as [o|]; [|cbn; lia].
  assert (Hb : forall A B (f : A -> list B) k l, (forall x, length (f x) <= k)%nat -> (length (l ≫= f) <= k * length l)%nat).
  { intros A B f k l Hf. induction l as [|x l IH]; [cbn; lia|]. rewrite bind_cons, length_app. cbn [length]. specialize (Hf x). lia. }
  etrans; [apply (Hb _ _ _ 64%nat)|by rewrite length_fmap, length_seq].
  intros y. etrans; [apply (Hb _ _ _ 1%nat)|by rewrite length_fmap, length_seq]. intros x. destruct (decide _); cbn; lia.
Qed.

Lemma cells_sorted lut own tiles : NoDup tiles -> Forall tile_in_range tiles -> 4096 * Z.of_nat (length tiles) <= INT64_MAX ->
  sorted_plane (cells lut own tiles).
Proof.
  intros Hn Hr Hlen. rewrite Forall_forall in Hr. pose proof (merge_sort_Permutation key_le (tiles ≫= tile_cells lut own)) as Hperm. split.
  - apply strictly_sorted; [apply (StronglySorted_merge_sort key_le); apply _|]. unfold cells. rewrite Hperm, fmap_bind_inside.
    apply NoDup_bind; [| |done].
    + intros t t' k Ht Ht' (c & -> & Hc)%list_elem_of_fmap (c' & Hk & Hc')%list_elem_of_fmap.
      apply elem_tile_cells in Hc as [Hy Hx]. apply elem_tile_cells in Hc' as [Hy' Hx']. pose proof (Hr t Ht) as H1. pose proof (Hr t' Ht') as H2.
      unfold tile_in_range, TILE_L in *. unfold key in Hk. apply cell_key_step in Hk as [Hky Hkx]; [|change OFF with 1048576; Z.to_euclidean_division_equations; lia..].
      destruct t, t'. cbn in *. f_equal; congruence.
    + intros t Ht. apply tile_cells_once. by apply Hr.
  - unfold cells. rewrite Hperm. apply Forall_forall. intros c (t & Hc & Ht)%list_elem_of_bind. apply elem_tile_cells in Hc as [_ Hx].
    specialize (Hr t Ht). unfold tile_in_range, in_range, TILE_L in *. change OFF with 1048576. Z.to_euclidean_division_equations. lia.
  - unfold cells. rewrite Hperm. etrans; [|exact Hlen]. clear. induction tiles as [|t l IH]; [cbn; lia|].
    rewrite bind_cons, length_app. pose proof (tile_cells_length lut own t). cbn [length]. lia.
Qed.

(** ** The search *)

(** The table of a search without turn costs is zero. *)
Definition turn_table (turn : option (Z -> Q)) : Heading -> Heading -> Z :=
  match turn with None => fun _ _ => 0 | Some t => table t end.

(** C4: on the cells of the tiles, the planner's search returns the cheapest lattice route from cell to cell along
    the charts and cells it may use (the integer edge costs plus, with a turn price, the cost of every change of
    heading), and among the cheapest the first in row-major order; it says there is no route exactly when there is
    none, and never fails, for any search of shortest paths that meets its specification. *)
Theorem lattice_search_exact `{ShortestPaths} lut own tiles keep alive len_units price rate turn src dst :
  NoDup tiles -> Forall tile_in_range tiles -> 4096 * Z.of_nat (length tiles) <= INT64_MAX ->
  - OFF <= src.2 < OFF -> - OFF <= dst.2 < OFF ->
  match search (cells lut own tiles) keep alive len_units price rate turn src dst with
  | Ok (Some (J, p)) => exists a b, (c_y a, c_x a) = src /\ (c_y b, c_x b) = dst
      /\ best_route (cells lut own tiles) keep alive len_units price rate (turn_table turn) a b J p
  | Ok None => forall a b q c, (c_y a, c_x a) = src -> (c_y b, c_x b) = dst -> ~ lattice_route (cells lut own tiles) keep alive len_units price rate a q b c
  | Raise _ => False
  end.
Proof.
  intros Hn Hr Hlen Hs Hd. pose proof (cells_sorted lut own tiles Hn Hr Hlen) as Hok. generalize dependent (cells lut own tiles). intros plane Hok. unfold search.
  pose proof (graph_lattice plane keep alive len_units price rate Hok) as Hg.
  assert (Hends : forall a b q c, lattice_route plane keep alive len_units price rate a q b c ->
    (exists n, at_node plane keep alive n a) /\ exists n, at_node plane keep alive n b).
  { induction 1 as [a Ha Hm|a b q t c (Ha & _ & Hm & _) _ [_ IH]]; (split; [|try done]);
      destruct (member_node plane keep alive a Ha Hm) as (i & _ & _ & Hi); eauto. }
  destruct (find plane keep alive src.1 src.2) as [s|] eqn:Hfs, (find plane keep alive dst.1 dst.2) as [d|] eqn:Hfd.
  1: { apply (find_spec plane keep alive Hok) in Hfs as (a & Ha & Hay & Hax); [|done].
    apply (find_spec plane keep alive Hok) in Hfd as (b & Hb & Hby & Hbx); [|done].
    assert (Hgot : match (match turn with None => plain_path (graph plane keep alive len_units price rate) s d None
        | Some t => full_search (graph plane keep alive len_units price rate) (table t) s d end) with
      | Ok (Some (J, p)) => cheapest (graph plane keep alive len_units price rate) (turn_table turn) everywhere s d J p
      | Ok None => forall q c, ~ leads (graph plane keep alive len_units price rate) everywhere s q d c
      | Raise _ => False end).
    { destruct turn as [t|]; [apply full_search_cheapest; [done|apply table_nonneg] | by apply (plain_path_cheapest _ (fun _ _ => 0))]. }
    destruct (match turn with None => _ | Some _ => _ end) as [[[J p]|]|]; [|intros a' b' q c Ha' Hb' Hroute|done].
    - exists a, b. split; [destruct src; cbn in *; congruence|]. split; [destruct dst; cbn in *; congruence|]. by eapply cheapest_route.
    - destruct (Hends _ _ _ _ Hroute) as [(n & Hna) (m & Hmb)].
      assert (a' = a) as -> by (destruct src; simplify_eq; eapply (sorted_key_inj plane);
        [apply (sp_sorted _ Hok)|by apply (nodes_member plane keep alive n)|by apply (nodes_member plane keep alive s)|unfold key; cbn in *; congruence]).
      assert (b' = b) as -> by (destruct dst; simplify_eq; eapply (sorted_key_inj plane);
        [apply (sp_sorted _ Hok)|by apply (nodes_member plane keep alive m)|by apply (nodes_member plane keep alive d)|unfold key; cbn in *; congruence]).
      destruct (route_leads plane keep alive len_units price rate Hok _ _ _ _ Hroute s Ha) as (q' & t & _ & Ht & Hl).
      assert (t = d) as -> by (by eapply (nodes_inj plane keep alive Hok)). by apply (Hgot q' c). }
  all: intros a b q c Ha Hb Hroute; destruct (Hends _ _ _ _ Hroute) as [(n & Hna) (m & Hmb)];
    destruct src as [sy sx], dst as [dy dx]; simplify_eq/=.
  all: assert (H1 := proj2 (find_spec plane keep alive Hok _ _ n Hs) (ex_intro _ a (conj Hna (conj eq_refl eq_refl))));
       assert (H2 := proj2 (find_spec plane keep alive Hok _ _ m Hd) (ex_intro _ b (conj Hmb (conj eq_refl eq_refl)))); congruence.
Qed.

(** Two rows of three cells, straight steps of 1000 units, a turn of pi / 4 costing 393 *)
Definition example_own (t : Z * Z) : option (Z -> Z -> Z) :=
  if bool_decide (t = (0, 0)) then Some (fun iy ix => if (iy <? 2) && (ix <? 3) then 1 else 0) else None.
Definition example_length (diag : bool) : Q := if diag then 141421 # 100 else 1000 # 1.
Definition example_turn (steps : Z) : Q := inject_Z (393 * steps).
Notation example_plane := (cells [-1; 0] example_own [(0, 0)]).

Lemma lattice_search_exact_witness :
  exists a b, (c_y a, c_x a) = (0, 0) /\ (c_y b, c_x b) = (1, 2)
  /\ best_route example_plane (fun _ => true) (fun _ _ => true) example_length (fun _ => 0%Q) 0 (turn_table (Some example_turn)) a b
       2808 [Cell 0 0 0; Cell 0 1 0; Cell 1 2 0].
Proof.
  assert (He : @search example_plane (fun _ => true) (fun _ _ => true) example_length (fun _ => 0%Q) 0 rounds_shortest_paths
    (Some example_turn) (0, 0) (1, 2) = Ok (Some (2808, [Cell 0 0 0; Cell 0 1 0; Cell 1 2 0]))) by (vm_compute; reflexivity).
  pose proof (@lattice_search_exact rounds_shortest_paths [-1; 0] example_own [(0, 0)] (fun _ => true) (fun _ _ => true)
    example_length (fun _ => 0%Q) 0 (Some example_turn) (0, 0) (1, 2)
    ltac:(apply NoDup_singleton) ltac:(apply Forall_singleton; cbv; split; reflexivity) ltac:(vm_compute; discriminate)
    ltac:(cbv; split; [discriminate|reflexivity]) ltac:(cbv; split; [discriminate|reflexivity])) as Hx.
  rewrite He in Hx. exact Hx.
Defined.
