(* ===== verification/ImportPlan.v ===== *)
(** * Planning an import

    packages/migration/plan.py: what importing a bundle would do on this server. A map keeps its name when the name
    is free, is resumed into the map an earlier import of it from the same source made, and gets a new name
    otherwise; two names clash when they differ only in case or share the bucket of the object store. Texts are
    lists of characters (ASCII, as every name the expressions accept is). *)

From Stdlib Require Import Ascii.
From S2P Require Import Prelude.

Notation text := (list ascii).
Definition text_of (s : string) : text := String.list_ascii_of_string s.

(** ** Characters *)

Definition in_chars (lo hi : nat) (c : ascii) : bool := (lo <=? nat_of_ascii c)%nat && (nat_of_ascii c <=? hi)%nat.
Definition is_upper : ascii -> bool := in_chars 65 90.
(** [[A-Za-z0-9]] and [[A-Za-z0-9_-]] *)
Definition is_alnum (c : ascii) : bool := in_chars 48 57 c || is_upper c || in_chars 97 122 c.
Definition dash : ascii := "-".
Definition underscore : ascii := "_".
Definition newline : ascii := ascii_of_nat 10.
Definition is_dash (c : ascii) : bool := bool_decide (c = dash).
Definition is_dash_or_underscore (c : ascii) : bool := bool_decide (c = dash) || bool_decide (c = underscore).
Definition is_name_char (c : ascii) : bool := is_alnum c || is_dash_or_underscore c.

(** [str.lower] *)
Definition lower_char (c : ascii) : ascii := if is_upper c then ascii_of_nat (nat_of_ascii c + 32) else c.
Definition lower (s : text) : text := map lower_char s.

(** ** Python's text functions *)

Fixpoint lstrip (p : ascii -> bool) (s : text) : text :=
  match s with [] => [] | c :: s' => if p c then lstrip p s' else s end.
Definition rstrip (p : ascii -> bool) (s : text) : text := reverse (lstrip p (reverse s)).
Definition strip (p : ascii -> bool) (s : text) : text := rstrip p (lstrip p s).

(** [re.sub("[^A-Za-z0-9]+", "-", text)] *)
Fixpoint sub_runs (in_run : bool) (s : text) : text :=
  match s with
  | [] => []
  | c :: s => if is_alnum c then c :: sub_runs false s else if in_run then sub_runs true s else dash :: sub_runs true s
  end.

(** [text or default] *)
Definition or_text (s d : text) : text := if bool_decide (s = []) then d else s.

(** [str(n)] *)
Definition digit (n : N) : ascii := ascii_of_nat (48 + N.to_nat n).
Fixpoint decimal_from (fuel : nat) (n : N) : text :=
  match fuel with
  | O => []
  | S fuel => if (n <? 10)%N then [digit n] else decimal_from fuel (n / 10) ++ [digit (n mod 10)]
  end.
Definition decimal (n : N) : text := decimal_from (S (N.to_nat n)) n.

(** ** Names *)

(** [NAME_RE = ^[A-Za-z0-9](?:[A-Za-z0-9_-]{0,57}[A-Za-z0-9])?$]; [$] also matches before a final newline *)
Definition name_body (s : text) : bool :=
  match s with
  | [] => false
  | c :: rest =>
      is_alnum c && match last rest with
                    | None => true
                    | Some l => forallb is_name_char rest && is_alnum l && (length rest <=? 58)%nat
                    end
  end.
Definition NAME_RE (s : text) : bool :=
  name_body s || (bool_decide (last s = Some newline) && name_body (removelast s)).

Definition MAX_NAME : nat := 59.
Definition RESERVED : list text := [text_of "GEO"; text_of "LOCAL"].

Definition bucket_char (c : ascii) : ascii := if bool_decide (c = underscore) then dash else c.
Definition bucket_of (name : text) : text := map bucket_char (lower name).

Definition slug (s : text) : text := or_text (take 20 (strip is_dash (sub_runs false s))) (text_of "import").

Definition clashes (name e : text) : bool := bool_decide (lower e = lower name) || bool_decide (bucket_of e = bucket_of name).
Definition taken (name : text) (existing : list text) : bool := existsb (clashes name) existing.

(** A candidate: as much of the base as fits, and the tail *)
Definition candidate (base tail : text) : text := rstrip is_dash_or_underscore (take (MAX_NAME - length tail) base) ++ tail.
Definition refused (existing : list text) (cand : text) : bool :=
  taken cand existing || bool_decide (cand ∈ RESERVED) || negb (NAME_RE cand).

(** The loop of [choose_name]; [choose_name_ok] shows that one turn per existing name and one more are enough. *)
Fixpoint try_names (existing : list text) (base suffix : text) (fuel : nat) (n : N) (cand : text) : option text :=
  if refused existing cand then
    match fuel with
    | O => None
    | S fuel => try_names existing base suffix fuel (n + 1) (candidate base (suffix ++ dash :: decimal n))
    end
  else Some cand.

Definition base_of (name : text) : text :=
  or_text (strip is_dash_or_underscore (map (fun c => if is_name_char c then c else dash) name)) (text_of "map").

Definition choose_name (name : text) (existing : list text) (source_label : text) : option text :=
  if NAME_RE name && negb (bool_decide (name ∈ RESERVED)) && negb (taken name existing) then Some name
  else
    let base := base_of name in
    let suffix := dash :: slug source_label in
    try_names existing base suffix (length existing + 1) 2 (candidate base suffix).

(** ** The plan *)

(** The lifecycle of a map row *)
Inductive MapLifecycle := ALIVE | PENDING_DELETE | DELETING | DELETED.
#[export] Instance MapLifecycle_eq_dec : EqDecision MapLifecycle.
Proof. solve_decision. Defined.

(** What the target's inventory says of a map: its lifecycle and the [source] and [map] of [imported_from] *)
Record TargetMap := { t_lifecycle : MapLifecycle; t_imported_from : option (text * text) }.

(** The source of a manifest *)
Record Source := { s_instance_id : option text; s_server_id : option text; s_name : option text }.

(** [x or y] on optional texts *)
Definition or_else (o : option text) (d : option text) : option text :=
  match o with Some (_ :: _) => o | _ => d end.
Definition source_key (s : Source) : text :=
  default (text_of "unknown-source") (or_else (s_instance_id s) (or_else (s_server_id s) (or_else (s_name s) None))).
Definition source_label (s : Source) : text := default (source_key s) (or_else (s_name s) None).

(** The items of a manifest with the counts the plan reads *)
Inductive Item :=
| ItemMap (name : text) (nodes object_bytes present_bytes : N)
| ItemRuns (mission : text) (map_ids : list text) (runs legs history_rows : N)
| ItemBag (robot bag_id : text) (present : bool) (bytes : N) (map_id : option text)
| ItemOther (kind : text).

Inductive Action := Create | Rename | Resume.
Record MapEntry := { m_source : text; m_target : text; m_action : Action; m_nodes : N; m_bytes : N; m_present : N }.
Record RunEntry := { re_mission : text; re_map_ids : list text; re_runs : N; re_legs : N; re_history : N }.
Record BagEntry := { b_robot : text; b_id : text; b_have : bool; b_bytes : N; b_map_id : option text }.

Inductive PlanError := SelfCopy | Damaged (problem : text) | MissingJson (name : text) | NotEnoughDisk.
Inductive PlanWarning := Unsupported (kind : text) | RunsOfMissingMaps (mission : text) (maps : gset text)
| BagOfMissingMap (robot bag_id map_id : text) | NothingToImport.

Record Plan := {
  p_errors : list PlanError; p_warnings : list PlanWarning; p_source_key : text;
  p_maps : list MapEntry; p_runs : list RunEntry; p_bags : list BagEntry; p_bytes : N;
}.
Definition p_ok (p : Plan) : bool := bool_decide (length (p_errors p) = 0).

(** [same]: the maps an earlier import of this map from this source made *)
Definition imported_as (existing : list (text * TargetMap)) (src_key name : text) : list text :=
  (List.filter (fun e => bool_decide (t_imported_from e.2 = Some (src_key, name))
     && negb (bool_decide (t_lifecycle e.2 = DELETING)) && negb (bool_decide (t_lifecycle e.2 = DELETED))) existing).*1.

Section plan.
Context (existing : list (text * TargetMap)) (src_key label : text) (has_json : text -> bool).

(** The entry of a map item, given the names taken; [None] if no name is found *)
Definition map_entry (taken_names : list text) (name : text) (nodes bytes present : N) : option MapEntry :=
  match imported_as existing src_key name with
  | target :: _ => Some {| m_source := name; m_target := target; m_action := Resume; m_nodes := nodes; m_bytes := bytes; m_present := present |}
  | [] =>
      match choose_name name taken_names label with
      | None => None
      | Some target => Some {| m_source := name; m_target := target; m_action := if bool_decide (target = name) then Create else Rename;
                               m_nodes := nodes; m_bytes := bytes; m_present := present |}
      end
  end.

(** One item of the manifest; the state also holds the names taken *)
Definition plan_item (acc : list text * Plan) (i : Item) : option (list text * Plan) :=
  let '(taken_names, p) := acc in
  match i with
  | ItemRuns mission map_ids runs legs history =>
      Some (taken_names, {| p_errors := p_errors p; p_warnings := p_warnings p; p_source_key := p_source_key p; p_maps := p_maps p;
        p_runs := p_runs p ++ [{| re_mission := mission; re_map_ids := map_ids; re_runs := runs; re_legs := legs; re_history := history |}];
        p_bags := p_bags p; p_bytes := p_bytes p |})
  | ItemBag robot bag_id present bytes map_id =>
      Some (taken_names, {| p_errors := p_errors p; p_warnings := p_warnings p; p_source_key := p_source_key p; p_maps := p_maps p; p_runs := p_runs p;
        p_bags := p_bags p ++ [{| b_robot := robot; b_id := bag_id; b_have := present; b_bytes := bytes; b_map_id := map_id |}];
        p_bytes := p_bytes p + (if present then 0 else bytes) |})
  | ItemOther kind =>
      Some (taken_names, {| p_errors := p_errors p; p_warnings := p_warnings p ++ [Unsupported kind]; p_source_key := p_source_key p; p_maps := p_maps p;
        p_runs := p_runs p; p_bags := p_bags p; p_bytes := p_bytes p |})
  | ItemMap name nodes bytes present =>
      match map_entry taken_names name nodes bytes present with
      | None => None
      | Some e =>
          Some (match m_action e with Resume => taken_names | _ => taken_names ++ [m_target e] end,
            {| p_errors := p_errors p ++ (if has_json name then [] else [MissingJson name]); p_warnings := p_warnings p; p_source_key := p_source_key p;
               p_maps := p_maps p ++ [e]; p_runs := p_runs p; p_bags := p_bags p; p_bytes := p_bytes p + bytes |})
      end
  end.

Fixpoint plan_items (acc : list text * Plan) (items : list Item) : option (list text * Plan) :=
  match items with
  | [] => Some acc
  | i :: items => match plan_item acc i with None => None | Some acc => plan_items acc items end
  end.
End plan.

(** [renames.get(mid, mid)]: of two maps with one source name the later entry counts *)
Definition renamed (maps : list MapEntry) (mid : text) : text :=
  match find_first (fun e => bool_decide (m_source e = mid)) (reverse maps) with Some e => m_target e | None => mid end.

(** The warnings on maps the server does not have; a run's are a set, shown sorted *)
Definition missing_warnings (existing : list (text * TargetMap)) (p : Plan) : list PlanWarning :=
  let known mid := bool_decide (mid ∈ existing.*1) || bool_decide (mid ∈ m_target <$> p_maps p) in
  (r ← p_runs p;
   match List.filter (fun mid => negb (known mid)) (renamed (p_maps p) <$> re_map_ids r) with
   | [] => []
   | missing => [RunsOfMissingMaps (re_mission r) (list_to_set missing)]
   end)
  ++ (b ← p_bags p;
      match b_map_id b with
      | Some ((_ :: _) as mid) => if known (renamed (p_maps p) mid) then [] else [BagOfMissingMap (b_robot b) (b_id b) mid]
      | _ => []
      end).

(** [plan_import]: [problems] is what verifying the bundle reports, [free] the room for objects *)
Definition plan_import (source : Source) (items : list Item) (problems : list text) (has_json : text -> bool)
    (self_instance : option text) (existing : list (text * TargetMap)) (free : option N) : option Plan :=
  let self := match self_instance with Some (_ :: _) => bool_decide (s_instance_id source = self_instance) | _ => false end in
  let errors := (if self then [SelfCopy] else []) ++ (Damaged <$> problems) in
  let start := {| p_errors := errors; p_warnings := []; p_source_key := source_key source; p_maps := []; p_runs := []; p_bags := []; p_bytes := 0 |} in
  match plan_items existing (source_key source) (source_label source) has_json (existing.*1, start) items with
  | None => None
  | Some (_, p) =>
      let disk := match free with Some f => if (9 * f <? 10 * p_bytes p)%N then [NotEnoughDisk] else [] | None => [] end in
      let errors := p_errors p ++ disk in
      let nothing := match p_maps p, p_runs p, p_bags p, errors with [], [], [], [] => [NothingToImport] | _, _, _, _ => [] end in
      Some {| p_errors := errors; p_warnings := p_warnings p ++ missing_warnings existing p ++ nothing; p_source_key := p_source_key p;
              p_maps := p_maps p; p_runs := p_runs p; p_bags := p_bags p; p_bytes := p_bytes p |}
  end.

(** ** Characters and texts *)

Ltac each_char c := destruct c as [[|] [|] [|] [|] [|] [|] [|] [|]]; vm_compute; try done.

Lemma alnum_not_dash c : is_alnum c = true -> is_dash_or_underscore c = false.
Proof. each_char c. Qed.

Lemma bucket_of_lower e name : lower e = lower name -> bucket_of e = bucket_of name.
Proof. unfold bucket_of. by intros ->. Qed.

Lemma clashes_bucket name e : clashes name e = true <-> bucket_of e = bucket_of name.
Proof.
  unfold clashes. rewrite orb_true_iff, !bool_decide_eq_true. split; [intros [?|?]; [by apply bucket_of_lower|done]|by right].
Qed.

Lemma taken_spec name existing : taken name existing = true <-> exists e, e ∈ existing /\ bucket_of e = bucket_of name.
Proof.
  unfold taken. rewrite List.existsb_exists. split; intros (e & He & Hc); exists e.
  - split; [by apply list_elem_of_In|by apply clashes_bucket].
  - split; [by apply list_elem_of_In|by apply clashes_bucket].
Qed.

Lemma lstrip_head p c s : p c = false -> lstrip p (c :: s) = c :: s.
Proof. intros H. cbn. by rewrite H. Qed.

Lemma lstrip_spec p s : exists k, lstrip p s = drop k s /\ match lstrip p s with [] => True | c :: _ => p c = false end.
Proof.
  induction s as [|c s (k & Hk & Hh)]; cbn; [by exists 0|]. destruct (p c) eqn:E; [exists (S k); cbn; done|]. exists 0. by rewrite E.
Qed.

Lemma lstrip_suffix p s : exists l, s = l ++ lstrip p s /\ Forall (fun c => p c = true) l.
Proof.
  induction s as [|c s (l & Hl & Hf)]; cbn; [by exists []|]. destruct (p c) eqn:E; [|by exists []].
  exists (c :: l). split; [cbn; by f_equal|]. by constructor.
Qed.

Lemma rstrip_prefix p s : exists l, s = rstrip p s ++ l /\ Forall (fun c => p c = true) l.
Proof.
  destruct (lstrip_suffix p (reverse s)) as (l & Hl & Hf). exists (reverse l). unfold rstrip. split.
  - by rewrite <-reverse_app, <-Hl, reverse_involutive.
  - by apply Forall_reverse.
Qed.

(** Stripping the end keeps a first character that is not stripped. *)
Lemma rstrip_cons p c s : p c = false -> exists r, rstrip p (c :: s) = c :: r.
Proof.
  intros Hc. destruct (rstrip_prefix p (c :: s)) as (l & Hl & Hf). destruct (rstrip p (c :: s)) as [|d r]; [|cbn in Hl; simplify_eq; by exists r].
  cbn in Hl. subst l. apply Forall_cons in Hf as [? _]. congruence.
Qed.

Lemma rstrip_sub p s P : Forall P s -> Forall P (rstrip p s) /\ length (rstrip p s) <= length s.
Proof.
  intros HP. destruct (rstrip_prefix p s) as (l & Hl & _). rewrite Hl in HP. apply Forall_app in HP as [HP _].
  split; [done|]. apply (f_equal length) in Hl. rewrite length_app in Hl. lia.
Qed.

(** The base of a new name: name characters, the first of them a letter or digit *)
Lemma base_head name : exists c s, base_of name = c :: s /\ is_alnum c = true /\ Forall (fun c => is_name_char c = true) (base_of name).
Proof.
  unfold base_of. set (m := map (fun c => if is_name_char c then c else dash) name).
  assert (Hm : Forall (fun c => is_name_char c = true) m).
  { apply Forall_forall. intros c Hc. unfold m in Hc. apply list_elem_of_fmap in Hc as (d & -> & _). destruct (is_name_char d) eqn:E; done. }
  destruct (lstrip_suffix is_dash_or_underscore m) as (l & Hl & _). destruct (lstrip_spec is_dash_or_underscore m) as (_ & _ & Hh).
  unfold strip. destruct (lstrip is_dash_or_underscore m) as [|c s] eqn:E; [exists "m"%char, (text_of "ap"); repeat split; repeat constructor|].
  destruct (rstrip_cons is_dash_or_underscore c s Hh) as (r & Hr). rewrite Hr. exists c, r. unfold or_text. rewrite bool_decide_eq_false_2 by done.
  split; [done|]. rewrite Hl in Hm. apply Forall_app in Hm as [_ Hm].
  split; [|rewrite <-Hr; by apply rstrip_sub]. apply Forall_cons in Hm as [Hc _]. unfold is_name_char in Hc. rewrite Hh, orb_false_r in Hc. done.
Qed.

Lemma sub_runs_chars s : forall b, Forall (fun c => is_name_char c = true) (sub_runs b s).
Proof.
  induction s as [|c s IH]; intros b; cbn; [constructor|]. destruct (is_alnum c) eqn:E; [constructor; [|done]; unfold is_name_char; by rewrite E|].
  destruct b; [done|]. constructor; done.
Qed.

Lemma slug_chars s : Forall (fun c => is_name_char c = true) (slug s) /\ length (slug s) <= 20.
Proof.
  unfold slug, or_text. case_bool_decide; [split; [repeat constructor|cbn; lia]|]. split; [|apply firstn_le_length].
  apply Forall_take. unfold strip. apply rstrip_sub. destruct (lstrip_suffix is_dash (sub_runs false s)) as (l & Hl & _).
  pose proof (sub_runs_chars s false) as Hc. rewrite Hl in Hc. by apply Forall_app in Hc as [_ ?].
Qed.

(** ** Numbers *)

Definition is_digit (c : ascii) : bool := in_chars 48 57 c.
Definition digit_value (c : ascii) : N := N.of_nat (nat_of_ascii c) - 48.
Definition value (s : text) : N := foldl (fun acc c => 10 * acc + digit_value c)%N 0%N s.

Lemma digit_ok n : (n < 10)%N -> is_digit (digit n) = true /\ digit_value (digit n) = n.
Proof.
  intros Hn. assert (Hc : nat_of_ascii (digit n) = 48 + N.to_nat n).
  { unfold digit. rewrite nat_ascii_embedding; lia. }
  unfold is_digit, in_chars, digit_value. rewrite Hc. split; [apply andb_true_iff; split; apply Nat.leb_le; lia|lia].
Qed.

Lemma decimal_from_ok fuel : forall n, N.to_nat n < fuel ->
  value (decimal_from fuel n) = n /\ Forall (fun c => is_digit c = true) (decimal_from fuel n) /\ decimal_from fuel n <> [].
Proof.
  induction fuel as [|fuel IH]; intros n Hn; [lia|]. cbn. destruct (N.ltb_spec n 10) as [Hs|Hs].
  - destruct (digit_ok n Hs) as [H1 H2]. repeat split; [cbn; lia|by repeat constructor|done].
  - destruct (IH (n / 10)%N) as (Hv & Hd & _). { pose proof (N.div_lt n 10). lia. }
    destruct (digit_ok (n mod 10)) as [H1 H2]; [apply N.mod_lt; lia|]. repeat split.
    + unfold value in *. rewrite foldl_app, Hv. cbn. rewrite H2. pose proof (N.div_mod n 10). lia.
    + apply Forall_app. split; [done|by repeat constructor].
    + by destruct (decimal_from fuel (n / 10)).
Qed.

Lemma decimal_ok n : value (decimal n) = n /\ Forall (fun c => is_digit c = true) (decimal n) /\ decimal n <> [].
Proof. apply decimal_from_ok. lia. Qed.

Lemma decimal_inj n m : decimal n = decimal m -> n = m.
Proof. intros H. destruct (decimal_ok n) as [<- _]. destruct (decimal_ok m) as [<- _]. by rewrite H. Qed.

Lemma decimal_length fuel : forall n k, (n < 10 ^ N.of_nat k)%N -> 0 < k -> length (decimal_from fuel n) <= k.
Proof.
  induction fuel as [|fuel IH]; intros n k Hn Hk; cbn; [lia|]. destruct (N.ltb_spec n 10) as [Hs|Hs]; [cbn; lia|].
  rewrite length_app. cbn. destruct k as [|[|k]]; [lia|change (10 ^ N.of_nat 1)%N with 10%N in Hn; lia|].
  specialize (IH (n / 10)%N (S k)). rewrite (Nat2N.inj_succ (S k)), N.pow_succ_r' in Hn.
  assert (n / 10 < 10 ^ N.of_nat (S k))%N by (apply N.Div0.div_lt_upper_bound; lia). lia.
Qed.

(** ** A free name is found *)

Lemma digit_char c : is_digit c = true -> is_alnum c = true /\ bucket_char (lower_char c) = c /\ c <> dash.
Proof. each_char c. Qed.

(** The number after the last dash *)
Lemma last_dash_split (x y d e : text) : dash ∉ d -> dash ∉ e -> x ++ dash :: d = y ++ dash :: e -> d = e.
Proof.
  revert y. induction x as [|a x IH]; intros [|b y] Hd He H; cbn in H; simplify_eq; [done|set_solver|set_solver|by eapply IH].
Qed.

Section candidates.
Context (name label : text).
Notation base := (base_of name).
Notation suffix := (dash :: slug label).

Definition numbered (n : N) : text := candidate base (suffix ++ dash :: decimal n).

Lemma bucket_numbered n : exists x, bucket_of (numbered n) = x ++ dash :: decimal n.
Proof.
  assert (Happ : forall a b, bucket_of (a ++ b) = bucket_of a ++ bucket_of b) by (intros; unfold bucket_of, lower; by rewrite !map_app).
  assert (Hdec : bucket_of (dash :: decimal n) = dash :: decimal n).
  { change (bucket_of (dash :: decimal n)) with (dash :: bucket_of (decimal n)). f_equal. destruct (decimal_ok n) as (_ & Hd & _).
    unfold bucket_of, lower. induction Hd as [|c s Hc _ IH]; cbn [map]; [done|]. destruct (digit_char c Hc) as (_ & -> & _). by f_equal. }
  unfold numbered, candidate. rewrite app_assoc, Happ, Hdec. eauto.
Qed.

Lemma numbered_distinct n m : bucket_of (numbered n) = bucket_of (numbered m) -> n = m.
Proof.
  destruct (bucket_numbered n) as (x & ->), (bucket_numbered m) as (y & ->). intros H. apply decimal_inj.
  assert (Hnd : forall n, dash ∉ decimal n).
  { intros k Hin. destruct (decimal_ok k) as (_ & Hd & _). rewrite Forall_forall in Hd. apply Hd, digit_char in Hin as (_ & _ & ?). done. }
  by eapply last_dash_split.
Qed.

Lemma numbered_valid n : (n < 10 ^ 30)%N -> NAME_RE (numbered n) = true /\ numbered n ∉ RESERVED.
Proof.
  intros Hn. destruct (base_head name) as (c & s & Hb & Hc & Hall). destruct (slug_chars label) as [Hslug Hlen].
  destruct (decimal_ok n) as (_ & Hdig & Hne). assert (Hdl : length (decimal n) <= 30) by (by apply (decimal_length _ n 30); [|lia]).
  unfold numbered, candidate. set (tail := suffix ++ dash :: decimal n).
  assert (Htl : 0 < MAX_NAME - length tail /\ length tail <= 59).
  { unfold tail, MAX_NAME. rewrite length_app. cbn [length]. lia. }
  rewrite Hb in *. destruct (MAX_NAME - length tail) as [|k] eqn:Hk; [lia|]. cbn [take].
  destruct (rstrip_cons is_dash_or_underscore c (take k s) (alnum_not_dash c Hc)) as (r & Hr). rewrite Hr.
  assert (Hrs : Forall (fun c => is_name_char c = true) (c :: r) /\ length (c :: r) <= S k).
  { rewrite <-Hr. destruct (rstrip_sub is_dash_or_underscore (c :: take k s) (fun c => is_name_char c = true)) as [H1 H2].
    - apply Forall_cons in Hall as [? ?]. constructor; [done|by apply Forall_take].
    - split; [done|]. etrans; [exact H2|]. cbn. rewrite length_take. lia. }
  destruct Hrs as [Hr1 Hr2]. cbn in Hr2. apply Forall_cons in Hr1 as [_ Hr1]. split.
  - unfold NAME_RE. apply orb_true_iff. left. cbn [app name_body]. rewrite Hc. cbn [andb].
    assert (exists l, last (r ++ tail) = Some l /\ is_alnum l = true) as (l & -> & Hl).
    { unfold tail. destruct (decimal n) as [|d ds] eqn:Ed using rev_ind; [done|]. clear IHds.
      exists d. rewrite app_comm_cons, !app_assoc, last_snoc. split; [done|]. apply Forall_app in Hdig as [_ Hd].
      apply Forall_cons in Hd as [Hd _]. by apply digit_char in Hd as [? _]. }
    rewrite Hl, andb_true_r. apply andb_true_iff. split.
    + apply forallb_forall. intros x Hx%list_elem_of_In. unfold tail in Hx. rewrite !elem_of_app, !elem_of_cons in Hx.
      rewrite Forall_forall in Hr1, Hslug, Hdig. destruct Hx as [Hx|[[->|Hx]|[->|Hx]]]; auto.
      apply Hdig, digit_char in Hx as [Hx _]. unfold is_name_char. by rewrite Hx.
    + apply Nat.leb_le. rewrite length_app. unfold MAX_NAME in Hk. lia.
  - assert (Hd : dash ∈ (c :: r) ++ tail) by (unfold tail; set_solver). unfold RESERVED. intros Hin.
    apply elem_of_cons in Hin as [He|Hin]; [|apply list_elem_of_singleton in Hin as He]; rewrite He in Hd; cbv in Hd; set_unfold in Hd; naive_solver.
Qed.

Lemma try_names_None existing fuel : forall n cand, try_names existing base suffix fuel n cand = None ->
  forall i, i < fuel -> refused existing (numbered (n + N.of_nat i)) = true.
Proof.
  induction fuel as [|fuel IH]; intros n cand H i Hi; [lia|]. cbn in H. destruct (refused existing cand); [|done].
  destruct i as [|i].
  - rewrite N.add_0_r. destruct fuel; cbn in H; unfold numbered; destruct (refused existing _) eqn:E; done.
  - replace (n + N.of_nat (S i))%N with (n + 1 + N.of_nat i)%N by lia. eapply IH; [exact H|lia].
Qed.

Lemma try_names_Some existing fuel : forall n cand r, try_names existing base suffix fuel n cand = Some r -> refused existing r = false.
Proof.
  induction fuel as [|fuel IH]; intros n cand r; cbn; destruct (refused existing cand) eqn:E; try done; try (by intros [= <-]). apply IH.
Qed.

(** The numbered names are all different, so one more of them than there are names is enough. *)
Lemma try_names_found existing cand : (N.of_nat (length existing) < 10 ^ 29)%N ->
  exists r, try_names existing base suffix (length existing + 1) 2 cand = Some r.
Proof.
  intros Hsize. destruct (try_names _ _ _ _ _ _) as [r|] eqn:E; [by exists r|]. exfalso.
  pose proof (try_names_None _ _ _ _ E) as Href. set (cands := (fun i => bucket_of (numbered (2 + N.of_nat i))) <$> seq 0 (length existing + 1)).
  assert (Hn : NoDup cands).
  { apply NoDup_fmap_2_strong; [|apply NoDup_seq]. intros i j _ _ H%numbered_distinct. lia. }
  assert (Hsub : cands ⊆+ (bucket_of <$> existing)).
  { apply NoDup_submseteq; [done|]. intros b (i & -> & [_ Hi]%elem_of_seq)%list_elem_of_fmap. specialize (Href i ltac:(lia)).
    destruct (numbered_valid (2 + N.of_nat i)) as [Hv Hr]; [assert (10 ^ 30 = 10 * 10 ^ 29)%N as -> by (vm_compute; reflexivity); clear -Hsize Hi; revert Hsize; generalize (10 ^ 29)%N; intros; lia|].
    unfold refused in Href. rewrite Hv, (bool_decide_eq_false_2 _ Hr), !orb_false_r in Href. apply taken_spec in Href as (e & He & <-).
    apply list_elem_of_fmap. by exists e. }
  apply submseteq_length in Hsub. unfold cands in Hsub. rewrite !length_fmap, length_seq in Hsub. lia.
Qed.
End candidates.

(** [choose_name] returns a name that is valid, not reserved and free. *)
Lemma choose_name_free name existing label : (N.of_nat (length existing) < 10 ^ 29)%N ->
  exists r, choose_name name existing label = Some r /\ NAME_RE r = true /\ r ∉ RESERVED /\ taken r existing = false.
Proof.
  intros Hsize. unfold choose_name. destruct (NAME_RE name && _ && _) eqn:E; [exists name; bprop; auto|]. cbv zeta.
  destruct (try_names_found name label existing (candidate (base_of name) (dash :: slug label)) Hsize) as (r & Hr). exists r. split; [done|].
  apply try_names_Some in Hr. unfold refused in Hr. bprop. done.
Qed.

(** ** What the plan says *)

(** The map items of a manifest: name, nodes, bytes and bytes present *)
Definition map_items (items : list Item) : list (text * N * N * N) :=
  omap (fun i => match i with ItemMap n k b p => Some (n, k, b, p) | _ => None end) items.

Definition is_new (e : MapEntry) : bool := match m_action e with Resume => false | _ => true end.
Definition new_targets (es : list MapEntry) : list text := m_target <$> List.filter is_new es.

(** The entry of an item: it resumes the first map that was imported from it, or there is none *)
Definition entry_of (existing : list (text * TargetMap)) (src_key : text) (i : text * N * N * N) (e : MapEntry) : Prop :=
  m_source e = i.1.1.1 /\ m_nodes e = i.1.1.2 /\ m_bytes e = i.1.2 /\ m_present e = i.2
  /\ match imported_as existing src_key i.1.1.1 with
     | target :: _ => m_action e = Resume /\ m_target e = target
     | [] => is_new e = true
     end.

(** New targets are valid names, free and of different buckets. *)
Definition fresh_names (taken_names names : list text) : Prop :=
  NoDup (bucket_of <$> names) /\ Forall (fun t => taken t taken_names = false /\ NAME_RE t = true /\ t ∉ RESERVED) names.

Lemma fresh_cons taken_names t names : taken t taken_names = false -> NAME_RE t = true -> t ∉ RESERVED ->
  fresh_names (taken_names ++ [t]) names -> fresh_names taken_names (t :: names).
Proof.
  intros Ht Hn Hr [Hd Hf]. assert (Hsub : forall u, taken u (taken_names ++ [t]) = false -> taken u taken_names = false /\ bucket_of u <> bucket_of t).
  { intros u Hu. split.
    - apply not_true_iff_false. intros (e & He & Hb)%taken_spec. apply not_true_iff_false in Hu. apply Hu, taken_spec. exists e. set_solver.
    - intros Hb. apply not_true_iff_false in Hu. apply Hu, taken_spec. exists t. set_solver. }
  split.
  - cbn. constructor; [|done]. intros (u & Hb & Hu)%list_elem_of_fmap. rewrite Forall_forall in Hf. destruct (Hf u Hu) as (Hut & _).
    destruct (Hsub u Hut). congruence.
  - constructor; [done|]. eapply Forall_impl; [exact Hf|]. cbn. intros u (Hu & ? & ?). split; [by apply Hsub|done].
Qed.

Section planned.
Context (existing : list (text * TargetMap)) (src_key label : text) (has_json : text -> bool).

Lemma map_entry_ok taken_names n k b pr : (N.of_nat (length taken_names) < 10 ^ 29)%N ->
  exists e, map_entry existing src_key label taken_names n k b pr = Some e /\ entry_of existing src_key (n, k, b, pr) e
    /\ (is_new e = true -> taken (m_target e) taken_names = false /\ NAME_RE (m_target e) = true /\ m_target e ∉ RESERVED).
Proof.
  intros Hsize. unfold map_entry. destruct (imported_as existing src_key n) as [|t ts] eqn:Hi.
  - destruct (choose_name_free n taken_names label Hsize) as (r & -> & Hv & Hr & Ht). eexists. split; [done|].
    split; [|done]. repeat split. cbn. rewrite Hi. unfold is_new. cbn. by case_bool_decide.
  - eexists. split; [done|]. split; [|done]. repeat split; cbn; by rewrite Hi.
Qed.

Lemma plan_items_spec items : forall taken_names p, (N.of_nat (length taken_names + length items) < 10 ^ 29)%N ->
  exists tk p' es, plan_items existing src_key label has_json (taken_names, p) items = Some (tk, p')
    /\ p_maps p' = p_maps p ++ es /\ Forall2 (entry_of existing src_key) (map_items items) es
    /\ fresh_names taken_names (new_targets es)
    /\ p_errors p' = p_errors p ++ (i ← map_items items; if has_json i.1.1.1 then [] else [MissingJson i.1.1.1]).
Proof.
  induction items as [|i items IH]; intros tn p Hsize.
  { exists tn, p, []. cbn. rewrite !app_nil_r. repeat split; constructor. }
  assert (Hstep : forall tn' p1, length tn' <= S (length tn) -> (exists tk p' es, plan_items existing src_key label has_json (tn', p1) items = Some (tk, p')
    /\ p_maps p' = p_maps p1 ++ es /\ Forall2 (entry_of existing src_key) (map_items items) es /\ fresh_names tn' (new_targets es)
    /\ p_errors p' = p_errors p1 ++ (i ← map_items items; if has_json i.1.1.1 then [] else [MissingJson i.1.1.1]))).
  { intros tn' p1 Hl. apply IH. cbn [length] in Hsize. lia. }
  destruct i as [n k b pr|m ids r l h|r id pr b mid|kind]; cbn [plan_items plan_item].
  2,3,4: edestruct (Hstep tn) as (tk & p' & es & H1 & H2 & H3 & H4 & H5); [lia|]; rewrite H1; exists tk, p', es; done.
  destruct (map_entry_ok tn n k b pr) as (e & -> & He & Hnew); [cbn [length] in Hsize; lia|].
  destruct (is_new e) eqn:Hn.
  - destruct (Hnew eq_refl) as (Ht & Hv & Hr).
    replace (match m_action e with Resume => tn | _ => tn ++ [m_target e] end) with (tn ++ [m_target e]) by (unfold is_new in Hn; by destruct (m_action e)).
    edestruct (Hstep (tn ++ [m_target e])) as (tk & p' & es & H1 & H2 & H3 & H4 & H5); [rewrite length_app; cbn; lia|]. rewrite H1.
    exists tk, p', (e :: es). rewrite H2, H5. cbn. rewrite <-!app_assoc. repeat split; [by constructor| |].
    all: unfold new_targets; cbn; rewrite Hn; cbn; by apply (fresh_cons tn).
  - replace (match m_action e with Resume => tn | _ => tn ++ [m_target e] end) with tn by (unfold is_new in Hn; by destruct (m_action e)).
    edestruct (Hstep tn) as (tk & p' & es & H1 & H2 & H3 & H4 & H5); [lia|]. rewrite H1.
    exists tk, p', (e :: es). rewrite H2, H5. cbn. rewrite <-!app_assoc. split; [done|]. split; [done|]. split; [by constructor|]. split; [|done].
    unfold new_targets in *. cbn. by rewrite Hn.
Qed.
End planned.

(** What the maps of a plan look like to the next plan once their rows are written *)
Definition imported_row (src_key : text) (e : MapEntry) : text * TargetMap :=
  (m_target e, {| t_lifecycle := ALIVE; t_imported_from := Some (src_key, m_source e) |}).
Definition after_import (existing : list (text * TargetMap)) (src_key : text) (es : list MapEntry) : list (text * TargetMap) :=
  existing ++ (imported_row src_key <$> List.filter is_new es).

Definition as_resume (e : MapEntry) : MapEntry :=
  {| m_source := m_source e; m_target := m_target e; m_action := Resume; m_nodes := m_nodes e; m_bytes := m_bytes e; m_present := m_present e |}.

Lemma imported_after existing src_key es name :
  imported_as (after_import existing src_key es) src_key name =
  imported_as existing src_key name ++ (m_target <$> List.filter (fun e => is_new e && bool_decide (m_source e = name)) es).
Proof.
  unfold imported_as, after_import. rewrite List.filter_app, fmap_app. f_equal. induction es as [|e es IH]; [done|]. cbn.
  destruct (is_new e); cbn; [|done].
  rewrite (bool_decide_eq_false_2 (ALIVE = DELETING)), (bool_decide_eq_false_2 (ALIVE = DELETED)) by done. cbn. rewrite !andb_true_r.
  rewrite (bool_decide_ext (Some (src_key, m_source e) = Some (src_key, name)) (m_source e = name)) by naive_solver.
  case_bool_decide; cbn; [by f_equal|done].
Qed.

(** The entry of an item in the first plan is where the next plan finds the map. *)
Lemma next_target existing src_key its es i e : NoDup ((fun i => i.1.1.1) <$> its) -> Forall2 (entry_of existing src_key) its es ->
  (i, e) ∈ zip its es -> head (imported_as (after_import existing src_key es) src_key i.1.1.1) = Some (m_target e).
Proof.
  intros Hn Hf Hin. rewrite imported_after. destruct (imported_as existing src_key i.1.1.1) as [|t ts] eqn:Hi; cbn.
  2: { assert (He : entry_of existing src_key i e) by (apply list_elem_of_lookup in Hin as (j & [? ?]%lookup_zip_Some); by eapply Forall2_lookup_lr).
    destruct He as (_ & _ & _ & _ & He). rewrite Hi in He. destruct He as [_ ->]. done. }
  induction Hf as [|i' e' its es He Hf IH]; cbn in *; [set_solver|]. apply NoDup_cons in Hn as [Hni Hn]. apply elem_of_cons in Hin as [[= -> ->]|Hin].
  - destruct He as (Hs & _ & _ & _ & He). rewrite Hi in He. by rewrite He, Hs, bool_decide_eq_true_2.
  - destruct He as (Hs & _). rewrite (bool_decide_eq_false_2 (m_source e' = _)), andb_false_r; [by apply IH|].
    rewrite Hs. intros Heq. apply Hni. rewrite Heq. apply list_elem_of_fmap. exists i. split; [done|]. clear -Hin.
    by apply elem_of_zip_l in Hin.
Qed.

Section next_plan.
Context (existing : list (text * TargetMap)) (src_key label : text) (has_json : text -> bool).

Lemma replan_items items : forall taken_names p es,
  Forall2 (fun i e => head (imported_as existing src_key i.1.1.1) = Some (m_target e)
    /\ m_source e = i.1.1.1 /\ m_nodes e = i.1.1.2 /\ m_bytes e = i.1.2 /\ m_present e = i.2) (map_items items) es ->
  exists p', plan_items existing src_key label has_json (taken_names, p) items = Some (taken_names, p')
    /\ p_maps p' = p_maps p ++ (as_resume <$> es).
Proof.
  induction items as [|i items IH]; intros tn p es Hf; [inversion Hf; subst; exists p; cbn; by rewrite app_nil_r|].
  destruct i as [n k b pr|m ids r l h|r id pr b mid|kind]; cbn [plan_items plan_item].
  2,3,4: edestruct (IH tn) as (p' & -> & Hp); [exact Hf|]; by exists p'.
  cbn in Hf. apply Forall2_cons_inv_l in Hf as (e & es' & (Hh & H1 & H2 & H3 & H4) & Hf & ->). cbn in Hh, H1, H2, H3, H4.
  unfold map_entry. destruct (imported_as existing src_key n) as [|t ts]; [done|]. cbn in Hh. injection Hh as ->. cbn.
  edestruct (IH tn) as (p' & -> & Hp); [exact Hf|]. exists p'. split; [done|]. rewrite Hp. cbn. rewrite <-app_assoc. cbn. f_equal.
  destruct e. cbn in *. subst. done.
Qed.
End next_plan.

(** C30: planning an import always ends and gives every map of the bundle a target: the map an earlier import of it
    from this source made, where there is one, and otherwise a name that is valid, no longer than allowed and not
    reserved (or its own name), which shares neither its spelling up to case nor its bucket with any map on the
    server or with another new map of the plan. *)
Theorem plan_names_free source items problems has_json self existing free :
  (N.of_nat (length existing + length items) < 10 ^ 29)%N ->
  exists p, plan_import source items problems has_json self existing free = Some p
    /\ Forall2 (entry_of existing (source_key source)) (map_items items) (p_maps p)
    /\ fresh_names existing.*1 (new_targets (p_maps p)).
Proof.
  intros Hsize. unfold plan_import. edestruct (plan_items_spec existing (source_key source) (source_label source) has_json items existing.*1)
    as (tk & p & es & -> & Hm & Hf & Hfresh & _); [by rewrite length_fmap|]. cbn in Hm. eexists. split; [done|]. cbn. by rewrite Hm.
Qed.

Lemma plan_names_free_witness :
  exists p, plan_import {| s_instance_id := Some (text_of "db1"); s_server_id := None; s_name := Some (text_of "lab server") |}
    [ItemMap (text_of "My_Map") 3 10 0; ItemMap (text_of "hall") 0 0 0] [] (fun _ => true) None
    [(text_of "my-map", {| t_lifecycle := ALIVE; t_imported_from := None |})] None = Some p
  /\ m_target <$> p_maps p = [text_of "My_Map-lab-server"; text_of "hall"]
  /\ fresh_names [text_of "my-map"] (new_targets (p_maps p)).
Proof.
  pose proof (plan_names_free {| s_instance_id := Some (text_of "db1"); s_server_id := None; s_name := Some (text_of "lab server") |}
    [ItemMap (text_of "My_Map") 3 10 0; ItemMap (text_of "hall") 0 0 0] [] (fun _ => true) None
    [(text_of "my-map", {| t_lifecycle := ALIVE; t_imported_from := None |})] None ltac:(vm_compute; reflexivity)) as (p & Hp & _ & Hf).
  exists p. split; [exact Hp|]. split; [|exact Hf]. vm_compute in Hp. injection Hp as <-. vm_compute. reflexivity.
Defined.

(** Planning the same bundle again after the import has created its maps resumes every one of them under the
    very name the first plan chose. *)
Theorem replan_resumes source items problems has_json self existing free free' p :
  (N.of_nat (length existing + length items) < 10 ^ 29)%N ->
  NoDup ((fun i => i.1.1.1) <$> map_items items) ->
  plan_import source items problems has_json self existing free = Some p ->
  exists p', plan_import source items problems has_json self (after_import existing (source_key source) (p_maps p)) free' = Some p'
    /\ p_maps p' = as_resume <$> p_maps p.
Proof.
  intros Hsize Hn Hp. unfold plan_import in Hp. edestruct (plan_items_spec existing (source_key source) (source_label source) has_json items existing.*1)
    as (tk & p1 & es & H1 & Hm & Hf & _ & _); [by rewrite length_fmap|]. rewrite H1 in Hp. cbn in Hm. injection Hp as <-. cbn. rewrite Hm.
  unfold plan_import. edestruct (replan_items (after_import existing (source_key source) es) (source_key source) (source_label source) has_json items)
    as (p' & -> & Hp'); [|eexists; split; [reflexivity|exact Hp']].
  apply Forall2_same_length_lookup. split; [by eapply Forall2_length|]. intros k i e Hi He.
  pose proof (Forall2_lookup_lr _ _ _ _ _ _ Hf Hi He) as (Hs & Hk & Hb & Hpr & _). split; [|done].
  eapply next_target; [exact Hn|exact Hf|]. eapply list_elem_of_lookup_2. apply lookup_zip_Some. done.
Qed.

Lemma replan_resumes_witness :
  exists p p', plan_import {| s_instance_id := Some (text_of "db1"); s_server_id := None; s_name := None |}
    [ItemMap (text_of "hall") 3 10 0] [] (fun _ => true) None [(text_of "HALL", {| t_lifecycle := ALIVE; t_imported_from := None |})] None = Some p
  /\ plan_import {| s_instance_id := Some (text_of "db1"); s_server_id := None; s_name := None |}
    [ItemMap (text_of "hall") 3 10 0] [] (fun _ => true) None
    (after_import [(text_of "HALL", {| t_lifecycle := ALIVE; t_imported_from := None |})] (text_of "db1") (p_maps p)) None = Some p'
  /\ p_maps p' = as_resume <$> p_maps p.
Proof.
  destruct (plan_import {| s_instance_id := Some (text_of "db1"); s_server_id := None; s_name := None |}
    [ItemMap (text_of "hall") 3 10 0] [] (fun _ => true) None [(text_of "HALL", {| t_lifecycle := ALIVE; t_imported_from := None |})] None) as [p|] eqn:E.
  - destruct (replan_resumes {| s_instance_id := Some (text_of "db1"); s_server_id := None; s_name := None |}
      [ItemMap (text_of "hall") 3 10 0] [] (fun _ => true) None [(text_of "HALL", {| t_lifecycle := ALIVE; t_imported_from := None |})] None None p
      ltac:(vm_compute; reflexivity) ltac:(apply NoDup_singleton) E) as (p' & H1 & H2). exists p, p'. auto.
  - vm_compute in E. discriminate E.
Defined.

(** A name with a final newline passes the expression and is kept, at up to sixty characters. *)
Theorem newline_name_kept label :
  choose_name (text_of "hall" ++ [newline]) [] label = Some (text_of "hall" ++ [newline])
  /\ name_body (text_of "hall" ++ [newline]) = false.
Proof. split; reflexivity. Qed.
