(* ===== verification/ImportApply.v ===== *)
(** * Applying and undoing an import

    packages/migration/apply.py, the target stores of packages/migration/stores.py and the undo of
    packages/migration/jobs.py. Module [Maps]: the writes of one planned map as a sequence of actions that may be
    cut short anywhere (a failing store, a stop, a restart); an import that is run again finishes the map exactly
    as an uninterrupted one. Module [Undo]: what removing an import deletes. Documents are their key, the fields
    the import rewrites and the rest; a batch the graph database inserts in part is covered because every document
    is an action of its own. The map's import lock keeps other imports out, so an import sees its own writes. *)

From Stdlib Require Import Ascii.
From S2P Require Import Prelude ImportPlan.

Module Maps.

Inductive Phase := Importing | Complete.
#[export] Instance Phase_eq_dec : EqDecision Phase.
Proof. solve_decision. Defined.

(** [imported_from] (without the source's name and date, which are only shown) *)
Record Marker := { k_source : text; k_map : text; k_import_id : text; k_phase : Phase;
                   k_source_state : option text; k_import_ids : option (list text) }.
#[export] Instance Marker_eq_dec : EqDecision Marker.
Proof. solve_decision. Defined.

(** A map row: the other fields of its status are [row_status] *)
Record Row := { row_lifecycle : MapLifecycle; row_spec : text; row_state : option text; row_status : gmap text text; row_from : option Marker }.

(** A node or edge document; [d_system] stands for ArangoDB's [_id] and [_rev] *)
Record Doc := { d_key : text; d_system : option text; d_map_id : option text; d_from : option text; d_to : option text; d_body : text }.

Record ObjectRef := { o_key : text; o_size : N; o_present : bool; o_content : text }.

(** The part of the bundle that holds one map *)
Record BundleMap := {
  bm_spec : text; bm_state : option text; bm_status : gmap text text; bm_sessions : list (text * text); bm_nodes : list Doc; bm_edges : list Doc;
  bm_objects : list ObjectRef; bm_view_settings : option text;
}.

(** The stores: map rows, sessions by id, documents by map and key, objects by bucket and key, view settings *)
Record Store := {
  s_maps : gmap text Row; s_sessions : gmap text (text * text); s_nodes : gmap (text * text) Doc; s_edges : gmap (text * text) Doc;
  s_objects : gmap (text * text) (N * text); s_views : gmap text text;
}.

Definition set_maps (f : gmap text Row -> gmap text Row) (s : Store) : Store :=
  {| s_maps := f (s_maps s); s_sessions := s_sessions s; s_nodes := s_nodes s; s_edges := s_edges s; s_objects := s_objects s; s_views := s_views s |}.
Definition set_sessions f (s : Store) : Store :=
  {| s_maps := s_maps s; s_sessions := f (s_sessions s); s_nodes := s_nodes s; s_edges := s_edges s; s_objects := s_objects s; s_views := s_views s |}.
Definition set_nodes f (s : Store) : Store :=
  {| s_maps := s_maps s; s_sessions := s_sessions s; s_nodes := f (s_nodes s); s_edges := s_edges s; s_objects := s_objects s; s_views := s_views s |}.
Definition set_edges f (s : Store) : Store :=
  {| s_maps := s_maps s; s_sessions := s_sessions s; s_nodes := s_nodes s; s_edges := f (s_edges s); s_objects := s_objects s; s_views := s_views s |}.
Definition set_objects f (s : Store) : Store :=
  {| s_maps := s_maps s; s_sessions := s_sessions s; s_nodes := s_nodes s; s_edges := s_edges s; s_objects := f (s_objects s); s_views := s_views s |}.
Definition set_views f (s : Store) : Store :=
  {| s_maps := s_maps s; s_sessions := s_sessions s; s_nodes := s_nodes s; s_edges := s_edges s; s_objects := s_objects s; s_views := f (s_views s) |}.

(** [ON CONFLICT DO NOTHING], [overwrite_mode = ignore] *)
Definition insert_absent {K V : Type} `{Countable K} (k : K) (v : V) (m : gmap K V) : gmap K V :=
  match m !! k with Some _ => m | None => <[k := v]> m end.

Definition ARCHIVED : text := text_of "archived".
Definition READY : text := text_of "ready".
Definition DRAFT : text := text_of "draft".

(** [final_state] *)
Definition final_state (source_state : option text) (node_count : nat) : text :=
  if bool_decide (source_state = Some ARCHIVED) then ARCHIVED
  else if bool_decide (0 < node_count) then READY else DRAFT.

(** [rewrite_node] *)
Definition rewrite_node (dst : text) (d : Doc) : Doc :=
  {| d_key := d_key d; d_system := None; d_map_id := (fun _ => dst) <$> d_map_id d; d_from := d_from d; d_to := d_to d; d_body := d_body d |}.

(** [value.split("/", 1)[1]] *)
Fixpoint after_slash (s : text) : text :=
  match s with [] => [] | c :: s => if bool_decide (c = "/"%char) then s else after_slash s end.
Fixpoint starts_with (p s : text) : bool :=
  match p, s with [], _ => true | a :: p, b :: s => bool_decide (a = b) && starts_with p s | _, [] => false end.
Definition collection (name : text) : text := text_of "nodes_" ++ name ++ text_of "/".
(** [rewrite_edge] *)
Definition rewrite_end (src dst : text) (v : option text) : option text :=
  match v with
  | Some v => if starts_with (collection src) v then Some (collection dst ++ after_slash v) else Some v
  | None => None
  end.
Definition rewrite_edge (src dst : text) (d : Doc) : Doc :=
  {| d_key := d_key d; d_system := None; d_map_id := (fun _ => dst) <$> d_map_id d;
     d_from := rewrite_end src dst (d_from d); d_to := rewrite_end src dst (d_to d); d_body := d_body d |}.

(** [_batches] *)
Fixpoint batches_from {A : Type} (size : nat) (items batch : list A) : list (list A) :=
  match items with
  | [] => match batch with [] => [] | _ => [batch] end
  | i :: items => if bool_decide (size <= length (batch ++ [i])) then (batch ++ [i]) :: batches_from size items []
                  else batches_from size items (batch ++ [i])
  end.
Definition batches {A : Type} (size : nat) (items : list A) : list (list A) := batches_from size items [].
Definition BATCH : nat := 500.

(** Why an import of a map ends: it was refused, or an object left out of the bundle is gone *)
Inductive Failure := Refused | ObjectGone (key : text).

(** The fields of the source's status that say what that server was doing with the map *)
Definition dropped : list text := text_of <$> ["open_session_id"; "delete_requested_at"; "delete_attempts"; "delete_error"]%string.

(** The writes of [_apply_map] after the row is there *)
Inductive Write :=
| AddSessions | PutNode (d : Doc) | PutEdge (d : Doc) | PutObject (o : ObjectRef) | PutViewSettings | Commit (marker : Marker).

Section apply.
Context (import_id src_key src dst : text) (bm : BundleMap).

(** The check of the row, or the row hidden until the import is complete *)
Definition begin (s : Store) : result Failure Store :=
  match s_maps s !! dst with
  | Some row =>
      if bool_decide (row_lifecycle row = DELETED) then Raise Refused     (* not seen, but the name is in the table *)
      else match row_from row with
           | Some k => if bool_decide (k_source k = src_key) && bool_decide (k_map k = src) then Ok s else Raise Refused
           | None => Raise Refused
           end
  | None =>
      let marker := {| k_source := src_key; k_map := src; k_import_id := import_id; k_phase := Importing;
                       k_source_state := bm_state bm; k_import_ids := None |} in
      Ok (set_maps <[dst := {| row_lifecycle := ALIVE; row_spec := bm_spec bm; row_state := Some ARCHIVED;
                               row_status := foldr delete (bm_status bm) dropped; row_from := Some marker |}]> s)
  end.

(** The marker the map will carry, this import among those that touched it *)
Definition touched (k : Marker) : Marker :=
  let ids := match k_import_ids k with Some ((_ :: _) as l) => l | _ => [k_import_id k] end in
  {| k_source := k_source k; k_map := k_map k; k_import_id := k_import_id k; k_phase := Complete; k_source_state := k_source_state k;
     k_import_ids := Some (if bool_decide (import_id ∈ ids) then ids else ids ++ [import_id]) |}.

Definition add_sessions (s : Store) : Store :=
  set_sessions (fun m => foldl (fun m x => insert_absent x.1 (dst, x.2) m) m (bm_sessions bm)) s.
(** An object of the same size is skipped; one of another size is written over *)
Definition put_object (o : ObjectRef) (s : Store) : result Failure Store :=
  if bool_decide (fst <$> s_objects s !! (bucket_of dst, o_key o) = Some (o_size o)) then Ok s
  else if o_present o then Raise (ObjectGone (o_key o))
  else Ok (set_objects <[(bucket_of dst, o_key o) := (o_size o, o_content o)]> s).
Definition commit_map (marker : Marker) (s : Store) : Store :=
  set_maps (alter (fun row => {| row_lifecycle := row_lifecycle row; row_spec := row_spec row;
    row_state := Some (final_state (k_source_state marker) (length (bm_nodes bm))); row_status := row_status row; row_from := Some marker |}) dst) s.

Definition write (w : Write) (s : Store) : result Failure Store :=
  match w with
  | AddSessions => Ok (add_sessions s)
  | PutNode d => Ok (set_nodes (insert_absent (dst, d_key d) (rewrite_node dst d)) s)
  | PutEdge d => Ok (set_edges (insert_absent (dst, d_key d) (rewrite_edge src dst d)) s)
  | PutObject o => put_object o s
  | PutViewSettings => Ok (match bm_view_settings bm with Some v => set_views (insert_absent dst v) s | None => s end)
  | Commit marker => Ok (commit_map marker s)
  end.

Definition writes (marker : Marker) : list Write :=
  AddSessions :: (PutNode <$> mjoin (batches BATCH (bm_nodes bm)))
  ++ (PutEdge <$> mjoin (batches BATCH (bm_edges bm)))
  ++ (PutObject <$> bm_objects bm)
  ++ [PutViewSettings; Commit marker].
End apply.

(** Writes one after another, until one of them fails *)
Fixpoint run_steps {A S E : Type} (step : A -> S -> result E S) (l : list A) (s : S) : S * result E () :=
  match l with
  | [] => (s, Ok ())
  | a :: l => match step a s with Ok s' => run_steps step l s' | Raise e => (s, Raise e) end
  end.

(** [_apply_map], cut short after [cut] of its writes by a stop, a failing store or the end of the process *)
Definition apply_some (cut : nat) (import_id src_key src dst : text) (bm : BundleMap) (s : Store) : Store * result Failure () :=
  match begin import_id src_key src dst bm s with
  | Raise e => (s, Raise e)
  | Ok s1 =>
      match s_maps s1 !! dst ≫= row_from with
      | Some k => run_steps (write src dst bm) (take cut (writes bm (touched import_id k))) s1
      | None => (s1, Raise Refused)
      end
  end.
Definition apply_map (import_id src_key src dst : text) (bm : BundleMap) (s : Store) : Store * result Failure () :=
  match begin import_id src_key src dst bm s with
  | Raise e => (s, Raise e)
  | Ok s1 =>
      match s_maps s1 !! dst ≫= row_from with
      | Some k => run_steps (write src dst bm) (writes bm (touched import_id k)) s1
      | None => (s1, Raise Refused)
      end
  end.

(** ** Repeating an import *)

Lemma batches_join {A : Type} size (items : list A) : mjoin (batches size items) = items.
Proof.
  unfold batches. cut (forall b, mjoin (batches_from size items b) = b ++ items); [intros H; apply H|].
  induction items as [|i items IH]; intros b; cbn; [destruct b; cbn; by rewrite ?app_nil_r|].
  case_bool_decide; cbn; rewrite IH; cbn; by rewrite <-?app_assoc.
Qed.

Lemma run_steps_inv {A S E : Type} (step : A -> S -> result E S) (I : S -> Prop) l' s : (forall a s s', a ∈ l' -> I s -> step a s = Ok s' -> I s') -> I s -> I (run_steps step l' s).1.
Proof.
  revert s. induction l' as [|a l' IH]; intros s Hk Hs; cbn; [done|]. destruct (step a s) as [s1|] eqn:Ea; [|done].
  apply IH; [|eapply (Hk a); [set_solver|done|done]]. intros b t t' Hb. apply Hk. set_solver.
Qed.

(** Steps that each establish a postcondition, do nothing where it holds, and keep those of the others. *)
Section repeat.
Context {A S E : Type} (step : A -> S -> result E S) (post : A -> S -> Prop) (l : list A).
Hypothesis post_est : forall a s s', a ∈ l -> step a s = Ok s' -> post a s'.
Hypothesis post_noop : forall a s, a ∈ l -> post a s -> step a s = Ok s.
Hypothesis post_keep : forall a b s s', a ∈ l -> b ∈ l -> post a s -> step b s = Ok s' -> post a s'.

Lemma run_steps_app l1 l2 s : run_steps step (l1 ++ l2) s =
  match run_steps step l1 s with (s', Ok _) => run_steps step l2 s' | r => r end.
Proof. revert s. induction l1 as [|a l1 IH]; intros s; cbn; [done|]. destruct (step a s); [apply IH|done]. Qed.

Lemma run_keep a l' s s' : a ∈ l -> l' ⊆ l -> post a s -> run_steps step l' s = (s', Ok ()) -> post a s'.
Proof.
  intros Ha. revert s. induction l' as [|b l' IH]; intros s Hl Hs; cbn; [by intros [= <-]|].
  destruct (step b s) as [s1|] eqn:Eb; [|done]. apply IH; [set_solver|]. eapply post_keep; [done| |done|done]. set_solver.
Qed.

Lemma run_est l' s s' : l' ⊆ l -> run_steps step l' s = (s', Ok ()) -> forall a, a ∈ l' -> post a s'.
Proof.
  revert s. induction l' as [|b l' IH]; intros s Hl; cbn; [set_solver|].
  destruct (step b s) as [s1|] eqn:Eb; [|done]. intros Hr a [->|Ha]%elem_of_cons; [|eapply IH; [set_solver|done|done]].
  eapply run_keep; [| |eapply post_est|done]; [set_solver|set_solver|set_solver|done].
Qed.

Lemma run_noop l' s : l' ⊆ l -> (forall a, a ∈ l' -> post a s) -> run_steps step l' s = (s, Ok ()).
Proof.
  induction l' as [|b l' IH]; intros Hl Hs; cbn; [done|]. rewrite post_noop; [|set_solver..]. apply IH; set_solver.
Qed.

Lemma rerun_steps k s s' : run_steps step l s = (s', Ok ()) ->
  exists s1, run_steps step (take k l) s = (s1, Ok ()) /\ run_steps step l s1 = (s', Ok ()).
Proof.
  rewrite <-(take_drop k l) at 1. rewrite run_steps_app.
  destruct (run_steps step (take k l) s) as [s1 [[]|e]] eqn:E1; [|done]. intros E2. exists s1. split; [done|].
  rewrite <-(take_drop k l) at 1. rewrite run_steps_app, run_noop; [done| |].
  - intros a (i & Ha & _)%elem_of_take. by eapply list_elem_of_lookup_2.
  - eapply run_est; [|done]. intros b (i & Hb & _)%elem_of_take. by eapply list_elem_of_lookup_2.
Qed.
End repeat.

Section writes.
Context (src dst : text) (bm : BundleMap).
Hypothesis objects_distinct : NoDup (o_key <$> bm_objects bm).

(** What a write leaves behind for the rest of the import *)
Definition written (w : Write) (s : Store) : Prop :=
  match w with
  | AddSessions => Forall (fun x => is_Some (s_sessions s !! x.1)) (bm_sessions bm)
  | PutNode d => is_Some (s_nodes s !! (dst, d_key d))
  | PutEdge d => is_Some (s_edges s !! (dst, d_key d))
  | PutObject o => fst <$> s_objects s !! (bucket_of dst, o_key o) = Some (o_size o)
  | PutViewSettings => bm_view_settings bm = None \/ is_Some (s_views s !! dst)
  | Commit marker => s_maps (commit_map dst bm marker s) = s_maps s
  end.

Lemma insert_absent_present {K V : Type} `{Countable K} (k : K) (v : V) m : is_Some (m !! k) -> insert_absent k v m = m.
Proof. intros [w E]. unfold insert_absent. by rewrite E. Qed.
Lemma insert_absent_is_Some {K V : Type} `{Countable K} (k j : K) (v : V) m :
  is_Some (insert_absent k v m !! j) <-> k = j \/ is_Some (m !! j).
Proof.
  unfold insert_absent. destruct (m !! k) eqn:E; [naive_solver|]. rewrite lookup_insert_is_Some. destruct (decide (k = j)); naive_solver.
Qed.

Lemma sessions_absent (f : text * text -> text * text) (l : list (text * text)) (m : gmap text (text * text)) j :
  is_Some (foldl (fun m x => insert_absent x.1 (f x) m) m l !! j) <-> j ∈ (fst <$> l) \/ is_Some (m !! j).
Proof.
  revert m. induction l as [|x l IH]; intros m; cbn; [set_solver|]. rewrite IH, insert_absent_is_Some, elem_of_cons. naive_solver.
Qed.
Lemma sessions_present (f : text * text -> text * text) (l : list (text * text)) (m : gmap text (text * text)) :
  Forall (fun x => is_Some (m !! x.1)) l -> foldl (fun m x => insert_absent x.1 (f x) m) m l = m.
Proof. induction 1 as [|x l Hx _ IH]; cbn; [done|]. by rewrite insert_absent_present. Qed.

Lemma store_eta s : {| s_maps := s_maps s; s_sessions := s_sessions s; s_nodes := s_nodes s; s_edges := s_edges s;
  s_objects := s_objects s; s_views := s_views s |} = s.
Proof. by destruct s. Qed.

Lemma commit_map_twice marker s : commit_map dst bm marker (commit_map dst bm marker s) = commit_map dst bm marker s.
Proof.
  unfold commit_map, set_maps. cbn. f_equal. apply map_eq. intros j. destruct (decide (dst = j)) as [<-|Hj].
  - rewrite !lookup_alter_eq. by destruct (s_maps s !! dst).
  - by rewrite !lookup_alter_ne.
Qed.

Lemma write_written w s s' : write src dst bm w s = Ok s' -> written w s'.
Proof.
  destruct w; cbn; [intros [= <-]|intros [= <-]|intros [= <-]| |intros [= <-]|intros [= <-]]; cbn.
  - apply Forall_forall. intros x Hx. apply (sessions_absent (fun x => (dst, x.2))). left. by apply list_elem_of_fmap_2.
  - apply insert_absent_is_Some. by left.
  - apply insert_absent_is_Some. by left.
  - unfold put_object. case_bool_decide; [by intros [= <-]|]. destruct (o_present o); [done|]. intros [= <-]. cbn. by rewrite lookup_insert_eq.
  - destruct (bm_view_settings bm); [right|by left]. apply insert_absent_is_Some. by left.
  - exact (f_equal s_maps (commit_map_twice marker s)).
Qed.

Lemma written_noop w s : written w s -> write src dst bm w s = Ok s.
Proof.
  destruct w; cbn; intros Hw.
  - unfold add_sessions, set_sessions. by rewrite (sessions_present (fun x => (dst, x.2))), store_eta.
  - unfold set_nodes. by rewrite insert_absent_present, store_eta.
  - unfold set_edges. by rewrite insert_absent_present, store_eta.
  - unfold put_object. by rewrite bool_decide_true.
  - destruct (bm_view_settings bm); [|done]. destruct Hw as [|]; [done|]. unfold set_views. by rewrite insert_absent_present, store_eta.
  - unfold commit_map, set_maps. by rewrite Hw, store_eta.
Qed.

(** The writes of one import: one commit, and one object per key *)
Lemma elem_writes marker w : w ∈ writes bm marker ->
  match w with PutObject o => o ∈ bm_objects bm | Commit m => m = marker | _ => True end.
Proof.
  unfold writes. rewrite elem_of_cons, !elem_of_app, !list_elem_of_fmap, !elem_of_cons, elem_of_nil. naive_solver.
Qed.

Lemma written_keep marker a b s s' : a ∈ writes bm marker -> b ∈ writes bm marker ->
  written a s -> write src dst bm b s = Ok s' -> written a s'.
Proof.
  intros Ha%elem_writes Hb%elem_writes Hs. destruct a, b; cbn in *; try by intros [= <-]; cbn.
  all: try by intros [= <-]; destruct (bm_view_settings bm).
  all: try (unfold put_object; case_bool_decide; [by intros [= <-]|]; destruct (o_present _); [done|]; intros [= <-]; cbn; try done).
  - intros [= <-]; cbn. eapply Forall_impl; [exact Hs|]. intros x Hx. cbn. apply (sessions_absent (fun x => (dst, x.2))). by right.
  - intros [= <-]; cbn. apply insert_absent_is_Some. by right.
  - intros [= <-]; cbn. apply insert_absent_is_Some. by right.
  - destruct (decide (o_key o = o_key o0)) as [E|Hne]; [|rewrite lookup_insert_ne; [done|congruence]].
    assert (o = o0) as ->; [|done]. apply list_elem_of_lookup in Ha as [i Hi], Hb as [j Hj].
    assert (i = j) as <-; [|congruence]. eapply (NoDup_lookup _ _ _ (o_key o) objects_distinct); rewrite list_lookup_fmap; [by rewrite Hi|by rewrite Hj, E].
  - intros [= <-]. destruct (bm_view_settings bm); cbn; [|by left]. right. apply insert_absent_is_Some. naive_solver.
  - subst. intros [= <-]. exact (f_equal s_maps (commit_map_twice marker s)).
Qed.
End writes.

(** The row of the import under way, or of one that has ended *)
Definition row_of (import_id src_key src dst : text) (marker : Marker) (s : Store) : Prop :=
  exists row k, s_maps s !! dst = Some row /\ row_lifecycle row <> DELETED /\ row_from row = Some k
  /\ k_source k = src_key /\ k_map k = src /\ touched import_id k = marker.

Lemma touched_twice import_id k : touched import_id (touched import_id k) = touched import_id k.
Proof.
  unfold touched. cbn. f_equal. f_equal. set (ids := match k_import_ids k with Some ((_ :: _) as l) => l | _ => _ end).
  assert (Hids : ids <> []) by (subst ids; by destruct (k_import_ids k) as [[]|]). clearbody ids.
  set (l := if bool_decide (import_id ∈ ids) then ids else ids ++ [import_id]).
  assert (Hl : import_id ∈ l) by (subst l; case_bool_decide; set_solver). destruct l; [set_solver|]. by rewrite bool_decide_true.
Qed.

Lemma begin_row import_id src_key src dst bm s s1 : begin import_id src_key src dst bm s = Ok s1 ->
  exists k, s_maps s1 !! dst ≫= row_from = Some k /\ row_of import_id src_key src dst (touched import_id k) s1.
Proof.
  unfold begin. destruct (s_maps s !! dst) as [row|] eqn:E.
  - case_bool_decide; [done|]. destruct (row_from row) as [k|] eqn:Ek; [|done]. do 2 case_bool_decide; cbn; [|done..].
    intros [= <-]. exists k. rewrite E. cbn. split; [done|]. by exists row, k.
  - intros [= <-]. cbn. rewrite lookup_insert_eq. cbn. eexists. split; [done|]. do 2 eexists. cbn. by rewrite lookup_insert_eq.
Qed.

Lemma row_begin import_id src_key src dst bm marker s : row_of import_id src_key src dst marker s ->
  begin import_id src_key src dst bm s = Ok s /\ touched import_id <$> (s_maps s !! dst ≫= row_from) = Some marker.
Proof.
  intros (row & k & E & Hl & Hk & H1 & H2 & H3). unfold begin. rewrite E, bool_decide_false by done. cbn. rewrite Hk. cbn.
  by rewrite !bool_decide_true, H3.
Qed.

Lemma write_row import_id src_key src dst bm k w s s' :
  let marker := touched import_id k in k_source k = src_key -> k_map k = src ->
  w ∈ writes bm marker -> row_of import_id src_key src dst marker s -> write src dst bm w s = Ok s' -> row_of import_id src_key src dst marker s'.
Proof.
  intros marker H1 H2 Hw%elem_writes Hr. destruct w; cbn in *; try by intros [= <-].
  - unfold put_object. case_bool_decide; [by intros [= <-]|]. destruct (o_present o); [done|]. by intros [= <-].
  - intros [= <-]. by destruct (bm_view_settings bm).
  - subst marker0. intros [= <-]. destruct Hr as (row & k0 & E & Hl & _). do 2 eexists. cbn. rewrite lookup_alter_eq, E. cbn.
    split_and!; [done|done|done|done|done|apply touched_twice].
Qed.

(** C22: an import of a map that was cut short after any number of its writes, by a stop, a failing store or a
    restart, and is run again ends in exactly the stores an uninterrupted import would have left: nothing is
    written twice, the documents, sessions, objects and settings that were there before are kept, and the map is
    shown with the same state and marker. *)
Theorem interrupted_import_resumes (cut : nat) (import_id src_key src dst : text) (bm : BundleMap) (s s' : Store) :
  NoDup (o_key <$> bm_objects bm) ->
  apply_map import_id src_key src dst bm s = (s', Ok ()) ->
  exists s1, apply_some cut import_id src_key src dst bm s = (s1, Ok ()) /\ apply_map import_id src_key src dst bm s1 = (s', Ok ()).
Proof.
  intros Hnd. unfold apply_map at 1, apply_some. destruct (begin import_id src_key src dst bm s) as [s1|] eqn:Eb; [|done].
  destruct (begin_row _ _ _ _ _ _ _ Eb) as (k & Ek & Hrow). rewrite Ek. intros Hrun.
  eapply (rerun_steps _ (written dst bm)) in Hrun as (s2 & H2 & Hrun).
  - exists s2. split; [exact H2|]. assert (Hrow2 : row_of import_id src_key src dst (touched import_id k) s2).
    { assert (Hs2 : s2 = (run_steps (write src dst bm) (take cut (writes bm (touched import_id k))) s1).1) by (by rewrite H2).
      rewrite Hs2. apply run_steps_inv; [|done]. intros a t t' (i & Ha & _)%elem_of_take. destruct Hrow as (row & k' & Er & _ & Hk' & Hs & Hm & _).
      rewrite Er in Ek. cbn in Ek. rewrite Hk' in Ek. injection Ek as ->. eapply write_row; [done|done|]. by eapply list_elem_of_lookup_2. }
    destruct (row_begin import_id src_key src dst bm _ _ Hrow2) as [Hb Hk]. unfold apply_map. rewrite Hb.
    destruct (s_maps s2 !! dst ≫= row_from) as [k2|]; [|done]. apply (inj Some) in Hk. cbn in Hk. rewrite Hk. exact Hrun.
  - intros a t t' _ Hw. by eapply write_written.
  - intros a t _ Hw. by apply written_noop.
  - intros a b t t' Ha Hb. eapply written_keep; done.
Qed.

(** ** A map of one node, one session and two objects *)
Definition empty_store : Store := {| s_maps := ∅; s_sessions := ∅; s_nodes := ∅; s_edges := ∅; s_objects := ∅; s_views := ∅ |}.
Definition a_map : BundleMap := {|
  bm_spec := text_of "{}"; bm_state := Some READY; bm_status := {[text_of "delete_error" := text_of "x"]};
  bm_sessions := [(text_of "s1", text_of "{}")];
  bm_nodes := [{| d_key := text_of "n1"; d_system := Some (text_of "rev"); d_map_id := Some (text_of "plant"); d_from := None; d_to := None; d_body := [] |}];
  bm_edges := [{| d_key := text_of "e1"; d_system := None; d_map_id := None; d_from := Some (text_of "nodes_plant/n1");
                  d_to := Some (text_of "nodes_other/n1"); d_body := [] |}];
  bm_objects := [{| o_key := text_of "a.png"; o_size := 4; o_present := false; o_content := text_of "AAAA" |};
                 {| o_key := text_of "b.png"; o_size := 2; o_present := false; o_content := text_of "BB" |}];
  bm_view_settings := None |}.
Definition import_a_map : Store -> Store * result Failure () := apply_map (text_of "i1") (text_of "src") (text_of "plant") (text_of "plant-2") a_map.

Lemma interrupted_import_resumes_witness :
  exists s1, apply_some 3 (text_of "i1") (text_of "src") (text_of "plant") (text_of "plant-2") a_map empty_store = (s1, Ok ())
  /\ apply_map (text_of "i1") (text_of "src") (text_of "plant") (text_of "plant-2") a_map s1 = ((import_a_map empty_store).1, Ok ()).
Proof.
  apply interrupted_import_resumes; [|vm_compute; reflexivity]. vm_compute. repeat constructor; set_solver.
Defined.

(** The edge's end in the source's node collection follows the rename, the other is left as it is. *)
Example edge_renamed : (fun d => (d_from d, d_to d)) <$> s_edges (import_a_map empty_store).1 !! (text_of "plant-2", text_of "e1") =
  Some (Some (text_of "nodes_plant-2/n1"), Some (text_of "nodes_other/n1")).
Proof. vm_compute. reflexivity. Qed.

(** An object that is in the target's bucket with another size is replaced by the bundle's. *)
Theorem other_size_overwritten :
  let key := (bucket_of (text_of "plant-2"), text_of "a.png") in
  let before := set_objects <[key := (3%N, text_of "old")]> empty_store in
  s_objects before !! key = Some (3%N, text_of "old") /\ s_objects (import_a_map before).1 !! key = Some (4%N, text_of "AAAA")
  /\ (import_a_map before).2 = Ok ().
Proof. vm_compute. done. Qed.
End Maps.

Module Undo.
Export Maps.

(** ** The maps an undo deletes *)

(** [rollback]: the maps handed to the delete saga *)
Definition selected (import_id : text) (row : Row) : bool :=
  bool_decide (row_lifecycle row = ALIVE) &&
  match row_from row with
  | Some k => bool_decide (k_import_id k = import_id)
              || match k_import_ids k with Some ids => bool_decide (import_id ∈ ids) | None => false end
  | None => false
  end.
Definition rollback_names (import_id : text) (maps : gmap text Row) : gset text :=
  dom (filter (fun x => selected import_id x.2 = true) maps).

Lemma elem_rollback import_id maps name :
  name ∈ rollback_names import_id maps <-> exists row, maps !! name = Some row /\ selected import_id row = true.
Proof.
  unfold rollback_names. rewrite elem_of_dom. split.
  - intros [row [E H]%map_lookup_filter_Some]. by exists row.
  - intros (row & E & H). exists row. by apply map_lookup_filter_Some.
Qed.

(** What a run of the import writes to the map table is the one row. *)
Lemma apply_other_rows cut import_id src_key src dst bm s name : name <> dst ->
  s_maps (apply_some cut import_id src_key src dst bm s).1 !! name = s_maps s !! name.
Proof.
  intros Hne. unfold apply_some. destruct (begin import_id src_key src dst bm s) as [s1|] eqn:Eb; [|done].
  assert (E1 : s_maps s1 !! name = s_maps s !! name).
  { unfold begin in Eb. destruct (s_maps s !! dst) as [row|]; repeat case_match; try case_bool_decide; simplify_eq; try done.
    cbn. by rewrite lookup_insert_ne. }
  destruct (s_maps s1 !! dst ≫= row_from) as [k|]; [|done]. rewrite <-E1.
  apply (run_steps_inv _ (fun s => s_maps s !! name = s_maps s1 !! name)); [|done]. intros w t t' _ <- Hw.
  destruct w; cbn in Hw; simplify_eq; try done.
  - unfold put_object in Hw. case_bool_decide; [by simplify_eq|]. destruct (o_present o); by simplify_eq.
  - by destruct (bm_view_settings bm).
  - cbn. by rewrite lookup_alter_ne.
Qed.

(** The undo of an import deletes no map but the ones the import wrote. *)
Lemma rollback_only_target cut import_id src_key src dst bm s :
  rollback_names import_id (s_maps (apply_some cut import_id src_key src dst bm s).1) ⊆ rollback_names import_id (s_maps s) ∪ {[dst]}.
Proof.
  intros name (row & E & H)%elem_rollback. destruct (decide (name = dst)) as [->|Hne]; [set_solver|].
  rewrite apply_other_rows in E by done. apply elem_of_union_l, elem_rollback. by exists row.
Qed.

(** ** Runs, their history and recordings *)

Inductive Kind := Events | Track | State | Trajectory.
#[export] Instance Kind_eq_dec : EqDecision Kind.
Proof. solve_decision. Defined.
Definition HISTORY_KINDS : list Kind := [Events; Track; State; Trajectory].

(** The kinds of an import item *)
Inductive Item := RunItem (run_id : text) | HistoryItem (kind : Kind) (run_id : text) | RosbagItem (key : text).
#[export] Instance Item_eq_dec : EqDecision Item.
Proof. solve_decision. Defined.

Record Run := { r_id : text; r_map : option text; r_cause : option text; r_body : text }.
Record Leg := { l_run : text; l_seq : nat; l_map : option text; l_body : text }.
(** A history row; [h_event] is the event's id and time *)
Record Hist := { h_run : text; h_event : text * Z; h_map : option text; h_body : text }.

Record Tables := {
  t_runs : gmap text Run; t_legs : gmap (text * nat) Leg; t_history : Kind -> list Hist;
  t_bags : gmap text N; t_sidecars : gmap text text; t_items : list (text * Item);
}.

(** [remap_run] *)
Definition remap (renames : gmap text text) (mid : option text) : option text :=
  match mid with
  | Some ((_ :: _) as m) => Some (default m (renames !! m))
  | _ => mid
  end.
Definition remap_run (renames : gmap text text) (r : Run) : Run :=
  {| r_id := r_id r; r_map := remap renames (r_map r); r_cause := r_cause r; r_body := r_body r |}.
Definition remap_leg (renames : gmap text text) (l : Leg) : Leg :=
  {| l_run := l_run l; l_seq := l_seq l; l_map := remap renames (l_map l); l_body := l_body l |}.
Definition remap_hist (renames : gmap text text) (h : Hist) : Hist :=
  {| h_run := h_run h; h_event := h_event h; h_map := remap renames (h_map h); h_body := h_body h |}.

(** [INSERT INTO import_items ... ON CONFLICT DO NOTHING] *)
Definition record_item (import_id : text) (i : Item) (items : list (text * Item)) : list (text * Item) :=
  if bool_decide ((import_id, i) ∈ items) then items else items ++ [(import_id, i)].

Section tables.
Context (import_id : text) (causes : gset text).

Definition known_cause (c : option text) : option text :=
  match c with Some ((_ :: _) as c') => if bool_decide (c' ∈ causes) then c else None | _ => c end.

(** [add_runs]: one run *)
Definition add_run (t : Tables) (r : Run) : Tables :=
  match t_runs t !! r_id r with
  | Some _ => t
  | None => {| t_runs := <[r_id r := {| r_id := r_id r; r_map := r_map r; r_cause := known_cause (r_cause r); r_body := r_body r |}]> (t_runs t);
               t_legs := t_legs t; t_history := t_history t; t_bags := t_bags t; t_sidecars := t_sidecars t;
               t_items := record_item import_id (RunItem (r_id r)) (t_items t) |}
  end.
(** [add_runs]: one leg *)
Definition add_leg (t : Tables) (l : Leg) : Tables :=
  {| t_runs := t_runs t; t_legs := insert_absent (l_run l, l_seq l) l (t_legs t); t_history := t_history t; t_bags := t_bags t;
     t_sidecars := t_sidecars t; t_items := t_items t |}.
(** [add_runs] with the legs [_apply_runs] gives it: those of the batch's runs *)
Definition add_runs (runs : list Run) (legs : list Leg) (t : Tables) : Tables :=
  let legs := mjoin ((fun r => filter (fun l => l_run l = r_id r) legs) <$> runs) in
  foldl add_leg (foldl add_run t runs) legs.

Definition set_history (t : Tables) (k : Kind) (rows : list Hist) (items : list (text * Item)) : Tables :=
  {| t_runs := t_runs t; t_legs := t_legs t; t_history := fun k' => if bool_decide (k' = k) then rows else t_history t k'; t_bags := t_bags t;
     t_sidecars := t_sidecars t; t_items := items |}.

(** Events are inserted where their id and time are new *)
Definition add_event (rows : list Hist) (h : Hist) : list Hist :=
  if bool_decide (h_event h ∈ (h_event <$> rows)) then rows else rows ++ [h].

(** [add_history] *)
Definition add_history (kind : Kind) (run_id : text) (rows : list Hist) (t : Tables) : Tables :=
  match rows with
  | [] => t
  | _ =>
      if bool_decide (kind = Events) then
        let all := foldl add_event (t_history t kind) rows in
        if bool_decide (length (t_history t kind) < length all) then set_history t kind all (record_item import_id (HistoryItem kind run_id) (t_items t))
        else t
      else if bool_decide (run_id ∈ (h_run <$> t_history t kind)) then t
      else set_history t kind (t_history t kind ++ rows) (record_item import_id (HistoryItem kind run_id) (t_items t))
  end.

(** [_apply_history] on one kind: the rows in groups of one run *)
Fixpoint by_run (rows : list Hist) (current : option (text * list Hist)) : list (text * list Hist) :=
  match rows with
  | [] => match current with Some g => [g] | None => [] end
  | h :: rows =>
      match current with
      | Some (rid, g) => if bool_decide (rid = h_run h) then by_run rows (Some (rid, g ++ [h])) else (rid, g) :: by_run rows (Some (h_run h, [h]))
      | None => by_run rows (Some (h_run h, [h]))
      end
  end.
Definition apply_history (kind : Kind) (rows : list Hist) (t : Tables) : Tables :=
  foldl (fun t g => add_history kind g.1 g.2 t) t (by_run rows None).

(** [_apply_rosbag] and [put_rosbag]; the copy stops after [done] of its three writes *)
Definition put_rosbag (done : nat) (key : text) (size : N) (sidecar : text) (t : Tables) : Tables :=
  let t1 := {| t_runs := t_runs t; t_legs := t_legs t; t_history := t_history t; t_bags := t_bags t; t_sidecars := t_sidecars t;
               t_items := record_item import_id (RosbagItem key) (t_items t) |} in
  let t2 := {| t_runs := t_runs t1; t_legs := t_legs t1; t_history := t_history t1; t_bags := <[key := size]> (t_bags t1);
               t_sidecars := t_sidecars t1; t_items := t_items t1 |} in
  let t3 := {| t_runs := t_runs t2; t_legs := t_legs t2; t_history := t_history t2; t_bags := t_bags t2;
               t_sidecars := <[key := sidecar]> (t_sidecars t2); t_items := t_items t2 |} in
  match done with 0 => t | 1 => t1 | 2 => t2 | _ => t3 end.
Definition apply_rosbag (done : nat) (key : text) (size : N) (sidecar : text) (t : Tables) : Tables :=
  match t_bags t !! key with
  | Some _ => t                      (* copied before, or refused: another size *)
  | None => put_rosbag done key size sidecar t
  end.

(** [remove_imported] *)
Definition recorded (t : Tables) (i : Item) : bool := bool_decide ((import_id, i) ∈ t_items t).
Definition remove_imported (t : Tables) : Tables :=
  {| t_runs := filter (fun x => recorded t (RunItem x.1) = false) (t_runs t);
     t_legs := filter (fun x => recorded t (RunItem x.1.1) = false) (t_legs t);     (* ON DELETE CASCADE *)
     t_history := fun k => filter (fun h => recorded t (HistoryItem k (h_run h)) = false) (t_history t k);
     t_bags := filter (fun x => recorded t (RosbagItem x.1) = false) (t_bags t);
     t_sidecars := filter (fun x => recorded t (RosbagItem x.1) = false \/ t_bags t !! x.1 = None) (t_sidecars t);   (* [delete_bag] *)
     t_items := filter (fun x => x.1 <> import_id) (t_items t) |}.
End tables.

(** The work of the second half of [apply_import] *)
Inductive Work :=
| Runs (runs : list Run) (legs : list Leg)
| History (kind : Kind) (rows : list Hist)
| Rosbag (done : nat) (key : text) (size : N) (sidecar : text).
Definition work (import_id : text) (causes : gset text) (renames : gmap text text) (t : Tables) (w : Work) : Tables :=
  match w with
  | Runs runs legs => add_runs import_id causes (remap_run renames <$> runs) (remap_leg renames <$> legs) t
  | History kind rows => apply_history import_id kind (remap_hist renames <$> rows) t
  | Rosbag done key size sidecar => apply_rosbag import_id done key size sidecar t
  end.

(** ** Undoing an import *)

(** The same tables *)
Record same (t t' : Tables) : Prop := {
  same_runs : t_runs t = t_runs t'; same_legs : t_legs t = t_legs t'; same_history : forall k, t_history t k = t_history t' k;
  same_bags : t_bags t = t_bags t'; same_sidecars : t_sidecars t = t_sidecars t'; same_items : t_items t = t_items t';
}.
(** A leg's run is there ([REFERENCES mission_runs]) *)
Definition legs_have_runs (t : Tables) : Prop := forall k, is_Some (t_legs t !! k) -> is_Some (t_runs t !! k.1).

Section undo.
Context (import_id : text) (causes : gset text) (t0 : Tables).
Notation rec := (recorded import_id).

(** [t] is [t0] and what the import has added and recorded *)
Definition undoes (t : Tables) : Prop := same (remove_imported import_id t) t0 /\ legs_have_runs t.

Lemma elem_record i j items : (import_id, j) ∈ record_item import_id i items <-> i = j \/ (import_id, j) ∈ items.
Proof. unfold record_item. case_bool_decide; [naive_solver|]. rewrite elem_of_app, list_elem_of_singleton. naive_solver. Qed.
Lemma others_record i items : filter (fun x => x.1 <> import_id) (record_item import_id i items) = filter (fun x => x.1 <> import_id) items.
Proof. unfold record_item. case_bool_decide; [done|]. rewrite filter_app, filter_cons_False; [by rewrite filter_nil, app_nil_r|cbn; tauto]. Qed.

Lemma undoes_run t r : undoes t -> is_Some (t_runs t !! r) -> rec t (RunItem r) = true \/ is_Some (t_runs t0 !! r).
Proof.
  intros [[<- _ _ _ _ _] _] [x Hx]. destruct (rec t (RunItem r)) eqn:E; [by left|right]. exists x. cbn. by apply map_lookup_filter_Some.
Qed.

Lemma filter_ext_map {K A : Type} `{Countable K} (P Q : K * A -> Prop) `{!forall x, Decision (P x)} `{!forall x, Decision (Q x)} (m m' : gmap K A) :
  (forall k x, m !! k = Some x /\ P (k, x) <-> m' !! k = Some x /\ Q (k, x)) -> filter P m = filter Q m'.
Proof. intros Hx. apply map_eq. intros k. apply option_eq. intros x. rewrite !map_lookup_filter_Some. apply Hx. Qed.

Lemma filter_ext_on {A : Type} (P Q : A -> Prop) `{!forall x, Decision (P x)} `{!forall x, Decision (Q x)} (l : list A) :
  (forall x, x ∈ l -> P x <-> Q x) -> filter P l = filter Q l.
Proof.
  induction l as [|x l IH]; intros Hx; [done|]. rewrite !filter_cons, IH by set_solver. specialize (Hx x ltac:(set_solver)).
  repeat case_decide; tauto.
Qed.
Lemma filter_no_elem {A : Type} (P : A -> Prop) `{!forall x, Decision (P x)} (l : list A) : Forall (fun x => ~ P x) l -> filter P l = [].
Proof. induction 1; [done|]. by rewrite filter_cons_False. Qed.

Lemma add_run_undoes t r : undoes t -> undoes (add_run import_id causes t r).
Proof.
  intros Hu. unfold add_run. destruct (t_runs t !! r_id r) eqn:Er; [done|]. destruct Hu as [[H1 H2 H3 H4 H5 H6] Hfk].
  assert (Hleg : forall k, is_Some (t_legs t !! k) -> k.1 <> r_id r) by (intros k Hk E; specialize (Hfk _ Hk); rewrite E, Er in Hfk; by destruct Hfk).
  split; [split; cbn; unfold recorded; cbn|].
  - rewrite <-H1. cbn. apply filter_ext_map. intros k x. unfold recorded. rewrite !bool_decide_eq_false, elem_record, lookup_insert_Some. naive_solver.
  - rewrite <-H2. cbn. apply filter_ext_map. intros k x. unfold recorded. rewrite !bool_decide_eq_false, elem_record.
    split; [naive_solver|]. intros [E Hk]. split; [done|]. intros [[= E1]|?]; [|done]. by eapply Hleg.
  - intros k. rewrite <-H3. cbn. apply list_filter_iff. intros h. unfold recorded. rewrite !bool_decide_eq_false, elem_record. naive_solver.
  - rewrite <-H4. cbn. apply filter_ext_map. intros k x. unfold recorded. rewrite !bool_decide_eq_false, elem_record. naive_solver.
  - rewrite <-H5. cbn. apply filter_ext_map. intros k x. unfold recorded. rewrite !bool_decide_eq_false, elem_record. naive_solver.
  - by rewrite others_record.
  - intros k Hk. cbn in *. rewrite lookup_insert_is_Some. destruct (decide (r_id r = k.1)); [by left|right]. eauto.
Qed.

Lemma add_run_present t r k : is_Some (t_runs t !! k) \/ k = r_id r -> is_Some (t_runs (add_run import_id causes t r) !! k).
Proof. unfold add_run. destruct (t_runs t !! r_id r) eqn:E; cbn; [naive_solver|]. rewrite lookup_insert_is_Some. destruct (decide (r_id r = k)); naive_solver. Qed.

Lemma add_leg_undoes t l : undoes t -> is_Some (t_runs t !! l_run l) ->
  (is_Some (t_runs t0 !! l_run l) -> is_Some (t_legs t0 !! (l_run l, l_seq l))) -> undoes (add_leg t l).
Proof.
  intros Hu Hr H0. unfold add_leg. destruct (t_legs t !! (l_run l, l_seq l)) as [l'|] eqn:El.
  { rewrite insert_absent_present by done. destruct Hu as [[] ?]. by repeat split. }
  assert (Hrec : rec t (RunItem (l_run l)) = true).
  { destruct (undoes_run _ _ Hu Hr) as [|H1]; [done|]. apply H0 in H1 as [x Hx]. destruct Hu as [[_ H2 _ _ _ _] _].
    rewrite <-H2 in Hx. cbn in Hx. apply map_lookup_filter_Some in Hx as [Hx _]. congruence. }
  destruct Hu as [[H1 H2 H3 H4 H5 H6] Hfk]. unfold insert_absent. rewrite El. split; [split; cbn; try done|].
  - rewrite <-H2. cbn. apply filter_ext_map. intros k x. unfold recorded in *. cbn in *. rewrite !bool_decide_eq_false, lookup_insert_Some.
    apply bool_decide_eq_true in Hrec. split; [|intros [E Hk]; split; [right; split; [intros <-; congruence|done]|done]].
    intros [[[<- <-]|[_ E]] Hk]; [done|done].
  - intros k Hk. cbn in *. apply lookup_insert_is_Some in Hk as [<-|[_ Hk]]; [done|]. by apply Hfk.
Qed.

(** The runs of a batch are there before their legs. *)
Lemma add_runs_undoes t runs legs : undoes t ->
  (forall l, l ∈ legs -> is_Some (t_runs t0 !! l_run l) -> is_Some (t_legs t0 !! (l_run l, l_seq l))) ->
  undoes (add_runs import_id causes runs legs t).
Proof.
  intros Hu H0. unfold add_runs.
  assert (Hruns : undoes (foldl (add_run import_id causes) t runs)
    /\ forall k, is_Some (t_runs t !! k) \/ k ∈ (r_id <$> runs) -> is_Some (t_runs (foldl (add_run import_id causes) t runs) !! k)).
  { clear H0 legs. revert t Hu. induction runs as [|r runs IH]; intros t Hu; cbn; [set_solver|].
    destruct (IH (add_run import_id causes t r) (add_run_undoes _ _ Hu)) as [Hu' Hp]. split; [done|].
    intros k Hk. apply Hp. rewrite elem_of_cons in Hk. destruct Hk as [Hk|[Hk|Hk]]; [left|left|by right]; apply add_run_present; auto. }
  destruct Hruns as [Hu' Hp]. set (ls := mjoin _).
  assert (Hls : Forall (fun l => l ∈ legs /\ l_run l ∈ (r_id <$> runs)) ls).
  { subst ls. apply Forall_forall. intros l (ll & Hl & Hll)%list_elem_of_join.
    apply list_elem_of_fmap in Hll as (r & -> & Hr). apply list_elem_of_filter in Hl as [E Hl]. split; [done|]. rewrite E. by apply list_elem_of_fmap_2. }
  revert Hu' Hp. generalize (foldl (add_run import_id causes) t runs) as t1. clear Hu.
  induction Hls as [|l ls [Hl Hlr] _ IH]; intros t1 Hu Hp; cbn; [done|].
  apply IH; [|intros k Hk; cbn; by apply Hp]. apply add_leg_undoes; [done|apply Hp; by right|by apply H0].
Qed.

Lemma add_events_app rows old : exists new, foldl add_event old rows = old ++ new /\ new ⊆ rows.
Proof.
  revert old. induction rows as [|h rows IH]; intros old; cbn; [exists []; by rewrite app_nil_r|].
  unfold add_event at 2. case_bool_decide.
  - destruct (IH old) as (new & -> & Hn). exists new. split; [done|set_solver].
  - destruct (IH (old ++ [h])) as (new & -> & Hn). exists (h :: new). rewrite <-app_assoc. split; [done|set_solver].
Qed.

(** Rows of a run that had none are added and recorded. *)
Lemma set_history_undoes t kind run_id new : undoes t -> Forall (fun h => h_run h = run_id) new -> run_id ∉ (h_run <$> t_history t0 kind) ->
  undoes (set_history t kind (t_history t kind ++ new) (record_item import_id (HistoryItem kind run_id) (t_items t))).
Proof.
  intros [[H1 H2 H3 H4 H5 H6] Hfk] Hnew H0. split; [split; cbn; unfold recorded; cbn|exact Hfk].
  - rewrite <-H1. cbn. apply filter_ext_map. intros k x. unfold recorded. rewrite !bool_decide_eq_false, elem_record. naive_solver.
  - rewrite <-H2. cbn. apply filter_ext_map. intros k x. unfold recorded. rewrite !bool_decide_eq_false, elem_record. naive_solver.
  - intros k. rewrite <-H3. cbn. case_bool_decide as Hk; [subst k|].
    2: { apply list_filter_iff. intros h. unfold recorded. rewrite !bool_decide_eq_false, elem_record. naive_solver. }
    rewrite filter_app, (filter_no_elem _ new).
    2: { eapply Forall_impl; [exact Hnew|]. cbn. intros h <- Hf. apply bool_decide_eq_false in Hf. apply Hf, elem_record. by left. }
    rewrite app_nil_r. rewrite <-(H3 kind) in H0. cbn in H0. apply filter_ext_on. intros h Hh. unfold recorded. rewrite !bool_decide_eq_false, elem_record.
    split; [naive_solver|]. intros Hn [[= E]|?]; [|done]. apply H0. rewrite E. apply list_elem_of_fmap_2, list_elem_of_filter. split; [|done].
    by apply bool_decide_eq_false.
  - rewrite <-H4. cbn. apply filter_ext_map. intros k x. unfold recorded. rewrite !bool_decide_eq_false, elem_record. naive_solver.
  - rewrite <-H5. cbn. apply filter_ext_map. intros k x. unfold recorded. rewrite !bool_decide_eq_false, elem_record. naive_solver.
  - by rewrite others_record.
Qed.

Lemma undoes_history t kind run_id : undoes t -> run_id ∉ (h_run <$> t_history t kind) -> run_id ∉ (h_run <$> t_history t0 kind).
Proof.
  intros [[_ _ H3 _ _ _] _] Hn. rewrite <-H3. cbn. intros (h & -> & Hh)%list_elem_of_fmap. apply Hn, list_elem_of_fmap_2.
  by apply list_elem_of_filter in Hh as [_ Hh].
Qed.

Lemma add_history_undoes t kind run_id rows : undoes t -> Forall (fun h => h_run h = run_id) rows ->
  (kind = Events -> run_id ∉ (h_run <$> t_history t0 kind)) -> undoes (add_history import_id kind run_id rows t).
Proof.
  intros Hu Hrows H0. unfold add_history. destruct rows as [|h rows]; [done|]. case_bool_decide as Hk.
  - case_bool_decide; [|done]. destruct (add_events_app (h :: rows) (t_history t kind)) as (new & -> & Hn).
    apply set_history_undoes; [done| |auto]. apply Forall_forall. intros x Hx. rewrite Forall_forall in Hrows. auto.
  - case_bool_decide as Hp; [done|]. apply set_history_undoes; [done|done|]. by eapply undoes_history.
Qed.

Lemma by_run_groups rows cur : (forall rid g, cur = Some (rid, g) -> Forall (fun h => h_run h = rid) g) ->
  Forall (fun g => Forall (fun h => h_run h = g.1) g.2 /\ (cur = None \/ (exists g', cur = Some (g.1, g')) \/ g.1 ∈ (h_run <$> rows))
                   /\ (cur = None -> g.1 ∈ (h_run <$> rows))) (by_run rows cur).
Proof.
  revert cur. induction rows as [|h rows IH]; intros cur Hc; cbn.
  - destruct cur as [[rid g]|]; [|constructor]. apply Forall_singleton. cbn. split_and!; [by eapply Hc|right; left; by exists g|done].
  - destruct cur as [[rid g]|].
    + pose proof (Hc _ _ eq_refl) as Hg. case_bool_decide as E.
      * eapply Forall_impl; [apply (IH (Some (rid, g ++ [h])))|].
        { intros ?? [= <- <-]. apply Forall_app. split; [done|]. by apply Forall_singleton. }
        cbn. intros x (Hx & H1 & _). split; [done|]. split; [|done]. right. destruct H1 as [|[[g' [= ->]]|H1]]; [done|left; by exists g|right; set_solver].
      * constructor; [cbn; split; [done|]; split; [right; left; by exists g|done]|].
        eapply Forall_impl; [apply (IH (Some (h_run h, [h])))|]. { intros ?? [= <- <-]. by apply Forall_singleton. }
        cbn. intros x (Hx & H1 & _). split; [done|]. split; [|done]. right. right. destruct H1 as [|[[g' [= ->]]|H1]]; [done|set_solver|set_solver].
    + eapply Forall_impl; [apply (IH (Some (h_run h, [h])))|]. { intros ?? [= <- <-]. by apply Forall_singleton. }
      cbn. intros x (Hx & H1 & _). split; [done|]. split; [by left|intros _]. destruct H1 as [|[[g' [= ->]]|H1]]; [done|set_solver|set_solver].
Qed.

Lemma apply_history_undoes t kind rows : undoes t -> (kind = Events -> forall h, h ∈ rows -> h_run h ∉ (h_run <$> t_history t0 kind)) ->
  undoes (apply_history import_id kind rows t).
Proof.
  intros Hu H0. unfold apply_history. pose proof (by_run_groups rows None ltac:(done)) as Hg. revert t Hu.
  induction Hg as [|[rid g] gs (Hg & _ & Hin) _ IH]; intros t Hu; cbn; [done|]. apply IH. apply add_history_undoes; [done|done|].
  intros Hk. cbn in Hin. destruct (list_elem_of_fmap h_run rows rid) as [Hf _]. destruct (Hf (Hin eq_refl)) as (h & -> & Hh). by apply H0.
Qed.

Lemma put_rosbag_undoes t done key size sidecar : undoes t -> (t_bags t0 !! key = None -> t_sidecars t0 !! key = None) ->
  undoes (apply_rosbag import_id done key size sidecar t).
Proof.
  intros Hu H0. unfold apply_rosbag. destruct (t_bags t !! key) eqn:Eb; [done|]. destruct Hu as [[H1 H2 H3 H4 H5 H6] Hfk].
  assert (Hb0 : t_bags t0 !! key = None) by (rewrite <-H4; cbn; apply map_lookup_filter_None; by left).
  specialize (H0 Hb0).
  assert (Hs : t_sidecars t !! key = None).
  { rewrite <-H5 in H0. cbn in H0. apply map_lookup_filter_None in H0 as [|H0]; [done|]. destruct (t_sidecars t !! key) as [x|]; [|done].
    destruct (H0 x eq_refl). by right. }
  destruct done as [|[|[|d]]]; [done| | |]; (split; [split; cbn; unfold recorded; cbn|exact Hfk]).
  all: try (rewrite <-H1; cbn; apply filter_ext_map; intros k x; unfold recorded; rewrite !bool_decide_eq_false, elem_record; naive_solver).
  all: try (rewrite <-H2; cbn; apply filter_ext_map; intros k x; unfold recorded; rewrite !bool_decide_eq_false, elem_record; naive_solver).
  all: try (intros k; rewrite <-H3; cbn; apply list_filter_iff; intros h; unfold recorded; rewrite !bool_decide_eq_false, elem_record; naive_solver).
  all: try by rewrite others_record.
  all: try (rewrite <-H4; cbn; apply filter_ext_map; intros k x; unfold recorded; rewrite !bool_decide_eq_false, elem_record, ?lookup_insert_Some; naive_solver).
  all: rewrite <-H5; cbn; apply filter_ext_map; intros k x; unfold recorded; rewrite !bool_decide_eq_false, elem_record, ?lookup_insert_Some, ?lookup_insert_None; naive_solver.
Qed.
End undo.

(** What the target must not already have in part: a run without some of its legs, events of a run that comes
    with events, a sidecar without its recording *)
Definition whole (t0 : Tables) (w : Work) : Prop :=
  match w with
  | Runs _ legs => forall l, l ∈ legs -> is_Some (t_runs t0 !! l_run l) -> is_Some (t_legs t0 !! (l_run l, l_seq l))
  | History kind rows => kind = Events -> forall h, h ∈ rows -> h_run h ∉ (h_run <$> t_history t0 kind)
  | Rosbag _ key _ _ => t_bags t0 !! key = None -> t_sidecars t0 !! key = None
  end.

Lemma work_undoes import_id causes renames t0 t w : whole t0 w -> undoes import_id t0 t -> undoes import_id t0 (work import_id causes renames t w).
Proof.
  destruct w as [runs legs|kind rows|d key size sc]; cbn; intros Hw Hu.
  - apply add_runs_undoes; [done|]. intros l (l' & -> & Hl)%list_elem_of_fmap. exact (Hw l' Hl).
  - apply apply_history_undoes; [done|]. intros Hk h (h' & -> & Hh)%list_elem_of_fmap. exact (Hw Hk h' Hh).
  - by apply put_rosbag_undoes.
Qed.

Lemma filter_all {A : Type} (P : A -> Prop) `{!forall x, Decision (P x)} (l : list A) : Forall P l -> filter P l = l.
Proof. induction 1; [done|]. by rewrite filter_cons_True, IHForall. Qed.

Lemma remove_nothing import_id t : import_id ∉ t.(t_items).*1 -> same (remove_imported import_id t) t.
Proof.
  intros Hn. assert (Hr : forall i, recorded import_id t i = false).
  { intros i. apply bool_decide_eq_false. intros Hi. apply Hn. by apply (list_elem_of_fmap_2 fst) in Hi. }
  split; cbn.
  1,2,4,5: apply map_filter_id; intros; rewrite Hr; auto.
  - intros k. apply filter_all, Forall_forall. auto.
  - apply filter_all, Forall_forall. intros [i x] Hx. cbn. intros ->. apply Hn. by apply (list_elem_of_fmap_2 fst) in Hx.
Qed.

(** C32: an undo of a transfer of mission runs, their history and recordings, which may have stopped anywhere, leaves
    every table and the recordings exactly as they were before the transfer, where the server did not already hold
    part of an item: legs of other runs, tracks it had, recordings it had and what other transfers brought are kept,
    and nothing of this transfer is left behind. *)
Theorem undo_restores (import_id : text) (causes : gset text) (renames : gmap text text) (t0 : Tables) (ws : list Work) :
  import_id ∉ t0.(t_items).*1 -> legs_have_runs t0 -> Forall (whole t0) ws ->
  same (remove_imported import_id (foldl (work import_id causes renames) t0 ws)) t0.
Proof.
  intros Hi Hl Hws. cut (undoes import_id t0 (foldl (work import_id causes renames) t0 ws)); [by intros [? _]|].
  assert (H0 : undoes import_id t0 t0) by (split; [by apply remove_nothing|done]). revert H0. generalize t0 at 2 4 as t.
  induction Hws as [|w ws Hw _ IH]; intros t Ht; cbn; [done|]. apply IH. by apply work_undoes.
Qed.

Definition run (id : string) : Run := {| r_id := text_of id; r_map := Some (text_of "plant"); r_cause := Some (text_of "NEW"); r_body := [] |}.
Definition leg (id : string) (seq : nat) : Leg := {| l_run := text_of id; l_seq := seq; l_map := None; l_body := [] |}.
Definition hist (id ev : string) : Hist := {| h_run := text_of id; h_event := (text_of ev, 0%Z); h_map := None; h_body := [] |}.
Definition before : Tables := {|
  t_runs := {[text_of "r1" := run "r1"]}; t_legs := {[(text_of "r1", 0%nat) := leg "r1" 0]};
  t_history := fun k => match k with Events => [hist "r1" "e1"] | Track => [hist "r1" "t1"] | _ => [] end;
  t_bags := {[text_of "amr/b1" := 5%N]}; t_sidecars := {[text_of "amr/b1" := text_of "{}"]}; t_items := [(text_of "i0", RunItem (text_of "r1"))] |}.
Definition transfer : list Work :=
  [Runs [run "r1"; run "r2"] [leg "r1" 0; leg "r2" 0]; History Events [hist "r2" "e2"; hist "r2" "e3"];
   History Track [hist "r1" "t1"; hist "r2" "t2"]; Rosbag 3 (text_of "amr/b1") 5 []; Rosbag 2 (text_of "amr/b2") 7 []].

Lemma undo_restores_witness :
  t_bags (foldl (work (text_of "i1") ∅ ∅) before transfer) !! text_of "amr/b2" = Some 7%N
  /\ same (remove_imported (text_of "i1") (foldl (work (text_of "i1") ∅ ∅) before transfer)) before.
Proof.
  split; [vm_compute; reflexivity|]. apply undo_restores.
  - vm_compute. intros H. repeat (apply elem_of_cons in H as [H|H]; [discriminate H|]). by apply elem_of_nil in H.
  - intros k. cbn. rewrite !lookup_singleton_is_Some. intros <-. done.
  - repeat constructor; cbn; try done.
    + intros l Hl. apply elem_of_cons in Hl as [->|Hl]; [intros _; by eexists|].
      apply list_elem_of_singleton in Hl as ->. intros [x Hx]. vm_compute in Hx. discriminate Hx.
    + intros _ h Hh Hn. apply list_elem_of_singleton in Hn. rewrite elem_of_cons, list_elem_of_singleton in Hh.
      destruct Hh as [->| ->]; discriminate Hn.
Defined.

(** The events a run had before are deleted with those the transfer added to it, and legs added to a run that was
    there stay. *)
Theorem undo_of_partial_run :
  let after ws := remove_imported (text_of "i1") (foldl (work (text_of "i1") ∅ ∅) before ws) in
  t_history before Events = [hist "r1" "e1"] /\ t_history (after [History Events [hist "r1" "e2"]]) Events = []
  /\ t_legs before !! (text_of "r1", 1%nat) = None /\ is_Some (t_legs (after [Runs [run "r1"] [leg "r1" 1]]) !! (text_of "r1", 1%nat)).
Proof. vm_compute. split_and!; [done..|by eexists]. Qed.

(** A map the import [i1] created and completed is deleted by the undo of [i2], a repeat of the transfer. *)
Theorem repeat_undo_deletes_map :
  let created := import_a_map empty_store in
  let repeated := apply_map (text_of "i2") (text_of "src") (text_of "plant") (text_of "plant-2") a_map created.1 in
  created.2 = Ok () /\ repeated.2 = Ok ()
  /\ (k_import_id <$> (s_maps repeated.1 !! text_of "plant-2" ≫= row_from)) = Some (text_of "i1")
  /\ rollback_names (text_of "i2") (s_maps repeated.1) = {[text_of "plant-2"]}.
Proof. vm_compute. done. Qed.
End Undo.
