(* ===== verification/MapDelete.v ===== *)
(** * Deleting a map

    packages/api/map_delete.py: [MapDeleter], the background saga that removes a map's graph, images and scene
    graph and then its row, run by any number of API workers that exclude each other with Postgres advisory locks,
    next to a scene graph worker that holds the map's scene lock while it folds
    (packages/services/graph_builder/scene_guard.py, [PgGuard]). One map; every await is a step of its own, so the
    workers, the scene worker and the writers of an alive map interleave freely. Times are milliseconds. The hooks
    of other jobs ([on_mark], [after_mark], [after_delete]) and the text of the errors are not modelled. *)

From S2P Require Import Prelude ImportPlan.

(** ** State *)

Inductive Life := ALIVE | DELETING | DELETED.
#[export] Instance Life_eq_dec : EqDecision Life.
Proof. solve_decision. Defined.

(** What the saga writes to the map's status *)
Inductive Shown := Nothing | Busy | Error.
Record Status := { st_requested : option Z; st_attempts : nat; st_error : Shown }.
Record Row := { row_life : Life; row_status : Status }.

(** The stores an attempt goes through, in its order *)
Inductive StoreName := SceneGraph | GraphDb | ImageDb.
#[export] Instance StoreName_eq_dec : EqDecision StoreName.
Proof. solve_decision. Defined.

(** The tables whose rows go with the map *)
Inductive Table := MapSessions | MapReconstructions | MapSemantics | MapMeshes | MapViewSettings | MapPersonRemoval | MapKeepouts
| EdgeObservations | BlockedGraphNodes.
#[export] Instance Table_eq_dec : EqDecision Table.
Proof. solve_decision. Defined.

Inductive Event := MapDeleted (requested : option Z) (attempts : nat) | MapDeleteFailed (requested : Z) (attempts : nat).

(** The locals of [_round] *)
Record Round := { r_attempt : nat; r_busy : nat; r_waited : Z }.
Definition new_round : Round := {| r_attempt := 0; r_busy := 0; r_waited := 0 |}.

(** Where a worker's task for the map is; [NoTask]: none, or it is done *)
Inductive Pc :=
| NoTask
| Opening
| Head (r : Round)
| Loaded (r : Round) (st : Status)
| Polling (r : Round) (st : Status) (asks : nat)
| Steps (r : Round) (st : Status) (scene : bool) (rest : list StoreName) (failed : bool)
| Failed (r : Round) (st : Status) (busy : bool)
| Finishing (st : Status)
| Sleeping (r : Round)
| Closing.

Inductive Holder := ByWorker (w : nat) | ByFold.
#[export] Instance Holder_eq_dec : EqDecision Holder.
Proof. solve_decision. Defined.

(** The scene worker: without the lock; with it; with it and the map seen alive since it took it *)
Inductive Fold := Idle | Holding | Checked.

Record Sys := {
  row : option Row; stored : StoreName -> bool; tables : Table -> bool;
  delete_lock : option nat; scene_lock : option Holder; pc : nat -> Pc; fold : Fold; events : list Event;
}.

Definition set_row (r : option Row) (s : Sys) : Sys :=
  {| row := r; stored := stored s; tables := tables s; delete_lock := delete_lock s; scene_lock := scene_lock s; pc := pc s; fold := fold s; events := events s |}.
Definition set_stored (x : StoreName) (b : bool) (s : Sys) : Sys :=
  {| row := row s; stored := fun y => if bool_decide (y = x) then b else stored s y; tables := tables s; delete_lock := delete_lock s;
     scene_lock := scene_lock s; pc := pc s; fold := fold s; events := events s |}.
Definition set_tables (t : Table -> bool) (s : Sys) : Sys :=
  {| row := row s; stored := stored s; tables := t; delete_lock := delete_lock s; scene_lock := scene_lock s; pc := pc s; fold := fold s; events := events s |}.
Definition set_delete_lock (l : option nat) (s : Sys) : Sys :=
  {| row := row s; stored := stored s; tables := tables s; delete_lock := l; scene_lock := scene_lock s; pc := pc s; fold := fold s; events := events s |}.
Definition set_scene_lock (l : option Holder) (s : Sys) : Sys :=
  {| row := row s; stored := stored s; tables := tables s; delete_lock := delete_lock s; scene_lock := l; pc := pc s; fold := fold s; events := events s |}.
Definition set_pc (w : nat) (p : Pc) (s : Sys) : Sys :=
  {| row := row s; stored := stored s; tables := tables s; delete_lock := delete_lock s; scene_lock := scene_lock s;
     pc := fun v => if bool_decide (v = w) then p else pc s v; fold := fold s; events := events s |}.
Definition set_fold (f : Fold) (l : option Holder) (s : Sys) : Sys :=
  {| row := row s; stored := stored s; tables := tables s; delete_lock := delete_lock s; scene_lock := l; pc := pc s; fold := f; events := events s |}.
Definition emit (e : Event) (s : Sys) : Sys :=
  {| row := row s; stored := stored s; tables := tables s; delete_lock := delete_lock s; scene_lock := scene_lock s; pc := pc s; fold := fold s;
     events := events s ++ [e] |}.

Section saga.
Context (max_attempts : nat) (backoff_ms backoff_max_ms timeout_ms poll_ms deadline_ms : Z) (worker_enabled : bool).

(** [MapDeleter.__init__]: [max(1, max_attempts)] *)
Definition attempts_max : nat := Nat.max 1 max_attempts.

(** [backoff] *)
Definition backoff (attempt : nat) : Z := Z.min backoff_max_ms (backoff_ms * 2 ^ Z.max 0 (Z.of_nat attempt - 1)).

(** [polls] of [_take_scene_lock]; the lock is asked for once more than that *)
Definition polls : nat := Nat.max 1 (Z.to_nat (timeout_ms / Z.max poll_ms 10)).

Definition is_deleting_row (s : Sys) : option Status :=
  match row s with
  | Some r => if bool_decide (row_life r = DELETING) then Some (row_status r) else None
  | None => None
  end.

(** [start] *)
Definition start (w : nat) (s : Sys) : Sys := match pc s w with NoTask => set_pc w Opening s | _ => s end.

(** [request]; [refused]: the guard raised (an open session) *)
Definition mark (now : Z) (s : Sys) : Sys :=
  let fresh := {| row_life := DELETING; row_status := {| st_requested := Some now; st_attempts := 0; st_error := Nothing |} |} in
  match row s with
  | Some r => if bool_decide (row_life r = DELETING) then s else set_row (Some fresh) s
  | None => set_row (Some fresh) s
  end.
Definition request (w : nat) (now : Z) (refused : bool) (s : Sys) : Sys := if refused then s else start w (mark now s).

(** [resume]: the map is started where its row is DELETING *)
Definition resume (w : nat) (s : Sys) : Sys := match is_deleting_row s with Some _ => start w s | None => s end.

(** [RECORD_SQL]; whether a row was changed *)
Definition record (f : Status -> Status) (s : Sys) : Sys * bool :=
  match is_deleting_row s with
  | Some st => (set_row (Some {| row_life := DELETING; row_status := f st |}) s, true)
  | None => (s, false)
  end.

(** [_record_busy]; [ok]: the write went through *)
Definition record_busy (ok : bool) (s : Sys) : Sys :=
  if ok then (record (fun st => {| st_requested := st_requested st; st_attempts := st_attempts st; st_error := Busy |}) s).1 else s.

(** [_record_failure]; [ev]: the event write went through *)
Definition record_failure (total : nat) (requested : Z) (exhausted ok ev : bool) (s : Sys) : Sys :=
  if ok then
    let '(s', changed) := record (fun st => {| st_requested := st_requested st; st_attempts := total; st_error := Error |}) s in
    if changed && exhausted && ev then emit (MapDeleteFailed requested total) s' else s'
  else s.

(** [_finish] and [_emit_deleted] *)
Definition finish (st : Status) (ev : bool) (s : Sys) : Sys :=
  match is_deleting_row s with
  | Some _ =>
      let s' := set_tables (fun _ => false) (set_row None s) in
      if ev then emit (MapDeleted (st_requested st) (st_attempts st + 1)) s' else s'
  | None => s
  end.

(** [_scene_is_active] with the service's hook: the feature is on, or the map has a scene graph, or it cannot be told *)
Definition scene_is_active (ok : bool) (s : Sys) : bool := if ok then worker_enabled || stored s SceneGraph else true.

(** The end of an attempt with an error: the branches of [_round] after [_attempt] *)
Definition after_failure (now : Z) (r : Round) (st : Status) (busy ok ev : bool) (s : Sys) : Pc * Sys :=
  let b := S (r_busy r) in
  let waited := (r_waited r + timeout_ms + backoff b)%Z in
  let r' := if busy then {| r_attempt := r_attempt r; r_busy := b; r_waited := waited |} else r in
  if busy && bool_decide (waited < deadline_ms)%Z then (Sleeping r', record_busy ok s)
  else
    let attempt := S (r_attempt r') in
    let exhausted := bool_decide (attempts_max <= attempt) in
    let s' := record_failure (st_attempts st + 1) (default now (st_requested st)) exhausted ok ev s in
    (if exhausted then Closing else Sleeping {| r_attempt := attempt; r_busy := r_busy r'; r_waited := r_waited r' |}, s').

(** The next step of worker [w]'s task ([_run], [_round], [_attempt], [_take_scene_lock], [_run_steps]). [ok]: the
    call it makes succeeds; [ev]: so does the event write next to it; [now]: the clock. *)
Definition go (w : nat) (ok ev : bool) (now : Z) (s : Sys) : option Sys :=
  match pc s w with
  | NoTask => None
  | Opening =>
      if ok then match delete_lock s with
                 | None => Some (set_pc w (Head new_round) (set_delete_lock (Some w) s))
                 | Some _ => Some (set_pc w NoTask s)
                 end
      else Some (set_pc w NoTask s)
  | Head r =>
      if ok then match is_deleting_row s with
                 | Some st => Some (set_pc w (Loaded r st) s)
                 | None => Some (set_pc w Closing s)
                 end
      else Some (set_pc w Closing s)
  | Loaded r st =>
      if scene_is_active ok s then Some (set_pc w (Polling r st (S polls)) s)
      else Some (set_pc w (Steps r st false [GraphDb; ImageDb] false) s)
  | Polling r st asks =>
      if ok then match scene_lock s, asks with
                 | None, _ => Some (set_pc w (Steps r st true [SceneGraph; GraphDb; ImageDb] false) (set_scene_lock (Some (ByWorker w)) s))
                 | Some _, S (S n) => Some (set_pc w (Polling r st (S n)) s)
                 | Some _, _ => Some (set_pc w (Failed r st true) s)
                 end
      else Some (set_pc w (Failed r st false) s)
  | Steps r st scene (x :: rest) failed =>
      if ok then Some (set_pc w (Steps r st scene rest failed) (set_stored x false s))
      else Some (set_pc w (Steps r st scene rest true) s)
  | Steps r st scene [] failed =>
      let s' := if scene then set_scene_lock None s else s in
      Some (set_pc w (if failed then Failed r st false else Finishing st) s')
  | Failed r st busy => let '(p, s') := after_failure now r st busy ok ev s in Some (set_pc w p s')
  | Finishing st => Some (set_pc w Closing (if ok then finish st ev s else s))
  | Sleeping r => Some (set_pc w (Head r) s)
  | Closing => Some (set_pc w NoTask (set_delete_lock None s))
  end.

(** The end of worker [w]'s process, or [stop]: its connections and with them its locks go. *)
Definition crash (w : nat) (s : Sys) : Sys :=
  let s1 := if bool_decide (delete_lock s = Some w) then set_delete_lock None s else s in
  let s2 := if bool_decide (scene_lock s1 = Some (ByWorker w)) then set_scene_lock None s1 else s1 in
  set_pc w NoTask s2.

(** ** Everyone else *)

(** [PgGuard.is_deleting] *)
Definition is_deleting (s : Sys) : bool :=
  match row s with
  | Some r => bool_decide (row_life r = DELETING) || bool_decide (row_life r = DELETED)
  | None => true
  end.

Inductive Label :=
| Request (w : nat) (now : Z) (refused : bool) | Resume (w : nat) | Go (w : nat) (ok ev : bool) (now : Z) | Crash (w : nat)
| Create | WriteData (x : StoreName) | WriteRow (t : Table)
| FoldAcquire | FoldCheck | FoldSave | FoldRelease.

Definition step (l : Label) (s : Sys) : option Sys :=
  match l with
  | Request w now refused => Some (request w now refused s)
  | Resume w => Some (resume w s)
  | Go w ok ev now => go w ok ev now s
  | Crash w => Some (crash w s)
  | Create =>
      match row s with
      | None => Some (set_row (Some {| row_life := ALIVE; row_status := {| st_requested := None; st_attempts := 0; st_error := Nothing |} |}) s)
      | Some _ => None
      end
  | WriteData x =>
      match x, row s with
      | (GraphDb | ImageDb), Some r => if bool_decide (row_life r = ALIVE) then Some (set_stored x true s) else None
      | _, _ => None
      end
  | WriteRow t =>
      match row s with
      | Some r => if bool_decide (row_life r = ALIVE) then Some (set_tables (fun u => tables s u || bool_decide (u = t)) s) else None
      | None => None
      end
  | FoldAcquire =>
      match worker_enabled, fold s, scene_lock s with true, Idle, None => Some (set_fold Holding (Some ByFold) s) | _, _, _ => None end
  | FoldCheck =>
      match fold s with
      | Idle => None
      | _ => if is_deleting s then Some (set_fold Idle None s) else Some (set_fold Checked (scene_lock s) s)
      end
  | FoldSave => match fold s with Checked => Some (set_fold Holding (scene_lock s) (set_stored SceneGraph true s)) | _ => None end
  | FoldRelease => match fold s with Idle => None | _ => Some (set_fold Idle None s) end
  end.

Fixpoint run (ls : list Label) (s : Sys) : option Sys :=
  match ls with
  | [] => Some s
  | l :: ls => step l s ≫= run ls
  end.

(** ** The invariant *)

(** A task that has the delete lock; one that has the scene lock too *)
Definition has_lock (p : Pc) : bool := match p with NoTask | Opening => false | _ => true end.
Definition has_scene_lock (p : Pc) : bool := match p with Steps _ _ scene _ _ => scene | _ => false end.

(** The task of the worker that holds the delete lock *)
Definition runner (s : Sys) : Pc := match delete_lock s with Some w => pc s w | None => NoTask end.

Definition gone (s : Sys) : Prop := forall x, stored s x = false.

(** What the runner knows where it is *)
Definition knows (p : Pc) (s : Sys) : Prop :=
  match p with
  | Loaded _ _ | Polling _ _ _ | Failed _ _ _ => is_Some (is_deleting_row s)
  | Steps _ _ scene rest failed =>
      is_Some (is_deleting_row s) /\ (scene = false -> worker_enabled = false) /\ (failed = false -> forall x, x ∉ rest -> stored s x = false)
  | Finishing _ => is_Some (is_deleting_row s) /\ gone s /\ fold s <> Checked
  | _ => True
  end.

Definition scene_lock_held (p : Pc) (s : Sys) : Prop :=
  match scene_lock s with
  | Some (ByWorker w) => delete_lock s = Some w /\ has_scene_lock p = true /\ fold s = Idle
  | Some ByFold => has_scene_lock p = false /\ fold s <> Idle /\ worker_enabled = true
  | None => has_scene_lock p = false /\ fold s = Idle
  end.

Definition locked (s : Sys) : Prop := forall w, has_lock (pc s w) = true <-> delete_lock s = Some w.
Definition Inv (s : Sys) : Prop := locked s /\ scene_lock_held (runner s) s /\ knows (runner s) s.

(** No task and no lock *)
Definition quiet (s : Sys) : Prop := delete_lock s = None /\ scene_lock s = None /\ fold s = Idle /\ forall w, pc s w = NoTask.

Lemma quiet_inv s : quiet s -> Inv s.
Proof.
  intros (H1 & H2 & H3 & H4). split; [intros w; rewrite H4, H1; cbn; naive_solver|]. unfold scene_lock_held, knows, runner. rewrite H2, H1. cbn. done.
Qed.

Lemma mark_inv now s : Inv s -> Inv (mark now s).
Proof.
  intros (H1 & H2 & H3). unfold mark.
  assert (Hm : forall r, is_deleting_row s = None -> row_life r = DELETING -> Inv (set_row (Some r) s)).
  { intros r Hn Hd. split; [done|split; [done|]]. unfold knows, runner in *. cbn in *.
    assert (is_Some (is_deleting_row (set_row (Some r) s))) by (unfold is_deleting_row; cbn; rewrite bool_decide_true by done; by eexists).
    destruct (delete_lock s) as [w|]; [|done]. destruct (pc s w); try done; naive_solver. }
  destruct (row s) as [r|] eqn:Er.
  - case_bool_decide; [by split|]. apply Hm; [|done]. unfold is_deleting_row. by rewrite Er, bool_decide_false.
  - apply Hm; [|done]. unfold is_deleting_row. by rewrite Er.
Qed.

Lemma inv_set_pc w p s : locked s -> delete_lock s = Some w -> has_lock p = true -> scene_lock_held p s -> knows p s -> Inv (set_pc w p s).
Proof.
  intros H1 Hl Hp H2 H3. assert (Hr : runner (set_pc w p s) = p) by (unfold runner; cbn; by rewrite Hl, bool_decide_true).
  split; [|by rewrite Hr]. intros v. cbn. case_bool_decide as Hv; [|apply H1]. subst. by rewrite Hl, Hp.
Qed.

Lemma inv_runner w s : Inv s -> has_lock (pc s w) = true -> delete_lock s = Some w /\ scene_lock_held (pc s w) s /\ knows (pc s w) s.
Proof. intros (H1 & H2 & H3) Hw. apply H1 in Hw. unfold runner in *. by rewrite Hw in *. Qed.

(** A worker that waits for the lock, or gives up waiting, changes nothing else. *)
Lemma inv_leave w p s : Inv s -> has_lock (pc s w) = false -> has_lock p = false -> Inv (set_pc w p s).
Proof.
  intros (H1 & H2 & H3) Hw Hp. unfold locked in H1.
  assert (Hr : runner (set_pc w p s) = runner s).
  { unfold runner. cbn. destruct (delete_lock s) as [v|] eqn:El; [|done]. case_bool_decide; [subst|done].
    assert (has_lock (pc s w) = true) by (by apply H1). congruence. }
  split; [|rewrite Hr; by split]. intros v. cbn. case_bool_decide as Hv; [|apply H1]. subst. rewrite Hp, <-H1, Hw. done.
Qed.

Lemma start_inv w s : Inv s -> Inv (start w s).
Proof. intros HI. unfold start. destruct (pc s w) eqn:Ew; try done. apply inv_leave; [done|by rewrite Ew|done]. Qed.

(** The runner's lock is let go. *)
Lemma inv_unlock w s : Inv s -> delete_lock s = Some w -> has_scene_lock (pc s w) = false -> Inv (set_pc w NoTask (set_delete_lock None s)).
Proof.
  intros (H1 & H2 & _) Hl Hs. unfold locked in H1. split; [|split; [|done]].
  - intros v. cbn. case_bool_decide as Hv; [by subst|]. split; [|done]. rewrite (H1 v), Hl. congruence.
  - unfold scene_lock_held, runner in *. rewrite Hl in H2. cbn. rewrite Hs in H2. destruct (scene_lock s) as [[v|]|]; naive_solver.
Qed.

Lemma record_deleting f s : (record f s).2 = true -> is_Some (is_deleting_row (record f s).1).
Proof. unfold record. destruct (is_deleting_row s); [|done]. cbn. by eexists. Qed.
Lemma record_frame f s : let s' := (record f s).1 in
  (is_Some (is_deleting_row s) -> is_Some (is_deleting_row s'))
  /\ stored s' = stored s /\ tables s' = tables s /\ delete_lock s' = delete_lock s /\ scene_lock s' = scene_lock s /\ pc s' = pc s /\ fold s' = fold s /\ events s' = events s.
Proof. unfold record. destruct (is_deleting_row s) eqn:E; cbn; [|by rewrite E]. split; [by eexists|done]. Qed.

Lemma after_failure_frame now r st busy ok ev s : let s' := (after_failure now r st busy ok ev s).2 in
  stored s' = stored s /\ tables s' = tables s /\ delete_lock s' = delete_lock s /\ scene_lock s' = scene_lock s /\ pc s' = pc s /\ fold s' = fold s.
Proof.
  unfold after_failure. cbv zeta. destruct (busy && _); cbn.
  - unfold record_busy. destruct ok; [|done]. destruct (record_frame (fun st => {| st_requested := st_requested st; st_attempts := st_attempts st; st_error := Busy |}) s) as (_ & H).
    naive_solver.
  - unfold record_failure. destruct ok; [|done]. set (f := fun st => _). destruct (record_frame f s) as (_ & H). destruct (record f s) as [s' c]. cbn in *.
    destruct (c && _ && _); cbn; naive_solver.
Qed.
Lemma after_failure_pc now r st busy ok ev s : has_lock (after_failure now r st busy ok ev s).1 = true /\ has_scene_lock (after_failure now r st busy ok ev s).1 = false
  /\ forall s', knows (after_failure now r st busy ok ev s).1 s'.
Proof. unfold after_failure. cbv zeta. destruct (busy && _); cbn; [done|]. by destruct (bool_decide _). Qed.

Lemma go_inv w ok ev now s s' : Inv s -> go w ok ev now s = Some s' -> Inv s'.
Proof.
  intros HI. unfold go. destruct (pc s w) as [| |r|r st|r st n|r st scene rest failed|r st busy|st|r|] eqn:Ew; [done| |..].
  { destruct ok; [|intros [= <-]; apply inv_leave; [done|by rewrite Ew|done]].
    destruct (delete_lock s) as [v|] eqn:El; intros [= <-]; [apply inv_leave; [done|by rewrite Ew|done]|].
    destruct HI as (H1 & H2 & H3). unfold locked in H1. split; [|split].
    - intros v. cbn. case_bool_decide as Hv; [subst; done|]. split; [|congruence]. rewrite (H1 v), El. done.
    - unfold scene_lock_held, runner in *. cbn. rewrite bool_decide_true by done. rewrite El in H2. cbn in *. destruct (scene_lock s) as [[]|]; naive_solver.
    - unfold runner. cbn. by rewrite bool_decide_true. }
  all: destruct (inv_runner w s HI ltac:(by rewrite Ew)) as (Hl & Hs & Hk); rewrite Ew in Hs, Hk; pose proof HI as [H1 _].
  - destruct ok; [destruct (is_deleting_row s) as [st|] eqn:Ed|]; intros [= <-]; apply inv_set_pc; cbn; rewrite ?Ed; eauto.
  - destruct (scene_is_active ok s) eqn:Ea; intros [= <-]; apply inv_set_pc; cbn; eauto. split; [done|].
    unfold scene_is_active in Ea. destruct ok; [|done]. apply orb_false_iff in Ea as [-> Ea]. split; [done|]. intros _ x Hx. destruct x; [done|set_solver|set_solver].
  - destruct ok; [|intros [= <-]; apply inv_set_pc; cbn; eauto].
    unfold scene_lock_held in Hs. destruct (scene_lock s) as [h|] eqn:El.
    + assert (Hs' : forall p, has_scene_lock p = false -> scene_lock_held p s).
      { intros p Hp. unfold scene_lock_held. rewrite El, Hp. destruct h; cbn in Hs; naive_solver. }
      destruct n as [|[|n]]; intros [= <-]; apply inv_set_pc; cbn; eauto; by apply Hs'.
    + intros [= <-]. apply inv_set_pc; cbn; eauto.
      * unfold scene_lock_held. cbn. naive_solver.
      * split; [done|]. split; [done|]. intros _ x Hx. destruct x; set_solver.
  - destruct rest as [|x rest].
    + intros [= <-]. destruct Hk as (Hd & Hsc & Hg). apply inv_set_pc; [by destruct scene|by destruct scene|by destruct failed| |].
      * unfold scene_lock_held in *. cbn in Hs. destruct scene; cbn; [|destruct failed; cbn; done].
        destruct (scene_lock s) as [[]|]; destruct failed; naive_solver.
      * destruct failed; cbn; [by destruct scene|]. split; [by destruct scene|]. split; [intros x; specialize (Hg eq_refl x ltac:(set_solver)); by destruct scene|].
        unfold scene_lock_held in Hs. cbn in Hs. intros Hf. assert (fold s = Checked) as Hf' by (by destruct scene). clear Hf.
        clear HI Hg Hd. destruct scene; [|specialize (Hsc eq_refl)]; destruct (scene_lock s) as [[]|]; destruct_and?; congruence.
    + destruct Hk as (Hd & Hsc & Hg). destruct ok; intros [= <-]; apply inv_set_pc; cbn; eauto; [|by split_and!].
      split; [done|]. split; [done|]. intros Hf y Hy. case_bool_decide; [done|]. apply Hg; [done|]. set_solver.
  - destruct (after_failure now r st busy ok ev s) as [p s1] eqn:Ea. intros [= <-].
    destruct (after_failure_frame now r st busy ok ev s) as (F1 & F2 & F3 & F4 & F5 & F6). destruct (after_failure_pc now r st busy ok ev s) as (P1 & P2 & P3). rewrite Ea in *. cbn in *.
    apply inv_set_pc; [|by rewrite F3|done| |by apply P3].
    + intros v. rewrite F3, F5. apply H1.
    + unfold scene_lock_held in *. rewrite F3, F4, F6, P2. done.
  - intros [= <-]. unfold finish. destruct ok; [destruct (is_deleting_row s), ev|]; apply inv_set_pc; cbn; eauto.
  - intros [= <-]. apply inv_set_pc; cbn; eauto.
  - intros [= <-]. apply inv_unlock; [done|done|by rewrite Ew].
Qed.

Lemma crash_inv w s : Inv s -> Inv (crash w s).
Proof.
  intros HI. unfold crash. destruct (decide (delete_lock s = Some w)) as [Hl|Hl].
  - rewrite (bool_decide_true (delete_lock s = Some w)) by done. pose proof HI as (H1 & H2 & _). unfold locked in H1. unfold runner in H2. rewrite Hl in H2.
    split; [|split].
    + intros v. destruct (bool_decide (scene_lock _ = _)); cbn; (case_bool_decide as Hv; [by subst|]); (split; [|done]); rewrite (H1 v), Hl; congruence.
    + unfold scene_lock_held, runner in *. cbn. case_bool_decide as Hs; cbn; [rewrite Hs in H2; naive_solver|].
      destruct (scene_lock s) as [[v|]|]; [|naive_solver..]. destruct H2 as (H2 & _). congruence.
    + unfold runner. by destruct (bool_decide (scene_lock _ = _)).
  - rewrite (bool_decide_false (delete_lock s = Some w)) by done.
    assert (Hs : scene_lock s <> Some (ByWorker w)).
    { intros Hs. destruct HI as (_ & H2 & _). unfold scene_lock_held in H2. rewrite Hs in H2. naive_solver. }
    rewrite bool_decide_false by done. apply inv_leave; [done| |done].
    destruct (has_lock (pc s w)) eqn:E; [|done]. destruct HI as (H1 & _). apply H1 in E. congruence.
Qed.

(** A step of another party that keeps the locks, the deleting row and what is gone of a map being deleted *)
Lemma inv_kept s s' : Inv s -> delete_lock s' = delete_lock s -> scene_lock s' = scene_lock s -> pc s' = pc s -> fold s' = fold s ->
  (is_Some (is_deleting_row s) -> is_Some (is_deleting_row s') /\ stored s' = stored s) -> Inv s'.
Proof.
  intros (H1 & H2 & H3) E1 E2 E3 E4 E5. assert (Hr : runner s' = runner s) by (unfold runner; by rewrite E1, E3).
  split; [intros w; rewrite E1, E3; apply H1|]. rewrite Hr. split; [unfold scene_lock_held; by rewrite E1, E2, E4|].
  unfold knows, gone in *. destruct (runner s); try done; try (by apply E5).
  - destruct H3 as (Hd & H3). destruct (E5 Hd) as [Hd' ->]. by split.
  - destruct H3 as (Hd & H3). destruct (E5 Hd) as [Hd' ->]. by rewrite E4.
Qed.

Lemma fold_inv f l s : Inv s -> (match scene_lock s with Some (ByWorker _) => False | _ => True end) ->
  (f = Idle /\ l = None \/ f <> Idle /\ l = Some ByFold /\ worker_enabled = true) -> (f = Checked -> is_deleting s = false) -> Inv (set_fold f l s).
Proof.
  intros (H1 & H2 & H3) Hw Hf Hc. split; [done|]. assert (Hr : runner (set_fold f l s) = runner s) by done. rewrite Hr. split.
  - unfold scene_lock_held in *. cbn. destruct (scene_lock s) as [[v|]|]; [done|..]; destruct Hf as [[-> ->]|(Hf & -> & He)]; naive_solver.
  - unfold knows in *. destruct (runner s); try done. destruct H3 as (Hd & Hg & _). split; [done|]. split; [done|]. cbn. intros ->.
    specialize (Hc eq_refl). unfold is_deleting, is_deleting_row in *. destruct (row s) as [rw|]; [|done]. apply orb_false_iff in Hc as [Hc _].
    rewrite Hc in Hd. by destruct Hd.
Qed.

Lemma step_inv l s s' : Inv s -> step l s = Some s' -> Inv s'.
Proof.
  intros HI. destruct l as [w now refused|w|w ok ev now|w| |x|t| | | |]; cbn.
  - intros [= <-]. unfold request. destruct refused; [done|]. apply start_inv. by apply mark_inv.
  - intros [= <-]. unfold resume. destruct (is_deleting_row s); [by apply start_inv|done].
  - by apply go_inv.
  - intros [= <-]. by apply crash_inv.
  - destruct (row s) as [r|] eqn:Er; [done|]. intros [= <-]. eapply inv_kept; try done. unfold is_deleting_row. rewrite Er. by intros [].
  - destruct (row s) as [r|] eqn:Er; [|by destruct x]. destruct (bool_decide (row_life r = ALIVE)) eqn:E; [|by destruct x]. apply bool_decide_eq_true in E.
    intros H. assert (Hs : s' = set_stored x true s) by (destruct x; naive_solver). subst. eapply inv_kept; try done.
    unfold is_deleting_row. rewrite Er, E. cbn. by intros [].
  - destruct (row s) as [r|] eqn:Er; [|done]. destruct (bool_decide (row_life r = ALIVE)) eqn:E; [|done]. intros [= <-]. by eapply inv_kept.
  - destruct worker_enabled eqn:Ew; [|done]. destruct (fold s) eqn:Ef; try done. destruct (scene_lock s) eqn:Es; [done|]. intros [= <-].
    apply fold_inv; [done|by rewrite Es| |done]. right. by split_and!.
  - pose proof HI as (_ & H2 & _). unfold scene_lock_held in H2.
    destruct (fold s) eqn:Ef; [done|..]; destruct (is_deleting s) eqn:Ed; intros [= <-]; destruct (scene_lock s) as [[v|]|] eqn:El;
      try (by destruct H2 as (_ & _ & ?)); try (by destruct H2 as (_ & ?)); (apply fold_inv; [done|by rewrite El|first [by left | right; split_and!; [done|done|by destruct H2 as (_ & _ & ?)]]|done]).
  - destruct (fold s) eqn:Ef; try done. intros [= <-]. pose proof HI as (H1 & H2 & H3). unfold scene_lock_held in H2. rewrite Ef in H2.
    destruct (scene_lock s) as [[v|]|] eqn:El; [naive_solver| |naive_solver]. destruct H2 as (Hr & _ & He).
    assert (Hk : Inv (set_stored SceneGraph true s)).
    { split; [done|]. assert (Hr' : runner (set_stored SceneGraph true s) = runner s) by done. rewrite Hr'. split.
      - unfold scene_lock_held. cbn. rewrite El, Ef. done.
      - unfold knows in *. destruct (runner s) as [| | | | |r st sc rest fl| | | |]; try done; [|naive_solver].
        cbn in Hr. subst sc. destruct H3 as (_ & H3 & _). by rewrite H3 in He. }
    apply fold_inv; [done|by cbn; rewrite El|by right|done].
  - pose proof HI as (_ & H2 & _). unfold scene_lock_held in H2. destruct (fold s) eqn:Ef; [done|..]; intros [= <-];
      destruct (scene_lock s) as [[v|]|] eqn:El; try (by destruct H2 as (_ & _ & ?)); try (by destruct H2 as (_ & ?)); (apply fold_inv; [done|by rewrite El|first [by left | right; split_and!; [done|done|by destruct H2 as (_ & _ & ?)]]|done]).
Qed.

Lemma saga_inv ls s s' : Inv s -> run ls s = Some s' -> Inv s'.
Proof.
  revert s. induction ls as [|l ls IH]; intros s HI; cbn; [by intros [= <-]|]. destruct (step l s) as [s1|] eqn:E; [|done]. cbn. apply IH. by eapply step_inv.
Qed.

(** ** The row is the last to go *)

Lemma mark_row now s : row (mark now s) <> None.
Proof. unfold mark. destruct (row s) as [r|] eqn:E; [case_bool_decide; cbn; [by rewrite E|done]|done]. Qed.
Lemma start_row w s : row (start w s) = row s.
Proof. unfold start. by destruct (pc s w). Qed.
Lemma record_row f s : row s <> None -> row (record f s).1 <> None.
Proof. unfold record. by destruct (is_deleting_row s). Qed.
Lemma after_failure_row now r st busy ok ev s : row s <> None -> row (after_failure now r st busy ok ev s).2 <> None.
Proof.
  intros H. unfold after_failure. cbv zeta. destruct (busy && _); cbn.
  - unfold record_busy. destruct ok; [by apply record_row|done].
  - unfold record_failure. destruct ok; [|done]. set (f := fun st => _). pose proof (record_row f s H) as Hr. destruct (record f s) as [s' c]. by destruct (c && _ && _).
Qed.

Lemma row_removed l s s' : step l s = Some s' -> row s <> None -> row s' = None ->
  exists w ev now st, l = Go w true ev now /\ pc s w = Finishing st /\ s' = set_pc w Closing (finish st ev s) /\ is_Some (is_deleting_row s).
Proof.
  intros Hs Hr Hn. destruct l as [w now refused|w|w ok ev now|w| |x|t| | | |]; cbn in Hs.
  - injection Hs as <-. unfold request in Hn. destruct refused; [done|]. rewrite start_row in Hn. by apply mark_row in Hn.
  - injection Hs as <-. unfold resume in Hn. destruct (is_deleting_row s); [by rewrite start_row in Hn|done].
  - unfold go in Hs. destruct (pc s w) as [| |r|r st|r st n|r st sc rest failed|r st busy|st|r|] eqn:Ew; try done.
    all: try (destruct ok; repeat case_match; simplify_eq/=; done).
    + pose proof (after_failure_row now r st busy ok ev s Hr) as Hf. destruct (after_failure now r st busy ok ev s). by simplify_eq/=.
    + destruct ok; [|by simplify_eq/=]. injection Hs as <-. exists w, ev, now, st. split_and!; [done|done|done|].
      unfold finish in Hn. destruct (is_deleting_row s); [by eexists|done].
  - injection Hs as <-. unfold crash in Hn. by repeat case_bool_decide.
  - destruct (row s); [done|]. by simplify_eq/=.
  - destruct x, (row s) eqn:Er; try done; case_bool_decide; simplify_eq/=; congruence.
  - destruct (row s) eqn:Er; [|done]. case_bool_decide; simplify_eq/=; congruence.
  - destruct worker_enabled, (fold s), (scene_lock s); by simplify_eq/=.
  - destruct (fold s), (is_deleting s); by simplify_eq/=.
  - destruct (fold s); by simplify_eq/=.
  - destruct (fold s); by simplify_eq/=.
Qed.

(** C8: however the API workers, their crashes and failing stores, repeated delete requests, the scene worker and
    the writers of the map interleave: the step that removes a map's row is made by one worker while no other is
    running the map's delete, and at that moment the map's graph, images and scene graph are all gone; its rows in
    every other table go in the same step. *)
Theorem row_removed_last (ls : list Label) (l : Label) (s0 s s' : Sys) :
  quiet s0 -> run ls s0 = Some s -> step l s = Some s' -> row s <> None -> row s' = None ->
  (forall x, stored s' x = false) /\ (forall t, tables s' t = false)
  /\ exists w, delete_lock s = Some w /\ (forall v, has_lock (pc s v) = true -> v = w)
  /\ (events s' = events s \/ exists req n, events s' = events s ++ [MapDeleted req n]).
Proof.
  intros H0 Hr Hs H1 H2. assert (HI : Inv s) by (eapply saga_inv; [by apply quiet_inv|done]).
  destruct (row_removed _ _ _ Hs H1 H2) as (w & ev & now & st & -> & Ew & -> & [st' Hd]).
  destruct (inv_runner w s HI ltac:(by rewrite Ew)) as (Hl & _ & Hk). rewrite Ew in Hk. destruct Hk as (_ & Hg & _).
  unfold finish. rewrite Hd. split_and!.
  - intros x. destruct ev; apply Hg.
  - by destruct ev.
  - exists w. split; [done|]. split; [|destruct ev; cbn; eauto]. intros v Hv. apply HI in Hv. congruence.
Qed.

(** ** A round ends *)

(** The steps a task may still make *)
Definition loops (r : Round) : nat := (attempts_max - r_attempt r) + Z.to_nat (deadline_ms - r_waited r).
Definition work_left (p : Pc) : nat :=
  let at_ r n := (loops r * (polls + 12) + n)%nat in
  match p with
  | NoTask => 0
  | Opening => S (at_ new_round (polls + 10))
  | Head r => at_ r (polls + 10)
  | Loaded r _ => at_ r (polls + 9)
  | Polling r _ n => at_ r (7 + n)
  | Steps r _ _ rest _ => at_ r (3 + length rest)
  | Failed r _ _ => at_ r 2
  | Finishing _ => 2
  | Sleeping r => at_ r (polls + 11)
  | Closing => 1
  end%nat.

Hypothesis timeout_pos : (0 < timeout_ms)%Z.
Hypothesis backoff_nonneg : (0 <= backoff_ms)%Z /\ (0 <= backoff_max_ms)%Z.

Lemma backoff_ge n : (0 <= backoff n)%Z.
Proof. unfold backoff. pose proof (Z.pow_nonneg 2 (Z.max 0 (Z.of_nat n - 1))). nia. Qed.

Lemma after_failure_left now r st busy ok ev s : (work_left (after_failure now r st busy ok ev s).1 < work_left (Failed r st busy))%nat.
Proof.
  unfold after_failure. cbv zeta. set (w := (r_waited r + timeout_ms + backoff (S (r_busy r)))%Z).
  assert (Hw : (r_waited r < w)%Z) by (subst w; pose proof (backoff_ge (S (r_busy r))); lia).
  destruct (busy && bool_decide (w < deadline_ms)%Z) eqn:E; cbn [fst].
  - apply andb_true_iff in E as [-> E%bool_decide_eq_true]. cbn. unfold loops. cbn.
    assert (Z.to_nat (deadline_ms - w) + 1 <= Z.to_nat (deadline_ms - r_waited r))%nat by lia. nia.
  - clear E. case_bool_decide as Hx; [cbn [work_left]; lia|]. cbn. unfold loops. cbn.
    assert (r_attempt (if busy then {| r_attempt := r_attempt r; r_busy := S (r_busy r); r_waited := w |} else r) = r_attempt r) as Ha by (by destruct busy).
    rewrite Ha in *. set (w' := r_waited (if busy then _ else r)).
    assert (r_waited r <= w')%Z by (subst w'; destruct busy; cbn; lia).
    assert (Z.to_nat (deadline_ms - w') <= Z.to_nat (deadline_ms - r_waited r))%nat by lia. nia.
Qed.

Lemma go_left w ok ev now s s' : go w ok ev now s = Some s' -> (work_left (pc s' w) < work_left (pc s w))%nat.
Proof.
  unfold go. destruct (pc s w) as [| |r|r st|r st n|r st sc rest failed|r st busy|st|r|] eqn:Ew; [done| |..]; intros H.
  - destruct ok; [destruct (delete_lock s)|]; injection H as <-; cbn [set_pc set_delete_lock set_scene_lock set_stored pc]; rewrite bool_decide_true by done; unfold work_left; cbn [length]; lia.
  - destruct ok; [destruct (is_deleting_row s)|]; injection H as <-; cbn [set_pc set_delete_lock set_scene_lock set_stored pc]; rewrite bool_decide_true by done; unfold work_left; cbn [length]; lia.
  - destruct (scene_is_active ok s); injection H as <-; cbn [set_pc set_delete_lock set_scene_lock set_stored pc]; rewrite bool_decide_true by done; unfold work_left; cbn [length]; lia.
  - destruct ok; [destruct (scene_lock s), n as [|[|n]]|]; injection H as <-; cbn [set_pc set_delete_lock set_scene_lock set_stored pc]; rewrite bool_decide_true by done; unfold work_left; cbn [length]; lia.
  - destruct rest as [|x rest]; [destruct failed|destruct ok]; injection H as <-; cbn [set_pc set_delete_lock set_scene_lock set_stored pc]; rewrite bool_decide_true by done; unfold work_left; cbn [length]; lia.
  - pose proof (after_failure_left now r st busy ok ev s) as Hf. destruct (after_failure now r st busy ok ev s) as [p s1]. injection H as <-.
    cbn [set_pc pc]. rewrite bool_decide_true by done. exact Hf.
  - injection H as <-. cbn [set_pc set_delete_lock pc]. rewrite bool_decide_true by done. unfold work_left. lia.
  - injection H as <-. cbn [set_pc set_delete_lock pc]. rewrite bool_decide_true by done. unfold work_left. lia.
  - injection H as <-. cbn [set_pc set_delete_lock pc]. rewrite bool_decide_true by done. unfold work_left. lia.
Qed.

(** A worker that runs the delete is moved on only by its own steps, or stopped. *)
Lemma step_pc l w s s' : step l s = Some s' -> has_lock (pc s w) = true ->
  (exists ok ev now, l = Go w ok ev now) \/ pc s' w = pc s w \/ has_lock (pc s' w) = false.
Proof.
  intros Hs Hw.
  assert (Hstart : forall v t, has_lock (pc t w) = true -> pc (start v t) w = pc t w).
  { intros v t Ht. unfold start. destruct (pc t v) eqn:Ev; try done. cbn. case_bool_decide; [subst; by rewrite Ev in Ht|done]. }
  destruct l as [v now refused|v|v ok ev now|v| |x|t| | | |]; cbn in Hs.
  - right. left. injection Hs as <-. unfold request. destruct refused; [done|].
    assert (Hm : pc (mark now s) = pc s) by (unfold mark; destruct (row s); [by case_bool_decide|done]). rewrite Hstart; by rewrite Hm.
  - right. left. injection Hs as <-. unfold resume. destruct (is_deleting_row s); [by apply Hstart|done].
  - destruct (decide (v = w)) as [->|Hv]; [left; eauto|]. right. left. unfold go in Hs.
    destruct (pc s v) as [| |r|r st|r st n|r st sc rest failed|r st busy|st|r|] eqn:Ev; try done.
    6: { destruct (after_failure_frame now r st busy ok ev s) as (_ & _ & _ & _ & F & _). destruct (after_failure now r st busy ok ev s) as [p s1].
         injection Hs as <-. cbn in *. by rewrite F, bool_decide_false. }
    all: repeat case_match; simplify_eq/=; try (by rewrite bool_decide_false).
    all: rewrite bool_decide_false by done; unfold finish; by repeat case_match.
  - destruct (decide (v = w)) as [->|Hv]; injection Hs as <-; [right; right; cbn; by rewrite bool_decide_true|].
    right. left. unfold crash. cbn. rewrite bool_decide_false by done. by repeat case_bool_decide.
  - destruct (row s); [done|]. simplify_eq/=. auto.
  - destruct x, (row s); try done; case_bool_decide; simplify_eq/=; auto.
  - destruct (row s); [|done]. case_bool_decide; simplify_eq/=; auto.
  - destruct worker_enabled, (fold s), (scene_lock s); simplify_eq/=; auto.
  - destruct (fold s), (is_deleting s); simplify_eq/=; auto.
  - destruct (fold s); simplify_eq/=; auto.
  - destruct (fold s); simplify_eq/=; auto.
Qed.

Definition own_step (w : nat) (l : Label) : bool := match l with Go v _ _ _ => bool_decide (v = w) | _ => false end.

(** C37: a worker's delete of a map ends: whatever the stores answer, however long the scene lock stays busy and
    whatever the others do in between, the worker that runs it makes a number of steps bounded by the attempts, the
    deadline of the busy lock and the polls, and then gives the map's lock back. *)
Theorem round_ends (w : nat) (ls : list Label) (s s' : Sys) :
  run ls s = Some s' -> (work_left (pc s w) < length (filter (fun l => own_step w l = true) ls))%nat ->
  exists k s1, run (take k ls) s = Some s1 /\ has_lock (pc s1 w) = false.
Proof.
  revert s. induction ls as [|l ls IH]; intros s Hr Hn; cbn in Hr; [cbn in Hn; lia|].
  destruct (has_lock (pc s w)) eqn:Hw; [|by exists 0%nat, s]. destruct (step l s) as [s1|] eqn:El; [|done]. cbn in Hr.
  assert (Hc : has_lock (pc s1 w) = false \/ (work_left (pc s1 w) < length (filter (fun l => own_step w l = true) ls))%nat).
  { rewrite filter_cons in Hn. destruct (step_pc _ w _ _ El Hw) as [(ok & ev & now & ->)|[E|E]]; [|right; rewrite E|by left].
    - right. rewrite decide_True in Hn by (cbn; by apply bool_decide_eq_true). rewrite length_cons in Hn. cbn in El. apply go_left in El. lia.
    - destruct (decide (own_step w l = true)) as [Ho|Ho]; [|done]. rewrite length_cons in Hn. destruct l; try done. cbn in Ho. apply bool_decide_eq_true in Ho as ->.
      cbn in El. apply go_left in El. rewrite E in El. lia. }
  destruct Hc as [Hc|Hc]; [exists 1%nat, s1; cbn; rewrite El; cbn; by rewrite take_0|].
  destruct (IH s1 Hr Hc) as (k & s2 & Hk & Hl). exists (S k), s2. cbn. rewrite El. by split.
Qed.
End saga.

(** ** Traces *)

Definition alive : Row := {| row_life := ALIVE; row_status := {| st_requested := None; st_attempts := 0; st_error := Nothing |} |}.
Definition full : Sys := {| row := Some alive; stored := fun _ => true; tables := fun _ => true; delete_lock := None; scene_lock := None;
  pc := fun _ => NoTask; fold := Idle; events := [] |}.
(** The settings of the service, with three attempts *)
Definition srun : list Label -> Sys -> option Sys := run 3 2000 60000 30000 500 3600000 true.
Definition sstep : Label -> Sys -> option Sys := step 3 2000 60000 30000 500 3600000 true.
Definition goes (w n : nat) : list Label := replicate n (Go w true true 0).

(** The scene worker saves once more after the request; a second worker finds the lock taken; the image store fails once. *)
Definition a_delete : list Label :=
  [FoldAcquire; FoldCheck; Request 0 5 false; Request 1 6 false; FoldSave] ++ goes 0 5 ++ goes 1 1 ++ [FoldCheck] ++ goes 0 3
  ++ [Go 0 false true 0] ++ goes 0 10.
Definition near_end : Sys := default full (srun a_delete full).

Lemma row_removed_last_witness : exists s', sstep (Go 0 true true 0) near_end = Some s' /\ events s' = [MapDeleted (Some 5%Z) 2]
  /\ (forall x, stored s' x = false) /\ (forall t, tables s' t = false)
  /\ exists w, delete_lock near_end = Some w /\ (forall v, has_lock (pc near_end v) = true -> v = w)
  /\ (events s' = events near_end \/ exists req n, events s' = events near_end ++ [MapDeleted req n]).
Proof.
  eexists. split; [reflexivity|]. split; [vm_compute; reflexivity|].
  eapply (row_removed_last 3 2000 60000 30000 500 3600000 true a_delete (Go 0 true true 0) full).
  - by repeat split.
  - vm_compute. reflexivity.
  - vm_compute. reflexivity.
  - vm_compute. discriminate.
  - vm_compute. reflexivity.
Defined.

(** Short settings: the lock is asked for twice, busy for at most three milliseconds *)
Definition holding : Sys := default full (run 2 0 0 1 500 3 true [FoldAcquire; Request 0 5 false; Go 0 true true 0] full).
Definition contended : list Label := mjoin (replicate 90 [Request 0 7 false; Go 0 true true 0]).

Lemma round_ends_witness :
  has_lock (pc holding 0) = true /\
  exists k s1, run 2 0 0 1 500 3 true (take k contended) holding = Some s1 /\ has_lock (pc s1 0) = false.
Proof.
  split; [vm_compute; reflexivity|].
  destruct (run 2 0 0 1 500 3 true contended holding) as [s'|] eqn:E; [|vm_compute in E; discriminate E].
  apply (round_ends 2 0 0 1 500 3 true ltac:(lia) ltac:(lia) 0 contended holding s' E). vm_compute. lia.
Defined.

(** A DELETE that arrives when the last attempt of a round has failed, but its task has not closed its connection yet,
    is accepted and starts no round: the map stays DELETING with no task. *)
Definition exhausted : Sys := default full (srun (Request 0 5 false :: goes 0 1 ++ mjoin (replicate 2
  (goes 0 3 ++ [Go 0 false true 0] ++ goes 0 5)) ++ goes 0 3 ++ [Go 0 false true 0] ++ goes 0 4) full).
Theorem late_delete_starts_no_round :
  pc exhausted 0 = Closing /\ events exhausted = [MapDeleteFailed 5 3]
  /\ (fun s => (pc s 0, delete_lock s, row_life <$> row s)) <$> srun [Request 0 9 false; Go 0 true true 0] exhausted
     = Some (NoTask, None, Some DELETING).
Proof. split_and!; vm_compute; reflexivity. Qed.

(** ** The maps the scene workers run for *)

(** [PgGuard.registered_maps] and [bucket_slug]: a bucket is worked on only where it is the bucket of one live map *)
Module Registry.

Definition bucket_slug (map_id : text) : text := map bucket_char (lower map_id).

(** The rows of the registry query: the live maps of the slugs asked for *)
Definition by_slug (rows : list text) (slug : text) : list text := filter (fun r => bucket_slug r = slug) rows.

(** The map worked on for a candidate *)
Definition choose (rows : list text) (cand : text) : option text :=
  let real := by_slug rows (bucket_slug cand) in
  if bool_decide (cand ∈ real) then Some cand
  else match real with [r] => Some r | _ => None end.

Definition registered_maps (rows candidates : list text) : gset text :=
  list_to_set (omap (choose rows) (filter (fun c => c <> []) candidates)).

Lemma choose_spec rows cand r : choose rows cand = Some r -> r ∈ rows /\ bucket_slug r = bucket_slug cand.
Proof.
  unfold choose. case_bool_decide as Hc.
  - intros [= <-]. apply list_elem_of_filter in Hc. naive_solver.
  - destruct (by_slug rows (bucket_slug cand)) as [|x [|y l]] eqn:E; [done| |done]. intros [= <-].
    assert (Hx : x ∈ by_slug rows (bucket_slug cand)) by (rewrite E; set_solver). apply list_elem_of_filter in Hx. naive_solver.
Qed.

(** The scene workers run only for registered live maps, and never for two of one bucket, where the buckets
    listed are different ones; and a map that alone owns a listed bucket is always among them. *)
Theorem registered_maps_one_per_bucket (rows candidates : list text) :
  NoDup (bucket_slug <$> candidates) ->
  (forall r, r ∈ registered_maps rows candidates -> r ∈ rows)
  /\ (forall r r', r ∈ registered_maps rows candidates -> r' ∈ registered_maps rows candidates -> bucket_slug r = bucket_slug r' -> r = r')
  /\ (forall r c, r ∈ rows -> c ∈ candidates -> c <> [] -> by_slug rows (bucket_slug c) = [r] -> r ∈ registered_maps rows candidates).
Proof.
  intros Hnd. unfold registered_maps.
  assert (Hin : forall r, r ∈ (list_to_set (omap (choose rows) (filter (fun c => c <> []) candidates)) : gset text) ->
    exists c, c ∈ candidates /\ choose rows c = Some r).
  { intros r Hr. rewrite elem_of_list_to_set, list_elem_of_omap in Hr. destruct Hr as (c & [_ Hc]%list_elem_of_filter & E). by exists c. }
  split_and!.
  - intros r (c & _ & E)%Hin. by apply choose_spec in E as [? _].
  - intros r r' (c & Hc & E)%Hin (c' & Hc' & E')%Hin Hs. assert (c = c') as <-; [|congruence].
    apply choose_spec in E as [_ E], E' as [_ E']. apply list_elem_of_lookup in Hc as [i Hi], Hc' as [j Hj].
    assert (i = j) as <-; [|congruence]. eapply (NoDup_lookup _ _ _ (bucket_slug c) Hnd); rewrite list_lookup_fmap; [by rewrite Hi|rewrite Hj; cbn; congruence].
  - intros r c Hr Hc Hne Hs. rewrite elem_of_list_to_set, list_elem_of_omap. exists c. split; [by apply list_elem_of_filter|].
    unfold choose. rewrite Hs. case_bool_decide as Hx; [apply list_elem_of_singleton in Hx; congruence|done].
Qed.

Lemma registered_maps_one_per_bucket_witness :
  let rows := text_of <$> ["My-Map"; "lab"; "Lab"]%string in
  let candidates := text_of <$> ["my_map"; "lab"; "other"]%string in
  registered_maps rows candidates = list_to_set (text_of <$> ["My-Map"; "lab"]%string)
  /\ (forall r, r ∈ registered_maps rows candidates -> r ∈ rows).
Proof.
  split; [vm_compute; reflexivity|]. apply registered_maps_one_per_bucket.
  vm_compute. repeat constructor; intros H; repeat (apply elem_of_cons in H as [H|H]; [discriminate H|]); by apply elem_of_nil in H.
Defined.

(** Two maps that share a bucket: the one whose name is the listed one is worked on, the bucket is not skipped. *)
Theorem shared_bucket_not_skipped :
  registered_maps (text_of <$> ["my-map"; "my_map"]%string) [text_of "my_map"] = {[text_of "my_map"]}.
Proof. vm_compute. reflexivity. Qed.
End Registry.
