(* ===== verification/Reroute.v ===== *)
(** * Edits and reroutes of a loaded mission

    packages/controllers/mission/server.py: [_apply_spec_edit], [_update_mission_from_api] and [_settle_route_rev], which
    carry the changes of a mission's row over to the mission the dispatcher has loaded. A row is delivered any number of
    times (the watcher, the periodic resync, echoes of the dispatcher's own writes), so a reroute is acted on once per
    [route_rev]. Waypoints, paths and the other editable fields are opaque values; the record of the order of a replaced
    route and the node reports are in Progress.v and Reports.v. *)

From S2P Require Import Prelude PyDict Mission.
Local Open Scope string_scope.
Local Open Scope list_scope.

(** Of a mission or a robot; the DELETING of maps is in MapDelete.v. *)
Inductive Lifecycle := ALIVE | PENDING_DELETE | DELETED.
#[export] Instance Lifecycle_eq_dec : EqDecision Lifecycle.
Proof. solve_decision. Defined.

(** A route: its waypoints, and the trajectory that is only shown *)
Record Route := { waypoints : list Z; trajectory : list Z }.
#[export] Instance Route_eq_dec : EqDecision Route.
Proof. solve_decision. Defined.
Record Node := { n_name : string; n_route : option Route }.
#[export] Instance Node_eq_dec : EqDecision Node.
Proof. solve_decision. Defined.

(** The editable fields but the tree and the planned path: robot, timeout, deadline, repeat, then_run, register_map, mode
    and telemetry_recording *)
Record Fields := { f_robot : string; f_rest : list Z }.
#[export] Instance Fields_eq_dec : EqDecision Fields.
Proof. solve_decision. Defined.

Record Status := {
  st_state : MissionStateV1; st_started : bool; st_run_id : bool; st_order_rev : N; st_applied_rev : N; st_held : option string;
  st_nodes : list (string * MissionStateV1); st_tasks : list (string * nat);
}.
Record Mission := {
  m_name : string; m_life : Lifecycle; m_needs_canceled : bool; m_route_rev : N; m_tree : list Node; m_planned : option Z;
  m_fields : Fields; m_status : Status;
}.

Definition set_flags (m : Mission) (life : Lifecycle) (cancel : bool) : Mission :=
  {| m_name := m_name m; m_life := life; m_needs_canceled := cancel; m_route_rev := m_route_rev m; m_tree := m_tree m;
     m_planned := m_planned m; m_fields := m_fields m; m_status := m_status m |}.
Definition set_status (m : Mission) (st : Status) : Mission :=
  {| m_name := m_name m; m_life := m_life m; m_needs_canceled := m_needs_canceled m; m_route_rev := m_route_rev m; m_tree := m_tree m;
     m_planned := m_planned m; m_fields := m_fields m; m_status := st |}.
Definition set_spec (m : Mission) (rev : N) (tree : list Node) (planned : option Z) (fields : Fields) (st : Status) : Mission :=
  {| m_name := m_name m; m_life := m_life m; m_needs_canceled := m_needs_canceled m; m_route_rev := rev; m_tree := tree;
     m_planned := planned; m_fields := fields; m_status := st |}.
Definition with_nodes (st : Status) (applied : N) (nodes : list (string * MissionStateV1)) (tasks : list (string * nat)) : Status :=
  {| st_state := st_state st; st_started := st_started st; st_run_id := st_run_id st; st_order_rev := st_order_rev st;
     st_applied_rev := applied; st_held := st_held st; st_nodes := nodes; st_tasks := tasks |}.

(** ** Edits *)

(** The node statuses of an edited tree: known names keep theirs *)
Definition edited_status (old : list (string * MissionStateV1)) (tree : list Node) : list (string * MissionStateV1) :=
  foldl (fun d n => dset d n (default PENDING (dget old n))) [] ("root" :: (n_name <$> tree)).

(** [_apply_spec_edit]; also whether an edit of a dispatched mission was ignored *)
Definition apply_spec_edit (target message : Mission) (dispatched : bool) : Mission * bool :=
  let reroute_pending := dispatched && (st_applied_rev (m_status target) <? m_route_rev message)%N in
  let tree_changed := negb (bool_decide (m_tree target = m_tree message)) && negb reroute_pending in
  let planned_changed := negb (bool_decide (m_planned target = m_planned message)) && negb reroute_pending in
  let fields_changed := negb (bool_decide (m_fields target = m_fields message)) in
  let rev := if dispatched then m_route_rev target else m_route_rev message in
  let target := set_spec target rev (m_tree target) (m_planned target) (m_fields target) (m_status target) in
  if negb (tree_changed || planned_changed || fields_changed) then (target, false)
  else if dispatched then (target, true)
  else
    let st := m_status target in
    let st := if tree_changed then with_nodes st (st_applied_rev st) (edited_status (st_nodes st) (m_tree message)) (st_tasks st) else st in
    (set_spec target rev (m_tree message) (m_planned message) (m_fields message) st, false).

(** ** Reroutes *)

Inductive Failure := AttributeError | KeyError.

(** The inner loop: the node of that name takes a route with other waypoints; [None] if none does *)
Fixpoint replace_route (new : Node) (tree : list Node) : result Failure (option (list Node)) :=
  match tree with
  | [] => Ok None
  | n :: tree =>
      let next := match replace_route new tree with Ok (Some t) => Ok (Some (n :: t)) | r => r end in
      if bool_decide (n_name n = n_name new) then
        match n_route new with
        | None => next
        | Some route =>
            match n_route n with
            | None => Raise AttributeError
            | Some old => if bool_decide (waypoints old = waypoints route) then next
                          else Ok (Some ({| n_name := n_name n; n_route := Some route |} :: tree))
            end
        end
      else next
  end.

(** One node of the row: the tree, the tasks and whether the running node was changed *)
Definition reroute_node (nodes : list (string * MissionStateV1)) (acc : list Node * list (string * nat) * bool) (new : Node) :
    result Failure (list Node * list (string * nat) * bool) :=
  let '(tree, tasks, cancel) := acc in
  match replace_route new tree with
  | Raise e => Raise e
  | Ok None => Ok acc
  | Ok (Some tree) =>
      match dget nodes (n_name new) with
      | None => Raise KeyError
      | Some st => Ok (tree, ddel tasks (n_name new), cancel || bool_decide (st = RUNNING))
      end
  end.
(** [_update_mission_from_api]; [running]: the mission is the current one and its tree is built *)
Definition update_mission_from_api (mission message : Mission) (running : bool) : result Failure (Mission * bool) :=
  if negb (bool_decide (m_needs_canceled mission = m_needs_canceled message)) then
    Ok (set_flags mission (m_life mission) (m_needs_canceled message), false)
  else if negb (bool_decide (m_life mission = m_life message)) then
    Ok (set_flags mission (m_life message) (m_needs_canceled mission), false)
  else if running && (st_applied_rev (m_status mission) <? m_route_rev message)%N then
    let st := m_status mission in
    match rfold (reroute_node (st_nodes st)) (m_tree mission, st_tasks st, false) (m_tree message) with
    | Raise e => Raise e
    | Ok (tree, tasks, cancel) =>
        Ok (set_spec mission (m_route_rev message) tree (m_planned message) (m_fields mission)
              (with_nodes st (m_route_rev message) (st_nodes st) tasks), cancel)
    end
  else Ok (mission, false).

(** [_settle_route_rev]: the stored tree is the one the mission is about to be sent from *)
Definition settle_route_rev (mission : Mission) : Mission :=
  let st := m_status mission in
  let nodes := if st_started st && negb (m_needs_canceled mission)
               then dmapv (fun s => if bool_decide (s = CANCELED) then PENDING else s) (st_nodes st) else st_nodes st in
  let mission := set_status mission (with_nodes st (st_applied_rev st) nodes (st_tasks st)) in
  if (m_route_rev mission <=? st_applied_rev st)%N then mission
  else
    let unfinished name := match dget nodes name with Some s => negb (done_state s) | None => false end in
    set_status mission (with_nodes st (m_route_rev mission) nodes (List.filter (fun t => negb (unfinished t.1)) (st_tasks st))).

(** ** A reroute is acted on once *)

(** What a tree tells the robot: the names and waypoints of its nodes *)
Definition routes (tree : list Node) : list (string * option (list Z)) := (fun n => (n_name n, waypoints <$> n_route n)) <$> tree.

(** Two trees of one mission: the same nodes, and routes in the same places (a reroute changes the routes only) *)
Definition same_nodes (t u : list Node) : Prop := Forall2 (fun a b => n_name a = n_name b /\ (is_Some (n_route a) <-> is_Some (n_route b))) t u.

#[export] Instance same_nodes_equiv : Equivalence same_nodes.
Proof.
  split.
  - intros t. apply Forall_Forall2_diag, Forall_forall. tauto.
  - intros t u H. apply Forall2_flip. eapply Forall2_impl; [exact H|]. unfold flip. naive_solver.
  - intros t u v H1. revert v. induction H1 as [|a b t u [E1 E2] _ IH]; intros v H2; inversion H2 as [|? c ? ? [E3 E4] H3]; subst; constructor; [|by apply IH].
    split; [congruence|tauto].
Qed.

(** The nodes of [tree] a row with the nodes [new] changes *)
Definition changes (n new : Node) : bool :=
  match n_route new, n_route n with Some r, Some old => negb (bool_decide (waypoints old = waypoints r)) | _, _ => false end.
Definition rerouted (n new : Node) : Node := if changes n new then {| n_name := n_name n; n_route := n_route new |} else n.

Lemma replace_none new tree : n_name new ∉ (n_name <$> tree) -> replace_route new tree = Ok None.
Proof.
  induction tree as [|n tree IH]; intros Hn; cbn; [done|]. rewrite bool_decide_false by (intros E; apply Hn; rewrite <-E; set_solver). by rewrite IH by set_solver.
Qed.

Lemma replace_here pre n suf new : NoDup (n_name <$> pre ++ n :: suf) -> n_name n = n_name new -> (is_Some (n_route n) <-> is_Some (n_route new)) ->
  replace_route new (pre ++ n :: suf) = Ok (if changes n new then Some (pre ++ rerouted n new :: suf) else None).
Proof.
  intros Hnd Hn Hr. induction pre as [|p pre IH]; cbn.
  - cbn in Hnd. apply NoDup_cons in Hnd as [Hnd _]. rewrite bool_decide_true by done. unfold rerouted, changes.
    destruct (n_route new) as [r|] eqn:Er, (n_route n) as [o|] eqn:Eo; try naive_solver.
    + case_bool_decide; cbn; [|done]. by rewrite replace_none by (by rewrite <-Hn).
    + by rewrite replace_none by (by rewrite <-Hn).
  - cbn in Hnd. apply NoDup_cons in Hnd as [Hp Hnd]. rewrite bool_decide_false.
    + rewrite IH by done. by destruct (changes n new).
    + intros E. apply Hp. rewrite E, <-Hn. rewrite fmap_app. cbn. set_solver.
Qed.

Lemma rerouted_name n new : n_name (rerouted n new) = n_name n.
Proof. unfold rerouted. by destruct (changes n new). Qed.
Lemma rerouted_routes n new : n_name n = n_name new -> (is_Some (n_route n) <-> is_Some (n_route new)) ->
  (n_name (rerouted n new), waypoints <$> n_route (rerouted n new)) = (n_name new, waypoints <$> n_route new).
Proof.
  intros Hn Hr. rewrite rerouted_name, Hn. f_equal. unfold rerouted, changes. destruct (n_route new) as [r|] eqn:Er, (n_route n) as [o|] eqn:Eo; try naive_solver.
  case_bool_decide; cbn; [rewrite Eo; cbn; congruence|done].
Qed.

(** All nodes of a row *)
Lemma reroute_all nodes pre suf new tasks cancel : same_nodes suf new -> NoDup (n_name <$> pre ++ suf) ->
  Forall (fun n => is_Some (dget nodes (n_name n))) new ->
  rfold (reroute_node nodes) (pre ++ suf, tasks, cancel) new
    = Ok (pre ++ zip_with rerouted suf new, foldl (fun d x => if changes x.1 x.2 then ddel d (n_name x.2) else d) tasks (zip suf new), cancel || existsb (fun x => changes x.1 x.2 && bool_decide (dget nodes (n_name x.2) = Some RUNNING)) (zip suf new)).
Proof.
  intros Hs. revert pre tasks cancel. induction Hs as [|n new' suf new [Hn Hr] Hs IH]; intros pre tasks cancel Hnd Hk; cbn.
  - by rewrite orb_false_r.
  - apply Forall_cons in Hk as [[st Hst] Hk]. rewrite replace_here by done.
    assert (Hnd' : NoDup (n_name <$> (pre ++ [rerouted n new']) ++ suf)) by (rewrite <-app_assoc; rewrite !fmap_app in *; cbn in *; by rewrite rerouted_name).
    destruct (changes n new') eqn:Ec; cbn; [rewrite Hst; cbn|].
    + pose proof (IH (pre ++ [rerouted n new']) (ddel tasks (n_name new')) (cancel || bool_decide (st = RUNNING)) Hnd' Hk) as E.
      rewrite <-!app_assoc in E. cbn in E. rewrite E. do 2 f_equal. rewrite <-orb_assoc. do 2 f_equal.
      apply bool_decide_ext. split; [intros ->; done|congruence].
    + assert (Er : rerouted n new' = n) by (unfold rerouted; by rewrite Ec). rewrite Er in *.
      pose proof (IH (pre ++ [n]) tasks cancel Hnd' Hk) as E. rewrite <-!app_assoc in E. cbn in E. by rewrite E.
Qed.

(** A dispatched mission: its nodes have distinct names and a status each *)
Definition dispatched_ok (m : Mission) : Prop :=
  NoDup (n_name <$> m_tree m) /\ Forall (fun n => is_Some (dget (st_nodes (m_status m)) (n_name n))) (m_tree m).

(** A row of the mission: only the routes, their revision and the path may differ *)
Definition row_for (m row : Mission) : Prop :=
  m_needs_canceled m = m_needs_canceled row /\ m_life m = m_life row /\ same_nodes (m_tree m) (m_tree row).

Lemma zip_routes t u : same_nodes t u -> routes (zip_with rerouted t u) = routes u.
Proof. induction 1 as [|a b t u [Hn Hr] _ IH]; cbn; [done|]. f_equal; [by apply rerouted_routes|exact IH]. Qed.
Lemma zip_same t u : same_nodes t u -> same_nodes (zip_with rerouted t u) u.
Proof.
  induction 1 as [|a b t u [Hn Hr] _ IH]; cbn; constructor; [|done]. pose proof (rerouted_routes a b Hn Hr) as E. injection E as E1 E2. split; [done|].
  destruct (n_route (rerouted a b)), (n_route b); naive_solver.
Qed.
Lemma same_names t u : same_nodes t u -> n_name <$> t = n_name <$> u.
Proof. induction 1 as [|a b t u [Hn _] _ IH]; cbn; [done|]. by rewrite Hn, IH. Qed.
Lemma Forall_names (P : string -> Prop) t u : same_nodes t u -> Forall (fun n => P (n_name n)) t -> Forall (fun n => P (n_name n)) u.
Proof. induction 1 as [|a b t u [Hn _] _ IH]; intros HP; [done|]. apply Forall_cons in HP as [? ?]. constructor; [by rewrite <-Hn|auto]. Qed.

(** One delivery *)
Lemma deliver_once m row : dispatched_ok m -> row_for m row ->
  exists m' cancel, update_mission_from_api m row true = Ok (m', cancel)
  /\ dispatched_ok m' /\ m_life m' = m_life m /\ m_needs_canceled m' = m_needs_canceled m /\ same_nodes (m_tree m) (m_tree m')
  /\ st_applied_rev (m_status m') = N.max (st_applied_rev (m_status m)) (m_route_rev row)
  /\ routes (m_tree m') = (if (st_applied_rev (m_status m) <? m_route_rev row)%N then routes (m_tree row) else routes (m_tree m))
  /\ ((m_route_rev row <= st_applied_rev (m_status m))%N -> m' = m /\ cancel = false)
  /\ (cancel = true -> exists n new, (n, new) ∈ zip (m_tree m) (m_tree row) /\ changes n new = true /\ dget (st_nodes (m_status m)) (n_name new) = Some RUNNING).
Proof.
  intros [Hnd Hk] (H1 & H2 & H3). unfold update_mission_from_api. rewrite !bool_decide_true by done. cbn. destruct (_ <? _)%N eqn:E.
  - apply N.ltb_lt in E.
    pose proof (reroute_all (st_nodes (m_status m)) [] (m_tree m) (m_tree row) (st_tasks (m_status m)) false H3 Hnd
      (Forall_names (fun x => is_Some (dget (st_nodes (m_status m)) x)) _ _ H3 Hk)) as R. rewrite !app_nil_l in R. rewrite R. cbn.
    do 2 eexists. split; [reflexivity|]. pose proof (zip_same _ _ H3) as Hz. cbn. split_and!; [|done|done| |lia| |lia|].
    + split; cbn.
      * rewrite (same_names _ _ Hz), <-(same_names _ _ H3). done.
      * eapply (Forall_names (fun x => is_Some (dget (st_nodes (m_status m)) x))); [|exact Hk]. etrans; [exact H3|by symmetry].
    + etrans; [exact H3|by symmetry].
    + by apply zip_routes.
    + intros Hx. apply List.existsb_exists in Hx as ([n new] & Hin & [Hc Hr]%andb_true_iff). exists n, new. split; [by apply list_elem_of_In|]. split; [done|by apply bool_decide_eq_true in Hr].
  - apply N.ltb_ge in E. exists m, false. split_and!; try done; try reflexivity. lia.
Qed.

Fixpoint deliver (m : Mission) (rows : list Mission) : result Failure (Mission * list bool) :=
  match rows with
  | [] => Ok (m, [])
  | row :: rows =>
      match update_mission_from_api m row true with
      | Raise e => Raise e
      | Ok (m', cancel) => match deliver m' rows with Ok (m'', cs) => Ok (m'', cancel :: cs) | Raise e => Raise e end
      end
  end.

(** C27: the rows of a rerouted mission that is being driven may be delivered in any order and any number of times: no
    delivery fails, the dispatcher ends up with exactly the waypoints of the newest revision delivered, and no delivery
    of a revision it has acted on changes anything or cancels the running node. *)
Theorem reroute_acted_once (tree_at : N -> list Node) (m : Mission) (rows : list Mission) :
  dispatched_ok m -> routes (m_tree m) = routes (tree_at (st_applied_rev (m_status m))) ->
  Forall (fun row => row_for m row /\ m_tree row = tree_at (m_route_rev row)) rows ->
  exists m' cancels, deliver m rows = Ok (m', cancels)
  /\ let newest := foldl N.max (st_applied_rev (m_status m)) (m_route_rev <$> rows) in
     st_applied_rev (m_status m') = newest /\ routes (m_tree m') = routes (tree_at newest)
     /\ forall row, (m_route_rev row <= newest)%N -> row_for m' row -> update_mission_from_api m' row true = Ok (m', false).
Proof.
  intros Hm Ht Hrows. cbv zeta. revert m Hm Ht Hrows. induction rows as [|row rows IH]; intros m Hm Ht Hrows; cbn.
  - do 2 eexists. split; [done|]. split; [done|]. split; [done|]. intros row Hr Hf.
    destruct (deliver_once m row Hm Hf) as (m' & c & -> & _ & _ & _ & _ & _ & _ & H & _). by destruct (H Hr) as [-> ->].
  - apply Forall_cons in Hrows as [[Hf Hrow] Hrows]. destruct (deliver_once m row Hm Hf) as (m' & c & -> & Hm' & Hl & Hc & Hs & Ha & Hro & _).
    destruct (IH m') as (m'' & cs & -> & H1 & H2 & H3).
    + done.
    + rewrite Hro, Ha. destruct (_ <? _)%N eqn:E; [apply N.ltb_lt in E; by rewrite N.max_r, Hrow by lia|apply N.ltb_ge in E; by rewrite N.max_l by lia].
    + eapply Forall_impl; [exact Hrows|]. cbn. intros r [(R1 & R2 & R3) R4]. split; [|done]. split; [congruence|]. split; [congruence|]. etrans; [by symmetry|exact R3].
    + do 2 eexists. split; [done|]. rewrite <-Ha. done.
Qed.

Definition route_of (l : list Z) : option Route := Some {| waypoints := l; trajectory := [] |}.
Definition example_tree (rev : N) : list Node :=
  [{| n_name := "a"; n_route := route_of [1; Z.of_N rev] |}; {| n_name := "wait"; n_route := None |}; {| n_name := "b"; n_route := route_of [2] |}]%Z.
Definition example_mission (rev applied : N) : Mission := {|
  m_name := "m1"; m_life := ALIVE; m_needs_canceled := false; m_route_rev := rev; m_tree := example_tree rev; m_planned := None;
  m_fields := {| f_robot := "amr"; f_rest := [] |};
  m_status := {| st_state := RUNNING; st_started := true; st_run_id := true; st_order_rev := 0; st_applied_rev := applied; st_held := None;
    st_nodes := [("root", RUNNING); ("a", RUNNING); ("wait", PENDING); ("b", PENDING)]; st_tasks := [("a", 1%nat)] |} |}.

Lemma example_same r q : same_nodes (example_tree r) (example_tree q).
Proof. repeat (apply Forall2_cons; split; [split; [done|cbn; rewrite ?is_Some_alt; done]|]). constructor. Qed.

Lemma reroute_acted_once_witness :
  (exists m', deliver (example_mission 0 0) [example_mission 2 0; example_mission 1 0; example_mission 2 0] = Ok (m', [true; false; false]))
  /\ exists m' cancels, deliver (example_mission 0 0) [example_mission 2 0; example_mission 1 0; example_mission 2 0] = Ok (m', cancels)
     /\ routes (m_tree m') = routes (example_tree 2).
Proof.
  split; [eexists; vm_compute; reflexivity|].
  destruct (reroute_acted_once example_tree (example_mission 0 0) [example_mission 2 0; example_mission 1 0; example_mission 2 0]) as (m' & cs & E & _ & Hr & _).
  - split; [|repeat constructor; by eexists]. vm_compute. repeat constructor; intros H; repeat (apply elem_of_cons in H as [H|H]; [discriminate H|]); by apply elem_of_nil in H.
  - reflexivity.
  - repeat (apply Forall_cons; split; [split; [split; [done|split; [done|apply example_same]]|done]|]). constructor.
  - exists m', cs. split; [exact E|exact Hr].
Defined.

(** ** A mission that has not been sent *)

(** A mission that has not been dispatched takes every field of the edited row, the reroutes included, with the
    status of the nodes it keeps; when its sending starts the revision of that tree counts as acted on, so that no later
    delivery of the same row is taken for a reroute. *)
Theorem edit_before_dispatch (m row : Mission) :
  m_needs_canceled m = m_needs_canceled row -> m_life m = m_life row ->
  let edited := (apply_spec_edit m row false).1 in
  let started := settle_route_rev edited in
  (apply_spec_edit m row false).2 = false
  /\ m_tree started = m_tree row /\ m_planned started = m_planned row /\ m_fields started = m_fields row /\ m_route_rev started = m_route_rev row
  /\ update_mission_from_api started row true = Ok (started, false).
Proof.
  intros H1 H2. cbv zeta.
  assert (He : (apply_spec_edit m row false).2 = false /\ let e := (apply_spec_edit m row false).1 in m_tree e = m_tree row /\ m_planned e = m_planned row
    /\ m_fields e = m_fields row /\ m_route_rev e = m_route_rev row /\ m_needs_canceled e = m_needs_canceled m /\ m_life e = m_life m).
  { unfold apply_spec_edit. cbn. do 3 case_bool_decide; cbn; split_and!; done. }
  destruct He as (He & E1 & E2 & E3 & E4 & E5 & E6). generalize dependent ((apply_spec_edit m row false).1). intros e E1 E2 E3 E4 E5 E6.
  split; [done|]. unfold settle_route_rev, update_mission_from_api. cbn.
  destruct (m_route_rev e <=? st_applied_rev (m_status e))%N eqn:Er; cbn; (split_and!; [done|done|done|done|]);
    rewrite !bool_decide_true by congruence; cbn; rewrite <-E4, ?N.ltb_irrefl; [|done].
  apply N.leb_le in Er. by rewrite (proj2 (N.ltb_ge _ _) Er).
Qed.

Lemma edit_before_dispatch_witness :
  let edited := (apply_spec_edit (example_mission 0 0) (example_mission 3 0) false).1 in
  m_tree (settle_route_rev edited) = example_tree 3 /\ update_mission_from_api (settle_route_rev edited) (example_mission 3 0) true = Ok (settle_route_rev edited, false).
Proof.
  destruct (edit_before_dispatch (example_mission 0 0) (example_mission 3 0) eq_refl eq_refl) as (_ & H1 & _ & _ & _ & H2). by split.
Defined.
