(* ===== verification/MissionControl.v ===== *)
(** * Which mission a robot runs

    packages/controllers/mission/server.py: the queue of a robot's controller, and how a mission is picked, held, started,
    retried, cancelled before its first order, moved away, and followed by the next one ([_try_start_mission],
    [_retry_stalled_start], [_cancel_before_dispatch], [get_next_mission], [post_mission_completion], [_on_mission_change],
    [_on_robot_change] and the part of [_on_client_message] that starts missions). The message loop handles one message at
    a time; an exception that escapes a handler leaves the state as it was left. What the other components decide is an
    argument of the step: whether planning or sending raises, whether the run id is stored, whether the tree is built or
    already finished, whether another pass starts (Runs.v), whether the message ends the mission (StateMessage.v,
    MissionQueue.v) and which mission's order the robot reports. Of an ended mission's status only the state is set. The
    cancelOrders of a mission that ends on its own (a failure, the timeout, a deleted robot) are in InstantActions.v and
    MissionQueue.v; what a row whose nodes do not match the mission's leaves behind when it raises is left out. *)

From S2P Require Import Prelude PyDict Mission Reroute.
Local Open Scope string_scope.
Local Open Scope list_scope.

(** ** State *)

Record Robot := { r_life : Lifecycle; r_online : bool; r_errors : list string }.

(** What the robot's last state says it executes: an order of the current run of a mission, something else or nothing, or no
    state yet *)
Inductive Reported := Unknown | Elsewhere | Runs (n : string).

(** What goes out: the first order of a run, the order of its next pass, a cancelOrder; and the end of a mission *)
Inductive Act := OrderSent (n : string) | PassSent (n : string) | CancelSent (n : string) (replace : bool) | Ended (n : string) (st : MissionStateV1).
#[export] Instance Act_eq_dec : EqDecision Act.
Proof. solve_decision. Defined.

Record Ctl := {
  missions : list (string * Mission); current : option string; tree : bool; robot : option Robot; finished : list (string * unit);
  resume_pending : bool; start_attempts : nat; retry_at : Z; waiting : bool; reported : Reported; outstanding : bool; deferred : bool;
  stopped : bool; log : list Act;
}.

Definition set_missions (ms : list (string * Mission)) (s : Ctl) : Ctl :=
  {| missions := ms; current := current s; tree := tree s; robot := robot s; finished := finished s; resume_pending := resume_pending s;
     start_attempts := start_attempts s; retry_at := retry_at s; waiting := waiting s; reported := reported s; outstanding := outstanding s;
     deferred := deferred s; stopped := stopped s; log := log s |}.
Definition set_current (c : option string) (t : bool) (s : Ctl) : Ctl :=
  {| missions := missions s; current := c; tree := t; robot := robot s; finished := finished s; resume_pending := resume_pending s;
     start_attempts := start_attempts s; retry_at := retry_at s; waiting := waiting s; reported := reported s; outstanding := outstanding s;
     deferred := deferred s; stopped := stopped s; log := log s |}.
Definition set_robot (r : option Robot) (rep : Reported) (s : Ctl) : Ctl :=
  {| missions := missions s; current := current s; tree := tree s; robot := r; finished := finished s; resume_pending := resume_pending s;
     start_attempts := start_attempts s; retry_at := retry_at s; waiting := waiting s; reported := rep; outstanding := outstanding s;
     deferred := deferred s; stopped := stopped s; log := log s |}.
Definition set_start (resume : bool) (attempts : nat) (at_ : Z) (s : Ctl) : Ctl :=
  {| missions := missions s; current := current s; tree := tree s; robot := robot s; finished := finished s; resume_pending := resume;
     start_attempts := attempts; retry_at := at_; waiting := waiting s; reported := reported s; outstanding := outstanding s;
     deferred := deferred s; stopped := stopped s; log := log s |}.
Definition set_orders (wait out defer stop : bool) (s : Ctl) : Ctl :=
  {| missions := missions s; current := current s; tree := tree s; robot := robot s; finished := finished s; resume_pending := resume_pending s;
     start_attempts := start_attempts s; retry_at := retry_at s; waiting := wait; reported := reported s; outstanding := out;
     deferred := defer; stopped := stop; log := log s |}.
Definition set_finished (f : list (string * unit)) (s : Ctl) : Ctl :=
  {| missions := missions s; current := current s; tree := tree s; robot := robot s; finished := f; resume_pending := resume_pending s;
     start_attempts := start_attempts s; retry_at := retry_at s; waiting := waiting s; reported := reported s; outstanding := outstanding s;
     deferred := deferred s; stopped := stopped s; log := log s |}.
Definition act (a : Act) (s : Ctl) : Ctl :=
  {| missions := missions s; current := current s; tree := tree s; robot := robot s; finished := finished s; resume_pending := resume_pending s;
     start_attempts := start_attempts s; retry_at := retry_at s; waiting := waiting s; reported := reported s; outstanding := outstanding s;
     deferred := deferred s; stopped := stopped s; log := log s ++ [a] |}.

(** The status with another state, hold reason, run id or start *)
Definition with_state (m : Mission) (st : MissionStateV1) : Mission :=
  let x := m_status m in
  set_status m {| st_state := st; st_started := st_started x; st_run_id := st_run_id x; st_order_rev := st_order_rev x;
                  st_applied_rev := st_applied_rev x; st_held := st_held x; st_nodes := st_nodes x; st_tasks := st_tasks x |}.
Definition with_held (m : Mission) (h : option string) : Mission :=
  let x := m_status m in
  set_status m {| st_state := st_state x; st_started := st_started x; st_run_id := st_run_id x; st_order_rev := st_order_rev x;
                  st_applied_rev := st_applied_rev x; st_held := h; st_nodes := st_nodes x; st_tasks := st_tasks x |}.
Definition with_run_id (m : Mission) : Mission :=
  let x := m_status m in
  set_status m {| st_state := st_state x; st_started := st_started x; st_run_id := true; st_order_rev := st_order_rev x;
                  st_applied_rev := st_applied_rev x; st_held := st_held x; st_nodes := st_nodes x; st_tasks := st_tasks x |}.
Definition with_start (m : Mission) (st : MissionStateV1) : Mission :=
  let x := m_status m in
  set_status m {| st_state := st; st_started := true; st_run_id := st_run_id x; st_order_rev := st_order_rev x;
                  st_applied_rev := st_applied_rev x; st_held := st_held x; st_nodes := st_nodes x; st_tasks := st_tasks x |}.

(** What the rest of the controller does when a mission is started *)
Record Env := {
  plan_raises : bool;     (* replanning or enriching the routes *)
  stores_run_id : bool;   (* the write of a new run id *)
  builds_tree : bool;
  tree_done : option bool; (* every node was done before a restart: completed, or failed *)
  send_raises : bool;     (* sending the first order of a run *)
  delete_raises : bool;   (* deleting the row of an ended mission that is to be deleted *)
  next_pass : bool;       (* a completed mission has another pass, and it starts *)
  goes_offline : bool;    (* the robot's heartbeat timer fires while the start awaits *)
}.

(** [_check_robot_online], for a robot that is known *)
Definition go_offline (s : Ctl) : Ctl :=
  match robot s with Some r => set_robot (Some {| r_life := r_life r; r_online := false; r_errors := r_errors r |}) (reported s) s | None => s end.

Section control.
Context (self : string) (MAX_START_ATTEMPTS : nat) (START_RETRY : Z) (MAX_FINISHED : nat).

Definition robot_alive (s : Ctl) : bool := match robot s with Some r => bool_decide (r_life r = ALIVE) | None => false end.

(** [READINESS_HOLD_REASONS] *)
Definition NAV_NOT_READY : string := "Robot navigation is not ready".
Definition READINESS_HOLD_REASONS : list (string * string) :=
  [("robotBaseNotReadyError", "Robot base is not responding"); ("relocalizationMapRejectedError", "Robot refused its relocalization map");
   ("relocalizationNotReadyError", "Robot is relocalizing"); ("navigationNotReadyError", NAV_NOT_READY); ("poseHealthNotReadyError", NAV_NOT_READY);
   ("tfChainNotReadyError", NAV_NOT_READY); ("operatorTakeover", "An operator has taken over the robot")].

(** [_dispatch_hold_reason] *)
Definition hold_of (r : option Robot) : option string :=
  match r with
  | None => Some "Robot is offline"
  | Some r => if negb (r_online r) then Some "Robot is offline"
              else snd <$> find_first (fun x => bool_decide (x.1 ∈ r_errors r)) READINESS_HOLD_REASONS
  end.
Definition dispatch_hold_reason (s : Ctl) : option string := hold_of (robot s).

(** The choice of [_try_start_mission]: a mission that already started goes first; nothing of the last one's orders is kept. *)
Definition pick (s : Ctl) : Ctl :=
  match current s, missions s with
  | None, (n0, _) :: _ =>
      if robot_alive s then
        let n := match find_first (fun x => st_started (m_status x.2)) (missions s) with Some x => x.1 | None => n0 end in
        set_orders (waiting s) false false (stopped s) (set_start false 0 (retry_at s) (set_current (Some n) false s))
      else s
  | _, _ => s
  end.

(** [_order_may_be_on_robot] *)
Definition order_may_be_on_robot (m : Mission) : bool :=
  st_started (m_status m) || st_run_id (m_status m) || (0 <? st_order_rev (m_status m))%N.

(** [_cancel_before_dispatch] up to [get_next_mission]; whether the mission ended *)
Definition cancel_before_dispatch (n : string) (m : Mission) (s : Ctl) : Ctl * bool :=
  let end_it := (act (Ended n CANCELED) (set_missions (dset (missions s) n (with_state m CANCELED)) s), true) in
  if order_may_be_on_robot m then
    if outstanding s then (s, false)
    else
      match reported s with
      | Unknown => (s, false)
      | Runs r =>
          if bool_decide (r = n) then
            if match robot s with Some x => r_online x | None => false end
            then (set_orders (waiting s) true (deferred s) (stopped s) (act (CancelSent n false) s), false)
            else (s, false)
          else end_it
      | Elsewhere => end_it
      end
  else end_it.

(** [_fail_missions_of_deleted_robot] and [_delete_robot_object] *)
Definition delete_robot (s : Ctl) : Ctl :=
  let fail (x : string * Mission) := (x.1, if done_state (st_state (m_status x.2)) then x.2 else with_state x.2 FAILED) in
  let s' := set_missions (fail <$> missions s) s in
  set_orders (waiting s) (outstanding s) (deferred s) true
    (set_robot (match robot s with Some r => Some {| r_life := DELETED; r_online := r_online r; r_errors := r_errors r |} | None => None end) (reported s) s').

(** [_remember_finished] *)
Definition remember_finished (f : list (string * unit)) (n : string) : list (string * unit) := evict MAX_FINISHED (dmove_to_end (dset f n ()) n).

(** [get_next_mission], given what starts the next one; the second component says that an exception escaped *)
Definition get_next_mission (try_start : Ctl -> Ctl * bool) (env : string -> Env) (s : Ctl) : Ctl * bool :=
  match current s with
  | None => (s, false)
  | Some n =>
      match dget (missions s) n with
      | None => (s, true)
      | Some m =>
          if bool_decide (st_state (m_status m) = COMPLETED) && negb (m_needs_canceled m) && bool_decide (m_life m = ALIVE) && next_pass (env n)
          then                                                                               (* another run id *)
            let s := set_orders false false false (stopped s) (set_current (Some n) true (set_missions (dset (missions s) n (with_start m RUNNING)) s)) in
            if send_raises (env n) then (s, true) else (act (PassSent n) s, false)
          else
            let s' := set_finished (remember_finished (finished s) n) (set_orders false (outstanding s) (deferred s) (stopped s)
                        (set_current None (tree s) (set_missions (ddel (missions s) n) s))) in
            match robot s' with
            | Some r => if bool_decide (r_life r = PENDING_DELETE) then (delete_robot s', false) else try_start s'
            | None => try_start s'
            end
      end
  end.

(** [post_mission_completion] of the mission [m], called [n] *)
Definition post_mission_completion (next : Ctl -> Ctl * bool) (env : string -> Env) (n : string) (m : Mission) (s : Ctl) : Ctl * bool :=
  if bool_decide (m_life m = PENDING_DELETE) && delete_raises (env n) then (s, true) else next s.

(** [_try_start_mission]; the awaits after the check for a hold let the timer of the robot's heartbeat run, no other message; each turn that ends a mission takes it out of the queue, so one more turn than missions is enough. *)
Fixpoint try_start (fuel : nat) (env : string -> Env) (s : Ctl) : Ctl * bool :=
  match fuel with
  | O => (s, false)
  | S fuel =>
      let s := pick s in
      match current s with
      | None => (s, false)
      | Some n =>
          if negb (robot_alive s) then (s, false)
          else
            match dget (missions s) n with
            | None => (s, true)
            | Some m =>
                let next := get_next_mission (try_start fuel env) env in
                if m_needs_canceled m then
                  let '(s', ended) := cancel_before_dispatch n m s in if ended then next s' else (s', false)
                else
                  match dispatch_hold_reason s with
                  | Some reason => (set_missions (dset (missions s) n (with_held m (Some reason))) s, false)
                  | None =>
                      let s := if goes_offline (env n) then go_offline s else s in
                      let resumed := st_started (m_status m) in
                      let m := settle_route_rev (with_held m None) in
                      let s := set_missions (dset (missions s) n m) s in
                      if plan_raises (env n) then (s, true)
                      else if negb (st_run_id (m_status m) || st_started (m_status m)) && negb (stores_run_id (env n)) then (s, false)
                      else
                        let m := if st_run_id (m_status m) || st_started (m_status m) then m else with_run_id m in
                        if negb (builds_tree (env n)) then
                          next (act (Ended n FAILED) (set_current (Some n) true (set_missions (dset (missions s) n (with_state m FAILED)) s)))
                        else
                          match tree_done (env n) with
                          | Some completed =>
                              let st := if completed then COMPLETED else FAILED in
                              post_mission_completion next env n m
                                (act (Ended n st) (set_current (Some n) true (set_missions (dset (missions s) n (with_start m st)) s)))
                          | None =>
                              let s := set_current (Some n) true (set_missions (dset (missions s) n (with_start m RUNNING)) s) in
                              if resumed then (set_start true (start_attempts s) (retry_at s) s, false)
                              else if send_raises (env n) then (s, true)
                              else (act (OrderSent n) s, false)
                          end
                  end
            end
      end
  end.
Definition start (env : string -> Env) (s : Ctl) : Ctl * bool := try_start (S (length (missions s))) env s.
Definition next_mission (env : string -> Env) (s : Ctl) : Ctl * bool := get_next_mission (start env) env s.

(** [_retry_stalled_start] *)
Definition retry_stalled_start (env : string -> Env) (now : Z) (s : Ctl) : Ctl :=
  let due := match current s with
             | None => match missions s with [] => false | _ => true end
             | Some n => match dget (missions s) n with
                         | Some m => negb (tree s || bool_decide (is_Some (st_held (m_status m))) || done_state (st_state (m_status m)))
                         | None => false
                         end
             end in
  if negb due || (now <? retry_at s)%Z then s
  else
    let '(s, raised) := start env (set_start (resume_pending s) (start_attempts s) (now + START_RETRY)%Z s) in
    if raised then
      let s := set_start (resume_pending s) (S (start_attempts s)) (retry_at s) s in
      match current s with
      | Some n =>
          if bool_decide (MAX_START_ATTEMPTS <= start_attempts s) then
            match dget (missions s) n with
            | Some m => (post_mission_completion (next_mission env) env n m
                           (act (Ended n FAILED) (set_missions (dset (missions s) n (with_state m FAILED)) s))).1
            | None => s
            end
          else s
      | None => s
      end
    else s.

(** [_on_mission_change] on a name not in the queue *)
Definition new_mission (env : string -> Env) (msg : Mission) (s : Ctl) : Ctl * bool :=
  let n := m_name msg in
  let fresh := bool_decide (st_state (m_status msg) = PENDING) && negb (st_started (m_status msg)) in
  let s := if fresh then set_finished (ddel (finished s) n) s else s in
  if dmem (finished s) n || done_state (st_state (m_status msg)) then (s, false)
  else
    let ms := dset (missions s) n msg in
    let s := set_missions (if st_started (m_status msg) then (n, msg) :: ddel ms n else ms) s in
    match current s with None => start env s | Some _ => (s, false) end.

(** ... on the current mission; [wait]: a reroute's cancel must wait for the robot to report the order *)
Definition current_change (env : string -> Env) (msg m : Mission) (wait store_raises : bool) (s : Ctl) : Ctl * bool :=
  let n := m_name msg in
  let m := (apply_spec_edit m msg (tree s)).1 in
  match update_mission_from_api m msg (tree s) with
  | Raise _ => (set_missions (dset (missions s) n m) s, true)
  | Ok (m, cancel_node) =>
      let m := if bool_decide (m_life m = PENDING_DELETE) then set_flags m (m_life m) true else m in
      let s := set_missions (dset (missions s) n m) s in
      if waiting s && m_needs_canceled m then
        next_mission env (act (Ended n CANCELED) (set_missions (dset (missions s) n (with_state m CANCELED)) s))
      else if negb (tree s) && m_needs_canceled m then
        let '(s', ended) := cancel_before_dispatch n m s in
        if ended then let '(s', raised) := next_mission env s' in (s', raised || (store_raises && bool_decide (m_life msg = PENDING_DELETE)))
        else (s', false)
      else if m_needs_canceled m || cancel_node then
        if outstanding s then (s, false)
        else if negb (m_needs_canceled m) && wait then (set_orders (waiting s) (outstanding s) true (stopped s) s, false)
        else (act (CancelSent n (negb (m_needs_canceled m))) (set_orders (waiting s) true false (stopped s) s), false)
      else (s, false)
  end.

(** ... on a mission that waits in the queue *)
Definition queued_change (msg m : Mission) (store_raises : bool) (s : Ctl) : Ctl * bool :=
  let n := m_name msg in
  let m := (apply_spec_edit m msg false).1 in
  match update_mission_from_api m msg false with
  | Raise _ => (set_missions (dset (missions s) n m) s, true)
  | Ok (m, _) =>
      if bool_decide (m_life msg = PENDING_DELETE) then
        if store_raises then (set_missions (dset (missions s) n m) s, true) else (set_missions (ddel (missions s) n) s, false)
      else if m_needs_canceled msg then
        if store_raises then (set_missions (dset (missions s) n (with_state m CANCELED)) s, true)
        else (act (Ended n CANCELED) (set_missions (ddel (missions s) n) s), false)
      else (set_missions (dset (missions s) n m) s, false)
  end.

(** [_on_mission_change] *)
Definition on_mission_change (env : string -> Env) (msg : Mission) (wait store_raises : bool) (s : Ctl) : Ctl * bool :=
  let n := m_name msg in
  match dget (missions s) n with
  | None => if bool_decide (m_life msg = ALIVE) then new_mission env msg s else (set_finished (ddel (finished s) n) s, false)
  | Some m =>
      let is_current := bool_decide (current s = Some n) in
      if negb (bool_decide (f_robot (m_fields msg) = self)) && negb (is_current && tree s) then
        let s' := set_missions (ddel (missions s) n) s in
        if is_current then start env (set_current None (tree s) s') else (s', false)
      else if is_current then current_change env msg m wait store_raises s
      else queued_change msg m store_raises s
  end.

(** [_on_robot_change]: the first row, and the later ones, whose status is not taken over. The factsheet request, the
    teleoperation switch (Teleop.v) and the forced cancel (InstantActions.v) only count as what may raise. *)
Definition on_robot_change (env : string -> Env) (row : Robot) (raises : bool) (s : Ctl) : Ctl * bool :=
  match robot s with
  | None => let s := set_robot (Some row) (reported s) s in if raises then (s, true) else start env s
  | Some r =>
      if bool_decide (r_life row = PENDING_DELETE) then (delete_robot s, false)
      else if raises then (s, true)
      else (set_robot (Some {| r_life := r_life row; r_online := r_online r; r_errors := r_errors r |}) (reported s) s, false)
  end.

(** [_on_client_message]; [resolved]: the cancelOrder of the current mission was confirmed; [ends]: the message ends it *)
Definition on_state (env : string -> Env) (now : Z) (errors : list string) (rep : Reported) (resolved : bool) (ends : option MissionStateV1) (s : Ctl) : Ctl * bool :=
  let s := set_robot (match robot s with Some r => Some {| r_life := r_life r; r_online := true; r_errors := errors |} | None => None end) rep s in
  let '(s, raised) :=
    match robot s with
    | None => (s, false)
    | Some _ =>
        if match current s with
           | Some n => match dget (missions s) n with Some m => bool_decide (is_Some (st_held (m_status m))) | None => false end
           | None => false
           end
        then start env s else (retry_stalled_start env now s, false)
    end in
  if raised then (s, true)
  else
    match current s with
    | None => (s, false)
    | Some n =>
        match dget (missions s) n with
        | None => (s, true)
        | Some m =>
            let finish st := post_mission_completion (next_mission env) env n m
                               (act (Ended n st) (set_missions (dset (missions s) n (with_state m st)) s)) in
            if resolved && outstanding s && m_needs_canceled m then finish CANCELED
            else if negb (tree s) then
              if m_needs_canceled m && negb (done_state (st_state (m_status m))) then
                let '(s', ended) := cancel_before_dispatch n m s in if ended then next_mission env s' else (s', false)
              else (s, false)
            else if done_state (st_state (m_status m)) then next_mission env s
            else match ends with Some st => finish st | None => (s, false) end
        end
    end.

Inductive Label :=
| MissionRow (msg : Mission) (wait store_raises : bool)
| RobotRow (row : Robot) (raises : bool)     (* requesting the factsheet or a forced cancel raises *)
| StateMsg (now : Z) (errors : list string) (rep : Reported) (resolved : bool) (ends : option MissionStateV1)
| Offline
| Ends (st : MissionStateV1)     (* the timeout, a wait or a notification that ends the current mission *)
| Wait (w : bool).

Definition step (env : string -> Env) (l : Label) (s : Ctl) : option Ctl :=
  if stopped s then None
  else
    match l with
    | MissionRow msg wait store_raises => Some (on_mission_change env msg wait store_raises s).1
    | RobotRow row raises => Some (on_robot_change env row raises s).1
    | StateMsg now errors rep resolved ends => Some (on_state env now errors rep resolved ends s).1
    | Offline => match robot s with Some _ => Some (go_offline s) | None => None end
    | Ends st =>
        match current s with
        | Some n => match dget (missions s) n with
                    | Some m => Some (post_mission_completion (next_mission env) env n m
                                        (act (Ended n st) (set_missions (dset (missions s) n (with_state m st)) s))).1
                    | None => None
                    end
        | None => None
        end
    | Wait w => match current s with Some _ => Some (set_orders w (outstanding s) (deferred s) (stopped s) s) | None => None end
    end.
Fixpoint run (ls : list ((string -> Env) * Label)) (s : Ctl) : option Ctl :=
  match ls with
  | [] => Some s
  | (env, l) :: ls => step env l s ≫= run ls
  end.
Definition new_controller : Ctl :=
  {| missions := []; current := None; tree := false; robot := None; finished := []; resume_pending := false; start_attempts := 0; retry_at := 0;
     waiting := false; reported := Unknown; outstanding := false; deferred := false; stopped := false; log := [] |}.

(** ** The queue and the current mission *)

(** The current mission is one of the queue. *)
Definition Inv (s : Ctl) : Prop := dict_wf (missions s) /\ forall n, current s = Some n -> is_Some (dget (missions s) n).
(** A robot in service that has missions has a current one. *)
Definition Busy (s : Ctl) : Prop := Inv s /\ (current s = None -> robot_alive s = true -> missions s = []).

(** What the handlers leave alone, and what they add: no mission enters the queue on its own, and a first order goes out only
    to a robot that takes it. *)
Record Grow (s s' : Ctl) : Prop := {
  grow_retry : retry_at s' = retry_at s;
  grow_hold : dispatch_hold_reason s' = None -> dispatch_hold_reason s = None;
  grow_alive : robot_alive s' = true -> robot_alive s = true;
  grow_keys : forall n, dget (missions s) n = None -> dget (missions s') n = None;
  grow_log : exists new, log s' = log s ++ new /\ forall n, OrderSent n ∈ new -> dispatch_hold_reason s = None /\ robot_alive s = true;
}.
#[local] Instance Grow_preorder : PreOrder Grow.
Proof.
  split.
  - intros s. split; try done. exists []. split; [by rewrite app_nil_r|]. intros n H. by apply elem_of_nil in H.
  - intros s1 s2 s3 [A1 B1 C1 D1 (l1 & E1 & F1)] [A2 B2 C2 D2 (l2 & E2 & F2)]. split; try congruence; auto.
    exists (l1 ++ l2). split; [by rewrite E2, E1, app_assoc|]. intros n [H|H]%elem_of_app; [by eapply F1|]. destruct (F2 n H) as [G1 G2]. auto.
Qed.

Lemma dget_dset_none (d : list (string * Mission)) k v n : is_Some (dget d k) -> dget d n = None -> dget (dset d k v) n = None.
Proof. intros [w Hk] Hn. rewrite dget_dset. case_decide; [congruence|done]. Qed.
Lemma dget_ddel_none (d : list (string * Mission)) k n : dget d n = None -> dget (ddel d k) n = None.
Proof. intros Hn. rewrite dget_ddel. by case_decide. Qed.
Lemma grow_simple s s' : retry_at s' = retry_at s -> robot s' = robot s -> (forall n, dget (missions s) n = None -> dget (missions s') n = None) ->
  (exists new, log s' = log s ++ new /\ forall n, OrderSent n ∉ new) -> Grow s s'.
Proof.
  intros A B C (new & D & F). split; try done; unfold dispatch_hold_reason, robot_alive; rewrite ?B; try done.
  exists new. split; [done|]. intros n H. by destruct (F n).
Qed.
Lemma no_new (l : list Act) : exists new, l = l ++ new /\ forall n, OrderSent n ∉ new.
Proof. exists []. split; [by rewrite app_nil_r|]. intros n H. by apply elem_of_nil in H. Qed.
Lemma one_new (l : list Act) a : (forall n, a <> OrderSent n) -> exists new, l ++ [a] = l ++ new /\ forall n, OrderSent n ∉ new.
Proof. intros Ha. exists [a]. split; [done|]. intros n [H|H]%elem_of_cons; [by destruct (Ha n)|by apply elem_of_nil in H]. Qed.

Lemma grow_offline s : Grow s (go_offline s).
Proof.
  unfold go_offline. destruct (robot s) as [r|] eqn:E; [|reflexivity]. split; try done; unfold dispatch_hold_reason, robot_alive; cbn; try (by rewrite E).
  exists []. split; [by rewrite app_nil_r|]. intros n H. by apply elem_of_nil in H.
Qed.
Lemma offline_fields s : missions (go_offline s) = missions s /\ current (go_offline s) = current s /\ log (go_offline s) = log s /\ robot_alive (go_offline s) = robot_alive s.
Proof. unfold go_offline, robot_alive. by destruct (robot s) as [r|] eqn:E; cbn; rewrite ?E. Qed.

Ltac grow :=
  apply grow_simple; cbn; [done|done|intros; first [done|by apply dget_dset_none|by apply dget_ddel_none]|first [apply no_new|by apply one_new]].

Lemma mission_dset_length (d : list (string * Mission)) k v : is_Some (dget d k) -> length (dset d k v) = length d.
Proof.
  induction d as [|[j w] d IH]; cbn; [by intros [? ?]|]. case_bool_decide; cbn; [done|]. intros Hk. by rewrite IH.
Qed.
Lemma ddel_length (d : list (string * Mission)) k : dict_wf d -> is_Some (dget d k) -> length d = S (length (ddel d k)).
Proof. intros Hd [v Hk]. by rewrite (ddel_perm d k v Hd Hk) at 1. Qed.

Lemma inv_dset s n m : Inv s -> Inv (set_missions (dset (missions s) n m) s).
Proof.
  intros [H1 H2]. split; cbn; [by apply dict_wf_dset|]. intros k Hk. rewrite dget_dset. case_bool_decide; [by eexists|by apply H2].
Qed.
Lemma inv_current s n t : Inv s -> is_Some (dget (missions s) n) -> Inv (set_current (Some n) t s).
Proof. intros [H1 H2] Hn. split; cbn; [done|]. by intros k [= <-]. Qed.
Lemma inv_ext s s' : missions s' = missions s -> current s' = current s -> Inv s -> Inv s'.
Proof. intros E1 E2 [H1 H2]. split; [by rewrite E1|]. intros n. rewrite E1, E2. apply H2. Qed.
Lemma busy_current s n : Inv s -> current s = Some n -> Busy s.
Proof. intros H Hn. split; [done|]. by rewrite Hn. Qed.

Lemma first_mission (d : list (string * Mission)) n0 m0 d' : d = (n0, m0) :: d' -> dict_wf d ->
  is_Some (dget d (match find_first (fun x => st_started (m_status x.2)) d with Some x => x.1 | None => n0 end)).
Proof.
  intros E Hd. destruct (find_first _ d) as [[k m]|] eqn:Ef.
  - apply find_first_Some in Ef as [Hin _]. cbn. eexists. by apply dget_elem.
  - rewrite E. cbn. rewrite bool_decide_true by done. by eexists.
Qed.
Lemma pick_post s : Inv s -> Busy (pick s) /\ Grow s (pick s) /\ missions (pick s) = missions s /\ log (pick s) = log s.
Proof.
  intros H. unfold pick. destruct (current s) as [n|] eqn:Hc; [split_and!; [by eapply busy_current|reflexivity|done|done]|].
  destruct (missions s) as [|[n0 m0] d] eqn:Hm; [split_and!; [by split|reflexivity|done|done]|].
  destruct (robot_alive s) eqn:Ha; rewrite <-Hm; cycle 1.
  - split_and!; [|reflexivity|done|done]. split; [done|]. congruence.
  - split_and!; [|grow|done|done]. eapply busy_current; [|reflexivity]. split; [apply H|]. cbn. intros k [= <-]. eapply first_mission; [done|apply H].
Qed.

(** After a first order: the mission it belongs to *)
Record Ready (n : string) (s : Ctl) : Prop := {
  ready_current : current s = Some n; ready_tree : tree s = true; ready_robot : robot_alive s = true;
  ready_mission : exists m, dget (missions s) n = Some m /\ m_needs_canceled m = false /\ st_started (m_status m) = true
    /\ st_state (m_status m) = RUNNING /\ st_run_id (m_status m) = true /\ st_held (m_status m) = None;
}.
(** The outcome of starting a mission *)
Record Started (s s' : Ctl) : Prop := {
  started_busy : Busy s'; started_grow : Grow s s';
  started_ready : (exists new, log s' = log s ++ new /\ (forall n, OrderSent n ∉ new))
                  \/ (exists new n, log s' = log s ++ new ++ [OrderSent n] /\ (forall n, OrderSent n ∉ new) /\ Ready n s' /\ dispatch_hold_reason s = None);
}.
Lemma started_after s1 s2 s3 : Grow s1 s2 -> (exists new, log s2 = log s1 ++ new /\ forall n, OrderSent n ∉ new) -> Started s2 s3 -> Started s1 s3.
Proof.
  intros G (l1 & E1 & F1) [B G' H]. split; [done|by etrans|].
  destruct H as [(l2 & E2 & F2)|(l2 & n & E2 & F2 & R & Hh)]; [left; exists (l1 ++ l2)|right; exists (l1 ++ l2), n];
    rewrite E2, E1, ?app_assoc; (split; [done|]); [|split; [|split; [done|by apply G]]]; intros k [Hk|Hk]%elem_of_app; first [by eapply F1|by eapply F2].
Qed.
Lemma started_quiet s s' : Busy s' -> Grow s s' -> (exists new, log s' = log s ++ new /\ forall n, OrderSent n ∉ new) -> Started s s'.
Proof. intros B G H. split; [done|done|by left]. Qed.

Lemma delete_robot_post s : Inv s -> Busy (delete_robot s) /\ Grow s (delete_robot s) /\ log (delete_robot s) = log s.
Proof.
  intros [H1 H2]. unfold delete_robot. cbn.
  assert (Hk : forall f : Mission -> Mission, (fun x : string * Mission => (x.1, f x.2)) <$> missions s = dmapv f (missions s)) by done.
  rewrite (Hk (fun m => if done_state (st_state (m_status m)) then m else with_state m FAILED)). split_and!; [| |done].
  - split; [split; cbn|].
    + by apply dict_wf_mapv.
    + intros n Hn. rewrite dget_mapv. by apply fmap_is_Some, H2.
    + unfold robot_alive. cbn. destruct (robot s); [rewrite bool_decide_false by done|]; done.
  - split; cbn; [done| | | |].
    + unfold dispatch_hold_reason. cbn. by destruct (robot s).
    + unfold robot_alive. cbn. destruct (robot s); [rewrite bool_decide_false by done|]; done.
    + intros n Hn. by rewrite dget_mapv, Hn.
    + exists []. split; [by rewrite app_nil_r|]. intros n Hn. by apply elem_of_nil in Hn.
Qed.

(** The mission called [n] leaves the queue, given that the next one is started. *)
Lemma get_next_post ts env s n : Inv s -> current s = Some n ->
  (forall s', Inv s' -> length (missions s') < length (missions s) -> Started s' (ts s').1) -> Started s (get_next_mission ts env s).1.
Proof.
  intros H Hn Hts. unfold get_next_mission. rewrite Hn. pose proof H as [H1 H2]. destruct (H2 n Hn) as [m Hm]. rewrite Hm. destruct (_ && _) eqn:Ep; cbn.
  - assert (HB : Inv (set_current (Some n) true (set_missions (dset (missions s) n (with_start m RUNNING)) s))).
    { apply inv_current; [by apply inv_dset|]. cbn. rewrite dget_dset_eq. by eexists. }
    destruct (send_raises (env n)); cbn; (apply started_quiet; [eapply busy_current; [exact HB|done]|grow|cbn; first [apply no_new|by apply one_new]]).
  - clear Ep. set (s' := set_finished _ _). assert (HI : Inv s') by (split; cbn; [by apply dict_wf_ddel|done]).
    assert (HG : Grow s s') by (unfold s'; grow).
    assert (HS : Started s' (ts s').1) by (apply Hts; [done|]; cbn; rewrite (ddel_length _ n H1) by (by eexists); lia).
    destruct (delete_robot_post s' HI) as (B & G & L). destruct (robot s) as [r|]; [case_bool_decide|]; cbn.
    + apply started_quiet; [done|by etrans|]. rewrite L. apply no_new.
    + eapply started_after; [exact HG|apply no_new|exact HS].
    + eapply started_after; [exact HG|apply no_new|exact HS].
Qed.

Lemma ended_inv s n m t : Inv s -> Inv (set_current (Some n) t (set_missions (dset (missions s) n m) s)).
Proof. intros H. apply inv_current; [by apply inv_dset|]. cbn. rewrite dget_dset_eq. by eexists. Qed.
Lemma cancel_post n m s : Inv s -> dget (missions s) n = Some m -> current s = Some n ->
  let r := cancel_before_dispatch n m s in Inv r.1 /\ Grow s r.1 /\ current r.1 = Some n /\ length (missions r.1) = length (missions s)
  /\ exists new, log r.1 = log s ++ new /\ forall n, OrderSent n ∉ new.
Proof.
  intros H Hm Hn. assert (Hs : is_Some (dget (missions s) n)) by (by eexists).
  assert (Hend : let s' := act (Ended n CANCELED) (set_missions (dset (missions s) n (with_state m CANCELED)) s) in
    Inv s' /\ Grow s s' /\ current s' = Some n /\ length (missions s') = length (missions s) /\ exists new, log s' = log s ++ new /\ forall n, OrderSent n ∉ new).
  { cbn. split_and!; [apply (inv_dset s n _ H)|grow|done|by apply mission_dset_length|by apply one_new]. }
  assert (Hstay : Inv s /\ Grow s s /\ current s = Some n /\ length (missions s) = length (missions s) /\ exists new, log s = log s ++ new /\ forall n, OrderSent n ∉ new)
    by (split_and!; [done|reflexivity|done|done|apply no_new]).
  cbv zeta. unfold cancel_before_dispatch. destruct (order_may_be_on_robot m); [|exact Hend]. destruct (outstanding s); [exact Hstay|].
  destruct (reported s) as [| |k]; [exact Hstay|exact Hend|]. case_bool_decide; [|exact Hend]. destruct (match robot s with Some x => r_online x | None => false end); [|exact Hstay].
  cbn. split_and!; [exact H|grow|done|done|by apply one_new].
Qed.

Lemma post_completion_post next env n m s : Busy s -> Started s (next s).1 -> Started s (post_mission_completion next env n m s).1.
Proof. intros HB H. unfold post_mission_completion. destruct (_ && _); [|done]. apply started_quiet; [done|reflexivity|apply no_new]. Qed.

Lemma settle_kept m : m_needs_canceled (settle_route_rev m) = m_needs_canceled m /\ m_life (settle_route_rev m) = m_life m
  /\ st_state (m_status (settle_route_rev m)) = st_state (m_status m) /\ st_held (m_status (settle_route_rev m)) = st_held (m_status m)
  /\ st_started (m_status (settle_route_rev m)) = st_started (m_status m).
Proof. unfold settle_route_rev. by destruct (_ <=? _)%N. Qed.

(** One turn of [_try_start_mission] with the next turns given, and with its mission picked *)
Lemma turn_post fuel env s :
  (forall s', Inv s' -> length (missions s') < fuel -> Started s' (try_start fuel env s').1) ->
  Inv s -> length (missions s) < S fuel -> Started s (try_start (S fuel) env s).1.
Proof.
  intros IH H Hl. cbn [try_start]. destruct (pick_post s H) as ([HI HB] & HG & HM & HL). remember (pick s) as p eqn:Hp.
  eapply started_after; [exact HG|rewrite HL; apply no_new|]. rewrite <-HM in Hl. clear Hp HG HM HL H s. rename p into s.
  destruct (current s) as [n|] eqn:Hn; [|apply started_quiet; [split; [done|intros _; by apply HB]|reflexivity|apply no_new]]. pose proof (busy_current s n HI Hn) as HBs.
  destruct (robot_alive s) eqn:Ha; [|apply started_quiet; [done|reflexivity|apply no_new]]. cbn [negb].
  destruct (dget (missions s) n) as [m|] eqn:Hm; [|apply started_quiet; [done|reflexivity|apply no_new]].
  assert (Hs : is_Some (dget (missions s) n)) by (by eexists).
  assert (Hnext : forall s', Inv s' -> current s' = Some n -> length (missions s') = length (missions s) -> Started s' (get_next_mission (try_start fuel env) env s').1).
  { intros s' H' Hc' Hl'. eapply get_next_post; [done|done|]. intros s'' HI'' Hl''. apply IH; [done|]. lia. }
  destruct (m_needs_canceled m) eqn:Hcx.
  { destruct (cancel_post n m s HI Hm Hn) as (C1 & C2 & C3 & C4 & C5). destruct (cancel_before_dispatch n m s) as [s' ended]. cbn in *. destruct ended.
    - eapply started_after; [exact C2|exact C5|by apply Hnext].
    - apply started_quiet; [by eapply busy_current|done|done]. }
  destruct (dispatch_hold_reason s) as [reason|] eqn:Hh.
  { apply started_quiet; [eapply busy_current; [by apply inv_dset|done]|grow|apply no_new]. }
  set (sx := if goes_offline (env n) then go_offline s else s). destruct (offline_fields s) as (O1 & O2 & O3 & O4).
  assert (HGx : Grow s sx) by (unfold sx; destruct (goes_offline (env n)); [apply grow_offline|reflexivity]).
  assert (Ex : missions sx = missions s /\ current sx = current s /\ log sx = log s /\ robot_alive sx = robot_alive s) by (unfold sx; by destruct (goes_offline (env n))).
  destruct Ex as (X1 & X2 & X3 & X4). clearbody sx. clear O1 O2 O3 O4.
  assert (HIx : Inv sx) by (by eapply inv_ext). assert (Hsx : is_Some (dget (missions sx) n)) by (by rewrite X1).
  pose proof (settle_kept (with_held m None)) as (K1 & K2 & K3 & K4 & K5). cbn in K1, K2, K3, K4, K5. set (m1 := settle_route_rev (with_held m None)) in *.
  set (s1 := set_missions (dset (missions sx) n m1) sx). assert (Hn1 : current s1 = Some n) by (cbn; congruence).
  assert (HI1 : Inv s1) by by apply inv_dset. assert (Hs1 : is_Some (dget (missions s1) n)) by (cbn; rewrite dget_dset_eq; by eexists).
  assert (HG1 : Grow s s1) by (etrans; [exact HGx|unfold s1; grow]). assert (Hl1 : length (missions s1) = length (missions s)) by (rewrite <-X1; by apply mission_dset_length).
  assert (HL1 : log s1 = log s) by exact X3. assert (HB1 : Busy s1) by (by eapply busy_current).
  destruct (plan_raises (env n)). { apply started_quiet; [done|done|rewrite <-HL1; apply no_new]. }
  destruct (_ && _). { apply started_quiet; [done|done|rewrite <-HL1; apply no_new]. }
  set (m2 := if _ || _ then m1 else with_run_id m1).
  assert (Kc : m_needs_canceled m2 = false) by (unfold m2; destruct (_ || _); cbn; congruence).
  assert (Kh : st_held (m_status m2) = None) by (unfold m2; destruct (_ || _); cbn; congruence).
  assert (Hend : forall m' st, let s' := act (Ended n st) (set_current (Some n) true (set_missions (dset (missions s1) n m') s1)) in
    Busy s' /\ Grow s s' /\ (exists new, log s' = log s ++ new /\ forall n, OrderSent n ∉ new) /\ Started s' (get_next_mission (try_start fuel env) env s').1).
  { intros m' st s'. assert (HI' : Inv s') by apply (ended_inv s1 n m' true HI1).
    split_and!; [by eapply busy_current|etrans; [exact HG1|unfold s'; grow]|rewrite <-X3; by apply one_new|]. apply Hnext; [done|done|].
    change (length (dset (missions s1) n m') = length (missions s)). rewrite mission_dset_length by done. done. }
  destruct (negb (builds_tree (env n))).
  { destruct (Hend (with_state m2 FAILED) FAILED) as (_ & E1 & E2 & E3). eapply started_after; [exact E1|exact E2|exact E3]. }
  destruct (tree_done (env n)) as [completed|].
  { destruct (Hend (with_start m2 (if completed then COMPLETED else FAILED)) (if completed then COMPLETED else FAILED)) as (E0 & E1 & E2 & E3).
    eapply started_after; [exact E1|exact E2|by apply post_completion_post]. }
  set (s2 := set_current _ _ _). assert (HI2 : Inv s2) by apply (ended_inv s1 n _ true HI1).
  assert (HG2 : Grow s s2) by (etrans; [exact HG1|unfold s2; grow]). assert (HL2 : log s2 = log s) by exact X3. assert (HB2 : Busy s2) by (by eapply busy_current).
  destruct (st_started (m_status m)) eqn:Hst. { apply started_quiet; [by eapply busy_current|etrans; [exact HG2|grow]|rewrite <-HL2; apply no_new]. }
  destruct (send_raises (env n)). { apply started_quiet; [done|done|rewrite <-HL2; apply no_new]. }
  assert (HLo : log (act (OrderSent n) s2) = log s ++ [OrderSent n]) by (cbn; by rewrite X3).
  split; [by eapply busy_current| |].
  - destruct HG2 as [G1 G2 G3 G4 _]. split; [exact G1|exact G2|exact G3|exact G4|]. exists [OrderSent n]. done.
  - right. exists [], n. split; [exact HLo|]. split; [intros k Hk; by apply elem_of_nil in Hk|]. split; [|done]. split; [done|done|by rewrite <-Ha|].
    exists (with_start m2 RUNNING). cbn. rewrite dget_dset_eq. split_and!; try done. unfold m2. rewrite K5, orb_false_r. destruct (st_run_id (m_status m1)) eqn:Er; cbn; congruence.
Qed.

Lemma try_start_post fuel env s : Inv s -> length (missions s) < fuel -> Started s (try_start fuel env s).1.
Proof. revert s. induction fuel as [|fuel IH]; intros s H Hl; [lia|]. by apply turn_post. Qed.
Lemma start_post env s : Inv s -> Started s (start env s).1.
Proof. intros H. apply try_start_post; [done|lia]. Qed.
Lemma next_post env s n : Inv s -> current s = Some n -> Started s (next_mission env s).1.
Proof. intros H Hn. eapply get_next_post; [done|done|]. intros s' H' _. by apply start_post. Qed.

(** Ending the current mission and going on *)
Lemma finish_post env n m m' st s : Inv s -> current s = Some n -> dget (missions s) n = Some m' ->
  Started s (post_mission_completion (next_mission env) env n m (act (Ended n st) (set_missions (dset (missions s) n (with_state m st)) s))).1.
Proof.
  intros H Hn Hm. assert (Hs : is_Some (dget (missions s) n)) by (by eexists). set (s' := act _ _).
  assert (HI : Inv s') by apply (inv_dset s n _ H). apply (started_after s s'); [unfold s'; grow|by apply one_new|].
  apply post_completion_post; [by eapply busy_current|]. by eapply next_post.
Qed.
Lemma cancel_next_post env n m s : Inv s -> current s = Some n -> dget (missions s) n = Some m ->
  let '(s', ended) := cancel_before_dispatch n m s in Started s (if ended then next_mission env s' else (s', false)).1.
Proof.
  intros H Hn Hm. destruct (cancel_post n m s H Hm Hn) as (C1 & C2 & C3 & C4 & C5). destruct (cancel_before_dispatch n m s) as [s' ended]. cbn in *. destruct ended.
  - eapply started_after; [exact C2|exact C5|by eapply next_post].
  - apply started_quiet; [by eapply busy_current|done|done].
Qed.
Lemma inv_keep s : Busy s -> Started s s.
Proof. intros H. apply started_quiet; [done|reflexivity|apply no_new]. Qed.
Lemma started_inv s s' : Started s s' -> Inv s'.
Proof. intros [[H _] _ _]. done. Qed.

(** The retry of a stalled start sets the time of the next one; a retry that is due leaves no robot idle. *)
Definition retry_set (at_ : Z) (s : Ctl) : Ctl := set_start (resume_pending s) (start_attempts s) at_ s.

Lemma retry_post env now s : Inv s -> let s' := retry_stalled_start env now s in
  Inv s' /\ Grow (retry_set (retry_at s') s) s' /\ ((current s = None -> (retry_at s <= now)%Z) -> Busy s') /\ (retry_at s' <= Z.max (retry_at s) (now + START_RETRY))%Z.
Proof.
  intros H. cbv zeta. unfold retry_stalled_start. set (due := match current s with Some n => _ | None => _ end).
  destruct (negb due || (now <? retry_at s)%Z) eqn:Ed.
  { split_and!; [done|grow| |lia]. intros Hr. split; [done|]. intros Hn _. unfold due in Ed. rewrite Hn in Ed. specialize (Hr Hn). destruct (missions s); [done|]. cbn in Ed. lia. }
  fold (retry_set (now + START_RETRY) s). set (s0 := retry_set _ s). destruct (start_post env s0 H) as [B G _]. destruct (start env s0) as [s1 raised]. cbn in B, G.
  assert (Hend : forall s', Busy s' -> Grow s0 s' -> Inv s' /\ Grow (retry_set (retry_at s') s) s' /\ ((current s = None -> (retry_at s <= now)%Z) -> Busy s')
    /\ (retry_at s' <= Z.max (retry_at s) (now + START_RETRY))%Z).
  { intros s' B' G'. rewrite (grow_retry _ _ G'). cbn. split_and!; [apply B'|exact G'|done|lia]. }
  destruct raised; [|by apply Hend]. set (s2 := set_start _ (S (start_attempts s1)) _ s1).
  assert (B2 : Busy s2) by exact B. assert (G2 : Grow s0 s2) by (etrans; [exact G|unfold s2; grow]).
  destruct (current s2) as [n|] eqn:Hn; [|by apply Hend]. case_bool_decide; [|by apply Hend].
  destruct (dget (missions s2) n) as [m|] eqn:Hm; [|by apply Hend].
  destruct (finish_post env n m m FAILED s2 (proj1 B2) Hn Hm) as [B3 G3 _]. apply Hend; [done|by etrans].
Qed.

(** The robot as a state message reports it *)
Definition seen (errors : list string) (rep : Reported) (s : Ctl) : Ctl :=
  set_robot (match robot s with Some r => Some {| r_life := r_life r; r_online := true; r_errors := errors |} | None => None end) rep s.

Lemma grow_start s : Grow (retry_set (retry_at s) s) s.
Proof. grow. Qed.

Lemma on_state_post env now errors rep resolved ends s : Inv s ->
  let s' := (on_state env now errors rep resolved ends s).1 in
  Inv s' /\ Grow (retry_set (retry_at s') (seen errors rep s)) s' /\ ((current s = None -> (retry_at s <= now)%Z) -> Busy s')
  /\ (retry_at s' <= Z.max (retry_at s) (now + START_RETRY))%Z.
Proof.
  intros H. cbv zeta. unfold on_state. fold (seen errors rep s). set (s1 := seen errors rep s). assert (H1 : Inv s1) by exact H.
  set (r := match robot s1 with Some _ => _ | None => _ end).
  assert (Hr : Inv r.1 /\ Grow (retry_set (retry_at r.1) s1) r.1 /\ ((current s = None -> (retry_at s <= now)%Z) -> Busy r.1) /\ (retry_at r.1 <= Z.max (retry_at s) (now + START_RETRY))%Z).
  { unfold r. destruct (robot s1) as [x|] eqn:Ex; cycle 1.
    - cbn. split_and!; [done|grow| |cbn; lia]. intros _. split; [done|]. unfold robot_alive. by rewrite Ex.
    - destruct (match current s1 with Some n => _ | None => false end).
      + destruct (start_post env s1 H1) as [B G _]. rewrite (grow_retry _ _ G). split_and!; [apply B|etrans; [|exact G]; grow|done|cbn; lia].
      + apply (retry_post env now s1 H1). }
  destruct r as [s2 raised]. cbn in Hr. destruct Hr as (I2 & G2 & B2 & T2). destruct raised; [done|].
  assert (Hgo : forall s3, Started s2 s3 -> Inv s3 /\ Grow (retry_set (retry_at s3) s1) s3 /\ ((current s = None -> (retry_at s <= now)%Z) -> Busy s3)
    /\ (retry_at s3 <= Z.max (retry_at s) (now + START_RETRY))%Z).
  { intros s3 [B3 G3 _]. rewrite (grow_retry _ _ G3). split_and!; [apply B3|by etrans|done|done]. }
  destruct (current s2) as [n|] eqn:Hn; [|done]. destruct (dget (missions s2) n) as [m|] eqn:Hm; [|by destruct (proj2 I2 n Hn) as [? ?]; congruence].
  pose proof (busy_current s2 n I2 Hn) as HB.
  destruct (resolved && _ && _); [by apply Hgo, finish_post with m|]. destruct (negb (tree s2)).
  - destruct (m_needs_canceled m && _); [|by apply Hgo, inv_keep]. apply Hgo. pose proof (cancel_next_post env n m s2 I2 Hn Hm) as Hc. by destruct (cancel_before_dispatch n m s2).
  - destruct (done_state _); [apply Hgo; by apply next_post with n|]. destruct ends as [st|]; [by apply Hgo, finish_post with m|by apply Hgo, inv_keep].
Qed.

(** A message that is not a state message, with the robot as it is known when the message is taken up *)
Definition Handled (x : option Robot) (s s' : Ctl) : Prop := Inv s' /\ retry_at s' = retry_at s
  /\ exists new, log s' = log s ++ new /\ forall n, OrderSent n ∈ new -> hold_of x = None.

Lemma handled_started s s0 s' : log s0 = log s -> retry_at s0 = retry_at s -> Started s0 s' -> Handled (robot s0) s s'.
Proof.
  intros E1 E2 [B G _]. split; [apply B|]. split; [by rewrite (grow_retry _ _ G)|]. destruct (grow_log _ _ G) as (new & E & Hn). exists new. rewrite <-E1.
  split; [done|]. intros n Hin. by apply (Hn n).
Qed.
Lemma handled_quiet x s s' : Inv s' -> retry_at s' = retry_at s -> (exists new, log s' = log s ++ new /\ forall n, OrderSent n ∉ new) -> Handled x s s'.
Proof. intros H E (new & El & Hn). split; [done|]. split; [done|]. exists new. split; [done|]. intros n Hin. by destruct (Hn n). Qed.
Lemma inv_ddel s n c : Inv s -> c <> Some n -> (c = current s \/ c = None) -> Inv (set_current c (tree s) (set_missions (ddel (missions s) n) s)).
Proof.
  intros [H1 H2] Hc Hd. split; cbn; [by apply dict_wf_ddel|]. intros k ->. rewrite dget_ddel_ne by congruence. apply H2. naive_solver.
Qed.
Lemma inv_ddel_queued s n : Inv s -> current s <> Some n -> Inv (set_missions (ddel (missions s) n) s).
Proof. intros H Hc. eapply inv_ext; [| |apply (inv_ddel s n (current s) H Hc); by left]; done. Qed.

Lemma new_mission_post env msg s : Inv s -> Handled (robot s) s (new_mission env msg s).1.
Proof.
  intros H. unfold new_mission. set (s1 := if _ && _ then _ else s). assert (H1 : Inv s1 /\ log s1 = log s /\ retry_at s1 = retry_at s /\ robot s1 = robot s) by (unfold s1; by destruct (_ && _)).
  destruct H1 as (H1 & L1 & T1 & R1). rewrite <-R1. clearbody s1. destruct (_ || _); [apply handled_quiet; [done|done|cbn; rewrite L1; apply no_new]|].
  set (s2 := set_missions _ s1). assert (H2 : Inv s2).
  { destruct H1 as [Hw Hc]. unfold s2. destruct (st_started _); split; cbn; try by apply dict_wf_dset.
    - unfold dict_wf. cbn. apply NoDup_cons. split; [|by apply dict_wf_ddel, dict_wf_dset]. apply dget_None. apply dget_ddel_eq.
    - intros k Hk. case_bool_decide; [by eexists|]. rewrite dget_ddel_ne, dget_dset_ne by congruence. by apply Hc.
    - intros k Hk. rewrite dget_dset. case_bool_decide; [by eexists|by apply Hc]. }
  destruct (current s2); [apply handled_quiet; [done|done|cbn; rewrite L1; apply no_new]|]. change (robot s1) with (robot s2). by eapply (handled_started s s2), start_post.
Qed.

Lemma current_change_post env msg m wait raises s : Inv s -> current s = Some (m_name msg) -> Handled (robot s) s (current_change env msg m wait raises s).1.
Proof.
  intros H Hn. unfold current_change. set (n := m_name msg) in *. destruct (update_mission_from_api _ msg (tree s)) as [[m2 cancel]|e]; [|apply handled_quiet; [by apply inv_dset|done|apply no_new]].
  set (m3 := if bool_decide _ then _ else m2). set (s1 := set_missions _ s). assert (H1 : Inv s1) by by apply inv_dset.
  assert (Hm1 : dget (missions s1) n = Some m3) by apply dget_dset_eq.
  assert (Hq : forall s', missions s' = missions s1 -> current s' = current s1 -> retry_at s' = retry_at s -> (exists new, log s' = log s ++ new /\ forall n, OrderSent n ∉ new) -> Handled (robot s) s s').
  { intros s' E1 E2 E3 E4. apply handled_quiet; [by eapply inv_ext|done|done]. }
  destruct (waiting s1 && _).
  { eapply (handled_started s s1); [done|done|]. set (s2 := act _ _). assert (H2 : Inv s2) by by apply (inv_dset s1).
    apply (started_after s1 s2); [|by apply one_new|by eapply next_post]. unfold s2. apply grow_simple; cbn; [done|done| |by apply one_new]. intros k Hk. apply dget_dset_none; [|done]. by exists m3. }
  destruct (negb (tree s1) && _).
  { eapply (handled_started s s1); [done|done|]. pose proof (cancel_next_post env n m3 s1 H1 Hn Hm1) as Hc. destruct (cancel_before_dispatch n m3 s1) as [s2 []]; [|done].
    by destruct (next_mission env s2). }
  destruct (_ || cancel); [|by apply Hq; [..|apply no_new]]. destruct (outstanding s1); [by apply Hq; [..|apply no_new]|].
  destruct (_ && wait); [by apply Hq; [..|apply no_new]|]. apply Hq; [done|done|done|by apply one_new].
Qed.
Lemma queued_change_post msg m raises s : Inv s -> current s <> Some (m_name msg) -> Handled (robot s) s (queued_change msg m raises s).1.
Proof.
  intros H Hn. unfold queued_change. destruct (update_mission_from_api _ msg false) as [[m2 cancel]|e]; [|apply handled_quiet; [by apply inv_dset|done|apply no_new]].
  case_bool_decide; [|destruct (m_needs_canceled msg)]; [destruct raises..|]; cbn; apply handled_quiet; try done; cbn;
    first [apply no_new|by apply one_new|by apply inv_ddel_queued|by apply inv_dset].
Qed.
Lemma on_mission_change_post env msg wait raises s : Inv s -> Handled (robot s) s (on_mission_change env msg wait raises s).1.
Proof.
  intros H. unfold on_mission_change. destruct (dget (missions s) (m_name msg)) as [m|]; cycle 1.
  { case_bool_decide; [by apply new_mission_post|]. apply handled_quiet; [done|done|apply no_new]. }
  cbv zeta. destruct (_ && _); case_bool_decide as Hc.
  - set (s1 := set_current None _ _). eapply (handled_started s s1); [done|done|]. apply (start_post env s1). unfold s1. apply inv_ddel; [done|done|by right].
  - apply handled_quiet; [by apply inv_ddel_queued|done|apply no_new].
  - by apply current_change_post.
  - by apply queued_change_post.
Qed.
Lemma on_robot_change_post env row raises s : Inv s -> Handled (match robot s with None => Some row | Some r => Some r end) s (on_robot_change env row raises s).1.
Proof.
  intros H. unfold on_robot_change. destruct (robot s) as [r|].
  - case_bool_decide; cbn. { destruct (delete_robot_post s H) as (B & G & L). apply handled_quiet; [apply B|done|rewrite L; apply no_new]. }
    destruct raises; apply handled_quiet; try done; apply no_new.
  - destruct raises; [apply handled_quiet; [done|done|apply no_new]|]. apply (handled_started s (set_robot (Some row) (reported s) s)); [done|done|by apply start_post].
Qed.

(** ** No robot in service is left idle *)

Fixpoint latest (t : Z) (ls : list ((string -> Env) * Label)) : Z :=
  match ls with
  | [] => t
  | (_, StateMsg now _ _ _ _) :: ls => latest (Z.max t now) ls
  | _ :: ls => latest t ls
  end.

(** The robot as it is known when a message is taken up: a state message reports its errors and that it is online, and the first
    row of the robot has its status *)
Definition taken_up (l : Label) (s : Ctl) : option Robot :=
  match l with
  | StateMsg _ errors rep _ _ => robot (seen errors rep s)
  | RobotRow row _ => match robot s with None => Some row | Some r => Some r end
  | _ => robot s
  end.
Lemma step_post env l s s' t : Inv s -> (retry_at s <= t + START_RETRY)%Z -> step env l s = Some s' ->
  Inv s' /\ (retry_at s' <= latest t [(env, l)] + START_RETRY)%Z
  /\ exists new, log s' = log s ++ new /\ forall n, OrderSent n ∈ new -> hold_of (taken_up l s) = None.
Proof.
  intros H Ht. unfold step. destruct (stopped s); [done|].
  assert (Hh : forall r x, Handled r s x -> Inv x /\ (retry_at x <= t + START_RETRY)%Z /\ exists new, log x = log s ++ new /\ forall n, OrderSent n ∈ new -> hold_of r = None).
  { intros r x (A & B & C). split_and!; [done|lia|done]. }
  destruct l as [msg wait raises|row raises|now errors rep resolved ends| |st|w]; cbn [latest taken_up].
  - intros [= <-]. by apply Hh, on_mission_change_post.
  - intros [= <-]. by apply Hh, on_robot_change_post.
  - intros [= <-]. destruct (on_state_post env now errors rep resolved ends s H) as (A & B & _ & C). split_and!; [done|lia|].
    destruct (grow_log _ _ B) as (new & E & Hn). exists new. split; [exact E|]. intros n Hin. by apply (Hn n).
  - destruct (offline_fields s) as (O1 & O2 & O3 & _). destruct (robot s) as [r|] eqn:E; [|done]. intros [= <-].
    apply Hh, handled_quiet; [by apply (inv_ext s)|unfold go_offline; by rewrite E|rewrite O3; apply no_new].
  - destruct (current s) as [n|] eqn:Hn; [|done]. destruct (dget (missions s) n) as [m|] eqn:Hm; [|done]. intros [= <-].
    apply Hh. apply (handled_started s s); [done|done|by eapply finish_post].
  - destruct (current s); [|done]. intros [= <-]. apply Hh, handled_quiet; [done|done|apply no_new].
Qed.
Lemma latest_cons t x ls : latest t (x :: ls) = latest (latest t [x]) ls.
Proof. by destruct x as [? []]. Qed.
Lemma run_post ls s s' t : Inv s -> (retry_at s <= t + START_RETRY)%Z -> run ls s = Some s' -> Inv s' /\ (retry_at s' <= latest t ls + START_RETRY)%Z.
Proof.
  revert s t. induction ls as [|[env l] ls IH]; intros s t H Ht; [by intros [= <-]|]. rewrite latest_cons. cbn [run].
  destruct (step env l s) as [s1|] eqn:E; [|done]. destruct (step_post env l s s1 t H Ht E) as (H1 & T1 & _). by apply IH.
Qed.
Lemma new_inv : Inv new_controller.
Proof. split; [constructor|done]. Qed.

(** C5: after any messages, with any exceptions of the planner, the database and the connection in between, the current
    mission is one of the queue; and after the first state message that comes START_RETRY_S after the last one that was
    acted on, a robot in service that has missions queued has a current one: no queue waits for a mission that is not
    there. *)
Theorem queue_never_stalls (ls : list ((string -> Env) * Label)) (s : Ctl) :
  (0 <= START_RETRY)%Z -> run ls new_controller = Some s ->
  (forall n, current s = Some n -> is_Some (dget (missions s) n))
  /\ forall env now errors rep resolved ends s', step env (StateMsg now errors rep resolved ends) s = Some s' ->
     (latest 0 ls + START_RETRY <= now)%Z -> robot_alive s' = true -> missions s' <> [] -> exists n, current s' = Some n /\ is_Some (dget (missions s') n).
Proof.
  intros Hr E. destruct (run_post ls new_controller s 0 new_inv) as [H T]; [cbn; lia|done|]. split; [apply H|].
  intros env now errors rep resolved ends s' Es Ht Ha Hm. unfold step in Es. destruct (stopped s); [done|]. injection Es as <-.
  destruct (on_state_post env now errors rep resolved ends s H) as (_ & _ & B & _). destruct B as [[_ B1] B2]; [lia|].
  destruct (current _) as [n|] eqn:Hn; [|by destruct Hm; apply B2]. exists n. split; [done|by apply B1].
Qed.


(** ** A mission that cannot be planned is ended *)

(** The mission [n] was picked, its start raised [k] times, and nothing holds it. *)
Record Stalled (n : string) (k : nat) (s : Ctl) : Prop := {
  stalled_inv : Inv s; stalled_current : current s = Some n; stalled_tree : tree s = false; stalled_attempts : start_attempts s = k;
  stalled_stopped : stopped s = false; stalled_robot : robot_alive s = true;
  stalled_mission : exists m, dget (missions s) n = Some m /\ m_needs_canceled m = false /\ m_life m = ALIVE
    /\ done_state (st_state (m_status m)) = false /\ st_held (m_status m) = None;
}.
Definition holds_nothing (errors : list string) : bool := forallb (fun x => negb (bool_decide (x.1 ∈ errors))) READINESS_HOLD_REASONS.

Lemma start_raises env s n m : current s = Some n -> dget (missions s) n = Some m -> m_needs_canceled m = false -> robot_alive s = true ->
  dispatch_hold_reason s = None -> plan_raises (env n) = true ->
  start env s = (let s := if goes_offline (env n) then go_offline s else s in set_missions (dset (missions s) n (settle_route_rev (with_held m None))) s, true).
Proof.
  intros Hn Hm Hc Ha Hh Hp. unfold start. cbn [try_start]. assert (Hpk : pick s = s) by (unfold pick; by rewrite Hn).
  by rewrite Hpk, Hn, Ha, Hm, Hc, Hh, Hp.
Qed.
Lemma holds_nothing_ok errors rep s : robot_alive s = true -> holds_nothing errors = true -> dispatch_hold_reason (seen errors rep s) = None /\ robot_alive (seen errors rep s) = true.
Proof.
  intros Ha He. assert (Hf : find_first (fun x => bool_decide (x.1 ∈ errors)) READINESS_HOLD_REASONS = None).
  { apply find_first_None, Forall_forall. intros x Hx.
    pose proof (proj1 (List.forallb_forall _ _) He x (proj1 (list_elem_of_In _ _) Hx)) as Hb. by apply negb_true_iff in Hb. }
  unfold robot_alive, dispatch_hold_reason, hold_of, seen in *. destruct (robot s) as [r|]; [|done]. cbn [robot set_robot r_online negb r_errors]. by rewrite Hf.
Qed.

(** A mission that did not complete leaves the queue for good. *)
Lemma next_removes env s n m : Inv s -> current s = Some n -> dget (missions s) n = Some m -> st_state (m_status m) <> COMPLETED ->
  dget (missions (next_mission env s).1) n = None.
Proof.
  intros [H1 H2] Hn Hm Hst. unfold next_mission, get_next_mission. rewrite Hn, Hm, bool_decide_false by done. cbn [andb].
  set (s' := set_finished _ _). assert (HI : Inv s') by (split; cbn; [by apply dict_wf_ddel|done]).
  assert (Hg : dget (missions s') n = None) by apply dget_ddel_eq. destruct (delete_robot_post s' HI) as (_ & G & _).
  pose proof (grow_keys _ _ (started_grow _ _ (start_post env s' HI)) n Hg) as Hstart.
  destruct (robot s') as [r|]; [case_bool_decide|]; [by apply (grow_keys _ _ G)|done|done].
Qed.
Lemma stalled_retry n k env now s : Stalled n k s -> dispatch_hold_reason s = None -> plan_raises (env n) = true -> (retry_at s <= now)%Z ->
  let s' := retry_stalled_start env now s in
  (S k < MAX_START_ATTEMPTS -> Stalled n (S k) s' /\ retry_at s' = (now + START_RETRY)%Z)
  /\ (MAX_START_ATTEMPTS <= S k -> Inv s' /\ Ended n FAILED ∈ log s' /\ dget (missions s') n = None).
Proof.
  intros [HI Hn Ht Hk Hs Ha (m & Hm & Hc & Hl & Hd & Hh)] Hold Hp Hr. cbv zeta. unfold retry_stalled_start.
  rewrite Hn, Hm, Ht, Hd, Hh. rewrite (proj2 (Z.ltb_ge _ _) Hr). cbn [orb negb]. rewrite (bool_decide_false (is_Some None)) by (by intros [? ?]). cbn [orb negb].
  set (s0 := set_start _ _ _ s). rewrite (start_raises env s0 n m); [|done..]. set (m1 := settle_route_rev (with_held m None)).
  pose proof (settle_kept (with_held m None)) as (K1 & K2 & K3 & K4 & K5). cbn in K1, K2, K3, K4, K5. fold m1 in K1, K2, K3, K4, K5.
  cbv zeta. set (sx := if goes_offline (env n) then go_offline s0 else s0).
  assert (Ex : missions sx = missions s /\ current sx = Some n /\ robot_alive sx = true /\ tree sx = false /\ start_attempts sx = k /\ stopped sx = false /\ retry_at sx = (now + START_RETRY)%Z).
  { assert (E0 : robot_alive s0 = true) by exact Ha. destruct (offline_fields s0) as (O1 & O2 & O3 & O4). unfold sx. destruct (goes_offline (env n)); [|by split_and!].
    rewrite O1, O2, O4. unfold go_offline. by destruct (robot s0). }
  destruct Ex as (X1 & X2 & X3 & X4 & X5 & X6 & X7). clearbody sx. set (s1 := set_missions _ sx). set (s2 := set_start _ (S (start_attempts s1)) _ s1). cbv zeta beta iota.
  assert (HIx : Inv sx) by (eapply inv_ext; [exact X1|congruence|exact HI]).
  assert (HI2 : Inv s2) by (exact (inv_dset sx n m1 HIx)). assert (Hm2 : dget (missions s2) n = Some m1) by apply dget_dset_eq.
  assert (Hn2 : current s2 = Some n) by exact X2. assert (Hk2 : start_attempts s2 = S k) by (cbn; congruence).
  rewrite Hn2, Hk2. case_bool_decide as Hx; (split; [intros Hlt|intros Hge]); try lia; cycle 1.
  - split; [|done]. split; try done. exists m1. split_and!; try done; congruence.
  - rewrite Hm2. unfold post_mission_completion. rewrite (bool_decide_false (m_life m1 = PENDING_DELETE)) by (rewrite K2, Hl; done). cbn [andb].
    set (s3 := act _ _). assert (HI3 : Inv s3) by (exact (inv_dset s2 n _ HI2)).
    destruct (next_post env s3 n HI3 Hn2) as [B G _]. split_and!; [apply B| |].
    + destruct (grow_log _ _ G) as (new & E & _). rewrite E. unfold s3. cbn. set_solver.
    + apply (next_removes env s3 n (with_state m1 FAILED)); [done|done|apply dget_dset_eq|done].
Qed.
Lemma stalled_message n k env now errors rep resolved ends s : Stalled n k s -> holds_nothing errors = true -> plan_raises (env n) = true -> (retry_at s <= now)%Z ->
  let s' := (on_state env now errors rep resolved ends s).1 in
  (S k < MAX_START_ATTEMPTS -> Stalled n (S k) s' /\ retry_at s' = (now + START_RETRY)%Z)
  /\ (MAX_START_ATTEMPTS <= S k -> Inv s' /\ Ended n FAILED ∈ log s' /\ dget (missions s') n = None).
Proof.
  intros HS He Hp Hr. pose proof HS as [HI Hn Ht Hk Hs Ha (m & Hm & Hc & Hl & Hd & Hh)]. destruct (holds_nothing_ok errors rep s Ha He) as [Hold Ha1].
  cbv zeta. unfold on_state. fold (seen errors rep s). set (s1 := seen errors rep s) in *.
  assert (HS1 : Stalled n k s1) by (split; try done; by exists m). destruct (stalled_retry n k env now s1 HS1 Hold Hp Hr) as [R1 R2].
  assert (Hr1 : exists r, robot s1 = Some r) by (unfold robot_alive in Ha1; destruct (robot s1); [by eexists|done]). destruct Hr1 as [r ->].
  assert (E : match current s1 with Some n => match dget (missions s1) n with Some m => bool_decide (is_Some (st_held (m_status m))) | None => false end | None => false end = false).
  { change (current s1) with (current s). change (missions s1) with (missions s). rewrite Hn, Hm, Hh. by rewrite bool_decide_false by (by intros [? ?]). }
  rewrite E. set (s2 := retry_stalled_start env now s1) in *. clearbody s2. split.
  - intros Hlt. destruct (R1 Hlt) as [HS2 Hr2]. pose proof HS2 as [_ Hn2 Ht2 _ _ _ (m2 & Hm2 & Hc2 & _ & _ & _)]. rewrite Hn2, Hm2, Hc2, Ht2, andb_false_r. done.
  - intros Hge. destruct (R2 Hge) as (HI2 & Hin & Hnone). 
    assert (Hkeep : forall s3, Started s2 s3 -> Inv s3 /\ Ended n FAILED ∈ log s3 /\ dget (missions s3) n = None).
    { intros s3 [B G _]. split_and!; [apply B| |by apply (grow_keys _ _ G)]. destruct (grow_log _ _ G) as (new & -> & _). set_solver. }
    destruct (current s2) as [j|] eqn:Hj; [|done]. destruct (dget (missions s2) j) as [mj|] eqn:Hmj; [|done]. pose proof (busy_current s2 j HI2 Hj) as HB.
    destruct (resolved && _ && _); [by apply Hkeep, finish_post with mj|]. destruct (negb (tree s2)).
    + destruct (m_needs_canceled mj && _); [|done]. apply Hkeep. pose proof (cancel_next_post env j mj s2 HI2 Hj Hmj) as Hcn. by destruct (cancel_before_dispatch j mj s2).
    + destruct (done_state (st_state (m_status mj))); [by apply Hkeep, next_post with j|]. destruct ends; [by apply Hkeep, finish_post with mj|done].
Qed.

(** State messages at least START_RETRY_S apart, from [t] on, that report nothing a hold waits for, while planning [n] raises *)
Fixpoint failing_retries (n : string) (t : Z) (ls : list ((string -> Env) * Label)) : Prop :=
  match ls with
  | [] => True
  | (env, StateMsg now errors _ _ _) :: ls => (t <= now)%Z /\ holds_nothing errors = true /\ plan_raises (env n) = true /\ failing_retries n (now + START_RETRY) ls
  | _ :: _ => False
  end.

(** A mission whose planning keeps raising does not block the queue: it is failed, and leaves the queue, with the state
    message of attempt MAX_START_ATTEMPTS, and the messages before that one are handled without an end. *)
Theorem stalled_start_fails (n : string) (k : nat) (s : Ctl) (ls : list ((string -> Env) * Label)) :
  Stalled n k s -> failing_retries n (retry_at s) ls -> k < MAX_START_ATTEMPTS -> length ls = MAX_START_ATTEMPTS - k ->
  exists s', run ls s = Some s' /\ Ended n FAILED ∈ log s' /\ dget (missions s') n = None.
Proof.
  revert k s. induction ls as [|[env l] ls IH]; intros k s HS Hf Hk Hl; [cbn in Hl; lia|].
  destruct l as [| |now errors rep resolved ends| | |]; try done. destruct Hf as (Ht & He & Hp & Hf). cbn [run]. unfold step. rewrite (stalled_stopped _ _ _ HS).
  destruct (stalled_message n k env now errors rep resolved ends s HS He Hp Ht) as [R1 R2]. set (s' := (on_state _ _ _ _ _ _ s).1) in *.
  change (Some s' ≫= run ls) with (run ls s'). cbn in Hl. destruct (decide (MAX_START_ATTEMPTS <= S k)) as [Hx|Hx].
  - destruct (R2 Hx) as (_ & H1 & H2). destruct ls; [|cbn in Hl; lia]. by exists s'.
  - destruct R1 as [HS' Hr']; [lia|]. apply (IH (S k)); [done|by rewrite Hr'|lia|lia].
Qed.
End control.

(** ** Examples *)

Definition quiet : Env := {| plan_raises := false; stores_run_id := true; builds_tree := true; tree_done := None; send_raises := false; delete_raises := false; next_pass := false; goes_offline := false |}.
Definition unplanned : Env := {| plan_raises := true; stores_run_id := true; builds_tree := true; tree_done := None; send_raises := false; delete_raises := false; next_pass := false; goes_offline := false |}.
Definition queued (n : string) : Mission := {|
  m_name := n; m_life := ALIVE; m_needs_canceled := false; m_route_rev := 0; m_tree := example_tree 0; m_planned := None;
  m_fields := {| f_robot := "amr"; f_rest := [] |};
  m_status := {| st_state := PENDING; st_started := false; st_run_id := false; st_order_rev := 0; st_applied_rev := 0; st_held := None;
    st_nodes := [("root", PENDING); ("a", PENDING); ("wait", PENDING); ("b", PENDING)]; st_tasks := [] |} |}.
Definition online : Robot := {| r_life := ALIVE; r_online := true; r_errors := [] |}.
Definition hear (now : Z) (errors : list string) : Label := StateMsg now errors Elsewhere false None.

(** Two missions arrive before the robot's row, whose handling raises; m1 cannot be planned. *)
Definition arrivals : list ((string -> Env) * Label) :=
  [(fun _ => quiet, MissionRow (queued "m1") false false); (fun _ => quiet, MissionRow (queued "m2") false false); (fun _ => quiet, RobotRow online true)].
Definition bad_m1 (n : string) : Env := if bool_decide (n = "m1") then unplanned else quiet.
Definition amr := run "amr" 2 10 100.
Definition after (ls : list ((string -> Env) * Label)) : Ctl := default new_controller (amr ls new_controller).

(** What went out and what is left: m1 is retried twice and failed, m2 is held while the robot relocalizes, then sent. *)
Example a_bad_start :
  (fun s => (current s, keys (missions s), log s)) <$>
    [after arrivals; after (arrivals ++ [(bad_m1, hear 20 [])]);
     after (arrivals ++ [(bad_m1, hear 20 []); (bad_m1, hear 25 []); (bad_m1, hear 30 ["relocalizationNotReadyError"])]);
     after (arrivals ++ [(bad_m1, hear 20 []); (bad_m1, hear 30 [])]);
     after (arrivals ++ [(bad_m1, hear 20 []); (fun _ => quiet, Offline); (bad_m1, hear 31 ["relocalizationNotReadyError"]); (bad_m1, hear 32 []); (bad_m1, hear 42 [])])]
  = [(None, ["m1"; "m2"], []); (Some "m1", ["m1"; "m2"], []); (Some "m1", ["m1"; "m2"], []);
     (Some "m2", ["m2"], [Ended "m1" FAILED; OrderSent "m2"]); (Some "m2", ["m2"], [Ended "m1" FAILED; OrderSent "m2"])].
Proof. vm_compute. reflexivity. Qed.

Lemma queue_never_stalls_witness :
  current (after arrivals) = None /\ let s' := after (arrivals ++ [(bad_m1, hear 20 [])]) in exists n, current s' = Some n /\ is_Some (dget (missions s') n).
Proof.
  split; [vm_compute; reflexivity|].
  refine (proj2 (queue_never_stalls "amr" 2 10 100 arrivals (after arrivals) _ _) bad_m1 20%Z [] Elsewhere false None (after (arrivals ++ [(bad_m1, hear 20 [])])) _ _ _ _).
  - lia.
  - vm_compute. reflexivity.
  - vm_compute. reflexivity.
  - vm_compute. discriminate.
  - vm_compute. reflexivity.
  - vm_compute. discriminate.
Defined.


(** The heartbeat timer fires while m1 is planned: its order still goes out, and the robot is offline. *)
Definition unlucky : Env := {| plan_raises := false; stores_run_id := true; builds_tree := true; tree_done := None; send_raises := false; delete_raises := false; next_pass := false; goes_offline := true |}.
Example offline_meanwhile : let s := after (arrivals ++ [(fun _ => unlucky, hear 20 [])]) in log s = [OrderSent "m1"] /\ r_online <$> robot s = Some false.
Proof. vm_compute. done. Qed.

Lemma stalled_start_fails_witness :
  let s := after (arrivals ++ [(bad_m1, hear 20 [])]) in start_attempts s = 1
  /\ exists s', amr [(bad_m1, hear 30 [])] s = Some s' /\ Ended "m1" FAILED ∈ log s' /\ dget (missions s') "m1" = None.
Proof.
  split; [vm_compute; reflexivity|].
  apply (stalled_start_fails "amr" 2 10 100 "m1" 1 (after (arrivals ++ [(bad_m1, hear 20 [])])) [(bad_m1, hear 30 [])]).
  - split; try (vm_compute; reflexivity).
    + split; [|intros n E; vm_compute in E; injection E as <-; vm_compute; eexists; reflexivity].
      assert (E : keys (missions (after (arrivals ++ [(bad_m1, hear 20 [])]))) = ["m1"; "m2"]) by (vm_compute; reflexivity). unfold dict_wf. rewrite E.
      apply NoDup_cons. split; [|apply NoDup_singleton]. intros Hin. apply list_elem_of_singleton in Hin. discriminate Hin.
    + exists (queued "m1"). split; vm_compute; [reflexivity|]. repeat split.
  - split; [vm_compute; discriminate|]. repeat split; vm_compute; reflexivity.
  - lia.
  - reflexivity.
Defined.
