(* ===== verification/MapSessions.v ===== *)
(** * Maps and their sessions

    packages/api/maps.py with the shared rules of packages/utils/map_sessions.py: the life of a map (draft, mapping, paused,
    ready, archived, deleting) and of the sessions through which robots use it, with the placement of a session. Every
    operation of the API is one transaction that locks the robot and map rows it writes, so an operation is one step;
    node counts are read before the transaction and may be out of date, so they are arguments. What the dispatcher
    (server.py [_on_run_changed], [_on_frame_changed], [_replace_geo_session]), the ingest and the delete of a map and of a
    robot write to the same rows are steps too. Poses, datums, georeferences and transforms are opaque values and their
    floating-point formulas (map_geo.py) the class [Geometry]; warnings, events, response texts, the services switched on the robot
    and the guard of running node deletes are left out. A row without a type or state has its effective one. *)

From S2P Require Import Prelude.
Local Open Scope string_scope.
Local Open Scope list_scope.

(** ** Rows *)

Inductive MapType := Local | Geo.
Inductive MapState := DRAFT | MAPPING | PAUSED | READY | ARCHIVED.
Inductive Purpose := mapping | operate.
Inductive Service := TOPO | GRID | SLAM.
Inductive Source := USER | SESSION | DATUM | LAST_POSITION | RELOC.
Inductive Reason := RUN_CHANGED | FRAME_CHANGED | MANUAL.
#[export] Instance MapType_eq_dec : EqDecision MapType.
Proof. solve_decision. Defined.
#[export] Instance MapState_eq_dec : EqDecision MapState.
Proof. solve_decision. Defined.
#[export] Instance Purpose_eq_dec : EqDecision Purpose.
Proof. solve_decision. Defined.
#[export] Instance Service_eq_dec : EqDecision Service.
Proof. solve_decision. Defined.
#[export] Instance Source_eq_dec : EqDecision Source.
Proof. solve_decision. Defined.

Record Placement := { p_source : option Source; p_from : option nat; p_frame : option string; p_unplaced : option Reason }.
Record Session := {
  s_id : nat; s_map : string; s_robot : string; s_purpose : Purpose; s_services : option (list Service); s_placement : option Placement;
  s_paused : option Z; s_ended : option Z; s_datum : option Z; s_transform : Z; s_aligned : bool; s_nodes : N; s_epoch : option Z;
}.
Record MapRow := {
  m_deleting : bool; m_type : MapType; m_state : MapState; m_open : option nat; m_geo : option Z; m_slam_map : bool; m_slam_saved : bool; m_nodes : N;
}.
Record RobotRow := { r_online : bool; r_datum : option Z; r_map_id : option string; r_initialized : option bool; r_pose : Z }.

(** The tables: maps, sessions in the order they started, robots, the robots' run epochs with whether the run is known to
    be continuous, and the robots whose SLAM map is being recorded or saved *)
Record Db := {
  maps : gmap string MapRow; sessions : list Session; robots : gmap string RobotRow; epochs : gmap string (Z * bool); saves : gset string; next_id : nat;
}.
Definition with_maps (ms : gmap string MapRow) (db : Db) : Db :=
  {| maps := ms; sessions := sessions db; robots := robots db; epochs := epochs db; saves := saves db; next_id := next_id db |}.
Definition with_sessions (ss : list Session) (db : Db) : Db :=
  {| maps := maps db; sessions := ss; robots := robots db; epochs := epochs db; saves := saves db; next_id := next_id db |}.
Definition with_robots (rs : gmap string RobotRow) (es : gmap string (Z * bool)) (sv : gset string) (db : Db) : Db :=
  {| maps := maps db; sessions := sessions db; robots := rs; epochs := es; saves := sv; next_id := next_id db |}.

(** [update_map] and [update_session] *)
Definition update_map (n : string) (f : MapRow -> MapRow) (db : Db) : Db := with_maps (alter f n (maps db)) db.
Definition update_session (id : nat) (f : Session -> Session) (db : Db) : Db :=
  with_sessions ((fun s => if bool_decide (s_id s = id) then f s else s) <$> sessions db) db.
Definition row_state (st : MapState) (o : option nat) (m : MapRow) : MapRow :=
  {| m_deleting := m_deleting m; m_type := m_type m; m_state := st; m_open := o; m_geo := m_geo m; m_slam_map := m_slam_map m;
     m_slam_saved := m_slam_saved m; m_nodes := m_nodes m |}.
Definition row_spec (t : MapType) (g : option Z) (slam : bool) (m : MapRow) : MapRow :=
  {| m_deleting := m_deleting m; m_type := t; m_state := m_state m; m_open := m_open m; m_geo := g; m_slam_map := slam;
     m_slam_saved := m_slam_saved m; m_nodes := m_nodes m |}.
Definition row_flags (deleting slam_saved : bool) (m : MapRow) : MapRow :=
  {| m_deleting := deleting; m_type := m_type m; m_state := m_state m; m_open := m_open m; m_geo := m_geo m; m_slam_map := m_slam_map m;
     m_slam_saved := slam_saved; m_nodes := m_nodes m |}.
Definition session_times (paused ended : option Z) (epoch : option Z) (s : Session) : Session :=
  {| s_id := s_id s; s_map := s_map s; s_robot := s_robot s; s_purpose := s_purpose s; s_services := s_services s; s_placement := s_placement s;
     s_paused := paused; s_ended := ended; s_datum := s_datum s; s_transform := s_transform s; s_aligned := s_aligned s; s_nodes := s_nodes s; s_epoch := epoch |}.
Definition session_place (p : option Placement) (d : option Z) (t : Z) (aligned : bool) (s : Session) : Session :=
  {| s_id := s_id s; s_map := s_map s; s_robot := s_robot s; s_purpose := s_purpose s; s_services := s_services s; s_placement := p;
     s_paused := s_paused s; s_ended := s_ended s; s_datum := d; s_transform := t; s_aligned := aligned; s_nodes := s_nodes s; s_epoch := s_epoch s |}.
Definition session_nodes (n : N) (s : Session) : Session :=
  {| s_id := s_id s; s_map := s_map s; s_robot := s_robot s; s_purpose := s_purpose s; s_services := s_services s; s_placement := s_placement s;
     s_paused := s_paused s; s_ended := s_ended s; s_datum := s_datum s; s_transform := s_transform s; s_aligned := s_aligned s;
     s_nodes := (s_nodes s + n)%N; s_epoch := s_epoch s |}.

Definition is_open (s : Session) : bool := match s_ended s with None => true | Some _ => false end.
Definition open_on (n : string) (s : Session) : bool := is_open s && bool_decide (s_map s = n).
Definition maps_on (n : string) (s : Session) : bool := open_on n s && bool_decide (s_purpose s = mapping).
Definition sessions_on (db : Db) (n : string) : list Session := List.filter (fun s => bool_decide (s_map s = n)) (sessions db).
Definition open_sessions_of_robot (db : Db) (r : string) : list Session := List.filter (fun s => is_open s && bool_decide (s_robot s = r)) (sessions db).
Definition session_of (db : Db) (id : nat) : option Session := find_first (fun s => bool_decide (s_id s = id)) (sessions db).

(** ** The frame witness and the run epoch (map_sessions.py) *)

Inductive Verdict := FRAME_OK | FRAME_MISMATCH | FRAME_UNKNOWN.
#[export] Instance Verdict_eq_dec : EqDecision Verdict.
Proof. solve_decision. Defined.

Definition definitive_frame (reading : option string * option bool) : option string :=
  match reading with (Some m, Some true) => if bool_decide (m = "") then None else Some m | _ => None end.
Definition frame_reading (r : RobotRow) : option string * option bool := if r_online r then (r_map_id r, r_initialized r) else (None, None).
Definition placement_frame (s : Session) : option string :=
  match s_placement s with Some p => match p_frame p with Some m => if bool_decide (m = "") then None else Some m | None => None end | None => None end.
Definition placement_with_frame (p : option Placement) (frame : option string) : option Placement :=
  match frame with
  | None => p
  | Some m => let p := default {| p_source := None; p_from := None; p_frame := None; p_unplaced := None |} p in
              Some {| p_source := p_source p; p_from := p_from p; p_frame := Some m; p_unplaced := p_unplaced p |}
  end.
Definition slam_frame_witness (n : string) : string := "cloud-" +:+ n.
(** [geo]: the session is read with its map's type, and the map is a geo one; [save]: a SLAM recording or save is under way *)
Definition frame_verdict (s : Session) (geo : bool) (reading : option string * option bool) (save : bool) : Verdict :=
  if negb (s_aligned s) || geo then FRAME_UNKNOWN
  else
    match placement_frame s, definitive_frame reading with
    | Some expected, Some observed => if save then FRAME_UNKNOWN else if bool_decide (observed = expected) then FRAME_OK else FRAME_MISMATCH
    | _, _ => FRAME_UNKNOWN
    end.

Definition epoch_to_stamp (s : Session) (row : option (Z * bool)) : option Z :=
  match row with Some (e, true) => if s_aligned s then Some e else None | _ => None end.
(** The session that ended last: the greatest end time, then the greatest id *)
Definition later (a b : Session) : bool :=
  match s_ended a, s_ended b with
  | Some x, Some y => (x <? y)%Z || ((x =? y)%Z && (s_id a <? s_id b)%nat)
  | _, _ => false
  end.
Definition last_ended (ss : list Session) : option Session :=
  match ss with [] => None | s :: ss => Some (foldl (fun a b => if later a b then b else a) s ss) end.
Definition reusable_session (ss : list Session) (r : string) (row : option (Z * bool)) : option Session :=
  match row with
  | Some (e, true) =>
      match last_ended (List.filter (fun s => bool_decide (s_robot s = r) && negb (is_open s)) ss) with
      | Some s => if s_aligned s && bool_decide (s_epoch s = Some e) then Some s else None
      | None => None
      end
  | _ => None
  end.

(** ** Whether a map holds data *)

Definition map_has_nodes (row : MapRow) (previous : list Session) (count : option N) : bool :=
  match count with
  | Some c => (0 <? c)%N
  | None => existsb (fun s => (0 <? s_nodes s)%N) previous || (0 <? m_nodes row)%N
  end.
Definition has_data (row : MapRow) (ss : list Session) (count : option N) : bool := m_slam_saved row || map_has_nodes row ss count.

(** ** Requests *)

Inductive Code := E400 | E404 | E409 | E422.

(** A placement on start: its source when given, the pose on the map and the robot's own *)
Record StartRequest := { q_robot : string; q_purpose : Purpose; q_services : option (list Service); q_placement : option (option Source * Z * Z); q_replace : bool }.
Fixpoint dedupe (l : list Service) : list Service :=
  match l with [] => [] | x :: l => x :: List.filter (fun y => negb (bool_decide (y = x))) (dedupe l) end.
(** [session_services] *)
Definition session_services (q : StartRequest) (slam_map : bool) : option (list Service) :=
  match q_purpose q with
  | operate => None
  | mapping => Some (match q_services q with None => TOPO :: (if slam_map then [SLAM] else []) | Some l => dedupe l end)
  end.
Definition has_slam (services : option (list Service)) : bool := match services with Some l => bool_decide (SLAM ∈ l) | None => false end.
Definition poseless (src : option Source) : bool := bool_decide (src = Some RELOC) || bool_decide (src = Some DATUM).
(** The body: services only with a mapping session *)
Definition start_body (q : StartRequest) : bool := match q_purpose q, q_services q with operate, Some _ => false | _, _ => true end.

(** ** Operations *)

(** The floating-point formulas of map_geo.py and map_sessions.py, and the bucket of a map's name *)
Class Geometry := {
  IDENTITY : Z; placement_transform : Z -> Z -> Z; reloc_map_t_session : Z; geo_from_datum : Z -> Z;
  session_transform : Z -> Z -> Z; geo_transform_for : Z -> Z -> option Z; bucket_key : string -> string;
}.

Section operations.
Context {geometry : Geometry}.

(** [_finish_in] *)
Definition finish_in (s : Session) (now : Z) (count : option N) (db : Db) : Db :=
  let stamp := epoch_to_stamp s (if s_aligned s then epochs db !! s_robot s else None) in
  let db := update_session (s_id s) (session_times None (Some now) stamp) db in
  match maps db !! s_map s with
  | None => db
  | Some row =>
      match s_purpose s with
      | operate => db
      | mapping =>
          let ss := sessions_on db (s_map s) in
          match List.filter (fun o => maps_on (s_map s) o && negb (bool_decide (s_id o = s_id s))) ss with
          | [] => update_map (s_map s) (row_state (if has_data row ss count then READY else DRAFT) None) db
          | o :: _ => update_map (s_map s) (fun m => row_state (m_state m) (Some (s_id o)) m) db
          end
      end
  end.

(** What [plan_session] decides: the session's datum, transform, whether it is placed, its placement, the map's georeference *)
Record Plan := { pl_datum : option Z; pl_transform : Z; pl_aligned : bool; pl_placement : option Placement; pl_geo : option Z }.
Definition plan_session (row : MapRow) (robot : RobotRow) (purpose : Purpose) (placement : option (Z * Z)) (carried : option Session)
    (has_nodes : bool) (frame : option string) : result Code Plan :=
  match m_type row with
  | Geo =>
      match r_datum robot with
      | None => Raise E409
      | Some datum =>
          let geo := match m_geo row with Some g => g | None => geo_from_datum datum end in
          Ok {| pl_datum := Some datum; pl_transform := session_transform geo datum; pl_aligned := true; pl_placement := None; pl_geo := Some geo |}
      end
  | Local =>
      match placement with
      | Some (pose, robot_pose) =>
          Ok {| pl_datum := None; pl_transform := placement_transform pose robot_pose; pl_aligned := true;
                pl_placement := placement_with_frame (Some {| p_source := Some USER; p_from := None; p_frame := None; p_unplaced := None |}) frame; pl_geo := m_geo row |}
      | None =>
          match carried with
          | Some c =>
              Ok {| pl_datum := None; pl_transform := s_transform c; pl_aligned := true; pl_geo := m_geo row;
                    pl_placement := placement_with_frame (Some {| p_source := Some SESSION; p_from := Some (s_id c); p_frame := None; p_unplaced := None |}) (placement_frame c) |}
          | None =>
              let first_of_empty := bool_decide (purpose = mapping) && negb has_nodes in
              Ok {| pl_datum := None; pl_transform := IDENTITY; pl_aligned := first_of_empty;
                    pl_placement := if first_of_empty then placement_with_frame None frame else None; pl_geo := m_geo row |}
          end
      end
  end.

(** The placement that [_start_in] carries over: the replaced session's, or that of the robot's last session on the map in
    the same run; none whose frame is definitely another *)
Definition mismatch (db : Db) (robot : string) (r : RobotRow) (s : Session) : bool :=
  bool_decide (frame_verdict s false (frame_reading r) (bool_decide (robot ∈ saves db)) = FRAME_MISMATCH).
Definition unless_mismatch (db : Db) (robot : string) (r : RobotRow) (o : option Session) : option Session :=
  match o with Some s => if mismatch db robot r s then None else Some s | None => None end.
Definition carried_placement (db : Db) (n : string) (row : MapRow) (robot : string) (r : RobotRow) (placed : bool) (replaced : option Session) : option Session :=
  let carried := unless_mismatch db robot r (match replaced with Some s => if s_aligned s then Some s else None | None => None end) in
  match carried with
  | Some s => Some s
  | None => if placed || negb (bool_decide (m_type row = Local)) then None
            else unless_mismatch db robot r (reusable_session (sessions_on db n) robot (epochs db !! robot))
  end.

(** [_start_in]: the robot has no open session any more; [replaced] is the one it had on this map *)
Definition start_in (n : string) (q : StartRequest) (replaced : option Session) (count : option N) (db : Db) : result Code Db :=
  match maps db !! n with
  | None => Raise E404
  | Some row =>
      if bool_decide (m_state row = ARCHIVED) then Raise E409
      else
        match robots db !! q_robot q with
        | None => Raise E404
        | Some r =>
            if negb (r_online r) then Raise E409
            else if bool_decide (q_purpose q = operate) && bool_decide (m_state row = DRAFT) then Raise E409
            else if bool_decide (q_purpose q = mapping) && existsb (maps_on n) (sessions db) then Raise E409
            else if bool_decide (is_Some (q_placement q)) && bool_decide (m_type row = Geo) then Raise E422
            else if match q_placement q with Some (src, _, _) => poseless src | None => false end then Raise E422
            else
              let placement := match q_placement q with Some (_, pose, robot_pose) => Some (pose, robot_pose) | None => None end in
              let carried := carried_placement db n row (q_robot q) r (bool_decide (is_Some placement)) replaced in
              let local := bool_decide (m_type row = Local) in
              let has_nodes := local && negb (bool_decide (is_Some placement)) && negb (bool_decide (is_Some carried)) && map_has_nodes row (sessions_on db n) count in
              let services := session_services q (local && m_slam_map row) in
              if has_slam services && negb local then Raise E400
              else
                let frame := if negb local then None else if has_slam services then Some (slam_frame_witness n) else definitive_frame (frame_reading r) in
                match plan_session row r (q_purpose q) placement carried has_nodes frame with
                | Raise e => Raise e
                | Ok plan =>
                    let s := {| s_id := next_id db; s_map := n; s_robot := q_robot q; s_purpose := q_purpose q; s_services := services;
                                s_placement := pl_placement plan; s_paused := None; s_ended := None; s_datum := pl_datum plan;
                                s_transform := pl_transform plan; s_aligned := pl_aligned plan; s_nodes := 0; s_epoch := None |} in
                    let db := {| maps := maps db; sessions := sessions db ++ [s]; robots := robots db; epochs := epochs db; saves := saves db; next_id := S (next_id db) |} in
                    let db := update_map n (row_spec (m_type row) (pl_geo plan) (m_slam_map row || has_slam services)) db in
                    Ok (match q_purpose q with mapping => update_map n (row_state MAPPING (Some (s_id s))) db | operate => db end)
                end
        end
  end.

(** [_lock_alive_map] *)
Definition alive_map (n : string) (db : Db) : result Code MapRow :=
  match maps db !! n with
  | None => Raise E404
  | Some row => if m_deleting row then Raise E409 else Ok row
  end.

(** [_open_tx]: the transaction of a start; a refused start is rolled back *)
Definition open_tx (n : string) (q : StartRequest) (now : Z) (count count_replaced : option N) (db : Db) : result Code Db :=
  match robots db !! q_robot q with
  | None => rbind (alive_map n db) (fun _ => Raise E404)
  | Some r =>
      rbind (alive_map n db) (fun _ =>
        match open_sessions_of_robot db (q_robot q) with
        | [] => start_in n q None count db
        | current :: _ =>
            if negb (q_replace q) then Raise E409
            else if negb (r_online r) then Raise E409
            else start_in n q (if bool_decide (s_map current = n) then Some current else None) count (finish_in current now count_replaced db)
        end)
  end.

(** How the wait for a robot's upload backlog ended *)
Inductive WaitState := DRAINED | UNKNOWN | STALLED | CAP.
(** What a start reads before its transaction, while other requests may change the tables: whether nodes of the map are
    being deleted; whether [backlog_fetch] is given, the robot's open session (absent also when it cannot be read), [force],
    how the wait ended and the session after it; whether a relocalization job of the robot runs, and whether the map is a
    local one that records SLAM maps *)
Record Gate := { g_deleting : bool; g_fetch : bool; g_open : option Session; g_force : bool; g_wait : WaitState; g_now : option Session; g_relocating : bool; g_slam_wanted : bool }.
(** [_wait_for_backlog]: whether it raises 409 *)
Definition wait_for_backlog (g : Gate) : bool :=
  match g_open g with
  | None => false
  | Some s =>
      if negb (is_open s) || negb (bool_decide (s_purpose s = mapping)) then false
      else if g_force g then false
      else
        match g_wait g with
        | UNKNOWN => false
        | STALLED | CAP => true
        | DRAINED =>
            match g_now g with
            | None => true
            | Some t => if is_open t then negb (Bool.eqb (bool_decide (s_paused t = None)) (bool_decide (s_paused s = None))) else false
            end
        end
  end.
(** [start_session]; what it does on the robot after the transaction is in SlamSave.v *)
Definition start_session (g : Gate) (n : string) (q : StartRequest) (now : Z) (count count_replaced : option N) (db : Db) : result Code Db :=
  if negb (start_body q) then Raise E422
  else if g_deleting g then Raise E409
  else if q_replace q && g_fetch g && wait_for_backlog g then Raise E409
  else if bool_decide (q_purpose q = mapping) && g_relocating g && match q_services q with Some l => bool_decide (SLAM ∈ l) | None => g_slam_wanted g end then Raise E409
  else open_tx n q now count count_replaced db.

(** [session_action] *)
Inductive Action := pause | resume | finish.
#[export] Instance Action_eq_dec : EqDecision Action.
Proof. solve_decision. Defined.
Definition session_action (n : string) (id : nat) (a : Action) (now : Z) (count : option N) (db : Db) : result Code Db :=
  rbind (alive_map n db) (fun _ =>
    match session_of db id with
    | None => Raise E404
    | Some s =>
        if negb (bool_decide (s_map s = n)) then Raise E404
        else if bool_decide (a = finish) then Ok (if is_open s then finish_in s now count db else db)
        else if negb (is_open s) then Raise E409
        else if negb (bool_decide (s_purpose s = mapping)) then Raise E409
        else if Bool.eqb (bool_decide (a = pause)) (bool_decide (is_Some (s_paused s))) then Ok db
        else
          let stamp := if bool_decide (a = pause) then Some now else None in
          Ok (update_map n (fun m => row_state (if bool_decide (a = pause) then PAUSED else MAPPING) (m_open m) m)
                (update_session id (fun s => session_times stamp (s_ended s) (s_epoch s) s) db))
    end).

(** [_archive_or_restore] *)
Definition archive_map (n : string) (db : Db) : result Code Db :=
  rbind (alive_map n db) (fun row =>
    if bool_decide (m_state row = ARCHIVED) then Ok db
    else if existsb (open_on n) (sessions db) then Raise E409
    else if bool_decide (m_state row = MAPPING) || bool_decide (m_state row = PAUSED) then Raise E409
    else Ok (update_map n (fun m => row_state ARCHIVED (m_open m) m) db)).
Definition restore_map (n : string) (count : option N) (db : Db) : result Code Db :=
  rbind (alive_map n db) (fun row =>
    if negb (bool_decide (m_state row = ARCHIVED)) then Ok db
    else Ok (update_map n (fun m => row_state (if has_data row (sessions_on db n) count then READY else DRAFT) (m_open m) m) db)).

(** [create_map]; [nodes]: nodes of that name without a row *)
Definition create_map (n : string) (t : MapType) (slam : bool) (nodes : bool) (db : Db) : result Code Db :=
  if nodes then Raise E409
  else if existsb (fun k => negb (bool_decide (k = n)) && bool_decide (bucket_key k = bucket_key n)) (map_to_list (maps db)).*1 then Raise E409
  else match maps db !! n with
       | Some _ => Raise E409
       | None => Ok (with_maps (<[n := {| m_deleting := false; m_type := t; m_state := DRAFT; m_open := None; m_geo := None; m_slam_map := slam;
                                         m_slam_saved := false; m_nodes := 0 |}]> (maps db)) db)
       end.

(** [convert_map_type]: [geo] is the georeference of the anchor; [reloc]: a relocalization runs on the map *)
Definition convert_map_type (n : string) (t : MapType) (geo : Z) (reloc : bool) (db : Db) : result Code Db :=
  rbind (alive_map n db) (fun row =>
    if bool_decide (t = m_type row) then Raise E409
    else if existsb (maps_on n) (sessions db) || bool_decide (m_state row = MAPPING) || bool_decide (m_state row = PAUSED) then Raise E409
    else if reloc then Raise E409
    else
      match t with
      | Local => Ok (update_map n (row_spec Local None (m_slam_map row)) db)
      | Geo =>
          let stamp (s : Session) :=
            if open_on n s && s_aligned s then
              match robots db !! s_robot s ≫= r_datum with
              | Some d => if bool_decide (is_Some (geo_transform_for geo d)) then session_place (s_placement s) (Some d) (s_transform s) (s_aligned s) s else s
              | None => s
              end
            else s in
          Ok (update_map n (row_spec Geo (Some geo) false) (with_sessions (stamp <$> sessions db) db))
      end).

(** [place_session], its transaction: with poses, from the robot's datum, or from its relocalization ([held]: the robot's
    orchestrator holds the stored map) *)
Inductive PlaceRequest := ByPose (src : option Source) (pose robot_pose : Z) | ByDatum | ByReloc (held : bool).
Definition place_session (n : string) (id : nat) (q : PlaceRequest) (db : Db) : result Code Db :=
  rbind (alive_map n db) (fun row =>
    match session_of db id with
    | None => Raise E404
    | Some s =>
        let by_datum := match q with ByDatum => true | _ => false end in
        if negb (bool_decide (s_map s = n)) then Raise E404
        else if negb (is_open s) then Raise E409
        else if bool_decide (m_type row = Geo) && negb by_datum then Raise E409
        else if negb (bool_decide (m_type row = Geo)) && by_datum then Raise E409
        else if by_datum && s_aligned s then Raise E409
        else
          match robots db !! s_robot s with
          | None => Raise E404
          | Some r =>
              if negb (r_online r) then Raise E409
              else
                let frame := if bool_decide (s_purpose s = mapping) && has_slam (s_services s) then Some (slam_frame_witness n) else definitive_frame (frame_reading r) in
                let record src := Some {| p_source := Some src; p_from := None; p_frame := None; p_unplaced := None |} in
                match q with
                | ByDatum =>
                    match r_datum r, m_geo row with
                    | Some d, Some g =>
                        match geo_transform_for g d with
                        | Some t => Ok (update_session id (session_place (record DATUM) (Some d) t true) db)
                        | None => Raise E409
                        end
                    | _, _ => Raise E409
                    end
                | ByReloc held =>
                    if bool_decide (r_initialized r = Some false) then Raise E409
                    else if negb held then Raise E409
                    else Ok (update_session id (session_place (placement_with_frame (record RELOC) frame) (s_datum s) reloc_map_t_session true) db)
                | ByPose src pose robot_pose =>
                    Ok (update_session id (session_place (placement_with_frame (record (default USER src)) frame) (s_datum s) (placement_transform pose robot_pose) true) db)
                end
          end
    end).

Definition unplaced (why : Reason) (p : option Placement) : option Placement :=
  let p := default {| p_source := None; p_from := None; p_frame := None; p_unplaced := None |} p in
  Some {| p_source := p_source p; p_from := p_from p; p_frame := p_frame p; p_unplaced := Some why |}.
(** [unplace_session]; [reloc]: a relocalization runs for the robot *)
Definition unplace_session (n : string) (id : nat) (reloc : bool) (db : Db) : result Code Db :=
  rbind (alive_map n db) (fun row =>
    match session_of db id with
    | None => Raise E404
    | Some s =>
        if negb (bool_decide (s_map s = n)) then Raise E404
        else if negb (is_open s) then Raise E409
        else if bool_decide (m_type row = Geo) then Raise E409
        else if reloc then Raise E409
        else if negb (s_aligned s) then Ok db
        else Ok (update_session id (fun s => session_place (unplaced MANUAL (s_placement s)) (s_datum s) (s_transform s) false s) db)
    end).

(** [mark_slam_saved] *)
Definition mark_slam_saved (n : string) (db : Db) : Db :=
  match maps db !! n with
  | None => db
  | Some row =>
      if m_deleting row then db
      else update_map n (fun m => row_flags (m_deleting m) true (row_state (if bool_decide (m_state m = DRAFT) then READY else m_state m) (m_open m) m)) db
  end.

(** [_delete_nodes]: the check before the nodes are deleted, and what follows *)
Definition may_delete_nodes (n : string) (db : Db) : result Code Db :=
  rbind (alive_map n db) (fun _ => if existsb (fun s => maps_on n s && negb (bool_decide (is_Some (s_paused s)))) (sessions db) then Raise E409 else Ok db).
Definition nodes_deleted (n : string) (count : option N) (db : Db) : Db :=
  match maps db !! n with
  | None => db
  | Some row =>
      if m_deleting row then db
      else if bool_decide (m_state row = READY) && bool_decide (count = Some 0%N) && negb (m_slam_saved row)
      then update_map n (fun m => row_state DRAFT (m_open m) m) db else db
  end.

(** The delete of a map: [refuse_open_session] and the mark of [MapDeleter.request], and the removal of the row (MapDelete.v) *)
Definition delete_map (n : string) (db : Db) : result Code Db :=
  if existsb (open_on n) (sessions db) then Raise E409
  else Ok (with_maps (partial_alter (fun o => Some (match o with
         | Some m => row_flags true (m_slam_saved m) m
         | None => {| m_deleting := true; m_type := Local; m_state := READY; m_open := None; m_geo := None; m_slam_map := false; m_slam_saved := false; m_nodes := 0 |}
         end)) n (maps db)) db).
Definition remove_map (n : string) (db : Db) : Db :=
  match maps db !! n with
  | Some row => if m_deleting row then with_sessions (List.filter (fun s => negb (bool_decide (s_map s = n))) (sessions db)) (with_maps (delete n (maps db)) db) else db
  | None => db
  end.
(** [delete_map_closing_sessions]: every open session of the map is finished, one transaction each *)
Definition close_sessions (n : string) (ids : list nat) (now : Z) (count : option N) (db : Db) : result Code Db :=
  rfold (fun db id => match session_action n id finish now count db with Raise E404 => Ok db | r => r end) db ids.
Definition delete_map_closing_sessions (n : string) (now : Z) (count : option N) (db : Db) : result Code Db :=
  let ids := match maps db !! n with
             | Some row => if m_deleting row then [] else s_id <$> List.filter (open_on n) (sessions db)
             | None => []
             end in
  rbind (close_sessions n ids now count db) (delete_map n).

(** [RobotDeleter._close_and_clear]; [busy]: the robot is on a task or has a mission *)
Definition close_and_clear (r : string) (busy : bool) (now : Z) (count : string -> option N) (db : Db) : result Code Db :=
  match robots db !! r with
  | None => Raise E404
  | Some _ =>
      if busy then Raise E409
      else
        let db := foldl (fun db s => finish_in s now (count (s_map s)) db) db (open_sessions_of_robot db r) in
        Ok (with_robots (robots db) (delete r (epochs db)) (saves db) db)
  end.

(** The dispatcher: a run or frame change unplaces the robot's open session; a datum re-places a geo one *)
Definition unplace_robot (r : string) (why : Reason) (db : Db) : Db :=
  with_sessions ((fun s => if is_open s && bool_decide (s_robot s = r) && s_aligned s
    then session_place (unplaced why (s_placement s)) (s_datum s) (s_transform s) false s else s) <$> sessions db) db.
Definition replace_geo_session (id : nat) (was_placed : bool) (was_datum : option Z) (datum transform : Z) (db : Db) : Db :=
  with_sessions ((fun s => if bool_decide (s_id s = id) && is_open s && Bool.eqb (s_aligned s) was_placed && bool_decide (s_datum s = was_datum)
    then session_place (Some {| p_source := Some DATUM; p_from := None; p_frame := None; p_unplaced := None |}) (Some datum) transform true s else s) <$> sessions db) db.
(** The ingest: nodes of a session are counted *)
Definition count_nodes (id : nat) (k : N) (db : Db) : Db := update_session id (session_nodes k) db.

(** ** Steps *)

Inductive Op :=
| Create (n : string) (t : MapType) (slam nodes : bool)
| Start (n : string) (q : StartRequest) (now : Z) (count count_replaced : option N)   (* a start that got to its transaction *)
| Act (n : string) (id : nat) (a : Action) (now : Z) (count : option N)
| Archive (n : string)
| Restore (n : string) (count : option N)
| Convert (n : string) (t : MapType) (geo : Z) (reloc : bool)
| Place (n : string) (id : nat) (q : PlaceRequest)
| Unplace (n : string) (id : nat) (reloc : bool)
| SlamSaved (n : string)
| NodesDeleted (n : string) (count : option N)
| Delete (n : string)
| Remove (n : string)
| DeleteRobot (r : string) (busy : bool) (now : Z) (count : string -> option N)
| RunChanged (r : string) (epoch : Z)
| NewEpoch (r : string) (epoch : Z)     (* [_run_epoch_check]: the robot's first state message does not prove its run *)
| FrameChanged (r : string)
| ReplaceGeo (id : nat) (was_placed : bool) (was_datum : option Z) (datum transform : Z)
| CountNodes (id : nat) (k : N)
| Robots (rs : gmap string RobotRow) (es : gmap string (Z * bool)) (sv : gset string).  (* what the dispatcher and the robots' saves write *)

Definition answer (op : Op) (db : Db) : result Code Db :=
  match op with
  | Create n t slam nodes => create_map n t slam nodes db
  | Start n q now count count_replaced => open_tx n q now count count_replaced db
  | Act n id a now count => session_action n id a now count db
  | Archive n => archive_map n db
  | Restore n count => restore_map n count db
  | Convert n t geo reloc => convert_map_type n t geo reloc db
  | Place n id q => place_session n id q db
  | Unplace n id reloc => unplace_session n id reloc db
  | SlamSaved n => Ok (mark_slam_saved n db)
  | NodesDeleted n count => Ok (nodes_deleted n count db)
  | Delete n => delete_map n db
  | Remove n => Ok (remove_map n db)
  | DeleteRobot r busy now count => close_and_clear r busy now count db
  | RunChanged r e => Ok (with_robots (robots db) (<[r := (e, true)]> (epochs db)) (saves db) (unplace_robot r RUN_CHANGED db))
  | NewEpoch r e => Ok (with_robots (robots db) (<[r := (e, true)]> (epochs db)) (saves db) db)
  | FrameChanged r => Ok (unplace_robot r FRAME_CHANGED db)
  | ReplaceGeo id p d datum t => Ok (replace_geo_session id p d datum t db)
  | CountNodes id k => Ok (count_nodes id k db)
  | Robots rs es sv => Ok (with_robots rs es sv db)
  end.
(** A refused request changes nothing. A delete that closes the sessions of the map is its requests, one after the other. *)
Definition step (db : Db) (op : Op) : Db := match answer op db with Ok db' => db' | Raise _ => db end.
Definition new_db : Db := {| maps := ∅; sessions := []; robots := ∅; epochs := ∅; saves := ∅; next_id := 0 |}.

(** ** The invariant *)

Definition key (s : Session) := (s_id s, s_map s, s_robot s, s_purpose s, s_paused s, s_ended s).
Definition row_key (m : MapRow) := (m_deleting m, m_state m, m_open m).
Definition paused_state (s : Session) : MapState := match s_paused s with Some _ => PAUSED | None => MAPPING end.

(** A row that an open session is on *)
Definition serves (row : MapRow) (s : Session) : Prop :=
  m_deleting row = false /\ m_state row <> ARCHIVED
  /\ match s_purpose s with mapping => m_open row = Some (s_id s) /\ m_state row = paused_state s | operate => s_paused s = None end.
Record Wf (db : Db) : Prop := {
  wf_ids : NoDup (s_id <$> sessions db);
  wf_next : Forall (fun s => s_id s < next_id db) (sessions db);
  wf_robot : forall s t, s ∈ sessions db -> t ∈ sessions db -> is_open s = true -> is_open t = true -> s_robot s = s_robot t -> s_id s = s_id t;
  wf_open : forall s, s ∈ sessions db -> is_open s = true -> exists row, maps db !! s_map s = Some row /\ serves row s;
  wf_map : forall n row, maps db !! n = Some row -> (m_state row = MAPPING \/ m_state row = PAUSED \/ is_Some (m_open row)) -> exists s, s ∈ sessions db /\ maps_on n s = true;
}.

Lemma same_session db s t : Wf db -> s ∈ sessions db -> t ∈ sessions db -> s_id s = s_id t -> s = t.
Proof.
  intros W. pose proof (wf_ids _ W) as Hn. revert Hn. clear. induction (sessions db) as [|x l IH]; cbn; [by intros _ ?%elem_of_nil|].
  intros [Hx Hn]%NoDup_cons [->|Hs]%elem_of_cons [->|Ht]%elem_of_cons E; auto; destruct Hx; [rewrite E|rewrite <-E]; by apply list_elem_of_fmap_2.
Qed.
Lemma is_open_key s t : key s = key t -> is_open s = is_open t.
Proof. unfold is_open. intros [= ? ? ? ? ? ->]. done. Qed.
Lemma maps_on_spec n s : maps_on n s = true <-> is_open s = true /\ s_map s = n /\ s_purpose s = mapping.
Proof. unfold maps_on, open_on. rewrite !andb_true_iff, !bool_decide_eq_true. tauto. Qed.

(** What the invariant sees of the tables *)
Lemma wf_ext db db' : key <$> sessions db' = key <$> sessions db -> next_id db' = next_id db ->
  (forall n, row_key <$> maps db' !! n = row_key <$> maps db !! n) -> Wf db -> Wf db'.
Proof.
  intros Hs Hn Hm W.
  assert (Hto : forall s', s' ∈ sessions db' -> exists s, s ∈ sessions db /\ key s' = key s).
  { intros s' H. apply (list_elem_of_fmap_2 key) in H. rewrite Hs in H. apply list_elem_of_fmap in H as (s & E & Hin). eauto. }
  assert (Hfrom : forall s, s ∈ sessions db -> exists s', s' ∈ sessions db' /\ key s' = key s).
  { intros s H. apply (list_elem_of_fmap_2 key) in H. rewrite <-Hs in H. apply list_elem_of_fmap in H as (s' & E & Hin). eauto. }
  assert (Hids : s_id <$> sessions db' = s_id <$> sessions db).
  { transitivity ((fun k => k.1.1.1.1.1) <$> (key <$> sessions db')); [by rewrite <-list_fmap_compose|]. rewrite Hs, <-list_fmap_compose. done. }
  split.
  - rewrite Hids. apply W.
  - apply Forall_forall. intros s' H. destruct (Hto s' H) as (s & Hin & [= -> _ _ _ _ _]). rewrite Hn. by apply (proj1 (Forall_forall _ _) (wf_next _ W)).
  - intros s' t' Hs' Ht' Os Ot Er. destruct (Hto s' Hs') as (s & Hin & Es), (Hto t' Ht') as (t & Htn & Et).
    rewrite (is_open_key _ _ Es) in Os. rewrite (is_open_key _ _ Et) in Ot. injection Es as E1 _ E2 _ _ _. injection Et as E3 _ E4 _ _ _. rewrite E1, E3. apply (wf_robot _ W); congruence.
  - intros s' H O. destruct (Hto s' H) as (s & Hin & Es). rewrite (is_open_key _ _ Es) in O. destruct (wf_open _ W s Hin O) as (row & Hrow & S1 & S2 & S3).
    pose proof (Hm (s_map s)) as Hk. rewrite Hrow in Hk. injection Es as E1 E2 E3 E4 E5 E6. rewrite E2. destruct (maps db' !! s_map s) as [row'|]; [|done].
    injection Hk as K1 K2 K3. exists row'. split; [done|]. unfold serves, paused_state in *. rewrite K1, K2, K3, E1, E4, E5. done.
  - intros n row' Hrow' Hst. pose proof (Hm n) as Hk. rewrite Hrow' in Hk. destruct (maps db !! n) as [row|] eqn:Hrow; [|done]. injection Hk as K1 K2 K3. rewrite K2, K3 in Hst.
    destruct (wf_map _ W n row Hrow Hst) as (s & Hin & Ho). destruct (Hfrom s Hin) as (s' & Hin' & Es). exists s'. split; [done|].
    apply maps_on_spec in Ho as (O1 & O2 & O3). apply maps_on_spec. rewrite (is_open_key _ _ Es). injection Es as _ -> _ -> _ _. done.
Qed.
Lemma keys_kept (f : Session -> Session) (ss : list Session) : (forall s, key (f s) = key s) -> key <$> (f <$> ss) = key <$> ss.
Proof. intros H. rewrite <-list_fmap_compose. apply list_fmap_ext. intros i s _. apply H. Qed.
Lemma rows_kept n f (ms : gmap string MapRow) : (forall m, row_key (f m) = row_key m) -> forall k, row_key <$> alter f n ms !! k = row_key <$> ms !! k.
Proof.
  intros H k. destruct (decide (k = n)) as [->|Hk]; [|by rewrite lookup_alter_ne]. rewrite lookup_alter_eq. destruct (ms !! n); cbn; [by rewrite H|done].
Qed.

(** ** Finishing a session *)

Definition ended (s : Session) (now : Z) (stamp : option Z) (db : Db) : Db := update_session (s_id s) (session_times None (Some now) stamp) db.

Lemma elem_update id f db s' : s' ∈ sessions (update_session id f db) <-> exists s, s' = (if bool_decide (s_id s = id) then f s else s) /\ s ∈ sessions db.
Proof. cbn. apply list_elem_of_fmap. Qed.
Lemma ended_open db s now stamp t : t ∈ sessions (ended s now stamp db) -> is_open t = true -> t ∈ sessions db /\ s_id t <> s_id s.
Proof. intros (u & -> & Hu)%elem_update. case_bool_decide; [done|]. done. Qed.
Lemma ended_keeps db s now stamp t : t ∈ sessions db -> s_id t <> s_id s -> t ∈ sessions (ended s now stamp db).
Proof. intros Ht Hid. apply elem_update. exists t. by rewrite bool_decide_false. Qed.
Lemma ended_ids db s now stamp : s_id <$> sessions (ended s now stamp db) = s_id <$> sessions db.
Proof. cbn. rewrite <-list_fmap_compose. apply list_fmap_ext. intros i u _. cbn. by case_bool_decide. Qed.
Lemma filter_nil {A} (p : A -> bool) l : (forall x, x ∈ l -> p x = false) -> List.filter p l = [].
Proof. induction l as [|x l IH]; cbn; [done|]. intros H. rewrite (H x) by set_solver. apply IH. set_solver. Qed.
Lemma elem_filter_bool {A} (p : A -> bool) l x : x ∈ List.filter p l <-> x ∈ l /\ p x = true.
Proof. rewrite !list_elem_of_In. apply List.filter_In. Qed.

(** No other session maps the map of an open mapping session. *)
Lemma one_mapping db s t n : Wf db -> s ∈ sessions db -> t ∈ sessions db -> maps_on n s = true -> maps_on n t = true -> s = t.
Proof.
  intros W Hs Ht (O1 & M1 & P1)%maps_on_spec (O2 & M2 & P2)%maps_on_spec. apply (same_session db); try done.
  destruct (wf_open _ W s Hs O1) as (r1 & L1 & _ & _ & S1), (wf_open _ W t Ht O2) as (r2 & L2 & _ & _ & S2). rewrite P1 in S1. rewrite P2 in S2. rewrite M1 in L1. rewrite M2 in L2. naive_solver.
Qed.
Lemma finish_shape s now count db : Wf db -> s ∈ sessions db -> is_open s = true ->
  exists stamp st, (st = READY \/ st = DRAFT) /\ finish_in s now count db =
    match s_purpose s with mapping => update_map (s_map s) (row_state st None) (ended s now stamp db) | operate => ended s now stamp db end.
Proof.
  intros W Hs Ho. unfold finish_in. set (stamp := epoch_to_stamp _ _). exists stamp. fold (ended s now stamp db). destruct (wf_open _ W s Hs Ho) as (row & Hrow & _).
  change (maps (ended s now stamp db)) with (maps db). rewrite Hrow. destruct (s_purpose s) eqn:Hp; [|exists READY; split; [by left|done]].
  rewrite filter_nil.
  - destruct (has_data _ _ _); [exists READY; split; [by left|done]|exists DRAFT; split; [by right|done]].
  - intros t [Ht _]%elem_filter_bool. apply andb_false_iff. destruct (maps_on (s_map s) t) eqn:Hm; [right|by left]. apply negb_false_iff, bool_decide_eq_true.
    destruct (ended_open _ _ _ _ _ Ht) as [Ht' Hid]; [by apply maps_on_spec in Hm as [? _]|]. destruct Hid. f_equal. eapply (one_mapping db); [done|done|done|exact Hm|]. apply maps_on_spec. done.
Qed.

Lemma finish_wf s now count db : Wf db -> s ∈ sessions db -> is_open s = true -> Wf (finish_in s now count db).
Proof.
  intros W Hs Ho. destruct (finish_shape s now count db W Hs Ho) as (stamp & st & Hst & ->). destruct (wf_open _ W s Hs Ho) as (row & Hrow & Sd & Sa & Sp).
  assert (Hnx : Forall (fun t => s_id t < next_id db) (sessions (ended s now stamp db))).
  { apply Forall_forall. intros t (u & -> & Hu)%elem_update. pose proof (proj1 (Forall_forall _ _) (wf_next _ W) u Hu). by case_bool_decide. }
  destruct (s_purpose s) eqn:Hp; split.
  - cbn [sessions update_map with_maps]. rewrite ended_ids. apply W.
  - exact Hnx.
  - intros t u Ht Hu Ot Ou. apply ended_open in Ht as [Ht _]; [|done]. apply ended_open in Hu as [Hu _]; [|done]. by apply (wf_robot _ W).
  - intros t Ht Ot. apply ended_open in Ht as [Ht Hid]; [|done]. cbn [maps update_map with_maps ended update_session with_sessions]. destruct (wf_open _ W t Ht Ot) as (rt & Lt & D & A & P).
    destruct (decide (s_map t = s_map s)) as [E|E]; [|exists rt; rewrite lookup_alter_ne by done; done].
    rewrite E in *. rewrite lookup_alter_eq, Hrow. exists (row_state st None row). split; [done|]. replace rt with row in * by congruence. split; [done|]. split; [by destruct Hst as [->| ->]|].
    destruct (s_purpose t); [|done]. exfalso. destruct P as [P _]. destruct Sp as [Sp _]. congruence.
  - intros n r. cbn [maps update_map with_maps ended update_session with_sessions]. intros Hr Hx. destruct (decide (n = s_map s)) as [->|E].
    + rewrite lookup_alter_eq, Hrow in Hr. injection Hr as <-. cbn in Hx. destruct Hst as [->| ->]; destruct Hx as [|[|[? ?]]]; done.
    + rewrite lookup_alter_ne in Hr by done. destruct (wf_map _ W n r Hr Hx) as (t & Ht & Hm). exists t. split; [|done]. apply ended_keeps; [done|]. intros Hid.
      pose proof (same_session db t s W Ht Hs Hid) as ->. apply maps_on_spec in Hm as (_ & Hm & _). congruence.
  - rewrite ended_ids. apply W.
  - exact Hnx.
  - intros t u Ht Hu Ot Ou. apply ended_open in Ht as [Ht _]; [|done]. apply ended_open in Hu as [Hu _]; [|done]. by apply (wf_robot _ W).
  - intros t Ht Ot. apply ended_open in Ht as [Ht Hid]; [|done]. by apply (wf_open _ W).
  - intros n r Hr Hx. destruct (wf_map _ W n r Hr Hx) as (t & Ht & Hm). exists t. split; [|done]. apply ended_keeps; [done|]. intros Hid.
    pose proof (same_session db t s W Ht Hs Hid) as ->. apply maps_on_spec in Hm as (_ & _ & Hm). congruence.
Qed.

(** ** Starting a session *)

Definition added (s : Session) (db : Db) : Db :=
  {| maps := maps db; sessions := sessions db ++ [s]; robots := robots db; epochs := epochs db; saves := saves db; next_id := S (next_id db) |}.

(** A new session of a robot that has none, on a map in service that no one maps, or that it only uses *)
Lemma added_wf db n row s f : Wf db -> maps db !! n = Some row -> m_deleting row = false -> m_state row <> ARCHIVED ->
  (forall t, t ∈ sessions db -> is_open t = true -> s_robot t <> s_robot s) ->
  s_id s = next_id db -> s_map s = n -> s_paused s = None -> is_open s = true ->
  match s_purpose s with
  | mapping => (forall t, t ∈ sessions db -> maps_on n t = false) /\ forall m, row_key (f m) = (m_deleting m, MAPPING, Some (s_id s))
  | operate => forall m, row_key (f m) = row_key m
  end -> Wf (update_map n f (added s db)).
Proof.
  intros W Hrow Hd Ha Hr Hid Hm Hpa Ho Hpur.
  assert (Hin : forall t, t ∈ sessions (update_map n f (added s db)) -> t ∈ sessions db \/ t = s) by (intros t; cbn; rewrite elem_of_app, list_elem_of_singleton; tauto).
  assert (Hsub : forall t, t ∈ sessions db -> t ∈ sessions (update_map n f (added s db))) by (intros t; cbn; rewrite elem_of_app; tauto).
  assert (Hs : s ∈ sessions (update_map n f (added s db))) by (cbn; rewrite elem_of_app, list_elem_of_singleton; tauto).
  assert (Hlt : forall t, t ∈ sessions db -> s_id t < next_id db) by apply (proj1 (Forall_forall _ _) (wf_next _ W)).
  split.
  - cbn. rewrite fmap_app. apply NoDup_app. split; [apply W|]. split; [|apply NoDup_singleton]. intros k (t & -> & Ht)%list_elem_of_fmap Hk. apply list_elem_of_singleton in Hk. specialize (Hlt t Ht). lia.
  - apply Forall_forall. intros t [Ht| ->]%Hin; cbn; [specialize (Hlt t Ht)|]; lia.
  - intros t u [Ht| ->]%Hin [Hu| ->]%Hin Ot Ou E; [by apply (wf_robot _ W)|by destruct (Hr t Ht Ot)|by destruct (Hr u Hu Ou)|done].
  - intros t Ht Ot. cbn [maps update_map with_maps added]. apply Hin in Ht as [Ht| ->].
    + destruct (wf_open _ W t Ht Ot) as (rt & Lt & D & A & P). destruct (decide (s_map t = n)) as [E|E]; [|exists rt; rewrite lookup_alter_ne by done; done].
      rewrite E in *. rewrite lookup_alter_eq, Lt. exists (f rt). split; [done|]. unfold serves. destruct (s_purpose s).
      * destruct Hpur as [Hno Hk]. specialize (Hk rt). injection Hk as K1 K2 K3. rewrite K1, K2, K3. split; [done|]. split; [done|]. destruct (s_purpose t) eqn:Hpt; [|done].
        exfalso. specialize (Hno t Ht). assert (maps_on n t = true) by (apply maps_on_spec; done). congruence.
      * specialize (Hpur rt). injection Hpur as K1 K2 K3. rewrite K1, K2, K3. done.
    + rewrite Hm, lookup_alter_eq, Hrow. exists (f row). split; [done|]. unfold serves, paused_state. rewrite Hpa. destruct (s_purpose s).
      * destruct Hpur as [_ Hk]. specialize (Hk row). injection Hk as K1 K2 K3. rewrite K1, K2, K3. done.
      * specialize (Hpur row). injection Hpur as K1 K2 K3. rewrite K1, K2. done.
  - intros k r. cbn [maps update_map with_maps added]. intros Hk Hx. destruct (decide (k = n)) as [->|E].
    + rewrite lookup_alter_eq, Hrow in Hk. injection Hk as <-. destruct (s_purpose s) eqn:Hp.
      * exists s. split; [done|]. by apply maps_on_spec.
      * specialize (Hpur row). injection Hpur as K1 K2 K3. rewrite K2, K3 in Hx. destruct (wf_map _ W n row Hrow Hx) as (t & Ht & Hmt). eauto.
    + rewrite lookup_alter_ne in Hk by done. destruct (wf_map _ W k r Hk Hx) as (t & Ht & Hmt). eauto.
Qed.

Lemma existsb_false {A} (p : A -> bool) l : existsb p l = false -> forall x, x ∈ l -> p x = false.
Proof. intros H x Hx. destruct (p x) eqn:E; [|done]. rewrite <-H. symmetry. apply List.existsb_exists. exists x. split; [by apply list_elem_of_In|done]. Qed.
Lemma update_twice n f g db : update_map n f (update_map n g db) = update_map n (fun m => f (g m)) db.
Proof. unfold update_map, with_maps. cbn. f_equal. apply map_eq. intros k. destruct (decide (k = n)) as [->|E]; [rewrite !lookup_alter_eq; by destruct (maps db !! n)|by rewrite !lookup_alter_ne]. Qed.

Lemma start_in_wf n q replaced count db db' : Wf db -> (forall row, maps db !! n = Some row -> m_deleting row = false) ->
  (forall t, t ∈ sessions db -> is_open t = true -> s_robot t <> q_robot q) -> start_in n q replaced count db = Ok db' -> Wf db'.
Proof.
  intros W Hd Hr. unfold start_in. destruct (maps db !! n) as [row|] eqn:Hrow; [|done]. case_bool_decide as Ha; [done|]. destruct (robots db !! q_robot q) as [r|]; [|done].
  destruct (negb (r_online r)); [done|]. destruct (bool_decide (q_purpose q = operate) && _); [done|].
  destruct (bool_decide (q_purpose q = mapping) && existsb (maps_on n) (sessions db)) eqn:Hmap; [done|].
  destruct (bool_decide (is_Some (q_placement q)) && _); [done|]. destruct (match q_placement q with Some (src, _, _) => poseless src | None => false end); [done|].
  destruct (has_slam _ && _); [done|]. destruct (plan_session _ _ _ _ _ _ _) as [plan|]; [|done]. cbv zeta. set (s := Build_Session _ _ _ _ _ _ _ _ _ _ _ _ _). fold (added s db).
  set (f := row_spec _ _ _). intros E. assert (Hf : forall m, row_key (f m) = row_key m) by done. destruct (q_purpose q) eqn:Hp; injection E as <-.
  - rewrite update_twice. apply (added_wf db n row s); try done; [by apply Hd|]. cbn. split; [|done]. by apply existsb_false.
  - apply (added_wf db n row s); try done. by apply Hd.
Qed.

Lemma finish_deleting s now count db n row : Wf db -> s ∈ sessions db -> is_open s = true -> maps (finish_in s now count db) !! n = Some row ->
  exists row0, maps db !! n = Some row0 /\ m_deleting row = m_deleting row0.
Proof.
  intros W Hs Ho. destruct (finish_shape s now count db W Hs Ho) as (stamp & st & _ & ->). destruct (s_purpose s); cbn; [|intros ->; by eexists].
  destruct (decide (n = s_map s)) as [->|E]; [|rewrite lookup_alter_ne by done; intros ->; by eexists]. rewrite lookup_alter_eq. destruct (maps db !! s_map s); [|done]. cbn. intros [= <-]. by eexists.
Qed.
Lemma finish_sessions s now count db t : Wf db -> s ∈ sessions db -> is_open s = true -> t ∈ sessions (finish_in s now count db) -> is_open t = true -> t ∈ sessions db /\ s_id t <> s_id s.
Proof. intros W Hs Ho. destruct (finish_shape s now count db W Hs Ho) as (stamp & st & _ & ->). destruct (s_purpose s); apply ended_open. Qed.
Lemma alive_ok n db row : alive_map n db = Ok row -> maps db !! n = Some row /\ m_deleting row = false.
Proof. unfold alive_map. destruct (maps db !! n) as [r|]; [|done]. destruct (m_deleting r) eqn:E; [done|]. by intros [= <-]. Qed.
Lemma open_of_robot db r s : s ∈ open_sessions_of_robot db r <-> s ∈ sessions db /\ is_open s = true /\ s_robot s = r.
Proof. unfold open_sessions_of_robot. rewrite elem_filter_bool, andb_true_iff, bool_decide_eq_true. done. Qed.

Lemma open_tx_wf n q now count c2 db db' : Wf db -> open_tx n q now count c2 db = Ok db' -> Wf db'.
Proof.
  intros W. unfold open_tx. destruct (robots db !! q_robot q) as [r|]; [|by destruct (alive_map n db)].
  destruct (alive_map n db) as [row|] eqn:Ea; [|done]. apply alive_ok in Ea as [Hrow Hd]. cbn [rbind]. pose proof (open_of_robot db (q_robot q)) as Ho.
  destruct (open_sessions_of_robot db (q_robot q)) as [|cur l] eqn:El.
  - apply start_in_wf; [done|congruence|]. intros t Ht Ot E. specialize (proj2 (Ho t) (conj Ht (conj Ot E))). apply elem_of_nil.
  - destruct (negb (q_replace q)); [done|]. destruct (negb (r_online r)); [done|]. destruct (proj1 (Ho cur) ltac:(set_solver)) as (Hc & Oc & Rc).
    apply start_in_wf; [by apply finish_wf| |].
    + intros row' Hrow'. destruct (finish_deleting cur now c2 db n row' W Hc Oc Hrow') as (row0 & E0 & ->). congruence.
    + intros t Ht Ot E. destruct (finish_sessions cur now c2 db t W Hc Oc Ht Ot) as [Ht' Hid]. apply Hid, (wf_robot _ W); congruence.
Qed.

(** ** The other operations *)

Lemma session_of_elem db id s : session_of db id = Some s -> s ∈ sessions db /\ s_id s = id.
Proof. intros [H1 H2]%find_first_Some. split; [done|]. by apply bool_decide_eq_true in H2. Qed.

(** The open mapping session [s] is paused or resumed, and its map with it. *)
Lemma paused_wf db s stamp st : Wf db -> s ∈ sessions db -> is_open s = true -> s_purpose s = mapping -> st = (match stamp with Some _ => PAUSED | None => MAPPING end) ->
  Wf (update_map (s_map s) (fun m => row_state st (m_open m) m) (update_session (s_id s) (fun s => session_times stamp (s_ended s) (s_epoch s) s) db)).
Proof.
  intros W Hs Ho Hp Hst. set (g := fun s => session_times stamp (s_ended s) (s_epoch s) s).
  assert (Hin : forall t, t ∈ sessions (update_session (s_id s) g db) -> exists u, u ∈ sessions db /\ s_id t = s_id u /\ s_robot t = s_robot u /\ is_open t = is_open u /\ (t = u /\ u <> s \/ t = g s /\ u = s)).
  { intros t (u & -> & Hu)%elem_update. exists u. case_bool_decide as E; [pose proof (same_session db u s W Hu Hs E) as ->|]; split_and!; try done; [by right|]. left. split; [done|]. by intros ->. }
  assert (Hgs : g s ∈ sessions (update_session (s_id s) g db)) by (apply elem_update; exists s; by rewrite bool_decide_true).
  destruct (wf_open _ W s Hs Ho) as (row & Hrow & Sd & Sa & Sp). rewrite Hp in Sp. destruct Sp as [Sp1 Sp2]. split.
  - cbn. rewrite <-list_fmap_compose. replace (s_id ∘ (fun s0 => if bool_decide (s_id s0 = s_id s) then g s0 else s0) <$> sessions db) with (s_id <$> sessions db); [apply W|].
    apply list_fmap_ext. intros i u _. cbn. by case_bool_decide.
  - apply Forall_forall. intros t (u & Hu & -> & _)%Hin. by apply (proj1 (Forall_forall _ _) (wf_next _ W)).
  - intros t u (t' & Ht & -> & -> & -> & _)%Hin (u' & Hu & -> & -> & -> & _)%Hin. by apply (wf_robot _ W).
  - intros t (u & Hu & _ & _ & Eo & Ht)%Hin Ot. rewrite Eo in Ot. cbn [maps update_map with_maps update_session with_sessions]. destruct Ht as [[-> Hne]|[-> ->]].
    + destruct (wf_open _ W u Hu Ot) as (ru & Lu & D & A & P). destruct (decide (s_map u = s_map s)) as [E|E]; [|exists ru; rewrite lookup_alter_ne by done; done].
      rewrite E in *. rewrite lookup_alter_eq, Lu. exists (row_state st (m_open ru) ru). split; [done|]. replace ru with row in * by congruence.
      split; [done|]. split; [rewrite Hst; by destruct stamp|]. destruct (s_purpose u); [|done]. exfalso. apply Hne. eapply (same_session db); try done. naive_solver.
    + cbn. rewrite lookup_alter_eq, Hrow. exists (row_state st (m_open row) row). split; [done|]. split; [done|]. split; [rewrite Hst; by destruct stamp|]. cbn. rewrite Hp. split; [done|]. unfold paused_state. cbn. by destruct stamp.
  - intros n r. cbn [maps update_map with_maps update_session with_sessions]. intros Hr Hx. destruct (decide (n = s_map s)) as [->|E].
    + exists (g s). split; [done|]. by apply maps_on_spec.
    + rewrite lookup_alter_ne in Hr by done. destruct (wf_map _ W n r Hr Hx) as (t & Ht & Hm). exists t. split; [|done]. apply elem_update. exists t. split; [|done].
      rewrite bool_decide_false; [done|]. intros Hid. pose proof (same_session db t s W Ht Hs Hid) as ->. apply maps_on_spec in Hm as (_ & Hm & _). congruence.
Qed.
Lemma session_action_wf n id a now count db db' : Wf db -> session_action n id a now count db = Ok db' -> Wf db'.
Proof.
  intros W. unfold session_action. destruct (alive_map n db) as [row|] eqn:Ea; [|done]. cbn [rbind]. destruct (session_of db id) as [s|] eqn:Es; [|done]. apply session_of_elem in Es as [Hs <-].
  case_bool_decide as Hn; [|done]. subst n. cbn [negb]. case_bool_decide as Hf; [destruct (is_open s) eqn:Ho; intros [= <-]; [by apply finish_wf|done]|].
  destruct (is_open s) eqn:Ho; [|done]. cbn [negb]. case_bool_decide as Hp; [|done]. cbn [negb]. destruct (Bool.eqb _ _); [by intros [= <-]|]. intros [= <-].
  apply paused_wf; try done. by case_bool_decide.
Qed.

(** A map without a mapping session changes its state. *)
Lemma restate_wf db n row st f : Wf db -> maps db !! n = Some row -> m_state row <> MAPPING -> m_state row <> PAUSED -> st <> MAPPING -> st <> PAUSED ->
  (st = ARCHIVED -> forall s, s ∈ sessions db -> open_on n s = false) -> (forall m, row_key (f m) = (m_deleting m, st, m_open m)) -> Wf (update_map n f db).
Proof.
  intros W Hrow H1 H2 H3 H4 H5 Hf.
  split; [apply W|apply W|apply W| |].
  - intros s Hs Ho. destruct (wf_open _ W s Hs Ho) as (r & Hr & D & A & P). cbn. destruct (decide (s_map s = n)) as [E|E]; [|exists r; rewrite lookup_alter_ne by done; done].
    rewrite E in *. rewrite lookup_alter_eq, Hr. exists (f r). split; [done|]. specialize (Hf r). injection Hf as K1 K2 K3. unfold serves. rewrite K1, K2, K3. split; [done|]. split.
    + intros ->. specialize (H5 eq_refl s Hs). unfold open_on in H5. rewrite Ho, bool_decide_true in H5 by done. done.
    + replace r with row in * by congruence. destruct (s_purpose s); [|done]. exfalso. destruct P as [_ P]. unfold paused_state in P. destruct (s_paused s); congruence.
  - intros k r. cbn. intros Hk Hx. destruct (decide (k = n)) as [->|E]; [|rewrite lookup_alter_ne in Hk by done; by apply (wf_map _ W k r)].
    rewrite lookup_alter_eq, Hrow in Hk. injection Hk as <-. specialize (Hf row). injection Hf as K1 K2 K3. rewrite K2, K3 in Hx. apply (wf_map _ W n row Hrow). destruct Hx as [|[|Hx]]; [done|done|tauto].
Qed.
Lemma archive_wf n db db' : Wf db -> archive_map n db = Ok db' -> Wf db'.
Proof.
  intros W. unfold archive_map. destruct (alive_map n db) as [row|] eqn:Ea; [|done]. apply alive_ok in Ea as [Hrow _]. cbn [rbind]. case_bool_decide; [by intros [= <-]|].
  destruct (existsb _ _) eqn:Ho; [done|]. do 2 case_bool_decide; try done. intros [= <-]. apply (restate_wf db n row ARCHIVED); try done. intros _. by apply existsb_false.
Qed.
Lemma restore_wf n count db db' : Wf db -> restore_map n count db = Ok db' -> Wf db'.
Proof.
  intros W. unfold restore_map. destruct (alive_map n db) as [row|] eqn:Ea; [|done]. apply alive_ok in Ea as [Hrow _]. cbn [rbind]. case_bool_decide as E; [|by intros [= <-]].
  intros [= <-]. eapply (restate_wf db n row (if has_data row (sessions_on db n) count then READY else DRAFT)); try done; try (rewrite E; done); by destruct (has_data _ _ _).
Qed.
Lemma slam_saved_wf n db : Wf db -> Wf (mark_slam_saved n db).
Proof.
  intros W. unfold mark_slam_saved. destruct (maps db !! n) as [row|] eqn:Hrow; [|done]. destruct (m_deleting row) eqn:Hd; [done|]. set (f := fun m => _).
  destruct (decide (m_state row = DRAFT)) as [E|E].
  - assert (Eq : update_map n f db = update_map n (fun m => row_flags (m_deleting m) true (row_state READY (m_open m) m)) db).
    { unfold update_map, with_maps. f_equal. apply map_eq. intros k. destruct (decide (k = n)) as [->|Ek]; [|by rewrite !lookup_alter_ne]. rewrite !lookup_alter_eq, Hrow. unfold f. cbn. by rewrite bool_decide_true. }
    rewrite Eq. eapply (restate_wf db n row READY); try done; rewrite E; done.
  - apply (wf_ext db); [done|done| |done]. intros k. cbn. destruct (decide (k = n)) as [->|Ek]; [|by rewrite lookup_alter_ne]. rewrite lookup_alter_eq, Hrow. unfold f, row_key. cbn. by rewrite bool_decide_false.
Qed.
Lemma nodes_deleted_wf n count db : Wf db -> Wf (nodes_deleted n count db).
Proof.
  intros W. unfold nodes_deleted. destruct (maps db !! n) as [row|] eqn:Hrow; [|done]. destruct (m_deleting row); [done|]. destruct (_ && _ && _) eqn:E; [|done].
  apply andb_true_iff in E as [[E _]%andb_true_iff _]. apply bool_decide_eq_true in E. eapply (restate_wf db n row DRAFT); try done; rewrite E; done.
Qed.
Lemma delete_map_wf n db db' : Wf db -> delete_map n db = Ok db' -> Wf db'.
Proof.
  intros W. unfold delete_map. destruct (existsb _ _) eqn:Ho; [done|]. intros [= <-]. pose proof (existsb_false _ _ Ho) as Hno.
  assert (Hne : forall s, s ∈ sessions db -> is_open s = true -> s_map s <> n) by (intros s Hs Os <-; specialize (Hno s Hs); unfold open_on in Hno; rewrite Os, bool_decide_true in Hno by done; done).
  split; [apply W|apply W|apply W| |]; cbn.
  - intros s Hs Os. rewrite lookup_partial_alter_ne by (apply not_eq_sym; by apply Hne). by apply (wf_open _ W).
  - intros k r Hk Hx. destruct (decide (k = n)) as [->|E]; [|rewrite lookup_partial_alter_ne in Hk by done; by apply (wf_map _ W k r)].
    rewrite lookup_partial_alter_eq in Hk. injection Hk as <-. destruct (maps db !! n) as [row|] eqn:Hrow; cbn in Hx.
    + destruct (wf_map _ W n row Hrow Hx) as (s & Hs & (O & M & _)%maps_on_spec). by destruct (Hne s Hs O).
    + destruct Hx as [|[|[? ?]]]; done.
Qed.
Lemma nodup_filter (p : Session -> bool) (l : list Session) : NoDup (s_id <$> l) -> NoDup (s_id <$> List.filter p l).
Proof.
  induction l as [|x l IH]; [done|]. cbn. intros [Hx Hn]%NoDup_cons. destruct (p x); [|by apply IH]. cbn. apply NoDup_cons. split; [|by apply IH].
  intros (s & E & [Hs _]%elem_filter_bool)%list_elem_of_fmap. apply Hx. rewrite E. by apply list_elem_of_fmap_2.
Qed.
Lemma remove_map_wf n db : Wf db -> Wf (remove_map n db).
Proof.
  intros W. unfold remove_map. destruct (maps db !! n) as [row|] eqn:Hrow; [|done]. destruct (m_deleting row) eqn:Hd; [|done].
  assert (Hin : forall s, s ∈ List.filter (fun s => negb (bool_decide (s_map s = n))) (sessions db) <-> s ∈ sessions db /\ s_map s <> n).
  { intros s. rewrite elem_filter_bool, negb_true_iff, bool_decide_eq_false. done. }
  split; cbn.
  - by apply nodup_filter, W.
  - apply Forall_forall. intros s [Hs _]%Hin. by apply (proj1 (Forall_forall _ _) (wf_next _ W)).
  - intros s t [Hs _]%Hin [Ht _]%Hin. by apply (wf_robot _ W).
  - intros s [Hs Hm]%Hin Ho. rewrite lookup_delete_ne by done. by apply (wf_open _ W).
  - intros k r Hk Hx. destruct (decide (k = n)) as [->|E]; [by rewrite lookup_delete_eq in Hk|]. rewrite lookup_delete_ne in Hk by done. destruct (wf_map _ W k r Hk Hx) as (s & Hs & Hm). exists s. split; [|done].
    apply Hin. split; [done|]. apply maps_on_spec in Hm as (_ & -> & _). done.
Qed.
Lemma create_wf n t slam nodes db db' : Wf db -> create_map n t slam nodes db = Ok db' -> Wf db'.
Proof.
  intros W. unfold create_map. destruct nodes; [done|]. destruct (existsb _ _); [done|]. destruct (maps db !! n) eqn:Hn; [done|]. intros [= <-].
  split; [apply W|apply W|apply W| |]; cbn.
  - intros s Hs Ho. destruct (wf_open _ W s Hs Ho) as (r & Hr & S). exists r. split; [|done]. rewrite lookup_insert_ne by (intros ->; congruence). done.
  - intros k r Hk Hx. destruct (decide (k = n)) as [->|E]; [|rewrite lookup_insert_ne in Hk by done; by apply (wf_map _ W k r)].
    rewrite lookup_insert_eq in Hk. injection Hk as <-. destruct Hx as [|[|[? ?]]]; done.
Qed.
(** Writes that only place, count or name *)
Lemma sessions_only db f : (forall s, key (f s) = key s) -> Wf db -> Wf (with_sessions (f <$> sessions db) db).
Proof. intros Hf. apply wf_ext; cbn; [by apply keys_kept|done|done]. Qed.
Lemma update_session_only db id f : (forall s, key (f s) = key s) -> Wf db -> Wf (update_session id f db).
Proof. intros Hf. apply sessions_only. intros s. by case_bool_decide. Qed.
Lemma update_map_only db n f : (forall m, row_key (f m) = row_key m) -> Wf db -> Wf (update_map n f db).
Proof. intros Hf. apply wf_ext; cbn; [done|done|by apply rows_kept]. Qed.
Lemma convert_wf n t geo reloc db db' : Wf db -> convert_map_type n t geo reloc db = Ok db' -> Wf db'.
Proof.
  intros W. unfold convert_map_type. destruct (alive_map n db) as [row|]; [|done]. cbn [rbind]. case_bool_decide; [done|]. destruct (_ || _); [done|]. destruct reloc; [done|].
  destruct t; intros [= <-]; (apply update_map_only; [done|]); [done|]. apply sessions_only; [|done]. intros s. destruct (_ && _); [|done]. destruct (_ ≫= _); [|done]. by case_bool_decide.
Qed.
Lemma place_wf n id q db db' : Wf db -> place_session n id q db = Ok db' -> Wf db'.
Proof.
  intros W. unfold place_session. destruct (alive_map n db) as [row|]; [|done]. cbn [rbind]. destruct (session_of db id) as [s|]; [|done].
  repeat (match goal with |- context [if ?b then Raise _ else _] => destruct b; [done|] end). destruct (robots db !! s_robot s) as [r|]; [|done].
  destruct (negb (r_online r)); [done|]. cbv zeta. destruct q as [src pose rp| |held].
  - intros [= <-]. by apply update_session_only.
  - destruct (r_datum r); [|done]. destruct (m_geo row); [|done]. destruct (geo_transform_for _ _); [|done]. intros [= <-]. by apply update_session_only.
  - case_bool_decide; [done|]. destruct (negb held); [done|]. intros [= <-]. by apply update_session_only.
Qed.
Lemma unplace_wf n id reloc db db' : Wf db -> unplace_session n id reloc db = Ok db' -> Wf db'.
Proof.
  intros W. unfold unplace_session. destruct (alive_map n db) as [row|]; [|done]. cbn [rbind]. destruct (session_of db id) as [s|]; [|done].
  repeat (match goal with |- context [if ?b then Raise _ else _] => destruct b; [done|] end). destruct (negb _); intros [= <-]; [done|]. by apply update_session_only.
Qed.
Lemma close_and_clear_wf r busy now count db db' : Wf db -> close_and_clear r busy now count db = Ok db' -> Wf db'.
Proof.
  intros W. unfold close_and_clear. destruct (robots db !! r); [|done]. destruct busy; [done|]. intros [= <-]. set (db1 := foldl _ _ _).
  assert (W1 : Wf db1); [|by apply (wf_ext db1)]. unfold db1. clear db1. pose proof (open_of_robot db r) as Ho.
  assert (Hnd : NoDup (s_id <$> open_sessions_of_robot db r)) by apply nodup_filter, W.
  destruct (open_sessions_of_robot db r) as [|s l]; [done|]. destruct (proj1 (Ho s) ltac:(set_solver)) as (Hs & Os & Rs). destruct l as [|t l]; [by apply finish_wf|].
  exfalso. destruct (proj1 (Ho t) ltac:(set_solver)) as (Ht & Ot & Rt). cbn in Hnd. apply NoDup_cons in Hnd as [Hnd _]. apply Hnd. rewrite (wf_robot _ W s t) by congruence. set_solver.
Qed.

Lemma step_wf db op : Wf db -> Wf (step db op).
Proof.
  intros W. unfold step. destruct (answer op db) as [db'|] eqn:E; [|done]. destruct op; cbn in E; try (injection E as <-).
  - by eapply create_wf.
  - by eapply open_tx_wf.
  - by eapply session_action_wf.
  - by eapply archive_wf.
  - by eapply restore_wf.
  - by eapply convert_wf.
  - by eapply place_wf.
  - by eapply unplace_wf.
  - by apply slam_saved_wf.
  - by apply nodes_deleted_wf.
  - by eapply delete_map_wf.
  - by apply remove_map_wf.
  - by eapply close_and_clear_wf.
  - apply (wf_ext db); [|done|done|done]. cbn. apply keys_kept. intros s. by destruct (_ && _).
  - by apply (wf_ext db).
  - apply sessions_only; [|done]. intros s. by destruct (_ && _).
  - apply sessions_only; [|done]. intros s. by destruct (_ && _).
  - by apply update_session_only.
  - by apply (wf_ext db).
Qed.
Lemma reachable_wf db : reachable step new_db db -> Wf db.
Proof.
  induction 1 as [|db op _ IH]; [|by apply step_wf]. split; cbn; try done; [constructor|..].
  - intros s t Hs. by apply elem_of_nil in Hs.
  - intros s Hs. by apply elem_of_nil in Hs.
Qed.

(** ** What the API promises *)

Lemma unique_filter {A} (p : A -> bool) l x : NoDup l -> x ∈ l -> p x = true -> (forall y, y ∈ l -> p y = true -> y = x) -> List.filter p l = [x].
Proof.
  induction l as [|a l IH]; intros Hn Hx Hp Hu; [by apply elem_of_nil in Hx|]. apply NoDup_cons in Hn as [Ha Hn]. cbn. destruct (p a) eqn:Ea.
  - assert (a = x) as -> by (apply Hu; [by left|done]). f_equal. apply filter_nil. intros y Hy. destruct (p y) eqn:Ey; [|done].
    destruct Ha. rewrite <-(Hu y); [done|by right|done].
  - apply elem_of_cons in Hx as [->|Hx]; [congruence|]. apply IH; [done|done|done|]. intros y Hy. apply Hu. set_solver.
Qed.
Lemma sessions_nodup db : Wf db -> NoDup (sessions db).
Proof. intros W. apply (NoDup_fmap_1 s_id), W. Qed.

(** C6: after any requests and any writes of the dispatcher, the ingest and the deletes: a robot has at most one open
    session; a map is in state mapping or paused exactly while one open mapping session is on it, which its row names
    and whose pause it shows; no session is open on a map that is archived, being deleted or gone; only mapping
    sessions are paused. *)
Theorem sessions_consistent (db : Db) : reachable step new_db db ->
  (forall r, length (open_sessions_of_robot db r) <= 1)
  /\ (forall n row, maps db !! n = Some row ->
        match m_state row with
        | MAPPING => exists s, List.filter (maps_on n) (sessions db) = [s] /\ m_open row = Some (s_id s) /\ s_paused s = None
        | PAUSED => exists s, List.filter (maps_on n) (sessions db) = [s] /\ m_open row = Some (s_id s) /\ is_Some (s_paused s)
        | _ => List.filter (maps_on n) (sessions db) = [] /\ m_open row = None
        end)
  /\ forall s, s ∈ sessions db -> is_open s = true ->
       exists row, maps db !! s_map s = Some row /\ m_deleting row = false /\ m_state row <> ARCHIVED /\ (s_purpose s = operate -> s_paused s = None).
Proof.
  intros W%reachable_wf. split_and!.
  - intros r. pose proof (open_of_robot db r) as Ho. assert (Hnd : NoDup (s_id <$> open_sessions_of_robot db r)) by apply nodup_filter, W.
    destruct (open_sessions_of_robot db r) as [|s [|t l]]; cbn; [lia|lia|]. exfalso. destruct (proj1 (Ho s) ltac:(set_solver)) as (Hs & Os & Rs), (proj1 (Ho t) ltac:(set_solver)) as (Ht & Ot & Rt).
    cbn in Hnd. apply NoDup_cons in Hnd as [Hnd _]. apply Hnd. rewrite (wf_robot _ W s t) by congruence. set_solver.
  - intros n row Hrow.
    assert (Hone : forall s, s ∈ sessions db -> maps_on n s = true -> List.filter (maps_on n) (sessions db) = [s] /\ m_open row = Some (s_id s) /\ m_state row = paused_state s).
    { intros s Hs Hm. split; [apply unique_filter; [by apply sessions_nodup|done|done|]; intros t Ht Hmt; by eapply one_mapping|].
      apply maps_on_spec in Hm as (O & M & P). destruct (wf_open _ W s Hs O) as (r & Hr & _ & _ & S). rewrite P in S. rewrite M in Hr. naive_solver. }
    assert (Hsome : m_state row = MAPPING \/ m_state row = PAUSED \/ is_Some (m_open row) -> exists s, s ∈ sessions db /\ maps_on n s = true) by apply (wf_map _ W n row Hrow).
    assert (Hnone : m_state row <> MAPPING -> m_state row <> PAUSED -> List.filter (maps_on n) (sessions db) = [] /\ m_open row = None).
    { intros N1 N2. assert (Hno : forall s, s ∈ sessions db -> maps_on n s = false).
      { intros s Hs. destruct (maps_on n s) eqn:E; [|done]. destruct (Hone s Hs E) as (_ & _ & Es). unfold paused_state in Es. destruct (s_paused s); congruence. }
      split; [by apply filter_nil|]. destruct (m_open row) as [i|]; [|done]. destruct Hsome as (s & Hs & Hm); [right; right; by eexists|]. rewrite (Hno s Hs) in Hm. done. }
    destruct (m_state row) eqn:Hst; try (apply Hnone; done); (destruct Hsome as (s & Hs & Hm); [tauto|]); destruct (Hone s Hs Hm) as (H1 & H2 & H3); exists s; (split; [done|]); (split; [done|]);
      unfold paused_state in H3; destruct (s_paused s); try done; by eexists.
  - intros s Hs Ho. destruct (wf_open _ W s Hs Ho) as (row & Hrow & D & A & P). exists row. split_and!; try done. intros E. by rewrite E in P.
Qed.

(** ** Which starts are allowed *)

(** The tables after the robot's open session, if it has one, is finished for the new one *)
Definition freed (r : string) (now : Z) (count : option N) (db : Db) : Db :=
  match open_sessions_of_robot db r with [] => db | s :: _ => finish_in s now count db end.

(** What is read before the transaction does not refuse the start: no nodes of the map are being deleted; the mapping session
    it replaces has nothing left to upload, or nobody knows, or it is forced, and was not paused or resumed meanwhile; a SLAM
    map is not recorded while the robot relocalizes. *)
Record Passes (g : Gate) (q : StartRequest) : Prop := {
  pa_nodes : g_deleting g = false;
  pa_backlog : q_replace q = true -> g_fetch g = true -> g_force g = false -> forall s, g_open g = Some s -> is_open s = true -> s_purpose s = mapping ->
    g_wait g = UNKNOWN \/ g_wait g = DRAINED /\ exists t, g_now g = Some t /\ (is_open t = true -> s_paused t = None <-> s_paused s = None);
  pa_reloc : g_relocating g = true -> q_purpose q = mapping -> match q_services q with Some l => SLAM ∉ l | None => g_slam_wanted g = false end;
}.
(** The rules of the module: the robot exists and is online and has no open session or replaces it; the map is in service,
    has data for an operate session and no one else mapping it for a mapping session; a geo map needs the robot's datum, takes
    no placement and records no SLAM map; a placement on start has poses. *)
Record Allowed (n : string) (q : StartRequest) (db : Db) (db1 : Db) : Prop := {
  al_body : q_purpose q = operate -> q_services q = None;
  al_robot : exists r, robots db !! q_robot q = Some r /\ r_online r = true
             /\ forall row, maps db !! n = Some row -> m_type row = Geo -> is_Some (r_datum r);
  al_free : open_sessions_of_robot db (q_robot q) = [] \/ q_replace q = true;
  al_map : exists row, maps db !! n = Some row /\ m_deleting row = false /\ m_state row <> ARCHIVED
           /\ (m_type row = Geo -> q_placement q = None /\ has_slam (q_services q) = false);
  al_data : q_purpose q = operate -> forall row, maps db1 !! n = Some row -> m_state row <> DRAFT;
  al_alone : q_purpose q = mapping -> forall s, s ∈ sessions db -> maps_on n s = true -> s_robot s = q_robot q;
  al_poses : forall src p rp, q_placement q = Some (src, p, rp) -> src <> Some RELOC /\ src <> Some DATUM;
}.

Lemma dedupe_elem x l : x ∈ dedupe l <-> x ∈ l.
Proof.
  induction l as [|y l IH]; cbn; [done|]. rewrite !elem_of_cons, elem_filter_bool, negb_true_iff, bool_decide_eq_false, IH. destruct (decide (x = y)); tauto.
Qed.
Lemma has_slam_services q : q_purpose q = mapping \/ q_services q = None -> has_slam (session_services q false) = has_slam (q_services q).
Proof.
  unfold session_services. destruct (q_purpose q); [intros _|intros [?| ->]; done]. destruct (q_services q) as [l|]; cbn; [|done].
  apply bool_decide_ext. apply dedupe_elem.
Qed.

(** The conditions of [_start_in] *)
Lemma start_in_ok n q replaced count db : (q_purpose q = operate -> q_services q = None) ->
  (exists db', start_in n q replaced count db = Ok db') <->
  exists row r, maps db !! n = Some row /\ m_state row <> ARCHIVED /\ robots db !! q_robot q = Some r /\ r_online r = true
    /\ (q_purpose q = operate -> m_state row <> DRAFT) /\ (q_purpose q = mapping -> forall s, s ∈ sessions db -> maps_on n s = false)
    /\ (m_type row = Geo -> q_placement q = None /\ is_Some (r_datum r) /\ has_slam (q_services q) = false)
    /\ (forall src p rp, q_placement q = Some (src, p, rp) -> src <> Some RELOC /\ src <> Some DATUM).
Proof.
  intros Hb. assert (Hb' : q_purpose q = mapping \/ q_services q = None) by (destruct (q_purpose q); auto). unfold start_in. split.
  - intros [db' E]. destruct (maps db !! n) as [row|]; [|done]. exists row. case_bool_decide as Ha; [done|]. destruct (robots db !! q_robot q) as [r|]; [|done]. exists r.
    destruct (r_online r) eqn:Hon; [|done]. cbn [negb] in E. destruct (bool_decide (q_purpose q = operate) && _) eqn:E1; [done|].
    destruct (bool_decide (q_purpose q = mapping) && _) eqn:E2; [done|]. destruct (bool_decide (is_Some (q_placement q)) && _) eqn:E3; [done|].
    destruct (match q_placement q with Some (src, _, _) => poseless src | None => false end) eqn:E4; [done|]. destruct (has_slam _ && _) eqn:E5; [done|]. split_and!; try done.
    + intros Hp. apply andb_false_iff in E1 as [E1|E1]; apply bool_decide_eq_false in E1; done.
    + intros Hp. apply andb_false_iff in E2 as [E2|E2]; [by apply bool_decide_eq_false in E2|]. by apply existsb_false.
    + intros Hg. rewrite Hg in *. cbn in E5. rewrite andb_true_r in E5. split_and!.
      * apply andb_false_iff in E3 as [E3|E3]; [|by apply bool_decide_eq_false in E3]. apply bool_decide_eq_false in E3. destruct (q_placement q); [destruct E3; by eexists|done].
      * unfold plan_session in E. rewrite Hg in E. destruct (r_datum r); [by eexists|done].
      * by rewrite <-(has_slam_services q) by done.
    + intros src p rp Hq. rewrite Hq in E4. unfold poseless in E4. apply orb_false_iff in E4 as [E4 E6]. by apply bool_decide_eq_false in E4, E6.
  - intros (row & r & -> & Ha & -> & Hon & Hop & Hmp & Hg & Hps). rewrite bool_decide_false by done. rewrite Hon. cbn [negb].
    assert (E1 : bool_decide (q_purpose q = operate) && bool_decide (m_state row = DRAFT) = false) by (apply andb_false_iff; destruct (q_purpose q); [by left|right; apply bool_decide_eq_false; auto]).
    assert (E2 : bool_decide (q_purpose q = mapping) && existsb (maps_on n) (sessions db) = false).
    { apply andb_false_iff. destruct (q_purpose q); [right|by left]. destruct (existsb _ _) eqn:E; [|done]. apply List.existsb_exists in E as (s & Hs & Hm). rewrite Hmp in Hm; [done|done|by apply list_elem_of_In]. }
    assert (E3 : bool_decide (is_Some (q_placement q)) && bool_decide (m_type row = Geo) = false).
    { apply andb_false_iff. destruct (m_type row); [by right|]. left. apply bool_decide_eq_false. destruct (Hg eq_refl) as (-> & _). by intros [? ?]. }
    assert (E4 : match q_placement q with Some (src, _, _) => poseless src | None => false end = false).
    { destruct (q_placement q) as [[[src p] rp]|]; [|done]. destruct (Hps src p rp eq_refl). unfold poseless. by rewrite !bool_decide_false. }
    rewrite E1, E2, E3, E4. destruct (m_type row) eqn:Ht.
    + rewrite bool_decide_true by done. cbn [negb]. rewrite andb_false_r. unfold plan_session. rewrite Ht.
      destruct (match q_placement q with Some (_, pose, robot_pose) => Some (pose, robot_pose) | None => None end) as [[? ?]|]; [by eexists|]. destruct (carried_placement _ _ _ _ _ _ _); by eexists.
    + destruct (Hg eq_refl) as (_ & [d Hd] & Hsl). rewrite (bool_decide_false (Geo = Local)) by done. cbn [negb andb]. rewrite has_slam_services, Hsl by done. cbn [andb]. unfold plan_session. rewrite Ht, Hd. by eexists.
Qed.

Lemma freed_robots r now c db : robots (freed r now c db) = robots db.
Proof.
  unfold freed. destruct (open_sessions_of_robot db r) as [|s l]; [done|]. unfold finish_in. destruct (maps _ !! s_map s); [|done]. destruct (s_purpose s); [|done].
  by destruct (List.filter _ _).
Qed.
Lemma freed_cases r now c db : Wf db -> freed r now c db = db /\ open_sessions_of_robot db r = []
  \/ exists s, s ∈ sessions db /\ is_open s = true /\ s_robot s = r /\ freed r now c db = finish_in s now c db.
Proof.
  intros W. unfold freed. pose proof (open_of_robot db r) as Ho. destruct (open_sessions_of_robot db r) as [|s l]; [by left|]. right. destruct (proj1 (Ho s) ltac:(set_solver)) as (Hs & Os & Rs). by exists s.
Qed.
Lemma freed_next r now c db : Wf db -> next_id (freed r now c db) = next_id db.
Proof.
  intros W. destruct (freed_cases r now c db W) as [[-> _]|(s & Hs & Os & _ & ->)]; [done|]. destruct (finish_shape s now c db W Hs Os) as (? & ? & _ & ->). by destruct (s_purpose s).
Qed.
Lemma freed_row r now c db n : Wf db ->
  match maps db !! n, maps (freed r now c db) !! n with
  | Some row, Some row1 => m_type row1 = m_type row /\ m_deleting row1 = m_deleting row /\ (m_state row1 = ARCHIVED <-> m_state row = ARCHIVED)
  | None, None => True
  | _, _ => False
  end.
Proof.
  intros W. destruct (freed_cases r now c db W) as [[-> _]|(s & Hs & Os & _ & ->)]; [by destruct (maps db !! n)|].
  destruct (finish_shape s now c db W Hs Os) as (stamp & st & Hst & ->). destruct (s_purpose s); cbn; [|by destruct (maps db !! n)].
  destruct (decide (n = s_map s)) as [->|E]; [|rewrite lookup_alter_ne by done; by destruct (maps db !! n)]. rewrite lookup_alter_eq.
  destruct (wf_open _ W s Hs Os) as (row & -> & _ & Ha & _). cbn. split_and!; [done|done|]. destruct Hst as [->| ->]; split; done.
Qed.
Lemma freed_sessions r now c db t : Wf db -> is_open t = true -> (t ∈ sessions (freed r now c db) <-> t ∈ sessions db /\ s_robot t <> r).
Proof.
  intros W Ot. destruct (freed_cases r now c db W) as [[-> Hnil]|(s & Hs & Os & Rs & ->)].
  - split; [|tauto]. intros Ht. split; [done|]. intros Hr. assert (H : t ∈ open_sessions_of_robot db r) by (by apply open_of_robot). rewrite Hnil in H. by apply elem_of_nil in H.
  - split.
    + intros Ht. destruct (finish_sessions s now c db t W Hs Os Ht Ot) as [Ht' Hid]. split; [done|]. intros Hr. apply Hid, (wf_robot _ W); congruence.
    + intros [Ht Hr]. destruct (finish_shape s now c db W Hs Os) as (stamp & st & _ & ->). assert (Hid : s_id t <> s_id s) by (intros E; apply Hr; by rewrite (same_session db t s W Ht Hs E)).
      destruct (s_purpose s); by apply ended_keeps.
Qed.
Lemma start_is_start_in n q now count c2 db : (q_purpose q = operate -> q_services q = None) ->
  (exists row, alive_map n db = Ok row) -> (exists r, robots db !! q_robot q = Some r /\ r_online r = true) -> (open_sessions_of_robot db (q_robot q) = [] \/ q_replace q = true) ->
  exists replaced, open_tx n q now count c2 db = start_in n q replaced count (freed (q_robot q) now c2 db).
Proof.
  intros Hb [row Ha] (r & Hr & Ho) Hf. unfold open_tx, freed. rewrite Hr, Ha. cbn [negb rbind]. destruct (open_sessions_of_robot db (q_robot q)) as [|s l]; [by eexists|]. destruct Hf as [|Hf]; [done|]. rewrite Hf, Ho. cbn [negb]. by eexists.
Qed.

Lemma open_tx_rules n q now count count_replaced db : Wf db -> (q_purpose q = operate -> q_services q = None) ->
  (exists db', open_tx n q now count count_replaced db = Ok db') <-> Allowed n q db (freed (q_robot q) now count_replaced db).
Proof.
  intros W Hb. pose proof (freed_row (q_robot q) now count_replaced db n W) as Hrows. pose proof (freed_robots (q_robot q) now count_replaced db) as Hrob.
  pose proof (fun t => freed_sessions (q_robot q) now count_replaced db t W) as Hss. set (db1 := freed _ _ _ _) in *. split.
  - intros [db' E].
    assert (Hpre : (exists row, alive_map n db = Ok row) /\ (exists r, robots db !! q_robot q = Some r) /\ (open_sessions_of_robot db (q_robot q) = [] \/ q_replace q = true)).
    { unfold open_tx in E. destruct (robots db !! q_robot q) as [r|]; [|by destruct (alive_map n db)].
      destruct (alive_map n db); [|done]. cbn in E. split; [by eexists|]. split; [by eexists|]. destruct (open_sessions_of_robot db (q_robot q)); [by left|]. destruct (q_replace q); [by right|done]. }
    destruct Hpre as (Hal & [r Hr] & Hf). assert (Hon : r_online r = true).
    { unfold open_tx in E. rewrite Hr in E. destruct (alive_map n db); [|done]. cbn in E. destruct (open_sessions_of_robot db (q_robot q)).
      - destruct (proj1 (start_in_ok n q None count db Hb)) as (row' & r' & _ & _ & Hr' & Ho' & _); [by eexists|]. congruence.
      - destruct (negb (q_replace q)); [done|]. destruct (r_online r); done. }
    destruct (start_is_start_in n q now count count_replaced db Hb Hal) as [rep Erep]; [by exists r|done|]. rewrite Erep in E. fold db1 in E.
    destruct (proj1 (start_in_ok n q rep count db1 Hb)) as (row1 & r1 & Hrow1 & Ha1 & Hr1 & Ho1 & Hop & Hmp & Hg & Hps); [by eexists|]. rewrite Hrob in Hr1. rewrite Hr in Hr1. injection Hr1 as <-.
    destruct Hal as [row [Hrow Hd]%alive_ok]. rewrite Hrow, Hrow1 in Hrows. destruct Hrows as (T & _ & A). split; try done.
    + exists r. split_and!; [done|done|]. intros row' Hrow' Hgeo. replace row' with row in * by congruence. apply Hg. congruence.
    + exists row. split_and!; [done|done|tauto|]. intros Hgeo. destruct Hg as (? & _ & ?); [congruence|done].
    + intros Hp row' Hrow'. replace row' with row1 by congruence. by apply Hop.
    + intros Hp s Hs Hm. destruct (decide (s_robot s = q_robot q)) as [|Hne]; [done|]. assert (Os : is_open s = true) by (by apply maps_on_spec in Hm as [? _]).
      rewrite (Hmp Hp s) in Hm; [done|]. by apply Hss.
  - intros [_ (r & Hr & Hon & Hdat) Hf (row & Hrow & Hd & Ha & Hgeo) Hdata Halone Hps].
    assert (Hal : exists row, alive_map n db = Ok row) by (exists row; unfold alive_map; by rewrite Hrow, Hd).
    destruct (start_is_start_in n q now count count_replaced db Hb Hal) as [rep ->]; [by exists r|done|]. fold db1. apply start_in_ok; [done|].
    rewrite Hrow in Hrows. destruct (maps db1 !! n) as [row1|] eqn:Hrow1; [|done]. destruct Hrows as (T & _ & A). exists row1, r. rewrite Hrob. split_and!; try done; [tauto| | |].
    + intros Hp. by apply (Hdata Hp row1).
    + intros Hp s Hs. destruct (maps_on n s) eqn:Hm; [|done]. assert (Os : is_open s = true) by (by apply maps_on_spec in Hm as [? _]). apply Hss in Hs as [Hs Hne]; [|done]. by destruct Hne; apply Halone.
    + intros Hg. rewrite T in Hg. destruct (Hgeo Hg) as [? ?]. split_and!; try done. by apply (Hdat row).
Qed.

Lemma start_body_rule q : start_body q = true <-> (q_purpose q = operate -> q_services q = None).
Proof. unfold start_body. destruct (q_purpose q), (q_services q); split; try done. intros H. discriminate (H eq_refl). Qed.
Lemma backlog_rule g : wait_for_backlog g = false <-> (g_force g = false -> forall s, g_open g = Some s -> is_open s = true -> s_purpose s = mapping ->
    g_wait g = UNKNOWN \/ g_wait g = DRAINED /\ exists t, g_now g = Some t /\ (is_open t = true -> s_paused t = None <-> s_paused s = None)).
Proof.
  unfold wait_for_backlog. destruct (g_open g) as [s|]; [|split; done]. destruct (is_open s) eqn:Ho; cbn [negb orb]; [|split; [intros _ _ ? [= <-]; congruence|done]].
  case_bool_decide as Hp; cbn [negb]; [|split; [intros _ _ ? [= <-]; done|done]]. destruct (g_force g); [split; done|].
  destruct (g_wait g); try (split; [intros _ _ ? [= <-]; by left|done]); try (split; [done|]; intros H; destruct (H eq_refl s eq_refl Ho Hp) as [?|[? _]]; done).
  destruct (g_now g) as [t|]; [|split; [done|]; intros H; by destruct (H eq_refl s eq_refl Ho Hp) as [?|(_ & ? & ? & _)]].
  destruct (is_open t) eqn:Ot; [|split; [intros _ _ ? [= <-] _ _; right; split; [done|]; exists t; split; [done|congruence]|done]].
  assert (Ep : negb (Bool.eqb (bool_decide (s_paused t = None)) (bool_decide (s_paused s = None))) = false <-> (s_paused t = None <-> s_paused s = None)) by (repeat case_bool_decide; cbn; intuition congruence).
  rewrite Ep. split.
  - intros E _ ? [= <-] _ _. right. split; [done|]. by exists t.
  - intros H. destruct (H eq_refl s eq_refl Ho Hp) as [?|(_ & t' & [= <-] & E)]; [done|]. by apply E.
Qed.
Lemma passes_rule g q : Passes g q <-> g_deleting g = false /\ q_replace q && g_fetch g && wait_for_backlog g = false
  /\ bool_decide (q_purpose q = mapping) && g_relocating g && match q_services q with Some l => bool_decide (SLAM ∈ l) | None => g_slam_wanted g end = false.
Proof.
  split.
  - intros [H1 H2 H3]. split_and!; [done| |].
    + destruct (q_replace q) eqn:Er, (g_fetch g) eqn:Ef; try done. cbn [andb]. apply backlog_rule. auto.
    + case_bool_decide; [|done]. destruct (g_relocating g) eqn:E; [|done]. cbn [andb]. specialize (H3 eq_refl). destruct (q_services q); [apply bool_decide_eq_false|]; auto.
  - intros (H1 & H2 & H3). split; [done| |].
    + intros Hr Hf. rewrite Hr, Hf in H2. cbn [andb] in H2. by apply backlog_rule.
    + intros E Hp. rewrite E, Hp in H3. rewrite bool_decide_true in H3 by done. cbn [andb] in H3. destruct (q_services q); [by apply bool_decide_eq_false in H3|done].
Qed.


(** ** Where the placement of a new session comes from *)

Lemma start_open_tx g n q now count c2 db db' : start_session g n q now count c2 db = Ok db' -> open_tx n q now count c2 db = Ok db'.
Proof. unfold start_session. destruct (negb _); [done|]. destruct (g_deleting g); [done|]. destruct (_ && _ && _); [done|]. by destruct (_ && _ && _). Qed.
Lemma start_as_start_in n q now count c2 db db' : open_tx n q now count c2 db = Ok db' ->
  exists replaced, start_in n q replaced count (freed (q_robot q) now c2 db) = Ok db'
  /\ forall s, replaced = Some s -> s ∈ sessions db /\ s_robot s = q_robot q /\ s_map s = n /\ is_open s = true.
Proof.
  intros E. unfold open_tx in E. destruct (robots db !! q_robot q) as [r|]; [|by destruct (alive_map n db)]. destruct (alive_map n db); [|done].
  cbn [rbind] in E. unfold freed. pose proof (open_of_robot db (q_robot q)) as Ho. destruct (open_sessions_of_robot db (q_robot q)) as [|cur l]; [by exists None|].
  destruct (negb (q_replace q)); [done|]. destruct (negb (r_online r)); [done|]. eexists; split; [exact E|]. case_bool_decide; [|done]. intros s [= <-].
  destruct (proj1 (Ho cur) ltac:(set_solver)) as (? & ? & ?). done.
Qed.

Lemma fold_later ss s : foldl (fun a b => if later a b then b else a) s ss ∈ s :: ss.
Proof.
  revert s. induction ss as [|b ss IH]; intros s; cbn; [by left|]. specialize (IH (if later s b then b else s)). apply elem_of_cons in IH as [->|IH]; [|by right; right].
  destruct (later s b); [right|]; by left.
Qed.
Lemma reusable_spec ss r e s : reusable_session ss r (Some e) = Some s -> s ∈ ss /\ s_robot s = r /\ is_open s = false /\ s_aligned s = true /\ s_epoch s = Some e.1 /\ e.2 = true.
Proof.
  unfold reusable_session. destruct e as [e []]; [|done]. destruct (last_ended _) as [t|] eqn:El; [|done]. destruct (_ && _) eqn:Ec; [|done]. intros [= ->].
  apply andb_true_iff in Ec as [Ea Ee]. apply bool_decide_eq_true in Ee. unfold last_ended in El.
  destruct (List.filter _ ss) as [|x l] eqn:Ef; [done|]. injection El as El. pose proof (fold_later l x) as Hin. rewrite El, <-Ef in Hin. apply elem_filter_bool in Hin as [Hin [Hr Ho]%andb_true_iff].
  apply bool_decide_eq_true in Hr. apply negb_true_iff in Ho. done.
Qed.

(** The session [c] may lend its placement to the robot: the one just replaced, or one that ended in the run the robot is in *)
Definition lends (db1 : Db) (robot n : string) (r : RobotRow) (c : Session) : Prop :=
  s_aligned c = true /\ s_robot c = robot /\ s_map c = n /\ mismatch db1 robot r c = false
  /\ (is_open c = true \/ exists e, epochs db1 !! robot = Some (e, true) /\ s_epoch c = Some e).
Lemma carried_lends db n row robot r placed replaced c : (forall s, replaced = Some s -> s_robot s = robot /\ s_map s = n /\ is_open s = true) ->
  carried_placement db n row robot r placed replaced = Some c -> lends db robot n r c.
Proof.
  intros Hrep. unfold carried_placement. destruct (unless_mismatch db robot r _) as [s|] eqn:E1.
  - intros [= <-]. destruct replaced as [t|]; [|done]. cbn in E1. destruct (s_aligned t) eqn:Ea; [|done]. cbn in E1. destruct (mismatch db robot r t) eqn:Em; [done|]. injection E1 as ->.
    destruct (Hrep s eq_refl) as (? & ? & ?). split_and!; try done. by left.
  - destruct (placed || _); [done|]. destruct (epochs db !! robot) as [e|] eqn:Ee; [|done]. destruct (reusable_session _ robot (Some e)) as [t|] eqn:Er; [|done]. cbn.
    destruct (mismatch db robot r t) eqn:Em; [done|]. intros [= <-]. apply reusable_spec in Er as (Hin & H1 & _ & H2 & H3 & H4). apply elem_filter_bool in Hin as [_ Hn]. apply bool_decide_eq_true in Hn.
    split_and!; try done. right. exists e.1. split; [|done]. rewrite Ee. by destruct e; cbn in *; subst.
Qed.

(** C25: a session that starts on a local map is placed only by the poses given with the start, by the placement of the
    robot's session on this map that it replaces or that ended in the run the robot is known to be still in, never one
    whose frame definitely is another, or as the first mapping session of a map without nodes, which defines the map's
    frame; otherwise it starts unplaced. *)
Theorem start_placement_sound (g : Gate) (n : string) (q : StartRequest) (now : Z) (count count_replaced : option N) (db db' : Db) : reachable step new_db db ->
  start_session g n q now count count_replaced db = Ok db' ->
  let db1 := freed (q_robot q) now count_replaced db in
  exists s r row, s ∈ sessions db' /\ s_id s = next_id db /\ s_map s = n /\ s_robot s = q_robot q /\ s_purpose s = q_purpose q /\ is_open s = true
  /\ robots db !! q_robot q = Some r /\ maps db1 !! n = Some row
  /\ (m_type row = Local -> s_aligned s = true ->
        (exists src p rp, q_placement q = Some (src, p, rp) /\ s_transform s = placement_transform p rp)
        \/ (exists c, lends db1 (q_robot q) n r c /\ s_transform s = s_transform c)
        \/ q_purpose q = mapping /\ map_has_nodes row (sessions_on db1 n) count = false /\ s_transform s = IDENTITY).
Proof.
  intros W%reachable_wf E%start_open_tx. cbv zeta. pose proof (freed_robots (q_robot q) now count_replaced db) as Hrob.
  destruct (start_as_start_in n q now count count_replaced db db' E) as (replaced & Ein & Hrep).
  pose proof (freed_next (q_robot q) now count_replaced db W) as Hnext.
  set (db1 := freed _ _ _ _) in *. clearbody db1. unfold start_in in Ein. destruct (maps db1 !! n) as [row|]; [|done]. case_bool_decide; [done|]. rewrite Hrob in Ein.
  destruct (robots db !! q_robot q) as [r|]; [|done]. repeat (match type of Ein with (if ?b then Raise _ else _) = _ => destruct b; [done|] end). cbv zeta in Ein.
  set (placement := match q_placement q with Some _ => _ | None => None end) in *. destruct (carried_placement _ _ _ _ _ _ replaced) as [c|] eqn:Ec; try done;
    destruct (plan_session _ _ _ _ _ _ _) as [plan|] eqn:Ep; try done; set (s := Build_Session _ _ _ _ _ _ _ _ _ _ _ _ _) in *; exists s, r, row;
    (split; [destruct (q_purpose q); injection Ein as <-; cbn; set_solver|]); (split_and!; [exact Hnext|done|done|done|done|done|done|]); intros Ht Hal; unfold plan_session in Ep; rewrite Ht in Ep;
    (destruct placement as [[p rp]|] eqn:Epl; [left; unfold placement in Epl; destruct (q_placement q) as [[[src p'] rp']|]; [|done]; injection Epl as -> ->; injection Ep as <-; by exists src, p, rp|]).
  - right. left. injection Ep as <-. exists c. split; [|done]. eapply carried_lends; [|exact Ec]. intros t Et. by apply Hrep.
  - right. right. injection Ep as <-. cbn in Hal. apply andb_true_iff in Hal as [Hp Hh]. apply bool_decide_eq_true in Hp. apply negb_true_iff in Hh. done.
Qed.

(** ** Deleting a map with its sessions *)

Lemma session_of_some db s : Wf db -> s ∈ sessions db -> session_of db (s_id s) = Some s.
Proof.
  intros W Hs. unfold session_of. destruct (find_first _ (sessions db)) as [t|] eqn:E.
  - apply find_first_Some in E as [Ht Hid]. apply bool_decide_eq_true in Hid. f_equal. by apply (same_session db).
  - apply find_first_None in E. apply (proj1 (Forall_forall _ _) E) in Hs. by apply bool_decide_eq_false in Hs.
Qed.
(** Finishing a session keeps every row, and every other one as it is. *)
Lemma finish_rows s now count db t : Wf db -> s ∈ sessions db -> is_open s = true -> t ∈ sessions db ->
  exists t', t' ∈ sessions (finish_in s now count db) /\ s_id t' = s_id t /\ s_map t' = s_map t /\ (t <> s -> t' = t).
Proof.
  intros W Hs Os Ht. destruct (finish_shape s now count db W Hs Os) as (stamp & st & _ & ->).
  assert (H : exists t', t' ∈ sessions (ended s now stamp db) /\ s_id t' = s_id t /\ s_map t' = s_map t /\ (t <> s -> t' = t)).
  { eexists. split; [apply elem_update; exists t; split; [reflexivity|done]|]. case_bool_decide as E; [|done]. split_and!; try done. intros Hne. destruct Hne. by apply (same_session db). }
  by destruct (s_purpose s).
Qed.
Lemma finish_alive s now count db n row : Wf db -> s ∈ sessions db -> is_open s = true -> maps db !! n = Some row -> m_deleting row = false ->
  exists row', maps (finish_in s now count db) !! n = Some row' /\ m_deleting row' = false.
Proof.
  intros W Hs Os Hrow Hd. destruct (finish_shape s now count db W Hs Os) as (stamp & st & _ & ->). destruct (s_purpose s); cbn; [|by exists row].
  destruct (decide (n = s_map s)) as [->|E]; [rewrite lookup_alter_eq, Hrow; by eexists|rewrite lookup_alter_ne by done; by exists row].
Qed.
Lemma close_post n now count ids db : Wf db -> (exists row, maps db !! n = Some row /\ m_deleting row = false) ->
  (forall s, s ∈ sessions db -> open_on n s = true -> s_id s ∈ ids) -> (forall id, id ∈ ids -> exists s, s ∈ sessions db /\ s_id s = id /\ s_map s = n) ->
  exists db', close_sessions n ids now count db = Ok db' /\ Wf db' /\ (exists row, maps db' !! n = Some row /\ m_deleting row = false)
  /\ (forall s, s ∈ sessions db' -> open_on n s = false) /\ forall s, s ∈ sessions db -> s_map s <> n -> s ∈ sessions db'.
Proof.
  revert db. induction ids as [|id ids IH]; intros db W (row & Hrow & Hd) Hids Hex.
  - exists db. split_and!; try done; [by exists row|]. intros s Hs. destruct (open_on n s) eqn:E; [|done]. by apply Hids, elem_of_nil in Hs.
  - destruct (Hex id ltac:(by left)) as (s & Hs & <- & Hm). unfold close_sessions. cbn [rfold]. unfold session_action at 1. unfold alive_map. rewrite Hrow, Hd. cbn [rbind].
    rewrite (session_of_some db s W Hs), Hm. rewrite (bool_decide_true (n = n)), (bool_decide_true (finish = finish)) by done. cbn [negb]. fold (close_sessions n ids now count). destruct (is_open s) eqn:Os; cbn [rbind].
    + destruct (IH (finish_in s now count db)) as (db' & E & W' & R & H1 & H2).
      * by apply finish_wf.
      * by eapply finish_alive.
      * intros t Ht Ot. assert (O : is_open t = true) by (unfold open_on in Ot; by apply andb_true_iff in Ot as [? _]). destruct (finish_sessions s now count db t W Hs Os Ht O) as [Ht' Hid].
        specialize (Hids t Ht' Ot). by apply elem_of_cons in Hids as [|].
      * intros id Hid. destruct (Hex id ltac:(by right)) as (t & Ht & <- & Hmt). destruct (finish_rows s now count db t W Hs Os Ht) as (t' & ? & ? & ? & _). exists t'. split_and!; congruence.
      * exists db'. split_and!; try done. intros t Ht Hmt. apply H2; [|done]. destruct (finish_rows s now count db t W Hs Os Ht) as (t' & Hin & _ & _ & Heq). rewrite <-Heq; [done|]. by intros ->.
    + apply IH; [done|by exists row| |].
      * intros t Ht Ot. specialize (Hids t Ht Ot). apply elem_of_cons in Hids as [E|]; [|done]. rewrite (same_session db t s W Ht Hs E) in Ot. unfold open_on in Ot. by rewrite Os in Ot.
      * intros id Hid. apply Hex. by right.
Qed.

(** A delete of a map that closes its sessions is never refused for a session that was open before it: every session of
    the map is finished, the map is marked for deletion, and the sessions on other maps stay as they are. *)
Theorem delete_closing_succeeds (n : string) (now : Z) (count : option N) (db : Db) (row : MapRow) :
  reachable step new_db db -> maps db !! n = Some row -> m_deleting row = false ->
  exists db', delete_map_closing_sessions n now count db = Ok db' /\ (exists row', maps db' !! n = Some row' /\ m_deleting row' = true)
  /\ (forall s, s ∈ sessions db' -> open_on n s = false) /\ forall s, s ∈ sessions db -> s_map s <> n -> s ∈ sessions db'.
Proof.
  intros W%reachable_wf Hrow Hd. unfold delete_map_closing_sessions. rewrite Hrow, Hd.
  destruct (close_post n now count (s_id <$> List.filter (open_on n) (sessions db)) db W) as (db' & -> & _ & (row' & Hrow' & _) & H1 & H2).
  - by exists row.
  - intros s Hs Ho. apply list_elem_of_fmap_2, elem_filter_bool. done.
  - intros id (s & -> & [Hs Ho]%elem_filter_bool)%list_elem_of_fmap. exists s. split_and!; try done. unfold open_on in Ho. apply andb_true_iff in Ho as [_ Ho]. by apply bool_decide_eq_true in Ho.
  - cbn [rbind]. unfold delete_map. assert (E : existsb (open_on n) (sessions db') = false).
    { destruct (existsb _ _) eqn:E; [|done]. apply List.existsb_exists in E as (s & Hs & Ho). rewrite H1 in Ho; [done|by apply list_elem_of_In]. }
    rewrite E. eexists. split; [reflexivity|]. split_and!; [|exact H1|exact H2]. cbn. rewrite lookup_partial_alter_eq, Hrow'. by eexists.
Qed.
End operations.

(** ** Examples *)

Definition request (r : string) (p : Purpose) (placement : option (option Source * Z * Z)) (replace : bool) : StartRequest :=
  {| q_robot := r; q_purpose := p; q_services := None; q_placement := placement; q_replace := replace |}.
Definition at_home : RobotRow := {| r_online := true; r_datum := None; r_map_id := Some "map"; r_initialized := Some true; r_pose := 0 |}.
(** Plain numbers for poses, datums and transforms *)
#[local] Instance plain : Geometry := {|
  IDENTITY := 0; placement_transform := Z.sub; reloc_map_t_session := 0; geo_from_datum := fun d => d; session_transform := Z.sub;
  geo_transform_for := fun g d => Some (d - g)%Z; bucket_key := fun n => n |}.
Definition after_ops (ops : list Op) : Db := foldl step new_db ops.

Lemma reachable_after ops : reachable step new_db (after_ops ops).
Proof. unfold after_ops. induction ops as [|op ops IH] using rev_ind; [constructor|]. rewrite foldl_app. cbn. by constructor. Qed.

(** Robots "a" and "b"; "a" maps the new map "office", pauses, and "b" wants to use it *)
Definition a_maps : list Op :=
  [Robots (<["a" := at_home]> (<["b" := at_home]> ∅)) (<["a" := (1%Z, true)]> (<["b" := (1%Z, true)]> ∅)) ∅;
   Create "office" Local false false; Start "office" (request "a" mapping None false) 1 (Some 0%N) None; CountNodes 0 5; Act "office" 0 pause 2 None].
Definition b_uses : list Op := a_maps ++ [Start "office" (request "b" operate (Some (None, 7, 2)%Z) false) 3 (Some 5%N) None].
Definition state_of (n : string) (db : Db) : option (MapState * option nat) := (fun m => (m_state m, m_open m)) <$> maps db !! n.

Example a_session : state_of "office" (after_ops a_maps) = Some (PAUSED, Some 0) /\ state_of "office" (after_ops (a_maps ++ [Archive "office"])) = Some (PAUSED, Some 0)
  /\ state_of "office" (after_ops (b_uses ++ [Act "office" 0 finish 4 (Some 5%N)])) = Some (READY, None)
  /\ state_of "office" (after_ops (b_uses ++ [Act "office" 0 finish 4 (Some 5%N); Archive "office"])) = Some (READY, None)
  /\ state_of "office" (after_ops (b_uses ++ [Act "office" 0 finish 4 (Some 5%N); Act "office" 1 finish 5 None; Archive "office"])) = Some (ARCHIVED, None).
Proof. vm_compute. done. Qed.

Lemma sessions_consistent_witness : length (open_sessions_of_robot (after_ops b_uses) "a") = 1 /\ length (open_sessions_of_robot (after_ops b_uses) "b") <= 1
  /\ exists s, List.filter (maps_on "office") (sessions (after_ops b_uses)) = [s] /\ is_Some (s_paused s).
Proof.
  split; [vm_compute; reflexivity|].
  destruct (sessions_consistent (after_ops b_uses) (reachable_after b_uses)) as (H1 & H2 & _).
  split; [apply H1|]. assert (E : exists row, maps (after_ops b_uses) !! "office" = Some row /\ m_state row = PAUSED) by (eexists; split; vm_compute; reflexivity).
  destruct E as (row & Hrow & Hst). specialize (H2 "office" row Hrow). rewrite Hst in H2. destruct H2 as (s & Hs & _ & Hp). exact (ex_intro _ s (conj Hs Hp)).
Defined.

(** Nothing before the transaction refuses; and the robot's mapping session still has nodes to upload, or a job relocalizes it *)
Definition no_gate : Gate := {| g_deleting := false; g_fetch := true; g_open := None; g_force := false; g_wait := DRAINED; g_now := None; g_relocating := false; g_slam_wanted := false |}.
Definition backlog_gate : Gate :=
  {| g_deleting := false; g_fetch := true; g_open := head (open_sessions_of_robot (after_ops a_maps) "a"); g_force := false; g_wait := STALLED; g_now := None; g_relocating := true; g_slam_wanted := true |}.

Lemma start_placement_sound_witness : exists s, s ∈ sessions (after_ops b_uses) /\ s_id s = 1 /\ s_robot s = "b" /\ s_transform s = 5%Z.
Proof.
  destruct (start_placement_sound no_gate "office" (request "b" operate (Some (None, 7, 2)%Z) false) 3 (Some 5%N) None (after_ops a_maps) (after_ops b_uses) (reachable_after a_maps))
    as (s & r & row & Hs & Hid & _ & Hr & _ & _ & _ & Hrow & Hpl).
  - vm_compute. reflexivity.
  - exists s. split; [exact Hs|]. split; [exact Hid|]. split; [exact Hr|].
    assert (Hss : Forall (fun t => s_id t = 1 -> s_transform t = 5%Z) (sessions (after_ops b_uses))) by (vm_compute; repeat constructor; discriminate).
    apply (proj1 (Forall_forall _ _) Hss s Hs Hid).
Defined.

Lemma delete_closing_succeeds_witness : answer (Delete "office") (after_ops b_uses) = Raise E409
  /\ exists db', delete_map_closing_sessions "office" 9 None (after_ops b_uses) = Ok db' /\ (forall s, s ∈ sessions db' -> open_on "office" s = false).
Proof.
  split; [vm_compute; reflexivity|]. assert (E : exists row, maps (after_ops b_uses) !! "office" = Some row /\ m_deleting row = false) by (eexists; split; vm_compute; reflexivity).
  destruct E as (row & Hrow & Hd).
  destruct (delete_closing_succeeds "office" 9 None (after_ops b_uses) row (reachable_after b_uses) Hrow Hd) as (db' & H1 & _ & H2 & _).
  exists db'. split; [exact H1|exact H2].
Defined.

(** "a" is placed at 7 on "office" in run 1. The dispatcher is restarted, and the robot meanwhile too: the first state message
    starts epoch 2 but leaves the open session placed. It finishes in epoch 2, and the next session takes its placement. *)
Example stale_placement_reused :
  let ops := [Robots (<["a" := at_home]> ∅) (<["a" := (1%Z, true)]> ∅) ∅; Create "office" Local false false; SlamSaved "office";
              Start "office" (request "a" operate (Some (None, 7, 0)%Z) false) 1 (Some 5%N) None; NewEpoch "a" 2; Act "office" 0 finish 2 (Some 5%N);
              Start "office" (request "a" operate None false) 3 (Some 5%N) None] in
  (fun s => (s_aligned s, s_transform s, s_placement s ≫= p_from)) <$> sessions (after_ops ops) = [(true, 7%Z, None); (true, 7%Z, Some 0)].
Proof. vm_compute. reflexivity. Qed.

(** A start that asks for a SLAM map changes the map's [slam_map], which its description calls immutable. *)
Example slam_map_set_by_start :
  m_slam_map <$> maps (after_ops [Robots (<["a" := at_home]> ∅) ∅ ∅; Create "office" Local false false;
    Start "office" {| q_robot := "a"; q_purpose := mapping; q_services := Some [SLAM]; q_placement := None; q_replace := false |} 1 None None]) !! "office" = Some true.
Proof. vm_compute. reflexivity. Qed.
