(* ===== verification/RunPlacement.v ===== *)
(** * Placements and the robot's run

    A placement says where the frame of the robot's current run lies on a map, so it is worthless after the robot's client
    restarts. packages/utils/map_sessions.py [run_continues] and packages/controllers/mission/server.py [_run_epoch_check]
    and [_on_run_changed] keep a run epoch per robot for it; MapSessions.v stamps and compares it. Here the run itself is
    followed beside the tables: the run each robot is in, and the run the placement of each session was made in. *)

From S2P Require Import Prelude MapSessions.
Local Open Scope string_scope.
Local Open Scope list_scope.

(** ** The proof that a run continues *)

(** At most this many state messages per second *)
Definition MAX_STATE_RATE_HZ : Z := 20.
(** [run_continues]: the stored header id, the milliseconds since it was stored, and the header id of the first state
    message; nothing stored, or a clock that went back, proves nothing *)
Definition run_continues (stored elapsed_ms : option Z) (header : Z) : bool :=
  match stored, elapsed_ms with
  | Some stored, Some elapsed => (0 <=? elapsed)%Z && (stored <? header)%Z && (elapsed * MAX_STATE_RATE_HZ <=? header * 1000)%Z
  | _, _ => false
  end.

(** [_run_epoch_check]: the row (epoch, stored header, milliseconds since) and the new epoch if there must be one *)
Definition run_epoch_check (row : option (Z * option Z * option Z)) (header fresh : Z) : Z :=
  match row with
  | Some (epoch, stored, elapsed) => if run_continues stored elapsed header then epoch else fresh
  | None => fresh
  end.

(** A client that was started after the stored message numbers its messages from 0 and sends no more than the rate allows,
    so that its header id is no proof. *)
Lemma restarted_client_no_proof stored elapsed header : (0 <= elapsed)%Z -> ((header + 1) * 1000 <= elapsed * MAX_STATE_RATE_HZ)%Z ->
  run_continues (Some stored) (Some elapsed) header = false.
Proof. intros H1 H2. unfold run_continues. apply andb_false_iff. right. apply Z.leb_gt. lia. Qed.

Section run.
Context {geometry : Geometry}.

(** ** The tables and the runs *)

(** The tables; the run each robot's client process is in, when that process was started, and the run the placement of each
    session was made in; the time in milliseconds; the [last_state_header] and [last_state_at] of the robots' rows of
    robot_run_epochs (the epoch and [continuity_known] are in the tables); the robots whose client was restarted and whose
    dispatcher has not decided on the new run yet. *)
Record World := { db : Db; run : string -> nat; started : string -> Z; placed_in : nat -> nat; clock : Z; headers : string -> option Z * Z; unseen : gset string }.

(** The run the placement of a session belongs to after an operation *)
Definition source_run (w : World) (s : Session) : nat :=
  match s_placement s with
  | Some p => match p_source p, p_from p with Some SESSION, Some c => placed_in w c | _, _ => run w (s_robot s) end
  | None => run w (s_robot s)
  end.
Definition placed_after (w : World) (op : Op) (db' : Db) (id : nat) : nat :=
  match op, session_of db' id with
  | Place _ k _, Some s => if bool_decide (id = k) then run w (s_robot s) else placed_in w id
  | ReplaceGeo k was_placed was_datum _ _, Some s =>
      match session_of (db w) k with
      | Some s0 => if bool_decide (id = k) && is_open s0 && Bool.eqb (s_aligned s0) was_placed && bool_decide (s_datum s0 = was_datum)
                   then run w (s_robot s) else placed_in w id
      | None => placed_in w id
      end
  | Start _ _ _ _ _, Some s => if bool_decide (id = next_id (db w)) then source_run w s else placed_in w id
  | _, _ => placed_in w id
  end.

Inductive Event :=
| Do (op : Op)
| Wait (ms : Z)
| ClientRestart (r : string)                                  (* the robot's VDA5050 client process is started again *)
| RunDetected (r : string) (epoch : Z) (header : option Z)    (* the dispatcher sees that: [_on_run_changed] *)
| DispatcherStart                                             (* [_unverify_run_epochs] of a new dispatcher process *)
| FirstState (r : string) (header fresh : Z)                  (* the robot's first state message there: [_check_run_continuity] *)
| HeaderStored (r : string) (epoch header : Z).               (* [_store_run_header] *)

Definition fresh_epoch (e : Z) (d : Db) : Prop := (forall s, s ∈ sessions d -> s_epoch s <> Some e) /\ forall r x, epochs d !! r = Some x -> x.1 <> e.
Definition no_placed (r : string) (d : Db) : Prop := forall s, s ∈ sessions d -> is_open s = true -> s_robot s = r -> s_aligned s = false.
(** The process numbers its state messages from 0 and sends at most [MAX_STATE_RATE_HZ] of them per second: what the
    documentation of [run_continues] says of the client *)
Definition can_send (w : World) (r : string) (header : Z) : Prop := (0 <= header /\ (header + 1) * 1000 <= (clock w - started w r) * MAX_STATE_RATE_HZ)%Z.
(** The events that can happen. The rows of robot_run_epochs are written by the dispatcher's events only, and an epoch is a
    new uuid. The dispatcher stores no header id of a client it has not seen the restart of. When it is its first state
    message that reveals a restart, the robot has no open placed session: [_run_epoch_check] would leave that one placed
    ([stale_placement_reused]). *)
Definition enabled (ev : Event) (w : World) : Prop :=
  match ev with
  | Do op => match op with RunChanged _ _ | NewEpoch _ _ => False | Robots _ es _ => es = epochs (db w) | _ => True end
  | Wait ms => (0 <= ms)%Z
  | ClientRestart r => True
  | RunDetected r e header => fresh_epoch e (db w)
  | DispatcherStart => True
  | FirstState r header fresh => fresh_epoch fresh (db w) /\ can_send w r header /\ (r ∈ unseen w -> no_placed r (db w))
  | HeaderStored r e header => r ∉ unseen w
  end.

(** RUN_EPOCH_READ_SQL: the epoch, the stored header id and the time since it was stored *)
Definition epoch_row (w : World) (r : string) : option (Z * option Z * option Z) :=
  match epochs (db w) !! r with Some (e, _) => Some (e, (headers w r).1, Some (clock w - (headers w r).2)%Z) | None => None end.
(** RUN_EPOCH_UNVERIFY_ALL_SQL *)
Definition unverify_all (d : Db) : Db := step d (Robots (robots d) ((fun x => (x.1, false)) <$> epochs d) (saves d)).
(** RUN_EPOCH_NEW_SQL and RUN_EPOCH_CONFIRM_SQL store the header id with the current time. *)
Definition header_now (w : World) (r : string) (header : option Z) (k : string) : option Z * Z := if bool_decide (k = r) then (header, clock w) else headers w k.
Definition with_db (d : Db) (p : nat -> nat) (w : World) : World :=
  {| db := d; run := run w; started := started w; placed_in := p; clock := clock w; headers := headers w; unseen := unseen w |}.
Definition decided (r : string) (header : option Z) (d : Db) (w : World) : World :=
  {| db := d; run := run w; started := started w; placed_in := placed_in w; clock := clock w; headers := header_now w r header; unseen := unseen w ∖ {[r]} |}.
Definition next (ev : Event) (w : World) : World :=
  match ev with
  | Do op => match answer op (db w) with Ok d => with_db d (placed_after w op d) w | Raise _ => w end
  | Wait ms => {| db := db w; run := run w; started := started w; placed_in := placed_in w; clock := (clock w + ms)%Z; headers := headers w; unseen := unseen w |}
  | ClientRestart r => {| db := db w; run := fun k => if bool_decide (k = r) then S (run w k) else run w k;
      started := fun k => if bool_decide (k = r) then clock w else started w k; placed_in := placed_in w; clock := clock w; headers := headers w; unseen := unseen w ∪ {[r]} |}
  | RunDetected r e header => decided r header (step (db w) (RunChanged r e)) w
  | DispatcherStart => with_db (unverify_all (db w)) (placed_in w) w
  | FirstState r header fresh => decided r (Some header) (step (db w) (NewEpoch r (run_epoch_check (epoch_row w r) header fresh))) w
  | HeaderStored r e header =>
      if bool_decide (epochs (db w) !! r = Some (e, true))
      then {| db := db w; run := run w; started := started w; placed_in := placed_in w; clock := clock w; headers := header_now w r (Some header); unseen := unseen w |}
      else w
  end.
Inductive history : World -> Prop :=
| history_new f g t h : (forall r, t r <= 0)%Z -> history {| db := new_db; run := f; started := t; placed_in := g; clock := 0; headers := h; unseen := ∅ |}
| history_next w ev : history w -> enabled ev w -> history (next ev w).

(** ** The invariant *)

(** For a robot whose current run the dispatcher knows: the placement of an open session, and of a finished one that carries
    the robot's epoch, was made in that run *)
Definition Current (w : World) : Prop := forall s, s ∈ sessions (db w) -> s_robot s ∉ unseen w -> s_aligned s = true ->
  (is_open s = true \/ exists e b, s_epoch s = Some e /\ epochs (db w) !! s_robot s = Some (e, b)) -> placed_in w (s_id s) = run w (s_robot s).

(** A session row after an operation that does not place it: what it may keep *)
Definition inherits (d : Db) (s' : Session) : Prop := exists s, s ∈ sessions d /\ s_id s' = s_id s /\ s_robot s' = s_robot s /\ (s_aligned s' = true -> s_aligned s = true)
  /\ (is_open s' = true -> is_open s = true)
  /\ (s_epoch s' = s_epoch s \/ is_open s = true).
Lemma inherits_refl d s : s ∈ sessions d -> inherits d s.
Proof. intros H. exists s. split_and!; auto. Qed.
(** The epochs after it: none is new *)
Definition epochs_kept (d d' : Db) : Prop := forall r x, epochs d' !! r = Some x -> epochs d !! r = Some x.

Lemma current_inherits w d' p' : Current w -> (forall s', s' ∈ sessions d' -> s_robot s' ∉ unseen w -> inherits (db w) s' /\ p' (s_id s') = placed_in w (s_id s') \/ p' (s_id s') = run w (s_robot s')) ->
  epochs_kept (db w) d' -> Current (with_db d' p' w).
Proof.
  intros J Hs He s' Hin Hu Ha Hor. cbn in *. destruct (Hs s' Hin Hu) as [[(s & Hs0 & E1 & E2 & E3 & E4 & E5) Ep]|E]; [|done]. rewrite Ep, E1, E2. apply J; [done|congruence|auto|].
  destruct Hor as [Ho|(e & b & He1 & He2)]; [left; auto|]. destruct E5 as [E5|E5]; [|by left]. right. exists e, b. split; [congruence|]. rewrite <-E2. by apply He.
Qed.

Lemma history_reachable w : history w -> reachable step new_db (db w).
Proof.
  induction 1 as [f g t h _|w ev _ IH _]; [constructor|]. destruct ev as [op|ms|r|r e h| |r h f|r e h]; cbn [next]; try done.
  - destruct (answer op (db w)) as [d|] eqn:E; [|done]. assert (Ed : d = step (db w) op) by (unfold MapSessions.step; by rewrite E). cbn. rewrite Ed. by constructor.
  - apply (reach_step _ _ (db w) (RunChanged r e)). done.
  - apply (reach_step _ _ (db w) (Robots _ _ _)). done.
  - apply (reach_step _ _ (db w) (NewEpoch r _)). done.
  - by case_bool_decide.
Qed.

(** ** The operations *)

Definition keeps (f : Session -> Session) (s : Session) : Prop :=
  s_id (f s) = s_id s /\ s_robot (f s) = s_robot s /\ (s_aligned (f s) = true -> s_aligned s = true) /\ (is_open (f s) = true -> is_open s = true)
  /\ (s_epoch (f s) = s_epoch s \/ is_open s = true).
Lemma fmap_inherits d (f : Session -> Session) : (forall s, s ∈ sessions d -> keeps f s) -> forall s', s' ∈ f <$> sessions d -> inherits d s'.
Proof. intros Hf s' (s & -> & Hs)%list_elem_of_fmap. destruct (Hf s Hs) as (? & ? & ? & ? & ?). by exists s. Qed.
Lemma update_inherits d id f : (forall s, s ∈ sessions d -> s_id s = id -> keeps f s) -> forall s', s' ∈ sessions (update_session id f d) -> inherits d s'.
Proof.
  intros Hf. apply fmap_inherits. intros s Hs. unfold keeps. case_bool_decide as E; [by apply Hf|]. auto 10.
Qed.
Lemma finish_inherits d s now c s' : Wf d -> s ∈ sessions d -> is_open s = true -> s' ∈ sessions (finish_in s now c d) -> inherits d s'.
Proof.
  intros W Hs Ho Hin. destruct (finish_shape s now c d W Hs Ho) as (stamp & st & _ & E). rewrite E in Hin.
  assert (Hin' : s' ∈ sessions (ended s now stamp d)) by (by destruct (s_purpose s)). eapply update_inherits; [|exact Hin'].
  intros t Ht Hid. rewrite (same_session d t s W Ht Hs Hid). unfold keeps. cbn. auto 10.
Qed.
Lemma finish_epochs s now c d : epochs (finish_in s now c d) = epochs d.
Proof.
  unfold finish_in. destruct (maps _ !! s_map s); [|done]. destruct (s_purpose s); [|done]. by destruct (List.filter _ _).
Qed.

(** An operation other than a start or a placement: rows are only kept, ended, unplaced or removed, and no epoch is new. *)
Definition Quiet (d d' : Db) : Prop := (forall s', s' ∈ sessions d' -> inherits d s') /\ epochs_kept d d'.
Lemma quiet_same d d' : sessions d' = sessions d -> epochs d' = epochs d -> Quiet d d'.
Proof. intros E1 E2. split; [intros s'; rewrite E1; apply inherits_refl|]. intros r x. by rewrite E2. Qed.
Lemma quiet_finish d s now c : Wf d -> s ∈ sessions d -> is_open s = true -> Quiet d (finish_in s now c d).
Proof. intros W Hs Ho. split; [intros s'; by apply finish_inherits|]. intros r x. by rewrite finish_epochs. Qed.
Lemma quiet_update d id f : (forall s, s ∈ sessions d -> s_id s = id -> keeps f s) -> Quiet d (update_session id f d).
Proof. intros Hf. split; [by apply update_inherits|]. by intros r x. Qed.
Lemma quiet_maps d d' n f : Quiet d d' -> Quiet d (update_map n f d').
Proof. intros H. exact H. Qed.
Lemma quiet_action n id a now c d d' : Wf d -> session_action n id a now c d = Ok d' -> Quiet d d'.
Proof.
  intros W. unfold session_action. destruct (alive_map n d); [|done]. cbn [rbind]. destruct (session_of d id) as [s|] eqn:Es; [|done]. apply session_of_elem in Es as [Hs <-].
  destruct (negb _); [done|]. case_bool_decide; [destruct (is_open s) eqn:Ho; intros [= <-]; [by apply quiet_finish|by apply quiet_same]|].
  destruct (is_open s) eqn:Ho; [|done]. cbn [negb]. destruct (negb _); [done|]. destruct (Bool.eqb _ _); intros [= <-]; [by apply quiet_same|]. apply quiet_maps, quiet_update.
  intros t Ht Hid. unfold keeps. cbn. auto 10.
Qed.
Lemma quiet_convert n t geo reloc d d' : convert_map_type n t geo reloc d = Ok d' -> Quiet d d'.
Proof.
  unfold convert_map_type. destruct (alive_map n d) as [row|]; [|done]. cbn [rbind]. case_bool_decide; [done|]. destruct (_ || _); [done|]. destruct reloc; [done|].
  destruct t; intros [= <-]; [by apply quiet_same|]. apply quiet_maps. split; [|by intros k x]. apply fmap_inherits. intros s _. unfold keeps.
  destruct (_ && _); [|auto 10]. destruct (_ ≫= _); [|auto 10]. case_bool_decide; cbn; auto 10.
Qed.
Lemma quiet_unplace n id reloc d d' : unplace_session n id reloc d = Ok d' -> Quiet d d'.
Proof.
  unfold unplace_session. destruct (alive_map n d) as [row|]; [|done]. cbn [rbind]. destruct (session_of d id) as [s|]; [|done].
  repeat (match goal with |- context [if ?b then Raise _ else _] => destruct b; [done|] end). destruct (negb _); intros [= <-]; [by apply quiet_same|]. apply quiet_update.
  intros t _ _. unfold keeps. cbn. split_and!; auto. done.
Qed.
Lemma quiet_delete_robot r busy now c d d' : Wf d -> close_and_clear r busy now c d = Ok d' -> Quiet d d'.
Proof.
  intros W. unfold close_and_clear. destruct (robots d !! r); [|done]. destruct busy; [done|]. intros [= <-]. pose proof (open_of_robot d r) as Ho.
  assert (Hq : Quiet d (foldl (fun d s => finish_in s now (c (s_map s)) d) d (open_sessions_of_robot d r))).
  { destruct (open_sessions_of_robot d r) as [|s [|t l]] eqn:El; [by apply quiet_same| |].
    - destruct (proj1 (Ho s) ltac:(set_solver)) as (Hs & Os & _). by apply quiet_finish.
    - exfalso. assert (Hnd : NoDup (s_id <$> open_sessions_of_robot d r)) by apply nodup_filter, W. rewrite El in Hnd. cbn in Hnd. apply NoDup_cons in Hnd as [Hnd _]. apply Hnd.
      destruct (proj1 (Ho s) ltac:(set_solver)) as (Hs & Os & Rs), (proj1 (Ho t) ltac:(set_solver)) as (Ht & Ot & Rt). rewrite (wf_robot _ W s t) by congruence. set_solver. }
  destruct Hq as [H1 H2]. split; [exact H1|]. intros k x. cbn. intros Hk. apply lookup_delete_Some in Hk as [_ Hk]. by apply H2.
Qed.

Lemma quiet_op op d d' : Wf d -> answer op d = Ok d' ->
  match op with Start _ _ _ _ _ | Place _ _ _ | ReplaceGeo _ _ _ _ _ | RunChanged _ _ | NewEpoch _ _ => True | Robots _ es _ => es = epochs d -> Quiet d d' | _ => Quiet d d' end.
Proof.
  intros W. destruct op as [n t slam nodes|n q now c c2|n id a now c|n|n c|n t geo reloc|n id q|n id reloc|n|n c|n|n|r busy now c|r e|r e|r|id p dd dat tr|id k|rs es sv]; try done; cbn [MapSessions.answer].
  - unfold create_map. destruct nodes; [done|]. destruct (existsb _ _); [done|]. destruct (maps d !! n); [done|]. intros [= <-]. by apply quiet_same.
  - by apply quiet_action.
  - unfold archive_map. destruct (alive_map n d); [|done]. cbn [rbind]. case_bool_decide; [intros [= <-]; by apply quiet_same|]. destruct (existsb _ _); [done|]. destruct (_ || _); [done|].
    intros [= <-]. by apply quiet_same.
  - unfold restore_map. destruct (alive_map n d); [|done]. cbn [rbind]. destruct (negb _); intros [= <-]; by apply quiet_same.
  - apply quiet_convert.
  - apply quiet_unplace.
  - intros [= <-]. unfold mark_slam_saved. destruct (maps d !! n) as [row|]; [destruct (m_deleting row)|]; by apply quiet_same.
  - intros [= <-]. unfold nodes_deleted. destruct (maps d !! n) as [row|]; [destruct (m_deleting row); [|destruct (_ && _ && _)]|]; by apply quiet_same.
  - unfold delete_map. destruct (existsb _ _); [done|]. intros [= <-]. by apply quiet_same.
  - intros [= <-]. unfold remove_map. destruct (maps d !! n) as [row|]; [|by apply quiet_same]. destruct (m_deleting row); [|by apply quiet_same]. split; [|by intros k x]. cbn.
    intros s [Hs _]%elem_filter_bool. by apply inherits_refl.
  - by apply quiet_delete_robot.
  - intros [= <-]. split; [|by intros k x]. apply fmap_inherits. intros s _. unfold keeps. destruct (_ && _ && _); cbn; auto 10. split_and!; auto. done.
  - intros [= <-]. apply quiet_update. intros t _ _. unfold keeps. cbn. auto 10.
  - intros [= <-] ->. by apply quiet_same.
Qed.

(** ** Placing *)

Lemma place_shape n id q d d' : place_session n id q d = Ok d' -> exists p dd t, d' = update_session id (session_place p dd t true) d.
Proof.
  unfold place_session. destruct (alive_map n d) as [row|]; [|done]. cbn [rbind]. destruct (session_of d id) as [s|]; [|done].
  repeat (match goal with |- context [if ?b then Raise _ else _] => destruct b; [done|] end). destruct (robots d !! s_robot s) as [r|]; [|done].
  destruct (negb (r_online r)); [done|]. cbv zeta. destruct q as [src pose rp| |held].
  - intros [= <-]. by do 3 eexists.
  - destruct (r_datum r); [|done]. destruct (m_geo row); [|done]. destruct (geo_transform_for _ _); [|done]. intros [= <-]. by do 3 eexists.
  - case_bool_decide; [done|]. destruct (negb held); [done|]. intros [= <-]. by do 3 eexists.
Qed.
Lemma current_place w n id q d' : Wf (db w) -> Wf d' -> Current w -> place_session n id q (db w) = Ok d' -> Current (with_db d' (placed_after w (Place n id q) d') w).
Proof.
  intros W W' J E. destruct (place_shape n id q _ _ E) as (p & dd & t & Ed). apply current_inherits; [done| |subst d'; by intros k x].
  intros s' Hs' _. unfold placed_after. rewrite (session_of_some d' s' W' Hs'). case_bool_decide as Hid; [by right|left]. split; [|done]. subst d'.
  apply elem_update in Hs' as (s & -> & Hs). case_bool_decide; [done|]. by apply inherits_refl.
Qed.
Lemma current_replace_geo w id p dd dat t : Wf (db w) -> Current w -> let d' := replace_geo_session id p dd dat t (db w) in Wf d' ->
  Current (with_db d' (placed_after w (ReplaceGeo id p dd dat t) d') w).
Proof.
  intros W J d' W'. apply current_inherits; [done| |by intros k x]. intros s' Hs' _. unfold placed_after. rewrite (session_of_some d' s' W' Hs').
  unfold d', replace_geo_session in Hs'. cbn in Hs'. apply list_elem_of_fmap in Hs' as (s & -> & Hs). destruct (bool_decide (s_id s = id)) eqn:Eid; cbn [andb].
  - apply bool_decide_eq_true in Eid. subst id. rewrite (session_of_some (db w) s W Hs). destruct (is_open s && _ && _) eqn:Ec.
    + right. rewrite bool_decide_true by done. cbn [andb session_place s_robot]. by rewrite Ec.
    + left. split; [by apply inherits_refl|]. rewrite bool_decide_true by done. cbn [andb]. by rewrite Ec.
  - left. split; [by apply inherits_refl|]. rewrite Eid. cbn [andb]. by destruct (session_of (db w) id).
Qed.

(** ** Starting *)

Definition from_session (s : Session) (c : nat) : Prop := exists p, s_placement s = Some p /\ p_source p = Some SESSION /\ p_from p = Some c.
Lemma source_of_plan row r purpose placement carried nodes frame plan : plan_session row r purpose placement carried nodes frame = Ok plan ->
  match pl_placement plan with Some p => p_source p = Some SESSION -> exists c, carried = Some c /\ p_from p = Some (s_id c) | None => True end.
Proof.
  unfold plan_session. destruct (m_type row).
  - destruct placement as [[p rp]|]; [intros [= <-]; destruct frame; done|]. destruct carried as [c|].
    + intros [= <-]. cbn. destruct (placement_frame c); cbn; by exists c.
    + intros [= <-]. cbn. destruct (_ && _); [|done]. by destruct frame.
  - destruct (r_datum r); [|done]. intros [= <-]. done.
Qed.
Lemma carried_from d n row robot r placed replaced c : carried_placement d n row robot r placed replaced = Some c ->
  s_aligned c = true /\ (replaced = Some c \/ c ∈ sessions d /\ s_robot c = robot /\ exists e, s_epoch c = Some e /\ epochs d !! robot = Some (e, true)).
Proof.
  unfold carried_placement. destruct (unless_mismatch d robot r _) as [s|] eqn:E1.
  - intros [= <-]. destruct replaced as [t|]; [|done]. cbn in E1. destruct (s_aligned t) eqn:Ea; [|done]. cbn in E1. destruct (mismatch d robot r t); [done|]. injection E1 as ->. auto.
  - destruct (placed || _); [done|]. destruct (epochs d !! robot) as [e|] eqn:Ee; [|done]. destruct (reusable_session _ robot (Some e)) as [t|] eqn:Er; [|done]. cbn.
    destruct (mismatch d robot r t); [done|]. intros [= <-]. apply reusable_spec in Er as (Hin & H1 & _ & H2 & H3 & H4). apply elem_filter_bool in Hin as [Hin _].
    split; [done|]. right. split_and!; [done|done|]. exists e.1. split; [done|]. destruct e. cbn in *. by subst.
Qed.
Lemma start_in_new n q replaced count d d' : start_in n q replaced count d = Ok d' ->
  exists s, sessions d' = sessions d ++ [s] /\ s_id s = next_id d /\ s_robot s = q_robot q /\ epochs d' = epochs d
  /\ forall c, from_session s c -> exists x, s_id x = c /\ s_aligned x = true
       /\ (replaced = Some x \/ x ∈ sessions d /\ s_robot x = q_robot q /\ exists e, s_epoch x = Some e /\ epochs d !! q_robot q = Some (e, true)).
Proof.
  unfold start_in. destruct (maps d !! n) as [row|]; [|done]. case_bool_decide; [done|]. destruct (robots d !! q_robot q) as [r|]; [|done].
  repeat (match goal with |- (if ?b then Raise _ else _) = _ -> _ => destruct b; [done|] end). cbv zeta.
  destruct (carried_placement _ _ _ _ _ _ replaced) as [c|] eqn:Ec; destruct (plan_session _ _ _ _ _ _ _) as [plan|] eqn:Ep; try done; set (s := Build_Session _ _ _ _ _ _ _ _ _ _ _ _ _);
    intros E; exists s; (split; [destruct (q_purpose q); by injection E as <-|]); (split_and!; [done|done|destruct (q_purpose q); by injection E as <-|]); intros k (p & Hp & Hsrc & Hfrom);
    apply source_of_plan in Ep; cbn in Hp; rewrite Hp in Ep; destruct (Ep Hsrc) as (x & Hx & Hk); [|done]. injection Hx as <-. exists c. split; [congruence|]. by eapply carried_from.
Qed.

Lemma quiet_freed r now c d : Wf d -> Quiet d (freed r now c d).
Proof. intros W. destruct (freed_cases r now c d W) as [[-> _]|(s & Hs & Os & _ & ->)]; [by apply quiet_same|by apply quiet_finish]. Qed.
Lemma current_quiet w d' p' : Current w -> Quiet (db w) d' -> (forall id, p' id = placed_in w id) -> Current (with_db d' p' w).
Proof. intros J [H1 H2] Hp. apply current_inherits; [done| |done]. intros s' Hs' _. left. split; [by apply H1|done]. Qed.

Lemma current_start w n q now c c2 d' : Wf (db w) -> Wf d' -> Current w -> open_tx n q now c c2 (db w) = Ok d' ->
  Current (with_db d' (placed_after w (Start n q now c c2) d') w).
Proof.
  intros W W' J E. destruct (start_as_start_in n q now c c2 _ _ E) as (replaced & Ein & Hrep). pose proof (freed_next (q_robot q) now c2 (db w) W) as Hnx.
  pose proof (quiet_freed (q_robot q) now c2 (db w) W) as Hq. set (d1 := freed _ _ _ _) in *. destruct (start_in_new n q replaced c d1 d' Ein) as (s & Es & Hid & Hr & Ee & Hfrom).
  pose proof (current_quiet w d1 (placed_in w) J Hq (fun _ => eq_refl)) as J1. destruct Hq as [Hq1 Hq2]. apply current_inherits; [done| |intros k x; rewrite Ee; apply Hq2].
  intros s' Hs' Hu. unfold placed_after. rewrite (session_of_some d' s' W' Hs'). rewrite Es in Hs'. apply elem_of_app in Hs' as [Hs'| ->%list_elem_of_singleton].
  - left. pose proof (Hq1 s' Hs') as Hin. split; [done|]. rewrite bool_decide_false; [done|]. destruct Hin as (s0 & Hs0 & -> & _). pose proof (proj1 (Forall_forall _ _) (wf_next _ W) s0 Hs0). cbn in *. lia.
  - right. rewrite bool_decide_true by congruence. unfold source_run. destruct (s_placement s) as [p|] eqn:Ep; [|done]. destruct (p_source p) as [[]|] eqn:Esrc; try done.
    destruct (p_from p) as [k|] eqn:Ek; [|done]. destruct (Hfrom k) as (x & <- & Ha & Hx); [by exists p|]. rewrite Hr. destruct Hx as [Hx|(Hx & Hxr & e & He1 & He2)].
    + destruct (Hrep x Hx) as (Hin & Hxr & _ & Ho). rewrite Hr, <-Hxr in Hu. rewrite <-Hxr. apply J; [done|done|done|by left].
    + rewrite Hr, <-Hxr in Hu. rewrite <-Hxr. apply (J1 x Hx); [exact Hu|done|]. right. exists e, true. split; [done|]. cbn. by rewrite Hxr.
Qed.

Lemma still_unseen (X : gset string) k r : k <> r -> k ∈ X -> k ∈ X ∖ {[r]}.
Proof. intros Hne Hk. apply elem_of_difference. split; [done|]. by intros ->%elem_of_singleton. Qed.
(** The dispatcher decides on a robot with an epoch no session carries, and none of its open sessions is placed. *)
Lemma current_decided w r e h d' : Current w -> fresh_epoch e (db w) -> epochs d' = <[r := (e, true)]> (epochs (db w)) ->
  (forall s', s' ∈ sessions d' -> inherits (db w) s' /\ s_epoch s' <> Some e /\ (s_robot s' = r -> is_open s' = true -> s_aligned s' = false)) ->
  Current (decided r h d' w).
Proof.
  intros J Hf He Hs s' Hin Hu Ha Hor. cbn in *. destruct (Hs s' Hin) as ((s & Hs0 & E1 & E2 & E3 & E4 & E5) & Hne & Hnp). destruct (decide (s_robot s' = r)) as [Er|Er].
  - exfalso. destruct Hor as [Ho|(x & b & Hx1 & Hx2)]; [by rewrite Hnp in Ha|]. rewrite He, Er, lookup_insert_eq in Hx2. congruence.
  - rewrite E1, E2. rewrite E2 in Hu, Er. apply J; [done|intros K; by apply Hu, still_unseen|auto|]. destruct Hor as [Ho|(x & b & Hx1 & Hx2)]; [left; auto|]. destruct E5 as [E5|E5]; [|by left]. right. exists x, b. split; [congruence|].
    rewrite He, E2, lookup_insert_ne in Hx2 by done. done.
Qed.
(** It keeps the epoch of a robot whose run it knows. *)
Lemma current_confirmed w r e b h : Current w -> r ∉ unseen w -> epochs (db w) !! r = Some (e, b) -> Current (decided r h (step (db w) (NewEpoch r e)) w).
Proof.
  intros J Hr He s Hs Hu Ha Hor. cbn in *. apply J; [done| |done|].
  { destruct (decide (s_robot s = r)) as [->|Hne]; [done|]. intros K. by apply Hu, still_unseen. } destruct Hor as [Ho|(x & c & Hx1 & Hx2)]; [by left|]. right.
  destruct (decide (s_robot s = r)) as [Er|Er]; [|rewrite lookup_insert_ne in Hx2 by done; by exists x, c]. rewrite Er, lookup_insert_eq in Hx2. injection Hx2 as <- <-.
  exists e, b. split; [done|by rewrite Er].
Qed.

(** *** The times of the stored header ids *)

Definition Timed (w : World) : Prop := (forall r, started w r <= clock w)%Z
  /\ forall r, is_Some (epochs (db w) !! r) -> ((headers w r).2 <= clock w)%Z /\ (r ∈ unseen w -> (headers w r).2 <= started w r)%Z.
Lemma timed_header w d r h : Timed w -> (forall k, k <> r -> is_Some (epochs d !! k) -> is_Some (epochs (db w) !! k)) -> Timed (decided r h d w).
Proof.
  intros [H1 H2] Hd. split; [done|]. intros k Hk. cbn in *. unfold header_now. case_bool_decide as E; cbn; [split; [lia|set_solver]|].
  destruct (H2 k (Hd k E Hk)) as [H3 H4]. split; [done|]. intros Hu. apply H4. set_solver.
Qed.
Lemma timed_kept w d p : Timed w -> (forall k, is_Some (epochs d !! k) -> is_Some (epochs (db w) !! k)) -> Timed (with_db d p w).
Proof. intros [H1 H2] Hd. split; [done|]. intros r Hr. by apply H2, Hd. Qed.
Lemma op_epochs op d d' : Wf d -> answer op d = Ok d' ->
  match op with RunChanged _ _ | NewEpoch _ _ => True | Robots _ es _ => es = epochs d -> epochs_kept d d' | _ => epochs_kept d d' end.
Proof.
  intros W E. pose proof (quiet_op op d d' W E) as Hq. destruct op; try exact I; try (by apply Hq).
  - cbn in E. destruct (start_as_start_in _ _ _ _ _ _ _ E) as (replaced & Ein & _). destruct (start_in_new _ _ _ _ _ _ Ein) as (s & _ & _ & _ & Ee & _). intros k x. rewrite Ee. by apply quiet_freed.
  - cbn in E. destruct (place_shape _ _ _ _ _ E) as (p & dd & t & ->). by intros k x.
  - cbn in E. injection E as <-. by intros k x.
Qed.
Lemma insert_kept {A} (m : gmap string A) r x k : k <> r -> is_Some (<[r := x]> m !! k) -> is_Some (m !! k).
Proof. intros Hne. by rewrite lookup_insert_ne. Qed.
Lemma timed_next w ev : Wf (db w) -> Timed w -> enabled ev w -> Timed (next ev w).
Proof.
  intros W J He. destruct ev as [op|ms|r|r e h| |r h f|r e h]; cbn [next].
  - destruct (answer op (db w)) as [d'|] eqn:E; [|done]. pose proof (op_epochs op (db w) d' W E) as Hk. apply timed_kept; [done|]. intros k [x Hx].
    exists x. cbn in He. destruct op; try (by apply Hk); try done.
  - cbn in He. destruct J as [H1 H2]. split; cbn; [intros r; specialize (H1 r); lia|]. intros r Hr. destruct (H2 r Hr). split; [lia|done].
  - destruct J as [H1 H2]. split; cbn; [intros k; case_bool_decide; [lia|done]|]. intros k Hk. destruct (H2 k Hk) as [H3 H4]. split; [done|]. case_bool_decide; [done|]. set_solver.
  - apply timed_header; [done|]. intros k. apply insert_kept.
  - apply timed_kept; [done|]. intros k. cbn. rewrite lookup_fmap, fmap_is_Some. done.
  - apply timed_header; [done|]. intros k. apply insert_kept.
  - case_bool_decide; [|done]. destruct J as [H1 H2]. split; [done|]. intros k Hk. cbn in *. unfold header_now. case_bool_decide; cbn; [|by apply H2]. split; [lia|]. by subst.
Qed.

(** The first state message of a robot that was restarted does not prove that its run continues. *)
Lemma restart_gets_fresh_epoch w r h f : Timed w -> can_send w r h -> r ∈ unseen w -> run_epoch_check (epoch_row w r) h f = f.
Proof.
  intros [H1 H2] [Hh Hc] Hr. unfold epoch_row. destruct (epochs (db w) !! r) as [[e b]|] eqn:E; [|done]. destruct (H2 r) as [H3 H4]; [by eexists|]. specialize (H4 Hr).
  unfold run_epoch_check. destruct (headers w r).1 as [st|]; [|done]. rewrite restarted_client_no_proof; [done|lia|]. specialize (H1 r). unfold MAX_STATE_RATE_HZ in *. lia.
Qed.
Lemma epoch_check_cases w r h f : run_epoch_check (epoch_row w r) h f = f \/ exists e b, epochs (db w) !! r = Some (e, b) /\ run_epoch_check (epoch_row w r) h f = e.
Proof. unfold epoch_row. destruct (epochs (db w) !! r) as [[e b]|] eqn:E; [|by left]. unfold run_epoch_check. destruct (run_continues _ _ h); [right; by exists e, b|by left]. Qed.

(** *** Every event *)

Lemma current_do w op : Wf (db w) -> Current w -> enabled (Do op) w -> Current (next (Do op) w).
Proof.
  intros W J He. cbn [next]. destruct (answer op (db w)) as [d'|] eqn:E; [|done]. assert (W' : Wf d') by (pose proof (step_wf (db w) op W) as H; unfold MapSessions.step in H; by rewrite E in H).
  pose proof (quiet_op op (db w) d' W E) as Hq. destruct op; try done;
    try (apply current_quiet; [done|exact Hq|]; let i := fresh in intros i; unfold placed_after; by destruct (session_of d' i)).
  - by apply current_start.
  - by apply current_place.
  - cbn in E. injection E as <-. by apply current_replace_geo.
  - apply current_quiet; [done|by apply Hq|]. intros k. unfold placed_after. by destruct (session_of d' k).
Qed.
Lemma current_detected w r e h : Current w -> fresh_epoch e (db w) -> Current (next (RunDetected r e h) w).
Proof.
  intros J He. pose proof He as [Hf _]. apply (current_decided w r e); [done|done|done|]. cbn. intros s' (s & -> & Hs)%list_elem_of_fmap. specialize (Hf s Hs).
  destruct (is_open s && bool_decide (s_robot s = r) && s_aligned s) eqn:Ec.
  - split_and!; [|done|done]. exists s. cbn. split_and!; auto. done.
  - split_and!; [by apply inherits_refl|done|]. intros Hr Ho. rewrite Ho, bool_decide_true in Ec by done. by destruct (s_aligned s).
Qed.
Lemma current_first_state w r h f : Timed w -> Current w -> enabled (FirstState r h f) w -> Current (next (FirstState r h f) w).
Proof.
  intros T J (Hf & Hc & Hn). cbn [next]. destruct (decide (r ∈ unseen w)) as [Hr|Hr].
  - rewrite (restart_gets_fresh_epoch w r h f T Hc Hr). apply (current_decided w r f); [done|done|done|]. cbn. intros s Hs. split_and!; [by apply inherits_refl|by apply Hf|]. intros E Ho. by apply (Hn Hr).
  - destruct (epoch_check_cases w r h f) as [->|(e & b & He & ->)]; [|by eapply current_confirmed].
    intros s Hs Hu Ha Hor. cbn in *. apply J; [done| |done|]; [destruct (decide (s_robot s = r)) as [->|Hne]; [done|]; intros K; by apply Hu, still_unseen|].
    destruct Hor as [Ho|(x & b & Hx1 & Hx2)]; [by left|right].
    destruct (decide (s_robot s = r)) as [Er|Er]; [|rewrite lookup_insert_ne in Hx2 by done; by exists x, b]. rewrite Er, lookup_insert_eq in Hx2. injection Hx2 as <- <-. by destruct (proj1 Hf s Hs).
Qed.
Lemma current_next w ev : Wf (db w) -> Timed w -> Current w -> enabled ev w -> Current (next ev w).
Proof.
  intros W T J He. destruct ev as [op|ms|r|r e h| |r h f|r e h].
  - by apply current_do.
  - exact J.
  - intros s Hs Hu Ha Hor. cbn in *. rewrite bool_decide_false by set_solver. apply J; [done|set_solver|done|done].
  - by apply current_detected.
  - intros s Hs Hu Ha Hor. cbn in *. apply J; [done|done|done|]. destruct Hor as [Ho|(x & b & Hx1 & Hx2)]; [by left|right]. rewrite lookup_fmap in Hx2.
    destruct (epochs (db w) !! s_robot s) as [[y c]|]; [|done]. injection Hx2 as <- <-. by exists y, c.
  - by apply current_first_state.
  - cbn [next]. case_bool_decide; exact J.
Qed.
Lemma history_inv w : history w -> Timed w /\ Current w.
Proof.
  intros Hh. pose proof (history_reachable w Hh) as _. induction Hh as [f g t h Ht|w ev Hh [T J] He].
  - split; [|intros s Hs; by apply elem_of_nil in Hs]. split; [done|]. intros r [x Hx]. cbn in Hx. by rewrite lookup_empty in Hx.
  - pose proof (reachable_wf _ (history_reachable w Hh)) as W. split; [by apply timed_next|by apply current_next].
Qed.

End run.

(** ** Example *)

#[local] Existing Instance plain.
Definition start_world : World :=
  {| db := new_db; run := fun _ => 3; started := fun _ => (-1000)%Z; placed_in := fun _ => 0; clock := 0; headers := fun _ => (None, 0%Z); unseen := ∅ |}.
Definition run_events (evs : list Event) (w : World) : World := foldl (fun w ev => next ev w) w evs.
Fixpoint all_enabled (evs : list Event) (w : World) : Prop :=
  match evs with [] => True | ev :: evs => enabled ev w /\ all_enabled evs (next ev w) end.
Lemma events_history evs : forall w, history w -> all_enabled evs w -> history (run_events evs w).
Proof. induction evs as [|ev evs IH]; [done|]. intros w Hw [H1 H2]. apply IH; [by constructor|done]. Qed.

(** "a" is first seen, placed on "office" and ends its session. A minute later the dispatcher is restarted, "a" proves that
    its run continues, and its next session takes the placement. Then both are restarted: "a" has sent 100 messages in five
    seconds, the next session is not placed. *)
Definition first_events : list Event :=
  [Do (Robots (<["a" := at_home]> ∅) ∅ ∅); FirstState "a" 5 1; Do (Create "office" Local false false); Do (SlamSaved "office");
   Do (Start "office" (request "a" operate (Some (None, 7, 0)%Z) false) 1 (Some 5%N) None); Do (Act "office" 0 finish 2 (Some 5%N));
   Wait 60000; DispatcherStart; FirstState "a" 1200 9; Do (Start "office" (request "a" operate None false) 3 (Some 5%N) None)].
Definition restart_events : list Event :=
  [Do (Act "office" 1 finish 4 (Some 5%N)); ClientRestart "a"; Wait 5000; DispatcherStart; FirstState "a" 99 9;
   Do (Start "office" (request "a" operate None false) 5 (Some 5%N) None)].
Definition reuse_world : World := run_events (first_events ++ restart_events) start_world.

(** The events' conditions on concrete worlds *)
Definition fresh_epochb (e : Z) (d : Db) : bool :=
  forallb (fun s => negb (bool_decide (s_epoch s = Some e))) (sessions d) && forallb (fun x => negb (bool_decide (x.2.1 = e))) (map_to_list (epochs d)).
Lemma fresh_epochb_sound e d : fresh_epochb e d = true -> fresh_epoch e d.
Proof.
  unfold fresh_epochb. intros [H1 H2]%andb_prop. split.
  - intros s Hs. pose proof (proj1 (forallb_forall _ _) H1 s ltac:(by apply list_elem_of_In)) as H. by apply negb_true_iff, bool_decide_eq_false in H.
  - intros r x Hx. pose proof (proj1 (forallb_forall _ _) H2 (r, x) ltac:(by apply list_elem_of_In, elem_of_map_to_list)) as H. by apply negb_true_iff, bool_decide_eq_false in H.
Qed.
Definition no_placedb (r : string) (d : Db) : bool := forallb (fun s => negb (is_open s && bool_decide (s_robot s = r) && s_aligned s)) (sessions d).
Lemma no_placedb_sound r d : no_placedb r d = true -> no_placed r d.
Proof.
  intros H s Hs Ho Hr. pose proof (proj1 (forallb_forall _ _) H s ltac:(by apply list_elem_of_In)) as E. cbn beta in E. rewrite Ho, bool_decide_true in E by done. by destruct (s_aligned s).
Qed.
Lemma reuse_history : history reuse_world.
Proof.
  apply events_history; [constructor; intros r; cbn; lia|]. cbn [all_enabled first_events restart_events app enabled]. split_and!; try exact I.
  all: try (apply fresh_epochb_sound; vm_compute; reflexivity).
  all: try (intros _; apply no_placedb_sound; vm_compute; reflexivity).
  all: try (split; vm_compute; intros K; discriminate K).
  all: vm_compute; first [reflexivity | intros K; discriminate K].
Qed.

(** A run change whose new epoch is not recorded (the savepoint of [_new_run_epoch] fails, the unplacing is committed): the
    row keeps the old epoch with [continuity_known], and the next session takes the placement of the run before. *)
Example unrecorded_run_reused :
  let before := run_events (take 6 first_events) start_world in
  let d := unplace_robot "a" RUN_CHANGED (db before) in
  (fun s => (s_aligned s, s_placement s ≫= p_from)) <$> sessions (step d (Start "office" (request "a" operate None false) 3 (Some 5%N) None)) = [(true, None); (true, Some 0)].
Proof. vm_compute. reflexivity. Qed.
