(* ===== verification/Coroutine.v ===== *)
(** * Coroutines

    A coroutine as the tree of what it awaits: it returns, or it performs an effect and continues with the answer.
    Trees are finite (loops of the code have a bound, which the files that use them show to be enough), so programs
    are defined and reasoned about by structural recursion. What an effect does to the world is a relation [does], so the
    same program can be run against any environment; [wp] is the weakest precondition of a program, with a guarantee
    that every single effect has to meet, which therefore also holds where the program is cut short. *)

From S2P Require Import Prelude.

Inductive prog (E : Type -> Type) (A : Type) : Type :=
| Ret (a : A)
| Vis (X : Type) (e : E X) (k : X -> prog E A).
Arguments Ret {E A} a.
Arguments Vis {E A X} e k.

Fixpoint bind {E : Type -> Type} {A B : Type} (p : prog E A) (k : A -> prog E B) : prog E B :=
  match p with
  | Ret a => k a
  | Vis e c => Vis e (fun x => bind (c x) k)
  end.

(** An effect awaited, a coroutine awaited, and the exceptions: [try p with e => h], [raise]. *)
Definition perform {E : Type -> Type} {X : Type} (e : E X) : prog E X := Vis e Ret.
Definition raise {E : Type -> Type} {X A : Type} (x : X) : prog E (result X A) := Ret (Raise x).
Definition done {E : Type -> Type} {X A : Type} (a : A) : prog E (result X A) := Ret (Ok a).
Definition ebind {E : Type -> Type} {X A B : Type} (p : prog E (result X A)) (k : A -> prog E (result X B)) : prog E (result X B) :=
  bind p (fun r => match r with Ok a => k a | Raise x => Ret (Raise x) end).
Definition catch {E : Type -> Type} {X Y A : Type} (p : prog E (result X A)) (h : X -> prog E (result Y A)) : prog E (result Y A) :=
  bind p (fun r => match r with Ok a => Ret (Ok a) | Raise x => h x end).

Notation "'let*' x := p 'in' k" := (bind p (fun x => k)) (at level 10, x pattern, p at level 100, k at level 200) : fleet_scope.
Notation "'let+' x := p 'in' k" := (ebind p (fun x => k)) (at level 10, x pattern, p at level 100, k at level 200) : fleet_scope.
Notation "p ;;; k" := (bind p (fun _ => k)) (at level 199, right associativity) : fleet_scope.

(** ** Runs and preconditions *)

Section semantics.
Context {E : Type -> Type} {S : Type}.
(** What an effect may answer and do to the world *)
Context (does : forall X, E X -> S -> X -> S -> Prop).

(** A run up to some point: the effects so far, each with the world before and after it, and what is left of the program *)
Inductive steps {A : Type} : prog E A -> S -> list (sigT E * S * S) -> prog E A -> S -> Prop :=
| steps_here p s : steps p s [] p s
| steps_more X (e : E X) k x s s1 l p s2 : does X e s x s1 -> steps (k x) s1 l p s2 ->
    steps (Vis e k) s ((existT X e, s, s1) :: l) p s2.

(** What every effect has to guarantee *)
Context (G : forall X, E X -> S -> S -> Prop).

Fixpoint wp {A : Type} (p : prog E A) (Q : A -> S -> Prop) (s : S) : Prop :=
  match p with
  | Ret a => Q a s
  | Vis e k => forall x s', does _ e s x s' -> G _ e s s' /\ wp (k x) Q s'
  end.

Lemma wp_mono {A : Type} (p : prog E A) (Q Q' : A -> S -> Prop) s : (forall a s, Q a s -> Q' a s) -> wp p Q s -> wp p Q' s.
Proof.
  intros HQ. revert s. induction p as [a|X e k IH]; intros s H; cbn in *; [auto|].
  intros x s' Hd. destruct (H x s' Hd). split; [done|]. by apply IH.
Qed.

Lemma wp_bind {A B : Type} (p : prog E A) (k : A -> prog E B) Q s : wp p (fun a => wp (k a) Q) s -> wp (bind p k) Q s.
Proof.
  revert s. induction p as [a|X e c IH]; intros s H; cbn in *; [done|].
  intros x s' Hd. destruct (H x s' Hd). split; [done|]. by apply IH.
Qed.

Lemma wp_ebind {X A B : Type} (p : prog E (result X A)) (k : A -> prog E (result X B)) Q s :
  wp p (fun r s => match r with Ok a => wp (k a) Q s | Raise x => Q (Raise x) s end) s -> wp (ebind p k) Q s.
Proof. intros H. apply wp_bind. eapply wp_mono; [|done]. by intros [a|x] s'. Qed.

Lemma wp_catch {X Y A : Type} (p : prog E (result X A)) (h : X -> prog E (result Y A)) Q s :
  wp p (fun r s => match r with Ok a => Q (Ok a) s | Raise x => wp (h x) Q s end) s -> wp (catch p h) Q s.
Proof. intros H. apply wp_bind. eapply wp_mono; [|done]. by intros [a|x] s'. Qed.

(** Every effect of a run meets the guarantee, the program that is left still has its precondition, and a result
    meets the postcondition. *)
Theorem wp_sound {A : Type} (p : prog E A) Q s l p' s' :
  steps p s l p' s' -> wp p Q s -> Forall (fun t => G _ (projT2 t.1.1) t.1.2 t.2) l /\ wp p' Q s'.
Proof.
  induction 1 as [p s|X e k x s s1 l p s2 Hd _ IH]; intros H; [done|].
  cbn in H. destruct (H x s1 Hd) as [HG Hk]. destruct (IH Hk). split; [|done]. by constructor.
Qed.

Corollary wp_result {A : Type} (p : prog E A) Q s l a s' : steps p s l (Ret a) s' -> wp p Q s -> Q a s'.
Proof. intros H1 H2. by destruct (wp_sound _ _ _ _ _ _ H1 H2). Qed.

(** A run of a sequence is a run of its first part, or a finished one followed by a run of the second *)
Lemma steps_trans {A : Type} (p : prog E A) s l p1 s1 l2 p2 s2 :
  steps p s l p1 s1 -> steps p1 s1 l2 p2 s2 -> steps p s (l ++ l2) p2 s2.
Proof. induction 1; intros; [done|]. cbn. econstructor; eauto. Qed.

Lemma steps_bind {A B : Type} (p : prog E A) (k : A -> prog E B) s l p1 s1 : steps p s l p1 s1 -> steps (bind p k) s l (bind p1 k) s1.
Proof. induction 1; cbn; econstructor; eauto. Qed.

(** Every effect can be answered: then a program can be run to its end from any world, so that its length is bounded. *)
Lemma runs_to_end {A : Type} (p : prog E A) s :
  (forall X (e : E X) s, exists x s', does X e s x s') -> exists l a s', steps p s l (Ret a) s'.
Proof.
  intros Htot. revert s. induction p as [a|X e k IH]; intros s; [eexists [], a, s; constructor|].
  destruct (Htot X e s) as (x & s1 & Hd). destruct (IH x s1) as (l & a & s' & Hl).
  eexists _, a, s'. econstructor; eauto.
Qed.
End semantics.

(** ** How many effects of a kind a program performs *)

Section counting.
Context {E : Type -> Type} (counts : forall X, E X -> nat).

Fixpoint at_most {A : Type} (n : nat) (p : prog E A) : Prop :=
  match p with
  | Ret _ => True
  | Vis e k => exists m, counts _ e + m <= n /\ forall x, at_most m (k x)
  end.

Lemma at_most_weaken {A : Type} n m (p : prog E A) : at_most n p -> n <= m -> at_most m p.
Proof. destruct p; cbn; [done|]. intros (j & ? & ?) ?. exists j. split; [lia|done]. Qed.

Lemma at_most_bind {A B : Type} n m (p : prog E A) (k : A -> prog E B) : at_most n p -> (forall a, at_most m (k a)) -> at_most (n + m) (bind p k).
Proof.
  revert n. induction p as [a|X e c IH]; cbn; intros n Hp Hk.
  - eapply at_most_weaken; [apply Hk|lia].
  - destruct Hp as (j & ? & ?). exists (j + m). split; [lia|]. intros x. by apply IH.
Qed.

(** A run performs no more of them. *)
Fixpoint performed {S : Type} (l : list (sigT E * S * S)) : nat :=
  match l with [] => 0 | t :: l => counts _ (projT2 t.1.1) + performed l end.
Lemma at_most_sound {S A : Type} (does : forall X, E X -> S -> X -> S -> Prop) n (p : prog E A) s l p' s' :
  steps does p s l p' s' -> at_most n p -> performed l <= n.
Proof.
  intros Hs. revert n. induction Hs as [|X e k x s s1 l p s2 Hd _ IH]; intros n Hn; cbn; [lia|].
  destruct Hn as (m & ? & Hk). specialize (IH m (Hk x)). lia.
Qed.
End counting.

(** ** What a program can return, whatever it is answered *)

Fixpoint returns {E : Type -> Type} {A : Type} (P : A -> Prop) (p : prog E A) : Prop :=
  match p with Ret a => P a | Vis e k => forall x, returns P (k x) end.
Lemma returns_bind {E : Type -> Type} {A B : Type} (P : B -> Prop) (p : prog E A) (k : A -> prog E B) :
  returns (fun a => returns P (k a)) p -> returns P (bind p k).
Proof. induction p as [a|X e c IH]; cbn; [done|]. intros H x. by apply IH. Qed.
Lemma returns_mono {E : Type -> Type} {A : Type} (P Q : A -> Prop) (p : prog E A) : (forall a, P a -> Q a) -> returns P p -> returns Q p.
Proof. intros HPQ. induction p as [a|X e c IH]; cbn; auto. Qed.
Lemma returns_sound {E : Type -> Type} {S A : Type} (does : forall X, E X -> S -> X -> S -> Prop) (P : A -> Prop) p s l a s' :
  steps does p s l (Ret a) s' -> returns P p -> P a.
Proof.
  intros Hs. remember (Ret a) as p' eqn:Hp. induction Hs; intros Hr; subst; [done|]. cbn in Hr. auto.
Qed.
Lemma wp_returns {E : Type -> Type} {S A : Type} (does : forall X, E X -> S -> X -> S -> Prop) (G : forall X, E X -> S -> S -> Prop)
    (P : A -> Prop) (p : prog E A) Q s :
  returns P p -> wp does G p Q s -> wp does G p (fun a s => Q a s /\ P a) s.
Proof.
  revert s. induction p as [a|X e k IH]; cbn; intros s Hr H; [done|]. intros x s' Hd. destruct (H x s' Hd). split; [done|]. by apply IH.
Qed.

(** ** What every effect of a program is, whatever it is answered *)

Fixpoint everywhere {E : Type -> Type} {A : Type} (P : forall X, E X -> Prop) (p : prog E A) : Prop :=
  match p with Ret _ => True | Vis e k => P _ e /\ forall x, everywhere P (k x) end.
Lemma everywhere_bind {E : Type -> Type} {A B : Type} (P : forall X, E X -> Prop) (p : prog E A) (k : A -> prog E B) :
  everywhere P p -> (forall a, everywhere P (k a)) -> everywhere P (bind p k).
Proof. intros Hp Hk. induction p as [a|X e c IH]; cbn in *; [apply Hk|]. destruct Hp. split; [done|]. intros x. by apply IH. Qed.
Lemma everywhere_ebind {E : Type -> Type} {X A B : Type} (P : forall X, E X -> Prop) (p : prog E (result X A)) (k : A -> prog E (result X B)) :
  everywhere P p -> (forall a, everywhere P (k a)) -> everywhere P (ebind p k).
Proof. intros Hp Hk. apply everywhere_bind; [done|]. intros [a|x]; [apply Hk|done]. Qed.
Lemma everywhere_catch {E : Type -> Type} {X Y A : Type} (P : forall X, E X -> Prop) (p : prog E (result X A)) (h : X -> prog E (result Y A)) :
  everywhere P p -> (forall x, everywhere P (h x)) -> everywhere P (catch p h).
Proof. intros Hp Hk. apply everywhere_bind; [done|]. intros [a|x]; [done|apply Hk]. Qed.
Lemma everywhere_mono {E : Type -> Type} {A : Type} (P Q : forall X, E X -> Prop) (p : prog E A) :
  (forall X (e : E X), P X e -> Q X e) -> everywhere P p -> everywhere Q p.
Proof. intros HPQ. induction p as [a|X e k IH]; cbn; [done|]. intros [He Hk]. auto. Qed.
(** An invariant that every such effect keeps is kept by the program. *)
Lemma everywhere_wp {E : Type -> Type} {S A : Type} (does : forall X, E X -> S -> X -> S -> Prop) (G : forall X, E X -> S -> S -> Prop)
    (P : forall X, E X -> Prop) (J : S -> Prop) (p : prog E A) s :
  (forall X (e : E X) s x s', P X e -> J s -> does X e s x s' -> G X e s s' /\ J s') -> everywhere P p -> J s -> wp does G p (fun _ s' => J s') s.
Proof.
  intros HJ. revert s. induction p as [a|X e k IH]; cbn; intros s Hp Hs; [done|]. intros x s' Hd.
  destruct Hp as [He Hk]. destruct (HJ X e s x s' He Hs Hd). split; [done|]. by apply IH.
Qed.

Lemma wp_and {E : Type -> Type} {S A : Type} (does : forall X, E X -> S -> X -> S -> Prop) (G G' : forall X, E X -> S -> S -> Prop) (p : prog E A) Q Q' s :
  wp does G p Q s -> wp does G' p Q' s -> wp does G p (fun a s => Q a s /\ Q' a s) s.
Proof. revert s. induction p as [a|X e k IH]; cbn; intros s H H'; [done|]. intros x s' Hd. destruct (H x s' Hd), (H' x s' Hd). eauto. Qed.
(** What every effect guarantees of the world after it holds at the end. *)
Lemma wp_guaranteed {E : Type -> Type} {S A : Type} (does : forall X, E X -> S -> X -> S -> Prop) (G : forall X, E X -> S -> S -> Prop) (J : S -> Prop) (p : prog E A) Q s :
  (forall X (e : E X) s s', G X e s s' -> J s') -> J s -> wp does G p Q s -> wp does G p (fun a s => Q a s /\ J s) s.
Proof. intros HG. revert s. induction p as [a|X e k IH]; cbn; intros s HJ H; [done|]. intros x s' Hd. destruct (H x s' Hd). eauto. Qed.

(** ** Running a program in an environment that always answers the same way *)

Fixpoint exec {E : Type -> Type} {S A : Type} (h : forall X, E X -> S -> X * S) (p : prog E A) (s : S) : A * S :=
  match p with
  | Ret a => (a, s)
  | Vis e k => let '(x, s') := h _ e s in exec h (k x) s'
  end.
Lemma exec_steps {E : Type -> Type} {S A : Type} (does : forall X, E X -> S -> X -> S -> Prop) (h : forall X, E X -> S -> X * S) (p : prog E A) s :
  (forall X (e : E X) s, does X e s (h X e s).1 (h X e s).2) -> exists l, steps does p s l (Ret (exec h p s).1) (exec h p s).2.
Proof.
  intros Hh. revert s. induction p as [a|X e k IH]; intros s; [exists []; constructor|]. cbn. specialize (Hh X e s).
  destruct (h X e s) as [x s'] eqn:E1. destruct (IH x s') as [l Hl]. eexists. by econstructor.
Qed.

(** ** Coroutines side by side

    Tasks that share a state, each with its own memory: any of them performs its next effect, new ones start and running ones
    are killed at any time. What the others do to the shared state is the relation [R]; a program that is right in that
    environment, with effects that are themselves moves of [R], is right among any number of such programs. *)

Section pool.
Context {E : Type -> Type} {S L A : Type} (acts : forall X, E X -> S * L -> X -> S * L -> Prop) (fresh : prog E A -> L -> Prop).

Inductive pool : S -> list (prog E A * L) -> list (sigT E * (S * L) * (S * L)) -> S -> list (prog E A * L) -> Prop :=
| pool_here s ts : pool s ts [] s ts
| pool_act s ts1 X (e : E X) k m ts2 x s1 m1 l s2 ts : acts X e (s, m) x (s1, m1) -> pool s1 (ts1 ++ (k x, m1) :: ts2) l s2 ts ->
    pool s (ts1 ++ (Vis e k, m) :: ts2) ((existT X e, (s, m), (s1, m1)) :: l) s2 ts
| pool_start s ts1 p m l s2 ts : fresh p m -> pool s ((p, m) :: ts1) l s2 ts -> pool s ts1 l s2 ts
| pool_kill s ts1 t ts2 l s2 ts : pool s (ts1 ++ ts2) l s2 ts -> pool s (ts1 ++ t :: ts2) l s2 ts.

Context (R : S -> S -> Prop) (G : forall X, E X -> S * L -> S * L -> Prop).
(** One effect among others: what they do until the next one *)
Definition among (X : Type) (e : E X) (w : S * L) (x : X) (w' : S * L) : Prop := exists s1, acts X e w x (s1, w'.2) /\ rtc R s1 w'.1.

Definition safe_task (s : S) (t : prog E A * L) : Prop := forall s', rtc R s s' -> wp among G t.1 (fun _ _ => True) (s', t.2).

Lemma safe_task_later s s' t : rtc R s s' -> safe_task s t -> safe_task s' t.
Proof. intros Hr Ht s2 Hs. apply Ht. by etrans. Qed.

(** Every effect keeps its guarantee, the state it leaves goes on to the last one by moves of the tasks, and the tasks that are
    left are still safe. *)
Theorem pool_sound s ts l s' ts' :
  (forall X (e : E X) w w', G X e w w' -> rtc R w.1 w'.1) ->
  (forall p m s, fresh p m -> wp among G p (fun _ _ => True) (s, m)) ->
  pool s ts l s' ts' -> Forall (safe_task s) ts ->
  Forall (fun t => G _ (projT2 t.1.1) t.1.2 t.2 /\ rtc R t.1.2.1 s') l /\ rtc R s s' /\ Forall (safe_task s') ts'.
Proof.
  intros HG Hf. induction 1 as [s ts|s ts1 X e k m ts2 x s1 m1 l s2 ts Ha _ IH|s ts1 p m l s2 ts Hp _ IH|s ts1 t ts2 l s2 ts _ IH]; intros Hs.
  - done.
  - apply Forall_app in Hs as [H1 [Hv H2]%Forall_cons]. pose proof (Hv s (rtc_refl _ _)) as Hw. cbn in Hw.
    assert (G X e (s, m) (s1, m1)) as Hg by (apply (Hw x (s1, m1)); exists s1; split; [done|reflexivity]).
    pose proof (HG _ _ _ _ Hg) as Hr. cbn in Hr. destruct IH as (IH1 & IH2 & IH3).
    { apply Forall_app. split; [|constructor]; [|intros s3 H3; apply (Hw x (s3, m1)); by exists s1|];
        eapply Forall_impl; try done; intros; by eapply safe_task_later. }
    assert (rtc R s s2) by (by etrans). split; [by constructor|done].
  - apply IH. constructor; [|done]. intros s3 _. by apply Hf.
  - apply Forall_app in Hs as [H1 [_ H2]%Forall_cons]. apply IH. by apply Forall_app.
Qed.
End pool.

(** Running tasks side by side by a schedule, in an environment that always answers the same way *)
Section play.
Context {E : Type -> Type} {S L A : Type} (h : forall X, E X -> S * L -> X * (S * L)).
Fixpoint play (schedule : list nat) (s : S) (ts : list (prog E A * L)) : S * list (prog E A * L) :=
  match schedule with
  | [] => (s, ts)
  | i :: schedule =>
      match ts !! i with
      | Some (Vis e k, m) => let '(x, (s1, m1)) := h _ e (s, m) in play schedule s1 (<[i := (k x, m1)]> ts)
      | _ => play schedule s ts
      end
  end.
Fixpoint played (schedule : list nat) (s : S) (ts : list (prog E A * L)) : list (sigT E * (S * L) * (S * L)) :=
  match schedule with
  | [] => []
  | i :: schedule =>
      match ts !! i with
      | Some (Vis e k, m) => let '(x, (s1, m1)) := h _ e (s, m) in (existT _ e, (s, m), (s1, m1)) :: played schedule s1 (<[i := (k x, m1)]> ts)
      | _ => played schedule s ts
      end
  end.
Lemma play_pool (acts : forall X, E X -> S * L -> X -> S * L -> Prop) (fresh : prog E A -> L -> Prop) schedule s ts :
  (forall X (e : E X) w, acts X e w (h X e w).1 (h X e w).2) ->
  pool acts fresh s ts (played schedule s ts) (play schedule s ts).1 (play schedule s ts).2.
Proof.
  intros Hh. revert s ts. induction schedule as [|i schedule IH]; intros s ts; [constructor|]. cbn.
  destruct (ts !! i) as [[[a|X e k] m]|] eqn:Hi; [apply IH| |apply IH]. specialize (Hh X e (s, m)). destruct (h X e (s, m)) as [x [s1 m1]].
  pose proof (lookup_lt_Some _ _ _ Hi). rewrite <- (take_drop_middle _ _ _ Hi) at 1. econstructor; [exact Hh|]. rewrite <- insert_take_drop by done. apply IH.
Qed.
Lemma play_length schedule s ts : length (play schedule s ts).2 = length ts.
Proof.
  revert s ts. induction schedule as [|i schedule IH]; intros s ts; [done|]. cbn. destruct (ts !! i) as [[[a|X e k] m]|]; [done| |done].
  destruct (h X e (s, m)) as [x [s1 m1]]. by rewrite IH, length_insert.
Qed.
Lemma pool_trans (acts : forall X, E X -> S * L -> X -> S * L -> Prop) (fresh : prog E A -> L -> Prop) s ts l s1 ts1 l2 s2 ts2 :
  pool acts fresh s ts l s1 ts1 -> pool acts fresh s1 ts1 l2 s2 ts2 -> pool acts fresh s ts (l ++ l2) s2 ts2.
Proof. induction 1; intros; [done|..]; [cbn; econstructor; eauto|econstructor 3; eauto|econstructor 4; eauto]. Qed.
End play.
