(* ===== verification/Orchestrator.v ===== *)
(** * A robot's orchestrator, as the API calls it

    packages/api/orchestrator_client.py: the requests to the service that runs on a robot and what it answers, the
    errors a call can raise, and how a stored localization intent is put back. The orchestrator itself is not part of
    the repository: it is the class [Orchestrator], whose laws are what the module docstrings of orchestrator_client.py
    and mapping_switch.py document of it, with a small robot as an instance. The timeouts of the calls and the routes
    of the image mode are left out. *)

From S2P Require Import Prelude Coroutine.
Local Open Scope string_scope.
Local Open Scope fleet_scope.

(** ** Errors *)

(** [OrchestratorError.kind] and [status] *)
Inductive Kind := NO_ADDRESS | UNREACHABLE | TIMEOUT | HTTP (status : Z).
#[export] Instance Kind_eq_dec : EqDecision Kind.
Proof. solve_decision. Defined.

(** What a call may raise: an [OrchestratorError] with its detail, or something else *)
Inductive exn := OrchestratorError (kind : Kind) (detail : string) | OtherError (text : string).

Definition is_status (n : Z) (k : Kind) : bool := bool_decide (k = HTTP n).

(** [_call]: what the transport came to; [None] of a body is one that is no JSON *)
Inductive Transport (B : Type) := TimeoutException | HTTPError (name : string) | Response (status : Z) (detail : string) (body : option B).
Arguments TimeoutException {B}.
Arguments HTTPError {B} name.
Arguments Response {B} status detail body.

Definition call {B : Type} (address : option string) (empty : B) (t : Transport B) : result exn B :=
  match address with
  | None => Raise (OrchestratorError NO_ADDRESS "has no registered orchestrator IP/port")
  | Some whence =>
      match t with
      | TimeoutException => Raise (OrchestratorError TIMEOUT ("orchestrator at " +:+ whence +:+ " timed out"))
      | HTTPError name => Raise (OrchestratorError UNREACHABLE ("orchestrator at " +:+ whence +:+ " is not reachable (" +:+ name +:+ ")"))
      | Response status detail body =>
          if (400 <=? status)%Z then Raise (OrchestratorError (HTTP status) detail) else Ok (default empty body)
      end
  end.

(** ** Answers *)

(** [GET /localization]: the stored intent; [l_topomap] is absent where the orchestrator has no topomap service *)
Record Loc := { l_mode : option string; l_map : option string; l_topomap : option bool }.

(** The [problem] of a partial answer: a text, or a status code with a detail *)
Inductive Problem := ProblemText (text : string) | ProblemDict (code detail : string).
Record PutAnswer := { a_problem : option Problem; a_applied : option bool; a_topomap : option string; a_message : option string }.

(** [problem_of] *)
Definition problem_of (a : PutAnswer) : option string :=
  match a_problem a with
  | None => None
  | Some (ProblemDict code detail) => Some (code +:+ ": " +:+ detail)
  | Some (ProblemText text) => if bool_decide (text = "") then None else Some text
  end.

(** [GET /localization/save] *)
Record SaveStatus := { v_map : option string; v_status : option string; v_error : option string;
                       v_then : option string; v_then_error : option string; v_where : option string }.

(** A row of [GET /maps/list] *)
Record StoredMap := { sm_name : option string; sm_valid : bool; sm_cloud_map : option string }.

(** ** Requests; an initial pose is an opaque value *)

Inductive req : Type -> Type :=
| ListServices : req (result exn (list string))
| StartService (name : string) : req (result exn unit)
| StopService (name : string) : req (result exn unit)
| ListMaps (cloud_map_id : string) : req (result exn (list StoredMap))
| GetMap (name : string) : req (result exn (option Z))
| PatchMap (name : string) (init_pos : option Z) : req (result exn unit)
| GetLocalization : req (result exn Loc)
| PutLocalization (mode : string) (map : option string) (topomap : option bool) : req (result exn PutAnswer)
| SaveLocalization (name map : string) (session : string) : req (result exn unit)
| GetSave : req (result exn SaveStatus).

(** The onboard name of the save a request asks for *)
Definition starts_save {X : Type} (q : req X) : option string := match q with SaveLocalization n _ _ => Some n | _ => None end.

(** The mode a request asks for *)
Definition puts {X : Type} (q : req X) : option string := match q with PutLocalization m _ _ => Some m | _ => None end.

(** ** Putting an intent back *)

(** [restore_target] *)
Definition restore_target (prev : option (option string * option string)) : string * option string :=
  let '(mode, map) := default (None, None) prev in
  let mode := match mode with Some m => if bool_decide (m = "slam") then "odometry" else m | None => "odometry" end in
  (mode, if bool_decide (mode = "relocalization") then map else None).

(** [restore_intent]; whether it was put back. [expect] are the intents the caller may have left. *)
Definition restore_intent {E : Type -> Type} (ask : forall X, req X -> E X) (prev : option (option string * option string))
    (expect : option (list (option string * option string))) (topomap : option bool) : prog E (result exn bool) :=
  let put :=
    let '(mode, map) := restore_target prev in
    let+ answer := perform (ask _ (PutLocalization mode map topomap)) in
    match problem_of answer with Some p => raise (OtherError p) | None => done true end in
  match expect with
  | None => put
  | Some l =>
      let* now := perform (ask _ GetLocalization) in
      match now with
      | Ok loc => if bool_decide ((l_mode loc, l_map loc) ∈ l) then put else done false
      | Raise _ => put
      end
  end.

(** ** The contract *)

Class Orchestrator := {
  robot : Type;
  (** [answers q r x r']: asked [q] in state [r] the robot may answer [x] and be in [r'] then *)
  answers : forall X, req X -> robot -> X -> robot -> Prop;
  intent : robot -> option string * option string;
  init_pos : robot -> string -> option Z;
  (** It holds a SLAM map that is not stored *)
  recording : robot -> bool;
  (** How many SLAM maps it has stored *)
  stored : robot -> nat;
  (** The save it took last is one of what it records, under this onboard name, or has stored it since *)
  save_taken : robot -> string -> bool;
}.

(** A save status is about the save of a name: it names it, or is that of an orchestrator that names none *)
Definition status_of (n : string) (v : SaveStatus) : Prop := v_map v = None \/ v_map v = Some n.

(** A recording is lost: it was there, is gone and was not stored. *)
Definition discards `{Orchestrator} (r r' : robot) : Prop := recording r = true /\ recording r' = false /\ stored r' = stored r.
(** A request that does not ask for another mode than the robot's *)
Definition harmless `{Orchestrator} {X : Type} (q : req X) (r : robot) : Prop :=
  match puts q with None => True | Some m => Some m = (intent r).1 end.

Class Documented `{Orchestrator} := {
  (** A robot records in its slam mode *)
  records_in_slam r : recording r = true -> (intent r).1 = Some "slam";
  (** GET /localization is the stored intent *)
  reads_intent r loc r' : answers _ GetLocalization r (Ok loc) r' -> intent r' = (l_mode loc, l_map loc);
  (** Leaving slam discards the unsaved map; nothing else does *)
  only_leaving_discards X (q : req X) r x r' : answers X q r x r' -> discards r r' -> exists m, puts q = Some m /\ m <> "slam";
  (** Only a PUT of slam enters slam, and only there a recording begins *)
  only_put_enters_slam X (q : req X) r x r' : answers X q r x r' -> puts q <> Some "slam" ->
    ((intent r').1 = Some "slam" -> (intent r).1 = Some "slam") /\ (recording r' = true -> recording r = true);
  (** A PUT of the mode it is in starts no new recording *)
  same_mode_keeps X (q : req X) r x r' : answers X q r x r' -> harmless q r -> recording r' = true -> recording r = true;
  (** A save that was taken stays so, through every request that neither changes the mode nor asks for a save *)
  save_accepted n m i r r' : answers _ (SaveLocalization n m i) r (Ok tt) r' -> save_taken r' n = true;
  save_stays X (q : req X) n r x r' : answers X q r x r' -> harmless q r -> starts_save q = None -> save_taken r n = true -> save_taken r' n = true;
  save_reported n r v r' : answers _ GetSave r (Ok v) r' -> v_status v = Some "saving" -> status_of n v -> save_taken r' n = true;
  (** Done means stored, of the save that was taken; the status may still be that of another map's save *)
  save_done n r v r' : answers _ GetSave r (Ok v) r' -> v_status v = Some "done" -> status_of n v -> save_taken r n = true -> recording r' = false;
}.

Lemma harmless_keeps `{Documented} X (q : req X) r x r' : answers X q r x r' -> harmless q r ->
  ~ discards r r' /\ ((intent r').1 = Some "slam" -> (intent r).1 = Some "slam") /\ (recording r' = true -> recording r = true).
Proof.
  intros Ha Hh. split; [|split].
  - intros Hd. destruct (only_leaving_discards _ _ _ _ _ Ha Hd) as (m & Hm & Hne). unfold harmless in Hh. rewrite Hm in Hh.
    destruct Hd as (Hr & _). apply records_in_slam in Hr. congruence.
  - intros Hs. unfold harmless in Hh. destruct (puts q) as [m|] eqn:Hm; [|apply (only_put_enters_slam _ _ _ _ _ Ha); [congruence|done]].
    destruct (decide (m = "slam")) as [->|Hne]; [congruence|]. apply (only_put_enters_slam _ _ _ _ _ Ha); [congruence|done].
  - by apply (same_mode_keeps _ _ _ _ _ Ha).
Qed.

(** Whatever else asks harmless requests in between; [locked]: the robot's SLAM lock is held, so no other task starts a save *)
Inductive meanwhile `{Orchestrator} (locked : bool) : robot -> robot -> Prop :=
| meanwhile_nothing r : meanwhile locked r r
| meanwhile_asked X (q : req X) r x r1 r2 : harmless q r -> (locked = true -> starts_save q = None) ->
    answers X q r x r1 -> meanwhile locked r1 r2 -> meanwhile locked r r2.

Lemma meanwhile_keeps `{Documented} locked r r' : meanwhile locked r r' ->
  ((intent r').1 = Some "slam" -> (intent r).1 = Some "slam") /\ (recording r' = true -> recording r = true).
Proof.
  induction 1 as [|X q r x r1 r2 Hh _ Ha _ (IH1 & IH2)]; [done|]. destruct (harmless_keeps _ _ _ _ _ Ha Hh) as (_ & H1 & H2). auto.
Qed.

Lemma meanwhile_saving `{Documented} n r r' : meanwhile true r r' -> save_taken r n = true -> save_taken r' n = true.
Proof. induction 1 as [|X q r x r1 r2 Hh Hq Ha _ IH]; [done|]. intros Ht. apply IH. eapply save_stays; eauto. Qed.

(** ** A robot

    It answers every request or fails it, changes nothing on an error, stores a recording when its save is asked
    after, and may report the save of another map as done. *)
Module Toy.
Record t := { t_intent : option string * option string; t_init : string -> option Z; t_recording : bool; t_stored : nat; t_taken : option string }.
Definition put (m : string) (map : option string) (r : t) : t :=
  let same := bool_decide ((t_intent r).1 = Some m) in
  {| t_intent := (Some m, map); t_init := t_init r; t_recording := if same then t_recording r else bool_decide (m = "slam");
     t_stored := t_stored r; t_taken := if same then t_taken r else None |}.
Definition take (n : string) (r : t) : t :=
  {| t_intent := t_intent r; t_init := t_init r; t_recording := t_recording r; t_stored := t_stored r; t_taken := Some n |}.
Definition store (r : t) : t :=
  {| t_intent := t_intent r; t_init := t_init r; t_recording := false; t_stored := if t_recording r then S (t_stored r) else t_stored r; t_taken := t_taken r |}.
Definition patch (n : string) (p : option Z) (r : t) : t :=
  {| t_intent := t_intent r; t_init := fun n' => if bool_decide (n' = n) then p else t_init r n'; t_recording := t_recording r;
     t_stored := t_stored r; t_taken := t_taken r |}.
Definition loc (r : t) : Loc := {| l_mode := (t_intent r).1; l_map := (t_intent r).2; l_topomap := None |}.
Definition fails {A : Type} (x : result exn A) : Prop := exists e, x = Raise e.

Definition answer (X : Type) (q : req X) : t -> X -> t -> Prop :=
  match q with
  | GetLocalization => fun r x r' => r' = r /\ (x = Ok (loc r) \/ fails x)
  | PutLocalization m map _ => fun r x r' => (fails x /\ r' = r) \/ (exists a, x = Ok a /\ r' = put m map r)
  | SaveLocalization n _ _ => fun r x r' => (fails x /\ r' = r) \/ (x = Ok tt /\ r' = take n r)
  | GetSave => fun r x r' => (exists v n, x = Ok v /\ v_status v = Some "done" /\ v_map v = Some n /\ t_taken r = Some n /\ r' = store r)
                             \/ (exists v n, x = Ok v /\ v_status v = Some "done" /\ v_map v = Some n /\ t_taken r <> Some n /\ r' = r)
                             \/ (exists v n, x = Ok v /\ v_status v = Some "saving" /\ v_map v = Some n /\ t_taken r = Some n /\ r' = r)
                             \/ (r' = r /\ forall v, x = Ok v -> v_status v <> Some "saving" /\ v_status v <> Some "done")
  | PatchMap n p => fun r x r' => (fails x /\ r' = r) \/ (x = Ok tt /\ r' = patch n p r)
  | GetMap n => fun r x r' => r' = r /\ (x = Ok (t_init r n) \/ fails x)
  | _ => fun r x r' => r' = r
  end.

#[export] Instance orchestrator : Orchestrator :=
  {| robot := {r : t | t_recording r = true -> (t_intent r).1 = Some "slam"}; answers := fun X q r x r' => answer X q (`r) x (`r');
     intent := fun r => t_intent (`r); init_pos := fun r => t_init (`r); recording := fun r => t_recording (`r); stored := fun r => t_stored (`r);
     save_taken := fun r n => bool_decide (t_taken (`r) = Some n) |}.

Ltac answered :=
  unfold fails, harmless in *; cbn in *;
  repeat match goal with
  | H : _ \/ _ |- _ => destruct H
  | H : _ /\ _ |- _ => destruct H
  | H : exists _, _ |- _ => destruct H
  | H : forall v, Ok ?w = Ok v -> _ |- _ => specialize (H w eq_refl)
  end; simplify_eq/=.

#[export] Instance documented : Documented.
Proof.
  split; cbn.
  - by intros [].
  - intros [r Hr] loc' [r' Hr'] Ha. cbn in *. answered. by destruct (t_intent r).
  - intros X q [r Hr] x [r' Hr'] Ha Hd. unfold discards in Hd. cbn in *. destruct q; answered; try congruence; try (case_match; lia).
    exists mode. split; [done|]. crush; congruence.
  - intros X q [r Hr] x [r' Hr'] Ha Hp. cbn in *. destruct q; answered; try done. crush.
  - intros X q [r Hr] x [r' Hr'] Ha Hh. destruct q; answered; try done. by rewrite bool_decide_true.
  - intros n m i [r Hr] [r' Hr'] Ha. apply bool_decide_eq_true. by answered.
  - intros X q n [r Hr] x [r' Hr'] Ha Hh Hq Ht. apply bool_decide_eq_true. apply bool_decide_eq_true in Ht.
    destruct q; answered; try done. by rewrite bool_decide_true.
  - intros n [r Hr] v [r' Hr'] Ha Hs Hn. apply bool_decide_eq_true. unfold status_of in Hn. answered; congruence.
  - intros n [r Hr] v [r' Hr'] Ha Hs Hn Ht. apply bool_decide_eq_true in Ht. unfold status_of in Hn. answered; congruence.
Qed.
End Toy.
