(* ===== verification/SlamSave.v ===== *)
(** * SLAM maps: recording, saving, discarding

    packages/api/mapping_switch.py ([MappingSwitch]) and the part of packages/api/maps.py that drives it: the mapping
    services of a robot are started and stopped, its SLAM map is recorded, saved in the background, saved again or
    discarded, and the state of that is kept in memory and in robot_slam_saves. Everything is per robot, so this is one
    robot. An await is an effect, so whatever other tasks do happens between two effects; the robot's lock keeps the
    operations on the robot apart, and its SLAM lock the starts, saves and discards. The texts of warnings and labels
    are left out (whether there is one is kept), and so are the cache of what the robot reports and its views. *)

From stdpp Require Import pretty.
From S2P Require Import Prelude Coroutine Orchestrator MapSessions.
Local Open Scope string_scope.
Local Open Scope fleet_scope.
Local Open Scope list_scope.

(** ** State *)

(** [RECORDING], [SAVING], [SAVE_FAILED]; [st_known] is false for a row that was stored without a state *)
Inductive Phase := RECORDING | SAVING | SAVE_FAILED.
#[export] Instance Phase_eq_dec : EqDecision Phase.
Proof. solve_decision. Defined.
Record State := { st_phase : Phase; st_map : option string; st_session : option string }.
#[export] Instance State_eq_dec : EqDecision State.
Proof. solve_decision. Defined.

(** An intent: mode and map *)
Notation Intent := (option string * option string)%type.

(** The entries of the robot in [_slam_state], [_prev_intent] and [_slam_tasks] *)
Record Mem := { m_state : option State; m_prev : option Intent; m_pending : bool }.
Definition with_state (st : option State) (m : Mem) : Mem := {| m_state := st; m_prev := m_prev m; m_pending := m_pending m |}.
Definition with_prev (p : option Intent) (m : Mem) : Mem := {| m_state := m_state m; m_prev := p; m_pending := m_pending m |}.
Definition with_pending (b : bool) (m : Mem) : Mem := {| m_state := m_state m; m_prev := m_prev m; m_pending := b |}.

(** A row of robot_slam_saves *)
Record Row := { rw_state : State; rw_prev : option Intent }.

(** [slam_save_failed], [slam_busy], [slam_save_row] (its state) *)
Definition failed_state (m : Mem) : option State :=
  match m_state m with Some st => if bool_decide (st_phase st = SAVE_FAILED) then Some st else None | None => None end.
Definition slam_busy (m : Mem) : option Phase :=
  if m_pending m then Some SAVING else match m_state m with Some st => Some (st_phase st) | None => None end.
Definition slam_save_row (m : Mem) : option (option string * Phase) :=
  match m_state m with
  | Some st => Some (st_map st, st_phase st)
  | None => if m_pending m then Some (None, SAVING) else None
  end.
(** [slam_save_view] *)
Definition slam_save_view (m : Mem) : option (option string * Phase) :=
  match m_state m with
  | Some st => if bool_decide (st_phase st = RECORDING) then None else Some (st_map st, st_phase st)
  | None => None
  end.

(** ** Effects: a request to the robot, memory, the stored row, and everything that only waits or reads the database *)

Inductive ev : Type -> Type :=
| Ask {X : Type} (q : req X) : ev X
| Look : ev Mem
| Change (f : Mem -> Mem) : ev unit
| Store (row : option Row) : ev bool
| Wait : ev unit
| SlamWanted (map : string) : ev bool
(** The robot's open session and whether the robot is online; [None]: the read raised *)
| OpenSession : ev (option (option Session * option bool))
| MarkSaved (map : string) : ev unit.

Definition ask {X : Type} (q : req X) : prog ev X := perform (Ask q).
Definition look : prog ev Mem := perform Look.
Definition change (f : Mem -> Mem) : prog ev unit := perform (Change f).
Definition wait : prog ev unit := perform Wait.

(** ** The state and its row *)

(** [_persist]: what is written; [None] deletes the row *)
Definition row_of (m : Mem) : option Row :=
  match m_state m, m_prev m with
  | None, None => None
  | st, prev => Some {| rw_state := default {| st_phase := RECORDING; st_map := None; st_session := None |} st; rw_prev := prev |}
  end.
Definition persist : prog ev unit := let* m := look in (perform (Store (row_of m)) ;;; Ret tt).
Definition set_state (st : option State) : prog ev unit := change (with_state st) ;;; persist.

(** [mark_failed] *)
Definition mark_failed (map : string) (session : string) : prog ev unit :=
  set_state (Some {| st_phase := SAVE_FAILED; st_map := Some map; st_session := Some session |}).

(** [load_state] for the robot's row *)
Definition load_state (row : option Row) : prog ev unit :=
  match row with
  | None => Ret tt
  | Some r =>
      change (fun m => with_state (Some (rw_state r)) (match rw_prev r with Some p => with_prev (Some p) m | None => m end)) ;;;
      let* m := look in
      if bool_decide (st_phase (rw_state r) = SAVING) && negb (m_pending m)
      then set_state (Some {| st_phase := SAVE_FAILED; st_map := st_map (rw_state r); st_session := st_session (rw_state r) |})
      else Ret tt
  end.

(** [forget] *)
Definition forget : prog ev unit :=
  change (fun m => with_state None (if m_pending m then m else with_prev None m)) ;;; (perform (Store None) ;;; Ret tt).

(** ** Starting a recording *)

(** The [SLAM_*] results; [r_warning], [r_notice] and [r_detail]: that there is one *)
Inductive SlamStatus := STARTED | ALREADY_RUNNING | EXISTS | SAVED | NOTHING_TO_SAVE | FAILED | BUSY.
#[export] Instance SlamStatus_eq_dec : EqDecision SlamStatus.
Proof. solve_decision. Defined.
Record SlamResult := { r_status : SlamStatus; r_warning : bool; r_notice : bool; r_detail : bool }.
Definition plain (st : SlamStatus) : SlamResult := {| r_status := st; r_warning := false; r_notice := false; r_detail := false |}.
Definition warned (st : SlamStatus) : SlamResult := {| r_status := st; r_warning := true; r_notice := false; r_detail := false |}.

(** [onboard_map_name] *)
Definition onboard_map_name (map : string) : string := "cloud-" +:+ map.

Section switch.
Context (SAVE_START_TRIES SAVE_POLL_ERRORS SAVE_MAX_ATTEMPTS : nat) (save_poll_s save_poll_total_s save_then_s : Z)
  (candidates : Service -> list string).

(** The PUT of [_start_slam]: a 503 is tried again *)
Fixpoint put_slam (tries : nat) : prog ev (result exn (option PutAnswer)) :=
  match tries with
  | O => done None
  | S more =>
      let* answer := ask (PutLocalization "slam" None None) in
      match answer with
      | Ok a => done (Some a)
      | Raise (OrchestratorError k d) =>
          if is_status 503 k && bool_decide (more <> 0) then wait ;;; put_slam more else raise (OrchestratorError k d)
      | Raise e => raise e
      end
  end.

(** [_start_slam]; an [OrchestratorError] is a failed start, anything else escapes (an unbound answer too) *)
Definition start_slam_locked (map : string) : prog ev (result exn SlamResult) :=
  let* held := ask (GetMap (onboard_map_name map)) in
  match held with
  | Ok _ => done (warned EXISTS)
  | Raise (OtherError t) => raise (OtherError t)
  | Raise (OrchestratorError k _) =>
      if negb (is_status 404 k) then done (warned FAILED)
      else
        let* prev := ask GetLocalization in
        match prev with
        | Raise (OtherError t) => raise (OtherError t)
        | Raise (OrchestratorError _ _) => done (warned FAILED)
        | Ok prev =>
            if bool_decide (l_mode prev = Some "slam") then done (plain ALREADY_RUNNING)
            else
              let* put := put_slam SAVE_START_TRIES in
              match put with
              | Raise (OtherError t) => raise (OtherError t)
              | Raise (OrchestratorError _ _) => done (warned FAILED)
              | Ok answer =>
                  change (with_prev (Some (l_mode prev, l_map prev))) ;;;
                  match answer with
                  | None => raise (OtherError "UnboundLocalError")
                  | Some a =>
                      match problem_of a with
                      | Some _ => done (warned FAILED)
                      | None => if bool_decide (a_applied a = Some false) then done (warned FAILED) else done (plain STARTED)
                      end
                  end
              end
        end
  end.

(** [start_slam] *)
Definition start_slam (map : string) (session : string) : prog ev SlamResult :=
  let* m := look in
  if m_pending m then Ret (warned BUSY)
  else if bool_decide (is_Some (failed_state m)) then Ret (warned FAILED)
  else
    wait ;;;
    let* r := start_slam_locked map in
    match r with
    | Raise _ => Ret (warned FAILED)
    | Ok r => (if bool_decide (r_status r = STARTED)
               then set_state (Some {| st_phase := RECORDING; st_map := Some map; st_session := Some session |}) else Ret tt) ;;; Ret r
    end.

(** ** Saving *)

(** [_NothingToSave], [_SaveFailed], other exceptions; [Stuck]: the model's bound of the poll was too small *)
Inductive SaveExn := NothingToSave | SaveFailed (detail : string) (slow : bool) | Unexpected (text : string) | Stuck.

(** [str.lower] and [in] *)
Definition lower_char (c : Ascii.ascii) : Ascii.ascii :=
  let n := Ascii.nat_of_ascii c in if ((65 <=? n) && (n <=? 90))%nat then Ascii.ascii_of_nat (n + 32)%nat else c.
Fixpoint lower (s : string) : string := match s with "" => "" | String c s => String (lower_char c) (lower s) end.
Fixpoint contains (w s : string) : bool := String.prefix w s || match s with "" => false | String _ s => contains w s end.
(** [_looks_slow] *)
Definition looks_slow (error : string) : bool :=
  existsb (fun w => contains w (lower error)) ["in time"; "timed out"; "timeout"; "did not finish"].

(** [st.get("map") in (None, onboard)] *)
Definition ours (onboard : string) (v : SaveStatus) : bool := match v_map v with None => true | Some m => bool_decide (m = onboard) end.

(** [_save_running] *)
Definition save_running (onboard : string) : prog ev (result SaveExn bool) :=
  let* v := ask GetSave in
  match v with
  | Ok v => done (bool_decide (v_status v = Some "saving") && ours onboard v)
  | Raise (OrchestratorError _ _) => done false
  | Raise (OtherError t) => raise (Unexpected t)
  end.

(** The first loop of [_save_attempt] *)
Fixpoint begin_save (tries : nat) (onboard map session : string) : prog ev (result SaveExn unit) :=
  match tries with
  | O => done tt
  | S more =>
      let* answer := ask (SaveLocalization onboard map session) in
      match answer with
      | Ok _ => done tt
      | Raise (OtherError t) => raise (Unexpected t)
      | Raise (OrchestratorError k d) =>
          match k with
          | HTTP status =>
              if (status =? 409)%Z then
                let+ running := save_running onboard in
                if (running : bool) then done tt
                else
                  let* loc := ask GetLocalization in
                  match loc with
                  | Raise (OtherError t) => raise (Unexpected t)
                  | Raise (OrchestratorError _ _) => raise (SaveFailed d false)
                  | Ok loc => if bool_decide (l_mode loc = Some "slam") then raise (SaveFailed d false) else raise NothingToSave
                  end
              else if (status =? 503)%Z && bool_decide (more <> 0) then wait ;;; begin_save more onboard map session
              else raise (SaveFailed d (contains "already in progress" (lower d)))
          | _ => raise (SaveFailed d (bool_decide (k = TIMEOUT)))
          end
      end
  end.

(** The second loop: [waited] seconds so far, [errors] failed reads in a row *)
Definition poll_total : Z := (save_poll_total_s + save_then_s)%Z.
Fixpoint poll_save (fuel : nat) (onboard : string) (waited : Z) (errors : nat) : prog ev (result SaveExn SaveStatus) :=
  if (poll_total <? waited)%Z then raise (SaveFailed "the save did not finish in time" true)
  else
    match fuel with
    | O => raise Stuck
    | S fuel =>
        let* v := ask GetSave in
        let sleep errors := wait ;;; poll_save fuel onboard (waited + save_poll_s)%Z errors in
        match v with
        | Raise (OtherError t) => raise (Unexpected t)
        | Raise (OrchestratorError _ d) => if (SAVE_POLL_ERRORS <=? S errors)%nat then raise (SaveFailed d false) else sleep (S errors)
        | Ok v =>
            if negb (ours onboard v) then sleep 0
            else if bool_decide (v_status v = Some "done") then done v
            else if bool_decide (v_status v = Some "failed") then
              let error := or_str (v_error v) "the orchestrator reported a failed save" in raise (SaveFailed error (looks_slow error))
            else sleep 0
        end
    end.
(** One read more than intervals fit into the time *)
Definition polls : nat := (Z.to_nat (poll_total / save_poll_s) + 2)%nat.

(** [_save_attempt] *)
Definition save_attempt (onboard map session : string) : prog ev (result SaveExn SaveStatus) :=
  let+ _ := begin_save SAVE_START_TRIES onboard map session in poll_save polls onboard 0 0.

(** [_saved_result] *)
Definition saved_result (onboard : string) (v : SaveStatus) : prog ev SlamResult :=
  let saved notice detail := {| r_status := SAVED; r_warning := false; r_notice := notice; r_detail := detail |} in
  match v_then v with
  | Some "done" =>
      change (with_prev None) ;;;
      Ret (saved false (match v_where v with Some w => negb (bool_decide (w = "")) && negb (bool_decide (w = onboard)) | None => false end))
  | Some "not_localized" | Some "stored" | Some "pending" | Some "switching" => change (with_prev None) ;;; Ret (saved false true)
  | _ => Ret (saved true false)
  end.

(** The attempts of [save_slam]; [graced]: one ran out of time already *)
Fixpoint attempts (n : nat) (graced : bool) (onboard map session : string) : prog ev SlamResult :=
  match n with
  | O => Ret (warned FAILED)
  | S n =>
      let* r := save_attempt onboard map session in
      match r with
      | Ok v => saved_result onboard v
      | Raise NothingToSave => Ret (plain NOTHING_TO_SAVE)
      | Raise (SaveFailed _ slow) => if negb slow || graced then Ret (warned FAILED) else wait ;;; attempts n true onboard map session
      | Raise _ => Ret (warned FAILED)
      end
  end.

(** [save_slam]: the SLAM lock, then the attempts *)
Definition save_slam (map session : string) : prog ev SlamResult :=
  wait ;;; attempts SAVE_MAX_ATTEMPTS false (onboard_map_name map) map session.

(** [schedule_slam_save]: at once, and the task ([run]); [slam_save_reporter] as its [on_result] *)
Definition schedule (map session : string) (track : bool) : prog ev unit :=
  change (fun m => with_pending true (if track then with_state (Some {| st_phase := SAVING; st_map := Some map; st_session := Some session |}) m else m)).
Definition save_task (map session : string) (track : bool) : prog ev SlamResult :=
  (if track then persist else Ret tt) ;;;
  let* r := save_slam map session in
  (if track then
     if bool_decide (r_status r = FAILED) || bool_decide (r_status r = SAVED) && r_notice r
     then set_state (Some {| st_phase := SAVE_FAILED; st_map := Some map; st_session := Some session |})
     else (if bool_decide (r_status r = NOTHING_TO_SAVE) then change (with_prev None) else Ret tt) ;;; set_state None
   else Ret tt) ;;;
  (if bool_decide (r_status r = SAVED) then perform (MarkSaved map) else Ret tt) ;;;
  change (with_pending false) ;;; Ret r.

(** ** Leaving slam without saving *)

(** [MappingSwitch._restore_intent]; whether it went wrong *)
Definition leave_slam : prog ev bool :=
  let* m := look in
  let* loc := ask GetLocalization in
  match loc with
  | Raise (OtherError _) => Ret true
  | _ =>
      let has_topomap := match loc with Ok l => bool_decide (is_Some (l_topomap l)) | Raise _ => false end in
      let* r := restore_intent (fun X q => @Ask X q) (m_prev m) None (if has_topomap then Some false else None) in
      match r with
      | Raise _ => Ret true
      | Ok _ => change (with_prev None) ;;; Ret false
      end
  end.

(** [discard_slam]; whether it went through *)
Definition discard_slam : prog ev bool :=
  wait ;;; let* problem := leave_slam in if (problem : bool) then Ret false else set_state None ;;; Ret true.

(** ** The mapping services *)

Inductive ActionKind := START | STOP | SAVE.
Record RobotAction := { ra_service : string; ra_kind : ActionKind; ra_ok : bool }.
Definition TOPOMAP_SERVICE := "topomap".
Definition SLAM_SERVICE := "SLAM recording".

(** [action_name] *)
Definition action_name (svc : Service) : string := match svc with TOPO => TOPOMAP_SERVICE | _ => default "" (head (candidates svc)) end.
Definition service_action (name : string) (on ok : bool) : RobotAction := {| ra_service := name; ra_kind := if on then START else STOP; ra_ok := ok |}.

(** [pick_service] *)
Definition pick_service (listed names : list string) : option string := find_first (fun n => bool_decide (n ∈ listed)) names.

(** [_switch_topomap] *)
Definition switch_topomap (loc : Loc) (on : bool) : prog ev (result exn RobotAction) :=
  if bool_decide (default false (l_topomap loc) = on) then done (service_action TOPOMAP_SERVICE on true)
  else
    match l_mode loc with
    | None | Some "" => done (service_action TOPOMAP_SERVICE on false)
    | Some mode =>
        let* answer := ask (PutLocalization mode (if bool_decide (mode = "relocalization") then l_map loc else None) (Some on)) in
        match answer with
        | Raise (OtherError t) => raise (OtherError t)
        | Raise (OrchestratorError _ _) => done (service_action TOPOMAP_SERVICE on false)
        | Ok a => done (service_action TOPOMAP_SERVICE on (bool_decide (problem_of a = None)))
        end
    end.

(** The loop over the services that are not the mapping API's; the actions so far when it raises *)
Fixpoint switch_each (listed : list string) (svcs : list Service) (on : bool) (acc : list RobotAction) : prog ev (result (list RobotAction) (list RobotAction)) :=
  match svcs with
  | [] => done acc
  | svc :: rest =>
      match pick_service listed (candidates svc) with
      | None => switch_each listed rest on (acc ++ [service_action (action_name svc) on (negb on)])
      | Some orch =>
          let* r := if on then ask (StartService orch) else ask (StopService orch) in
          match r with
          | Ok _ => switch_each listed rest on (acc ++ [service_action orch on true])
          | Raise (OrchestratorError k _) => switch_each listed rest on (acc ++ [service_action orch on (is_status (if on then 409 else 404) k)])
          | Raise (OtherError _) => raise acc
          end
      end
  end.

(** [list.remove] *)
Fixpoint remove_first (x : Service) (l : list Service) : list Service :=
  match l with [] => [] | y :: l => if bool_decide (y = x) then l else y :: remove_first x l end.

(** [_switch] after the topomap: [rest] with the actions so far *)
Definition switch_rest (rest : list Service) (on : bool) (acc : list RobotAction) : prog ev (result (list RobotAction) (list RobotAction)) :=
  match rest with
  | [] => done acc
  | _ =>
      let* listed := ask ListServices in
      match listed with
      | Ok listed => switch_each listed rest on acc
      | Raise (OrchestratorError _ _) => done (acc ++ map (fun svc => service_action (action_name svc) on false) rest)
      | Raise (OtherError _) => raise acc
      end
  end.

(** [_switch] *)
Definition switch (services : list Service) (on : bool) : prog ev (list RobotAction) :=
  let services := List.filter (fun s => negb (bool_decide (s = SLAM))) services in
  match services with
  | [] => Ret []
  | _ =>
      let* r :=
        if bool_decide (TOPO ∈ services) then
          let* loc := ask GetLocalization in
          match loc with
          | Raise (OrchestratorError _ _) => done (map (fun svc => service_action (action_name svc) on false) services)
          | Raise (OtherError _) => raise []
          | Ok loc =>
              match l_topomap loc with
              | None => switch_rest services on []
              | Some _ =>
                  let* a := switch_topomap loc on in
                  match a with
                  | Raise _ => raise []
                  | Ok a => switch_rest (remove_first TOPO services) on [a]
                  end
              end
          end
        else switch_rest services on [] in
      match r with
      | Ok actions => Ret actions
      | Raise acc =>
          Ret (acc ++ map (fun svc => service_action (action_name svc) on false)
                        (List.filter (fun s => negb (existsb (fun a => bool_decide (ra_service a = action_name s)) acc)) services))
      end
  end.

(** ** The API on top (maps.py); the robot is its row's [online], [None] where it is not found *)

(** [_services_of] *)
Definition all_services_of (s : Session) : list Service :=
  match s_purpose s with operate => [] | mapping => default [TOPO] (s_services s) end.
Definition services_of (s : Session) : list Service := List.filter (fun x => negb (bool_decide (x = SLAM))) (all_services_of s).
Definition session_key (s : Session) : string := pretty (s_id s).

Definition service_text (svc : Service) : string := match svc with TOPO => "topo" | GRID => "grid" | SLAM => "slam" end.

(** [start_services], [stop_services] *)
Definition start_services (s : Session) (robot : option bool) : prog ev (list RobotAction) :=
  match services_of s, robot with
  | [], _ => Ret []
  | svcs, None => Ret (map (fun svc => service_action (service_text svc) true false) svcs)
  | svcs, Some _ => switch svcs true
  end.
Definition stop_services (s : Session) (keep : bool) (robot : option bool) : prog ev (list RobotAction) :=
  match services_of s with
  | [] => Ret []
  | svcs =>
      let stop svcs := match svcs, robot with
        | [], _ => Ret []
        | _, None => Ret (map (fun svc => service_action (service_text svc) false false) svcs)
        | _, Some _ => switch svcs false
        end in
      if keep then
        let* mine := perform OpenSession in
        match mine with
        | None => Ret (map (fun svc => service_action (service_text svc) false false) svcs)
        | Some (o, _) =>
            let running := match o with
              | Some o => if bool_decide (s_purpose o = mapping) && bool_decide (s_paused o = None) then services_of o else []
              | None => [] end in
            stop (List.filter (fun x => negb (bool_decide (x ∈ running))) svcs)
        end
      else stop svcs
  end.

(** [_start_slam], [slam_start_action] *)
Definition start_slam_of (s : Session) (robot : option bool) : prog ev (option RobotAction) :=
  if negb (bool_decide (SLAM ∈ all_services_of s)) then Ret None
  else
    match robot with
    | None => Ret (Some {| ra_service := SLAM_SERVICE; ra_kind := START; ra_ok := false |})
    | Some _ =>
        let* r := start_slam (s_map s) (session_key s) in
        Ret (Some {| ra_service := SLAM_SERVICE; ra_kind := START;
                     ra_ok := bool_decide (r_status r = STARTED) || bool_decide (r_status r = ALREADY_RUNNING) |})
    end.

(** [_deferred_actions] *)
Definition deferred_actions (s : Session) : list RobotAction :=
  let svcs := all_services_of s in
  let name svc := if bool_decide (svc = SLAM) then SLAM_SERVICE else action_name svc in
  map (fun svc => {| ra_service := name svc; ra_kind := START; ra_ok := true |})
    (List.filter (fun x => bool_decide (x = SLAM)) svcs ++ List.filter (fun x => negb (bool_decide (x = SLAM))) svcs).

(** [start_session_services] *)
Definition start_session_services (s : Session) (robot : option bool) : prog ev (list RobotAction) :=
  match s_purpose s with
  | operate => Ret []
  | mapping =>
      let* m := look in
      if m_pending m then Ret (deferred_actions s)
      else let* a := start_slam_of s robot in let* l := start_services s robot in Ret (option_list a ++ l)
  end.

(** [_slam_recorded] *)
Definition slam_recorded (s : Session) (robot : option bool) : prog ev bool :=
  if bool_decide (SLAM ∈ all_services_of s) then Ret true
  else
    match robot with
    | None => Ret false
    | Some _ =>
        let* wanted := perform (SlamWanted (s_map s)) in
        if (wanted : bool) then
          let* loc := ask GetLocalization in
          Ret (match loc with Ok l => bool_decide (l_mode l = Some "slam") | Raise _ => false end)
        else Ret false
    end.

(** [_save_slam]: the task is started ([true] in the answer) or, with [wait], awaited *)
Definition save_slam_of (s : Session) (robot : option bool) (waits track : bool) : prog ev (bool * option RobotAction) :=
  let act ok := {| ra_service := SLAM_SERVICE; ra_kind := SAVE; ra_ok := ok |} in
  match s_purpose s with
  | operate => Ret (false, None)
  | mapping =>
      let* recorded := slam_recorded s robot in
      if negb recorded then Ret (false, None)
      else
        match robot with
        | Some true =>
            schedule (s_map s) (session_key s) track ;;;
            if waits then
              let* r := save_task (s_map s) (session_key s) track in
              Ret (false, Some (act (match r_status r with SAVED => negb (r_notice r) | NOTHING_TO_SAVE => true | _ => false end)))
            else Ret (true, Some (act true))
        | _ => (if track then mark_failed (s_map s) (session_key s) else Ret tt) ;;; Ret (false, Some (act false))
        end
  end.

(** [restart_session_services]; [None]: nothing to restart. Its event and the push to clients are left out. *)
Definition restart_session_services : prog ev (option (list RobotAction)) :=
  let* mine := perform OpenSession in
  match mine with
  | Some (Some s, Some true) =>
      if bool_decide (s_purpose s = mapping) && bool_decide (s_paused s = None)
      then let* l := start_session_services s (Some true) in Ret (Some l) else Ret None
  | _ => Ret None
  end.

(** [restart_after_run_change] *)
Fixpoint restart_tries (tries : nat) : prog ev (option (list RobotAction)) :=
  let* actions := restart_session_services in
  match actions, tries with
  | Some l, S more => if forallb ra_ok l then Ret actions else wait ;;; restart_tries more
  | _, _ => Ret actions
  end.
Definition restart_after_run_change (tries : nat) : prog ev (option (list RobotAction)) := restart_tries (Nat.pred tries).

(** [slam_save_retry]: whether the save is started; [None]: refused (409) *)
Definition slam_save_retry (online : bool) : prog ev (option bool) :=
  let* m := look in
  if m_pending m then Ret None
  else
    match failed_state m with
    | None => Ret None
    | Some st => if negb online then Ret (Some false) else schedule (default "" (st_map st)) (default "" (st_session st)) true ;;; Ret (Some true)
    end.

(** [slam_save_discard]; [None]: refused (409) *)
Definition slam_save_discard (online : bool) : prog ev (option (bool * list RobotAction)) :=
  let* m := look in
  if m_pending m then Ret None
  else
    match failed_state m with
    | None => Ret None
    | Some _ =>
        if negb online then Ret (Some (false, []))
        else
          let* ok := discard_slam in
          if (ok : bool) then let* l := restart_session_services in Ret (Some (true, default [] l)) else Ret (Some (false, []))
    end.

(** The robot calls of a finish, of a pause, of a start (after [_open_tx]) and of a delete of the robot *)
Definition finish_robot (s : Session) (robot : option bool) : prog ev bool :=
  stop_services s true robot ;;; let* r := save_slam_of s robot false true in Ret r.1.
Definition start_robot (s : Session) (replaced : option Session) (robot : option bool) : prog ev bool :=
  let* spawned :=
    match replaced with
    | Some old => stop_services old false robot ;;;
        let* r := save_slam_of old robot (bool_decide (s_purpose s = mapping) && bool_decide (SLAM ∈ all_services_of s)) true in Ret r.1
    | None => Ret false
    end in
  start_session_services s robot ;;; Ret spawned.
Definition delete_robot (closed : list Session) (robot : option bool) : prog ev bool :=
  let* spawned := foldr (fun s k => stop_services s true robot ;;; let* r := save_slam_of s robot false false in let* b := k in Ret (r.1 || b))
                    (Ret false) closed in
  forget ;;; Ret spawned.

(** [slam_conflict] (orchestrator_proxy.py): which proxied calls are refused *)
Inductive Proxied := MappingService (name : string) | Localization | LocalizationSave | OtherCall.
(** The method ([true]: GET) and the path of a request, as the orchestrator's routes spell them *)
Definition route {X : Type} (q : req X) : bool * Proxied :=
  match q with
  | StartService n | StopService n => (false, MappingService n)
  | PutLocalization _ _ _ => (false, Localization)
  | SaveLocalization _ _ _ => (false, LocalizationSave)
  | PatchMap _ _ => (false, OtherCall)
  | _ => (true, OtherCall)
  end.
Definition slam_conflict (get : bool) (path : Proxied) (busy : option Phase) : bool :=
  match busy with
  | None => false
  | Some _ =>
      negb get && match path with
                  | MappingService n => existsb (fun svc => bool_decide (n ∈ candidates svc)) [TOPO; GRID]
                  | Localization | LocalizationSave => true
                  | OtherCall => false
                  end
  end.

(** [proxy_to_orchestrator]: the robot's row is read, the robot's lock is taken for the call; [None]: refused (409). The
    conflict of an image switch, the cloud ids added to a save, the timeouts and the answer's bytes are left out. *)
Definition proxy_to_orchestrator {X : Type} (q : req X) : prog ev (option X) :=
  wait ;;;
  let* m := look in
  if slam_conflict (route q).1 (route q).2 (slam_busy m) then Ret None else let* x := ask q in Ret (Some x).
End switch.

(** ** The world the programs run in

    Between two effects other tasks may ask the robot harmless requests (those of an operation under the robot's lock while a
    save runs, those of the save while such an operation runs), and may change memory wherever the program awaits. With
    [locked] the program has the robot's SLAM lock, and no other task starts a save. *)

Record World `{Orchestrator} := { w_robot : robot; w_mem : Mem; w_row : option Row }.

Definition does `{Orchestrator} (locked : bool) (X : Type) (e : ev X) : World -> X -> World -> Prop :=
  match e with
  | Ask q => fun w x w' => exists r, meanwhile locked (w_robot w) r /\ answers _ q r x (w_robot w')
  | Look => fun w x w' => x = w_mem w /\ w' = w
  | Change f => fun w _ w' => w' = {| w_robot := w_robot w; w_mem := f (w_mem w); w_row := w_row w |}
  | Store row => fun w x w' => meanwhile locked (w_robot w) (w_robot w') /\ w_row w' = if x then row else w_row w
  | _ => fun w _ w' => meanwhile locked (w_robot w) (w_robot w')
  end.

(** A request that loses no recording: the robot the request finds is the one other tasks have left. *)
Definition loses_nothing `{Orchestrator} (X : Type) (e : ev X) (w w' : World) : Prop :=
  match e with
  | Ask q => forall r x, meanwhile false (w_robot w) r -> answers _ q r x (w_robot w') -> ~ discards r (w_robot w')
  | _ => True
  end.

(** A program none of whose requests loses a recording *)
Definition safe `{Orchestrator} {A : Type} (p : prog ev A) : Prop := forall w, wp (does false) loses_nothing p (fun _ _ => True) w.

Create HintDb slam discriminated.

Section safety.
Context `{Documented}.

Lemma ask_safe {X : Type} (q : req X) : puts q = None \/ puts q = Some "slam" -> forall w w', loses_nothing X (Ask q) w w'.
Proof. intros Hq w w' r x _ Ha Hd. destruct (only_leaving_discards _ _ _ _ _ Ha Hd) as (m & Hm & ?). destruct Hq; congruence. Qed.

Lemma ask_same_mode_safe m map t w w' : (intent (w_robot w)).1 = Some m -> loses_nothing _ (Ask (PutLocalization m map t)) w w'.
Proof.
  intros Hm r x Hw Ha Hd. destruct (only_leaving_discards _ _ _ _ _ Ha Hd) as (m' & Hm' & Hne). cbn in Hm'. simplify_eq.
  destruct Hd as (Hr & _). apply records_in_slam in Hr. apply (meanwhile_keeps _ _ _ Hw) in Hr. congruence.
Qed.

Lemma ret_safe {A : Type} (a : A) : safe (Ret a).
Proof. done. Qed.
Lemma bind_safe {A B : Type} (p : prog ev A) (k : A -> prog ev B) : safe p -> (forall a, safe (k a)) -> safe (bind p k).
Proof. intros Hp Hk w. apply wp_bind. eapply wp_mono; [|apply Hp]. intros a w' _. apply Hk. Qed.
Lemma ask_program_safe {X : Type} (q : req X) : puts q = None \/ puts q = Some "slam" -> safe (ask q).
Proof. intros Hq w x w' _. split; [by apply ask_safe|done]. Qed.
Lemma look_safe : safe look.
Proof. intros w x w' _. done. Qed.
Lemma change_safe f : safe (change f).
Proof. intros w x w' _. done. Qed.
Lemma wait_safe : safe wait.
Proof. intros w x w' _. done. Qed.
Lemma store_safe row : safe (perform (Store row)).
Proof. intros w x w' _. done. Qed.
Lemma wanted_safe m : safe (perform (SlamWanted m)).
Proof. intros w x w' _. done. Qed.
Lemma open_session_safe : safe (perform OpenSession).
Proof. intros w x w' _. done. Qed.
Lemma mark_saved_safe m : safe (perform (MarkSaved m)).
Proof. intros w x w' _. done. Qed.
#[local] Hint Resolve ret_safe look_safe change_safe wait_safe store_safe wanted_safe open_session_safe mark_saved_safe : slam.

Lemma ebind_safe {X A B : Type} (p : prog ev (result X A)) (k : A -> prog ev (result X B)) : safe p -> (forall a, safe (k a)) -> safe (ebind p k).
Proof. intros Hp Hk. apply bind_safe; [done|]. intros [a|x]; [apply Hk|apply ret_safe]. Qed.

(** The requests of a program one after the other *)
Ltac go :=
  repeat first
    [ progress intros
    | assumption
    | solve [auto with slam]
    | apply bind_safe
    | apply ebind_safe
    | apply ask_program_safe; cbn; by auto
    | progress unfold raise, done, persist, set_state
    | case_match
    | progress cbn [fst snd] ].

Lemma persist_safe : safe persist.
Proof. go. Qed.
Lemma set_state_safe st : safe (set_state st).
Proof. go. Qed.
#[local] Hint Resolve persist_safe set_state_safe : slam.
Lemma put_slam_safe n : safe (put_slam n).
Proof. induction n; cbn [put_slam]; go. Qed.
#[local] Hint Resolve put_slam_safe : slam.
Lemma start_slam_safe tries map session : safe (start_slam tries map session).
Proof. unfold start_slam, start_slam_locked. go. Qed.
Lemma save_running_safe onboard : safe (save_running onboard).
Proof. unfold save_running. go. Qed.
#[local] Hint Resolve start_slam_safe save_running_safe : slam.
Lemma begin_save_safe n onboard map session : safe (begin_save n onboard map session).
Proof. induction n; cbn [begin_save]; go. Qed.
Lemma poll_save_safe errs poll total then_s fuel onboard : forall waited errors, safe (poll_save errs poll total then_s fuel onboard waited errors).
Proof. induction fuel; cbn [poll_save]; go. Qed.
#[local] Hint Resolve begin_save_safe poll_save_safe : slam.
Lemma saved_result_safe onboard v : safe (saved_result onboard v).
Proof. unfold saved_result. go. Qed.
#[local] Hint Resolve saved_result_safe : slam.
Lemma attempts_safe tries errs poll total then_s n onboard map session : forall graced, safe (attempts tries errs poll total then_s n graced onboard map session).
Proof. induction n; cbn [attempts]; unfold save_attempt; go. Qed.
#[local] Hint Resolve attempts_safe : slam.
Lemma save_task_safe tries errs n poll total then_s map session track : safe (save_task tries errs n poll total then_s map session track).
Proof. unfold save_task, save_slam. go. Qed.
#[local] Hint Resolve save_task_safe : slam.

(** The topomap is switched by a PUT of the mode just read: the robot has not entered slam in between. *)
Lemma switch_topomap_safe loc on w : (intent (w_robot w)).1 = l_mode loc -> wp (does false) loses_nothing (switch_topomap loc on) (fun _ _ => True) w.
Proof.
  intros Hm. unfold switch_topomap. destruct (bool_decide _); [done|]. destruct (l_mode loc) as [m|] eqn:Hl; [|done].
  assert (forall k : result exn PutAnswer -> prog ev (result exn RobotAction), (forall x, safe (k x)) -> wp (does false) loses_nothing
    (bind (ask (PutLocalization m (if bool_decide (m = "relocalization") then l_map loc else None) (Some on))) k) (fun _ _ => True) w) as Hput.
  { intros k Hk x w' _. split; [by apply ask_same_mode_safe|]. apply Hk. }
  destruct m; [done|]. apply Hput. go.
Qed.
Lemma switch_each_safe cands listed svcs on : forall acc, safe (switch_each cands listed svcs on acc).
Proof. induction svcs; cbn [switch_each]; go. Qed.
#[local] Hint Resolve switch_each_safe : slam.
Lemma switch_rest_safe cands rest on acc : safe (switch_rest cands rest on acc).
Proof. unfold switch_rest. go. Qed.
#[local] Hint Resolve switch_rest_safe : slam.
Lemma switch_safe cands services on : safe (switch cands services on).
Proof.
  unfold switch. destruct (List.filter _ services) as [|svc svcs]; [go|]. apply bind_safe; [|go].
  destruct (bool_decide _); [|go]. intros w. apply wp_bind. intros x w' Hd. split; [apply ask_safe; auto|].
  destruct Hd as (r & _ & Ha). destruct x as [loc|[|]]; cbn [wp]; [|done..].
  apply reads_intent in Ha. destruct (l_topomap loc); [|by apply switch_rest_safe].
  apply wp_bind. eapply wp_mono; [|apply switch_topomap_safe; by rewrite Ha]. intros [a|e] w1 _; [|done]. by apply switch_rest_safe.
Qed.
#[local] Hint Resolve switch_safe : slam.

Lemma start_services_safe cands s r : safe (start_services cands s r).
Proof. unfold start_services. go. Qed.
Lemma stop_services_safe cands s keep r : safe (stop_services cands s keep r).
Proof. unfold stop_services. go. Qed.
Lemma start_slam_of_safe tries s r : safe (start_slam_of tries s r).
Proof. unfold start_slam_of. go. Qed.
#[local] Hint Resolve start_services_safe stop_services_safe start_slam_of_safe : slam.
Lemma start_session_services_safe tries cands s r : safe (start_session_services tries cands s r).
Proof. unfold start_session_services. go. Qed.
Lemma slam_recorded_safe s r : safe (slam_recorded s r).
Proof. unfold slam_recorded. go. Qed.
#[local] Hint Resolve start_session_services_safe slam_recorded_safe : slam.
Lemma save_slam_of_safe tries errs n poll total then_s s r waits track : safe (save_slam_of tries errs n poll total then_s s r waits track).
Proof. unfold save_slam_of, schedule, mark_failed. go. Qed.
Lemma restart_session_services_safe tries cands : safe (restart_session_services tries cands).
Proof. unfold restart_session_services. go. Qed.
#[local] Hint Resolve save_slam_of_safe restart_session_services_safe : slam.
Lemma restart_tries_safe tries cands n : safe (restart_tries tries cands n).
Proof. induction n; cbn [restart_tries]; go. Qed.
#[local] Hint Resolve restart_tries_safe : slam.
Lemma delete_robot_safe tries errs n poll total then_s cands closed r : safe (delete_robot tries errs n poll total then_s cands closed r).
Proof. unfold delete_robot, forget. apply bind_safe; [|go]. induction closed; cbn [foldr]; go. Qed.
End safety.

(** ** What the API does with a robot *)

Inductive Op :=
| Starting (s : Session) (replaced : option Session) (robot : option bool)
| Pausing (s : Session) (robot : option bool)
| Resuming (s : Session) (robot : option bool)
| Finishing (s : Session) (robot : option bool)
| Deleting (closed : list Session) (robot : option bool)
| RunChanged (tries : nat)
| SaveEnded
| Saving (map session : string) (track : bool)
| Retrying (online : bool)
| Discarding (online : bool)
| Loading (row : option Row)
| Proxying {X : Type} (q : req X).

Section operations.
Context (SAVE_START_TRIES SAVE_POLL_ERRORS SAVE_MAX_ATTEMPTS : nat) (save_poll_s save_poll_total_s save_then_s : Z)
  (candidates : Service -> list string).

Definition run_op (op : Op) : prog ev unit :=
  let tasks := save_task SAVE_START_TRIES SAVE_POLL_ERRORS SAVE_MAX_ATTEMPTS save_poll_s save_poll_total_s save_then_s in
  match op with
  | Starting s replaced r =>
      start_robot SAVE_START_TRIES SAVE_POLL_ERRORS SAVE_MAX_ATTEMPTS save_poll_s save_poll_total_s save_then_s candidates s replaced r ;;; Ret tt
  | Pausing s r => stop_services candidates s true r ;;; Ret tt
  | Resuming s r => start_session_services SAVE_START_TRIES candidates s r ;;; Ret tt
  | Finishing s r =>
      finish_robot SAVE_START_TRIES SAVE_POLL_ERRORS SAVE_MAX_ATTEMPTS save_poll_s save_poll_total_s save_then_s candidates s r ;;; Ret tt
  | Deleting closed r =>
      delete_robot SAVE_START_TRIES SAVE_POLL_ERRORS SAVE_MAX_ATTEMPTS save_poll_s save_poll_total_s save_then_s candidates closed r ;;; Ret tt
  | RunChanged tries => restart_after_run_change SAVE_START_TRIES candidates tries ;;; Ret tt
  | SaveEnded => restart_session_services SAVE_START_TRIES candidates ;;; Ret tt
  | Saving map session track => tasks map session track ;;; Ret tt
  | Retrying online => slam_save_retry online ;;; Ret tt
  | Discarding online => slam_save_discard SAVE_START_TRIES candidates online ;;; Ret tt
  | Loading row => load_state row
  | Proxying q => proxy_to_orchestrator candidates q ;;; Ret tt
  end.

Context `{Documented}.

(** Operations that may ask a recording robot to leave slam *)
Definition leaves (op : Op) : bool := match op with Discarding _ | Proxying _ => true | _ => false end.

Lemma run_op_safe op : leaves op = false -> safe (run_op op).
Proof.
  intros Hop. destruct op; cbn [run_op]; try done;
    unfold start_robot, finish_robot, restart_after_run_change, slam_save_retry, schedule, load_state;
    repeat first [ progress intros | by auto using ret_safe, look_safe, change_safe, stop_services_safe, start_session_services_safe, save_slam_of_safe,
      delete_robot_safe, restart_tries_safe, restart_session_services_safe, save_task_safe, set_state_safe
    | apply bind_safe | case_match ].
Qed.

(** A discard that is refused asks the robot nothing *)
Lemma refused_discard_safe online w : ~ (is_Some (failed_state (w_mem w)) /\ m_pending (w_mem w) = false) ->
  wp (does false) loses_nothing (run_op (Discarding online)) (fun _ _ => True) w.
Proof.
  intros Hn. unfold run_op, slam_save_discard, look, perform. cbn [bind wp]. intros x w' [-> ->]. split; [done|].
  destruct (m_pending (w_mem w)) eqn:Hp; [done|].
  destruct (failed_state (w_mem w)) eqn:Hf; [|done]. exfalso. apply Hn. by split; [eexists|].
Qed.

(** A proxied call that loses a recording finds no SLAM state of the robot *)
Lemma proxied_safe {X : Type} (q : req X) w :
  wp (does false) (fun X e w w' => loses_nothing X e w w' \/ slam_busy (w_mem w) = None) (run_op (Proxying q)) (fun _ _ => True) w.
Proof.
  intros [] w1 _. split; [by left|]. intros m w2 [-> ->]. split; [by left|]. cbn [bind].
  destruct (slam_conflict _ _ _ _) eqn:Hc; [done|]. intros x w3 _. split; [|done].
  destruct (slam_busy (w_mem w1)) eqn:Hb; [left|by right]. apply ask_safe. left. by destruct q.
Qed.

(** When an operation [op] begun in [w] may lose the robot's recording by a request it sends in [w1]: a discard of a save that
    failed, or an operator's own call through the proxy while the API knows of no recording *)
Definition may_lose (op : Op) (w w1 : World) : Prop :=
  match op with
  | Discarding _ => is_Some (failed_state (w_mem w)) /\ m_pending (w_mem w) = false
  | Proxying _ => slam_busy (w_mem w1) = None
  | _ => False
  end.

End operations.

(** ** A save is over only when the map is stored *)

(** The state is cleared only while the robot holds no unsaved recording *)
Definition clears_when_saved `{Orchestrator} (X : Type) (e : ev X) (w w' : World) : Prop :=
  match e with
  | Change _ => m_state (w_mem w) <> None -> m_state (w_mem w') = None -> recording (w_robot w') = false
  | _ => True
  end.

Section saving.
Context `{Documented} (SAVE_START_TRIES SAVE_POLL_ERRORS SAVE_MAX_ATTEMPTS : nat) (save_poll_s save_poll_total_s save_then_s : Z).
Notation wps := (wp (does true) clears_when_saved).

(** What is known of the robot stays known through every effect of the save *)
Lemma effect_keeps {X : Type} (e : ev X) n w x w' : does true X e w x w' ->
  match e with Ask q => puts q = None /\ starts_save q = None | _ => True end ->
  save_taken (w_robot w) n = true -> save_taken (w_robot w') n = true.
Proof.
  intros Hd Hq Ht. destruct e; cbn in Hd; destruct_and?; simplify_eq/=; eauto using meanwhile_saving.
  destruct Hd as (r & Hr & Ha). eapply save_stays; eauto using meanwhile_saving. unfold harmless. by case_match.
Qed.

Lemma ours_status onboard v : ours onboard v = true -> status_of onboard v.
Proof. unfold ours, status_of. destruct (v_map v); [intros ?%bool_decide_eq_true; subst|]; auto. Qed.

Lemma wait_wp (P : World -> Prop) (Q : unit -> World -> Prop) w : (forall w', does true _ Wait w tt w' -> Q tt w') -> wps wait Q w.
Proof. intros HQ [] w' Hd. split; [done|]. by apply HQ. Qed.

Definition begun (onboard : string) (r : result SaveExn unit) (w : World) : Prop :=
  match r with
  | Ok _ => save_taken (w_robot w) onboard = true
  | Raise NothingToSave => recording (w_robot w) = false
  | Raise _ => True
  end.

Lemma not_slam_not_recording r loc r' : answers _ GetLocalization r (Ok loc) r' -> l_mode loc <> Some "slam" -> recording r' = false.
Proof.
  intros Ha Hl. destruct (recording r') eqn:E; [|done]. apply records_in_slam in E. apply reads_intent in Ha. rewrite Ha in E. done.
Qed.

(** A refused save of a robot that is not in slam: there was nothing to save *)
Lemma refused_wp onboard d w :
  wps (let* loc := ask GetLocalization in
       match loc with
       | Raise (OtherError t) => raise (Unexpected t)
       | Raise (OrchestratorError _ _) => raise (SaveFailed d false)
       | Ok loc => if bool_decide (l_mode loc = Some "slam") then raise (SaveFailed d false) else raise NothingToSave
       end) (begun onboard) w.
Proof.
  apply wp_bind. intros loc w1 (r1 & _ & H1). split; [done|]. destruct loc as [loc|[|]]; try done. cbn [wp].
  destruct (bool_decide _) eqn:E; [done|]. bprop. cbn. by eapply not_slam_not_recording.
Qed.

Lemma begin_save_wp n onboard map session w : n <> 0 -> wps (begin_save n onboard map session) (begun onboard) w.
Proof.
  revert w. induction n as [|n IH]; intros w Hn; [done|]. cbn [begin_save]. apply wp_bind.
  intros x w1 (r1 & _ & H1). split; [done|]. destruct x as [[]|[[| | |status] d|t]]; try done.
  { cbn. by eapply save_accepted. }
  cbn [wp]. destruct (status =? 409)%Z.
  - apply wp_ebind. unfold save_running. apply wp_bind. intros v w2 (r2 & _ & H2). split; [done|].
    destruct v as [v|[|]]; cbn [wp raise done]; try done.
    + destruct (bool_decide _ && _) eqn:E.
      * bprop. cbn. eapply save_reported; eauto using ours_status.
      * apply refused_wp.
    + apply refused_wp.
  - case_match eqn:E; [|done]. bprop. apply wp_bind. apply (wait_wp (fun _ => True)). intros w2 _. by apply IH.
Qed.

Lemma poll_save_wp fuel onboard : forall waited errors w, save_taken (w_robot w) onboard = true ->
  wps (poll_save SAVE_POLL_ERRORS save_poll_s save_poll_total_s save_then_s fuel onboard waited errors)
    (fun r w => match r with Ok _ => recording (w_robot w) = false | Raise NothingToSave => False | Raise _ => True end) w.
Proof.
  induction fuel as [|fuel IH]; intros waited errors w Hw; cbn [poll_save]; case_match; try done.
  apply wp_bind. intros x w1 Hd. split; [done|]. pose proof (effect_keeps _ onboard _ _ _ Hd (conj eq_refl eq_refl) Hw) as Hw1.
  assert (forall errors, wps (wait ;;; poll_save SAVE_POLL_ERRORS save_poll_s save_poll_total_s save_then_s fuel onboard (waited + save_poll_s)%Z errors)
    (fun r w => match r with Ok _ => recording (w_robot w) = false | Raise NothingToSave => False | Raise _ => True end) w1) as Hsleep.
  { intros errs. apply wp_bind. apply (wait_wp (fun _ => True)). intros w2 H2. apply IH. by apply (effect_keeps _ onboard _ _ _ H2). }
  destruct x as [v|[k d|t]]; cbn [wp]; [|case_match; [done|apply Hsleep]|done].
  destruct Hd as (r & Hr & Ha). destruct (ours onboard v) eqn:Ho; [|apply Hsleep]. cbn [negb].
  destruct (bool_decide _) eqn:E; [|case_match; [done|apply Hsleep]]. bprop. cbn.
  eapply (save_done onboard); eauto using ours_status, meanwhile_saving.
Qed.

(** What a save came to *)
Definition settled (r : SlamResult) (w : World) : Prop :=
  match r_status r with FAILED => True | SAVED | NOTHING_TO_SAVE => recording (w_robot w) = false | _ => False end.

Lemma saved_result_wp onboard v w : recording (w_robot w) = false -> wps (saved_result onboard v) settled w.
Proof.
  intros Hw. assert (forall k : unit -> prog ev SlamResult, (forall w1, recording (w_robot w1) = false -> wps (k tt) settled w1) ->
    wps (bind (change (with_prev None)) k) settled w) as Hk.
  { intros k Hk [] w1 ->. split; [by intros ? _|]. by apply Hk. }
  unfold saved_result. repeat case_match; try exact Hw; apply Hk; by intros w1 Hw1.
Qed.

Lemma attempts_wp n onboard map session : SAVE_START_TRIES <> 0 -> forall graced w,
  wps (attempts SAVE_START_TRIES SAVE_POLL_ERRORS save_poll_s save_poll_total_s save_then_s n graced onboard map session) settled w.
Proof.
  intros Ht. induction n as [|n IH]; intros graced w; [done|]. cbn [attempts]. apply wp_bind. unfold save_attempt. apply wp_ebind.
  eapply wp_mono; [|by apply begin_save_wp]. intros [[]|e] w1 Hb; cbn [begun] in Hb.
  - eapply wp_mono; [|by apply poll_save_wp]. intros [v|[| | |]] w2 H2; [by apply saved_result_wp|done| |done..].
    case_match; [done|]. apply wp_bind, (wait_wp (fun _ => True)). intros w3 _. apply IH.
  - destruct e; [done| |done..]. case_match; [done|]. apply wp_bind, (wait_wp (fun _ => True)). intros w3 _. apply IH.
Qed.

Lemma set_state_wp st w (Q : unit -> World -> Prop) : (st = None -> recording (w_robot w) = false) -> (forall w', Q tt w') -> wps (set_state st) Q w.
Proof.
  intros Hst HQ [] w1 ->. split; [intros _ Hn; by apply Hst|]. intros m w2 [-> ->]. split; [done|]. intros b w3 _. split; [done|]. apply HQ.
Qed.

Lemma save_task_wp map session w : SAVE_START_TRIES <> 0 ->
  wps (save_task SAVE_START_TRIES SAVE_POLL_ERRORS SAVE_MAX_ATTEMPTS save_poll_s save_poll_total_s save_then_s map session true) (fun _ _ => True) w.
Proof.
  intros Ht. unfold save_task. apply wp_bind. intros m w1 [-> ->]. split; [done|]. intros b w2 _. split; [done|].
  apply wp_bind. unfold save_slam. apply wp_bind, (wait_wp (fun _ => True)). intros w3 _. eapply wp_mono; [|by apply attempts_wp].
  intros r w4 Hr. assert (forall w, wps ((if bool_decide (r_status r = SAVED) then perform (MarkSaved map) else Ret tt) ;;; change (with_pending false) ;;; Ret r)
    (fun _ _ => True) w) as Hrest.
  { intros v. apply wp_bind. assert (forall w, wps (change (with_pending false) ;;; Ret r) (fun _ _ => True) w) as Hp.
    { intros u x u1 ->. split; [intros ? ?; cbn in *; done|done]. }
    case_match; [intros x v1 _; split; [done|]; apply Hp|apply Hp]. }
  apply wp_bind. destruct (bool_decide (r_status r = FAILED) || _) eqn:Hf.
  - by apply set_state_wp.
  - apply orb_false_iff in Hf as [Hf _]. bprop. assert (recording (w_robot w4) = false) as Hw by (unfold settled in Hr; by destruct (r_status r)).
    apply wp_bind. destruct (bool_decide (r_status r = NOTHING_TO_SAVE)); [|by apply set_state_wp]. intros x w5 ->. split; [by intros ? _|]. by apply set_state_wp.
Qed.

(** C26: The state of a tracked save is cleared only while the robot holds no unsaved recording: a save that failed, ran out
    of time or could not be followed keeps it, and so does one of which only the status of another map's save is seen. While the
    task has the SLAM lock no other task starts a save or changes the robot's mode. *)
Theorem state_cleared_only_when_saved map session w l p w' f w1 w2 : SAVE_START_TRIES <> 0 ->
  steps (does true) (save_task SAVE_START_TRIES SAVE_POLL_ERRORS SAVE_MAX_ATTEMPTS save_poll_s save_poll_total_s save_then_s map session true) w l p w' ->
  (existT (unit : Type) (Change f), w1, w2) ∈ l -> m_state (w_mem w1) <> None -> m_state (w_mem w2) = None -> recording (w_robot w2) = false.
Proof.
  intros Ht Hs Hin. destruct (wp_sound _ _ _ _ _ _ _ _ Hs (save_task_wp map session w Ht)) as [HG _].
  rewrite Forall_forall in HG. exact (HG _ Hin).
Qed.
End saving.

(** ** A save ends *)

Definition asks (X : Type) (e : ev X) : nat := match e with Ask _ => 1 | _ => 0 end.

Section ending.
Context (SAVE_START_TRIES SAVE_POLL_ERRORS SAVE_MAX_ATTEMPTS : nat) (save_poll_s save_poll_total_s save_then_s : Z).
Notation poll := (poll_save SAVE_POLL_ERRORS save_poll_s save_poll_total_s save_then_s).
Notation total := (poll_total save_poll_total_s save_then_s).

Lemma begin_save_asks n onboard map session : at_most asks (n + 2) (begin_save n onboard map session).
Proof.
  induction n as [|n IH]; [done|]. cbn [begin_save]. exists (n + 2). split; [cbn; lia|].
  intros [[]|[[| | |status] d|t]]; try done. cbn [bind]. destruct (status =? 409)%Z.
  - exists 1. split; [cbn; lia|]. intros [v|[|]]; cbn; try done; [destruct (_ && _); [done|]|]; (exists 0; split; [cbn; lia|]; intros [?|[|]]; cbn; try done; by case_match).
  - case_match; [|done]. exists (n + 2). split; [cbn; lia|]. intros ?. apply IH.
Qed.
Lemma poll_save_asks fuel onboard : forall waited errors, at_most asks fuel (poll fuel onboard waited errors).
Proof.
  induction fuel as [|fuel IH]; intros waited errors; cbn [poll_save]; case_match; try done. exists fuel. split; [cbn; lia|].
  assert (forall errors, at_most asks fuel (wait ;;; poll fuel onboard (waited + save_poll_s)%Z errors)) as Hs by (intros ?; exists fuel; split; [cbn; lia|intros ?; apply IH]).
  intros [v|[|]]; cbn [bind]; try done; repeat case_match; try done; apply Hs.
Qed.
(** The bound of the poll is never reached *)
Lemma poll_save_bound fuel onboard : (0 < save_poll_s)%Z -> forall waited errors, (total - waited < Z.of_nat fuel * save_poll_s)%Z ->
  returns (fun r => r <> Raise Stuck) (poll fuel onboard waited errors).
Proof.
  intros Hp. induction fuel as [|fuel IH]; intros waited errors Hf; cbn [poll_save]; case_match eqn:E; try done; bprop; [lia|].
  assert (forall errors, returns (fun r => r <> Raise Stuck) (wait ;;; poll fuel onboard (waited + save_poll_s)%Z errors)) as Hs.
  { intros errs []. apply IH. lia. }
  intros [v|[|]]; cbn [bind]; try done; repeat case_match; try done; apply Hs.
Qed.
Lemma polls_enough onboard errors : (0 < save_poll_s)%Z -> returns (fun r => r <> Raise Stuck) (poll (polls save_poll_s save_poll_total_s save_then_s) onboard 0 errors).
Proof.
  intros Hp. apply poll_save_bound; [done|]. unfold polls. rewrite Z.sub_0_r. pose proof (Z.mul_succ_div_gt total save_poll_s Hp).
  destruct (decide (0 <= total / save_poll_s)%Z); nia.
Qed.

Lemma begin_save_returns n onboard map session : returns (fun r => r <> Raise Stuck) (begin_save n onboard map session).
Proof.
  induction n as [|n IH]; [done|]. cbn [begin_save]. intros [[]|[[| | |status] d|t]]; try done. cbn [bind].
  destruct (status =? 409)%Z; [|case_match; [by intros ?|done]].
  intros [v|[|]]; cbn; try done; [destruct (_ && _); [done|]|]; (intros [?|[|]]; cbn; try done; by case_match).
Qed.

Lemma attempts_ask n graced onboard map session :
  at_most asks (n * (SAVE_START_TRIES + 2 + polls save_poll_s save_poll_total_s save_then_s))
    (attempts SAVE_START_TRIES SAVE_POLL_ERRORS save_poll_s save_poll_total_s save_then_s n graced onboard map session).
Proof.
  revert graced. induction n as [|n IH]; intros graced; [done|]. cbn [attempts]. eapply at_most_weaken.
  - apply (at_most_bind _ (SAVE_START_TRIES + 2 + polls save_poll_s save_poll_total_s save_then_s)
             (n * (SAVE_START_TRIES + 2 + polls save_poll_s save_poll_total_s save_then_s))).
    + unfold save_attempt. apply at_most_bind; [apply begin_save_asks|]. intros [[]|e]; [apply poll_save_asks|done].
    + intros [v|[| | |]]; try done; [|case_match; [done|eexists; split; [|intros; apply IH]; cbn; lia]].
      unfold saved_result. repeat case_match; try done; (eexists 0; split; [cbn; lia|done]).
  - lia.
Qed.

(** A PUT of a mode *)
Definition put_count (X : Type) (e : ev X) : nat := match e with Ask q => if puts q then 1 else 0 | _ => 0 end.

Lemma begin_save_puts n onboard map session : at_most put_count 0 (begin_save n onboard map session).
Proof.
  induction n as [|n IH]; [done|]. cbn [begin_save]. exists 0. split; [done|]. intros [[]|[[| | |status] d|t]]; try done. cbn [bind].
  destruct (status =? 409)%Z; [|case_match; [|done]; exists 0; split; [done|intros ?; apply IH]].
  exists 0. split; [done|]. intros [v|[|]]; cbn; try done; [destruct (_ && _); [done|]|]; (exists 0; split; [done|]; intros [?|[|]]; cbn; try done; by case_match).
Qed.
Lemma poll_save_puts fuel onboard : forall waited errors, at_most put_count 0 (poll fuel onboard waited errors).
Proof.
  induction fuel as [|fuel IH]; intros waited errors; cbn [poll_save]; case_match; try done. exists 0. split; [done|].
  assert (forall errors, at_most put_count 0 (wait ;;; poll fuel onboard (waited + save_poll_s)%Z errors)) as Hs by (intros ?; exists 0; split; [done|intros ?; apply IH]).
  intros [v|[|]]; cbn [bind]; try done; repeat case_match; try done; apply Hs.
Qed.
Lemma attempts_puts n graced onboard map session :
  at_most put_count 0 (attempts SAVE_START_TRIES SAVE_POLL_ERRORS save_poll_s save_poll_total_s save_then_s n graced onboard map session).
Proof.
  revert graced. induction n as [|n IH]; intros graced; [done|]. cbn [attempts]. apply (at_most_bind _ 0 0).
  - apply (at_most_bind _ 0 0); [apply begin_save_puts|]. intros [[]|e]; [apply poll_save_puts|done].
  - intros [v|[| | |]]; try done; [|case_match; [done|exists 0; split; [done|intros ?; apply IH]]].
    unfold saved_result. repeat case_match; try done; by exists 0.
Qed.

(** The rest of the task asks nothing *)
Lemma save_task_counts (c : forall X, ev X -> nat) n map session track : (forall X (e : ev X), match e with Ask _ => True | _ => c X e = 0 end) ->
  at_most c n (attempts SAVE_START_TRIES SAVE_POLL_ERRORS save_poll_s save_poll_total_s save_then_s SAVE_MAX_ATTEMPTS false (onboard_map_name map) map session) ->
  at_most c n (save_task SAVE_START_TRIES SAVE_POLL_ERRORS SAVE_MAX_ATTEMPTS save_poll_s save_poll_total_s save_then_s map session track).
Proof.
  intros Hc Ha. unfold save_task, save_slam, set_state, persist, change, look, wait, perform.
  assert (forall A X (e : ev X) (k : X -> prog ev A) n, match e with Ask _ => False | _ => True end -> (forall x, at_most c n (k x)) -> at_most c n (Vis e k)) as Hv.
  { intros A X e k j He Hk. exists j. split; [|done]. specialize (Hc X e). by destruct e; [|rewrite Hc..]. }
  eapply at_most_weaken; [apply (at_most_bind _ 0 (n + 0))|lia].
  - case_match; [|done]. by repeat (apply Hv; [done|]; intros).
  - intros _. apply at_most_bind.
    + cbn [bind]. apply Hv; [done|]. by intros _.
    + intros r. repeat (case_match; cbn [bind]); by repeat (apply Hv; [done|]; intros).
Qed.

(** C34: A save ends: it asks the robot a bounded number of times and never for another mode, and the bound on its polls is
    never what ends it. *)
Theorem save_ends `{Orchestrator} map session track w l p w' : (0 < save_poll_s)%Z ->
  steps (does false) (save_task SAVE_START_TRIES SAVE_POLL_ERRORS SAVE_MAX_ATTEMPTS save_poll_s save_poll_total_s save_then_s map session track) w l p w' ->
  performed asks l <= SAVE_MAX_ATTEMPTS * (SAVE_START_TRIES + 2 + polls save_poll_s save_poll_total_s save_then_s)
  /\ performed put_count l = 0
  /\ (forall onboard, returns (fun r => r <> Raise Stuck)
       (save_attempt SAVE_START_TRIES SAVE_POLL_ERRORS save_poll_s save_poll_total_s save_then_s onboard map session)).
Proof.
  intros Hp Hs. split_and!.
  - apply (at_most_sound _ _ _ _ _ _ _ _ Hs), save_task_counts; [by intros X []|]. apply attempts_ask.
  - apply Nat.le_0_r. apply (at_most_sound _ _ _ _ _ _ _ _ Hs), save_task_counts; [by intros X []|]. apply attempts_puts.
  - intros onboard. apply returns_bind. eapply returns_mono; [|apply (begin_save_returns SAVE_START_TRIES onboard map session)].
    intros [[]|e] He; [by apply polls_enough|cbn; congruence].
Qed.
End ending.

(** ** A restart of the API *)

(** The programs without other tasks, as while the API starts: waiting changes nothing *)
Definition alone `{Orchestrator} (X : Type) (e : ev X) : World -> X -> World -> Prop :=
  match e with
  | Store row => fun w x w' => w' = {| w_robot := w_robot w; w_mem := w_mem w; w_row := if x then row else w_row w |}
  | Look => fun w x w' => x = w_mem w /\ w' = w
  | Change f => fun w _ w' => w' = {| w_robot := w_robot w; w_mem := f (w_mem w); w_row := w_row w |}
  | Ask q => fun w x w' => answers _ q (w_robot w) x (w_robot w') /\ w_mem w' = w_mem w /\ w_row w' = w_row w
  | _ => fun w _ w' => w' = w
  end.

(** The state [m] that was persisted comes back: a save that ran is failed, everything else as it was. *)
Theorem restart_keeps_state `{Orchestrator} m st w l w' :
  m_state m = Some st -> w_mem w = {| m_state := None; m_prev := None; m_pending := false |} ->
  steps alone (load_state (row_of m)) w l (Ret tt) w' ->
  w_mem w' = {| m_state := Some {| st_phase := if bool_decide (st_phase st = SAVING) then SAVE_FAILED else st_phase st;
                                   st_map := st_map st; st_session := st_session st |};
                m_prev := m_prev m; m_pending := false |}.
Proof.
  intros Hm Hw Hs. refine (wp_result alone (fun _ _ _ _ => True) _ (fun _ w' => w_mem w' = _) _ _ _ _ Hs _).
  unfold row_of. rewrite Hm. cbn [load_state default].
  intros [] w1 ->. split; [done|]. cbn. rewrite Hw. intros x w2 [-> ->]. split; [done|]. cbn.
  case_bool_decide as Hp; destruct (m_prev m); cbn; try (by destruct st);
    intros [] w3 ->; (split; [done|]); cbn; intros x w4 [-> ->]; (split; [done|]); cbn; intros b w5 ->; (split; [done|]); done.
Qed.

(** Of a finish that was cut short before its save was scheduled the state is still [RECORDING], although the session is over:
    a retry and a discard are refused, so the map can be neither saved nor given up. *)
Theorem interrupted_finish_stuck `{Orchestrator} tries cands w st online l1 r1 w1 l2 r2 w2 :
  m_state (w_mem w) = Some st -> st_phase st = RECORDING ->
  steps (does false) (slam_save_retry online) w l1 (Ret r1) w1 -> steps (does false) (slam_save_discard tries cands online) w l2 (Ret r2) w2 ->
  r1 = None /\ r2 = None.
Proof.
  intros Hst Hph H1 H2.
  assert (failed_state (w_mem w) = None) as Hf by (unfold failed_state; by rewrite Hst, Hph).
  split; [refine (wp_result (does false) (fun _ _ _ _ => True) _ (fun r _ => r = None) _ _ _ _ H1 _)
         |refine (wp_result (does false) (fun _ _ _ _ => True) _ (fun r _ => r = None) _ _ _ _ H2 _)];
    unfold slam_save_retry, slam_save_discard, look, perform; cbn [bind wp]; intros x w' [-> ->]; (split; [done|]); rewrite Hf; by case_match.
Qed.

(** ** Examples *)

Module Example_robot.
Import Toy.
Lemma in_slam : t_recording {| t_intent := (Some "slam", None); t_init := fun _ => None; t_recording := true; t_stored := 0; t_taken := None |} = true ->
  (t_intent {| t_intent := (Some "slam", None); t_init := fun _ => None; t_recording := true; t_stored := 0; t_taken := None |}).1 = Some "slam".
Proof. done. Qed.
Definition recording_robot : robot := exist _ _ in_slam.
Lemma in_odometry : t_recording {| t_intent := (Some "odometry", None); t_init := fun _ => None; t_recording := false; t_stored := 0; t_taken := None |} = true ->
  (t_intent {| t_intent := (Some "odometry", None); t_init := fun _ => None; t_recording := false; t_stored := 0; t_taken := None |}).1 = Some "slam".
Proof. done. Qed.
Definition odometry_robot : robot := exist _ _ in_odometry.
Definition failed_mem : Mem :=
  {| m_state := Some {| st_phase := SAVE_FAILED; st_map := Some "hall"; st_session := Some "1" |}; m_prev := Some (Some "odometry", None); m_pending := false |}.
Definition failed_world : World := {| w_robot := recording_robot; w_mem := failed_mem; w_row := None |}.
Definition left_world : World := {| w_robot := odometry_robot; w_mem := failed_mem; w_row := None |}.
Definition put_answer : PutAnswer := {| a_problem := None; a_applied := Some true; a_topomap := None; a_message := None |}.


(** The save of that robot: taken at once; the first status is still that of an earlier save of another map, and the recording
    is stored when it is asked after again. *)
Definition old_status : SaveStatus :=
  {| v_map := Some "cloud-old"; v_status := Some "done"; v_error := None; v_then := Some "done"; v_then_error := None; v_where := Some "cloud-old" |}.
Definition saved_status : SaveStatus :=
  {| v_map := Some "cloud-hall"; v_status := Some "done"; v_error := None; v_then := Some "done"; v_then_error := None; v_where := Some "cloud-hall" |}.
Lemma taken_in_slam : t_recording (take "cloud-hall" (`recording_robot)) = true -> (t_intent (take "cloud-hall" (`recording_robot))).1 = Some "slam".
Proof. done. Qed.
Definition taken_robot : robot := exist _ _ taken_in_slam.
Lemma stored_in_slam : t_recording (store (take "cloud-hall" (`recording_robot))) = true -> (t_intent (store (take "cloud-hall" (`recording_robot)))).1 = Some "slam".
Proof. done. Qed.
Definition stored_robot : robot := exist _ _ stored_in_slam.
Definition saving_mem (prev : option (option string * option string)) : Mem :=
  {| m_state := Some {| st_phase := SAVING; st_map := Some "hall"; st_session := Some "1" |}; m_prev := prev; m_pending := true |}.
Definition saving_world (r : robot) (m : Mem) : World := {| w_robot := r; w_mem := m; w_row := None |}.

Lemma a_save_run locked : exists l p,
  steps (does locked) (save_task 5 5 2 3 660 45 "hall" "1" true) (saving_world recording_robot (saving_mem None)) l p
    (saving_world stored_robot (with_state None (saving_mem None)))
  /\ (existT (unit : Type) (Change (with_state None)), saving_world stored_robot (saving_mem None),
      saving_world stored_robot (with_state None (saving_mem None))) ∈ l
  /\ performed asks l = 3.
Proof.
  pose (w0 := saving_world recording_robot (saving_mem None)). pose (w1 := saving_world taken_robot (saving_mem None)).
  pose (w2 := saving_world stored_robot (saving_mem None)).
  eexists _, _. split; [|split].
  - unfold save_task, persist, save_slam, look, wait, perform. cbn [bind].
    eapply (steps_more _ _ Look _ (saving_mem None) _ w0); [done|]. cbn [bind].
    eapply (steps_more _ _ (Store _) _ false _ w0); [by split; [apply meanwhile_nothing|]|]. cbn [bind].
    eapply (steps_more _ _ Wait _ tt _ w0); [apply meanwhile_nothing|]. cbn.
    eapply (steps_more _ _ (Ask (SaveLocalization _ _ _)) _ (Ok tt) _ w1);
      [exists recording_robot; split; [apply meanwhile_nothing|]; by right|]. cbn.
    eapply (steps_more _ _ (Ask GetSave) _ (Ok old_status) _ w1);
      [exists taken_robot; split; [apply meanwhile_nothing|]; right; left; by exists old_status, "cloud-old"|]. cbn.
    eapply (steps_more _ _ Wait _ tt _ w1); [apply meanwhile_nothing|]. cbn.
    eapply (steps_more _ _ (Ask GetSave) _ (Ok saved_status) _ w2);
      [exists taken_robot; split; [apply meanwhile_nothing|]; left; by exists saved_status, "cloud-hall"|]. cbn.
    eapply (steps_more _ _ (Change (with_prev None)) _ tt _ w2); [done|]. cbn.
    eapply (steps_more _ _ (Change (with_state None)) _ tt); [done|]. apply steps_here.
  - do 8 apply list_elem_of_further. apply list_elem_of_here.
  - done.
Qed.

Lemma state_cleared_only_when_saved_witness : recording stored_robot = false.
Proof.
  destruct (a_save_run true) as (l & p & Hs & Hin & _).
  refine (state_cleared_only_when_saved 5 5 2 3 660 45 "hall" "1" _ l p _ (with_state None) _ _ _ Hs Hin _ _); done.
Defined.

Lemma save_ends_witness : exists l : list (sigT ev * World * World), performed asks l = 3 /\ performed asks l <= 2 * (5 + 2 + polls 3 660 45) /\ performed put_count l = 0.
Proof.
  destruct (a_save_run false) as (l & p & Hs & _ & Hl). exists l.
  destruct (save_ends 5 5 2 3 660 45 "hall" "1" true _ l p _ eq_refl Hs) as (H1 & H2 & _). done.
Defined.
End Example_robot.
