(* ===== verification/RelocJobs.v ===== *)
(** * Relocalization jobs

    packages/api/reloc_job.py: the background job that has a robot relocalize itself on a stored map and then places its
    session ([RelocJobs._run] and what it calls), and the registry of jobs. Every await is an effect; a cancel may arrive at
    any await that is not shielded. A second cancel while the first one's rollback runs, texts, warnings and the
    localization score are left out; poses are opaque values, and times integers. *)

From S2P Require Import Prelude Coroutine Orchestrator.
Local Open Scope string_scope.
Local Open Scope fleet_scope.
Local Open Scope list_scope.

(** ** State *)

Inductive JState := PREPARING | STARTING | WAITING | CONFIRMING | PLACED | FAILED | CANCELLED | EDIT.
#[export] Instance JState_eq_dec : EqDecision JState.
Proof. solve_decision. Defined.
(** [ACTIVE] *)
Definition active (st : JState) : bool := match st with PREPARING | STARTING | WAITING | CONFIRMING => true | _ => false end.

Inductive Decision' := DECISION_CONFIRM | DECISION_EDIT.
#[export] Instance Decision'_eq_dec : EqDecision Decision'.
Proof. solve_decision. Defined.

Notation Intent := (option string * option string)%type.

(** The fields of [RelocJob] that change; [j_error]: there is an error text *)
Record Job := { j_state : JState; j_error : bool; j_decision : option Decision'; j_auto : bool; j_deadline : Z; j_confirm_deadline : Z }.
(** [_Undo] *)
Record Undo := { u_onboard : option string; u_init : option Z; u_init_changed : bool; u_intent_changed : bool; u_prev : option Intent; u_intents : list Intent }.
Definition new_undo : Undo :=
  {| u_onboard := None; u_init := None; u_init_changed := false; u_intent_changed := false; u_prev := None; u_intents := [] |}.
Record Mem := { m_job : Job; m_undo : Undo }.

Definition with_state (st : JState) (m : Mem) : Mem :=
  {| m_job := {| j_state := st; j_error := j_error (m_job m); j_decision := j_decision (m_job m); j_auto := j_auto (m_job m);
                 j_deadline := j_deadline (m_job m); j_confirm_deadline := j_confirm_deadline (m_job m) |}; m_undo := m_undo m |}.
Definition with_error (b : bool) (m : Mem) : Mem :=
  {| m_job := {| j_state := j_state (m_job m); j_error := b; j_decision := j_decision (m_job m); j_auto := j_auto (m_job m);
                 j_deadline := j_deadline (m_job m); j_confirm_deadline := j_confirm_deadline (m_job m) |}; m_undo := m_undo m |}.
Definition with_decision (d : Decision') (auto : bool) (m : Mem) : Mem :=
  {| m_job := {| j_state := j_state (m_job m); j_error := j_error (m_job m); j_decision := Some d; j_auto := auto;
                 j_deadline := j_deadline (m_job m); j_confirm_deadline := j_confirm_deadline (m_job m) |}; m_undo := m_undo m |}.
Definition with_deadline (t : Z) (m : Mem) : Mem :=
  {| m_job := {| j_state := j_state (m_job m); j_error := j_error (m_job m); j_decision := j_decision (m_job m); j_auto := j_auto (m_job m);
                 j_deadline := t; j_confirm_deadline := j_confirm_deadline (m_job m) |}; m_undo := m_undo m |}.
Definition with_confirm_deadline (t : Z) (m : Mem) : Mem :=
  {| m_job := {| j_state := j_state (m_job m); j_error := j_error (m_job m); j_decision := j_decision (m_job m); j_auto := j_auto (m_job m);
                 j_deadline := j_deadline (m_job m); j_confirm_deadline := t |}; m_undo := m_undo m |}.
Definition with_undo (f : Undo -> Undo) (m : Mem) : Mem := {| m_job := m_job m; m_undo := f (m_undo m) |}.
Definition set_onboard (n : string) (u : Undo) : Undo :=
  {| u_onboard := Some n; u_init := u_init u; u_init_changed := u_init_changed u; u_intent_changed := u_intent_changed u; u_prev := u_prev u; u_intents := u_intents u |}.
Definition set_init (p : option Z) (u : Undo) : Undo :=
  {| u_onboard := u_onboard u; u_init := p; u_init_changed := u_init_changed u; u_intent_changed := u_intent_changed u; u_prev := u_prev u; u_intents := u_intents u |}.
Definition set_init_changed (b : bool) (u : Undo) : Undo :=
  {| u_onboard := u_onboard u; u_init := u_init u; u_init_changed := b; u_intent_changed := u_intent_changed u; u_prev := u_prev u; u_intents := u_intents u |}.
Definition set_intent_changed (b : bool) (u : Undo) : Undo :=
  {| u_onboard := u_onboard u; u_init := u_init u; u_init_changed := u_init_changed u; u_intent_changed := b; u_prev := u_prev u; u_intents := u_intents u |}.
Definition set_prev (p : Intent) (l : list Intent) (u : Undo) : Undo :=
  {| u_onboard := u_onboard u; u_init := u_init u; u_init_changed := u_init_changed u; u_intent_changed := u_intent_changed u; u_prev := Some p; u_intents := l |}.

(** What one read of the database gives: the robot's row, the session, the map's type, and whether an open mapping session of
    the robot records a SLAM map *)
Record RobotView := { rv_online : bool; rv_initialized : option bool; rv_map_id : option string; rv_pose : Z }.
(** [sv_placed]: when it was placed ([_placement_at]), [None] while it is not *)
Record SessionView := { sv_map : string; sv_ended : bool; sv_placed : option string }.
Record View := { v_robot : option RobotView; v_session : option SessionView; v_local : option bool; v_alive : bool; v_slam : bool }.

(** ** Effects: [Ask] is cancelled with [None]; [Shielded] is not *)

Inductive ev : Type -> Type :=
| Ask {X : Type} (q : req X) : ev (option X)
| Shielded {X : Type} (q : req X) : ev X
| Look : ev Mem
| Change (f : Mem -> Mem) : ev unit
(** The robot's locks; whether its SLAM lock is taken *)
| Locks : ev (option bool)
| RobotLock : ev unit
(** [slam_save_pending] or [slam_save_failed] *)
| SlamState : ev bool
| Read : ev (option (result string View))
| Clock : ev Z
| Sleep : ev (option unit)
(** [_pause]: a poll interval, or until somebody decides *)
| Pause : ev (option unit)
(** [MappingSwitch.start] of the topomap: whether it went wrong *)
| StartTopomap : ev (option bool)
| ShieldedTopomap : ev bool
(** The transaction of [_place_tx] on what it reads: [Ok] the pose it writes, [Raise] its refusal; the answer has the outcome
    ([None] of an outcome: the database failed) and whether a cancel arrived meanwhile *)
| Transact (f : View -> option Z) : ev (option bool * bool)
| Notify : ev (option unit).

(** [asyncio.CancelledError], [_Fail] with its [rollback], any other exception; [Stuck]: the model's bound of a poll *)
Inductive Exc := Cancelled | Fail (rollback : bool) | Unexpected | Stuck.

Definition await {X : Type} (e : ev (option X)) : prog ev (result Exc X) :=
  let* x := perform e in match x with Some x => done x | None => raise Cancelled end.
Definition look {A : Type} (k : Mem -> prog ev A) : prog ev A := bind (perform Look) k.
Definition change (f : Mem -> Mem) : prog ev (result Exc unit) := perform (Change f) ;;; done tt.
Definition clock : prog ev (result Exc Z) := let* t := perform Clock in done t.

(** [try: await client.<call> except OrchestratorError: raise _Fail] *)
Definition call {X : Type} (q : req (result exn X)) : prog ev (result Exc X) :=
  let+ x := await (Ask q) in
  match x with Ok a => done a | Raise (OrchestratorError _ _) => raise (Fail true) | Raise (OtherError _) => raise Unexpected end.

(** [async with maps.open_store(...)] with its reads *)
Definition read : prog ev (result Exc View) :=
  let+ x := await Read in match x with Ok v => done v | Raise _ => raise Unexpected end.

Section job.
(** The job: its map, its initial pose with what it becomes on the robot, whether that is finite, and when the session had been
    placed; the settings of [RelocJobs] *)
Context (map_name : string) (init_pose : option Z) (bin_pose : Z -> Z) (finite : Z -> bool) (placement_at : option string)
  (timeout poll confirm_timeout : Z).

Definition assisted : bool := bool_decide (is_Some init_pose).

(** [_check_session] *)
Definition check_session (v : View) : bool :=
  match v_local v with Some false => false | _ => true end &&
  match v_session v with
  | None => false
  | Some s => bool_decide (sv_map s = map_name) && negb (sv_ended s)
              && match sv_placed s with None => true | at' => bool_decide (at' = placement_at) end
  end.
Definition online (v : View) : bool := match v_robot v with Some r => rv_online r | None => false end.

(** [_recheck] *)
Definition recheck : prog ev (result Exc unit) :=
  let* slam := perform SlamState in
  if (slam : bool) then raise (Fail true)
  else
    let+ v := read in
    if negb (online v) then raise (Fail true)
    else if negb (check_session v) then raise (Fail true)
    else if v_slam v then raise (Fail true) else done tt.

(** The stored map of [_prepare] *)
Definition onboard_of (rows : list StoredMap) : string :=
  match find_first (fun r => sm_valid r && bool_decide (sm_cloud_map r = Some map_name)) rows with
  | Some r => or_str (sm_name r) ("cloud-" +:+ map_name)
  | None => "cloud-" +:+ map_name
  end.

(** The PUTs of [_start_relocalization] *)
Fixpoint put_each (steps : list (string * option string)) (topomap : bool) : prog ev (result Exc unit) :=
  match steps with
  | [] => done tt
  | (mode, map) :: rest =>
      look (fun m =>
        let changed := u_intent_changed (m_undo m) in
        let+ _ := change (with_undo (set_intent_changed true)) in
        let+ answer := await (Ask (PutLocalization mode map (if topomap then Some false else None))) in
        match answer with
        | Raise (OtherError _) => raise Unexpected
        | Raise (OrchestratorError k _) =>
            let+ _ := if match k with HTTP 504 => false | HTTP _ => negb changed | _ => false end
                      then change (with_undo (set_intent_changed false)) else done tt in
            raise (Fail true)
        | Ok a =>
            match problem_of a with
            | Some _ => raise (Fail true)
            | None => if bool_decide (a_applied a = Some false) then raise (Fail true) else put_each rest topomap
            end
        end)
  end.

(** [_start_relocalization] *)
Definition start_relocalization (onboard : string) : prog ev (result Exc unit) :=
  let+ _ := change (with_state STARTING) in
  let+ prev := call GetLocalization in
  if bool_decide (l_mode prev = Some "slam") then raise (Fail true)
  else
    let topomap := bool_decide (l_topomap prev = Some true) in
    let reloc := ("relocalization", Some onboard) in
    let steps := if assisted && bool_decide ((l_mode prev, l_map prev) = (Some "relocalization", Some onboard))
                 then [("odometry", None); reloc] else [reloc] in
    let+ _ := change (with_undo (set_prev (l_mode prev, l_map prev) (map (fun st => (Some st.1, st.2)) steps))) in
    let+ _ := put_each steps topomap in
    if topomap then let+ _ := await StartTopomap in done tt else done tt.

(** [_start_waiting] *)
Definition start_waiting : prog ev (result Exc unit) :=
  let+ t := clock in let+ _ := change (with_deadline (t + timeout)) in change (with_state WAITING).

(** [_prepare]; the onboard name *)
Definition prepare : prog ev (result Exc string) :=
  let+ _ := change (with_state PREPARING) in
  let+ _ := recheck in
  let+ rows := call (ListMaps map_name) in
  let onboard := onboard_of rows in
  let+ _ := change (with_undo (set_onboard onboard)) in
  let+ info := call (GetMap onboard) in
  let+ _ := change (with_undo (set_init info)) in
  let+ _ := change (with_state STARTING) in
  if match init_pose with Some p => negb (finite (bin_pose p)) | None => false end then raise (Fail true)
  else
    let+ _ := change (with_undo (set_init_changed true)) in
    let+ _ := call (PatchMap onboard (bin_pose <$> init_pose)) in
    let+ _ := start_relocalization onboard in
    let+ _ := start_waiting in
    done onboard.

(** [_wait] *)
Fixpoint wait_localized (fuel : nat) (onboard : string) : prog ev (result Exc RobotView) :=
  match fuel with
  | O => raise Stuck
  | S fuel =>
      let+ v := read in
      match v_robot v with
      | None => raise (Fail true)
      | Some r =>
          if negb (rv_online r) then raise (Fail true)
          else if negb (check_session v) then raise (Fail true)
          else if v_slam v then raise (Fail true)
          else if bool_decide (rv_initialized r = Some true) && bool_decide (rv_map_id r = Some onboard) then done r
          else
            let+ t := clock in
            look (fun m => if (j_deadline (m_job m) <=? t)%Z then raise (Fail false)
                           else let+ _ := await Sleep in wait_localized fuel onboard)
      end
  end.

(** The loop of [_confirm] *)
Fixpoint wait_decided (fuel : nat) : prog ev (result Exc unit) :=
  look (fun m =>
    match j_decision (m_job m) with
    | Some _ => done tt
    | None =>
        match fuel with
        | O => raise Stuck
        | S fuel =>
            let+ t := clock in
            if (j_confirm_deadline (m_job m) <=? t)%Z then change (with_decision DECISION_CONFIRM true)
            else
              let+ _ := await Pause in
              look (fun m =>
                match j_decision (m_job m) with
                | Some _ => done tt
                | None =>
                    let+ v := read in
                    if negb (online v) then raise (Fail true)
                    else if negb (check_session v) then raise (Fail true)
                    else wait_decided fuel
                end)
        end
    end).

(** [_confirm] *)
Definition confirm (fuel : nat) : prog ev (result Exc bool) :=
  let+ t := clock in
  let+ _ := change (with_confirm_deadline (t + confirm_timeout)) in
  let+ _ := change (with_state CONFIRMING) in
  let+ _ := wait_decided fuel in
  look (fun m => if bool_decide (j_decision (m_job m) = Some DECISION_EDIT) then let+ _ := change (with_state EDIT) in done false else done true).

(** The pose the transaction of [_place_tx] writes; [None]: it refuses *)
Definition place_tx (v : View) : option Z :=
  if negb (v_alive v) then None
  else if negb (check_session v) then None
  else match v_robot v with Some r => if rv_online r then Some (rv_pose r) else None | None => None end.

(** [_place] *)
Definition place : prog ev (result Exc unit) :=
  let* r := perform (Transact place_tx) in
  let '(outcome, cancelled) := r in
  let+ _ := match outcome with
    | Some true => change (with_state PLACED)
    | Some false => if (cancelled : bool) then raise Cancelled else raise (Fail true)
    | None => if (cancelled : bool) then raise Cancelled else raise Unexpected
    end in
  await Notify.

(** ** Rollback *)

(** [_restart_topomap] is [ShieldedTopomap] here; [_restore_intent]: whether there was a problem *)
Definition restore : prog ev bool :=
  look (fun m =>
    let* loc := perform (Shielded GetLocalization) in
    let topomap := match loc with Ok l => bool_decide (l_topomap l = Some true) | Raise _ => false end in
    let* r := restore_intent (fun X q => @Shielded X q) (u_prev (m_undo m)) (Some (u_intents (m_undo m))) (if topomap then Some false else None) in
    match r with
    | Raise _ => Ret true
    | Ok _ => if topomap then perform ShieldedTopomap else Ret false
    end).

(** [_rollback] *)
Definition rollback : prog ev bool :=
  let* p1 := look (fun m =>
    if u_intent_changed (m_undo m) then perform (Change (with_undo (set_intent_changed false))) ;;; restore else Ret false) in
  let* p2 := look (fun m =>
    match u_init_changed (m_undo m), u_onboard (m_undo m) with
    | true, Some onboard =>
        perform (Change (with_undo (set_init_changed false))) ;;;
        let* r := perform (Shielded (PatchMap onboard (u_init (m_undo m)))) in
        Ret (match r with Ok _ => false | Raise _ => true end)
    | _, _ => Ret false
    end) in
  Ret (p1 || p2).

(** [_rollback_locked] *)
Definition rollback_locked : prog ev bool :=
  look (fun m => if u_init_changed (m_undo m) || u_intent_changed (m_undo m) then perform RobotLock ;;; rollback else Ret false).

(** [job.error = warning or job.error] *)
Definition note (b : bool) : prog ev unit := perform (Change (fun m => with_error (b || j_error (m_job m)) m)).

(** [_prepare] under the locks, with the handler inside them *)
Definition prepare_locked : prog ev (result Exc string) :=
  let+ busy := await Locks in
  if (busy : bool) then raise (Fail false)
  else
    catch prepare (fun e =>
      match e with
      | Cancelled | Fail true => let* b := rollback in (perform (Change (with_error b)) ;;; raise e)
      | _ => raise e
      end).

(** [_run]; the answer is the exception it ended with, if any *)
Definition run_body (fuel : nat) : prog ev (result Exc unit) :=
  let+ onboard := prepare_locked in
  let+ _ := wait_localized fuel onboard in
  let+ go := confirm fuel in
  if (go : bool) then place else done tt.
Definition handle (e : Exc) : prog ev unit :=
  match e with
  | Cancelled =>
      look (fun m => if bool_decide (j_state (m_job m) = PLACED) then Ret tt
                     else let* b := rollback_locked in (perform (Change (with_state CANCELLED)) ;;; note b))
  | Fail rb =>
      (if (rb : bool) then let* b := rollback_locked in note b else Ret tt) ;;;
      (perform (Change (with_state FAILED)) ;;; perform (Change (with_error true)))
  | Unexpected | Stuck => perform (Change (with_state FAILED)) ;;; perform (Change (with_error true))
  end.
Definition run (fuel : nat) : prog ev (option Exc) :=
  let* r := run_body fuel in match r with Ok _ => Ret None | Raise e => handle e ;;; Ret (Some e) end.
End job.

(** ** The registry *)

Module Registry.
Section registry.
Context (MAX_FINISHED_JOBS : nat).

(** [_jobs] in insertion order, with what its operations read of a job *)
Record Entry := { e_id : nat; e_robot : string; e_map : string; e_session : string; e_state : JState; e_decision : option Decision' }.
Record Jobs := { jobs : list Entry; fresh : nat }.
Definition with_entry (st : JState) (d : option Decision') (e : Entry) : Entry :=
  {| e_id := e_id e; e_robot := e_robot e; e_map := e_map e; e_session := e_session e; e_state := st; e_decision := d |}.

(** [active_for], [active_for_map], [get], [latest] *)
Definition active_for (j : Jobs) (robot : string) : option Entry := find_first (fun e => bool_decide (e_robot e = robot) && active (e_state e)) (jobs j).
Definition active_for_map (j : Jobs) (map : string) : option Entry := find_first (fun e => bool_decide (e_map e = map) && active (e_state e)) (jobs j).
Definition get (j : Jobs) (id : nat) : option Entry := find_first (fun e => bool_decide (e_id e = id)) (jobs j).
Definition latest (j : Jobs) (map session : string) : option Entry :=
  last (List.filter (fun e => bool_decide (e_map e = map) && bool_decide (e_session e = session)) (jobs j)).

(** [_prune]: the oldest finished jobs beyond the limit go *)
Definition finished_of (l : list Entry) : list Entry := List.filter (fun e => negb (active (e_state e))) l.
Definition prune (l : list Entry) : list Entry :=
  let fin := finished_of l in
  let gone := map e_id (take (length fin - MAX_FINISHED_JOBS) fin) in
  List.filter (fun e => negb (bool_decide (e_id e ∈ gone))) l.

(** [start]: what it reads of the robot first; then, without an await, the registration *)
Inductive Refused := NotFound | Conflict.
Definition start (robot map session : string) (online : option bool) (slam_session slam_save : bool) (j : Jobs) : result Refused Jobs :=
  match online with
  | None => Raise NotFound
  | Some false => Raise Conflict
  | Some true =>
      if slam_session then Raise Conflict
      else if bool_decide (is_Some (active_for j robot)) then Raise Conflict
      else if slam_save then Raise Conflict
      else Ok {| jobs := prune (jobs j) ++ [{| e_id := fresh j; e_robot := robot; e_map := map; e_session := session; e_state := PREPARING; e_decision := None |}];
                 fresh := S (fresh j) |}
  end.

Definition update (id : nat) (f : Entry -> Entry) (j : Jobs) : Jobs :=
  {| jobs := List.map (fun e => if bool_decide (e_id e = id) then f e else e) (jobs j); fresh := fresh j |}.
(** [_enter] and the ends of [_run]: only the task of a running job writes its state *)
Definition enter (id : nat) (st : JState) (j : Jobs) : Jobs :=
  update id (fun e => if active (e_state e) then with_entry st (e_decision e) e else e) j.
(** [_decide] *)
Definition decide_job (id : nat) (d : Decision') (j : Jobs) : result Refused Jobs :=
  match get j id with
  | None => Raise NotFound
  | Some e => if bool_decide (e_state e = CONFIRMING) && bool_decide (e_decision e = None) then Ok (update id (fun e => with_entry (e_state e) (Some d) e) j) else Raise Conflict
  end.
(** [cancel], of a job whose task has ended by then *)
Definition cancel (id : nat) (j : Jobs) : result Refused Jobs :=
  match get j id with
  | None => Raise NotFound
  | Some e => if active (e_state e) then Ok (update id (fun e => with_entry CANCELLED (e_decision e) e) j) else Raise Conflict
  end.

Inductive Op :=
| Start (robot map session : string) (online : option bool) (slam_session slam_save : bool)
| Enter (id : nat) (st : JState) | Decide (id : nat) (d : Decision') | Cancel (id : nat).
Definition or_same (r : result Refused Jobs) (j : Jobs) : Jobs := match r with Ok j' => j' | Raise _ => j end.
Definition step (j : Jobs) (op : Op) : Jobs :=
  match op with
  | Start r m s o sl sv => or_same (start r m s o sl sv j) j
  | Enter id st => enter id st j
  | Decide id d => or_same (decide_job id d j) j
  | Cancel id => or_same (cancel id j) j
  end.
Definition new_jobs : Jobs := {| jobs := []; fresh := 0 |}.

Record Wf (j : Jobs) : Prop := {
  wf_ids : NoDup (map e_id (jobs j));
  wf_fresh : forall e, e ∈ jobs j -> e_id e < fresh j;
  wf_active : forall a b, a ∈ jobs j -> b ∈ jobs j -> active (e_state a) = true -> active (e_state b) = true -> e_robot a = e_robot b -> a = b;
}.

Lemma elem_filter (p : Entry -> bool) l e : e ∈ List.filter p l <-> e ∈ l /\ p e = true.
Proof. rewrite !list_elem_of_In. apply filter_In. Qed.
Lemma filter_ids (p : Entry -> bool) l : map e_id (List.filter p l) `sublist_of` map e_id l.
Proof. induction l as [|e l IH]; cbn; [done|]. destruct (p e); cbn; [by constructor|by constructor]. Qed.
Lemma in_ids e l : e ∈ l -> e_id e ∈ map e_id l.
Proof. intros He. apply list_elem_of_fmap. by exists e. Qed.

(** Writing one entry keeps the ids, and may only end a job *)
Lemma update_wf id f j : (forall e, e_id (f e) = e_id e /\ e_robot (f e) = e_robot e /\ (active (e_state (f e)) = true -> active (e_state e) = true)) -> Wf j -> Wf (update id f j).
Proof.
  intros Hf [H1 H2 H3]. assert (forall e, exists e0, (if bool_decide (e_id e = id) then f e else e) = e0 /\ e_id e0 = e_id e /\ e_robot e0 = e_robot e
    /\ (active (e_state e0) = true -> active (e_state e) = true)) as Hg.
  { intros e. eexists. split; [done|]. case_bool_decide; [apply Hf|done]. }
  split; cbn.
  - assert (map e_id (map (fun e => if bool_decide (e_id e = id) then f e else e) (jobs j)) = map e_id (jobs j)) as ->; [|done].
    rewrite map_map. apply map_ext. intros e. by destruct (Hg e) as (e0 & -> & ? & _).
  - intros e (e1 & -> & He)%list_elem_of_fmap. destruct (Hg e1) as (e0 & -> & -> & _). auto.
  - intros a b (a1 & -> & Ha)%list_elem_of_fmap (b1 & -> & Hb)%list_elem_of_fmap. destruct (Hg a1) as (a0 & Ea & ? & Hra & Hsa), (Hg b1) as (b0 & Eb & ? & Hrb & Hsb).
    rewrite Ea, Eb. intros Ka Kb Kr. assert (a1 = b1) as -> by (apply H3; auto; congruence). by rewrite <-Ea, <-Eb.
Qed.

Lemma jobs_step_wf j op : Wf j -> Wf (step j op).
Proof.
  intros Hj. destruct op as [r m s o sl sv|id st|id d|id]; cbn.
  - unfold start. destruct o as [[]|]; [|done..]. destruct sl; [done|]. case_bool_decide as Hr; [done|]. destruct sv; [done|]. cbn.
    destruct Hj as [H1 H2 H3]. assert (forall e, e ∈ prune (jobs j) -> e ∈ jobs j) as Hp by (intros e He; by apply elem_filter in He as [? _]).
    assert (forall e, e ∈ jobs j -> active (e_state e) = true -> e_robot e <> r) as Hno.
    { intros e He Ha Hrob. apply Hr. destruct (active_for j r) eqn:E; [by eexists|]. unfold active_for in E. apply find_first_None in E.
      rewrite Forall_forall in E. specialize (E e He). rewrite Ha, bool_decide_true in E by done. done. }
    split; cbn.
    + rewrite map_app. apply NoDup_app. split_and!; [by eapply sublist_NoDup; [|apply filter_ids]| |by apply NoDup_singleton].
      intros id (e & -> & He)%list_elem_of_fmap Hin. cbn in Hin. apply list_elem_of_singleton in Hin. specialize (H2 e (Hp e He)). lia.
    + intros e [He|He%list_elem_of_singleton]%elem_of_app; [specialize (H2 e (Hp e He)); lia|]. subst. cbn. lia.
    + intros a b [Ha|Ha%list_elem_of_singleton]%elem_of_app [Hb|Hb%list_elem_of_singleton]%elem_of_app Ka Kb Kr; subst; cbn in *; auto.
      * exfalso. by apply (Hno a (Hp a Ha) Ka).
      * exfalso. by apply (Hno b (Hp b Hb) Kb).
  - apply update_wf; [|done]. intros e. destruct (active (e_state e)) eqn:E; cbn; by rewrite ?E.
  - unfold decide_job. destruct (get j id); [|done]. case_match; [|done]. by apply update_wf.
  - unfold cancel. destruct (get j id); [|done]. case_match; [|done]. by apply update_wf.
Qed.

(** At any time a robot has at most one running job, which [active_for] finds. *)
Theorem one_active_job j a : reachable step new_jobs j -> a ∈ jobs j -> active (e_state a) = true -> active_for j (e_robot a) = Some a.
Proof.
  intros Hr Ha Hs. assert (Wf j) as Hj by (apply (reachable_inv step Wf new_jobs); [split; cbn; [apply NoDup_nil_2|by intros e He%not_elem_of_nil|by intros x y Hx%not_elem_of_nil]|apply jobs_step_wf|done]).
  destruct (active_for j (e_robot a)) as [b|] eqn:E; unfold active_for in E.
  - apply find_first_Some in E as [Hb Hx]. bprop. f_equal. by apply (wf_active j Hj).
  - apply find_first_None in E. rewrite Forall_forall in E. specialize (E a Ha). rewrite Hs, bool_decide_true in E by done. done.
Qed.

(** A start keeps every running job and the newest finished ones. *)
Lemma prune_spec l e : NoDup (map e_id l) -> e ∈ l -> active (e_state e) = true \/ e ∈ drop (length (finished_of l) - MAX_FINISHED_JOBS) (finished_of l) -> e ∈ prune l.
Proof.
  intros Hl He Hk. apply elem_filter. split; [done|]. apply negb_true_iff, bool_decide_eq_false. intros (e' & Hid & He')%list_elem_of_fmap.
  assert (e' ∈ finished_of l) as Hf by (rewrite <-(take_drop (length (finished_of l) - MAX_FINISHED_JOBS) (finished_of l)); apply elem_of_app; by left).
  assert (NoDup (map e_id (finished_of l))) as Hnd by (eapply sublist_NoDup; [exact Hl|apply filter_ids]).
  destruct Hk as [Hk|Hk].
  - apply elem_filter in Hf as [Hf Ha]. assert (e = e') as <-; [|by rewrite Hk in Ha]. apply list_elem_of_lookup in He as [i Hi], Hf as [i' Hi'].
    assert (i = i') as <-; [|congruence]. eapply NoDup_lookup; [exact Hl| |]; rewrite list_lookup_fmap; [by rewrite Hi|rewrite Hi'; cbn; by rewrite Hid].
  - rewrite <-(take_drop (length (finished_of l) - MAX_FINISHED_JOBS) (finished_of l)), map_app in Hnd. apply NoDup_app in Hnd as (_ & Hd & _).
    apply (Hd (e_id e')); [by apply in_ids|]. rewrite <-Hid. by apply in_ids.
Qed.
End registry.
End Registry.

(** ** The world of a job

    While the job awaits, others may use the robot and the database, time passes, and somebody may decide a job that asks for it
    ([_decide]); nothing else writes to the job. *)
Record World `{Orchestrator} := { w_robot : robot; w_mem : Mem; w_view : View; w_now : Z; w_placed : bool }.
Definition decided (m m' : Mem) : Prop :=
  m' = m \/ (j_state (m_job m) = CONFIRMING /\ j_decision (m_job m) = None /\ exists d, m' = with_decision d false m).
Definition waits `{Orchestrator} (w w' : World) : Prop :=
  decided (w_mem w) (w_mem w') /\ (w_now w <= w_now w')%Z /\ w_placed w' = w_placed w.

Definition does `{Orchestrator} (poll : Z) (X : Type) (e : ev X) : World -> X -> World -> Prop :=
  match e with
  | Ask q => fun w x w' => waits w w' /\ match x with Some a => exists r, answers _ q r a (w_robot w') | None => True end
  | Shielded q => fun w x w' => waits w w' /\ exists r, answers _ q r x (w_robot w')
  | Look => fun w x w' => x = w_mem w /\ w' = w
  | Change f => fun w _ w' =>
      w' = {| w_robot := w_robot w; w_mem := f (w_mem w); w_view := w_view w; w_now := w_now w; w_placed := w_placed w |}
  | SlamState => fun w _ w' => w' = w
  | Clock => fun w x w' => x = w_now w /\ w' = w
  | Read => fun w x w' => waits w w' /\ match x with Some (Ok v) => v = w_view w' | _ => True end
  | Sleep => fun w x w' => waits w w' /\ (x = Some tt -> w_now w + poll <= w_now w')%Z
  | Pause => fun w x w' => waits w w' /\ (x = Some tt -> j_decision (m_job (w_mem w')) <> None \/ (w_now w + poll <= w_now w')%Z)
  | Transact f => fun w x w' =>
      decided (w_mem w) (w_mem w') /\ (w_now w <= w_now w')%Z
      /\ match x.1 with
         | Some ok => exists v, bool_decide (is_Some (f v)) = ok /\ w_placed w' = w_placed w || ok
         | None => w_placed w' = w_placed w
         end
  | _ => fun w _ w' => waits w w'
  end.

(** The robot is changed only for a session that this job has not placed *)
Definition before_placing `{Orchestrator} (X : Type) (e : ev X) (w w' : World) : Prop :=
  match e with
  | Ask q => match q with PutLocalization _ _ _ | PatchMap _ _ => w_placed w = false | _ => True end
  | Shielded q => match q with PutLocalization _ _ _ | PatchMap _ _ => w_placed w = false | _ => True end
  | _ => True
  end.

Section outcome.
Context `{Orchestrator} (map_name : string) (init_pose : option Z) (bin_pose : Z -> Z) (finite : Z -> bool) (placement_at : option string)
  (timeout poll confirm_timeout : Z).
Notation wpj := (wp (does poll) before_placing).

(** The job runs and has placed nothing *)
Definition running (w : World) : Prop := active (j_state (m_job (w_mem w))) = true /\ w_placed w = false.
Definition keeps {A : Type} (p : prog ev A) : Prop := forall w, running w -> wpj p (fun _ w' => running w') w.

Lemma decided_state m m' : decided m m' -> j_state (m_job m') = j_state (m_job m).
Proof. intros [->|(_ & _ & d & ->)]; done. Qed.
Lemma waits_running w w' : waits w w' -> running w -> running w'.
Proof. intros (Hd & _ & Hp) [H1 H2]. split; [by rewrite (decided_state _ _ Hd)|by rewrite Hp]. Qed.

Lemma keeps_ret {A : Type} (a : A) : keeps (Ret a).
Proof. by intros w Hw. Qed.
Lemma keeps_bind {A B : Type} (p : prog ev A) (k : A -> prog ev B) : keeps p -> (forall a, keeps (k a)) -> keeps (bind p k).
Proof. intros Hp Hk w Hw. apply wp_bind. eapply wp_mono; [|by apply Hp]. intros a w' Hw'. by apply Hk. Qed.
Lemma keeps_ebind {X A B : Type} (p : prog ev (result X A)) (k : A -> prog ev (result X B)) : keeps p -> (forall a, keeps (k a)) -> keeps (ebind p k).
Proof. intros Hp Hk. apply keeps_bind; [done|]. intros [a|x]; [apply Hk|apply keeps_ret]. Qed.
Lemma keeps_look {A : Type} (k : Mem -> prog ev A) : (forall m, keeps (k m)) -> keeps (look k).
Proof. intros Hk w Hw x w' [-> ->]. split; [done|]. by apply Hk. Qed.
Lemma keeps_perform {X : Type} (e : ev X) :
  match e with Change f => forall m, active (j_state (m_job m)) = true -> active (j_state (m_job (f m))) = true | Transact _ => False | _ => True end ->
  keeps (perform e).
Proof.
  intros He w Hw x w' Hd. destruct e; cbn in Hd, He |- *; try done;
    repeat match goal with H : _ /\ _ |- _ => destruct H end; simplify_eq/=; try (split; [done|]; by eapply waits_running); try by split.
  - split; [|by eapply waits_running]. destruct q; try done; apply Hw.
  - split; [|by eapply waits_running]. destruct q; try done; apply Hw.
  - split; [done|]. split; [apply He, Hw|apply Hw].
Qed.
Lemma keeps_change f : (forall m, active (j_state (m_job m)) = true -> active (j_state (m_job (f m))) = true) -> keeps (change f).
Proof. intros Hf. apply keeps_bind; [by apply keeps_perform|]. intros. apply keeps_ret. Qed.
Lemma keeps_await {X : Type} (e : ev (option X)) :
  keeps (perform e) -> keeps (await e).
Proof. intros He. apply keeps_bind; [done|]. intros [x|]; apply keeps_ret. Qed.
Lemma keeps_restore_intent prev expect t : keeps (restore_intent (fun X q => @Shielded X q) prev expect t).
Proof.
  unfold restore_intent. destruct (restore_target prev) as [mode map].
  assert (keeps (let+ answer := perform (Shielded (PutLocalization mode map t)) in
    match problem_of answer with Some p => raise (OtherError p) | None => done true end)) as Hput.
  { apply keeps_ebind; [by apply keeps_perform|]. intros a. case_match; apply keeps_ret. }
  destruct expect; [|done]. apply keeps_bind; [by apply keeps_perform|]. intros [loc|]; [|done]. case_bool_decide; [done|apply keeps_ret].
Qed.

Ltac go :=
  repeat first
    [ progress intros
    | apply keeps_ret
    | assumption
    | apply keeps_restore_intent
    | apply keeps_ebind
    | apply keeps_bind
    | apply keeps_look
    | apply keeps_change; by intros
    | apply keeps_await
    | apply keeps_perform; by intros
    | progress unfold raise, done, call, read, clock
    | case_match ].

Lemma rollback_keeps : keeps rollback.
Proof. unfold rollback, restore. go. Qed.
Lemma rollback_locked_keeps : keeps rollback_locked.
Proof. unfold rollback_locked, rollback, restore. go. Qed.
Lemma put_each_keeps steps topomap : keeps (put_each steps topomap).
Proof. induction steps as [|[mode map] steps IH]; cbn [put_each]; go. Qed.

Definition in_time (w : World) : Prop := running w /\ (j_deadline (m_job (w_mem w)) <= w_now w + timeout)%Z.
Lemma start_waiting_wp w : running w -> wpj (start_waiting timeout) (fun r w => running w /\ match r with Ok _ => in_time w | _ => True end) w.
Proof.
  intros Hw. unfold start_waiting, clock, change, perform, done. cbn. intros x w1 [-> ->]. split; [done|]. intros y w2 ->. split; [done|].
  intros z w3 ->. split; [done|]. unfold in_time, running in *. cbn. destruct Hw. split_and!; try done; lia.
Qed.
Lemma prepare_wp w : running w -> wpj (prepare map_name init_pose bin_pose finite placement_at timeout)
  (fun r w => running w /\ match r with Ok _ => in_time w | _ => True end) w.
Proof.
  intros Hw. unfold prepare.
  assert (forall A (p : prog ev (result Exc A)) k w Q, keeps p -> running w -> (forall x w, running w -> Q (Raise x) w) ->
    (forall a w, running w -> wpj (k a) Q w) -> wpj (ebind p k) (Q : result Exc string -> World -> Prop) w) as Hseq.
  { intros A p k v Q Hp Hv Hr Hk. apply wp_ebind. eapply wp_mono; [|by apply Hp]. intros [a|x] v' Hv'; [by apply Hk|by apply Hr]. }
  repeat (apply Hseq; [solve [unfold recheck; go]|assumption|done|clear dependent w; intros ? w Hw]).
  case_match; [done|]. do 3 (apply Hseq; [first [solve [unfold start_relocalization; go; apply put_each_keeps]|solve [go]]|assumption|done|clear dependent w; intros ? w Hw]).
  apply wp_ebind. eapply wp_mono; [|by apply start_waiting_wp]. intros [[]|e] v [H1 H2]; done.
Qed.

Definition unstuck {A : Type} (p : prog ev (result Exc A)) : Prop := returns (fun r => r <> Raise Stuck) p.
Lemma unstuck_ebind {A B : Type} (p : prog ev (result Exc A)) (k : A -> prog ev (result Exc B)) : unstuck p -> (forall a, unstuck (k a)) -> unstuck (ebind p k).
Proof.
  intros Hp Hk. apply returns_bind. eapply returns_mono; [|exact Hp]. intros [a|x] Hx; [apply Hk|]. cbn in *. congruence.
Qed.
Lemma unstuck_perform {X A : Type} (e : ev X) (k : X -> prog ev (result Exc A)) : (forall x, unstuck (k x)) -> unstuck (bind (perform e) k).
Proof. intros Hk x. apply Hk. Qed.
Lemma unstuck_ok {A : Type} (a : A) : unstuck (done a).
Proof. intros [=]. Qed.
Lemma unstuck_raise {A : Type} e : e <> Stuck -> unstuck (@raise ev Exc A e).
Proof. intros He. cbn. congruence. Qed.
Lemma unstuck_await {X : Type} (e : ev (option X)) : unstuck (await e).
Proof. intros [x|]; [apply unstuck_ok|by apply unstuck_raise]. Qed.
Lemma unstuck_call {X : Type} (q : req (result exn X)) : unstuck (call q).
Proof. apply unstuck_ebind; [apply unstuck_await|]. intros [a|[|]]; [apply unstuck_ok|by apply unstuck_raise..]. Qed.
Lemma unstuck_read : unstuck read.
Proof. apply unstuck_ebind; [apply unstuck_await|]. intros [a|]; [apply unstuck_ok|by apply unstuck_raise]. Qed.
Lemma unstuck_clock : unstuck clock.
Proof. intros x. apply unstuck_ok. Qed.
Lemma unstuck_change f : unstuck (change f).
Proof. intros x. apply unstuck_ok. Qed.
Ltac clean :=
  repeat match goal with
  | |- forall _, _ => intros
  | |- unstuck (ebind _ _) => apply unstuck_ebind
  | |- unstuck (bind (perform _) _) => apply unstuck_perform
  | |- unstuck (look _) => apply unstuck_perform
  | |- unstuck (done _) => apply unstuck_ok
  | |- unstuck (raise _) => by apply unstuck_raise
  | |- unstuck (await _) => apply unstuck_await
  | |- unstuck (call _) => apply unstuck_call
  | |- unstuck read => apply unstuck_read
  | |- unstuck clock => apply unstuck_clock
  | |- unstuck (change _) => apply unstuck_change
  | |- unstuck (match _ with _ => _ end) => case_match
  | |- unstuck _ => assumption
  end.
Lemma put_each_unstuck steps topomap : unstuck (put_each steps topomap).
Proof. induction steps as [|[mode map] steps IH]; cbn [put_each]; clean. Qed.
Lemma prepare_unstuck : unstuck (prepare map_name init_pose bin_pose finite placement_at timeout).
Proof. unfold prepare, recheck, start_relocalization, start_waiting. clean; apply put_each_unstuck. Qed.

Lemma prepare_locked_wp w : running w -> wpj (prepare_locked map_name init_pose bin_pose finite placement_at timeout)
  (fun r w => running w /\ match r with Ok _ => in_time w | Raise e => e <> Stuck end) w.
Proof.
  intros Hw. unfold prepare_locked, await. apply wp_ebind, wp_bind. eapply wp_mono; [|apply (keeps_perform Locks); done].
  intros [[]|] w1 Hw1; [done| |done]. apply wp_catch. eapply wp_mono; [|apply wp_returns; [apply prepare_unstuck|by apply prepare_wp]].
  intros [a|e] w2 [[Hw2 He] Hs]; [done|].
  assert (wpj (let* b := rollback in (perform (Change (with_error b)) ;;; @raise _ _ string e)) (fun r w => running w /\ match r with Ok _ => in_time w | Raise e => e <> Stuck end) w2) as Hrb.
  { apply wp_bind. eapply wp_mono; [|by apply rollback_keeps]. intros b w3 Hw3. apply wp_bind.
    eapply wp_mono; [|by apply keeps_perform]. intros [] w4 Hw4. split; [done|]. congruence. }
  destruct e as [|[]| |]; try exact Hrb; (split; [done|]); congruence.
Qed.

Lemma look_wp {A : Type} (k : Mem -> prog ev A) Q w : wpj (k (w_mem w)) Q w -> wpj (look k) Q w.
Proof. intros Hk x w' [-> ->]. by split. Qed.

Lemma clock_wp {A : Type} (k : Z -> prog ev (result Exc A)) Q w : wpj (k (w_now w)) Q w -> wpj (ebind clock k) Q w.
Proof. intros Hk x w' [-> ->]. by split. Qed.
Lemma await_wp {X A : Type} (e : ev (option X)) (k : X -> prog ev (result Exc A)) Q w :
  (forall x w', does poll _ e w x w' -> before_placing _ e w w' /\ match x with Some a => wpj (k a) Q w' | None => Q (Raise Cancelled) w' end) ->
  wpj (ebind (await e) k) Q w.
Proof. intros He x w' Hd. destruct (He x w' Hd) as [HG Hx]. split; [done|]. by destruct x. Qed.

(** Times: how many intervals are left *)
Definition enough (deadline now : Z) (fuel : nat) : Prop := fuel <> 0 /\ (deadline - now < (Z.of_nat fuel - 1) * poll)%Z.
Lemma waits_deadline w w' : waits w w' -> j_deadline (m_job (w_mem w')) = j_deadline (m_job (w_mem w))
  /\ j_confirm_deadline (m_job (w_mem w')) = j_confirm_deadline (m_job (w_mem w)) /\ (w_now w <= w_now w')%Z.
Proof. intros ([->|(_ & _ & d & ->)] & Hn & _); done. Qed.

Lemma read_wp w Q : running w -> (forall v w', waits w w' -> running w' -> Q (Ok v) w') -> (forall e w', e <> Stuck -> running w' -> Q (Raise e) w') -> wpj read Q w.
Proof.
  intros Hw Hok Hr. unfold read, await. apply wp_ebind, wp_bind. intros x w1 [H1 H2]. split; [done|]. pose proof (waits_running _ _ H1 Hw).
  destruct x as [[v|]|]; cbn; [by apply Hok|by apply Hr..].
Qed.

Lemma wait_localized_wp (Hpoll : (0 < poll)%Z) fuel onboard : forall w, running w -> enough (j_deadline (m_job (w_mem w))) (w_now w) fuel ->
  wpj (wait_localized map_name placement_at fuel onboard) (fun r w => running w /\ r <> Raise Stuck) w.
Proof.
  induction fuel as [|fuel IH]; intros w Hw [Hn Hf]; [done|cbn [wait_localized]].
  apply wp_ebind, read_wp; [done| |by intros e w' He Hw'; split; [|congruence]]. intros v w1 Hws1 Hw1.
  destruct (waits_deadline _ _ Hws1) as (Hd1 & _ & Hn1).
  destruct (v_robot v) as [r|]; [|done]. repeat (case_match; [done|]).
  apply clock_wp, look_wp.
  case_match eqn:Ht; [done|]. bprop. apply await_wp. intros x w4 [Hws Hsl]. split; [done|]. pose proof (waits_running _ _ Hws Hw1).
  destruct (waits_deadline _ _ Hws) as (Hd4 & _ & _). destruct x as [[]|]; [|done]. specialize (Hsl eq_refl). apply IH; [done|].
  split; [|rewrite Hd4; lia]. intros ->. lia.
Qed.

Lemma wait_decided_wp (Hpoll : (0 < poll)%Z) fuel : forall w, running w -> enough (j_confirm_deadline (m_job (w_mem w))) (w_now w) fuel ->
  wpj (wait_decided map_name placement_at fuel) (fun r w => running w /\ r <> Raise Stuck) w.
Proof.
  induction fuel as [|fuel IH]; intros w Hw [Hn Hf]; [done|cbn [wait_decided]].
  apply look_wp. destruct (j_decision (m_job (w_mem w))); [done|].
  apply clock_wp. case_match eqn:Ht.
  { intros x w3 ->. by split. }
  bprop. apply await_wp. intros x w4 [Hws Hsl]. split; [done|]. pose proof (waits_running _ _ Hws Hw) as Hw4.
  destruct (waits_deadline _ _ Hws) as (_ & Hd4 & _). destruct x as [[]|]; [|done]. specialize (Hsl eq_refl).
  apply look_wp. destruct (j_decision (m_job (w_mem w4))) eqn:Hdec; [done|]. destruct Hsl as [|Hsl]; [done|].
  apply wp_ebind, read_wp; [done| |by intros e w' He Hw'; split; [|congruence]]. intros v w6 Hws6 Hw6.
  destruct (waits_deadline _ _ Hws6) as (_ & Hd6 & Hn6). repeat (case_match; [done|]). apply IH; [done|]. split; [|rewrite Hd6, Hd4; lia]. intros ->. lia.
Qed.

(** As many polls as intervals fit into the longer of the two waits *)
Definition polls : nat := Z.to_nat (Z.max timeout confirm_timeout / poll) + 2.
Lemma job_polls_enough deadline now t : (0 < poll)%Z -> (t <= Z.max timeout confirm_timeout)%Z -> (deadline <= now + t)%Z -> enough deadline now polls.
Proof.
  intros Hp Ht Hd. unfold enough, polls. split; [lia|]. pose proof (Z.mul_succ_div_gt (Z.max timeout confirm_timeout) poll Hp).
  destruct (decide (0 <= Z.max timeout confirm_timeout / poll)%Z); nia.
Qed.

(** The user has decided: place, or leave it to an edit *)
Definition confirmed (r : result Exc bool) (w : World) : Prop :=
  match r with
  | Ok true => running w
  | Ok false => j_state (m_job (w_mem w)) = EDIT /\ w_placed w = false
  | Raise e => running w /\ e <> Stuck
  end.
Lemma confirm_wp w : (0 < poll)%Z -> running w -> wpj (confirm map_name placement_at confirm_timeout polls) confirmed w.
Proof.
  intros Hp Hw. unfold confirm. apply clock_wp. intros [] w1 ->. split; [done|]. cbn [bind]. intros [] w2 ->. split; [done|]. cbn [bind].
  apply wp_ebind. eapply wp_mono; [|apply wait_decided_wp; [done|by destruct Hw|]].
  - intros [[]|e] w3 [Hw3 He]; [|split; [done|congruence]]. apply look_wp. case_bool_decide; [|done]. intros [] w4 ->. split; [done|]. split; [done|apply Hw3].
  - cbn. apply (job_polls_enough _ _ confirm_timeout); [done|lia|lia].
Qed.

(** [PLACED] says that the placement is committed *)
Definition settled (w : World) : Prop := (j_state (m_job (w_mem w)) = PLACED /\ w_placed w = true) \/ running w.
Lemma place_wp w : running w -> wpj (place map_name placement_at)
  (fun r w => match r with Ok _ => j_state (m_job (w_mem w)) = PLACED /\ w_placed w = true
              | Raise e => e <> Stuck /\ (running w \/ e = Cancelled /\ j_state (m_job (w_mem w)) = PLACED /\ w_placed w = true) end) w.
Proof.
  intros [Ha Hp]. unfold place. apply wp_bind. intros [outcome cancelled] w1 (Hd & Hn & Ho). split; [done|]. cbn [fst] in Ho.
  pose proof (decided_state _ _ Hd) as Hst. destruct outcome as [[]|].
  - destruct Ho as (v & _ & Ho). intros [] w2 ->. split; [done|]. cbn [bind]. intros x w3 Hw3. split; [done|].
    destruct Hw3 as (Hd3 & _ & Hp3). pose proof (decided_state _ _ Hd3) as Hst3. cbn in Hst3, Hp3. rewrite Ho, orb_true_r in Hp3.
    destruct x; cbn; [done|]. split; [done|]. by right.
  - destruct Ho as (v & _ & Ho). rewrite Hp in Ho. assert (running w1) by (split; [by rewrite Hst|done]). destruct cancelled; cbn; (split; [done|by left]).
  - assert (running w1) by (split; [by rewrite Hst|by rewrite Ho]). destruct cancelled; cbn; (split; [done|by left]).
Qed.

Definition finished (e : option Exc) (w : World) : Prop :=
  e <> Some Stuck /\ active (j_state (m_job (w_mem w))) = false /\ (j_state (m_job (w_mem w)) = PLACED <-> w_placed w = true).

Lemma handle_wp e w : e <> Stuck -> running w \/ e = Cancelled /\ j_state (m_job (w_mem w)) = PLACED /\ w_placed w = true ->
  wpj (handle e) (fun _ => finished (Some e)) w.
Proof.
  intros He Hw.
  assert (forall w, running w -> wpj (perform (Change (with_state FAILED)) ;;; perform (Change (with_error true))) (fun _ => finished (Some e)) w) as Hfail.
  { intros v [_ Hv] [] v1 ->. split; [done|]. intros [] v2 ->. split; [done|]. split_and!; [congruence|done|]. cbn. by rewrite Hv. }
  destruct e as [|rb| |]; [|destruct Hw as [Hw|[? _]]; [|done]|destruct Hw as [Hw|[? _]]; [by apply Hfail|done]|done].
  - apply look_wp. destruct Hw as [Hw|(_ & Hs & Hp)]; [|rewrite bool_decide_true by done; cbn; split_and!; [done|by rewrite Hs|done]].
    rewrite bool_decide_false by (intros Hs; destruct Hw as [Hw _]; by rewrite Hs in Hw).
    apply wp_bind. eapply wp_mono; [|by apply rollback_locked_keeps]. intros b w1 [_ Hp1] [] w2 ->. split; [done|]. cbn [bind].
    intros [] w3 ->. split; [done|]. split_and!; [done|done|]. cbn. by rewrite Hp1.
  - apply wp_bind. destruct rb; [|by apply Hfail]. apply wp_bind. eapply wp_mono; [|by apply rollback_locked_keeps]. intros b w1 Hw1 [] w2 ->.
    split; [done|]. by apply Hfail.
Qed.

Definition ended (r : result Exc unit) (w : World) : Prop :=
  match r with
  | Ok _ => finished None w
  | Raise e => e <> Stuck /\ (running w \/ e = Cancelled /\ j_state (m_job (w_mem w)) = PLACED /\ w_placed w = true)
  end.
Lemma run_body_wp w : (0 < poll)%Z -> running w ->
  wpj (run_body map_name init_pose bin_pose finite placement_at timeout confirm_timeout polls) ended w.
Proof.
  intros Hp Hw. unfold run_body.
  apply wp_ebind. eapply wp_mono; [|by apply prepare_locked_wp]. intros [onboard|e] w1 [Hw1 H1]; [|split; auto].
  apply wp_ebind. eapply wp_mono; [|apply wait_localized_wp; [done|done|apply (job_polls_enough _ _ timeout); [done|lia|apply H1]]].
  intros [rv|e] w2 [Hw2 H2]; [|split; [congruence|auto]].
  apply wp_ebind. eapply wp_mono; [|by apply confirm_wp]. intros [[]|e] w3 H3; cbn in H3; [| |split; [apply H3|left; apply H3]].
  - eapply wp_mono; [|by apply place_wp]. intros [[]|e] w4 H4; [|done]. destruct H4 as [H4 H5]. split_and!; [done|by rewrite H4|done].
  - destruct H3 as [H3 H5]. split_and!; [done|by rewrite H3|by rewrite H3, H5].
Qed.

(** C11: A job ends, and its state tells the truth: once its task is over the job is placed, failed, cancelled or left to an edit; it
    is placed exactly when the placement was committed, also when a cancel arrived meanwhile; and the robot is not changed any
    more after that. *)
Theorem job_outcome w l r w' : (0 < poll)%Z -> running w ->
  steps (does poll) (run map_name init_pose bin_pose finite placement_at timeout confirm_timeout polls) w l (Ret r) w' ->
  r <> Some Stuck /\ active (j_state (m_job (w_mem w'))) = false
  /\ (j_state (m_job (w_mem w')) = PLACED <-> w_placed w' = true)
  /\ Forall (fun t => before_placing _ (projT2 t.1.1) t.1.2 t.2) l.
Proof.
  intros Hp Hw Hs. cut (wpj (run map_name init_pose bin_pose finite placement_at timeout confirm_timeout polls) finished w).
  { intros Hwp. destruct (wp_sound _ _ _ _ _ _ _ _ Hs Hwp) as [HG (H1 & H2 & H3)]. by split_and!. }
  unfold run. apply wp_bind. eapply wp_mono; [|by apply run_body_wp]. intros [[]|e] w1 H1; [done|].
  apply wp_bind. eapply wp_mono; [|apply handle_wp; apply H1]. done.
Qed.
End outcome.

(** ** What a job that failed leaves on the robot *)

(** What is documented of the stored intent and the initial poses *)
Class Intents `{Orchestrator} := {
  put_changes m map t r x r' : answers _ (PutLocalization m map t) r x r' ->
    (intent r' = intent r \/ intent r' = (Some m, map)) /\ forall n, init_pos r' n = init_pos r n;
  put_done m map t r a r' : answers _ (PutLocalization m map t) r (Ok a) r' -> problem_of a = None -> intent r' = (Some m, map);
  (** partial=ok: an error answer means that nothing changed (504: the switch timed out and may still have applied) *)
  put_refused m map t r s d r' : answers _ (PutLocalization m map t) r (Raise (OrchestratorError (HTTP s) d)) r' -> s <> 504%Z -> intent r' = intent r;
  patch_changes n p r x r' : answers _ (PatchMap n p) r x r' -> intent r' = intent r /\ forall n', n' <> n -> init_pos r' n' = init_pos r n';
  patch_done n p r r' : answers _ (PatchMap n p) r (Ok tt) r' -> init_pos r' n = p;
  map_reads n p r r' : answers _ (GetMap n) r (Ok p) r' -> p = init_pos r' n;
  localization_reads r loc r' : answers _ GetLocalization r (Ok loc) r' -> intent r' = (l_mode loc, l_map loc);
  reads_change_nothing X (q : req X) r x r' :
    match q with PutLocalization _ _ _ | PatchMap _ _ | SaveLocalization _ _ _ => False | _ => True end ->
    answers X q r x r' -> intent r' = intent r /\ forall n, init_pos r' n = init_pos r n;
}.

(** The calls of a rollback that go through *)
Definition succeeds {X : Type} (q : req X) : X -> Prop :=
  match q with
  | PutLocalization _ _ _ => fun x => exists a, x = Ok a /\ problem_of a = None
  | PatchMap _ _ => fun x => x = Ok tt
  | _ => fun _ => True
  end.
Definition same_robot `{Orchestrator} (r r' : robot) : Prop := intent r' = intent r /\ forall n, init_pos r' n = init_pos r n.
(** Nobody else changes the robot, and what a rollback asks for is done *)
Definition alone `{Orchestrator} (poll : Z) (X : Type) (e : ev X) (w : World) (x : X) (w' : World) : Prop :=
  does poll X e w x w' /\
  match e in ev Y return Y -> Prop with
  | Ask q => fun x => match x with
                      | Some a => answers _ q (w_robot w) a (w_robot w')
                      | None => same_robot (w_robot w) (w_robot w') \/ exists a, answers _ q (w_robot w) a (w_robot w')
                      end
  | Shielded q => fun x => answers _ q (w_robot w) x (w_robot w') /\ succeeds q x
  | _ => fun _ => same_robot (w_robot w) (w_robot w')
  end x.

Section rollback.
Context `{Orchestrator} {HI : Intents} (map_name : string) (init_pose : option Z) (bin_pose : Z -> Z) (finite : Z -> bool) (placement_at : option string)
  (timeout poll confirm_timeout : Z).
(** The robot as the job found it *)
Context (intent0 : option string * option string) (init0 : string -> option Z).
Notation wpr := (wp (alone poll) (fun _ _ _ _ => True)).

Definition target : option string * option string := let '(m, map) := restore_target (Some intent0) in (Some m, map).
Definition init_as_before (w : World) : Prop :=
  let u := m_undo (w_mem w) in
  if u_init_changed u
  then exists n, u_onboard u = Some n /\ u_init u = init0 n /\ forall n', n' <> n -> init_pos (w_robot w) n' = init0 n'
  else forall n, init_pos (w_robot w) n = init0 n.
(** What the job notes is enough to undo what it did *)
Definition undoable (w : World) : Prop :=
  let u := m_undo (w_mem w) in
  (if u_intent_changed u then u_prev u = Some intent0 /\ (intent (w_robot w) = intent0 \/ intent (w_robot w) ∈ u_intents u)
   else intent (w_robot w) = intent0 \/ intent (w_robot w) = target)
  /\ init_as_before w.
Definition untouched (w : World) : Prop :=
  u_intent_changed (m_undo (w_mem w)) = false /\ intent (w_robot w) = intent0 /\ init_as_before w.
Definition restored (w : World) : Prop :=
  u_intent_changed (m_undo (w_mem w)) = false /\ u_init_changed (m_undo (w_mem w)) = false
  /\ (intent (w_robot w) = intent0 \/ intent (w_robot w) = target) /\ forall n, init_pos (w_robot w) n = init0 n.

Lemma waits_undo w w' : waits w w' -> m_undo (w_mem w') = m_undo (w_mem w).
Proof. intros ([->|(_ & _ & d & ->)] & _); done. Qed.
Lemma restored_undoable w : restored w -> undoable w.
Proof. intros (H1 & H2 & H3 & H4). unfold undoable, init_as_before. by rewrite H1, H2. Qed.
Lemma untouched_undoable w : untouched w -> undoable w.
Proof. intros (H1 & H2 & H3). split; [|done]. rewrite H1. by left. Qed.

(** Facts about the robot and the notes are all that matters: *)
Definition stays (P : World -> Prop) : Prop :=
  forall w w', same_robot (w_robot w) (w_robot w') -> m_undo (w_mem w') = m_undo (w_mem w) -> P w -> P w'.
Lemma undoable_stays : stays undoable.
Proof. intros w w' [Hi Hn] Hu [H1 H2]. unfold undoable, init_as_before in *. rewrite Hu, Hi. split; [done|]. case_match; [|intros; by rewrite Hn].
  destruct H2 as (n & ? & ? & H2). exists n. split_and!; [done..|]. intros. rewrite Hn. by apply H2. Qed.
Lemma untouched_stays : stays untouched.
Proof. intros w w' [Hi Hn] Hu (H1 & H2 & H3). unfold untouched, init_as_before in *. rewrite Hu, Hi. split_and!; [done..|]. case_match; [|intros; by rewrite Hn].
  destruct H3 as (n & ? & ? & H3). exists n. split_and!; [done..|]. intros. rewrite Hn. by apply H3. Qed.

(** The effects that leave both alone *)
Definition reading {X : Type} (e : ev X) : Prop :=
  match e with
  | Ask q => match q with PutLocalization _ _ _ | PatchMap _ _ | SaveLocalization _ _ _ => False | _ => True end
  | Shielded q => match q with PutLocalization _ _ _ | PatchMap _ _ | SaveLocalization _ _ _ => False | _ => True end
  | Change f => forall m, m_undo (f m) = m_undo m
  | _ => True
  end.
Lemma reading_same {X : Type} (e : ev X) w x w' : reading e -> alone poll X e w x w' ->
  same_robot (w_robot w) (w_robot w') /\ m_undo (w_mem w') = m_undo (w_mem w).
Proof.
  intros He [Hd Ha]. destruct e; cbn in He, Hd, Ha; repeat match goal with H : _ /\ _ |- _ => destruct H end; simplify_eq/=;
    try (split; [done|by apply waits_undo]); try done.
  - split; [|by apply waits_undo]. destruct x as [a|]; [by eapply reads_change_nothing|]. destruct Ha as [|[a Ha]]; [done|]. by eapply reads_change_nothing.
  - split; [by eapply reads_change_nothing|by apply waits_undo].
  - split; [done|]. destruct H0 as [->|(_ & _ & d & ->)]; done.
Qed.

(** A program of such effects keeps every fact *)
Definition calm {A : Type} (p : prog ev A) : Prop := forall P w, stays P -> P w -> wpr p (fun _ w' => P w') w.
Lemma calm_ret {A : Type} (a : A) : calm (Ret a).
Proof. by intros P w _ Hw. Qed.
Lemma calm_bind {A B : Type} (p : prog ev A) (k : A -> prog ev B) : calm p -> (forall a, calm (k a)) -> calm (bind p k).
Proof. intros Hp Hk P w HP Hw. apply wp_bind. eapply wp_mono; [|by apply (Hp P)]. intros a w' Hw'. by apply Hk. Qed.
Lemma calm_ebind {X A B : Type} (p : prog ev (result X A)) (k : A -> prog ev (result X B)) : calm p -> (forall a, calm (k a)) -> calm (ebind p k).
Proof. intros Hp Hk. apply calm_bind; [done|]. intros [a|x]; [apply Hk|apply calm_ret]. Qed.
Lemma calm_look {A : Type} (k : Mem -> prog ev A) : (forall m, calm (k m)) -> calm (look k).
Proof. intros Hk P w HP Hw x w' [[-> ->] _]. split; [done|]. by apply Hk. Qed.
Lemma calm_perform {X : Type} (e : ev X) : reading e -> calm (perform e).
Proof. intros He P w HP Hw x w' Hd. split; [done|]. destruct (reading_same _ _ _ _ He Hd). by eapply HP. Qed.
Lemma calm_change f : (forall m, m_undo (f m) = m_undo m) -> calm (change f).
Proof. intros Hf. apply calm_bind; [by apply calm_perform|]. intros. apply calm_ret. Qed.
Lemma calm_await {X : Type} (e : ev (option X)) : reading e -> calm (await e).
Proof. intros He. apply calm_bind; [by apply calm_perform|]. intros [x|]; apply calm_ret. Qed.
Lemma calm_call {X : Type} (q : req (result exn X)) : reading (Ask q) -> calm (call q).
Proof. intros Hq. apply calm_ebind; [by apply calm_await|]. intros [a|[|]]; apply calm_ret. Qed.
Lemma calm_read : calm read.
Proof. apply calm_ebind; [by apply calm_await|]. intros [a|]; apply calm_ret. Qed.
Lemma calm_clock : calm clock.
Proof. apply calm_bind; [by apply calm_perform|]. intros. apply calm_ret. Qed.
Ltac still :=
  repeat match goal with
  | |- forall _, _ => intros
  | |- calm (ebind _ _) => apply calm_ebind
  | |- calm (bind _ _) => apply calm_bind
  | |- calm (look _) => apply calm_look
  | |- calm (done _) => apply calm_ret
  | |- calm (raise _) => apply calm_ret
  | |- calm (Ret _) => apply calm_ret
  | |- calm (await _) => by apply calm_await
  | |- calm (call _) => by apply calm_call
  | |- calm read => apply calm_read
  | |- calm clock => apply calm_clock
  | |- calm (change _) => by apply calm_change
  | |- calm (perform _) => by apply calm_perform
  | |- calm (match _ with _ => _ end) => case_match
  | |- calm _ => assumption
  end.

Lemma recheck_calm : calm (recheck map_name placement_at).
Proof. unfold recheck. still. Qed.
Lemma wait_localized_calm fuel onboard : calm (wait_localized map_name placement_at fuel onboard).
Proof. induction fuel; cbn [wait_localized]; still. Qed.
Lemma wait_decided_calm fuel : calm (wait_decided map_name placement_at fuel).
Proof. induction fuel; cbn [wait_decided]; still. Qed.
Lemma confirm_calm fuel : calm (confirm map_name placement_at confirm_timeout fuel).
Proof. unfold confirm. still. apply wait_decided_calm. Qed.
Lemma place_calm : calm (place map_name placement_at).
Proof. unfold place. still. Qed.

Lemma change_wp f (Q : result Exc unit -> World -> Prop) w :
  Q (Ok tt) {| w_robot := w_robot w; w_mem := f (w_mem w); w_view := w_view w; w_now := w_now w; w_placed := w_placed w |} -> wpr (change f) Q w.
Proof. intros HQ [] w' [-> _]. by split. Qed.

Lemma look_wp' {A : Type} (k : Mem -> prog ev A) Q w : wpr (k (w_mem w)) Q w -> wpr (look k) Q w.
Proof. intros Hk x w' [[-> ->] _]. by split. Qed.

(** The PUTs: each may have applied once it was sent *)
Lemma put_each_wp steps topomap : forall w,
  u_prev (m_undo (w_mem w)) = Some intent0 -> (forall st, st ∈ steps -> (Some st.1, st.2) ∈ u_intents (m_undo (w_mem w))) ->
  undoable w -> (u_intent_changed (m_undo (w_mem w)) = false -> intent (w_robot w) = intent0) ->
  wpr (put_each steps topomap) (fun _ w' => undoable w') w.
Proof.
  induction steps as [|[mode map] steps IH]; intros w Hprev Hsteps Hw Hc; [done|]. cbn [put_each].
  assert (intent (w_robot w) = intent0 \/ intent (w_robot w) ∈ u_intents (m_undo (w_mem w))) as Hint.
  { destruct Hw as [Hw _]. destruct (u_intent_changed _); [apply Hw|left; auto]. }
  intros m w0 [[-> ->] _]. split; [done|]. apply wp_ebind, change_wp. apply wp_ebind, wp_bind.
  intros x w1 [[Hws _] Ha]. split; [done|]. cbn in Ha. pose proof (waits_undo _ _ Hws) as Hu. cbn in Hu.
  assert ((intent (w_robot w1) = intent (w_robot w) \/ intent (w_robot w1) = (Some mode, map)) /\ forall n, init_pos (w_robot w1) n = init_pos (w_robot w) n) as [Hi Hn].
  { destruct x as [a|]; [by eapply put_changes|]. destruct Ha as [[-> ?]|[a Ha]]; [auto|]. by eapply put_changes. }
  assert (intent (w_robot w1) = intent0 \/ intent (w_robot w1) ∈ u_intents (m_undo (w_mem w1))) as Hint1.
  { rewrite Hu. cbn. destruct Hi as [->| ->]; [done|]. right. apply (Hsteps (mode, map)). left. }
  assert (init_as_before w1) as Hin1.
  { destruct Hw as [_ Hw]. unfold init_as_before in *. rewrite Hu. cbn. destruct (u_init_changed (m_undo (w_mem w))); [|intros; rewrite Hn; apply Hw].
    destruct Hw as (n & ? & ? & Hw). exists n. split_and!; [done..|]. intros. rewrite Hn. by apply Hw. }
  assert (u_intent_changed (m_undo (w_mem w1)) = true) as Hch by by rewrite Hu.
  assert (undoable w1) as Hw1 by (split; [rewrite Hch, Hu; cbn; rewrite Hu in Hint1; done|done]).
  destruct x as [[a|[k d|t]]|]; cbn [wp raise done]; try done.
  - destruct (problem_of a); [done|]. case_bool_decide; [done|]. apply IH; [by rewrite Hu| |done|congruence].
    intros st Hst. rewrite Hu. cbn. apply Hsteps. by right.
  - apply wp_ebind. destruct (match k with HTTP 504 => false | HTTP _ => negb (u_intent_changed (m_undo (w_mem w))) | _ => false end) eqn:Hk; [|done].
    apply change_wp. split; cbn; [|done]. left. destruct k as [| | |s]; try done.
    assert (s <> 504%Z /\ u_intent_changed (m_undo (w_mem w)) = false) as [Hs Hf] by (split; [by intros ->|by repeat case_match; destruct (u_intent_changed _)]).
    rewrite (put_refused _ _ _ _ _ _ _ Ha Hs). auto.
Qed.

Lemma start_relocalization_wp onboard w : untouched w -> wpr (start_relocalization init_pose onboard) (fun _ w' => undoable w') w.
Proof.
  intros Hw. unfold start_relocalization. apply wp_ebind, change_wp. unfold call, await. apply wp_ebind, wp_ebind, wp_bind.
  intros x w1 Hd. split; [done|]. destruct (reading_same (Ask GetLocalization) _ _ _ I Hd) as [Hsame Hu].
  assert (untouched w1) as Hw1 by by eapply untouched_stays. destruct x as [[loc|[k d|t]]|]; cbn [wp raise done]; try by apply untouched_undoable.
  destruct Hd as [_ Ha]. cbn in Ha. apply localization_reads in Ha. destruct Hw1 as (Hc1 & Hi1 & Hin1). rewrite Ha in Hi1.
  case_bool_decide; [apply untouched_undoable; split_and!; [done|by rewrite Ha|done]|].
  apply wp_ebind, change_wp. apply wp_ebind. eapply wp_mono; [|apply put_each_wp].
  - intros [[]|e] w2 Hw2; [|done]. case_match; [|done]. apply (calm_ebind (await StartTopomap)); [by apply calm_await|intros; apply calm_ret|apply undoable_stays|done].
  - cbn. by rewrite Hi1.
  - intros st Hst. cbn. apply list_elem_of_fmap. by exists st.
  - split; [|done]. cbn. rewrite Hc1. left. by rewrite Ha.
  - intros _. cbn. by rewrite Ha.
Qed.

Lemma prepare_wp' w : untouched w -> u_init_changed (m_undo (w_mem w)) = false ->
  wpr (prepare map_name init_pose bin_pose finite placement_at timeout) (fun _ w' => undoable w') w.
Proof.
  intros Hw Hi0.
  set (P := fun w => untouched w /\ u_init_changed (m_undo (w_mem w)) = false).
  assert (stays P) as HP by (intros v v' H1 H2 [H3 H4]; split; [by eapply untouched_stays|by rewrite H2]).
  assert (P w) as HPw by done. clear Hw Hi0.
  assert (forall v, P v -> undoable v) as HPu by (intros v [? _]; by apply untouched_undoable).
  assert (forall A (p : prog ev (result Exc A)) k w, calm p -> P w -> (forall a w, P w -> wpr (k a) (fun _ w' => undoable w') w) ->
    wpr (ebind p k) (fun (_ : result Exc string) w' => undoable w') w) as Hseq.
  { intros A p k v Hp Hv Hk. apply wp_ebind. eapply wp_mono; [|by apply (Hp P)]. intros [a|x] v' Hv'; [by apply Hk|by apply HPu]. }
  unfold prepare. apply Hseq; [by apply calm_change|done|]. intros _ w1 H1. apply Hseq; [apply recheck_calm|done|]. intros _ w2 H2.
  apply Hseq; [by apply calm_call|done|]. intros rows w3 H3. set (onboard := onboard_of map_name rows).
  apply wp_ebind, change_wp. apply wp_ebind. unfold call, await. apply wp_ebind, wp_bind. intros x w4 Hd. split; [done|].
  destruct (reading_same (Ask (GetMap onboard)) _ _ _ I Hd) as [[Hsi Hsn] Hu]. cbn in Hu, Hsi, Hsn.
  assert (P w4) as H4.
  { destruct H3 as [(Hc & Hi & Hin) Hic]. unfold P, untouched, init_as_before in *. rewrite Hu, Hsi. cbn. rewrite Hic in *.
    split_and!; [done..| |done]. intros n. by rewrite Hsn. }
  destruct x as [[info|[k d|t]]|]; cbn [wp raise done]; try by apply HPu. destruct Hd as [_ Ha]. cbn in Ha. apply map_reads in Ha.
  apply wp_ebind, change_wp, wp_ebind, change_wp.
  destruct (match init_pose with Some p => negb (finite (bin_pose p)) | None => false end);
    [apply HPu; destruct H4 as [(? & ? & Hx) Hy]; unfold P, untouched, init_as_before in *; cbn; rewrite Hy in *; by split_and!|].
  apply wp_ebind, change_wp. apply wp_ebind, wp_ebind, wp_bind. destruct H4 as [(Hc4 & Hi4 & Hin4) Hic4]. unfold init_as_before in Hin4. rewrite Hic4 in Hin4.
  intros x w5 [[Hws _] Hp]. split; [done|]. pose proof (waits_undo _ _ Hws) as Hu5. cbn in Hp, Hu5.
  assert (intent (w_robot w5) = intent (w_robot w4) /\ forall n', n' <> onboard -> init_pos (w_robot w5) n' = init_pos (w_robot w4) n') as [Hi5 Hn5].
  { destruct x as [a|]; [by eapply patch_changes|]. destruct Hp as [[-> Hp]|[a Hp]]; [by split; [|intros; apply Hp]|]. by eapply patch_changes. }
  assert (untouched w5) as H5.
  { unfold untouched, init_as_before. rewrite Hu5, Hi5. cbn. split_and!; [done..|]. exists onboard. rewrite Hu. cbn. split_and!; [done| |].
    - by rewrite Ha, Hin4.
    - intros n' Hne. rewrite Hn5 by done. apply Hin4. }
  destruct x as [[[]|[k d|t]]|]; cbn [wp raise done]; try by apply untouched_undoable.
  apply wp_ebind. eapply wp_mono; [|by apply start_relocalization_wp]. intros [[]|e] w6 H6; [|done].
  apply wp_ebind. eapply wp_mono; [|apply (calm_ebind clock); [apply calm_clock| |apply undoable_stays|done]].
  - by intros [[]|e] w7 H7.
  - intros t. apply calm_ebind; [by apply calm_change|]. intros _. by apply calm_change.
Qed.

(** The previous intent is put back unless somebody else has changed it, and then it is already there *)
Lemma restore_wp w : u_prev (m_undo (w_mem w)) = Some intent0 -> intent (w_robot w) = intent0 \/ intent (w_robot w) ∈ u_intents (m_undo (w_mem w)) ->
  wpr restore (fun _ w' => m_undo (w_mem w') = m_undo (w_mem w) /\ (intent (w_robot w') = intent0 \/ intent (w_robot w') = target)
               /\ forall n, init_pos (w_robot w') n = init_pos (w_robot w) n) w.
Proof.
  intros Hprev Hint. unfold restore. apply look_wp'.
  set (Q := fun w' => m_undo (w_mem w') = m_undo (w_mem w) /\ (intent (w_robot w') = intent0 \/ intent (w_robot w') = target)
               /\ forall n, init_pos (w_robot w') n = init_pos (w_robot w) n).
  assert (stays Q) as HQ by (intros v v' [H1 H2] H3 (H4 & H5 & H6); unfold Q; rewrite H3, H1; split_and!; [done..|]; intros; by rewrite H2).
  apply wp_bind. intros x w1 Hd. split; [done|]. destruct (reading_same (Shielded GetLocalization) _ _ _ I Hd) as [[Hs1 Hn1] Hu1]. clear Hd.
  cbn [wp]. apply wp_bind. apply wp_mono with (Q := fun _ => Q).
  { intros [b|e] w2 Hw2; [|exact Hw2]. cbn [wp]. destruct (match x with Ok l => _ | Raise _ => false end); [|exact Hw2]. by apply (calm_perform ShieldedTopomap I Q). }
  unfold restore_intent. rewrite Hprev. destruct (restore_target (Some intent0)) as [mode map] eqn:Ht.
  assert (forall v t, intent (w_robot v) = intent (w_robot w) -> (forall n, init_pos (w_robot v) n = init_pos (w_robot w) n) -> m_undo (w_mem v) = m_undo (w_mem w) ->
    wpr (let+ answer := perform (Shielded (PutLocalization mode map t)) in match problem_of answer with Some p => raise (OtherError p) | None => done true end)
      (fun _ => Q) v) as Hput.
  { intros v t H1 H2 H3. apply wp_ebind. intros y v1 [[Hws _] [Ha (a & -> & Hp)]]. split; [done|]. cbn. rewrite Hp. cbn.
    unfold Q. rewrite (waits_undo _ _ Hws). split_and!; [done| |].
    - right. unfold target. rewrite Ht. by eapply put_done.
    - intros n. rewrite <-H2. by eapply put_changes. }
  apply wp_bind. intros y w2 Hd. split; [done|]. destruct (reading_same (Shielded GetLocalization) _ _ _ I Hd) as [[Hs2 Hn2] Hu2].
  assert (intent (w_robot w2) = intent (w_robot w)) as Hi2 by congruence. assert (forall n, init_pos (w_robot w2) n = init_pos (w_robot w) n) as Hn by (intros; by rewrite Hn2, Hn1).
  assert (m_undo (w_mem w2) = m_undo (w_mem w)) as Hu by congruence.
  destruct y as [loc|e]; [|by apply Hput]. destruct Hd as [_ [Ha _]]. apply localization_reads in Ha. cbn [wp].
  case_bool_decide as Hin; [by apply Hput|]. rewrite <-Ha, Hi2 in Hin. cbn. split_and!; [done|left; by destruct Hint as [?|?]; [congruence|]|done].
Qed.

Lemma rollback_wp w : undoable w -> wpr rollback (fun _ w' => restored w') w.
Proof.
  intros [Hw1 Hw2]. unfold rollback. apply wp_bind.
  apply wp_mono with (Q := fun _ v => u_intent_changed (m_undo (w_mem v)) = false /\ (intent (w_robot v) = intent0 \/ intent (w_robot v) = target) /\ init_as_before v).
  - intros p1 v (H1 & H2 & H3). apply wp_bind, look_wp'. unfold init_as_before in H3.
    destruct (u_init_changed (m_undo (w_mem v))) eqn:Hc; [|done]. destruct H3 as (n & Hn & Hi & Hr). rewrite Hn. apply wp_bind.
    intros [] v1 [-> _]. split; [done|]. apply wp_bind. intros x v2 [[Hws _] [Ha Hx]]. split; [done|]. cbn in Hx. subst x. cbn.
    pose proof (waits_undo _ _ Hws) as Hu. cbn in Hu, Ha. destruct (patch_changes _ _ _ _ _ Ha) as [Hp1 Hp2]. cbn in Hp1, Hp2.
    unfold restored. rewrite Hu, Hp1. cbn. split_and!; [done..|]. intros n'. destruct (decide (n' = n)) as [->|Hne].
    + rewrite (patch_done _ _ _ _ Ha). done.
    + rewrite Hp2 by done. by apply Hr.
  - apply look_wp'. destruct (u_intent_changed (m_undo (w_mem w))) eqn:Hc; [|done].
    destruct Hw1 as [Hp Hi]. apply wp_bind. intros [] v1 [-> _]. split; [done|]. cbn [wp]. eapply wp_mono; [|by apply restore_wp].
    intros b v2 (Hu & H2 & H3). cbn in Hu, H3. unfold init_as_before in *. rewrite Hu. cbn. split_and!; [done..|].
    destruct (u_init_changed (m_undo (w_mem w))); [|intros; by rewrite H3]. destruct Hw2 as (n & ? & ? & Hr). exists n. split_and!; [done..|].
    intros. rewrite H3. by apply Hr.
Qed.
Lemma rollback_locked_wp w : undoable w -> wpr rollback_locked (fun _ w' => restored w') w.
Proof.
  intros Hw. unfold rollback_locked. apply look_wp'. destruct (_ || _) eqn:Hc.
  - apply wp_bind. eapply wp_mono; [|apply (calm_perform RobotLock I undoable w undoable_stays Hw)]. intros a w1 Hw1. by apply rollback_wp.
  - apply orb_false_iff in Hc as [H1 H2]. destruct Hw as [Hw3 Hw4]. unfold init_as_before in Hw4. rewrite H1 in Hw4. rewrite H2 in Hw3. by split_and!.
Qed.

Lemma prepare_locked_wp' w : untouched w -> u_init_changed (m_undo (w_mem w)) = false ->
  wpr (prepare_locked map_name init_pose bin_pose finite placement_at timeout) (fun _ w' => undoable w') w.
Proof.
  intros Hw Hi. unfold prepare_locked, await. apply wp_ebind, wp_bind. intros x w1 Hd. split; [done|].
  destruct (reading_same Locks _ _ _ I Hd) as [Hs Hu]. assert (untouched w1) as Hw1 by by eapply untouched_stays.
  destruct x as [[]|]; cbn [wp raise done]; try by apply untouched_undoable.
  apply wp_catch. eapply wp_mono; [|apply prepare_wp'; [done|by rewrite Hu]]. intros [a|e] w2 Hw2; [done|].
  assert (wpr (let* b := rollback in (perform (Change (with_error b)) ;;; @raise _ _ string e)) (fun _ w' => undoable w') w2) as Hrb.
  { apply wp_bind. eapply wp_mono; [|by apply rollback_wp]. intros b w3 Hw3. apply wp_bind. apply restored_undoable in Hw3.
    eapply wp_mono; [|apply (calm_perform (Change (with_error b)) (fun m => eq_refl) undoable w3 undoable_stays Hw3)]. done. }
  destruct e as [|[]| |]; done.
Qed.

(** C17: A job that ends with a failure that asks for the rollback ([Fail true], every failed step but the timeout of the
    localization and the refusal because of a pending SLAM save) or that is cancelled before it placed the session puts the
    robot back: where nobody else uses the robot and the calls of the rollback go through, the robot's localization is the one
    the job found (odometry where none was stored) and every stored map has the initial pose it had, wherever the job was cut
    short, also by a request that timed out and may have applied. Nothing is put back, and nothing is claimed, after the
    timeout ([timed_out_run]) and after an unexpected exception ([unexpected_failure_not_rolled_back]). *)
Theorem job_restores_robot fuel w l e w' :
  m_undo (w_mem w) = new_undo -> intent (w_robot w) = intent0 -> (forall n, init_pos (w_robot w) n = init0 n) ->
  steps (alone poll) (run map_name init_pose bin_pose finite placement_at timeout confirm_timeout fuel) w l (Ret (Some e)) w' ->
  e = Fail true \/ e = Cancelled /\ j_state (m_job (w_mem w')) <> PLACED ->
  (intent (w_robot w') = intent0 \/ intent (w_robot w') = target) /\ forall n, init_pos (w_robot w') n = init0 n.
Proof.
  intros Hu Hi Hn Hs. assert (untouched w) as Hw by (unfold untouched, init_as_before; by rewrite Hu).
  refine (wp_result (alone poll) (fun _ _ _ _ => True) _ (fun r w' => match r with Some e => (e = Fail true \/ e = Cancelled /\ j_state (m_job (w_mem w')) <> PLACED) ->
    (intent (w_robot w') = intent0 \/ intent (w_robot w') = target) /\ forall n, init_pos (w_robot w') n = init0 n | None => True end) _ _ _ _ Hs _).
  unfold run. apply wp_bind. apply wp_mono with (Q := fun _ w' => undoable w').
  - intros [[]|x] w1 Hw1; [done|]. apply wp_bind.
    assert (forall f, (forall m, m_undo (f m) = m_undo m) -> forall v, restored v -> wpr (perform (Change f)) (fun _ => restored) v) as Hch.
    { intros f Hf v (H1 & H2 & H3) [] v1 [-> _]. split; [done|]. unfold restored. cbn. by rewrite Hf. }
    destruct x as [|rb| |]; cbn [handle].
    + apply look_wp'. case_bool_decide; [by intros [?|[_ ?]]|]. apply wp_bind. eapply wp_mono; [|by apply rollback_locked_wp].
      intros b w3 Hw3. apply wp_bind. eapply wp_mono; [|by apply Hch]. intros ? w4 Hw4. eapply wp_mono; [|by apply Hch]. intros ? w5 (_ & _ & H3 & H4) _. done.
    + apply wp_bind. destruct rb.
      * apply wp_bind. eapply wp_mono; [|by apply rollback_locked_wp]. intros b w3 Hw3. eapply wp_mono; [|by apply Hch]. intros ? w4 Hw4. apply wp_bind.
        eapply wp_mono; [|by apply Hch]. intros ? w5 Hw5. eapply wp_mono; [|by apply Hch]. intros ? w6 (_ & _ & H3 & H4) _. done.
      * intros [] w2 [-> _]. split; [done|]. intros [] w3 [-> _]. split; [done|]. by intros [?|[? _]].
    + intros [] w2 [-> _]. split; [done|]. intros [] w3 [-> _]. split; [done|]. by intros [?|[? _]].
    + intros [] w2 [-> _]. split; [done|]. intros [] w3 [-> _]. split; [done|]. by intros [?|[? _]].
  - unfold run_body. apply wp_ebind. eapply wp_mono; [|apply prepare_locked_wp'; [done|by rewrite Hu]]. intros [onboard|x] w1 Hw1; [|done].
    apply (calm_ebind (wait_localized map_name placement_at fuel onboard)); [apply wait_localized_calm| |apply undoable_stays|done].
    intros _. apply calm_ebind; [apply confirm_calm|]. intros []; [apply place_calm|apply calm_ret].
Qed.
End rollback.

(** ** A robot, a job *)

Module Example_job.
Import Toy.

#[export] Instance toy_intents : Intents.
Proof.
  split; cbn.
  - intros m map t0 [r Hr] x [r' Hr'] Ha. answered; auto.
  - intros m map t0 [r Hr] a [r' Hr'] Ha Hp. by answered.
  - intros m map t0 [r Hr] s d [r' Hr'] Ha Hs. by answered.
  - intros n p [r Hr] x [r' Hr'] Ha. answered; [done|]. split; [done|]. intros n' Hn. by rewrite bool_decide_false.
  - intros n p [r Hr] [r' Hr'] Ha. answered. by rewrite bool_decide_true.
  - intros n p [r Hr] [r' Hr'] Ha. by answered.
  - intros [r Hr] loc' [r' Hr'] Ha. answered. by destruct (t_intent r).
  - intros X q [r Hr] x [r' Hr'] Hq Ha. destruct q; answered; done.
Qed.

(** A robot that does everything it is asked *)
Program Definition put_robot (m : string) (map : option string) (r : robot) : robot := put m map (`r).
Next Obligation. intros m map [r Hr]. cbn. case_bool_decide; [intros; rewrite Hr in *; congruence|]. by case_bool_decide; intros; simplify_eq. Qed.
Program Definition patch_robot (n : string) (p : option Z) (r : robot) : robot := patch n p (`r).
Next Obligation. intros n p [r Hr]. done. Qed.
Definition obeys (X : Type) (q : req X) : robot -> X * robot :=
  match q with
  | ListServices => fun r => (Ok [], r)
  | StartService _ | StopService _ => fun r => (Ok tt, r)
  | ListMaps _ => fun r => (Ok [], r)
  | GetMap n => fun r => (Ok (init_pos r n), r)
  | PatchMap n p => fun r => (Ok tt, patch_robot n p r)
  | GetLocalization => fun r => (Ok (loc (`r)), r)
  | PutLocalization m map _ => fun r => (Ok {| a_problem := None; a_applied := Some true; a_topomap := None; a_message := None |}, put_robot m map r)
  | SaveLocalization _ _ _ => fun r => (Raise (OtherError ""), r)
  | GetSave => fun r => (Raise (OtherError ""), r)
  end.
Lemma obeys_answers X (q : req X) r : answers X q r (obeys X q r).1 (obeys X q r).2.
Proof. destruct q, r as [r Hr]; cbn; unfold fails; eauto 6. Qed.

(** The database fails once the clock has reached [broken]; [cancel]: the job is cancelled while it waits *)
Definition tick (poll : Z) (w : World) : World :=
  {| w_robot := w_robot w; w_mem := w_mem w; w_view := w_view w; w_now := (w_now w + Z.max 0 poll)%Z; w_placed := w_placed w |}.
Definition env (poll broken : Z) (cancel : bool) (X : Type) (e : ev X) : World -> X * World :=
  match e with
  | Ask q => fun w => let '(x, r) := obeys _ q (w_robot w) in
      (Some x, {| w_robot := r; w_mem := w_mem w; w_view := w_view w; w_now := w_now w; w_placed := w_placed w |})
  | Shielded q => fun w => let '(x, r) := obeys _ q (w_robot w) in
      (x, {| w_robot := r; w_mem := w_mem w; w_view := w_view w; w_now := w_now w; w_placed := w_placed w |})
  | Look => fun w => (w_mem w, w)
  | Change f => fun w => (tt, {| w_robot := w_robot w; w_mem := f (w_mem w); w_view := w_view w; w_now := w_now w; w_placed := w_placed w |})
  | Locks => fun w => (Some false, w)
  | RobotLock => fun w => (tt, w)
  | SlamState => fun w => (false, w)
  | Read => fun w => (Some (if (broken <=? w_now w)%Z then Raise "the database is gone" else Ok (w_view w)), w)
  | Clock => fun w => (w_now w, w)
  | Sleep => fun w => (if cancel then None else Some tt, tick poll w)
  | Pause => fun w => (Some tt, tick poll w)
  | StartTopomap => fun w => (Some false, w)
  | ShieldedTopomap => fun w => (false, w)
  | Transact f => fun w => ((Some (bool_decide (is_Some (f (w_view w)))), false),
      {| w_robot := w_robot w; w_mem := w_mem w; w_view := w_view w; w_now := w_now w; w_placed := w_placed w || bool_decide (is_Some (f (w_view w))) |})
  | Notify => fun w => (Some tt, w)
  end.
Lemma env_does poll broken cancel X (e : ev X) w : does poll X e w (env poll broken cancel X e w).1 (env poll broken cancel X e w).2.
Proof.
  assert (waits w w) as Hw by (split_and!; [by left|lia|done]).
  assert (waits w (tick poll w)) as Ht by (split_and!; [by left|cbn; lia|done]).
  destruct e; cbn; try done.
  - destruct (obeys X q (w_robot w)) as [x r] eqn:E. cbn. split; [done|]. exists (w_robot w). pose proof (obeys_answers _ q (w_robot w)) as Ha. by rewrite E in Ha.
  - destruct (obeys X q (w_robot w)) as [x r] eqn:E. cbn. split; [done|]. exists (w_robot w). pose proof (obeys_answers _ q (w_robot w)) as Ha. by rewrite E in Ha.
  - split; [done|]. by destruct (broken <=? w_now w)%Z.
  - split; [done|]. intros _. cbn. lia.
  - split; [done|]. intros _. right. cbn. lia.
  - split_and!; [by left|lia|]. by exists (w_view w).
Qed.
Lemma env_alone poll broken cancel X (e : ev X) w : alone poll X e w (env poll broken cancel X e w).1 (env poll broken cancel X e w).2.
Proof.
  split; [apply env_does|]. destruct e; cbn; try done.
  - pose proof (obeys_answers _ q (w_robot w)). by destruct (obeys X q (w_robot w)).
  - pose proof (obeys_answers _ q (w_robot w)) as Ha. destruct (obeys X q (w_robot w)) as [x r] eqn:E. cbn in *. split; [done|].
    destruct q; cbn in *; simplify_eq; eauto.
Qed.

Lemma on_attic : false = true -> (Some "relocalization", Some "cloud-attic").1 = Some "slam".
Proof. done. Qed.
Definition the_robot : robot :=
  exist _ {| t_intent := (Some "relocalization", Some "cloud-attic"); t_init := fun n => if bool_decide (n = "cloud-hall") then Some 7%Z else None;
             t_recording := false; t_stored := 0; t_taken := None |} on_attic.
Definition the_view (localized : bool) : View :=
  {| v_robot := Some {| rv_online := true; rv_initialized := Some localized; rv_map_id := Some "cloud-hall"; rv_pose := 5 |};
     v_session := Some {| sv_map := "hall"; sv_ended := false; sv_placed := None |}; v_local := Some true; v_alive := true; v_slam := false |}.
Definition new_job : Mem :=
  {| m_job := {| j_state := PREPARING; j_error := false; j_decision := None; j_auto := false; j_deadline := 90; j_confirm_deadline := 0 |}; m_undo := new_undo |}.
Definition start (localized : bool) : World :=
  {| w_robot := the_robot; w_mem := new_job; w_view := the_view localized; w_now := 0; w_placed := false |}.
Definition the_run (localized : bool) (broken : Z) (cancel : bool) : option Exc * World :=
  exec (env 1 broken cancel) (run "hall" (Some 3%Z) (fun p => p) (fun _ => true) None 90 30 (polls 90 1 30)) (start localized).
Definition shown (w : World) : JState * Intent * option Z := (j_state (m_job (w_mem w)), intent (w_robot w), init_pos (w_robot w) "cloud-hall").

(** A robot that localizes is placed; one that is cancelled while it searches gets its localization back; one that does not localize in
    time keeps searching. *)
Example placed_run : (the_run true 1000 false).1 = None /\ shown (the_run true 1000 false).2 = (PLACED, (Some "relocalization", Some "cloud-hall"), Some 3%Z).
Proof. by vm_compute. Qed.
Example cancelled_run : (the_run false 1000 true).1 = Some Cancelled /\ shown (the_run false 1000 true).2 = (CANCELLED, (Some "relocalization", Some "cloud-attic"), Some 7%Z).
Proof. by vm_compute. Qed.
Example timed_out_run : (the_run false 1000 false).1 = Some (Fail false) /\ shown (the_run false 1000 false).2 = (FAILED, (Some "relocalization", Some "cloud-hall"), Some 3%Z).
Proof. by vm_compute. Qed.

(** A failure that the job does not expect, here a database that cannot be read while the job waits, is not rolled back: the robot
    is left relocalizing with the initial pose of the job. *)
Example unexpected_failure_not_rolled_back :
  (the_run false 10 false).1 = Some Unexpected /\ shown (the_run false 10 false).2 = (FAILED, (Some "relocalization", Some "cloud-hall"), Some 3%Z).
Proof. by vm_compute. Qed.

Lemma shown_state w st i p : shown w = (st, i, p) -> j_state (m_job (w_mem w)) = st.
Proof. by intros [= ]. Qed.
Lemma the_run_does localized broken cancel : exists l,
  steps (does 1) (run "hall" (Some 3%Z) (fun p => p) (fun _ => true) None 90 30 (polls 90 1 30)) (start localized) l
    (Ret (the_run localized broken cancel).1) (the_run localized broken cancel).2.
Proof. apply (exec_steps (does 1) (env 1 broken cancel)). apply env_does. Qed.
Lemma the_run_alone localized broken cancel : exists l,
  steps (alone 1) (run "hall" (Some 3%Z) (fun p => p) (fun _ => true) None 90 30 (polls 90 1 30)) (start localized) l
    (Ret (the_run localized broken cancel).1) (the_run localized broken cancel).2.
Proof. apply (exec_steps (alone 1) (env 1 broken cancel)). apply env_alone. Qed.

Lemma job_outcome_witness : exists w, shown w = (PLACED, (Some "relocalization", Some "cloud-hall"), Some 3%Z) /\ w_placed w = true.
Proof.
  destruct (the_run_does true 1000 false) as [l Hl]. pose proof placed_run as [_ Hp].
  revert Hl Hp. generalize (the_run true 1000 false). intros [r w] Hl Hp. exists w. split; [exact Hp|].
  destruct (job_outcome "hall" (Some 3%Z) (fun p => p) (fun _ => true) None 90 1 30 (start true) l r w eq_refl (conj eq_refl eq_refl) Hl) as (_ & _ & H2 & _).
  apply H2. exact (shown_state _ _ _ _ Hp).
Defined.

Lemma job_restores_robot_witness : exists w, j_state (m_job (w_mem w)) = CANCELLED
  /\ intent (w_robot w) = (Some "relocalization", Some "cloud-attic") /\ init_pos (w_robot w) "cloud-hall" = Some 7%Z.
Proof.
  destruct (the_run_alone false 1000 true) as [l Hl]. pose proof cancelled_run as [Hr Hp].
  revert Hl Hr Hp. generalize (the_run false 1000 true). intros [r w] Hl Hr Hp. cbn [fst snd] in *. subst r. apply shown_state in Hp. exists w. split; [exact Hp|].
  destruct (job_restores_robot "hall" (Some 3%Z) (fun p => p) (fun _ => true) None 90 1 30 (Some "relocalization", Some "cloud-attic") (init_pos the_robot)
    (polls 90 1 30) (start false) l Cancelled w eq_refl eq_refl (fun n => eq_refl) Hl) as [Hi Hn].
  - right. split; [done|]. by rewrite Hp.
  - split; [by destruct Hi|apply Hn].
Defined.
End Example_job.
