(* ===== verification/Deploy.v ===== *)
(** * Deploying an image to a robot

    packages/api/navstack_deploy.py: the request that creates a deployment, the job that drives its row through the
    steps, and the cancel; [parse_sw_version] and [sw_version_matches] of navstack_images.py. The state of a deployment is
    its row in the database, which requests, jobs and cancels of several API processes change side by side; each of them
    is a program over its own copy of the row and the shared one. One deployment is modelled: other deployments of the
    robot show in the answers of [Insert] and [ActiveFor] only. Texts, times and who asked are left out. *)

From Stdlib Require Import Ascii.
From S2P Require Import Prelude Coroutine Orchestrator.
Local Open Scope string_scope.
Local Open Scope fleet_scope.
Local Open Scope list_scope.

(** ** Data *)

Inductive State := QUEUED | PREFLIGHT | PULL | SWITCH | VERIFY | DONE | FAILED | FAILED_VERIFY | CANCELLED.
#[export] Instance State_eq_dec : EqDecision State.
Proof. solve_decision. Defined.
Definition ACTIVE (st : State) : bool := match st with QUEUED | PREFLIGHT | PULL | SWITCH | VERIFY => true | _ => false end.
Definition FINAL (st : State) : bool := match st with DONE | FAILED | FAILED_VERIFY | CANCELLED => true | _ => false end.
Definition CANCELLABLE (st : State) : bool := match st with QUEUED | PREFLIGHT | PULL => true | _ => false end.
Definition only (st st' : State) : bool := bool_decide (st' = st).

Inductive DKind := KIND_DEPLOY | KIND_ROLLBACK | KIND_PULL.
#[export] Instance DKind_eq_dec : EqDecision DKind.
Proof. solve_decision. Defined.
Inductive Mode := MODE_IMAGE | MODE_DEV.
#[export] Instance Mode_eq_dec : EqDecision Mode.
Proof. solve_decision. Defined.

Inductive StepState := STEP_PENDING | STEP_RUNNING | STEP_DONE | STEP_FAILED | STEP_SKIPPED.
#[export] Instance StepState_eq_dec : EqDecision StepState.
Proof. solve_decision. Defined.
Record Step := { s_name : string; s_state : StepState; s_op : option string }.

(** A row of navstack_deployments; [d_error], [d_started], [d_finished]: that the column is set *)
Record Dep := { d_kind : DKind; d_mode : Mode; d_tag : option string; d_sha : option string; d_state : State; d_steps : list Step;
                d_error : bool; d_started : bool; d_finished : bool }.
Definition set_state (st : State) (d : Dep) : Dep :=
  {| d_kind := d_kind d; d_mode := d_mode d; d_tag := d_tag d; d_sha := d_sha d; d_state := st; d_steps := d_steps d;
     d_error := d_error d; d_started := d_started d; d_finished := d_finished d |}.
Definition set_steps (l : list Step) (d : Dep) : Dep :=
  {| d_kind := d_kind d; d_mode := d_mode d; d_tag := d_tag d; d_sha := d_sha d; d_state := d_state d; d_steps := l;
     d_error := d_error d; d_started := d_started d; d_finished := d_finished d |}.
Definition set_target (m : Mode) (t : option string) (d : Dep) : Dep :=
  {| d_kind := d_kind d; d_mode := m; d_tag := t; d_sha := d_sha d; d_state := d_state d; d_steps := d_steps d;
     d_error := d_error d; d_started := d_started d; d_finished := d_finished d |}.
Definition set_tag (t : option string) (d : Dep) : Dep := set_target (d_mode d) t d.
Definition set_sha (s : option string) (d : Dep) : Dep :=
  {| d_kind := d_kind d; d_mode := d_mode d; d_tag := d_tag d; d_sha := s; d_state := d_state d; d_steps := d_steps d;
     d_error := d_error d; d_started := d_started d; d_finished := d_finished d |}.
Definition set_started (d : Dep) : Dep :=
  {| d_kind := d_kind d; d_mode := d_mode d; d_tag := d_tag d; d_sha := d_sha d; d_state := d_state d; d_steps := d_steps d;
     d_error := d_error d; d_started := true; d_finished := d_finished d |}.
Definition set_finished (error : bool) (d : Dep) : Dep :=
  {| d_kind := d_kind d; d_mode := d_mode d; d_tag := d_tag d; d_sha := d_sha d; d_state := d_state d; d_steps := d_steps d;
     d_error := error || d_error d; d_started := d_started d; d_finished := true |}.

(** [_planned_steps] *)
Definition planned_steps (kind : DKind) : list Step :=
  map (fun n => {| s_name := n; s_state := STEP_PENDING; s_op := None |})
    (if bool_decide (kind = KIND_PULL) then ["preflight"; "pull"] else ["preflight"; "pull"; "switch"; "verify"]).

(** [_step]: the step of a name, or a new one *)
Definition step_of (name : string) (l : list Step) : Step :=
  default {| s_name := name; s_state := STEP_PENDING; s_op := None |} (find_first (fun s => bool_decide (s_name s = name)) l).
(** The change of a step in [_set_step] *)
Definition change_step (st : StepState) (op : option string) (s : Step) : Step :=
  {| s_name := s_name s; s_state := st; s_op := match op with Some _ => op | None => s_op s end |}.
Fixpoint edit_steps (name : string) (st : StepState) (op : option string) (l : list Step) : list Step :=
  match l with
  | [] => [change_step st op {| s_name := name; s_state := STEP_PENDING; s_op := None |}]
  | s :: l => if bool_decide (s_name s = name) then change_step st op s :: l else s :: edit_steps name st op l
  end.
Definition edit_step (name : string) (st : StepState) (op : option string) (d : Dep) : Dep := set_steps (edit_steps name st op (d_steps d)) d.

(** [_finish_steps], and what [_finish] adds for the step that failed *)
Definition finish_steps (cancelled : bool) (l : list Step) : list Step :=
  map (fun s => match s_state s with
                | STEP_RUNNING => change_step (if cancelled then STEP_SKIPPED else STEP_FAILED) None s
                | STEP_PENDING => change_step STEP_SKIPPED None s
                | _ => s
                end) l.
Definition fail_step (step : option string) (l : list Step) : list Step :=
  map (fun s => if bool_decide (Some (s_name s) = step) && match s_state s with STEP_PENDING | STEP_SKIPPED | STEP_RUNNING => true | _ => false end
                then change_step STEP_FAILED None s else s) l.

(** ** The build a robot reports (navstack_images.py); its commit is left out *)

Definition is_space (c : Ascii.ascii) : bool := let n := Ascii.N_of_ascii c in bool_decide (n ∈ [9; 10; 11; 12; 13; 28; 29; 30; 31; 32]%N).
Fixpoint lstrip (s : string) : string := match s with "" => "" | String c s' => if is_space c then lstrip s' else s end.
Fixpoint rstrip (s : string) : string :=
  match s with
  | "" => ""
  | String c s => match rstrip s with "" => if is_space c then "" else String c "" | r => String c r end
  end.
Definition strip (s : string) : string := rstrip (lstrip s).
(** [text.rpartition(":")] *)
Fixpoint rpartition (s : string) : option (string * string) :=
  match s with
  | "" => None
  | String c s =>
      match rpartition s with
      | Some (a, b) => Some (String c a, b)
      | None => if bool_decide (c = ":"%char) then Some ("", s) else None
      end
  end.
Fixpoint has_char (c : Ascii.ascii) (s : string) : bool := match s with "" => false | String d s => bool_decide (d = c) || has_char c s end.
Fixpoint ends_with (t s : string) : bool := bool_decide (s = t) || match s with "" => false | String _ s => ends_with t s end.

(** ** Requests (the validators of [DeployRequest]) *)

Definition tag_start (c : Ascii.ascii) : bool :=
  let n := Ascii.N_of_ascii c in (48 <=? n)%N && (n <=? 57)%N || (65 <=? n)%N && (n <=? 90)%N || (97 <=? n)%N && (n <=? 122)%N || bool_decide (n = 95%N).
Definition tag_char (c : Ascii.ascii) : bool := tag_start c || bool_decide (c = "."%char) || bool_decide (c = "-"%char).
Fixpoint all_chars (p : Ascii.ascii -> bool) (s : string) : bool := match s with "" => true | String c s => p c && all_chars p s end.
Definition valid_tag (s : string) : bool := match s with "" => false | String c r => tag_start c && all_chars tag_char r && (String.length r <=? 127)%nat end.
(** The request as it is used, or a validation error *)
Definition deploy_request (mode : string) (tag : option string) (pull_only : bool) : option (Mode * option string * bool) :=
  let tag := strip <$> tag in
  match (if bool_decide (mode = "image") then Some MODE_IMAGE else if bool_decide (mode = "dev") then Some MODE_DEV else None), tag with
  | None, _ => None
  | Some m, Some t =>
      if negb (valid_tag t) then None else match m with MODE_IMAGE => Some (m, Some t, pull_only) | MODE_DEV => None end
  | Some MODE_IMAGE, None => None
  | Some MODE_DEV, None => if pull_only then None else Some (MODE_DEV, None, false)
  end.

(** A request that is accepted has a target: a tag of at most 128 characters, or the dev mode, which nothing is pulled for. *)
Theorem accepted_request_has_target mode tag pull_only m t p : deploy_request mode tag pull_only = Some (m, t, p) ->
  match m with MODE_IMAGE => exists s, t = Some s /\ s <> "" /\ String.length s <= 128 | MODE_DEV => t = None /\ p = false end.
Proof.
  unfold deploy_request. intros H. repeat case_match; simplify_eq/=; try done. eexists. split; [done|].
  match goal with H : negb (valid_tag ?s) = false |- _ => apply negb_false_iff in H; destruct s; [done|]; cbn in H; apply andb_true_iff in H as [_ H%Nat.leb_le] end.
  split; [done|]. cbn. lia.
Qed.

Section jobs.
(** [config.NAVSTACK_IMAGE] and the settings of [NavstackDeployments] *)
Context (NAVSTACK_IMAGE : string) (online_max_age_s pull_poll_s pull_timeout_s switch_poll_s switch_timeout_s verify_poll_s verify_timeout_s : Z).

Definition parse_sw_version (sw : option string) : option Mode * option string :=
  let text := strip (default "" sw) in
  if bool_decide (text = "") then (None, None)
  else if String.prefix "dev:" text then (Some MODE_DEV, None)
  else
    match rpartition text with
    | Some (repo, tag) =>
        if negb (bool_decide (tag = "")) && negb (has_char "/"%char tag) && ends_with NAVSTACK_IMAGE repo
        then (Some MODE_IMAGE, Some tag) else (None, None)
    | None => (None, None)
    end.
Definition sw_version_matches (mode : Mode) (tag : option string) (reported : option string) : bool :=
  let parsed := parse_sw_version reported in
  match mode with
  | MODE_IMAGE => bool_decide (parsed.1 = Some MODE_IMAGE) && bool_decide (parsed.2 = tag)
  | MODE_DEV => bool_decide (parsed.1 = Some MODE_DEV)
  end.
End jobs.

(** ** The image routes of the orchestrator (orchestrator_client.py) *)

Record Running := { r_mode : option string; r_tag : option string; r_sha : option string }.
Definition no_running : Running := {| r_mode := None; r_tag := None; r_sha := None |}.
(** An operation; [o_progress]: the line [_op_progress] makes of it *)
Record Op := { o_id : option string; o_kind : option string; o_state : option string; o_tag : option string; o_progress : option string }.
(** [GET /system/image]; [i_local]: the tags of [local_images] *)
Record Status := { i_running : option Running; i_active : option Op; i_can_switch : bool; i_local : list (option string);
                   i_previous_tag : option string; i_previous_mode : option string }.
Record OpAnswer := { oa_id : option string; oa_noop : bool }.

Inductive ireq : Type -> Type :=
| ImageStatus : ireq (result exn Status)
| ImagePull (tag : string) : ireq (result exn OpAnswer)
| ImageCheck (mode : Mode) (tag : option string) : ireq (result exn unit)
| ImageSwitch (mode : Mode) (tag : option string) : ireq (result exn OpAnswer)
| ImageRollback : ireq (result exn OpAnswer)
| ImageOperation (id : string) : ireq (result exn Op).
(** What changes the build a robot runs *)
Definition switches {X : Type} (q : ireq X) : bool := match q with ImageSwitch _ _ | ImageRollback => true | _ => false end.

(** [_matches_running], [_adopt], [_rollback_target] *)
Definition matches_running (d : Dep) (r : Running) : bool :=
  match d_mode d with
  | MODE_DEV => bool_decide (r_mode r = Some "dev")
  | MODE_IMAGE => bool_decide (r_mode r = Some "image") && bool_decide (r_tag r = d_tag d)
  end.
Definition running_of (st : Status) : Running := default no_running (i_running st).
Definition adopt (st : Status) (kind : string) (tag : string) : option string :=
  match i_active st with
  | Some op =>
      if bool_decide (o_state op = Some "running") && bool_decide (o_kind op = Some kind)
         && (bool_decide (o_tag op = None) || bool_decide (o_tag op = Some tag)) && negb (falsy_str (o_id op))
      then o_id op else None
  | None => None
  end.
Definition rollback_target (st : Status) : option (Mode * option string) :=
  if bool_decide (i_previous_mode st = Some "dev") then Some (MODE_DEV, None)
  else if falsy_str (i_previous_tag st) then None else Some (MODE_IMAGE, i_previous_tag st).

(** ** Effects *)

Inductive FactExn := HttpExc | OtherExc.
Inductive InsertExn := AnotherRunning | DatabaseExc.
Inductive RegistryExn := RegistryError | RegistryOther.
(** [robot_latest]: the reported build, and when it was seen *)
Record LatestRow := { lr_sw : option string; lr_seen : option Z }.
Record Registered := { g_tag : string; g_sha : option string }.

Inductive ev : Type -> Type :=
(** the program's own copy of the row *)
| Local : ev Dep
| Edit (f : Dep -> Dep) : ev unit
(** the row *)
| Get : ev (result unit (option Dep))
| Insert (row : Dep) : ev (result InsertExn unit)
| Update (expect : State -> bool) (f : Dep -> Dep) (steps : list Step) : ev (result unit bool)
| Delete : ev (result unit unit)
| ActiveFor : ev (result unit bool)
| TryLock : ev (result unit bool)
| Release : ev unit
(** [PgFacts] and the registry *)
| FactRobot : ev (result FactExn unit)
| Latest : ev (result FactExn (option LatestRow))
| ActiveRun : ev (result FactExn bool)
| MappingSession : ev (result FactExn bool)
| SlamBusy : ev (result FactExn bool)
| Resolve (tag : option string) : ev (result RegistryExn (option Registered))
(** the robot, and time *)
| Ask {X : Type} (q : ireq X) : ev X
| Now : ev Z
| Clock : ev Z
| Sleep (s : Z) : ev unit.

(** [Refusal], an [HTTPException], [_Fail] with whether its state is failed_verify, [_Stop], any other exception; [Stuck]: the
    model's bound of a loop *)
Inductive Exc := Refusal | Http | Fail (verify : bool) (step : string) | Stop | Other | Stuck.

(** ** The job *)

Definition local {A : Type} (k : Dep -> prog ev A) : prog ev A := bind (perform Local) k.
Definition fact {X : Type} (e : ev (result FactExn X)) : prog ev (result Exc X) :=
  let* r := perform e in match r with Ok a => done a | Raise HttpExc => raise Http | Raise OtherExc => raise Other end.
(** [_read]: everything but an HTTPException becomes a 503 *)
Definition read {X : Type} (e : ev (result FactExn X)) : prog ev (result Exc X) :=
  let* r := perform e in match r with Ok a => done a | Raise _ => raise Http end.
Definition clock : prog ev (result Exc Z) := let* t := perform Clock in done t.

(** [_save] with the fields [f] sets, [_set_step], [_advance] *)
Definition save (expect : State -> bool) (f : Dep -> Dep) : prog ev (result Exc unit) :=
  perform (Edit f) ;;;
  local (fun d =>
    let* r := perform (Update expect f (d_steps d)) in
    match r with Ok true => done tt | Ok false => raise Stop | Raise _ => raise Other end).
Definition set_step (name : string) (st : StepState) (op : option string) : prog ev (result Exc unit) :=
  perform (Edit (edit_step name st op)) ;;; save ACTIVE id.
Definition advance (expect : State) (to : State) (f : Dep -> Dep) : prog ev (result Exc unit) := save (only expect) (fun d => f (set_state to d)).

(** [_finish]; its answer is whether the write went through *)
Definition finish (st : State) (step : option string) : prog ev (result unit bool) :=
  local (fun d =>
    let steps := fail_step step (finish_steps false (d_steps d)) in
    let f d := set_finished true (set_state st d) in
    perform (Edit (fun d => set_steps steps (f d))) ;;; perform (Update ACTIVE f steps)).

(** [_status], [_switch_check] *)
Definition status : prog ev (result Exc Status) :=
  let* r := perform (Ask ImageStatus) in
  match r with Ok st => done st | Raise (OrchestratorError _ _) => raise Refusal | Raise (OtherError _) => raise Other end.
Definition switch_check (m : Mode) (t : option string) : prog ev (result Exc unit) :=
  let* r := perform (Ask (ImageCheck m t)) in
  match r with Ok _ => done tt | Raise (OrchestratorError _ _) => raise Refusal | Raise (OtherError _) => raise Other end.

Section programs.
Context (NAVSTACK_IMAGE : string) (online_max_age_s pull_poll_s pull_timeout_s switch_poll_s switch_timeout_s verify_poll_s verify_timeout_s : Z).

(** [_guards] *)
Definition guards : prog ev (result Exc unit) :=
  let+ latest := read Latest in
  match match latest with Some l => lr_seen l | None => None end with
  | None => raise Refusal
  | Some seen =>
      let* now := perform Now in
      if (online_max_age_s <? now - seen)%Z then raise Refusal
      else
        let+ mission := read ActiveRun in
        if (mission : bool) then raise Refusal
        else
          let+ session := read MappingSession in
          if (session : bool) then raise Refusal
          else let+ busy := read SlamBusy in if (busy : bool) then raise Refusal else done tt
  end.

(** [_preflight]: the target it settles on *)
Definition preflight_target (st : Status) : prog ev (result Exc (Mode * option string)) :=
  local (fun d =>
    match d_kind d, d_mode d with
    | KIND_ROLLBACK, _ =>
        match rollback_target st with
        | None => raise Refusal
        | Some (m, t) => let+ _ := save ACTIVE (set_target m t) in done (m, t)
        end
    | _, MODE_IMAGE =>
        let* r := perform (Resolve (d_tag d)) in
        match r with
        | Raise RegistryOther => raise Other
        | Raise RegistryError | Ok None => raise Refusal
        | Ok (Some row) =>
            let+ _ := save ACTIVE (fun d => set_sha (g_sha row) (set_tag (Some (g_tag row)) d)) in done (MODE_IMAGE, Some (g_tag row))
        end
    | _, MODE_DEV => done (MODE_DEV, d_tag d)
    end).
Definition preflight : prog ev (result Exc unit) :=
  local (fun d =>
    let kind := d_kind d in
    let+ _ := if bool_decide (kind = KIND_PULL) then done tt else guards in
    let+ st := status in
    if match i_active st with Some op => bool_decide (o_state op = Some "running") | None => false end then raise Refusal
    else if negb (bool_decide (kind = KIND_PULL)) && negb (i_can_switch st) then raise Refusal
    else
      let+ target := preflight_target st in
      let '(m, t) := target in
      let here := bool_decide (t ∈ i_local st) in
      if match kind, m with
         | KIND_PULL, _ => here
         | _, MODE_IMAGE => bool_decide (r_mode (running_of st) = Some "image") && bool_decide (r_tag (running_of st) = t)
         | _, MODE_DEV => bool_decide (r_mode (running_of st) = Some "dev")
         end
      then raise Refusal
      else if negb (bool_decide (kind = KIND_PULL)) && (bool_decide (m = MODE_DEV) || here) then switch_check m t else done tt).

(** [_preflight_step], [_phase_preflight] *)
Definition preflight_step : prog ev (result Exc unit) :=
  local (fun d =>
    let+ _ := if bool_decide (d_state d = QUEUED) then advance QUEUED PREFLIGHT set_started else done tt in
    let+ _ := set_step "preflight" STEP_RUNNING None in
    let+ _ := preflight in
    let+ _ := set_step "preflight" STEP_DONE None in
    advance PREFLIGHT PULL id).
Definition phase_preflight : prog ev (result Exc unit) :=
  catch (let+ _ := fact FactRobot in preflight_step)
    (fun e => match e with Refusal | Http => raise (Fail false "preflight") | e => raise e end).

(** [_poll_op]: the operation as it ended, [None] when it is unknown *)
Fixpoint poll_op (fuel : nat) (step : string) (op_id : string) (poll_s timeout_s started : Z) (last : option string) : prog ev (result Exc (option Op)) :=
  match fuel with
  | O => raise Stuck
  | S fuel =>
      let go last :=
        let+ now := clock in
        if (timeout_s <=? now - started)%Z then raise (Fail false step)
        else perform (Sleep poll_s) ;;; poll_op fuel step op_id poll_s timeout_s started last in
      let* r := perform (Ask (ImageOperation op_id)) in
      match r with
      | Raise (OtherError _) => raise Other
      | Raise (OrchestratorError k _) =>
          match k with
          | HTTP status => if (status =? 404)%Z then done None else if (status <? 500)%Z then raise (Fail false step) else go last
          | _ => go last
          end
      | Ok op =>
          if negb (bool_decide (o_state op = Some "running")) then done (Some op)
          else if negb (falsy_str (o_progress op)) && negb (bool_decide (o_progress op = last))
               then let+ _ := set_step step STEP_RUNNING None in go (o_progress op)
               else go last
      end
  end.
(** Enough rounds for every timeout: each asks the robot once, which takes time *)
Definition rounds (timeout_s : Z) : nat := S (Z.to_nat timeout_s).

(** [_local_tags], [_pull] *)
Definition local_tags : prog ev (result Exc (list (option string))) :=
  let* r := perform (Ask ImageStatus) in
  match r with Ok st => done (i_local st) | Raise (OrchestratorError _ _) => done [] | Raise (OtherError _) => raise Other end.
Definition start_pull (tag : string) : prog ev (result Exc string) :=
  let* r := perform (Ask (ImagePull tag)) in
  match r with
  | Raise (OtherError _) => raise Other
  | Raise (OrchestratorError _ _) => raise (Fail false "pull")
  | Ok a => if falsy_str (oa_id a) then raise (Fail false "pull") else done (default "" (oa_id a))
  end.
Definition pull (tag : string) (op : option string) (st : Status) : prog ev (result Exc unit) :=
  let+ _ := set_step "pull" STEP_RUNNING None in
  let+ op_id := match op with
                | Some id => done id
                | None => match adopt st "pull" tag with Some id => done id | None => start_pull tag end
                end in
  let+ _ := set_step "pull" STEP_RUNNING (Some op_id) in
  let+ started := clock in
  let+ final := poll_op (rounds pull_timeout_s) "pull" op_id pull_poll_s pull_timeout_s started None in
  let+ _ := match final with
            | None => let+ tags := local_tags in if bool_decide (Some tag ∈ tags) then done tt else raise (Fail false "pull")
            | Some op => if bool_decide (o_state op = Some "done") then done tt else raise (Fail false "pull")
            end in
  set_step "pull" STEP_DONE None.

(** [_before_switch], [_complete], [_phase_pull] *)
Definition before_switch : prog ev (result Exc unit) :=
  local (fun d => catch (let+ _ := guards in switch_check (d_mode d) (d_tag d))
    (fun e => match e with Refusal | Http => raise (Fail false "switch") | e => raise e end)).
Definition complete (expect : State) : prog ev (result Exc unit) := advance expect DONE (set_finished false).
Definition phase_pull : prog ev (result Exc unit) :=
  let+ _ := fact FactRobot in
  local (fun d =>
    let op := s_op (step_of "pull" (d_steps d)) in
    let+ _ := match d_mode d, d_tag d with
              | MODE_IMAGE, Some tag =>
                  if bool_decide (tag = "") then set_step "pull" STEP_SKIPPED None
                  else
                    let+ st := catch status (fun e => match e with Refusal => raise (Fail false "pull") | e => raise e end) in
                    if bool_decide (Some tag ∈ i_local st) then set_step "pull" STEP_SKIPPED None else pull tag op st
              | _, _ => set_step "pull" STEP_SKIPPED None
              end in
    if bool_decide (d_kind d = KIND_PULL) then complete PULL
    else let+ _ := before_switch in advance PULL SWITCH id).

(** [_start_switch]: the operation, [None] when the robot already runs the target *)
Definition post_switch (d : Dep) : prog ev (result exn OpAnswer) :=
  if bool_decide (d_kind d = KIND_ROLLBACK) then perform (Ask ImageRollback) else perform (Ask (ImageSwitch (d_mode d) (d_tag d))).
Definition clear_answer (d : Dep) (st : Status) : bool :=
  match i_active st with
  | Some op => falsy_str (o_id op) || negb (bool_decide (o_kind op ∈ [Some "switch"; Some "rollback"]))
  | None => true
  end && negb (matches_running d (running_of st)).
Fixpoint start_switch (fuel : nat) (started : Z) (post : bool) : prog ev (result Exc (option string)) :=
  match fuel with
  | O => raise Stuck
  | S fuel =>
      let ask :=
        let+ now := clock in
        if (switch_timeout_s <=? now - started)%Z then raise (Fail false "switch")
        else
          let* r := perform (Ask ImageStatus) in
          match r with
          | Raise (OtherError _) => raise Other
          | Raise (OrchestratorError _ _) => perform (Sleep switch_poll_s) ;;; start_switch fuel started false
          | Ok st =>
              local (fun d =>
                match i_active st with
                | Some op =>
                    if negb (falsy_str (o_id op)) && bool_decide (o_kind op ∈ [Some "switch"; Some "rollback"]) then done (o_id op)
                    else if matches_running d (running_of st) then done None else start_switch fuel started true
                | None => if matches_running d (running_of st) then done None else start_switch fuel started true
                end)
          end in
      if post then
        local (fun d =>
          let* r := post_switch d in
          match r with
          | Raise (OtherError _) => raise Other
          | Raise (OrchestratorError (HTTP _) _) => raise (Fail false "switch")
          | Raise (OrchestratorError _ _) => ask
          | Ok a => if oa_noop a then done None else if falsy_str (oa_id a) then raise (Fail false "switch") else done (oa_id a)
          end)
      else ask
  end.

(** [_phase_switch] *)
Definition phase_switch : prog ev (result Exc unit) :=
  let+ _ := fact FactRobot in
  local (fun d =>
    let step := step_of "switch" (d_steps d) in
    let+ _ := set_step "switch" STEP_RUNNING None in
    let+ started := clock in
    let+ op := match s_op step with
               | Some id => done (Some id)
               | None => start_switch (rounds switch_timeout_s) started (negb (bool_decide (s_state step = STEP_RUNNING)))
               end in
    let+ _ := match op with
              | None => done tt
              | Some id =>
                  let+ _ := set_step "switch" STEP_RUNNING (Some id) in
                  let+ now := clock in
                  let+ polled := clock in
                  let+ final := poll_op (rounds switch_timeout_s) "switch" id switch_poll_s (Z.max 0 (switch_timeout_s - (now - started))) polled None in
                  match final with
                  | Some op => if bool_decide (o_state op = Some "done") then done tt else raise (Fail false "switch")
                  | None => done tt
                  end
              end in
    let+ _ := set_step "switch" STEP_DONE None in
    advance SWITCH VERIFY id).

(** [_phase_verify] *)
Fixpoint verify_loop (fuel : nat) (started : Z) : prog ev (result Exc unit) :=
  match fuel with
  | O => raise Stuck
  | S fuel =>
      let* latest := perform Latest in
      let reported := match latest with Ok (Some l) => lr_sw l | _ => None end in
      let* r := perform (Ask ImageStatus) in
      match r with
      | Raise (OtherError _) => raise Other
      | _ =>
          let running := match r with Ok st => running_of st | Raise _ => no_running end in
          local (fun d =>
            if sw_version_matches NAVSTACK_IMAGE (d_mode d) (d_tag d) reported && matches_running d running then
              let+ _ := if falsy_str (d_sha d) && negb (falsy_str (r_sha running)) then save ACTIVE (set_sha (r_sha running)) else done tt in
              let+ _ := set_step "verify" STEP_DONE None in
              complete VERIFY
            else
              let+ now := clock in
              if (verify_timeout_s <=? now - started)%Z then raise (Fail true "verify")
              else perform (Sleep verify_poll_s) ;;; verify_loop fuel started)
      end
  end.
Definition phase_verify : prog ev (result Exc unit) :=
  let+ _ := fact FactRobot in
  let+ _ := set_step "verify" STEP_RUNNING None in
  let+ started := clock in
  verify_loop (rounds verify_timeout_s) started.

(** [_drive] *)
Definition phase (st : State) : prog ev (result Exc unit) :=
  match st with QUEUED | PREFLIGHT => phase_preflight | PULL => phase_pull | SWITCH => phase_switch | _ => phase_verify end.
Fixpoint drive_loop (fuel : nat) : prog ev (result Exc unit) :=
  local (fun d =>
    if negb (ACTIVE (d_state d)) then done tt
    else match fuel with O => raise Stuck | S fuel => let+ _ := phase (d_state d) in drive_loop fuel end).
Definition drive : prog ev (result Exc unit) :=
  let* r := perform Get in
  match r with
  | Raise _ => raise Other
  | Ok None => done tt
  | Ok (Some d) =>
      perform (Edit (fun _ => d)) ;;;
      catch (drive_loop 4) (fun e =>
        match e with
        | Stop => done tt
        | Fail v step =>
            let* r := finish (if v then FAILED_VERIFY else FAILED) (Some step) in match r with Ok _ => done tt | Raise _ => raise Other end
        | Stuck => raise Stuck
        | Refusal | Http | Other => finish FAILED None ;;; done tt
        end)
  end.

(** [_run] *)
Definition run : prog ev (result Exc unit) :=
  let* r := perform TryLock in
  match r with
  | Ok true => let* r := drive in (perform Release ;;; Ret r)
  | _ => done tt
  end.

(** ** Requests and cancels *)

(** [_discard], [_request] *)
Definition discard : prog ev unit := perform Delete ;;; Ret tt.
Definition new_row (kind : DKind) (m : Mode) (tag : option string) : Dep :=
  {| d_kind := kind; d_mode := m; d_tag := tag; d_sha := None; d_state := QUEUED; d_steps := planned_steps kind;
     d_error := false; d_started := false; d_finished := false |}.
Definition request (kind : DKind) (m : Mode) (tag : option string) : prog ev (result Exc unit) :=
  let+ _ := fact FactRobot in
  let* active := perform ActiveFor in
  match active with
  | Raise _ => raise Other
  | Ok true => raise Http
  | Ok false =>
      let+ _ := read Latest in
      perform (Edit (fun _ => new_row kind m tag)) ;;;
      let* r := perform (Insert (new_row kind m tag)) in
      match r with
      | Raise AnotherRunning => let* r := perform ActiveFor in match r with Raise _ => raise Other | Ok _ => raise Http end
      | Raise DatabaseExc => raise Other
      | Ok _ => catch preflight_step (fun e => discard ;;; raise (match e with Refusal => Http | e => e end))
      end
  end.
(** [request_deploy], [request_rollback] *)
Definition request_deploy (m : Mode) (tag : option string) (pull_only : bool) : prog ev (result Exc unit) :=
  request (if pull_only then KIND_PULL else KIND_DEPLOY) m tag.
Definition request_rollback : prog ev (result Exc unit) := request KIND_ROLLBACK MODE_IMAGE None.

(** [cancel] *)
Definition cancel : prog ev (result Exc unit) :=
  let* r := perform Get in
  match r with
  | Raise _ => raise Other
  | Ok None => raise Http
  | Ok (Some d) =>
      if FINAL (d_state d) then raise Http
      else if negb (CANCELLABLE (d_state d)) then raise Http
      else
        let* r := perform (Update CANCELLABLE (fun d => set_finished true (set_state CANCELLED d)) (finish_steps true (d_steps d))) in
        match r with
        | Raise _ => raise Other
        | Ok true => let* r := perform Get in match r with Ok (Some _) => done tt | Ok None => raise Http | Raise _ => raise Other end
        | Ok false => let* r := perform Get in match r with Raise _ => raise Other | Ok _ => raise Http end
        end
  end.
End programs.

(** ** The shared row and what an effect does

    A deployment is not there yet, a row, or a row that was deleted. [w_blind] remembers that a switch was sent and that the
    robot has since not answered that it neither runs one nor runs the target; [m_reported] and [m_running] what the program
    read last of the robot. *)

Inductive Slot := Unborn | Row (d : Dep) | Gone (d : Dep).
Record Shared := { w_slot : Slot; w_blind : bool; w_now : Z }.
Record Mine := { m_dep : Dep; m_reported : option string; m_running : Running }.
Notation World := (Shared * Mine)%type.

Definition with_dep (f : Dep -> Dep) (m : Mine) : Mine := {| m_dep := f (m_dep m); m_reported := m_reported m; m_running := m_running m |}.
Definition state_of (s : Slot) : option State := match s with Unborn => None | Row d | Gone d => Some (d_state d) end.
Definition row_of (s : Slot) : option Dep := match s with Row d => Some d | _ => None end.

(** Time passes, nothing else changes *)
Definition later (d : Z) (s s' : Shared) : Prop := w_slot s' = w_slot s /\ w_blind s' = w_blind s /\ (w_now s + d <= w_now s')%Z.
(** The row becomes another; a failing database may have written it or not *)
Definition writes {X Y : Type} (x : result X Y) (yes : Y) (s s' : Shared) (slot : Slot) : Prop :=
  w_blind s' = w_blind s /\ (w_now s <= w_now s')%Z /\
  match x with Ok y => y = yes /\ w_slot s' = slot | Raise _ => w_slot s' = w_slot s \/ w_slot s' = slot end.

Definition asks (X : Type) (q : ireq X) : World -> X -> World -> Prop :=
  match q in ireq X return World -> X -> World -> Prop with
  | ImageStatus => fun w x w' =>
      w_slot w'.1 = w_slot w.1 /\ (w_now w.1 + 1 <= w_now w'.1)%Z /\ m_dep w'.2 = m_dep w.2 /\ m_reported w'.2 = m_reported w.2
      /\ match x with
         | Ok st => w_blind w'.1 = (if clear_answer (m_dep w.2) st then false else w_blind w.1) /\ m_running w'.2 = running_of st
         | Raise _ => w_blind w'.1 = w_blind w.1
         end
  | ImageSwitch _ _ | ImageRollback => fun w _ w' =>
      w_slot w'.1 = w_slot w.1 /\ w_blind w'.1 = true /\ (w_now w.1 + 1 <= w_now w'.1)%Z /\ w'.2 = w.2
  | _ => fun w _ w' => later 1 w.1 w'.1 /\ w'.2 = w.2
  end.
Definition acts (X : Type) (e : ev X) : World -> X -> World -> Prop :=
  match e in ev X return World -> X -> World -> Prop with
  | Local => fun w x w' => x = m_dep w.2 /\ w' = w
  | Edit f => fun w _ w' => w' = (w.1, with_dep f w.2)
  | Get => fun w x w' => later 0 w.1 w'.1 /\ w'.2 = w.2 /\ match x with Ok d => d = row_of (w_slot w.1) | Raise _ => True end
  | Insert row => fun w x w' =>
      w'.2 = w.2 /\ (writes x tt w.1 w'.1 (Row row) /\ w_slot w.1 = Unborn \/ later 0 w.1 w'.1 /\ match x with Ok _ => False | Raise _ => True end)
  | Update expect f steps => fun w x w' =>
      w'.2 = w.2 /\
      match w_slot w.1 with
      | Row d => if expect (d_state d) then writes x true w.1 w'.1 (Row (set_steps steps (f d))) else later 0 w.1 w'.1 /\ x <> Ok true
      | _ => later 0 w.1 w'.1 /\ x <> Ok true
      end
  | Delete => fun w x w' =>
      w'.2 = w.2 /\ match w_slot w.1 with Row d => writes x tt w.1 w'.1 (Gone d) | _ => later 0 w.1 w'.1 end
  | Latest => fun w x w' =>
      later 0 w.1 w'.1 /\ m_dep w'.2 = m_dep w.2 /\ m_running w'.2 = m_running w.2
      /\ m_reported w'.2 = match x with Ok (Some l) => lr_sw l | _ => None end
  | Ask q => asks _ q
  | Clock => fun w x w' => x = w_now w.1 /\ w' = w
  | Sleep s => fun w _ w' => later s w.1 w'.1 /\ w'.2 = w.2
  | _ => fun w _ w' => later 0 w.1 w'.1 /\ w'.2 = w.2
  end.

(** ** Requests, jobs and cancels side by side *)

(** The state graph of the module's docstring *)
Inductive next : State -> State -> Prop :=
| next_preflight : next QUEUED PREFLIGHT
| next_pull : next PREFLIGHT PULL
| next_switch : next PULL SWITCH
| next_verify : next SWITCH VERIFY
| next_done : next VERIFY DONE
| next_pulled : next PULL DONE
| next_failed st : ACTIVE st = true -> next st FAILED
| next_failed_verify st : ACTIVE st = true -> next st FAILED_VERIFY
| next_cancelled st : CANCELLABLE st = true -> next st CANCELLED.

(** What happens to a row: it is created queued, the fields of an active one change, it goes one step along the graph, and it
    may be deleted *)
Inductive moves : Slot -> Slot -> Prop :=
| moves_insert d : d_state d = QUEUED -> moves Unborn (Row d)
| moves_edit d d' : ACTIVE (d_state d) = true -> d_state d' = d_state d -> moves (Row d) (Row d')
| moves_next d d' : next (d_state d) (d_state d') -> moves (Row d) (Row d')
| moves_delete d : moves (Row d) (Gone d).
Definition others (s s' : Shared) : Prop := w_slot s' = w_slot s \/ moves (w_slot s) (w_slot s').

(** Past the point of no return *)
Definition past (s : Shared) : Prop := match state_of (w_slot s) with Some st => CANCELLABLE st = false /\ st <> CANCELLED | None => False end.

Lemma moves_past s s' : others s s' -> past s -> past s'.
Proof.
  unfold past. intros [->|Hm]; [done|]. destruct Hm as [d Hd|d d' H1 H2|d d' Hn|d]; cbn; [done|by rewrite H2| |done].
  intros [H1 H2]. destruct Hn; done || (split; done || by destruct st) || (by destruct st).
Qed.
Lemma rtc_keeps (J : Shared -> Prop) (HJ : forall s s', others s s' -> J s -> J s') s s' : rtc others s s' -> J s -> J s'.
Proof. induction 1; [done|]. eauto. Qed.
Lemma others_past s s' : rtc others s s' -> past s -> past s'.
Proof. apply rtc_keeps, moves_past. Qed.

Definition switching {X : Type} (e : ev X) : bool := match e with Ask q => switches q | _ => false end.
Definition orderly (X : Type) (e : ev X) (w w' : World) : Prop := rtc others w.1 w'.1 /\ (switching e = true -> past w.1).

(** Effects that are no switch, move the row along the graph and do not make the program's own row a switch *)
Definition calm (X : Type) (e : ev X) : Prop :=
  match e with
  | Edit f => forall d, d_state (f d) = SWITCH -> d_state d = SWITCH
  | Insert row => d_state row = QUEUED
  | Update expect f _ => forall d, expect (d_state d) = true -> ACTIVE (d_state d) = true /\ d_state (f d) = d_state d \/ next (d_state d) (d_state (f d))
  | Ask q => switches q = false
  | _ => True
  end.
Definition informed (w : World) : Prop := d_state (m_dep w.2) = SWITCH -> past w.1.

Lemma later_others d s s' : later d s s' -> others s s'.
Proof. intros (H & _). by left. Qed.
Lemma writes_others {X Y : Type} (x : result X Y) y s s' slot : writes x y s s' slot -> moves (w_slot s) slot -> others s s'.
Proof. unfold others. intros (_ & _ & H) Hm. destruct x; [destruct H as [_ ->]; by right|]. destruct H as [->| ->]; [by left|by right]. Qed.

(** Every effect but [Edit] leaves the own row alone; what it does to the shared one *)
Lemma acts_own X (e : ev X) w x w' : acts X e w x w' -> m_dep w'.2 = match e with Edit f => f (m_dep w.2) | _ => m_dep w.2 end.
Proof.
  destruct e; cbn; try (by intros [_ ->]); try (by intros [-> _]); try (by intros ->); try (by intros (_ & -> & _)).
  destruct q; cbn; try (by intros (_ & _ & -> & _)); try (by intros [_ ->]); by intros (_ & _ & _ & ->).
Qed.
Lemma acts_others X (e : ev X) w x w' :
  match e with
  | Insert row => d_state row = QUEUED
  | Update expect f _ => forall d, expect (d_state d) = true -> ACTIVE (d_state d) = true /\ d_state (f d) = d_state d \/ next (d_state d) (d_state (f d))
  | _ => True
  end -> acts X e w x w' -> others w.1 w'.1.
Proof.
  destruct e; cbn; intros Hc; try (intros (_ & ->); by left); try (intros ->; by left); try (intros [H _]; by eapply later_others).
  - intros (_ & [[H Hu]|[H _]]); [|by eapply later_others]. eapply writes_others; [exact H|]. rewrite Hu. by constructor.
  - intros (_ & H). destruct (w_slot w.1) as [|d|d] eqn:Hs; try (destruct H; by eapply later_others).
    destruct (expect (d_state d)) eqn:He; [|destruct H; by eapply later_others]. eapply writes_others; [exact H|]. rewrite Hs.
    destruct (Hc d He) as [[H1 H2]|H1]; [by constructor 2|by constructor 3].
  - intros (_ & H). destruct (w_slot w.1) as [|d|d] eqn:Hs; try (by eapply later_others). eapply writes_others; [exact H|]. rewrite Hs. constructor.
  - destruct q; cbn; intros H; left; apply H.
Qed.

Notation wpa := (wp (among acts others) orderly).

Lemma calm_step (J : Shared -> Prop) (HJ : forall s s', others s s' -> J s -> J s') X (e : ev X) w x w' : calm X e -> informed w /\ J w.1 -> among acts others X e w x w' ->
  orderly X e w w' /\ informed w' /\ J w'.1.
Proof.
  intros Hc [Hi Hj] (s1 & Ha & Hr). pose proof (acts_own _ _ _ _ _ Ha) as Ho. cbn in Ho.
  assert (others w.1 s1) as Hm by (refine (acts_others _ e w x (s1, w'.2) _ Ha); destruct e; exact Hc || exact I).
  split_and!.
  - split; [by eapply rtc_l|]. destruct e; try done. cbn. by rewrite Hc.
  - intros Hs. eapply others_past; [exact Hr|]. eapply moves_past; [exact Hm|]. apply Hi. rewrite Ho in Hs. destruct e; try done. by apply Hc.
  - eapply (rtc_keeps J HJ); [exact Hr|]. by eapply HJ.
Qed.

Lemma calm_wp {A : Type} (p : prog ev A) w : everywhere calm p -> informed w -> wpa p (fun _ w' => informed w') w.
Proof.
  intros Hp Hi. eapply wp_mono; [|apply (everywhere_wp _ _ calm (fun w => informed w /\ True) p w); [|exact Hp|by split]].
  - by intros a w' [? _].
  - intros X e w1 x w2 He H Hd. by apply (calm_step (fun _ => True) (fun _ _ _ _ => I) _ _ _ _ _ He H Hd).
Qed.
Lemma calm_past_wp {A : Type} (p : prog ev A) w : everywhere calm p -> informed w -> past w.1 -> wpa p (fun _ w' => informed w' /\ past w'.1) w.
Proof.
  intros Hp Hi Hw. apply (everywhere_wp _ _ calm (fun w => informed w /\ past w.1) p w); [|exact Hp|by split].
  intros X e w1 x w2 He H Hd. by apply (calm_step past moves_past _ _ _ _ _ He H Hd).
Qed.

Create HintDb deploy.
Lemma perform_calm {X : Type} (e : ev X) : calm X e -> everywhere calm (perform e).
Proof. by split. Qed.
Lemma calm_local {A : Type} (k : Dep -> prog ev A) : (forall d, everywhere calm (k d)) -> everywhere calm (local k).
Proof. by split. Qed.
Lemma calm_fact {X : Type} (e : ev (result FactExn X)) : calm _ e -> everywhere calm (fact e).
Proof. intros. apply everywhere_bind; [by apply perform_calm|]. by intros [?|[]]. Qed.
Lemma read_calm {X : Type} (e : ev (result FactExn X)) : calm _ e -> everywhere calm (read e).
Proof. intros. apply everywhere_bind; [by apply perform_calm|]. by intros [?|?]. Qed.
Lemma clock_calm : everywhere calm clock.
Proof. by split. Qed.

(** One step of a program that is calm throughout *)
Ltac calm_step_tac :=
  match goal with
  | |- everywhere calm (Ret _) => exact I
  | |- everywhere calm (done _) => exact I
  | |- everywhere calm (raise _) => exact I
  | |- everywhere calm (ebind _ _) => apply everywhere_ebind; [|intros ?]
  | |- everywhere calm (catch _ _) => apply everywhere_catch; [|intros ?]
  | |- everywhere calm (bind _ _) => apply everywhere_bind; [|intros ?]
  | |- everywhere calm (local _) => apply calm_local; intros ?
  | |- everywhere calm (perform _) => apply perform_calm; cbn; done
  | |- everywhere calm (fact _) => apply calm_fact; exact I
  | |- everywhere calm (read _) => apply read_calm; exact I
  | |- everywhere calm clock => apply clock_calm
  | |- everywhere calm (match ?x with _ => _ end) => destruct x
  | |- everywhere calm (let '(_, _) := ?x in _) => destruct x
  end.
Ltac calm_tac := repeat first [calm_step_tac | progress cbv zeta | solve [eauto with deploy]].

Lemma calm_save expect f :
  (forall d, d_state (f d) = SWITCH -> d_state d = SWITCH) ->
  (forall d, expect (d_state d) = true -> ACTIVE (d_state d) = true /\ d_state (f d) = d_state d \/ next (d_state d) (d_state (f d))) ->
  everywhere calm (save expect f).
Proof. intros H1 H2. apply everywhere_bind; [by apply perform_calm|]. intros _. apply calm_local. intros d. apply everywhere_bind; [by apply perform_calm|]. by intros [[]|]. Qed.
Lemma calm_edit f : (forall d, d_state (f d) = d_state d) -> everywhere calm (save ACTIVE f).
Proof. intros H. apply calm_save; intros d; rewrite H; [done|]. by left. Qed.
Lemma calm_set_step name st op : everywhere calm (set_step name st op).
Proof. apply everywhere_bind; [apply perform_calm; by intros d|]. intros _. by apply calm_edit. Qed.
Lemma only_true st st' : only st st' = true -> st' = st.
Proof. unfold only. intros. by bprop. Qed.
Lemma calm_advance expect to f : next expect to -> to <> SWITCH -> (forall d, d_state (f d) = d_state d) -> everywhere calm (advance expect to f).
Proof. intros Hn Ht Hf. apply calm_save; intros d; rewrite Hf; cbn; [done|]. intros ->%only_true. by right. Qed.
Lemma calm_finish st step : next VERIFY st -> st <> DONE -> everywhere calm (finish st step).
Proof.
  intros Hn Hd. assert (forall st', ACTIVE st' = true -> next st' st) as Hall by (inversion Hn; subst; try done; intros; by constructor).
  apply calm_local. intros d. apply everywhere_bind; [|intros _]; apply perform_calm; cbn.
  - intros d0 ->. inversion Hn.
  - intros d' Ha. right. by apply Hall.
Qed.
#[export] Hint Resolve calm_edit calm_set_step calm_advance calm_finish : deploy.
#[export] Hint Constructors next : deploy.
#[export] Hint Extern 1 (_ <> _) => discriminate : deploy.

Section order.
Context (NAVSTACK_IMAGE : string) (online_max_age_s pull_poll_s pull_timeout_s switch_poll_s switch_timeout_s verify_poll_s verify_timeout_s : Z).

Lemma calm_guards : everywhere calm (guards online_max_age_s).
Proof. unfold guards. calm_tac. Qed.
Lemma calm_preflight_step : everywhere calm (preflight_step online_max_age_s).
Proof. unfold preflight_step, preflight, preflight_target, status, switch_check. pose proof calm_guards. calm_tac. Qed.
Lemma calm_phase_preflight : everywhere calm (phase_preflight online_max_age_s).
Proof. unfold phase_preflight. pose proof calm_preflight_step. calm_tac. Qed.
Lemma calm_poll_op fuel step op_id poll_s timeout_s started last : everywhere calm (poll_op fuel step op_id poll_s timeout_s started last).
Proof. revert last. induction fuel as [|fuel IH]; intros last; cbn [poll_op]; calm_tac. Qed.
Lemma calm_pull tag op st : everywhere calm (pull pull_poll_s pull_timeout_s tag op st).
Proof. unfold pull, start_pull, local_tags. pose proof calm_poll_op. calm_tac. Qed.
Lemma calm_before_switch : everywhere calm (before_switch online_max_age_s).
Proof. unfold before_switch, switch_check. pose proof calm_guards. calm_tac. Qed.
Lemma calm_verify_loop fuel started : everywhere calm (verify_loop NAVSTACK_IMAGE verify_poll_s verify_timeout_s fuel started).
Proof. induction fuel as [|fuel IH]; cbn [verify_loop]; [exact I|]. unfold complete. calm_tac. Qed.
Lemma calm_phase_verify : everywhere calm (phase_verify NAVSTACK_IMAGE verify_poll_s verify_timeout_s).
Proof. unfold phase_verify. pose proof calm_verify_loop. calm_tac. Qed.
End order.

Lemma among_orderly X (e : ev X) w x w' :
  match e with
  | Insert row => d_state row = QUEUED
  | Update expect f _ => forall d, expect (d_state d) = true -> ACTIVE (d_state d) = true /\ d_state (f d) = d_state d \/ next (d_state d) (d_state (f d))
  | _ => True
  end -> (switching e = true -> past w.1) -> among acts others X e w x w' -> orderly X e w w'.
Proof. intros He Hs (s1 & Ha & Hr). split; [|done]. eapply rtc_l; [|exact Hr]. by apply (acts_others _ e w x (s1, w'.2)). Qed.

Lemma calm_then {A B : Type} (p : prog ev (result Exc A)) (k : A -> prog ev (result Exc B)) Q w : everywhere calm p -> informed w ->
  (forall a w', informed w' -> wpa (k a) Q w') -> (forall e w', Q (Raise e) w') -> wpa (ebind p k) Q w.
Proof. intros Hp Hw Hk Hq. apply wp_ebind. eapply wp_mono; [|by apply calm_wp]. intros [a|e] w' Hw'; [by apply Hk|apply Hq]. Qed.

(** The own row says the switch is due only when the shared one passed the point of no return. *)
Lemma point_of_no_return w : wpa (advance PULL SWITCH id) (fun r w' => match r with Ok _ => informed w' | Raise _ => True end) w.
Proof.
  unfold advance, save. intros [] w1 H1. split; [by eapply among_orderly|]. intros d w2 H2. split; [by eapply among_orderly|].
  intros x w3 H3. split.
  - eapply among_orderly; [|done|exact H3]. intros d' ->%only_true. right. constructor.
  - destruct x as [[]|]; [|done..]. destruct H3 as (s3 & [_ H3] & Hr). cbn. intros _. eapply others_past; [exact Hr|]. cbn in H3.
    destruct (w_slot w2.1) as [|d'|d']; try (by destruct H3). destruct (only PULL (d_state d')); [|by destruct H3].
    destruct H3 as (_ & _ & _ & H3). unfold past. by rewrite H3.
Qed.

Section safety.
Context (NAVSTACK_IMAGE : string) (online_max_age_s pull_poll_s pull_timeout_s switch_poll_s switch_timeout_s verify_poll_s verify_timeout_s : Z).

Lemma phase_pull_wp w : informed w ->
  wpa (phase_pull online_max_age_s pull_poll_s pull_timeout_s) (fun r w' => match r with Ok _ => informed w' | Raise _ => True end) w.
Proof.
  intros Hw. unfold phase_pull. apply calm_then; [by apply calm_fact|done| |done]. intros _ w1 H1.
  intros d w2 H2. destruct (calm_step (fun _ => True) (fun _ _ _ _ => I) _ Local _ _ _ I (conj H1 I) H2) as (Ho & Hi & _). split; [done|].
  apply calm_then; [|done| |done].
  - pose proof (calm_pull pull_poll_s pull_timeout_s). unfold status. calm_tac.
  - intros _ w3 H3. destruct (bool_decide (d_kind d = KIND_PULL)).
    + eapply wp_mono; [|apply calm_wp; [|exact H3]]; [by intros [?|?] ? ?|]. unfold complete. calm_tac.
    + apply calm_then; [apply calm_before_switch|done| |done]. intros _ w4 _. apply point_of_no_return.
Qed.

(** Every switch is sent past the point of no return. *)
Lemma start_switch_wp fuel started : forall post w, informed w -> past w.1 ->
  wpa (start_switch switch_poll_s switch_timeout_s fuel started post) (fun _ w' => informed w' /\ past w'.1) w.
Proof.
  induction fuel as [|fuel IH]; intros post w Hi Hp; [by split|].
  assert (Hstep : forall X (e : ev X) w1 x w2, calm X e -> informed w1 -> past w1.1 -> among acts others X e w1 x w2 -> orderly X e w1 w2 /\ informed w2 /\ past w2.1).
  { intros X e w1 x w2 He H1 H2 Hd. by apply (calm_step past moves_past _ _ _ _ _ He (conj H1 H2) Hd). }
  cbn [start_switch]. match goal with |- wp _ _ (if post then _ else ?ask) ?Q _ =>
    assert (forall w, informed w -> past w.1 -> wpa ask Q w) as Hask end.
  { clear w Hi Hp. intros w Hi Hp. intros t w1 H1. destruct (Hstep _ Clock _ _ _ I Hi Hp H1) as (? & Hi1 & Hp1). split; [done|].
    cbn. destruct (_ <=? _)%Z; [done|]. intros x w2 H2. destruct (Hstep _ (Ask ImageStatus) _ _ _ eq_refl Hi1 Hp1 H2) as (? & Hi2 & Hp2). split; [done|].
    destruct x as [st|[k d|t']]; [| |done].
    - intros d w3 H3. destruct (Hstep _ Local _ _ _ I Hi2 Hp2 H3) as (? & Hi3 & Hp3). split; [done|].
      destruct (i_active st); repeat (case_match; try done); by apply IH.
    - intros [] w3 H3. destruct (Hstep _ (Sleep switch_poll_s) _ _ _ I Hi2 Hp2 H3) as (? & Hi3 & Hp3). split; [done|]. by apply IH. }
  destruct post; [|by apply Hask]. intros d w1 H1. destruct (Hstep _ Local _ _ _ I Hi Hp H1) as (? & Hi1 & Hp1). split; [done|].
  cbn [bind]. unfold post_switch. apply wp_bind. assert (forall q : ireq (result exn OpAnswer), switches q = true -> forall x w2, among acts others _ (Ask q) w1 x w2 ->
    orderly _ (Ask q) w1 w2 /\ informed w2 /\ past w2.1) as Hq.
  { intros q Hs x w2 H2. assert (orderly _ (Ask q) w1 w2) as Ho by (by eapply among_orderly). split; [done|]. destruct Ho as [Hr _].
    assert (past w2.1) by (by eapply others_past). split; [by intros _|done]. }
  destruct (bool_decide (d_kind d = KIND_ROLLBACK)); intros x w2 H2; destruct (Hq _ ltac:(match type of H2 with among _ _ _ (Ask ?q) _ _ _ => exact (eq_refl : switches q = true) end) _ _ H2) as (? & Hi2 & Hp2); (split; [done|]); cbn;
    (destruct x as [a|[[] ?|?]]; [repeat (case_match; try done)|..]; try done; by apply Hask).
Qed.

Lemma phase_switch_wp w : informed w -> past w.1 -> wpa (phase_switch switch_poll_s switch_timeout_s) (fun _ w' => informed w') w.
Proof.
  intros Hi Hp. unfold phase_switch.
  assert (Hthen : forall {A B : Type} (p : prog ev (result Exc A)) (k : A -> prog ev (result Exc B)) Q w, everywhere calm p -> informed w -> past w.1 ->
    (forall a w', informed w' -> past w'.1 -> wpa (k a) Q w') -> (forall e w', informed w' -> Q (Raise e) w') -> wpa (ebind p k) Q w).
  { intros A B p k Q w0 Hc H1 H2 Hk Hq. apply wp_ebind. eapply wp_mono; [|by apply calm_past_wp]. intros [a|e] w' [H3 H4]; [by apply Hk|by apply Hq]. }
  apply Hthen; [by apply calm_fact|done..| |done]. intros _ w1 Hi1 Hp1.
  intros d w2 H2. destruct (calm_step past moves_past _ Local _ _ _ I (conj Hi1 Hp1) H2) as (Ho & Hi2 & Hp2). split; [done|].
  apply Hthen; [apply calm_set_step|done..| |done]. intros _ w3 Hi3 Hp3. apply Hthen; [apply clock_calm|done..| |done]. intros started w4 Hi4 Hp4.
  apply wp_ebind. apply wp_mono with (Q := fun _ w' => informed w' /\ past w'.1).
  2:{ destruct (s_op _); [done|]. by apply start_switch_wp. }
  intros [op|e] w5 [Hi5 Hp5]; [|done]. apply calm_wp; [|done]. pose proof calm_poll_op. calm_tac.
Qed.

Lemma drive_loop_wp fuel : forall w, informed w ->
  wpa (drive_loop NAVSTACK_IMAGE online_max_age_s pull_poll_s pull_timeout_s switch_poll_s switch_timeout_s verify_poll_s verify_timeout_s fuel) (fun _ _ => True) w.
Proof.
  induction fuel as [|fuel IH]; intros w Hi; intros d w1 H1; pose proof H1 as (s1 & [-> _] & _);
    destruct (calm_step (fun _ => True) (fun _ _ _ _ => I) _ Local _ _ _ I (conj Hi I) H1) as (Ho & Hi1 & _); (split; [done|]); cbn; destruct (ACTIVE _) eqn:Ha; try done.
  cbn. assert (past w1.1 \/ d_state (m_dep w.2) <> SWITCH) as Hp.
  { destruct (decide (d_state (m_dep w.2) = SWITCH)) as [He|]; [left|by right]. eapply others_past; [apply Ho|]. by apply Hi. }
  apply wp_ebind. apply wp_mono with (Q := fun r w' => match r with Ok _ => informed w' | Raise _ => True end); [intros [a|e] w2 H2; [by apply IH|done]|].
  destruct (d_state (m_dep w.2)) eqn:Hs; try done; cbn [phase].
  - eapply wp_mono; [|by apply calm_wp; [apply calm_phase_preflight|]]. by intros [].
  - eapply wp_mono; [|by apply calm_wp; [apply calm_phase_preflight|]]. by intros [].
  - by apply phase_pull_wp.
  - destruct Hp; [|done]. eapply wp_mono; [|by apply phase_switch_wp]. by intros [].
  - eapply wp_mono; [|by apply calm_wp; [apply calm_phase_verify|]]. by intros [].
Qed.
End safety.

Lemma calm_any {A : Type} (p : prog ev A) w : everywhere calm p -> wpa p (fun _ _ => True) w.
Proof.
  intros Hp. apply (everywhere_wp _ _ calm (fun _ => True) p w); [|done..]. intros X e w1 x w2 He _ Hd. split; [|done].
  eapply among_orderly; [by destruct e| |done]. destruct e; try done. cbn. by rewrite He.
Qed.

Section deployments.
Context (NAVSTACK_IMAGE : string) (online_max_age_s pull_poll_s pull_timeout_s switch_poll_s switch_timeout_s verify_poll_s verify_timeout_s : Z).
Notation job := (run NAVSTACK_IMAGE online_max_age_s pull_poll_s pull_timeout_s switch_poll_s switch_timeout_s verify_poll_s verify_timeout_s).

(** A job of the deployment, or a cancel: started any time and any number of times, in any API process *)
Inductive started : prog ev unit -> Mine -> Prop :=
| started_run m : started (job ;;; Ret tt) m
| started_cancel m : started (cancel ;;; Ret tt) m.

Lemma drive_wp w : wpa (drive NAVSTACK_IMAGE online_max_age_s pull_poll_s pull_timeout_s switch_poll_s switch_timeout_s verify_poll_s verify_timeout_s) (fun _ _ => True) w.
Proof.
  intros x w1 H1. split; [by eapply among_orderly|]. destruct x as [[d|]|]; [|done..].
  destruct H1 as (s1 & (Hl & _ & Hd) & Hr1). intros [] w2 H2. split; [by eapply among_orderly|]. destruct H2 as (s2 & Ha2 & Hr2).
  assert (informed w2) as Hi.
  { cbn in Ha2. inversion Ha2 as [[Hs Hm]]. intros Hst. rewrite Hm in Hst. cbn in Hst. eapply others_past; [exact Hr2|]. rewrite Hs. eapply others_past; [exact Hr1|].
    unfold past. destruct Hl as (Hl & _). cbn in Hl. rewrite Hl. destruct (w_slot w.1); cbn in Hd; simplify_eq. cbn. by rewrite Hst. }
  apply wp_catch. eapply wp_mono; [|by apply drive_loop_wp]. intros [[]|e] w3 _; [done|]. apply calm_any. destruct e as [| |[]| | |]; calm_tac.
Qed.
Lemma started_safe p m s : started p m -> wpa p (fun _ _ => True) (s, m).
Proof.
  destruct 1; apply wp_bind.
  - intros x w1 H1. split; [by eapply among_orderly|]. destruct x as [[]|]; [|done..]. cbn [bind]. apply wp_bind. eapply wp_mono; [|apply drive_wp].
    intros r w2 _. intros [] w3 H3. split; [by eapply among_orderly|]. done.
  - eapply wp_mono; [|apply calm_any]; [done|]. unfold cancel. calm_tac. apply perform_calm. intros d' Hc. right. by constructor.
Qed.
Lemma request_calm kind m tag : everywhere calm (request online_max_age_s kind m tag).
Proof. unfold request, discard. pose proof calm_preflight_step. calm_tac. Qed.

(** Whatever happens to a deployment: its request first, then jobs and cancels *)
Definition happens (kind : DKind) (m : Mode) (tag : option string) (l : list (sigT ev * World * World)) (s : Shared) (ts : list (prog ev unit * Mine)) : Prop :=
  exists s0 m0, w_slot s0 = Unborn /\ pool acts started s0 [(request online_max_age_s kind m tag ;;; Ret tt, m0)] l s ts.

Lemma happens_orderly kind m tag l s ts : happens kind m tag l s ts ->
  Forall (fun t => orderly _ (projT2 t.1.1) t.1.2 t.2 /\ rtc others t.1.2.1 s) l /\ Forall (safe_task acts others orderly s) ts.
Proof.
  intros (s0 & m0 & _ & Hp). destruct (pool_sound acts started others orderly _ _ _ _ _ (fun X e w w' H => proj1 H) started_safe Hp) as (H1 & _ & H3); [|by split].
  constructor; [|done]. intros s1 _. apply calm_any. apply everywhere_bind; [apply request_calm|done].
Qed.

(** C9: A cancelled deployment never switched the robot. Whatever requests, jobs and cancels of any number of API processes do
    side by side, with failing reads and writes and killed jobs, every switch and rollback is sent past the point of no
    return; so where the deployment ends cancelled none was sent, and none is sent after. *)
Theorem cancelled_never_switched kind m tag l s ts :
  happens kind m tag l s ts -> state_of (w_slot s) = Some CANCELLED -> Forall (fun t => switching (projT2 t.1.1) = false) l.
Proof.
  intros [Hl _]%happens_orderly Hs. eapply Forall_impl; [exact Hl|]. intros [[[X e] w] w'] [[_ Hp] Hr]. cbn in *.
  destruct (switching e); [|done]. exfalso. pose proof (others_past _ _ Hr (Hp eq_refl)) as Hpast. unfold past in Hpast. rewrite Hs in Hpast. by destruct Hpast.
Qed.

(** A final row is never changed again; it can only be deleted, by the request that created it. *)
Theorem final_row_kept kind m tag l s ts l' s' ts' d :
  happens kind m tag l s ts -> pool acts started s ts l' s' ts' -> w_slot s = Row d -> FINAL (d_state d) = true ->
  w_slot s' = Row d \/ w_slot s' = Gone d.
Proof.
  intros [_ Hts]%happens_orderly Hp Hs Hf.
  destruct (pool_sound acts started others orderly _ _ _ _ _ (fun X e w w' H => proj1 H) started_safe Hp Hts) as (_ & Hr & _).
  apply (rtc_keeps (fun s => w_slot s = Row d \/ w_slot s = Gone d)) in Hr; [done| |by left].
  intros s1 s2 [->|Hm] H1; [done|]. destruct Hm as [d1 H2|d1 d2 H2 H3|d1 d2 H2|d1]; destruct H1; simplify_eq; [| |by right].
  - by destruct (d_state d).
  - exfalso. destruct (d_state d), (d_state d2); inversion H2; simplify_eq; done.
Qed.
End deployments.

(** ** One job at a time

    The documented case: one job drives the row (the advisory lock) and the request is over; the others may cancel the
    deployment or delete its row, and time passes. With [ok] the database answers. *)

Definition meddles (s s' : Shared) : Prop :=
  w_blind s' = w_blind s /\ (w_now s <= w_now s')%Z /\
  (w_slot s' = w_slot s \/ exists d, w_slot s = Row d /\
    (w_slot s' = Gone d \/ CANCELLABLE (d_state d) = true /\ exists d', w_slot s' = Row d' /\ d_state d' = CANCELLED)).
Definition db_answers {X : Type} (e : ev X) : X -> Prop :=
  match e in ev X return X -> Prop with
  | Get => fun x => x <> Raise tt
  | Update _ _ _ => fun x => x <> Raise tt
  | _ => fun _ => True
  end.
Definition alone (ok : bool) (X : Type) (e : ev X) (w : World) (x : X) (w' : World) : Prop :=
  among acts meddles X e w x w' /\ (ok = true -> db_answers e x).

(** A switch that may have been sent is recorded in its step before *)
Definition step_recorded (d : Dep) : Prop :=
  s_state (step_of "switch" (d_steps d)) = STEP_RUNNING \/ s_state (step_of "switch" (d_steps d)) = STEP_DONE.
Definition recorded (s : Shared) : Prop :=
  w_blind s = true -> match w_slot s with Row d => CANCELLABLE (d_state d) = false /\ (d_state d = SWITCH -> step_recorded d) | _ => True end.
(** What every step keeps; [excused]: the job was started where it may send a switch that is unanswered *)
Definition not_blind (excused : Prop) (X : Type) (e : ev X) (w w' : World) : Prop := (switching e = true -> w_blind w.1 = false \/ excused) /\ recorded w'.1.

Definition agree (d d' : Dep) : Prop :=
  d_kind d = d_kind d' /\ d_mode d = d_mode d' /\ d_tag d = d_tag d' /\ d_state d = d_state d' /\ d_steps d = d_steps d'.
(** The row is the one the program knows, or somebody cancelled or deleted it *)
Definition synced (e : Dep) (s : Shared) : Prop := match w_slot s with Unborn => False | Row d => d_state d = CANCELLED \/ agree d e | Gone _ => True end.
Definition ended (s : Shared) : Prop := match w_slot s with Unborn => False | Row d => d_state d = CANCELLED | Gone _ => True end.
Definition undone (ok : bool) (s : Shared) : Prop := match w_slot s with Unborn => False | Row d => ok = true -> d_state d <> DONE | Gone _ => True end.
(** [t]: a time that has passed *)
Definition sound (P : Dep -> Prop) (t : Z) (w : World) : Prop :=
  P (m_dep w.2) /\ synced (m_dep w.2) w.1 /\ recorded w.1 /\ (CANCELLABLE (d_state (m_dep w.2)) = true -> w_blind w.1 = false) /\ (t <= w_now w.1)%Z.
(** How a part of a job ends *)
Definition exits {A : Type} (ok : bool) (P : Dep -> Prop) (t : Z) (r : result Exc A) (w : World) : Prop :=
  match r with
  | Ok _ => sound P t w
  | Raise Stuck => False
  | Raise Stop => ended w.1 /\ recorded w.1
  | Raise _ => undone ok w.1 /\ recorded w.1
  end.

Lemma meddles_recorded s s' : meddles s s' -> recorded s -> recorded s'.
Proof.
  intros (Hb & _ & Hs) Hr Hb'. rewrite Hb in Hb'. specialize (Hr Hb'). destruct Hs as [->|(d & Hd & [->|(_ & d' & -> & Hd')])]; [done|done|]. by rewrite Hd'.
Qed.
Lemma meddles_synced e s s' : meddles s s' -> synced e s -> synced e s'.
Proof. unfold synced. intros (_ & _ & [->|(d & Hd & [->|(_ & d' & -> & Hd')])]); [done|done|]. rewrite Hd. by left. Qed.
Lemma meddles_ended s s' : meddles s s' -> ended s -> ended s'.
Proof. unfold ended. intros (_ & _ & [->|(d & Hd & [->|(_ & d' & -> & Hd')])]); done. Qed.
Lemma meddles_undone ok s s' : meddles s s' -> undone ok s -> undone ok s'.
Proof. unfold undone. intros (_ & _ & [->|(d & Hd & [->|(_ & d' & -> & Hd')])]); [done|done|]. by rewrite Hd'. Qed.
Lemma meddled (J : Shared -> Prop) (HJ : forall s s', meddles s s' -> J s -> J s') s s' : rtc meddles s s' -> J s -> J s'.
Proof. induction 1; [done|]. eauto. Qed.
Lemma meddled_blind s s' : rtc meddles s s' -> w_blind s' = w_blind s /\ (w_now s <= w_now s')%Z.
Proof. induction 1 as [|x y z (H1 & H2 & _) _ [IH1 IH2]]; [done|]. split; [congruence|lia]. Qed.
Lemma meddled_sound P t w s' : rtc meddles w.1 s' -> sound P t w -> sound P t (s', w.2).
Proof.
  intros Hr (H1 & H2 & H3 & H4 & H5). destruct (meddled_blind _ _ Hr) as [Hb Ht]. split_and!; [done| | | |cbn; lia].
  - by eapply (meddled (synced _) (meddles_synced _)).
  - by eapply (meddled recorded meddles_recorded).
  - cbn. by rewrite Hb.
Qed.

(** Effects that change neither row nor send a switch *)
Definition quiet (X : Type) (e : ev X) : Prop :=
  match e with Edit _ | Insert _ | Update _ _ _ | Delete => False | Ask q => switches q = false | Sleep s => (0 <= s)%Z | _ => True end.
Definition takes {X : Type} (e : ev X) : Z := match e with Ask _ => 1 | _ => 0 end.
Lemma quiet_acts X (e : ev X) w x w' : quiet X e -> acts X e w x w' ->
  m_dep w'.2 = m_dep w.2 /\ w_slot w'.1 = w_slot w.1 /\ (w_blind w'.1 = w_blind w.1 \/ w_blind w'.1 = false) /\ (w_now w.1 + takes e <= w_now w'.1)%Z.
Proof.
  intros Hq Ha. destruct e; try done; [..|destruct q; try done| | |]; cbn in Ha, Hq; unfold later in Ha; destruct_and? Ha; subst; split_and!;
    try done; try congruence; try (cbn; lia); try (by left); try (left; congruence).
  destruct x as [st|]; destruct_and?; [|by left]. match goal with H : _ = (if ?b then _ else _) |- _ => destruct b end; auto.
Qed.

Section job_alone.
Context (ok : bool) {excused : Prop}.
Notation wpb := (wp (alone ok) (not_blind excused)).

Lemma quiet_step P t X (e : ev X) w x w' : quiet X e -> sound P t w -> alone ok X e w x w' -> not_blind excused X e w w' /\ sound P (t + takes e) w'.
Proof.
  intros Hq (H1 & H2 & H3 & H4 & H5) [(s1 & Ha & Hr) _]. destruct (quiet_acts _ _ _ _ _ Hq Ha) as (Hd & Hs & Hb & Ht). cbn in *.
  assert (sound P (t + takes e) (s1, w'.2)) as Hw.
  { unfold sound, synced, recorded. cbn. rewrite Hd, Hs. split_and!; [done|done|intros; apply H3|intros; specialize (H4 ltac:(done))|lia]; destruct Hb; congruence. }
  apply (meddled_sound _ _ (s1, w'.2) w'.1 Hr) in Hw. cbn in Hw. rewrite <- surjective_pairing in Hw. split; [|done]. split; [|apply Hw]. destruct e; try done. cbn. by rewrite Hq.
Qed.
Lemma job_clock_step P t w x w' : sound P t w -> alone ok _ Clock w x w' -> not_blind excused _ Clock w w' /\ sound P x w' /\ (t <= x)%Z.
Proof.
  intros Hw H. pose proof H as [(s1 & [-> Hs] & Hr) _]. destruct (quiet_step P (w_now w.1) _ Clock w (w_now w.1) w' I) as [Hg Hs']; [|done|].
  - destruct Hw as (? & ? & ? & ? & ?). split_and!; done || lia.
  - split; [done|]. cbn in Hs'. rewrite Z.add_0_r in Hs'. split; [done|]. by destruct Hw as (? & ? & ? & ? & ?).
Qed.

(** A write of the row the program knows as [e0] that makes it [e] *)
Lemma update_step e0 expect f t w x w' :
  synced e0 w.1 -> recorded w.1 -> (CANCELLABLE (d_state e0) = true -> w_blind w.1 = false) -> (t <= w_now w.1)%Z ->
  expect (d_state e0) = true -> expect CANCELLED = false ->
  (forall d, agree d e0 -> agree (set_steps (d_steps (m_dep w.2)) (f d)) (m_dep w.2)) ->
  (CANCELLABLE (d_state e0) = true \/ CANCELLABLE (d_state (m_dep w.2)) = false /\ (d_state (m_dep w.2) = SWITCH -> step_recorded (m_dep w.2))) ->
  alone ok _ (Update expect f (d_steps (m_dep w.2))) w x w' ->
  not_blind excused _ (Update expect f (d_steps (m_dep w.2))) w w'
  /\ match x with Ok true => sound (eq (m_dep w.2)) t w' | Ok false => ended w'.1 /\ recorded w'.1 | Raise _ => undone ok w'.1 /\ recorded w'.1 end.
Proof.
  intros Hs Hr Hb Ht He Hc Hf Hn [(s1 & [Hm Ha] & Hd) Hok]. cbn in Hm, Ha.
  assert (forall d, agree d e0 -> w_blind w.1 = true -> CANCELLABLE (d_state (set_steps (d_steps (m_dep w.2)) (f d))) = false
    /\ (d_state (set_steps (d_steps (m_dep w.2)) (f d)) = SWITCH -> step_recorded (set_steps (d_steps (m_dep w.2)) (f d)))) as Hnew.
  { intros d Hag Hbl. destruct (Hf d Hag) as (_ & _ & _ & E1 & E2). unfold step_recorded. rewrite E1, E2. destruct Hn as [Hn|Hn]; [|done]. specialize (Hb Hn). congruence. }
  assert (w_blind s1 = w_blind w.1 /\ (w_now w.1 <= w_now s1)%Z /\ recorded s1 /\
    match x with
    | Ok true => match w_slot s1 with Row d => agree d (m_dep w.2) | _ => False end
    | Ok false => ended s1
    | Raise _ => undone ok s1
    end) as (Hb1 & Ht1 & Hr1 & Hx).
  { unfold synced in Hs. destruct (w_slot w.1) as [|d|d] eqn:Hsl; [done| |].
    - destruct (expect (d_state d)) eqn:Hex.
      + destruct Hs as [Hs|Hs]; [congruence|]. destruct Ha as (H1 & H2 & H3). split_and!; [done|done| |].
        * intros Hbl. rewrite H1 in Hbl. destruct x as [y|]; [destruct H3 as [_ ->]; by apply Hnew|]. destruct H3 as [-> | ->]; [|by apply Hnew].
          exact (Hr Hbl).
        * destruct x as [y|[]]; [destruct H3 as [-> ->]; by apply Hf|]. unfold undone. destruct H3 as [-> | ->]; [rewrite ?Hsl|]; intros Hk; by destruct (Hok Hk).
      + destruct Ha as [(H1 & H2 & H3) H4]. split_and!; [done|lia| |].
        * intros Hbl. rewrite H2 in Hbl. specialize (Hr Hbl). rewrite Hsl in Hr. by rewrite H1, ?Hsl.
        * unfold ended, undone. rewrite H1, ?Hsl. destruct Hs as [Hs|(_ & _ & _ & Hs & _)]; [|congruence]. destruct x as [[]|]; [done|done|by rewrite Hs].
    - destruct Ha as [(H1 & H2 & H3) H4]. split_and!; [done|lia|intros _; by rewrite H1, ?Hsl|]. unfold ended, undone. rewrite H1, ?Hsl. by destruct x as [[]|]. }
  assert (recorded w'.1) as Hrw by (by eapply (meddled recorded meddles_recorded)). split; [by split|].
  destruct x as [[]|].
  - assert (sound (eq (m_dep w.2)) t (s1, w'.2)) as Hw.
    { unfold sound. cbn. rewrite Hm. split_and!; [done| |done| |lia].
      - unfold synced. destruct (w_slot s1); [done|by right|done].
      - intros Hcc. rewrite Hb1. destruct Hn as [Hn|[Hn _]]; [by apply Hb|congruence]. }
    apply (meddled_sound _ _ (s1, w'.2) w'.1 Hd) in Hw. cbn in Hw. by rewrite <- surjective_pairing in Hw.
  - split; [|done]. by eapply (meddled ended meddles_ended).
  - split; [|done]. by eapply (meddled (undone ok) (meddles_undone ok)).
Qed.
(** [save] and [set_step]: [P] holds of the program's row before and [Q] after *)
Lemma step_of_edit name st op l : s_state (step_of name (edit_steps name st op l)) = st.
Proof.
  unfold step_of. induction l as [|s l IH]; cbn.
  - by rewrite bool_decide_eq_true_2.
  - case_bool_decide as Hn; cbn; [by rewrite bool_decide_eq_true_2|]. by rewrite bool_decide_eq_false_2.
Qed.

(** Steps of the program on its own row *)
Lemma own_step {X : Type} (e : ev X) w x w' : match e with Local | Edit _ => True | _ => False end -> recorded w.1 -> alone ok X e w x w' ->
  not_blind excused X e w w' /\ recorded w'.1 /\ rtc meddles w.1 w'.1 /\ m_dep w'.2 = match e with Edit f => f (m_dep w.2) | _ => m_dep w.2 end.
Proof.
  intros He Hr [(s1 & Ha & Hd) _]. assert (s1 = w.1) as ->.
  { destruct e; try done; cbn in Ha; [destruct Ha as [_ Ha]|]; by rewrite <- Ha || injection Ha. }
  assert (recorded w'.1) by (by eapply (meddled recorded meddles_recorded)). apply acts_own in Ha. split_and!; [by destruct e|done..].
Qed.

Lemma save_from (Q : Dep -> Prop) e0 expect f t w :
  synced e0 w.1 -> recorded w.1 -> (CANCELLABLE (d_state e0) = true -> w_blind w.1 = false) -> (t <= w_now w.1)%Z ->
  expect (d_state e0) = true -> expect CANCELLED = false -> Q (f (m_dep w.2)) ->
  (forall d, agree d e0 -> agree (set_steps (d_steps (f (m_dep w.2))) (f d)) (f (m_dep w.2))) ->
  (CANCELLABLE (d_state e0) = true \/ CANCELLABLE (d_state (f (m_dep w.2))) = false /\ (d_state (f (m_dep w.2)) = SWITCH -> step_recorded (f (m_dep w.2)))) ->
  wpb (save expect f) (exits ok Q t) w.
Proof.
  intros H2 H3 H4 H5 Hex Hc HQ Hf Hn.
  intros [] w2 A2. destruct (own_step (Edit f) _ _ _ I H3 A2) as (G2 & R2 & Hr2 & Hm2). split; [done|].
  intros d w3 A3. pose proof A3 as [(s3 & [-> _] & _) _]. destruct (own_step Local _ _ _ I R2 A3) as (G3 & R3 & Hr3 & Hm3). split; [done|].
  assert (rtc meddles w.1 w3.1) as Hr13 by (by etrans). destruct (meddled_blind _ _ Hr13) as [Hb Ht].
  rewrite Hm2 in Hm3. rewrite Hm2, <- Hm3. rewrite <- Hm3 in Hf, Hn, HQ.
  intros x w4 A4. destruct (update_step e0 expect f t w3 x w4) as [Hg Hx]; try done; [by eapply (meddled (synced _) (meddles_synced _))|by rewrite Hb|lia|].
  split; [done|]. destruct x as [[]|]; [|done..]. destruct Hx as (Hx & Hx'). split; [|done]. by rewrite <- Hx.
Qed.
Lemma save_wp (P Q : Dep -> Prop) expect f t w : sound P t w ->
  (forall d, P d -> expect (d_state d) = true /\ Q (f d)
     /\ (CANCELLABLE (d_state d) = true \/ CANCELLABLE (d_state (f d)) = false /\ (d_state (f d) = SWITCH -> step_recorded (f d)))) ->
  expect CANCELLED = false -> (forall d e, agree d e -> agree (set_steps (d_steps (f e)) (f d)) (f e)) ->
  wpb (save expect f) (exits ok Q t) w.
Proof. intros (H1 & H2 & H3 & H4 & H5) HP Hc Hf. destruct (HP _ H1) as (Hex & HQ & Hn). eapply save_from; try done. intros. by apply Hf. Qed.
Lemma set_step_wp (P Q : Dep -> Prop) name st op t w : sound P t w ->
  (forall d, P d -> ACTIVE (d_state d) = true /\ Q (edit_step name st op d)
     /\ (CANCELLABLE (d_state d) = true \/ CANCELLABLE (d_state d) = false /\ (d_state d = SWITCH -> name = "switch" /\ (st = STEP_RUNNING \/ st = STEP_DONE)))) ->
  wpb (set_step name st op) (exits ok Q t) w.
Proof.
  intros (H1 & H2 & H3 & H4 & H5) HP. destruct (HP _ H1) as (Hex & HQ & Hn).
  intros [] w1 A1. destruct (own_step (Edit (edit_step name st op)) _ _ _ I H3 A1) as (G1 & R1 & Hr1 & Hm1). split; [done|]. destruct (meddled_blind _ _ Hr1) as [Hb Ht].
  eapply (save_from Q (m_dep w.2)); try done; rewrite ?Hm1; try done.
  - by eapply (meddled (synced _) (meddles_synced _)).
  - by rewrite Hb.
  - lia.
  - intros d (E1 & E2 & E3 & E4 & E5). done.
  - destruct Hn as [Hn|[Hn Hs]]; [by left|right]. split; [done|]. intros [-> [-> | ->]]%Hs; [left|right]; cbn; apply step_of_edit.
Qed.
(** ** Parts of a job that keep what it knows *)

Lemma sound_weaken P t t' w : (t' <= t)%Z -> sound P t w -> sound P t' w.
Proof. intros Ht (? & ? & ? & ? & ?). split_and!; done || lia. Qed.
Lemma exits_weaken {A : Type} P t t' (r : result Exc A) w : (t' <= t)%Z -> exits ok P t r w -> exits ok P t' r w.
Proof. destruct r as [a|[]]; cbn; eauto using sound_weaken. Qed.
Lemma takes_pos {X : Type} (e : ev X) : (0 <= takes e)%Z.
Proof. by destruct e. Qed.

Section steady.
Context (P : Dep -> Prop) (HP : forall d, P d -> ACTIVE (d_state d) = true).
Definition steady {A : Type} (p : prog ev (result Exc A)) : Prop := forall t w, sound P t w -> wpb p (exits ok P t) w.

Lemma sound_undone t w : sound P t w -> undone ok w.1 /\ recorded w.1.
Proof.
  intros (H1 & H2 & H3 & _). split; [|done]. unfold synced in H2. unfold undone. destruct (w_slot w.1) as [|d|d]; [done| |done]. intros _ Hd.
  destruct H2 as [H2|(_ & _ & _ & H2 & _)]; [congruence|]. specialize (HP _ H1). rewrite <- H2, Hd in HP. done.
Qed.
Lemma steady_ok {A : Type} (a : A) : steady (done a).
Proof. by intros t w. Qed.
Lemma steady_raise {A : Type} e : e <> Stuck -> e <> Stop -> steady (@raise ev Exc A e).
Proof. intros H1 H2 t w Hw%sound_undone. by destruct e. Qed.
Lemma steady_ebind {A B : Type} (p : prog ev (result Exc A)) (k : A -> prog ev (result Exc B)) : steady p -> (forall a, steady (k a)) -> steady (ebind p k).
Proof. intros Hp Hk t w Hw. apply wp_ebind. eapply wp_mono; [|by apply Hp]. intros [a|e] w' H'; [by apply Hk|done]. Qed.
Lemma steady_vis {X A : Type} (e : ev X) (k : X -> prog ev (result Exc A)) : quiet X e -> (forall x, steady (k x)) -> steady (bind (perform e) k).
Proof.
  intros Hq Hk t w Hw x w1 A1. destruct (quiet_step P t _ e w x w1 Hq Hw A1) as [Hg H1]. split; [done|]. apply Hk. eapply sound_weaken; [|done]. pose proof (takes_pos e). lia.
Qed.
Lemma steady_local {A : Type} (k : Dep -> prog ev (result Exc A)) : (forall d, P d -> steady (k d)) -> steady (local k).
Proof.
  intros Hk t w Hw d w1 A1. pose proof A1 as [(s1 & [-> _] & _) _]. destruct (quiet_step P t _ Local w _ w1 I Hw A1) as [Hg H1]. split; [done|].
  apply Hk; [apply Hw|]. by rewrite Z.add_0_r in H1.
Qed.
Lemma steady_catch {A : Type} (p : prog ev (result Exc A)) (h : Exc -> prog ev (result Exc A)) (g : Exc -> Exc) : (forall e, h e = raise (g e)) ->
  (forall e, match e with Stop => g e = Stop | Stuck => True | _ => g e <> Stop /\ g e <> Stuck end) -> steady p -> steady (catch p h).
Proof.
  intros Hh Hg Hp t w Hw. apply wp_catch. eapply wp_mono; [|by apply Hp]. intros [a|e] w' H'; [done|]. rewrite Hh. specialize (Hg e). cbn.
  destruct e; try done; destruct (g _); try done; by destruct Hg.
Qed.
Lemma steady_set_step name st op :
  (forall d, P d -> P (edit_step name st op d) /\ (d_state d = SWITCH -> name = "switch" /\ (st = STEP_RUNNING \/ st = STEP_DONE))) -> steady (set_step name st op).
Proof.
  intros He t w Hw. eapply set_step_wp; [exact Hw|]. intros d Hd. destruct (He d Hd). split_and!; [by apply HP|done|].
  destruct (CANCELLABLE (d_state d)) eqn:Hc; [by left|by right].
Qed.
Lemma steady_read {X : Type} (e : ev (result FactExn X)) : quiet _ e -> steady (read e).
Proof. intros. apply steady_vis; [done|]. intros [?|?]; [apply steady_ok|by apply steady_raise]. Qed.
Lemma steady_fact {X : Type} (e : ev (result FactExn X)) : quiet _ e -> steady (fact e).
Proof. intros. apply steady_vis; [done|]. intros [?|[]]; [apply steady_ok|by apply steady_raise..]. Qed.
Lemma steady_clock : steady clock.
Proof. apply steady_vis; [done|]. intros. apply steady_ok. Qed.
End steady.
End job_alone.
Arguments steady _ _ _ {_} _.

Ltac steady_step_tac HP :=
  match goal with
  | |- steady _ _ _ (done _) => apply steady_ok
  | |- steady _ _ _ (raise _) => apply steady_raise; [exact HP|discriminate..]
  | |- steady _ _ _ (ebind _ _) => apply steady_ebind; [|intros ?]
  | |- steady _ _ _ (bind (perform _) _) => apply steady_vis; [cbn; done|intros ?]
  | |- steady _ _ _ (local _) => apply steady_local; intros ? ?
  | |- steady _ _ _ (fact _) => apply steady_fact; [exact HP|exact I]
  | |- steady _ _ _ (read _) => apply steady_read; [exact HP|exact I]
  | |- steady _ _ _ clock => apply steady_clock
  | |- steady _ _ _ (match ?x with _ => _ end) => destruct x
  end.
Ltac steady_tac HP := repeat first [steady_step_tac HP | progress cbv zeta | solve [eauto with deploy]].

Section steady_parts.
Context (ok : bool) {excused : Prop} (NAVSTACK_IMAGE : string) (online_max_age_s pull_poll_s pull_timeout_s switch_poll_s switch_timeout_s verify_poll_s verify_timeout_s : Z).
Notation wpb := (wp (alone ok) (not_blind excused)).
(** What a program knows of its row in a state *)
Definition in_state (st : State) (d : Dep) : Prop := d_state d = st.
Lemma in_active st : ACTIVE st = true -> forall d, in_state st d -> ACTIVE (d_state d) = true.
Proof. by intros ? d ->. Qed.

Section parts.
Context (P : Dep -> Prop) (HP : forall d, P d -> ACTIVE (d_state d) = true).
Lemma steady_guards : steady ok excused P (guards online_max_age_s).
Proof. unfold guards. steady_tac HP. Qed.
Lemma steady_status : steady ok excused P status.
Proof. unfold status. steady_tac HP. Qed.
Lemma steady_switch_check m t : steady ok excused P (switch_check m t).
Proof. unfold switch_check. steady_tac HP. Qed.
End parts.

Lemma steady_edit st f : ACTIVE st = true -> (forall d, d_state (f d) = d_state d /\ d_steps (f d) = d_steps d) ->
  (forall d e, agree d e -> agree (f d) (f e)) -> st <> SWITCH -> steady ok excused (in_state st) (save ACTIVE f).
Proof.
  intros Ha Hf Hag Hst t w Hw. eapply save_wp; [exact Hw| |done|].
  - unfold in_state. intros d Hd. destruct (Hf d) as [E _]. rewrite E, Hd. split_and!; [done|done|]. destruct (CANCELLABLE st); [by left|by right].
  - intros d e (E1 & E2 & E3 & E4 & E5)%Hag. done.
Qed.
Lemma then_wp {A B : Type} (p : prog ev (result Exc A)) (k : A -> prog ev (result Exc B)) Q Q' t w :
  wpb p (exits ok Q t) w -> (forall a w', sound Q t w' -> wpb (k a) (exits ok Q' t) w') -> wpb (ebind p k) (exits ok Q' t) w.
Proof. intros Hp Hk. apply wp_ebind. eapply wp_mono; [|exact Hp]. intros [a|e] w' H'; [by apply Hk|]. by destruct e. Qed.
Lemma steady_then {A B : Type} P (p : prog ev (result Exc A)) (k : A -> prog ev (result Exc B)) Q t w :
  steady ok excused P p -> sound P t w -> (forall a w', sound P t w' -> wpb (k a) (exits ok Q t) w') -> wpb (ebind p k) (exits ok Q t) w.
Proof. intros Hp Hw Hk. eapply then_wp; [by apply Hp|done]. Qed.
Lemma local_then {B : Type} P (k : Dep -> prog ev (result Exc B)) Q t w :
  sound P t w -> (forall d w', P d -> d = m_dep w.2 -> m_dep w'.2 = d -> w_blind w'.1 = w_blind w.1 -> sound P t w' -> wpb (k d) (exits ok Q t) w') -> wpb (local k) (exits ok Q t) w.
Proof.
  intros Hw Hk d w1 A1. pose proof A1 as [(s1 & [-> Hs] & Hr) _]. destruct (quiet_step (excused := excused) _ P t _ Local w _ w1 I Hw A1) as [Hg H1]. split; [done|]. cbn in H1. rewrite Z.add_0_r in H1.
  apply Hk; [apply Hw|done| | |done]; [by rewrite <- Hs|]. rewrite (proj1 (meddled_blind _ _ Hr)). by rewrite <- Hs.
Qed.

Lemma advance_wp st to f t w : sound (in_state st) t w -> ACTIVE st = true ->
  CANCELLABLE st = true \/ CANCELLABLE to = false /\ to <> SWITCH ->
  (forall d, d_state (f d) = d_state d /\ d_steps (f d) = d_steps d) -> (forall d e, agree d e -> agree (f d) (f e)) ->
  forall Q : Dep -> Prop, (forall d, in_state st d -> in_state to (f (set_state to d)) -> Q (f (set_state to d))) -> wpb (advance st to f) (exits ok Q t) w.
Proof.
  intros Hw Ha Hc Hf Hag Q HQ. eapply save_wp; [exact Hw| | |].
  - unfold in_state in *. intros d Hd. destruct (Hf (set_state to d)) as [E _]. cbn in E. split_and!.
    + unfold only. by apply bool_decide_eq_true_2.
    + by apply HQ.
    + rewrite E, Hd. destruct Hc as [Hc|[Hc1 Hc2]]; [by left|by right].
  - unfold only. apply bool_decide_eq_false_2. by intros <-.
  - intros d e (E1 & E2 & E3 & E4 & E5). destruct (Hag (set_state to d) (set_state to e)) as (F1 & F2 & F3 & F4 & F5); done.
Qed.

(** The preflight *)
Lemma preflight_wp t w : sound (in_state PREFLIGHT) t w -> wpb (preflight online_max_age_s) (exits ok (in_state PREFLIGHT) t) w.
Proof.
  revert t w. change (steady ok excused (in_state PREFLIGHT) (preflight online_max_age_s)). pose proof (in_active PREFLIGHT eq_refl) as HP.
  pose proof (steady_guards _ HP) as Hg. pose proof (steady_status _ HP) as Hs. pose proof (steady_switch_check _ HP) as Hc.
  assert (forall f, (forall d, d_state (f d) = d_state d /\ d_steps (f d) = d_steps d) -> (forall d e, agree d e -> agree (f d) (f e)) -> steady ok excused (in_state PREFLIGHT) (save ACTIVE f)) as He
    by (intros; by apply steady_edit).
  unfold preflight, preflight_target. steady_tac HP; apply He; try done; intros d' e' (E1 & E2 & E3 & E4 & E5); by repeat split.
Qed.
Lemma phase_preflight_wp t w st : sound (in_state st) t w -> st = QUEUED \/ st = PREFLIGHT -> wpb (phase_preflight online_max_age_s) (exits ok (in_state PULL) t) w.
Proof.
  intros Hw Hst. assert (ACTIVE st = true) as Ha by (by destruct Hst as [-> | ->]). pose proof (in_active st Ha) as HP.
  unfold phase_preflight. apply wp_catch. apply wp_mono with (Q := exits ok (in_state PULL) t); [by intros [?|[]] w' H'|].
  eapply steady_then; [by apply steady_fact|done|]. intros _ w1 H1. eapply local_then; [exact H1|]. intros d w2 Hd _ _ _ H2. unfold in_state in Hd.
  eapply then_wp with (Q := in_state PREFLIGHT).
  - destruct Hst as [-> | ->]; rewrite Hd; cbn; [|done]. rewrite bool_decide_eq_true_2 by done. eapply advance_wp; try done; first [by left|by repeat split].
  - intros _ w3 H3. eapply then_wp with (Q := in_state PREFLIGHT).
    + eapply set_step_wp; [exact H3|]. intros d' Hd'. unfold in_state in *. rewrite Hd'. split_and!; [done|done|by left].
    + intros _ w4 H4. eapply then_wp; [by apply preflight_wp|]. intros _ w5 H5. eapply then_wp with (Q := in_state PREFLIGHT).
      * eapply set_step_wp; [exact H5|]. intros d' Hd'. unfold in_state in *. rewrite Hd'. split_and!; [done|done|by left].
      * intros _ w6 H6. eapply advance_wp; try done; first [by left|by repeat split].
Qed.
(** A poll ends before the bound of the model does *)
Lemma poll_op_wp P (HP : forall d, P d -> ACTIVE (d_state d) = true) step op_id poll_s timeout_s started fuel :
  (forall d, P d -> P (edit_step step STEP_RUNNING None d) /\ (d_state d = SWITCH -> step = "switch")) -> (0 <= poll_s)%Z ->
  forall t last w, sound P t w -> fuel <> 0 -> (started + timeout_s - t < Z.of_nat fuel)%Z -> wpb (poll_op fuel step op_id poll_s timeout_s started last) (exits ok P t) w.
Proof.
  intros Hs Hpoll. induction fuel as [|fuel IH]; intros t last w Hw Hf Ht; [done|]. cbn [poll_op].
  set (go := fun last : option string => ebind clock (fun now => if (timeout_s <=? now - started)%Z then raise (Fail false step)
    else perform (Sleep poll_s) ;;; poll_op fuel step op_id poll_s timeout_s started last)).
  assert (forall last w, sound P (t + 1) w -> wpb (go last) (exits ok P t) w) as Hgo.
  { clear w Hw last. intros last w Hw now w1 A1. destruct (job_clock_step (excused := excused) _ P _ _ _ _ Hw A1) as (Hg & H1 & Hnow). split; [done|]. cbn.
    destruct (timeout_s <=? now - started)%Z eqn:E; [exact (sound_undone ok P HP _ _ H1)|]. apply Z.leb_gt in E. cbn.
    intros [] w2 A2. destruct (quiet_step (excused := excused) _ P now _ (Sleep poll_s) w1 tt w2 Hpoll H1 A2) as [Hg2 H2]. split; [done|]. cbn in H2. rewrite Z.add_0_r in H2.
    eapply wp_mono; [|apply IH; [exact H2|lia|lia]]. intros r w3 H3. eapply exits_weaken; [|exact H3]. lia. }
  intros x w1 A1. destruct (quiet_step (excused := excused) _ P t _ (Ask (ImageOperation op_id)) w x w1 eq_refl Hw A1) as [Hg H1]. split; [done|]. cbn in H1.
  destruct x as [op|[k d|d]]; cbn [bind].
  - destruct (bool_decide (o_state op = _)); cbn [negb]; [|eapply sound_weaken; [|exact H1]; lia]. destruct (negb (falsy_str _) && _); [|by apply Hgo].
    apply wp_ebind. eapply wp_mono; [|eapply (set_step_wp _ P P step STEP_RUNNING None (t + 1)); [exact H1|]].
    + intros [[]|e] w2 H2; [by apply Hgo|]. by destruct e.
    + intros d Hd. destruct (Hs d Hd) as [H3 H4]. split_and!; [by apply HP|done|]. destruct (CANCELLABLE (d_state d)); [by left|right; split; [done|]].
      intros Hsw. split; [by apply H4|by left].
  - destruct k as [| | |code]; try by apply Hgo. destruct (code =? _)%Z; [eapply sound_weaken; [|exact H1]; lia|]. destruct (code <? _)%Z; [exact (sound_undone ok P HP _ _ H1)|by apply Hgo].
  - exact (sound_undone ok P HP _ _ H1).
Qed.
Lemma rounds_enough started timeout_s : (started + timeout_s - started < Z.of_nat (rounds timeout_s))%Z /\ rounds timeout_s <> 0.
Proof. unfold rounds. lia. Qed.

Lemma pull_wp P (HP : forall d, P d -> ACTIVE (d_state d) = true) tag op st t w :
  (forall d name s o, P d -> P (edit_step name s o d) /\ d_state d <> SWITCH) -> (0 <= pull_poll_s)%Z ->
  sound P t w -> wpb (pull pull_poll_s pull_timeout_s tag op st) (exits ok P t) w.
Proof.
  intros Hs Hpoll Hw.
  assert (forall name s o, steady ok excused P (set_step name s o)) as Hset by (intros; apply steady_set_step; [exact HP|]; intros d Hd; destruct (Hs d name s o Hd); by split).
  unfold pull. eapply steady_then; [apply Hset|done|]. intros _ w1 H1.
  eapply steady_then; [|exact H1|]. { unfold start_pull. steady_tac HP. } intros op_id w2 H2.
  eapply steady_then; [apply Hset|done|]. intros _ w3 H3.
  intros started w4 A4. destruct (job_clock_step (excused := excused) _ P _ _ _ _ H3 A4) as (Hg & H4 & Hle). split; [done|]. cbn [bind ebind].
  eapply wp_mono; [intros r w5 H5; eapply exits_weaken; [exact Hle|exact H5]|].
  destruct (rounds_enough started pull_timeout_s). eapply then_wp; [eapply (poll_op_wp P HP); try done|].
  - intros d Hd. destruct (Hs d "pull" STEP_RUNNING None Hd). by split.
  - intros final w5 H5. eapply steady_then; [|exact H5|]; [|intros; by apply Hset]. unfold local_tags. steady_tac HP.
Qed.

Lemma phase_pull_wp' t w : (0 <= pull_poll_s)%Z -> sound (in_state PULL) t w ->
  wpb (phase_pull online_max_age_s pull_poll_s pull_timeout_s) (exits ok (fun d => d_state d = SWITCH \/ d_state d = DONE /\ d_kind d = KIND_PULL) t) w.
Proof.
  intros Hpoll Hw. pose proof (in_active PULL eq_refl) as HP. unfold phase_pull. eapply steady_then; [by apply steady_fact|done|]. intros _ w1 H1.
  eapply local_then; [exact H1|]. intros d w2 Hd _ Hd2 _ H2.
  set (P := fun d' => in_state PULL d' /\ d_kind d' = d_kind d).
  assert (forall d, P d -> ACTIVE (d_state d) = true) as HP' by (by intros d' [-> _]).
  assert (sound P t w2) as H2' by (destruct H2 as [H0 H2]; split; [split; [done|by rewrite Hd2]|done]).
  eapply then_wp with (Q := P).
  - assert (forall d' name s o, P d' -> P (edit_step name s o d') /\ d_state d' <> SWITCH) as He by (intros d' name s o [E1 E2]; split; [by split|by rewrite E1]).
    assert (forall name s o, steady ok excused P (set_step name s o)) as Hset by (intros; apply steady_set_step; [exact HP'|]; intros d' Hd'; destruct (He d' name s o Hd'); by split).
    destruct (d_mode d), (d_tag d) as [tag|]; try by apply Hset. destruct (bool_decide _); [by apply Hset|].
    eapply steady_then; [|exact H2'|].
    + apply (steady_catch _ _ _ _ (fun e => match e with Refusal => Fail false "pull" | e => e end)); [by intros []..|by apply steady_status].
    + intros st w3 H3. destruct (bool_decide _); [by apply Hset|]. by apply pull_wp.
  - intros _ w3 H3. destruct (bool_decide (d_kind d = KIND_PULL)) eqn:Hk.
    + bprop. eapply save_wp; [exact H3| |done|].
      * intros d' [E1 E2]. unfold in_state in E1. cbn. rewrite E1, E2. split_and!; [done|by right|by left].
      * intros d' e (E1 & E2 & E3 & E4 & E5). by repeat split.
    + eapply steady_then; [|exact H3|].
      * apply steady_local. intros d' Hd'. apply (steady_catch _ _ _ _ (fun e => match e with Refusal | Http => Fail false "switch" | e => e end)); [by intros []..|].
        apply steady_ebind; [by apply steady_guards|intros _; by apply steady_switch_check].
      * intros _ w4 H4. eapply save_wp; [exact H4| |done|].
        -- intros d' [E1 E2]. unfold in_state in E1. cbn. rewrite E1. split_and!; [done|by left|by left].
        -- intros d' e (E1 & E2 & E3 & E4 & E5). by repeat split.
Qed.
(** Parts that send no switch keep that none is unanswered *)
Definition unswitching (X : Type) (e : ev X) : Prop := switching e = false.
Lemma calm_unswitching X (e : ev X) : calm X e -> unswitching X e.
Proof. by destruct e. Qed.
Lemma unswitching_wp {A : Type} (p : prog ev A) w : everywhere unswitching p -> w_blind w.1 = false -> wp (alone ok) (fun _ _ _ _ => True) p (fun _ w' => w_blind w'.1 = false) w.
Proof.
  apply (everywhere_wp _ _ unswitching (fun w => w_blind w.1 = false)). clear. intros X e w x w' He Hb [(s1 & Ha & Hr) _]. split; [done|].
  rewrite (proj1 (meddled_blind _ _ Hr)). unfold unswitching in He. destruct e; [..|destruct q| | |]; try done; cbn in Ha; unfold later, writes in Ha;
    repeat case_match; destruct_and?; destruct_or?; destruct_and?; simplify_eq; try done; congruence.
Qed.
Lemma then_blind {A B : Type} (p : prog ev (result Exc A)) (k : A -> prog ev (result Exc B)) Q Q' t w :
  wpb p (exits ok Q t) w -> everywhere unswitching p ->
  (forall a w', sound Q t w' -> (w_blind w.1 = false -> w_blind w'.1 = false) -> wpb (k a) (exits ok Q' t) w') -> wpb (ebind p k) (exits ok Q' t) w.
Proof.
  intros Hp Hu Hk. destruct (w_blind w.1) eqn:Hb; [by eapply then_wp; [exact Hp|]; intros; apply Hk|].
  apply wp_ebind. eapply wp_mono; [|eapply wp_and; [exact Hp|by apply unswitching_wp]]. intros [a|e] w' [H' Hb']; [by apply Hk|]. by destruct e.
Qed.

(** The switch: it is sent only when none is unanswered, and after its step is recorded as running *)
Definition switching_step (d : Dep) : Prop := d_state d = SWITCH /\ s_state (step_of "switch" (d_steps d)) = STEP_RUNNING.
Lemma switching_active d : switching_step d -> ACTIVE (d_state d) = true.
Proof. by intros [-> _]. Qed.

Lemma post_step (q : ireq (result exn OpAnswer)) t w x w' : switches q = true -> w_blind w.1 = false \/ excused -> sound switching_step t w -> alone ok _ (Ask q) w x w' ->
  not_blind excused _ (Ask q) w w' /\ sound switching_step (t + 1) w'.
Proof.
  intros Hq Hb (H1 & H2 & H3 & H4 & H5) [(s1 & Ha & Hr) _].
  assert (w_slot s1 = w_slot w.1 /\ w_blind s1 = true /\ (w_now w.1 + 1 <= w_now s1)%Z /\ w'.2 = w.2) as (E1 & E2 & E3 & E4) by (destruct q; try done; exact Ha).
  assert (sound switching_step (t + 1) (s1, w'.2)) as Hw.
  { unfold sound. cbn. rewrite E4. split_and!; [done|by unfold synced; rewrite E1| | |lia].
    - intros _. rewrite E1. unfold synced in H2. destruct (w_slot w.1) as [|d|d]; [done| |done]. destruct H2 as [->|(_ & _ & _ & F1 & F2)]; [done|].
      destruct H1 as [H1 H1']. rewrite F1, H1. split; [done|]. intros _. left. by rewrite F2.
    - destruct H1 as [H1 _]. rewrite H1. done. }
  apply (meddled_sound _ _ (s1, w'.2) w'.1 Hr) in Hw. cbn in Hw. rewrite <- surjective_pairing in Hw. split; [|done]. split; [done|apply Hw].
Qed.

Lemma start_switch_wp' started fuel : (0 <= switch_poll_s)%Z -> forall post t w, sound switching_step t w -> fuel <> 0 ->
  (started + switch_timeout_s - t < Z.of_nat fuel)%Z -> (post = true -> w_blind w.1 = false \/ excused) ->
  wpb (start_switch switch_poll_s switch_timeout_s fuel started post) (exits ok switching_step t) w.
Proof.
  intros Hpoll. induction fuel as [|fuel IH]; intros post t w Hw Hf Ht Hpost; [done|]. cbn [start_switch].
  match goal with |- wp _ _ (if post then _ else ?ask) ?Q _ => assert (forall w, sound switching_step t w -> wpb ask Q w) as Hask end.
  { clear w Hw Hpost. intros w Hw now w1 A1. destruct (job_clock_step (excused := excused) _ _ _ _ _ _ Hw A1) as (Hg & H1 & Hnow). split; [done|]. cbn [bind done].
    destruct (switch_timeout_s <=? now - started)%Z eqn:E; [exact (sound_undone ok _ switching_active _ _ H1)|]. apply Z.leb_gt in E.
    eapply wp_mono; [intros r w3 H3; eapply (exits_weaken ok _ (now + 1)%Z); [|exact H3]; lia|].
    assert (Hrec : forall post w, sound switching_step (now + 1) w -> (post = true -> w_blind w.1 = false \/ excused) ->
      wpb (start_switch switch_poll_s switch_timeout_s fuel started post) (exits ok switching_step (now + 1)) w) by (intros; apply IH; try done; lia).
    intros x w2 A2. destruct (quiet_step (excused := excused) _ _ _ _ (Ask ImageStatus) _ _ _ eq_refl H1 A2) as [Hg2 H2]. split; [done|]. cbn in H2. cbn [bind].
    destruct x as [st|[k d|d]].
    - destruct A2 as [(s2 & Ha2 & Hr2) _]. cbn in Ha2. destruct Ha2 as (_ & _ & Hdep & _ & Hbl & _).
      eapply local_then; [exact H2|]. intros d w3 _ Hd _ Hb3 H3. rewrite Hdep in Hd. subst d.
      assert (clear_answer (m_dep w1.2) st = true -> w_blind w3.1 = false) as Hclear.
      { intros Hc. rewrite Hb3, (proj1 (meddled_blind _ _ Hr2)), Hbl. by rewrite Hc. }
      unfold clear_answer in Hclear. destruct (i_active st) as [op|].
      + destruct (negb (falsy_str (o_id op)) && _) eqn:Eop; [done|]. destruct (matches_running _ _); [done|]. apply Hrec; [done|]. intros _. left. apply Hclear.
        apply andb_false_iff in Eop as [Eop|Eop]; [apply negb_false_iff in Eop|]; by rewrite Eop, ?orb_true_r.
      + destruct (matches_running _ _); [done|]. apply Hrec; [done|]. intros _. left. by apply Hclear.
    - intros [] w3 A3. destruct (quiet_step (excused := excused) _ _ _ _ (Sleep switch_poll_s) _ tt _ Hpoll H2 A3) as [Hg3 H3]. split; [done|]. cbn in H3. rewrite Z.add_0_r in H3. by apply Hrec.
    - exact (sound_undone ok _ switching_active _ _ H2). }
  destruct post; [|by apply Hask]. eapply local_then; [exact Hw|]. intros d w1 _ _ _ Hb1 H1. specialize (Hpost eq_refl). rewrite <-Hb1 in Hpost. cbn [bind].
  unfold post_switch. apply wp_bind.
  assert (forall q : ireq (result exn OpAnswer), switches q = true -> wpb (perform (Ask q)) (fun _ w' => sound switching_step t w') w1) as Hq.
  { intros q Hs x w2 A2. destruct (post_step q t w1 x w2 Hs Hpost H1 A2) as [Hg2 H2]. split; [done|]. eapply sound_weaken; [|exact H2]. lia. }
  apply wp_mono with (Q := fun _ w' => sound switching_step t w'); [|by destruct (bool_decide (d_kind d = KIND_ROLLBACK)); apply Hq].
  intros x w2 H2. pose proof (sound_undone ok _ switching_active _ _ H2).
  destruct x as [a|[[] d'|d']]; try done; try by apply Hask. destruct (oa_noop a); [done|]. by destruct (falsy_str (oa_id a)).
Qed.
(** An unanswered switch shows in the step the program knows *)
Definition strict (w : World) : Prop :=
  w_blind w.1 = true -> excused \/ s_state (step_of "switch" (d_steps (m_dep w.2))) = STEP_RUNNING \/ is_Some (s_op (step_of "switch" (d_steps (m_dep w.2)))).
Lemma set_step_unswitching name st op : everywhere unswitching (set_step name st op).
Proof. eapply everywhere_mono; [apply calm_unswitching|apply calm_set_step]. Qed.
Lemma phase_switch_wp' t w : (0 <= switch_poll_s)%Z -> sound (in_state SWITCH) t w -> strict w ->
  wpb (phase_switch switch_poll_s switch_timeout_s) (exits ok (in_state VERIFY) t) w.
Proof.
  intros Hpoll Hw Hstrict. pose proof (in_active SWITCH eq_refl) as HP. unfold phase_switch.
  set (step := step_of "switch" (d_steps (m_dep w.2))).
  set (P := fun d => in_state SWITCH d /\ step_of "switch" (d_steps d) = step).
  assert (forall d, P d -> ACTIVE (d_state d) = true) as HP' by (by intros d [-> _]).
  assert (sound P t w) as Hw' by (destruct Hw as [H0 Hw]; split; [by split|done]).
  assert (forall Q : Dep -> Prop, (forall d, switching_step d -> Q d) -> forall d st op, in_state SWITCH d -> st = STEP_RUNNING -> Q (edit_step "switch" st op d)) as Hrun.
  { intros Q HQ d st op Hd ->. apply HQ. split; [done|]. apply step_of_edit. }
  assert (forall Q d st op, in_state SWITCH d -> st = STEP_RUNNING \/ st = STEP_DONE -> (Q (edit_step "switch" st op d) : Prop) ->
    ACTIVE (d_state d) = true /\ Q (edit_step "switch" st op d) /\ (CANCELLABLE (d_state d) = true \/ CANCELLABLE (d_state d) = false
      /\ (d_state d = SWITCH -> "switch" = "switch" /\ (st = STEP_RUNNING \/ st = STEP_DONE)))) as Hset.
  { intros Q d st op Hd Hst HQ. unfold in_state in Hd. rewrite Hd. split_and!; [done|done|by right]. }
  eapply then_blind; [by apply (steady_fact ok P HP')|by apply (everywhere_mono _ _ _ calm_unswitching), calm_fact|]. intros _ w1 H1 Hb1.
  eapply local_then; [exact H1|]. intros d w2 [Hd Hdstep] _ _ Hb2 H2. rewrite Hdstep.
  eapply then_blind with (Q := switching_step); [|apply set_step_unswitching|].
  { eapply set_step_wp; [exact H2|]. intros d' [Hd' _]. apply Hset; [done|by left|]. by apply Hrun. }
  intros _ w3 H3 Hb3. eapply wp_mono; [intros r w' H'; exact H'|]. intros started w4 A4. destruct (job_clock_step (excused := excused) _ _ _ _ _ _ H3 A4) as (Hg4 & H4 & Hle).
  assert (w_blind w4.1 = w_blind w3.1) as Hb4 by (destruct A4 as [(s4 & [_ Hs4] & Hr4) _]; rewrite (proj1 (meddled_blind _ _ Hr4)); by rewrite <- Hs4).
  split; [done|]. cbn [bind ebind done]. eapply wp_mono; [intros r w' H'; eapply (exits_weaken ok _ started); [exact Hle|exact H']|].
  destruct (rounds_enough started switch_timeout_s) as [Hr1 Hr2].
  eapply then_wp with (Q := switching_step).
  { destruct (s_op step) eqn:Hop; [done|]. apply start_switch_wp'; try done. intros Hpost.
    destruct (w_blind w.1) eqn:Hbl; [|left; rewrite Hb4; apply Hb3; rewrite Hb2; by apply Hb1]. right.
    destruct (Hstrict Hbl) as [Hs|[Hs|[op Hs]]]; [done| |unfold step in Hop; congruence]. exfalso. apply negb_true_iff, bool_decide_eq_false in Hpost. by apply Hpost. }
  intros op w5 H5. eapply then_wp with (Q := switching_step).
  { destruct op as [id|]; [|done]. eapply then_wp with (Q := switching_step).
    { eapply set_step_wp; [exact H5|]. intros d' [Hd' _]. apply Hset; [done|by left|]. by apply Hrun. }
    intros _ w6 H6. intros now w7 A7. destruct (job_clock_step (excused := excused) _ _ _ _ _ _ H6 A7) as (Hg7 & H7 & Hle7). split; [done|]. cbn [bind ebind done].
    intros polled w8 A8. destruct (job_clock_step (excused := excused) _ _ _ _ _ _ H7 A8) as (Hg8 & H8 & Hle8). split; [done|]. cbn [bind ebind done].
    eapply wp_mono; [intros r w' H'; eapply (exits_weaken ok _ polled); [|exact H']; lia|].
    eapply then_wp.
    - eapply (poll_op_wp switching_step switching_active); [|done|exact H8|done|unfold rounds; lia].
      intros d' [Hd' _]. split; [by apply (Hrun switching_step)|done].
    - intros final w9 H9. pose proof (sound_undone ok _ switching_active _ _ H9). destruct final as [o|]; [|done]. by destruct (bool_decide _). }
  intros _ w6 H6. eapply then_wp with (Q := in_state SWITCH).
  { eapply set_step_wp; [exact H6|]. intros d' [Hd' _]. apply Hset; [done|by right|done]. }
  intros _ w7 H7. eapply advance_wp; try done; first [by right|by repeat split].
Qed.

(** Verifying: it succeeds only on what it read last *)
Definition matched (w : World) : Prop :=
  sw_version_matches NAVSTACK_IMAGE (d_mode (m_dep w.2)) (d_tag (m_dep w.2)) (m_reported w.2) = true /\ matches_running (m_dep w.2) (m_running w.2) = true.
Definition keeps_match (X : Type) (e : ev X) : Prop :=
  match e with Latest => False | Ask _ => False | Edit f => forall d, d_mode (f d) = d_mode d /\ d_tag (f d) = d_tag d | _ => True end.
Lemma keeps_matched {A : Type} (p : prog ev A) w : everywhere keeps_match p -> matched w -> wp (alone ok) (fun _ _ _ _ => True) p (fun _ w' => matched w') w.
Proof.
  apply (everywhere_wp _ _ keeps_match matched). clear. intros X e w x w' He Hm [(s1 & Ha & Hr) _]. split; [done|].
  assert (m_reported w'.2 = m_reported w.2 /\ m_running w'.2 = m_running w.2 /\ d_mode (m_dep w'.2) = d_mode (m_dep w.2) /\ d_tag (m_dep w'.2) = d_tag (m_dep w.2)) as (E1 & E2 & E3 & E4).
  { destruct e; try done; cbn in Ha; unfold later in Ha; destruct_and? Ha; simplify_eq; cbn; try done; try (split_and!; congruence).
    match goal with H : w'.2 = _ |- _ => rewrite H end. cbn. by destruct (He (m_dep w.2)). }
  unfold matched, matches_running. by rewrite E1, E2, E3, E4.
Qed.
Lemma matches_none d : matches_running d no_running = false.
Proof. unfold matches_running. destruct (d_mode d); cbn; by rewrite bool_decide_eq_false_2. Qed.
Lemma save_keeps_match expect f : (forall d, d_mode (f d) = d_mode d /\ d_tag (f d) = d_tag d) -> everywhere keeps_match (save expect f).
Proof. intros Hf. split; [done|]. intros []. split; [done|]. intros d. split; [done|]. by intros [[]|]. Qed.
Lemma set_step_keeps_match name st op : everywhere keeps_match (set_step name st op).
Proof. split; [done|]. intros []. by apply save_keeps_match. Qed.
Lemma verify_matched started fuel : forall w,
  wp (alone ok) (fun _ _ _ _ => True) (verify_loop NAVSTACK_IMAGE verify_poll_s verify_timeout_s fuel started) (fun r w' => match r with Ok _ => matched w' | Raise _ => True end) w.
Proof.
  induction fuel as [|fuel IH]; intros w; [done|]. cbn [verify_loop].
  set (Q := fun (r : result Exc unit) w' => match r with Ok _ => matched w' | Raise _ => True end) in *.
  set (rest := ebind clock _). assert (forall w, wp (alone ok) (fun _ _ _ _ => True) rest Q w) as Hrest.
  { intros w' now w1 _. split; [done|]. cbn [bind done]. destruct (_ <=? _)%Z; [done|]. intros [] w2 _. split; [done|]. apply IH. }
  intros latest w1 [(s1 & (_ & _ & _ & Hrep) & _) _]. split; [done|]. cbn in Hrep. cbn [bind].
  intros x w2 A2. split; [done|]. cbn [bind]. destruct x as [st|[k d|d]]; [| |done].
  - destruct A2 as [(s2 & (_ & _ & _ & Hrep2 & _ & Hrun) & _) _]. cbn in Hrep2, Hrun. intros d w3 [(s3 & [-> Hs3] & _) _]. split; [done|]. cbn [bind].
    assert (w3.2 = w2.2) as Hw3 by (by rewrite <- Hs3). rewrite <- Hrep, <- Hrep2, <- Hrun.
    destruct (sw_version_matches _ _ _ _ && _) eqn:E; [|apply Hrest]. apply andb_true_iff in E.
    assert (matched w3) as Hm by (unfold matched; by rewrite Hw3).
    eapply wp_mono; [|apply keeps_matched; [|exact Hm]]; [by intros [] ? ?|].
    apply everywhere_ebind; [destruct (_ && _); [by apply save_keeps_match|done]|]. intros _.
    apply everywhere_ebind; [apply set_step_keeps_match|]. intros _. by apply save_keeps_match.
  - intros d' w3 _. split; [done|]. cbn [bind]. rewrite matches_none, andb_false_r. apply Hrest.
Qed.

Lemma verify_loop_wp started fuel : (0 <= verify_poll_s)%Z -> forall t w, sound (in_state VERIFY) t w -> fuel <> 0 -> (started + verify_timeout_s - t < Z.of_nat fuel)%Z ->
  wpb (verify_loop NAVSTACK_IMAGE verify_poll_s verify_timeout_s fuel started) (exits ok (in_state DONE) t) w.
Proof.
  intros Hpoll. pose proof (in_active VERIFY eq_refl) as HP. induction fuel as [|fuel IH]; intros t w Hw Hf Ht; [done|]. cbn [verify_loop].
  intros latest w1 A1. destruct (quiet_step (excused := excused) _ _ _ _ Latest _ _ _ I Hw A1) as [Hg1 H1]. split; [done|]. cbn in H1. rewrite Z.add_0_r in H1. cbn [bind].
  intros x w2 A2. destruct (quiet_step (excused := excused) _ _ _ _ (Ask ImageStatus) _ _ _ eq_refl H1 A2) as [Hg2 H2]. split; [done|]. cbn in H2. cbn [bind].
  eapply wp_mono; [intros r w' H'; eapply (exits_weaken ok _ (t + 1)%Z); [|exact H']; lia|].
  assert (steady ok excused (in_state VERIFY) (set_step "verify" STEP_DONE None)) as Hset by (apply steady_set_step; [exact HP|]; intros d Hd; split; [done|]; by rewrite Hd).
  assert (forall rep run, wpb (local (fun d => if sw_version_matches NAVSTACK_IMAGE (d_mode d) (d_tag d) rep && matches_running d run
    then ebind (if falsy_str (d_sha d) && negb (falsy_str (r_sha run)) then save ACTIVE (set_sha (r_sha run)) else done tt)
           (fun _ => ebind (set_step "verify" STEP_DONE None) (fun _ => complete VERIFY))
    else ebind clock (fun now => if (verify_timeout_s <=? now - started)%Z then raise (Fail true "verify")
           else perform (Sleep verify_poll_s) ;;; verify_loop NAVSTACK_IMAGE verify_poll_s verify_timeout_s fuel started))) (exits ok (in_state DONE) (t + 1)) w2) as Hgo.
  { intros rep run. eapply local_then; [exact H2|]. intros d w3 _ _ _ _ H3. destruct (_ && matches_running _ _).
    - eapply steady_then; [|exact H3|].
      + destruct (_ && _); [|apply steady_ok]. by apply steady_edit.
      + intros _ w4 H4. eapply steady_then; [exact Hset|exact H4|]. intros _ w5 H5. eapply advance_wp; try done; first [by right|by repeat split].
    - intros now w4 A4. destruct (job_clock_step (excused := excused) _ _ _ _ _ _ H3 A4) as (Hg4 & H4 & Hle). split; [done|]. cbn [bind done].
      destruct (verify_timeout_s <=? now - started)%Z eqn:E; [exact (sound_undone ok _ HP _ _ H4)|]. apply Z.leb_gt in E.
      intros [] w5 A5. destruct (quiet_step (excused := excused) _ _ _ _ (Sleep verify_poll_s) _ tt _ Hpoll H4 A5) as [Hg5 H5]. split; [done|]. cbn in H5. rewrite Z.add_0_r in H5.
      eapply wp_mono; [|apply IH; [exact H5|lia|lia]]. intros r w' H'. eapply exits_weaken; [|exact H']. lia. }
  destruct x as [st|[k d|d]]; [apply Hgo|apply Hgo|exact (sound_undone ok _ HP _ _ H2)].
Qed.
Lemma phase_verify_wp' t w : (0 <= verify_poll_s)%Z -> sound (in_state VERIFY) t w ->
  wpb (phase_verify NAVSTACK_IMAGE verify_poll_s verify_timeout_s) (fun r w' => exits ok (in_state DONE) t r w' /\ match r with Ok _ => matched w' | Raise _ => True end) w.
Proof.
  intros Hpoll Hw. pose proof (in_active VERIFY eq_refl) as HP. eapply wp_and.
  - unfold phase_verify. eapply steady_then; [by apply steady_fact|exact Hw|]. intros _ w1 H1.
    eapply steady_then; [|exact H1|]. { apply steady_set_step; [exact HP|]. intros d Hd. split; [done|]. by rewrite Hd. }
    intros _ w2 H2 started w3 A3. destruct (job_clock_step (excused := excused) _ _ _ _ _ _ H2 A3) as (Hg3 & H3 & Hle). split; [done|]. cbn [bind done].
    destruct (rounds_enough started verify_timeout_s). eapply wp_mono; [|by apply verify_loop_wp]. intros r w' H'. by eapply exits_weaken.
  - unfold phase_verify.
    assert (forall {A : Type} (p : prog ev A) w, wp (alone ok) (fun _ _ _ _ => True) p (fun _ _ => True) w) as Hany.
    { intros A p. induction p as [a|X e k IH]; intros w'; [done|]. intros x w2 _. by split. }
    apply wp_ebind. eapply wp_mono; [|apply Hany]. intros [[]|e] w1 _; [|done]. apply wp_ebind. eapply wp_mono; [|apply Hany]. intros [[]|e] w2 _; [|done].
    intros started w3 _. split; [done|]. apply verify_matched.
Qed.
(** ** The whole job *)

Lemma phase_pull_unswitching : everywhere unswitching (phase_pull online_max_age_s pull_poll_s pull_timeout_s).
Proof.
  unfold phase_pull. apply everywhere_ebind; [by apply (everywhere_mono _ _ _ calm_unswitching), calm_fact|]. intros _. split; [done|]. intros d. cbn [bind].
  apply everywhere_ebind.
  - apply (everywhere_mono _ _ _ calm_unswitching). pose proof (calm_pull pull_poll_s pull_timeout_s). unfold status. calm_tac.
  - intros _. destruct (bool_decide _); [apply (everywhere_mono _ _ _ calm_unswitching); unfold complete; calm_tac|]. apply everywhere_ebind; [apply (everywhere_mono _ _ _ calm_unswitching), calm_before_switch|].
    intros _. split; [done|]. intros []. split; [done|]. intros d'. split; [done|]. by intros [[]|].
Qed.

(** A deployment that is done: pulled only, or verified on what the robot last reported and runs *)
Definition verified (w : World) : Prop := sound (in_state DONE) (w_now w.1) w /\ (d_kind (m_dep w.2) = KIND_PULL \/ matched w).
Definition drives (r : result Exc unit) (w : World) : Prop :=
  match r with Ok _ => verified w | Raise Stuck => False | Raise Stop => ended w.1 /\ recorded w.1 | Raise _ => undone ok w.1 /\ recorded w.1 end.
Definition phases_left (st : State) : nat := match st with QUEUED | PREFLIGHT => 4 | PULL => 3 | SWITCH => 2 | VERIFY => 1 | _ => 0 end.

Context (Hpull : (0 <= pull_poll_s)%Z) (Hswitch : (0 <= switch_poll_s)%Z) (Hverify : (0 <= verify_poll_s)%Z).
Notation loop := (drive_loop NAVSTACK_IMAGE online_max_age_s pull_poll_s pull_timeout_s switch_poll_s switch_timeout_s verify_poll_s verify_timeout_s).

Lemma loop_done fuel w t : sound (in_state DONE) t w -> d_kind (m_dep w.2) = KIND_PULL \/ matched w -> wpb (loop fuel) drives w.
Proof.
  intros Hw Hm. assert (wpb (loop fuel) (fun r w' => r = Ok tt /\ sound (in_state DONE) t w' /\ w'.2 = w.2) w) as H.
  { destruct fuel; intros d w1 A1; pose proof A1 as [(s1 & [-> Hs] & _) _]; destruct (quiet_step (excused := excused) _ _ _ _ Local _ _ _ I Hw A1) as [Hg H1]; (split; [done|]);
      cbn in H1; rewrite Z.add_0_r in H1; destruct Hw as [Hd _]; unfold in_state in Hd; cbn [bind]; rewrite Hd; cbn; (split_and!; [done|done|by rewrite <- Hs]). }
  eapply wp_mono; [|exact H]. intros r w' (-> & H1 & H2). unfold drives, verified, matched. rewrite H2. split; [|exact Hm].
  destruct H1 as (? & ? & ? & ? & ?). split_and!; done || lia.
Qed.
Lemma loop_wp fuel : forall st t w, sound (in_state st) t w -> ACTIVE st = true -> phases_left st <= fuel -> (st = SWITCH -> strict w) -> wpb (loop fuel) drives w.
Proof.
  induction fuel as [|fuel IH]; intros st t w Hw Ha Hf Hs; [destruct st; try done; cbn in Hf; lia|].
  intros d w1 A1. pose proof A1 as [(s1 & [-> Hs1] & Hr1) _]. destruct (quiet_step (excused := excused) _ _ _ _ Local _ _ _ I Hw A1) as [Hg H1]. split; [done|].
  cbn in H1. rewrite Z.add_0_r in H1. pose proof Hw as [Hd _]. unfold in_state in Hd. cbn [bind]. rewrite Hd, Ha. cbn [negb].
  assert (st = SWITCH -> strict w1) as Hs'. { intros Hst Hb. rewrite (proj1 (meddled_blind _ _ Hr1)) in Hb. rewrite <- Hs1 in Hs. by apply Hs. }
  apply wp_ebind. destruct st; try done; cbn [phase].
  - eapply wp_mono; [|by apply (phase_preflight_wp t w1 QUEUED); [|left]]. intros [[]|[]] w2 H2; try done. eapply (IH PULL); try done. cbn in *. lia.
  - eapply wp_mono; [|by apply (phase_preflight_wp t w1 PREFLIGHT); [|right]]. intros [[]|[]] w2 H2; try done. eapply (IH PULL); try done. cbn in *. lia.
  - assert (w_blind w1.1 = false) as Hb by (destruct H1 as (E & _ & _ & Hb & _); apply Hb; unfold in_state in E; by rewrite E).
    eapply wp_mono; [|eapply wp_and; [by apply (phase_pull_wp' t w1)|apply unswitching_wp; [apply phase_pull_unswitching|exact Hb]]].
    intros [[]|[]] w2 [H2 Hb2]; try done. destruct H2 as ([E|[E1 E2]] & H2).
    + eapply (IH SWITCH t); try done; [cbn in *; lia|]. intros _ Hb3. congruence.
    + eapply (loop_done _ _ t); [done|by left].
  - eapply wp_mono; [|by apply (phase_switch_wp' t w1); [..|apply Hs']]. intros [[]|[]] w2 H2; try done. eapply (IH VERIFY); try done. cbn in *. lia.
  - eapply wp_mono; [|by apply (phase_verify_wp' t w1)]. intros [[]|[]] w2 [H2 Hm]; try done. eapply (loop_done _ _ t); [done|by right].
Qed.

(** The end of a job: a final row, or none *)
Definition over (w : World) : Prop :=
  match w_slot w.1 with
  | Unborn => False
  | Row d => ok = true -> FINAL (d_state d) = true /\ (d_state d = DONE -> d_kind d = KIND_PULL
      \/ sw_version_matches NAVSTACK_IMAGE (d_mode d) (d_tag d) (m_reported w.2) = true /\ matches_running d (m_running w.2) = true)
  | Gone _ => True
  end.
Lemma ended_over w : ended w.1 -> over w.
Proof. unfold ended, over. destruct (w_slot w.1); [done| |done]. intros ->. by split. Qed.
Lemma verified_over w : verified w -> over w.
Proof.
  intros [(Hd & Hs & _) Hm]. unfold synced in Hs. unfold over. destruct (w_slot w.1) as [|d|d]; [done| |done]. intros _.
  destruct Hs as [Hs|(E1 & E2 & E3 & E4 & E5)]; [by rewrite Hs|]. unfold in_state in Hd. rewrite E4, Hd. split; [done|]. intros _. rewrite E1, E2, E3.
  destruct Hm as [Hm|[Hm1 Hm2]]; [by left|right]. split; [done|]. unfold matches_running in *. by rewrite E2, E3.
Qed.
Lemma finish_wp st step w : st = FAILED \/ st = FAILED_VERIFY -> undone ok w.1 -> recorded w.1 -> wpb (finish st step) (fun _ w' => over w') w.
Proof.
  intros Hst Hu Hr. intros d w1 A1. destruct (own_step (excused := excused) _ Local _ _ _ I Hr A1) as (G1 & R1 & M1 & _). split; [done|]. cbn [bind].
  intros [] w2 A2. match goal with A : alone _ _ (Edit ?g) _ _ _ |- _ => destruct (own_step (excused := excused) _ (Edit g) _ _ _ I R1 A) as (G2 & R2 & M2 & _) end. split; [done|]. cbn [bind].
  assert (undone ok w2.1) as Hu2 by (eapply (meddled (undone ok) (meddles_undone ok)); [|exact Hu]; by etrans).
  assert (FINAL st = true /\ CANCELLABLE st = false /\ st <> DONE /\ st <> SWITCH) as (F1 & F2 & F3 & F4) by (by destruct Hst as [-> | ->]).
  intros x w3 [(s3 & [_ Ha] & Hr3) Hok]. cbn in Ha.
  assert (recorded s3 /\ match w_slot s3 with Unborn => False | Row d => ok = true -> FINAL (d_state d) = true /\ d_state d <> DONE | Gone _ => True end) as [Hrec Hov].
  { unfold undone in Hu2. unfold recorded in *. destruct (w_slot w2.1) as [|d2|d2] eqn:Hs; [done| |].
    - destruct (ACTIVE (d_state d2)) eqn:Ha2.
      + destruct Ha as (E1 & _ & Hx). rewrite E1. destruct x as [y|[]].
        * destruct Hx as [_ ->]. cbn. split; [intros _; split; [done|by intros ?]|by split].
        * destruct Hx as [-> | ->]; rewrite ?Hs; (split; [|intros Hk; by destruct (Hok Hk)]); [done|]. intros _. cbn. split; [done|by intros ?].
      + destruct Ha as [(E1 & E2 & _) _]. rewrite E1, E2, ?Hs. split; [done|]. intros Hk. split; [by destruct (d_state d2)|by apply Hu2].
    - destruct Ha as [(E1 & E2 & _) _]. by rewrite E1, ?Hs. }
  split; [split; [done|]; by eapply (meddled recorded meddles_recorded)|]. cbn.
  unfold over. destruct (w_slot w3.1) as [|d3|d3] eqn:Hs3.
  - assert (match w_slot w3.1 with Unborn => False | _ => True end) as Hf; [|by rewrite Hs3 in Hf]. eapply (meddled (fun s => match w_slot s with Unborn => False | _ => True end)); [|exact Hr3|by destruct (w_slot s3)].
    intros s s' (_ & _ & [->|(d4 & -> & [->|(_ & d5 & -> & _)])]); done.
  - intros Hk. assert (match w_slot w3.1 with Row d => FINAL (d_state d) = true /\ d_state d <> DONE | _ => True end) as Hf; [|rewrite Hs3 in Hf; split; [apply Hf|by destruct Hf]].
    eapply (meddled (fun s => match w_slot s with Row d => FINAL (d_state d) = true /\ d_state d <> DONE | _ => True end)); [|exact Hr3|by destruct (w_slot s3); auto].
    intros s s' (_ & _ & [->|(d4 & -> & [->|(_ & d5 & -> & Hd5)])]); [done|done|]. by rewrite Hd5.
  - done.
Qed.
(** Where a job is started: a switch that is unanswered shows as a running step or as an operation, or the job is excused *)
Definition resumable (s : Shared) : Prop :=
  recorded s /\ (w_blind s = true -> match w_slot s with
    | Row d => d_state d = SWITCH -> excused \/ s_state (step_of "switch" (d_steps d)) = STEP_RUNNING \/ is_Some (s_op (step_of "switch" (d_steps d)))
    | _ => True end).
Lemma meddles_resumable s s' : meddles s s' -> resumable s -> resumable s'.
Proof.
  intros Hm [Hr Hs]. split; [by eapply meddles_recorded|]. destruct Hm as (Hb & _ & Hm). rewrite Hb. intros Hbl. specialize (Hs Hbl).
  destruct Hm as [->|(d & Hd & [->|(_ & d' & -> & Hd')])]; [done|done|]. by rewrite Hd'.
Qed.
Lemma plain_step {X : Type} (e : ev X) w x w' : match e with Get | TryLock | Release => True | _ => False end -> resumable w.1 -> alone ok X e w x w' ->
  not_blind excused X e w w' /\ resumable w'.1.
Proof.
  intros He Hr [(s1 & Ha & Hd) _]. assert (later 0 w.1 s1) as (E1 & E2 & E3) by (destruct e; try done; apply Ha).
  assert (resumable w'.1) as H. { eapply (meddled resumable meddles_resumable); [exact Hd|]. unfold resumable, recorded in *. by rewrite E1, E2. }
  split; [|done]. split; [by destruct e|apply H].
Qed.

Notation driver := (drive NAVSTACK_IMAGE online_max_age_s pull_poll_s pull_timeout_s switch_poll_s switch_timeout_s verify_poll_s verify_timeout_s).
Lemma drive_wp' w : resumable w.1 ->
  wpb driver (fun r w' => r <> Raise Stuck /\ match w_slot w.1 with Row d => ACTIVE (d_state d) = true -> over w' | _ => True end) w.
Proof.
  intros Hw x w1 A1. destruct (plain_step Get _ _ _ I Hw A1) as [Hg1 H1]. split; [done|]. cbn [bind]. pose proof A1 as [(s1 & ((E1 & E2 & _) & _ & Hx) & Hr1) Hok].
  destruct x as [o|[]]; cbn in Hx.
  2:{ split; [done|]. destruct (w_slot w.1) as [|d|d] eqn:Hs; [done| |done]. intros _. assert (synced d w1.1) as Hsy.
      { eapply (meddled (synced _) (meddles_synced d)); [exact Hr1|]. unfold synced. cbn in E1. rewrite E1, ?Hs. by right. }
      unfold over. unfold synced in Hsy. destruct (w_slot w1.1); [done| |done]. intros Hk. by destruct (Hok Hk). }
  subst o. destruct (row_of (w_slot w.1)) as [d|] eqn:Hrow; [|split; [done|]; by destruct (w_slot w.1)].
  assert (w_slot w.1 = Row d) as Hslot by (destruct (w_slot w.1); by simplify_eq/=). rewrite Hslot. rewrite Hslot in E1. cbn in E1, E2.
  intros [] w2 A2. destruct (own_step (excused := excused) _ (Edit (fun _ => d)) _ _ _ I (proj1 H1) A2) as (Hg2 & R2 & M2 & Hd2). split; [done|]. cbn [bind]. cbn in Hd2.
  assert (rtc meddles s1 w2.1) as Hr2 by (by etrans).
  assert (synced d w2.1) as Hsy by (eapply (meddled (synced _) (meddles_synced d)); [exact Hr2|]; unfold synced; rewrite E1; by right).
  destruct (meddled_blind _ _ Hr2) as [Hb2 _]. rewrite E2 in Hb2.
  assert (sound (in_state (d_state d)) (w_now w2.1) w2) as Hsound.
  { split_and!; [by rewrite Hd2|by rewrite Hd2|done| |lia]. rewrite Hd2, Hb2. intros Hc. destruct (w_blind w.1) eqn:Hbl; [|done].
    destruct Hw as [Hw _]. specialize (Hw Hbl). rewrite Hslot in Hw. destruct Hw as [Hw _]. congruence. }
  apply wp_catch. destruct (ACTIVE (d_state d)) eqn:Ha.
  2:{ assert (wpb (loop 4) (fun r w' => r = Ok tt) w2) as Hl.
      { intros d' w3 A3. pose proof A3 as [(s3 & [-> _] & _) _]. destruct (own_step (excused := excused) _ Local _ _ _ I R2 A3) as (Hg3 & _). split; [done|]. cbn [bind]. rewrite Hd2, Ha. done. }
      eapply wp_mono; [|exact Hl]. intros r w3 ->. by split. }
  eapply wp_mono; [|apply (loop_wp 4 (d_state d) _ _ Hsound Ha)].
  - intros [[]|e] w3 H3; [split; [done|]; intros _; by apply verified_over|].
    assert (forall st step, st = FAILED \/ st = FAILED_VERIFY -> undone ok w3.1 /\ recorded w3.1 -> forall A (k : result unit bool -> result Exc A), (forall x, k x <> Raise Stuck) ->
      wpb (bind (finish st step) (fun x => Ret (k x))) (fun r w' => r <> Raise Stuck /\ (true = true -> over w')) w3) as Hfin.
    { intros st step Hst [Hu Hre] A k Hk. apply wp_bind. eapply wp_mono; [|by apply finish_wp]. intros x w4 H4. cbn. split; [apply Hk|done]. }
    destruct e as [| |v step| | |]; try done.
    + apply (Hfin FAILED None (or_introl eq_refl) H3 _ (fun _ => Ok tt)). done.
    + apply (Hfin FAILED None (or_introl eq_refl) H3 _ (fun _ => Ok tt)). done.
    + eapply wp_mono with (Q := fun r w' => r <> Raise Stuck /\ (true = true -> over w')); [done|].
      assert (forall x : result unit bool, (match x with Ok _ => done tt | Raise _ => raise Other end : prog ev (result Exc unit)) = Ret (match x with Ok _ => Ok tt | Raise _ => Raise Other end)) as Hx' by (by intros []).
      apply wp_bind. eapply wp_mono; [|apply finish_wp; [by destruct v; [right|left]|apply H3..]]. intros x w4 H4. rewrite Hx'. cbn. split; [by destruct x|done].
    + split; [done|]. intros _. apply ended_over, H3.
    + apply (Hfin FAILED None (or_introl eq_refl) H3 _ (fun _ => Ok tt)). done.
  - destruct (d_state d); cbn; done || lia.
  - intros Hsw Hb. rewrite Hd2. rewrite Hb2 in Hb. destruct Hw as [_ Hw]. specialize (Hw Hb). rewrite Hslot in Hw. by apply Hw.
Qed.
End steady_parts.

Section job_theorems.
Context (NAVSTACK_IMAGE : string) (online_max_age_s pull_poll_s pull_timeout_s switch_poll_s switch_timeout_s verify_poll_s verify_timeout_s : Z).
Notation driver := (drive NAVSTACK_IMAGE online_max_age_s pull_poll_s pull_timeout_s switch_poll_s switch_timeout_s verify_poll_s verify_timeout_s).
Notation job := (run NAVSTACK_IMAGE online_max_age_s pull_poll_s pull_timeout_s switch_poll_s switch_timeout_s verify_poll_s verify_timeout_s).

(** The row between the two writes that end a switch the robot reported no operation for: the step is done and the state has not
    moved on. A job that is resumed there takes the switch for one that was never sent ([Example_deploy.rollback_sent_twice]). *)
Definition stored_done (s : Shared) : Prop :=
  match w_slot s with
  | Row d => d_state d = SWITCH /\ s_state (step_of "switch" (d_steps d)) = STEP_DONE /\ s_op (step_of "switch" (d_steps d)) = None
  | _ => False
  end.
Lemma recorded_resumable s (excused : Prop) : recorded s -> (stored_done s -> excused) -> resumable (excused := excused) s.
Proof.
  intros Hr Hx. split; [done|]. intros Hb. specialize (Hr Hb). unfold stored_done in Hx. destruct (w_slot s) as [|d|d]; [done| |done]. intros Hd.
  destruct (proj2 Hr Hd) as [?|Hdone]; [by right; left|]. destruct (s_op _) as [op|]; [by right; right; eexists|]. left. by apply Hx.
Qed.

(** C18: A job frees the robot for the next deployment: where it drives the row alone and the database answers, its run ends, never
    by the bound the model puts on its loops, with a final row or a deleted one, whatever the robot, the registry and the
    reads answer and whoever cancels; and a deployment that is done was pulled only, or the robot last reported the build
    of its target and its orchestrator says that it runs it. *)
Theorem deployment_settles w l r w' d0 :
  (0 <= pull_poll_s)%Z -> (0 <= switch_poll_s)%Z -> (0 <= verify_poll_s)%Z -> w_slot w.1 = Row d0 -> ACTIVE (d_state d0) = true -> recorded w.1 ->
  steps (alone true) driver w l (Ret r) w' ->
  r <> Raise Stuck
  /\ match w_slot w'.1 with
     | Unborn => False
     | Row d => FINAL (d_state d) = true /\ (d_state d = DONE -> d_kind d = KIND_PULL
         \/ sw_version_matches NAVSTACK_IMAGE (d_mode d) (d_tag d) (m_reported w'.2) = true /\ matches_running d (m_running w'.2) = true)
     | Gone _ => True
     end.
Proof.
  intros Hp1 Hp2 Hp3 Hs Ha Hr Hl.
  destruct (wp_result _ _ _ _ _ _ _ _ Hl (drive_wp' true NAVSTACK_IMAGE online_max_age_s _ pull_timeout_s _ switch_timeout_s _ verify_timeout_s Hp1 Hp2 Hp3 w (recorded_resumable w.1 True Hr (fun _ => I)))) as [H1 H2].
  split; [done|]. rewrite Hs in H2. specialize (H2 Ha). unfold over in H2. destruct (w_slot w'.1); auto.
Qed.

(** C13: The switch is not repeated blindly. A job that drives the row alone sends a switch or a rollback only when none was sent
    before or the robot has since answered that it neither runs one nor runs the target, also after a dropped connection and
    when it was resumed, with one exception: a job started on a row that says SWITCH while its switch step is stored as done
    without an operation ([stored_done]) sends it again. Wherever the job is cut short, with failing writes too, a switch
    that may have been sent shows in the row: past the cancellable states, with its step running or done, which is what the
    job that resumes it starts from. *)
Theorem switch_not_repeated ok w l p w' :
  (0 <= pull_poll_s)%Z -> (0 <= switch_poll_s)%Z -> (0 <= verify_poll_s)%Z -> recorded w.1 -> steps (alone ok) job w l p w' ->
  Forall (fun t => (switching (projT2 t.1.1) = true -> w_blind t.1.2.1 = false \/ stored_done w.1) /\ recorded t.2.1) l.
Proof.
  intros Hp1 Hp2 Hp3 Hr0 Hl. pose proof (recorded_resumable w.1 (stored_done w.1) Hr0 id) as Hr. refine (proj1 (wp_sound _ (not_blind (stored_done w.1)) _ (fun _ _ => True) _ _ _ _ Hl _)).
  revert Hr. generalize (stored_done w.1). intros excused Hr.
  intros x w1 A1. destruct (plain_step (excused := excused) ok TryLock _ _ _ I Hr A1) as [Hg1 H1]. split; [done|]. cbn [bind]. destruct x as [[]|]; [|done..].
  apply wp_bind. eapply wp_mono with (Q := fun _ w' => recorded w'.1).
  - intros r w2 H2 [] w3 A3. split; [|done]. destruct A3 as [(s3 & ((E1 & E2 & _) & _) & Hr3) _]. split; [done|].
    eapply (meddled recorded meddles_recorded); [exact Hr3|]. unfold recorded in *. cbn in E1, E2. by rewrite E1, E2.
  - eapply wp_mono; [|eapply (wp_guaranteed _ _ (fun w' => recorded w'.1)); [by intros X e s s' [_ ?]|apply H1|by apply drive_wp']]. by intros r w2 [_ ?].
Qed.
End job_theorems.

(** ** Runs *)

Module Example_deploy.
(** A robot that runs [cur], has [new] and [old] and takes a switch to [new] at once, or a rollback, whose answer is lost *)
Definition build (tag : string) : Running := {| r_mode := Some "image"; r_tag := Some tag; r_sha := None |}.
Definition status_of (target : option string) (blind : bool) : Status :=
  {| i_running := Some (build (if blind then default "" target else "cur")); i_active := None; i_can_switch := true;
     i_local := [Some "cur"; Some "new"; Some "old"]; i_previous_tag := Some "old"; i_previous_mode := Some "image" |}.
Definition at_slot (slot : Slot) (w : World) : World := ({| w_slot := slot; w_blind := w_blind w.1; w_now := w_now w.1 |}, w.2).
Definition tick (d : Z) (blind : bool) (w : World) : World := ({| w_slot := w_slot w.1; w_blind := blind; w_now := (w_now w.1 + d)%Z |}, w.2).
Definition seen (rep : option string) (run : Running) (w : World) : World := (w.1, {| m_dep := m_dep w.2; m_reported := rep; m_running := run |}).
Definition answer (X : Type) (q : ireq X) : World -> X * World :=
  match q in ireq X return World -> X * World with
  | ImageStatus => fun w =>
      let st := status_of (d_tag (m_dep w.2)) (w_blind w.1) in
      (Ok st, seen (m_reported w.2) (running_of st) (tick 1 (if clear_answer (m_dep w.2) st then false else w_blind w.1) w))
  | ImagePull _ => fun w => (Ok {| oa_id := Some "op"; oa_noop := false |}, tick 1 (w_blind w.1) w)
  | ImageCheck _ _ => fun w => (Ok tt, tick 1 (w_blind w.1) w)
  | ImageSwitch _ _ => fun w => (Ok {| oa_id := Some "op"; oa_noop := false |}, tick 1 true w)
  | ImageRollback => fun w => (Raise (OrchestratorError TIMEOUT "timed out"), tick 1 true w)
  | ImageOperation _ => fun w => (Ok {| o_id := Some "op"; o_kind := Some "switch"; o_state := Some "done"; o_tag := None; o_progress := None |}, tick 1 (w_blind w.1) w)
  end.
Definition env (X : Type) (e : ev X) : World -> X * World :=
  match e in ev X return World -> X * World with
  | Local => fun w => (m_dep w.2, w)
  | Edit f => fun w => (tt, (w.1, with_dep f w.2))
  | Get => fun w => (Ok (row_of (w_slot w.1)), w)
  | Insert row => fun w => match w_slot w.1 with Unborn => (Ok tt, at_slot (Row row) w) | _ => (Raise DatabaseExc, w) end
  | Update expect f steps => fun w =>
      match w_slot w.1 with Row d => if expect (d_state d) then (Ok true, at_slot (Row (set_steps steps (f d))) w) else (Ok false, w) | _ => (Ok false, w) end
  | Delete => fun w => match w_slot w.1 with Row d => (Ok tt, at_slot (Gone d) w) | _ => (Ok tt, w) end
  | ActiveFor => fun w => (Ok false, w)
  | TryLock => fun w => (Ok true, w)
  | Release => fun w => (tt, w)
  | FactRobot => fun w => (Ok tt, w)
  | Latest => fun w =>
      let sw := Some ("sati/navstack:" +:+ (if w_blind w.1 then default "" (d_tag (m_dep w.2)) else "cur")) in
      (Ok (Some {| lr_sw := sw; lr_seen := Some 0%Z |}), seen sw (m_running w.2) w)
  | ActiveRun => fun w => (Ok false, w)
  | MappingSession => fun w => (Ok false, w)
  | SlamBusy => fun w => (Ok false, w)
  | Resolve t => fun w => (Ok (Some {| g_tag := default "" t; g_sha := None |}), w)
  | Ask q => answer _ q
  | Now => fun w => (0%Z, w)
  | Clock => fun w => (w_now w.1, w)
  | Sleep s => fun w => (tt, tick s (w_blind w.1) w)
  end.
Lemma env_acts X (e : ev X) w : acts X e w (env X e w).1 (env X e w).2.
Proof.
  destruct w as [[slot blind now] [dep rep run]]. assert (forall s, later 0 s s) as Hl by (intros; unfold later; split_and!; done || lia).
  destruct e; try (cbn; by split_and!); try (cbn; done).
  - cbn. destruct slot; cbn; (split; [done|]); [left|right; split; [apply Hl|done]..]. split; [|done]. split_and!; done || (cbn; lia).
  - cbn. destruct slot as [|d|d]; cbn; try (by split_and!). destruct (expect (d_state d)); cbn; [|by split_and!]. split; [done|]. split_and!; done || (cbn; lia).
  - cbn. destruct slot as [|d|d]; cbn; by split_and!.
  - destruct q; unfold acts, asks, later; cbn; split_and!; done || (cbn; lia).
Qed.

Notation job := (run "sati/navstack" 60 3 2700 3 600 5 120).
Notation driver := (drive "sati/navstack" 60 3 2700 3 600 5 120).
Notation new_request := (request 60).
Definition start : Shared := {| w_slot := Unborn; w_blind := false; w_now := 0 |}.
Definition nothing : Mine := {| m_dep := new_row KIND_DEPLOY MODE_IMAGE None; m_reported := None; m_running := no_running |}.
Definition queued (kind : DKind) (tag : option string) : World := ({| w_slot := Row (new_row kind MODE_IMAGE tag); w_blind := false; w_now := 0 |}, nothing).

(** A deployment is driven to its end. *)
Example deployed : let w := (exec env driver (queued KIND_DEPLOY (Some "new"))).2 in
  d_state <$> row_of (w_slot w.1) = Some DONE /\ map s_state (default [] (d_steps <$> row_of (w_slot w.1))) = [STEP_DONE; STEP_SKIPPED; STEP_DONE; STEP_DONE].
Proof. vm_compute. done. Qed.
(** Requests and jobs side by side, in the environment above *)
Notation jobs_start := (started "sati/navstack" 60 3 2700 3 600 5 120).
Definition deploy_new : prog ev unit * Mine := (new_request KIND_DEPLOY MODE_IMAGE (Some "new") ;;; Ret tt, nothing).
Definition a_job : prog ev unit * Mine := (job ;;; Ret tt, nothing).
Definition a_cancel : prog ev unit * Mine := (cancel ;;; Ret tt, nothing).
(** The request runs for [n] effects, then a task starts beside it and both run by the schedule *)
Definition meet (n : nat) (t : prog ev unit * Mine) (schedule : list nat) : Shared * list (prog ev unit * Mine) :=
  let r := play env (repeat 0 n) start [deploy_new] in play env schedule r.1 (t :: r.2).
Definition met (n : nat) (t : prog ev unit * Mine) (schedule : list nat) : list (sigT ev * World * World) :=
  let r := play env (repeat 0 n) start [deploy_new] in played env (repeat 0 n) start [deploy_new] ++ played env schedule r.1 (t :: r.2).
Lemma meet_happens n t schedule : jobs_start t.1 t.2 -> happens "sati/navstack" 60 3 2700 3 600 5 120 KIND_DEPLOY MODE_IMAGE (Some "new") (met n t schedule) (meet n t schedule).1 (meet n t schedule).2.
Proof.
  intros Ht. exists start, nothing. split; [done|]. eapply pool_trans; [apply play_pool, env_acts|]. destruct t as [p m]. eapply pool_start; [exact Ht|]. apply play_pool, env_acts.
Qed.
Definition over_task (t : prog ev unit * Mine) : bool := match t.1 with Ret _ => true | _ => false end.
Definition is_switch (t : sigT ev * World * World) : bool := switching (projT2 t.1.1).

Lemma cancelled_never_switched_witness : exists l s ts, happens "sati/navstack" 60 3 2700 3 600 5 120 KIND_DEPLOY MODE_IMAGE (Some "new") l s ts
  /\ state_of (w_slot s) = Some CANCELLED /\ length l = 36 /\ Forall (fun t => switching (projT2 t.1.1) = false) l.
Proof.
  pose proof (meet_happens 33 a_cancel [0; 0; 0] (started_cancel _ _ _ _ _ _ _ _ nothing)) as H.
  assert (state_of (w_slot (meet 33 a_cancel [0; 0; 0]).1) = Some CANCELLED) as Hs by (vm_compute; reflexivity).
  exists (met 33 a_cancel [0; 0; 0]), (meet 33 a_cancel [0; 0; 0]).1, (meet 33 a_cancel [0; 0; 0]).2.
  split; [exact H|]. split; [exact Hs|]. split; [vm_compute; reflexivity|]. exact (cancelled_never_switched _ _ _ _ _ _ _ _ _ _ _ _ _ _ H Hs).
Defined.

(** A job that another process resumes while the request still checks wins the row; the request then takes the row's state
    for a failure and deletes it, although the switch was sent: the robot's slot is free while it switches. *)
Example request_deletes_running : exists l s ts d, happens "sati/navstack" 60 3 2700 3 600 5 120 KIND_DEPLOY MODE_IMAGE (Some "new") l s ts
  /\ w_slot s = Gone d /\ d_state d = SWITCH /\ existsb is_switch l = true.
Proof.
  pose proof (meet_happens 32 a_job (repeat 0 60 ++ repeat 1 20) (started_run _ _ _ _ _ _ _ _ nothing)) as H.
  destruct (w_slot (meet 32 a_job (repeat 0 60 ++ repeat 1 20)).1) as [|d|d] eqn:E; [by vm_compute in E..|].
  exists (met 32 a_job (repeat 0 60 ++ repeat 1 20)), (meet 32 a_job (repeat 0 60 ++ repeat 1 20)).1, (meet 32 a_job (repeat 0 60 ++ repeat 1 20)).2, d.
  split; [exact H|]. split; [exact E|]. vm_compute in E. injection E as <-. split; [reflexivity|]. vm_compute. reflexivity.
Qed.

(** The other way round the request wins: the resumed job stops, and the request starts none because that job has not ended yet.
    Nobody drives the row any more. *)
Example nobody_drives : exists l s ts d, happens "sati/navstack" 60 3 2700 3 600 5 120 KIND_DEPLOY MODE_IMAGE (Some "new") l s ts
  /\ w_slot s = Row d /\ d_state d = PULL /\ forallb over_task ts = true /\ map over_task (meet 32 a_job (repeat 0 29 ++ [1])).2 = [false; true].
Proof.
  pose proof (meet_happens 32 a_job (repeat 0 29 ++ [1] ++ repeat 0 5) (started_run _ _ _ _ _ _ _ _ nothing)) as H.
  destruct (w_slot (meet 32 a_job (repeat 0 29 ++ [1] ++ repeat 0 5)).1) as [|d|d] eqn:E; [by vm_compute in E| |by vm_compute in E].
  exists (met 32 a_job (repeat 0 29 ++ [1] ++ repeat 0 5)), (meet 32 a_job (repeat 0 29 ++ [1] ++ repeat 0 5)).1, (meet 32 a_job (repeat 0 29 ++ [1] ++ repeat 0 5)).2, d.
  split; [exact H|]. split; [exact E|]. vm_compute in E. injection E as <-. split; [reflexivity|]. split; vm_compute; reflexivity.
Qed.

(** One job alone *)
Lemma env_runs_alone X (e : ev X) w : alone true X e w (env X e w).1 (env X e w).2.
Proof.
  split; [|by destruct e; cbn; repeat case_match]. exists (env X e w).2.1. rewrite <- surjective_pairing. split; [apply env_acts|reflexivity].
Qed.
Lemma queued_recorded kind tag : recorded (queued kind tag).1.
Proof. done. Qed.

Lemma deployment_settles_witness : exists l w, steps (alone true) driver (queued KIND_DEPLOY (Some "new")) l (Ret (Ok tt)) w
  /\ match w_slot w.1 with Row d => d_state d = DONE /\ FINAL (d_state d) = true | _ => False end.
Proof.
  destruct (exec_steps (alone true) env driver (queued KIND_DEPLOY (Some "new")) env_runs_alone) as [l Hl].
  destruct (deployment_settles "sati/navstack" 60 3 2700 3 600 5 120 (queued KIND_DEPLOY (Some "new")) _ _ _ (new_row KIND_DEPLOY MODE_IMAGE (Some "new"))
    ltac:(lia) ltac:(lia) ltac:(lia) eq_refl eq_refl (queued_recorded _ _) Hl) as [H1 H2].
  exists l, (exec env driver (queued KIND_DEPLOY (Some "new"))).2. split; [exact Hl|]. revert H2. vm_compute. intros [H2 _]. split; [reflexivity|exact H2].
Defined.

Lemma switch_not_repeated_witness : exists l w, steps (alone true) job (queued KIND_DEPLOY (Some "new")) l (Ret (Ok tt)) w
  /\ Forall (fun t => switching (projT2 t.1.1) = true -> w_blind t.1.2.1 = false) l.
Proof.
  destruct (exec_steps (alone true) env job (queued KIND_DEPLOY (Some "new")) env_runs_alone) as [l Hl].
  exists l, (exec env job (queued KIND_DEPLOY (Some "new"))).2. split; [exact Hl|].
  apply (Forall_impl _ _ _ (switch_not_repeated "sati/navstack" 60 3 2700 3 600 5 120 true (queued KIND_DEPLOY (Some "new")) _ _ _ ltac:(lia) ltac:(lia) ltac:(lia) (queued_recorded _ _) Hl)).
  intros t [H _] Hs. destruct (H Hs) as [Hb|Hd]; [exact Hb|]. destruct Hd as [Hd _]. discriminate Hd.
Defined.

(** A job that is killed after some effects, and one that resumes *)
Definition resumed (kind : DKind) (n k : nat) : list (sigT ev * World * World) :=
  played env (repeat 0 n) (queued kind None).1 [a_job] ++ played env (repeat 0 k) (play env (repeat 0 n) (queued kind None).1 [a_job]).1 [a_job].
Lemma resumed_pool kind n k : exists s ts, pool acts jobs_start (queued kind None).1 [a_job] (resumed kind n k) s ts.
Proof.
  do 2 eexists. refine (pool_trans _ _ _ _ _ _ _ _ _ _ (play_pool env acts jobs_start (repeat 0 n) (queued kind None).1 [a_job] env_acts) _).
  pose proof (play_length env (repeat 0 n) (queued kind None).1 [a_job]) as Hlen. destruct ((play env (repeat 0 n) (queued kind None).1 [a_job]).2) as [|t [|]]; try done.
  apply (pool_kill _ _ _ [] t []). eapply pool_start; [apply started_run|]. apply play_pool, env_acts.
Qed.

(** A rollback whose answer was lost: the robot says it runs the target, the step is stored as done, and the API stops before the
    next write. The job that resumes takes the switch for one that was never sent and sends the rollback again, which
    undoes it. *)
Example rollback_sent_twice : exists l s ts, pool acts jobs_start (queued KIND_ROLLBACK None).1 [a_job] l s ts
  /\ length (List.filter is_switch l) = 2 /\ existsb (fun t => is_switch t && w_blind t.1.2.1) l = true.
Proof. destruct (resumed_pool KIND_ROLLBACK 68 15) as (s & ts & H). exists (resumed KIND_ROLLBACK 68 15), s, ts. split; [exact H|]. split; vm_compute; reflexivity. Qed.
End Example_deploy.
