(* ===== verification/Transfers.v ===== *)
(** * Transfers between servers

    packages/migration/verify.py, jobs.py and the upload of packages/api/data_transfer.py. Module [Verify]: the check of a finished
    transfer against the destination's stores, after which a move deletes the source. Module [Jobs]: the exports and
    imports a server works on, the files they spool and the coroutines that run beside each other. *)

From S2P Require Import Prelude ImportPlan ImportApply.

Module Verify.
Import Maps Undo.

(** What a transfer asks the destination's stores *)
Class Probe := {
  get_row : text -> option Row;
  map_counts : text -> nat * nat;
  object_sizes : text -> gmap text N;
  existing_runs : list text -> nat * nat;
  rosbag_size : text -> text -> option N;
}.

(** The entries of a plan, as far as the check reads them *)
Record MapPlan := { mp_source : text; mp_target : text; mp_nodes : nat; mp_edges : nat }.
Record BagPlan := { bp_robot : text; bp_id : text }.
Record Plan := { pl_maps : list MapPlan; pl_runs : list text; pl_bags : list BagPlan }.

(** A bundle, as far as the check reads it; a file that is missing raises, but for a map without objects *)
Record Bundle := {
  bu_objects : text -> list (text * N);
  bu_runs : text -> option (list text * nat);
  bu_bag : text -> text -> option N;
}.

Inductive Problem :=
| NotThere (dst : text) | NotCompleted (dst : text) | TooFew (dst : text) | FilesMissing (dst : text) (missing : list text)
| RunsShort (mission : text) (runs legs : nat) | BagWrong (robot bag_id : text) (have : option N).

(** What [verify_import] returns; [ok] is that there are no problems *)
Record Out := { problems : list Problem; maps : gmap text text; runs : gmap text (list text); rosbags : list (text * text) }.
Definition new_out : Out := {| problems := []; maps := ∅; runs := ∅; rosbags := [] |}.
Definition ok (o : Out) : bool := bool_decide (length (problems o) = 0).
Definition problem (p : Problem) (o : Out) : Out :=
  {| problems := problems o ++ [p]; maps := maps o; runs := runs o; rosbags := rosbags o |}.
Definition map_found (src dst : text) (o : Out) : Out :=
  {| problems := problems o; maps := <[src := dst]> (maps o); runs := runs o; rosbags := rosbags o |}.
Definition runs_found (mission : text) (ids : list text) (o : Out) : Out :=
  {| problems := problems o; maps := maps o; runs := <[mission := ids]> (runs o); rosbags := rosbags o |}.
Definition bag_found (robot bag_id : text) (o : Out) : Out :=
  {| problems := problems o; maps := maps o; runs := runs o; rosbags := rosbags o ++ [(robot, bag_id)] |}.

(** [l[i:i + n] for i in range(0, len(l), n)] *)
Fixpoint slices_from {A : Type} (fuel n : nat) (l : list A) : list (list A) :=
  match fuel, l with
  | 0, _ | _, [] => []
  | S fuel, _ => take n l :: slices_from fuel n (drop n l)
  end.
Definition slices {A : Type} (n : nat) (l : list A) : list (list A) := slices_from (length l) n l.
Definition RUN_BATCH : nat := 500.

Inductive BundleError := Missing.

Section verify.
Context `{Probe} (b : Bundle).

(** The first loop: one map *)
Definition verify_map (o : Out) (e : MapPlan) : Out :=
  let dst := mp_target e in
  match get_row dst with
  | None => problem (NotThere dst) o
  | Some row =>
      if bool_decide (k_phase <$> row_from row = Some Complete) then
        let (nodes, edges) := map_counts dst in
        if bool_decide (nodes < mp_nodes e) || bool_decide (edges < mp_edges e) then problem (TooFew dst) o
        else
          let sizes := object_sizes dst in
          let missing := fst <$> filter (fun x : text * N => sizes !! x.1 <> Some x.2) (bu_objects b (mp_source e)) in
          match missing with
          | [] => map_found (mp_source e) dst o
          | _ => problem (FilesMissing dst missing) o
          end
      else problem (NotCompleted dst) o
  end.

(** The second loop: the runs of one mission *)
Definition verify_runs (o : Out) (mission : text) : result BundleError Out :=
  match bu_runs b mission with
  | None => Raise Missing
  | Some (ids, legs) =>
      let found := foldl (fun f part => let x := existing_runs part in (f.1 + x.1, f.2 + x.2)) (0, 0) (slices RUN_BATCH ids) in
      if bool_decide (found.1 < length ids) || bool_decide (found.2 < legs) then Ok (problem (RunsShort mission found.1 found.2) o)
      else Ok (runs_found mission ids o)
  end.

(** The third loop: one recording *)
Definition verify_bag (o : Out) (e : BagPlan) : result BundleError Out :=
  match bu_bag b (bp_robot e) (bp_id e) with
  | None => Raise Missing
  | Some size =>
      let have := rosbag_size (bp_robot e) (bp_id e) in
      if bool_decide (have = Some size) then Ok (bag_found (bp_robot e) (bp_id e) o)
      else Ok (problem (BagWrong (bp_robot e) (bp_id e) have) o)
  end.

Definition verify_import (p : Plan) : result BundleError Out :=
  rbind (rfold verify_runs (foldl verify_map new_out (pl_maps p)) (pl_runs p)) (fun o =>
  rfold verify_bag o (pl_bags p)).
End verify.

(** ** The stores of this server ([ServiceTarget]) *)

Definition bag_key (robot bag_id : text) : text := robot ++ text_of "/" ++ bag_id.
Definition list_sizes (name : text) (objects : gmap (text * text) (N * text)) : gmap text N :=
  list_to_map ((fun x => (x.1.2, x.2.1)) <$> filter (fun x => x.1.1 = bucket_of name) (map_to_list objects)).
Definition in_collection {A : Type} (name : text) (docs : gmap (text * text) A) : nat := size (filter (fun x => x.1.1 = name) docs).

Definition rows_of {A : Type} (ids : list text) (rows : gmap text A) : nat := size (filter (fun x => x.1 ∈ ids) rows).
#[local] Instance service_target (s : Store) (t : Tables) : Probe := {|
  get_row := fun name => s_maps s !! name ≫= (fun row => if bool_decide (row_lifecycle row = DELETED) then None else Some row);
  map_counts := fun name => (in_collection name (s_nodes s), in_collection name (s_edges s));
  object_sizes := fun name => list_sizes name (s_objects s);
  existing_runs := fun ids => (rows_of ids (t_runs t), size (filter (fun x => x.1.1 ∈ ids) (t_legs t)));
  rosbag_size := fun robot bag_id => t_bags t !! bag_key robot bag_id |}.

(** ** What is listed is there *)

Lemma list_sizes_lookup name objects key n :
  list_sizes name objects !! key = Some n <-> exists c, objects !! (bucket_of name, key) = Some (n, c).
Proof.
  unfold list_sizes. rewrite <-elem_of_list_to_map.
  - rewrite list_elem_of_fmap. split.
    + intros ([[bk k] [n' c]] & [= -> ->] & [Hb Hx]%list_elem_of_filter). cbn in Hb. subst.
      exists c. by apply elem_of_map_to_list.
    + intros [c Hc]. exists ((bucket_of name, key), (n, c)). split; [done|].
      apply list_elem_of_filter. split; [done|]. by apply elem_of_map_to_list.
  - rewrite <-list_fmap_compose. apply NoDup_fmap_2_strong; [|apply NoDup_filter, NoDup_map_to_list].
    intros [[b1 k1] v1] [[b2 k2] v2] [Hb1 Hx1]%list_elem_of_filter [Hb2 Hx2]%list_elem_of_filter E.
    cbn in *. subst. apply elem_of_map_to_list in Hx1, Hx2. congruence.
Qed.

Lemma slices_join {A : Type} n (l : list A) : 0 < n -> mjoin (slices n l) = l.
Proof.
  intros Hn. unfold slices. assert (G : forall fuel (l' : list A), length l' <= fuel -> mjoin (slices_from fuel n l') = l').
  { intros fuel. induction fuel as [|fuel IH]; intros [|x l'] Hl; cbn in *; try done; [lia|].
    destruct n as [|n]; [lia|]. cbn. rewrite IH; [by rewrite take_drop|]. rewrite length_drop. lia. }
  by apply G.
Qed.

(** A table holds no more rows of some keys than there are keys, and then all of them *)
Lemma keys_counted {A : Type} (m : gmap text A) (ids : list text) :
  rows_of ids m <= length ids /\ (rows_of ids m = length ids -> Forall (fun i => is_Some (m !! i)) ids).
Proof.
  unfold rows_of. set (f := filter _ m). assert (Hsub : dom f ⊆ list_to_set ids).
  { intros k [v Hv]%elem_of_dom. apply map_lookup_filter_Some in Hv as [_ Hk]. by apply elem_of_list_to_set. }
  assert (Hs : size (dom f) <= size (list_to_set ids : gset text)) by by apply subseteq_size.
  assert (Hl : size (list_to_set ids : gset text) <= length ids).
  { clear. induction ids as [|i ids IH]; cbn; [by rewrite size_empty|].
    destruct (decide (i ∈ (list_to_set ids : gset text))) as [Hi|Hi].
    - rewrite (subseteq_union_1_L {[i]} (list_to_set ids)) by set_solver. lia.
    - rewrite size_union, size_singleton by set_solver. lia. }
  rewrite size_dom in Hs. split; [lia|]. intros E. apply Forall_forall. intros i Hi.
  assert (Hd : dom f = list_to_set ids) by (apply set_subseteq_size_eq; [done|rewrite size_dom; lia]).
  assert (Hi' : i ∈ dom f) by (rewrite Hd; by apply elem_of_list_to_set).
  apply elem_of_dom in Hi' as [v Hv]. apply map_lookup_filter_Some in Hv as [Hv _]. by exists v.
Qed.

(** A map is there: its import is complete, and so are the files the bundle lists *)
Definition map_there (b : Bundle) (s : Store) (src dst : text) : Prop :=
  (exists row k, s_maps s !! dst = Some row /\ row_lifecycle row <> DELETED /\ row_from row = Some k /\ k_phase k = Complete)
  /\ forall key n, (key, n) ∈ bu_objects b src -> exists c, s_objects s !! (bucket_of dst, key) = Some (n, c).
Definition runs_there (b : Bundle) (t : Tables) (mission : text) (ids : list text) : Prop :=
  exists legs, bu_runs b mission = Some (ids, legs) /\ Forall (fun i => is_Some (t_runs t !! i)) ids.
Definition bag_there (b : Bundle) (t : Tables) (x : text * text) : Prop :=
  is_Some (bu_bag b x.1 x.2) /\ t_bags t !! bag_key x.1 x.2 = bu_bag b x.1 x.2.

Record listed_there (b : Bundle) (s : Store) (t : Tables) (o : Out) : Prop := {
  there_maps : forall src dst, maps o !! src = Some dst -> map_there b s src dst;
  there_runs : forall mission ids, runs o !! mission = Some ids -> runs_there b t mission ids;
  there_bags : Forall (bag_there b t) (rosbags o);
}.

Section sound.
Context (b : Bundle) (s : Store) (t : Tables).
Let P : Probe := service_target s t.
#[local] Existing Instance P.

(** What one entry adds: itself, or a problem *)
Lemma verify_map_cases o e : verify_map b o e = map_found (mp_source e) (mp_target e) o /\ map_there b s (mp_source e) (mp_target e)
  \/ exists p, verify_map b o e = problem p o.
Proof.
  unfold verify_map. cbn. destruct (s_maps s !! mp_target e) as [row|] eqn:Er; cbn; [|eauto]. case_bool_decide as Hd; cbn; [eauto|].
  case_bool_decide as Hk; [|eauto]. destruct (bool_decide _ || bool_decide _); [eauto|].
  destruct (_ <$> filter _ _) as [|m l] eqn:Ef; [|eauto]. left. split; [done|]. split.
  - destruct (row_from row) as [k|] eqn:Ek; [|done]. cbn in Hk. eexists row, k. by simplify_eq.
  - intros key n Hin. apply fmap_nil_inv in Ef. apply list_sizes_lookup. destruct (decide (list_sizes (mp_target e) (s_objects s) !! key = Some n)) as [|Hn]; [done|].
    assert (Hx : (key, n) ∈ filter (fun x : text * N => list_sizes (mp_target e) (s_objects s) !! x.1 <> Some x.2) (bu_objects b (mp_source e)))
      by by apply list_elem_of_filter. rewrite Ef in Hx. by apply elem_of_nil in Hx.
Qed.

Lemma found_counted parts : forall f, let g := foldl (fun f part => let x := existing_runs part in (f.1 + x.1, f.2 + x.2)) f parts in
  g.1 <= f.1 + length (mjoin parts) /\ (g.1 = f.1 + length (mjoin parts) -> Forall (fun i => is_Some (t_runs t !! i)) (mjoin parts)).
Proof.
  induction parts as [|part parts IH]; intros f; [split; [cbn; lia|constructor]|].
  change (mjoin (part :: parts)) with (part ++ mjoin parts).
  specialize (IH (f.1 + (existing_runs part).1, f.2 + (existing_runs part).2)) as [H1 H2].
  destruct (keys_counted (t_runs t) part) as [H3 H4]. cbn in *. rewrite length_app, Forall_app. split; [lia|].
  intros E. split; [apply H4|apply H2]; lia.
Qed.

Lemma verify_runs_cases o mission o' : verify_runs b o mission = Ok o' ->
  (exists ids, o' = runs_found mission ids o /\ runs_there b t mission ids) \/ exists p, o' = problem p o.
Proof.
  unfold verify_runs. destruct (bu_runs b mission) as [[ids legs]|] eqn:Eb; [|done].
  destruct (found_counted (slices RUN_BATCH ids) (0, 0)) as [_ Hall]. rewrite slices_join in Hall by (cbv; lia).
  destruct (found_counted (slices RUN_BATCH ids) (0, 0)) as [Hle _]. rewrite slices_join in Hle by (cbv; lia).
  cbn zeta in *. set (found := foldl _ _ _) in *. clearbody found. case_bool_decide; cbn; [intros [= <-]; eauto|].
  case_bool_decide; cbn; intros [= <-]; [eauto|]. left. exists ids. split; [done|]. exists legs. split; [done|]. apply Hall. cbn in *. lia.
Qed.

Lemma verify_bag_cases o e o' : verify_bag b o e = Ok o' ->
  o' = bag_found (bp_robot e) (bp_id e) o /\ bag_there b t (bp_robot e, bp_id e) \/ exists p, o' = problem p o.
Proof.
  unfold verify_bag. destruct (bu_bag b _ _) as [n|] eqn:Eb; [|done]. case_bool_decide as Hs; intros [= <-]; [left|eauto].
  split; [done|]. split; cbn; rewrite Eb; [done|exact Hs].
Qed.

Lemma problem_there p o : listed_there b s t o -> listed_there b s t (problem p o).
Proof. by intros [???]. Qed.
Lemma map_found_there src dst o : map_there b s src dst -> listed_there b s t o -> listed_there b s t (map_found src dst o).
Proof. intros Hm [H1 H2 H3]. split; cbn; [|done|done]. intros src' dst'. rewrite lookup_insert_Some. naive_solver. Qed.
Lemma runs_found_there mission ids o : runs_there b t mission ids -> listed_there b s t o -> listed_there b s t (runs_found mission ids o).
Proof. intros Hm [H1 H2 H3]. split; cbn; [done| |done]. intros m' i'. rewrite lookup_insert_Some. naive_solver. Qed.
Lemma bag_found_there robot bag_id o : bag_there b t (robot, bag_id) -> listed_there b s t o -> listed_there b s t (bag_found robot bag_id o).
Proof. intros Hm [H1 H2 H3]. split; cbn; [done|done|]. apply Forall_app. split; [done|by constructor]. Qed.

(** An entry of the plan is listed, or there is a problem; and so it stays *)
Definition map_settled (o : Out) (e : MapPlan) : Prop := is_Some (maps o !! mp_source e) \/ problems o <> [].
Definition runs_settled (o : Out) (m : text) : Prop := is_Some (runs o !! m) \/ problems o <> [].
Definition bag_settled (o : Out) (e : BagPlan) : Prop := (bp_robot e, bp_id e) ∈ rosbags o \/ problems o <> [].

(** A problem or a listing is added, and nothing is taken away *)
Record grows (o o' : Out) : Prop := {
  grows_maps : forall k, is_Some (maps o !! k) -> is_Some (maps o' !! k);
  grows_runs : forall k, is_Some (runs o !! k) -> is_Some (runs o' !! k);
  grows_bags : rosbags o ⊆ rosbags o';
  grows_problems : problems o <> [] -> problems o' <> [];
}.
#[local] Instance grows_preorder : PreOrder grows.
Proof. split; [by split|]. intros o1 o2 o3 [] []. split; [auto|auto|by etransitivity|auto]. Qed.
Lemma grows_problem p o : grows o (problem p o) /\ problems (problem p o) <> [].
Proof. split; [split; cbn; auto|]; cbn; by destruct (problems o). Qed.
Lemma grows_map_found src dst o : grows o (map_found src dst o).
Proof. split; cbn; auto. intros k. rewrite lookup_insert_is_Some. destruct (decide (src = k)); auto. Qed.
Lemma grows_runs_found m ids o : grows o (runs_found m ids o).
Proof. split; cbn; auto. intros k. rewrite lookup_insert_is_Some. destruct (decide (m = k)); auto. Qed.
Lemma grows_bag_found r i o : grows o (bag_found r i o).
Proof. split; cbn; auto. set_solver. Qed.

Lemma verify_map_step o e : listed_there b s t o ->
  listed_there b s t (verify_map b o e) /\ grows o (verify_map b o e) /\ map_settled (verify_map b o e) e.
Proof.
  intros Ho. destruct (verify_map_cases o e) as [[-> Hm]|[p ->]].
  - split; [by apply map_found_there|]. split; [apply grows_map_found|]. left. cbn. by rewrite lookup_insert_eq.
  - destruct (grows_problem p o). split; [by apply problem_there|]. split; [done|by right].
Qed.
Lemma verify_runs_step o m o' : verify_runs b o m = Ok o' -> listed_there b s t o -> listed_there b s t o' /\ grows o o' /\ runs_settled o' m.
Proof.
  intros [(ids & -> & Hm)|[p ->]]%verify_runs_cases Ho.
  - split; [by apply runs_found_there|]. split; [apply grows_runs_found|]. left. cbn. by rewrite lookup_insert_eq.
  - destruct (grows_problem p o). split; [by apply problem_there|]. split; [done|by right].
Qed.
Lemma verify_bag_step o e o' : verify_bag b o e = Ok o' -> listed_there b s t o -> listed_there b s t o' /\ grows o o' /\ bag_settled o' e.
Proof.
  intros [[-> Hm]|[p ->]]%verify_bag_cases Ho.
  - split; [by apply bag_found_there|]. split; [apply grows_bag_found|]. left. cbn. set_solver.
  - destruct (grows_problem p o). split; [by apply problem_there|]. split; [done|by right].
Qed.

(** A loop of such steps settles every entry *)
Lemma loop_settles {A : Type} (f : Out -> A -> result BundleError Out) (settled : Out -> A -> Prop) l :
  (forall o x o', f o x = Ok o' -> listed_there b s t o -> listed_there b s t o' /\ grows o o' /\ settled o' x) ->
  (forall o o' x, grows o o' -> settled o x -> settled o' x) ->
  forall o o', rfold f o l = Ok o' -> listed_there b s t o -> listed_there b s t o' /\ grows o o' /\ Forall (settled o') l.
Proof.
  intros Hf Hg. induction l as [|x l IH]; intros o o'; cbn.
  - intros [= <-] Ho. by split.
  - intros (o1 & H1 & H2)%rbind_ok Ho. destruct (Hf _ _ _ H1 Ho) as (Ho1 & G1 & S1).
    destruct (IH _ _ H2 Ho1) as (Ho2 & G2 & S2). split; [done|]. split; [by etransitivity|]. constructor; [by eapply Hg|done].
Qed.
Lemma rfold_pure {A : Type} (f : Out -> A -> Out) l : forall o, rfold (fun o x => Ok (f o x)) o l = Ok (E := BundleError) (foldl f o l).
Proof. induction l as [|x l IH]; intros o; cbn; [done|apply IH]. Qed.
End sound.

(** C14: Before the source is deleted in a move, the check lists only what the destination holds: a map whose import is complete and whose
    files are all there with the sizes the bundle gives, runs that are all there, and recordings of the right size; and when it reports no
    problem, every map, mission and recording of the plan is listed. *)
Theorem verified_is_there (b : Bundle) (s : Store) (t : Tables) (p : Plan) (o : Out) :
  verify_import (H := service_target s t) b p = Ok o ->
  listed_there b s t o
  /\ (ok o = true -> Forall (fun e => is_Some (maps o !! mp_source e)) (pl_maps p)
                    /\ Forall (fun m => is_Some (runs o !! m)) (pl_runs p)
                    /\ Forall (fun e => (bp_robot e, bp_id e) ∈ rosbags o) (pl_bags p)).
Proof.
  unfold verify_import. intros (o2 & Hr & Hb)%rbind_ok. set (o1 := foldl _ _ _) in Hr.
  destruct (loop_settles b s t (fun o e => Ok (verify_map (H := service_target s t) b o e)) map_settled (pl_maps p)) with (o := new_out) (o' := o1)
    as (L1 & _ & S1).
  { intros o' e o'' [= <-]. apply verify_map_step. } { intros ??? [] [|]; [left|right]; auto. } { apply rfold_pure. } { by split. }
  destruct (loop_settles b s t (verify_runs (H := service_target s t) b) runs_settled (pl_runs p)) with (o := o1) (o' := o2) as (L2 & G2 & S2); try done.
  { apply verify_runs_step. } { intros ??? [] [|]; [left|right]; auto. }
  destruct (loop_settles b s t (verify_bag (H := service_target s t) b) bag_settled (pl_bags p)) with (o := o2) (o' := o) as (L3 & G3 & S3); try done.
  { apply verify_bag_step. } { intros ??? [] [|]; [left|right]; auto. }
  split; [done|]. intros Hok. apply bool_decide_eq_true in Hok. assert (Hp : problems o = []) by by apply nil_length_inv.
  destruct G3 as [M3 R3 B3 P3], G2 as [M2 R2 B2 P2]. split; [|split].
  - eapply Forall_impl; [exact S1|]. intros e [He|He]; [by apply M3, M2|]. by destruct (P3 (P2 He)).
  - eapply Forall_impl; [exact S2|]. intros e [He|He]; [by apply R3|]. by destruct (P3 He).
  - eapply Forall_impl; [exact S3|]. by intros e [He|He].
Qed.

(** ** What was imported is listed *)

Lemma in_collection_at_least {A : Type} (name : text) (docs : gmap (text * text) A) (keys : list text) :
  NoDup keys -> (forall k, k ∈ keys -> is_Some (docs !! (name, k))) -> length keys <= in_collection name docs.
Proof.
  intros Hnd Hk. unfold in_collection. rewrite <-(length_fmap (fun k => (name, k))), <-size_dom.
  rewrite <-(size_list_to_set (C := gset (text * text))) by (apply NoDup_fmap_2; [by intros ?? [=]|done]).
  apply subseteq_size. intros x (k & -> & Hin)%elem_of_list_to_set%list_elem_of_fmap.
  apply elem_of_dom. destruct (Hk k Hin) as [v Hv]. exists v. by apply map_lookup_filter_Some.
Qed.

(** An import that returns leaves behind every write of the map, and its row marked complete *)
Lemma applied_written import_id src_key src dst bm s s' : NoDup (o_key <$> bm_objects bm) ->
  apply_map import_id src_key src dst bm s = (s', Ok ()) ->
  exists marker row, s_maps s' !! dst = Some row /\ row_lifecycle row <> DELETED /\ row_from row = Some marker /\ k_phase marker = Complete
  /\ forall w, w ∈ writes bm marker -> written dst bm w s'.
Proof.
  intros Hnd. unfold apply_map. destruct (begin import_id src_key src dst bm s) as [s1|] eqn:Eb; [|done].
  destruct (begin_row _ _ _ _ _ _ _ Eb) as (k & Ek & Hrow). rewrite Ek. intros Hrun. exists (touched import_id k).
  assert (Hw : forall w, w ∈ writes bm (touched import_id k) -> written dst bm w s').
  { eapply (run_est (write src dst bm) (written dst bm) (writes bm (touched import_id k))); [| | |reflexivity|exact Hrun].
    - intros a t t' _ Hw. by eapply write_written.
    - intros a t _ Hw. by apply written_noop.
    - intros a c t t' Ha Hb. by eapply written_keep. }
  assert (Hr : row_of import_id src_key src dst (touched import_id k) s').
  { assert (s' = (run_steps (write src dst bm) (writes bm (touched import_id k)) s1).1) as -> by by rewrite Hrun.
    destruct Hrow as (row & k' & Er & Hl & Hk' & Hs & Hm & Ht). assert (k' = k) as -> by (rewrite Er in Ek; cbn in Ek; congruence).
    apply run_steps_inv; [|by exists row, k]. intros a t t' Ha. by eapply write_row. }
  destruct Hr as (row & k' & Er & Hl & _). assert (Hc : written dst bm (Commit (touched import_id k)) s') by (apply Hw; unfold writes; set_solver).
  exists row. split_and!; try done. apply (f_equal (lookup dst)) in Hc. cbn in Hc. rewrite lookup_alter_eq, Er in Hc. cbn in Hc.
  injection Hc as Hc. by rewrite <-Hc.
Qed.

Lemma applied_documents import_id src_key src dst bm s s' : NoDup (o_key <$> bm_objects bm) -> NoDup (d_key <$> bm_nodes bm) -> NoDup (d_key <$> bm_edges bm) ->
  apply_map import_id src_key src dst bm s = (s', Ok ()) ->
  length (bm_nodes bm) <= in_collection dst (s_nodes s') /\ length (bm_edges bm) <= in_collection dst (s_edges s')
  /\ forall o, o ∈ bm_objects bm -> list_sizes dst (s_objects s') !! o_key o = Some (o_size o).
Proof.
  intros Ho Hn He (marker & row & _ & _ & _ & _ & Hw)%applied_written; [|done]. unfold writes in Hw. rewrite !batches_join in Hw.
  split; [|split].
  - rewrite <-(length_fmap d_key). apply in_collection_at_least; [done|]. intros ? (d & -> & Hd)%list_elem_of_fmap. apply (Hw (PutNode d)). set_solver.
  - rewrite <-(length_fmap d_key). apply in_collection_at_least; [done|]. intros ? (d & -> & Hd)%list_elem_of_fmap. apply (Hw (PutEdge d)). set_solver.
  - intros o Hin. apply list_sizes_lookup. specialize (Hw (PutObject o)). cbn in Hw.
    destruct (s_objects s' !! (bucket_of dst, o_key o)) as [[n c]|]; cbn in Hw; [|by discriminate Hw; set_solver].
    exists c. assert (Some n = Some (o_size o)) as [= ->] by (apply Hw; set_solver). done.
Qed.

(** C29: A map that an import has written completely, whether at once or after interruptions, is listed by the check that follows: it
    finds the row complete, no fewer nodes and edges than the bundle has, and every file with its size. *)
Theorem imported_map_verifies (import_id src_key src dst : text) (bm : BundleMap) (b : Bundle) (s s' : Store) (t : Tables) (o : Out) :
  NoDup (o_key <$> bm_objects bm) -> NoDup (d_key <$> bm_nodes bm) -> NoDup (d_key <$> bm_edges bm) ->
  bu_objects b src = (fun x => (o_key x, o_size x)) <$> bm_objects bm ->
  apply_map import_id src_key src dst bm s = (s', Ok ()) ->
  verify_map (H := service_target s' t) b o {| mp_source := src; mp_target := dst; mp_nodes := length (bm_nodes bm); mp_edges := length (bm_edges bm) |}
  = map_found src dst o.
Proof.
  intros Ho Hn He Hb Ha. destruct (applied_documents _ _ _ _ _ _ _ Ho Hn He Ha) as (Cn & Ce & Co).
  destruct (applied_written _ _ _ _ _ _ _ Ho Ha) as (marker & row & Er & Hl & Hk & Hp & _).
  unfold verify_map. cbn. rewrite Er. cbn. rewrite bool_decide_false by done. cbn. rewrite Hk. cbn. rewrite Hp, bool_decide_true by done.
  rewrite !bool_decide_false by lia. cbn. rewrite Hb.
  assert (Hf : filter (fun x : text * N => list_sizes dst (s_objects s') !! x.1 <> Some x.2) ((fun x => (o_key x, o_size x)) <$> bm_objects bm) = []); [|by rewrite Hf].
  apply Undo.filter_no_elem, Forall_fmap, Forall_forall. intros x Hin Hx. by apply Hx, Co.
Qed.

(** ** A transfer of one map, two runs and a recording *)

Definition no_tables : Tables := {| t_runs := ∅; t_legs := ∅; t_history := fun _ => []; t_bags := ∅; t_sidecars := ∅; t_items := [] |}.
Definition robot1 : text := text_of "r1".
Definition bag1 : text := text_of "b1".
Definition a_bundle : Bundle := {|
  bu_objects := fun m => if bool_decide (m = text_of "plant") then [(text_of "a.png", 4%N); (text_of "b.png", 2%N)] else [];
  bu_runs := fun m => if bool_decide (m = text_of "tour") then Some ([text_of "r1"; text_of "r2"], 1) else None;
  bu_bag := fun r i => if bool_decide (r = robot1 /\ i = bag1) then Some 7%N else None |}.
Definition a_plan : Plan := {|
  pl_maps := [{| mp_source := text_of "plant"; mp_target := text_of "plant-2"; mp_nodes := 1; mp_edges := 1 |}];
  pl_runs := [text_of "tour"]; pl_bags := [{| bp_robot := robot1; bp_id := bag1 |}] |}.
Definition arrived : Store := (import_a_map empty_store).1.
Definition transferred : Tables := foldl (work (text_of "i1") ∅ ∅) no_tables
  [Runs [Undo.run "r1"; Undo.run "r2"] [leg "r2" 0]; Rosbag 3 (bag_key robot1 bag1) 7 (text_of "{}")].

Lemma verified_is_there_witness :
  exists o, verify_import (H := service_target arrived transferred) a_bundle a_plan = Ok o /\ ok o = true
  /\ listed_there a_bundle arrived transferred o /\ rosbags o = [(robot1, bag1)].
Proof.
  eexists. split; [vm_compute; reflexivity|]. split; [vm_compute; reflexivity|]. split; [|vm_compute; reflexivity].
  eapply (proj1 (verified_is_there a_bundle arrived transferred a_plan _ ltac:(vm_compute; reflexivity))).
Defined.

Lemma imported_map_verifies_witness :
  verify_map (H := service_target arrived no_tables) a_bundle new_out
    {| mp_source := text_of "plant"; mp_target := text_of "plant-2"; mp_nodes := length (bm_nodes a_map); mp_edges := length (bm_edges a_map) |}
  = map_found (text_of "plant") (text_of "plant-2") new_out.
Proof.
  apply (imported_map_verifies (text_of "i1") (text_of "src") (text_of "plant") (text_of "plant-2") a_map a_bundle empty_store arrived no_tables new_out);
    [repeat constructor; vm_compute; set_solver..|vm_compute; reflexivity|vm_compute; reflexivity].
Defined.

(** A run that did not arrive is a problem of its mission, which is not listed. *)
Example short_mission :
  let lost := {| t_runs := delete (text_of "r2") (t_runs transferred); t_legs := t_legs transferred; t_history := t_history transferred;
                 t_bags := t_bags transferred; t_sidecars := t_sidecars transferred; t_items := t_items transferred |} in
  (fun o => (problems o, runs o)) <$> (match verify_import (H := service_target arrived lost) a_bundle a_plan with Ok o => Some o | Raise _ => None end)
  = Some ([RunsShort (text_of "tour") 1 1], ∅).
Proof. vm_compute. reflexivity. Qed.

(** A node that the source changed after a first transfer is not written again, and the check still lists the map: a move then deletes the
    only copy of the change. *)
Theorem changed_node_verified :
  let changed := {| bm_spec := bm_spec a_map; bm_state := bm_state a_map; bm_status := bm_status a_map; bm_sessions := bm_sessions a_map;
    bm_nodes := (fun d => {| d_key := d_key d; d_system := d_system d; d_map_id := d_map_id d; d_from := d_from d; d_to := d_to d; d_body := text_of "new" |}) <$> bm_nodes a_map;
    bm_edges := bm_edges a_map; bm_objects := bm_objects a_map; bm_view_settings := bm_view_settings a_map |} in
  let again := apply_map (text_of "i2") (text_of "src") (text_of "plant") (text_of "plant-2") changed arrived in
  again.2 = Ok ()
  /\ d_body <$> s_nodes again.1 !! (text_of "plant-2", text_of "n1") = Some []
  /\ maps (foldl (verify_map (H := service_target again.1 no_tables) a_bundle) new_out (pl_maps a_plan)) !! text_of "plant" = Some (text_of "plant-2").
Proof. vm_compute. done. Qed.

(** A recording whose copy was cut short after its data, before its sidecar: the next run finds the data and skips it, so the sidecar
    (the map, the time, the description) is never written, and the check lists the recording. *)
Theorem sidecar_never_written :
  let copy := foldl (work (text_of "i1") ∅ ∅) no_tables in
  let key := bag_key robot1 bag1 in
  let again := copy [Rosbag 2 key 7 (text_of "{}"); Rosbag 3 key 7 (text_of "{}")] in
  t_sidecars again !! key = None
  /\ (match verify_bag (H := service_target arrived again) a_bundle new_out {| bp_robot := robot1; bp_id := bag1 |} with
      | Ok o => rosbags o | Raise _ => [] end) = [(robot1, bag1)].
Proof. vm_compute. done. Qed.
End Verify.

Module Jobs.

(** The states of exports and imports *)
Inductive JState := Running | Done | Failed | Fetching | Planned | Applying | Stopped | RolledBack.
#[export] Instance JState_eq_dec : EqDecision JState.
Proof. solve_decision. Defined.

(** A job's dictionary: [j_plan] is whether its plan is ok; selections, progress, reports, errors and times shown are left out *)
Record Job := { j_export : bool; j_state : JState; j_plan : option bool; j_stop : bool; j_touched : Z }.
Definition set_state (x : JState) (j : Job) : Job :=
  {| j_export := j_export j; j_state := x; j_plan := j_plan j; j_stop := j_stop j; j_touched := j_touched j |}.
Definition set_plan (ok : bool) (j : Job) : Job :=
  {| j_export := j_export j; j_state := j_state j; j_plan := Some ok; j_stop := j_stop j; j_touched := j_touched j |}.
Definition set_stop (x : bool) (j : Job) : Job :=
  {| j_export := j_export j; j_state := j_state j; j_plan := j_plan j; j_stop := x; j_touched := j_touched j |}.
Definition touch (now : Z) (j : Job) : Job :=
  {| j_export := j_export j; j_state := j_state j; j_plan := j_plan j; j_stop := j_stop j; j_touched := now |}.

(** The files of the spool directory: a job's bundle, what is not yet one, the body of a request, and, while an export is built, the
    files with the history rows ([HistoryFiles]) and the scratch directory of its [BundleWriter] *)
Inductive Path := BundleFile (id : nat) | Part (id : nat) | Upload (id : nat) | History (id : nat) | Scratch (id : nat).
#[export] Instance Path_eq_dec : EqDecision Path.
Proof. solve_decision. Defined.
#[export] Instance Path_countable : Countable Path.
Proof.
  apply (inj_countable' (fun p => match p with BundleFile i => (0, i) | Part i => (1, i) | Upload i => (2, i) | History i => (3, i) | Scratch i => (4, i) end)
    (fun x : nat * nat => match x with (0, i) => BundleFile i | (1, i) => Part i | (2, i) => Upload i | (3, i) => History i | (_, i) => Scratch i end)). by intros [].
Defined.
Definition path_job (p : Path) : nat := match p with BundleFile i | Part i | Upload i | History i | Scratch i => i end.

(** Where a coroutine waits. An export reads its rows, then a thread collects and packs the bundle ([ExportCollect], [ExportWrite]) and
    hands it back ([ExportBuilt]); a pull has an export made ([PullFetch]), downloads it, has it deleted there and plans it; [Body] and
    [BodyPlan] are the request that uploads a bundle; the rest are the apply task and the handlers that await. *)
Inductive Pc :=
| ExportFetch | ExportBuild | ExportCollect | ExportWrite (size : N) | ExportBuilt
| PullStart | PullFetch | PullDownload (size : N) | PullForget | PullPlan
| Body (size : N) | BodyPlan
| ApplyPlan | ApplyOpen | ApplyRun (stopping : bool)
| Replan | Verifying | RollingBack.
Record Task := { t_job : nat; t_pc : Pc; t_cancelled : bool }.

(** [TransferManager]: jobs by identity, the tables of those that can be asked for, [_tasks], and the coroutines in flight. A
    drawn uuid is the next number. *)
Record Manager := {
  heap : gmap nat Job; exports : gset nat; imports : gset nat; files : gmap Path N; tasks : gmap nat Task; current : gmap nat nat; next : nat;
}.
Definition new_manager : Manager :=
  {| heap := ∅; exports := ∅; imports := ∅; files := ∅; tasks := ∅; current := ∅; next := 0 |}.

Definition set_heap f (m : Manager) : Manager :=
  {| heap := f (heap m); exports := exports m; imports := imports m; files := files m; tasks := tasks m; current := current m; next := next m |}.
Definition set_tables (f : gset nat -> gset nat) (g : gset nat -> gset nat) (m : Manager) : Manager :=
  {| heap := heap m; exports := f (exports m); imports := g (imports m); files := files m; tasks := tasks m; current := current m; next := next m |}.
Definition set_files f (m : Manager) : Manager :=
  {| heap := heap m; exports := exports m; imports := imports m; files := f (files m); tasks := tasks m; current := current m; next := next m |}.
Definition set_tasks f (m : Manager) : Manager :=
  {| heap := heap m; exports := exports m; imports := imports m; files := files m; tasks := f (tasks m); current := current m; next := next m |}.
Definition set_current f (m : Manager) : Manager :=
  {| heap := heap m; exports := exports m; imports := imports m; files := files m; tasks := tasks m; current := f (current m); next := next m |}.
Definition drawn (m : Manager) : Manager :=
  {| heap := heap m; exports := exports m; imports := imports m; files := files m; tasks := tasks m; current := current m; next := S (next m) |}.

Definition state_of (m : Manager) (id : nat) : option JState := j_state <$> heap m !! id.

(** How an await ends: as it should ([Fine], with a plan, a report or a chunk of data), [should_stop] asked in between ([Asked]), or
    with an exception, which may be a [BundleError] *)
Inductive Outcome := Fine | Chunk (n : N) | PlanIs (ok : bool) | Report (ok : bool) | Asked | Err (bundle : bool).

Inductive Ev :=
| StartExport | StartPull | BodyBegin
| Resume (k : nat) (o : Outcome)
| GetExport (id : nat) | GetImport (id : nat)
| DeleteExport (id : nat) | DeleteImport (id : nat)
| AskReplan (id : nat) | StartApply (id : nat) | AskVerify (id : nat) | StopImport (id : nat) | AskRollback (id : nat).

Section manager.
Context (keep_s : Z) (max_bytes : N).

(** [_drop_file] *)
Definition drop_file (id : nat) : Manager -> Manager := set_files (delete (BundleFile id)).

Definition busy (x : JState) : bool := bool_decide (x ∈ [Running; Applying; Fetching]).
Definition expired (now : Z) (m : Manager) (id : nat) : bool :=
  match heap m !! id with Some j => negb (busy (j_state j)) && (keep_s <? now - j_touched j)%Z | None => false end.
(** [sweep] *)
Definition of_jobs (gone : gset nat) (p : Path) : bool := match p with BundleFile id => bool_decide (id ∈ gone) | _ => false end.
Definition sweep (now : Z) (m : Manager) : Manager :=
  let gone := filter (fun id => expired now m id = true) (exports m ∪ imports m) in
  set_files (filter (fun x => of_jobs gone x.1 = false))
    (set_tables (fun t => t ∖ gone) (fun t => t ∖ gone) m).

Definition spawn (id : nat) (pc : Pc) (m : Manager) : Manager :=
  drawn (set_tasks <[next m := {| t_job := id; t_pc := pc; t_cancelled := false |}]> m).
Definition goto (k : nat) (pc : Pc) : Manager -> Manager :=
  set_tasks (alter (fun t => {| t_job := t_job t; t_pc := pc; t_cancelled := t_cancelled t |}) k).
Definition finish (k : nat) : Manager -> Manager := set_tasks (delete k).
Definition change (id : nat) (f : Job -> Job) : Manager -> Manager := set_heap (alter f id).
(** [self._tasks[job_id] = create_task(...)] *)
Definition create_task (id : nat) (pc : Pc) (m : Manager) : Manager := spawn id pc (set_current <[id := next m]> m).

(** [start_export], [start_pull] once the selection and the address are in order *)
Definition start_export (now : Z) (m : Manager) : Manager :=
  let m := sweep now m in let id := next m in
  create_task id ExportFetch (drawn (set_tables (fun t => {[id]} ∪ t) (fun t => t)
    (set_heap <[id := {| j_export := true; j_state := Running; j_plan := None; j_stop := false; j_touched := now |}]> m))).
Definition start_pull (now : Z) (m : Manager) : Manager :=
  let m := sweep now m in let id := next m in
  create_task id PullStart (drawn (set_tables (fun t => t) (fun t => {[id]} ∪ t)
    (set_heap <[id := {| j_export := false; j_state := Fetching; j_plan := None; j_stop := false; j_touched := now |}]> m))).

(** [os.replace], for the file of a job *)
Definition replace (id : nat) (m : Manager) : option Manager :=
  match files m !! Part id with
  | Some n => Some (set_files (fun f => <[BundleFile id := n]> (delete (Part id) f)) m)
  | None => None
  end.

(** The end of [_run_export], with [hist.close], the exit of the writer and [_drop_partial] *)
Definition end_export (now : Z) (k id : nat) (ok : bool) (m : Manager) : Manager :=
  let m := change id (touch now ∘ set_state (if ok then Done else Failed)) m in
  finish k (set_files (fun f => let f := delete (Part id) (delete (Scratch id) (delete (History id) f)) in if ok then f else delete (BundleFile id) f) m).

(** The end of [_run_pull] *)
Definition end_pull (now : Z) (k id : nat) (x : JState) (m : Manager) : Manager :=
  let m := change id (touch now ∘ set_state x) m in
  finish k (set_files (fun f => let f := delete (Part id) f in match x with Failed | Stopped => delete (BundleFile id) f | _ => f end) m).

(** [if self.max_bytes and size > self.max_bytes] *)
Definition over (size : N) : bool := negb (bool_decide (max_bytes = 0%N)) && bool_decide (max_bytes < size)%N.

Definition run_export (now : Z) (k id : nat) (pc : Pc) (o : Outcome) (m : Manager) : Manager :=
  match pc, o with
  | _, Err _ => end_export now k id false m
  | ExportFetch, Chunk c => goto k ExportFetch (set_files <[History id := c]> m)                   (* [prefetch_history] *)
  | ExportFetch, Fine => goto k ExportBuild m
  | ExportBuild, Fine => goto k ExportCollect (set_files <[Scratch id := 0%N]> m)
  | ExportCollect, Fine => goto k (ExportWrite 0) (set_files <[Part id := 0%N]> m)
  | ExportWrite n, Chunk c => goto k (ExportWrite (n + c)) (set_files <[Part id := (n + c)%N]> m)
  | ExportWrite _, Fine => match replace id m with Some m => goto k ExportBuilt (set_files (delete (Scratch id)) m) | None => end_export now k id false m end
  | ExportBuilt, Fine => end_export now k id (bool_decide (is_Some (files m !! BundleFile id))) m       (* [getsize] *)
  | _, _ => m
  end.

(** [_run_pull]; a cancel is thrown in where the task waits, or before it has started *)
Definition run_pull (now : Z) (k id : nat) (pc : Pc) (cancelled : bool) (o : Outcome) (m : Manager) : Manager :=
  if cancelled then match pc with PullStart => finish k m | _ => end_pull now k id Stopped m end
  else match pc, o with
  | PullStart, Fine => goto k PullFetch m
  | PullStart, _ => m
  | _, Err _ => end_pull now k id Failed m
  | PullFetch, Fine => goto k (PullDownload 0) (set_files <[Part id := 0%N]> m)
  | PullDownload n, Chunk c =>
      if over (n + c) then end_pull now k id Failed m else goto k (PullDownload (n + c)) (set_files <[Part id := (n + c)%N]> m)
  | PullDownload _, Fine => goto k PullForget m
  | PullForget, Fine => match replace id m with Some m => goto k PullPlan m | None => end_pull now k id Failed m end
  | PullPlan, PlanIs ok => end_pull now k id Planned (change id (set_plan ok) m)
  | _, _ => m
  end.

(** [_spool_body], then [new_import]; its job is in the table only once it is planned *)
Definition run_body (now : Z) (k id : nat) (pc : Pc) (o : Outcome) (m : Manager) : Manager :=
  match pc, o with
  | Body n, Chunk c =>
      if over (n + c) then finish k (set_files (delete (Upload id)) m) else goto k (Body (n + c)) (set_files <[Upload id := (n + c)%N]> m)
  | Body n, Fine =>
      if bool_decide (n = 0%N) then finish k (set_files (delete (Upload id)) m)
      else
        let m := sweep now m in let id' := next m in
        let m := drawn (set_files (fun f => <[BundleFile id' := n]> (delete (Upload id) f)) m) in
        let m := set_heap <[id' := {| j_export := false; j_state := Planned; j_plan := None; j_stop := false; j_touched := now |}]> m in
        set_tasks <[k := {| t_job := id'; t_pc := BodyPlan; t_cancelled := false |}]> m
  | Body _, Err _ => finish k (set_files (delete (Upload id)) m)
  | BodyPlan, PlanIs ok => finish k (set_tables (fun t => t) (fun t => {[id]} ∪ t) (change id (set_plan ok) m))
  | BodyPlan, Err true => finish k (drop_file id m)
  | BodyPlan, Err false => finish k m
  | _, _ => m
  end.

(** [_run_apply] *)
Definition end_apply (now : Z) (k id : nat) (x : JState) (m : Manager) : Manager := finish k (change id (touch now ∘ set_state x) m).
Definition run_apply (now : Z) (k id : nat) (pc : Pc) (o : Outcome) (m : Manager) : Manager :=
  match pc, o with
  | _, Err _ => end_apply now k id Failed m
  | ApplyPlan, PlanIs ok => goto k ApplyOpen (change id (set_plan ok) m)
  | ApplyOpen, Fine => goto k (ApplyRun false) m
  | ApplyRun stopping, Asked => goto k (ApplyRun (stopping || default false (j_stop <$> heap m !! id))) m
  | ApplyRun stopping, Report ok => end_apply now k id (if stopping then Stopped else if ok then Done else Failed) m
  | _, _ => m
  end.

(** The rest of [replan], [verify] and [rollback] *)
Definition run_replan (k id : nat) (o : Outcome) (m : Manager) : Manager :=
  match o with PlanIs ok => finish k (change id (set_plan ok) m) | Err _ => finish k m | _ => m end.
Definition run_verify (now : Z) (k id : nat) (o : Outcome) (m : Manager) : Manager :=
  match o with Fine => finish k (change id (touch now) m) | Err _ => finish k m | _ => m end.
Definition run_rollback (k id : nat) (o : Outcome) (m : Manager) : Manager :=
  match o with Fine => finish k (change id (set_state RolledBack) m) | Err _ => finish k m | _ => m end.

Definition resume (now : Z) (k : nat) (o : Outcome) (m : Manager) : Manager :=
  match tasks m !! k with
  | None => m
  | Some t =>
      let id := t_job t in
      match t_pc t with
      | ExportFetch | ExportBuild | ExportCollect | ExportWrite _ | ExportBuilt => run_export now k id (t_pc t) o m
      | PullStart | PullFetch | PullDownload _ | PullForget | PullPlan => run_pull now k id (t_pc t) (t_cancelled t) o m
      | Body _ | BodyPlan => run_body now k id (t_pc t) o m
      | ApplyPlan | ApplyOpen | ApplyRun _ => run_apply now k id (t_pc t) o m
      | Replan => run_replan k id o m
      | Verifying => run_verify now k id o m
      | RollingBack => run_rollback k id o m
      end
  end.

(** [export_job], [import_job]: the job is touched, or there is none (404) *)
Definition export_job (now : Z) (id : nat) (m : Manager) : option (Job * Manager) :=
  if bool_decide (id ∈ exports m) then j ← heap m !! id; Some (j, change id (touch now) m) else None.
Definition import_job (now : Z) (id : nat) (m : Manager) : option (Job * Manager) :=
  if bool_decide (id ∈ imports m) then j ← heap m !! id; Some (j, change id (touch now) m) else None.

(** What a request is told: accepted, or the status of the error *)
Definition Reply : Type := result nat ().
Definition on_job (found : option (Job * Manager)) (m : Manager) (f : Job -> Manager -> Manager * Reply) : Manager * Reply :=
  match found with None => (m, Raise 404) | Some (j, m) => f j m end.

Definition delete_export (now : Z) (id : nat) (m : Manager) : Manager * Reply :=
  on_job (export_job now id m) m (fun j m =>
    if bool_decide (j_state j = Running) then (m, Raise 409)
    else (set_tables (fun t => t ∖ {[id]}) (fun t => t) (drop_file id m), Ok ())).
Definition delete_import (now : Z) (id : nat) (m : Manager) : Manager * Reply :=
  on_job (import_job now id m) m (fun j m =>
    if bool_decide (j_state j = Applying) then (m, Raise 409)
    else (set_tables (fun t => t) (fun t => t ∖ {[id]}) (drop_file id m), Ok ())).
Definition replan (now : Z) (id : nat) (m : Manager) : Manager * Reply :=
  on_job (import_job now id m) m (fun j m => if bool_decide (j_state j = Applying) then (m, Raise 409) else (spawn id Replan m, Ok ())).
Definition start_apply (now : Z) (id : nat) (m : Manager) : Manager * Reply :=
  on_job (import_job now id m) m (fun j m =>
    if bool_decide (j_state j ∈ [Applying; Fetching]) then (m, Raise 409)
    else if bool_decide (j_plan j = None) || bool_decide (files m !! BundleFile id = None) then (m, Raise 409)
    else if bool_decide (j_plan j = Some false) then (m, Raise 409)
    else (create_task id ApplyPlan (change id (set_stop false ∘ set_state Applying) m), Ok ())).
Definition verify (now : Z) (id : nat) (m : Manager) : Manager * Reply :=
  on_job (import_job now id m) m (fun j m =>
    if negb (bool_decide (j_state j = Done)) || bool_decide (j_plan j = None) || bool_decide (files m !! BundleFile id = None)
    then (m, Raise 409) else (spawn id Verifying m, Ok ())).
Definition cancel (k : nat) : Manager -> Manager :=
  set_tasks (alter (fun t => {| t_job := t_job t; t_pc := t_pc t; t_cancelled := true |}) k).
Definition stop_import (now : Z) (id : nat) (m : Manager) : Manager * Reply :=
  on_job (import_job now id m) m (fun j m =>
    if bool_decide (j_state j = Fetching) then
      let m := match current m !! id with Some k => cancel k m | None => m end in (change id (set_state Stopped) m, Ok ())
    else if bool_decide (j_state j = Applying) then (change id (set_stop true) m, Ok ())
    else (m, Raise 409)).
Definition rollback (now : Z) (id : nat) (m : Manager) : Manager * Reply :=
  on_job (import_job now id m) m (fun j m => if bool_decide (j_state j = Applying) then (m, Raise 409) else (spawn id RollingBack m, Ok ())).

(** The upload of a bundle opens its file *)
Definition body_begin (m : Manager) : Manager := let id := next m in spawn id (Body 0) (drawn (set_files <[Upload id := 0%N]> m)).

Definition handle (m : Manager) (e : Z * Ev) : Manager * Reply :=
  let now := e.1 in
  match e.2 with
  | StartExport => (start_export now m, Ok ())
  | StartPull => (start_pull now m, Ok ())
  | BodyBegin => (body_begin m, Ok ())
  | Resume k o => (resume now k o m, Ok ())
  | GetExport id => on_job (export_job now id m) m (fun _ m => (m, Ok ()))
  | GetImport id => on_job (import_job now id m) m (fun _ m => (m, Ok ()))
  | DeleteExport id => delete_export now id m
  | DeleteImport id => delete_import now id m
  | AskReplan id => replan now id m
  | StartApply id => start_apply now id m
  | AskVerify id => verify now id m
  | StopImport id => stop_import now id m
  | AskRollback id => rollback now id m
  end.
Definition step (m : Manager) (e : Z * Ev) : Manager := (handle m e).1.
End manager.

(** ** The spool and its owners

    The parts of the state that belong to one job, and what holds of them between any two steps. Jobs do not share
    anything, so a step changes one of them (a sweep removes several). *)

Definition exporting (pc : Pc) : bool := match pc with ExportFetch | ExportBuild | ExportCollect | ExportWrite _ | ExportBuilt => true | _ => false end.
Definition pulling (pc : Pc) : bool := match pc with PullStart | PullFetch | PullDownload _ | PullForget | PullPlan => true | _ => false end.
Definition applying (pc : Pc) : bool := match pc with ApplyPlan | ApplyOpen | ApplyRun _ => true | _ => false end.
Definition writing (pc : Pc) : bool := match pc with ExportWrite _ | PullDownload _ | PullForget => true | _ => false end.
Definition collecting (pc : Pc) : bool := match pc with ExportCollect | ExportWrite _ => true | _ => false end.
Definition receiving (pc : Pc) : bool := match pc with Body _ => true | _ => false end.
Definition holding (pc : Pc) : bool := match pc with ExportBuilt | PullPlan | BodyPlan => true | _ => false end.

Definition sig_of (m : Manager) (id : nat) : option (bool * JState) := (fun j => (j_export j, j_state j)) <$> heap m !! id.
Definition there (m : Manager) (p : Path) : Prop := is_Some (files m !! p).
Definition held (m : Manager) (id : nat) (P : Pc -> bool) : Prop := exists k t, tasks m !! k = Some t /\ t_job t = id /\ P (t_pc t) = true.

(** An import that nothing runs on *)
Definition quiet (m : Manager) (id : nat) : Prop :=
  exists x, sig_of m id = Some (false, x) /\ x <> Running /\ x <> Fetching /\ x <> Applying.

(** What a coroutine relies on *)
Definition claim (m : Manager) (k : nat) (t : Task) : Prop :=
  let id := t_job t in
  (exporting (t_pc t) = true -> sig_of m id = Some (true, Running) /\ id ∈ exports m /\ current m !! id = Some k)
  /\ (pulling (t_pc t) = true -> t_cancelled t = false -> sig_of m id = Some (false, Fetching) /\ id ∈ imports m /\ current m !! id = Some k)
  /\ (pulling (t_pc t) = true -> t_cancelled t = true -> quiet m id)
  /\ (applying (t_pc t) = true -> sig_of m id = Some (false, Applying) /\ id ∈ imports m /\ current m !! id = Some k /\ there m (BundleFile id))
  /\ (t_pc t = RollingBack \/ t_pc t = BodyPlan -> quiet m id).

Definition drives (x : JState) (t : Task) : Prop :=
  match x with
  | Running => exporting (t_pc t) = true | Fetching => pulling (t_pc t) = true /\ t_cancelled t = false | Applying => applying (t_pc t) = true
  | _ => False
  end.

Record ok_at (m : Manager) (id : nat) : Prop := {
  ok_export : id ∈ exports m -> exists x, sig_of m id = Some (true, x);
  ok_import : id ∈ imports m -> exists x, sig_of m id = Some (false, x) /\ x <> Running;
  ok_tasks : forall k t, tasks m !! k = Some t -> t_job t = id -> claim m k t;
  ok_busy : forall e x, sig_of m id = Some (e, x) -> busy x = true ->
    exists k t, current m !! id = Some k /\ tasks m !! k = Some t /\ t_job t = id /\ drives x t;
  ok_new : forall k t, tasks m !! k = Some t -> t_job t = id -> t_pc t = BodyPlan ->
    id ∉ exports m /\ id ∉ imports m /\ forall k' t', tasks m !! k' = Some t' -> t_job t' = id -> k' = k;
  ok_bundle : there m (BundleFile id) -> id ∈ exports m \/ id ∈ imports m \/ held m id holding;
  ok_part : there m (Part id) -> held m id writing;
  ok_upload : there m (Upload id) -> held m id receiving;
}.

(** Two states that agree on a job *)
Record same_at (m m' : Manager) (id : nat) : Prop := {
  same_sig : sig_of m' id = sig_of m id;
  same_exports : id ∈ exports m' <-> id ∈ exports m;
  same_imports : id ∈ imports m' <-> id ∈ imports m;
  same_current : current m' !! id = current m !! id;
  same_files : forall p, path_job p = id -> there m' p <-> there m p;
  same_tasks : forall k t, t_job t = id -> tasks m' !! k = Some t <-> tasks m !! k = Some t;
}.

Lemma held_same m m' id P : same_at m m' id -> held m' id P <-> held m id P.
Proof. intros [? ? ? ? ? S]. unfold held. split; intros (k & t & Ht & Hj & Hp); exists k, t; by rewrite (S k t Hj) in *. Qed.
Lemma claim_same m m' k t : same_at m m' (t_job t) -> claim m k t -> claim m' k t.
Proof.
  intros [E1 E2 E3 E4 E5 _]. unfold claim, quiet. rewrite E1, E2, E3, E4, (E5 (BundleFile (t_job t))) by set_solver. done.
Qed.
Lemma ok_same m m' id : same_at m m' id -> ok_at m id -> ok_at m' id.
Proof.
  intros S [H1 H2 H3 H4 H0 H5 H6 H7]. pose proof S as [E1 E2 E3 E4 E5 E6]. split.
  - by rewrite E1, E2.
  - by rewrite E1, E3.
  - intros k t Ht Hj. apply (E6 k t Hj) in Ht. apply (claim_same m); [by rewrite Hj|by apply H3].
  - intros e x. rewrite E1. intros Hs Hb. destruct (H4 _ _ Hs Hb) as (k & t & Hc & Ht & Hj & Hd). exists k, t.
    split; [by rewrite E4|]. split; [by apply (E6 k t Hj)|done].
  - intros k t Ht Hj Hp. apply (E6 k t Hj) in Ht. rewrite E2, E3. destruct (H0 k t Ht Hj Hp) as (? & ? & Hu). split_and!; try done.
    intros k' t' Ht' Hj'. apply (E6 k' t' Hj') in Ht'. by eapply Hu.
  - rewrite (E5 (BundleFile id)), E2, E3, (held_same m m') by (done || set_solver). done.
  - rewrite (E5 (Part id)), (held_same m m') by (done || set_solver). done.
  - rewrite (E5 (Upload id)), (held_same m m') by (done || set_solver). done.
Qed.

(** A number not yet drawn *)
Record blank (m : Manager) (id : nat) : Prop := {
  blank_sig : sig_of m id = None; blank_exports : id ∉ exports m; blank_imports : id ∉ imports m; blank_current : current m !! id = None;
  blank_files : forall p, path_job p = id -> ~ there m p;
  blank_tasks : forall k t, tasks m !! k = Some t -> t_job t <> id;
}.
Lemma blank_same m m' id : same_at m m' id -> blank m id -> blank m' id.
Proof.
  intros [E1 E2 E3 E4 E5 E6] [B1 B2 B3 B4 B5 B6]. split; [by rewrite E1|by rewrite E2|by rewrite E3|by rewrite E4| |].
  - intros p Hp. rewrite (E5 p Hp). by apply B5.
  - intros k t Ht Hj. apply (E6 k t Hj) in Ht. by eapply B6.
Qed.

Record inv (m : Manager) : Prop := {
  inv_ok : forall id, ok_at m id;
  inv_blank : forall id, next m <= id -> blank m id;
  inv_keys : forall k, next m <= k -> tasks m !! k = None;
}.

Lemma blank_ok m id : blank m id -> ok_at m id.
Proof.
  intros [B1 B2 B3 B4 B5 B6]. split; try done; try (intros H; exfalso; eapply B5, H; set_solver).
  - intros k t Ht Hj. by destruct (B6 k t Ht).
  - intros e x. by rewrite B1.
  - intros k t Ht Hj. by destruct (B6 k t Ht).
Qed.

(** A step of one job *)
Lemma inv_local m m' id : inv m -> next m <= next m' -> (forall k, next m' <= k -> tasks m' !! k = None) -> id < next m' ->
  (forall id', id' <> id -> same_at m m' id') -> ok_at m' id -> inv m'.
Proof.
  intros [I1 I2 I3] Hn Hk Hid Hs Hok. split; [| |done].
  - intros id'. destruct (decide (id' = id)) as [->|Hne]; [done|]. eapply ok_same; [by apply Hs|apply I1].
  - intros id' Hle. eapply blank_same; [apply Hs; lia|apply I2; lia].
Qed.

(** Requests that are sent when nothing on the same import is under way that they do not look for: no delete and no undo while a bundle is
    being fetched, no apply beside an undo or a fetch that is being stopped; and a plan of an uploaded bundle fails only for the
    bundle. What else can go wrong is up to the requests and the outcomes. *)
Definition winding_down (id : nat) (t : Task) : bool :=
  bool_decide (t_job t = id) && match t_pc t with RollingBack => true | pc => pulling pc && t_cancelled t end.
Definition orderly (m : Manager) (e : Z * Ev) : bool :=
  match e.2 with
  | DeleteImport id | AskRollback id => negb (bool_decide (state_of m id = Some Fetching))
  | StartApply id => forallb (fun x => negb (winding_down id x.2)) (map_to_list (tasks m))
  | Resume k (Err false) => match t_pc <$> tasks m !! k with Some BodyPlan => false | _ => true end
  | _ => true
  end.

(** Nothing but plans, stop flags and times *)
Lemma inv_same m m' : inv m -> next m' = next m -> tasks m' = tasks m -> (forall id, same_at m m' id) -> inv m'.
Proof.
  intros [I1 I2 I3] Hn Ht Hs. split.
  - intros id. by eapply ok_same.
  - intros id Hi. eapply blank_same; [apply Hs|apply I2; lia].
  - intros k. rewrite Hn, Ht. apply I3.
Qed.

Lemma sig_change m id f id' : sig_of (change id f m) id' =
  if decide (id' = id) then (fun j => (j_export (f j), j_state (f j))) <$> heap m !! id else sig_of m id'.
Proof.
  unfold sig_of, change, set_heap. cbn. destruct (decide (id' = id)) as [->|Hne].
  - rewrite lookup_alter_eq. by destruct (heap m !! id).
  - by rewrite lookup_alter_ne.
Qed.
Lemma change_keeps m id f : (forall j, j_export (f j) = j_export j /\ j_state (f j) = j_state j) -> forall id', same_at m (change id f m) id'.
Proof.
  intros Hf id'. split; try done. rewrite sig_change. destruct (decide (id' = id)) as [->|]; [|done].
  unfold sig_of. destruct (heap m !! id) as [j|]; [|done]. cbn. by destruct (Hf j) as [-> ->].
Qed.
Lemma inv_change m id f : (forall j, j_export (f j) = j_export j /\ j_state (f j) = j_state j) -> inv m -> inv (change id f m).
Proof. intros Hf Hi. by apply (inv_same m); [|done|done|apply change_keeps]. Qed.

(** Jobs that have a coroutine of their own have no other that matters *)
Definition main (t : Task) : Prop := exporting (t_pc t) = true \/ pulling (t_pc t) = true /\ t_cancelled t = false \/ applying (t_pc t) = true.
Definition idle (t : Task) : Prop :=
  exporting (t_pc t) = false /\ pulling (t_pc t) = false /\ applying (t_pc t) = false /\ t_pc t <> RollingBack /\ t_pc t <> BodyPlan.
Lemma idle_claim m k t : idle t -> claim m k t.
Proof. intros (H1 & H2 & H3 & H4 & H5). unfold claim. rewrite H1, H2, H3. naive_solver. Qed.
Lemma main_claim m k t : main t -> claim m k t -> exists e x, sig_of m (t_job t) = Some (e, x) /\ busy x = true /\ current m !! t_job t = Some k
  /\ drives x t /\ (e = true -> t_job t ∈ exports m) /\ (e = false -> t_job t ∈ imports m).
Proof.
  intros [H|[[H Hc]|H]] (C1 & C2 & C3 & C4 & C5).
  - destruct (C1 H) as (Hs & Hi & Hk). exists true, Running. by split_and!.
  - destruct (C2 H Hc) as (Hs & Hi & Hk). exists false, Fetching. by split_and!.
  - destruct (C4 H) as (Hs & Hi & Hk & _). exists false, Applying. by split_and!.
Qed.
Lemma quiet_busy m id e x : quiet m id -> sig_of m id = Some (e, x) -> busy x = true -> False.
Proof. intros (y & Hy & ? & ? & ?) Hs. rewrite Hs in Hy. simplify_eq. unfold busy. rewrite bool_decide_eq_true. set_solver. Qed.
Lemma pc_kind pc : exporting pc = true \/ pulling pc = true \/ applying pc = true \/ pc = RollingBack \/ pc = BodyPlan
  \/ exporting pc = false /\ pulling pc = false /\ applying pc = false /\ pc <> RollingBack /\ pc <> BodyPlan.
Proof. destruct pc; cbn; naive_solver. Qed.
Lemma claim_kind m k t : claim m k t -> main t \/ quiet m (t_job t) \/ idle t.
Proof.
  intros (C1 & C2 & C3 & C4 & C5). destruct (pc_kind (t_pc t)) as [H|[H|[H|[H|[H|H]]]]].
  - by left; left.
  - destruct (t_cancelled t) eqn:E; [right; left; auto|left; right; by left].
  - left; by do 2 right.
  - auto.
  - auto.
  - by do 2 right.
Qed.
Lemma main_alone m k t k' t' : (forall id, ok_at m id) -> tasks m !! k = Some t -> main t -> tasks m !! k' = Some t' -> t_job t' = t_job t -> k' <> k -> idle t'.
Proof.
  intros Hok Ht Hm Ht' Hj Hne. destruct (main_claim m k t Hm) as (e & x & Hs & Hb & Hc & _). { by eapply ok_tasks. }
  destruct (claim_kind m k' t') as [Hm'|[Hq|Hi]]; [by eapply ok_tasks| | |done].
  - apply (main_claim m k' t') in Hm' as (e' & x' & _ & _ & Hc' & _); [|by eapply ok_tasks]. rewrite Hj in Hc'. congruence.
  - rewrite Hj in Hq. by destruct (quiet_busy m (t_job t) e x).
Qed.
Lemma quiet_others m id k t : quiet m id -> ok_at m id -> tasks m !! k = Some t -> t_job t = id -> ~ main t.
Proof.
  intros Hq Hok Ht Hj Hm. destruct (main_claim m k t Hm) as (e & x & Hs & Hb & _). { by eapply ok_tasks. }
  rewrite Hj in Hs. by eapply quiet_busy.
Qed.
Lemma quiet_claim m k t : ~ main t -> quiet m (t_job t) -> claim m k t.
Proof.
  intros Hm Hq. assert (exporting (t_pc t) <> true) by (intros ?; apply Hm; by left). assert (applying (t_pc t) <> true) by (intros ?; apply Hm; by do 2 right).
  split_and!; try done. intros Hp Hc. destruct Hm. right; by left.
Qed.

(** ** The shapes of steps *)

(** Elsewhere nothing changes *)
Record elsewhere (id : nat) (m m' : Manager) : Prop := {
  else_next : next m' = next m;
  else_sig : forall i, i <> id -> sig_of m' i = sig_of m i;
  else_exports : forall i, i <> id -> i ∈ exports m' <-> i ∈ exports m;
  else_imports : forall i, i <> id -> i ∈ imports m' <-> i ∈ imports m;
  else_current : forall i, i <> id -> current m' !! i = current m !! i;
  else_files : forall p, path_job p <> id -> there m' p <-> there m p;
}.

(** A coroutine goes on, as the same kind of coroutine *)
Lemma inv_goto m m' k t pc : inv m -> tasks m !! k = Some t -> let id := t_job t in
  elsewhere id m m' -> tasks m' = alter (fun t => {| t_job := t_job t; t_pc := pc; t_cancelled := t_cancelled t |}) k (tasks m) ->
  sig_of m' id = sig_of m id -> exports m' = exports m -> imports m' = imports m -> current m' = current m ->
  exporting pc = exporting (t_pc t) -> pulling pc = pulling (t_pc t) -> applying pc = applying (t_pc t) -> receiving pc = receiving (t_pc t) ->
  pc <> RollingBack -> pc <> BodyPlan -> t_pc t <> BodyPlan ->
  (there m (BundleFile id) -> there m' (BundleFile id)) ->
  (there m' (BundleFile id) -> holding pc = true \/ holding (t_pc t) = false /\ there m (BundleFile id)) ->
  (there m' (Part id) -> writing pc = true \/ writing (t_pc t) = false /\ there m (Part id)) ->
  (there m' (Upload id) -> receiving pc = true \/ there m (Upload id)) -> inv m'.
Proof.
  intros [I1 I2 I3] Hk id [N S X M C F] Ht Hs Hx Hm Hc E1 E2 E3 E4 R1 R2 R3 B1 B2 P U.
  assert (Hlt : k < next m). { destruct (decide (k < next m)); [done|]. rewrite I3 in Hk; [done|lia]. }
  assert (Hid : id < next m). { destruct (decide (id < next m)); [done|]. by destruct (blank_tasks m id (I2 id ltac:(lia)) k t Hk). }
  assert (Hk' : tasks m' !! k = Some {| t_job := id; t_pc := pc; t_cancelled := t_cancelled t |}) by by rewrite Ht, lookup_alter_eq, Hk.
  assert (Ho : forall k', k' <> k -> tasks m' !! k' = tasks m !! k') by (intros k' Hne; by rewrite Ht, lookup_alter_ne).
  assert (Hheld : forall P, (P (t_pc t) = true -> P pc = true) -> held m id P -> held m' id P).
  { intros Q HQ (k' & t' & Hk1 & Hj & Hq). destruct (decide (k' = k)) as [->|Hne].
    - simplify_eq. eexists k, _. by rewrite Hk'; cbn; auto.
    - exists k', t'. by rewrite Ho. }
  apply (inv_local m m' id); [done|lia| |lia| |].
  - intros k' Hle. rewrite Ho by lia. apply I3. lia.
  - intros i Hi. split; [auto|auto|auto|auto|intros p <-; auto|]. intros k' t' Hj. destruct (decide (k' = k)) as [->|Hne]; [|by rewrite Ho].
    rewrite Hk', Hk. split; intros [= <-]; cbn in Hj; by destruct Hi.
  - destruct (I1 id) as [O1 O2 O3 O4 O0 O5 O6 O7]. split.
    + by rewrite Hs, Hx.
    + by rewrite Hs, Hm.
    + intros k' t' Ht' Hj.
      assert (Hcl : forall k1 t1, t_job t1 = id -> claim m k1 t1 -> claim m' k1 t1).
      { intros k1 t1 Hj1. unfold claim, quiet. rewrite Hj1, Hs, Hx, Hm, Hc. intros (? & ? & ? & H & ?). split_and!; try done.
        intros Ha. destruct (H Ha) as (? & ? & ? & ?). auto. }
      apply Hcl; [done|]. destruct (decide (k' = k)) as [->|Hne]; [|apply O3; [by rewrite <-Ho|done]].
      rewrite Hk' in Ht'. simplify_eq. pose proof (O3 k t Hk eq_refl) as H. destruct H as (C1 & C2 & C3 & C4 & _).
      unfold claim. cbn. rewrite E1, E2, E3. split_and!; try done. by intros [|].
    + intros e x. rewrite Hs, Hc. intros H1 H2. destruct (O4 e x H1 H2) as (k' & t' & H3 & H4 & H5 & H6).
      destruct (decide (k' = k)) as [->|Hne]; [|exists k', t'; by rewrite Ho].
      simplify_eq. eexists k, _. split; [done|]. split; [exact Hk'|]. split; [done|]. destruct x; cbn in *; by rewrite ?E1, ?E2, ?E3.
    + intros k' t' Ht' Hj Hp. destruct (decide (k' = k)) as [->|Hne]; [rewrite Hk' in Ht'; by simplify_eq|].
      rewrite Ho in Ht' by done. destruct (O0 k' t' Ht' Hj Hp) as (_ & _ & Hu). by destruct (Hu k t Hk eq_refl).
    + rewrite Hx, Hm. intros [H|[H1 H2]]%B2; [do 2 right; by eexists k, _|].
      destruct (O5 H2) as [?|[?|?]]; [by left|by right; left|]. do 2 right. apply Hheld; [by rewrite H1|done].
    + intros [H|[H1 H2]]%P; [by eexists k, _|]. apply Hheld; [|auto]. by rewrite H1.
    + intros [H|H]%U; [by eexists k, _|]. apply Hheld; [by rewrite E4|auto].
Qed.

(** A coroutine ends *)
Lemma inv_finish m m' k t : inv m -> tasks m !! k = Some t -> let id := t_job t in
  elsewhere id m m' -> tasks m' = delete k (tasks m) -> exports m' = exports m -> current m' = current m ->
  (id ∈ imports m -> id ∈ imports m') -> (id ∈ imports m' -> id ∈ imports m \/ t_pc t = BodyPlan) ->
  (id ∈ exports m' -> exists x, sig_of m' id = Some (true, x)) ->
  (id ∈ imports m' -> exists x, sig_of m' id = Some (false, x) /\ x <> Running) ->
  (forall k' t', k' <> k -> tasks m !! k' = Some t' -> t_job t' = id -> claim m' k' t') ->
  (forall e x, sig_of m' id = Some (e, x) -> busy x = true -> sig_of m' id = sig_of m id /\ ~ main t) ->
  (there m' (BundleFile id) -> id ∈ exports m' \/ id ∈ imports m'
    \/ there m (BundleFile id) /\ holding (t_pc t) = false) ->
  (there m' (Part id) -> there m (Part id) /\ writing (t_pc t) = false) ->
  (there m' (Upload id) -> there m (Upload id) /\ receiving (t_pc t) = false) -> inv m'.
Proof.
  intros [I1 I2 I3] Hk id [N S X M C F] Ht Hx Hc Him Him' HX HM Hcl Hb B P U.
  assert (Hid : id < next m). { destruct (decide (id < next m)); [done|]. by destruct (blank_tasks m id (I2 id ltac:(lia)) k t Hk). }
  assert (Ho : forall k', k' <> k -> tasks m' !! k' = tasks m !! k') by (intros k' Hne; by rewrite Ht, lookup_delete_ne).
  assert (Hk' : tasks m' !! k = None) by by rewrite Ht, lookup_delete_eq.
  assert (Hheld : forall P, P (t_pc t) = false -> held m id P -> held m' id P).
  { intros Q HQ (k' & t' & Hk1 & Hj & Hq). exists k', t'. rewrite Ho; [done|]. intros ->. simplify_eq. congruence. }
  apply (inv_local m m' id); [done|lia| |lia| |].
  - intros k' Hle. destruct (decide (k' = k)) as [->|Hne]; [done|]. rewrite Ho by done. apply I3. lia.
  - intros i Hi. split; [auto|auto|auto|auto|intros p <-; auto|]. intros k' t' Hj. destruct (decide (k' = k)) as [->|Hne]; [|by rewrite Ho].
    rewrite Hk', Hk. split; [done|]. intros [= <-]. by destruct Hi.
  - destruct (I1 id) as [O1 O2 O3 O4 O0 O5 O6 O7]. split; [done|done| | | | | |].
    + intros k' t' Ht' Hj. destruct (decide (k' = k)) as [->|Hne]; [congruence|]. rewrite Ho in Ht' by done. eauto.
    + intros e x Hs Hbu. destruct (Hb e x Hs Hbu) as [Hs' Hnm]. rewrite Hs' in Hs. destruct (O4 e x Hs Hbu) as (k' & t' & H1 & H2 & H3 & H4).
      exists k', t'. rewrite Hc, Ho; [done|]. intros ->. simplify_eq. apply Hnm. unfold main. destruct x; naive_solver.
    + intros k' t' Ht' Hj Hp. destruct (decide (k' = k)) as [->|Hne]; [congruence|]. rewrite Ho in Ht' by done.
      destruct (O0 k' t' Ht' Hj Hp) as (_ & _ & Hu). by destruct (Hu k t Hk eq_refl).
    + intros [H|[H|[H H1]]]%B; [by left|by right; left|]. destruct (O5 H) as [?|[?|?]]; [left; by rewrite Hx|right; left; auto|].
      do 2 right. auto.
    + intros [H1 H2]%P. auto.
    + intros [H1 H2]%U. auto.
Qed.

Lemma elsewhere_run id m m' : next m' = next m -> (forall i, i <> id -> heap m' !! i = heap m !! i) ->
  (forall i, i <> id -> i ∈ exports m' <-> i ∈ exports m) -> (forall i, i <> id -> i ∈ imports m' <-> i ∈ imports m) ->
  (forall i, i <> id -> current m' !! i = current m !! i) -> (forall p, path_job p <> id -> files m' !! p = files m !! p) -> elsewhere id m m'.
Proof.
  intros N H X M C F. split; [done| |done|done|done|].
  - intros i Hi. unfold sig_of. by rewrite H.
  - intros p Hp. unfold there. by rewrite F.
Qed.

(** Lookups in what a step has changed *)
Ltac look :=
  repeat first [rewrite lookup_insert_ne by (done || congruence || (intros <-; match goal with H : _ <> _ |- _ => exact (H eq_refl) end))
               |rewrite lookup_alter_ne by (done || congruence)
               |rewrite lookup_delete_ne by (done || congruence || (intros <-; match goal with H : _ <> _ |- _ => exact (H eq_refl) end))
               |rewrite lookup_insert_eq | rewrite lookup_delete_eq | rewrite lookup_alter_eq].
Ltac elsewhere_tac := apply elsewhere_run; cbn; [done|intros; look; done|intros; set_solver|intros; set_solver|intros; look; done|intros; look; done].

Section steps.
Context (keep_s : Z) (max_bytes : N).

Lemma not_there_delete (f : gmap Path N) p : ~ is_Some (delete p f !! p).
Proof. rewrite lookup_delete_eq. by intros [? ?]. Qed.
Lemma there_delete (f : gmap Path N) p q : is_Some (delete p f !! q) -> is_Some (f !! q).
Proof. intros [n Hn]. apply lookup_delete_Some in Hn as [_ Hn]. by eexists. Qed.

Lemma sig_end m now id x e y : sig_of m id = Some (e, y) -> sig_of (change id (touch now ∘ set_state x) m) id = Some (e, x).
Proof. rewrite sig_change. destruct (decide (id = id)); [|done]. unfold sig_of. destruct (heap m !! id); cbn; [|done]. by intros [= -> _]. Qed.

Lemma exporting_claim m k t : inv m -> tasks m !! k = Some t -> exporting (t_pc t) = true ->
  sig_of m (t_job t) = Some (true, Running) /\ t_job t ∈ exports m /\ current m !! t_job t = Some k.
Proof. intros Hi Hk He. assert (Hc : claim m k t) by (by apply (ok_tasks m (t_job t)); [apply Hi|..]). by apply Hc. Qed.

Lemma end_export_inv now k t ok m : inv m -> tasks m !! k = Some t -> exporting (t_pc t) = true -> inv (end_export now k (t_job t) ok m).
Proof.
  intros Hi Hk He. set (id := t_job t). destruct (exporting_claim m k t Hi Hk He) as (Hs & Hx & Hc).
  assert (Hs' : sig_of (end_export now k id ok m) id = Some (true, if ok then Done else Failed)) by (eapply (sig_end m), Hs).
  assert (Him : id ∉ imports m). { intros H. destruct (ok_import m id (inv_ok m Hi id) H) as (y & Hy & _). fold id in Hs. congruence. }
  apply (inv_finish m _ k t); try done; try by left.
  - destruct ok; elsewhere_tac.
  - intros _. eexists. exact Hs'.
  - intros k' t' Hne Ht' Hj. apply idle_claim. apply (main_alone m k t k' t'); [apply Hi|done|by left|done..].
  - intros e x H. change (t_job t) with id in H. rewrite Hs' in H. injection H as <- <-. by destruct ok.
  - intros H. exfalso. revert H. destruct ok; cbn; [apply not_there_delete|]. intros H%there_delete. by eapply not_there_delete.
  - intros H. split; [|by destruct (t_pc t)]. revert H. destruct ok; cbn; [by intros H%there_delete%there_delete%there_delete|by intros H%there_delete%there_delete%there_delete%there_delete].
Qed.

Lemma run_export_inv now k t o m : inv m -> tasks m !! k = Some t -> exporting (t_pc t) = true -> inv (run_export now k (t_job t) (t_pc t) o m).
Proof.
  intros Hi Hk He. pose proof (fun ok => end_export_inv now k t ok m Hi Hk He) as Hend.
  assert (Hgo : forall pc f, exporting pc = true -> (forall p, path_job p <> t_job t -> f (files m) !! p = files m !! p) ->
    (is_Some (files m !! BundleFile (t_job t)) -> is_Some (f (files m) !! BundleFile (t_job t))) ->
    (is_Some (f (files m) !! BundleFile (t_job t)) -> holding pc = true \/ holding (t_pc t) = false /\ there m (BundleFile (t_job t))) ->
    (is_Some (f (files m) !! Part (t_job t)) -> writing pc = true \/ writing (t_pc t) = false /\ there m (Part (t_job t))) ->
    (is_Some (f (files m) !! Upload (t_job t)) -> there m (Upload (t_job t))) -> inv (goto k pc (set_files f m))).
  { intros pc f Hp Hf HB HB' HP HU. apply (inv_goto m _ k t pc); try done; try by (destruct pc, (t_pc t)).
    - by apply elsewhere_run.
    - auto. }
  destruct (t_pc t) eqn:Ep; try discriminate He; destruct o; cbn; try exact Hi; try apply Hend.
  - apply (Hgo ExportBuild (fun f => f)); try done; auto.
  - apply Hgo; try done; [intros p Hp; by look|by look|look; by right|look; by right|by look].
  - apply Hgo; try done; [intros p Hp; by look|by look|look; by right|look; by right|by look].
  - apply Hgo; try done; [intros p Hp; by look|by look|look; by right|by left|by look].
  - unfold replace. destruct (files m !! Part (t_job t)) as [n|] eqn:EP; [|apply Hend].
    apply (Hgo ExportBuilt (fun f => delete (Scratch (t_job t)) (<[BundleFile (t_job t) := n]> (delete (Part (t_job t)) f)))); try done;
      [intros p Hp; by look|by look|by left|look; by intros []|by look].
  - apply Hgo; try done; [intros p Hp; by look|by look|look; by right|by left|by look].
Qed.

Lemma pulling_claim m k t : inv m -> tasks m !! k = Some t -> pulling (t_pc t) = true ->
  if t_cancelled t then quiet m (t_job t)
  else sig_of m (t_job t) = Some (false, Fetching) /\ t_job t ∈ imports m /\ current m !! t_job t = Some k.
Proof.
  intros Hi Hk Hp. assert (Hc : claim m k t) by (by apply (ok_tasks m (t_job t)); [apply Hi|..]). destruct Hc as (_ & C2 & C3 & _).
  destruct (t_cancelled t); auto.
Qed.
Lemma import_not_export m id x : inv m -> sig_of m id = Some (false, x) -> id ∉ exports m.
Proof. intros Hi Hs H. destruct (ok_export m id (inv_ok m Hi id) H) as (y & Hy). congruence. Qed.
Lemma quiet_here x m id : sig_of m id = Some (false, x) -> x <> Running -> x <> Fetching -> x <> Applying -> quiet m id.
Proof. intros. by exists x. Qed.

(** A coroutine of an import leaves it in a state of rest *)
Lemma settle_inv m m' k t x : inv m -> tasks m !! k = Some t -> let id := t_job t in
  main t \/ quiet m id -> exporting (t_pc t) = false ->
  elsewhere id m m' -> tasks m' = delete k (tasks m) -> exports m' = exports m -> imports m' = imports m -> current m' = current m ->
  sig_of m' id = Some (false, x) -> x <> Running -> x <> Fetching -> x <> Applying ->
  (there m' (BundleFile id) -> there m (BundleFile id) /\ (holding (t_pc t) = true -> id ∈ imports m)) ->
  (there m' (Part id) -> there m (Part id) /\ writing (t_pc t) = false) ->
  (there m' (Upload id) -> there m (Upload id) /\ receiving (t_pc t) = false) -> inv m'.
Proof.
  intros Hi Hk id Hmq He El Ht Hx Hm Hc Hs R1 R2 R3 HB HP HU. assert (Hq : quiet m' id) by by exists x.
  apply (inv_finish m _ k t); try done.
  - by rewrite Hm.
  - rewrite Hm. by left.
  - rewrite Hx. intros H. exfalso. destruct (ok_export m id (inv_ok m Hi id) H) as (y & Hy). destruct Hmq as [Hmain|(z & Hz & _)]; [|congruence].
    apply (main_claim m k t) in Hmain as (e & z & Hz & _ & _ & Hd & _ & _); [|by apply (ok_tasks m id); [apply Hi|..]].
    destruct z; cbn in Hd; try done; try congruence.
    + assert (Hcl : claim m k t) by (by apply (ok_tasks m id); [apply Hi|..]). destruct Hcl as (_ & C2 & _). destruct (C2 (proj1 Hd) (proj2 Hd)). fold id in H0. congruence.
    + assert (Hcl : claim m k t) by (by apply (ok_tasks m id); [apply Hi|..]). destruct Hcl as (_ & _ & _ & C4 & _). destruct (C4 Hd). fold id in H0. congruence.
  - intros _. by exists x.
  - intros k' t' Hne Ht' Hj. destruct Hmq as [Hmain|Hqm].
    + apply idle_claim. by apply (main_alone m k t k' t'); [apply Hi|..].
    + apply quiet_claim; [|by rewrite Hj]. eapply quiet_others; [exact Hqm|apply Hi|done..].
  - intros e y Hy Hb. exfalso. by eapply quiet_busy.
  - intros [H1 H2]%HB. destruct (holding (t_pc t)) eqn:E1; [right; left; rewrite Hm; auto|]. by do 2 right.
Qed.

Lemma end_pull_inv now k t x m : inv m -> tasks m !! k = Some t -> pulling (t_pc t) = true ->
  x = Stopped \/ x = Failed \/ x = Planned /\ t_cancelled t = false -> inv (end_pull now k (t_job t) x m).
Proof.
  intros Hi Hk Hp Hx. set (id := t_job t). pose proof (pulling_claim m k t Hi Hk Hp) as Hc.
  assert (Hs : exists y, sig_of m id = Some (false, y)) by (destruct (t_cancelled t); [destruct Hc as (y & Hy & _); by exists y|by exists Fetching; apply Hc]).
  destruct Hs as (y & Hy). apply (settle_inv m _ k t x); try done; try by (destruct Hx as [->|[->|[-> _]]]).
  - destruct (t_cancelled t) eqn:E; [by right|left; right; by left].
  - by destruct (t_pc t).
  - destruct Hx as [->|[->|[-> _]]]; elsewhere_tac.
  - by eapply (sig_end m).
  - destruct Hx as [->|[->|[-> E]]]; cbn; [intros H; by apply not_there_delete in H..|]. intros H%there_delete. split; [done|]. rewrite E in Hc. by intros _; apply Hc.
  - destruct Hx as [->|[->|[-> E]]]; cbn; [intros H%there_delete; by apply not_there_delete in H..|]. intros H. by apply not_there_delete in H.
  - intros H. split; [|by destruct (t_pc t)]. revert H. destruct Hx as [->|[->|[-> E]]]; cbn; [by intros H%there_delete%there_delete..|by intros H%there_delete].
Qed.

Lemma run_pull_inv now k t o m : inv m -> tasks m !! k = Some t -> pulling (t_pc t) = true ->
  inv (run_pull max_bytes now k (t_job t) (t_pc t) (t_cancelled t) o m).
Proof.
  intros Hi Hk Hp. pose proof (fun x => end_pull_inv now k t x m Hi Hk Hp) as Hend. pose proof (pulling_claim m k t Hi Hk Hp) as Hc.
  assert (Hgo : forall pc f, pulling pc = true -> (forall p, path_job p <> t_job t -> f (files m) !! p = files m !! p) ->
    (is_Some (files m !! BundleFile (t_job t)) -> is_Some (f (files m) !! BundleFile (t_job t))) ->
    (is_Some (f (files m) !! BundleFile (t_job t)) -> holding pc = true \/ holding (t_pc t) = false /\ there m (BundleFile (t_job t))) ->
    (is_Some (f (files m) !! Part (t_job t)) -> writing pc = true \/ writing (t_pc t) = false /\ there m (Part (t_job t))) ->
    (is_Some (f (files m) !! Upload (t_job t)) -> there m (Upload (t_job t))) -> inv (goto k pc (set_files f m))).
  { intros pc f Hp' Hf HB HB' HP HU. apply (inv_goto m _ k t pc); try done; try by (destruct pc, (t_pc t)).
    - by apply elsewhere_run.
    - auto. }
  unfold run_pull. destruct (t_cancelled t) eqn:Ec.
  - destruct (t_pc t) eqn:Ep; try discriminate Hp; try (apply Hend; by left).
    destruct Hc as (y & Hy & R1 & R2 & R3). apply (settle_inv m _ k t y); rewrite ?Ep; try done.
    right. by exists y.
  - destruct (t_pc t) eqn:Ep; try discriminate Hp; destruct o; cbn; try exact Hi; try (apply Hend; by right; left).
    + apply (Hgo PullFetch (fun f => f)); try done; auto.
    + apply Hgo; try done; [intros p Hq; by look|by look|look; by right|by left|by look].
    + apply (Hgo PullForget (fun f => f)); try done; auto.
    + destruct (over max_bytes (size + n)); [apply Hend; by right; left|].
      apply Hgo; try done; [intros p Hq; by look|by look|look; by right|by left|by look].
    + unfold replace. destruct (files m !! Part (t_job t)) as [n|] eqn:EP; [|apply Hend; by right; left].
      apply Hgo; try done; [intros p Hq; by look|by look|by left|look; by intros []|by look].
    + apply (end_pull_inv now k t Planned (change (t_job t) (set_plan ok) m)); [by apply inv_change|done|by rewrite Ep|by do 2 right].
Qed.

Lemma applying_claim m k t : inv m -> tasks m !! k = Some t -> applying (t_pc t) = true ->
  sig_of m (t_job t) = Some (false, Applying) /\ t_job t ∈ imports m /\ current m !! t_job t = Some k /\ there m (BundleFile (t_job t)).
Proof. intros Hi Hk Ha. assert (Hc : claim m k t) by (by apply (ok_tasks m (t_job t)); [apply Hi|..]). by apply Hc. Qed.

Lemma end_apply_inv now k t x m : inv m -> tasks m !! k = Some t -> applying (t_pc t) = true ->
  x = Failed \/ x = Done \/ x = Stopped -> inv (end_apply now k (t_job t) x m).
Proof.
  intros Hi Hk Ha Hx. destruct (applying_claim m k t Hi Hk Ha) as (Hs & Him & _).
  apply (settle_inv m _ k t x); try done; try by (destruct Hx as [->|[->| ->]]).
  - left. by do 2 right.
  - by destruct (t_pc t).
  - elsewhere_tac.
  - by eapply (sig_end m).
  - intros H. split; [done|]. by destruct (t_pc t).
  - intros H. split; [done|]. by destruct (t_pc t).
Qed.

Lemma run_apply_inv now k t o m : inv m -> tasks m !! k = Some t -> applying (t_pc t) = true -> inv (run_apply now k (t_job t) (t_pc t) o m).
Proof.
  intros Hi Hk Ha. pose proof (fun x => end_apply_inv now k t x m Hi Hk Ha) as Hend.
  assert (Hgo : forall m1 pc, inv m1 -> tasks m1 = tasks m -> applying pc = true -> inv (goto k pc m1)).
  { intros m1 pc H1 Ht Hp. apply (inv_goto m1 _ k t pc); try done; try by (destruct pc, (t_pc t)).
    - by rewrite Ht.
    - intros H. right. split; [by destruct (t_pc t)|exact H].
    - intros H. right. split; [by destruct (t_pc t)|exact H].
    - intros H. by right. }
  destruct (t_pc t) eqn:Ep; try discriminate Ha; destruct o; cbn; try exact Hi; try (apply Hend; by left).
  - apply Hgo; [by apply inv_change|done..].
  - by apply Hgo.
  - apply Hend. destruct stopping; [by do 2 right|]. destruct ok; [by right; left|by left].
  - by apply Hgo.
Qed.

(** A handler that has been answered *)
Lemma idle_finish_inv k t m : inv m -> tasks m !! k = Some t -> holding (t_pc t) = false -> writing (t_pc t) = false -> receiving (t_pc t) = false ->
  ~ main t -> inv (finish k m).
Proof.
  intros Hi Hk H1 H2 H3 Hm. destruct (inv_ok m Hi (t_job t)) as [O1 O2 O3 O4 O0 O5 O6 O7].
  apply (inv_finish m _ k t); try done; try by (intros H; left).
  - intros k' t' _ Ht Hj. exact (O3 k' t' Ht Hj).
  - intros H. do 2 right. by split.
Qed.

Lemma resting_claim m k t : inv m -> tasks m !! k = Some t -> t_pc t = RollingBack \/ t_pc t = BodyPlan -> quiet m (t_job t).
Proof. intros Hi Hk Hp. assert (Hc : claim m k t) by (by apply (ok_tasks m (t_job t)); [apply Hi|..]). by apply Hc. Qed.
Lemma run_rollback_inv k t o m : inv m -> tasks m !! k = Some t -> t_pc t = RollingBack -> inv (run_rollback k (t_job t) o m).
Proof.
  intros Hi Hk Hp. assert (Hq : quiet m (t_job t)) by (apply (resting_claim m k t); auto).
  assert (Hm : ~ main t) by (unfold main; rewrite Hp; naive_solver).
  destruct o; cbn; try exact Hi; [|by apply (idle_finish_inv k t); rewrite ?Hp].
  destruct Hq as (y & Hy & R). apply (settle_inv m _ k t RolledBack); rewrite ?Hp; try done.
  - right. by exists y.
  - elsewhere_tac.
  - change (sig_of (change (t_job t) (set_state RolledBack) m) (t_job t) = Some (false, RolledBack)).
    rewrite sig_change, decide_True by done. unfold sig_of in Hy. destruct (heap m !! t_job t); cbn in *; [|done]. by injection Hy as ->.
Qed.
Lemma run_replan_inv k t o m : inv m -> tasks m !! k = Some t -> t_pc t = Replan -> inv (run_replan k (t_job t) o m).
Proof.
  intros Hi Hk Hp. assert (Hm : ~ main t) by (unfold main; rewrite Hp; naive_solver).
  destruct o; cbn; try exact Hi; (apply (idle_finish_inv k t); rewrite ?Hp; try done). by apply inv_change.
Qed.
Lemma run_verify_inv now k t o m : inv m -> tasks m !! k = Some t -> t_pc t = Verifying -> inv (run_verify now k (t_job t) o m).
Proof.
  intros Hi Hk Hp. assert (Hm : ~ main t) by (unfold main; rewrite Hp; naive_solver).
  destruct o; cbn; try exact Hi; (apply (idle_finish_inv k t); rewrite ?Hp; try done). by apply inv_change.
Qed.

(** ** Sweeps *)

Lemma sweep_files now m p : files (sweep keep_s now m) !! p =
  if of_jobs (filter (fun id => expired keep_s now m id = true) (exports m ∪ imports m)) p then None else files m !! p.
Proof.
  cbn. set (gone := filter _ (exports m ∪ imports m)). destruct (of_jobs gone p) eqn:E.
  - apply map_lookup_filter_None. right. intros n _. cbn. congruence.
  - destruct (files m !! p) eqn:F; [by apply map_lookup_filter_Some|]. apply map_lookup_filter_None. by left.
Qed.

Lemma sweep_keeps_inv now m : inv m -> inv (sweep keep_s now m).
Proof.
  intros Hi. set (gone := filter (fun id => expired keep_s now m id = true) (exports m ∪ imports m)).
  assert (Hkeep : forall id, id ∉ gone -> same_at m (sweep keep_s now m) id).
  { intros id Hg. split; try done; cbn; fold gone; [set_solver..|]. intros p Hp. unfold there. rewrite sweep_files. fold gone.
    assert (of_jobs gone p = false) as ->; [|done]. destruct p; try done. cbn in *. subst. by rewrite bool_decide_false. }
  assert (Hgone : forall id, id ∈ gone -> ok_at (sweep keep_s now m) id).
  { intros id Hg. destruct (inv_ok m Hi id) as [O1 O2 O3 O4 O0 O5 O6 O7].
    assert (Hbusy : forall e x, sig_of m id = Some (e, x) -> busy x = true -> False).
    { apply elem_of_filter in Hg as [He _]. unfold expired in He. intros e x Hs Hb. unfold sig_of in Hs. destruct (heap m !! id) as [j|]; [|done].
      cbn in Hs. simplify_eq. by rewrite Hb in He. }
    split; cbn; fold gone; [set_solver|set_solver| | | | | |].
    - intros k t Ht Hj. destruct (claim_kind m k t (O3 k t Ht Hj)) as [Hm|[Hq|Hid]]; [| |by apply idle_claim].
      + apply (main_claim m k t) in Hm as (e & x & Hs & Hb & _); [|by apply O3]. rewrite Hj in Hs. by destruct (Hbusy e x).
      + apply quiet_claim; [|done]. rewrite Hj in Hq. eapply (quiet_others m id k t Hq); [apply Hi|done..].
    - intros e x Hs Hb. by destruct (Hbusy e x).
    - intros k t Ht Hj Hp. destruct (O0 k t Ht Hj Hp) as (? & ? & ?). set_solver.
    - unfold there. rewrite sweep_files. fold gone. cbn. rewrite bool_decide_true by done. by intros [].
    - unfold there. rewrite sweep_files. exact O6.
    - unfold there. rewrite sweep_files. exact O7. }
  split.
  - intros id. destruct (decide (id ∈ gone)); [by apply Hgone|]. eapply ok_same; [by apply Hkeep|apply Hi].
  - intros id Hle. assert (Hb : blank m id) by by apply Hi. eapply blank_same; [apply Hkeep|done].
    intros [_ H]%elem_of_filter. destruct Hb. set_solver.
  - apply Hi.
Qed.

Lemma claim_kept m m' k t : sig_of m' (t_job t) = sig_of m (t_job t) -> exports m' = exports m -> imports m' = imports m -> current m' = current m ->
  (there m (BundleFile (t_job t)) -> there m' (BundleFile (t_job t))) -> claim m k t -> claim m' k t.
Proof. intros Hs Hx Hm Hc Hb. unfold claim, quiet. rewrite Hs, Hx, Hm, Hc. intros (?&?&?&H&?). split_and!; try done. intros Ha. destruct (H Ha) as (?&?&?&?). auto. Qed.

(** The request body is done with: its file is gone *)
Lemma body_done_inv k t m : inv m -> tasks m !! k = Some t -> receiving (t_pc t) = true -> inv (finish k (set_files (delete (Upload (t_job t))) m)).
Proof.
  intros Hi Hk Hr. destruct (inv_ok m Hi (t_job t)) as [O1 O2 O3 O4 O0 O5 O6 O7]. assert (Hm : ~ main t) by (unfold main; destruct (t_pc t); naive_solver).
  apply (inv_finish m _ k t); try done; try by (intros H; left).
  - elsewhere_tac.
  - intros k' t' _ Ht Hj. apply (claim_kept m); try done; [|by apply O3]. unfold there. cbn. by look.
  - unfold there. cbn. look. intros H. do 2 right. split; [done|by destruct (t_pc t)].
  - unfold there. cbn. look. intros H. split; [done|by destruct (t_pc t)].
  - intros H. by apply not_there_delete in H.
Qed.

(** A new job: a coroutine, a bundle or a table entry under a number just drawn *)
Lemma inv_new m m' id k t : inv m -> id = next m -> next m < next m' -> tasks m !! k = None -> k < next m' -> t_job t = id ->
  (forall i, i <> id -> heap m' !! i = heap m !! i) ->
  (forall i, i <> id -> i ∈ exports m' <-> i ∈ exports m) -> (forall i, i <> id -> i ∈ imports m' <-> i ∈ imports m) ->
  (forall i, i <> id -> current m' !! i = current m !! i) -> (forall p, path_job p <> id -> files m' !! p = files m !! p) ->
  tasks m' = <[k := t]> (tasks m) -> claim m' k t ->
  (id ∈ exports m' -> exists x, sig_of m' id = Some (true, x)) -> (id ∈ imports m' -> exists x, sig_of m' id = Some (false, x) /\ x <> Running) ->
  (forall e x, sig_of m' id = Some (e, x) -> busy x = true -> current m' !! id = Some k /\ drives x t) ->
  (t_pc t = BodyPlan -> id ∉ exports m' /\ id ∉ imports m') ->
  (there m' (BundleFile id) -> holding (t_pc t) = true) -> (there m' (Part id) -> writing (t_pc t) = true) -> (there m' (Upload id) -> receiving (t_pc t) = true) ->
  inv m'.
Proof.
  intros Hi -> Hn Hk Hlt Hj H X M C F Ht Hcl HX HM Hb Hp B P U. set (id := next m) in *. assert (Hbl : blank m id) by (by apply Hi).
  assert (Hkk : tasks m' !! k = Some t) by (rewrite Ht; by apply lookup_insert_eq).
  assert (Ho : forall k', k' <> k -> tasks m' !! k' = tasks m !! k') by (intros k' Hne; rewrite Ht; by apply lookup_insert_ne).
  assert (Hone : forall k' t', tasks m' !! k' = Some t' -> t_job t' = id -> k' = k /\ t' = t).
  { intros k' t' Ht' Hj'. destruct (decide (k' = k)) as [->|Hne]; [by simplify_eq|]. rewrite Ho in Ht' by done. by destruct (blank_tasks m id Hbl k' t'). }
  assert (Hheld : forall Q, Q (t_pc t) = true -> held m' id Q) by (intros Q HQ; by exists k, t).
  apply (inv_local m m' id); [done|lia| |unfold id; lia| |].
  - intros k' Hle. rewrite Ho by lia. apply Hi. lia.
  - intros i Hi'. split; [unfold sig_of; by rewrite H|auto|auto|auto| |].
    + intros p <-. unfold there. by rewrite F.
    + intros k' t' Hj'. destruct (decide (k' = k)) as [->|Hne]; [|by rewrite Ho]. rewrite Hkk, Hk. split; [intros [= <-]; congruence|done].
  - split; auto.
    + intros k' t' Ht' Hj'. by destruct (Hone k' t' Ht' Hj') as [-> ->].
    + intros e x Hs Hbu. destruct (Hb e x Hs Hbu). by exists k, t.
    + intros k' t' Ht' Hj' Hp'. destruct (Hone k' t' Ht' Hj') as [-> ->]. destruct (Hp Hp'). split_and!; try done. intros k2 t2 H2 H3. by destruct (Hone k2 t2 H2 H3).
Qed.

Lemma fresh_key m : inv m -> tasks m !! next m = None /\ tasks m !! S (next m) = None.
Proof. intros Hi. split; apply Hi; lia. Qed.
Lemma fresh_files m p : inv m -> path_job p = next m -> ~ there m p.
Proof. intros Hi Hp. apply (blank_files m (next m)); [by apply Hi|done]. Qed.

Lemma start_export_inv now m : inv m -> inv (start_export keep_s now m).
Proof.
  intros Hi%(sweep_keeps_inv now). unfold start_export. set (m1 := sweep keep_s now m) in *. clearbody m1. set (m' := create_task _ _ _).
  destruct (fresh_key m1 Hi) as [_ Hk]. assert (Hs : sig_of m' (next m1) = Some (true, Running)) by (unfold sig_of; cbn; by look).
  assert (Hc : current m' !! next m1 = Some (S (next m1))) by (cbn; by look).
  apply (inv_new m1 m' (next m1) (S (next m1)) {| t_job := next m1; t_pc := ExportFetch; t_cancelled := false |}); try done; cbn; try lia; rewrite ?Hs; try by (intros; look).
  - set_solver.
  - unfold claim. cbn. rewrite Hs. split_and!; try done; [intros _; split_and!; [done|set_solver|done]|by intros [|]].
  - by exists Running.
  - intros H. exfalso. by apply (blank_imports m1 (next m1)) in H; [|apply Hi].
  - by intros e x [= <- <-].
  - intros H. by apply (fresh_files m1) in H.
  - intros H. by apply (fresh_files m1) in H.
  - intros H. by apply (fresh_files m1) in H.
Qed.

Lemma start_pull_inv now m : inv m -> inv (start_pull keep_s now m).
Proof.
  intros Hi%(sweep_keeps_inv now). unfold start_pull. set (m1 := sweep keep_s now m) in *. clearbody m1. set (m' := create_task _ _ _).
  destruct (fresh_key m1 Hi) as [_ Hk]. assert (Hs : sig_of m' (next m1) = Some (false, Fetching)) by (unfold sig_of; cbn; by look).
  assert (Hc : current m' !! next m1 = Some (S (next m1))) by (cbn; by look).
  apply (inv_new m1 m' (next m1) (S (next m1)) {| t_job := next m1; t_pc := PullStart; t_cancelled := false |}); try done; cbn; try lia; rewrite ?Hs; try by (intros; look).
  - set_solver.
  - unfold claim. cbn. rewrite Hs. split_and!; try done; [intros _ _; split_and!; [done|set_solver|done]|by intros [|]].
  - intros H. exfalso. by apply (blank_exports m1 (next m1)) in H; [|apply Hi].
  - by exists Fetching.
  - by intros e x [= <- <-].
  - intros H. by apply (fresh_files m1) in H.
  - intros H. by apply (fresh_files m1) in H.
  - intros H. by apply (fresh_files m1) in H.
Qed.

Lemma body_begin_inv m : inv m -> inv (body_begin m).
Proof.
  intros Hi. unfold body_begin. set (m' := spawn _ _ _). destruct (fresh_key m Hi) as [_ Hk].
  apply (inv_new m m' (next m) (S (next m)) {| t_job := next m; t_pc := Body 0; t_cancelled := false |}); try done; cbn; try lia; try by (intros; look).
  - apply idle_claim. by split_and!.
  - intros H. exfalso. by apply (blank_exports m (next m)) in H; [|apply Hi].
  - intros H. exfalso. by apply (blank_imports m (next m)) in H; [|apply Hi].
  - intros e x H. assert (Hs : sig_of m (next m) = None) by (by apply Hi). unfold sig_of in *. cbn in H. rewrite H in Hs. done.
  - unfold there. cbn. look. intros H. by apply (fresh_files m) in H.
  - unfold there. cbn. look. intros H. by apply (fresh_files m) in H.
Qed.

(** A body that has been received becomes the bundle of a new import *)
Lemma body_moved_inv now k t n m : inv m -> tasks m !! k = Some t -> receiving (t_pc t) = true -> let id := next m in
  inv (set_tasks <[k := {| t_job := id; t_pc := BodyPlan; t_cancelled := false |}]>
    (set_heap <[id := {| j_export := false; j_state := Planned; j_plan := None; j_stop := false; j_touched := now |}]>
    (drawn (set_files (fun f => <[BundleFile id := n]> (delete (Upload (t_job t)) f)) m)))).
Proof.
  intros Hi Hk Hr id. set (m' := set_tasks _ _). pose proof (body_done_inv k t m Hi Hk Hr) as Hd. set (m1 := finish _ _) in Hd.
  assert (Hs : sig_of m' id = Some (false, Planned)) by (unfold sig_of; cbn; by look). assert (Hb : blank m1 id) by (by apply Hd).
  assert (Hlt : k < next m). { destruct (decide (k < next m)); [done|]. rewrite (inv_keys m Hi) in Hk; [done|lia]. }
  assert (Hu : t_job t <> id) by by apply (blank_tasks m id (inv_blank m Hi id ltac:(done)) k t).
  apply (inv_new m1 m' id k {| t_job := id; t_pc := BodyPlan; t_cancelled := false |}); try done; cbn; try lia; try by (intros; look).
  - by rewrite insert_delete_eq.
  - unfold claim. cbn. split_and!; try done. intros _. by exists Planned.
  - intros H. exfalso. by apply (blank_exports m1 id) in H.
  - intros H. exfalso. by apply (blank_imports m1 id) in H.
  - intros e x. fold m'. rewrite Hs. by intros [= <- <-].
  - intros _. destruct Hb. by split.
  - unfold there. cbn. look. intros H. by apply (fresh_files m) in H.
  - unfold there. cbn. look. intros H. by apply (fresh_files m) in H.
Qed.

Lemma run_body_inv now k t o m : inv m -> tasks m !! k = Some t -> receiving (t_pc t) = true \/ t_pc t = BodyPlan /\ o <> Err false ->
  inv (run_body keep_s max_bytes now k (t_job t) (t_pc t) o m).
Proof.
  intros Hi Hk [Hr|[Hp Ho]].
  - pose proof (body_done_inv k t m Hi Hk Hr) as Hd. destruct (t_pc t) eqn:Ep; try discriminate Hr. destruct o; cbn; try done.
    + case_bool_decide; [done|]. apply (body_moved_inv now k t size (sweep keep_s now m)); [by apply sweep_keeps_inv|done|by rewrite Ep].
    + destruct (over max_bytes (size + n)); [done|]. apply (inv_goto m _ k t (Body (size + n))); rewrite ?Ep; try done.
      * elsewhere_tac.
      * unfold there. cbn. by look.
      * unfold there. cbn. look. by right.
      * unfold there. cbn. look. by right.
      * by left.
  - assert (Hq : quiet m (t_job t)) by (apply (resting_claim m k t); auto). destruct (inv_ok m Hi (t_job t)) as [O1 O2 O3 O4 O0 O5 O6 O7].
    destruct (O0 k t Hk eq_refl Hp) as (Nx & Ni & Hone). destruct Hq as (y & Hy & R1 & R2 & R3).
    rewrite Hp. destruct o as [| |ok| | |[]]; cbn; try done.
    + assert (Hs : sig_of (change (t_job t) (set_plan ok) m) (t_job t) = Some (false, y)) by (rewrite <-Hy; apply (change_keeps m); by intros []).
      apply (inv_finish m _ k t); rewrite ?Hp; try done.
      * elsewhere_tac.
      * cbn. set_solver.
      * intros _. exists y. split; [exact Hs|done].
      * intros k' t' Hne Ht' Hj. by destruct (Hone k' t' Ht' Hj).
      * intros e x Hs' Hb. exfalso. eapply (quiet_busy m (t_job t) e x); [by exists y| |done]. rewrite <-Hs'. symmetry. rewrite Hy. exact Hs.
      * intros _. right; left. cbn. set_solver.
    + apply (settle_inv m _ k t y); rewrite ?Hp; try done.
      * right. by exists y.
      * elsewhere_tac.
      * intros H. by apply not_there_delete in H.
      * unfold there. cbn. by look.
      * unfold there. cbn. by look.
Qed.

Lemma resume_inv now k o m : inv m -> orderly m (now, Resume k o) = true -> inv (resume keep_s max_bytes now k o m).
Proof.
  intros Hi Ho. unfold resume. destruct (tasks m !! k) as [t|] eqn:Hk; [|done].
  destruct (t_pc t) eqn:Ep; rewrite <-?Ep; try (apply run_export_inv; try done; by rewrite Ep); try (apply run_pull_inv; try done; by rewrite Ep);
    try (apply run_apply_inv; try done; by rewrite Ep).
  - apply run_body_inv; try done. left. by rewrite Ep.
  - apply run_body_inv; try done. right. split; [done|]. intros ->. cbn in Ho. rewrite Hk in Ho. cbn in Ho. by rewrite Ep in Ho.
  - by apply run_replan_inv.
  - by apply run_verify_inv.
  - by apply run_rollback_inv.
Qed.

(** ** Requests *)

Lemma drawn_id m id : inv m -> sig_of m id <> None -> id < next m.
Proof. intros Hi Hs. destruct (decide (id < next m)); [done|]. destruct Hs. apply (blank_sig m id). apply Hi. lia. Qed.
Lemma busy_kind m id e x : inv m -> sig_of m id = Some (e, x) -> busy x = true -> e = true /\ x = Running \/ e = false /\ (x = Fetching \/ x = Applying).
Proof.
  intros Hi Hs Hb. destruct (ok_busy m id (inv_ok m Hi id) e x Hs Hb) as (k & t & _ & Ht & <- & Hd). destruct x; try done; cbn in Hd.
  - left. destruct (exporting_claim m k t Hi Ht Hd) as [H _]. split; [congruence|done].
  - right. destruct Hd as [Hp Hc]. pose proof (pulling_claim m k t Hi Ht Hp) as H. rewrite Hc in H. destruct H as [H _]. split; [congruence|by left].
  - right. destruct (applying_claim m k t Hi Ht Hd) as [H _]. split; [congruence|by right].
Qed.

Lemma drop_inv m m' id : inv m -> (forall e x, sig_of m id = Some (e, x) -> busy x = true -> False) -> sig_of m id <> None ->
  heap m' = heap m -> next m' = next m -> tasks m' = tasks m -> current m' = current m -> files m' = delete (BundleFile id) (files m) ->
  exports m' = exports m ∖ {[id]} -> imports m' = imports m ∖ {[id]} -> inv m'.
Proof.
  intros Hi Hb Hsig Hh Hn Ht Hc Hf Hx Hm. assert (Hs : forall i, sig_of m' i = sig_of m i) by (intros i; unfold sig_of; by rewrite Hh).
  destruct (inv_ok m Hi id) as [O1 O2 O3 O4 O0 O5 O6 O7]. apply (inv_local m m' id); [done|lia| | | |].
  - rewrite Hn, Ht. apply Hi.
  - rewrite Hn. by apply drawn_id.
  - intros i Hne. split; [auto|set_solver|set_solver|by rewrite Hc| |by rewrite Ht].
    intros p Hp. unfold there. rewrite Hf, lookup_delete_ne; [done|]. intros <-. by destruct Hne.
  - split; rewrite ?Ht, ?Hc, ?Hs; [set_solver|set_solver| | | | | |].
    + intros k t Hk Hj. pose proof (O3 k t Hk Hj) as Hcl. destruct (claim_kind m k t Hcl) as [Hma|[Hq|Hid]]; [| |by apply idle_claim].
      * apply (main_claim m k t) in Hma as (e & x & Hs' & Hb' & _); [|done]. rewrite Hj in Hs'. by destruct (Hb e x).
      * apply quiet_claim; [|unfold quiet; by rewrite Hs]. rewrite Hj in Hq. eapply (quiet_others m id k t Hq); [apply Hi|done..].
    + intros e x Hs' Hb'. by destruct (Hb e x).
    + intros k t Hk Hj Hp. destruct (O0 k t Hk Hj Hp) as (?&?&?). set_solver.
    + unfold there. rewrite Hf. intros H. by apply not_there_delete in H.
    + unfold there, held. rewrite Hf, Ht, lookup_delete_ne by done. exact O6.
    + unfold there, held. rewrite Hf, Ht, lookup_delete_ne by done. exact O7.
Qed.

Lemma held_spawn m m' id P k t : tasks m' = <[k := t]> (tasks m) -> tasks m !! k = None -> held m id P -> held m' id P.
Proof. intros Ht Hk (k' & t' & H1 & H2 & H3). exists k', t'. rewrite Ht, lookup_insert_ne; [done|congruence]. Qed.

Lemma spawn_inv m id pc : inv m -> id ∈ imports m -> pc = Replan \/ pc = Verifying \/ pc = RollingBack /\ quiet m id -> inv (spawn id pc m).
Proof.
  intros Hi Him Hpc. set (t := {| t_job := id; t_pc := pc; t_cancelled := false |}). destruct (fresh_key m Hi) as [Hk _].
  destruct (inv_ok m Hi id) as [O1 O2 O3 O4 O0 O5 O6 O7]. destruct (O2 Him) as (x & Hs & _).
  assert (Ho : forall k', k' <> next m -> tasks (spawn id pc m) !! k' = tasks m !! k') by (intros k' Hne; cbn; by rewrite lookup_insert_ne).
  assert (Hkk : tasks (spawn id pc m) !! next m = Some t) by (cbn; by rewrite lookup_insert_eq).
  apply (inv_local m _ id); [done|cbn; lia| | | |].
  - intros k' Hle. cbn in Hle. rewrite Ho by lia. apply Hi. lia.
  - cbn. assert (id < next m) by (apply drawn_id; [done|congruence]). lia.
  - intros i Hne. split; try done. intros k' t' Hj. destruct (decide (k' = next m)) as [->|Hne']; [|by rewrite Ho].
    rewrite Hkk, Hk. split; [|done]. intros [= <-]. cbn in Hj. congruence.
  - split; try done.
    + intros k' t' Ht' Hj. destruct (decide (k' = next m)) as [->|Hne']; [|rewrite Ho in Ht' by done; exact (O3 k' t' Ht' Hj)].
      rewrite Hkk in Ht'. injection Ht' as <-. destruct Hpc as [->|[->|[-> Hq]]]; [by apply idle_claim; split_and!..|].
      apply quiet_claim; [|done]. unfold main. cbn. naive_solver.
    + intros e y Hs' Hb. destruct (O4 e y Hs' Hb) as (k' & t' & H1 & H2 & H3 & H4). exists k', t'. split; [done|]. rewrite Ho; [done|congruence].
    + intros k' t' Ht' Hj Hp. destruct (decide (k' = next m)) as [->|Hne'].
      * rewrite Hkk in Ht'. injection Ht' as <-. cbn in Hp. subst pc. naive_solver.
      * rewrite Ho in Ht' by done. by destruct (O0 k' t' Ht' Hj Hp) as (_ & ? & _).
    + intros H. destruct (O5 H) as [?|[?|?]]; [by left|by right; left|]. do 2 right. by apply (held_spawn m _ id holding (next m) t).
    + intros H. by apply (held_spawn m _ id writing (next m) t), O6.
    + intros H. by apply (held_spawn m _ id receiving (next m) t), O7.
Qed.

Lemma start_apply_step m id x : inv m -> id ∈ imports m -> sig_of m id = Some (false, x) -> x <> Applying -> x <> Fetching -> x <> Running -> there m (BundleFile id) ->
  (forall k t, tasks m !! k = Some t -> winding_down id t = false) -> inv (create_task id ApplyPlan (change id (set_stop false ∘ set_state Applying) m)).
Proof.
  intros Hi Him Hs R1 R2 R3 Hb Hw. set (m' := create_task _ _ _). set (t := {| t_job := id; t_pc := ApplyPlan; t_cancelled := false |}).
  destruct (fresh_key m Hi) as [Hk _]. destruct (inv_ok m Hi id) as [O1 O2 O3 O4 O0 O5 O6 O7].
  assert (Hq : quiet m id) by by exists x.
  assert (Hs' : sig_of m' id = Some (false, Applying)).
  { change (sig_of (change id (set_stop false ∘ set_state Applying) m) id = Some (false, Applying)). rewrite sig_change, decide_True by done.
    unfold sig_of in Hs. destruct (heap m !! id); cbn in *; [|done]. by injection Hs as ->. }
  assert (Ho : forall k', k' <> next m -> tasks m' !! k' = tasks m !! k') by (intros k' Hne; cbn; by rewrite lookup_insert_ne).
  assert (Hkk : tasks m' !! next m = Some t) by (cbn; by rewrite lookup_insert_eq).
  assert (Hc : current m' !! id = Some (next m)) by (cbn; by rewrite lookup_insert_eq).
  apply (inv_local m m' id); [done|cbn; lia| | | |].
  - intros k' Hle. cbn in Hle. rewrite Ho by lia. apply Hi. lia.
  - cbn. assert (id < next m) by (apply drawn_id; [done|congruence]). lia.
  - intros i Hne. split; try done.
    + change (sig_of (change id (set_stop false ∘ set_state Applying) m) i = sig_of m i). by rewrite sig_change, decide_False.
    + cbn. by rewrite lookup_insert_ne.
    + intros k' t' Hj. destruct (decide (k' = next m)) as [->|Hne']; [|by rewrite Ho]. rewrite Hkk, Hk. split; [|done]. intros [= <-]. cbn in Hj. congruence.
  - split; try done.
    + intros H. destruct (O1 H) as (y & Hy). congruence.
    + intros _. exists Applying. by split.
    + intros k' t' Ht' Hj. destruct (decide (k' = next m)) as [->|Hne'].
      * rewrite Hkk in Ht'. injection Ht' as <-. unfold claim. cbn [t t_job t_pc t_cancelled]. split_and!; try done. by intros [|].
      * rewrite Ho in Ht' by done. apply idle_claim. pose proof (quiet_others m id k' t' Hq (inv_ok m Hi id) Ht' Hj) as Hnm.
        specialize (Hw k' t' Ht'). unfold winding_down in Hw. rewrite bool_decide_true in Hw by done. cbn in Hw.
        assert (Hnb : t_pc t' <> BodyPlan) by (intros Hp; by destruct (O0 k' t' Ht' Hj Hp) as (_ & ? & _)).
        destruct (pc_kind (t_pc t')) as [H|[H|[H|[H|[H|H]]]]]; [destruct Hnm; by left| |destruct Hnm; by do 2 right|by rewrite H in Hw|done|done].
        destruct (t_cancelled t') eqn:Ec; [by destruct (t_pc t')|]. destruct Hnm. right; by left.
    + intros e y. rewrite Hs'. intros [= <- <-] _. by exists (next m), t.
    + intros k' t' Ht' Hj Hp. destruct (decide (k' = next m)) as [->|Hne']; [rewrite Hkk in Ht'; by injection Ht' as <-|].
      rewrite Ho in Ht' by done. by destruct (O0 k' t' Ht' Hj Hp) as (_ & ? & _).
    + intros _. right; by left.
    + intros H. by apply (held_spawn m _ id writing (next m) t), O6.
    + intros H. by apply (held_spawn m _ id receiving (next m) t), O7.
Qed.

Lemma stop_step m id : inv m -> sig_of m id = Some (false, Fetching) ->
  inv (change id (set_state Stopped) (match current m !! id with Some k => cancel k m | None => m end)).
Proof.
  intros Hi Hs. destruct (inv_ok m Hi id) as [O1 O2 O3 O4 O0 O5 O6 O7].
  destruct (O4 false Fetching Hs eq_refl) as (k & t & Hc & Ht & Hj & Hd). rewrite Hc. cbn in Hd. destruct Hd as [Hp Hcn]. set (m' := change _ _ _).
  set (t' := {| t_job := t_job t; t_pc := t_pc t; t_cancelled := true |}).
  assert (Hs' : sig_of m' id = Some (false, Stopped)).
  { change (sig_of (change id (set_state Stopped) m) id = Some (false, Stopped)). rewrite sig_change, decide_True by done.
    unfold sig_of in Hs. destruct (heap m !! id); cbn in *; [|done]. by injection Hs as ->. }
  assert (Ho : forall k', k' <> k -> tasks m' !! k' = tasks m !! k') by (intros k' Hne; cbn; by rewrite lookup_alter_ne).
  assert (Hkk : tasks m' !! k = Some t') by (cbn; by rewrite lookup_alter_eq, Ht).
  assert (Hheld : forall P, held m id P -> held m' id P).
  { intros P (k1 & t1 & H1 & H2 & H3). destruct (decide (k1 = k)) as [->|Hne]; [exists k, t'; by simplify_eq|exists k1, t1; by rewrite Ho]. }
  apply (inv_local m m' id); [done|done| | | |].
  - intros k' Hle. destruct (decide (k' = k)) as [->|Hne]; [rewrite (inv_keys m Hi k Hle) in Ht; done|]. rewrite Ho by done. by apply Hi.
  - apply (drawn_id m); [done|congruence].
  - intros i Hne. split; try done.
    + change (sig_of (change id (set_state Stopped) m) i = sig_of m i). by rewrite sig_change, decide_False.
    + intros k' t1 Hj1. destruct (decide (k' = k)) as [->|Hne']; [|by rewrite Ho]. rewrite Hkk, Ht. split; intros [= <-]; cbn in Hj1; congruence.
  - split; try done.
    + intros H. destruct (O1 H) as (y & Hy). congruence.
    + intros _. exists Stopped. by split.
    + intros k' t1 Ht1 Hj1. destruct (decide (k' = k)) as [->|Hne'].
      * rewrite Hkk in Ht1. injection Ht1 as <-. apply quiet_claim; [|cbn; rewrite Hj; by exists Stopped]. unfold main. cbn. destruct (t_pc t); naive_solver.
      * rewrite Ho in Ht1 by done. apply idle_claim. apply (main_alone m k t k' t1); try done; [apply Hi|right; by left|congruence].
    + intros e y. rewrite Hs'. by intros [= <- <-].
    + intros k' t1 Ht1 Hj1 Hp1. destruct (decide (k' = k)) as [->|Hne']; [rewrite Hkk in Ht1; injection Ht1 as <-; cbn in Hp1; by rewrite Hp1 in Hp|].
      rewrite Ho in Ht1 by done. destruct (O0 k' t1 Ht1 Hj1 Hp1) as (_ & _ & Hu). by destruct (Hu k t Ht Hj).
    + intros H. destruct (O5 H) as [?|[?|?]]; [by left|by right; left|]. do 2 right. auto.
    + intros H. apply Hheld, O6, H.
    + intros H. apply Hheld, O7, H.
Qed.

Lemma import_job_spec now id m : match import_job now id m with
  | Some (j, m1) => id ∈ imports m /\ heap m !! id = Some j /\ m1 = change id (touch now) m
  | None => id ∉ imports m \/ heap m !! id = None end.
Proof. unfold import_job. case_bool_decide; [|by left]. destruct (heap m !! id); [by split_and!|by right]. Qed.
Lemma export_job_spec now id m : match export_job now id m with
  | Some (j, m1) => id ∈ exports m /\ heap m !! id = Some j /\ m1 = change id (touch now) m
  | None => id ∉ exports m \/ heap m !! id = None end.
Proof. unfold export_job. case_bool_decide; [|by left]. destruct (heap m !! id); [by split_and!|by right]. Qed.

(** A request about a job: the job is found and touched *)
Lemma on_import_inv now id m f : inv m ->
  (forall j x, let m1 := change id (touch now) m in inv m1 -> id ∈ imports m1 -> j_state j = x -> sig_of m id = Some (false, x) -> sig_of m1 id = Some (false, x) ->
    x <> Running -> heap m !! id = Some j -> inv (f j m1).1) -> inv (on_job (import_job now id m) m f).1.
Proof.
  intros Hi Hf. pose proof (import_job_spec now id m) as H. destruct (import_job now id m) as [[j m1]|]; cbn; [|done].
  destruct H as (Him & Hj & ->). destruct (ok_import m id (inv_ok m Hi id) Him) as (x & Hs & Hx).
  apply (Hf j x); try done; [by apply inv_change|unfold sig_of in Hs; rewrite Hj in Hs; cbn in Hs; congruence|].
  rewrite <-Hs. apply (change_keeps m id (touch now)). by intros [].
Qed.

Lemma transfer_step_inv m e : inv m -> orderly m e = true -> inv (step keep_s max_bytes m e).
Proof.
  intros Hi Ho. destruct e as [now e]. unfold step. destruct e as [| | |k o|id|id|id|id|id|id|id|id|id]; cbn [handle fst snd].
  - by apply start_export_inv.
  - by apply start_pull_inv.
  - by apply body_begin_inv.
  - by apply resume_inv.
  - pose proof (export_job_spec now id m) as H. destruct (export_job now id m) as [[j m1]|]; cbn; [|done]. destruct H as (_ & _ & ->). by apply inv_change.
  - apply on_import_inv; [done|]. by intros.
  - pose proof (export_job_spec now id m) as H. unfold delete_export. destruct (export_job now id m) as [[j m1]|]; cbn; [|done].
    destruct H as (Hx & Hj & ->). assert (Hi1 : inv (change id (touch now) m)) by by apply inv_change. case_bool_decide as Hr; [done|].
    destruct (ok_export m id (inv_ok m Hi id) Hx) as (x & Hs). assert (Hsx : j_state j = x) by (unfold sig_of in Hs; rewrite Hj in Hs; cbn in Hs; congruence).
    assert (Hs1 : sig_of (change id (touch now) m) id = Some (true, x)) by (rewrite <-Hs; apply (change_keeps m id (touch now)); by intros []).
    apply (drop_inv (change id (touch now) m) _ id); try done.
    + intros e y Hy Hb. rewrite Hs1 in Hy. simplify_eq. destruct (busy_kind _ id true (j_state j) Hi1 Hs1 Hb) as [[_ ?]|[? _]]; done.
    + congruence.
    + cbn. assert (id ∉ imports m); [|set_solver]. intros H. destruct (ok_import m id (inv_ok m Hi id) H) as (y & Hy & _). congruence.
  - apply on_import_inv; [done|]. intros j x m1 Hi1 Him <- Hs Hs1 Hr Hj. cbn. case_bool_decide as Ha; [done|].
    apply (drop_inv m1 _ id); try done.
    + intros e y Hy Hb. rewrite Hs1 in Hy. simplify_eq. destruct (busy_kind m1 id false (j_state j) Hi1 Hs1 Hb) as [[? _]|[_ [Hf|?]]]; try done.
      apply negb_true_iff, bool_decide_eq_false in Ho. apply Ho. unfold state_of. rewrite Hj. cbn. by rewrite Hf.
    + congruence.
    + cbn. assert (id ∉ exports m); [|set_solver]. by apply (import_not_export m id (j_state j)).
  - apply on_import_inv; [done|]. intros j x m1 Hi1 Him <- Hs Hs1 Hr Hj. cbn. case_bool_decide; [done|]. apply spawn_inv; [done|done|by left].
  - apply on_import_inv; [done|]. intros j x m1 Hi1 Him <- Hs Hs1 Hr Hj. cbn. case_bool_decide as H1; [done|].
    destruct (bool_decide (j_plan j = None)); cbn; [done|]. case_bool_decide as H2; [done|]. case_bool_decide as H3; [done|].
    apply (start_apply_step m1 id (j_state j)); try done; try (intros H; apply H1; rewrite H; set_solver).
    + unfold there. cbn. apply not_eq_None_Some. done.
    + intros k t Ht. cbn in Ho. assert (Hf := proj1 (forallb_forall _ _) Ho (k, t)). apply negb_true_iff, Hf.
      apply list_elem_of_In, elem_of_map_to_list. exact Ht.
  - apply on_import_inv; [done|]. intros j x m1 Hi1 Him <- Hs Hs1 Hr Hj. cbn. destruct (_ || _ || _); [done|]. apply spawn_inv; [done|done|by right; left].
  - apply on_import_inv; [done|]. intros j x m1 Hi1 Him <- Hs Hs1 Hr Hj. case_bool_decide as H1; [apply stop_step; [done|by rewrite Hs1, H1]|].
    case_bool_decide; [by apply inv_change|done].
  - apply on_import_inv; [done|]. intros j x m1 Hi1 Him <- Hs Hs1 Hr Hj. cbn. case_bool_decide as H1; [done|]. apply spawn_inv; [done|done|].
    do 2 right. split; [done|]. exists (j_state j). split_and!; try done. intros Hf.
    apply negb_true_iff, bool_decide_eq_false in Ho. apply Ho. unfold state_of. rewrite Hj. cbn. by rewrite Hf.
Qed.

(** Steps as they are, when the requests are orderly *)
Definition orderly_step (m : Manager) (e : Z * Ev) : Manager := if orderly m e then step keep_s max_bytes m e else m.

Lemma new_manager_inv : inv new_manager.
Proof. split; [intros id; apply blank_ok|intros id _|done]; split; try done; by intros p _ []. Qed.
Lemma reachable_orderly m : reachable orderly_step new_manager m -> inv m.
Proof. apply reachable_inv; [apply new_manager_inv|]. intros s e Hs. unfold orderly_step. destruct (orderly s e) eqn:Ho; [by apply transfer_step_inv|done]. Qed.

End steps.

(** ** Whose a file is, whatever is asked

    The rest is about any requests and outcomes, orderly or not. *)

(** The coroutines that work on a file *)
Definition owner (p : Path) : Pc -> bool :=
  match p with BundleFile _ => holding | Part _ => writing | Upload _ => receiving | History _ => exporting | Scratch _ => collecting end.
(** The coroutine or the table entry that is answerable for a file *)
Definition owned (m : Manager) (p : Path) : Prop :=
  held m (path_job p) (owner p) \/ match p with BundleFile id => id ∈ exports m \/ id ∈ imports m | _ => False end.
(** The imports a coroutine is fetching the bundle of *)
Definition fetched_by (m : Manager) (id : nat) : bool :=
  existsb (fun x => bool_decide (t_job x.2 = id) && pulling (t_pc x.2) && negb (t_cancelled x.2)) (map_to_list (tasks m)).
(** The imports that leave the table while they are fetched, and the upload whose plan fails for another reason than its bundle: their
    bundles are nobody's from then on *)
Definition lost (m m' : Manager) : gset nat := filter (fun id => id ∉ imports m' /\ fetched_by m id = true) (imports m).
Definition failed_plan (m : Manager) (e : Ev) : gset nat :=
  match e with
  | Resume k (Err false) => match tasks m !! k with Some t => match t_pc t with BodyPlan => {[t_job t]} | _ => ∅ end | None => ∅ end
  | _ => ∅
  end.
Definition leaks (keep_s : Z) (max_bytes : N) (m : Manager) (e : Z * Ev) : gset nat := failed_plan m e.2 ∪ lost m (step keep_s max_bytes m e).
(** A step, with the imports whose bundle was lost so far *)
Definition leaky_step (keep_s : Z) (max_bytes : N) (s : Manager * gset nat) (e : Z * Ev) : Manager * gset nat :=
  (step keep_s max_bytes s.1 e, s.2 ∪ leaks keep_s max_bytes s.1 e).
Definition leaked (L : gset nat) (p : Path) : Prop := match p with BundleFile id => id ∈ L | _ => False end.

Definition duty (m : Manager) (L : gset nat) (k : nat) (t : Task) : Prop :=
  let id := t_job t in
  (exporting (t_pc t) = true -> sig_of m id = Some (true, Running) /\ id ∈ exports m /\ current m !! id = Some k)
  /\ (pulling (t_pc t) = true -> t_cancelled t = false -> id ∈ imports m \/ id ∈ L)
  /\ (exporting (t_pc t) = false -> receiving (t_pc t) = false -> exists x, sig_of m id = Some (false, x)).
Record acc_at (m : Manager) (L : gset nat) (id : nat) : Prop := {
  at_export : id ∈ exports m -> exists x, sig_of m id = Some (true, x);
  at_import : id ∈ imports m -> exists x, sig_of m id = Some (false, x);
  at_tasks : forall k t, tasks m !! k = Some t -> t_job t = id -> duty m L k t;
  at_busy : forall e x, sig_of m id = Some (e, x) -> busy x = true ->
    exists k t, tasks m !! k = Some t /\ t_job t = id /\ drives x t /\ (x = Fetching -> current m !! id = Some k);
  at_files : forall p, path_job p = id -> there m p -> owned m p \/ leaked L p;
}.
Record acc (m : Manager) (L : gset nat) : Prop := {
  acc_ok : forall id, acc_at m L id;
  acc_blank : forall id, next m <= id -> blank m id;
  acc_keys : forall k, next m <= k -> tasks m !! k = None;
}.

Lemma held_mono m m' id P : (forall k t, t_job t = id -> tasks m !! k = Some t -> tasks m' !! k = Some t) -> held m id P -> held m' id P.
Proof. intros H (k & t & H1 & H2 & H3). exists k, t. auto. Qed.
Lemma leaked_mono L L' p : L ⊆ L' -> leaked L p -> leaked L' p.
Proof. intros H. destruct p; cbn; auto. Qed.
Lemma duty_mono m m' L L' k t : sig_of m' (t_job t) = sig_of m (t_job t) -> (t_job t ∈ exports m -> t_job t ∈ exports m') ->
  (t_job t ∈ imports m -> t_job t ∈ imports m' \/ t_job t ∈ L') -> current m' !! t_job t = current m !! t_job t -> L ⊆ L' -> duty m L k t -> duty m' L' k t.
Proof.
  intros Es Ex Ei Ec HL (D1 & D2 & D3). unfold duty. rewrite Es, Ec. split_and!; [|intros Hp Hc|done].
  - intros He. destruct (D1 He) as (? & ? & ?). auto.
  - destruct (D2 Hp Hc); auto.
Qed.
Lemma acc_at_same m m' L L' id : same_at m m' id -> L ⊆ L' -> acc_at m L id -> acc_at m' L' id.
Proof.
  intros S HL [A1 A2 A3 A4 A5]. pose proof S as [E1 E2 E3 E4 E5 E6]. split.
  - by rewrite E1, E2.
  - by rewrite E1, E3.
  - intros k t Ht Hj. pose proof (proj1 (E6 k t Hj) Ht) as Ht'. eapply (duty_mono m); [..|exact HL|by apply A3]; rewrite Hj; try done; [by rewrite E2|left; by rewrite E3].
  - intros e x. rewrite E1, E4. intros Hs Hb. destruct (A4 e x Hs Hb) as (k & t & Ht & Hj & Hd). exists k, t. split; [by apply (E6 k t Hj)|done].
  - intros p Hp Ht. rewrite (E5 p Hp) in Ht. destruct (A5 p Hp Ht) as [[H|H]|H]; [left; left|left; right|right; by apply (leaked_mono L)].
    + rewrite Hp in *. by apply (held_same m m').
    + destruct p; try done. cbn in Hp. subst. by rewrite E2, E3.
Qed.
Lemma acc_mono m L L' : L ⊆ L' -> acc m L -> acc m L'.
Proof. intros HL [A1 A2 A3]. split; [|done|done]. intros id. eapply acc_at_same; [|exact HL|apply A1]. by split. Qed.
Lemma acc_same m m' L : acc m L -> next m' = next m -> tasks m' = tasks m -> (forall id, same_at m m' id) -> acc m' L.
Proof.
  intros [A1 A2 A3] Hn Ht Hs. split; [intros id; by eapply acc_at_same|intros id; rewrite Hn; intros H; by eapply blank_same; [apply Hs|apply A2]|intros k; rewrite Hn, Ht; apply A3].
Qed.
Lemma acc_local m m' L L' id : acc m L -> L ⊆ L' -> next m <= next m' -> (forall k, next m' <= k -> tasks m' !! k = None) -> id < next m' ->
  (forall id', id' <> id -> same_at m m' id') -> acc_at m' L' id -> acc m' L'.
Proof.
  intros [A1 A2 A3] HL Hn Hk Hid Hs Hok. split; [| |done].
  - intros id'. destruct (decide (id' = id)) as [->|Hne]; [done|]. eapply acc_at_same; [by apply Hs|exact HL|apply A1].
  - intros id' Hle. eapply blank_same; [apply Hs; lia|apply A2; lia].
Qed.
Lemma acc_change m L id f : (forall j, j_export (f j) = j_export j /\ j_state (f j) = j_state j) -> acc m L -> acc (change id f m) L.
Proof. intros Hf Hi. by apply (acc_same m); [|done|done|apply change_keeps]. Qed.
Lemma acc_key m L k t : acc m L -> tasks m !! k = Some t -> k < next m /\ t_job t < next m.
Proof.
  intros [A1 A2 A3] Hk. split; [destruct (decide (k < next m)); [done|]; rewrite A3 in Hk; [done|lia]|].
  destruct (decide (t_job t < next m)); [done|]. by destruct (blank_tasks m _ (A2 (t_job t) ltac:(lia)) k t Hk).
Qed.
Lemma acc_duty m L k t : acc m L -> tasks m !! k = Some t -> duty m L k t.
Proof. intros A Hk. by eapply at_tasks; [apply A|..]. Qed.

(** A coroutine goes on, as the same kind of coroutine *)
Lemma acc_goto m m' L k t pc : acc m L -> tasks m !! k = Some t -> let id := t_job t in
  elsewhere id m m' -> tasks m' = alter (fun t => {| t_job := t_job t; t_pc := pc; t_cancelled := t_cancelled t |}) k (tasks m) ->
  sig_of m' id = sig_of m id -> exports m' = exports m -> imports m' = imports m -> current m' = current m ->
  exporting pc = exporting (t_pc t) -> pulling pc = pulling (t_pc t) -> applying pc = applying (t_pc t) -> receiving pc = receiving (t_pc t) ->
  (forall p, path_job p = id -> there m' p -> owner p pc = true \/ there m p /\ (owner p (t_pc t) = true -> owner p pc = true)) -> acc m' L.
Proof.
  intros A Hk id [N S X M C F] Ht Hs Hx Hm Hc E1 E2 E3 E4 Hf. destruct (acc_key m L k t A Hk) as [Hlt Hid].
  set (t1 := {| t_job := id; t_pc := pc; t_cancelled := t_cancelled t |}). assert (Hk' : tasks m' !! k = Some t1) by by rewrite Ht, lookup_alter_eq, Hk.
  assert (Ho : forall k', k' <> k -> tasks m' !! k' = tasks m !! k') by (intros k' Hne; by rewrite Ht, lookup_alter_ne).
  assert (Hd : forall k' t', t_job t' = id -> duty m L k' t' -> duty m' L k' t') by (intros k' t' Hj; apply duty_mono; rewrite ?Hj, ?Hx, ?Hm, ?Hc; auto).
  apply (acc_local m m' L L id); [done|done|lia| |lia| |].
  - intros k' Hle. rewrite Ho by lia. apply A. lia.
  - intros i Hi. split; [auto|auto|auto|auto|intros p <-; auto|]. intros k' t' Hj. destruct (decide (k' = k)) as [->|Hne]; [|by rewrite Ho].
    rewrite Hk', Hk. split; intros [= <-]; cbn in Hj; by destruct Hi.
  - destruct (acc_ok m L A id) as [A1 A2 A3 A4 A5]. split; [by rewrite Hs, Hx|by rewrite Hs, Hm| | |].
    + intros k' t' Ht' Hj. apply Hd; [done|]. destruct (decide (k' = k)) as [->|Hne]; [|apply A3; [by rewrite <-Ho|done]].
      rewrite Hk' in Ht'. injection Ht' as <-. pose proof (A3 k t Hk eq_refl) as D. unfold duty in *. cbn. by rewrite E1, E2, E4.
    + intros e x. rewrite Hs, Hc. intros H1 H2. destruct (A4 e x H1 H2) as (k' & t' & H3 & H4 & H5 & H6). destruct (decide (k' = k)) as [->|Hne]; [|exists k', t'; by rewrite Ho].
      rewrite Hk in H3. injection H3 as <-. exists k, t1. split_and!; [done|done| |done]. destruct x; cbn in *; by rewrite ?E1, ?E2, ?E3.
    + intros p Hp [H|[H1 H2]]%(Hf p Hp); [left; left; exists k, t1; by rewrite Hp|]. destruct (A5 p Hp H1) as [[H|H]|H]; [left; left|left; right; by rewrite Hx, Hm|by right].
      destruct H as (k' & t' & G1 & G2 & G3). destruct (decide (k' = k)) as [->|Hne]; [|exists k', t'; by rewrite Ho]. rewrite Hk in G1. injection G1 as <-. exists k, t1. rewrite Hp. auto.
Qed.
(** A coroutine ends *)
Lemma acc_finish m m' L L' k t : acc m L -> L ⊆ L' -> tasks m !! k = Some t -> let id := t_job t in
  elsewhere id m m' -> tasks m' = delete k (tasks m) -> exports m' = exports m -> current m' = current m ->
  (id ∈ imports m -> id ∈ imports m') ->
  (id ∈ exports m' -> exists x, sig_of m' id = Some (true, x)) -> (id ∈ imports m' -> exists x, sig_of m' id = Some (false, x)) ->
  (forall k' t', k' <> k -> tasks m !! k' = Some t' -> t_job t' = id -> duty m' L' k' t') ->
  (forall e x, sig_of m' id = Some (e, x) -> busy x = true -> sig_of m' id = sig_of m id /\ ~ drives x t) ->
  (forall p, path_job p = id -> there m' p -> (p = BundleFile id /\ (id ∈ exports m' \/ id ∈ imports m')) \/ leaked L' p \/ there m p /\ owner p (t_pc t) = false) ->
  acc m' L'.
Proof.
  intros A HL Hk id [N S X M C F] Ht Hx Hc Him HX HM Hcl Hb Hf. destruct (acc_key m L k t A Hk) as [Hlt Hid].
  assert (Ho : forall k', k' <> k -> tasks m' !! k' = tasks m !! k') by (intros k' Hne; by rewrite Ht, lookup_delete_ne).
  assert (Hk' : tasks m' !! k = None) by by rewrite Ht, lookup_delete_eq.
  apply (acc_local m m' L L' id); [done|done|lia| |lia| |].
  - intros k' Hle. destruct (decide (k' = k)) as [->|Hne]; [done|]. rewrite Ho by done. apply A. lia.
  - intros i Hi. split; [auto|auto|auto|auto|intros p <-; auto|]. intros k' t' Hj. destruct (decide (k' = k)) as [->|Hne]; [|by rewrite Ho].
    rewrite Hk', Hk. split; [done|]. intros [= <-]. by destruct Hi.
  - destruct (acc_ok m L A id) as [A1 A2 A3 A4 A5]. split; [done|done| | |].
    + intros k' t' Ht' Hj. destruct (decide (k' = k)) as [->|Hne]; [congruence|]. rewrite Ho in Ht' by done. eauto.
    + intros e x Hs Hbu. destruct (Hb e x Hs Hbu) as [Hs' Hnd]. rewrite Hs' in Hs. destruct (A4 e x Hs Hbu) as (k' & t' & H1 & H2 & H3 & H4).
      exists k', t'. rewrite Hc, Ho; [done|]. intros ->. by simplify_eq.
    + intros p Hp [[-> H]|[H|[H1 H2]]]%(Hf p Hp); [by left; right|by right|]. destruct (A5 p Hp H1) as [[H|H]|H]; [left; left| |right; by apply (leaked_mono L)].
      * destruct H as (k' & t' & G1 & G2 & G3). exists k', t'. rewrite Ho; [done|]. intros ->. simplify_eq. congruence.
      * left; right. destruct p; try done. cbn in Hp. subst. rewrite Hx. destruct H; auto.
Qed.

(** A new job: a coroutine and perhaps a file or a table entry under a number just drawn *)
Lemma acc_new m m' L id k t : acc m L -> id = next m -> next m < next m' -> tasks m !! k = None -> k < next m' -> t_job t = id ->
  (forall i, i <> id -> heap m' !! i = heap m !! i) ->
  (forall i, i <> id -> i ∈ exports m' <-> i ∈ exports m) -> (forall i, i <> id -> i ∈ imports m' <-> i ∈ imports m) ->
  (forall i, i <> id -> current m' !! i = current m !! i) -> (forall p, path_job p <> id -> files m' !! p = files m !! p) ->
  tasks m' = <[k := t]> (tasks m) -> duty m' L k t ->
  (id ∈ exports m' -> exists x, sig_of m' id = Some (true, x)) -> (id ∈ imports m' -> exists x, sig_of m' id = Some (false, x)) ->
  (forall e x, sig_of m' id = Some (e, x) -> busy x = true -> current m' !! id = Some k /\ drives x t) ->
  (forall p, path_job p = id -> there m' p -> owner p (t_pc t) = true) -> acc m' L.
Proof.
  intros A -> Hn Hk Hlt Hj H X M C F Ht Hcl HX HM Hb Hf. set (id := next m) in *. assert (Hbl : blank m id) by (by apply A).
  assert (Hkk : tasks m' !! k = Some t) by (rewrite Ht; by apply lookup_insert_eq).
  assert (Ho : forall k', k' <> k -> tasks m' !! k' = tasks m !! k') by (intros k' Hne; rewrite Ht; by apply lookup_insert_ne).
  apply (acc_local m m' L L id); [done|done|lia| |unfold id; lia| |].
  - intros k' Hle. rewrite Ho by lia. apply A. lia.
  - intros i Hi'. split; [unfold sig_of; by rewrite H|auto|auto|auto|intros p <-; unfold there; by rewrite F|].
    intros k' t' Hj'. destruct (decide (k' = k)) as [->|Hne]; [|by rewrite Ho]. rewrite Hkk, Hk. split; [intros [= <-]; congruence|done].
  - split; auto.
    + intros k' t' Ht' Hj'. destruct (decide (k' = k)) as [->|Hne]; [by simplify_eq|]. rewrite Ho in Ht' by done. by destruct (blank_tasks m id Hbl k' t').
    + intros e x Hs Hbu. destruct (Hb e x Hs Hbu). by exists k, t.
    + intros p Hp Hth. left; left. exists k, t. rewrite Hp. auto.
Qed.
(** Another coroutine for an import in the table *)
Lemma acc_spawn m m' L k t : acc m L -> let id := t_job t in id ∈ imports m -> k = next m -> next m' = S (next m) ->
  tasks m' = <[k := t]> (tasks m) -> (forall i, i <> id -> sig_of m' i = sig_of m i) -> (forall i, i <> id -> current m' !! i = current m !! i) ->
  exports m' = exports m -> imports m' = imports m -> files m' = files m -> exporting (t_pc t) = false -> receiving (t_pc t) = false ->
  (sig_of m' id = sig_of m id /\ current m' !! id = current m !! id \/ exists x, sig_of m' id = Some (false, x) /\ x <> Fetching /\ drives x t) -> acc m' L.
Proof.
  intros A id Him -> Hn Ht ES EC Hx Hm Hf H1 H2 Hs. destruct (acc_ok m L A id) as [A1 A2 A3 A4 A5]. destruct (A2 Him) as [x0 Hs0].
  assert (Hk : tasks m !! next m = None) by (apply A; lia). assert (Hid : id < next m).
  { destruct (decide (id < next m)); [done|]. rewrite (blank_sig m id) in Hs0; [done|]. apply A. lia. }
  assert (Hkk : tasks m' !! next m = Some t) by (rewrite Ht; by apply lookup_insert_eq).
  assert (Ho : forall k', k' <> next m -> tasks m' !! k' = tasks m !! k') by (intros k' Hne; rewrite Ht; by apply lookup_insert_ne).
  assert (Hsig : exists y, sig_of m' id = Some (false, y)) by (destruct Hs as [[-> _]|(y & Hy & _)]; eauto).
  assert (Hth : forall p, there m' p <-> there m p) by (intros p; unfold there; by rewrite Hf).
  apply (acc_local m m' L L id); [done|done|lia| |lia| |].
  - intros k' Hle. rewrite Ho by lia. apply A. lia.
  - intros i Hi. split; [auto|by rewrite Hx|by rewrite Hm|auto|intros p _; apply Hth|].
    intros k' t' Hj. destruct (decide (k' = next m)) as [->|Hne]; [|by rewrite Ho]. rewrite Hkk, Hk. split; [intros [= <-]; by destruct Hi|done].
  - split; [|done| | |].
    + rewrite Hx. intros H. destruct (A1 H) as [y Hy]. congruence.
    + intros k' t' Ht' Hj. destruct (decide (k' = next m)) as [->|Hne].
      * rewrite Hkk in Ht'. injection Ht' as <-. unfold duty. rewrite H1. split_and!; [done|rewrite Hm; by left|done].
      * rewrite Ho in Ht' by done. destruct (A3 k' t' Ht' Hj) as (D1 & D2 & D3). unfold duty. rewrite Hj in *. rewrite Hx, Hm. split_and!; [|done|done].
        intros He. destruct (D1 He) as [D _]. congruence.
    + intros e x Hsx Hb. destruct Hs as [[Es Ec]|(y & Hy & Hne & Hd)].
      * rewrite Es in Hsx. rewrite Ec. destruct (A4 e x Hsx Hb) as (k' & t' & G1 & G2). exists k', t'. rewrite Ho; [done|]. intros ->. congruence.
      * exists (next m), t. rewrite Hy in Hsx. injection Hsx as <- <-. done.
    + intros p Hp H%Hth. destruct (A5 p Hp H) as [[G|G]|G]; [left; left|left; right; by rewrite Hx, Hm|by right].
      eapply held_mono; [|exact G]. intros k' t' _ G'. rewrite Ho; [done|]. intros ->. congruence.
Qed.
(** Entries leave the tables, with their bundles; [L'] has those that are still being fetched *)
Lemma acc_drop m m' L (gone : gset nat) : acc m L ->
  (forall id, id ∈ gone -> sig_of m id <> Some (true, Running)) ->
  heap m' = heap m -> next m' = next m -> tasks m' = tasks m -> current m' = current m ->
  (forall id, id ∈ exports m' <-> id ∈ exports m /\ id ∉ gone) -> (forall id, id ∈ imports m' <-> id ∈ imports m /\ id ∉ gone) ->
  (forall p, there m' p -> there m p) -> (forall p, there m' p -> match p with BundleFile id => id ∉ gone | _ => True end) ->
  acc m' (L ∪ lost m m').
Proof.
  intros A Hr Hh Hn Ht Hc Hx Hm Hf Hg. assert (Hs : forall id, sig_of m' id = sig_of m id) by (intros; unfold sig_of; by rewrite Hh).
  assert (HL : L ⊆ L ∪ lost m m') by set_solver. split; [|intros id; rewrite Hn|intros k; rewrite Hn, Ht; apply A].
  - intros id. destruct (acc_ok m L A id) as [A1 A2 A3 A4 A5]. split; rewrite ?Hs, ?Hc.
    + intros [H _]%Hx. auto.
    + intros [H _]%Hm. auto.
    + intros k t. rewrite Ht. intros Hk <-. destruct (A3 k t Hk eq_refl) as (D1 & D2 & D3). unfold duty. rewrite Hs, Hc. split_and!; [| |done].
      * intros He. destruct (D1 He) as (G1 & G2 & G3). split_and!; [done| |done]. apply Hx. split; [done|]. intros G. by apply (Hr _ G).
      * intros Hp Hcn. destruct (D2 Hp Hcn) as [G|G]; [|right; set_solver]. destruct (decide (t_job t ∈ imports m')) as [|Hno]; [by left|]. right. apply elem_of_union_r, elem_of_filter.
        split; [|done]. split; [done|]. apply existsb_exists. exists (k, t). split; [by apply list_elem_of_In, elem_of_map_to_list|]. cbn. by rewrite bool_decide_true, Hp, Hcn.
    + intros e x H1 H2. rewrite Ht. by apply (A4 e x).
    + intros p Hp Hth. destruct (A5 p Hp (Hf p Hth)) as [[G|G]|G]; [left; left; unfold held; by rewrite Ht| |right; by apply (leaked_mono L)].
      specialize (Hg p Hth). destruct p; try done. left; right. rewrite Hx, Hm. tauto.
  - intros Hle. destruct (acc_blank m L A id Hle) as [B1 B2 B3 B4 B5 B6]. split; rewrite ?Hs, ?Hc, ?Ht; try done; [rewrite Hx; tauto|rewrite Hm; tauto|].
    intros p Hp H. by eapply B5, Hf.
Qed.

Lemma sig_kind m L id x y : acc m L -> sig_of m id = Some (x, y) -> (id ∈ exports m -> x = true) /\ (id ∈ imports m -> x = false).
Proof. intros A Hs. split; intros H; [destruct (at_export _ _ _ (acc_ok m L A id) H)|destruct (at_import _ _ _ (acc_ok m L A id) H)]; congruence. Qed.
(** A coroutine of an import ends *)
Lemma acc_settle m m' L L' k t x : acc m L -> L ⊆ L' -> tasks m !! k = Some t -> let id := t_job t in
  exporting (t_pc t) = false -> receiving (t_pc t) = false -> elsewhere id m m' -> tasks m' = delete k (tasks m) -> exports m' = exports m -> current m' = current m ->
  (id ∈ imports m -> id ∈ imports m') -> sig_of m' id = Some (false, x) -> (busy x = true -> sig_of m id = Some (false, x) /\ ~ drives x t) ->
  (forall p, path_job p = id -> there m' p -> (p = BundleFile id /\ id ∈ imports m') \/ leaked L' p \/ there m p /\ owner p (t_pc t) = false) -> acc m' L'.
Proof.
  intros A HL Hk id He Hr El Ht Hx Hc Him Hs Hb Hf. destruct (acc_duty m L k t A Hk) as (_ & _ & D). destruct (D He Hr) as [y Hy]. fold id in Hy.
  apply (acc_finish m m' L L' k t); try done.
  - rewrite Hx. intros H. by apply (sig_kind m L id false y A Hy) in H.
  - intros _. by exists x.
  - intros k' t' _ Hk' Hj. fold id in Hj. destruct (acc_duty m L k' t' A Hk') as (D1 & D2 & _). unfold duty. rewrite Hj in D2 |- *. split_and!; [intros H; destruct (D1 H) as [D4 _]; rewrite Hj in D4; congruence| |eauto].
    intros Hp Hcn. destruct (D2 Hp Hcn); [left; auto|right; auto].
  - intros e z Hz Hbz. fold id in Hz. rewrite Hs in Hz. injection Hz as <- <-. destruct (Hb Hbz) as [Hb1 Hb2]. split; [fold id; congruence|done].
  - intros p Hp H. destruct (Hf p Hp H) as [[-> G]|[G|G]]; [left; auto|by right; left|by right; right].
Qed.

Section any_steps.
Context (keep_s : Z) (max_bytes : N).

Lemma acc_sweep now m L : acc m L -> acc (sweep keep_s now m) (L ∪ lost m (sweep keep_s now m)).
Proof.
  intros A. set (gone := filter (fun id => expired keep_s now m id = true) (exports m ∪ imports m)). apply (acc_drop m _ L gone A); try done.
  - intros id [He _]%elem_of_filter Hs. unfold expired in He. unfold sig_of in Hs. destruct (heap m !! id) as [j|]; [|done]. cbn in Hs. injection Hs as _ Hs. rewrite Hs in He. done.
  - intros id. cbn. fold gone. by rewrite elem_of_difference.
  - intros id. cbn. fold gone. by rewrite elem_of_difference.
  - intros p. unfold there. rewrite sweep_files. destruct (of_jobs _ p); [by intros []|done].
  - intros p. unfold there. rewrite sweep_files. fold gone. destruct p; try done. cbn. case_bool_decide; [by intros []|done].
Qed.
Lemma acc_end_export now k t ok m L : acc m L -> tasks m !! k = Some t -> exporting (t_pc t) = true -> acc (end_export now k (t_job t) ok m) L.
Proof.
  intros A Hk He. set (id := t_job t). destruct (acc_duty m L k t A Hk) as (D & _). destruct (D He) as (Hs & Hx & Hc). fold id in Hs, Hx, Hc.
  assert (Hs' : sig_of (end_export now k id ok m) id = Some (true, if ok then Done else Failed)) by (eapply (sig_end m), Hs).
  apply (acc_finish m _ L L k t); try done.
  - destruct ok; elsewhere_tac.
  - intros _. eexists. exact Hs'.
  - intros H. by apply (sig_kind m L id true Running A Hs) in H.
  - intros k' t' Hne Hk' Hj. destruct (acc_duty m L k' t' A Hk') as (D1 & D2 & D3). fold id in Hj. unfold duty. rewrite Hj in *. split_and!.
    + intros H. destruct (D1 H) as (_ & _ & ?). congruence.
    + intros Hp _. destruct D3 as [y Hy]; [by destruct (t_pc t')..|]. congruence.
    + intros H1 H2. destruct (D3 H1 H2) as [y Hy]. congruence.
  - intros e x H. fold id in H. rewrite Hs' in H. injection H as <- <-. by destruct ok.
  - intros p Hp Hth. destruct p as [i|i|i|i|i]; cbn in Hp; subst i.
    + left. split; [done|]. by left.
    + exfalso. revert Hth. unfold there. destruct ok; cbn; look; by intros [].
    + right; right. split; [|by destruct (t_pc t)]. revert Hth. unfold there. destruct ok; cbn; by look.
    + exfalso. revert Hth. unfold there. destruct ok; cbn; look; by intros [].
    + exfalso. revert Hth. unfold there. destruct ok; cbn; look; by intros [].
Qed.
Lemma acc_run_export now k t o m L : acc m L -> tasks m !! k = Some t -> exporting (t_pc t) = true -> acc (run_export now k (t_job t) (t_pc t) o m) L.
Proof.
  intros A Hk He. pose proof (fun ok => acc_end_export now k t ok m L A Hk He) as Hend.
  assert (Hgo : forall pc f, exporting pc = true -> (forall p, path_job p <> t_job t -> f (files m) !! p = files m !! p) ->
    (forall p, path_job p = t_job t -> is_Some (f (files m) !! p) -> owner p pc = true \/ there m p /\ (owner p (t_pc t) = true -> owner p pc = true)) -> acc (goto k pc (set_files f m)) L).
  { intros pc f Hp Hf HF. apply (acc_goto m _ L k t pc); try done; try by (destruct pc, (t_pc t)). by apply elsewhere_run. }
  destruct (t_pc t) eqn:Ep; try discriminate He; destruct o; cbn; try exact A; try apply Hend.
  - apply (Hgo ExportBuild (fun f => f)); try done. intros p Hp H. right. split; [done|]. by destruct p.
  - apply Hgo; [done|intros p Hp; by look|]. intros [] <-; cbn; look; auto.
  - apply Hgo; [done|intros p Hp; by look|]. intros [] <-; cbn; look; auto.
  - apply Hgo; [done|intros p Hp; by look|]. intros [] <-; cbn; look; auto.
  - unfold replace. destruct (files m !! Part (t_job t)) as [n|] eqn:EP; [|apply Hend].
    apply (Hgo ExportBuilt (fun f => delete (Scratch (t_job t)) (<[BundleFile (t_job t) := n]> (delete (Part (t_job t)) f)))); [done|intros p Hp; by look|].
    intros [] <-; cbn; look; auto; by intros [].
  - apply Hgo; [done|intros p Hp; by look|]. intros [] <-; cbn; look; auto.
Qed.

Lemma acc_end_pull now k t x m L : acc m L -> tasks m !! k = Some t -> pulling (t_pc t) = true ->
  x = Stopped \/ x = Failed \/ x = Planned /\ t_cancelled t = false -> acc (end_pull now k (t_job t) x m) L.
Proof.
  intros A Hk Hp Hx. set (id := t_job t). destruct (acc_duty m L k t A Hk) as (_ & D2 & D3). destruct D3 as [y Hy]; [by destruct (t_pc t)..|].
  apply (acc_settle m _ L L k t x); try done; try by (destruct (t_pc t)).
  - destruct Hx as [->|[->|[-> _]]]; elsewhere_tac.
  - by eapply (sig_end m).
  - by destruct Hx as [->|[->|[-> _]]].
  - intros p Hpj. destruct p as [i|i|i|i|i]; cbn in Hpj; subst i; unfold there, end_pull; cbn; destruct Hx as [->|[->|[-> Hcn]]]; cbn; look; try (by intros []); intros H.
    + destruct (D2 Hp Hcn); [left; auto|by right; left].
    + right; right. split; [done|by destruct (t_pc t)].
    + right; right. split; [done|by destruct (t_pc t)].
    + right; right. split; [done|by destruct (t_pc t)].
    + right; right. split; [done|by destruct (t_pc t)].
    + right; right. split; [done|by destruct (t_pc t)].
    + right; right. split; [done|by destruct (t_pc t)].
    + right; right. split; [done|by destruct (t_pc t)].
    + right; right. split; [done|by destruct (t_pc t)].
    + right; right. split; [done|by destruct (t_pc t)].
Qed.
(** A cancelled task of an import that nothing else changes *)
Lemma acc_idle_finish k t m L : acc m L -> tasks m !! k = Some t -> exporting (t_pc t) = false -> receiving (t_pc t) = false -> holding (t_pc t) = false -> writing (t_pc t) = false ->
  (forall x, busy x = true -> ~ drives x t) -> acc (finish k m) L.
Proof.
  intros A Hk H1 H2 H3 H4 Hd. destruct (acc_duty m L k t A Hk) as (_ & _ & D). destruct (D H1 H2) as [y Hy].
  apply (acc_settle m _ L L k t y); try done; [intros Hb; split; [done|by apply Hd]|]. intros p Hp H. right; right. split; [done|].
  destruct p; cbn; try done. by destruct (t_pc t).
Qed.
Lemma acc_run_pull now k t o m L : acc m L -> tasks m !! k = Some t -> pulling (t_pc t) = true ->
  acc (run_pull max_bytes now k (t_job t) (t_pc t) (t_cancelled t) o m) L.
Proof.
  intros A Hk Hp. pose proof (fun x => acc_end_pull now k t x m L A Hk Hp) as Hend.
  assert (Hgo : forall pc f, pulling pc = true -> (forall p, path_job p <> t_job t -> f (files m) !! p = files m !! p) ->
    (forall p, path_job p = t_job t -> is_Some (f (files m) !! p) -> owner p pc = true \/ there m p /\ (owner p (t_pc t) = true -> owner p pc = true)) -> acc (goto k pc (set_files f m)) L).
  { intros pc f Hp' Hf HF. apply (acc_goto m _ L k t pc); try done; try by (destruct pc, (t_pc t)). by apply elsewhere_run. }
  unfold run_pull. destruct (t_cancelled t) eqn:Ec.
  - destruct (t_pc t) eqn:Ep; try discriminate Hp; try (apply Hend; by left).
    apply (acc_idle_finish k t); rewrite ?Ep; try done. intros [] Hb Hd; cbn in Hd; rewrite ?Ep in Hd; try done. by destruct Hd as [_ Hd]; rewrite Ec in Hd.
  - destruct (t_pc t) eqn:Ep; try discriminate Hp; destruct o; cbn; try exact A; try (apply Hend; by right; left).
    + apply (Hgo PullFetch (fun f => f)); try done. intros p Hq H. right. split; [done|]. by destruct p.
    + apply Hgo; [done|intros p Hq; by look|]. intros [] <-; cbn; look; auto.
    + apply (Hgo PullForget (fun f => f)); try done. intros p Hq H. right. split; [done|]. by destruct p.
    + destruct (over max_bytes (size + n)); [apply Hend; by right; left|]. apply Hgo; [done|intros p Hq; by look|]. intros [] <-; cbn; look; auto.
    + unfold replace. destruct (files m !! Part (t_job t)) as [n|] eqn:EP; [|apply Hend; by right; left].
      apply Hgo; [done|intros p Hq; by look|]. intros [] <-; cbn; look; auto; by intros [].
    + apply (acc_end_pull now k t Planned (change (t_job t) (set_plan ok) m)); [by apply acc_change|done|by rewrite Ep|by do 2 right].
Qed.
Lemma acc_end_apply now k t x m L : acc m L -> tasks m !! k = Some t -> applying (t_pc t) = true -> busy x = false -> acc (end_apply now k (t_job t) x m) L.
Proof.
  intros A Hk Ha Hx. destruct (acc_duty m L k t A Hk) as (_ & _ & D3). destruct D3 as [y Hy]; [by destruct (t_pc t)..|].
  apply (acc_settle m _ L L k t x); try done; try by (destruct (t_pc t)).
  - elsewhere_tac.
  - by eapply (sig_end m).
  - by rewrite Hx.
  - intros p Hp H. right; right. split; [done|]. by destruct p, (t_pc t).
Qed.
Lemma acc_run_apply now k t o m L : acc m L -> tasks m !! k = Some t -> applying (t_pc t) = true -> acc (run_apply now k (t_job t) (t_pc t) o m) L.
Proof.
  intros A Hk Ha. pose proof (fun x => acc_end_apply now k t x m L A Hk Ha) as Hend.
  assert (Hgo : forall m1 pc, acc m1 L -> tasks m1 = tasks m -> applying pc = true -> acc (goto k pc m1) L).
  { intros m1 pc H1 Ht Hp. apply (acc_goto m1 _ L k t pc); try done; try by (destruct pc, (t_pc t)).
    - by rewrite Ht.
    - intros p Hq H. right. split; [done|]. by destruct p, (t_pc t). }
  destruct (t_pc t) eqn:Ep; try discriminate Ha; destruct o; cbn; try exact A; try (apply Hend; done).
  - apply Hgo; [by apply acc_change|done..].
  - by apply Hgo.
  - apply Hend. by destruct stopping, ok.
  - by apply Hgo.
Qed.
Lemma acc_handler k t m L : acc m L -> tasks m !! k = Some t -> t_pc t = Replan \/ t_pc t = Verifying \/ t_pc t = RollingBack -> acc (finish k m) L.
Proof. intros A Hk Hp. apply (acc_idle_finish k t); try done; try by (destruct Hp as [->|[->| ->]]). intros x Hb Hd. destruct x; try done; cbn in Hd; destruct Hp as [E|[E|E]]; rewrite E in Hd; naive_solver. Qed.
Lemma acc_rolled_back k t m L : acc m L -> tasks m !! k = Some t -> t_pc t = RollingBack -> acc (finish k (change (t_job t) (set_state RolledBack) m)) L.
Proof.
  intros A Hk Hp. destruct (acc_duty m L k t A Hk) as (_ & _ & D3). destruct D3 as [y Hy]; [by rewrite Hp..|].
  apply (acc_settle m _ L L k t RolledBack); rewrite ?Hp; try done.
  - elsewhere_tac.
  - change (sig_of (change (t_job t) (set_state RolledBack) m) (t_job t) = Some (false, RolledBack)).
    rewrite sig_change, decide_True by done. unfold sig_of in Hy. destruct (heap m !! t_job t); cbn in *; [|done]. by injection Hy as ->.
  - intros p Hq H. right; right. split; [done|]. by destruct p.
Qed.

(** The request body is done with: its file is gone *)
Lemma acc_body_done k t m L : acc m L -> tasks m !! k = Some t -> receiving (t_pc t) = true -> acc (finish k (set_files (delete (Upload (t_job t))) m)) L.
Proof.
  intros A Hk Hr. destruct (acc_ok m L A (t_job t)) as [A1 A2 A3 A4 A5].
  apply (acc_finish m _ L L k t); try done.
  - elsewhere_tac.
  - intros k' t' _ Ht Hj. apply (duty_mono m _ L); try done; [by left|by apply A3].
  - intros e x Hs Hb. split; [done|]. intros Hd. destruct (t_pc t) eqn:Ep; try done. destruct x; try done; cbn in Hd; rewrite Ep in Hd; naive_solver.
  - intros p Hp. unfold there. cbn. destruct p; cbn in Hp; subst; look; try (by intros []); intros H; right; right; (split; [done|by destruct (t_pc t)]).
Qed.
Lemma fresh_blank m L : acc m L -> blank m (next m) /\ tasks m !! next m = None /\ tasks m !! S (next m) = None.
Proof. intros A. split_and!; apply A; lia. Qed.
Lemma acc_body_moved now k t n m L : acc m L -> tasks m !! k = Some t -> receiving (t_pc t) = true -> let id := next m in
  acc (set_tasks <[k := {| t_job := id; t_pc := BodyPlan; t_cancelled := false |}]>
    (set_heap <[id := {| j_export := false; j_state := Planned; j_plan := None; j_stop := false; j_touched := now |}]>
    (drawn (set_files (fun f => <[BundleFile id := n]> (delete (Upload (t_job t)) f)) m)))) L.
Proof.
  intros A Hk Hr id. set (m' := set_tasks _ _). pose proof (acc_body_done k t m L A Hk Hr) as Ad. set (m1 := finish _ _) in Ad.
  assert (Hs : sig_of m' id = Some (false, Planned)) by (unfold sig_of; cbn; by look). destruct (fresh_blank m1 L Ad) as [Hb _]. destruct (acc_key m L k t A Hk) as [Hlt Hu].
  apply (acc_new m1 m' L id k {| t_job := id; t_pc := BodyPlan; t_cancelled := false |}); try done; cbn; try (unfold id; lia); try by (intros; look).
  - by rewrite insert_delete_eq.
  - unfold duty. cbn. split_and!; try done. intros _ _. by exists Planned.
  - intros H. exfalso. by apply (blank_exports m1 id) in H.
  - intros _. by exists Planned.
  - intros e x. fold m'. rewrite Hs. by intros [= <- <-].
  - intros p Hp H. destruct p; cbn in Hp; subst; try done; exfalso; revert H; unfold there, m'; cbn; look; intros H; try apply there_delete in H; refine (blank_files m id (acc_blank m L A id ltac:(done)) _ _ H); done.
Qed.
Lemma acc_start_export now m L : acc m L -> acc (start_export keep_s now m) (L ∪ lost m (sweep keep_s now m)).
Proof.
  intros A%(acc_sweep now). unfold start_export. set (m1 := sweep keep_s now m) in *. clearbody m1. set (L1 := L ∪ _) in *. clearbody L1. set (m' := create_task _ _ _).
  destruct (fresh_blank m1 L1 A) as (Hb & _ & Hk). assert (Hs : sig_of m' (next m1) = Some (true, Running)) by (unfold sig_of; cbn; by look).
  assert (Hc : current m' !! next m1 = Some (S (next m1))) by (cbn; by look).
  apply (acc_new m1 m' L1 (next m1) (S (next m1)) {| t_job := next m1; t_pc := ExportFetch; t_cancelled := false |}); try done; cbn; try lia; rewrite ?Hs; try by (intros; look).
  - set_solver.
  - unfold duty. cbn. rewrite Hs. split_and!; try done. intros _. split_and!; [done|set_solver|done].
  - by exists Running.
  - intros H. by apply (blank_imports m1 (next m1) Hb) in H.
  - by intros e x [= <- <-].
  - intros p Hp H. by destruct (blank_files m1 (next m1) Hb p Hp).
Qed.
Lemma acc_start_pull now m L : acc m L -> acc (start_pull keep_s now m) (L ∪ lost m (sweep keep_s now m)).
Proof.
  intros A%(acc_sweep now). unfold start_pull. set (m1 := sweep keep_s now m) in *. clearbody m1. set (L1 := L ∪ _) in *. clearbody L1. set (m' := create_task _ _ _).
  destruct (fresh_blank m1 L1 A) as (Hb & _ & Hk). assert (Hs : sig_of m' (next m1) = Some (false, Fetching)) by (unfold sig_of; cbn; by look).
  assert (Hc : current m' !! next m1 = Some (S (next m1))) by (cbn; by look).
  apply (acc_new m1 m' L1 (next m1) (S (next m1)) {| t_job := next m1; t_pc := PullStart; t_cancelled := false |}); try done; cbn; try lia; rewrite ?Hs; try by (intros; look).
  - set_solver.
  - unfold duty. cbn. rewrite Hs. split_and!; try done; [left; set_solver|by exists Fetching].
  - intros H. by apply (blank_exports m1 (next m1) Hb) in H.
  - by exists Fetching.
  - by intros e x [= <- <-].
  - intros p Hp H. by destruct (blank_files m1 (next m1) Hb p Hp).
Qed.
Lemma acc_body_begin m L : acc m L -> acc (body_begin m) L.
Proof.
  intros A. unfold body_begin. set (m' := spawn _ _ _). destruct (fresh_blank m L A) as (Hb & _ & Hk).
  apply (acc_new m m' L (next m) (S (next m)) {| t_job := next m; t_pc := Body 0; t_cancelled := false |}); try done; cbn; try lia; try by (intros; look).
  - intros H. by apply (blank_exports m (next m) Hb) in H.
  - intros H. by apply (blank_imports m (next m) Hb) in H.
  - intros e x H. pose proof (blank_sig m (next m) Hb) as Hs. unfold sig_of in *. cbn in H. rewrite H in Hs. done.
  - intros p Hp H. destruct p; cbn in Hp; subst; try done; exfalso; revert H; unfold there; cbn; look; intros H; by refine (blank_files m (next m) Hb _ _ H).
Qed.
Lemma acc_run_body now k t o m L : acc m L -> tasks m !! k = Some t -> receiving (t_pc t) = true \/ t_pc t = BodyPlan ->
  acc (run_body keep_s max_bytes now k (t_job t) (t_pc t) o m) (L ∪ (failed_plan m (Resume k o) ∪ lost m (run_body keep_s max_bytes now k (t_job t) (t_pc t) o m))).
Proof.
  intros A Hk Hor. set (L' := L ∪ _). assert (HL : L ⊆ L') by set_solver.
  assert (Hup : forall m', acc m' L -> acc m' L') by (intros m'; by apply acc_mono). destruct Hor as [Hr|Hp].
  - pose proof (Hup _ (acc_body_done k t m L A Hk Hr)) as Hd. unfold run_body in L'. destruct (t_pc t) eqn:Ep; try discriminate Hr. destruct o; cbn; try (by apply Hup); try exact Hd.
    + cbn in L'. case_bool_decide; [done|]. apply (acc_body_moved now k t size (sweep keep_s now m)); [|done|by rewrite Ep].
      eapply acc_mono; [|by apply acc_sweep]. set_solver.
    + destruct (over max_bytes (size + n)); [done|]. apply Hup. apply (acc_goto m _ L k t (Body (size + n))); rewrite ?Ep; try done; [elsewhere_tac|].
      intros p Hq. unfold there. cbn. destruct p; cbn in Hq; subst; look; auto.
  - destruct (acc_duty m L k t A Hk) as (_ & _ & D3). destruct D3 as [y Hy]; [by rewrite Hp..|].
    assert (Hd : forall x, ~ drives x t) by (intros x Hd; destruct x; try done; cbn in Hd; rewrite Hp in Hd; naive_solver).
    rewrite Hp. destruct o as [| |ok| | |[]]; cbn; try (by apply Hup).
    + apply (acc_settle m _ L L' k t y); rewrite ?Hp; try done.
      * elsewhere_tac.
      * cbn. set_solver.
      * rewrite <-Hy. apply (change_keeps m). by intros [].
      * intros p Hq H. destruct p; cbn in Hq; subst; cbn; [left; split; [done|set_solver]|by right; right..].
    + apply (acc_settle m _ L L' k t y); rewrite ?Hp; try done; [elsewhere_tac|].
      intros p Hq. unfold there. cbn. destruct p; cbn in Hq; subst; look; try (by intros []); intros H; by right; right.
    + apply (acc_settle m _ L L' k t y); rewrite ?Hp; try done. intros p Hq H. destruct p; cbn in Hq; subst; [right; left|by right; right..].
      cbn. unfold L'. cbn. rewrite Hk, Hp. set_solver.
Qed.
Lemma acc_resume now k o m L : acc m L -> acc (resume keep_s max_bytes now k o m) (L ∪ leaks keep_s max_bytes m (now, Resume k o)).
Proof.
  intros A. unfold leaks, step. cbn [handle fst snd]. unfold resume. destruct (tasks m !! k) as [t|] eqn:Hk; [|by apply (acc_mono m L); [set_solver|]].
  assert (Hup : forall m' X, acc m' L -> acc m' (L ∪ X)) by (intros m' X; apply acc_mono; set_solver).
  destruct (t_pc t) eqn:Ep; rewrite <-?Ep; try (apply Hup, acc_run_export; try done; by rewrite Ep); try (apply Hup, acc_run_pull; try done; by rewrite Ep);
    try (apply Hup, acc_run_apply; try done; by rewrite Ep).
  - apply acc_run_body; try done. left. by rewrite Ep.
  - apply acc_run_body; try done. by right.
  - apply Hup. unfold run_replan. destruct o; try done; [|by apply (acc_handler k t); auto]. apply (acc_handler k t); [by apply acc_change|done|by left].
  - apply Hup. unfold run_verify. destruct o; try done; [|by apply (acc_handler k t); auto]. apply (acc_handler k t); [by apply acc_change|done|by right; left].
  - apply Hup. unfold run_rollback. destruct o; try done; [by apply acc_rolled_back|]. apply (acc_handler k t); auto.
Qed.

(** A request about an import: it is found and touched *)
Lemma acc_on_import now id m L L' f : acc m L -> L ⊆ L' ->
  (forall j, let m1 := change id (touch now) m in acc m1 L -> id ∈ imports m1 -> sig_of m1 id = Some (false, j_state j) -> acc (f j m1).1 L') ->
  acc (on_job (import_job now id m) m f).1 L'.
Proof.
  intros A HL Hf. pose proof (import_job_spec now id m) as H. destruct (import_job now id m) as [[j m1]|]; cbn; [|by apply (acc_mono m L)].
  destruct H as (Him & Hj & ->). destruct (at_import _ _ _ (acc_ok m L A id) Him) as (x & Hs).
  apply Hf; [by apply acc_change|done|]. transitivity (sig_of m id); [apply (change_keeps m id (touch now)); by intros []|]. unfold sig_of in *. rewrite Hj in *. cbn in *. congruence.
Qed.
Lemma acc_start_apply id m L : acc m L -> id ∈ imports m -> acc (create_task id ApplyPlan (change id (set_stop false ∘ set_state Applying) m)) L.
Proof.
  intros A Him. destruct (at_import _ _ _ (acc_ok m L A id) Him) as (x & Hs).
  apply (acc_spawn m _ L (next m) {| t_job := id; t_pc := ApplyPlan; t_cancelled := false |}); try done.
  - intros i Hne. change (sig_of (change id (set_stop false ∘ set_state Applying) m) i = sig_of m i). by rewrite sig_change, decide_False.
  - intros i Hne. cbn. by rewrite lookup_insert_ne.
  - right. exists Applying. split_and!; try done. change (sig_of (change id (set_stop false ∘ set_state Applying) m) id = Some (false, Applying)).
    rewrite sig_change, decide_True by done. unfold sig_of in Hs. destruct (heap m !! id); cbn in *; [|done]. by injection Hs as ->.
Qed.
Lemma acc_spawn_handler id pc m L : acc m L -> id ∈ imports m -> exporting pc = false -> receiving pc = false -> acc (spawn id pc m) L.
Proof. intros A Him H1 H2. apply (acc_spawn m _ L (next m) {| t_job := id; t_pc := pc; t_cancelled := false |}); try done. by left. Qed.
Lemma acc_stop id m L : acc m L -> sig_of m id = Some (false, Fetching) ->
  acc (change id (set_state Stopped) (match current m !! id with Some k => cancel k m | None => m end)) L.
Proof.
  intros A Hs. destruct (acc_ok m L A id) as [A1 A2 A3 A4 A5]. destruct (A4 false Fetching Hs eq_refl) as (k & t & Ht & Hj & [Hp Hcn] & Hc). rewrite (Hc eq_refl). set (m' := change _ _ _).
  destruct (acc_key m L k t A Ht) as [Hlt Hid]. set (t' := {| t_job := t_job t; t_pc := t_pc t; t_cancelled := true |}).
  assert (Hs' : sig_of m' id = Some (false, Stopped)).
  { change (sig_of (change id (set_state Stopped) m) id = Some (false, Stopped)). rewrite sig_change, decide_True by done.
    unfold sig_of in Hs. destruct (heap m !! id); cbn in *; [|done]. by injection Hs as ->. }
  assert (Ho : forall k', k' <> k -> tasks m' !! k' = tasks m !! k') by (intros k' Hne; cbn; by rewrite lookup_alter_ne).
  assert (Hkk : tasks m' !! k = Some t') by (cbn; by rewrite lookup_alter_eq, Ht).
  apply (acc_local m m' L L id); [done|done|done| |cbn; lia| |].
  - intros k' Hle. cbn in Hle. rewrite Ho by lia. by apply A.
  - intros i Hne. split; try done; [change (sig_of (change id (set_state Stopped) m) i = sig_of m i); by rewrite sig_change, decide_False|].
    intros k' t1 Hj1. destruct (decide (k' = k)) as [->|Hne']; [|by rewrite Ho]. rewrite Hkk, Ht. split; intros [= <-]; cbn in Hj1; congruence.
  - split.
    + intros H. destruct (A1 H). congruence.
    + intros _. by exists Stopped.
    + intros k' t1 Ht1 Hj1. assert (D : forall k1 t2, tasks m !! k1 = Some t2 -> t_job t2 = id -> exporting (t_pc t2) = false /\ (pulling (t_pc t2) = true -> t_cancelled t2 = false -> id ∈ imports m \/ id ∈ L)).
      { intros k1 t2 Hk1 Hj2. destruct (A3 k1 t2 Hk1 Hj2) as (D1 & D2 & _). rewrite Hj2 in *. split; [|done]. destruct (exporting (t_pc t2)); [|done]. destruct (D1 eq_refl). congruence. }
      unfold duty. rewrite Hj1. destruct (decide (k' = k)) as [->|Hne'].
      * rewrite Hkk in Ht1. injection Ht1 as <-. destruct (D k t Ht Hj) as [D1 _]. cbn. rewrite D1. split_and!; [done|done|eauto].
      * rewrite Ho in Ht1 by done. destruct (D k' t1 Ht1 Hj1) as [D1 D2]. rewrite D1. split_and!; [done|exact D2|eauto].
    + intros e y. rewrite Hs'. by intros [= <- <-].
    + intros p Hq H. destruct (A5 p Hq H) as [[G|G]|G]; [left; left|by left; right|by right]. destruct G as (k1 & t1 & G1 & G2 & G3).
      destruct (decide (k1 = k)) as [->|Hne]; [exists k, t'; by simplify_eq|exists k1, t1; by rewrite Ho].
Qed.
Lemma acc_deleted id m m' L L' : acc m L -> sig_of m id <> Some (true, Running) -> heap m' = heap m -> next m' = next m -> tasks m' = tasks m -> current m' = current m ->
  files m' = delete (BundleFile id) (files m) -> (forall i, i ∈ exports m' <-> i ∈ exports m /\ i ∉ ({[id]} : gset nat)) -> (forall i, i ∈ imports m' <-> i ∈ imports m /\ i ∉ ({[id]} : gset nat)) ->
  L ∪ lost m m' ⊆ L' -> acc m' L'.
Proof.
  intros A Hr Hh Hn Ht Hc Hf Hx Hm HL. eapply acc_mono; [exact HL|]. apply (acc_drop m m' L {[id]}); try done.
  - by intros i ->%elem_of_singleton.
  - intros p. unfold there. rewrite Hf. apply there_delete.
  - intros p. unfold there. rewrite Hf. destruct p; try done. intros H ->%elem_of_singleton. by apply not_there_delete in H.
Qed.
Lemma lost_touched now id m m' : lost (change id (touch now) m) m' = lost m m'.
Proof. done. Qed.

Lemma acc_any_step m L e : acc m L -> acc (step keep_s max_bytes m e) (L ∪ leaks keep_s max_bytes m e).
Proof.
  intros A. destruct e as [now e]. set (L' := L ∪ _). assert (HL : L ⊆ L') by set_solver. assert (Hup : forall m', acc m' L -> acc m' L') by (intros m'; by apply acc_mono).
  assert (Hl : lost m (step keep_s max_bytes m (now, e)) ⊆ L') by set_solver.
  unfold step in *. destruct e as [| | |k o|id|id|id|id|id|id|id|id|id]; cbn [handle fst snd] in Hl |- *.
  - eapply acc_mono; [|by apply acc_start_export]. change (lost m (start_export keep_s now m)) with (lost m (sweep keep_s now m)) in Hl. set_solver.
  - eapply acc_mono; [|by apply acc_start_pull]. assert (lost m (sweep keep_s now m) ⊆ lost m (start_pull keep_s now m)); [|set_solver].
    intros i. unfold lost. rewrite !elem_of_filter. intros [[H1 H2] H3]. split_and!; try done. cbn in *. apply not_elem_of_union. split; [|done]. intros ->%elem_of_singleton.
    by destruct (fresh_blank m L A) as [[_ _ Hb _ _ _] _].
  - by apply Hup, acc_body_begin.
  - by apply acc_resume.
  - pose proof (export_job_spec now id m) as H. destruct (export_job now id m) as [[j m1]|]; cbn; [|by apply Hup]. destruct H as (_ & _ & ->). by apply Hup, acc_change.
  - apply (acc_on_import now id m L); [done|done|]. intros j m1 A1 _ _. by apply Hup.
  - pose proof (export_job_spec now id m) as H. unfold delete_export in *. destruct (export_job now id m) as [[j m1]|]; cbn in Hl |- *; [|by apply Hup].
    destruct H as (Hx & Hj & ->). case_bool_decide as Hr; [by apply Hup, acc_change|]. cbn in Hl |- *. destruct (at_export _ _ _ (acc_ok m L A id) Hx) as (x & Hs).
    assert (Him : id ∉ imports m) by (intros H; by apply (sig_kind m L id true x A Hs) in H).
    apply (acc_deleted id (change id (touch now) m) _ L); try done; [by apply acc_change| | | |rewrite lost_touched; set_solver].
    + rewrite sig_change, decide_True by done. rewrite Hj. cbn. intros [= _ H]. done.
    + intros i. cbn. by rewrite elem_of_difference.
    + intros i. cbn. split; [|tauto]. intros H. split; [done|]. by intros ->%elem_of_singleton.
  - revert Hl. unfold delete_import. intros Hl. pose proof (import_job_spec now id m) as H. destruct (import_job now id m) as [[j m1]|]; cbn in Hl |- *; [|by apply Hup].
    destruct H as (Him & Hj & ->). case_bool_decide as Hr; [by apply Hup, acc_change|]. cbn in Hl |- *. destruct (at_import _ _ _ (acc_ok m L A id) Him) as (x & Hs).
    assert (Hx : id ∉ exports m) by (intros H; by apply (sig_kind m L id false x A Hs) in H).
    apply (acc_deleted id (change id (touch now) m) _ L); try done; [by apply acc_change| | | |rewrite lost_touched; set_solver].
    + rewrite sig_change, decide_True by done. unfold sig_of in Hs. rewrite Hj in Hs. rewrite Hj. cbn in *. injection Hs as -> _. done.
    + intros i. cbn. split; [|tauto]. intros H. split; [done|]. by intros ->%elem_of_singleton.
    + intros i. cbn. by rewrite elem_of_difference.
  - apply (acc_on_import now id m L); [done|done|]. intros j m1 A1 Him _. case_bool_decide; [by apply Hup|]. apply Hup. by apply acc_spawn_handler.
  - apply (acc_on_import now id m L); [done|done|]. intros j m1 A1 Him _. apply Hup. case_bool_decide; [done|]. destruct (_ || _); [done|]. case_bool_decide; [done|]. by apply acc_start_apply.
  - apply (acc_on_import now id m L); [done|done|]. intros j m1 A1 Him _. apply Hup. destruct (_ || _ || _); [done|]. by apply acc_spawn_handler.
  - apply (acc_on_import now id m L); [done|done|]. intros j m1 A1 Him Hs. apply Hup. case_bool_decide as Hf; [apply acc_stop; [done|by rewrite Hs, Hf]|]. case_bool_decide; [by apply acc_change|done].
  - apply (acc_on_import now id m L); [done|done|]. intros j m1 A1 Him _. apply Hup. case_bool_decide; [done|]. by apply acc_spawn_handler.
Qed.
Lemma acc_start : acc new_manager ∅.
Proof.
  split; [|intros id _; split; try done; by intros p _ []|done]. intros id. split; try done. by intros p _ [].
Qed.
Lemma reachable_acc m L : reachable (leaky_step keep_s max_bytes) (new_manager, ∅) (m, L) -> acc m L.
Proof.
  intros H. change (acc (m, L).1 (m, L).2). revert H. apply (reachable_inv (leaky_step keep_s max_bytes) (fun s => acc s.1 s.2)); [apply acc_start|]. intros [m1 L1] e A. by apply acc_any_step.
Qed.
End any_steps.


(** C20: While an import is being applied, nothing else works on it and its bundle stays: its state says so, it is in the table, no second
    apply of it is in flight, and every request that would start one, delete it, plan it again or undo it is refused, as long as
    requests are orderly. *)
Theorem applying_undisturbed (keep_s : Z) (max_bytes : N) (m : Manager) (k : nat) (t : Task) :
  reachable (orderly_step keep_s max_bytes) new_manager m -> tasks m !! k = Some t -> applying (t_pc t) = true ->
  let id := t_job t in
  state_of m id = Some Applying /\ id ∈ imports m /\ there m (BundleFile id)
  /\ (forall k' t', tasks m !! k' = Some t' -> t_job t' = id -> applying (t_pc t') = true -> k' = k)
  /\ forall now, (start_apply now id m).2 = Raise 409 /\ (delete_import now id m).2 = Raise 409
              /\ (replan now id m).2 = Raise 409 /\ (rollback now id m).2 = Raise 409.
Proof.
  intros Hi%reachable_orderly Hk Ha id. destruct (applying_claim m k t Hi Hk Ha) as (Hs & Him & Hc & Hb). fold id in Hs, Him, Hc, Hb.
  assert (Hst : state_of m id = Some Applying) by (unfold state_of, sig_of in *; destruct (heap m !! id); cbn in *; [congruence|done]).
  split_and!; try done.
  - intros k' t' Hk' Hj Ha'. destruct (applying_claim m k' t' Hi Hk' Ha') as (_ & _ & Hc' & _). rewrite Hj in Hc'. congruence.
  - intros now. unfold start_apply, delete_import, replan, rollback. pose proof (import_job_spec now id m) as H. unfold state_of in Hst.
    destruct (heap m !! id) as [j|] eqn:Hj; [|done]. cbn in Hst. injection Hst as Hst. destruct (import_job now id m) as [[j' m1]|]; [|by destruct H].
    destruct H as (_ & [= <-] & _). cbn. rewrite Hst. by split_and!.
Qed.

(** No job is left busy with nobody at work on it: an export that is running, an import that is being fetched and one that is being applied
    each have their coroutine in flight, so that every job ends in a state from which it can be deleted, swept or started again. *)
Theorem busy_job_driven (keep_s : Z) (max_bytes : N) (m : Manager) (id : nat) (j : Job) :
  reachable (orderly_step keep_s max_bytes) new_manager m -> heap m !! id = Some j -> busy (j_state j) = true ->
  exists k t, tasks m !! k = Some t /\ t_job t = id /\ drives (j_state j) t.
Proof.
  intros Hi%reachable_orderly Hj Hb. assert (Hs : sig_of m id = Some (j_export j, j_state j)) by (unfold sig_of; by rewrite Hj).
  destruct (ok_busy m id (inv_ok m Hi id) _ _ Hs Hb) as (k & t & _ & H). by exists k, t.
Qed.

(** ** Some courses of events *)

Module Example_transfer.
Definition hour : Z := 3600.
Definition play (es : list Ev) : Manager := foldl (step (24 * hour) 100) new_manager ((fun e => (0%Z, e)) <$> es).
Definition play_orderly (es : list Ev) : Manager := foldl (orderly_step (24 * hour) 100) new_manager ((fun e => (0%Z, e)) <$> es).

(** A pull of ten bytes, up to the plan *)
Definition downloading : list Ev := [StartPull; Resume 1 Fine; Resume 1 Fine; Resume 1 (Chunk 10)].
Definition fetched : list Ev := downloading ++ [Resume 1 Fine; Resume 1 Fine].
Definition planned : list Ev := fetched ++ [Resume 1 (PlanIs true)].
Definition being_applied : list Ev := planned ++ [StartApply 0; Resume 2 (PlanIs true); Resume 2 Fine].

Example pull_is_planned : let m := play planned in
  state_of m 0 = Some Planned /\ files m = {[BundleFile 0 := 10%N]} /\ tasks m = ∅.
Proof. vm_compute. done. Qed.
(** More than the cap: the partial file is removed. *)
Example pull_over_cap : let m := play [StartPull; Resume 1 Fine; Resume 1 Fine; Resume 1 (Chunk 60); Resume 1 (Chunk 60)] in
  state_of m 0 = Some Failed /\ files m = ∅.
Proof. vm_compute. done. Qed.
(** Stopped while it is planned: the bundle goes too. *)
Example pull_stopped : let m := play (fetched ++ [StopImport 0; Resume 1 Fine]) in state_of m 0 = Some Stopped /\ files m = ∅ /\ tasks m = ∅.
Proof. vm_compute. done. Qed.
(** An apply that is asked to stop, and started again *)
Example apply_stopped_resumed : let m := play (being_applied ++ [StopImport 0; Resume 2 Asked; Resume 2 (Report false)]) in
  state_of m 0 = Some Stopped /\ (start_apply 0 0 m).2 = Ok ().
Proof. vm_compute. done. Qed.

(** An export with history, between packing its bundle and the end: its temporary files are there, and gone afterwards. *)
Example export_files : let packing := [StartExport; Resume 1 (Chunk 5); Resume 1 Fine; Resume 1 Fine; Resume 1 Fine; Resume 1 (Chunk 10)] in
  files (play packing) = <[History 0 := 5%N]> (<[Scratch 0 := 0%N]> {[Part 0 := 10%N]})
  /\ files (play (packing ++ [Resume 1 Fine; Resume 1 Fine])) = {[BundleFile 0 := 10%N]} /\ files (play (packing ++ [Resume 1 (Err false)])) = ∅.
Proof. vm_compute. done. Qed.

(** The import planned above, and an upload whose plan cannot be made: the sweep removes the one and leaves the other. *)
Definition play_leaky (es : list Ev) : Manager * gset nat := foldl (leaky_step (24 * hour) 100) (new_manager, ∅) ((fun e => (0%Z, e)) <$> es).
Definition lost_upload : list Ev := planned ++ [BodyBegin; Resume 3 (Chunk 20); Resume 3 Fine; Resume 3 (Err false)].

Lemma applying_undisturbed_witness : let m := play_orderly being_applied in
  exists t, tasks m !! 2 = Some t /\ t_pc t = ApplyRun false /\ state_of m 0 = Some Applying /\ (rollback 0 0 m).2 = Raise 409.
Proof.
  assert (Hr : reachable (orderly_step (24 * hour) 100) new_manager (play_orderly being_applied)) by apply reachable_foldl.
  exists {| t_job := 0; t_pc := ApplyRun false; t_cancelled := false |}. split; [vm_compute; reflexivity|]. split; [reflexivity|].
  destruct (applying_undisturbed (24 * hour) 100 (play_orderly being_applied) 2 {| t_job := 0; t_pc := ApplyRun false; t_cancelled := false |} Hr)
    as (H1 & _ & _ & _ & H2); [vm_compute; reflexivity|reflexivity|]. split; [exact H1|]. apply (H2 0%Z).
Defined.

Lemma busy_job_driven_witness : exists k t, tasks (play_orderly fetched) !! k = Some t /\ t_job t = 0 /\ drives Fetching t.
Proof.
  assert (Hr : reachable (orderly_step (24 * hour) 100) new_manager (play_orderly fetched)) by apply reachable_foldl.
  apply (busy_job_driven (24 * hour) 100 (play_orderly fetched) 0
    {| j_export := false; j_state := Fetching; j_plan := None; j_stop := false; j_touched := 0 |} Hr); vm_compute; reflexivity.
Defined.

(** An import that is deleted while its bundle is fetched: the fetch goes on, and its file is nobody's; no sweep removes it. *)
Theorem deleted_fetch_leaks : let m := play (downloading ++ [DeleteImport 0; Resume 1 Fine; Resume 1 Fine; Resume 1 (PlanIs true)]) in
  (delete_import 0 0 (play downloading)).2 = Ok () /\ tasks m = ∅ /\ imports m = ∅
  /\ files m = {[BundleFile 0 := 10%N]} /\ files (sweep (24 * hour) (1000 * hour) m) = {[BundleFile 0 := 10%N]}.
Proof. vm_compute. done. Qed.

(** An upload whose plan fails for another reason than its bundle (the database cannot be read): the bundle stays without a job. *)
Theorem failed_plan_leaks : let m := play [BodyBegin; Resume 1 (Chunk 10); Resume 1 Fine; Resume 1 (Err false)] in
  tasks m = ∅ /\ imports m = ∅ /\ files m = {[BundleFile 2 := 10%N]} /\ files (sweep (24 * hour) (1000 * hour) m) = {[BundleFile 2 := 10%N]}.
Proof. vm_compute. done. Qed.

(** An apply may start while an undo of the import is under way: the undo then marks the import as undone though the apply still writes, and a
    second apply is accepted beside it. *)
Theorem undo_beside_apply : let m := play (planned ++ [AskRollback 0; StartApply 0; Resume 2 Fine]) in
  (rollback 0 0 (play planned)).2 = Ok () /\ state_of m 0 = Some RolledBack /\ t_pc <$> tasks m !! 3 = Some ApplyPlan
  /\ (start_apply 0 0 m).2 = Ok () /\ t_pc <$> tasks (start_apply 0 0 m).1 !! 4 = Some ApplyPlan /\ t_pc <$> tasks (start_apply 0 0 m).1 !! 3 = Some ApplyPlan.
Proof. vm_compute. done. Qed.

(** The tables do not outlive the process and the files do, so what was spooled before a restart is never swept. *)
Definition restart (m : Manager) : Manager :=
  {| heap := ∅; exports := ∅; imports := ∅; files := files m; tasks := ∅; current := ∅; next := next m |}.
Theorem restart_leaks keep_s now m : files (sweep keep_s now (restart m)) = files m.
Proof.
  apply map_eq. intros p. rewrite sweep_files. by destruct p.
Qed.
End Example_transfer.
End Jobs.
